(* ===== verification/_CoqProject ===== *)
-Q . S2P
Prelude.v
ByteOrder.v
IpProto.v
LwipChksum.v
SLinkedList.v
BPending.v
ChunkBuffer.v
PacketBuffer.v
PacketProto.v
Flow.v
ProtoFlow.v
FairQueue.v
BAddr.v
BAVL.v
LinkedList1.v
BSocksClient.v
UdpGwClient.v
UdpGwIndex.v
SocksUdpGw.v
Tun2socksUdp.v
Tun2socksTcp.v
PdnsdNames.v
PdnsdCompress.v
PdnsdNameStr.v
PdnsdHash.v
PdnsdLock.v
PdnsdSort.v
PdnsdCent.v
PdnsdCache.v
PdnsdCentInv.v
PdnsdCacheCost.v
PdnsdCacheInv.v
PdnsdCacheOps.v
PdnsdCacheAdd.v
PdnsdCacheOwn.v
PdnsdDisk.v
PdnsdDiskInv.v
PdnsdCacheSure.v
PdnsdCacheRun.v
PdnsdCacheMem.v
PdnsdDiskTrip.v
PdnsdRecords.v
PdnsdAnswer.v
PdnsdAnswerInv.v
PdnsdAnswerMem.v
PdnsdAnswerRun.v
PdnsdQuery.v
PdnsdRecordsRun.v
PdnsdResolve.v
PdnsdAnswerEx.v
