(* ===== verification/Prelude.v ===== *)
(** * LibreRoute: the native packet path and the DNS resolver, verified

    LibreRoute is an Android application that captures the traffic of the
    device and carries it over a SOCKS server. The Kotlin part starts two
    native programs, whose C sources are under [src/app/src/main/jni/]:

    - [badvpn/tun2socks/tun2socks.c] reads IP packets from the TUN device. TCP
      goes to the lwIP stack, whose callbacks drive one SOCKS5 client for each
      connection; UDP goes to a udpgw server through one further SOCKS
      connection, or, for DNS, is rewritten towards pdnsd. Everything runs in one
      thread: a reactor calls handlers, handlers set jobs, and data moves between
      objects by the packet-pass and stream-pass protocols (one operation at a
      time, completed by a [Done] call).
    - [pdnsd/src/] answers the redirected queries from a cache.

    The build is for little-endian targets with [NDEBUG], so assertions of badvpn
    are not compiled; those of pdnsd ([PDNSD_ASSERT]) always are.

    ** Conventions

    A C integer is a [Z] (or a [nat] where the source only uses it as a
    length or an index) with the wrap-around written where it can happen
    ([u8], [u16], [u32], [u64], [s32] below). Bytes are [Byte.byte]; a buffer is
    a list of bytes whose length is the size of the allocation. Reads and writes
    out of bounds, the use of freed memory and broken preconditions of a called
    object are values: [None], or a recorded fault, so that the absence of
    undefined behaviour is a theorem. Results of code outside the
    repository (the operating system, [malloc], the peer) are arguments of
    the operations or parameters of a section.

    ** Files

    - [Prelude]: machine integers, bytes, list lemmas, tactics and hint bases.
    - [ByteOrder]: [misc/byteorder.h], [misc/read_write_int.h].
    - [IpProto]: [misc/ipv4_proto.h], [misc/ipv6_proto.h], [misc/udp_proto.h].
      Headers as records with their wire form, checksums, acceptance checks
      (C1, C2).
    - [LwipChksum]: [lwip/src/core/inet_chksum.c], the configured algorithm,
      on single buffers and on chains of pbufs (C3); its agreement with
      [udp_checksum].
    - [SLinkedList], [BPending]: [structure/SLinkedList_impl.h] and
      [base/BPending.c] over a heap of list nodes. Every operation of the list is the one
      on sequences; the job queue refines a list of distinct jobs (C5).
    - [ChunkBuffer], [PacketBuffer]: the ring of packets of
      [structure/ChunkBuffer2.h] with its wrap point, and [flow/PacketBuffer.c]
      on it. First in, first out, without loss (C6), never stuck.
    - [PacketProto]: [flow/PacketProtoEncoder.c], [PacketProtoDecoder.c].
      Modules [Encoder] and [Decoder]; any segmentation of the stream gives the
      packets back (C8), and the decoder always either delivers, receives or
      reports an error.
    - [Flow]: a module for each of [flow/PacketPassInterface.c],
      [PacketStreamSender.c], [PacketPassConnector.c] (which loses nothing when its
      output is exchanged),
      [flowextra/PacketPassInactivityMonitor.c], [SinglePacketBuffer.c],
      [BufferWriter.c].
    - [ProtoFlow]: [flow/PacketProtoFlow.c], and the composition writer, encoder,
      buffer, stream, decoder as one system (C14).
    - [FairQueue]: [flow/PacketPassFairQueue.c]: order of service (C15),
      no starvation (C16), the charge for a packet and its overflow.
    - [BAddr]: the socket address of [system/BAddr.h] and its order; the class
      [Comparator] states what a tree asks of a comparator, and the comparators of
      the program are its instances.
    - [BAVL]: [structure/BAVL.h] over a heap of nodes with parent links: rotations,
      rebalancing, exchange of nodes. The tree refines a sorted list for any
      instance of [Comparator] (C21), and its depth is logarithmic.
    - [LinkedList1]: [structure/LinkedList1.h] over a heap of nodes.
    - [BSocksClient]: [socksclient/BSocksClient.c] as a state machine driven by
      the server's bytes. [UP] is reported only after a complete successful
      dialogue (C18), a conforming server leads there (C19), and no sequence of
      events breaks a precondition of the objects underneath (C20).
    - [UdpGwClient]: [udpgw_client/UdpGwClient.c]: the connection table with its
      two indices and the recency list, and what is received for it (C25).
    - [UdpGwIndex]: the finite maps and the list in that model are implemented by
      [BAVL] and [LinkedList1] (C32).
    - [SocksUdpGw]: [tun2socks/SocksUdpGwClient.c]: the SOCKS client and the udpgw client as
      one system, with the timer that connects again (C23).
    - [Tun2socksUdp]: the UDP path, the DNS redirection and the device side of
      [tun2socks.c], with the round trip of a packet and of the redirection.
    - [Tun2socksTcp]: the life of a TCP client in [tun2socks.c] with lwIP and the
      SOCKS client as environment. Every access to the client structure tests that it
      is allocated; the callbacks of lwIP run the jobs they cause before they return, find out by
      [misc/dead.h] whether those freed the client, and return [ERR_ABRT] exactly when the
      connection is gone (C33). Both streams are copied without loss (C34) and never get
      stuck (C35).
    - [PdnsdNames], [PdnsdCompress], [PdnsdNameStr]: domain names in
      [pdnsd/src/dns.c] and [helpers.c]: decompression (C36), compression and its
      round trip, text forms.
    - [PdnsdHash]: [pdnsd/src/hash.c] over a heap of chain entries, refining a
      finite map from names (C40).
    - [PdnsdLock]: the read-write lock of [pdnsd/src/cache.c] as an interleaving of
      threads: mutual exclusion (C24), and every waiting thread gets the lock when
      the holders release it (C26).
    - [PdnsdSort]: the merge sort and the insertion that order the list of record
      sets by age build the same list (C31).
    - [PdnsdCent], [PdnsdCache]: cache entries and the operations of the cache on a
      heap of entries, the list of record sets and the hash table as a finite map.
    - [PdnsdCentInv]: the invariant of that heap and the effect of the operations on
      one entry; a calculus of postconditions for the monad.
    - [PdnsdCacheCost]: how many addresses each operation of the cache hands out, which
      bounds the length of the list it may have to sort, and that memory that is available
      stays so.
    - [PdnsdCacheInv], [PdnsdCacheOps], [PdnsdCacheAdd], [PdnsdCacheOwn]: the invariant of
      the cache and the effect of deleting and purging, of looking up, of adding and
      changing, and of what the callers do with entries of their own, on every branch.
    - [PdnsdDisk], [PdnsdDiskInv]: the disk cache file, with the struct layouts as
      byte formats, and reading arbitrary bytes as such a file.
    - [PdnsdCacheSure]: operations of the cache of which every allocation succeeds; no file
      makes the process end.
    - [PdnsdCacheRun]: any sequence of operations by the callers. Nothing is used after
      it was freed and no assertion fails (C4), the size and the list of the cache
      are right (C10), every record set in the cache was handed over for its name
      and type (C11), local records are not displaced by answers (C13), lookups serve
      copies without the sets to be purged, which are those that are timed out and neither
      local nor marked to be kept (C17), purging reaches its limit, and a
      file of any contents can be read and never ends the process (C9).
    - [PdnsdCacheMem]: when memory is available, what is added is found, record sets and
      negative entries, exactly as long as something of it is left (C39).
    - [PdnsdDiskTrip]: what is written to the disk cache file is read back (C7).
    - [PdnsdRecords]: records of a received message decoded into cache entries,
      [rr_to_cache] and [rrs2cent] of [pdnsd/src/dns_query.c]; the format of the data
      of each type as a list of fields, and the decoder against it (C37).
    - [PdnsdAnswer]: the composition of an answer in [pdnsd/src/dns_answer.c], from
      [add_rr] to [compose_answer], on the message buffer, the compression table,
      the records added and the records still to add. The resolver and the cache
      under it are the class [Resolver].
    - [PdnsdAnswerInv], [PdnsdAnswerMem], [PdnsdAnswerRun]: the invariant of the
      message under construction, the answer when memory is available, and the composition for any
      resolver with well-formed entries ([ResolverOk]): no write outside the buffer, no
      failed assertion, and an answer of which every byte is accounted for (C22).
    - [PdnsdQuery]: [decode_query], [decode_query_additional], [process_query] and
      the messages that the UDP and TCP threads send. Any bytes are handled; which
      queries are answered, refused or discarded, three disjoint cases (C12); the datagram
      fits the client's limit (C27).
    - [PdnsdRecordsRun]: [rrs2cent] on the invariant of the cache for any received bytes,
      with the cached data unchanged (C30), and the answers of the daemon read back by it (C28).
    - [PdnsdResolve]: [lookup_cache_status], [p_dns_cached_resolve] and [r_dns_cached_resolve]
      of [pdnsd/src/dns_query.c] on the cache: when servers are asked and what is the
      result, with the link up or down (C29). The cache with these functions is an instance of
      [Resolver], so the theorems on answers hold for the daemon on its cache (C38). Both assume
      a contract of the servers ([servers_ok]).
    - [PdnsdAnswerEx]: a resolver for a small zone, and an answer from it byte by byte.

    ** Kinds of theorems

    State machines ([BPending], [PacketBuffer], [Flow], [FairQueue], [BSocksClient],
    [UdpGwClient], [SocksUdpGw], [Tun2socksTcp], [PdnsdCacheRun]) have a step
    function or relation for all events of the environment, an invariant that every
    step preserves, and properties of all reachable states. Refinements ([BPending],
    [BAVL], [LinkedList1], [PdnsdHash]) relate the heap to a list or a finite map,
    operation by operation. Interfaces between components are type classes: what a
    tree asks of a comparator ([Comparator]), and what the composition of answers
    asks of the resolver ([Resolver], [ResolverOk]); [PdnsdResolve] discharges the
    latter. Parsers and printers have round trips and, where the input is hostile,
    exact characterisations of success and of each error.

    ** Fuel and bounds

    Loops that are not structural take fuel, and each has a lemma that the fuel
    given suffices. Checksums fold carries three times, enough for the 32-bit
    accumulator. [conid_fuel] is the number of connections plus one. The send loop
    of a TCP client ([send_out_fuel]) is bounded by the bytes buffered.
    [takedown] of the TCP client needs four steps. [name_fuel] is 513: a turn of the
    decompression loop writes at least two of 256 bytes or takes one of at most
    255 pointers. [scan_fuel] is 257, one more than the buffer. [walk_fuel] and
    [tree_fuel] are one more than the number of nodes in the heap. A walk along the
    list of record sets has the length of the list; the search up a name has the
    length of the name; [add_cache] retries at most once. Reading a disk cache file takes
    one more than the bytes left: an entry has at least six. The merge sort of the
    list holds for fewer than 2^32 entries, which [fits] states for a file. The loops
    over a received message run as often as its header counts; a chain of aliases is
    followed for [MAX_HOPS] + 1 = 21 turns, as in the code. Times of pdnsd are unbounded:
    [timedout] and what is computed from time stamps agree with the [time_t] arithmetic of the
    source unless a time stamp is within a lifetime of the end of the type's range, which takes a
    disk file, or a clock, that says so.

    ** Not modelled

    The lwIP core behind its callbacks (vendored; its results are an oracle
    constrained by the documented contract), the reactor, sockets, timers and
    the device file (system calls), option parsing, logging, start-up and
    signals, the parts of the badvpn repository that are not built into the
    application (VPN client and server, NCD, DHCP, tools), and, in pdnsd, the sending
    of queries with the selection of name servers, the threads and sockets of the
    servers, and configuration: what the servers answer to [p_dns_resolve] is a
    parameter ([query_servers]). The
    fair queue and the DNS table use their trees by contract: [CAvl], the second AVL
    implementation, is not modelled. *)

From Stdlib Require Import ZArith Lia Bool.
From Stdlib Require Export Strings.Byte.
From stdpp Require Export base numbers list gmap.

Declare Scope lr_scope.
Delimit Scope lr_scope with lr.
Open Scope Z_scope.

(** ** Automation *)

(** Lemmas that the bounds and byte goals of every component share. *)
Create HintDb lr.
Create Rewrite HintDb zlen.

(** Case split on every boolean comparison of [Z] that the goal or a
    hypothesis tests, leaving the arithmetic facts for [lia]. *)
Ltac zcases :=
  repeat match goal with
  | |- context [ (?a <? ?b)%Z ] => destruct (Z.ltb_spec a b)
  | |- context [ (?a <=? ?b)%Z ] => destruct (Z.leb_spec a b)
  | |- context [ (?a =? ?b)%Z ] => destruct (Z.eqb_spec a b)
  | H : context [ (?a <? ?b)%Z ] |- _ => destruct (Z.ltb_spec a b)
  | H : context [ (?a <=? ?b)%Z ] |- _ => destruct (Z.leb_spec a b)
  | H : context [ (?a =? ?b)%Z ] |- _ => destruct (Z.eqb_spec a b)
  end.

(** Destruct conjunctions and existentials in the context. *)
Ltac dands :=
  repeat match goal with
  | H : _ /\ _ |- _ => destruct H
  | H : exists _, _ |- _ => destruct H
  end.

(** Break one [if] or [match] of a hypothesis equating a result, keeping the
    equation of the scrutinee, and discard impossible branches. *)
Ltac break_in H :=
  match type of H with
  | context [ match ?x with _ => _ end ] => destruct x eqn:?
  end; try discriminate H.

(** ** Machine integers *)

(** The C types are [Z] values with their wrap-around written out. *)
Definition u8 (z : Z) : Z := z mod 2 ^ 8.
Definition u16 (z : Z) : Z := z mod 2 ^ 16.
Definition u32 (z : Z) : Z := z mod 2 ^ 32.
Definition u64 (z : Z) : Z := z mod 2 ^ 64.

Definition INT_MAX : Z := 2 ^ 31 - 1.
Definition UINT16_MAX : Z := 2 ^ 16 - 1.
Definition UINT64_MAX : Z := 2 ^ 64 - 1.

Lemma u8_range z : 0 <= u8 z < 2 ^ 8.
Proof. apply Z.mod_pos_bound; lia. Qed.
Lemma u16_range z : 0 <= u16 z < 2 ^ 16.
Proof. apply Z.mod_pos_bound; lia. Qed.
Lemma u32_range z : 0 <= u32 z < 2 ^ 32.
Proof. apply Z.mod_pos_bound; lia. Qed.
Lemma u64_range z : 0 <= u64 z < 2 ^ 64.
Proof. apply Z.mod_pos_bound; lia. Qed.

Lemma u8_id z : 0 <= z < 2 ^ 8 -> u8 z = z.
Proof. apply Z.mod_small. Qed.
Lemma u16_id z : 0 <= z < 2 ^ 16 -> u16 z = z.
Proof. apply Z.mod_small. Qed.
Lemma u32_id z : 0 <= z < 2 ^ 32 -> u32 z = z.
Proof. apply Z.mod_small. Qed.
Lemma u64_id z : 0 <= z < 2 ^ 64 -> u64 z = z.
Proof. apply Z.mod_small. Qed.

#[export] Hint Resolve u8_range u16_range u32_range u64_range : lr.

(** Conversion to [int], as the compilers for the targets define it. *)
Definition s32 (z : Z) : Z := (z + 2 ^ 31) mod 2 ^ 32 - 2 ^ 31.

Lemma s32_id z : - 2 ^ 31 <= z <= INT_MAX -> s32 z = z.
Proof. unfold s32, INT_MAX. intros. rewrite Z.mod_small; lia. Qed.

(** [misc/balign.h]: the quotient rounded up. *)
Definition bdivide_up (a b : Z) : Z := if 0 <? a mod b then a / b + 1 else a / b.

Lemma bdivide_up_spec a b :
  0 < b -> a <= bdivide_up a b * b < a + b.
Proof.
  intros Hb. unfold bdivide_up. pose proof (Z.div_mod a b ltac:(lia)).
  pose proof (Z.mod_pos_bound a b Hb). destruct (Z.ltb_spec 0 (a mod b)); nia.
Qed.

Lemma bdivide_up_nonneg a b : 0 < b -> 0 <= a -> 0 <= bdivide_up a b.
Proof. intros Hb Ha. pose proof (bdivide_up_spec a b Hb). nia. Qed.

Lemma bdivide_up_le a b c : 0 < b -> a <= c * b -> bdivide_up a b <= c.
Proof. intros Hb Ha. pose proof (bdivide_up_spec a b Hb). nia. Qed.

(** Drop the wrap-arounds of a [uint32_t] computation that does not overflow,
    innermost first. *)
Ltac u32_drop :=
  repeat match goal with
  | |- context [u32 ?x] =>
      lazymatch x with context [u32 _] => fail | _ => rewrite (u32_id x) by lia end
  end.

(** ** Bytes *)

Definition b2z (b : byte) : Z := Z.of_N (Byte.to_N b).
Definition z2b (z : Z) : byte :=
  match Byte.of_N (Z.to_N (u8 z)) with Some b => b | None => x00 end.

Lemma b2z_range b : 0 <= b2z b < 256.
Proof. unfold b2z. pose proof (Byte.to_N_bounded b). lia. Qed.

Lemma b2z_z2b z : b2z (z2b z) = u8 z.
Proof.
  unfold b2z, z2b. pose proof (u8_range z).
  destruct (Byte.of_N (Z.to_N (u8 z))) as [b|] eqn:E.
  - apply Byte.to_of_N in E. lia.
  - apply Byte.of_N_None_iff in E. lia.
Qed.

Lemma z2b_b2z b : z2b (b2z b) = b.
Proof. destruct b; reflexivity. Qed.

Lemma b2z_inj a b : b2z a = b2z b -> a = b.
Proof. intros H. rewrite <- (z2b_b2z a), H. apply z2b_b2z. Qed.

Lemma z2b_u8 z : z2b (u8 z) = z2b z.
Proof. apply b2z_inj. rewrite !b2z_z2b. apply Z.mod_mod. lia. Qed.

#[export] Hint Resolve b2z_range : lr.

#[export] Instance byte_eq_dec : EqDecision byte := Byte.byte_eq_dec.

#[export] Instance byte_countable : Countable byte := inj_countable Byte.to_N Byte.of_N Byte.of_to_N.

#[export] Instance byte_inhabited : Inhabited byte := populate x00.

(** ** Memory areas

    A C buffer is the list of its bytes. [slice] is what a [memcpy] out of the
    buffer reads, [splice] the buffer after a [memcpy] into it. *)
Definition slice (off len : Z) (m : list byte) : list byte :=
  take (Z.to_nat len) (drop (Z.to_nat off) m).

Definition splice (off : Z) (d m : list byte) : list byte :=
  take (Z.to_nat off) m ++ d ++ drop (Z.to_nat off + length d) m.

Definition zlen {A} (l : list A) : Z := Z.of_nat (length l).

Lemma zlen_nonneg {A} (l : list A) : 0 <= zlen l.
Proof. unfold zlen. lia. Qed.

Lemma zlen_app {A} (l k : list A) : zlen (l ++ k) = zlen l + zlen k.
Proof. unfold zlen. rewrite length_app. lia. Qed.

Lemma zlen_cons {A} (x : A) l : zlen (x :: l) = 1 + zlen l.
Proof. unfold zlen. simpl length. lia. Qed.

Lemma zlen_nil {A} : zlen (@nil A) = 0.
Proof. reflexivity. Qed.

Lemma zlen_0_inv {A} (l : list A) : zlen l = 0 -> l = [].
Proof. destruct l; [done|]. unfold zlen. simpl. lia. Qed.

#[export] Hint Resolve zlen_nonneg : lr.
#[export] Hint Rewrite @zlen_app @zlen_cons @zlen_nil : zlen.

Lemma zlen_slice off len m :
  0 <= off -> 0 <= len -> off + len <= zlen m -> zlen (slice off len m) = len.
Proof.
  intros. unfold zlen, slice in *. rewrite length_take, length_drop. lia.
Qed.

Lemma zlen_splice off d m :
  0 <= off -> off + zlen d <= zlen m -> zlen (splice off d m) = zlen m.
Proof.
  intros. unfold zlen, splice in *.
  rewrite !length_app, length_take, length_drop. lia.
Qed.

Lemma slice_splice_same off d m :
  0 <= off -> off + zlen d <= zlen m -> slice off (zlen d) (splice off d m) = d.
Proof.
  intros. unfold zlen, slice, splice in *.
  rewrite drop_app_ge; rewrite length_take; [|lia].
  replace (Z.to_nat off - Z.to_nat off `min` length m)%nat with 0%nat by lia.
  rewrite drop_0, take_app_le by lia. apply take_ge. lia.
Qed.

(** A read that ends before the written area sees the old contents. *)
Lemma slice_splice_before off len woff d m :
  0 <= off -> 0 <= len -> 0 <= woff -> off + len <= woff ->
  woff + zlen d <= zlen m ->
  slice off len (splice woff d m) = slice off len m.
Proof.
  intros. unfold zlen, slice, splice in *. apply list_eq. intros i.
  destruct (decide (i < Z.to_nat len)%nat).
  - rewrite !lookup_take_lt, !lookup_drop by lia.
    rewrite lookup_app_l by (rewrite length_take; lia).
    rewrite lookup_take_lt by lia. done.
  - rewrite !lookup_take_ge by lia. done.
Qed.

(** A read that starts after the written area sees the old contents. *)
Lemma slice_splice_after off len woff d m :
  0 <= off -> 0 <= len -> 0 <= woff -> woff + zlen d <= off ->
  woff + zlen d <= zlen m ->
  slice off len (splice woff d m) = slice off len m.
Proof.
  intros. unfold zlen, slice, splice in *. apply list_eq. intros i.
  destruct (decide (i < Z.to_nat len)%nat).
  - rewrite !lookup_take_lt, !lookup_drop by lia.
    rewrite lookup_app_r by (rewrite length_take; lia).
    rewrite length_take.
    rewrite lookup_app_r by lia. rewrite lookup_drop. f_equal. lia.
  - rewrite !lookup_take_ge by lia. done.
Qed.

Lemma slice_app_join off l1 l2 m :
  0 <= off -> 0 <= l1 -> 0 <= l2 ->
  slice off (l1 + l2) m = slice off l1 m ++ slice (off + l1) l2 m.
Proof.
  intros. unfold slice.
  rewrite !Z2Nat.inj_add by lia.
  rewrite <- drop_drop.
  generalize (drop (Z.to_nat off) m) as n. intros n.
  rewrite <- (take_take_drop n (Z.to_nat l1) (Z.to_nat l2)). done.
Qed.

(** Two adjacent writes are one write, and a later write of the same size hides
    an earlier one. *)
Lemma splice_splice_join off d1 d2 m :
  0 <= off -> off + zlen d1 + zlen d2 <= zlen m ->
  splice off d1 (splice (off + zlen d1) d2 m) = splice off (d1 ++ d2) m.
Proof.
  intros Ho Hl. unfold zlen, splice in *. rewrite length_app.
  rewrite take_app_le by (rewrite length_take; lia). rewrite take_take, Nat.min_l by lia.
  rewrite <- !app_assoc. do 2 f_equal.
  rewrite drop_app_ge by (rewrite length_take; lia). rewrite length_take.
  replace (Z.to_nat off + length d1 - Z.to_nat (off + Z.of_nat (length d1)) `min` length m)%nat
    with 0%nat by lia.
  rewrite drop_0. do 2 f_equal. lia.
Qed.

Lemma splice_splice_after off d1 d2 m :
  0 <= off -> off + zlen d1 + zlen d2 <= zlen m ->
  splice (off + zlen d1) d2 (splice off d1 m) = splice off (d1 ++ d2) m.
Proof.
  intros Ho Hl. unfold zlen, splice in *. rewrite length_app.
  rewrite take_app_ge by (rewrite length_take; lia). rewrite length_take.
  rewrite take_app_le by lia. rewrite (take_ge d1) by lia. rewrite <- !app_assoc. do 3 f_equal.
  rewrite drop_app_ge by (rewrite length_take; lia). rewrite length_take.
  rewrite drop_app_ge by lia. rewrite drop_drop. f_equal. lia.
Qed.

Lemma slice_nil off m : slice off 0 m = [].
Proof. reflexivity. Qed.

Lemma slice_all m : slice 0 (zlen m) m = m.
Proof. unfold slice, zlen. rewrite Nat2Z.id. simpl. apply take_ge. lia. Qed.

(** An allocator that never fails on a sensible size: [n] objects of [unit] zero
    bytes. Concrete runs use it for the memory [malloc] returns. *)
Definition zero_alloc (unit n : Z) : option (list byte) :=
  if 0 <=? n then Some (repeat x00 (Z.to_nat (unit * n))) else None.

Lemma zero_alloc_size unit : 0 <= unit -> forall n m, zero_alloc unit n = Some m -> zlen m = unit * n.
Proof.
  intros Hu n m. unfold zero_alloc. destruct (Z.leb_spec 0 n); [|done]. intros [= <-].
  unfold zlen. rewrite repeat_length. lia.
Qed.

(** ** Induction two elements at a time *)
Lemma list_ind2 {A} (P : list A -> Prop) :
  P [] -> (forall a, P [a]) -> (forall a b l, P l -> P (a :: b :: l)) ->
  forall l, P l.
Proof.
  intros H0 H1 H2. fix IH 1. intros [|a [|b l]]; [exact H0|apply H1|apply H2, IH].
Qed.
