(* ===== verification/ByteOrder.v ===== *)
(** * Byte order and fixed-width integer access

    [misc/byteorder.h] and [misc/read_write_int.h] on the little-endian
    targets the build selects ([BADVPN_LITTLE_ENDIAN]). A packed struct field is
    the host value of its bytes, so [load_le16] and friends are what a [memcpy]
    into a [uint16_t] field yields and [store_le16] the bytes a field occupies. *)

From Stdlib Require Import ZArith Lia.
From S2P Require Import Prelude.

(** ** Host representation *)

(** Little-endian value of a byte sequence. *)
Fixpoint le_load (l : list byte) : Z :=
  match l with
  | [] => 0
  | b :: l' => b2z b + 256 * le_load l'
  end.

(** The [n] bytes of a little-endian integer. *)
Fixpoint le_store (n : nat) (z : Z) : list byte :=
  match n with
  | O => []
  | S n' => z2b z :: le_store n' (z / 256)
  end.

Lemma le_load_range l : 0 <= le_load l < 256 ^ zlen l.
Proof.
  induction l as [|b l IH]; [unfold zlen; simpl; lia|].
  simpl le_load. rewrite zlen_cons, Z.pow_add_r by (auto with lr; lia).
  pose proof (b2z_range b). lia.
Qed.

Lemma zlen_le_store n z : zlen (le_store n z) = Z.of_nat n.
Proof.
  revert z; induction n as [|n IH]; intros z; [done|].
  simpl le_store. rewrite zlen_cons, IH. lia.
Qed.

Lemma le_load_store n z : le_load (le_store n z) = z mod 256 ^ Z.of_nat n.
Proof.
  revert z; induction n as [|n IH]; intros z.
  - simpl. rewrite Z.mod_1_r. done.
  - simpl le_store. simpl le_load. rewrite IH, b2z_z2b.
    rewrite Nat2Z.inj_succ, Z.pow_succ_r by lia. unfold u8.
    change (2 ^ 8) with 256. rewrite Z.rem_mul_r by lia. lia.
Qed.

Lemma le_store_load l : le_store (length l) (le_load l) = l.
Proof.
  induction l as [|b l IH]; [done|]. simpl.
  pose proof (b2z_range b). f_equal.
  - rewrite <- (z2b_b2z b) at 2. rewrite <- z2b_u8. f_equal.
    unfold u8. change (2 ^ 8) with 256.
    rewrite (Z.mul_comm 256), Z_mod_plus_full, Z.mod_small by lia. done.
  - rewrite (Z.mul_comm 256), Z.div_add, Z.div_small by lia. exact IH.
Qed.

Lemma le_load_inj l k : length l = length k -> le_load l = le_load k -> l = k.
Proof. intros Hl Hv. rewrite <- (le_store_load l), Hl, Hv. apply le_store_load. Qed.

Lemma le_load_app l k : le_load (l ++ k) = le_load l + 256 ^ zlen l * le_load k.
Proof.
  induction l as [|b l IH]; [unfold zlen; simpl; lia|].
  simpl app. simpl le_load. rewrite IH, zlen_cons, Z.pow_add_r by (auto with lr; lia). lia.
Qed.

Definition load_le16 (l : list byte) : Z := le_load (take 2 l).
Definition load_le32 (l : list byte) : Z := le_load (take 4 l).
Definition store_le16 (z : Z) : list byte := le_store 2 z.
Definition store_le32 (z : Z) : list byte := le_store 4 z.

(** ** misc/byteorder.h *)

(** [badvpn_reverse16] swaps the two bytes of the object representation. *)
Definition badvpn_reverse16 (x : Z) : Z := le_load (reverse (le_store 2 x)).
Definition badvpn_reverse32 (x : Z) : Z := le_load (reverse (le_store 4 x)).

Definition hton8 (x : Z) : Z := x.
Definition hton16 (x : Z) : Z := badvpn_reverse16 x.
Definition hton32 (x : Z) : Z := badvpn_reverse32 x.
Definition htol8 (x : Z) : Z := x.
Definition htol16 (x : Z) : Z := x.
Definition ntoh8 (x : Z) : Z := hton8 x.
Definition ntoh16 (x : Z) : Z := hton16 x.
Definition ntoh32 (x : Z) : Z := hton32 x.
Definition ltoh8 (x : Z) : Z := htol8 x.
Definition ltoh16 (x : Z) : Z := htol16 x.

Lemma reverse_load_range n x : 0 <= le_load (reverse (le_store n x)) < 256 ^ Z.of_nat n.
Proof.
  pose proof (le_load_range (reverse (le_store n x))) as H.
  unfold zlen in H. rewrite length_reverse in H.
  pose proof (zlen_le_store n x) as Hl. unfold zlen in Hl. rewrite Hl in H. exact H.
Qed.

Lemma hton16_range x : 0 <= hton16 x < 2 ^ 16.
Proof. apply (reverse_load_range 2). Qed.
Lemma hton32_range x : 0 <= hton32 x < 2 ^ 32.
Proof. apply (reverse_load_range 4). Qed.
#[export] Hint Resolve hton16_range hton32_range : lr.

Lemma store_reverse n x :
  le_store n (le_load (reverse (le_store n x))) = reverse (le_store n x).
Proof.
  pose proof (le_store_load (reverse (le_store n x))) as H.
  rewrite length_reverse in H.
  pose proof (zlen_le_store n x) as Hl. unfold zlen in Hl.
  replace (length (le_store n x)) with n in H by lia. exact H.
Qed.

(** The byte swap is an involution on values of the type's width. *)
Lemma ntoh16_hton16 x : ntoh16 (hton16 x) = u16 x.
Proof.
  unfold ntoh16, hton16, badvpn_reverse16. rewrite store_reverse, reverse_involutive.
  apply (le_load_store 2).
Qed.
Lemma ntoh32_hton32 x : ntoh32 (hton32 x) = u32 x.
Proof.
  unfold ntoh32, hton32, badvpn_reverse32. rewrite store_reverse, reverse_involutive.
  apply (le_load_store 4).
Qed.

Lemma hton16_inj x y : 0 <= x < 2 ^ 16 -> 0 <= y < 2 ^ 16 -> hton16 x = hton16 y -> x = y.
Proof.
  intros Hx Hy H. rewrite <- (u16_id x), <- (u16_id y) by done.
  rewrite <- !ntoh16_hton16. congruence.
Qed.

Lemma ntoh32_inj x y : 0 <= x < 2 ^ 32 -> 0 <= y < 2 ^ 32 -> ntoh32 x = ntoh32 y -> x = y.
Proof.
  intros Hx Hy H. rewrite <- (u32_id x), <- (u32_id y) by done.
  rewrite <- !ntoh32_hton32. unfold ntoh32 in H. congruence.
Qed.

(** ** misc/read_write_int.h *)

Definition badvpn_read_le16 (p : list byte) : Z :=
  Z.lor (Z.shiftl (b2z (p !!! 1%nat)) 8) (b2z (p !!! 0%nat)).
Definition badvpn_read_be16 (p : list byte) : Z :=
  Z.lor (Z.shiftl (b2z (p !!! 0%nat)) 8) (b2z (p !!! 1%nat)).

Lemma lor_shift8 a b : 0 <= b < 256 -> Z.lor (Z.shiftl a 8) b = a * 256 + b.
Proof.
  intros Hb. rewrite <- Z.add_lor_land, Z.shiftl_mul_pow2 by lia.
  change (2 ^ 8) with 256.
  enough (Z.land (a * 256) b = 0) by lia.
  apply Z.bits_inj'. intros n Hn. rewrite Z.land_spec, Z.bits_0.
  change 256 with (2 ^ 8). rewrite <- Z.shiftl_mul_pow2 by lia.
  destruct (Z.ltb_spec n 8).
  - rewrite Z.shiftl_spec_low by lia. done.
  - rewrite andb_comm. destruct (Z.eq_dec b 0) as [->|]; [rewrite Z.bits_0; done|].
    rewrite Z.bits_above_log2; [done|lia|].
    apply Z.lt_le_trans with 8; [|lia]. apply Z.log2_lt_pow2; lia.
Qed.

Lemma badvpn_read_be16_eq p :
  badvpn_read_be16 p = b2z (p !!! 0%nat) * 256 + b2z (p !!! 1%nat).
Proof. apply lor_shift8. apply b2z_range. Qed.

Lemma badvpn_read_be16_range p : 0 <= badvpn_read_be16 p < 2 ^ 16.
Proof.
  rewrite badvpn_read_be16_eq.
  pose proof (b2z_range (p !!! 0%nat)). pose proof (b2z_range (p !!! 1%nat)). lia.
Qed.
#[export] Hint Resolve badvpn_read_be16_range : lr.

(** Reading a field big-endian is [ntoh16] of its host value. *)
Lemma read_be16_ntoh16 a b : badvpn_read_be16 [a; b] = ntoh16 (load_le16 [a; b]).
Proof.
  rewrite badvpn_read_be16_eq. unfold ntoh16, hton16, badvpn_reverse16, load_le16.
  change (take 2 [a; b]) with [a; b]. change 2%nat with (length [a; b]).
  rewrite le_store_load. simpl. lia.
Qed.

(** The object representation of [hton16 x] is the big-endian encoding. *)
Lemma read_be16_store_hton16 x : badvpn_read_be16 (store_le16 (hton16 x)) = u16 x.
Proof.
  unfold store_le16, hton16, badvpn_reverse16. rewrite store_reverse.
  rewrite badvpn_read_be16_eq. simpl. rewrite !b2z_z2b. unfold u8, u16.
  change (2 ^ 8) with 256. change (2 ^ 16) with (256 * 256).
  rewrite Z.rem_mul_r by lia. lia.
Qed.
