(* ===== verification/IpProto.v ===== *)
(** * IPv4, IPv6 and UDP headers

    [misc/ipv4_proto.h], [misc/ipv6_proto.h] and [misc/udp_proto.h]: the packed
    header structs, the Internet checksum as those headers compute it and the
    packet checks that tun2socks runs on every packet read from the TUN device.

    A struct field holds the host value of its bytes; a pointer and a length
    are the list of the bytes they delimit. *)

From Stdlib Require Import ZArith Lia.
From S2P Require Import Prelude ByteOrder.

(** ** Packed structs *)

Record ipv4_header := Ipv4Header {
  version4_ihl4 : Z; ds : Z; total_length : Z;
  identification : Z; flags3_fragmentoffset13 : Z;
  ttl : Z; protocol : Z; ipv4_cksum : Z;
  source_address : Z; destination_address : Z
}.

Definition ipv4_header_bytes (h : ipv4_header) : list byte :=
  le_store 1 (version4_ihl4 h) ++ le_store 1 (ds h) ++ le_store 2 (total_length h) ++
  le_store 2 (identification h) ++ le_store 2 (flags3_fragmentoffset13 h) ++
  le_store 1 (ttl h) ++ le_store 1 (protocol h) ++ le_store 2 (ipv4_cksum h) ++
  le_store 4 (source_address h) ++ le_store 4 (destination_address h).

Definition field (off len : Z) (d : list byte) : Z := le_load (slice off len d).

(** [memcpy(&header, data, sizeof(header))]. *)
Definition ipv4_header_load (d : list byte) : ipv4_header :=
  Ipv4Header (field 0 1 d) (field 1 1 d) (field 2 2 d) (field 4 2 d) (field 6 2 d)
    (field 8 1 d) (field 9 1 d) (field 10 2 d) (field 12 4 d) (field 16 4 d).

Definition ipv4_set_checksum (c : Z) (h : ipv4_header) : ipv4_header :=
  Ipv4Header (version4_ihl4 h) (ds h) (total_length h) (identification h)
    (flags3_fragmentoffset13 h) (ttl h) (protocol h) c (source_address h)
    (destination_address h).

Definition sizeof_ipv4_header : Z := 20.
Definition IPV4_PROTOCOL_UDP : Z := 17.
Definition IPV4_GET_VERSION (h : ipv4_header) : Z := Z.shiftr (Z.land (version4_ihl4 h) 0xF0) 4.
Definition IPV4_GET_IHL (h : ipv4_header) : Z := Z.land (version4_ihl4 h) 0x0F.
Definition IPV4_MAKE_VERSION_IHL (size : Z) : Z := size / 4 + Z.shiftl 4 4.

Record udp_header := UdpHeader {
  source_port : Z; dest_port : Z; udp_len : Z; udp_cksum : Z
}.

Definition udp_header_bytes (h : udp_header) : list byte :=
  le_store 2 (source_port h) ++ le_store 2 (dest_port h) ++
  le_store 2 (udp_len h) ++ le_store 2 (udp_cksum h).

Definition udp_header_load (d : list byte) : udp_header :=
  UdpHeader (field 0 2 d) (field 2 2 d) (field 4 2 d) (field 6 2 d).

Definition udp_set_checksum (c : Z) (h : udp_header) : udp_header :=
  UdpHeader (source_port h) (dest_port h) (udp_len h) c.

Definition sizeof_udp_header : Z := 8.

Record ipv6_header := Ipv6Header {
  version4_tc4 : Z; tc4_fl4 : Z; fl : Z; payload_length : Z;
  next_header : Z; hop_limit : Z;
  source_address6 : list byte; destination_address6 : list byte
}.

Definition ipv6_header_bytes (h : ipv6_header) : list byte :=
  le_store 1 (version4_tc4 h) ++ le_store 1 (tc4_fl4 h) ++ le_store 2 (fl h) ++
  le_store 2 (payload_length h) ++ le_store 1 (next_header h) ++ le_store 1 (hop_limit h) ++
  source_address6 h ++ destination_address6 h.

Definition ipv6_header_load (d : list byte) : ipv6_header :=
  Ipv6Header (field 0 1 d) (field 1 1 d) (field 2 2 d) (field 4 2 d) (field 6 1 d) (field 7 1 d)
    (slice 8 16 d) (slice 24 16 d).

Definition sizeof_ipv6_header : Z := 40.
Definition IPV6_NEXT_UDP : Z := 17.

(** ** Checksums *)

(** [for (i = 0; i < n; i++) t += badvpn_read_be16(p + 2 * i)], [t] a
    [uint32_t]. *)
Fixpoint sum_be16 (n : nat) (p : list byte) (t : Z) : Z :=
  match n with
  | O => t
  | S n' => sum_be16 n' (drop 2 p) (u32 (t + badvpn_read_be16 p))
  end.

(** [while (t >> 16) t = (t & 0xFFFF) + (t >> 16)]; two rounds reduce any
    [uint32_t], see [fold_carries_u32]. *)
Fixpoint fold_carries (fuel : nat) (t : Z) : Z :=
  match fuel with
  | O => t
  | S f =>
      if Z.shiftr t 16 =? 0 then t
      else fold_carries f (u32 (Z.land t 0xFFFF + Z.shiftr t 16))
  end.

Definition ipv4_checksum (h : ipv4_header) (extra : list byte) (extra_len : Z) : Z :=
  let t := sum_be16 (Z.to_nat (sizeof_ipv4_header / 2)) (ipv4_header_bytes h) 0 in
  let t := sum_be16 (Z.to_nat (extra_len / 2)) extra t in
  hton16 (u16 (Z.lnot (fold_carries 3 t))).

Definition udp_checksum_summer (p : list byte) (len : Z) : Z :=
  sum_be16 (Z.to_nat (len / 2)) p 0.

(** The part of [udp_checksum] and [udp_ip6_checksum] after the pseudo header:
    header words, payload words, a last odd byte padded with zero, folding and
    the substitution of zero. *)
Definition udp_checksum_tail (h : udp_header) (payload : list byte) (payload_len t : Z) : Z :=
  let t := u32 (t + udp_checksum_summer (udp_header_bytes h) sizeof_udp_header) in
  let t :=
    if payload_len mod 2 =? 0 then u32 (t + udp_checksum_summer payload payload_len)
    else
      let t := u32 (t + udp_checksum_summer payload (payload_len - 1)) in
      let x := hton16 (u16 (Z.shiftl (b2z (payload !!! Z.to_nat (payload_len - 1))) 8)) in
      u32 (t + udp_checksum_summer (store_le16 x) 2) in
  let t := fold_carries 3 t in
  let t := if t =? 0 then UINT16_MAX else t in
  hton16 (u16 (Z.lnot t)).

Definition udp_checksum (h : udp_header) (payload : list byte) (payload_len : Z)
    (source_addr dest_addr : Z) : Z :=
  let t := u32 (0 + udp_checksum_summer (store_le32 source_addr) 4) in
  let t := u32 (t + udp_checksum_summer (store_le32 dest_addr) 4) in
  let t := u32 (t + udp_checksum_summer (store_le16 (hton16 IPV4_PROTOCOL_UDP)) 2) in
  let t := u32 (t + udp_checksum_summer (store_le16 (hton16 (u16 (sizeof_udp_header + payload_len)))) 2) in
  udp_checksum_tail h payload payload_len t.

Definition udp_ip6_checksum (h : udp_header) (payload : list byte) (payload_len : Z)
    (source_addr dest_addr : list byte) : Z :=
  let t := u32 (0 + udp_checksum_summer source_addr 16) in
  let t := u32 (t + udp_checksum_summer dest_addr 16) in
  let t := u32 (t + udp_checksum_summer (store_le32 (hton32 (sizeof_udp_header + payload_len))) 4) in
  let t := u32 (t + udp_checksum_summer (store_le32 (hton32 IPV6_NEXT_UDP)) 4) in
  udp_checksum_tail h payload payload_len t.

(** ** Packet checks

    [None] is the return value 0; [Some (header, payload)] the return value 1
    with the out parameters. *)

Definition ipv4_check (data : list byte) : option (ipv4_header * list byte) :=
  let data_len := zlen data in
  if data_len <? sizeof_ipv4_header then None else
  let h := ipv4_header_load data in
  if negb (IPV4_GET_VERSION h =? 4) then None else
  let header_len := u16 (IPV4_GET_IHL h * 4) in
  if header_len <? sizeof_ipv4_header then None else
  if data_len <? header_len then None else
  let total := ntoh16 (total_length h) in
  if total <? header_len then None else
  if data_len <? total then None else
  let in_packet := ipv4_cksum h in
  let computed :=
    ipv4_checksum (ipv4_set_checksum (hton16 0) h)
      (drop (Z.to_nat sizeof_ipv4_header) data) (header_len - sizeof_ipv4_header) in
  if negb (in_packet =? computed) then None else
  Some (h, slice header_len (total - header_len) data).

Definition udp_check (data : list byte) : option (udp_header * list byte) :=
  let data_len := zlen data in
  if data_len <? sizeof_udp_header then None else
  let h := udp_header_load data in
  let data := drop (Z.to_nat sizeof_udp_header) data in
  let data_len := data_len - sizeof_udp_header in
  let udp_length := ntoh16 (udp_len h) in
  if udp_length <? sizeof_udp_header then None else
  if sizeof_udp_header + data_len <? udp_length then None else
  Some (h, slice 0 (udp_length - sizeof_udp_header) data).

Definition ipv6_check (data : list byte) : option (ipv6_header * list byte) :=
  let data_len := zlen data in
  if data_len <? sizeof_ipv6_header then None else
  let h := ipv6_header_load data in
  if negb (Z.shiftr (ntoh8 (version4_tc4 h)) 4 =? 6) then None else
  let plen := ntoh16 (payload_length h) in
  if data_len - sizeof_ipv6_header <? plen then None else
  Some (h, slice sizeof_ipv6_header plen data).

(** ** Reference: the Internet checksum of RFC 1071

    [wsum] is the exact sum of the big-endian 16-bit words of a byte string, a
    last odd byte padded with zero; [oc16] its one's complement reduction. *)

Fixpoint wsum (l : list byte) : Z :=
  match l with
  | [] => 0
  | [a] => b2z a * 256
  | a :: b :: l' => b2z a * 256 + b2z b + wsum l'
  end.

Definition oc16 (t : Z) : Z := if t =? 0 then 0 else (t - 1) mod 65535 + 1.

Lemma wsum_bounds l : 0 <= wsum l <= 65535 * ((zlen l + 1) / 2).
Proof.
  induction l as [|a|a b l IH] using list_ind2.
  - done.
  - pose proof (b2z_range a). simpl. change ((zlen [a] + 1) / 2) with 1. lia.
  - pose proof (b2z_range a). pose proof (b2z_range b).
    simpl wsum. autorewrite with zlen.
    replace (1 + (1 + zlen l) + 1) with (zlen l + 1 + 1 * 2) by lia.
    rewrite Z.div_add by lia. lia.
Qed.

Lemma wsum_app l k : Z.even (zlen l) = true -> wsum (l ++ k) = wsum l + wsum k.
Proof.
  induction l as [|a|a b l IH] using list_ind2; intros He; simpl app.
  - done.
  - done.
  - simpl wsum. rewrite IH; [lia|]. autorewrite with zlen in He.
    replace (1 + (1 + zlen l)) with (zlen l + 2) in He by lia.
    rewrite Z.even_add in He. simpl in He. destruct (Z.even (zlen l)); done.
Qed.

Lemma sum_be16_wsum n p t :
  (2 * n <= length p)%nat -> 0 <= t -> t + wsum (take (2 * n) p) < 2 ^ 32 ->
  sum_be16 n p t = t + wsum (take (2 * n) p).
Proof.
  revert p t. induction n as [|n IH]; intros p t Hl Ht Hb; [simpl; lia|].
  destruct p as [|a [|b p]]; simpl in Hl; try lia.
  replace (2 * S n)%nat with (S (S (2 * n))) in * by lia.
  cbn [take wsum] in *.
  pose proof (wsum_bounds (take (2 * n) p)).
  pose proof (b2z_range a). pose proof (b2z_range b).
  cbn [sum_be16 drop]. rewrite badvpn_read_be16_eq.
  change ((a :: b :: p) !!! 0%nat) with a. change ((a :: b :: p) !!! 1%nat) with b.
  rewrite u32_id, drop_0 by lia. rewrite IH by lia. lia.
Qed.

Lemma summer_wsum p len :
  0 <= len -> Z.even len = true -> len <= zlen p -> len <= 2 ^ 16 ->
  udp_checksum_summer p len = wsum (take (Z.to_nat len) p).
Proof.
  intros H0 He Hl Hb. unfold udp_checksum_summer.
  apply Z.even_spec in He as [k ->]. unfold zlen in *.
  replace (2 * k / 2) with k by (rewrite Z.mul_comm, Z.div_mul; lia).
  replace (Z.to_nat (2 * k)) with (2 * Z.to_nat k)%nat by lia.
  pose proof (wsum_bounds (take (2 * Z.to_nat k) p)) as Hw.
  unfold zlen in Hw. rewrite length_take in Hw.
  rewrite sum_be16_wsum; [lia|lia|lia|].
  rewrite Nat.min_l in Hw by lia.
  replace (Z.of_nat (2 * Z.to_nat k) + 1) with (1 + k * 2) in Hw by lia.
  rewrite Z.div_add in Hw by lia. change (1 / 2) with 0 in Hw. lia.
Qed.

(** One round of carry folding keeps the value modulo [2^16 - 1]. *)
Lemma fold_round t : Z.land t 0xFFFF + Z.shiftr t 16 = t - 65535 * (t / 65536).
Proof.
  change (Z.land t 0xFFFF) with (Z.land t (Z.ones 16)).
  rewrite Z.land_ones, Z.shiftr_div_pow2 by lia. change (2 ^ 16) with 65536. pose proof (Z.div_mod t 65536 ltac:(lia)). lia.
Qed.

Lemma oc16_fold t : 65536 <= t -> oc16 (t - 65535 * (t / 65536)) = oc16 t.
Proof.
  intros Ht. unfold oc16.
  assert (t - 65535 * (t / 65536) <> 0) as Hz by (Z.div_mod_to_equations; lia).
  apply Z.eqb_neq in Hz. rewrite Hz.
  replace (t =? 0) with false by (symmetry; apply Z.eqb_neq; lia).
  f_equal. replace (t - 65535 * (t / 65536) - 1) with (t - 1 + (- (t / 65536)) * 65535) by lia.
  apply Z_mod_plus_full.
Qed.

Lemma oc16_small t : 0 <= t < 65536 -> oc16 t = t.
Proof.
  intros. unfold oc16. destruct (Z.eqb_spec t 0); [lia|].
  rewrite Z.mod_small by lia. lia.
Qed.

Lemma oc16_range t : 0 <= oc16 t <= 65535.
Proof.
  unfold oc16. destruct (t =? 0); [lia|].
  pose proof (Z.mod_pos_bound (t - 1) 65535 ltac:(lia)). lia.
Qed.

Lemma fold_carries_done f t : 0 <= t < 65536 -> fold_carries f t = t.
Proof.
  intros Ht. destruct f; [done|]. cbn [fold_carries].
  rewrite Z.shiftr_div_pow2, Z.div_small by lia. done.
Qed.

Lemma fold_carries_step f t :
  65536 <= t < 2 ^ 32 -> fold_carries (S f) t = fold_carries f (t - 65535 * (t / 65536)).
Proof.
  intros Ht. cbn [fold_carries]. rewrite fold_round, Z.shiftr_div_pow2 by lia.
  change (2 ^ 16) with 65536.
  destruct (Z.eqb_spec (t / 65536) 0); [Z.div_mod_to_equations; lia|].
  rewrite u32_id; [done|]. Z.div_mod_to_equations; lia.
Qed.

(** Fuel 3 is enough for every [uint32_t]: the loop ends with the one's
    complement sum. *)
Lemma fold_carries_u32 t : 0 <= t < 2 ^ 32 -> fold_carries 3 t = oc16 t.
Proof.
  intros Ht. destruct (Z.lt_ge_cases t 65536).
  { rewrite fold_carries_done, oc16_small by lia. done. }
  rewrite fold_carries_step, <- (oc16_fold t) by lia.
  set (s := t - 65535 * (t / 65536)).
  assert (0 <= s < 2 * 65536 - 1) by (subst s; Z.div_mod_to_equations; lia).
  destruct (Z.lt_ge_cases s 65536).
  { rewrite fold_carries_done, oc16_small by lia. done. }
  rewrite fold_carries_step, <- (oc16_fold s) by lia.
  set (r := s - 65535 * (s / 65536)).
  assert (0 <= r < 65536) by (subst r; Z.div_mod_to_equations; lia).
  rewrite fold_carries_done, oc16_small by lia. done.
Qed.

(** Adding the complement of the folded sum makes the folded sum all ones. *)
Lemma oc16_complement s : 0 <= s -> oc16 (s + (65535 - oc16 s)) = 65535.
Proof.
  intros Hs. unfold oc16 at 2. destruct (Z.eqb_spec s 0) as [->|]; [done|].
  unfold oc16. pose proof (Z.div_mod (s - 1) 65535 ltac:(lia)).
  set (q := (s - 1) / 65535) in *. set (m := (s - 1) mod 65535) in *.
  assert (0 <= m < 65535) by (apply Z.mod_pos_bound; lia).
  assert (0 <= q) by (apply Z.div_pos; lia).
  replace (s + (65535 - (m + 1))) with (65535 * (q + 1)) by lia.
  destruct (Z.eqb_spec (65535 * (q + 1)) 0); [lia|].
  replace (65535 * (q + 1) - 1) with (65534 + q * 65535) by lia.
  rewrite Z_mod_plus_full. done.
Qed.

(** [hton16 (~t)] read back in network order is the complement. *)
Lemma ntoh16_lnot t : 0 <= t <= 65535 -> ntoh16 (hton16 (u16 (Z.lnot t))) = 65535 - t.
Proof.
  intros. rewrite ntoh16_hton16. unfold u16. rewrite Z.mod_mod by lia.
  unfold Z.lnot. replace (Z.pred (- t)) with (65535 - t + (-1) * 2 ^ 16) by lia.
  rewrite Z_mod_plus_full, Z.mod_small; lia.
Qed.

(** ** Headers as bytes *)

Lemma zlen_ipv4_header_bytes h : zlen (ipv4_header_bytes h) = 20.
Proof. reflexivity. Qed.
Lemma zlen_udp_header_bytes h : zlen (udp_header_bytes h) = 8.
Proof. reflexivity. Qed.

(** The values a header struct can hold. *)
Record ipv4_header_wf (h : ipv4_header) : Prop := {
  wf_version : 0 <= version4_ihl4 h < 2 ^ 8; wf_ds : 0 <= ds h < 2 ^ 8;
  wf_total : 0 <= total_length h < 2 ^ 16; wf_ident : 0 <= identification h < 2 ^ 16;
  wf_flags : 0 <= flags3_fragmentoffset13 h < 2 ^ 16; wf_ttl : 0 <= ttl h < 2 ^ 8;
  wf_protocol : 0 <= protocol h < 2 ^ 8; wf_cksum : 0 <= ipv4_cksum h < 2 ^ 16;
  wf_source : 0 <= source_address h < 2 ^ 32; wf_dest : 0 <= destination_address h < 2 ^ 32
}.

Record udp_header_wf (h : udp_header) : Prop := {
  wf_sport : 0 <= source_port h < 2 ^ 16; wf_dport : 0 <= dest_port h < 2 ^ 16;
  wf_udp_len : 0 <= udp_len h < 2 ^ 16; wf_udp_cksum : 0 <= udp_cksum h < 2 ^ 16
}.

Lemma le_load_store_id n z : 0 <= z < 256 ^ Z.of_nat n -> le_load (le_store n z) = z.
Proof. intros. rewrite le_load_store. apply Z.mod_small. done. Qed.

Lemma ipv4_header_load_bytes h rest :
  ipv4_header_wf h -> ipv4_header_load (ipv4_header_bytes h ++ rest) = h.
Proof.
  intros [?????????]. destruct h as [v d t i f l p c s a]. simpl in *.
  unfold ipv4_header_load, field.
  change (Ipv4Header
    (le_load (le_store 1 v)) (le_load (le_store 1 d)) (le_load (le_store 2 t))
    (le_load (le_store 2 i)) (le_load (le_store 2 f)) (le_load (le_store 1 l))
    (le_load (le_store 1 p)) (le_load (le_store 2 c)) (le_load (le_store 4 s))
    (le_load (le_store 4 a)) = Ipv4Header v d t i f l p c s a).
  rewrite !le_load_store_id by (simpl; lia). done.
Qed.

Lemma udp_header_load_bytes h rest :
  udp_header_wf h -> udp_header_load (udp_header_bytes h ++ rest) = h.
Proof.
  intros [????]. destruct h as [s d l c]. simpl in *.
  unfold udp_header_load, field.
  change (UdpHeader (le_load (le_store 2 s)) (le_load (le_store 2 d))
    (le_load (le_store 2 l)) (le_load (le_store 2 c)) = UdpHeader s d l c).
  rewrite !le_load_store_id by (simpl; lia). done.
Qed.

Lemma field_range off len d : 0 <= len -> 0 <= field off len d < 256 ^ len.
Proof.
  intros Hl. unfold field. pose proof (le_load_range (slice off len d)) as H.
  split; [lia|]. eapply Z.lt_le_trans; [apply H|].
  apply Z.pow_le_mono_r; [lia|]. unfold zlen, slice. rewrite length_take. lia.
Qed.

Lemma ipv4_header_load_wf d : ipv4_header_wf (ipv4_header_load d).
Proof.
  constructor; simpl;
    match goal with |- context [field ?o ?l d] => pose proof (field_range o l d ltac:(lia)) end;
    simpl in *; lia.
Qed.

Lemma udp_header_load_wf d : udp_header_wf (udp_header_load d).
Proof.
  constructor; simpl;
    match goal with |- context [field ?o ?l d] => pose proof (field_range o l d ltac:(lia)) end;
    simpl in *; lia.
Qed.

(** ** The checksum routines compute the reference checksum *)

Lemma wsum_ipv4_set_checksum c h :
  wsum (ipv4_header_bytes (ipv4_set_checksum c h)) =
  wsum (ipv4_header_bytes (ipv4_set_checksum 0 h)) + ntoh16 c.
Proof.
  unfold ntoh16, hton16, badvpn_reverse16, ipv4_header_bytes.
  destruct h. cbn -[Z.mul Z.add Z.div b2z z2b].
  change (b2z (z2b 0)) with 0. change (b2z (z2b (0 / 256))) with 0. lia.
Qed.

Lemma wsum_udp_set_checksum c h :
  wsum (udp_header_bytes (udp_set_checksum c h)) =
  wsum (udp_header_bytes (udp_set_checksum 0 h)) + ntoh16 c.
Proof.
  unfold ntoh16, hton16, badvpn_reverse16, udp_header_bytes.
  destruct h. cbn -[Z.mul Z.add Z.div b2z z2b].
  change (b2z (z2b 0)) with 0. change (b2z (z2b (0 / 256))) with 0. lia.
Qed.

Lemma ipv4_checksum_spec h extra len :
  0 <= len <= 2 ^ 16 -> Z.even len = true -> len <= zlen extra ->
  ntoh16 (ipv4_checksum h extra len) =
  65535 - oc16 (wsum (ipv4_header_bytes h) + wsum (take (Z.to_nat len) extra)).
Proof.
  intros Hl He Hx. unfold ipv4_checksum.
  pose proof (wsum_bounds (ipv4_header_bytes h)) as Hb.
  rewrite zlen_ipv4_header_bytes in Hb. change ((20 + 1) / 2) with 10 in Hb.
  apply Z.even_spec in He as [k ->].
  replace (2 * k / 2) with k by (rewrite Z.mul_comm, Z.div_mul; lia).
  replace (Z.to_nat (2 * k)) with (2 * Z.to_nat k)%nat by lia.
  pose proof (wsum_bounds (take (2 * Z.to_nat k) extra)) as Hw.
  unfold zlen in *. rewrite length_take, Nat.min_l in Hw by lia.
  replace (Z.of_nat (2 * Z.to_nat k) + 1) with (1 + k * 2) in Hw by lia.
  rewrite Z.div_add in Hw by lia. change (1 / 2) with 0 in Hw.
  rewrite (sum_be16_wsum (Z.to_nat (sizeof_ipv4_header / 2)));
    change (take (2 * Z.to_nat (sizeof_ipv4_header / 2)) (ipv4_header_bytes h))
      with (ipv4_header_bytes h); [|simpl; lia|lia|lia].
  rewrite sum_be16_wsum by lia. rewrite fold_carries_u32 by lia.
  rewrite ntoh16_lnot by apply oc16_range. done.
Qed.

(** The exact sum the UDP checksum covers, pseudo header excluded. *)
Definition udp_sum (h : udp_header) (payload : list byte) : Z :=
  wsum (udp_header_bytes h) + wsum payload.

Lemma udp_sum_bounds h payload :
  zlen payload <= 65535 -> 0 <= udp_sum h payload <= 65535 * 32772.
Proof.
  intros Hl. unfold udp_sum.
  pose proof (wsum_bounds (udp_header_bytes h)) as H1.
  pose proof (wsum_bounds payload) as H2.
  rewrite zlen_udp_header_bytes in H1. change ((8 + 1) / 2) with 4 in H1.
  assert ((zlen payload + 1) / 2 <= 32768) by (apply Z.div_le_upper_bound; lia). lia.
Qed.

(** Splitting off a last odd byte, as the code does, sums the same words. *)
Lemma wsum_odd_split p :
  Z.even (zlen p) = false ->
  wsum p = wsum (take (length p - 1) p) + b2z (p !!! (length p - 1)%nat) * 256.
Proof.
  intros Ho. destruct (exists_last (l := p)) as (q & a & ->); [by intros ->|].
  rewrite zlen_app, Z.even_add in Ho. simpl in Ho.
  rewrite wsum_app by (destruct (Z.even (zlen q)); done).
  rewrite length_app. simpl length. replace (length q + 1 - 1)%nat with (length q) by lia.
  rewrite take_app_length. rewrite list_lookup_total_middle by lia. done.
Qed.

Lemma summer_store_hton16 x : udp_checksum_summer (store_le16 (hton16 x)) 2 = u16 x.
Proof.
  pose proof (read_be16_store_hton16 x) as H. rewrite <- H.
  unfold udp_checksum_summer. simpl. apply u32_id.
  pose proof (badvpn_read_be16_range (store_le16 (hton16 x))). lia.
Qed.

Lemma udp_checksum_tail_spec h payload t :
  0 < t < 2 ^ 22 -> zlen payload <= 65535 ->
  ntoh16 (udp_checksum_tail h payload (zlen payload) t) =
  65535 - oc16 (t + udp_sum h payload).
Proof.
  intros Ht Hp. pose proof (zlen_nonneg payload) as H0.
  pose proof (udp_sum_bounds h payload Hp) as Hs. unfold udp_sum in *.
  pose proof (wsum_bounds (udp_header_bytes h)) as Hh.
  pose proof (wsum_bounds payload) as Hpw.
  unfold udp_checksum_tail. rewrite summer_wsum by done.
  change (take (Z.to_nat sizeof_udp_header) (udp_header_bytes h)) with (udp_header_bytes h).
  set (th := wsum (udp_header_bytes h)) in *. rewrite (u32_id (t + th)) by lia.
  assert (forall s, s = t + (th + wsum payload) ->
    ntoh16 (hton16 (u16 (Z.lnot (if fold_carries 3 s =? 0 then UINT16_MAX else fold_carries 3 s))))
    = 65535 - oc16 (t + (th + wsum payload))) as Hend.
  { intros s ->. rewrite fold_carries_u32 by lia.
    assert (oc16 (t + (th + wsum payload)) <> 0) as Hnz.
    { unfold oc16. destruct (Z.eqb_spec (t + (th + wsum payload)) 0); [lia|].
      pose proof (Z.mod_pos_bound (t + (th + wsum payload) - 1) 65535 ltac:(lia)). lia. }
    apply Z.eqb_neq in Hnz. rewrite Hnz. apply ntoh16_lnot, oc16_range. }
  pose proof (Zmod_even (zlen payload)) as Hev.
  destruct (Z.even (zlen payload)) eqn:E; rewrite Hev;
    [change (0 =? 0) with true|change (1 =? 0) with false]; cbv iota zeta;
    match goal with |- context [fold_carries 3 ?s] => rewrite (Hend s); [done|] end.
  - rewrite summer_wsum by (done || lia).
    replace (take (Z.to_nat (zlen payload)) payload) with payload
      by (unfold zlen; rewrite Nat2Z.id, take_ge; done).
    rewrite u32_id; lia.
  - rewrite (wsum_odd_split payload E) in *.
    pose proof (wsum_bounds (take (length payload - 1) payload)) as Ht1.
    set (w1 := wsum (take (length payload - 1) payload)) in *.
    set (b := payload !!! (length payload - 1)%nat) in *. pose proof (b2z_range b).
    rewrite summer_wsum; [|destruct payload; [done|unfold zlen; simpl; lia]
      |rewrite Z.even_sub, E; done|lia|lia].
    replace (Z.to_nat (zlen payload - 1)) with (length payload - 1)%nat by (unfold zlen; lia).
    fold w1 b. rewrite summer_store_hton16. rewrite Z.shiftl_mul_pow2 by lia.
    rewrite (u16_id (b2z b * 2 ^ 8)) by lia. rewrite (u16_id (b2z b * 2 ^ 8)) by lia.
    change (2 ^ 8) with 256. rewrite (u32_id (t + th + w1)) by lia.
    rewrite u32_id by lia. lia.
Qed.

(** The pseudo header sums of RFC 768 and RFC 2460. *)
Definition pseudo4 (s d len : Z) : Z :=
  wsum (store_le32 s) + wsum (store_le32 d) + 17 + (8 + len).
Definition pseudo6 (s d : list byte) (len : Z) : Z :=
  wsum s + wsum d + (8 + len) + 17.

Lemma summer_full p :
  Z.even (zlen p) = true -> zlen p <= 2 ^ 16 -> udp_checksum_summer p (zlen p) = wsum p.
Proof.
  intros. rewrite summer_wsum by (auto with lr; lia).
  unfold zlen. rewrite Nat2Z.id, take_ge; done.
Qed.

Lemma wsum_bounds_le p n : zlen p <= 2 * n -> 0 <= wsum p <= 65535 * n.
Proof.
  intros Hp. pose proof (wsum_bounds p).
  assert ((zlen p + 1) / 2 <= n) by (Z.div_mod_to_equations; lia). lia.
Qed.

Lemma udp_checksum_spec h payload s d :
  zlen payload <= 65535 - 8 ->
  ntoh16 (udp_checksum h payload (zlen payload) s d) =
  65535 - oc16 (pseudo4 s d (zlen payload) + udp_sum h payload).
Proof.
  intros Hp. pose proof (zlen_nonneg payload). unfold udp_checksum, pseudo4.
  change 4 with (zlen (store_le32 s)) at 1. rewrite summer_full by done.
  change 4 with (zlen (store_le32 d)) at 1. rewrite summer_full by done.
  pose proof (wsum_bounds_le (store_le32 s) 2 ltac:(done)).
  pose proof (wsum_bounds_le (store_le32 d) 2 ltac:(done)).
  rewrite !summer_store_hton16. unfold sizeof_udp_header.
  change (u16 IPV4_PROTOCOL_UDP) with 17.
  rewrite (u16_id (8 + zlen payload)) by lia. rewrite (u16_id (8 + zlen payload)) by lia.
  u32_drop.
  rewrite udp_checksum_tail_spec by lia. done.
Qed.

Lemma summer_store_hton32 x :
  0 <= x < 2 ^ 16 -> udp_checksum_summer (store_le32 (hton32 x)) 4 = x.
Proof.
  intros Hx. change 4 with (zlen (store_le32 (hton32 x))) at 1.
  rewrite summer_full by done. unfold store_le32, hton32, badvpn_reverse32.
  rewrite store_reverse. cbn -[Z.mul Z.add Z.div b2z z2b]. rewrite !b2z_z2b.
  unfold u8. change (2 ^ 8) with 256.
  assert (x / 256 / 256 = 0) as -> by (Z.div_mod_to_equations; lia).
  change (0 mod 256) with 0. change (0 / 256) with 0. change (0 mod 256) with 0.
  rewrite (Z.mod_small (x / 256)) by (Z.div_mod_to_equations; lia).
  Z.div_mod_to_equations; lia.
Qed.

Lemma udp_ip6_checksum_spec h payload s d :
  zlen s = 16 -> zlen d = 16 -> zlen payload <= 65535 - 8 ->
  ntoh16 (udp_ip6_checksum h payload (zlen payload) s d) =
  65535 - oc16 (pseudo6 s d (zlen payload) + udp_sum h payload).
Proof.
  intros Hs Hd Hp. pose proof (zlen_nonneg payload). unfold udp_ip6_checksum, pseudo6.
  pose proof (summer_full s) as Es. rewrite Hs in Es. rewrite Es by done.
  pose proof (summer_full d) as Ed. rewrite Hd in Ed. rewrite Ed by done.
  pose proof (wsum_bounds_le s 8 ltac:(lia)). pose proof (wsum_bounds_le d 8 ltac:(lia)).
  unfold sizeof_udp_header, IPV6_NEXT_UDP. rewrite !summer_store_hton32 by lia.
  u32_drop.
  rewrite udp_checksum_tail_spec by lia. done.
Qed.

(** ** Packet acceptance *)

Lemma ipv4_header_bytes_load d :
  20 <= zlen d -> ipv4_header_bytes (ipv4_header_load d) = take 20 d.
Proof.
  intros Hl. do 20 (destruct d as [|? d]; [by unfold zlen in Hl; simpl in Hl; lia|]).
  unfold ipv4_header_bytes, ipv4_header_load, field, slice.
  cbn [version4_ihl4 ds total_length identification flags3_fragmentoffset13 ttl protocol
    ipv4_cksum source_address destination_address].
  cbn [Z.to_nat Pos.to_nat Pos.iter_op Nat.add take drop].
  repeat match goal with |- context [le_store ?n (le_load ?l)] =>
    change (le_store n (le_load l)) with (le_store (length l) (le_load l));
    rewrite (le_store_load l) end.
  reflexivity.
Qed.

(** A well-formed IPv4 packet, read off its bytes: version nibble 4, a header
    length [hl] of 20 to 60 bytes and a total length between [hl] and the
    number of bytes there are. *)
Definition ipv4_shape (d : list byte) (hl total : Z) : Prop :=
  20 <= zlen d /\ b2z (d !!! 0%nat) / 16 = 4 /\ hl = 4 * (b2z (d !!! 0%nat) mod 16) /\
  total = badvpn_read_be16 (drop 2 d) /\ 20 <= hl <= total /\ total <= zlen d.

Lemma land_high_nibble b : 0 <= b < 256 -> Z.shiftr (Z.land b 0xF0) 4 = b / 16.
Proof.
  intros Hb. rewrite Z.shiftr_land. change (Z.shiftr 0xF0 4) with (Z.ones 4).
  rewrite Z.shiftr_div_pow2, Z.land_ones by lia. change (2 ^ 4) with 16.
  apply Z.mod_small. Z.div_mod_to_equations; lia.
Qed.

Lemma ipv4_header_load_first d :
  20 <= zlen d ->
  version4_ihl4 (ipv4_header_load d) = b2z (d !!! 0%nat) /\
  ntoh16 (total_length (ipv4_header_load d)) = badvpn_read_be16 (drop 2 d).
Proof.
  intros Hl. destruct d as [|a [|b [|c [|e d]]]];
    try (exfalso; unfold zlen in Hl; simpl in Hl; lia).
  split; [unfold ipv4_header_load, field, slice; simpl; lia|].
  change (ntoh16 (load_le16 [c; e]) = badvpn_read_be16 [c; e]).
  symmetry. apply read_be16_ntoh16.
Qed.

(** The sum over the first [hl] bytes, the checksum field counted apart. *)
Lemma wsum_header_split d hl :
  20 <= hl <= zlen d ->
  wsum (take (Z.to_nat hl) d) =
  wsum (ipv4_header_bytes (ipv4_set_checksum 0 (ipv4_header_load d)))
  + wsum (take (Z.to_nat (hl - 20)) (drop 20 d)) + ntoh16 (ipv4_cksum (ipv4_header_load d)).
Proof.
  intros Hl. replace (Z.to_nat hl) with (20 + Z.to_nat (hl - 20))%nat by lia.
  rewrite <- take_take_drop, wsum_app.
  2: { unfold zlen in *. rewrite length_take, Nat.min_l by lia. done. }
  rewrite <- ipv4_header_bytes_load by lia.
  pose proof (wsum_ipv4_set_checksum (ipv4_cksum (ipv4_header_load d)) (ipv4_header_load d)) as H.
  replace (ipv4_set_checksum _ (ipv4_header_load d)) with (ipv4_header_load d) in H at 1
    by reflexivity.
  lia.
Qed.

Lemma oc16_pos t : 0 < t -> 1 <= oc16 t.
Proof.
  intros. unfold oc16. destruct (Z.eqb_spec t 0); [lia|].
  pose proof (Z.mod_pos_bound (t - 1) 65535 ltac:(lia)). lia.
Qed.

(** [oc16] is all ones exactly on the positive multiples of [2^16 - 1]. *)
Lemma oc16_ones t : 0 < t -> oc16 t = 65535 <-> t mod 65535 = 0.
Proof.
  intros Ht. unfold oc16. destruct (Z.eqb_spec t 0); [lia|].
  pose proof (Z.div_mod t 65535 ltac:(lia)) as E.
  pose proof (Z.mod_pos_bound t 65535 ltac:(lia)).
  split; intros H1.
  - pose proof (Z.div_mod (t - 1) 65535 ltac:(lia)) as E1.
    replace t with (0 + ((t - 1) / 65535 + 1) * 65535) by lia.
    rewrite Z_mod_plus_full. done.
  - replace (t - 1) with (65534 + (t / 65535 - 1) * 65535) by lia.
    rewrite Z_mod_plus_full. done.
Qed.

(** Comparing a stored checksum with the computed one is the receiver's test of
    RFC 1071, except that the value 0xFFFF is never computed. *)
Lemma oc16_verify s c :
  0 < s -> 0 <= c <= 65535 ->
  (c = 65535 - oc16 s <-> oc16 (s + c) = 65535 /\ c <> 65535).
Proof.
  intros Hs Hc. pose proof (oc16_pos s Hs). split.
  - intros ->. split; [apply oc16_complement; lia|lia].
  - intros [Hv Hne]. apply oc16_ones in Hv; [|lia].
    pose proof (oc16_complement s ltac:(lia)) as Hw. pose proof (oc16_range s).
    apply oc16_ones in Hw; [|lia].
    pose proof (Z.div_mod (s + c) 65535 ltac:(lia)).
    pose proof (Z.div_mod (s + (65535 - oc16 s)) 65535 ltac:(lia)). lia.
Qed.

Lemma even_4k k : Z.even (4 * k) = true.
Proof. rewrite Z.even_mul. done. Qed.

(** The comparison of [ipv4_check], read off the bytes. *)
Lemma ipv4_check_sum d hl :
  20 <= hl <= zlen d -> hl <= 60 -> Z.even hl = true -> 0 < b2z (d !!! 0%nat) ->
  let h := ipv4_header_load d in
  (ipv4_cksum h =? ipv4_checksum (ipv4_set_checksum (hton16 0) h) (drop 20 d) (hl - 20)) = true <->
  oc16 (wsum (take (Z.to_nat hl) d)) = 65535 /\ ntoh16 (ipv4_cksum h) <> 65535.
Proof.
  intros Hl H60 He Hv h. rewrite Z.eqb_eq.
  pose proof (ipv4_header_load_wf d) as Hwf. fold h in Hwf.
  assert (forall a b, 0 <= a < 2 ^ 16 -> 0 <= b < 2 ^ 16 -> a = b <-> ntoh16 a = ntoh16 b) as Hinj.
  { intros a b Ha Hb. split; [congruence|]. apply hton16_inj; done. }
  rewrite Hinj; [|apply Hwf|apply hton16_range].
  rewrite ipv4_checksum_spec; [|lia|rewrite Z.even_sub, He; done|
    clear -Hl; unfold zlen in *; rewrite length_drop; lia].
  change (hton16 0) with 0. rewrite (wsum_header_split d hl) by lia. fold h.
  apply oc16_verify; [|pose proof (hton16_range (ipv4_cksum h)); unfold ntoh16; lia].
  pose proof (wsum_bounds (take (Z.to_nat (hl - 20)) (drop 20 d))).
  enough (0 < wsum (ipv4_header_bytes (ipv4_set_checksum 0 h))) by lia.
  destruct (ipv4_header_load_first d ltac:(lia)) as [Hf _]. fold h in Hf. rewrite <- Hf in Hv.
  destruct h as [v ? ? ? ? ? ? ? ? ?]. cbn [version4_ihl4] in Hv.
  destruct Hwf as [Hv8 _ _ _ _ _ _ _ _ _]. cbn [version4_ihl4] in Hv8.
  unfold ipv4_header_bytes, ipv4_set_checksum. cbn -[Z.mul Z.add Z.div b2z z2b].
  rewrite (b2z_z2b v), u8_id by lia.
  repeat match goal with |- context [b2z ?x] =>
    lazymatch goal with
    | _ : 0 <= b2z x < 256 |- _ => fail
    | _ => pose proof (b2z_range x) end end.
  lia.
Qed.

Lemma ihl_low_nibble b : 0 <= b < 256 -> u16 (Z.land b 0x0F * 4) = 4 * (b mod 16).
Proof.
  intros Hb. change 0x0F with (Z.ones 4). rewrite Z.land_ones by lia. change (2 ^ 4) with 16.
  pose proof (Z.mod_pos_bound b 16 ltac:(lia)). rewrite u16_id by lia. lia.
Qed.

(** A rejected packet does not have the shape the failed test asks for. *)
Ltac reject_shape := split; [done|intros (?&?&?&_); dands; lia].

(** C1: [ipv4_check] accepts a packet exactly when its version nibble is 4, its
    header length and total length fit each other and the bytes that are there,
    and the header words (options included) sum to all ones in one's complement
    arithmetic, the receiver's test of RFC 1071; a checksum field of 0xFFFF,
    which no sender computes, is not accepted. The payload is the packet's bytes
    from the end of the options to the total length. *)
Theorem ipv4_check_spec d h p :
  ipv4_check d = Some (h, p) <->
  exists hl total, ipv4_shape d hl total /\
    oc16 (wsum (take (Z.to_nat hl) d)) = 65535 /\
    badvpn_read_be16 (drop 10 d) <> 65535 /\
    h = ipv4_header_load d /\ p = slice hl (total - hl) d.
Proof.
  assert (20 <= zlen d -> badvpn_read_be16 (drop 10 d) = ntoh16 (ipv4_cksum (ipv4_header_load d)))
    as Hck.
  { intros Hl. do 12 (destruct d as [|? d]; [by unfold zlen in Hl; simpl in Hl; lia|]).
    etransitivity; [|apply read_be16_ntoh16]. reflexivity. }
  unfold ipv4_check, ipv4_shape, sizeof_ipv4_header. change (Z.to_nat 20) with 20%nat.
  set (b := b2z (d !!! 0%nat)). assert (0 <= b < 256) as Hb by apply b2z_range.
  destruct (Z.ltb_spec (zlen d) 20) as [|Hl];
    [reject_shape|].
  destruct (ipv4_header_load_first d Hl) as [Hv Ht].
  unfold IPV4_GET_VERSION, IPV4_GET_IHL. rewrite Hv, Ht. fold b.
  rewrite land_high_nibble, ihl_low_nibble by done. rewrite Hck by done.
  pose proof (Z.mod_pos_bound b 16 ltac:(lia)).
  destruct (Z.eqb_spec (b / 16) 4) as [E4|]; cbn [negb];
    [|reject_shape].
  destruct (Z.ltb_spec (4 * (b mod 16)) 20);
    [reject_shape|].
  destruct (Z.ltb_spec (zlen d) (4 * (b mod 16)));
    [reject_shape|].
  destruct (Z.ltb_spec (badvpn_read_be16 (drop 2 d)) (4 * (b mod 16)));
    [reject_shape|].
  destruct (Z.ltb_spec (zlen d) (badvpn_read_be16 (drop 2 d)));
    [reject_shape|].
  pose proof (ipv4_check_sum d (4 * (b mod 16)) ltac:(lia) ltac:(lia) ltac:(apply even_4k)) as Hs.
  fold b in Hs. specialize (Hs ltac:(Z.div_mod_to_equations; lia)). cbv zeta in Hs.
  destruct (_ =? _) eqn:E; cbn [negb].
  - split.
    + intros [= <- <-]. apply proj1 in Hs. specialize (Hs eq_refl).
      eexists _, _. intuition (done || lia).
    + intros (hl & total & (_ & _ & -> & -> & _) & _ & _ & -> & ->). done.
  - split; [done|]. intros (hl & total & (_ & _ & -> & _) & Hx & Hy & _).
    apply proj2 in Hs. discriminate Hs. done.
Qed.

(** ** Building packets *)

Lemma ipv4_checksum_no_options h e e' : ipv4_checksum h e 0 = ipv4_checksum h e' 0.
Proof.
  unfold ipv4_checksum. change (Z.to_nat (0 / 2)) with O.
  assert (forall p t, sum_be16 0 p t = t) as E by done. rewrite !E. done.
Qed.

(** A header sealed with the checksum the code computes over it passes the
    receiver's test and is read back unchanged, with its payload. *)
Lemma ipv4_sealed_check h payload extra :
  ipv4_header_wf h -> version4_ihl4 h = 0x45 ->
  ntoh16 (total_length h) = 20 + zlen payload ->
  let h' := ipv4_set_checksum (ipv4_checksum (ipv4_set_checksum (hton16 0) h) extra 0) h in
  ipv4_check (ipv4_header_bytes h' ++ payload) = Some (h', payload).
Proof.
  intros Hwf Hv Ht h'. set (d := ipv4_header_bytes h' ++ payload).
  set (c := ipv4_checksum (ipv4_set_checksum (hton16 0) h) extra 0) in *.
  assert (ipv4_header_wf h') as Hwf'.
  { destruct Hwf. constructor; simpl; try assumption. apply hton16_range. }
  assert (ipv4_header_load d = h') as Hld by (apply ipv4_header_load_bytes; done).
  assert (zlen d = 20 + zlen payload) as Hlen
    by (unfold d; rewrite zlen_app, zlen_ipv4_header_bytes; done).
  pose proof (zlen_nonneg payload) as Hp.
  destruct (ipv4_header_load_first d ltac:(lia)) as [Hf Htl]. rewrite Hld in Hf, Htl.
  change (version4_ihl4 h') with (version4_ihl4 h) in Hf.
  change (total_length h') with (total_length h) in Htl. rewrite Hv in Hf.
  assert ((ipv4_cksum h' =?
    ipv4_checksum (ipv4_set_checksum (hton16 0) h') (drop 20 d) 0) = true) as Hc.
  { apply Z.eqb_eq. change (ipv4_set_checksum (hton16 0) h') with (ipv4_set_checksum (hton16 0) h).
    apply ipv4_checksum_no_options. }
  unfold ipv4_check, sizeof_ipv4_header. rewrite Hlen, Hld.
  unfold IPV4_GET_VERSION, IPV4_GET_IHL.
  change (version4_ihl4 h') with (version4_ihl4 h).
  change (total_length h') with (total_length h). rewrite Hv, Ht.
  change (u16 (Z.land 0x45 0x0F * 4)) with 20.
  replace (20 + zlen payload <? 20) with false by (symmetry; apply Z.ltb_ge; lia).
  rewrite (Z.ltb_irrefl (20 + zlen payload)). change (Z.to_nat 20) with 20%nat.
  change (20 - 20) with 0. rewrite Hc. cbn [Z.eqb Z.shiftr Z.land].
  change (Some (h', slice 20 (20 + zlen payload - 20) d) = Some (h', payload)).
  do 2 f_equal. unfold d, slice. change (Z.to_nat 20) with (length (ipv4_header_bytes h')).
  rewrite drop_app_length. unfold zlen.
  replace (Z.to_nat _) with (length payload) by lia. apply take_ge. lia.
Qed.

Lemma udp_check_spec d h p :
  udp_check d = Some (h, p) <->
  exists len, 8 <= zlen d /\ len = badvpn_read_be16 (drop 4 d) /\ 8 <= len <= zlen d /\
    h = udp_header_load d /\ p = slice 8 (len - 8) d.
Proof.
  unfold udp_check, sizeof_udp_header. change (Z.to_nat 8) with 8%nat.
  destruct (Z.ltb_spec (zlen d) 8) as [|Hl]; [split; [done|intros (?&?&_); lia]|].
  assert (ntoh16 (udp_len (udp_header_load d)) = badvpn_read_be16 (drop 4 d)) as ->.
  { do 8 (destruct d as [|? d]; [by unfold zlen in Hl; simpl in Hl; lia|]).
    symmetry. etransitivity; [|apply read_be16_ntoh16]. reflexivity. }
  set (len := badvpn_read_be16 (drop 4 d)).
  destruct (Z.ltb_spec len 8); [split; [done|intros (?&?&?&?&_); lia]|].
  destruct (Z.ltb_spec (8 + (zlen d - 8)) len); [split; [done|intros (?&?&?&?&_); lia]|].
  split.
  - intros [= <- <-]. exists len. intuition (done || lia).
  - intros (l & _ & -> & _ & -> & ->). reflexivity.
Qed.

Lemma udp_check_bytes h payload :
  udp_header_wf h -> ntoh16 (udp_len h) = 8 + zlen payload ->
  udp_check (udp_header_bytes h ++ payload) = Some (h, payload).
Proof.
  intros Hwf Hl. pose proof (zlen_nonneg payload).
  unfold udp_check, sizeof_udp_header.
  rewrite zlen_app, zlen_udp_header_bytes, udp_header_load_bytes, Hl by done.
  replace (8 + zlen payload <? 8) with false by (symmetry; apply Z.ltb_ge; lia).
  replace (8 + (8 + zlen payload - 8)) with (8 + zlen payload) by lia.
  rewrite Z.ltb_irrefl. change (drop (Z.to_nat 8) (udp_header_bytes h ++ payload)) with payload.
  replace (8 + zlen payload - 8) with (zlen payload) by lia. rewrite slice_all. done.
Qed.

(** C2: the UDP checksum over IPv4 is the complement of the one's complement sum
    of pseudo header, header and payload, so a receiver's sum over the datagram
    that carries it is all ones; the stored value is 0, RFC 768's mark of an
    absent checksum, exactly when that sum is 0xFFFF, the substitution of
    0xFFFF for 0 being applied before the complement. *)
Theorem udp_checksum_correct h payload s d :
  zlen payload <= 65535 - 8 ->
  let c := udp_checksum (udp_set_checksum (hton16 0) h) payload (zlen payload) s d in
  let t := pseudo4 s d (zlen payload) + udp_sum (udp_set_checksum 0 h) payload in
  oc16 (pseudo4 s d (zlen payload) + udp_sum (udp_set_checksum c h) payload) = 65535 /\
  (c = 0 <-> oc16 t = 65535) /\ c <> 0xFFFF.
Proof.
  intros Hp c t. pose proof (udp_checksum_spec (udp_set_checksum (hton16 0) h) payload s d Hp) as Hc.
  fold c in Hc. change (hton16 0) with 0 in Hc. fold t in Hc.
  pose proof (zlen_nonneg payload).
  pose proof (wsum_bounds (store_le32 s)). pose proof (wsum_bounds (store_le32 d)).
  pose proof (udp_sum_bounds (udp_set_checksum 0 h) payload ltac:(lia)).
  assert (0 < t) as Hpos by (unfold t, pseudo4; lia).
  pose proof (oc16_pos t Hpos). pose proof (oc16_range t).
  split; [|split].
  - unfold udp_sum. rewrite wsum_udp_set_checksum, Hc.
    replace (pseudo4 s d (zlen payload) + _) with (t + (65535 - oc16 t))
      by (unfold t, udp_sum; lia).
    apply oc16_complement. lia.
  - split.
    + intros Hz. rewrite Hz in Hc. change (ntoh16 0) with 0 in Hc. lia.
    + intros Hz. apply hton16_inj; [apply hton16_range|lia|].
      change (hton16 c) with (ntoh16 c). rewrite Hc. change (hton16 0) with 0. lia.
  - intros Hz. rewrite Hz in Hc. change (ntoh16 0xFFFF) with 65535 in Hc. lia.
Qed.

Lemma udp_checksum_correct_witness :
  let h := UdpHeader (hton16 53) (hton16 5353) (hton16 10) 0 in
  oc16 (pseudo4 16777343 16777343 2 +
    udp_sum (udp_set_checksum
      (udp_checksum (udp_set_checksum (hton16 0) h) [x61; x62] 2 16777343 16777343) h)
      [x61; x62]) = 65535.
Proof.
  intros h. apply (udp_checksum_correct h [x61; x62] 16777343 16777343). vm_compute. discriminate.
Defined.
