(* ===== verification/LwipChksum.v ===== *)
(** * The Internet checksum of lwIP

    [lwip/src/core/inet_chksum.c], algorithm 2, which the build selects: the
    checksum over a memory area of any alignment and over a chain of pbufs, with
    and without the IPv4 and IPv6 pseudo headers. [def.c]'s byte swaps are
    written as their shifts and masks. *)

From Stdlib Require Import ZArith Lia.
From S2P Require Import Prelude ByteOrder IpProto.

(** A pbuf, as far as checksums read it: the address of the payload and the
    payload bytes ([len] is their number). A chain is the list of its pbufs. *)
Record pbuf := Pbuf { payload_addr : Z; payload : list byte }.

Definition pbuf_len (q : pbuf) : Z := zlen (payload q).

Definition FOLD_U32T (u : Z) : Z := u32 (Z.shiftr u 16 + Z.land u 0xffff).

Definition SWAP_BYTES_IN_WORD (w : Z) : Z := hton16 (u16 w).

(** [while (len > 1) { sum += *ps++; len -= 2; }], returning the bytes left. *)
Fixpoint chksum_words (pb : list byte) (sum : Z) : Z * list byte :=
  match pb with
  | a :: b :: pb' => chksum_words pb' (u32 (sum + load_le16 [a; b]))
  | _ => (sum, pb)
  end.

Definition lwip_standard_chksum (addr : Z) (pb : list byte) : Z :=
  let odd := Z.land addr 1 =? 1 in
  let '(t1, pb) :=
    match pb with
    | b :: pb' => if odd then (b2z b, pb') else (0, pb)
    | [] => (0, [])
    end in
  let '(sum, pb) := chksum_words pb 0 in
  let t0 := match pb with b :: _ => b2z b | [] => 0 end in
  let sum := u32 (sum + (t0 + 256 * t1)) in
  let sum := FOLD_U32T sum in
  let sum := FOLD_U32T sum in
  let sum := if odd then SWAP_BYTES_IN_WORD sum else sum in
  u16 sum.

(** The loop over the chain that [inet_cksum_pseudo_base] and
    [inet_chksum_pbuf] share, with [acc] and [swapped] as its state. *)
Fixpoint chksum_chain (p : list pbuf) (acc : Z) (swapped : bool) : Z * bool :=
  match p with
  | [] => (acc, swapped)
  | q :: p' =>
      let acc := u32 (acc + lwip_standard_chksum (payload_addr q) (payload q)) in
      let acc := FOLD_U32T acc in
      if negb (pbuf_len q mod 2 =? 0)
      then chksum_chain p' (SWAP_BYTES_IN_WORD acc) (negb swapped)
      else chksum_chain p' acc swapped
  end.

Definition inet_cksum_pseudo_base (p : list pbuf) (proto proto_len acc : Z) : Z :=
  let '(acc, swapped) := chksum_chain p acc false in
  let acc := if swapped then SWAP_BYTES_IN_WORD acc else acc in
  let acc := u32 (acc + hton16 (u16 proto)) in
  let acc := u32 (acc + hton16 proto_len) in
  let acc := FOLD_U32T acc in
  let acc := FOLD_U32T acc in
  u16 (Z.lnot (Z.land acc 0xffff)).

Definition inet_chksum_pseudo (p : list pbuf) (proto proto_len src dest : Z) : Z :=
  let acc := Z.land src 0xffff in
  let acc := u32 (acc + Z.land (Z.shiftr src 16) 0xffff) in
  let acc := u32 (acc + Z.land dest 0xffff) in
  let acc := u32 (acc + Z.land (Z.shiftr dest 16) 0xffff) in
  let acc := FOLD_U32T acc in
  let acc := FOLD_U32T acc in
  inet_cksum_pseudo_base p proto proto_len acc.

(** The four words of the two addresses, added in turn. *)
Fixpoint ip6_addr_sum (src dest : list Z) (acc : Z) : Z :=
  match src, dest with
  | s :: src', d :: dest' =>
      let acc := u32 (acc + Z.land s 0xffff) in
      let acc := u32 (acc + Z.land (Z.shiftr s 16) 0xffff) in
      let acc := u32 (acc + Z.land d 0xffff) in
      let acc := u32 (acc + Z.land (Z.shiftr d 16) 0xffff) in
      ip6_addr_sum src' dest' acc
  | _, _ => acc
  end.

Definition ip6_chksum_pseudo (p : list pbuf) (proto proto_len : Z) (src dest : list Z) : Z :=
  let acc := ip6_addr_sum src dest 0 in
  let acc := FOLD_U32T acc in
  let acc := FOLD_U32T acc in
  inet_cksum_pseudo_base p proto proto_len acc.

Definition inet_chksum (addr : Z) (pb : list byte) : Z :=
  u16 (Z.lnot (lwip_standard_chksum addr pb)).

Definition inet_chksum_pbuf (p : list pbuf) : Z :=
  let '(acc, swapped) := chksum_chain p 0 false in
  let acc := if swapped then SWAP_BYTES_IN_WORD acc else acc in
  u16 (Z.lnot (Z.land acc 0xffff)).

(** ** One's complement values

    [oc16 s] stands for the class of [s] modulo [2^16 - 1], zero kept apart;
    the little-endian number of a byte string is, in that sense, the sum of its
    little-endian words, since [2^16] is one. *)

Lemma oc16_cong a b :
  0 <= a -> 0 <= b -> a mod 65535 = b mod 65535 -> (a = 0 <-> b = 0) -> oc16 a = oc16 b.
Proof.
  intros Ha Hb Hm Hz. unfold oc16. destruct (Z.eqb_spec a 0), (Z.eqb_spec b 0); try tauto.
  f_equal. rewrite <- (Zminus_mod_idemp_l a), <- (Zminus_mod_idemp_l b). congruence.
Qed.

Lemma oc16_mod t : oc16 t mod 65535 = t mod 65535.
Proof.
  unfold oc16. destruct (Z.eqb_spec t 0) as [->|]; [done|].
  rewrite Zplus_mod_idemp_l. f_equal. lia.
Qed.

Lemma oc16_zero t : 0 <= t -> oc16 t = 0 <-> t = 0.
Proof.
  intros Ht. split; [|intros ->; done]. intros H. destruct (Z.eq_dec t 0); [done|].
  pose proof (oc16_pos t ltac:(lia)). lia.
Qed.

Lemma oc16_add a b : 0 <= a -> 0 <= b -> oc16 (oc16 a + oc16 b) = oc16 (a + b).
Proof.
  intros Ha Hb. pose proof (oc16_range a). pose proof (oc16_range b).
  pose proof (oc16_zero a Ha). pose proof (oc16_zero b Hb).
  apply oc16_cong; try lia.
  rewrite Zplus_mod, !oc16_mod, <- Zplus_mod. done.
Qed.

Lemma oc16_add_l a b : 0 <= a -> 0 <= b -> oc16 (oc16 a + b) = oc16 (a + b).
Proof.
  intros Ha Hb. pose proof (oc16_range a). pose proof (oc16_zero a Ha).
  apply oc16_cong; try lia. rewrite Zplus_mod, oc16_mod, <- Zplus_mod. done.
Qed.

Lemma oc16_mul k a : 0 < k -> 0 <= a -> oc16 (k * oc16 a) = oc16 (k * a).
Proof.
  intros Hk Ha. pose proof (oc16_range a). pose proof (oc16_zero a Ha).
  apply oc16_cong; try nia. rewrite Zmult_mod, oc16_mod, <- Zmult_mod. done.
Qed.

Lemma oc16_256_twice a : 0 <= a -> oc16 (256 * (256 * a)) = oc16 a.
Proof.
  intros Ha. apply oc16_cong; try lia.
  replace (256 * (256 * a)) with (a + a * 65535) by lia. apply Z_mod_plus_full.
Qed.

(** The byte swap of a 16-bit word multiplies its class by 256. *)
Lemma SWAP_spec w : 0 <= w <= 65535 -> SWAP_BYTES_IN_WORD w = w mod 256 * 256 + w / 256.
Proof.
  intros Hw. unfold SWAP_BYTES_IN_WORD. rewrite u16_id by lia.
  unfold hton16, badvpn_reverse16. simpl. rewrite !b2z_z2b. unfold u8. change (2 ^ 8) with 256.
  rewrite (Z.mod_small (w / 256)) by (Z.div_mod_to_equations; lia). lia.
Qed.

Lemma SWAP_range w : 0 <= w <= 65535 -> 0 <= SWAP_BYTES_IN_WORD w <= 65535.
Proof. intros Hw. rewrite SWAP_spec by done. Z.div_mod_to_equations; lia. Qed.

Lemma SWAP_oc16 s : 0 <= s -> SWAP_BYTES_IN_WORD (oc16 s) = oc16 (256 * s).
Proof.
  intros Hs. rewrite <- (oc16_mul 256 s) by lia. pose proof (oc16_range s).
  rewrite <- (oc16_small (SWAP_BYTES_IN_WORD (oc16 s))).
  2: { pose proof (SWAP_range (oc16 s) ltac:(done)). lia. }
  rewrite SWAP_spec by done. pose proof (Z.div_mod (oc16 s) 256 ltac:(lia)) as E.
  pose proof (Z.mod_pos_bound (oc16 s) 256 ltac:(lia)).
  set (q := oc16 s / 256) in *. set (r := oc16 s mod 256) in *.
  apply oc16_cong; try nia.
  replace (256 * oc16 s) with (r * 256 + q + q * 65535) by lia.
  rewrite Z_mod_plus_full. done.
Qed.

Lemma ntoh16_swap w : 0 <= w <= 65535 -> ntoh16 w = SWAP_BYTES_IN_WORD w.
Proof. intros Hw. unfold SWAP_BYTES_IN_WORD. rewrite u16_id by lia. done. Qed.

Lemma FOLD_spec u : 0 <= u < 2 ^ 32 -> FOLD_U32T u = u - 65535 * (u / 65536).
Proof.
  intros Hu. unfold FOLD_U32T. rewrite Z.add_comm, fold_round.
  apply u32_id. Z.div_mod_to_equations; lia.
Qed.

(** One fold of a sum of two 16-bit values, and two folds of any [u32_t], end
    with the one's complement sum. *)
Lemma FOLD_once u : 0 <= u <= 131070 -> FOLD_U32T u = oc16 u.
Proof.
  intros Hu. rewrite FOLD_spec by lia. destruct (Z.lt_ge_cases u 65536).
  - rewrite Z.div_small, oc16_small; lia.
  - rewrite <- oc16_fold, oc16_small; [done| |lia]. Z.div_mod_to_equations; lia.
Qed.

Lemma FOLD_twice u : 0 <= u < 2 ^ 32 -> FOLD_U32T (FOLD_U32T u) = oc16 u.
Proof.
  intros Hu. rewrite (FOLD_spec u) by done.
  assert (0 <= u - 65535 * (u / 65536) <= 131070) by (Z.div_mod_to_equations; lia).
  rewrite FOLD_once by done. destruct (Z.lt_ge_cases u 65536).
  - rewrite Z.div_small by lia. f_equal. lia.
  - apply oc16_fold. lia.
Qed.

(** The reference in both byte orders: the words of [l] read big-endian are,
    up to the factor 256, those read little-endian. *)
Lemma wsum_le_load l : oc16 (wsum l) = oc16 (256 * le_load l).
Proof.
  induction l as [|a|a b l IH] using list_ind2.
  - done.
  - cbn [wsum le_load]. f_equal. lia.
  - cbn [wsum le_load]. pose proof (b2z_range a). pose proof (b2z_range b).
    pose proof (wsum_bounds l). pose proof (le_load_range l).
    rewrite Z.add_comm, <- oc16_add_l, IH, oc16_add_l by lia.
    apply oc16_cong; try lia.
    replace (256 * (b2z a + 256 * (b2z b + 256 * le_load l))) with
      (256 * le_load l + (b2z a * 256 + b2z b) + (b2z b + 256 * le_load l) * 65535) by lia.
    rewrite Z_mod_plus_full. done.
Qed.

(** The word loop: the words summed and the byte left are, as a one's complement
    value, the little-endian number of the area. *)
Lemma chksum_words_spec pb sum :
  0 <= sum -> sum + 65536 * zlen pb < 2 ^ 32 ->
  exists s r, chksum_words pb sum = (s, r) /\ (length r <= 1)%nat /\
    0 <= s <= sum + 65536 * (zlen pb - zlen r) /\
    oc16 (s + le_load r) = oc16 (sum + le_load pb).
Proof.
  revert sum. induction pb as [|a|a b pb IH] using list_ind2; intros sum H0 Hb.
  - exists sum, []. unfold zlen in *. simpl in *. split_and!; auto with lia.
  - exists sum, [a]. unfold zlen in *. simpl in *. split_and!; auto with lia.
  - cbn [chksum_words]. autorewrite with zlen in *. pose proof (zlen_nonneg pb).
    assert (load_le16 [a; b] = b2z a + 256 * b2z b) as -> by (unfold load_le16; simpl; lia).
    pose proof (b2z_range a). pose proof (b2z_range b). pose proof (le_load_range pb).
    rewrite u32_id by lia.
    destruct (IH (sum + (b2z a + 256 * b2z b)) ltac:(lia) ltac:(lia)) as (s & r & -> & Hr & Hs & He).
    exists s, r. split; [done|]. split; [done|]. split; [lia|]. rewrite He.
    cbn [le_load]. apply oc16_cong; try lia.
    replace (sum + (b2z a + 256 * (b2z b + 256 * le_load pb))) with
      (sum + (b2z a + 256 * b2z b) + le_load pb + le_load pb * 65535) by lia.
    rewrite Z_mod_plus_full. done.
Qed.

(** The core of [lwip_standard_chksum] after the leading odd byte. *)
Lemma chksum_body_spec pb t1 :
  zlen pb <= 65535 -> 0 <= t1 < 256 ->
  (let '(sum, pb) := chksum_words pb 0 in
   let t0 := match pb with b :: _ => b2z b | [] => 0 end in
   FOLD_U32T (FOLD_U32T (u32 (sum + (t0 + 256 * t1))))) = oc16 (256 * t1 + le_load pb).
Proof.
  intros Hl Ht. pose proof (zlen_nonneg pb).
  destruct (chksum_words_spec pb 0 ltac:(lia) ltac:(lia)) as (s & r & -> & Hr & Hs & He).
  cbv zeta. pose proof (zlen_nonneg r). pose proof (le_load_range pb).
  assert (match r with b :: _ => b2z b | [] => 0 end = le_load r /\ 0 <= le_load r < 256) as [-> Hlr].
  { destruct r as [|b [|]]; simpl in *; try lia. pose proof (b2z_range b). lia. }
  rewrite u32_id by lia. rewrite FOLD_twice by lia.
  replace (s + (le_load r + 256 * t1)) with (s + le_load r + 256 * t1) by lia.
  rewrite <- oc16_add_l, He, oc16_add_l by lia. f_equal. lia.
Qed.

Lemma lwip_standard_chksum_spec addr pb :
  zlen pb <= 65535 -> lwip_standard_chksum addr pb = oc16 (le_load pb).
Proof.
  intros Hl. pose proof (oc16_range (le_load pb)). unfold lwip_standard_chksum.
  destruct (Z.land addr 1 =? 1), pb as [|b pb]; try done.
  - rewrite zlen_cons in Hl. pose proof (b2z_range b) as Hb.
    pose proof (chksum_body_spec pb (b2z b) ltac:(lia) Hb) as Hc.
    destruct (chksum_words pb 0) as [s r]. cbv zeta in Hc |- *. rewrite Hc.
    pose proof (le_load_range pb). rewrite SWAP_oc16 by lia.
    cbn [le_load] in *. rewrite u16_id; [|pose proof (oc16_range (256 * (256 * b2z b + le_load pb))); lia].
    apply oc16_cong; try lia.
    replace (256 * (256 * b2z b + le_load pb)) with
      (b2z b + 256 * le_load pb + b2z b * 65535) by lia.
    rewrite Z_mod_plus_full. done.
  - pose proof (chksum_body_spec (b :: pb) 0 ltac:(lia) ltac:(lia)) as Hc.
    destruct (chksum_words (b :: pb) 0) as [s r]. cbv zeta in Hc |- *. rewrite Hc.
    rewrite u16_id; [done|]. change (256 * 0 + le_load (b :: pb)) with (le_load (b :: pb)). lia.
Qed.

(** ** Chains *)

Definition chain_bytes (p : list pbuf) : list byte := concat (map payload p).

(** Every pbuf's length fits its [u16_t] field. *)
Definition chain_wf (p : list pbuf) : Prop := Forall (fun q => pbuf_len q <= 65535) p.

Lemma pow256_mod n : (256 ^ Z.of_nat n) mod 65535 = if Nat.even n then 1 else 256.
Proof.
  induction n as [|n IH]; [done|].
  rewrite Nat2Z.inj_succ, Z.pow_succ_r, <- Zmult_mod_idemp_r, IH by lia.
  rewrite Nat.even_succ, <- Nat.negb_even. destruct (Nat.even n); done.
Qed.

(** [shift sw s] scales [s] by 256 when an odd number of bytes precedes it. *)
Definition shift (sw : bool) (s : Z) : Z := if sw then 256 * s else s.

Lemma shift_nonneg sw s : 0 <= s -> 0 <= shift sw s.
Proof. destruct sw; simpl; lia. Qed.

Lemma oc16_le_load_app l k :
  oc16 (le_load (l ++ k)) = oc16 (le_load l + shift (Nat.odd (length l)) (le_load k)).
Proof.
  rewrite le_load_app. pose proof (le_load_range l). pose proof (le_load_range k).
  unfold zlen in *. pose proof (pow256_mod (length l)) as Hm. rewrite <- Nat.negb_odd in Hm.
  pose proof (Z.pow_pos_nonneg 256 (Z.of_nat (length l)) ltac:(lia) ltac:(lia)).
  apply oc16_cong; try nia.
  - pose proof (shift_nonneg (Nat.odd (length l)) (le_load k)). lia.
  - pose proof (Z.div_mod (256 ^ Z.of_nat (length l)) 65535 ltac:(lia)) as E. rewrite Hm in E.
    set (m := _ / 65535) in E. rewrite E.
    replace (le_load l + _) with (le_load l + shift (Nat.odd (length l)) (le_load k)
      + m * le_load k * 65535) by (destruct (Nat.odd (length l)); simpl; lia).
    apply Z_mod_plus_full.
  - destruct (Nat.odd (length l)); unfold shift; nia.
Qed.

Lemma pbuf_len_odd q : negb (pbuf_len q mod 2 =? 0) = Nat.odd (length (payload q)).
Proof.
  unfold pbuf_len, zlen. rewrite Zmod_odd, <- Nat.negb_even.
  replace (Z.odd (Z.of_nat (length (payload q)))) with (Nat.odd (length (payload q))).
  - rewrite <- Nat.negb_even. destruct (Nat.even _); done.
  - induction (length (payload q)) as [|n IH]; [done|].
    rewrite Nat.odd_succ, Nat2Z.inj_succ, Z.odd_succ, <- Nat.negb_odd, IH.
    rewrite Z.negb_odd. done.
Qed.

(** The chain loop computes the one's complement value of the concatenated
    payloads, whatever their number, sizes and alignments. *)
Lemma chksum_chain_spec p s sw :
  chain_wf p -> 0 <= s ->
  let '(acc, sw') := chksum_chain p (oc16 s) sw in
  (if sw' then SWAP_BYTES_IN_WORD acc else acc) = oc16 (shift sw (s + le_load (chain_bytes p)))
  /\ 0 <= acc <= 65535.
Proof.
  revert s sw. induction p as [|q p IH]; intros s sw Hwf Hs.
  { cbn [chksum_chain chain_bytes map concat le_load]. pose proof (oc16_range s).
    rewrite Z.add_0_r. destruct sw; [rewrite SWAP_oc16 by done|]; done. }
  inversion_clear Hwf as [|? ? Hq Hp]. cbn [chksum_chain]. unfold pbuf_len in Hq.
  rewrite lwip_standard_chksum_spec by done.
  pose proof (le_load_range (payload q)) as Hlq.
  pose proof (le_load_range (chain_bytes p)) as Hlp.
  pose proof (oc16_range s). pose proof (oc16_range (le_load (payload q))).
  rewrite u32_id by lia. rewrite FOLD_once, oc16_add by lia. rewrite pbuf_len_odd.
  change (chain_bytes (q :: p)) with (payload q ++ chain_bytes p).
  assert (oc16 (shift sw (s + le_load (payload q ++ chain_bytes p))) =
    oc16 (shift sw (s + (le_load (payload q)
      + shift (Nat.odd (length (payload q))) (le_load (chain_bytes p)))))) as ->.
  { pose proof (le_load_range (payload q ++ chain_bytes p)).
    pose proof (shift_nonneg (Nat.odd (length (payload q))) (le_load (chain_bytes p)) ltac:(lia)).
    assert (forall a b, 0 <= a -> 0 <= b -> oc16 a = oc16 b ->
      oc16 (shift sw (s + a)) = oc16 (shift sw (s + b))) as Hc.
    { intros a b Ha Hb Hab. destruct sw; unfold shift.
      - rewrite <- (oc16_mul 256 (s + a)), <- (oc16_mul 256 (s + b)) by lia.
        rewrite <- (oc16_add s a), <- (oc16_add s b), Hab by lia. done.
      - rewrite <- (oc16_add s a), <- (oc16_add s b), Hab by lia. done. }
    apply Hc; [lia|lia|apply oc16_le_load_app]. }
  destruct (Nat.odd (length (payload q))).
  - rewrite SWAP_oc16 by lia. specialize (IH (256 * (s + le_load (payload q))) (negb sw) Hp ltac:(lia)).
    destruct (chksum_chain p _ _) as [acc sw']. destruct IH as [-> Ha]. split; [|done].
    destruct sw; cbn [negb shift].
    + apply oc16_cong; try lia.
      replace (256 * (s + (le_load (payload q) + 256 * le_load (chain_bytes p)))) with (256 * (s + le_load (payload q)) + le_load (chain_bytes p)
        + le_load (chain_bytes p) * 65535) by lia.
      rewrite Z_mod_plus_full. done.
    + rewrite <- (oc16_256_twice (s + (le_load (payload q) + 256 * le_load (chain_bytes p)))) by lia.
      apply oc16_cong; try lia.
      replace (256 * (256 * (s + (le_load (payload q) + 256 * le_load (chain_bytes p))))) with
        (256 * (256 * (s + le_load (payload q)) + le_load (chain_bytes p))
         + 256 * le_load (chain_bytes p) * 65535) by lia.
      rewrite Z_mod_plus_full. done.
  - specialize (IH (s + le_load (payload q)) sw Hp ltac:(lia)).
    destruct (chksum_chain p _ _) as [acc sw']. destruct IH as [-> Ha]. split; [|done].
    cbn [shift]. f_equal. f_equal. lia.
Qed.

(** Complementing and storing a 16-bit one's complement value, read back in
    network order. *)
Lemma ntoh16_complement s :
  0 <= s -> ntoh16 (u16 (Z.lnot (Z.land (oc16 s) 0xffff))) = 65535 - oc16 (256 * s).
Proof.
  intros Hs. pose proof (oc16_range s).
  change 0xffff with (Z.ones 16). rewrite Z.land_ones, Z.mod_small by lia.
  unfold Z.lnot, u16. replace (Z.pred (- oc16 s)) with (65535 - oc16 s + (-1) * 2 ^ 16) by lia.
  rewrite Z_mod_plus_full, Z.mod_small by lia. rewrite ntoh16_swap by lia.
  rewrite <- SWAP_oc16, !SWAP_spec by lia.
  pose proof (Z.div_mod (oc16 s) 256 ltac:(lia)) as E.
  pose proof (Z.mod_pos_bound (oc16 s) 256 ltac:(lia)).
  set (q := oc16 s / 256) in *. set (r := oc16 s mod 256) in *.
  replace (65535 - oc16 s) with (255 - r + (255 - q) * 256) by lia.
  rewrite Z_mod_plus_full, Z.div_add by lia.
  rewrite (Z.mod_small (255 - r)), (Z.div_small (255 - r)) by lia.
  change (Z.ones 16) with 65535. lia.
Qed.

Lemma land_ffff s : 0 <= s <= 65535 -> Z.land s 0xffff = s.
Proof. intros. change 0xffff with (Z.ones 16). rewrite Z.land_ones, Z.mod_small; lia. Qed.

(** C3: the checksum lwIP computes over a chain of pbufs is the complement of
    the one's complement sum of the big-endian words of the concatenated
    payloads: it does not depend on how the bytes are split over the chain, on
    odd lengths inside it or on the alignment of any payload pointer. *)
Theorem inet_chksum_pbuf_correct p :
  chain_wf p ->
  ntoh16 (inet_chksum_pbuf p) = 65535 - oc16 (wsum (chain_bytes p)).
Proof.
  intros Hwf. unfold inet_chksum_pbuf.
  pose proof (chksum_chain_spec p 0 false Hwf ltac:(lia)) as Hc.
  change (oc16 0) with 0 in Hc. destruct (chksum_chain p 0 false) as [acc sw].
  destruct Hc as [-> _]. pose proof (le_load_range (chain_bytes p)).
  cbn [shift]. rewrite ntoh16_complement, wsum_le_load by lia. done.
Qed.

Lemma inet_chksum_pbuf_correct_witness :
  let p := [Pbuf 1001 [x45; x00; x1c]; Pbuf 64 [xff]; Pbuf 77 [x80; x11]] in
  ntoh16 (inet_chksum_pbuf p) = 65535 - oc16 (wsum [x45; x00; x1c; xff; x80; x11]).
Proof.
  intros p. apply (inet_chksum_pbuf_correct p). repeat constructor; vm_compute; discriminate.
Defined.

(** The pseudo header part: [acc] carries the addresses. *)
Lemma inet_cksum_pseudo_base_spec p proto proto_len s :
  chain_wf p -> 0 <= s -> 0 <= proto < 256 -> 0 <= proto_len < 65536 ->
  ntoh16 (inet_cksum_pseudo_base p proto proto_len (oc16 s)) =
  65535 - oc16 (256 * s + proto + proto_len + wsum (chain_bytes p)).
Proof.
  intros Hwf Hs Hp Hl. unfold inet_cksum_pseudo_base.
  pose proof (chksum_chain_spec p s false Hwf Hs) as Hc.
  destruct (chksum_chain p (oc16 s) false) as [acc sw]. destruct Hc as [-> _]. cbn [shift].
  pose proof (le_load_range (chain_bytes p)) as Hb.
  pose proof (wsum_bounds (chain_bytes p)) as Hw. set (L := le_load (chain_bytes p)) in *.
  pose proof (oc16_range (s + L)). rewrite (u16_id proto) by lia.
  assert (forall x, 0 <= x < 65536 -> hton16 x = oc16 (256 * x)) as Hh.
  { intros x Hx. change (hton16 x) with (ntoh16 x). rewrite ntoh16_swap by lia.
    rewrite <- (oc16_small x) at 1 by lia. apply SWAP_oc16. lia. }
  rewrite (Hh proto), (Hh proto_len) by lia.
  pose proof (oc16_range (256 * proto)). pose proof (oc16_range (256 * proto_len)).
  u32_drop. rewrite FOLD_twice by lia.
  assert (oc16 (oc16 (s + L) + oc16 (256 * proto) + oc16 (256 * proto_len)) =
    oc16 (s + L + 256 * proto + 256 * proto_len)) as ->.
  { rewrite <- (oc16_add_l (oc16 (s + L) + oc16 (256 * proto))) by lia.
    rewrite (oc16_add (s + L)), oc16_add by lia. done. }
  rewrite ntoh16_complement by lia. f_equal.
  rewrite (Z.add_comm _ (wsum _)), <- oc16_add_l, wsum_le_load, oc16_add_l by lia. fold L.
  apply oc16_cong; try lia.
  replace (256 * (s + L + 256 * proto + 256 * proto_len)) with
    (256 * L + (256 * s + proto + proto_len) + (proto + proto_len) * 65535) by lia.
  rewrite Z_mod_plus_full. done.
Qed.

Lemma addr_words a : 0 <= a < 2 ^ 32 ->
  Z.land a 0xffff + Z.land (Z.shiftr a 16) 0xffff <= 131070 /\
  0 <= Z.land a 0xffff /\ 0 <= Z.land (Z.shiftr a 16) 0xffff /\
  oc16 (256 * (Z.land a 0xffff + Z.land (Z.shiftr a 16) 0xffff)) = oc16 (wsum (store_le32 a)).
Proof.
  intros Ha. change 0xffff with (Z.ones 16). rewrite !Z.land_ones, Z.shiftr_div_pow2 by lia.
  change (2 ^ 16) with 65536.
  pose proof (Z.mod_pos_bound a 65536 ltac:(lia)).
  pose proof (Z.mod_pos_bound (a / 65536) 65536 ltac:(lia)).
  split; [lia|]. split; [lia|]. split; [lia|].
  rewrite wsum_le_load. unfold store_le32. rewrite le_load_store. change (256 ^ Z.of_nat 4) with (2 ^ 32).
  rewrite (Z.mod_small a (2 ^ 32)) by lia.
  rewrite (Z.mod_small (a / 65536)) by (Z.div_mod_to_equations; lia).
  pose proof (Z.div_mod a 65536 ltac:(lia)) as E.
  apply oc16_cong; try (Z.div_mod_to_equations; lia).
Qed.

Lemma inet_chksum_pseudo_spec p proto proto_len src dest :
  chain_wf p -> 0 <= proto < 256 -> 0 <= proto_len < 65536 ->
  0 <= src < 2 ^ 32 -> 0 <= dest < 2 ^ 32 ->
  ntoh16 (inet_chksum_pseudo p proto proto_len src dest) =
  65535 - oc16 (wsum (store_le32 src) + wsum (store_le32 dest) + proto + proto_len
                + wsum (chain_bytes p)).
Proof.
  intros Hwf Hp Hl Hs Hd. unfold inet_chksum_pseudo.
  destruct (addr_words src Hs) as (Hs1 & Hs2 & Hs3 & Hs4).
  destruct (addr_words dest Hd) as (Hd1 & Hd2 & Hd3 & Hd4).
  u32_drop. rewrite FOLD_twice by lia.
  rewrite inet_cksum_pseudo_base_spec by lia || done. f_equal.
  pose proof (wsum_bounds (store_le32 src)). pose proof (wsum_bounds (store_le32 dest)).
  pose proof (wsum_bounds (chain_bytes p)).
  set (s1 := Z.land src 0xffff) in *. set (s2 := Z.land (Z.shiftr src 16) 0xffff) in *.
  set (d1 := Z.land dest 0xffff) in *. set (d2 := Z.land (Z.shiftr dest 16) 0xffff) in *.
  replace (256 * (s1 + s2 + d1 + d2) + proto + proto_len + wsum (chain_bytes p)) with
    (256 * (s1 + s2) + 256 * (d1 + d2) + (proto + proto_len + wsum (chain_bytes p))) by lia.
  rewrite <- oc16_add_l, <- (oc16_add (256 * (s1 + s2))), Hs4, Hd4, oc16_add, oc16_add_l by lia.
  f_equal. lia.
Qed.

(** LwIP and tun2socks agree on UDP checksums: over a chain that holds a UDP
    header and its payload, however it is cut and aligned, [inet_chksum_pseudo]
    returns the value [udp_checksum] computes from the header struct and the
    payload. *)
Theorem lwip_udp_checksum_agree p h pl src dest :
  chain_wf p -> chain_bytes p = udp_header_bytes h ++ pl -> zlen pl <= 65535 - 8 ->
  0 <= src < 2 ^ 32 -> 0 <= dest < 2 ^ 32 ->
  inet_chksum_pseudo p IPV4_PROTOCOL_UDP (8 + zlen pl) src dest =
  udp_checksum h pl (zlen pl) src dest.
Proof.
  intros Hwf Hb Hl Hs Hd. pose proof (zlen_nonneg pl).
  apply hton16_inj.
  - unfold inet_chksum_pseudo, inet_cksum_pseudo_base. destruct (chksum_chain _ _ _). apply u16_range.
  - apply hton16_range.
  - change hton16 with ntoh16. rewrite inet_chksum_pseudo_spec by (done || unfold IPV4_PROTOCOL_UDP; lia).
    rewrite udp_checksum_spec by done. rewrite Hb, wsum_app by done.
    unfold pseudo4, udp_sum, IPV4_PROTOCOL_UDP. f_equal.
Qed.

Lemma lwip_udp_checksum_agree_witness :
  let h := UdpHeader (hton16 53) (hton16 5353) (hton16 10) 0 in
  let p := [Pbuf 3 (take 5 (udp_header_bytes h)); Pbuf 8 (drop 5 (udp_header_bytes h) ++ [x61]);
            Pbuf 13 [x62]] in
  inet_chksum_pseudo p IPV4_PROTOCOL_UDP 10 16777343 33554687 =
  udp_checksum h [x61; x62] 2 16777343 33554687.
Proof.
  intros h p. apply (lwip_udp_checksum_agree p h [x61; x62]);
    [repeat constructor; vm_compute; discriminate|reflexivity|vm_compute; discriminate|lia|lia].
Defined.
