(* ===== verification/SLinkedList.v ===== *)
(** * Intrusive doubly linked lists

    [structure/SLinkedList_impl.h]: the node of an entry holds pointers to its
    neighbours, the list a pointer to the first entry and, when
    [SLINKEDLIST_PARAM_FEATURE_LAST] is set, to the last one. Memory is a finite
    map from addresses to nodes; [NULL] is [None]. [represents] relates the
    pointers to the sequence of entries they link, and every operation is shown
    to be the operation on sequences its name promises. *)

From Stdlib Require Import Lia.
From S2P Require Import Prelude.

Definition loc := nat.

Record node := Node { prev : option loc; next : option loc }.

#[export] Instance node_inhabited : Inhabited node := populate (Node None None).

Record SLinkedList := SLL { first : option loc; last : option loc }.

Definition set_prev (e : loc) (v : option loc) (h : gmap loc node) : gmap loc node :=
  <[e := Node v (next (h !!! e))]> h.
Definition set_next (e : loc) (v : option loc) (h : gmap loc node) : gmap loc node :=
  <[e := Node (prev (h !!! e)) v]> h.

(** Writing both pointers of a node, in either order. *)
Lemma set_next_prev e p n h : set_next e n (set_prev e p h) = <[e := Node p n]> h.
Proof. unfold set_next, set_prev. rewrite lookup_total_insert_eq, insert_insert_eq. done. Qed.
Lemma set_prev_next e p n h : set_prev e p (set_next e n h) = <[e := Node p n]> h.
Proof. unfold set_next, set_prev. rewrite lookup_total_insert_eq, insert_insert_eq. done. Qed.

Section ops.
Context (feature_last : bool).

Definition set_last (v : option loc) (o : SLinkedList) : SLinkedList :=
  if feature_last then SLL (first o) v else o.
Definition set_first (v : option loc) (o : SLinkedList) : SLinkedList := SLL v (last o).

Definition SLinkedList_Init (o : SLinkedList) : SLinkedList := set_last None (set_first None o).

Definition SLinkedList_Prepend (o : SLinkedList) (entry : loc) (h : gmap loc node) : SLinkedList * gmap loc node :=
  let h := set_prev entry None h in
  let h := set_next entry (first o) h in
  match first o with
  | Some f => (set_first (Some entry) o, set_prev f (Some entry) h)
  | None => (set_first (Some entry) (set_last (Some entry) o), h)
  end.

(** Compiled only with [SLINKEDLIST_PARAM_FEATURE_LAST]. *)
Definition SLinkedList_Append (o : SLinkedList) (entry : loc) (h : gmap loc node) : SLinkedList * gmap loc node :=
  let h := set_next entry None h in
  let h := set_prev entry (last o) h in
  match last o with
  | Some l => (set_last (Some entry) o, set_next l (Some entry) h)
  | None => (set_last (Some entry) (set_first (Some entry) o), h)
  end.

Definition SLinkedList_InsertBefore (o : SLinkedList) (entry before_entry : loc) (h : gmap loc node) : SLinkedList * gmap loc node :=
  let h := set_prev entry (prev (h !!! before_entry)) h in
  let h := set_next entry (Some before_entry) h in
  let '(o, h) :=
    match prev (h !!! before_entry) with
    | Some p => (o, set_next p (Some entry) h)
    | None => (set_first (Some entry) o, h)
    end in
  (o, set_prev before_entry (Some entry) h).

Definition SLinkedList_InsertAfter (o : SLinkedList) (entry after_entry : loc) (h : gmap loc node) : SLinkedList * gmap loc node :=
  let h := set_next entry (next (h !!! after_entry)) h in
  let h := set_prev entry (Some after_entry) h in
  let '(o, h) :=
    match next (h !!! after_entry) with
    | Some n => (o, set_prev n (Some entry) h)
    | None => (set_last (Some entry) o, h)
    end in
  (o, set_next after_entry (Some entry) h).

Definition SLinkedList_Remove (o : SLinkedList) (entry : loc) (h : gmap loc node) : SLinkedList * gmap loc node :=
  let '(o, h) :=
    match prev (h !!! entry) with
    | Some p => (o, set_next p (next (h !!! entry)) h)
    | None => (set_first (next (h !!! entry)) o, h)
    end in
  match next (h !!! entry) with
  | Some n => (o, set_prev n (prev (h !!! entry)) h)
  | None => (set_last (prev (h !!! entry)) o, h)
  end.

Definition SLinkedList_First (o : SLinkedList) : option loc := first o.
Definition SLinkedList_Last (o : SLinkedList) : option loc := last o.
Definition SLinkedList_IsEmpty (o : SLinkedList) : bool :=
  match first o with None => true | Some _ => false end.

(** ** Representation *)

(** The nodes of [xs] are linked in order, the first one's [prev] being [p] and
    the last one's [next] being [n]. *)
Fixpoint seg (h : gmap loc node) (p : option loc) (xs : list loc) (n : option loc) : Prop :=
  match xs with
  | [] => True
  | x :: xs' =>
      h !! x = Some (Node p (match xs' with [] => n | y :: _ => Some y end)) /\
      seg h (Some x) xs' n
  end.

(** The last element, or [d]. *)
Definition last_or (d : option loc) (xs : list loc) : option loc :=
  match list.last xs with Some x => Some x | None => d end.
Definition head_or (d : option loc) (xs : list loc) : option loc :=
  match xs with [] => d | x :: _ => Some x end.

Record represents (o : SLinkedList) (h : gmap loc node) (xs : list loc) : Prop := {
  rep_first : first o = head xs;
  rep_last : feature_last = true -> last o = list.last xs;
  rep_seg : seg h None xs None;
  rep_nodup : NoDup xs
}.

Lemma seg_frame h p xs n k v : k ∉ xs -> seg h p xs n -> seg (<[k := v]> h) p xs n.
Proof.
  revert p. induction xs as [|x xs IH]; intros p Hk; [done|].
  apply not_elem_of_cons in Hk as [? ?]. intros [Hx Hs]. split; [|auto].
  rewrite lookup_insert_ne; done.
Qed.

Lemma seg_app h p xs ys n :
  seg h p (xs ++ ys) n <-> seg h p xs (head_or n ys) /\ seg h (last_or p xs) ys n.
Proof.
  revert p. induction xs as [|x xs IH]; intros p.
  - simpl. unfold last_or. simpl. tauto.
  - cbn [app seg]. rewrite IH.
    assert (last_or p (x :: xs) = last_or (Some x) xs) as ->.
    { unfold last_or. destruct xs; [done|]. rewrite !last_cons_cons.
      destruct (list.last _) eqn:E; [done|]. apply last_None in E. done. }
    destruct xs; cbn [app head_or]; destruct ys; simpl; tauto.
Qed.

Lemma seg_lookup h p xs n x : seg h p xs n -> x ∈ xs -> is_Some (h !! x).
Proof.
  revert p. induction xs as [|y xs IH]; intros p; [by intros _ ?%elem_of_nil|].
  intros [Hy Hs] [->|Hx]%elem_of_cons; eauto.
Qed.

(** Relinking the first node's [prev], and the last node's [next]. *)
Lemma seg_set_prev h p p' x xs n :
  NoDup (x :: xs) -> seg h p (x :: xs) n -> seg (set_prev x p' h) p' (x :: xs) n.
Proof.
  intros Hn [Hx Hs]. apply NoDup_cons in Hn as [Hnx _]. unfold set_prev. split.
  - rewrite lookup_insert_eq, (lookup_total_correct _ _ _ Hx). done.
  - apply seg_frame; done.
Qed.

Lemma seg_set_next h p xs x n n' :
  NoDup (xs ++ [x]) -> seg h p (xs ++ [x]) n -> seg (set_next x n' h) p (xs ++ [x]) n'.
Proof.
  intros Hn Hs. apply seg_app in Hs as [H1 [Hx _]]. cbn [head_or] in *.
  apply NoDup_app in Hn as (_ & Hd & _). unfold set_next. apply seg_app. split.
  - apply seg_frame; [|done]. intros Hin. apply (Hd x Hin). set_solver.
  - cbn [seg]. split; [|done]. rewrite lookup_insert_eq, (lookup_total_correct _ _ _ Hx). done.
Qed.

(** ** Operations on sequences *)

Lemma SLinkedList_Init_represents o h : represents (SLinkedList_Init o) h [].
Proof.
  split; simpl; [unfold SLinkedList_Init, set_last; destruct feature_last; done| |done|constructor].
  intros Hf. unfold SLinkedList_Init, set_last. rewrite Hf. done.
Qed.

Lemma SLinkedList_Prepend_represents o h xs e o' h' :
  represents o h xs -> e ∉ xs -> SLinkedList_Prepend o e h = (o', h') ->
  represents o' h' (e :: xs) /\ (forall k, k ∉ e :: xs -> h' !! k = h !! k).
Proof.
  intros [Hf Hl Hs Hn] He. unfold SLinkedList_Prepend. rewrite Hf, set_next_prev.
  destruct xs as [|x xs]; simpl; intros [= <- <-].
  - split; [split; simpl; intros; try done|].
    + unfold set_first, set_last. destruct feature_last; done.
    + rewrite lookup_insert_eq. done.
    + apply NoDup_singleton.
    + intros k Hk. rewrite lookup_insert_ne by set_solver. done.
  - apply not_elem_of_cons in He as [Hex He].
    split; [split; try done|].
    + split; [unfold set_prev; rewrite lookup_insert_ne, lookup_insert_eq by done; done|].
      apply (seg_set_prev _ None); [done|]. apply seg_frame; [set_solver|done].
    + apply NoDup_cons. split; [set_solver|done].
    + intros k Hk. unfold set_prev. rewrite !lookup_insert_ne by set_solver. done.
Qed.

Lemma SLinkedList_Append_represents o h xs e o' h' :
  feature_last = true ->
  represents o h xs -> e ∉ xs -> SLinkedList_Append o e h = (o', h') ->
  represents o' h' (xs ++ [e]) /\ (forall k, k ∉ xs ++ [e] -> h' !! k = h !! k).
Proof.
  intros Hfl [Hf Hl Hs Hn] He. unfold SLinkedList_Append. rewrite Hl, set_prev_next by done.
  destruct xs as [|x xs _] using rev_ind; simpl.
  - intros [= <- <-]. unfold set_last, set_first. rewrite Hfl.
    split; [split; simpl; intros; try done|].
    + rewrite lookup_insert_eq. done.
    + apply NoDup_singleton.
    + intros k Hk. rewrite lookup_insert_ne by set_solver. done.
  - rewrite last_snoc. intros [= <- <-]. assert (x <> e) by set_solver.
    split; [split|].
    + unfold set_last. rewrite Hfl. simpl. rewrite Hf. destruct xs; done.
    + intros _. unfold set_last. rewrite Hfl, last_snoc. done.
    + apply seg_app. cbn [head_or]. split.
      * apply (seg_set_next _ None _ _ None); [done|]. apply seg_frame; done.
      * unfold last_or. rewrite last_snoc. split; [|done].
        unfold set_next. rewrite lookup_insert_ne, lookup_insert_eq by done. done.
    + apply NoDup_app. split_and!; [done|set_solver|apply NoDup_singleton].
    + intros k Hk. unfold set_next. rewrite !lookup_insert_ne by set_solver. done.
Qed.

Lemma last_or_None xs : last_or None xs = list.last xs.
Proof. unfold last_or. destruct (list.last xs); done. Qed.

Lemma SLinkedList_Remove_represents o h l1 e l2 o' h' :
  represents o h (l1 ++ e :: l2) -> SLinkedList_Remove o e h = (o', h') ->
  represents o' h' (l1 ++ l2) /\ h' !! e = h !! e /\
  (forall k, k ∉ l1 ++ e :: l2 -> h' !! k = h !! k).
Proof.
  intros [Hf Hl Hs Hn]. apply seg_app in Hs as [Hs1 [Hx Hs2]]. cbn [head_or] in Hs1.
  rewrite last_or_None in Hx. apply NoDup_app in Hn as (Hn1 & Hd & Hn2).
  apply NoDup_cons in Hn2 as [He2 Hn2].
  assert (e ∉ l1) as He1 by set_solver.
  assert (NoDup (l1 ++ l2)) as Hn12 by (apply NoDup_app; set_solver).
  unfold SLinkedList_Remove. rewrite (lookup_total_correct _ _ _ Hx). cbn [prev next].
  destruct l1 as [|p l1 _] using rev_ind; [cbn [app list.last] in *|rewrite last_snoc in *].
  - rewrite (lookup_total_correct _ _ _ Hx). cbn [prev next].
    destruct l2 as [|n l2]; intros [= <- <-].
    + split; [|done]. split; [unfold set_last, set_first; destruct feature_last; done| |done|done].
      intros H. unfold set_last. rewrite H. done.
    + split; [split; [done| |apply (seg_set_prev _ (Some e)); done|done]|].
      * intros H. simpl. rewrite Hl, last_cons_cons by done. done.
      * unfold set_prev. split; [rewrite lookup_insert_ne; set_solver|].
        intros k Hk. rewrite lookup_insert_ne; set_solver.
  - set (h1 := set_next p _ h).
    assert (h1 !! e = h !! e) as Hx1 by (unfold h1, set_next; rewrite lookup_insert_ne; set_solver).
    rewrite Hx in Hx1. rewrite (lookup_total_correct _ _ _ Hx1). cbn [prev next].
    pose proof (seg_set_next _ _ _ _ _ (head_or None l2) Hn1 Hs1) as Hs1'.
    change (set_next p (head_or None l2) h) with h1 in Hs1'.
    assert (forall k, k <> p -> h1 !! k = h !! k) as Hfr
      by (intros k ?; unfold h1, set_next; rewrite lookup_insert_ne; done).
    destruct l2 as [|n l2]; intros [= <- <-].
    + rewrite app_nil_r in *. split; [split|].
      * unfold set_last. destruct feature_last; simpl; rewrite Hf; destruct l1; done.
      * intros H. unfold set_last. rewrite H, last_snoc. done.
      * exact Hs1'.
      * done.
      * split; [rewrite Hx1, Hx; done|]. intros k Hk. apply Hfr. set_solver.
    + split; [split|].
      * rewrite Hf. destruct l1; done.
      * intros H. rewrite Hl by done. rewrite !last_app. done.
      * apply seg_app. split.
        { cbn [head_or] in *. unfold set_prev. apply seg_frame; [|done].
          intros Hin. apply (Hd n Hin). set_solver. }
        unfold last_or. rewrite last_snoc.
        apply (seg_set_prev _ (Some e)); [done|].
        unfold h1, set_next. apply seg_frame; [|done]. intros Hin. apply (Hd p); set_solver.
      * done.
      * unfold set_prev. split.
        { rewrite lookup_insert_ne by set_solver. rewrite Hx1, Hx. done. }
        intros k Hk. rewrite lookup_insert_ne by set_solver. apply Hfr. set_solver.
Qed.

Lemma last_insert {A} (l1 l2 : list A) (e b : A) : list.last (l1 ++ e :: b :: l2) = list.last (l1 ++ b :: l2).
Proof. by rewrite !last_app, last_cons_cons. Qed.

Lemma SLinkedList_InsertBefore_represents o h l1 b l2 e o' h' :
  represents o h (l1 ++ b :: l2) -> e ∉ l1 ++ b :: l2 -> SLinkedList_InsertBefore o e b h = (o', h') ->
  represents o' h' (l1 ++ e :: b :: l2) /\ (forall k, k ∉ l1 ++ e :: b :: l2 -> h' !! k = h !! k).
Proof.
  intros [Hf Hl Hs Hn] He. apply seg_app in Hs as [Hs1 Hs2]. cbn [head_or] in Hs1. pose proof (proj1 Hs2) as Hb.
  assert (NoDup (l1 ++ e :: b :: l2)) as Hn'.
  { rewrite <- Permutation_middle. by apply NoDup_cons. }
  apply NoDup_app in Hn as (Hn1 & Hd & Hn2).
  assert (b <> e) as Nb by set_solver. assert (e ∉ l1) as He1 by set_solver.
  unfold SLinkedList_InsertBefore. rewrite set_next_prev.
  rewrite (lookup_total_correct _ _ _ Hb), lookup_total_insert_ne, (lookup_total_correct _ _ _ Hb) by done. cbn [prev].
  set (h1 := <[e := _]> h).
  assert (seg h1 (last_or None l1) (b :: l2) None) as Hs2' by (apply seg_frame; [set_solver|done]).
  rewrite last_or_None in *. destruct l1 as [|p l1 _] using rev_ind; [cbn [app list.last] in *|rewrite last_snoc in *].
  - intros [= <- <-]. split; [split|].
    + done.
    + intros H. simpl. rewrite (Hl H). done.
    + split; [unfold set_prev, h1; rewrite lookup_insert_ne, lookup_insert_eq by done; done|].
      by apply (seg_set_prev _ None).
    + done.
    + intros k Hk. unfold set_prev, h1. rewrite !lookup_insert_ne by set_solver. done.
  - intros [= <- <-]. assert (p <> b) as Np by (intros ->; apply (Hd b); set_solver). assert (p <> e) as Npe by set_solver.
    assert (p ∉ b :: l2) as Np2 by (intros ?; apply (Hd p); set_solver).
    split; [split|].
    + rewrite Hf. destruct l1; done.
    + intros H. rewrite (Hl H), last_insert. done.
    + apply seg_app. cbn [head_or]. split.
      * unfold set_prev at 1. apply seg_frame; [intros Hin; apply (Hd b Hin); set_solver|].
        apply (seg_set_next _ None _ _ (Some b)); [done|]. by apply seg_frame.
      * rewrite last_or_None, last_snoc. split.
        { unfold set_prev, set_next, h1. rewrite !lookup_insert_ne, lookup_insert_eq, last_or_None, last_snoc by done. done. }
        apply (seg_set_prev _ (Some p)); [done|]. unfold set_next. by apply seg_frame.
    + done.
    + intros k Hk. unfold set_prev, set_next, h1. rewrite !lookup_insert_ne by set_solver. done.
Qed.

Lemma SLinkedList_InsertAfter_represents o h l1 a l2 e o' h' :
  represents o h (l1 ++ a :: l2) -> e ∉ l1 ++ a :: l2 -> SLinkedList_InsertAfter o e a h = (o', h') ->
  represents o' h' (l1 ++ a :: e :: l2) /\ (forall k, k ∉ l1 ++ a :: e :: l2 -> h' !! k = h !! k).
Proof.
  intros [Hf Hl Hs Hn] He. rewrite (app_assoc l1 [a] l2 : l1 ++ a :: l2 = _) in Hs, Hn, He.
  rewrite (app_assoc l1 [a] (e :: l2) : l1 ++ a :: e :: l2 = _). apply seg_app in Hs as [Hs1 Hs2].
  assert (NoDup ((l1 ++ [a]) ++ e :: l2)) as Hn'.
  { rewrite <- Permutation_middle. by apply NoDup_cons. }
  pose proof (proj1 (seg_app _ _ _ _ _) Hs1) as [_ [Ha _]]. apply NoDup_app in Hn as (Hn1 & Hd & Hn2).
  assert (a <> e) as Na by set_solver. rewrite last_or_None, last_snoc in Hs2.
  unfold SLinkedList_InsertAfter. rewrite set_prev_next.
  rewrite (lookup_total_correct _ _ _ Ha), lookup_total_insert_ne, (lookup_total_correct _ _ _ Ha) by done. cbn [next].
  set (h1 := <[e := _]> h). assert (seg h1 None (l1 ++ [a]) (head_or None l2)) as Hs1' by (apply seg_frame; [set_solver|done]).
  assert (forall h2 : gmap loc node, h2 !! e = Some (Node (Some a) (head_or None l2)) -> seg h2 None (l1 ++ [a]) (head_or None l2) ->
    seg h2 (Some e) l2 None -> a ∉ l2 -> seg (set_next a (Some e) h2) None ((l1 ++ [a]) ++ e :: l2) None) as Fin.
  { intros h2 H1 H2 H3 Ha2. apply seg_app. cbn [head_or]. split; [by apply (seg_set_next _ None _ _ (head_or None l2))|].
    rewrite last_or_None, last_snoc. unfold set_next. split; [rewrite lookup_insert_ne by done; exact H1|by apply seg_frame]. }
  assert (h1 !! e = Some (Node (Some a) (head_or None l2))) as H1 by apply lookup_insert_eq.
  assert (a ∉ l2) as Ha2 by (intros ?; apply (Hd a); set_solver).
  destruct l2 as [|n l2]; cbn [head_or] in *; intros [= <- <-].
  - split; [split|].
    + unfold set_last. destruct feature_last; simpl; rewrite Hf; destruct l1; done.
    + intros H. unfold set_last. rewrite H, last_snoc. done.
    + by apply Fin.
    + done.
    + intros k Hk. unfold set_next, h1. rewrite !lookup_insert_ne by set_solver. done.
  - assert (n ∉ l1 ++ [a]) as Nn by (intros Hin; apply (Hd n Hin); set_solver). assert (n <> e) as Nne by set_solver.
    split; [split|].
    + rewrite Hf. destruct l1; done.
    + intros H. rewrite (Hl H), <- (app_assoc l1). cbn [app]. by rewrite !last_app, !(last_cons_cons a), (last_cons_cons e).
    + apply Fin; [| | |done].
      * unfold set_prev. by rewrite lookup_insert_ne.
      * unfold set_prev. by apply seg_frame.
      * apply (seg_set_prev _ (Some a)); [done|]. apply seg_frame; [set_solver|done].
    + done.
    + intros k Hk. unfold set_next, set_prev, h1. rewrite !lookup_insert_ne by set_solver. done.
Qed.

Lemma SLinkedList_IsEmpty_spec o h xs :
  represents o h xs -> SLinkedList_IsEmpty o = bool_decide (xs = []).
Proof.
  intros [Hf _ _ _]. unfold SLinkedList_IsEmpty. rewrite Hf.
  destruct xs; [done|]. rewrite bool_decide_false; done.
Qed.
End ops.
