(* ===== verification/BPending.v ===== *)
(** * The job queue

    [base/BPending.c]: jobs pending execution in a [BPendingGroup], the list of
    [BPending_list.h] (an [SLinkedList] without a last pointer) linking them. A
    job that is not pending has [pending_node.next] pointing to itself. Every
    interface of the packet path schedules its callbacks as jobs of one group,
    which the reactor empties before it waits for events. *)

From Stdlib Require Import Lia.
From S2P Require Import Prelude SLinkedList.

(** The group with the memory of the job objects: their list nodes and their
    handler and user pointers. *)
Record BPendingGroup := Group {
  jobs : SLinkedList; nodes : gmap loc node; handlers : gmap loc (Z * Z)
}.

Definition BPending__List_Prepend := SLinkedList_Prepend false.
Definition BPending__List_Remove := SLinkedList_Remove false.

Definition BPendingGroup_Init (g : BPendingGroup) : BPendingGroup :=
  Group (SLinkedList_Init false (jobs g)) (nodes g) (handlers g).

Definition BPendingGroup_HasJobs (g : BPendingGroup) : bool := negb (SLinkedList_IsEmpty (jobs g)).

Definition with_list (g : BPendingGroup) (l : SLinkedList * gmap loc node) : BPendingGroup :=
  Group (fst l) (snd l) (handlers g).

(** [o->pending_node.next = o]. *)
Definition set_not_pending (o : loc) (g : BPendingGroup) : BPendingGroup :=
  Group (jobs g) (set_next o (Some o) (nodes g)) (handlers g).

Definition is_linked (o : loc) (g : BPendingGroup) : bool :=
  bool_decide (next (nodes g !!! o) <> Some o).

(** [None] where the list is empty, which the caller must exclude; otherwise the
    group with the job removed, and the handler to be called on it. *)
Definition BPendingGroup_ExecuteJob (g : BPendingGroup) : option (BPendingGroup * (loc * (Z * Z))) :=
  match SLinkedList_First (jobs g) with
  | None => None
  | Some p =>
      let g := with_list g (BPending__List_Remove (jobs g) p (nodes g)) in
      let g := set_not_pending p g in
      Some (g, (p, handlers g !!! p))
  end.

Definition BPendingGroup_PeekJob (g : BPendingGroup) : option loc := SLinkedList_First (jobs g).

Definition BSmallPending_Init (o : loc) (handler user : Z) (g : BPendingGroup) : BPendingGroup :=
  set_not_pending o (Group (jobs g) (nodes g) (<[o := (handler, user)]> (handlers g))).

(** The object's memory is gone afterwards. *)
Definition BSmallPending_Free (o : loc) (g : BPendingGroup) : BPendingGroup :=
  let g := if is_linked o g then with_list g (BPending__List_Remove (jobs g) o (nodes g)) else g in
  Group (jobs g) (delete o (nodes g)) (delete o (handlers g)).

Definition BSmallPending_SetHandler (o : loc) (handler user : Z) (g : BPendingGroup) : BPendingGroup :=
  Group (jobs g) (nodes g) (<[o := (handler, user)]> (handlers g)).

Definition BSmallPending_Set (o : loc) (g : BPendingGroup) : BPendingGroup :=
  let g := if is_linked o g then with_list g (BPending__List_Remove (jobs g) o (nodes g)) else g in
  with_list g (BPending__List_Prepend (jobs g) o (nodes g)).

Definition BSmallPending_Unset (o : loc) (g : BPendingGroup) : BPendingGroup :=
  if is_linked o g
  then set_not_pending o (with_list g (BPending__List_Remove (jobs g) o (nodes g)))
  else g.

Definition BSmallPending_IsSet (o : loc) (g : BPendingGroup) : bool := is_linked o g.

(** [BPending] wraps a [BSmallPending] together with its group. *)
Definition BPending_Init := BSmallPending_Init.
Definition BPending_Free := BSmallPending_Free.
Definition BPending_Set := BSmallPending_Set.
Definition BPending_Unset := BSmallPending_Unset.
Definition BPending_IsSet := BSmallPending_IsSet.

(** ** The promise to the clients

    A stack of distinct live jobs: setting a job puts it on top, wherever it
    was; executing takes the top job off. *)
Record queue := Queue { live : gmap loc (Z * Z); stack : list loc }.

Definition drop_job (o : loc) (l : list loc) : list loc := filter (fun x => x <> o) l.

Inductive op :=
| OInit (o : loc) (handler user : Z) | OFree (o : loc) | OSetHandler (o : loc) (handler user : Z)
| OSet (o : loc) | OUnset (o : loc) | OExecute | OIsSet (o : loc) | OHasJobs | OPeek.

(** What a caller sees of an operation. *)
Inductive obs := Silent | Runs (o : loc) (h : Z * Z) | Answer (b : bool) | Peeks (o : option loc).

(** The specification; [None] is a call that breaks the usage contract: an
    object used before it is initialised, initialised twice, or a job executed
    from an empty group. *)
Definition spec_step (q : queue) (c : op) : option (queue * obs) :=
  let use o r := match live q !! o with Some _ => Some r | None => None end in
  match c with
  | OInit o h u => match live q !! o with
                   | Some _ => None
                   | None => Some (Queue (<[o := (h, u)]> (live q)) (stack q), Silent)
                   end
  | OFree o => use o (Queue (delete o (live q)) (drop_job o (stack q)), Silent)
  | OSetHandler o h u => use o (Queue (<[o := (h, u)]> (live q)) (stack q), Silent)
  | OSet o => use o (Queue (live q) (o :: drop_job o (stack q)), Silent)
  | OUnset o => use o (Queue (live q) (drop_job o (stack q)), Silent)
  | OExecute => match stack q with
                | [] => None
                | o :: l => Some (Queue (live q) l, Runs o (live q !!! o))
                end
  | OIsSet o => use o (q, Answer (bool_decide (o ∈ stack q)))
  | OHasJobs => Some (q, Answer (negb (bool_decide (stack q = []))))
  | OPeek => Some (q, Peeks (head (stack q)))
  end.

(** The code, an operation at a time. *)
Definition code_step (g : BPendingGroup) (c : op) : option (BPendingGroup * obs) :=
  match c with
  | OInit o h u => Some (BSmallPending_Init o h u g, Silent)
  | OFree o => Some (BSmallPending_Free o g, Silent)
  | OSetHandler o h u => Some (BSmallPending_SetHandler o h u g, Silent)
  | OSet o => Some (BSmallPending_Set o g, Silent)
  | OUnset o => Some (BSmallPending_Unset o g, Silent)
  | OExecute => match BPendingGroup_ExecuteJob g with
                | Some (g, (o, h)) => Some (g, Runs o h)
                | None => None
                end
  | OIsSet o => Some (g, Answer (BSmallPending_IsSet o g))
  | OHasJobs => Some (g, Answer (BPendingGroup_HasJobs g))
  | OPeek => Some (g, Peeks (BPendingGroup_PeekJob g))
  end.

Definition steps {A} (step : A -> op -> option (A * obs)) : A -> list op -> option (A * list obs) :=
  fix go s cs :=
    match cs with
    | [] => Some (s, [])
    | c :: cs' =>
        match step s c with
        | None => None
        | Some (s1, o) => match go s1 cs' with
                          | None => None
                          | Some (s2, os) => Some (s2, o :: os)
                          end
        end
    end.

(** ** Simulation *)

Record sim (g : BPendingGroup) (q : queue) : Prop := {
  sim_rep : represents false (jobs g) (nodes g) (stack q);
  sim_live : handlers g = live q;
  sim_dom : forall o, is_Some (live q !! o) <-> is_Some (nodes g !! o);
  sim_idle : forall o, o ∉ stack q -> is_Some (live q !! o) -> next (nodes g !!! o) = Some o;
  sim_stack : forall o, o ∈ stack q -> is_Some (live q !! o)
}.

Lemma seg_next_ne h p xs n x :
  seg h p xs n -> NoDup xs -> x ∈ xs -> n <> Some x -> next (h !!! x) <> Some x.
Proof.
  revert p. induction xs as [|y xs IH]; intros p Hs Hn Hx Hnx; [by apply elem_of_nil in Hx|].
  destruct Hs as [Hy Hs]. apply NoDup_cons in Hn as [Hyn Hn].
  apply elem_of_cons in Hx as [->|Hx]; [|eauto].
  rewrite (lookup_total_correct _ _ _ Hy). cbn [next].
  destruct xs as [|z xs]; [done|]. intros [= ->]. apply Hyn. set_solver.
Qed.

(** A job is linked exactly when it is in the stack. *)
Lemma is_linked_spec g q o :
  sim g q -> is_Some (live q !! o) -> is_linked o g = bool_decide (o ∈ stack q).
Proof.
  intros [[_ _ Hs Hn] _ _ Hi _] Hl. unfold is_linked. apply bool_decide_ext. split.
  - intros H. destruct (decide (o ∈ stack q)); [done|]. exfalso. apply H. apply Hi; done.
  - intros H. eapply seg_next_ne; done.
Qed.

Lemma drop_job_id o l : o ∉ l -> drop_job o l = l.
Proof.
  induction l as [|x l IH]; [done|]. intros Hl. unfold drop_job in *.
  rewrite filter_cons_True by set_solver. rewrite IH; set_solver.
Qed.

Lemma drop_job_split l1 o l2 : o ∉ l1 -> o ∉ l2 -> drop_job o (l1 ++ o :: l2) = l1 ++ l2.
Proof.
  intros H1 H2. unfold drop_job. rewrite filter_app, filter_cons_False by tauto.
  fold (drop_job o l1) (drop_job o l2). rewrite !drop_job_id by done. done.
Qed.

Lemma elem_of_drop_job o l x : x ∈ drop_job o l <-> x <> o /\ x ∈ l.
Proof. unfold drop_job. rewrite list_elem_of_filter. tauto. Qed.

(** The step that [Free], [Set] and [Unset] share: take the job out of the list
    if it is linked. *)
Lemma unlink_spec g q o :
  sim g q -> is_Some (live q !! o) ->
  let g1 := if is_linked o g then with_list g (BPending__List_Remove (jobs g) o (nodes g)) else g in
  represents false (jobs g1) (nodes g1) (drop_job o (stack q)) /\
  handlers g1 = handlers g /\
  (forall k, is_Some (nodes g1 !! k) <-> is_Some (nodes g !! k)) /\
  (forall k, k ∉ stack q -> nodes g1 !! k = nodes g !! k).
Proof.
  intros Hsim Hl. rewrite (is_linked_spec g q) by done. cbv zeta.
  destruct (decide (o ∈ stack q)) as [Hin|Hin];
    [rewrite bool_decide_true by done|rewrite bool_decide_false by done].
  2: { rewrite drop_job_id by done. split_and!; try done. apply Hsim. }
  pose proof (sim_rep _ _ Hsim) as Hrep. pose proof (rep_nodup _ _ _ _ Hrep) as Hn.
  apply list_elem_of_split in Hin as (l1 & l2 & Hst). rewrite Hst in *.
  apply NoDup_app in Hn as Hd. destruct Hd as (_ & Hd & Hn2). apply NoDup_cons in Hn2 as [Ho2 _].
  rewrite drop_job_split by set_solver.
  destruct (BPending__List_Remove (jobs g) o (nodes g)) as [o' h'] eqn:E.
  pose proof (SLinkedList_Remove_represents _ _ _ _ _ _ _ _ Hrep E) as (Hrep' & Ho & Hfr).
  cbn [with_list jobs nodes handlers fst snd]. split_and!; try done.
  intros k. destruct (decide (k = o)) as [->|]; [rewrite Ho; done|].
  destruct (decide (k ∈ l1 ++ l2)).
  - split; intros _; [eapply (seg_lookup (nodes g)); [apply Hrep|set_solver]|].
    eapply seg_lookup; [apply Hrep'|done].
  - rewrite Hfr by set_solver. done.
Qed.

Lemma sim_init o h u g q :
  sim g q -> live q !! o = None ->
  sim (BSmallPending_Init o h u g) (Queue (<[o := (h, u)]> (live q)) (stack q)).
Proof.
  intros [Hr Hh Hd Hi Hs] Hn.
  assert (o ∉ stack q) as Hst by (intros H; apply Hs in H as [? ?]; congruence).
  unfold BSmallPending_Init, set_not_pending. cbn [jobs nodes handlers].
  split; cbn [jobs nodes handlers live stack].
  - destruct Hr. split; try done. apply seg_frame; done.
  - rewrite Hh. done.
  - intros k. unfold set_next. destruct (decide (k = o)) as [->|].
    + rewrite !lookup_insert_eq. split; done.
    + rewrite !lookup_insert_ne by done. apply Hd.
  - intros k Hk. unfold set_next. destruct (decide (k = o)) as [->|].
    + rewrite lookup_total_insert_eq. done.
    + rewrite lookup_insert_ne, lookup_total_insert_ne by done. apply Hi. done.
  - intros k Hk. rewrite lookup_insert_ne by congruence. auto.
Qed.

Lemma sim_free o g q :
  sim g q -> is_Some (live q !! o) ->
  sim (BSmallPending_Free o g) (Queue (delete o (live q)) (drop_job o (stack q))).
Proof.
  intros Hsim Hl. pose proof (unlink_spec g q o Hsim Hl) as (Hr & Hh & Hd & Hf).
  unfold BSmallPending_Free. set (g1 := if is_linked o g then _ else g) in *.
  destruct Hsim as [_ Hh0 Hd0 Hi Hs].
  split; cbn [jobs nodes handlers live stack].
  - destruct Hr as [H1 H2 H3 H4]. split; try done.
    clear -H3. assert (o ∉ drop_job o (stack q)) as Ho by (rewrite elem_of_drop_job; tauto).
    revert H3 Ho. generalize (drop_job o (stack q)) as xs. generalize (@None loc) at 1 3 as p.
    intros p xs; revert p. induction xs as [|x xs IH]; intros p; [done|].
    intros [Hx Hs] Ho. split; [rewrite lookup_delete_ne; set_solver|apply IH; set_solver].
  - rewrite Hh, Hh0. done.
  - intros k. destruct (decide (k = o)) as [->|].
    + rewrite !lookup_delete_eq. done.
    + rewrite !lookup_delete_ne by done. rewrite Hd. apply Hd0.
  - intros k Hk [v Hv]. apply lookup_delete_Some in Hv as [Hne Hv].
    rewrite lookup_total_alt, lookup_delete_ne by done.
    assert (k ∉ stack q) as Hk' by (intros H; apply Hk; apply elem_of_drop_job; done).
    rewrite Hf by done. rewrite <- lookup_total_alt. apply Hi; [done|eauto].
  - intros k Hk. apply elem_of_drop_job in Hk as [? Hk]. rewrite lookup_delete_ne by done. auto.
Qed.

Lemma sim_set_handler o h u g q :
  sim g q -> is_Some (live q !! o) ->
  sim (BSmallPending_SetHandler o h u g) (Queue (<[o := (h, u)]> (live q)) (stack q)).
Proof.
  intros [Hr Hh Hd Hi Hs] Hl. split; cbn [BSmallPending_SetHandler jobs nodes handlers live stack].
  - done.
  - rewrite Hh. done.
  - intros k. rewrite lookup_insert_is_Some, Hd.
    split; [intros [<-|[_ ?]]; [apply Hd|]; done|intros H; destruct (decide (o = k)); auto].
  - intros k Hk Hlk. apply Hi; [done|]. apply lookup_insert_is_Some in Hlk as [<-|[_ ?]]; done.
  - intros k Hk. apply lookup_insert_is_Some. destruct (decide (o = k)); auto.
Qed.

Lemma sim_set o g q :
  sim g q -> is_Some (live q !! o) ->
  sim (BSmallPending_Set o g) (Queue (live q) (o :: drop_job o (stack q))).
Proof.
  intros Hsim Hl. pose proof (unlink_spec g q o Hsim Hl) as (Hr & Hh & Hd & Hf).
  unfold BSmallPending_Set. set (g1 := if is_linked o g then _ else g) in *.
  destruct Hsim as [_ Hh0 Hd0 Hi Hs].
  assert (o ∉ drop_job o (stack q)) as Ho by (rewrite elem_of_drop_job; tauto).
  destruct (BPending__List_Prepend (jobs g1) o (nodes g1)) as [l' h'] eqn:E.
  pose proof (SLinkedList_Prepend_represents _ _ _ _ _ _ _ Hr Ho E) as [Hr' Hf'].
  split; cbn [with_list jobs nodes handlers live stack fst snd].
  - done.
  - congruence.
  - intros k. destruct (decide (k ∈ o :: drop_job o (stack q))) as [Hk|Hk].
    + split; intros _; [eapply seg_lookup; [apply Hr'|done]|].
      apply elem_of_cons in Hk as [->|Hk]; [done|]. apply elem_of_drop_job in Hk as [_ Hk]. auto.
    + rewrite Hf', Hd by done. apply Hd0.
  - intros k Hk Hlk. rewrite lookup_total_alt, Hf' by done.
    assert (k ∉ stack q) as Hk'.
    { intros H. apply Hk. destruct (decide (k = o)); [set_solver|].
      apply elem_of_cons. right. apply elem_of_drop_job. done. }
    rewrite Hf by done. rewrite <- lookup_total_alt. auto.
  - intros k [->|Hk]%elem_of_cons; [done|]. apply elem_of_drop_job in Hk as [_ Hk]. auto.
Qed.

(** Unlinking and marking as not pending, as [Unset] and [ExecuteJob] do. *)
Lemma sim_take_off o g q :
  sim g q -> o ∈ stack q ->
  sim (set_not_pending o (with_list g (BPending__List_Remove (jobs g) o (nodes g))))
      (Queue (live q) (drop_job o (stack q))).
Proof.
  intros Hsim Hin. pose proof (sim_stack _ _ Hsim o Hin) as Hl.
  pose proof (unlink_spec g q o Hsim Hl) as (Hr & Hh & Hd & Hf).
  rewrite (is_linked_spec g q), bool_decide_true in Hr, Hh, Hd, Hf by done.
  set (g1 := with_list g _) in *. destruct Hsim as [_ Hh0 Hd0 Hi Hs].
  assert (o ∉ drop_job o (stack q)) as Ho by (rewrite elem_of_drop_job; tauto).
  split; cbn [set_not_pending jobs nodes handlers live stack].
  - destruct Hr. split; try done. apply seg_frame; done.
  - congruence.
  - intros k. unfold set_next. rewrite lookup_insert_is_Some, Hd, Hd0.
    split; [intros H; destruct (decide (o = k)); auto|intros [<-|[_ ?]]; [apply Hd0|]; done].
  - intros k Hk Hlk. unfold set_next. destruct (decide (k = o)) as [->|].
    + rewrite lookup_total_insert_eq. done.
    + rewrite lookup_total_insert_ne, lookup_total_alt by done.
      assert (k ∉ stack q) as Hk' by (intros H; apply Hk, elem_of_drop_job; done).
      rewrite Hf by done. rewrite <- lookup_total_alt. auto.
  - intros k Hk. apply elem_of_drop_job in Hk as [_ Hk]. auto.
Qed.

Lemma sim_step g q c q' o :
  sim g q -> spec_step q c = Some (q', o) ->
  exists g', code_step g c = Some (g', o) /\ sim g' q'.
Proof.
  intros Hsim. pose proof (sim_rep _ _ Hsim) as Hr.
  destruct c as [x h u|x|x h u|x|x| |x| |]; cbn [spec_step code_step];
    try (destruct (live q !! x) as [v|] eqn:Hx; [|done]; intros [= <- <-];
         (assert (is_Some (live q !! x)) as Hl by eauto); eexists; split; [done|]).
  - destruct (live q !! x) eqn:Hx; [done|]. intros [= <- <-]. eexists. split; [done|].
    apply sim_init; done.
  - apply sim_free; done.
  - apply sim_set_handler; done.
  - apply sim_set; done.
  - unfold BSmallPending_Unset. rewrite (is_linked_spec g q) by done.
    destruct (decide (x ∈ stack q)).
    + rewrite bool_decide_true by done. apply sim_take_off; done.
    + rewrite bool_decide_false, drop_job_id by done. destruct q; done.
  - destruct (stack q) as [|x l] eqn:Hst; [done|]. intros [= <- <-].
    unfold BPendingGroup_ExecuteJob, SLinkedList_First. rewrite (rep_first _ _ _ _ Hr). cbn [head].
    eexists. split; [f_equal; f_equal; f_equal|].
    + cbn. rewrite (sim_live _ _ Hsim). done.
    + pose proof (rep_nodup _ _ _ _ Hr) as Hn. apply NoDup_cons in Hn as [Hxl _].
      pose proof (sim_take_off x g q Hsim) as H. rewrite Hst in H.
      pose proof (drop_job_split [] x l ltac:(set_solver) Hxl) as Hdj. cbn [app] in Hdj.
      rewrite Hdj in H. apply H. set_solver.
  - destruct (live q !! x) eqn:Hx; [|done]. intros [= <- <-].
    unfold BSmallPending_IsSet. rewrite (is_linked_spec g q) by eauto. eauto.
  - unfold BPendingGroup_HasJobs. rewrite (SLinkedList_IsEmpty_spec _ _ _ _ Hr).
    intros [= <- <-]. eauto.
  - unfold BPendingGroup_PeekJob, SLinkedList_First. rewrite (rep_first _ _ _ _ Hr).
    intros [= <- <-]. eauto.
Qed.

Lemma sim_start l : sim (BPendingGroup_Init (Group l ∅ ∅)) (Queue ∅ []).
Proof.
  split; cbn; try done.
  - apply (SLinkedList_Init_represents false).
  - intros o. rewrite !lookup_empty. split; intros [? [=]].
  - intros o _ [? H]. rewrite lookup_empty in H. done.
  - set_solver.
Qed.

Lemma sim_steps cs g q q' os :
  sim g q -> steps spec_step q cs = Some (q', os) ->
  exists g', steps code_step g cs = Some (g', os) /\ sim g' q'.
Proof.
  revert g q q' os. induction cs as [|c cs IH]; intros g q q' os Hsim; cbn [steps].
  { intros [= <- <-]. eauto. }
  destruct (spec_step q c) as [[q1 o]|] eqn:E1; [|done].
  destruct (steps spec_step q1 cs) as [[q2 os2]|] eqn:E2; [|done]. intros [= <- <-].
  destruct (sim_step _ _ _ _ _ Hsim E1) as (g1 & -> & Hs1).
  destruct (IH _ _ _ _ Hs1 E2) as (g2 & -> & Hs2). eauto.
Qed.

(** C5: the pointer manipulations of [BPending.c] implement a stack of distinct
    jobs. From an initialised group, every sequence of calls that respects the
    usage contract shows the caller exactly what the stack shows: the job that
    runs is the one set last among those still set (a job set again moves to the
    top, one unset or freed is gone), it runs with its latest handler, and it is
    no longer set when it runs. *)
Theorem BPending_refines l cs q os :
  steps spec_step (Queue ∅ []) cs = Some (q, os) ->
  exists g, steps code_step (BPendingGroup_Init (Group l ∅ ∅)) cs = Some (g, os) /\ sim g q.
Proof. apply sim_steps, sim_start. Qed.

Lemma BPending_refines_witness :
  let cs := [OInit 1 10 0; OInit 2 20 0; OInit 3 30 0; OSet 1; OSet 2; OSet 3; OSet 1; OUnset 2;
             OExecute; OIsSet 1; OFree 3; OHasJobs]%nat in
  exists g, steps code_step (BPendingGroup_Init (Group (SLL None None) ∅ ∅)) cs =
    Some (g, [Silent; Silent; Silent; Silent; Silent; Silent; Silent; Silent;
              Runs 1%nat (10, 0); Answer false; Silent; Answer false]).
Proof.
  intros cs.
  destruct (BPending_refines (SLL None None) cs
    (Queue {[1%nat := (10, 0); 2%nat := (20, 0)]} [])
    [Silent; Silent; Silent; Silent; Silent; Silent; Silent; Silent;
              Runs 1%nat (10, 0); Answer false; Silent; Answer false]) as (g & Hg & _).
  - vm_compute. reflexivity.
  - exists g. exact Hg.
Defined.
