(* ===== verification/ChunkBuffer.v ===== *)
(** * The ring of packets

    [structure/ChunkBuffer2.h]: a buffer of [int]-sized blocks holding packets,
    each a length block followed by the data rounded up to blocks. Packets never
    wrap: a packet that would leave less than an MTU before the end of the buffer
    sets [wrap], and the next one starts at block 0. The buffer is the list of
    its bytes; [input_dest] and [output_dest] are byte offsets into it. *)

From Stdlib Require Import ZArith Lia.
From S2P Require Import Prelude ByteOrder.

Definition sizeof_block : Z := 4.

Record ChunkBuffer2 := CB {
  buffer : list byte;
  size : Z; wrap : Z; start : Z; used : Z; mtu : Z;
  input_dest : option Z; input_avail : Z;
  output_dest : option Z; output_avail : Z
}.

Definition set_buffer (m : list byte) (b : ChunkBuffer2) : ChunkBuffer2 :=
  CB m (size b) (wrap b) (start b) (used b) (mtu b)
     (input_dest b) (input_avail b) (output_dest b) (output_avail b).
Definition set_ring (w s u : Z) (b : ChunkBuffer2) : ChunkBuffer2 :=
  CB (buffer b) (size b) w s u (mtu b)
     (input_dest b) (input_avail b) (output_dest b) (output_avail b).
Definition set_input (d : option Z) (a : Z) (b : ChunkBuffer2) : ChunkBuffer2 :=
  CB (buffer b) (size b) (wrap b) (start b) (used b) (mtu b) d a (output_dest b) (output_avail b).
Definition set_output (d : option Z) (a : Z) (b : ChunkBuffer2) : ChunkBuffer2 :=
  CB (buffer b) (size b) (wrap b) (start b) (used b) (mtu b) (input_dest b) (input_avail b) d a.

(** [buffer[i].len]. *)
Definition block_len (m : list byte) (i : Z) : Z := s32 (load_le32 (drop (Z.to_nat (4 * i)) m)).
Definition set_block_len (i len : Z) (m : list byte) : list byte :=
  splice (4 * i) (store_le32 len) m.

Definition ChunkBuffer2_end (b : ChunkBuffer2) : Z :=
  if wrap b - start b <=? used b then used b - (wrap b - start b) else start b + used b.

Definition ChunkBuffer2_update_input (b : ChunkBuffer2) : ChunkBuffer2 :=
  let en := ChunkBuffer2_end b in
  if size b - en - 1 <? mtu b then set_input None (-1) b
  else
    let free := if wrap b - start b <=? used b then start b - en else size b - en in
    if 0 <? free then set_input (Some (4 * (en + 1))) (s32 ((free - 1) * sizeof_block)) b
    else set_input None (-1) b.

Definition ChunkBuffer2_update_output (b : ChunkBuffer2) : ChunkBuffer2 :=
  if 0 <? used b
  then set_output (Some (4 * (start b + 1))) (block_len (buffer b) (start b)) b
  else set_output None (-1) b.

Definition ChunkBuffer2_calc_blocks (chunk_len num : Z) : Z :=
  let chunk_data_blocks := bdivide_up chunk_len sizeof_block in
  if INT_MAX - 1 <? chunk_data_blocks then -1 else
  let chunk_blocks := 1 + chunk_data_blocks in
  if INT_MAX - 1 <? num then -1 else
  let num_chunks := num + 1 in
  if INT_MAX / num_chunks <? chunk_blocks then -1 else
  chunk_blocks * num_chunks.

Definition ChunkBuffer2_Init (buf : list byte) (blocks pmtu : Z) : ChunkBuffer2 :=
  ChunkBuffer2_update_output (ChunkBuffer2_update_input
    (CB buf blocks blocks 0 0 (bdivide_up pmtu sizeof_block) None 0 None 0)).

Definition ChunkBuffer2_SubmitPacket (b : ChunkBuffer2) (len : Z) : ChunkBuffer2 :=
  let en := ChunkBuffer2_end b in
  let blocklen := bdivide_up len sizeof_block in
  let b := set_buffer (set_block_len en len (buffer b)) b in
  let b := set_ring (wrap b) (start b) (used b + (1 + blocklen)) b in
  let b :=
    if (used b <=? wrap b - start b) && (size b - (en + 1 + blocklen) - 1 <? mtu b)
    then set_ring (en + 1 + blocklen) (start b) (used b) b else b in
  let b := ChunkBuffer2_update_input b in
  if used b =? 1 + blocklen then ChunkBuffer2_update_output b else b.

Definition ChunkBuffer2_ConsumePacket (b : ChunkBuffer2) : ChunkBuffer2 :=
  let blocklen := bdivide_up (block_len (buffer b) (start b)) sizeof_block in
  let data_wrapped := wrap b - start b <=? used b in
  let b := set_ring (wrap b) (start b + (1 + blocklen)) (used b - (1 + blocklen)) b in
  let b := if start b =? wrap b then set_ring (size b) 0 (used b) b else b in
  let b := if data_wrapped then ChunkBuffer2_update_input b else b in
  ChunkBuffer2_update_output b.

(** ** Layout *)

Definition blocks_of (p : list byte) : Z := 1 + bdivide_up (zlen p) 4.

(** The packets [ps] occupy the blocks from [pos] up to [stop]. *)
Fixpoint chunks (m : list byte) (pos : Z) (ps : list (list byte)) (stop : Z) : Prop :=
  match ps with
  | [] => pos = stop
  | p :: ps' =>
      block_len m pos = zlen p /\ slice (4 * (pos + 1)) (zlen p) m = p /\
      chunks m (pos + blocks_of p) ps' stop
  end.

Definition total_blocks (ps : list (list byte)) : Z := foldr (fun p n => blocks_of p + n) 0 ps.

Lemma blocks_of_pos p : 1 <= blocks_of p /\ zlen p <= 4 * (blocks_of p - 1).
Proof.
  unfold blocks_of. pose proof (bdivide_up_spec (zlen p) 4 ltac:(lia)).
  pose proof (zlen_nonneg p). pose proof (bdivide_up_nonneg (zlen p) 4). lia.
Qed.

Lemma total_blocks_nonneg ps : 0 <= total_blocks ps.
Proof. induction ps as [|p ps IH]; simpl; [lia|]. pose proof (blocks_of_pos p). lia. Qed.

Lemma total_blocks_app ps qs : total_blocks (ps ++ qs) = total_blocks ps + total_blocks qs.
Proof. induction ps as [|p ps IH]; simpl; [lia|]. rewrite IH. lia. Qed.

Lemma total_blocks_pos ps : ps <> [] -> 1 <= total_blocks ps.
Proof.
  destruct ps as [|p ps]; [done|]. intros _. simpl. pose proof (blocks_of_pos p).
  pose proof (total_blocks_nonneg ps). lia.
Qed.

Lemma chunks_stop m pos ps stop : chunks m pos ps stop -> stop = pos + total_blocks ps.
Proof.
  revert pos. induction ps as [|p ps IH]; simpl; intros pos; [lia|].
  intros (_ & _ & H). apply IH in H. lia.
Qed.

Lemma chunks_snoc m pos ps stop p :
  chunks m pos ps stop -> block_len m stop = zlen p -> slice (4 * (stop + 1)) (zlen p) m = p ->
  chunks m pos (ps ++ [p]) (stop + blocks_of p).
Proof.
  revert pos. induction ps as [|q ps IH]; simpl; intros pos.
  - intros ->. done.
  - intros (H1 & H2 & H3) Hl Hd. split_and!; auto.
Qed.

Lemma block_len_slice m i :
  0 <= i -> block_len m i = s32 (le_load (slice (4 * i) 4 m)).
Proof. intros Hi. unfold block_len, slice, load_le32. reflexivity. Qed.

(** A write that does not touch the blocks of a sequence keeps it. *)
Lemma chunks_frame m pos ps stop off d :
  0 <= pos -> stop <= zlen m / 4 -> chunks m pos ps stop ->
  0 <= off -> off + zlen d <= zlen m -> (4 * stop <= off \/ off + zlen d <= 4 * pos) ->
  chunks (splice off d m) pos ps stop.
Proof.
  intros Hp Hs. revert pos Hp. induction ps as [|p ps IH]; intros pos Hp; [done|].
  cbn [chunks]. intros (H1 & H2 & H3) Ho Hl Hd. pose proof (blocks_of_pos p) as [Hb1 Hb2].
  pose proof (chunks_stop _ _ _ _ H3) as Hst. pose proof (total_blocks_nonneg ps).
  pose proof (zlen_nonneg p).
  pose proof (Z.mul_div_le (zlen m) 4 ltac:(lia)).
  assert (forall o l, 4 * pos <= o -> 0 <= l -> o + l <= 4 * (pos + blocks_of p) ->
    slice o l (splice off d m) = slice o l m) as Hf.
  { intros o l ???. destruct Hd.
    - apply slice_splice_before; lia.
    - apply slice_splice_after; lia. }
  split_and!.
  - rewrite !block_len_slice in * by lia. rewrite Hf by lia. done.
  - rewrite Hf by lia. done.
  - apply IH; try done; lia.
Qed.

(** ** Invariant *)

(** The two shapes of the ring. Either the packets lie in order between [start]
    and the end, with an MTU of room behind them; or some of them lie between
    [start] and [wrap], after which no MTU fits although one fitted where the last
    of them begins, and the rest lie from block 0 up to at most [start]. *)
Definition layout (b : ChunkBuffer2) (ps : list (list byte)) : Prop :=
  (wrap b = size b /\ used b < wrap b - start b /\
   start b + used b + 1 + mtu b <= size b /\
   chunks (buffer b) (start b) ps (start b + used b)) \/
  (exists p1 p2, ps = p1 ++ p2 /\ wrap b - start b <= used b /\
   used b - (wrap b - start b) <= start b /\ size b < wrap b + 1 + mtu b /\
   (exists p0 q, p1 = p0 ++ [q] /\ wrap b - blocks_of q + 1 + mtu b <= size b) /\
   chunks (buffer b) (start b) p1 (wrap b) /\
   chunks (buffer b) 0 p2 (used b - (wrap b - start b))).

Definition input_ok (b : ChunkBuffer2) : Prop :=
  ChunkBuffer2_update_input b = b.

Definition output_ok (b : ChunkBuffer2) (ps : list (list byte)) : Prop :=
  match ps with
  | [] => output_dest b = None /\ output_avail b = -1
  | p :: _ => output_dest b = Some (4 * (start b + 1)) /\ output_avail b = zlen p
  end.

Record Ring (b : ChunkBuffer2) (ps : list (list byte)) : Prop := {
  inv_mem : zlen (buffer b) = 4 * size b;
  inv_int : 4 * size b <= INT_MAX;
  inv_mtu : 0 <= mtu b;
  inv_start : 0 <= start b < wrap b;
  inv_wrap : wrap b <= size b;
  inv_room : start b + 1 + mtu b <= size b;
  inv_used : 0 <= used b;
  inv_layout : layout b ps
}.

Record Inv (b : ChunkBuffer2) (ps : list (list byte)) : Prop := {
  inv_ring : Ring b ps;
  inv_input : input_ok b;
  inv_output : output_ok b ps
}.

(** The end of the data, in either shape, leaves room for an MTU. *)
Lemma Ring_end b ps :
  Ring b ps -> 0 <= ChunkBuffer2_end b /\ ChunkBuffer2_end b + 1 + mtu b <= size b.
Proof.
  intros [? ? ? ? ? ? ? Hl]. unfold ChunkBuffer2_end.
  destruct Hl as [(? & ? & ? & _)|(p1 & p2 & _ & ? & ? & _)];
    destruct (Z.leb_spec (wrap b - start b) (used b)); lia.
Qed.

(** What [update_input] computes. *)
Definition free_blocks (b : ChunkBuffer2) : Z :=
  if wrap b - start b <=? used b then start b - ChunkBuffer2_end b
  else size b - ChunkBuffer2_end b.

Lemma update_input_room b :
  ChunkBuffer2_end b + 1 + mtu b <= size b ->
  ChunkBuffer2_update_input b =
    if 0 <? free_blocks b
    then set_input (Some (4 * (ChunkBuffer2_end b + 1))) (s32 ((free_blocks b - 1) * 4)) b
    else set_input None (-1) b.
Proof.
  intros H. unfold ChunkBuffer2_update_input, free_blocks, sizeof_block.
  destruct (Z.ltb_spec (size b - ChunkBuffer2_end b - 1) (mtu b)); [lia|done].
Qed.

Lemma update_input_idem b : input_ok (ChunkBuffer2_update_input b).
Proof.
  unfold input_ok, ChunkBuffer2_update_input.
  destruct (_ <? mtu b) eqn:E1; [cbn; unfold ChunkBuffer2_end in *; cbn; rewrite E1; done|].
  set (fr := if wrap b - start b <=? used b then _ else _).
  destruct (0 <? fr) eqn:E2; cbn; unfold ChunkBuffer2_end in *; cbn; rewrite E1; fold fr;
    rewrite E2; done.
Qed.

(** The input fields depend on neither the contents nor the output fields. *)
Lemma input_ok_set_output d a b : input_ok b -> input_ok (set_output d a b).
Proof.
  destruct b. unfold input_ok, ChunkBuffer2_update_input, ChunkBuffer2_end. cbn.
  repeat case_match; cbn; intros [=]; subst; done.
Qed.
Lemma input_ok_set_buffer m b : input_ok b -> input_ok (set_buffer m b).
Proof.
  destruct b. unfold input_ok, ChunkBuffer2_update_input, ChunkBuffer2_end. cbn.
  repeat case_match; cbn; intros [=]; subst; done.
Qed.

(** A destination for input is handed out exactly when a block is free; it lies
    behind the data and inside the buffer. *)
Lemma Inv_input b ps d :
  Inv b ps -> input_dest b = Some d ->
  d = 4 * (ChunkBuffer2_end b + 1) /\ 0 < free_blocks b /\
  input_avail b = 4 * (free_blocks b - 1) /\
  ChunkBuffer2_end b + free_blocks b <= size b.
Proof.
  intros [HI Hi _] Hd. pose proof (Ring_end b ps HI) as [He1 He2]. unfold input_ok in Hi.
  rewrite update_input_room in Hi by done.
  assert (free_blocks b + ChunkBuffer2_end b <= size b).
  { destruct HI as [_ _ ? ? ? ? _ _]. unfold free_blocks.
    destruct (wrap b - start b <=? used b); lia. }
  pose proof (inv_int _ _ HI).
  destruct (Z.ltb_spec 0 (free_blocks b)); rewrite <- Hi in Hd; cbn in Hd; [|done].
  injection Hd as <-. split_and!; try lia.
  rewrite <- Hi. cbn [set_input input_avail]. rewrite s32_id by (unfold INT_MAX in *; lia).
  unfold free_blocks, ChunkBuffer2_end. cbn. lia.
Qed.

(** The ring does not depend on the input and output fields. *)
Lemma Ring_set_input d a b ps : Ring b ps -> Ring (set_input d a b) ps.
Proof. intros [? ? ? ? ? ? ? ?]. split; done. Qed.
Lemma Ring_set_output d a b ps : Ring b ps -> Ring (set_output d a b) ps.
Proof. intros [? ? ? ? ? ? ? ?]. split; done. Qed.

Lemma Ring_update_input b ps : Ring b ps -> Ring (ChunkBuffer2_update_input b) ps.
Proof. intros. unfold ChunkBuffer2_update_input. repeat case_match; apply Ring_set_input; done. Qed.

(** [used] counts the blocks of the packets. *)
Lemma Ring_used b ps : Ring b ps -> used b = total_blocks ps.
Proof.
  intros [? ? ? ? ? ? ? [(_ & _ & _ & Hc)|(p1 & p2 & -> & _ & _ & _ & _ & Hc1 & Hc2)]].
  - apply chunks_stop in Hc. lia.
  - apply chunks_stop in Hc1. apply chunks_stop in Hc2. rewrite total_blocks_app. lia.
Qed.

(** The first packet is at [start]. *)
Lemma Ring_head b p ps :
  Ring b (p :: ps) ->
  block_len (buffer b) (start b) = zlen p /\
  slice (4 * (start b + 1)) (zlen p) (buffer b) = p.
Proof.
  intros [_ _ _ Hst _ _ _ [(_ & _ & _ & Hc)|([|q p1] & p2 & He & _ & _ & _ & _ & Hc & _)]].
  - destruct Hc as (H1 & H2 & _). done.
  - cbn in Hc. lia.
  - injection He as -> _. destruct Hc as (H1 & H2 & _). done.
Qed.

(** Refreshing the output fields makes them those of the first packet. *)
Lemma update_output_ok b ps : Ring b ps -> output_ok (ChunkBuffer2_update_output b) ps.
Proof.
  intros HR. pose proof (Ring_used b ps HR) as Hu. unfold ChunkBuffer2_update_output.
  destruct ps as [|p ps]; [rewrite Hu; done|].
  pose proof (total_blocks_pos (p :: ps) ltac:(done)).
  destruct (Z.ltb_spec 0 (used b)); [|lia].
  destruct (Ring_head b p ps HR) as [Hb _]. cbn. rewrite Hb. done.
Qed.

Lemma Inv_update_output b ps :
  Ring b ps -> input_ok b -> Inv (ChunkBuffer2_update_output b) ps.
Proof.
  intros HR Hi. split; [| |apply update_output_ok; done]; unfold ChunkBuffer2_update_output;
    case_match; (apply Ring_set_output || apply input_ok_set_output); done.
Qed.

(** ** Initialisation *)

Lemma Inv_Init buf blocks pmtu :
  zlen buf = 4 * blocks -> 4 * blocks <= INT_MAX -> 0 <= pmtu ->
  1 + bdivide_up pmtu 4 <= blocks ->
  Inv (ChunkBuffer2_Init buf blocks pmtu) [].
Proof.
  intros Hm Hi Hp Hb. unfold ChunkBuffer2_Init, sizeof_block.
  pose proof (bdivide_up_nonneg pmtu 4 ltac:(lia) Hp).
  set (b0 := CB _ _ _ _ _ _ _ _ _ _).
  pose proof (update_input_idem b0) as Hid.
  apply Inv_update_output; [|done]. apply Ring_update_input.
  split; cbn; try lia. left. cbn. split_and!; lia.
Qed.

(** ** Input: the producer writes, then submits *)

Lemma Inv_write b ps d data :
  Inv b ps -> input_dest b = Some d -> zlen data <= input_avail b ->
  Inv (set_buffer (splice d data (buffer b)) b) ps.
Proof.
  intros HI Hd Hl. destruct (Inv_input b ps d HI Hd) as (-> & Hf & Ha & Hs).
  destruct HI as [HR Hin Hout].
  pose proof (Ring_end b ps HR) as [He1 He2]. pose proof (zlen_nonneg data).
  destruct HR as [Hm Hi Hmt Hst Hw Hr Hu Hla].
  assert (4 * (ChunkBuffer2_end b + 1) + zlen data <= 4 * size b) by lia.
  assert (size b = zlen (buffer b) / 4) as Hsz by (rewrite Hm, Z.mul_comm, Z.div_mul; lia).
  split; [split|apply input_ok_set_buffer; done|done];
    cbn [set_buffer buffer size wrap start used mtu]; try done.
  - rewrite zlen_splice; lia.
  - unfold free_blocks, ChunkBuffer2_end in *.
    destruct Hla as [(Hws & Hus & Hr2 & Hc)|(p1 & p2 & -> & Hus & Hue & Hws & Hlast & Hc1 & Hc2)].
    + left. cbn [set_buffer buffer size wrap start used mtu].
      destruct (Z.leb_spec (wrap b - start b) (used b)); [lia|].
      split_and!; try done. apply chunks_frame; try lia. done.
    + right. exists p1, p2. cbn [set_buffer buffer size wrap start used mtu].
      destruct (Z.leb_spec (wrap b - start b) (used b)); [|lia].
      split_and!; try done; apply chunks_frame; try done; lia.
Qed.

Lemma block_len_set m i len :
  0 <= i -> 4 * i + 4 <= zlen m -> 0 <= len <= INT_MAX -> block_len (set_block_len i len m) i = len.
Proof.
  intros Hi Hm Hl. rewrite block_len_slice by done. unfold set_block_len.
  change 4 with (zlen (store_le32 len)) at 2. rewrite slice_splice_same by (try (change (zlen (store_le32 len)) with 4); lia).
  unfold store_le32. rewrite le_load_store, Z.mod_small by (unfold INT_MAX in *; simpl; lia).
  apply s32_id. lia.
Qed.

(** The length block written at the end turns the bytes behind it into a packet,
    and leaves every other packet alone. *)
Lemma chunks_submit m pos ps en len sz :
  chunks m pos ps en -> 0 <= pos -> zlen m = 4 * sz -> 0 <= len <= INT_MAX ->
  en + 1 + bdivide_up len 4 <= sz ->
  let p := slice (4 * (en + 1)) len m in
  zlen p = len /\
  chunks (set_block_len en len m) pos (ps ++ [p]) (en + (1 + bdivide_up len 4)).
Proof.
  intros Hc Hp Hm Hl Hs p. pose proof (chunks_stop _ _ _ _ Hc). pose proof (total_blocks_nonneg ps).
  pose proof (bdivide_up_spec len 4 ltac:(lia)) as Hbd.
  pose proof (bdivide_up_nonneg len 4 ltac:(lia) ltac:(lia)).
  assert (zlen p = len) as Hpl by (apply zlen_slice; lia). split; [done|].
  replace (1 + bdivide_up len 4) with (blocks_of p) by (unfold blocks_of; rewrite Hpl; done).
  assert (zlen (store_le32 len) = 4) as Hz by reflexivity.
  apply chunks_snoc.
  - apply chunks_frame; try done; try lia. rewrite Hm, Z.mul_comm, Z.div_mul; lia.
  - rewrite Hpl. apply block_len_set; lia.
  - rewrite Hpl. unfold set_block_len. apply slice_splice_after; lia.
Qed.

Lemma Ring_Submit b ps d len :
  Inv b ps -> input_dest b = Some d -> 0 <= len <= input_avail b ->
  let en := ChunkBuffer2_end b in
  let bl := bdivide_up len 4 in
  let w := if (used b + (1 + bl) <=? wrap b - start b) && (size b - (en + 1 + bl) - 1 <? mtu b)
           then en + 1 + bl else wrap b in
  Ring (set_ring w (start b) (used b + (1 + bl)) (set_buffer (set_block_len en len (buffer b)) b))
       (ps ++ [slice d len (buffer b)]).
Proof.
  intros HI Hd Hl. cbv zeta. set (bl := bdivide_up len 4). destruct (Inv_input b ps d HI Hd) as (-> & Hf & Ha & Hs).
  destruct HI as [HR Hin Hout]. pose proof (Ring_end b ps HR) as [He1 He2].
  destruct HR as [Hm Hi Hmt Hst Hw Hr Hu Hla].
  assert (bl <= free_blocks b - 1) by (apply bdivide_up_le; lia).
  pose proof (bdivide_up_nonneg len 4 ltac:(lia) ltac:(lia)) as Hb0. fold bl in Hb0.
  assert (zlen (set_block_len (ChunkBuffer2_end b) len (buffer b)) = 4 * size b) as Hm'.
  { unfold set_block_len. rewrite zlen_splice; [done|lia|]. change (zlen (store_le32 len)) with 4. lia. }
  assert (ChunkBuffer2_end b + 1 + bl <= size b) as Hfit by lia.
  unfold free_blocks, ChunkBuffer2_end in *.
  destruct Hla as [(Hws & Hus & Hr2 & Hc)|(p1 & p2 & -> & Hus & Hue & Hws & Hlast & Hc1 & Hc2)];
    destruct (Z.leb_spec (wrap b - start b) (used b)); try lia.
  - destruct (chunks_submit _ _ _ _ len (size b) Hc ltac:(lia) Hm ltac:(lia) ltac:(lia)) as [Hpl Hc'].
    fold bl in Hc'.
    destruct (Z.leb_spec (used b + (1 + bl)) (wrap b - start b)); [|lia].
    destruct (Z.ltb_spec (size b - (start b + used b + 1 + bl) - 1) (mtu b)); cbn [andb];
      (split; cbn [set_ring set_buffer buffer size wrap start used mtu]; try lia).
    + right. exists (ps ++ [slice (4 * (start b + used b + 1)) len (buffer b)]), [].
      cbn [set_ring set_buffer buffer size wrap start used mtu]. rewrite app_nil_r.
      split_and!; try done; try lia; [| |cbn; lia].
      * eexists ps, _. split; [done|]. unfold blocks_of. rewrite Hpl. fold bl. lia.
      * replace (start b + used b + 1 + bl) with (start b + used b + (1 + bl)) by lia. done.
    + left. cbn [set_ring set_buffer buffer size wrap start used mtu].
      split_and!; try done; try lia.
      replace (start b + (used b + (1 + bl))) with (start b + used b + (1 + bl)) by lia. done.
  - destruct (chunks_submit _ _ _ _ len (size b) Hc2 ltac:(lia) Hm ltac:(lia) ltac:(lia)) as [_ Hc'].
    fold bl in Hc'.
    destruct (Z.leb_spec (used b + (1 + bl)) (wrap b - start b)); [lia|]. cbn [andb].
    split; cbn [set_ring set_buffer buffer size wrap start used mtu]; try lia.
    right. eexists p1, _. rewrite <- app_assoc. split; [done|].
    cbn [set_ring set_buffer buffer size wrap start used mtu]. split_and!; try lia; try done.
    + unfold set_block_len. change (zlen (store_le32 len)) with 4.
      apply chunks_frame; try done; try lia; change (zlen (store_le32 len)) with 4; try lia.
      rewrite Hm, Z.mul_comm, Z.div_mul; lia.
    + replace (used b + (1 + bl) - (wrap b - start b)) with
        (used b - (wrap b - start b) + (1 + bl)) by lia. done.
Qed.

(** Submitting [len] bytes appends exactly the bytes the producer wrote at
    [input_dest] to the queue. *)
Lemma Inv_Submit b ps d len :
  Inv b ps -> input_dest b = Some d -> 0 <= len <= input_avail b ->
  Inv (ChunkBuffer2_SubmitPacket b len) (ps ++ [slice d len (buffer b)]).
Proof.
  intros HI Hd Hl. pose proof (Ring_Submit b ps d len HI Hd Hl) as HR. cbv zeta in HR.
  unfold ChunkBuffer2_SubmitPacket, sizeof_block.
  cbn [set_ring set_buffer buffer size wrap start used mtu].
  set (bl := bdivide_up len 4) in *. set (en := ChunkBuffer2_end b) in *.
  set (m' := set_block_len en len (buffer b)) in *.
  set (c := (used b + (1 + bl) <=? wrap b - start b) && _) in *.
  match goal with |- context [if c then ?x else ?y] =>
    replace (if c then x else y) with
      (set_ring (if c then en + 1 + bl else wrap b) (start b) (used b + (1 + bl)) (set_buffer m' b))
      by (destruct c; reflexivity) end.
  set (b3 := set_ring _ _ _ _) in *.
  pose proof (Ring_update_input _ _ HR) as HR'.
  pose proof (update_input_idem b3) as Hi'.
  assert (used (ChunkBuffer2_update_input b3) = used b + (1 + bl)
    /\ start (ChunkBuffer2_update_input b3) = start b
    /\ output_dest (ChunkBuffer2_update_input b3) = output_dest b
    /\ output_avail (ChunkBuffer2_update_input b3) = output_avail b) as (Hu & Hs & Ho1 & Ho2).
  { unfold ChunkBuffer2_update_input. repeat case_match; done. }
  destruct (Z.eqb_spec (used (ChunkBuffer2_update_input b3)) (1 + bl)) as [E|E].
  - apply Inv_update_output; done.
  - split; [done|done|]. pose proof (Ring_used _ _ (inv_ring _ _ HI)) as Hub.
    destruct ps as [|p ps]; [cbn in Hub; lia|].
    pose proof (inv_output _ _ HI) as [H1 H2]. cbn. rewrite Hs, Ho1, Ho2. done.
Qed.

Lemma Submit_fields b len :
  let b' := ChunkBuffer2_SubmitPacket b len in
  start b' = start b /\ mtu b' = mtu b /\ size b' = size b.
Proof.
  cbv zeta. unfold ChunkBuffer2_SubmitPacket, ChunkBuffer2_update_input, ChunkBuffer2_update_output.
  repeat case_match; done.
Qed.

(** ** Output: the consumer is done with the first packet *)

Lemma Ring_Consume b p ps :
  Inv b (p :: ps) ->
  let bl := bdivide_up (zlen p) 4 in
  let st := start b + (1 + bl) in
  Ring (if st =? wrap b then set_ring (size b) 0 (used b - (1 + bl)) b
        else set_ring (wrap b) st (used b - (1 + bl)) b) ps.
Proof.
  intros [HR _ _] bl st. pose proof (Ring_used _ _ HR) as Hub.
  change (used b = blocks_of p + total_blocks ps) in Hub. unfold blocks_of in Hub.
  pose proof (total_blocks_nonneg ps).
  destruct HR as [Hm Hi Hmt Hst Hw Hr Hu Hla].
  pose proof (bdivide_up_nonneg (zlen p) 4 ltac:(lia) ltac:(auto with lr)) as Hb0. fold bl in Hb0, Hub.
  destruct Hla as [(Hws & Hus & Hr2 & Hc)|(p1 & p2 & He & Hus & Hue & Hws & Hlast & Hc1 & Hc2)].
  - destruct Hc as (_ & _ & Hc). unfold blocks_of in Hc. fold bl in Hc.
    destruct (Z.eqb_spec st (wrap b)); [lia|].
    split; cbn; try lia. left. cbn. split_and!; try lia.
    replace (st + (used b - (1 + bl))) with (start b + used b) by lia. exact Hc.
  - destruct p1 as [|q p1]; [cbn in Hc1; lia|]. injection He as <- ->.
    destruct Hc1 as (_ & _ & Hc1). unfold blocks_of in Hc1. fold bl in Hc1. fold st in Hc1.
    pose proof (chunks_stop _ _ _ _ Hc1) as Hs1. pose proof (chunks_stop _ _ _ _ Hc2) as Hs2.
    pose proof (total_blocks_nonneg p2).
    destruct (Z.eqb_spec st (wrap b)) as [E|E].
    + assert (p1 = []) as ->.
      { destruct p1 as [|r p1]; [done|]. pose proof (total_blocks_pos (r :: p1) ltac:(done)). lia. }
      split; cbn; try lia. left. cbn. split_and!; try lia.
      replace (used b - (1 + bl)) with (used b - (wrap b - start b)) by lia. exact Hc2.
    + assert (p1 <> []) as Hne by (intros ->; cbn in Hc1; lia).
      pose proof (total_blocks_pos p1 Hne).
      assert (exists p0 r, p1 = p0 ++ [r] /\ wrap b - blocks_of r + 1 + mtu b <= size b) as Hlast'.
      { destruct Hlast as ([|r0 p0] & r & Hp & Hr'); injection Hp; intros Hp'; [done|].
        intros _. exists p0, r. done. }
      assert (st + 1 + mtu b <= size b).
      { destruct Hlast' as (p0 & r & -> & Hr'). rewrite total_blocks_app in Hs1. cbn in Hs1.
        pose proof (total_blocks_nonneg p0). lia. }
      split; cbn; try lia. right. exists p1, p2. cbn. split_and!; try done; try lia.
      replace (used b - (1 + bl) - (wrap b - st)) with (used b - (wrap b - start b)) by lia. exact Hc2.
Qed.

Lemma set_input_id d a b : set_input d a b = b <-> input_dest b = d /\ input_avail b = a.
Proof. destruct b. cbn. split; [intros [= -> ->]; done|intros [-> ->]; done]. Qed.

(** Consuming keeps the end of the data where it is. *)
Lemma Consume_end b p ps :
  Inv b (p :: ps) ->
  let bl := bdivide_up (zlen p) 4 in
  let st := start b + (1 + bl) in
  let b' := if st =? wrap b then set_ring (size b) 0 (used b - (1 + bl)) b
            else set_ring (wrap b) st (used b - (1 + bl)) b in
  ChunkBuffer2_end b' = ChunkBuffer2_end b /\ free_blocks b <= free_blocks b' /\
  (used b < wrap b - start b -> input_ok b').
Proof.
  intros HI bl st b'. pose proof (Ring_Consume b p ps HI) as HR'. cbv zeta in HR'.
  fold bl st in HR'. fold b' in HR'. destruct HI as [HR Hin _].
  pose proof (Ring_used _ _ HR) as Hub. change (used b = blocks_of p + total_blocks ps) in Hub.
  unfold blocks_of in Hub. fold bl in Hub. pose proof (total_blocks_nonneg ps).
  pose proof (bdivide_up_nonneg (zlen p) 4 ltac:(lia) ltac:(auto with lr)) as Hb0. fold bl in Hb0.
  destruct HR' as [_ _ _ Hst' Hw' _ Hu' _]. destruct HR as [_ _ _ Hst Hw _ _ Hla].
  assert (ChunkBuffer2_end b' = ChunkBuffer2_end b /\ free_blocks b <= free_blocks b') as [He Hf].
  { unfold free_blocks, ChunkBuffer2_end, b' in *.
    destruct Hla as [(Hws & Hus & _)|(p1 & p2 & _ & Hus & Hue & _)];
      destruct (Z.eqb_spec st (wrap b)); cbn [set_ring wrap start used size] in *; zcases; lia. }
  split_and!; [done|done|]. intros Hnw.
  unfold input_ok, ChunkBuffer2_update_input in *. rewrite He.
  assert (b' = set_ring (wrap b) st (used b - (1 + bl)) b) as ->.
  { unfold b'. destruct (Z.eqb_spec st (wrap b)); [|done].
    destruct Hla as [(Hws & Hus & _)|(p1 & p2 & _ & Hus & Hue & _)]; lia. }
  cbn [set_ring wrap start used size mtu] in *.
  destruct (_ <? mtu b); [apply set_input_id in Hin; apply set_input_id; exact Hin|].
  destruct (Z.leb_spec (wrap b - start b) (used b)); [lia|].
  destruct (Z.leb_spec (wrap b - st) (used b - (1 + bl))); [lia|].
  destruct (0 <? size b - ChunkBuffer2_end b);
    apply set_input_id in Hin; apply set_input_id; exact Hin.
Qed.

(** Consuming removes the first packet. A destination handed out to the producer
    stays where it was and its room only grows, so a receive in progress is not
    disturbed. *)
Lemma Inv_Consume b p ps :
  Inv b (p :: ps) ->
  let b' := ChunkBuffer2_ConsumePacket b in
  Inv b' ps /\ buffer b' = buffer b /\ mtu b' = mtu b /\ size b' = size b /\
  (forall d, input_dest b = Some d -> input_dest b' = Some d /\ input_avail b <= input_avail b').
Proof.
  intros HI. pose proof (Ring_Consume b p ps HI) as HR'.
  pose proof (Consume_end b p ps HI) as (He & Hf & Hok). cbv zeta in *.
  destruct (Ring_head b p ps (inv_ring _ _ HI)) as [Hbl _].
  unfold ChunkBuffer2_ConsumePacket, sizeof_block. rewrite Hbl.
  cbn [set_ring buffer size wrap start used mtu].
  set (bl := bdivide_up (zlen p) 4) in *. set (st := start b + (1 + bl)) in *.
  change (set_ring (size b) 0 (used b - (1 + bl)) (set_ring (wrap b) st (used b - (1 + bl)) b))
    with (set_ring (size b) 0 (used b - (1 + bl)) b).
  set (b1 := if st =? wrap b then _ else _) in *.
  assert (buffer b1 = buffer b /\ mtu b1 = mtu b /\ size b1 = size b /\
    input_dest b1 = input_dest b /\ input_avail b1 = input_avail b) as (E1 & E2 & E3 & E4 & E5)
    by (unfold b1; destruct (st =? wrap b); done).
  set (b2 := if wrap b - start b <=? used b then _ else _) in *.
  assert (Inv (ChunkBuffer2_update_output b2) ps) as HI'.
  { apply Inv_update_output; unfold b2; destruct (Z.leb_spec (wrap b - start b) (used b)).
    - apply Ring_update_input. done.
    - done.
    - apply update_input_idem.
    - apply Hok. done. }
  assert (buffer b2 = buffer b /\ mtu b2 = mtu b /\ size b2 = size b) as (F1 & F2 & F3).
  { unfold b2, ChunkBuffer2_update_input. repeat case_match; done. }
  assert (forall b, buffer (ChunkBuffer2_update_output b) = buffer b /\
    mtu (ChunkBuffer2_update_output b) = mtu b /\ size (ChunkBuffer2_update_output b) = size b /\
    input_dest (ChunkBuffer2_update_output b) = input_dest b /\
    input_avail (ChunkBuffer2_update_output b) = input_avail b) as Ho.
  { intros c. unfold ChunkBuffer2_update_output. case_match; done. }
  destruct (Ho b2) as (G1 & G2 & G3 & G4 & G5).
  split; [done|]. rewrite G1, G2, G3, G4, G5. split_and!; try done.
  intros d Hd. destruct (Inv_input b (p :: ps) d HI Hd) as (-> & Hf0 & Ha & _).
  unfold b2. destruct (Z.leb_spec (wrap b - start b) (used b)); [|rewrite E4, E5; split; [done|lia]].
  pose proof (Ring_end _ _ HR') as [_ Hroom]. rewrite update_input_room by done.
  destruct (Z.ltb_spec 0 (free_blocks b1)); [|lia]. cbn [set_input input_dest input_avail].
  rewrite He. split; [done|]. rewrite Ha.
  pose proof (inv_int _ _ HR'). pose proof (Ring_end _ _ HR').
  assert (free_blocks b1 <= size b1).
  { unfold free_blocks. destruct HR'. destruct (_ <=? _); lia. }
  rewrite s32_id by (unfold INT_MAX in *; lia). lia.
Qed.

(** ** Capacity *)

Lemma total_blocks_le ps n :
  Forall (fun p => blocks_of p <= n) ps -> total_blocks ps <= zlen ps * n.
Proof.
  induction 1 as [|p ps Hp _ IH]; [unfold zlen; simpl; lia|].
  rewrite zlen_cons. change (total_blocks (p :: ps)) with (blocks_of p + total_blocks ps). lia.
Qed.

(** A buffer of [num + 1] times the blocks of an MTU packet accepts a packet as
    long as it holds fewer than [num]. *)
Lemma Inv_capacity b ps num :
  Inv b ps -> Forall (fun p => blocks_of p <= 1 + mtu b) ps ->
  size b = (1 + mtu b) * (num + 1) -> zlen ps < num ->
  exists d, input_dest b = Some d /\ 4 * mtu b <= input_avail b.
Proof.
  intros HI Hf Hsz Hn. pose proof (Ring_end b ps (inv_ring _ _ HI)) as [He1 He2].
  pose proof (Ring_used _ _ (inv_ring _ _ HI)) as Hu. pose proof (total_blocks_le ps _ Hf) as Ht.
  assert (1 + mtu b <= free_blocks b) as Hfree.
  { destruct HI as [[_ _ Hm Hst Hw _ _ Hla] _ _]. unfold free_blocks, ChunkBuffer2_end in *.
    destruct Hla as [(_ & Hus & Hr & _)|(p1 & p2 & _ & Hus & _ & Hws & _)];
      destruct (Z.leb_spec (wrap b - start b) (used b)); try lia. nia. }
  assert (exists d, input_dest b = Some d) as [d Hd].
  { pose proof (inv_input _ _ HI) as Hi. unfold input_ok in Hi.
    rewrite update_input_room in Hi by done.
    pose proof (inv_mtu _ _ (inv_ring _ _ HI)).
    destruct (Z.ltb_spec 0 (free_blocks b)); [|lia]. apply set_input_id in Hi as [Hi _]. eauto. }
  exists d. split; [done|]. destruct (Inv_input b ps d HI Hd) as (_ & _ & -> & _). lia.
Qed.

(** The block count is computed without overflow, and is refused otherwise. *)
Lemma calc_blocks_spec chunk_len num :
  0 <= chunk_len <= INT_MAX -> 0 <= num <= INT_MAX ->
  let n := (1 + bdivide_up chunk_len 4) * (num + 1) in
  ChunkBuffer2_calc_blocks chunk_len num = if (num <? INT_MAX) && (n <=? INT_MAX) then n else -1.
Proof.
  intros Hc Hn. cbv zeta. unfold ChunkBuffer2_calc_blocks, sizeof_block.
  pose proof (bdivide_up_spec chunk_len 4 ltac:(lia)).
  set (k := bdivide_up chunk_len 4) in *. unfold INT_MAX in *.
  destruct (Z.ltb_spec (2 ^ 31 - 1 - 1) k); [lia|].
  destruct (Z.ltb_spec (2 ^ 31 - 1 - 1) num); destruct (Z.ltb_spec num (2 ^ 31 - 1)); try lia; [done|].
  cbn [andb]. pose proof (Z.div_mod (2 ^ 31 - 1) (num + 1) ltac:(lia)).
  pose proof (Z.mod_pos_bound (2 ^ 31 - 1) (num + 1) ltac:(lia)).
  set (q := (2 ^ 31 - 1) / (num + 1)) in *.
  destruct (Z.ltb_spec q (1 + k)); destruct (Z.leb_spec ((1 + k) * (num + 1)) (2 ^ 31 - 1));
    try done; nia.
Qed.
