(* ===== verification/PacketBuffer.v ===== *)
(** * The packet buffer

    [flow/PacketBuffer.c]: receives packets from a [PacketRecvInterface] into a
    [ChunkBuffer2] and sends them to a [PacketPassInterface]. A handler returns
    the interface calls it makes; the interfaces only schedule jobs, so the calls
    take effect after the handler. The buffer runs between a producer, which
    writes into the memory it was given and reports a length, and a consumer,
    which reports that it is done with the packet it was given. *)

From Stdlib Require Import ZArith Lia.
From stdpp Require Import relations.
From S2P Require Import Prelude ByteOrder ChunkBuffer.

Record PacketBuffer := PB { buf : ChunkBuffer2; input_mtu : Z }.

Inductive action :=
| Receiver_Recv (dest : option Z)
| Sender_Send (data : option Z) (len : Z).

Definition input_handler_done (b : PacketBuffer) (in_len : Z) : PacketBuffer * list action :=
  let was_empty := output_avail (buf b) <? 0 in
  let b := PB (ChunkBuffer2_SubmitPacket (buf b) in_len) (input_mtu b) in
  let a1 := if input_mtu b <=? input_avail (buf b)
            then [Receiver_Recv (input_dest (buf b))] else [] in
  let a2 := if was_empty
            then [Sender_Send (output_dest (buf b)) (output_avail (buf b))] else [] in
  (b, a1 ++ a2).

Definition output_handler_done (b : PacketBuffer) : PacketBuffer * list action :=
  let was_full := input_avail (buf b) <? input_mtu b in
  let b := PB (ChunkBuffer2_ConsumePacket (buf b)) (input_mtu b) in
  let a1 := if was_full && (input_mtu b <=? input_avail (buf b))
            then [Receiver_Recv (input_dest (buf b))] else [] in
  let a2 := if 0 <=? output_avail (buf b)
            then [Sender_Send (output_dest (buf b)) (output_avail (buf b))] else [] in
  (b, a1 ++ a2).

(** [alloc n] is the memory [BAllocArray] returns for [n] blocks, [None] when it
    fails. *)
Definition PacketBuffer_Init (alloc : Z -> option (list byte)) (mtu num_packets : Z)
    : option (PacketBuffer * list action) :=
  let num_blocks := ChunkBuffer2_calc_blocks mtu num_packets in
  if num_blocks <? 0 then None else
  match alloc num_blocks with
  | None => None
  | Some m =>
      let b := PB (ChunkBuffer2_Init m num_blocks mtu) mtu in
      Some (b, [Receiver_Recv (input_dest (buf b))])
  end.

(** ** The buffer between producer and consumer *)

Record sys := Sys {
  pb : PacketBuffer;
  recving : option Z;            (** destination of the receive in progress *)
  sending : option (Z * Z);      (** data and length of the send in progress *)
  received : list (list byte);   (** history: packets reported by the producer *)
  delivered : list (list byte)   (** history: packets the consumer was done with *)
}.

(** Interface calls must find the interface idle and carry a pointer; [None] is
    a broken contract. *)
Definition do_action (a : action) (s : sys) : option sys :=
  match a with
  | Receiver_Recv (Some d) =>
      match recving s with
      | None => Some (Sys (pb s) (Some d) (sending s) (received s) (delivered s))
      | Some _ => None
      end
  | Sender_Send (Some d) len =>
      match sending s with
      | None => if 0 <=? len
                then Some (Sys (pb s) (recving s) (Some (d, len)) (received s) (delivered s))
                else None
      | Some _ => None
      end
  | _ => None
  end.

Fixpoint do_actions (l : list action) (s : sys) : option sys :=
  match l with
  | [] => Some s
  | a :: l' => match do_action a s with Some s' => do_actions l' s' | None => None end
  end.

Definition mem (s : sys) : list byte := buffer (buf (pb s)).

Inductive event := EWrite (data : list byte) | ERecvDone (len : Z) | ESendDone.

(** One event; [None] is an event that cannot happen in this state, or a handler
    that broke a contract. *)
Definition sys_step (s : sys) (e : event) : option sys :=
  match e with
  | EWrite data =>
      match recving s with
      | Some d =>
          if zlen data <=? input_mtu (pb s)
          then Some (Sys (PB (set_buffer (splice d data (mem s)) (buf (pb s))) (input_mtu (pb s)))
                         (recving s) (sending s) (received s) (delivered s))
          else None
      | None => None
      end
  | ERecvDone len =>
      match recving s with
      | Some d =>
          if (0 <=? len) && (len <=? input_mtu (pb s))
          then let '(b, l) := input_handler_done (pb s) len in
               do_actions l (Sys b None (sending s) (received s ++ [slice d len (mem s)]) (delivered s))
          else None
      | None => None
      end
  | ESendDone =>
      match sending s with
      | Some (d, len) =>
          let '(b, l) := output_handler_done (pb s) in
          do_actions l (Sys b (recving s) None (received s) (delivered s ++ [slice d len (mem s)]))
      | None => None
      end
  end.

(** The events the environment can produce. *)
Definition enabled (s : sys) (e : event) : Prop :=
  match e with
  | EWrite data => is_Some (recving s) /\ zlen data <= input_mtu (pb s)
  | ERecvDone len => is_Some (recving s) /\ 0 <= len <= input_mtu (pb s)
  | ESendDone => is_Some (sending s)
  end.

Fixpoint run (s : sys) (es : list event) : option sys :=
  match es with
  | [] => Some s
  | e :: es' => match sys_step s e with Some s' => run s' es' | None => None end
  end.

Definition start_sys (alloc : Z -> option (list byte)) (mtu num : Z) : option sys :=
  match PacketBuffer_Init alloc mtu num with
  | Some (b, l) => do_actions l (Sys b None None [] [])
  | None => None
  end.

(** Interface calls change neither the buffer nor the histories. *)
Lemma do_actions_frame l s s' :
  do_actions l s = Some s' ->
  pb s' = pb s /\ received s' = received s /\ delivered s' = delivered s.
Proof.
  revert s. induction l as [|a l IH]; cbn [do_actions]; intros s; [by intros [= ->]|].
  destruct (do_action a s) as [s2|] eqn:E; [|done]. intros Hl. apply IH in Hl as (-> & -> & ->).
  unfold do_action in E. repeat case_match; try done; injection E as <-; done.
Qed.

Lemma recv_history s len d s' :
  sys_step s (ERecvDone len) = Some s' -> recving s = Some d ->
  received s' = received s ++ [slice d len (mem s)] /\ delivered s' = delivered s.
Proof.
  cbn [sys_step]. intros Hs Hd. rewrite Hd in Hs. case_match; [|done].
  destruct (input_handler_done (pb s) len). apply do_actions_frame in Hs as (_ & -> & ->). done.
Qed.

Lemma step_input_mtu s e s' : sys_step s e = Some s' -> input_mtu (pb s') = input_mtu (pb s).
Proof.
  destruct e; cbn [sys_step]; repeat case_match; try done.
  - intros [= <-]. done.
  - intros Hs. apply do_actions_frame in Hs as (-> & _). injection H1 as <- _. done.
  - intros Hs. apply do_actions_frame in Hs as (-> & _). injection H1 as <- _. done.
Qed.

(** ** Invariant *)

Definition sending_of (b : ChunkBuffer2) (q : list (list byte)) : option (Z * Z) :=
  match q with [] => None | p :: _ => Some (4 * (start b + 1), zlen p) end.

Record PInv (num : Z) (s : sys) (q : list (list byte)) : Prop := {
  p_inv : Inv (buf (pb s)) q;
  p_mtu : 0 <= input_mtu (pb s);
  p_bmtu : mtu (buf (pb s)) = bdivide_up (input_mtu (pb s)) 4;
  p_size : size (buf (pb s)) = (1 + mtu (buf (pb s))) * (num + 1);
  p_small : Forall (fun p => zlen p <= input_mtu (pb s)) q;
  p_fifo : received s = delivered s ++ q;
  p_sending : sending s = sending_of (buf (pb s)) q;
  p_recving : recving s =
    if input_mtu (pb s) <=? input_avail (buf (pb s)) then input_dest (buf (pb s)) else None
}.

Lemma blocks_of_small n p : 0 <= n -> zlen p <= n -> blocks_of p <= 1 + bdivide_up n 4.
Proof.
  intros. unfold blocks_of. pose proof (bdivide_up_spec n 4 ltac:(lia)).
  pose proof (bdivide_up_le (zlen p) 4 (bdivide_up n 4) ltac:(lia)). lia.
Qed.

(** Room for an MTU comes with a destination. *)
Lemma room_dest b q m :
  Inv b q -> 0 <= m -> m <= input_avail b -> exists d, input_dest b = Some d.
Proof.
  intros HI Hm Ha. pose proof (inv_input _ _ HI) as Hi. unfold input_ok, ChunkBuffer2_update_input in Hi.
  repeat case_match; apply set_input_id in Hi as [Hd1 Hd2]; eauto; lia.
Qed.

Lemma output_avail_sign b q : Inv b q -> (output_avail b <? 0) = bool_decide (q = []).
Proof.
  intros HI. pose proof (inv_output _ _ HI) as Ho. destruct q as [|p q]; destruct Ho as [_ ->]; [done|].
  rewrite bool_decide_false by done. apply Z.ltb_ge. auto with lr.
Qed.

Lemma PInv_write num s q data s' :
  PInv num s q -> sys_step s (EWrite data) = Some s' -> PInv num s' q.
Proof.
  intros [HI Hm Hbm Hsz Hsm Hf Hs Hr]. cbn [sys_step].
  destruct (recving s) as [d|] eqn:Er; [|done].
  destruct (Z.leb_spec (zlen data) (input_mtu (pb s))); [|done]. intros [= <-].
  destruct (Z.leb_spec (input_mtu (pb s)) (input_avail (buf (pb s)))) as [Ha|]; [|done].
  split; cbn; try done.
  - apply Inv_write; [done|congruence|lia].
  - destruct (Z.leb_spec (input_mtu (pb s)) (input_avail (buf (pb s)))); [done|lia].
Qed.

(** The producer's report appends its packet to the queue, and the handler finds
    the interfaces it uses idle. *)
Lemma PInv_recv num s q d len :
  PInv num s q -> recving s = Some d -> 0 <= len <= input_mtu (pb s) ->
  exists s', sys_step s (ERecvDone len) = Some s' /\ PInv num s' (q ++ [slice d len (mem s)]).
Proof.
  intros [HI Hm Hbm Hsz Hsm Hf Hs Hr] Er Hl. cbn [sys_step]. rewrite Er.
  destruct (Z.leb_spec 0 len); [|lia]. destruct (Z.leb_spec len (input_mtu (pb s))); [|lia].
  cbn [andb]. rewrite Er in Hr.
  destruct (Z.leb_spec (input_mtu (pb s)) (input_avail (buf (pb s)))) as [Ha|]; [|done].
  symmetry in Hr. pose proof (Inv_Submit _ _ d len HI Hr ltac:(lia)) as HI'.
  destruct (Submit_fields (buf (pb s)) len) as (Es & Em & Ez). cbv zeta in *.
  fold (mem s) in HI'. unfold input_handler_done. cbn [buf input_mtu].
  rewrite (output_avail_sign _ _ HI).
  set (b' := ChunkBuffer2_SubmitPacket (buf (pb s)) len) in *.
  set (p := slice d len (mem s)) in *.
  assert (zlen p = len) as Hp.
  { destruct (Inv_input _ _ d HI Hr) as (-> & ? & ? & ?).
    pose proof (Ring_end _ _ (inv_ring _ _ HI)). pose proof (inv_mem _ _ (inv_ring _ _ HI)).
    unfold p, mem. apply zlen_slice; lia. }
  pose proof (inv_output _ _ HI') as Hout.
  assert (forall r se,
    PInv num (Sys (PB b' (input_mtu (pb s))) r se (received s ++ [p]) (delivered s)) (q ++ [p])
    <-> se = sending_of b' (q ++ [p]) /\
        r = if input_mtu (pb s) <=? input_avail b' then input_dest b' else None) as Hiff.
  { intros r se. split; [intros [_ _ _ _ _ _ H1 H2]; done|]. intros [-> ->].
    split; cbn; try done.
    - rewrite Em. done.
    - rewrite Ez, Em. done.
    - apply Forall_app. split; [done|]. apply Forall_singleton. lia.
    - rewrite Hf, app_assoc. done. }
  rewrite Hs.
  destruct (Z.leb_spec (input_mtu (pb s)) (input_avail b')) as [Ha'|Ha'].
  - destruct (room_dest _ _ _ HI' Hm Ha') as [d' Hd'].
    destruct q as [|p0 q]; [rewrite bool_decide_true by done|rewrite bool_decide_false by done];
      cbn [app do_actions do_action recving sending pb received delivered sending_of];
      rewrite Hd'.
    + destruct Hout as [-> ->]. cbn [app do_actions do_action recving sending pb received delivered].
      destruct (Z.leb_spec 0 (zlen p)); [|lia]. eexists. split; [done|].
      apply Hiff. rewrite Hd'. done.
    + eexists. split; [done|]. apply Hiff. rewrite Hd'. cbn. rewrite Es. done.
  - destruct q as [|p0 q]; [rewrite bool_decide_true by done|rewrite bool_decide_false by done];
      cbn [app do_actions do_action recving sending pb received delivered sending_of].
    + destruct Hout as [-> ->]. destruct (Z.leb_spec 0 (zlen p)); [|lia].
      eexists. split; [done|]. apply Hiff. done.
    + eexists. split; [done|]. apply Hiff. cbn. rewrite Es. done.
Qed.

(** The consumer's report removes the first packet, which is what it was given. *)
Lemma PInv_send num s q :
  PInv num s q -> is_Some (sending s) ->
  exists s' p q', q = p :: q' /\ sys_step s ESendDone = Some s' /\
    delivered s' = delivered s ++ [p] /\ PInv num s' q'.
Proof.
  intros [HI Hm Hbm Hsz Hsm Hf Hs Hr] [x Hx]. destruct q as [|p q]; [rewrite Hs in Hx; done|].
  cbn [sys_step]. rewrite Hs. cbn [sending_of].
  destruct (Ring_head _ _ _ (inv_ring _ _ HI)) as [_ Hhead]. fold (mem s) in Hhead. rewrite Hhead.
  pose proof (Inv_Consume _ _ _ HI) as (HI' & _ & Em & Ez & Hstab). cbv zeta in *.
  unfold output_handler_done. cbn [buf input_mtu].
  set (b' := ChunkBuffer2_ConsumePacket (buf (pb s))) in *.
  pose proof (inv_output _ _ HI') as Hout. apply Forall_cons_1 in Hsm as [_ Hsm].
  pose proof (output_avail_sign _ _ HI') as Hsign.
  assert (forall r se,
    se = sending_of b' q -> r = (if input_mtu (pb s) <=? input_avail b' then input_dest b' else None) ->
    PInv num (Sys (PB b' (input_mtu (pb s))) r se (received s) (delivered s ++ [p])) q) as Hiff.
  { intros r se -> ->. split; cbn; try done.
    - rewrite Em. done.
    - rewrite Ez, Em. done.
    - rewrite Hf, <- app_assoc. done. }
  rewrite Hr. set (m := input_mtu (pb s)) in *.
  assert (exists r, do_actions (if (input_avail (buf (pb s)) <? m) && (m <=? input_avail b')
        then [Receiver_Recv (input_dest b')] else [])
      (Sys (PB b' m) (if m <=? input_avail (buf (pb s)) then input_dest (buf (pb s)) else None)
        None (received s) (delivered s ++ [p])) =
      Some (Sys (PB b' m) r None (received s) (delivered s ++ [p])) /\
      r = (if m <=? input_avail b' then input_dest b' else None)) as (r & Hr1 & Hr2).
  { destruct (Z.leb_spec m (input_avail (buf (pb s)))) as [Ha|Ha].
    - destruct (Z.ltb_spec (input_avail (buf (pb s))) m); [lia|]. cbn [andb do_actions].
      destruct (room_dest _ _ _ HI Hm Ha) as [d Hd]. destruct (Hstab d Hd) as [Hd' Ha'].
      eexists. split; [done|]. destruct (Z.leb_spec m (input_avail b')); [congruence|lia].
    - destruct (Z.ltb_spec (input_avail (buf (pb s))) m); [|lia]. cbn [andb].
      destruct (Z.leb_spec m (input_avail b')) as [Ha'|Ha']; cbn [do_actions do_action recving];
        [|eauto].
      destruct (room_dest _ _ _ HI' Hm Ha') as [d' Hd']. rewrite Hd'. eauto. }
  assert (forall l1 l2 s0 s1, do_actions l1 s0 = Some s1 -> do_actions (l1 ++ l2) s0 = do_actions l2 s1)
    as Happ.
  { induction l1 as [|a l1 IH]; cbn [do_actions app]; intros l2 s0 s1; [by intros [= ->]|].
    destruct (do_action a s0); [apply IH|done]. }
  rewrite (Happ _ _ _ _ Hr1).
  destruct q as [|p1 q]; [rewrite bool_decide_true in Hsign by done|rewrite bool_decide_false in Hsign by done].
  - apply Z.ltb_lt in Hsign. destruct (Z.leb_spec 0 (output_avail b')); [lia|].
    eexists _, p, []. split_and!; try done. apply Hiff; done.
  - apply Z.ltb_ge in Hsign. destruct (Z.leb_spec 0 (output_avail b')); [|lia].
    destruct Hout as [H1 H2]. rewrite H1, H2 in *. cbn [do_actions do_action sending].
    destruct (Z.leb_spec 0 (zlen p1)); [|lia]. cbn [pb recving received delivered].
    eexists _, p, _. split_and!; try done. apply Hiff; done.
Qed.

(** A receive in progress is not disturbed by the consumer. *)
Lemma send_keeps_recv num s q d s' :
  PInv num s q -> recving s = Some d -> sys_step s ESendDone = Some s' -> recving s' = Some d.
Proof.
  intros HP Hd Hs. assert (is_Some (sending s)) as Hse.
  { cbn [sys_step] in Hs. destruct (sending s) as [[]|]; [eauto|done]. }
  destruct (PInv_send num s q HP Hse) as (s2 & p & q' & -> & Hs2 & _ & HP').
  rewrite Hs in Hs2. injection Hs2 as <-.
  pose proof (Inv_Consume _ _ _ (p_inv _ _ _ HP)) as (_ & _ & _ & _ & Hstab). cbv zeta in Hstab.
  assert (pb s' = PB (ChunkBuffer2_ConsumePacket (buf (pb s))) (input_mtu (pb s))) as Hpb.
  { cbn [sys_step] in Hs. destruct (sending s) as [[]|]; [|done].
    apply do_actions_frame in Hs as (-> & _). done. }
  rewrite (p_recving _ _ _ HP'), Hpb. cbn [buf input_mtu].
  pose proof (p_recving _ _ _ HP) as Hr. rewrite Hd in Hr.
  destruct (Z.leb_spec (input_mtu (pb s)) (input_avail (buf (pb s)))); [|done].
  destruct (Hstab d (eq_sym Hr)) as [-> ?].
  destruct (Z.leb_spec (input_mtu (pb s)) (input_avail (ChunkBuffer2_ConsumePacket (buf (pb s)))));
    [done|lia].
Qed.

(** ** The buffer from its initialisation on *)

Section runs.
(** The allocator, the MTU of the input and the number of packets asked for. *)
Context (alloc : Z -> option (list byte)) (imtu num : Z).
Context (alloc_size : forall n m, alloc n = Some m -> zlen m = 4 * n).
Context (imtu_ok : 0 <= imtu <= INT_MAX) (num_ok : 0 < num).
(** The memory fits an [int]. *)
Context (fits : 4 * ((1 + bdivide_up imtu 4) * (num + 1)) <= INT_MAX).

Lemma start_PInv s : start_sys alloc imtu num = Some s -> PInv num s [] /\ input_mtu (pb s) = imtu.
Proof.
  unfold start_sys, PacketBuffer_Init.
  pose proof (bdivide_up_nonneg imtu 4 ltac:(lia) ltac:(lia)).
  assert (num < INT_MAX) by nia.
  rewrite calc_blocks_spec by lia. set (n := (1 + bdivide_up imtu 4) * (num + 1)) in *.
  destruct (Z.ltb_spec num INT_MAX); [|lia]. destruct (Z.leb_spec n INT_MAX); [|lia]. cbn [andb].
  destruct (Z.ltb_spec n 0); [nia|]. destruct (alloc n) as [m|] eqn:Ea; [|done].
  pose proof (alloc_size n m Ea) as Hm.
  assert (1 + bdivide_up imtu 4 <= n) as Hn by nia.
  pose proof (Inv_Init m n imtu Hm ltac:(lia) ltac:(lia) Hn) as HI.
  set (b := ChunkBuffer2_Init m n imtu) in *.
  assert (mtu b = bdivide_up imtu 4 /\ size b = n) as [Em Es].
  { unfold b, ChunkBuffer2_Init, ChunkBuffer2_update_input, ChunkBuffer2_update_output.
    repeat case_match; done. }
  destruct (Inv_capacity b [] num HI ltac:(constructor)) as (d & Hd & Ha);
    [rewrite Em, Es; done|unfold zlen; simpl; lia|].
  cbn [do_actions do_action recving]. cbn [buf]. rewrite Hd. intros [= <-].
  split; [|done]. split; cbn; try done; try lia; try congruence.
  pose proof (bdivide_up_spec imtu 4 ltac:(lia)).
  destruct (Z.leb_spec imtu (input_avail b)); [done|lia].
Qed.

Lemma run_PInv es s s' q : PInv num s q -> run s es = Some s' -> exists q', PInv num s' q'.
Proof.
  revert s q. induction es as [|e es IH]; cbn [run]; intros s q HP; [intros [= <-]; eauto|].
  destruct (sys_step s e) as [s1|] eqn:E; [|done]. intros Hr.
  enough (exists q1, PInv num s1 q1) as [q1 HP1] by eauto.
  destruct e as [data|len|].
  - exists q. eapply PInv_write; done.
  - cbn [sys_step] in E. destruct (recving s) as [d|] eqn:Er; [|done].
    destruct (Z.leb_spec 0 len); [|done]. destruct (Z.leb_spec len (input_mtu (pb s))); [|done].
    destruct (PInv_recv num s q d len HP Er ltac:(lia)) as (s2 & Hs2 & HP2).
    cbn [sys_step] in Hs2. rewrite Er in Hs2.
    destruct (Z.leb_spec 0 len); [|lia]. destruct (Z.leb_spec len (input_mtu (pb s))); [|lia].
    cbn [andb] in *. rewrite E in Hs2. injection Hs2 as ->. eauto.
  - assert (is_Some (sending s)) as Hse.
    { cbn [sys_step] in E. destruct (sending s) as [[]|]; [eauto|done]. }
    destruct (PInv_send num s q HP Hse) as (s2 & p & q' & _ & Hs2 & _ & HP2).
    rewrite E in Hs2. injection Hs2 as ->. eauto.
Qed.

(** C6: the packet buffer is a lossless FIFO. After any sequence of events, the
    packets the producer reported are those the consumer was done with, in order,
    followed by the ones still stored, none longer than the MTU; the send in
    progress is for the first stored packet and the memory it points to holds
    exactly that packet, whatever the producer has written meanwhile. The memory of the
    buffer, 4 bytes for each block, must not exceed the largest [int]. *)
Theorem PacketBuffer_fifo es s0 s :
  start_sys alloc imtu num = Some s0 -> run s0 es = Some s ->
  exists q, received s = delivered s ++ q /\ Forall (fun p => zlen p <= imtu) q /\
    match sending s with
    | None => q = []
    | Some (d, len) => exists p q', q = p :: q' /\ slice d len (mem s) = p /\ len = zlen p
    end.
Proof.
  intros H0 Hr. destruct (start_PInv s0 H0) as [HP Hm].
  destruct (run_PInv es s0 s [] HP Hr) as [q HPq]. exists q.
  assert (input_mtu (pb s) = imtu) as Hm'.
  { revert Hr. rewrite <- Hm. clear -alloc. revert s0. induction es as [|e es IH]; cbn [run]; intros s0.
    - intros [= ->]. done.
    - destruct (sys_step s0 e) as [s1|] eqn:E; [|done]. intros Hr.
      rewrite (IH s1 Hr). eapply step_input_mtu; done. }
  destruct HPq as [HI _ _ _ Hsm Hf Hs _]. rewrite Hm' in Hsm.
  split; [done|]. split; [done|]. rewrite Hs. destruct q as [|p q]; [done|]. cbn [sending_of].
  exists p, q. split; [done|]. split; [|done]. apply (Ring_head _ _ _ (inv_ring _ _ HI)).
Qed.

(** The packet buffer never breaks a contract and never stalls. In every
    state it reaches, any report the producer or the consumer can make is
    processed, the handlers find the interfaces they call idle; a receive is in
    progress whenever fewer packets than asked for are stored, and always a
    receive or a send. *)
Theorem PacketBuffer_progress es s0 s :
  start_sys alloc imtu num = Some s0 -> run s0 es = Some s ->
  (forall e, enabled s e -> is_Some (sys_step s e)) /\
  (zlen (received s) - zlen (delivered s) < num -> is_Some (recving s)) /\
  (is_Some (recving s) \/ is_Some (sending s)).
Proof.
  intros H0 Hr. destruct (start_PInv s0 H0) as [HP Hm].
  destruct (run_PInv es s0 s [] HP Hr) as [q HPq].
  assert (zlen (received s) - zlen (delivered s) < num -> is_Some (recving s)) as Hcap.
  { rewrite (p_fifo _ _ _ HPq), zlen_app. intros Hn.
    destruct (Inv_capacity _ q num (p_inv _ _ _ HPq)) as (d & Hd & Ha).
    - rewrite (p_bmtu _ _ _ HPq). eapply Forall_impl; [apply (p_small _ _ _ HPq)|].
      intros p Hp. apply blocks_of_small; [apply HPq|done].
    - apply HPq.
    - lia.
    - rewrite (p_recving _ _ _ HPq).
      pose proof (bdivide_up_spec (input_mtu (pb s)) 4 ltac:(lia)) as Hb.
      rewrite (p_bmtu _ _ _ HPq) in Ha.
      destruct (Z.leb_spec (input_mtu (pb s)) (input_avail (buf (pb s)))); [eauto|lia]. }
  split_and!.
  - intros [data|len|]; cbn [enabled].
    + intros [[d Hd] Hl]. cbn [sys_step]. rewrite Hd.
      destruct (Z.leb_spec (zlen data) (input_mtu (pb s))); [eauto|lia].
    + intros [[d Hd] Hl]. destruct (PInv_recv num s q d len HPq Hd Hl) as (s' & -> & _). eauto.
    + intros Hs. destruct (PInv_send num s q HPq Hs) as (s' & p & q' & _ & -> & _). eauto.
  - exact Hcap.
  - destruct q as [|p q].
    + left. apply Hcap. rewrite (p_fifo _ _ _ HPq), zlen_app. unfold zlen. simpl. lia.
    + right. rewrite (p_sending _ _ _ HPq). cbn. eauto.
Qed.
End runs.

(** A run of a buffer for two packets of up to five bytes. *)
Definition example_events : list event :=
  [EWrite [x01; x02; x03]; ERecvDone 3; EWrite [x04; x05; x06; x07; x08]; ERecvDone 5;
   ESendDone; EWrite [x0a; x0b; x0c; x0d; x0e]; EWrite [x09]; ERecvDone 1].

Lemma PacketBuffer_fifo_witness :
  exists s0 s, start_sys (zero_alloc 4) 5 2 = Some s0 /\ run s0 example_events = Some s /\
    delivered s = [[x01; x02; x03]] /\
    exists q, received s = delivered s ++ q /\ Forall (fun p => zlen p <= 5) q.
Proof.
  destruct (start_sys (zero_alloc 4) 5 2) as [s0|] eqn:E0; [|vm_compute in E0; discriminate E0].
  destruct (run s0 example_events) as [s|] eqn:E1;
    [|vm_compute in E0; injection E0 as <-; vm_compute in E1; discriminate E1].
  exists s0, s. split; [done|]. split; [done|]. split.
  - vm_compute in E0. injection E0 as <-. vm_compute in E1. injection E1 as <-. reflexivity.
  - destruct (PacketBuffer_fifo (zero_alloc 4) 5 2 (zero_alloc_size 4 ltac:(lia)) ltac:(unfold INT_MAX; lia)
      ltac:(lia) ltac:(vm_compute; discriminate) example_events s0 s E0 E1) as (q & H1 & H2 & _).
    exists q. split; assumption.
Defined.

Lemma PacketBuffer_progress_witness :
  exists s0 s, start_sys (zero_alloc 4) 5 2 = Some s0 /\ run s0 example_events = Some s /\
    is_Some (sys_step s ESendDone).
Proof.
  destruct (start_sys (zero_alloc 4) 5 2) as [s0|] eqn:E0; [|vm_compute in E0; discriminate E0].
  destruct (run s0 example_events) as [s|] eqn:E1;
    [|vm_compute in E0; injection E0 as <-; vm_compute in E1; discriminate E1].
  exists s0, s. split; [done|]. split; [done|].
  apply (PacketBuffer_progress (zero_alloc 4) 5 2 (zero_alloc_size 4 ltac:(lia)) ltac:(unfold INT_MAX; lia)
      ltac:(lia) ltac:(vm_compute; discriminate) example_events s0 s E0 E1).
  vm_compute in E0. injection E0 as <-. vm_compute in E1. injection E1 as <-.
  vm_compute. eexists. reflexivity.
Defined.
