(* ===== verification/PacketProto.v ===== *)
(** * Packets over a byte stream

    [protocol/packetproto.h], [flow/PacketProtoEncoder.c] and
    [flow/PacketProtoDecoder.c]: a packet travels as a little-endian 16-bit
    length followed by its bytes. The encoder wraps the packets it receives; the
    decoder reassembles packets from a stream that arrives in arbitrary pieces,
    in a buffer that holds one packet of the MTU. *)

From Stdlib Require Import ZArith Lia.
From S2P Require Import Prelude ByteOrder.

Definition sizeof_packetproto_header : Z := 2.
Definition PACKETPROTO_ENCLEN (len : Z) : Z := sizeof_packetproto_header + len.
Definition PACKETPROTO_MAXPAYLOAD : Z := UINT16_MAX.

(** ** Encoder *)
Module Encoder.

(** The address the output's user provided, while a packet is being received
    there. Addresses are offsets into the user's memory. *)
Record PacketProtoEncoder := Enc { output_packet : option Z }.

Inductive action := Receiver_Recv (off : Z) | Output_Done (len : Z).

Definition output_handler_recv (e : PacketProtoEncoder) (data : Z)
    : PacketProtoEncoder * list action :=
  (Enc (Some data), [Receiver_Recv (data + sizeof_packetproto_header)]).

(** Also returns the memory with the header written. *)
Definition input_handler_done (e : PacketProtoEncoder) (in_len : Z) (m : list byte)
    : PacketProtoEncoder * list byte * list action :=
  match output_packet e with
  | None => (e, m, [])
  | Some o =>
      (Enc None, splice o (store_le16 (htol16 in_len)) m,
       [Output_Done (PACKETPROTO_ENCLEN in_len)])
  end.

Definition PacketProtoEncoder_Init : PacketProtoEncoder := Enc None.
End Encoder.

(** The wire format. *)
Definition encode (p : list byte) : list byte := store_le16 (zlen p) ++ p.

Lemma zlen_encode p : zlen (encode p) = 2 + zlen p.
Proof. unfold encode. rewrite zlen_app. done. Qed.

(** ** Decoder *)
Module Decoder.

Record PacketProtoDecoder := Dec {
  output_mtu : Z; buf : list byte; buf_size : Z; buf_start : Z; buf_used : Z
}.

Definition set_buf (m : list byte) (d : PacketProtoDecoder) : PacketProtoDecoder :=
  Dec (output_mtu d) m (buf_size d) (buf_start d) (buf_used d).
Definition set_pos (s u : Z) (d : PacketProtoDecoder) : PacketProtoDecoder :=
  Dec (output_mtu d) (buf d) (buf_size d) s u.

Inductive action :=
| Sender_Send (off len : Z)
| Receiver_Recv (off len : Z)
| Handler_Error.

(** The part of [process_data] after the [do ... while (0)] block. *)
Definition receive_more (was_error : bool) (d : PacketProtoDecoder)
    : PacketProtoDecoder * list action :=
  let d :=
    if was_error then set_pos 0 0 d
    else if buf_start d + buf_used d =? buf_size d
         then set_pos 0 (buf_used d)
                (set_buf (splice 0 (slice (buf_start d) (buf_used d) (buf d)) (buf d)) d)
         else d in
  (d, Receiver_Recv (buf_start d + buf_used d) (buf_size d - (buf_start d + buf_used d))
      :: if was_error then [Handler_Error] else []).

Definition process_data (d : PacketProtoDecoder) : PacketProtoDecoder * list action :=
  let data := buf_start d in
  let left := buf_used d in
  if left <? sizeof_packetproto_header then receive_more false d else
  let data_len := ltoh16 (load_le16 (slice data 2 (buf d))) in
  let data := data + sizeof_packetproto_header in
  let left := left - sizeof_packetproto_header in
  if output_mtu d <? data_len then receive_more true d else
  if left <? data_len then receive_more false d else
  (set_pos (buf_start d + (sizeof_packetproto_header + data_len))
           (buf_used d - (sizeof_packetproto_header + data_len)) d,
   [Sender_Send data data_len]).

Definition input_handler_done (d : PacketProtoDecoder) (data_len : Z)
    : PacketProtoDecoder * list action :=
  process_data (set_pos (buf_start d) (buf_used d + data_len) d).

Definition output_handler_done (d : PacketProtoDecoder) : PacketProtoDecoder * list action :=
  process_data d.

(** [alloc n] is what [malloc] returns for [n] bytes. *)
Definition PacketProtoDecoder_Init (alloc : Z -> option (list byte)) (mtu : Z)
    : option (PacketProtoDecoder * list action) :=
  let omtu := Z.min mtu PACKETPROTO_MAXPAYLOAD in
  let size := PACKETPROTO_ENCLEN omtu in
  match alloc size with
  | None => None
  | Some m => Some (Dec omtu m size 0 0, [Receiver_Recv 0 size])
  end.

Definition PacketProtoDecoder_Reset (d : PacketProtoDecoder) : PacketProtoDecoder :=
  set_pos (buf_start d + buf_used d) 0 d.

(** ** The decoder between a stream and a consumer *)

Record sys := Sys {
  dec : PacketProtoDecoder;
  recving : option (Z * Z);
  sending : option (Z * Z);
  fed : list byte;               (** history: the stream so far *)
  delivered : list (list byte);  (** history: packets the consumer was done with *)
  errors : nat
}.

(** Contracts: the interface is idle, a receive has room, a send a length within
    the MTU. *)
Definition do_action (a : action) (s : sys) : option sys :=
  match a with
  | Sender_Send o n =>
      match sending s with
      | None => if (0 <=? n) && (n <=? output_mtu (dec s))
                then Some (Sys (dec s) (recving s) (Some (o, n)) (fed s) (delivered s) (errors s))
                else None
      | Some _ => None
      end
  | Receiver_Recv o n =>
      match recving s with
      | None => if 0 <? n
                then Some (Sys (dec s) (Some (o, n)) (sending s) (fed s) (delivered s) (errors s))
                else None
      | Some _ => None
      end
  | Handler_Error =>
      Some (Sys (dec s) (recving s) (sending s) (fed s) (delivered s) (S (errors s)))
  end.

Fixpoint do_actions (l : list action) (s : sys) : option sys :=
  match l with
  | [] => Some s
  | a :: l' => match do_action a s with Some s' => do_actions l' s' | None => None end
  end.

Inductive event := EData (data : list byte) | ESendDone.

(** [EData]: the stream source writes a non-empty piece into the memory of the
    receive in progress and reports its length. *)
Definition sys_step (s : sys) (e : event) : option sys :=
  match e with
  | EData data =>
      match recving s with
      | Some (o, n) =>
          if (0 <? zlen data) && (zlen data <=? n)
          then let d := set_buf (splice o data (buf (dec s))) (dec s) in
               let '(d, l) := input_handler_done d (zlen data) in
               do_actions l (Sys d None (sending s) (fed s ++ data) (delivered s) (errors s))
          else None
      | None => None
      end
  | ESendDone =>
      match sending s with
      | Some (o, n) =>
          let '(d, l) := output_handler_done (dec s) in
          do_actions l (Sys d (recving s) None (fed s)
                         (delivered s ++ [slice o n (buf (dec s))]) (errors s))
      | None => None
      end
  end.

Fixpoint run (s : sys) (es : list event) : option sys :=
  match es with
  | [] => Some s
  | e :: es' => match sys_step s e with Some s' => run s' es' | None => None end
  end.

Definition start_sys (alloc : Z -> option (list byte)) (mtu : Z) : option sys :=
  match PacketProtoDecoder_Init alloc mtu with
  | Some (d, l) => do_actions l (Sys d None None [] [] 0)
  | None => None
  end.

(** ** Reference parser *)

(** Splits off the first packet of a byte string. *)
Inductive first_packet :=
| Incomplete
| TooLarge
| Packet (p rest : list byte).

Definition parse_one (mtu : Z) (l : list byte) : first_packet :=
  match l with
  | a :: b :: l' =>
      let n := b2z a + 256 * b2z b in
      if mtu <? n then TooLarge
      else if zlen l' <? n then Incomplete
      else Packet (take (Z.to_nat n) l') (drop (Z.to_nat n) l')
  | _ => Incomplete
  end.

(** ** Invariant *)

(** The unread bytes. *)
Definition pending (d : PacketProtoDecoder) : list byte := slice (buf_start d) (buf_used d) (buf d).

Record dec_wf (d : PacketProtoDecoder) : Prop := {
  wf_mtu : 0 <= output_mtu d <= PACKETPROTO_MAXPAYLOAD;
  wf_size : buf_size d = 2 + output_mtu d;
  wf_mem : zlen (buf d) = buf_size d;
  wf_start : 0 <= buf_start d;
  wf_used : 0 <= buf_used d;
  wf_end : buf_start d + buf_used d <= buf_size d
}.

Lemma zlen_pending d : dec_wf d -> zlen (pending d) = buf_used d.
Proof. intros []. apply zlen_slice; lia. Qed.

Lemma load_le16_2 a b l : load_le16 (a :: b :: l) = b2z a + 256 * b2z b.
Proof. unfold load_le16. simpl. lia. Qed.

(** [process_data] does what the reference parser says of the unread bytes: it
    sends the first packet, reports an error and starts over, or receives more
    behind the bytes it keeps. *)
Lemma process_data_spec d :
  dec_wf d ->
  match parse_one (output_mtu d) (pending d) with
  | Packet p rest =>
      exists d' o, process_data d = (d', [Sender_Send o (zlen p)]) /\ dec_wf d' /\
        output_mtu d' = output_mtu d /\ buf d' = buf d /\
        pending d' = rest /\ slice o (zlen p) (buf d) = p /\ zlen p <= output_mtu d /\
        pending d = encode p ++ rest
  | TooLarge =>
      exists d', process_data d = (d', [Receiver_Recv 0 (buf_size d); Handler_Error]) /\ dec_wf d' /\
        output_mtu d' = output_mtu d /\ pending d' = [] /\ buf_start d' + buf_used d' = 0
  | Incomplete =>
      exists d', process_data d =
        (d', [Receiver_Recv (buf_start d' + buf_used d') (buf_size d - (buf_start d' + buf_used d'))]) /\
        dec_wf d' /\ output_mtu d' = output_mtu d /\ pending d' = pending d /\
        0 < buf_size d - (buf_start d' + buf_used d')
  end.
Proof.
  intros Hwf. pose proof (zlen_pending d Hwf) as Hlen. destruct Hwf as [Hm Hs Hb Hst Hu He].
  assert (forall n, buf_used d < 2 + n -> n <= output_mtu d ->
    exists d', receive_more false d =
        (d', [Receiver_Recv (buf_start d' + buf_used d') (buf_size d - (buf_start d' + buf_used d'))]) /\
        dec_wf d' /\ output_mtu d' = output_mtu d /\ pending d' = pending d /\
        0 < buf_size d - (buf_start d' + buf_used d')) as Hmore.
  { intros n Hn Hnm. unfold receive_more.
    destruct (Z.eqb_spec (buf_start d + buf_used d) (buf_size d)) as [E|E].
    - eexists. split; [reflexivity|]. cbn. split_and!; try done; try lia.
      + split; cbn; try done; try lia. rewrite zlen_splice; fold (pending d); lia.
      + unfold pending. cbn. fold (pending d). rewrite <- Hlen.
        apply slice_splice_same; lia.
    - exists d. split; [reflexivity|]. split_and!; try done; lia. }
  unfold process_data, sizeof_packetproto_header. unfold pending in Hlen |- *.
  remember (slice (buf_start d) (buf_used d) (buf d)) as s eqn:Es.
  destruct (Z.ltb_spec (buf_used d) 2) as [Hsh|Hsh].
  { rewrite Es in *. fold (pending d) in *.
    destruct (pending d) as [|a [|b l]]; cbn [parse_one]; try (apply (Hmore 0); lia).
    rewrite !zlen_cons in Hlen. pose proof (zlen_nonneg l). lia. }
  assert (slice (buf_start d) 2 (buf d) = take 2 s /\
    slice (buf_start d + 2) (buf_used d - 2) (buf d) = drop 2 s) as [Ht Hd].
  { assert (s = slice (buf_start d) 2 (buf d) ++ slice (buf_start d + 2) (buf_used d - 2) (buf d)) as E.
    { rewrite <- slice_app_join by lia. rewrite Es. f_equal. lia. }
    assert (length (slice (buf_start d) 2 (buf d)) = 2%nat) as E2.
    { pose proof (zlen_slice (buf_start d) 2 (buf d)). unfold zlen in *. lia. }
    rewrite E. split; [rewrite take_app_le, take_ge by lia; done|].
    rewrite drop_app_ge by lia. rewrite E2. done. }
  rewrite Ht. destruct s as [|a [|b l]];
    [unfold zlen in Hlen; simpl in Hlen; lia|unfold zlen in Hlen; simpl in Hlen; lia|].
  cbn [parse_one take drop] in *. unfold ltoh16, htol16. rewrite load_le16_2.
  rewrite !zlen_cons in Hlen. pose proof (b2z_range a). pose proof (b2z_range b).
  set (n := b2z a + 256 * b2z b) in *.
  destruct (Z.ltb_spec (output_mtu d) n).
  { unfold receive_more. eexists. split; [cbn; rewrite Z.sub_0_r; reflexivity|].
    split_and!; try done. split; cbn; lia. }
  replace (buf_used d - 2) with (zlen l) in * by lia. rewrite drop_0 in Hd.
  destruct (Z.ltb_spec (zlen l) n); [rewrite Es; apply (Hmore n); lia|].
  assert (take (Z.to_nat n) l = slice (buf_start d + 2) n (buf d)) as Hp.
  { pose proof (f_equal (take (Z.to_nat n)) Hd) as E. unfold slice in E. rewrite take_take in E.
    rewrite <- E. unfold slice. f_equal. lia. }
  assert (zlen (take (Z.to_nat n) l) = n) as Hpl by (rewrite Hp; apply zlen_slice; lia).
  rewrite Hpl. eexists _, _. split; [reflexivity|]. cbn. split_and!; try done; try lia.
  - split; cbn; try done; lia.
  - pose proof (f_equal (drop (Z.to_nat n)) Hd) as E. rewrite <- E. unfold slice.
    replace (Z.to_nat (zlen l)) with (Z.to_nat n + Z.to_nat (zlen l - n))%nat by lia.
    rewrite <- take_drop_commute, drop_drop. f_equal; [lia|f_equal; lia].
  - unfold encode. rewrite Hpl. unfold store_le16. cbn [le_store app].
    assert (z2b n = a) as ->.
    { rewrite <- z2b_u8, <- (z2b_b2z a). f_equal. unfold n, u8. change (2 ^ 8) with 256.
      rewrite Z.mul_comm, Z_mod_plus_full, Z.mod_small; done. }
    assert (z2b (n / 256) = b) as ->.
    { rewrite <- (z2b_b2z b). f_equal. unfold n. rewrite Z.mul_comm, Z.div_add, Z.div_small; lia. }
    rewrite take_drop. done.
Qed.

Definition encode_all (ps : list (list byte)) : list byte := concat (map encode ps).

(** What is in progress, and which packets have been sent off so far. *)
Definition status (s : sys) (emitted : list (list byte)) : Prop :=
  (recving s = Some (buf_start (dec s) + buf_used (dec s),
                     buf_size (dec s) - (buf_start (dec s) + buf_used (dec s))) /\
   0 < buf_size (dec s) - (buf_start (dec s) + buf_used (dec s)) /\
   sending s = None /\ emitted = delivered s /\
   parse_one (output_mtu (dec s)) (pending (dec s)) = Incomplete) \/
  (exists o p, recving s = None /\ sending s = Some (o, zlen p) /\
   emitted = delivered s ++ [p] /\ slice o (zlen p) (buf (dec s)) = p /\
   zlen p <= output_mtu (dec s)).

Record SInv (s : sys) (emitted : list (list byte)) : Prop := {
  s_wf : dec_wf (dec s);
  s_status : status s emitted;
  s_small : Forall (fun p => zlen p <= output_mtu (dec s)) (delivered s);
  s_stream : errors s = 0%nat -> fed s = encode_all emitted ++ pending (dec s);
  s_error : errors s <> 0%nat -> exists ps rest more,
    fed s = encode_all ps ++ rest ++ more /\ parse_one (output_mtu (dec s)) rest = TooLarge /\
    Forall (fun p => zlen p <= output_mtu (dec s)) ps
}.

(** Running [process_data] on a state in which nothing is in progress. *)
Lemma process_step d f del er :
  dec_wf d -> Forall (fun p => zlen p <= output_mtu d) del ->
  (er = 0%nat -> f = encode_all del ++ pending d) ->
  (er <> 0%nat -> exists ps rest more, f = encode_all ps ++ rest ++ more /\
    parse_one (output_mtu d) rest = TooLarge /\ Forall (fun p => zlen p <= output_mtu d) ps) ->
  exists s' em, do_actions (snd (process_data d)) (Sys (fst (process_data d)) None None f del er) = Some s' /\
    SInv s' em /\ fed s' = f /\ delivered s' = del /\ output_mtu (dec s') = output_mtu d.
Proof.
  intros Hwf Hsm Hf He. pose proof (process_data_spec d Hwf) as Hp.
  pose proof (wf_size _ Hwf) as Hsize. pose proof (wf_mtu _ Hwf) as Hmtu.
  destruct (parse_one (output_mtu d) (pending d)) as [| |p rest] eqn:Epo.
  - destruct Hp as (d' & -> & Hwf' & Em & Hpd & Hroom). cbn [fst snd do_actions do_action recving].
    destruct (Z.ltb_spec 0 (buf_size d - (buf_start d' + buf_used d'))); [|lia].
    eexists _, del. split; [reflexivity|]. split; [|done]. split; cbn; try done.
    + left. cbn. replace (buf_size d') with (buf_size d)
        by (rewrite Hsize, (wf_size _ Hwf'); lia). rewrite Em, Hpd. done.
    + rewrite Em. done.
    + rewrite Hpd. done.
    + rewrite Em. done.
  - destruct Hp as (d' & -> & Hwf' & Em & Hpd & Hz). cbn [fst snd do_actions do_action recving].
    destruct (Z.ltb_spec 0 (buf_size d)); [|lia].
    eexists _, del. split; [reflexivity|]. split; [|done]. split; cbn; try done.
    + left. cbn. rewrite Hz, Hpd. replace (buf_size d') with (buf_size d)
        by (rewrite Hsize, (wf_size _ Hwf'); lia). rewrite Z.sub_0_r. done.
    + rewrite Em. done.
    + intros _. rewrite Em. destruct er; [|apply He; done].
      exists del, (pending d), []. rewrite app_nil_r. split_and!; auto.
  - destruct Hp as (d' & o & -> & Hwf' & Em & Eb & Hpd & Hsl & Hpl & Henc).
    cbn [fst snd do_actions do_action sending dec]. rewrite Em. pose proof (zlen_nonneg p).
    destruct (Z.leb_spec 0 (zlen p)); [|lia]. destruct (Z.leb_spec (zlen p) (output_mtu d)); [|lia].
    eexists _, (del ++ [p]). split; [reflexivity|]. split; [|done]. split; cbn; try done.
    + right. exists o, p. cbn. rewrite Eb, Em. done.
    + rewrite Em. done.
    + intros H0'. rewrite Hf by done. unfold encode_all. rewrite map_app, concat_app. cbn.
      rewrite app_nil_r, Hpd, Henc, app_assoc. done.
    + rewrite Em. done.
Qed.

Lemma pending_extend d data o n :
  dec_wf d -> o = buf_start d + buf_used d -> n = buf_size d - o -> zlen data <= n ->
  let d1 := set_pos (buf_start d) (buf_used d + zlen data) (set_buf (splice o data (buf d)) d) in
  dec_wf d1 /\ pending d1 = pending d ++ data.
Proof.
  intros [Hm Hs Hb Hst Hu He] -> -> Hl. pose proof (zlen_nonneg data). cbv zeta. split.
  - split; cbn; try done; try lia. rewrite zlen_splice; lia.
  - unfold pending. cbn. rewrite slice_app_join by lia. f_equal.
    + apply slice_splice_before; lia.
    + apply slice_splice_same; lia.
Qed.

(** Every event the environment can produce is processed, and the invariant
    holds afterwards. *)
Lemma SInv_data s em o n data :
  SInv s em -> recving s = Some (o, n) -> 0 < zlen data <= n ->
  exists s' em', sys_step s (EData data) = Some s' /\ SInv s' em' /\
    fed s' = fed s ++ data /\ output_mtu (dec s') = output_mtu (dec s).
Proof.
  intros [Hwf Hst Hsm Hf He] Hr Hd. cbn [sys_step]. rewrite Hr.
  destruct (Z.ltb_spec 0 (zlen data)); [|lia]. destruct (Z.leb_spec (zlen data) n); [|lia]. cbn [andb].
  destruct Hst as [(Hr2 & _ & Hse & -> & _)|(? & ? & Hr2 & _)]; [|congruence].
  rewrite Hr in Hr2. injection Hr2 as -> ->. rewrite Hse.
  destruct (pending_extend (dec s) data _ _ Hwf eq_refl eq_refl ltac:(lia)) as [Hwf1 Hp1]. cbv zeta in *.
  unfold input_handler_done. set (d1 := set_pos _ _ _) in *.
  destruct (process_step d1 (fed s ++ data) (delivered s) (errors s)) as (s' & em' & Hs' & HS & Hf' & _ & Hm').
  - done.
  - done.
  - intros Hz. rewrite Hf, Hp1, app_assoc by done. done.
  - intros Hz. destruct (He Hz) as (ps & rest & more & -> & Hpo & Hps).
    exists ps, rest, (more ++ data). rewrite <- !app_assoc. done.
  - destruct (process_data d1) as [d' l]. cbn [fst snd] in Hs'. exists s', em'. split; [done|].
    split; [done|]. split; [done|]. rewrite Hm'. done.
Qed.

Lemma SInv_send s em :
  SInv s em -> is_Some (sending s) ->
  exists s' em', sys_step s ESendDone = Some s' /\ SInv s' em' /\
    fed s' = fed s /\ delivered s' = em /\ output_mtu (dec s') = output_mtu (dec s).
Proof.
  intros [Hwf Hst Hsm Hf He] [x Hx]. cbn [sys_step].
  destruct Hst as [(_ & _ & Hse & _)|(o & p & Hr & Hse & -> & Hsl & Hpl)]; [congruence|].
  rewrite Hse, Hr, Hsl. unfold output_handler_done.
  destruct (process_step (dec s) (fed s) (delivered s ++ [p]) (errors s)) as (s' & em' & Hs' & HS & Hf' & Hd & Hm').
  - done.
  - apply Forall_app. split; [done|]. apply Forall_singleton. done.
  - done.
  - done.
  - destruct (process_data (dec s)) as [d' l]. cbn [fst snd] in Hs'. exists s', em'. done.
Qed.

(** ** Uniqueness of the encoding *)

Lemma parse_encode mtu p rest :
  mtu <= PACKETPROTO_MAXPAYLOAD -> zlen p <= mtu -> parse_one mtu (encode p ++ rest) = Packet p rest.
Proof.
  unfold PACKETPROTO_MAXPAYLOAD, UINT16_MAX. intros Hm Hp. pose proof (zlen_nonneg p).
  unfold encode, store_le16. cbn [le_store app parse_one]. rewrite !b2z_z2b. unfold u8.
  change (2 ^ 8) with 256. rewrite (Z.mod_small (zlen p / 256)) by (Z.div_mod_to_equations; lia).
  pose proof (Z.div_mod (zlen p) 256 ltac:(lia)).
  replace (zlen p mod 256 + 256 * (zlen p / 256)) with (zlen p) by lia.
  destruct (Z.ltb_spec mtu (zlen p)); [lia|]. rewrite zlen_app. pose proof (zlen_nonneg rest).
  destruct (Z.ltb_spec (zlen p + zlen rest) (zlen p)); [lia|].
  unfold zlen. rewrite Nat2Z.id, take_app_length, drop_app_length. done.
Qed.

(** Bytes that follow do not change a verdict. *)
Lemma parse_app mtu l more :
  match parse_one mtu l with
  | Incomplete => True
  | TooLarge => parse_one mtu (l ++ more) = TooLarge
  | Packet p rest => parse_one mtu (l ++ more) = Packet p (rest ++ more)
  end.
Proof.
  destruct l as [|a [|b l]]; cbn [parse_one app]; [done|done|].
  destruct (Z.ltb_spec mtu (b2z a + 256 * b2z b)); [done|].
  destruct (Z.ltb_spec (zlen l) (b2z a + 256 * b2z b)) as [|Hl]; [done|].
  rewrite zlen_app. pose proof (zlen_nonneg more).
  destruct (Z.ltb_spec (zlen l + zlen more) (b2z a + 256 * b2z b)); [lia|].
  unfold zlen in Hl. rewrite take_app_le, drop_app_le by lia. done.
Qed.

Lemma encode_all_prefix mtu em ps rest more :
  mtu <= PACKETPROTO_MAXPAYLOAD ->
  Forall (fun p => zlen p <= mtu) em -> Forall (fun p => zlen p <= mtu) ps ->
  encode_all em ++ rest ++ more = encode_all ps ->
  exists ps', ps = em ++ ps' /\ rest ++ more = encode_all ps'.
Proof.
  intros Hm Hem. revert ps. induction Hem as [|e em He Hem IH]; intros ps Hps Heq; [eauto|].
  destruct ps as [|p ps].
  { exfalso. apply (f_equal length) in Heq. unfold encode_all in Heq. cbn in Heq. done. }
  apply Forall_cons_1 in Hps as [Hp Hps]. unfold encode_all in Heq. cbn [map concat] in Heq.
  rewrite <- !app_assoc in Heq.
  pose proof (f_equal (parse_one mtu) Heq) as Hpo. rewrite !parse_encode in Hpo by done.
  injection Hpo as -> Hrest. destruct (IH ps Hps Hrest) as (ps' & -> & Hr). exists ps'. done.
Qed.

(** ** Runs *)

Section runs.
Context (alloc : Z -> option (list byte)) (mtu : Z).
Context (alloc_size : forall n m, alloc n = Some m -> zlen m = 1 * n).
Context (mtu_ok : 0 <= mtu).

Lemma start_SInv s : start_sys alloc mtu = Some s ->
  SInv s [] /\ output_mtu (dec s) = Z.min mtu PACKETPROTO_MAXPAYLOAD /\ fed s = [].
Proof.
  unfold start_sys, PacketProtoDecoder_Init, PACKETPROTO_ENCLEN, sizeof_packetproto_header.
  destruct (alloc _) as [m|] eqn:E; [|done]. apply alloc_size in E. cbn [do_actions do_action recving].
  unfold PACKETPROTO_MAXPAYLOAD, UINT16_MAX in *.
  set (om := Z.min mtu (2 ^ 16 - 1)) in *. destruct (Z.ltb_spec 0 (2 + om)); [|lia].
  intros [= <-]. split; [|done]. split; cbn; try done.
  - split; cbn; unfold PACKETPROTO_MAXPAYLOAD, UINT16_MAX; try done; lia.
  - left. cbn. rewrite Z.sub_0_r. done.
Qed.

Lemma run_SInv es s s' em : SInv s em -> run s es = Some s' ->
  exists em', SInv s' em' /\ output_mtu (dec s') = output_mtu (dec s).
Proof.
  revert s em. induction es as [|e es IH]; cbn [run]; intros s em HS; [intros [= <-]; eauto|].
  destruct (sys_step s e) as [s1|] eqn:E; [|done]. intros Hr.
  enough (exists em1, SInv s1 em1 /\ output_mtu (dec s1) = output_mtu (dec s)) as (em1 & HS1 & Hm1).
  { destruct (IH s1 em1 HS1 Hr) as (em' & HS' & Hm'). exists em'. split; [done|]. congruence. }
  destruct e as [data|].
  - destruct (recving s) as [[o n]|] eqn:Er; [|cbn in E; rewrite Er in E; done].
    assert (0 < zlen data <= n) as Hd.
    { cbn [sys_step] in E. rewrite Er in E. destruct (Z.ltb_spec 0 (zlen data)); [|done].
      destruct (Z.leb_spec (zlen data) n); [lia|done]. }
    destruct (SInv_data s em o n data HS Er Hd) as (s2 & em2 & Hs2 & HS2 & _ & Hm2).
    rewrite E in Hs2. injection Hs2 as ->. eauto.
  - assert (is_Some (sending s)) as Hse.
    { cbn [sys_step] in E. destruct (sending s) as [[]|]; [eauto|done]. }
    destruct (SInv_send s em HS Hse) as (s2 & em2 & Hs2 & HS2 & _ & _ & Hm2).
    rewrite E in Hs2. injection Hs2 as ->. eauto.
Qed.

Lemma decoder_prefix es s0 s ps more :
  start_sys alloc mtu = Some s0 -> run s0 es = Some s ->
  Forall (fun p => zlen p <= Z.min mtu PACKETPROTO_MAXPAYLOAD) ps ->
  fed s ++ more = encode_all ps ->
  errors s = 0%nat /\ (exists tail, ps = delivered s ++ tail) /\
  (more = [] -> sending s = None -> delivered s = ps).
Proof.
  intros H0 Hr Hps Hfed. destruct (start_SInv s0 H0) as (HS0 & Hm0 & _).
  destruct (run_SInv es s0 s [] HS0 Hr) as (em & [Hwf Hst Hsm Hf He] & Hm).
  rewrite Hm0 in Hm. rewrite Hm in *. set (om := Z.min mtu PACKETPROTO_MAXPAYLOAD) in *.
  assert (om <= PACKETPROTO_MAXPAYLOAD) as Hom by lia.
  assert (errors s = 0%nat) as Her.
  { destruct (errors s) as [|k] eqn:E; [done|]. exfalso.
    destruct He as (qs & rest & junk & Hq & Hpo & Hqs); [done|].
    rewrite Hq, <- !app_assoc in Hfed.
    destruct (encode_all_prefix om qs ps rest (junk ++ more) Hom Hqs Hps Hfed) as (ps' & -> & Hr').
    apply Forall_app in Hps as [_ Hps']. pose proof (parse_app om rest (junk ++ more)) as Hpa.
    rewrite Hpo, Hr' in Hpa. destruct ps' as [|p ps']; [done|].
    apply Forall_cons_1 in Hps' as [Hp _]. unfold encode_all in Hpa. cbn [map concat] in Hpa.
    rewrite parse_encode in Hpa by done. done. }
  rewrite Hf, <- app_assoc in Hfed by done.
  assert (Forall (fun p => zlen p <= om) em) as Hem.
  { destruct Hst as [(_ & _ & _ & -> & _)|(o & p & _ & _ & -> & _ & Hp)]; [done|].
    apply Forall_app. split; [done|]. apply Forall_singleton. lia. }
  destruct (encode_all_prefix om em ps _ more Hom Hem Hps Hfed) as (ps' & -> & Hr').
  split; [done|]. split.
  - destruct Hst as [(_ & _ & _ & -> & _)|(o & p & _ & _ & -> & _)]; [eauto|].
    exists ([p] ++ ps'). rewrite <- app_assoc. done.
  - intros -> Hse. destruct Hst as [(_ & _ & _ & -> & Hinc)|(o & p & _ & Hse' & _)]; [|congruence].
    rewrite app_nil_r in Hr'. destruct ps' as [|p ps']; [rewrite app_nil_r; done|].
    apply Forall_app in Hps as [_ Hps']. apply Forall_cons_1 in Hps' as [Hp _].
    rewrite Hm in Hinc. rewrite Hr' in Hinc. unfold encode_all in Hinc. cbn [map concat] in Hinc.
    rewrite parse_encode in Hinc by done. done.
Qed.

(** C8: the decoder inverts the encoder under arbitrary fragmentation. However
    the encodings of packets within the MTU are cut into pieces, and whenever
    the consumer takes its time, no error is reported, the packets handed over
    are an initial part of the packets encoded, in order; and once the whole
    stream has arrived and nothing is being sent, all of them have been handed
    over. *)
Theorem decoder_roundtrip es s0 s ps more :
  start_sys alloc mtu = Some s0 -> run s0 es = Some s ->
  Forall (fun p => zlen p <= Z.min mtu PACKETPROTO_MAXPAYLOAD) ps ->
  fed s ++ more = encode_all ps ->
  errors s = 0%nat /\ (exists tail, ps = delivered s ++ tail) /\
  (more = [] -> sending s = None -> delivered s = ps).
Proof.
  apply decoder_prefix.
Qed.

(** The decoder is robust against any byte stream: in every state it reaches,
    each non-empty piece that fits the memory it offered and each report of the
    consumer is processed without breaking an interface contract (it always
    offers room for at least one byte, and sends only packets within the MTU), and
    exactly one of receiving and sending is in progress. *)
Theorem decoder_progress es s0 s :
  start_sys alloc mtu = Some s0 -> run s0 es = Some s ->
  match recving s, sending s with
  | Some (o, n), None => 0 < n /\ 0 <= o /\ o + n <= zlen (buf (dec s)) /\
      forall data, 0 < zlen data <= n -> is_Some (sys_step s (EData data))
  | None, Some (o, n) => 0 <= n <= Z.min mtu PACKETPROTO_MAXPAYLOAD /\ is_Some (sys_step s ESendDone)
  | _, _ => False
  end.
Proof.
  intros H0 Hr. destruct (start_SInv s0 H0) as (HS0 & Hm0 & _).
  destruct (run_SInv es s0 s [] HS0 Hr) as (em & HS & Hm). rewrite Hm0 in Hm.
  pose proof (s_wf _ _ HS) as [? Hsz Hmem ? ? ?].
  destruct (s_status _ _ HS) as [(Hrc & Hn & Hse & _)|(o & p & Hrc & Hse & _ & _ & Hp)].
  - rewrite Hrc, Hse. split_and!; try lia. intros data Hd.
    destruct (SInv_data s em _ _ data HS Hrc Hd) as (s' & _ & -> & _). eauto.
  - rewrite Hrc, Hse. pose proof (zlen_nonneg p). rewrite <- Hm. split; [lia|].
    destruct (SInv_send s em HS ltac:(eauto)) as (s' & _ & -> & _). eauto.
Qed.
End runs.

(** A run on two packets cut in the middle of the second header. *)
Definition example_packets : list (list byte) := [[x61; x62; x63]; []; [x64]].
Definition example_events : list event :=
  [EData [x03; x00; x61; x62; x63]; ESendDone; EData [x00]; EData [x00; x01]; ESendDone;
   EData [x00; x64]; ESendDone].

Lemma decoder_roundtrip_witness :
  exists s0 s, start_sys (zero_alloc 1) 3 = Some s0 /\ run s0 example_events = Some s /\
    delivered s = example_packets.
Proof.
  destruct (start_sys (zero_alloc 1) 3) as [s0|] eqn:E0; [|vm_compute in E0; discriminate E0].
  destruct (run s0 example_events) as [s|] eqn:E1;
    [|vm_compute in E0; injection E0 as <-; vm_compute in E1; discriminate E1].
  exists s0, s. split; [done|]. split; [done|].
  apply (decoder_roundtrip (zero_alloc 1) 3 (zero_alloc_size 1 ltac:(lia)) ltac:(lia) example_events s0 s
    example_packets [] E0 E1); [repeat constructor; vm_compute; discriminate| |done|];
    vm_compute in E0; injection E0 as <-; vm_compute in E1; injection E1 as <-; reflexivity.
Defined.

Lemma decoder_progress_witness :
  exists s0 s, start_sys (zero_alloc 1) 3 = Some s0 /\ run s0 example_events = Some s /\
    match recving s, sending s with
    | Some (o, n), None => 0 < n
    | None, Some (o, n) => 0 <= n
    | _, _ => False
    end.
Proof.
  destruct (start_sys (zero_alloc 1) 3) as [s0|] eqn:E0; [|vm_compute in E0; discriminate E0].
  destruct (run s0 example_events) as [s|] eqn:E1;
    [|vm_compute in E0; injection E0 as <-; vm_compute in E1; discriminate E1].
  exists s0, s. split; [done|]. split; [done|].
  pose proof (decoder_progress (zero_alloc 1) 3 (zero_alloc_size 1 ltac:(lia)) ltac:(lia) example_events s0 s E0 E1) as H.
  destruct (recving s) as [[o n]|], (sending s) as [[o' n']|]; tauto.
Defined.
End Decoder.
