(* ===== verification/Flow.v ===== *)
(** * Interfaces and small stages of the packet path

    - [PacketPassInterface] ([flow/PacketPassInterface.c] and [.h]): the protocol
      between the sender of packets and their receiver, both sides of which run
      in jobs;
    - [PacketStreamSender]: writes packets to a stream that takes them in parts;
    - [PacketPassConnector]: keeps a packet while its output is exchanged;
    - [PacketPassInactivityMonitor]: passes packets on and watches for idleness;
    - [SinglePacketBuffer] and [BufferWriter].

    Interface calls only schedule jobs, so a handler is a function from the state
    to the new state and the calls it makes. *)

From Stdlib Require Import ZArith Lia.
From S2P Require Import Prelude ByteOrder.

(** ** PacketPassInterface *)
Module PacketPassInterface.

Inductive ppi_state :=
| PPI_STATE_NONE | PPI_STATE_OPERATION_PENDING | PPI_STATE_BUSY | PPI_STATE_DONE_PENDING.

Definition state_is (a b : ppi_state) : bool :=
  match a, b with
  | PPI_STATE_NONE, PPI_STATE_NONE
  | PPI_STATE_OPERATION_PENDING, PPI_STATE_OPERATION_PENDING
  | PPI_STATE_BUSY, PPI_STATE_BUSY
  | PPI_STATE_DONE_PENDING, PPI_STATE_DONE_PENDING => true
  | _, _ => false
  end.

Lemma state_is_true a b : state_is a b = true <-> b = a.
Proof. destruct a, b; cbn; split; intros; congruence. Qed.

(** A packet is the memory it is in, by name, and its length. *)
Record PacketPassInterface := PPI {
  mtu : Z; has_cancel : bool;
  job_operation : bool; job_operation_data : Z; job_operation_len : Z;
  job_requestcancel : bool; job_done : bool;
  state : ppi_state; cancel_requested : bool
}.

Definition PacketPassInterface_Init (m : Z) : PacketPassInterface :=
  PPI m false false 0 0 false false PPI_STATE_NONE false.

Definition PacketPassInterface_EnableCancel (i : PacketPassInterface) : PacketPassInterface :=
  PPI (mtu i) true (job_operation i) (job_operation_data i) (job_operation_len i)
      (job_requestcancel i) (job_done i) (state i) (cancel_requested i).

Definition PacketPassInterface_Done (i : PacketPassInterface) : PacketPassInterface :=
  PPI (mtu i) (has_cancel i) (job_operation i) (job_operation_data i) (job_operation_len i)
      false true PPI_STATE_DONE_PENDING (cancel_requested i).

Definition PacketPassInterface_Sender_Send (i : PacketPassInterface) (data data_len : Z)
    : PacketPassInterface :=
  PPI (mtu i) (has_cancel i) true data data_len
      (job_requestcancel i) (job_done i) PPI_STATE_OPERATION_PENDING false.

Definition PacketPassInterface_Sender_RequestCancel (i : PacketPassInterface) : PacketPassInterface :=
  if cancel_requested i then i else
  match state i with
  | PPI_STATE_OPERATION_PENDING =>
      PPI (mtu i) (has_cancel i) false (job_operation_data i) (job_operation_len i)
          (job_requestcancel i) true PPI_STATE_DONE_PENDING true
  | PPI_STATE_BUSY =>
      PPI (mtu i) (has_cancel i) (job_operation i) (job_operation_data i) (job_operation_len i)
          true (job_done i) (state i) true
  | _ =>
      PPI (mtu i) (has_cancel i) (job_operation i) (job_operation_data i) (job_operation_len i)
          (job_requestcancel i) (job_done i) (state i) true
  end.

(** The callbacks the jobs make. *)
Inductive callback := Handler_Operation (data len : Z) | Handler_RequestCancel | Handler_Done.

(** The jobs; the job queue marks a job as not set before it runs. *)
Definition PacketPassInterface_job_operation (i : PacketPassInterface)
    : PacketPassInterface * callback :=
  (PPI (mtu i) (has_cancel i) false (job_operation_data i) (job_operation_len i)
       (job_requestcancel i) (job_done i) PPI_STATE_BUSY (cancel_requested i),
   Handler_Operation (job_operation_data i) (job_operation_len i)).

Definition PacketPassInterface_job_requestcancel (i : PacketPassInterface)
    : PacketPassInterface * callback :=
  (PPI (mtu i) (has_cancel i) (job_operation i) (job_operation_data i) (job_operation_len i)
       false (job_done i) (state i) (cancel_requested i),
   Handler_RequestCancel).

Definition PacketPassInterface_job_done (i : PacketPassInterface) : PacketPassInterface * callback :=
  (PPI (mtu i) (has_cancel i) (job_operation i) (job_operation_data i) (job_operation_len i)
       (job_requestcancel i) false PPI_STATE_NONE (cancel_requested i),
   Handler_Done).

(** ** Protocol

    What the two sides may do and in which order the jobs may run: any pending
    job may be the next one. The history counts the sends, the operations started
    on the provider, the cancel requests it was asked, and the completions. *)
Record history := Hist { sends : Z; operations : Z; cancels : Z; dones : Z }.

Inductive step : PacketPassInterface * history -> PacketPassInterface * history -> Prop :=
| step_send i h d n :
    state i = PPI_STATE_NONE -> 0 <= n <= mtu i ->
    step (i, h) (PacketPassInterface_Sender_Send i d n,
                 Hist (sends h + 1) (operations h) (cancels h) (dones h))
| step_cancel i h :
    state i <> PPI_STATE_NONE -> has_cancel i = true ->
    step (i, h) (PacketPassInterface_Sender_RequestCancel i, h)
| step_provider_done i h :
    state i = PPI_STATE_BUSY ->
    step (i, h) (PacketPassInterface_Done i, h)
| step_job_operation i h :
    job_operation i = true ->
    step (i, h) (fst (PacketPassInterface_job_operation i),
                 Hist (sends h) (operations h + 1) (cancels h) (dones h))
| step_job_requestcancel i h :
    job_requestcancel i = true ->
    step (i, h) (fst (PacketPassInterface_job_requestcancel i),
                 Hist (sends h) (operations h) (cancels h + 1) (dones h))
| step_job_done i h :
    job_done i = true ->
    step (i, h) (fst (PacketPassInterface_job_done i),
                 Hist (sends h) (operations h) (cancels h) (dones h + 1)).

(** The jobs pending are those of the state, and a cancel request reaches the
    provider only while it is busy. *)
Definition inv (c : PacketPassInterface * history) : Prop :=
  let '(i, h) := c in
  job_operation i = state_is PPI_STATE_OPERATION_PENDING (state i) /\
  job_done i = state_is PPI_STATE_DONE_PENDING (state i) /\
  (job_requestcancel i = true ->
     state i = PPI_STATE_BUSY /\ cancel_requested i = true /\ has_cancel i = true) /\
  sends h = dones h + (if state_is PPI_STATE_NONE (state i) then 0 else 1) /\
  operations h <= dones h + (if state_is PPI_STATE_NONE (state i) then 0 else 1)
                 - (if state_is PPI_STATE_OPERATION_PENDING (state i) then 1 else 0) /\
  cancels h <= operations h - (if state_is PPI_STATE_BUSY (state i) then 1 else 0)
               + (if state_is PPI_STATE_BUSY (state i) && cancel_requested i
                     && negb (job_requestcancel i) then 1 else 0).

Lemma ppi_inv_step c c' : inv c -> step c c' -> inv c'.
Proof.
  intros Hi Hs. destruct Hs as [i h d n Hst Hn|i h Hst Hc|i h Hst|i h Hj|i h Hj|i h Hj];
    destruct i as [m hc jo d0 l0 jr jd st cr], h as [s o c0 dn]; cbn in *;
    destruct Hi as (H1 & H2 & H3 & H4 & H5 & H6); subst; cbn in *;
    try (destruct st; cbn in *; try discriminate; try (exfalso; done));
    try (destruct jr; [destruct (H3 eq_refl) as (? & ? & ?); try discriminate; subst|]);
    try (destruct cr); cbn in *; try lia; split_and!; cbn; try done; try lia; try (intros; split_and!; done);
    destruct (H3 eq_refl) as (? & ? & ?); discriminate.
Qed.

Definition start (m : Z) (cancel : bool) : PacketPassInterface * history :=
  (if cancel then PacketPassInterface_EnableCancel (PacketPassInterface_Init m)
   else PacketPassInterface_Init m, Hist 0 0 0 0).

Lemma ppi_inv_start m c : inv (start m c).
Proof. destruct c; cbn; split_and!; try done; lia. Qed.

Lemma ppi_inv_rtc m c x : rtc step (start m c) x -> inv x.
Proof.
  intros Hr. remember (start m c) as s0 eqn:E.
  assert (inv s0) as Hi by (subst; apply ppi_inv_start). clear E.
  induction Hr as [|y z w Hyz Hzw IH]; [done|]. apply IH. eapply ppi_inv_step; done.
Qed.

(** The protocol of a packet interface, whatever the order of jobs. Every
    send is completed exactly once before the next one; the provider is started
    at most once for it, and not at all if the sender cancels before the job
    runs; a cancel request is made only to a busy provider, at most once for each
    operation; and no job runs in a state it does not expect. *)
Theorem interface_protocol m c i h :
  rtc step (start m c) (i, h) ->
  sends h = dones h + (if state_is PPI_STATE_NONE (state i) then 0 else 1) /\
  operations h <= sends h /\ cancels h <= operations h /\
  (job_operation i = true <-> state i = PPI_STATE_OPERATION_PENDING) /\
  (job_done i = true <-> state i = PPI_STATE_DONE_PENDING) /\
  (job_requestcancel i = true -> state i = PPI_STATE_BUSY /\ cancel_requested i = true).
Proof.
  intros Hr. pose proof (ppi_inv_rtc m c _ Hr) as (H1 & H2 & H3 & H4 & H5 & H6).
  split; [done|]. rewrite H1, H2, !state_is_true.
  split_and!; try done; try tauto.
  - destruct (state i); cbn in *; lia.
  - destruct (state i); cbn in *; try lia. destruct (cancel_requested i), (job_requestcancel i); cbn in *; lia.
Qed.

Lemma interface_protocol_witness :
  exists i h, rtc step (start 10 true) (i, h) /\ sends h = 2 /\ dones h = 1 /\ operations h <= sends h.
Proof.
  assert (exists x, rtc step (start 10 true) x /\ sends (snd x) = 2 /\ dones (snd x) = 1)
    as ([i h] & P & H1 & H2).
  { eexists. split.
    - eapply rtc_l; [apply (step_send _ _ 7 3); [done|cbn; lia]|].
      eapply rtc_l; [apply step_cancel; done|].
      eapply rtc_l; [apply step_job_done; done|].
      eapply rtc_l; [apply (step_send _ _ 8 5); [done|cbn; lia]|].
      eapply rtc_l; [apply step_job_operation; done|].
      eapply rtc_l; [apply step_cancel; done|]. apply rtc_refl.
    - split; reflexivity. }
  exists i, h. split; [exact P|]. split; [exact H1|]. split; [exact H2|].
  apply (interface_protocol 10 true i h P).
Defined.
End PacketPassInterface.

(** ** PacketStreamSender *)
Module PacketStreamSender.

(** [in_packet] is the packet [in] points to, of [in_len] bytes. *)
Record PacketStreamSender := PSS { in_len : Z; in_packet : list byte; in_used : Z }.

Inductive action := Stream_Send (off len : Z) | Input_Done.

Definition send_data (s : PacketStreamSender) : PacketStreamSender * list action :=
  if in_used s <? in_len s
  then (s, [Stream_Send (in_used s) (in_len s - in_used s)])
  else (PSS (-1) (in_packet s) (in_used s), [Input_Done]).

Definition input_handler_send (s : PacketStreamSender) (data : list byte) (data_len : Z)
    : PacketStreamSender * list action :=
  send_data (PSS data_len data 0).

Definition output_handler_done (s : PacketStreamSender) (data_len : Z)
    : PacketStreamSender * list action :=
  send_data (PSS (in_len s) (in_packet s) (in_used s + data_len)).

Definition PacketStreamSender_Init : PacketStreamSender := PSS (-1) [] 0.

(** *** Between a packet source and a stream that takes what it can *)
Record sys := Sys {
  pss : PacketStreamSender;
  stream_op : option (Z * Z);   (** offset and length given to the stream *)
  busy : bool;                  (** the source waits for its packet *)
  accepted : list (list byte);  (** history: packets of the source *)
  stream : list byte            (** history: bytes the stream took *)
}.

Definition do_action (a : action) (s : sys) : option sys :=
  match a with
  | Stream_Send o n =>
      match stream_op s with
      | None => if 0 <? n then Some (Sys (pss s) (Some (o, n)) (busy s) (accepted s) (stream s)) else None
      | Some _ => None
      end
  | Input_Done =>
      if busy s then Some (Sys (pss s) (stream_op s) false (accepted s) (stream s)) else None
  end.

Fixpoint do_actions (l : list action) (s : sys) : option sys :=
  match l with
  | [] => Some s
  | a :: l' => match do_action a s with Some s' => do_actions l' s' | None => None end
  end.

Inductive event := EPacket (p : list byte) | EWrote (n : Z).

Definition sys_step (s : sys) (e : event) : option sys :=
  match e with
  | EPacket p =>
      if busy s then None else
      let '(q, l) := input_handler_send (pss s) p (zlen p) in
      do_actions l (Sys q (stream_op s) true (accepted s ++ [p]) (stream s))
  | EWrote n =>
      match stream_op s with
      | Some (o, m) =>
          if (0 <? n) && (n <=? m) then
            let '(q, l) := output_handler_done (pss s) n in
            do_actions l (Sys q None (busy s) (accepted s) (stream s ++ slice o n (in_packet (pss s))))
          else None
      | None => None
      end
  end.

Fixpoint run (s : sys) (es : list event) : option sys :=
  match es with
  | [] => Some s
  | e :: es' => match sys_step s e with Some s' => run s' es' | None => None end
  end.

Definition start : sys := Sys PacketStreamSender_Init None false [] [].

(** Either idle with everything written, or writing the rest of the last packet. *)
Definition inv (s : sys) : Prop :=
  (busy s = false /\ stream_op s = None /\ stream s = concat (accepted s)) \/
  (exists ps, busy s = true /\ accepted s = ps ++ [in_packet (pss s)] /\
     in_len (pss s) = zlen (in_packet (pss s)) /\
     0 <= in_used (pss s) < in_len (pss s) /\
     stream_op s = Some (in_used (pss s), in_len (pss s) - in_used (pss s)) /\
     stream s = concat ps ++ slice 0 (in_used (pss s)) (in_packet (pss s))).

Lemma concat_snoc {A} (ls : list (list A)) l : concat (ls ++ [l]) = concat ls ++ l.
Proof. rewrite concat_app. cbn. rewrite app_nil_r. done. Qed.

(** [send_data] on a packet of which [u] bytes are written. *)
Lemma send_data_inv ps p u st :
  0 <= u <= zlen p -> st = concat ps ++ slice 0 u p ->
  exists s', do_actions (snd (send_data (PSS (zlen p) p u)))
      (Sys (fst (send_data (PSS (zlen p) p u))) None true (ps ++ [p]) st) = Some s' /\ inv s' /\
    accepted s' = ps ++ [p] /\ stream s' = st.
Proof.
  intros Hu ->. unfold send_data. cbn [in_used in_len].
  destruct (Z.ltb_spec u (zlen p)); cbn [fst snd do_actions do_action stream_op busy].
  - destruct (Z.ltb_spec 0 (zlen p - u)); [|lia]. eexists. split; [done|]. split; [|done].
    right. exists ps. cbn. split_and!; try done; lia.
  - eexists. split; [done|]. split; [|done]. left. cbn. split_and!; try done.
    rewrite concat_snoc. replace u with (zlen p) by lia. rewrite slice_all. done.
Qed.

Lemma pss_inv_step s e s' : inv s -> sys_step s e = Some s' -> inv s'.
Proof.
  intros [(Hb & Ho & Hst)|(ps & Hb & Ha & Hl & Hu & Ho & Hst)] Hs; destruct e as [p|n];
    cbn [sys_step] in Hs; rewrite ?Hb, ?Ho in Hs; try done.
  - unfold input_handler_send in Hs.
    destruct (send_data_inv (accepted s) p 0 (stream s)) as (s1 & Hs1 & Hi & _);
      [pose proof (zlen_nonneg p); lia|rewrite slice_nil, app_nil_r; done|].
    destruct (send_data (PSS (zlen p) p 0)). cbn [fst snd] in Hs1. congruence.
  - destruct (Z.ltb_spec 0 n); [|done].
    destruct (Z.leb_spec n (in_len (pss s) - in_used (pss s))); [|done]. cbn [andb] in Hs.
    unfold output_handler_done in Hs. rewrite Hl, Ha in Hs.
    destruct (send_data_inv ps (in_packet (pss s)) (in_used (pss s) + n)
      (stream s ++ slice (in_used (pss s)) n (in_packet (pss s)))) as (s1 & Hs1 & Hi & _).
    + lia.
    + rewrite Hst, <- app_assoc. f_equal. rewrite <- (slice_app_join 0) by lia. done.
    + destruct (send_data _). cbn [fst snd] in Hs1. congruence.
Qed.

Lemma pss_inv_run es s s' : inv s -> run s es = Some s' -> inv s'.
Proof.
  revert s. induction es as [|e es IH]; cbn [run]; intros s Hi; [by intros [= <-]|].
  destruct (sys_step s e) as [s1|] eqn:E; [|done]. intros Hr. eapply IH; [|done].
  eapply pss_inv_step; done.
Qed.

Lemma stream_prefix es s :
  run start es = Some s ->
  exists r, stream s ++ r = concat (accepted s) /\ (busy s = false -> r = []).
Proof.
  intros Hr. assert (inv s) as Hi by (eapply pss_inv_run; [|done]; left; done).
  destruct Hi as [(Hb & _ & Hst)|(ps & Hb & Ha & Hl & Hu & Ho & Hst)].
  - exists []. rewrite app_nil_r. done.
  - exists (slice (in_used (pss s)) (in_len (pss s) - in_used (pss s)) (in_packet (pss s))).
    split; [|congruence]. rewrite Hst, Ha, concat_snoc, <- app_assoc. f_equal.
    rewrite <- (slice_app_join 0) by lia.
    replace (in_used (pss s) + _) with (in_len (pss s)) by lia. rewrite Hl. apply slice_all.
Qed.

(** The stream sender writes its packets to the stream back to back and
    completely, however few bytes the stream takes at a time: the bytes written
    are the packets accepted less the rest of the last one, which is what the
    stream is being offered; the source is told of completion exactly when its
    packet is fully written, and any report of the stream is processed. *)
Theorem stream_sender_exact es s :
  run start es = Some s ->
  match stream_op s with
  | None => busy s = false /\ stream s = concat (accepted s)
  | Some (o, n) =>
      busy s = true /\ 0 < n /\
      stream s ++ slice o n (in_packet (pss s)) = concat (accepted s) /\
      (forall k, 0 < k <= n -> is_Some (sys_step s (EWrote k)))
  end.
Proof.
  intros Hr. assert (inv s) as Hi by (eapply pss_inv_run; [|done]; left; done).
  destruct Hi as [(Hb & Ho & Hst)|(ps & Hb & Ha & Hl & Hu & Ho & Hst)]; rewrite Ho; [done|].
  split; [done|]. split; [lia|]. split.
  - rewrite Hst, Ha, concat_snoc, <- app_assoc. f_equal.
    rewrite <- (slice_app_join 0) by lia. replace (in_used (pss s) + _) with (in_len (pss s)) by lia.
    rewrite Hl. apply slice_all.
  - intros k Hk. cbn [sys_step]. rewrite Ho.
    destruct (Z.ltb_spec 0 k); [|lia].
    destruct (Z.leb_spec k (in_len (pss s) - in_used (pss s))); [|lia]. cbn [andb].
    unfold output_handler_done. rewrite Hl, Ha, Hb.
    destruct (send_data_inv ps (in_packet (pss s)) (in_used (pss s) + k)
      (stream s ++ slice (in_used (pss s)) k (in_packet (pss s)))) as (s1 & Hs1 & _).
    + lia.
    + rewrite Hst, <- app_assoc. f_equal. rewrite <- (slice_app_join 0) by lia. done.
    + destruct (send_data _). cbn [fst snd] in Hs1. eauto.
Qed.

Lemma stream_sender_exact_witness :
  exists s, run start [EPacket [x61; x62; x63]; EWrote 2; EWrote 1; EPacket []; EPacket [x64]; EWrote 1]
    = Some s /\ stream s = [x61; x62; x63; x64].
Proof.
  destruct (run start _) as [s|] eqn:E; [|vm_compute in E; discriminate E].
  exists s. split; [reflexivity|]. pose proof (stream_sender_exact _ s E) as H.
  vm_compute in E. injection E as <-. cbn in H. apply H.
Defined.
End PacketStreamSender.

(** ** PacketPassConnector *)
Module PacketPassConnector.

(** The output is a name for the interface connected; [in_packet] the packet the
    input waits for. *)
Record PacketPassConnector := PPC { in_len : Z; in_packet : list byte; output : option nat }.

Inductive action := Output_Send (o : nat) (p : list byte) (len : Z) | Input_Done.

Definition input_handler_send (c : PacketPassConnector) (data : list byte) (data_len : Z)
    : PacketPassConnector * list action :=
  (PPC data_len data (output c),
   match output c with Some o => [Output_Send o data data_len] | None => [] end).

Definition output_handler_done (c : PacketPassConnector) : PacketPassConnector * list action :=
  (PPC (-1) (in_packet c) (output c), [Input_Done]).

Definition PacketPassConnector_Init : PacketPassConnector := PPC (-1) [] None.

Definition PacketPassConnector_ConnectOutput (c : PacketPassConnector) (o : nat)
    : PacketPassConnector * list action :=
  (PPC (in_len c) (in_packet c) (Some o),
   if 0 <=? in_len c then [Output_Send o (in_packet c) (in_len c)] else []).

Definition PacketPassConnector_DisconnectOutput (c : PacketPassConnector) : PacketPassConnector :=
  PPC (in_len c) (in_packet c) None.

(** *** Between a source and outputs that come and go

    A disconnected output drops what it was sending, as the code that frees it
    does. *)
Record sys := Sys {
  ppc : PacketPassConnector;
  sending : option (nat * list byte);   (** the output's operation in progress *)
  waiting : bool;                       (** the source waits for its packet *)
  accepted : list (list byte);          (** history: packets of the source *)
  forwarded : list (list byte)          (** history: packets an output completed *)
}.

Definition do_action (a : action) (s : sys) : option sys :=
  match a with
  | Output_Send o p n =>
      match sending s with
      | None => if bool_decide (output (ppc s) = Some o) && (n =? zlen p)
                then Some (Sys (ppc s) (Some (o, p)) (waiting s) (accepted s) (forwarded s)) else None
      | Some _ => None
      end
  | Input_Done =>
      if waiting s then Some (Sys (ppc s) (sending s) false (accepted s) (forwarded s)) else None
  end.

Fixpoint do_actions (l : list action) (s : sys) : option sys :=
  match l with
  | [] => Some s
  | a :: l' => match do_action a s with Some s' => do_actions l' s' | None => None end
  end.

Inductive event := EPacket (p : list byte) | EOutputDone | EConnect (o : nat) | EDisconnect.

Definition sys_step (s : sys) (e : event) : option sys :=
  match e with
  | EPacket p =>
      if waiting s then None else
      let '(c, l) := input_handler_send (ppc s) p (zlen p) in
      do_actions l (Sys c (sending s) true (accepted s ++ [p]) (forwarded s))
  | EOutputDone =>
      match sending s with
      | Some (o, p) =>
          let '(c, l) := output_handler_done (ppc s) in
          do_actions l (Sys c None (waiting s) (accepted s) (forwarded s ++ [p]))
      | None => None
      end
  | EConnect o =>
      match output (ppc s) with
      | Some _ => None
      | None =>
          let '(c, l) := PacketPassConnector_ConnectOutput (ppc s) o in
          do_actions l (Sys c (sending s) (waiting s) (accepted s) (forwarded s))
      end
  | EDisconnect =>
      match output (ppc s) with
      | None => None
      | Some _ => Some (Sys (PacketPassConnector_DisconnectOutput (ppc s)) None (waiting s)
                            (accepted s) (forwarded s))
      end
  end.

Fixpoint run (s : sys) (es : list event) : option sys :=
  match es with
  | [] => Some s
  | e :: es' => match sys_step s e with Some s' => run s' es' | None => None end
  end.

Definition start : sys := Sys PacketPassConnector_Init None false [] [].

Definition inv (s : sys) : Prop :=
  (waiting s = false /\ in_len (ppc s) = -1 /\ sending s = None /\ forwarded s = accepted s) \/
  (waiting s = true /\ in_len (ppc s) = zlen (in_packet (ppc s)) /\
   accepted s = forwarded s ++ [in_packet (ppc s)] /\
   sending s = match output (ppc s) with Some o => Some (o, in_packet (ppc s)) | None => None end).

(** The events that can happen. *)
Definition enabled (s : sys) (e : event) : Prop :=
  match e with
  | EPacket _ => waiting s = false
  | EOutputDone => is_Some (sending s)
  | EConnect _ => output (ppc s) = None
  | EDisconnect => is_Some (output (ppc s))
  end.

Lemma ppc_step_idle c ac e :
  in_len c = -1 -> enabled (Sys c None false ac ac) e ->
  exists s', sys_step (Sys c None false ac ac) e = Some s' /\ inv s'.
Proof.
  destruct c as [il ip out]. cbn [in_len]. intros -> He.
  destruct e as [p| |o|]; cbn in He.
  - cbn. destruct out as [o|]; cbn.
    + rewrite bool_decide_true, Z.eqb_refl by done. cbn. eexists. split; [done|]. right. done.
    + eexists. split; [done|]. right. done.
  - by destruct He.
  - cbn. rewrite He. eexists. split; [done|]. left. done.
  - destruct He as [o Ho]. cbn. rewrite Ho. eexists. split; [done|]. left. done.
Qed.

Lemma ppc_step_waiting p out fo e :
  let se := match out with Some o => Some (o, p) | None => None end in
  let s := Sys (PPC (zlen p) p out) se true (fo ++ [p]) fo in
  enabled s e -> exists s', sys_step s e = Some s' /\ inv s'.
Proof.
  cbv zeta. intros He. pose proof (zlen_nonneg p).
  destruct e as [q| |o|]; cbn in He; [done| | |].
  - destruct out as [o|]; [|by destruct He]. cbn. eexists. split; [done|]. left. done.
  - rewrite He. cbn. destruct (Z.leb_spec 0 (zlen p)); [|lia]. cbn.
    rewrite bool_decide_true, Z.eqb_refl by done. cbn. eexists. split; [done|]. right. done.
  - destruct He as [o ->]. cbn. eexists. split; [done|]. right. done.
Qed.

Lemma ppc_inv_step s e : inv s -> enabled s e -> exists s', sys_step s e = Some s' /\ inv s'.
Proof.
  destruct s as [c se w ac fo].
  intros [(Hw & Hl & Hs & Hf)|(Hw & Hl & Ha & Hs)] He; cbn in *; subst.
  - apply ppc_step_idle; done.
  - destruct c as [il ip out]. cbn in *. subst. apply ppc_step_waiting. done.
Qed.

Lemma ppc_enabled s e s' : sys_step s e = Some s' -> enabled s e.
Proof.
  destruct e; cbn; repeat case_match; intros Heq; try done; try discriminate Heq; eauto.
Qed.

Lemma ppc_inv_run es s s' : inv s -> run s es = Some s' -> inv s'.
Proof.
  revert s. induction es as [|e es IH]; cbn [run]; intros s Hi; [by intros [= <-]|].
  destruct (sys_step s e) as [s1|] eqn:E; [|done]. intros Hr. eapply IH; [|done].
  destruct (ppc_inv_step s e Hi (ppc_enabled s e s1 E)) as (s2 & Hs2 & Hi2). congruence.
Qed.

(** The connector loses nothing when its output is exchanged. Whatever the
    order of packets, completions, connections and disconnections: the packets
    completed by some output are those of the source in order, all but the one
    the source is waiting for; while an output is connected that packet is being
    sent to it, also after a reconnection; and every event that can happen is
    processed without breaking a contract. *)
Theorem connector_lossless es s :
  run start es = Some s ->
  (if waiting s then exists p, accepted s = forwarded s ++ [p] /\
     sending s = match output (ppc s) with Some o => Some (o, p) | None => None end
   else accepted s = forwarded s /\ sending s = None) /\
  (forall e, enabled s e -> is_Some (sys_step s e)).
Proof.
  intros Hr. assert (inv s) as Hi by (eapply ppc_inv_run; [|done]; left; done). split.
  - destruct Hi as [(-> & _ & -> & ->)|(-> & _ & Ha & Hs)]; [done|]. eauto.
  - intros e He. destruct (ppc_inv_step s e Hi He) as (s' & -> & _). eauto.
Qed.

Lemma connector_lossless_witness :
  exists s, run start [EConnect 1%nat; EPacket [x61]; EDisconnect; EConnect 2%nat] = Some s /\
    sending s = Some (2%nat, [x61]) /\ is_Some (sys_step s EOutputDone).
Proof.
  destruct (run start _) as [s|] eqn:E; [|vm_compute in E; discriminate E].
  exists s. split; [reflexivity|]. split; [vm_compute in E; injection E as <-; reflexivity|].
  apply (connector_lossless _ s E). vm_compute in E. injection E as <-. eexists. reflexivity.
Defined.
End PacketPassConnector.

(** ** PacketPassInactivityMonitor *)
Module PacketPassInactivityMonitor.

(** The timer is the time it expires at, if it runs; [interval] its period. *)
Record PacketPassInactivityMonitor := PPIM {
  interval : Z; timer : option Z; handler : option Z; output_has_cancel : bool
}.

Inductive action := Output_Send (data len : Z) | Output_RequestCancel | Input_Done | Call (h : Z).

Definition BReactor_SetTimer (now : Z) (o : PacketPassInactivityMonitor) : PacketPassInactivityMonitor :=
  PPIM (interval o) (Some (now + interval o)) (handler o) (output_has_cancel o).
Definition BReactor_SetTimerAfter (now after : Z) (o : PacketPassInactivityMonitor)
    : PacketPassInactivityMonitor :=
  PPIM (interval o) (Some (now + after)) (handler o) (output_has_cancel o).
Definition BReactor_RemoveTimer (o : PacketPassInactivityMonitor) : PacketPassInactivityMonitor :=
  PPIM (interval o) None (handler o) (output_has_cancel o).

Definition input_handler_send (o : PacketPassInactivityMonitor) (data len : Z)
    : PacketPassInactivityMonitor * list action :=
  (BReactor_RemoveTimer o, [Output_Send data len]).

Definition input_handler_requestcancel (o : PacketPassInactivityMonitor)
    : PacketPassInactivityMonitor * list action := (o, [Output_RequestCancel]).

Definition output_handler_done (now : Z) (o : PacketPassInactivityMonitor)
    : PacketPassInactivityMonitor * list action := (BReactor_SetTimer now o, [Input_Done]).

(** The reactor takes the timer off before it calls the handler. *)
Definition timer_handler (now : Z) (o : PacketPassInactivityMonitor)
    : PacketPassInactivityMonitor * list action :=
  (BReactor_SetTimer now o, match handler o with Some h => [Call h] | None => [] end).

Definition PacketPassInactivityMonitor_Init (now intv : Z) (h : option Z) (cancel : bool)
    : PacketPassInactivityMonitor :=
  BReactor_SetTimer now (PPIM intv None h cancel).

Definition PacketPassInactivityMonitor_SetHandler (o : PacketPassInactivityMonitor) (h : option Z)
    : PacketPassInactivityMonitor := PPIM (interval o) (timer o) h (output_has_cancel o).

Definition PacketPassInactivityMonitor_Force (now : Z) (o : PacketPassInactivityMonitor)
    : PacketPassInactivityMonitor := BReactor_SetTimerAfter now 0 o.

(** *** In time

    [quiet] is the last time something happened: initialisation, a completion, a
    call of the handler; [forced] whether the owner asked for a call since. *)
Record sys := Sys {
  now : Z; mon : PacketPassInactivityMonitor; sending : bool; quiet : Z; forced : bool
}.

Inductive step : sys -> option Z -> sys -> Prop :=
| step_time s t : now s <= t ->
    step s None (Sys t (mon s) (sending s) (quiet s) (forced s))
| step_send s d n : sending s = false ->
    step s None (Sys (now s) (fst (input_handler_send (mon s) d n)) true (quiet s) false)
| step_done s : sending s = true ->
    step s None (Sys (now s) (fst (output_handler_done (now s) (mon s))) false (now s) false)
| step_force s :
    step s None (Sys (now s) (PacketPassInactivityMonitor_Force (now s) (mon s)) (sending s) (quiet s) true)
| step_set_handler s h :
    step s None (Sys (now s) (PacketPassInactivityMonitor_SetHandler (mon s) h) (sending s) (quiet s) (forced s))
| step_timer s t : timer (mon s) = Some t -> t <= now s ->
    step s (Some (now s)) (Sys (now s) (fst (timer_handler (now s) (mon s))) (sending s) (now s)
      (forced s && sending s)).

Definition inv (s : sys) : Prop :=
  quiet s <= now s /\
  (forced s = false ->
     if sending s then timer (mon s) = None
     else timer (mon s) = Some (quiet s + interval (mon s))).

Lemma monitor_inv_step s o s' : inv s -> step s o s' -> inv s'.
Proof.
  intros [Hq Hi] Hs. destruct Hs; unfold inv; cbn in *; split; try lia; try done; intros Hf; auto.
  - destruct (sending s); [|done]. rewrite andb_true_r in Hf. rewrite (Hi Hf) in *. done.
Qed.

(** The inactivity timer expires only if nothing was sent for the whole
    interval: unless the owner forced it, when it expires no packet is being sent
    and the last completion, expiry or initialisation is at least the interval
    ago; and it is stopped exactly while a packet is being sent. *)
Theorem monitor_fires_when_idle t0 intv h c s s' t :
  rtc (fun a b => exists o, step a o b)
    (Sys t0 (PacketPassInactivityMonitor_Init t0 intv h c) false t0 false) s ->
  step s (Some t) s' -> forced s = false ->
  sending s = false /\ quiet s + interval (mon s) <= t.
Proof.
  intros Hr Hs Hf. remember (Sys t0 _ false t0 false) as s0 eqn:E.
  assert (inv s0) as H0 by (subst; split; cbn; [lia|done]). clear E.
  assert (inv s) as [_ Hi].
  { induction Hr as [|x y z [o Hxy] _ IH]; [done|]. apply IH; auto. eapply monitor_inv_step; done. }
  specialize (Hi Hf). inversion Hs; subst. destruct (sending s); [congruence|]. split; [done|].
  rewrite Hi in *. simplify_eq. lia.
Qed.

Lemma monitor_fires_when_idle_witness :
  exists s s', sending s = false /\ quiet s + interval (mon s) <= 130 /\ step s (Some 130) s'.
Proof.
  assert (exists s s', rtc (fun a b => exists o, step a o b)
    (Sys 0 (PacketPassInactivityMonitor_Init 0 30 (Some 1) false) false 0 false) s /\
    step s (Some 130) s' /\ forced s = false) as (s & s' & Hr & Hs & Hf).
  { eexists _, _. split_and!.
    - eapply rtc_l; [eexists; apply (step_send _ 5 5); done|].
      eapply rtc_l; [eexists; apply (step_time _ 100); cbn; lia|].
      eapply rtc_l; [eexists; apply step_done; done|].
      eapply rtc_l; [eexists; apply (step_time _ 130); cbn; lia|]. apply rtc_refl.
    - apply (step_timer (Sys 130 _ _ _ _)) with (t := 130); [reflexivity|cbn; lia].
    - reflexivity. }
  exists s, s'. pose proof (monitor_fires_when_idle 0 30 (Some 1) false s s' 130 Hr Hs Hf) as [H1 H2].
  split; [exact H1|]. split; [exact H2|exact Hs].
Defined.
End PacketPassInactivityMonitor.

(** ** SinglePacketBuffer *)
Module SinglePacketBuffer.

Record SinglePacketBuffer := SPB { buf : list byte }.
Inductive action := Receiver_Recv | Sender_Send (len : Z).

Definition input_handler_done (o : SinglePacketBuffer) (in_len : Z) : list action := [Sender_Send in_len].
Definition output_handler_done (o : SinglePacketBuffer) : list action := [Receiver_Recv].
Definition SinglePacketBuffer_Init (alloc : Z -> option (list byte)) (mtu : Z)
    : option (SinglePacketBuffer * list action) :=
  match alloc mtu with Some m => Some (SPB m, [Receiver_Recv]) | None => None end.
End SinglePacketBuffer.

(** ** BufferWriter *)
Module BufferWriter.

(** [out] is the destination the output's user provided, as an offset. *)
Record BufferWriter := BW { out_have : bool; out : Z }.
Inductive action := Output_Done (len : Z).

Definition BufferWriter_Init : BufferWriter := BW false 0.
Definition output_handler_recv (o : BufferWriter) (data : Z) : BufferWriter := BW true data.
(** [None]: no packet can be written now. *)
Definition BufferWriter_StartPacket (o : BufferWriter) : option Z :=
  if out_have o then Some (out o) else None.
Definition BufferWriter_EndPacket (o : BufferWriter) (len : Z) : BufferWriter * list action :=
  (BW false (out o), [Output_Done len]).
End BufferWriter.
