(* ===== verification/ProtoFlow.v ===== *)
(** * The packet tunnel end to end

    [flow/PacketProtoFlow.c] chains a [BufferWriter], a [PacketProtoEncoder] and a
    [PacketBuffer]: a caller writes a payload into the memory the buffer offers,
    behind the room for the header, and the encoder fills the header in. Its
    output feeds a [PacketStreamSender], whose bytes a [PacketProtoDecoder] on the
    other side of the connection turns back into packets. *)

From Stdlib Require Import ZArith Lia.
From S2P Require Import Prelude ByteOrder ChunkBuffer PacketBuffer PacketProto Flow.

Module Encoder := PacketProto.Encoder.
Module Decoder := PacketProto.Decoder.
Module BufferWriter := Flow.BufferWriter.
Module Sender := Flow.PacketStreamSender.

(** The chain, with the packet buffer and what is around it as in
    [PacketBuffer.sys], and the payloads the caller has written. *)
Record PacketProtoFlow := Flow {
  ainput : BufferWriter.BufferWriter;
  encoder : Encoder.PacketProtoEncoder;
  buffer : PacketBuffer.sys;
  written : list (list byte)
}.

Definition PacketProtoFlow_Init (alloc : Z -> option (list byte)) (input_mtu num_packets : Z)
    : option PacketProtoFlow :=
  match start_sys alloc (PACKETPROTO_ENCLEN input_mtu) num_packets with
  | Some b => Some (Flow BufferWriter.BufferWriter_Init Encoder.PacketProtoEncoder_Init b [])
  | None => None
  end.

(** The receive the buffer has asked for reaches the encoder, and through it the
    writer. *)
Definition offer (f : PacketProtoFlow) : option PacketProtoFlow :=
  match recving (buffer f), Encoder.output_packet (encoder f) with
  | Some d, None =>
      match Encoder.output_handler_recv (encoder f) d with
      | (e, [Encoder.Receiver_Recv o]) =>
          Some (Flow (BufferWriter.output_handler_recv (ainput f) o) e (buffer f) (written f))
      | _ => None
      end
  | _, _ => None
  end.

Definition set_mem (m : list byte) (s : PacketBuffer.sys) : PacketBuffer.sys :=
  Sys (PB (set_buffer m (buf (pb s))) (input_mtu (pb s))) (recving s) (sending s)
      (received s) (delivered s).

(** The caller starts a packet, writes the payload where it is told to and ends
    the packet; [None] if the writer has no memory to offer, or the payload
    exceeds the writer's MTU. *)
Definition write (f : PacketProtoFlow) (payload : list byte) : option PacketProtoFlow :=
  match BufferWriter.BufferWriter_StartPacket (ainput f) with
  | None => None
  | Some o =>
      if PACKETPROTO_ENCLEN (zlen payload) <=? input_mtu (pb (buffer f)) then
        let m := splice o payload (mem (buffer f)) in
        match BufferWriter.BufferWriter_EndPacket (ainput f) (zlen payload) with
        | (w, [BufferWriter.Output_Done n]) =>
            match Encoder.input_handler_done (encoder f) n m with
            | (e, m, [Encoder.Output_Done n]) =>
                match sys_step (set_mem m (buffer f)) (ERecvDone n) with
                | Some b => Some (Flow w e b (written f ++ [payload]))
                | None => None
                end
            | _ => None
            end
        | _ => None
        end
      else None
  end.

Inductive event := FOffer | FWrite (payload : list byte) | FSendDone.

Definition flow_step (f : PacketProtoFlow) (e : event) : option PacketProtoFlow :=
  match e with
  | FOffer => offer f
  | FWrite p => write f p
  | FSendDone =>
      match sys_step (buffer f) ESendDone with
      | Some b => Some (Flow (ainput f) (encoder f) b (written f))
      | None => None
      end
  end.

Fixpoint flow_run (f : PacketProtoFlow) (es : list event) : option PacketProtoFlow :=
  match es with
  | [] => Some f
  | e :: es' => match flow_step f e with Some f' => flow_run f' es' | None => None end
  end.

(** The writer offers the memory behind the header of the receive in progress. *)
Record FInv (num : Z) (f : PacketProtoFlow) (q : list (list byte)) : Prop := {
  f_buffer : PInv num (buffer f) q;
  f_written : received (buffer f) = map encode (written f);
  f_small : Forall (fun p => PACKETPROTO_ENCLEN (zlen p) <= input_mtu (pb (buffer f))) (written f);
  f_offer :
    if BufferWriter.out_have (ainput f)
    then exists d, recving (buffer f) = Some d /\ Encoder.output_packet (encoder f) = Some d /\
                   BufferWriter.out (ainput f) = d + 2
    else Encoder.output_packet (encoder f) = None
}.

(** A receive in progress points into the buffer, with room for an MTU. *)
Lemma recving_room num s q d :
  PInv num s q -> recving s = Some d ->
  0 <= d /\ d + input_mtu (pb s) <= zlen (mem s).
Proof.
  intros HP Hd. pose proof (p_recving _ _ _ HP) as Hr. rewrite Hd in Hr.
  destruct (Z.leb_spec (input_mtu (pb s)) (input_avail (buf (pb s)))) as [Ha|]; [|done].
  symmetry in Hr. destruct (Inv_input _ _ d (p_inv _ _ _ HP) Hr) as (-> & Hf & Hav & Hs).
  pose proof (Ring_end _ _ (inv_ring _ _ (p_inv _ _ _ HP))).
  unfold mem. rewrite (inv_mem _ _ (inv_ring _ _ (p_inv _ _ _ HP))). lia.
Qed.

(** Header and payload together are the encoded packet. *)
Lemma write_encode d p m :
  0 <= d -> d + 2 + zlen p <= zlen m ->
  splice d (store_le16 (zlen p)) (splice (d + 2) p m) = splice d (encode p) m.
Proof.
  intros Hd Hm. change 2 with (zlen (store_le16 (zlen p))) in Hm |- *.
  apply splice_splice_join; lia.
Qed.

Lemma FInv_write num f q p f' :
  FInv num f q -> write f p = Some f' ->
  FInv num f' (q ++ [encode p]) /\ written f' = written f ++ [p] /\
  input_mtu (pb (buffer f')) = input_mtu (pb (buffer f)).
Proof.
  intros [HP Hw Hsm Ho]. unfold write, BufferWriter.BufferWriter_StartPacket.
  destruct (BufferWriter.out_have (ainput f)); [|done].
  destruct Ho as (d & Hd & He & Hout). rewrite Hout.
  unfold PACKETPROTO_ENCLEN, sizeof_packetproto_header.
  destruct (Z.leb_spec (2 + zlen p) (input_mtu (pb (buffer f)))) as [Hl|]; [|done].
  cbn [BufferWriter.BufferWriter_EndPacket]. unfold Encoder.input_handler_done. rewrite He.
  unfold htol16, PACKETPROTO_ENCLEN, sizeof_packetproto_header. pose proof (zlen_nonneg p).
  destruct (recving_room _ _ _ _ HP Hd) as [Hd0 Hdm]. rewrite write_encode by lia.
  assert (sys_step (buffer f) (EWrite (encode p)) = Some (set_mem (splice d (encode p) (mem (buffer f))) (buffer f)))
    as Hwr.
  { cbn [sys_step]. rewrite Hd, zlen_encode. destruct (Z.leb_spec (2 + zlen p) (input_mtu (pb (buffer f)))); [|lia].
    unfold set_mem. rewrite Hd. done. }
  pose proof (PInv_write _ _ _ _ _ HP Hwr) as HP1.
  set (s1 := set_mem _ (buffer f)) in *.
  destruct (PInv_recv num s1 q d (2 + zlen p) HP1 Hd ltac:(cbn; lia)) as (s2 & Hs2 & HP2).
  rewrite Hs2. intros [= <-].
  assert (slice d (2 + zlen p) (mem s1) = encode p) as Hsl.
  { rewrite <- zlen_encode. apply slice_splice_same; [done|rewrite zlen_encode; lia]. }
  rewrite Hsl in HP2. split_and!; [|done|].
  - split; cbn; [done| | |done].
    + destruct (recv_history _ _ _ _ Hs2 Hd) as [-> _].
      rewrite Hsl. change (received s1) with (received (buffer f)). rewrite Hw, map_app. done.
    + rewrite (step_input_mtu _ _ _ Hs2). apply Forall_app. split; [done|].
      apply Forall_singleton. done.
  - cbn [buffer]. rewrite (step_input_mtu _ _ _ Hs2). done.
Qed.

Lemma FInv_step num f q e f' :
  FInv num f q -> flow_step f e = Some f' ->
  exists q', FInv num f' q' /\ input_mtu (pb (buffer f')) = input_mtu (pb (buffer f)).
Proof.
  intros HF. destruct e as [|p|]; cbn [flow_step].
  - destruct HF as [HP Hw Hsm Ho]. unfold offer. destruct (recving (buffer f)) as [d|] eqn:Hd; [|done].
    destruct (Encoder.output_packet (encoder f)) eqn:He; [done|]. intros [= <-].
    exists q. split; [|done]. split; cbn; [done|done|done|]. exists d. done.
  - intros Hw. destruct (FInv_write num f q p f' HF Hw) as (H1 & _ & H2). eauto.
  - destruct (sys_step (buffer f) ESendDone) as [b|] eqn:Hs; [|done]. intros [= <-].
    destruct HF as [HP Hw Hsm Ho].
    assert (is_Some (sending (buffer f))) as Hse.
    { cbn [sys_step] in Hs. destruct (sending (buffer f)) as [[]|]; [eauto|done]. }
    destruct (PInv_send num _ q HP Hse) as (s2 & p & q' & -> & Hs2 & Hdl & HP').
    rewrite Hs in Hs2. injection Hs2 as <-. exists q'. split; [|apply (step_input_mtu _ _ _ Hs)].
    split; cbn; [done| |rewrite (step_input_mtu _ _ _ Hs); done|].
    + rewrite (p_fifo _ _ _ HP'), Hdl, <- Hw, (p_fifo _ _ _ HP), <- app_assoc. done.
    + destruct (BufferWriter.out_have (ainput f)); [|done].
      destruct Ho as (d & Hd & He & Hout). exists d. split; [|done].
      exact (send_keeps_recv _ _ _ _ _ HP Hd Hs).
Qed.

Section tunnel.
(** The sending side: the flow's allocator and number of packets; the receiving
    side: the decoder's allocator. Both agree on the payload MTU. *)
Context (alloc alloc' : Z -> option (list byte)) (mtu num : Z).
Context (alloc_size : forall n m, alloc n = Some m -> zlen m = 4 * n).
Context (alloc_size' : forall n m, alloc' n = Some m -> zlen m = 1 * n).
Context (mtu_ok : 0 <= mtu <= PACKETPROTO_MAXPAYLOAD) (num_ok : 0 < num).
Context (fits : 4 * ((1 + bdivide_up (PACKETPROTO_ENCLEN mtu) 4) * (num + 1)) <= INT_MAX).

Lemma flow_run_FInv es f0 f :
  PacketProtoFlow_Init alloc mtu num = Some f0 -> flow_run f0 es = Some f ->
  exists q, FInv num f q /\ input_mtu (pb (buffer f)) = PACKETPROTO_ENCLEN mtu.
Proof.
  unfold PacketProtoFlow_Init. destruct (start_sys alloc _ num) as [b|] eqn:E; [|done].
  intros [= <-]. unfold PACKETPROTO_MAXPAYLOAD, UINT16_MAX in *.
  destruct (start_PInv alloc (PACKETPROTO_ENCLEN mtu) num alloc_size) with (s := b) as [HP Hm];
    [unfold PACKETPROTO_ENCLEN, sizeof_packetproto_header, INT_MAX; lia|done|done|done|].
  assert (FInv num (Flow BufferWriter.BufferWriter_Init Encoder.PacketProtoEncoder_Init b []) []) as HF.
  { split; cbn; [done| |constructor|done].
    unfold start_sys in E. destruct (PacketBuffer_Init _ _ _) as [[? l]|]; [|done].
    apply do_actions_frame in E as (_ & -> & _). done. }
  set (f0 := Flow _ _ b []) in *. assert (input_mtu (pb (buffer f0)) = PACKETPROTO_ENCLEN mtu) as Hm0 by done.
  clearbody f0. clear -HF Hm0. revert f0 HF Hm0. generalize (@nil (list byte)) as q.
  induction es as [|e es IH]; cbn [flow_run]; intros q f0 HF Hm0; [intros [= <-]; eauto|].
  destruct (flow_step f0 e) as [f1|] eqn:Es; [|done]. intros Hr.
  destruct (FInv_step num f0 q e f1 HF Es) as (q1 & HF1 & Hm1). eapply IH; [done|congruence|done].
Qed.

(** C14: the tunnel delivers what is written. Payloads written to the flow reach
    the stream through the sender, which has taken the first [k] of the encoded
    packets, and the first bytes of that stream reach the decoder, in pieces of
    any size and with any delay at every stage: no error is reported and the
    packets handed over at the far end are an initial part of the payloads
    written, byte for byte and in order; once everything has been taken, written
    and received, they are all of them. *)
Theorem tunnel_delivers fes f0 f ses s k des t0 t rest :
  PacketProtoFlow_Init alloc mtu num = Some f0 -> flow_run f0 fes = Some f ->
  Sender.run Sender.start ses = Some s -> Sender.accepted s = take k (received (buffer f)) ->
  Decoder.start_sys alloc' mtu = Some t0 -> Decoder.run t0 des = Some t ->
  Decoder.fed t ++ rest = Sender.stream s ->
  Decoder.errors t = 0%nat /\
  (exists tail, written f = Decoder.delivered t ++ tail) /\
  ((length (received (buffer f)) <= k)%nat -> Sender.busy s = false -> rest = [] ->
   Decoder.sending t = None -> Decoder.delivered t = written f).
Proof.
  intros Hf0 Hf Hs Hacc Ht0 Ht Hfed.
  destruct (flow_run_FInv fes f0 f Hf0 Hf) as (q & [HP Hw Hsm _] & Hm).
  assert (Forall (fun p => zlen p <= Z.min mtu PACKETPROTO_MAXPAYLOAD) (written f)) as Hsm'.
  { eapply Forall_impl; [exact Hsm|]. intros p Hp. cbn in Hp. rewrite Hm in Hp.
    unfold PACKETPROTO_ENCLEN, sizeof_packetproto_header in Hp. lia. }
  destruct (Sender.stream_prefix ses s Hs) as (r & Hr & Hrb).
  rewrite Hacc in Hr. rewrite Hw in Hr |- *.
  set (enc := map encode (written f)) in *.
  destruct (Decoder.decoder_prefix alloc' mtu alloc_size' ltac:(lia) des t0 t (written f)
    (rest ++ r ++ concat (drop k enc)) Ht0 Ht Hsm') as (He & Hp & Hall).
  { rewrite !app_assoc, Hfed, Hr, <- concat_app, take_drop. done. }
  split; [done|]. split; [done|]. intros Hk Hb -> Hse. apply Hall; [|done].
  rewrite Hrb, drop_ge by done. done.
Qed.
End tunnel.

(** Two payloads through the whole tunnel, cut into single bytes on the way. *)
Definition example_flow : list event := [FOffer; FWrite [x61; x62]; FOffer; FWrite [x63]; FSendDone; FSendDone].
Definition example_sender : list Sender.event :=
  [Sender.EPacket (encode [x61; x62]); Sender.EWrote 3; Sender.EWrote 1;
   Sender.EPacket (encode [x63]); Sender.EWrote 1; Sender.EWrote 2].
Definition example_decoder : list Decoder.event :=
  [Decoder.EData [x02]; Decoder.EData [x00]; Decoder.EData [x61]; Decoder.EData [x62]; Decoder.ESendDone;
   Decoder.EData [x01; x00]; Decoder.EData [x63]; Decoder.ESendDone].

Lemma tunnel_delivers_witness :
  exists f0 f s t0 t,
    PacketProtoFlow_Init (zero_alloc 4) 2 2 = Some f0 /\ flow_run f0 example_flow = Some f /\
    Sender.run Sender.start example_sender = Some s /\
    Decoder.start_sys (zero_alloc 1) 2 = Some t0 /\ Decoder.run t0 example_decoder = Some t /\
    Decoder.delivered t = written f.
Proof.
  destruct (PacketProtoFlow_Init (zero_alloc 4) 2 2) as [f0|] eqn:E0; [|vm_compute in E0; discriminate E0].
  destruct (flow_run f0 example_flow) as [f|] eqn:E1;
    [|vm_compute in E0; injection E0 as <-; vm_compute in E1; discriminate E1].
  destruct (Sender.run Sender.start example_sender) as [s|] eqn:E2; [|vm_compute in E2; discriminate E2].
  destruct (Decoder.start_sys (zero_alloc 1) 2) as [t0|] eqn:E3; [|vm_compute in E3; discriminate E3].
  destruct (Decoder.run t0 example_decoder) as [t|] eqn:E4;
    [|vm_compute in E3; injection E3 as <-; vm_compute in E4; discriminate E4].
  exists f0, f, s, t0, t. split_and!; try reflexivity; try assumption.
  assert (Hacc : Sender.accepted s = take 2 (received (buffer f)) /\
    Decoder.fed t ++ [] = Sender.stream s /\ (length (received (buffer f)) <= 2)%nat /\
    Sender.busy s = false /\ Decoder.sending t = None).
  { vm_compute in E0. injection E0 as <-. vm_compute in E1. injection E1 as <-.
    vm_compute in E2. injection E2 as <-. vm_compute in E3. injection E3 as <-.
    vm_compute in E4. injection E4 as <-. split_and!; reflexivity || (vm_compute; lia). }
  destruct Hacc as (H1 & H2 & H3 & H4 & H5).
  apply (tunnel_delivers (zero_alloc 4) (zero_alloc 1) 2 2 (zero_alloc_size 4 ltac:(lia))
    (zero_alloc_size 1 ltac:(lia)) ltac:(vm_compute; split; discriminate) ltac:(lia)
    ltac:(vm_compute; discriminate) example_flow f0 f example_sender s 2 example_decoder t0 t []
    E0 E1 E2 H1 E3 E4 H2); done.
Defined.
