(* ===== verification/FairQueue.v ===== *)
(** * The fair queue

    [flow/PacketPassFairQueue.c]: packets of several flows share one output. Each
    flow has a virtual time that grows with what it sends; the queued flow with
    the least time goes next. The queued flows are kept in an ordered tree of
    pointers ([PacketPassFairQueue_tree.h]) whose keys, the times, are changed
    behind its back when they would overflow.

    The tree is used through the class [FlowTree], which states what
    [structure/SAvl_impl.h] promises; time is [uint64_t]. *)

From Stdlib Require Import ZArith Lia Sorting.Sorted.
From S2P Require Import Prelude.

(** ** The ordered tree *)

(** Insertion into a sequence sorted by [lt]. *)
Fixpoint insert_sorted (lt : nat -> nat -> bool) (x : nat) (l : list nat) : list nat :=
  match l with
  | [] => [x]
  | y :: l' => if lt x y then x :: l else y :: insert_sorted lt x l'
  end.

Definition remove_elt (x : nat) (l : list nat) : list nat := filter (fun y => y <> x) l.

(** A tree of entries in order: insertion compares entries as they are at that
    moment, removal unlinks the entry it is given. *)
Class FlowTree (T : Type) := {
  tree_empty : T;
  tree_insert : (nat -> nat -> bool) -> nat -> T -> T;
  tree_remove : nat -> T -> T;
  tree_first : T -> option nat;
  tree_elements : T -> list nat;
  tree_empty_spec : tree_elements tree_empty = [];
  tree_insert_spec : forall lt x t, Sorted (fun a b => lt a b = true) (tree_elements t) ->
    tree_elements (tree_insert lt x t) = insert_sorted lt x (tree_elements t);
  tree_remove_spec : forall x t, tree_elements (tree_remove x t) = remove_elt x (tree_elements t);
  tree_first_spec : forall t, tree_first t = head (tree_elements t)
}.

#[export] Instance list_tree : FlowTree (list nat).
Proof.
  refine {| tree_empty := []; tree_insert := insert_sorted; tree_remove := remove_elt;
            tree_first := head; tree_elements := id |}; intros; reflexivity.
Defined.

Section fairqueue.
Context {T : Type} `{FT : !FlowTree T}.

Record PacketPassFairQueueFlow := FQFlow {
  time : Z; is_queued : bool; q_data : Z; q_data_len : Z; handler_busy : option Z
}.

#[export] Instance flow_inhabited : Inhabited PacketPassFairQueueFlow :=
  populate (FQFlow 0 false 0 0 None).

Record PacketPassFairQueue := FQ {
  use_cancel : bool; packet_weight : Z;
  sending_flow : option nat; sending_len : Z; previous_flow : option nat;
  queued_tree : T; flows_list : list nat; freeing : bool; schedule_job : bool;
  flows : gmap nat PacketPassFairQueueFlow
}.

Definition FAIRQUEUE_MAX_TIME : Z := UINT64_MAX.

Inductive action :=
| Output_Send (data len : Z) | Output_RequestCancel | Flow_Done (f : nat) | Call_Busy (h : Z).

Definition ftime (m : PacketPassFairQueue) (f : nat) : Z := time (flows m !!! f).

(** [compare_flows] < 0. *)
Definition flow_lt (m : PacketPassFairQueue) (f1 f2 : nat) : bool :=
  (ftime m f1 <? ftime m f2) || ((ftime m f1 =? ftime m f2) && (f1 <? f2)%nat).

Definition set_flows (x : gmap nat PacketPassFairQueueFlow) (m : PacketPassFairQueue) :=
  FQ (use_cancel m) (packet_weight m) (sending_flow m) (sending_len m) (previous_flow m)
     (queued_tree m) (flows_list m) (freeing m) (schedule_job m) x.
Definition set_tree (x : T) (m : PacketPassFairQueue) :=
  FQ (use_cancel m) (packet_weight m) (sending_flow m) (sending_len m) (previous_flow m)
     x (flows_list m) (freeing m) (schedule_job m) (flows m).
Definition set_sending (x : option nat) (n : Z) (m : PacketPassFairQueue) :=
  FQ (use_cancel m) (packet_weight m) x n (previous_flow m)
     (queued_tree m) (flows_list m) (freeing m) (schedule_job m) (flows m).
Definition set_previous (x : option nat) (m : PacketPassFairQueue) :=
  FQ (use_cancel m) (packet_weight m) (sending_flow m) (sending_len m) x
     (queued_tree m) (flows_list m) (freeing m) (schedule_job m) (flows m).
Definition set_job (x : bool) (m : PacketPassFairQueue) :=
  FQ (use_cancel m) (packet_weight m) (sending_flow m) (sending_len m) (previous_flow m)
     (queued_tree m) (flows_list m) (freeing m) x (flows m).
Definition set_flows_list (x : list nat) (m : PacketPassFairQueue) :=
  FQ (use_cancel m) (packet_weight m) (sending_flow m) (sending_len m) (previous_flow m)
     (queued_tree m) x (freeing m) (schedule_job m) (flows m).
Definition set_freeing (x : bool) (m : PacketPassFairQueue) :=
  FQ (use_cancel m) (packet_weight m) (sending_flow m) (sending_len m) (previous_flow m)
     (queued_tree m) (flows_list m) x (schedule_job m) (flows m).

Definition set_time (t : Z) (f : PacketPassFairQueueFlow) :=
  FQFlow t (is_queued f) (q_data f) (q_data_len f) (handler_busy f).
Definition set_queued (b : bool) (f : PacketPassFairQueueFlow) :=
  FQFlow (time f) b (q_data f) (q_data_len f) (handler_busy f).
Definition set_packet (d n : Z) (f : PacketPassFairQueueFlow) :=
  FQFlow (time f) (is_queued f) d n (handler_busy f).
Definition set_busy (h : option Z) (f : PacketPassFairQueueFlow) :=
  FQFlow (time f) (is_queued f) (q_data f) (q_data_len f) h.
Definition upd (g : PacketPassFairQueueFlow -> PacketPassFairQueueFlow) (f : nat)
    (m : PacketPassFairQueue) : PacketPassFairQueue :=
  set_flows (alter g f (flows m)) m.

Definition get_current_time (m : PacketPassFairQueue) : Z :=
  match sending_flow m with
  | Some f => ftime m f
  | None =>
      let first := match tree_first (queued_tree m) with
                   | Some f => Some (ftime m f)
                   | None => None
                   end in
      let both := match previous_flow m with
                  | Some p =>
                      match first with
                      | Some t => if ftime m p <? t then Some (ftime m p) else Some t
                      | None => Some (ftime m p)
                      end
                  | None => first
                  end in
      match both with Some t => t | None => 0 end
  end.

Definition subtract_time (sub : Z) (flow f : nat) (x : PacketPassFairQueueFlow) :=
  if (time x <? sub) && negb (f =? flow)%nat then set_time 0 x else set_time (u64 (time x - sub)) x.

(** The loop over the list of flows. *)
Definition subtract_all (sub : Z) (flow : nat) (m : PacketPassFairQueue) : PacketPassFairQueue :=
  foldl (fun m f => upd (subtract_time sub flow f) f m) m (flows_list m).

Definition increment_sent_flow (m : PacketPassFairQueue) (flow : nat) (amount : Z)
    : PacketPassFairQueue :=
  let m :=
    if FAIRQUEUE_MAX_TIME - ftime m flow <? amount then
      let subtract := match tree_first (queued_tree m) with
                      | None => ftime m flow
                      | Some first => ftime m first
                      end in
      subtract_all subtract flow m
    else m in
  upd (fun x => set_time (u64 (time x + amount)) x) flow m.

(** The caller has made sure a flow is queued. *)
Definition schedule (m : PacketPassFairQueue) : PacketPassFairQueue * list action :=
  match tree_first (queued_tree m) with
  | None => (m, [])
  | Some qflow =>
      let m := set_tree (tree_remove qflow (queued_tree m)) m in
      let m := upd (set_queued false) qflow m in
      let x := flows m !!! qflow in
      (set_sending (Some qflow) (q_data_len x) m, [Output_Send (q_data x) (q_data_len x)])
  end.

Definition tree_is_empty (t : T) : bool := match tree_first t with None => true | Some _ => false end.

(** The job queue has marked the job as not set. *)
Definition schedule_job_handler (m : PacketPassFairQueue) : PacketPassFairQueue * list action :=
  let m := set_job false m in
  let m := set_previous None m in
  if negb (tree_is_empty (queued_tree m)) then schedule m else (m, []).

Definition input_handler_send (m : PacketPassFairQueue) (flow : nat) (data data_len : Z)
    : PacketPassFairQueue * list action :=
  let m :=
    if bool_decide (previous_flow m = Some flow) then set_previous None m
    else upd (fun x => set_time (Z.max (time x) (get_current_time m)) x) flow m in
  let m := upd (set_packet data data_len) flow m in
  let m := set_tree (tree_insert (flow_lt m) flow (queued_tree m)) m in
  let m := upd (set_queued true) flow m in
  match sending_flow m, schedule_job m with
  | None, false => schedule m
  | _, _ => (m, [])
  end.

(** [None]: no flow is sending, which the interface excludes. *)
Definition output_handler_done (m : PacketPassFairQueue)
    : option (PacketPassFairQueue * list action) :=
  match sending_flow m with
  | None => None
  | Some flow =>
      let m := set_sending None (sending_len m) m in
      let m := set_previous (Some flow) m in
      let m := increment_sent_flow m flow (packet_weight m + sending_len m) in
      let m := set_job true m in
      match handler_busy (flows m !!! flow) with
      | Some h => Some (upd (set_busy None) flow m, [Flow_Done flow; Call_Busy h])
      | None => Some (m, [Flow_Done flow])
      end
  end.

Definition PacketPassFairQueue_Init (mtu : Z) (cancel : bool) (weight : Z)
    : option PacketPassFairQueue :=
  if (mtu <=? FAIRQUEUE_MAX_TIME) && (weight <=? FAIRQUEUE_MAX_TIME - mtu)
  then Some (FQ cancel weight None 0 None tree_empty [] false false ∅)
  else None.

Definition PacketPassFairQueue_PrepareFree (m : PacketPassFairQueue) : PacketPassFairQueue :=
  set_freeing true m.

Definition PacketPassFairQueueFlow_Init (m : PacketPassFairQueue) (f : nat) : PacketPassFairQueue :=
  set_flows_list (flows_list m ++ [f]) (set_flows (<[f := FQFlow 0 false 0 0 None]> (flows m)) m).

Definition PacketPassFairQueueFlow_Free (m : PacketPassFairQueue) (f : nat) : PacketPassFairQueue :=
  let m := if bool_decide (sending_flow m = Some f) then set_sending None (sending_len m) m else m in
  let m := if bool_decide (previous_flow m = Some f) then set_previous None m else m in
  let m := if is_queued (flows m !!! f) then set_tree (tree_remove f (queued_tree m)) m else m in
  set_flows (delete f (flows m)) (set_flows_list (remove_elt f (flows_list m)) m).

Definition PacketPassFairQueueFlow_IsBusy (m : PacketPassFairQueue) (f : nat) : bool :=
  bool_decide (sending_flow m = Some f).

Definition PacketPassFairQueueFlow_RequestCancel (m : PacketPassFairQueue) (f : nat)
    : PacketPassFairQueue * list action := (m, [Output_RequestCancel]).

Definition PacketPassFairQueueFlow_SetBusyHandler (m : PacketPassFairQueue) (f : nat) (h : option Z)
    : PacketPassFairQueue := upd (set_busy h) f m.

(** ** Order *)

Lemma flow_lt_spec m a b :
  flow_lt m a b = true <-> ftime m a < ftime m b \/ (ftime m a = ftime m b /\ (a < b)%nat).
Proof.
  unfold flow_lt. rewrite orb_true_iff, andb_true_iff, Z.ltb_lt, Z.eqb_eq, Nat.ltb_lt. tauto.
Qed.

Lemma elem_of_insert_sorted lt x l y : y ∈ insert_sorted lt x l <-> y = x \/ y ∈ l.
Proof.
  induction l as [|z l IH]; cbn [insert_sorted]; [set_solver|].
  destruct (lt x z); [set_solver|]. rewrite !elem_of_cons, IH. tauto.
Qed.

Notation sorted m l := (StronglySorted (fun a b => flow_lt m a b = true) l).

Lemma insert_sorted_sorted m x l : x ∉ l -> sorted m l -> sorted m (insert_sorted (flow_lt m) x l).
Proof.
  induction l as [|y l IH]; intros Hx Hs; cbn [insert_sorted].
  { constructor; constructor. }
  apply StronglySorted_inv in Hs as [Hs Hy]. apply not_elem_of_cons in Hx as [Hxy Hx].
  destruct (flow_lt m x y) eqn:E.
  - constructor; [constructor; done|]. constructor; [done|].
    eapply Forall_impl; [exact Hy|]. intros z Hz. rewrite flow_lt_spec in *. lia.
  - constructor; [auto|]. apply Forall_forall. intros z Hz.
    apply elem_of_insert_sorted in Hz as [->|Hz].
    + rewrite flow_lt_spec. apply not_true_iff_false in E. rewrite flow_lt_spec in E. lia.
    + rewrite Forall_forall in Hy. apply Hy. done.
Qed.

Lemma sorted_Sorted m l : sorted m l -> Sorted (fun a b => flow_lt m a b = true) l.
Proof. apply StronglySorted_Sorted. Qed.

(** The order of a sequence depends only on the times of its members. *)
Lemma sorted_ext m m' l :
  (forall a b, a ∈ l -> b ∈ l -> flow_lt m a b = true -> flow_lt m' a b = true) ->
  sorted m l -> sorted m' l.
Proof.
  intros He Hs. induction Hs as [|a l Hs IH Ha]; constructor.
  - apply IH. intros; apply He; set_solver.
  - apply Forall_forall. intros b Hb. rewrite Forall_forall in Ha.
    apply He; [set_solver|set_solver|auto].
Qed.

Lemma elem_of_remove_elt x l y : y ∈ remove_elt x l <-> y <> x /\ y ∈ l.
Proof. unfold remove_elt. rewrite list_elem_of_filter. tauto. Qed.

Lemma sorted_remove m x l : sorted m l -> sorted m (remove_elt x l).
Proof.
  induction 1 as [|a l Hs IH Ha]; [constructor|]. unfold remove_elt in *.
  rewrite filter_cons. case_decide; [|done]. constructor; [done|].
  apply Forall_forall. intros b Hb. apply list_elem_of_filter in Hb as [_ Hb].
  rewrite Forall_forall in Ha. apply Ha. done.
Qed.

Lemma sorted_head m a l b : sorted m (a :: l) -> b ∈ a :: l -> ftime m a <= ftime m b.
Proof.
  intros Hs Hb. apply StronglySorted_inv in Hs as [_ Ha]. apply elem_of_cons in Hb as [->|Hb]; [lia|].
  rewrite Forall_forall in Ha. specialize (Ha b Hb).
  cbn in Ha. rewrite flow_lt_spec in Ha. lia.
Qed.

Lemma sorted_nodup m l : sorted m l -> NoDup l.
Proof.
  induction 1 as [|a l Hs IH Ha]; constructor; [|done]. intros Hin.
  rewrite Forall_forall in Ha. specialize (Ha a Hin).
  cbn in Ha. rewrite flow_lt_spec in Ha. lia.
Qed.

(** ** Invariant *)

Definition queued (m : PacketPassFairQueue) : list nat := tree_elements (queued_tree m).

Record QInv (mtu : Z) (m : PacketPassFairQueue) : Prop := {
  i_weight : 0 < packet_weight m /\ 0 <= mtu /\ packet_weight m + mtu <= FAIRQUEUE_MAX_TIME;
  i_nodup : NoDup (flows_list m);
  i_dom : forall f, f ∈ flows_list m <-> is_Some (flows m !! f);
  i_tree : forall f, f ∈ queued m <-> exists x, flows m !! f = Some x /\ is_queued x = true;
  i_sorted : sorted m (queued m);
  i_time : forall f x, flows m !! f = Some x -> 0 <= time x <= FAIRQUEUE_MAX_TIME;
  i_len : forall f x, flows m !! f = Some x -> is_queued x = true -> 0 <= q_data_len x <= mtu;
  i_sending : forall f, sending_flow m = Some f ->
    is_Some (flows m !! f) /\ f ∉ queued m /\ previous_flow m = None /\ schedule_job m = false /\
    0 <= sending_len m <= mtu /\ (forall g, g ∈ queued m -> ftime m f <= ftime m g);
  i_prev : forall p, previous_flow m = Some p ->
    is_Some (flows m !! p) /\ p ∉ queued m /\ schedule_job m = true;
  i_work : queued m <> [] -> is_Some (sending_flow m) \/ schedule_job m = true
}.

(** What [subtract_all] does to the flows. *)
Lemma subtract_fold sub flow l m :
  foldl (fun m f => upd (subtract_time sub flow f) f m) m l =
  set_flows (foldl (fun fl f => alter (subtract_time sub flow f) f fl) (flows m) l) m.
Proof.
  revert m. induction l as [|f l IH]; intros m; [destruct m; done|]. cbn [foldl]. rewrite IH.
  destruct m. done.
Qed.

Lemma subtract_fold_lookup sub flow l (fl : gmap nat PacketPassFairQueueFlow) f :
  NoDup l ->
  foldl (fun fl f => alter (subtract_time sub flow f) f fl) fl l !! f =
  if bool_decide (f ∈ l) then subtract_time sub flow f <$> fl !! f else fl !! f.
Proof.
  revert fl. induction l as [|g l IH]; intros fl Hn; [done|].
  apply NoDup_cons in Hn as [Hg Hn]. cbn [foldl]. rewrite IH by done.
  destruct (decide (f = g)) as [->|Hfg].
  - rewrite bool_decide_false, lookup_alter_eq by done. rewrite bool_decide_true by set_solver. done.
  - rewrite lookup_alter_ne by done. destruct (decide (f ∈ l)).
    + rewrite !bool_decide_true by set_solver. done.
    + rewrite !bool_decide_false by set_solver. done.
Qed.

Lemma subtract_all_lookup mtu sub flow m f :
  QInv mtu m -> flows (subtract_all sub flow m) !! f = subtract_time sub flow f <$> flows m !! f.
Proof.
  intros HQ. unfold subtract_all. rewrite subtract_fold. cbn.
  rewrite subtract_fold_lookup by apply HQ. case_bool_decide as Hf; [done|].
  destruct (flows m !! f) eqn:E; [|done]. exfalso. apply Hf, HQ. eauto.
Qed.

Lemma set_time_twice a b x : set_time a (set_time b x) = set_time a x.
Proof. done. Qed.

(** The time arithmetic of a completion, wrap-around included: all times are
    reduced by some [sub] that no queued flow falls below, the flow that sent
    gains exactly [amount]. *)
Lemma increment_spec mtu m flow amount :
  QInv mtu m -> sending_flow m = Some flow -> 0 <= amount <= FAIRQUEUE_MAX_TIME ->
  let m1 := set_previous (Some flow) (set_sending None (sending_len m) m) in
  exists sub fl,
    increment_sent_flow m1 flow amount = set_flows fl m1 /\ 0 <= sub /\
    (forall g, g ∈ queued m -> sub <= ftime m g) /\
    0 <= ftime m flow + amount - sub <= FAIRQUEUE_MAX_TIME /\
    (forall g, fl !! g = (fun x => set_time
       (if decide (g = flow) then time x + amount - sub else Z.max 0 (time x - sub)) x)
       <$> flows m !! g).
Proof.
  intros HQ Hs Ha m1. destruct (i_sending _ _ HQ flow Hs) as ([x Hx] & Hnq & _ & _ & _ & Hmin).
  assert (ftime m flow = time x) as Ht by (unfold ftime; rewrite (lookup_total_correct _ _ _ Hx); done).
  pose proof (i_time _ _ HQ flow x Hx) as Hxr.
  unfold increment_sent_flow. change (ftime m1 flow) with (ftime m flow).
  change (queued_tree m1) with (queued_tree m). rewrite Ht in *.
  destruct (Z.ltb_spec (FAIRQUEUE_MAX_TIME - time x) amount) as [Hov|Hov].
  - set (sub := match tree_first (queued_tree m) with None => time x | Some first => ftime m1 first end).
    assert (0 <= sub <= FAIRQUEUE_MAX_TIME /\ time x <= sub /\ (forall g, g ∈ queued m -> sub <= ftime m g))
      as (Hsub & Hxs & Hq).
    { subst sub. rewrite tree_first_spec. fold (queued m).
      destruct (queued m) as [|h l] eqn:Eq; cbn [head].
      - split_and!; try lia. set_solver.
      - change (ftime m1 h) with (ftime m h).
        assert (h ∈ queued m) as Hh by (rewrite Eq; set_solver).
        pose proof (Hmin h ltac:(set_solver)) as Hle.
        apply (i_tree _ _ HQ) in Hh as (y & Hy & _). pose proof (i_time _ _ HQ h y Hy) as Hyr.
        assert (ftime m h = time y) as Hhy by (unfold ftime; rewrite (lookup_total_correct _ _ _ Hy); done).
        pose proof (i_sorted _ _ HQ) as Hso. rewrite Eq in Hso.
        split_and!; try lia. intros g Hg. eapply sorted_head; done. }
    exists sub, (alter (fun x => set_time (u64 (time x + amount)) x) flow (flows (subtract_all sub flow m))).
    assert (subtract_all sub flow m1 = set_flows (flows (subtract_all sub flow m)) m1) as ->.
    { unfold subtract_all. rewrite !subtract_fold. done. }
    split_and!; try done; try lia. intros g.
    destruct (decide (g = flow)) as [->|Hg].
    + rewrite lookup_alter_eq, (subtract_all_lookup mtu), Hx by done. cbn. f_equal.
      unfold subtract_time. rewrite Nat.eqb_refl, andb_false_r. rewrite set_time_twice. f_equal.
      cbn. unfold u64. rewrite Zplus_mod_idemp_l. rewrite Z.mod_small; [lia|].
      unfold FAIRQUEUE_MAX_TIME, UINT64_MAX in *. lia.
    + rewrite lookup_alter_ne, (subtract_all_lookup mtu) by done. destruct (flows m !! g) as [y|] eqn:Ey; [|done].
      cbn. f_equal. unfold subtract_time. apply Nat.eqb_neq in Hg. rewrite Hg. cbn [negb]. rewrite andb_true_r.
      pose proof (i_time _ _ HQ g y Ey). destruct (Z.ltb_spec (time y) sub).
      * f_equal. lia.
      * f_equal. rewrite u64_id; [lia|]. unfold FAIRQUEUE_MAX_TIME, UINT64_MAX in *. lia.
  - exists 0, (alter (fun x => set_time (u64 (time x + amount)) x) flow (flows m)).
    split_and!; try done; try lia.
    + intros g Hg. apply (i_tree _ _ HQ) in Hg as (y & Hy & _). pose proof (i_time _ _ HQ g y Hy).
      unfold ftime. rewrite (lookup_total_correct _ _ _ Hy). lia.
    + intros g. destruct (decide (g = flow)) as [->|Hg].
      * rewrite lookup_alter_eq, Hx. cbn. do 2 f_equal. rewrite u64_id; [lia|].
        unfold FAIRQUEUE_MAX_TIME, UINT64_MAX in *. lia.
      * rewrite lookup_alter_ne by done. destruct (flows m !! g) as [y|] eqn:Ey; [|done].
        cbn. f_equal. pose proof (i_time _ _ HQ g y Ey).
        replace (Z.max 0 (time y - 0)) with (time y) by lia. destruct y; done.
Qed.

Lemma ftime_lookup m f x : flows m !! f = Some x -> ftime m f = time x.
Proof. intros H. unfold ftime. rewrite (lookup_total_correct _ _ _ H). done. Qed.

Lemma ftime_upd_same m g f : (forall x, time (g x) = time x) -> forall k, ftime (upd g f m) k = ftime m k.
Proof.
  intros Hg k. unfold ftime, upd. cbn. rewrite !lookup_total_alt.
  destruct (decide (k = f)) as [->|]; [|rewrite lookup_alter_ne; done].
  rewrite lookup_alter_eq. destruct (flows m !! f); cbn; auto.
Qed.

Lemma lookup_upd g f m k x :
  flows (upd g f m) !! k = Some x <->
  exists y, flows m !! k = Some y /\ x = if decide (k = f) then g y else y.
Proof.
  unfold upd. cbn. destruct (decide (k = f)) as [->|].
  - rewrite lookup_alter_eq. destruct (flows m !! f) as [y|]; cbn; [|naive_solver].
    split; [intros [= <-]; eauto|intros (? & [= <-] & ->); done].
  - rewrite lookup_alter_ne by done. naive_solver.
Qed.

(** The queue without the link between queue and output: what holds between the
    steps of a handler. *)
Record QCore (mtu : Z) (m : PacketPassFairQueue) : Prop := {
  c_weight : 0 < packet_weight m /\ 0 <= mtu /\ packet_weight m + mtu <= FAIRQUEUE_MAX_TIME;
  c_nodup : NoDup (flows_list m);
  c_dom : forall f, f ∈ flows_list m <-> is_Some (flows m !! f);
  c_tree : forall f, f ∈ queued m <-> exists x, flows m !! f = Some x /\ is_queued x = true;
  c_sorted : sorted m (queued m);
  c_time : forall f x, flows m !! f = Some x -> 0 <= time x <= FAIRQUEUE_MAX_TIME;
  c_len : forall f x, flows m !! f = Some x -> is_queued x = true -> 0 <= q_data_len x <= mtu
}.

Lemma QInv_core mtu m : QInv mtu m -> QCore mtu m.
Proof. intros []. split; done. Qed.

(** Scheduling starts the head of the queue, if there is one. *)
Lemma schedule_spec mtu m :
  QCore mtu m -> sending_flow m = None -> previous_flow m = None -> schedule_job m = false ->
  let '(m', l) := schedule m in
  QInv mtu m' /\ flows_list m' = flows_list m /\ (forall f, ftime m' f = ftime m f) /\
  match queued m with
  | [] => m' = m /\ l = []
  | qf :: q => sending_flow m' = Some qf /\ queued m' = q /\
      exists x, flows m !! qf = Some x /\ l = [Output_Send (q_data x) (q_data_len x)] /\
                sending_len m' = q_data_len x
  end.
Proof.
  intros HC Hs Hp Hj. unfold schedule. rewrite tree_first_spec. fold (queued m).
  destruct (queued m) as [|qf q] eqn:Eq; cbn [head].
  { split; [|done]. destruct HC. split; try done; try congruence. }
  assert (qf ∈ queued m) as Hqf by (rewrite Eq; set_solver).
  pose proof (proj1 (c_tree _ _ HC qf) Hqf) as (x & Hx & Hxq).
  pose proof (c_sorted _ _ HC) as Hso. rewrite Eq in Hso.
  pose proof (sorted_nodup _ _ Hso) as Hn. apply NoDup_cons in Hn as [Hnq _].
  set (m1 := upd (set_queued false) qf (set_tree (tree_remove qf (queued_tree m)) m)).
  assert (forall k y, flows m1 !! k = Some y <->
    exists z, flows m !! k = Some z /\ y = if decide (k = qf) then set_queued false z else z) as Hfl
    by (intros; apply (lookup_upd _ _ (set_tree _ m))).
  assert (flows m1 !! qf = Some (set_queued false x)) as Hx1.
  { apply Hfl. exists x. rewrite decide_True by done. done. }
  rewrite (lookup_total_correct _ _ _ Hx1). cbn [set_queued q_data q_data_len].
  assert (forall f, ftime m1 f = ftime m f) as Htm
    by (intros f; apply (ftime_upd_same (set_tree _ m)); done).
  assert (queued m1 = q) as Hq1.
  { unfold m1, queued. cbn. rewrite tree_remove_spec. fold (queued m). rewrite Eq.
    unfold remove_elt. rewrite filter_cons_False by tauto.
    clear -Hnq. induction q as [|y q IH]; [done|]. rewrite filter_cons_True by set_solver. f_equal. set_solver. }
  set (m2 := set_sending (Some qf) (q_data_len x) m1).
  assert (queued m2 = q) as Hq2 by done.
  split; [|split_and!; try done; exists x; done].
  split; rewrite ?Hq2.
  - apply HC.
  - apply HC.
  - intros f. change (flows_list m2) with (flows_list m). change (flows m2) with (flows m1).
    rewrite (c_dom _ _ HC f). split.
    + intros [z Hz]. eexists. apply Hfl. eauto.
    + intros [y Hy]. apply Hfl in Hy as (z & Hz & _). eauto.
  - intros f. change (flows m2) with (flows m1). split.
    + intros Hf. assert (f <> qf) by congruence.
      assert (f ∈ queued m) as Hfq by (rewrite Eq; set_solver).
      apply (c_tree _ _ HC) in Hfq as (z & Hz & Hzq). exists z. split; [|done]. apply Hfl.
      exists z. rewrite decide_False by done. done.
    + intros (y & Hy & Hyq). apply Hfl in Hy as (z & Hz & ->). case_decide; [done|].
      assert (f ∈ queued m) as Hfq by (apply (c_tree _ _ HC); eauto). rewrite Eq in Hfq. set_solver.
  - apply StronglySorted_inv in Hso as [Hso' _]. eapply sorted_ext; [|exact Hso'].
    intros a b _ _. rewrite !flow_lt_spec. change (ftime m2) with (ftime m1). rewrite !Htm. done.
  - intros f y Hy. apply Hfl in Hy as (z & Hz & ->). pose proof (c_time _ _ HC f z Hz).
    case_decide; done.
  - intros f y Hy Hyq. apply Hfl in Hy as (z & Hz & ->). case_decide; [done|].
    apply (c_len _ _ HC f z Hz Hyq).
  - intros f [= <-]. change (ftime m2) with (ftime m1).
    refine (conj (ex_intro _ _ Hx1) (conj Hnq (conj Hp (conj Hj (conj _ _))))).
    + apply (c_len _ _ HC qf x Hx Hxq).
    + intros g Hg. rewrite !Htm. eapply sorted_head; [exact Hso|]. set_solver.
  - intros p Hp2. change (previous_flow m2) with (previous_flow m) in Hp2. congruence.
  - intros _. left. eexists. reflexivity.
Qed.

(** ** Steps *)

Lemma schedule_job_QInv mtu m :
  QInv mtu m -> sending_flow m = None ->
  let '(m', l) := schedule_job_handler m in
  QInv mtu m' /\ flows_list m' = flows_list m /\ (forall f, ftime m' f = ftime m f) /\
  (forall f, f ∈ queued m -> f ∈ queued m' \/ sending_flow m' = Some f) /\
  match queued m with
  | [] => l = []
  | qf :: _ => sending_flow m' = Some qf
  end.
Proof.
  intros HQ Hs. unfold schedule_job_handler.
  set (m1 := set_previous None (set_job false m)).
  assert (QCore mtu m1) as HC by (apply QInv_core in HQ as []; split; done).
  pose proof (schedule_spec mtu m1 HC Hs eq_refl eq_refl) as H.
  unfold tree_is_empty. rewrite tree_first_spec. fold (queued m1).
  change (queued m1) with (queued m) in *.
  destruct (queued m) as [|qf q] eqn:Eq; cbn [head negb].
  - destruct (schedule m1) as [m' l]. destruct H as (H1 & H2 & H3 & -> & _).
    split_and!; try done. set_solver.
  - destruct (schedule m1) as [m' l]. destruct H as (H1 & H2 & H3 & H4 & H5 & _).
    split_and!; try done. intros f [->|Hf]%elem_of_cons; [auto|]. rewrite H5. auto.
Qed.

Lemma current_time_range mtu m : QInv mtu m -> 0 <= get_current_time m <= FAIRQUEUE_MAX_TIME.
Proof.
  intros HQ. pose proof (QInv_core _ _ HQ) as HC.
  assert (forall f, is_Some (flows m !! f) -> 0 <= ftime m f <= FAIRQUEUE_MAX_TIME) as Hb.
  { intros f [y Hy]. rewrite (ftime_lookup _ _ _ Hy). apply (c_time _ _ HC f y Hy). }
  unfold get_current_time. destruct (sending_flow m) as [f|] eqn:Es.
  { apply Hb, (i_sending _ _ HQ f Es). }
  assert (forall f, tree_first (queued_tree m) = Some f -> 0 <= ftime m f <= FAIRQUEUE_MAX_TIME) as Hb1.
  { intros f Hf. rewrite tree_first_spec in Hf. fold (queued m) in Hf. apply Hb.
    destruct (queued m) as [|h q] eqn:Eq; [done|]. injection Hf as ->.
    assert (f ∈ queued m) as Hq by (rewrite Eq; set_solver).
    apply (c_tree _ _ HC) in Hq as (y & Hy & _). eauto. }
  assert (forall p, previous_flow m = Some p -> 0 <= ftime m p <= FAIRQUEUE_MAX_TIME) as Hb2.
  { intros p Hp. apply Hb, (i_prev _ _ HQ p Hp). }
  unfold FAIRQUEUE_MAX_TIME, UINT64_MAX in *.
  destruct (tree_first (queued_tree m)) as [f|]; destruct (previous_flow m) as [p|];
    repeat case_match; simplify_eq; try lia; auto.
Qed.

(** Inserting a flow whose packet and time have been set. *)
Lemma enqueue_core mtu m m2 flow x data len t' :
  QCore mtu m -> flows m !! flow = Some x -> flow ∉ queued m -> 0 <= len <= mtu ->
  0 <= t' <= FAIRQUEUE_MAX_TIME ->
  packet_weight m2 = packet_weight m -> flows_list m2 = flows_list m -> queued_tree m2 = queued_tree m ->
  (forall k, flows m2 !! k =
    (fun z => if decide (k = flow) then set_packet data len (set_time t' z) else z) <$> flows m !! k) ->
  let m4 := upd (set_queued true) flow (set_tree (tree_insert (flow_lt m2) flow (queued_tree m2)) m2) in
  QCore mtu m4 /\ (forall f, f ∈ queued m4 <-> f = flow \/ f ∈ queued m) /\
  (forall f, ftime m4 f = if decide (f = flow) then t' else ftime m f).
Proof.
  intros HC Hx Hnq Hlen Ht Hw Hfl Htree Hlk m4.
  assert (forall f, ftime m2 f = if decide (f = flow) then t' else ftime m f) as Ht2.
  { intros f. unfold ftime. rewrite !lookup_total_alt, Hlk. case_decide; [subst; rewrite Hx; done|].
    destruct (flows m !! f); done. }
  assert (forall f, ftime m4 f = ftime m2 f) as Ht4
    by (intros f; apply (ftime_upd_same (set_tree _ m2)); done).
  assert (sorted m2 (queued m2)) as Hso2.
  { unfold queued. rewrite Htree. eapply sorted_ext; [|apply (c_sorted _ _ HC)].
    intros a b Ha Hb. rewrite !flow_lt_spec, !Ht2, !decide_False; [done| |]; intros ->; done. }
  assert (queued m4 = insert_sorted (flow_lt m2) flow (queued m2)) as Hq4.
  { unfold m4, queued. cbn. apply tree_insert_spec. apply sorted_Sorted. exact Hso2. }
  assert (queued m2 = queued m) as Hq2 by (unfold queued; rewrite Htree; done).
  assert (forall f, f ∈ queued m4 <-> f = flow \/ f ∈ queued m) as Hel.
  { intros f. rewrite Hq4, elem_of_insert_sorted, Hq2. done. }
  assert (forall k y, flows m4 !! k = Some y <-> exists z, flows m !! k = Some z /\
    y = if decide (k = flow) then set_queued true (set_packet data len (set_time t' z)) else z) as Hlk4.
  { intros k y. unfold m4. rewrite lookup_upd. cbn [set_tree flows]. setoid_rewrite Hlk.
    setoid_rewrite fmap_Some. split.
    - intros (z & (w & Hw1 & ->) & ->). exists w. split; [done|]. case_decide; done.
    - intros (z & Hz & ->). eexists. split; [eauto|]. case_decide; done. }
  split; [|split; [done|intros f; rewrite Ht4; apply Ht2]].
  split.
  - change (packet_weight m4) with (packet_weight m2). rewrite Hw. apply HC.
  - change (flows_list m4) with (flows_list m2). rewrite Hfl. apply HC.
  - intros f. change (flows_list m4) with (flows_list m2). rewrite Hfl, (c_dom _ _ HC). split.
    + intros [z Hz]. eexists. apply Hlk4. eauto.
    + intros [y Hy]. apply Hlk4 in Hy as (z & Hz & _). eauto.
  - intros f. rewrite Hel. split.
    + intros [->|Hf].
      * eexists. split; [apply Hlk4; eauto|]. rewrite decide_True by done. done.
      * apply (c_tree _ _ HC) in Hf as (z & Hz & Hzq). eexists. split; [apply Hlk4; eauto|].
        case_decide; done.
    + intros (y & Hy & Hyq). apply Hlk4 in Hy as (z & Hz & ->). case_decide; [auto|].
      right. apply (c_tree _ _ HC). eauto.
  - rewrite Hq4. eapply sorted_ext; [|apply insert_sorted_sorted; [rewrite Hq2; exact Hnq|exact Hso2]].
    intros a b _ _. rewrite !flow_lt_spec, !Ht4. done.
  - intros f y Hy. apply Hlk4 in Hy as (z & Hz & ->). pose proof (c_time _ _ HC f z Hz). case_decide; done.
  - intros f y Hy Hyq. apply Hlk4 in Hy as (z & Hz & ->). case_decide; [done|].
    apply (c_len _ _ HC f z Hz Hyq).
Qed.

(** A flow's packet enters the queue at a time no earlier than the current one,
    unless the flow has just sent. *)
Lemma input_send_QInv mtu m flow data len :
  QInv mtu m -> is_Some (flows m !! flow) -> flow ∉ queued m -> sending_flow m <> Some flow ->
  0 <= len <= mtu ->
  let '(m', l) := input_handler_send m flow data len in
  QInv mtu m' /\ flows_list m' = flows_list m /\
  (forall f, f <> flow -> ftime m' f = ftime m f) /\ ftime m flow <= ftime m' flow /\
  (forall f, f = flow \/ f ∈ queued m -> f ∈ queued m' \/ sending_flow m' = Some f) /\
  (is_Some (sending_flow m) -> sending_flow m' = sending_flow m /\ l = []).
Proof.
  intros HQ [x Hx] Hnq Hns Hlen. pose proof (QInv_core _ _ HQ) as HC.
  unfold input_handler_send.
  set (prev := bool_decide (previous_flow m = Some flow)).
  set (m1 := if prev then _ else _).
  set (t' := if prev then time x else Z.max (time x) (get_current_time m)).
  pose proof (c_time _ _ HC flow x Hx) as Hxt. pose proof (ftime_lookup _ _ _ Hx) as Hft.
  pose proof (current_time_range _ _ HQ) as Hct.
  assert (0 <= t' <= FAIRQUEUE_MAX_TIME /\ time x <= t') as (Ht' & Htx) by (subst t'; destruct prev; lia).
  assert (forall f, sending_flow m = Some f -> ftime m f <= t') as Hcur.
  { intros f Hf. subst t'. destruct prev eqn:Ep.
    - apply bool_decide_eq_true in Ep. destruct (i_sending _ _ HQ f Hf) as (_ & _ & Hpn & _). congruence.
    - unfold get_current_time. rewrite Hf. lia. }
  set (m2 := upd (set_packet data len) flow m1).
  destruct (enqueue_core mtu m m2 flow x data len t' HC Hx Hnq Hlen Ht') as (HC4 & Hel & Ht4);
    try (unfold m2, m1; destruct prev; done).
  { intros k. unfold m2, upd. cbn [set_flows flows]. destruct (decide (k = flow)) as [->|Hk].
    - rewrite lookup_alter_eq. subst m1 t'. destruct prev; cbn [set_previous flows].
      + rewrite Hx. destruct x; done.
      + unfold upd. cbn [set_flows flows]. rewrite lookup_alter_eq, Hx. done.
    - rewrite lookup_alter_ne by done. subst m1. destruct prev; cbn [set_previous flows].
      + destruct (flows m !! k); done.
      + unfold upd. cbn [set_flows flows]. rewrite lookup_alter_ne by done. destruct (flows m !! k); done. }
  set (m4 := upd (set_queued true) flow _) in *.
  assert (sending_flow m4 = sending_flow m /\ schedule_job m4 = schedule_job m /\ sending_len m4 = sending_len m /\
    flows_list m4 = flows_list m /\ previous_flow m4 = (if prev then None else previous_flow m))
    as (Es & Ej & Esl & Efl & Ep) by (unfold m4, m2, m1; destruct prev; done).
  assert (forall f, f = flow \/ f ∈ queued m -> f ∈ queued m4) as Hin by (intros f Hf; apply Hel; done).
  assert (forall f, f <> flow -> ftime m4 f = ftime m f) as Htne
    by (intros f Hf; rewrite Ht4, decide_False by done; done).
  assert (ftime m flow <= ftime m4 flow) as Hinc by (rewrite Ht4, decide_True by done; lia).
  rewrite Es, Ej. destruct (sending_flow m) as [sf|] eqn:Esf; [|destruct (schedule_job m) eqn:Ejb].
  3: { pose proof (schedule_spec mtu m4 HC4) as Hsch. rewrite Es, Ep, Ej in Hsch.
    assert (previous_flow m = None) as Hpn.
    { destruct (previous_flow m) as [p|] eqn:Epf; [|done].
      destruct (i_prev _ _ HQ p Epf) as (_ & _ & Hjt). congruence. }
    rewrite Hpn in Hsch. specialize (Hsch eq_refl ltac:(destruct prev; done) eq_refl).
    destruct (schedule m4) as [m' l]. destruct Hsch as (HQ' & Hfl' & Htm & Hrest).
    split_and!; try done.
    - congruence.
    - intros f Hf. rewrite Htm. auto.
    - rewrite Htm. done.
    - intros f Hf. apply Hin in Hf. destruct (queued m4) as [|qf q]; [by apply elem_of_nil in Hf|].
      destruct Hrest as (Hsf & Hqq & _). rewrite Hqq. apply elem_of_cons in Hf as [->|Hf]; auto.
  }
  all: split_and!; try done; auto; try (intros [? [=]]).
  all: destruct HC4; split; try done; try (intros f' Hf'; congruence).
  - intros f Hf. rewrite Es in Hf. injection Hf as <-. rewrite Esl, Ej, Ep.
    destruct (i_sending _ _ HQ sf Esf) as (Hsome & Hsq & Hpn & Hjf & Hsl & Hmin).
    assert (sf <> flow) as Hsne by congruence.
    refine (conj _ (conj _ (conj _ (conj Hjf (conj Hsl _))))).
    + apply c_dom0. rewrite Efl. apply (i_dom _ _ HQ). done.
    + rewrite Hel. intros [?|?]; done.
    + rewrite Hpn. destruct prev; done.
    + intros g Hg. rewrite Htne by done. apply Hel in Hg as [->|Hg].
      * rewrite Ht4, decide_True by done. apply Hcur. done.
      * rewrite Htne by (intros ->; done). apply Hmin. done.
  - intros p Hp. rewrite Ep in Hp. destruct prev eqn:Epp; [done|].
    destruct (i_sending _ _ HQ sf Esf) as (_ & _ & Hpn & _). congruence.
  - intros _. left. rewrite Es. eauto.
  - intros p Hp. rewrite Ep in Hp. destruct prev eqn:Epp; [done|].
    destruct (i_prev _ _ HQ p Hp) as (Hsome & Hpq & _). apply bool_decide_eq_false in Epp.
    split_and!; [|rewrite Hel; intros [->|?]; done|congruence].
    apply c_dom0. rewrite Efl. apply (i_dom _ _ HQ). done.
  - intros _. right. congruence.
Qed.

(** A completion: the flow that sent is charged, every queued flow keeps its
    place. *)
Lemma output_done_QInv mtu m flow :
  QInv mtu m -> sending_flow m = Some flow ->
  exists m' l sub, output_handler_done m = Some (m', Flow_Done flow :: l) /\ QInv mtu m' /\
    flows_list m' = flows_list m /\ queued m' = queued m /\
    sending_flow m' = None /\ schedule_job m' = true /\ 0 <= sub /\
    (forall g, g ∈ queued m -> sub <= ftime m g) /\
    (forall g, is_Some (flows m !! g) -> ftime m' g =
       if decide (g = flow) then ftime m g + (packet_weight m + sending_len m) - sub
       else Z.max 0 (ftime m g - sub)).
Proof.
  intros HQ Hs. destruct (i_sending _ _ HQ flow Hs) as ([x Hx] & Hnq & Hpn & Hjf & Hsl & Hmin).
  pose proof (i_weight _ _ HQ) as Hwt. pose proof (QInv_core _ _ HQ) as HC.
  destruct (increment_spec mtu m flow (packet_weight m + sending_len m) HQ Hs ltac:(lia))
    as (sub & fl & Hinc & Hsub & Hsq & Hft & Hfl).
  unfold output_handler_done. rewrite Hs.
  set (m1 := set_previous (Some flow) (set_sending None (sending_len m) m)) in *.
  change (packet_weight m1 + sending_len m1) with (packet_weight m + sending_len m). rewrite Hinc.
  set (m3 := set_job true (set_flows fl m1)).
  assert (forall m', flows_list m' = flows_list m -> queued_tree m' = queued_tree m ->
    packet_weight m' = packet_weight m -> sending_flow m' = None -> previous_flow m' = Some flow ->
    schedule_job m' = true ->
    (forall g, (fun y => (time y, is_queued y, q_data_len y)) <$> flows m' !! g =
               (fun y => (time y, is_queued y, q_data_len y)) <$> fl !! g) ->
    QInv mtu m' /\ queued m' = queued m /\
    (forall g, is_Some (flows m !! g) -> ftime m' g =
       if decide (g = flow) then ftime m g + (packet_weight m + sending_len m) - sub
       else Z.max 0 (ftime m g - sub))) as Hgen.
  { intros m' E1 E2 E3 E4 E5 E6 E7.
    assert (queued m' = queued m) as Hq by (unfold queued; rewrite E2; done).
    assert (forall g y, flows m' !! g = Some y -> exists z, flows m !! g = Some z /\
      time y = (if decide (g = flow) then time z + (packet_weight m + sending_len m) - sub
                else Z.max 0 (time z - sub)) /\ is_queued y = is_queued z /\ q_data_len y = q_data_len z) as Hback.
    { intros g y Hy. specialize (E7 g). rewrite Hy, Hfl in E7. destruct (flows m !! g) as [z|]; [|done].
      cbn in E7. injection E7 as E8 E9 E10. exists z. done. }
    assert (forall g z, flows m !! g = Some z -> is_Some (flows m' !! g)) as Hfwd.
    { intros g z Hz. specialize (E7 g). rewrite Hfl, Hz in E7. destruct (flows m' !! g); [eauto|done]. }
    assert (forall g, is_Some (flows m !! g) -> ftime m' g =
       if decide (g = flow) then ftime m g + (packet_weight m + sending_len m) - sub
       else Z.max 0 (ftime m g - sub)) as Htm.
    { intros g [z Hz]. destruct (Hfwd g z Hz) as [y Hy]. destruct (Hback g y Hy) as (z' & Hz' & Ht & _).
      rewrite (ftime_lookup _ _ _ Hy), (ftime_lookup _ _ _ Hz).
      assert (z' = z) as <- by congruence. exact Ht. }
    split; [|done]. split; rewrite ?Hq, ?E1, ?E3, ?E4, ?E5, ?E6.
    - done.
    - apply HQ.
    - intros f. rewrite (i_dom _ _ HQ f). split; intros [y Hy]; [eauto|].
      destruct (Hback f y Hy) as (z & Hz & _). eauto.
    - intros f. rewrite (i_tree _ _ HQ f). split; intros (y & Hy & Hyq).
      + destruct (Hfwd f y Hy) as [w Hw]. destruct (Hback f w Hw) as (z & Hz & _ & Hqq & _).
        exists w. split; [done|]. congruence.
      + destruct (Hback f y Hy) as (z & Hz & _ & Hqq & _). exists z. split; [done|]. congruence.
    - eapply sorted_ext; [|apply (i_sorted _ _ HQ)].
      intros a b Ha Hb. rewrite !flow_lt_spec.
      rewrite !Htm by (apply (i_dom _ _ HQ), (i_dom _ _ HQ);
        match goal with H : ?k ∈ queued m |- is_Some (flows m !! ?k) =>
          apply (i_tree _ _ HQ) in H as (? & ? & _); eauto end).
      pose proof (Hsq a Ha). pose proof (Hsq b Hb).
      rewrite !decide_False by (intros ->; done). lia.
    - intros f y Hy. destruct (Hback f y Hy) as (z & Hz & -> & _). pose proof (i_time _ _ HQ f z Hz).
      case_decide as Hd; [subst f|].
      + rewrite (ftime_lookup _ _ _ Hx) in Hft. assert (z = x) as -> by congruence. lia.
      + unfold FAIRQUEUE_MAX_TIME, UINT64_MAX in *. lia.
    - intros f y Hy Hyq. destruct (Hback f y Hy) as (z & Hz & _ & Hqq & ->).
      apply (i_len _ _ HQ f z Hz). congruence.
    - intros f [=].
    - intros p [= <-]. split_and!; [|done|done]. eapply Hfwd. exact Hx.
    - auto. }
  destruct (handler_busy (flows m3 !!! flow)) as [h|].
  - destruct (Hgen (upd (set_busy None) flow m3)) as (H1 & H2 & H3); try done.
    { intros g. unfold upd. cbn. destruct (decide (g = flow)) as [->|].
      - rewrite lookup_alter_eq. destruct (fl !! flow); done.
      - rewrite lookup_alter_ne by done. done. }
    eexists _, [Call_Busy h], sub. split_and!; done.
  - destruct (Hgen m3) as (H1 & H2 & H3); try done.
    eexists _, [], sub. split_and!; done.
Qed.

Lemma flow_init_QInv mtu m f :
  QInv mtu m -> flows m !! f = None -> QInv mtu (PacketPassFairQueueFlow_Init m f).
Proof.
  intros HQ Hn. set (m' := PacketPassFairQueueFlow_Init m f).
  assert (forall k y, flows m' !! k = Some y <->
    (k = f /\ y = FQFlow 0 false 0 0 None) \/ (k <> f /\ flows m !! k = Some y)) as Hlk.
  { intros k y. unfold m', PacketPassFairQueueFlow_Init. cbn. rewrite lookup_insert_Some. naive_solver. }
  assert (forall k, k <> f -> ftime m' k = ftime m k) as Htm.
  { intros k Hk. unfold ftime, m', PacketPassFairQueueFlow_Init. cbn. rewrite lookup_total_insert_ne; done. }
  assert (f ∉ queued m) as Hfq by (intros (y & Hy & _)%(i_tree _ _ HQ); congruence).
  assert (forall k, is_Some (flows m !! k) -> k <> f) as Hne by (intros k [y Hy] ->; congruence).
  split; change (queued m') with (queued m).
  - apply HQ.
  - cbn. apply NoDup_app. split_and!; [apply HQ| |apply NoDup_singleton].
    intros k Hk. apply (i_dom _ _ HQ) in Hk. apply Hne in Hk. set_solver.
  - intros k. cbn [m' PacketPassFairQueueFlow_Init set_flows_list flows_list].
    rewrite elem_of_app, list_elem_of_singleton, (i_dom _ _ HQ). split.
    + intros [[y Hy]| ->]; eexists; apply Hlk; [right|left]; eauto.
    + intros [y Hy]. apply Hlk in Hy as [[-> _]|[_ ?]]; eauto.
  - intros k. rewrite (i_tree _ _ HQ). setoid_rewrite Hlk. naive_solver.
  - eapply sorted_ext; [|apply HQ]. intros a b Ha Hb. rewrite !flow_lt_spec, !Htm by (intros ->; done). done.
  - intros k y Hy. apply Hlk in Hy as [[_ ->]|[_ Hy]]; [unfold FAIRQUEUE_MAX_TIME, UINT64_MAX; cbn; lia|].
    apply (i_time _ _ HQ _ _ Hy).
  - intros k y Hy Hyq. apply Hlk in Hy as [[_ ->]|[_ Hy]]; [done|]. apply (i_len _ _ HQ _ _ Hy Hyq).
  - intros k Hk. destruct (i_sending _ _ HQ k Hk) as ([y Hy] & H2 & H3 & H4 & H5 & H6).
    refine (conj _ (conj H2 (conj H3 (conj H4 (conj H5 _))))).
    + exists y. apply Hlk. right. split; [|done]. intros ->. congruence.
    + intros g Hg. rewrite !Htm; [auto|intros ->; done|intros ->; congruence].
  - intros p Hp. destruct (i_prev _ _ HQ p Hp) as ([y Hy] & H2 & H3). split_and!; try done.
    exists y. apply Hlk. right. split; [|done]. intros ->. congruence.
  - apply HQ.
Qed.

Lemma flow_free_QInv mtu m f :
  QInv mtu m -> is_Some (flows m !! f) -> sending_flow m <> Some f ->
  let m' := PacketPassFairQueueFlow_Free m f in
  QInv mtu m' /\ flows_list m' = remove_elt f (flows_list m) /\ sending_flow m' = sending_flow m /\
  (forall g, g ∈ queued m' <-> g <> f /\ g ∈ queued m) /\ (forall g, g <> f -> ftime m' g = ftime m g).
Proof.
  intros HQ [x Hx] Hns m'.
  assert (flows m' = delete f (flows m) /\ flows_list m' = remove_elt f (flows_list m) /\
    sending_flow m' = sending_flow m /\ sending_len m' = sending_len m /\
    schedule_job m' = schedule_job m /\ packet_weight m' = packet_weight m /\
    previous_flow m' = (if decide (previous_flow m = Some f) then None else previous_flow m) /\
    queued m' = remove_elt f (queued m)) as (E1 & E2 & E3 & E4 & E5 & E6 & E7 & E8).
  { unfold m', PacketPassFairQueueFlow_Free. rewrite (bool_decide_false _ Hns).
    assert (is_queued x = false -> queued m = remove_elt f (queued m)) as Hrm.
    { intros Hxq. unfold remove_elt.
      assert (f ∉ queued m) as Hf by (intros (y & Hy & Hyq)%(i_tree _ _ HQ); congruence).
      clear -Hf. induction (queued m) as [|y l IH]; [done|]. rewrite filter_cons_True by set_solver.
      f_equal. set_solver. }
    case_bool_decide; cbn [set_previous flows]; rewrite (lookup_total_correct _ _ _ Hx);
      destruct (is_queued x) eqn:Eq; cbn; split_and!; try done; unfold queued; cbn;
      rewrite ?tree_remove_spec; try done; try (rewrite decide_True by done; done);
      try (rewrite decide_False by done; done); apply Hrm; done. }
  assert (forall g, g <> f -> ftime m' g = ftime m g) as Htm.
  { intros g Hg. unfold ftime. rewrite E1, lookup_total_delete_ne; done. }
  assert (forall g, g ∈ queued m' <-> g <> f /\ g ∈ queued m) as Hel
    by (intros g; rewrite E8; apply elem_of_remove_elt).
  split; [|done]. split.
  - rewrite E6. apply HQ.
  - rewrite E2. apply NoDup_filter, HQ.
  - intros k. rewrite E2, elem_of_remove_elt, (i_dom _ _ HQ), E1, lookup_delete_is_Some. naive_solver.
  - intros k. rewrite Hel, (i_tree _ _ HQ). rewrite E1. setoid_rewrite lookup_delete_Some. naive_solver.
  - eapply sorted_ext; [|rewrite E8; apply sorted_remove, HQ]. intros a b Ha Hb.
    apply Hel in Ha as [Ha _]. apply Hel in Hb as [Hb _]. rewrite !flow_lt_spec, !Htm by done. done.
  - intros k y. rewrite E1, lookup_delete_Some. intros [_ Hy]. apply (i_time _ _ HQ _ _ Hy).
  - intros k y. rewrite E1, lookup_delete_Some. intros [_ Hy] Hyq. apply (i_len _ _ HQ _ _ Hy Hyq).
  - intros k. rewrite E3. intros Hk. assert (k <> f) by congruence.
    destruct (i_sending _ _ HQ k Hk) as (H1 & H2 & H3 & H4 & H5 & H6). rewrite E4, E5, E7.
    refine (conj _ (conj _ (conj _ (conj H4 (conj H5 _))))).
    + rewrite E1, lookup_delete_ne by done. done.
    + rewrite Hel. tauto.
    + rewrite H3. case_decide; done.
    + intros g [Hg Hgq]%Hel. rewrite !Htm by done. auto.
  - intros p. rewrite E7. case_decide as Hd; [done|]. intros Hp. assert (p <> f) by congruence.
    destruct (i_prev _ _ HQ p Hp) as (H1 & H2 & H3). rewrite E5, E1, lookup_delete_ne by done.
    split_and!; try done. rewrite Hel. tauto.
  - rewrite E3, E5. intros Hq. apply (i_work _ _ HQ). intros Hz. apply Hq. rewrite E8, Hz. done.
Qed.

(** ** Runs *)

Inductive event :=
| EInit (f : nat) | EFree (f : nat) | ESend (f : nat) (data len : Z) | EDone | EJob
| EBusy (f : nat) (h : option Z).

(** What the users of the queue and the job queue may do; [None] otherwise. *)
Definition fq_step (mtu : Z) (m : PacketPassFairQueue) (e : event)
    : option (PacketPassFairQueue * list action) :=
  match e with
  | EInit f =>
      match flows m !! f with None => Some (PacketPassFairQueueFlow_Init m f, []) | Some _ => None end
  | EFree f =>
      match flows m !! f with
      | Some _ => if PacketPassFairQueueFlow_IsBusy m f then None
                  else Some (PacketPassFairQueueFlow_Free m f, [])
      | None => None
      end
  | ESend f d n =>
      match flows m !! f with
      | Some x => if is_queued x || PacketPassFairQueueFlow_IsBusy m f || negb ((0 <=? n) && (n <=? mtu))
                  then None else Some (input_handler_send m f d n)
      | None => None
      end
  | EDone => output_handler_done m
  | EJob => if schedule_job m then Some (schedule_job_handler m) else None
  | EBusy f h =>
      if PacketPassFairQueueFlow_IsBusy m f
      then Some (PacketPassFairQueueFlow_SetBusyHandler m f h, []) else None
  end.

(** The number of packets that may still be sent before [f]'s: how far every
    flow lags behind it. *)
Definition lag (m : PacketPassFairQueue) (f : nat) : Z :=
  foldr (fun g n => Z.max 0 (ftime m f + 1 - ftime m g) + n) 0 (flows_list m).

Lemma sum_le {A} (u v : A -> Z) l :
  (forall x, x ∈ l -> u x <= v x) ->
  foldr (fun x n => u x + n) 0 l <= foldr (fun x n => v x + n) 0 l.
Proof.
  induction l as [|a l IH]; intros H; cbn; [lia|].
  pose proof (H a ltac:(set_solver)). specialize (IH ltac:(set_solver)). lia.
Qed.

Lemma sum_lt {A} (u v : A -> Z) l y :
  (forall x, x ∈ l -> u x <= v x) -> y ∈ l -> u y + 1 <= v y ->
  foldr (fun x n => u x + n) 0 l + 1 <= foldr (fun x n => v x + n) 0 l.
Proof.
  induction l as [|a l IH]; intros H Hy Hlt; [by apply elem_of_nil in Hy|]. cbn.
  pose proof (H a ltac:(set_solver)). apply elem_of_cons in Hy as [->|Hy].
  - pose proof (sum_le u v l ltac:(set_solver)). lia.
  - specialize (IH ltac:(set_solver) Hy Hlt). lia.
Qed.

Lemma lag_nonneg m f : 0 <= lag m f.
Proof. unfold lag. induction (flows_list m); cbn; lia. Qed.

Definition is_done (e : event) : Z := match e with EDone => 1 | _ => 0 end.

Lemma set_busy_QInv mtu m f h :
  QInv mtu m -> is_Some (flows m !! f) -> QInv mtu (PacketPassFairQueueFlow_SetBusyHandler m f h).
Proof.
  intros HQ Hf. set (m' := PacketPassFairQueueFlow_SetBusyHandler m f h).
  assert (forall k, ftime m' k = ftime m k) as Htm by (intros k; apply ftime_upd_same; done).
  assert (forall k y, flows m' !! k = Some y <-> exists z, flows m !! k = Some z /\
    y = if decide (k = f) then set_busy h z else z) as Hlk by (intros; apply lookup_upd).
  assert (forall k, is_Some (flows m' !! k) <-> is_Some (flows m !! k)) as Hsome.
  { intros k. split; intros [y Hy]; [apply Hlk in Hy as (z & Hz & _); eauto|].
    eexists. apply Hlk. eauto. }
  destruct HQ as [H1 H2 H3 H4 H5 H6 H7 H8 H9 H10].
  split; try done; change (queued m') with (queued m).
  - intros k. rewrite Hsome. apply H3.
  - intros k. rewrite H4. split.
    + intros (y & Hy & Hyq). eexists. split; [apply Hlk; eauto|]. case_decide; done.
    + intros (y & Hy & Hyq). apply Hlk in Hy as (z & Hz & ->). exists z. split; [done|]. case_decide; done.
  - eapply sorted_ext; [|exact H5]. intros a b _ _. rewrite !flow_lt_spec, !Htm. done.
  - intros k y Hy. apply Hlk in Hy as (z & Hz & ->). pose proof (H6 _ _ Hz). case_decide; done.
  - intros k y Hy Hyq. apply Hlk in Hy as (z & Hz & ->).
    case_decide; apply (H7 _ _ Hz Hyq).
  - intros k Hk. destruct (H8 k Hk) as (J1 & J2 & J3 & J4 & J5 & J6).
    refine (conj _ (conj J2 (conj J3 (conj J4 (conj J5 _))))); [by apply Hsome|].
    intros g Hg. rewrite !Htm. auto.
  - intros p Hp. destruct (H9 p Hp) as (J1 & J2 & J3). split_and!; try done. apply Hsome. done.
Qed.

(** A flow cannot fall behind when the other times do not shrink. *)
Lemma lag_mono m m' f :
  flows_list m' = flows_list m -> ftime m' f = ftime m f ->
  (forall g, g ∈ flows_list m -> ftime m g <= ftime m' g) -> lag m' f <= lag m f.
Proof.
  intros Hl Hf Hg. unfold lag. rewrite Hl, Hf. apply sum_le. intros g Hin. specialize (Hg g Hin). lia.
Qed.

Lemma lag_free mtu m f g :
  QInv mtu m -> is_Some (flows m !! g) -> sending_flow m <> Some g ->
  f ∈ queued (PacketPassFairQueueFlow_Free m g) -> lag (PacketPassFairQueueFlow_Free m g) f <= lag m f.
Proof.
  intros HQ Hg Hs Hf. destruct (flow_free_QInv mtu m g HQ Hg Hs) as (_ & Hl & _ & Hq & Ht).
  cbv zeta in *. apply Hq in Hf as [Hfg _]. unfold lag. rewrite Hl, (Ht f) by done.
  unfold remove_elt. clear Hl HQ. induction (flows_list m) as [|x l IH]; [done|].
  rewrite filter_cons. case_decide as Hx; cbn [foldr].
  - rewrite (Ht x) by done. lia.
  - lia.
Qed.

(** A completion brings every queued flow at least one packet closer. *)
Lemma lag_done mtu m flow m' l f :
  QInv mtu m -> sending_flow m = Some flow -> output_handler_done m = Some (m', l) ->
  f ∈ queued m -> lag m' f + 1 <= lag m f.
Proof.
  intros HQ Hs Hd Hf.
  destruct (output_done_QInv mtu m flow HQ Hs) as (m2 & l2 & sub & Hd2 & _ & Hl & _ & _ & _ & Hsub & Hsq & Ht).
  rewrite Hd in Hd2. injection Hd2 as -> _.
  destruct (i_sending _ _ HQ flow Hs) as (Hfl & Hnq & _ & _ & Hsl & Hmin).
  pose proof (i_weight _ _ HQ) as Hw.
  assert (is_Some (flows m !! f)) as Hfs by (apply (i_tree _ _ HQ) in Hf as (y & Hy & _); eauto).
  assert (f <> flow) as Hne by (intros ->; done).
  pose proof (Hsq f Hf) as Hsf. pose proof (Hmin f Hf) as Hmf.
  unfold lag. rewrite Hl, (Ht f Hfs), decide_False by done.
  apply (sum_lt _ _ _ flow).
  - intros g Hg. apply (i_dom _ _ HQ) in Hg. rewrite (Ht g Hg). case_decide; lia.
  - apply (i_dom _ _ HQ). done.
  - rewrite (Ht flow Hfl), decide_True by done. lia.
Qed.

(** One step: the invariant is kept; a flow that was queued and still is has not
    fallen behind, and each completion brings it at least one packet closer. *)
Lemma step_QInv mtu m e m' l :
  QInv mtu m -> fq_step mtu m e = Some (m', l) -> QInv mtu m' /\
  ((forall g, e <> EInit g) -> forall f, f ∈ queued m -> f ∈ queued m' -> lag m' f + is_done e <= lag m f).
Proof.
  intros HQ. unfold fq_step, PacketPassFairQueueFlow_IsBusy. destruct e as [f|f|f d n| | |f h].
  - destruct (flows m !! f) eqn:E; [done|]. intros [= <- <-].
    split; [apply flow_init_QInv; done|]. intros H. by destruct (H f).
  - destruct (flows m !! f) eqn:E; [|done]. case_bool_decide as Hb; [done|]. intros [= <- <-].
    split; [apply flow_free_QInv; eauto|]. intros _ g _ Hg. cbn [is_done]. rewrite Z.add_0_r.
    eapply lag_free; eauto.
  - destruct (flows m !! f) as [x|] eqn:E; [|done].
    destruct (is_queued x) eqn:Eq; [done|]. case_bool_decide as Hb; [done|]. cbn [orb].
    destruct (Z.leb_spec 0 n); [|done]. destruct (Z.leb_spec n mtu); [|done]. cbn [andb negb].
    assert (f ∉ queued m) as Hnq by (intros (y & Hy & Hyq)%(i_tree _ _ HQ); congruence).
    pose proof (input_send_QInv mtu m f d n HQ ltac:(eauto) Hnq Hb ltac:(lia)) as H'.
    destruct (input_handler_send m f d n) as [m2 l2]. intros [= <- <-].
    destruct H' as (H1 & H2 & H3 & H4 & _). split; [done|]. intros _ g Hg _. cbn [is_done].
    rewrite Z.add_0_r. apply lag_mono; [done|apply H3; intros ->; done|].
    intros k _. destruct (decide (k = f)) as [->|]; [done|]. rewrite H3 by done. lia.
  - intros Hd. destruct (sending_flow m) as [flow|] eqn:Es; [|unfold output_handler_done in Hd; rewrite Es in Hd; done].
    split; [|intros _ f Hf _; eapply lag_done; done].
    destruct (output_done_QInv mtu m flow HQ Es) as (m2 & l2 & sub & Hd2 & HQ2 & _).
    rewrite Hd in Hd2. injection Hd2 as -> _. done.
  - destruct (schedule_job m) eqn:Ej; [|done]. intros [= Hj].
    assert (sending_flow m = None) as Hs.
    { destruct (sending_flow m) as [f|] eqn:Es; [|done].
      destruct (i_sending _ _ HQ f Es) as (_ & _ & _ & Hjf & _). congruence. }
    pose proof (schedule_job_QInv mtu m HQ Hs) as H'. rewrite Hj in H'.
    destruct H' as (H1 & H2 & H3 & _). split; [done|]. intros _ f _ _. cbn [is_done]. rewrite Z.add_0_r.
    apply lag_mono; [done|apply H3|]. intros g _. rewrite H3. lia.
  - case_bool_decide as Hb; [|done]. intros [= <- <-].
    split; [apply set_busy_QInv; [done|apply (i_sending _ _ HQ f Hb)]|]. intros _ g _ _. cbn [is_done].
    rewrite Z.add_0_r. apply lag_mono; [done|apply ftime_upd_same; done|].
    intros k _. unfold PacketPassFairQueueFlow_SetBusyHandler. rewrite ftime_upd_same by done. lia.
Qed.

Lemma init_QInv mtu cancel weight m :
  0 <= mtu -> 0 < weight -> PacketPassFairQueue_Init mtu cancel weight = Some m -> QInv mtu m.
Proof.
  intros Hm Hw. unfold PacketPassFairQueue_Init.
  destruct (Z.leb_spec mtu FAIRQUEUE_MAX_TIME); [|done].
  destruct (Z.leb_spec weight (FAIRQUEUE_MAX_TIME - mtu)); [|done]. intros [= <-].
  assert (queued (FQ cancel weight None 0 None tree_empty [] false false ∅) = []) as Hq
    by apply tree_empty_spec.
  split; rewrite ?Hq; cbn; try done; try lia.
  - constructor.
  - intros f. rewrite lookup_empty. split; [set_solver|intros [? [=]]].
  - intros f. setoid_rewrite lookup_empty. split; [set_solver|naive_solver].
  - constructor.
Qed.

Fixpoint fq_run (mtu : Z) (m : PacketPassFairQueue) (es : list event) : option PacketPassFairQueue :=
  match es with
  | [] => Some m
  | e :: es' => match fq_step mtu m e with Some (m', _) => fq_run mtu m' es' | None => None end
  end.

Lemma run_QInv mtu m es m' : QInv mtu m -> fq_run mtu m es = Some m' -> QInv mtu m'.
Proof.
  revert m. induction es as [|e es IH]; cbn [fq_run]; intros m HQ; [by intros [= <-]|].
  destruct (fq_step mtu m e) as [[m1 l]|] eqn:E; [|done]. eapply IH, step_QInv; done.
Qed.

(** [f] is queued in every state of the run, and no flow is added. *)
Fixpoint stays_queued (mtu : Z) (m : PacketPassFairQueue) (f : nat) (es : list event) : Prop :=
  f ∈ queued m /\
  match es with
  | [] => True
  | e :: es' => (forall g, e <> EInit g) /\
      match fq_step mtu m e with Some (m', _) => stays_queued mtu m' f es' | None => False end
  end.

Definition dones (es : list event) : Z := foldr (fun e n => is_done e + n) 0 es.

Lemma stays_lag mtu m f es :
  QInv mtu m -> stays_queued mtu m f es -> dones es <= lag m f.
Proof.
  revert m. induction es as [|e es IH]; intros m HQ; cbn [stays_queued dones foldr].
  { intros _. pose proof (lag_nonneg m f). lia. }
  intros (Hf & Hne & Hs). destruct (fq_step mtu m e) as [[m1 l]|] eqn:E; [|done].
  destruct (step_QInv mtu m e m1 l HQ E) as [HQ1 Hlag]. specialize (IH m1 HQ1 Hs).
  assert (f ∈ queued m1) as Hf1 by (destruct es; apply Hs).
  specialize (Hlag Hne f Hf Hf1). fold (dones es). lia.
Qed.

Section theorems.
Context (mtu weight : Z) (cancel : bool) (m0 : PacketPassFairQueue).
Context (mtu_ok : 0 <= mtu) (weight_ok : 0 < weight).
Context (init : PacketPassFairQueue_Init mtu cancel weight = Some m0).

(** C15: the fair queue sends the packet of least virtual time and is never idle
    with work to do. In every state it reaches, whatever flows come and go: the
    tree holds exactly the flows with a packet waiting, in the order of their
    current times although times are rewritten behind its back; the flow being
    sent has a time no later than any waiting one; if a packet waits, one is being
    sent or the job that will start one is set; and all times fit a [uint64_t]. *)
Theorem fairqueue_order es m :
  fq_run mtu m0 es = Some m ->
  StronglySorted (fun a b => flow_lt m a b = true) (queued m) /\
  (forall f, f ∈ queued m <-> exists x, flows m !! f = Some x /\ is_queued x = true) /\
  (forall f g, sending_flow m = Some f -> g ∈ queued m -> ftime m f <= ftime m g) /\
  (queued m <> [] -> is_Some (sending_flow m) \/ schedule_job m = true) /\
  (forall f x, flows m !! f = Some x -> 0 <= time x <= UINT64_MAX).
Proof.
  intros Hr. pose proof (run_QInv mtu m0 es m (init_QInv _ _ _ _ mtu_ok weight_ok init) Hr) as HQ.
  destruct HQ as [_ _ _ H4 H5 H6 _ H8 _ H10]. split_and!; try done.
  intros f g Hf Hg. destruct (H8 f Hf) as (_ & _ & _ & _ & _ & Hmin). auto.
Qed.

(** C16: no flow starves. From any state the queue reaches, while a flow's packet
    waits and no flow is added, at most [lag] packets of other flows are sent,
    where [lag] is computed from the times at the start. *)
Theorem fairqueue_no_starvation es m f es' :
  fq_run mtu m0 es = Some m -> stays_queued mtu m f es' -> dones es' <= lag m f.
Proof.
  intros Hr. apply stays_lag. eapply run_QInv; [|exact Hr]. eapply init_QInv; done.
Qed.

(** Virtual time is exact across overflow. A completed packet charges its
    flow with the packet's weight and length and reduces all times by one common
    amount, no larger than the time of any waiting flow; in 64-bit arithmetic
    that wraps around, the flow's new time and every waiting flow's new time are
    the mathematical values, so differences between waiting flows are kept. *)
Theorem fairqueue_charge es m flow m' l :
  fq_run mtu m0 es = Some m -> sending_flow m = Some flow ->
  output_handler_done m = Some (m', l) ->
  exists sub, 0 <= sub /\
    ftime m' flow = ftime m flow + (packet_weight m + sending_len m) - sub /\
    (forall g, g ∈ queued m -> ftime m' g = ftime m g - sub /\ 0 <= ftime m' g) /\
    queued m' = queued m /\ hd_error l = Some (Flow_Done flow).
Proof.
  intros Hr Hs Hd. pose proof (run_QInv mtu m0 es m (init_QInv _ _ _ _ mtu_ok weight_ok init) Hr) as HQ.
  destruct (output_done_QInv mtu m flow HQ Hs) as (m2 & l2 & sub & Hd2 & _ & _ & Hq & _ & _ & Hsub & Hsq & Ht).
  rewrite Hd in Hd2. injection Hd2 as -> ->. exists sub.
  destruct (i_sending _ _ HQ flow Hs) as (Hfl & Hnq & _).
  split; [done|]. split; [rewrite (Ht flow Hfl), decide_True by done; done|]. split; [|done].
  intros g Hg. pose proof (Hsq g Hg).
  assert (is_Some (flows m !! g)) as Hgs by (apply (i_tree _ _ HQ) in Hg as (y & Hy & _); eauto).
  rewrite (Ht g Hgs), decide_False by (intros ->; done). lia.
Qed.
End theorems.
End fairqueue.

(** A run of two flows on the list tree: flow 1 sends twice, flow 2 waits. *)
Definition example_queue : PacketPassFairQueue :=
  FQ (T := list nat) false 2 None 0 None [] [] false false ∅.
Definition example_events : list event :=
  [EInit 1; EInit 2; ESend 1 100 5; ESend 2 200 3; EDone; ESend 1 101 5]%nat.

Lemma example_queue_init : PacketPassFairQueue_Init 10 false 2 = Some example_queue.
Proof. vm_compute. reflexivity. Qed.

Lemma fairqueue_order_witness :
  exists m, fq_run 10 example_queue example_events = Some m /\ queued m = [2; 1]%nat /\
    StronglySorted (fun a b => flow_lt m a b = true) (queued m).
Proof.
  destruct (fq_run 10 example_queue example_events) as [m|] eqn:E; [|vm_compute in E; discriminate E].
  exists m. split; [reflexivity|]. split; [vm_compute in E; injection E as <-; reflexivity|].
  apply (fairqueue_order 10 2 false example_queue ltac:(lia) ltac:(lia) example_queue_init example_events m E).
Defined.

Lemma fairqueue_no_starvation_witness :
  exists m, fq_run 10 example_queue [EInit 1; EInit 2; ESend 1 100 5; ESend 2 200 3]%nat = Some m /\
    dones [EDone; ESend 1 101 5]%nat <= lag m 2%nat.
Proof.
  destruct (fq_run 10 example_queue _) as [m|] eqn:E; [|vm_compute in E; discriminate E].
  exists m. split; [reflexivity|].
  apply (fairqueue_no_starvation 10 2 false example_queue ltac:(lia) ltac:(lia) example_queue_init _ m 2%nat _ E).
  vm_compute in E. injection E as <-. cbn [stays_queued].
  split; [vm_compute; set_solver|]. split; [discriminate|]. vm_compute.
  split; [set_solver|]. split; [discriminate|]. split; [set_solver|exact I].
Defined.

Lemma fairqueue_charge_witness :
  exists m m' l, fq_run 10 example_queue [EInit 1; EInit 2; ESend 1 100 5; ESend 2 200 3]%nat = Some m /\
    output_handler_done m = Some (m', l) /\
    exists sub, 0 <= sub /\ ftime m' 1%nat = ftime m 1%nat + (packet_weight m + sending_len m) - sub.
Proof.
  destruct (fq_run 10 example_queue _) as [m|] eqn:E; [|vm_compute in E; discriminate E].
  assert (sending_flow m = Some 1%nat) as Hs by (vm_compute in E; injection E as <-; reflexivity).
  destruct (output_handler_done m) as [[m' l]|] eqn:Ed;
    [|vm_compute in E; injection E as <-; vm_compute in Ed; discriminate Ed].
  exists m, m', l. split; [reflexivity|]. split; [exact Ed|].
  destruct (fairqueue_charge 10 2 false example_queue ltac:(lia) ltac:(lia) example_queue_init _ m 1%nat m' l E Hs Ed)
    as (sub & H1 & H2 & _). exists sub. split; [exact H1|exact H2].
Defined.
