(* ===== verification/BAddr.v ===== *)
(** * Socket addresses and the comparators of the lookup trees

    [system/BAddr.h] with [misc/compare.h]: IPv4 and IPv6 socket addresses, their
    equality test and their ordering. [BAVL] trees need a comparator that is a
    total order ([structure/BAVL.h]); the class [Comparator] states it, and the
    comparators of the program are shown to be instances. Addresses and ports are
    the integers that hold them, in network order, as in the C structures. Link
    layer addresses ([BADDR_TYPE_PACKET]) are not used by the program. *)

From Stdlib Require Import ZArith Lia.
From stdpp Require Import countable.
From S2P Require Import Prelude ByteOrder.

Inductive BAddr :=
| BAddr_None
| BAddr_IPv4 (ip port : Z)
| BAddr_IPv6 (ip : list byte) (port : Z).

Definition BADDR_TYPE_NONE : Z := 0.
Definition BADDR_TYPE_IPV4 : Z := 1.
Definition BADDR_TYPE_IPV6 : Z := 2.

Definition BAddr_type (a : BAddr) : Z :=
  match a with
  | BAddr_None => BADDR_TYPE_NONE
  | BAddr_IPv4 _ _ => BADDR_TYPE_IPV4
  | BAddr_IPv6 _ _ => BADDR_TYPE_IPV6
  end.

(** What the fields' types allow. *)
Definition BAddr_ok (a : BAddr) : Prop :=
  match a with
  | BAddr_None => True
  | BAddr_IPv4 ip port => 0 <= ip < 2 ^ 32 /\ 0 <= port < 2 ^ 16
  | BAddr_IPv6 ip port => length ip = 16%nat /\ 0 <= port < 2 ^ 16
  end.

#[export] Instance BAddr_eq_dec : EqDecision BAddr.
Proof. solve_decision. Defined.

#[export] Instance BAddr_countable : Countable BAddr.
Proof.
  apply (inj_countable' (fun a => match a with
    | BAddr_None => inl tt
    | BAddr_IPv4 ip port => inr (inl (ip, port))
    | BAddr_IPv6 ip port => inr (inr (ip, port))
    end) (fun x => match x with
    | inl tt => BAddr_None
    | inr (inl (ip, port)) => BAddr_IPv4 ip port
    | inr (inr (ip, port)) => BAddr_IPv6 ip port
    end)).
  intros [| |]; reflexivity.
Defined.

Definition B_COMPARE (a b : Z) : Z := (if b <? a then 1 else 0) - (if a <? b then 1 else 0).

(** [memcmp]: the sign of the first difference of bytes as [unsigned char]. *)
Fixpoint memcmp (l k : list byte) : Z :=
  match l, k with
  | a :: l', b :: k' => let c := B_COMPARE (b2z a) (b2z b) in if c =? 0 then memcmp l' k' else c
  | _, _ => 0
  end.

Definition BAddr_IsInvalid (a : BAddr) : bool := BAddr_type a =? BADDR_TYPE_NONE.

Definition BAddr_Compare (addr1 addr2 : BAddr) : bool :=
  match addr1, addr2 with
  | BAddr_IPv4 ip1 port1, BAddr_IPv4 ip2 port2 => (ip1 =? ip2) && (port1 =? port2)
  | BAddr_IPv6 ip1 port1, BAddr_IPv6 ip2 port2 => (memcmp ip1 ip2 =? 0) && (port1 =? port2)
  | _, _ => false
  end.

Definition BAddr_CompareOrder (addr1 addr2 : BAddr) : Z :=
  let cmp := B_COMPARE (BAddr_type addr1) (BAddr_type addr2) in
  if negb (cmp =? 0) then cmp else
  match addr1, addr2 with
  | BAddr_IPv4 ip1 port1, BAddr_IPv4 ip2 port2 =>
      let cmp := B_COMPARE (ntoh32 ip1) (ntoh32 ip2) in
      if negb (cmp =? 0) then cmp else B_COMPARE (ntoh16 port1) (ntoh16 port2)
  | BAddr_IPv6 ip1 port1, BAddr_IPv6 ip2 port2 =>
      let cmp := memcmp ip1 ip2 in
      if negb (cmp =? 0) then B_COMPARE cmp 0 else B_COMPARE (ntoh16 port1) (ntoh16 port2)
  | _, _ => 0
  end.

(** ** What a tree asks of its comparator *)

Class Comparator {A} (ok : A -> Prop) (c : A -> A -> Z) : Prop := {
  cmp_range : forall x y, c x y = -1 \/ c x y = 0 \/ c x y = 1;
  cmp_eq : forall x y, ok x -> ok y -> (c x y = 0 <-> x = y);
  cmp_antisym : forall x y, c y x = - c x y;
  cmp_trans : forall x y z, ok x -> ok y -> ok z -> c x y <= 0 -> c y z <= 0 -> c x z <= 0
}.

#[export] Instance B_COMPARE_Comparator : Comparator (fun _ => True) B_COMPARE.
Proof.
  split; unfold B_COMPARE; intros;
    repeat match goal with
    | |- context [?a <? ?b] => destruct (Z.ltb_spec a b)
    | H : context [?a <? ?b] |- _ => destruct (Z.ltb_spec a b)
    end; lia.
Qed.

(** Two comparators one after the other. *)
Definition cmp_then {A B} (c1 : A -> A -> Z) (c2 : B -> B -> Z) (x y : A * B) : Z :=
  let r := c1 (fst x) (fst y) in if negb (r =? 0) then r else c2 (snd x) (snd y).

#[export] Instance cmp_then_Comparator {A B} ok1 ok2 (c1 : A -> A -> Z) (c2 : B -> B -> Z) :
  Comparator ok1 c1 -> Comparator ok2 c2 ->
  Comparator (fun p => ok1 (fst p) /\ ok2 (snd p)) (cmp_then c1 c2).
Proof.
  intros C1 C2. split; unfold cmp_then.
  - intros [a b] [a' b']; cbn. destruct (Z.eqb_spec (c1 a a') 0); cbn; [apply (cmp_range (Comparator := C2))|apply (cmp_range (Comparator := C1))].
  - intros [a b] [a' b'] [Ha Hb] [Ha' Hb']; cbn in *.
    pose proof (cmp_eq (Comparator := C1) a a' Ha Ha'). pose proof (cmp_eq (Comparator := C2) b b' Hb Hb').
    destruct (Z.eqb_spec (c1 a a') 0); cbn; [|naive_solver congruence]. split; [intros; f_equal; tauto|]. intros [= -> ->]. tauto.
  - intros [a b] [a' b']; cbn. rewrite (cmp_antisym (Comparator := C1) a a').
    destruct (Z.eqb_spec (c1 a a') 0), (Z.eqb_spec (- c1 a a') 0); cbn; try lia. apply (cmp_antisym (Comparator := C2)).
  - intros [a b] [a' b'] [a2 b2] [Ha Hb] [Ha' Hb'] [Ha2 Hb2]; cbn in *. intros H1 H2.
    pose proof (cmp_eq (Comparator := C1) a a' Ha Ha') as E1. pose proof (cmp_eq (Comparator := C1) a' a2 Ha' Ha2) as E2.
    pose proof (cmp_eq (Comparator := C1) a a2 Ha Ha2) as E3.
    destruct (Z.eqb_spec (c1 a a') 0) as [e1|n1]; cbn in H1.
    { apply E1 in e1 as ->. destruct (Z.eqb_spec (c1 a' a2) 0); cbn in *; [|lia].
      eapply (cmp_trans (Comparator := C2)); [..|exact H1|exact H2]; done. }
    assert (c1 a' a2 <= 0) as H2'.
    { destruct (Z.eqb_spec (c1 a' a2) 0); cbn in H2; lia. }
    pose proof (cmp_trans (Comparator := C1) a a' a2 Ha Ha' Ha2 H1 H2') as H3.
    destruct (Z.eqb_spec (c1 a a2) 0) as [e3|]; cbn; [|lia]. exfalso.
    apply E3 in e3 as ->. rewrite (cmp_antisym (Comparator := C1) a' a2) in *. lia.
Qed.

(** A comparator through an injective key. *)
Lemma Comparator_key {A B} (okA : A -> Prop) (okB : B -> Prop) (k : A -> B) (c : B -> B -> Z) (d : A -> A -> Z) :
  Comparator okB c -> (forall x, okA x -> okB (k x)) ->
  (forall x y, okA x -> okA y -> k x = k y -> x = y) -> (forall x y, d x y = c (k x) (k y)) ->
  Comparator okA d.
Proof.
  intros C Hok Hinj Hd. split.
  - intros x y. rewrite Hd. apply (cmp_range (Comparator := C)).
  - intros x y Hx Hy. rewrite Hd, (cmp_eq (Comparator := C)) by auto. split; [auto|intros ->; done].
  - intros x y. rewrite !Hd. apply (cmp_antisym (Comparator := C)).
  - intros x y z Hx Hy Hz. rewrite !Hd. apply (cmp_trans (Comparator := C)); auto.
Qed.

Lemma memcmp_range l : forall k, memcmp l k = -1 \/ memcmp l k = 0 \/ memcmp l k = 1.
Proof.
  induction l as [|a l IH]; intros [|b k]; cbn [memcmp]; auto.
  destruct (Z.eqb_spec (B_COMPARE (b2z a) (b2z b)) 0); [apply IH|apply cmp_range].
Qed.

#[export] Instance memcmp_Comparator n : Comparator (fun l => length l = n) memcmp.
Proof.
  split.
  - apply memcmp_range.
  - induction n as [|n IH]; intros [|a x] [|b y]; cbn [memcmp length]; try done; intros Hx Hy.
    pose proof (cmp_eq (c := B_COMPARE) (b2z a) (b2z b) I I) as E.
    destruct (Z.eqb_spec (B_COMPARE (b2z a) (b2z b)) 0) as [e|n'].
    + apply E, b2z_inj in e as ->. rewrite (IH x y) by lia. split; [intros ->; done|intros [= ->]; done].
    + split; [done|]. intros [= -> ->]. tauto.
  - induction x as [|a x IH]; intros [|b y]; cbn [memcmp]; try done.
    rewrite (cmp_antisym (c := B_COMPARE) (b2z a) (b2z b)).
    destruct (Z.eqb_spec (B_COMPARE (b2z a) (b2z b)) 0), (Z.eqb_spec (- B_COMPARE (b2z a) (b2z b)) 0); try lia. apply IH.
  - induction n as [|n IH]; intros [|a x] [|b y] [|c z]; cbn [memcmp length]; try done; intros Hx Hy Hz H1 H2.
    pose proof (cmp_eq (c := B_COMPARE) (b2z a) (b2z b) I I) as E1.
    pose proof (cmp_eq (c := B_COMPARE) (b2z a) (b2z c) I I) as E3.
    destruct (Z.eqb_spec (B_COMPARE (b2z a) (b2z b)) 0) as [e1|n1].
    { apply E1, b2z_inj in e1 as ->. destruct (Z.eqb_spec (B_COMPARE (b2z b) (b2z c)) 0); [|done].
      apply (IH x y z); lia. }
    assert (B_COMPARE (b2z b) (b2z c) <= 0) as H2' by (destruct (Z.eqb_spec (B_COMPARE (b2z b) (b2z c)) 0); lia).
    pose proof (cmp_trans (c := B_COMPARE) (b2z a) (b2z b) (b2z c) I I I H1 H2') as H3.
    destruct (Z.eqb_spec (B_COMPARE (b2z a) (b2z c)) 0) as [e3|]; [|done]. exfalso.
    apply E3, b2z_inj in e3 as ->. rewrite (cmp_antisym (c := B_COMPARE) (b2z b) (b2z c)) in *. lia.
Qed.

(** The key the ordering of addresses goes by. *)
Definition addr_key (a : BAddr) : Z * (Z * (list byte * Z)) :=
  match a with
  | BAddr_None => (BADDR_TYPE_NONE, (0, (repeat x00 16, 0)))
  | BAddr_IPv4 ip port => (BADDR_TYPE_IPV4, (ntoh32 ip, (repeat x00 16, ntoh16 port)))
  | BAddr_IPv6 ip port => (BADDR_TYPE_IPV6, (0, (ip, ntoh16 port)))
  end.

Lemma B_COMPARE_refl z : B_COMPARE z z = 0.
Proof. unfold B_COMPARE. rewrite Z.ltb_irrefl. done. Qed.

Lemma B_COMPARE_sign c : c = -1 \/ c = 0 \/ c = 1 -> B_COMPARE c 0 = c.
Proof. intros [->|[->| ->]]; done. Qed.

#[export] Instance BAddr_CompareOrder_Comparator : Comparator BAddr_ok BAddr_CompareOrder.
Proof.
  eapply (Comparator_key BAddr_ok _ addr_key
    (cmp_then B_COMPARE (cmp_then B_COMPARE (cmp_then memcmp B_COMPARE)))).
  - apply cmp_then_Comparator; [apply _|]. apply cmp_then_Comparator; [apply _|].
    apply cmp_then_Comparator; [apply (memcmp_Comparator 16)|apply _].
  - intros [|ip port|ip port]; cbn; tauto.
  - intros [|ip port|ip port] [|ip' port'|ip' port']; cbn [addr_key BAddr_ok]; try done.
    + intros [H1 H2] [H3 H4] [= E1 E2]. f_equal; [apply ntoh32_inj|apply hton16_inj]; done.
    + intros [H1 H2] [H3 H4] [= -> E2]. f_equal. apply hton16_inj; done.
  - intros [|ip port|ip port] [|ip' port'|ip' port']; unfold BAddr_CompareOrder, cmp_then; cbn [addr_key fst snd BAddr_type];
      rewrite ?B_COMPARE_refl; try done.
    cbn [negb Z.eqb]. destruct (Z.eqb_spec (memcmp ip ip') 0); cbn [negb]; [done|]. apply B_COMPARE_sign, memcmp_range.
Qed.

(** The equality test agrees with the ordering on usable addresses. *)
Lemma BAddr_Compare_order a b :
  BAddr_ok a -> BAddr_ok b -> BAddr_IsInvalid a = false ->
  BAddr_Compare a b = (BAddr_CompareOrder a b =? 0).
Proof.
  intros Ha Hb Hi. apply eq_true_iff_eq. rewrite Z.eqb_eq, (cmp_eq (c := BAddr_CompareOrder)) by done.
  destruct a as [|ip port|ip port], b as [|ip' port'|ip' port']; cbn; try done;
    rewrite andb_true_iff, !Z.eqb_eq.
  - split; [intros [-> ->]; done|intros [= -> ->]; done].
  - destruct Ha as [Hl _], Hb as [Hl' _]. rewrite (cmp_eq (Comparator := memcmp_Comparator 16)) by done.
    split; [intros [-> ->]; done|intros [= -> ->]; done].
Qed.
