(* ===== verification/BAVL.v ===== *)
(** * The AVL tree

    [structure/BAVL.h], the intrusive ordered tree that indexes the connections of
    the udpgw client and the redirected DNS queries. The model keeps the nodes
    in a heap, with their parent and child pointers and balance factors; reading
    or writing through a null or dangling pointer gives [None]. A node's value,
    which the source finds at a fixed offset from the node, and the comparator
    are arguments; of the comparator the tree asks what the class [Comparator] of
    [BAddr.v] states. Balance factors stay between -2 and 2, so the conversions to
    [int8_t] change nothing. *)

From Stdlib Require Import Sorted.
From S2P Require Import Prelude.
From S2P Require Import BAddr.

Record BAVLNode := Node {
  parent : option positive;
  link0 : option positive;
  link1 : option positive;
  balance : Z;
}.

Record BAVL := Tree { root : option positive; nodes : gmap positive BAVLNode }.

(** A side is [true] for 1. *)
Definition link (s : bool) (n : BAVLNode) : option positive := if s then link1 n else link0 n.

Definition set_parent (v : option positive) (n : BAVLNode) : BAVLNode := Node v (link0 n) (link1 n) (balance n).
Definition set_link (s : bool) (v : option positive) (n : BAVLNode) : BAVLNode :=
  if s then Node (parent n) (link0 n) v (balance n) else Node (parent n) v (link1 n) (balance n).
Definition set_balance (v : Z) (n : BAVLNode) : BAVLNode := Node (parent n) (link0 n) (link1 n) v.

Definition parent_of (p : positive) (o : BAVL) : option (option positive) := parent <$> nodes o !! p.
Definition link_of (p : positive) (s : bool) (o : BAVL) : option (option positive) := link s <$> nodes o !! p.
Definition balance_of (p : positive) (o : BAVL) : option Z := balance <$> nodes o !! p.

Definition set_root (v : option positive) (o : BAVL) : BAVL := Tree v (nodes o).
Definition store_node (p : positive) (n : BAVLNode) (o : BAVL) : BAVL := Tree (root o) (<[p := n]> (nodes o)).

Definition upd (p : positive) (f : BAVLNode -> BAVLNode) (o : BAVL) : option BAVL :=
  n ← nodes o !! p; Some (store_node p (f n) o).

(** [if (c) c->parent = par;] *)
Definition adopt (c par : option positive) (o : BAVL) : option BAVL :=
  match c with Some c => upd c (set_parent par) o | None => Some o end.

(** [if (par) par->link[old == par->link[1]] = new; else root = new;] *)
Definition relink (par : option positive) (old : positive) (new : option positive) (o : BAVL) : option BAVL :=
  match par with
  | Some q => l ← link_of q true o; upd q (set_link (bool_decide (l = Some old)) new) o
  | None => Some (set_root new o)
  end.

Definition BAVL_OPTNEG (a : Z) (neg : bool) : Z := if neg then - a else a.

Definition BAVL_rotate (o : BAVL) (r : positive) (dir : bool) : option BAVL :=
  l ← link_of r (negb dir) o;
  nr ← l;
  b ← link_of nr dir o;
  o ← upd r (set_link (negb dir) b) o;
  o ← adopt b (Some r) o;
  o ← upd nr (set_link dir (Some r)) o;
  par ← parent_of r o;
  o ← upd nr (set_parent par) o;
  o ← relink par r (Some nr) o;
  upd r (set_parent (Some nr)) o.

Fixpoint BAVL_subtree_end (fuel : nat) (o : BAVL) (s : bool) (n : positive) : option positive :=
  match fuel with
  | O => None
  | S fuel' =>
      l ← link_of n s o;
      match l with Some n' => BAVL_subtree_end fuel' o s n' | None => Some n end
  end.

(** One more than the nodes in memory. *)
Definition tree_fuel (o : BAVL) : nat := S (size (nodes o)).

Definition BAVL_subtree_max (o : BAVL) (n : positive) : option positive := BAVL_subtree_end (tree_fuel o) o true n.

Definition BAVL_replace_subtree (o : BAVL) (dest : positive) (n : option positive) : option BAVL :=
  par ← parent_of dest o;
  o ← relink par dest n o;
  adopt n par o.

(** The nodes are directly connected, [n1] above [n2]. *)
Definition swap_adjacent (o : BAVL) (n1 n2 : positive) : option BAVL :=
  l ← link_of n1 true o;
  let side := bool_decide (l = Some n2) in
  c ← link_of n1 (negb side) o;
  l ← link_of n2 false o;
  o ← upd n1 (set_link false l) o;
  o ← adopt l (Some n1) o;
  l ← link_of n2 true o;
  o ← upd n1 (set_link true l) o;
  o ← adopt l (Some n1) o;
  par ← parent_of n1 o;
  o ← upd n2 (set_parent par) o;
  o ← relink par n1 (Some n2) o;
  o ← upd n2 (set_link side (Some n1)) o;
  o ← upd n1 (set_parent (Some n2)) o;
  o ← upd n2 (set_link (negb side) c) o;
  adopt c (Some n2) o.

Definition swap_children (s : bool) (n1 n2 : positive) (o : BAVL) : option BAVL :=
  temp ← link_of n1 s o;
  l ← link_of n2 s o;
  o ← upd n1 (set_link s l) o;
  o ← adopt l (Some n1) o;
  o ← upd n2 (set_link s temp) o;
  adopt temp (Some n2) o.

Definition swap_apart (o : BAVL) (n1 n2 : positive) : option BAVL :=
  temp ← parent_of n1 o;
  par ← parent_of n2 o;
  o ← upd n1 (set_parent par) o;
  o ← relink par n2 (Some n1) o;
  o ← upd n2 (set_parent temp) o;
  o ← relink temp n1 (Some n2) o;
  o ← swap_children false n1 n2 o;
  swap_children true n1 n2 o.

Definition BAVL_swap_nodes (o : BAVL) (n1 n2 : positive) : option BAVL :=
  p2 ← parent_of n2 o;
  p1 ← parent_of n1 o;
  o ← (if bool_decide (p2 = Some n1 \/ p1 = Some n2) then
         if bool_decide (p1 = Some n2) then swap_adjacent o n2 n1 else swap_adjacent o n1 n2
       else swap_apart o n1 n2);
  b ← balance_of n1 o;
  b2 ← balance_of n2 o;
  o ← upd n1 (set_balance b2) o;
  upd n2 (set_balance b) o.

(** The transformations of [_BAVL_rebalance]: the tree, the node now in place of
    [node], and the change of height. *)
Definition restore_balance (o : BAVL) (node : positive) (delta : Z) : option (BAVL * positive * Z) :=
  bal ← balance_of node o;
  if (bal =? 2) || (bal =? -2) then
    let bside := bal =? 2 in
    let bsidef := if bside then 1 else -1 in
    l ← link_of node bside o;
    child ← l;
    cb ← balance_of child o;
    if cb * bsidef =? 1 then
      o ← BAVL_rotate o node (negb bside);
      o ← upd node (set_balance 0) o;
      o ← upd child (set_balance 0) o;
      Some (o, child, delta - 1)
    else if cb * bsidef =? 0 then
      o ← BAVL_rotate o node (negb bside);
      o ← upd node (set_balance (1 * bsidef)) o;
      o ← upd child (set_balance (-1 * bsidef)) o;
      Some (o, child, delta)
    else if cb * bsidef =? -1 then
      l ← link_of child (negb bside) o;
      gchild ← l;
      o ← BAVL_rotate o child bside;
      o ← BAVL_rotate o node (negb bside);
      gb ← balance_of gchild o;
      o ← upd node (set_balance (- Z.max 0 (gb * bsidef) * bsidef)) o;
      o ← upd child (set_balance (Z.max 0 (- gb * bsidef) * bsidef)) o;
      o ← upd gchild (set_balance 0) o;
      Some (o, gchild, delta - 1)
    else Some (o, node, delta)
  else Some (o, node, delta).

(** One level: the balance factor of [node] for a change of height of the
    subtree on one side, and the transformations. *)
Definition rebalance_node (o : BAVL) (node : positive) (side : bool) (deltac : Z) : option (BAVL * positive * Z) :=
  bal ← balance_of node o;
  let delta := Z.max deltac (BAVL_OPTNEG bal side) - Z.max 0 (BAVL_OPTNEG bal side) in
  o ← upd node (set_balance (bal - BAVL_OPTNEG deltac side)) o;
  restore_balance o node delta.

Fixpoint BAVL_rebalance (fuel : nat) (o : BAVL) (node : positive) (side : bool) (deltac : Z) : option BAVL :=
  match fuel with
  | O => None
  | S fuel' =>
      if deltac =? 0 then Some o else
      '(o, node, delta) ← rebalance_node o node side deltac;
      par ← parent_of node o;
      match par with
      | Some p => l ← link_of p true o; BAVL_rebalance fuel' o p (bool_decide (l = Some node)) delta
      | None => Some o
      end
  end.

Definition BAVL_Init : BAVL := Tree None ∅.

Definition BAVL_IsEmpty (o : BAVL) : bool := match root o with None => true | Some _ => false end.

Section Operations.

Context {V : Type} (comparator : V -> V -> Z).

(** The descent of [BAVL_Insert] and of the lookups: where it stops, and on which
    side the value would be, unless the node there has an equal value. *)
Fixpoint descend (fuel : nat) (o : BAVL) (value : positive -> V) (val : V) (c : positive) : option (positive * option bool) :=
  match fuel with
  | O => None
  | S fuel' =>
      let comp := comparator val (value c) in
      if comp =? 0 then Some (c, None) else
      let side := comp =? 1 in
      l ← link_of c side o;
      match l with
      | Some c' => descend fuel' o value val c'
      | None => Some (c, Some side)
      end
  end.

(** The result, [*ref] and the new tree. *)
Definition BAVL_Insert (o : BAVL) (value : positive -> V) (node : positive) : option (bool * option positive * BAVL) :=
  match root o with
  | None => Some (true, None, set_root (Some node) (store_node node (Node None None None 0) o))
  | Some r =>
      '(c, found) ← descend (tree_fuel o) o value (value node) r;
      match found with
      | None => Some (false, Some c, o)
      | Some side =>
          o ← upd c (set_link side (Some node)) o;
          let o := store_node node (Node (Some c) None None 0) o in
          o ← BAVL_rebalance (tree_fuel o) o c side 1;
          Some (true, Some c, o)
      end
  end.

Definition BAVL_Lookup (o : BAVL) (value : positive -> V) (val : V) : option (option positive) :=
  match root o with
  | None => Some None
  | Some r => '(c, _) ← descend (tree_fuel o) o value val r; Some (Some c)
  end.

Definition BAVL_LookupExact (o : BAVL) (value : positive -> V) (val : V) : option (option positive) :=
  match root o with
  | None => Some None
  | Some r =>
      '(c, found) ← descend (tree_fuel o) o value val r;
      Some (match found with None => Some c | Some _ => None end)
  end.

End Operations.

Definition BAVL_Remove (o : BAVL) (node : positive) : option BAVL :=
  l0 ← link_of node false o;
  l1 ← link_of node true o;
  o ← match l0, l1 with
      | Some l, Some _ => max ← BAVL_subtree_max o l; BAVL_swap_nodes o node max
      | _, _ => Some o
      end;
  par ← parent_of node o;
  l0 ← link_of node false o;
  l1 ← link_of node true o;
  let child := match l0 with Some l => Some l | None => l1 end in
  match par with
  | Some p =>
      l ← link_of p true o;
      let side := bool_decide (l = Some node) in
      o ← BAVL_replace_subtree o node child;
      BAVL_rebalance (tree_fuel o) o p side (-1)
  | None => BAVL_replace_subtree o node child
  end.

(** [BAVL_GetFirst] for side 0 and [BAVL_GetLast] for side 1. *)
Definition get_end (s : bool) (o : BAVL) : option (option positive) :=
  match root o with
  | None => Some None
  | Some r => Some <$> BAVL_subtree_end (tree_fuel o) o s r
  end.

Definition BAVL_GetFirst (o : BAVL) : option (option positive) := get_end false o.
Definition BAVL_GetLast (o : BAVL) : option (option positive) := get_end true o.

(** [while (n->parent && n == n->parent->link[s]) n = n->parent; n = n->parent;] *)
Fixpoint climb (fuel : nat) (o : BAVL) (s : bool) (n : positive) : option (option positive) :=
  match fuel with
  | O => None
  | S fuel' =>
      par ← parent_of n o;
      match par with
      | None => Some None
      | Some p =>
          l ← link_of p s o;
          if bool_decide (l = Some n) then climb fuel' o s p else Some (Some p)
      end
  end.

(** The neighbour on side [s]. *)
Definition neighbour (s : bool) (o : BAVL) (n : positive) : option (option positive) :=
  l ← link_of n s o;
  match l with
  | Some c => Some <$> BAVL_subtree_end (tree_fuel o) o (negb s) c
  | None => climb (tree_fuel o) o s n
  end.

Definition BAVL_GetNext (o : BAVL) (n : positive) : option (option positive) := neighbour true o n.
Definition BAVL_GetPrev (o : BAVL) (n : positive) : option (option positive) := neighbour false o n.

(** ** Trees and their shape in the heap *)

Inductive tree := E | T (l : tree) (p : positive) (b : Z) (r : tree).

Definition rootp (t : tree) : option positive := match t with E => None | T _ p _ _ => Some p end.

(** The nodes in order. *)
Fixpoint ptrs (t : tree) : list positive :=
  match t with E => [] | T l p _ r => ptrs l ++ p :: ptrs r end.

Fixpoint rep (h : gmap positive BAVLNode) (par : option positive) (t : tree) : Prop :=
  match t with
  | E => True
  | T l p b r => h !! p = Some (Node par (rootp l) (rootp r) b) /\ rep h (Some p) l /\ rep h (Some p) r
  end.

(** Mirror images are treated together: [x] is the subtree on side [s]. *)
Definition tnode (s : bool) (x : tree) (p : positive) (b : Z) (y : tree) : tree := if s then T y p b x else T x p b y.
Definition hnode (s : bool) (par x y : option positive) (b : Z) : BAVLNode := if s then Node par y x b else Node par x y b.

Lemma rep_tnode h par s x p b y :
  rep h par (tnode s x p b y) <-> h !! p = Some (hnode s par (rootp x) (rootp y) b) /\ rep h (Some p) x /\ rep h (Some p) y.
Proof. destruct s; simpl; naive_solver. Qed.

Lemma rootp_tnode s x p b y : rootp (tnode s x p b y) = Some p.
Proof. by destruct s. Qed.

Lemma ptrs_tnode s x p b y : ptrs (tnode s x p b y) ≡ₚ p :: ptrs x ++ ptrs y.
Proof. destruct s; simpl; [rewrite (Permutation_app_comm (ptrs x))|]; by rewrite Permutation_middle. Qed.

Lemma hnode_negb s par x y b : hnode (negb s) par x y b = hnode s par y x b.
Proof. by destruct s. Qed.
Lemma tnode_negb s x p b y : tnode (negb s) x p b y = tnode s y p b x.
Proof. by destruct s. Qed.
Lemma link_hnode s par x y b : link s (hnode s par x y b) = x.
Proof. by destruct s. Qed.
Lemma link_negb_hnode s par x y b : link (negb s) (hnode s par x y b) = y.
Proof. by destruct s. Qed.
Lemma parent_hnode s par x y b : parent (hnode s par x y b) = par.
Proof. by destruct s. Qed.
Lemma balance_hnode s par x y b : balance (hnode s par x y b) = b.
Proof. by destruct s. Qed.
Lemma set_link_hnode s par x y b v : set_link s v (hnode s par x y b) = hnode s par v y b.
Proof. by destruct s. Qed.
Lemma set_link_negb_hnode s par x y b v : set_link (negb s) v (hnode s par x y b) = hnode s par x v b.
Proof. by destruct s. Qed.
Lemma set_parent_hnode s par x y b v : set_parent v (hnode s par x y b) = hnode s v x y b.
Proof. by destruct s. Qed.
Lemma set_balance_hnode s par x y b v : set_balance v (hnode s par x y b) = hnode s par x y v.
Proof. by destruct s. Qed.

Create Rewrite HintDb hnode.
#[export] Hint Rewrite link_hnode link_negb_hnode parent_hnode balance_hnode set_link_hnode set_link_negb_hnode
  set_parent_hnode set_balance_hnode rootp_tnode : hnode.

Lemma rootp_ptrs t p : rootp t = Some p -> p ∈ ptrs t.
Proof. destruct t; simpl; [done|]. intros [= ->]. rewrite elem_of_app, elem_of_cons. auto. Qed.

Lemma rep_frame h h' t : (forall p, p ∈ ptrs t -> h' !! p = h !! p) -> forall par, rep h par t -> rep h' par t.
Proof.
  induction t as [|l IHl p b r IHr]; intros Hf par; [done|]. simpl in *. setoid_rewrite elem_of_app in Hf.
  setoid_rewrite elem_of_cons in Hf. intros (Hp&Hl&Hr). rewrite Hf by auto. split_and!; [done|apply IHl|apply IHr]; auto.
Qed.

(** The path from a subtree to the root, innermost first: the hole is on side
    [side] of node [fp]. *)
Record frame := Frame { side : bool; fp : positive; fb : Z; sib : tree }.

Definition plug1 (f : frame) (t : tree) : tree := tnode (side f) t (fp f) (fb f) (sib f).
Fixpoint plug (ctx : list frame) (t : tree) : tree :=
  match ctx with [] => t | f :: ctx' => plug ctx' (plug1 f t) end.

Definition ctx_par (ctx : list frame) : option positive := match ctx with [] => None | f :: _ => Some (fp f) end.
Definition ctx_ptrs (ctx : list frame) : list positive := concat (map (fun f => fp f :: ptrs (sib f)) ctx).

Fixpoint rep_ctx (o : BAVL) (ctx : list frame) (hole : option positive) : Prop :=
  match ctx with
  | [] => root o = hole
  | f :: ctx' =>
      nodes o !! fp f = Some (hnode (side f) (ctx_par ctx') hole (rootp (sib f)) (fb f)) /\
      rep (nodes o) (Some (fp f)) (sib f) /\ rep_ctx o ctx' (Some (fp f))
  end.

(** The heap holds [t] in the context. *)
Definition Zrep (o : BAVL) (ctx : list frame) (t : tree) : Prop :=
  rep (nodes o) (ctx_par ctx) t /\ rep_ctx o ctx (rootp t) /\ NoDup (ptrs t ++ ctx_ptrs ctx).

Lemma ctx_par_ptrs ctx p : ctx_par ctx = Some p -> p ∈ ctx_ptrs ctx.
Proof. destruct ctx; simpl; [done|]. intros [= <-]. by left. Qed.

Lemma rep_ctx_frame o o' ctx : root o' = root o -> (forall p, p ∈ ctx_ptrs ctx -> nodes o' !! p = nodes o !! p) ->
  forall hole, rep_ctx o ctx hole -> rep_ctx o' ctx hole.
Proof.
  intros Hr. induction ctx as [|f ctx IH]; intros Hf hole; simpl in *; [by rewrite Hr|].
  unfold ctx_ptrs in *. simpl in Hf. setoid_rewrite elem_of_cons in Hf. setoid_rewrite elem_of_app in Hf.
  intros (Hp&Hs&Hc). rewrite Hf by auto. split_and!; [done|eapply rep_frame; [|done]|apply IH]; auto.
Qed.

Lemma Zrep_step o f ctx t : Zrep o (f :: ctx) t <-> Zrep o ctx (plug1 f t).
Proof.
  unfold Zrep, plug1. rewrite rep_tnode, rootp_tnode. simpl.
  assert (Hp : ptrs t ++ ctx_ptrs (f :: ctx) ≡ₚ ptrs (tnode (side f) t (fp f) (fb f) (sib f)) ++ ctx_ptrs ctx).
  { rewrite ptrs_tnode. unfold ctx_ptrs. simpl. rewrite <- Permutation_middle, <- app_assoc. done. }
  rewrite Hp. naive_solver.
Qed.

Lemma Zrep_plug o ctx t : Zrep o ctx t <-> Zrep o [] (plug ctx t).
Proof. revert t. induction ctx as [|f ctx IH]; intros t; [done|]. by rewrite Zrep_step, IH. Qed.

(** ** Pointer assignments *)

Lemma upd_ok p f o n : nodes o !! p = Some n -> upd p f o = Some (store_node p (f n) o).
Proof. unfold upd. by intros ->. Qed.

Lemma adopt_ok o par par' t : rep (nodes o) par t -> NoDup (ptrs t) ->
  exists o', adopt (rootp t) par' o = Some o' /\ rep (nodes o') par' t /\ root o' = root o /\
    forall p, p ∉ ptrs t -> nodes o' !! p = nodes o !! p.
Proof.
  destruct t as [|l p b r]; simpl; [by exists o|]. intros (Hp&Hl&Hr) (Hn1&Hn2&Hn3)%NoDup_app.
  apply NoDup_cons in Hn3 as [Hn3 _]. rewrite (upd_ok _ _ _ _ Hp). eexists. split; [done|]. unfold store_node. cbn [nodes root].
  split_and!; [by rewrite lookup_insert_eq|eapply rep_frame; [|done]|eapply rep_frame; [|done]|done|].
  - intros q Hq. rewrite lookup_insert_ne; [done|]. intros ->. eapply Hn2; [done|]. by left.
  - intros q Hq. rewrite lookup_insert_ne; [done|]. by intros ->.
  - intros q Hq. rewrite lookup_insert_ne; [done|]. intros ->. apply Hq. rewrite elem_of_app, elem_of_cons. auto.
Qed.

(** The side of a child is found by comparing it with [link[1]]. *)
Lemma hole_side s par p t b : p ∉ ptrs t -> bool_decide (link true (hnode s par (Some p) (rootp t) b) = Some p) = s.
Proof. intros Hp. destruct s; simpl; [by apply bool_decide_true|]. apply bool_decide_false. by intros ?%rootp_ptrs. Qed.

Lemma relink_ok o ctx old new : rep_ctx o ctx (Some old) -> NoDup (old :: ctx_ptrs ctx) ->
  exists o', relink (ctx_par ctx) old new o = Some o' /\ rep_ctx o' ctx new /\
    forall p, ctx_par ctx <> Some p -> nodes o' !! p = nodes o !! p.
Proof.
  destruct ctx as [|f ctx]; simpl; [by eexists|]. intros (Hp&Hs&Hc) [Ho Hn]%NoDup_cons. unfold link_of. rewrite Hp.
  cbn [fmap option_fmap option_map mbind option_bind]. rewrite (upd_ok _ _ _ _ Hp). eexists. split; [done|].
  unfold ctx_ptrs in *. cbn [map concat] in Ho, Hn. cbn [app] in Ho, Hn. apply NoDup_cons in Hn as [Hn1 (Hn2&Hn3&Hn4)%NoDup_app].
  rewrite elem_of_app in Hn1. rewrite elem_of_cons, elem_of_app in Ho.
  rewrite hole_side, set_link_hnode by naive_solver. unfold store_node. cbn [nodes root]. split.
  - split; [by rewrite lookup_insert_eq|]. split; [eapply rep_frame; [|done]|eapply rep_ctx_frame; [| |done]; [done|]].
    + intros q Hq. rewrite lookup_insert_ne; [done|]. intros <-. naive_solver.
    + intros q Hq. cbn. rewrite lookup_insert_ne; [done|]. intros <-. naive_solver.
  - intros q Hq. rewrite lookup_insert_ne; [done|]. by intros <-.
Qed.

(** ** Distinct pointers

    [NoDup] of a concatenation is broken into facts about its parts, which
    [apart] uses. *)

Definition disj (A B : list positive) : Prop := forall x, x ∈ A -> x ∉ B.

Lemma disj_sym A B : disj A B -> disj B A.
Proof. intros H x HB HA. by apply (H x). Qed.
Lemma NoDup_parts A B : NoDup (A ++ B) <-> NoDup A /\ disj A B /\ NoDup B.
Proof. apply NoDup_app. Qed.
Lemma disj_cons_l q A B : disj (q :: A) B <-> q ∉ B /\ disj A B.
Proof.
  split.
  - intros H. split; [apply H; by left|]. intros x Hx. apply H. by right.
  - intros [Hq H] x [->|Hx]%elem_of_cons; auto.
Qed.
Lemma disj_comm A B : disj A B <-> disj B A.
Proof. split; apply disj_sym. Qed.
Lemma disj_cons_r q A B : disj A (q :: B) <-> q ∉ A /\ disj A B.
Proof. by rewrite disj_comm, disj_cons_l, (disj_comm B). Qed.
Lemma disj_app_l A B C : disj (A ++ B) C <-> disj A C /\ disj B C.
Proof. unfold disj. setoid_rewrite elem_of_app. split; [auto|]. intros [H1 H2] x [?|?]; auto. Qed.
Lemma disj_app_r A B C : disj A (B ++ C) <-> disj A B /\ disj A C.
Proof. by rewrite disj_comm, disj_app_l, (disj_comm B), (disj_comm C). Qed.
Lemma disj_nil_l A : disj [] A <-> True.
Proof. split; [done|]. intros _ x H. by apply not_elem_of_nil in H. Qed.
Lemma disj_nil_r A : disj A [] <-> True.
Proof. split; [done|]. intros _ x _. apply not_elem_of_nil. Qed.

#[local] Hint Rewrite NoDup_parts (@NoDup_cons positive) disj_cons_r disj_cons_l disj_app_r disj_app_l disj_nil_l disj_nil_r
  (@not_elem_of_cons positive) (@not_elem_of_app positive) : parts.

Ltac parts H := autorewrite with parts in H; destruct_and? H.

Ltac apart1 :=
  first
    [ assumption
    | exact I
    | apply not_eq_sym; assumption
    | apply disj_sym; assumption
    | apply NoDup_nil_2
    | apply not_elem_of_nil
    | match goal with
      | Hp : ?p ∈ ?A, Hq : ?q ∉ ?A |- ?p <> ?q => intros ->; exact (Hq Hp)
      | Hp : ?p ∈ ?A, Hq : ?q ∉ ?A |- ?q <> ?p => intros <-; exact (Hq Hp)
      | Hp : ?p ∈ ?A, Hd : disj ?A ?B |- ?p ∉ ?B => exact (Hd p Hp)
      | Hp : ?p ∈ ?A, Hd : disj ?B ?A |- ?p ∉ ?B => exact (disj_sym _ _ Hd p Hp)
      end ].
Ltac apart := autorewrite with parts; repeat split; apart1.

Lemma store_eq p n o : nodes (store_node p n o) !! p = Some n.
Proof. apply lookup_insert_eq. Qed.
Lemma store_ne p q n o : p <> q -> nodes (store_node q n o) !! p = nodes o !! p.
Proof. intros. apply lookup_insert_ne. congruence. Qed.

Lemma link_of_ok p s o n : nodes o !! p = Some n -> link_of p s o = Some (link s n).
Proof. unfold link_of. by intros ->. Qed.
Lemma parent_of_ok p o n : nodes o !! p = Some n -> parent_of p o = Some (parent n).
Proof. unfold parent_of. by intros ->. Qed.
Lemma balance_of_ok p o n : nodes o !! p = Some n -> balance_of p o = Some (balance n).
Proof. unfold balance_of. by intros ->. Qed.

(** Execute the next access with the contents of the node. *)
Ltac access H :=
  first [rewrite (link_of_ok _ _ _ _ H) | rewrite (parent_of_ok _ _ _ H) | rewrite (balance_of_ok _ _ _ H) | rewrite (upd_ok _ _ _ _ H)];
  cbn [mbind option_bind]; autorewrite with hnode; cbn [mbind option_bind].

Lemma rotate_ok o ctx dir c r br b nr bn a : Zrep o ctx (tnode dir c r br (tnode dir b nr bn a)) ->
  exists o', BAVL_rotate o r dir = Some o' /\ Zrep o' ctx (tnode dir (tnode dir c r br b) nr bn a).
Proof.
  intros (Hrep&Hctx&Hn). rewrite rep_tnode in Hrep. destruct Hrep as (Hr&Hc&Hnr). rewrite rep_tnode in Hnr.
  destruct Hnr as (Hnr&Hb&Ha). rewrite rootp_tnode in *. rewrite !ptrs_tnode in Hn.
  unfold BAVL_rotate. access Hr. access Hnr. access Hr.
  set (o1 := store_node r _ o). parts Hn.
  assert (Hb1 : rep (nodes o1) (Some nr) b).
  { eapply rep_frame; [|done]. intros p Hp. apply store_ne. apart. }
  destruct (adopt_ok o1 _ (Some r) b Hb1) as (o2&->&Hb2&Hroot2&Hf2); [apart|]. cbn [mbind option_bind].
  assert (Hnr2 : nodes o2 !! nr = Some (hnode dir (Some r) (rootp b) (rootp a) bn)).
  { rewrite Hf2 by apart. unfold o1. by rewrite store_ne by apart. }
  access Hnr2. set (o3 := store_node nr _ o2).
  assert (Hr3 : nodes o3 !! r = Some (hnode dir (ctx_par ctx) (rootp c) (rootp b) br)).
  { unfold o3. rewrite store_ne, Hf2 by apart. apply store_eq. }
  access Hr3.
  assert (Hnr3 := store_eq nr (hnode dir (Some r) (Some r) (rootp a) bn) o2). fold o3 in Hnr3.
  access Hnr3. set (o4 := store_node nr _ o3).
  assert (Hctx4 : rep_ctx o4 ctx (Some r)).
  { eapply rep_ctx_frame; [| |done]; [done|]. intros p Hp. unfold o4, o3. rewrite !store_ne, Hf2 by apart. apply store_ne. apart. }
  destruct (relink_ok o4 ctx r (Some nr) Hctx4) as (o5&->&Hctx5&Hf5); [apart|]. cbn [mbind option_bind].
  assert (Hf5' : forall p, p ∉ ctx_ptrs ctx -> nodes o5 !! p = nodes o4 !! p).
  { intros p Hp. apply Hf5. by intros ?%ctx_par_ptrs. }
  assert (Hr5 : nodes o5 !! r = Some (hnode dir (ctx_par ctx) (rootp c) (rootp b) br)).
  { rewrite Hf5' by apart. unfold o4. by rewrite store_ne by apart. }
  access Hr5. eexists. split; [done|]. unfold Zrep. rewrite rootp_tnode, rep_tnode, rootp_tnode, rep_tnode. split_and!.
  - rewrite store_ne, Hf5' by apart. apply store_eq.
  - apply store_eq.
  - eapply rep_frame; [|exact Hc]. intros p Hp. rewrite store_ne, Hf5' by apart. unfold o4, o3. rewrite !store_ne, Hf2 by apart. apply store_ne. apart.
  - eapply rep_frame; [|exact Hb2]. intros p Hp. rewrite store_ne, Hf5' by apart. unfold o4, o3. by rewrite !store_ne by apart.
  - eapply rep_frame; [|exact Ha]. intros p Hp. rewrite store_ne, Hf5' by apart. unfold o4, o3. rewrite !store_ne, Hf2 by apart. apply store_ne. apart.
  - eapply rep_ctx_frame; [| |done]; [done|]. intros p Hp. apply store_ne. apart.
  - rewrite !ptrs_tnode. apart.
Qed.

(** ** Exchange of a node with the greatest node of its left subtree *)

(** A piece of a path: the parent of its outermost node and the node in its hole. *)
Definition seg_par (c : list frame) (outer : option positive) : option positive :=
  match c with [] => outer | g :: _ => Some (fp g) end.

Fixpoint rep_seg (h : gmap positive BAVLNode) (c : list frame) (outer hole : option positive) : Prop :=
  match c with
  | [] => True
  | f :: c' =>
      h !! fp f = Some (hnode (side f) (seg_par c' outer) hole (rootp (sib f)) (fb f)) /\
      rep h (Some (fp f)) (sib f) /\ rep_seg h c' outer (Some (fp f))
  end.

(** The topmost node of the path, or the one in the hole. *)
Fixpoint top (c : list frame) (hole : option positive) : option positive :=
  match c with [] => hole | f :: c' => top c' (Some (fp f)) end.

Lemma rep_ctx_app o c1 c2 hole :
  rep_ctx o (c1 ++ c2) hole <-> rep_seg (nodes o) c1 (ctx_par c2) hole /\ rep_ctx o c2 (top c1 hole).
Proof.
  revert hole. induction c1 as [|f c1 IH]; intros hole; simpl; [naive_solver|]. rewrite IH.
  assert (Hp : ctx_par (c1 ++ c2) = seg_par c1 (ctx_par c2)) by (by destruct c1). rewrite Hp. naive_solver.
Qed.

Lemma rep_seg_app h c1 c2 outer hole :
  rep_seg h (c1 ++ c2) outer hole <-> rep_seg h c1 (seg_par c2 outer) hole /\ rep_seg h c2 outer (top c1 hole).
Proof.
  revert hole. induction c1 as [|f c1 IH]; intros hole; simpl; [naive_solver|]. rewrite IH.
  assert (Hp : seg_par (c1 ++ c2) outer = seg_par c1 (seg_par c2 outer)) by (by destruct c1). rewrite Hp. naive_solver.
Qed.

Lemma rep_seg_frame h h' c outer : (forall p, p ∈ ctx_ptrs c -> h' !! p = h !! p) ->
  forall hole, rep_seg h c outer hole -> rep_seg h' c outer hole.
Proof.
  induction c as [|f c IH]; intros Hf hole; simpl; [done|]. unfold ctx_ptrs in *. simpl in Hf.
  setoid_rewrite elem_of_cons in Hf. setoid_rewrite elem_of_app in Hf.
  intros (Hp&Hs&Hc). rewrite Hf by auto. split_and!; [done|eapply rep_frame; [|done]|apply IH]; auto.
Qed.

Lemma ctx_ptrs_app c1 c2 : ctx_ptrs (c1 ++ c2) = ctx_ptrs c1 ++ ctx_ptrs c2.
Proof. unfold ctx_ptrs. by rewrite map_app, concat_app. Qed.

Lemma ctx_ptrs_cons f c : ctx_ptrs (f :: c) = fp f :: ptrs (sib f) ++ ctx_ptrs c.
Proof. done. Qed.

Lemma top_snoc c g hole : top (c ++ [g]) hole = Some (fp g).
Proof. revert hole. induction c; simpl; auto. Qed.

Lemma top_ptrs f c hole : exists q, top (f :: c) hole = Some q /\ q ∈ ctx_ptrs (f :: c).
Proof.
  revert f hole. induction c as [|g c IH]; intros f hole; [exists (fp f); split; [done|by left]|].
  destruct (IH g (Some (fp f))) as (q&Hq&Hin). exists q. split; [exact Hq|]. rewrite ctx_ptrs_cons, elem_of_cons, elem_of_app. auto.
Qed.

(** The outermost node of a path gets another parent. *)
Lemma adopt_seg o c f outer outer' hole : rep_seg (nodes o) (f :: c) outer hole -> NoDup (ctx_ptrs (f :: c)) ->
  exists o', adopt (top (f :: c) hole) outer' o = Some o' /\ rep_seg (nodes o') (f :: c) outer' hole /\ root o' = root o /\
    forall p, p ∉ ctx_ptrs (f :: c) -> nodes o' !! p = nodes o !! p.
Proof.
  destruct (exists_last (l := f :: c) ltac:(done)) as (c0&g&->). rewrite rep_seg_app, top_snoc, ctx_ptrs_app. simpl.
  intros (Hc&Hg&Hs&_) Hn. unfold ctx_ptrs in Hn at 2. simpl in Hn. rewrite app_nil_r in Hn. parts Hn.
  rewrite (upd_ok _ _ _ _ Hg), set_parent_hnode. eexists. split; [done|]. rewrite rep_seg_app. simpl.
  split_and!; [|apply store_eq| |done|done|].
  - eapply rep_seg_frame; [|exact Hc]. intros p Hp. apply store_ne. apart.
  - eapply rep_frame; [|exact Hs]. intros p Hp. apply store_ne. apart.
  - intros p Hp. apply store_ne. intros ->. apply Hp. rewrite elem_of_app. right. by left.
Qed.

(** [access] for a node given by its fields. *)
Ltac accessn H :=
  first [rewrite (link_of_ok _ _ _ _ H) | rewrite (parent_of_ok _ _ _ H) | rewrite (balance_of_ok _ _ _ H) | rewrite (upd_ok _ _ _ _ H)];
  cbn [mbind option_bind link link0 link1 parent balance set_link set_parent set_balance negb];
  match goal with |- context [store_node ?p ?n ?o] => let o' := fresh "o" in set (o' := store_node p n o) | _ => idtac end.

(** Look a pointer up through the heaps of the context. *)
Ltac through :=
  repeat match goal with
  | |- nodes (store_node ?p ?n ?o) !! ?p = _ => rewrite (store_eq p n o)
  | |- nodes (store_node ?q ?n ?o) !! ?p = _ => rewrite (store_ne p q n o) by apart
  | Hf : forall p, p ∉ _ -> nodes ?o' !! p = nodes ?o !! p |- nodes ?o' !! ?p = _ => rewrite Hf by apart
  | |- nodes ?o !! ?p = _ => is_var o; progress (unfold o)
  end; first [eassumption | reflexivity].

Lemma swap_adjacent_ok o ctx l n2 b2 n1 b1 r : Zrep o (Frame false n1 b1 r :: ctx) (T l n2 b2 E) ->
  exists o', swap_adjacent o n1 n2 = Some o' /\ Zrep o' (Frame false n2 b2 r :: ctx) (T l n1 b1 E).
Proof.
  intros ((H2&Hl&_)&(H1&Hr&Hctx)&Hn). cbn [fp fb sib side rootp hnode ctx_par] in *.
  rewrite ctx_ptrs_cons in Hn. cbn [ptrs fp sib app] in Hn. rewrite <- app_assoc in Hn. parts Hn.
  unfold swap_adjacent. accessn H1. rewrite bool_decide_false by (intros ?%rootp_ptrs; done). cbn [negb].
  accessn H1. accessn H2. accessn H1.
  assert (Hl0 : rep (nodes o0) (Some n2) l) by (eapply rep_frame; [|exact Hl]; intros p Hp; through).
  destruct (adopt_ok o0 _ (Some n1) l Hl0) as (oa&->&Hla&Hra&Hfa); [done|]. cbn [mbind option_bind].
  assert (H2a : nodes oa !! n2 = Some (Node (Some n1) (rootp l) None b2)) by through.
  assert (H1a : nodes oa !! n1 = Some (Node (ctx_par ctx) (rootp l) (rootp r) b1)) by through.
  accessn H2a. accessn H1a. cbn [adopt mbind option_bind].
  assert (H1b : nodes o1 !! n1 = Some (Node (ctx_par ctx) (rootp l) None b1)) by through. accessn H1b.
  assert (H2b : nodes o1 !! n2 = Some (Node (Some n1) (rootp l) None b2)) by through. accessn H2b.
  assert (Hctx2 : rep_ctx o2 ctx (Some n1)).
  { eapply rep_ctx_frame; [| |exact Hctx]; [unfold o2, o1; simpl; by rewrite Hra|]. intros p Hp. through. }
  destruct (relink_ok o2 ctx n1 (Some n2) Hctx2) as (oc&->&Hctxc&Hfc); [apart|]. cbn [mbind option_bind].
  assert (Hfc' : forall p, p ∉ ctx_ptrs ctx -> nodes oc !! p = nodes o2 !! p)
    by (intros p Hp; apply Hfc; by intros ?%ctx_par_ptrs).
  assert (H2c : nodes oc !! n2 = Some (Node (ctx_par ctx) (rootp l) None b2)) by through. accessn H2c.
  assert (H1d : nodes o3 !! n1 = Some (Node (ctx_par ctx) (rootp l) None b1)) by through. accessn H1d.
  assert (H2d : nodes o4 !! n2 = Some (Node (ctx_par ctx) (Some n1) None b2)) by through. accessn H2d.
  assert (Hr5 : rep (nodes o5) (Some n1) r) by (eapply rep_frame; [|exact Hr]; intros p Hp; through).
  destruct (adopt_ok o5 _ (Some n2) r Hr5) as (oe&->&Hre&Hrre&Hfe); [done|].
  exists oe. split; [done|]. split_and!; cbn [rep rep_ctx fp fb sib side hnode rootp ctx_par].
  - split_and!; [through| |done]. eapply rep_frame; [|exact Hla]. intros p Hp. through.
  - split_and!; [through|done|]. eapply rep_ctx_frame; [| |exact Hctxc]; [by rewrite Hrre|]. intros p Hp. through.
  - rewrite ctx_ptrs_cons. cbn [ptrs fp sib]. apart.
Qed.

Lemma relink_some q old new o : relink (Some q) old new o =
  l ← link_of q true o; upd q (set_link (bool_decide (l = Some old)) new) o.
Proof. done. Qed.

Lemma swap_apart_ok o ctx f c l n2 b2 n1 b1 r : side f = true -> Zrep o (f :: c ++ Frame false n1 b1 r :: ctx) (T l n2 b2 E) ->
  exists o', swap_apart o n1 n2 = Some o' /\ Zrep o' (f :: c ++ Frame false n2 b2 r :: ctx) (T l n1 b1 E).
Proof.
  intros Hside ((H2&Hl&_)&Hc&Hn). change (f :: c ++ ?x) with ((f :: c) ++ x) in Hc. rewrite rep_ctx_app in Hc.
  destruct Hc as (Hseg&H1&Hr&Hctx). cbn [fp fb sib side rootp hnode ctx_par] in *.
  change (f :: c ++ ?x) with ((f :: c) ++ x) in Hn. rewrite ctx_ptrs_app, (ctx_ptrs_cons (Frame _ _ _ _)) in Hn.
  cbn [ptrs fp sib app] in Hn. rewrite <- app_assoc in Hn. assert (Hn' := Hn). rewrite ctx_ptrs_cons in Hn'. parts Hn. parts Hn'.
  pose proof Hseg as (Hf&Hfs&_). rewrite Hside in Hf.
  destruct (top_ptrs f c (Some n2)) as (q&Hq&Hqin).
  unfold swap_apart. accessn H1. accessn H2. accessn H1.
  rewrite relink_some.
  assert (Hf0 : nodes o0 !! fp f = Some (hnode true (seg_par c (Some n1)) (Some n2) (rootp (sib f)) (fb f))) by through.
  accessn Hf0. rewrite bool_decide_true by done. accessn Hf0. cbn [hnode link0 link1 parent balance].
  assert (Hseg1 : rep_seg (nodes o1) (f :: c) (Some n1) (Some n1)).
  { destruct Hseg as (_&_&Hseg). cbn [rep_seg]. rewrite Hside. split_and!; [through| |].
    - eapply rep_frame; [|exact Hfs]. intros p Hp. through.
    - eapply rep_seg_frame; [|exact Hseg]. intros p Hp. through. }
  assert (K21 : nodes o1 !! n2 = Some (Node (Some (fp f)) (rootp l) None b2)) by through. accessn K21.
  assert (Hctx2 : rep_ctx o2 ctx (Some n1)).
  { eapply rep_ctx_frame; [| |exact Hctx]; [done|]. intros p Hp. through. }
  destruct (relink_ok o2 ctx n1 (Some n2) Hctx2) as (oc&->&Hctxc&Hfc); [apart|]. cbn [mbind option_bind].
  assert (Hfc' : forall p, p ∉ ctx_ptrs ctx -> nodes oc !! p = nodes o2 !! p)
    by (intros p Hp; apply Hfc; by intros ?%ctx_par_ptrs).
  unfold swap_children.
  assert (K1c : nodes oc !! n1 = Some (Node (Some (fp f)) (Some q) (rootp r) b1)) by (rewrite <- Hq; through).
  assert (K2c : nodes oc !! n2 = Some (Node (ctx_par ctx) (rootp l) None b2)) by through.
  accessn K1c. accessn K2c. accessn K1c.
  assert (Hl3 : rep (nodes o3) (Some n2) l) by (eapply rep_frame; [|exact Hl]; intros p Hp; through).
  destruct (adopt_ok o3 _ (Some n1) l Hl3) as (od&->&Hld&Hrd&Hfd); [done|]. cbn [mbind option_bind].
  assert (K2d : nodes od !! n2 = Some (Node (ctx_par ctx) (rootp l) None b2)) by through. accessn K2d.
  assert (Hseg4 : rep_seg (nodes o4) (f :: c) (Some n1) (Some n1)).
  { eapply rep_seg_frame; [|exact Hseg1]. intros p Hp. through. }
  destruct (adopt_seg o4 c f _ (Some n2) _ Hseg4) as (oe&Hae&Hsege&Hre&Hfe); [done|].
  assert (Hq' : top (f :: c) (Some n1) = Some q) by (rewrite <- Hq; done). rewrite Hq' in Hae. rewrite Hae. cbn [mbind option_bind].
  assert (K1e : nodes oe !! n1 = Some (Node (Some (fp f)) (rootp l) (rootp r) b1)) by through. accessn K1e.
  assert (K2e : nodes oe !! n2 = Some (Node (ctx_par ctx) (Some q) None b2)) by through. accessn K2e. accessn K1e.
  cbn [adopt mbind option_bind].
  assert (K2g : nodes o5 !! n2 = Some (Node (ctx_par ctx) (Some q) None b2)) by through. accessn K2g.
  assert (Hr6 : rep (nodes o6) (Some n1) r) by (eapply rep_frame; [|exact Hr]; intros p Hp; through).
  destruct (adopt_ok o6 _ (Some n2) r Hr6) as (oz&->&Hrz&Hrrz&Hfz); [done|].
  exists oz. split; [done|]. unfold Zrep. change (f :: c ++ ?x) with ((f :: c) ++ x). rewrite rep_ctx_app.
  split_and!; cbn [rep rep_ctx fp fb sib side hnode rootp ctx_par].
  - cbn [app ctx_par]. split_and!; [through| |done]. eapply rep_frame; [|exact Hld]. intros p Hp. through.
  - eapply rep_seg_frame; [|exact Hsege]. intros p Hp. through.
  - rewrite Hq'. split_and!; [through|done|]. eapply rep_ctx_frame; [| |exact Hctxc].
    + rewrite Hrrz. unfold o6, o5. simpl. rewrite Hre. unfold o4. simpl. by rewrite Hrd.
    + intros p Hp. through.
  - rewrite ctx_ptrs_app, (ctx_ptrs_cons (Frame _ _ _ _)). cbn [ptrs fp sib]. apart.
Qed.

Lemma plug_app c1 c2 t : plug (c1 ++ c2) t = plug c2 (plug c1 t).
Proof. revert t. induction c1; intros; simpl; auto. Qed.

Lemma Zrep_app o c1 c2 t : Zrep o (c1 ++ c2) t <-> Zrep o c2 (plug c1 t).
Proof. by rewrite Zrep_plug, plug_app, <- Zrep_plug. Qed.

Lemma set_balance_ok o ctx s x p b y b' : Zrep o ctx (tnode s x p b y) ->
  exists o', upd p (set_balance b') o = Some o' /\ Zrep o' ctx (tnode s x p b' y).
Proof.
  intros (Hrep&Hctx&Hn). rewrite rep_tnode in Hrep. destruct Hrep as (Hp&Hx&Hy). rewrite rootp_tnode in Hctx.
  rewrite ptrs_tnode in Hn. parts Hn. rewrite (upd_ok _ _ _ _ Hp), set_balance_hnode. eexists. split; [done|].
  unfold Zrep. rewrite rep_tnode, rootp_tnode, ptrs_tnode. split_and!; [apply store_eq| | | |apart].
  - eapply rep_frame; [|exact Hx]. intros q Hq. through.
  - eapply rep_frame; [|exact Hy]. intros q Hq. through.
  - eapply rep_ctx_frame; [| |exact Hctx]; [done|]. intros q Hq. through.
Qed.

(** The same, and what is read at the node. *)
Lemma Zrep_node o ctx s x p b y : Zrep o ctx (tnode s x p b y) ->
  nodes o !! p = Some (hnode s (ctx_par ctx) (rootp x) (rootp y) b).
Proof. intros (Hrep&_). rewrite rep_tnode in Hrep. apply Hrep. Qed.

Lemma Zrep_node_T o ctx x p b y : Zrep o ctx (T x p b y) -> nodes o !! p = Some (Node (ctx_par ctx) (rootp x) (rootp y) b).
Proof. apply (Zrep_node o ctx false). Qed.

(** What is read at the parent. *)
Lemma Zrep_hole o g ctx x p b y : Zrep o (g :: ctx) (T x p b y) ->
  let n := hnode (side g) (ctx_par ctx) (Some p) (rootp (sib g)) (fb g) in
  nodes o !! fp g = Some n /\ bool_decide (link true n = Some p) = side g.
Proof.
  intros HZ. split.
  - by apply (proj1 (Zrep_step _ _ _ _)), Zrep_node in HZ.
  - destruct HZ as (_&_&Hn). rewrite ctx_ptrs_cons in Hn. cbn [ptrs] in Hn. apply hole_side. parts Hn. done.
Qed.

Definition right_spine (c : list frame) : Prop := Forall (fun f => side f = true) c.

Lemma swap_nodes_ok o ctx c l n2 b2 n1 b1 r : right_spine c -> Zrep o ctx (T (plug c (T l n2 b2 E)) n1 b1 r) ->
  exists o', BAVL_swap_nodes o n1 n2 = Some o' /\ Zrep o' ctx (T (plug c (T l n1 b2 E)) n2 b1 r).
Proof.
  intros Hsp HZ. set (F1 := Frame false n1 b1 r). set (F2 := Frame false n2 b1 r).
  assert (HZ' : Zrep o (c ++ F1 :: ctx) (T l n2 b2 E)) by (by rewrite Zrep_app, Zrep_step).
  pose proof (Zrep_node_T _ _ _ _ _ _ HZ) as H1. pose proof (Zrep_node_T _ _ _ _ _ _ HZ') as H2.
  assert (Hns : n1 <> n2 /\ n2 ∉ ctx_ptrs ctx /\ (forall f c', c = f :: c' -> fp f <> n1)).
  { destruct HZ' as (_&_&Hn). rewrite ctx_ptrs_app, ctx_ptrs_cons in Hn. cbn [ptrs fp sib F1] in Hn. parts Hn.
    split_and!; [done..|]. intros f c' ->. rewrite ctx_ptrs_cons in *. intros <-.
    match goal with H : fp f ∉ _ |- _ => apply H; by left end. }
  destruct Hns as (Hne&Hctx&Hc). unfold BAVL_swap_nodes. rewrite (parent_of_ok _ _ _ H2), (parent_of_ok _ _ _ H1).
  cbn [mbind option_bind parent]. rewrite (bool_decide_false (ctx_par ctx = Some n2)) by (by intros ?%ctx_par_ptrs).
  assert (Hsw : exists o', (if bool_decide (ctx_par (c ++ F1 :: ctx) = Some n1 \/ ctx_par ctx = Some n2)
      then swap_adjacent o n1 n2 else swap_apart o n1 n2) = Some o' /\
    Zrep o' (c ++ Frame false n2 b2 r :: ctx) (T l n1 b1 E)).
  { destruct c as [|f c].
    - rewrite bool_decide_true by (by left). by apply swap_adjacent_ok.
    - rewrite bool_decide_false; [apply swap_apart_ok; [|done]; by apply Forall_cons in Hsp as [? _]|].
      intros [[= ?]|?%ctx_par_ptrs]; [by eapply Hc|done]. }
  destruct Hsw as (o1&->&Hz1). cbn [mbind option_bind].
  pose proof (Zrep_node_T _ _ _ _ _ _ Hz1) as K1. rewrite (balance_of_ok _ _ _ K1). cbn [mbind option_bind balance].
  assert (Hz1' := Hz1). rewrite Zrep_app, Zrep_step in Hz1'. apply (Zrep_node o1 ctx false) in Hz1' as K2.
  cbn [fp fb sib side] in K2. rewrite (balance_of_ok _ _ _ K2). cbn [mbind option_bind hnode balance].
  destruct (set_balance_ok o1 _ false l n1 b1 E b2 Hz1) as (o2&->&Hz2). cbn [mbind option_bind].
  rewrite Zrep_app, Zrep_step in Hz2. destruct (set_balance_ok o2 ctx false _ n2 b2 r b1 Hz2) as (o3&->&Hz3). by exists o3.
Qed.

(** ** Heights and balance *)

Fixpoint height (t : tree) : Z := match t with E => 0 | T l _ _ r => 1 + Z.max (height l) (height r) end.

Fixpoint avl (t : tree) : Prop :=
  match t with E => True | T l _ b r => avl l /\ avl r /\ b = height r - height l /\ -1 <= b <= 1 end.

Definition sgn (s : bool) : Z := if s then 1 else -1.

Lemma avl_tnode s x p b y :
  avl (tnode s x p b y) <-> avl x /\ avl y /\ b = sgn s * (height x - height y) /\ -1 <= b <= 1.
Proof. destruct s; simpl; intuition lia. Qed.

Lemma height_tnode s x p b y : height (tnode s x p b y) = 1 + Z.max (height x) (height y).
Proof. destruct s; simpl; lia. Qed.

Lemma height_nonneg t : 0 <= height t.
Proof. induction t; simpl; lia. Qed.

(** The context fits a subtree of height [H]. *)
Fixpoint ctx_ok (ctx : list frame) (H : Z) : Prop :=
  match ctx with
  | [] => True
  | f :: ctx' =>
      avl (sib f) /\ fb f = sgn (side f) * (H - height (sib f)) /\ -1 <= fb f <= 1 /\
      ctx_ok ctx' (1 + Z.max H (height (sib f)))
  end.

Lemma avl_plug ctx t : avl (plug ctx t) <-> avl t /\ ctx_ok ctx (height t).
Proof.
  revert t. induction ctx as [|f ctx IH]; intros t; simpl; [naive_solver|]. unfold plug1.
  rewrite IH, avl_tnode, height_tnode. naive_solver.
Qed.

(** The nodes before and after the hole. *)
Fixpoint ctx_l (ctx : list frame) : list positive :=
  match ctx with [] => [] | f :: ctx' => ctx_l ctx' ++ (if side f then ptrs (sib f) ++ [fp f] else []) end.
Fixpoint ctx_r (ctx : list frame) : list positive :=
  match ctx with [] => [] | f :: ctx' => (if side f then [] else fp f :: ptrs (sib f)) ++ ctx_r ctx' end.

Lemma ptrs_plug ctx t : ptrs (plug ctx t) = ctx_l ctx ++ ptrs t ++ ctx_r ctx.
Proof.
  revert t. induction ctx as [|f ctx IH]; intros t; simpl; [by rewrite app_nil_r|]. rewrite IH. unfold plug1, tnode.
  destruct (side f); by list_simplifier.
Qed.

Lemma ctx_ptrs_perm ctx : ctx_l ctx ++ ctx_r ctx ≡ₚ ctx_ptrs ctx.
Proof.
  induction ctx as [|f ctx IH]; [done|]. rewrite ctx_ptrs_cons, <- IH. simpl. destruct (side f); simpl; solve_Permutation.
Qed.

Lemma ptrs_plug_eq ctx t t' : ptrs t = ptrs t' -> ptrs (plug ctx t) = ptrs (plug ctx t').
Proof. intros E. by rewrite !ptrs_plug, E. Qed.

(** ** Rebalancing *)

Lemma sgn_negb s : sgn (negb s) = - sgn s.
Proof. by destruct s. Qed.

(** A rotation and the assignment of the two balance factors. *)
Lemma single_ok o ctx d Y p b B c cb A v w : Zrep o ctx (tnode d Y p b (tnode d B c cb A)) ->
  exists o1 o2 o3, BAVL_rotate o p d = Some o1 /\ upd p (set_balance v) o1 = Some o2 /\ upd c (set_balance w) o2 = Some o3 /\
    Zrep o3 ctx (tnode d (tnode d Y p v B) c w A).
Proof.
  intros HZ. destruct (rotate_ok _ _ _ _ _ _ _ _ _ _ HZ) as (o1&H1&HZ1).
  destruct (set_balance_ok o1 (Frame d c cb A :: ctx) d Y p b B v) as (o2&H2&HZ2); [by apply Zrep_step|].
  apply (proj1 (Zrep_step _ _ _ _)) in HZ2. destruct (set_balance_ok _ _ _ _ _ _ _ w HZ2) as (o3&H3&HZ3). by exists o1, o2, o3.
Qed.

(** The double rotation. *)
Lemma double_ok o ctx d Y p b C g gb D c cb A : Zrep o ctx (tnode d Y p b (tnode d (tnode (negb d) C g gb D) c cb A)) ->
  exists o1 o2, BAVL_rotate o c (negb d) = Some o1 /\ BAVL_rotate o1 p d = Some o2 /\ balance_of g o2 = Some gb /\
    forall v w z, exists o3 o4 o5, upd p (set_balance v) o2 = Some o3 /\ upd c (set_balance w) o3 = Some o4 /\
      upd g (set_balance z) o4 = Some o5 /\ Zrep o5 ctx (tnode d (tnode d Y p v D) g z (tnode d C c w A)).
Proof.
  intros HZ. assert (HZc : Zrep o (Frame (negb d) p b Y :: ctx) (tnode (negb d) A c cb (tnode (negb d) C g gb D))).
  { apply Zrep_step. unfold plug1. cbn [side fp fb sib]. by rewrite tnode_negb, (tnode_negb d A). }
  destruct (rotate_ok _ _ _ _ _ _ _ _ _ _ HZc) as (o1&H1&HZ1). apply (proj1 (Zrep_step _ _ _ _)) in HZ1.
  unfold plug1 in HZ1. cbn [side fp fb sib] in HZ1. rewrite tnode_negb, (tnode_negb d (tnode _ _ _ _ _)) in HZ1.
  destruct (rotate_ok _ _ _ _ _ _ _ _ _ _ HZ1) as (o2&H2&HZ2). exists o1, o2. split; [done|]. split; [done|].
  split; [by rewrite (balance_of_ok _ _ _ (Zrep_node _ _ _ _ _ _ _ HZ2)), balance_hnode|]. intros v w z.
  destruct (set_balance_ok o2 (Frame d g gb (tnode (negb d) A c cb C) :: ctx) d Y p b D v) as (o3&H3&HZ3); [by apply Zrep_step|].
  apply (proj1 (Zrep_step _ _ _ _)) in HZ3. unfold plug1 in HZ3. cbn [side fp fb sib] in HZ3.
  destruct (set_balance_ok o3 (Frame (negb d) g gb (tnode d Y p v D) :: ctx) (negb d) A c cb C w) as (o4&H4&HZ4).
  { apply Zrep_step. unfold plug1. cbn [side fp fb sib]. by rewrite tnode_negb. }
  apply (proj1 (Zrep_step _ _ _ _)) in HZ4. unfold plug1 in HZ4. cbn [side fp fb sib] in HZ4. rewrite !tnode_negb in HZ4.
  destruct (set_balance_ok _ _ _ _ _ _ _ z HZ4) as (o5&H5&HZ5). by exists o3, o4, o5.
Qed.

(** [node] has the heavy subtree on side [bs]. *)
Lemma heavy_ok o ctx bs X p Y delta : Zrep o ctx (tnode bs X p (2 * sgn bs) Y) -> avl X -> avl Y -> height X = height Y + 2 ->
  exists o' node' delta' t', restore_balance o p delta = Some (o', node', delta') /\ Zrep o' ctx t' /\ rootp t' = Some node' /\
    avl t' /\ ptrs t' = ptrs (tnode bs X p (2 * sgn bs) Y) /\ delta' = delta + height t' - (1 + height X) /\
    height X <= height t' <= 1 + height X.
Proof.
  intros HZ HX HY HH. pose proof (height_nonneg Y).
  assert (exists B c cb A, X = tnode (negb bs) B c cb A) as (B&c&cb&A&->).
  { destruct X as [|l c cb r]; [simpl in HH; lia|]. destruct bs; by eexists _, c, cb, _. }
  rewrite avl_tnode, sgn_negb in HX. destruct HX as (HB&HA&Hcb&Hcb1). rewrite height_tnode in *.
  pose proof (Zrep_node _ _ _ _ _ _ _ HZ) as Hp. rewrite rootp_tnode in Hp.
  assert (HZc : Zrep o (Frame bs p (2 * sgn bs) Y :: ctx) (tnode (negb bs) B c cb A)) by (by apply Zrep_step).
  pose proof (Zrep_node _ _ _ _ _ _ _ HZc) as Hc. cbn [ctx_par fp] in Hc.
  unfold restore_balance. access Hp.
  assert (E1 : (2 * sgn bs =? 2) || (2 * sgn bs =? -2) = true) by (by destruct bs).
  assert (E2 : (2 * sgn bs =? 2) = bs) by (by destruct bs). rewrite E1, E2. clear E1 E2.
  change (if bs then 1 else -1) with (sgn bs). access Hp.
  rewrite (balance_of_ok _ _ _ Hc). cbn [mbind option_bind]. autorewrite with hnode.
  assert (Hs : sgn bs * sgn bs = 1) by (by destruct bs). assert (Hcs : cb * sgn bs = height A - height B) by nia. rewrite Hcs.
  rewrite <- tnode_negb in HZ. destruct (Z.eqb_spec (height A - height B) 1) as [E|E]; [|destruct (Z.eqb_spec (height A - height B) 0) as [E'|E']].
  - destruct (single_ok _ _ _ _ _ _ _ _ _ _ 0 0 HZ) as (o1&o2&o3&->&Hv&Hw&HZ3). cbn [mbind option_bind]. rewrite Hv. cbn [mbind option_bind].
    rewrite Hw. cbn [mbind option_bind]. do 4 eexists. split; [done|]. split; [exact HZ3|].
    rewrite rootp_tnode, !avl_tnode, !height_tnode, sgn_negb. split_and!; try done; try nia. destruct bs; simpl; by rewrite <- ?app_assoc.
  - destruct (single_ok _ _ _ _ _ _ _ _ _ _ (1 * sgn bs) (-1 * sgn bs) HZ) as (o1&o2&o3&->&Hv&Hw&HZ3). cbn [mbind option_bind]. rewrite Hv. cbn [mbind option_bind].
    rewrite Hw. cbn [mbind option_bind]. do 4 eexists. split; [done|]. split; [exact HZ3|].
    rewrite rootp_tnode, !avl_tnode, !height_tnode, sgn_negb. split_and!; try done; try nia. destruct bs; simpl; by rewrite <- ?app_assoc.
  - assert (Ed : height A - height B = -1) by (destruct bs; cbn [sgn] in *; lia). rewrite Ed. cbn [Z.eqb Pos.eqb]. access Hc.
    assert (exists C g gb D, B = tnode bs C g gb D) as (C&g&gb&D&->).
    { pose proof (height_nonneg A). destruct B as [|l g gb r]; [simpl in *; lia|]. destruct bs; by eexists _, g, gb, _. }
    rewrite avl_tnode in HB. destruct HB as (HC&HD&Hgb&Hgb1). rewrite height_tnode in *. rewrite rootp_tnode. cbn [mbind option_bind].
    rewrite <- (negb_involutive bs) in HZ at 4. destruct (double_ok _ _ _ _ _ _ _ _ _ _ _ _ _ HZ) as (o1&o2&H1&H2&Hg&Hrest).
    rewrite negb_involutive in H1. rewrite H1. cbn [mbind option_bind]. rewrite H2. cbn [mbind option_bind]. rewrite Hg. cbn [mbind option_bind].
    destruct (Hrest (- Z.max 0 (gb * sgn bs) * sgn bs) (Z.max 0 (- gb * sgn bs) * sgn bs) 0) as (o3&o4&o5&->&H4&H5&HZ5).
    cbn [mbind option_bind]. rewrite H4. cbn [mbind option_bind]. rewrite H5. cbn [mbind option_bind].
    do 4 eexists. split; [done|]. split; [exact HZ5|]. rewrite rootp_tnode, !avl_tnode, !height_tnode, sgn_negb.
    split_and!; try done; try (destruct bs; cbn [sgn] in *; lia). destruct bs; by list_simplifier.
Qed.

Lemma restore_balance_ok o ctx s x p b y delta : Zrep o ctx (tnode s x p b y) -> avl x -> avl y ->
  b = sgn s * (height x - height y) -> -2 <= b <= 2 ->
  exists o' node' delta' t', restore_balance o p delta = Some (o', node', delta') /\ Zrep o' ctx t' /\ rootp t' = Some node' /\
    avl t' /\ ptrs t' = ptrs (tnode s x p b y) /\ delta' = delta + height t' - (1 + Z.max (height x) (height y)) /\
    Z.max (height x) (height y) + (if decide (b = 2 \/ b = -2) then 0 else 1) <= height t' <= 1 + Z.max (height x) (height y).
Proof.
  intros HZ Hx Hy Hb Hb2. destruct (decide (b = 2 \/ b = -2)) as [H2|H2].
  - destruct (decide (height x = height y + 2)) as [E|E].
    + assert (Eb : b = 2 * sgn s) by (rewrite Hb, E; lia). rewrite Eb in *.
      destruct (heavy_ok o ctx s x p y delta HZ Hx Hy E) as (o'&n'&d'&t'&?&?&?&?&?&?&?). exists o', n', d', t'. split_and!; try done; try lia.
    + assert (E' : height y = height x + 2) by (destruct s; simpl in *; lia).
      assert (Eb : b = 2 * sgn (negb s)) by (rewrite Hb, E', sgn_negb; lia). rewrite Eb in *. rewrite <- (negb_involutive s), tnode_negb in *.
      rewrite negb_involutive in *.
      destruct (heavy_ok o ctx (negb s) y p x delta HZ Hy Hx E') as (o'&n'&d'&t'&?&?&?&?&?&?&?). exists o', n', d', t'. split_and!; try done; try lia.
  - unfold restore_balance. pose proof (Zrep_node _ _ _ _ _ _ _ HZ) as Hp. access Hp.
    rewrite (proj2 (Z.eqb_neq b 2)), (proj2 (Z.eqb_neq b (-2))) by lia. cbn [orb].
    exists o, p, delta, (tnode s x p b y). rewrite rootp_tnode, avl_tnode, height_tnode. split_and!; try done; try lia.
Qed.

Lemma OPTNEG_sgn a s : BAVL_OPTNEG a s = - sgn s * a.
Proof. unfold BAVL_OPTNEG, sgn. destruct s; lia. Qed.

Lemma ptrs_plug_NoDup o ctx t : Zrep o ctx t -> NoDup (ptrs (plug ctx t)).
Proof. intros (_&_&H)%Zrep_plug. by rewrite app_nil_r in H. Qed.

Lemma rebalance_node_ok o f ctx t deltac : Zrep o (f :: ctx) t -> avl t -> ctx_ok (f :: ctx) (height t - deltac) -> -1 <= deltac <= 1 ->
  exists o' x p b y delta, rebalance_node o (fp f) (side f) deltac = Some (o', p, delta) /\ Zrep o' ctx (T x p b y) /\ avl (T x p b y) /\
    ptrs (T x p b y) = ptrs (plug1 f t) /\ ctx_ok ctx (height (T x p b y) - delta) /\ -1 <= delta <= 1.
Proof.
  intros HZ Ht (Hs&Hb&Hb1&Hok) Hd. apply (proj1 (Zrep_step _ _ _ _)) in HZ. unfold rebalance_node.
  pose proof (Zrep_node _ _ _ _ _ _ _ HZ) as Hp. rewrite (balance_of_ok _ _ _ Hp), balance_hnode. cbn [mbind option_bind].
  destruct (set_balance_ok _ _ _ _ _ _ _ (fb f - BAVL_OPTNEG deltac (side f)) HZ) as (o1&->&HZ1). cbn [mbind option_bind].
  match goal with |- context [restore_balance _ _ ?d] =>
    destruct (restore_balance_ok _ _ _ _ _ _ _ d HZ1 Ht Hs) as (o2&n2&d2&t2&->&HZ2&Hr2&Ht2&Hp2&Hd2&Hh2) end.
  { rewrite OPTNEG_sgn, Hb. lia. }
  { rewrite OPTNEG_sgn. destruct (side f); simpl; lia. }
  assert (Hd2' : d2 = height t2 - (1 + Z.max (height t - deltac) (height (sib f))))
    by (rewrite Hd2, !OPTNEG_sgn, Hb; destruct (side f); cbn [sgn]; lia).
  destruct t2 as [|x p b y]; simpl in Hr2; [done|]. injection Hr2 as ->. exists o2, x, n2, b, y, d2.
  split; [done|]. split; [done|]. split; [done|].
  split; [rewrite Hp2; unfold plug1; by destruct (side f)|].
  split; [by replace (_ - _) with (1 + Z.max (height t - deltac) (height (sib f))) by lia|].
  rewrite OPTNEG_sgn in Hh2. destruct (decide _) as [Hx|Hx] in Hh2; destruct (side f); cbn [sgn] in *; lia.
Qed.

(** Climbing after the subtree in the hole has changed its height by [deltac]. *)
Lemma rebalance_ok ctx : forall f t o deltac fuel, Zrep o (f :: ctx) t -> avl t -> ctx_ok (f :: ctx) (height t - deltac) ->
  -1 <= deltac <= 1 -> (length ctx < fuel)%nat ->
  exists o' t', BAVL_rebalance fuel o (fp f) (side f) deltac = Some o' /\ Zrep o' [] t' /\ avl t' /\ ptrs t' = ptrs (plug (f :: ctx) t).
Proof.
  induction ctx as [|g ctx IH]; intros f t o deltac [|fuel] HZ Ht Hok Hd Hf; cbn [length] in Hf; try lia; cbn [BAVL_rebalance].
  all: destruct (Z.eqb_spec deltac 0) as [->|Hne];
    [exists o; eexists; split; [done|]; split; [exact (proj1 (Zrep_plug _ _ _) HZ)|]; split; [|done]; apply avl_plug; rewrite Z.sub_0_r in Hok; done|].
  all: destruct (rebalance_node_ok _ _ _ _ _ HZ Ht Hok Hd) as (o2&x&p&b&y&d2&->&HZ2&Ht2&Hp2&Hok2&Hd2); cbn [mbind option_bind];
    rewrite (parent_of_ok _ _ _ (Zrep_node_T _ _ _ _ _ _ HZ2)); cbn [mbind option_bind parent ctx_par].
  - by exists o2, (T x p b y).
  - destruct (Zrep_hole _ _ _ _ _ _ _ HZ2) as (Hg&Hside). rewrite (link_of_ok _ _ _ _ Hg). cbn [mbind option_bind]. rewrite Hside.
    destruct (IH g (T x p b y) o2 d2 fuel HZ2 Ht2 Hok2 Hd2 ltac:(lia)) as (o'&t'&Hr&HZ'&Ht'&Hp'). exists o', t'. split_and!; try done.
    rewrite Hp'. apply (ptrs_plug_eq (g :: ctx)), Hp2.
Qed.

(** ** Insertion and removal in a context *)

Lemma insert_leaf_ok o f ctx node : Zrep o (f :: ctx) E -> node ∉ ctx_ptrs (f :: ctx) ->
  exists o', upd (fp f) (set_link (side f) (Some node)) o = Some o' /\
    Zrep (store_node node (Node (Some (fp f)) None None 0) o') (f :: ctx) (T E node 0 E).
Proof.
  intros (_&(Hp&Hs&Hctx)&Hn) Hnode. rewrite ctx_ptrs_cons in *. cbn [ptrs app] in Hn. parts Hn. parts Hnode.
  rewrite (upd_ok _ _ _ _ Hp), set_link_hnode. eexists. split; [done|]. split_and!; cbn [rep rep_ctx rootp ctx_par].
  - split; [through|done].
  - split_and!; [rewrite store_ne by done; through|eapply rep_frame; [|exact Hs]|eapply rep_ctx_frame; [| |exact Hctx]; [done|]]; intros p ?; through.
  - rewrite ctx_ptrs_cons. cbn [ptrs app]. apart.
Qed.

Lemma insert_root_ok o node : Zrep (set_root (Some node) (store_node node (Node None None None 0) o)) [] (T E node 0 E).
Proof.
  split; [|split]; [|done|].
  - split; [apply lookup_insert_eq|done].
  - apply NoDup_singleton.
Qed.

(** A node with at most one subtree is replaced by it. *)
Lemma replace_subtree_ok o ctx s x p b : Zrep o ctx (tnode s x p b E) ->
  exists o', BAVL_replace_subtree o p (rootp x) = Some o' /\ Zrep o' ctx x.
Proof.
  intros (Hrep&Hctx&Hn). rewrite rep_tnode in Hrep. destruct Hrep as (Hp&Hx&_). rewrite rootp_tnode in Hctx.
  rewrite ptrs_tnode in Hn. cbn [ptrs] in Hn. rewrite app_nil_r in Hn. parts Hn. unfold BAVL_replace_subtree. access Hp.
  destruct (relink_ok o ctx p (rootp x) Hctx) as (o1&->&Hctx1&Hf1); [apart|]. cbn [mbind option_bind].
  assert (Hf1' : forall q, q ∉ ctx_ptrs ctx -> nodes o1 !! q = nodes o !! q) by (intros q Hq; apply Hf1; by intros ?%ctx_par_ptrs).
  assert (Hx1 : rep (nodes o1) (Some p) x) by (eapply rep_frame; [|exact Hx]; intros q Hq; through).
  destruct (adopt_ok o1 _ (ctx_par ctx) x Hx1) as (o2&->&Hx2&Hr2&Hf2); [done|]. exists o2. split; [done|]. split_and!; [done| |apart].
  eapply rep_ctx_frame; [| |exact Hctx1]; [done|]. intros q Hq. through.
Qed.

(** ** Loops *)

Lemma rep_dom h t : forall par p, rep h par t -> p ∈ ptrs t -> is_Some (h !! p).
Proof.
  induction t as [|l IHl q b r IHr]; intros par p; simpl; [by intros _ ?%not_elem_of_nil|]. intros (Hq&Hl&Hr).
  rewrite elem_of_app, elem_of_cons. intros [?|[->|?]]; eauto.
Qed.

Lemma length_ptrs_size o t : Zrep o [] t -> (length (ptrs t) <= size (nodes o))%nat.
Proof.
  intros (Hr&_&Hn). rewrite app_nil_r in Hn. rewrite <- (size_list_to_set (C := gset positive)), <- (size_dom (D := gset positive)) by done.
  apply subseteq_size. intros p. rewrite elem_of_list_to_set, elem_of_dom. by eapply rep_dom.
Qed.

Lemma height_le_length t : height t <= Z.of_nat (length (ptrs t)).
Proof. induction t; simpl; [lia|]. rewrite length_app. simpl. lia. Qed.

Lemma ctx_length ctx : (length ctx <= length (ctx_l ctx ++ ctx_r ctx))%nat.
Proof.
  induction ctx as [|f ctx IH]; simpl; [lia|]. rewrite length_app in *. destruct (side f); rewrite ?length_app in *; simpl; rewrite ?length_app; simpl; lia.
Qed.

(** The fuel suffices for every path. *)
Lemma fuel_ok o ctx t : Zrep o ctx t -> height t < Z.of_nat (tree_fuel o) /\ (length ctx < tree_fuel o)%nat.
Proof.
  intros HZ%Zrep_plug%length_ptrs_size. rewrite ptrs_plug, !length_app in HZ. pose proof (height_le_length t). pose proof (ctx_length ctx) as Hc.
  rewrite length_app in Hc. unfold tree_fuel. lia.
Qed.

Lemma subtree_end_ok o s t : forall fuel ctx c, Zrep o ctx t -> rootp t = Some c -> height t <= Z.of_nat fuel ->
  exists cs m b x, BAVL_subtree_end fuel o s c = Some m /\ t = plug cs (tnode s E m b x) /\ Forall (fun f => side f = s) cs.
Proof.
  induction t as [|l IHl p b r IHr]; intros fuel ctx c HZ Hc Hf; [done|]. injection Hc as <-.
  pose proof (height_nonneg l). pose proof (height_nonneg r). simpl in Hf. destruct fuel as [|fuel]; [lia|]. cbn [BAVL_subtree_end].
  assert (Hsub : exists x y, T l p b r = tnode s x p b y /\ x = (if s then r else l)) by (destruct s; eauto 10).
  destruct Hsub as (x&y&Et&Ex). rewrite Et in *. rewrite (link_of_ok _ _ _ _ (Zrep_node _ _ _ _ _ _ _ HZ)), link_hnode. cbn [mbind option_bind].
  destruct x as [|xl xp xb xr] eqn:Hx; cbn [rootp]; [by exists [], p, b, y|]. rewrite <- Hx in *.
  assert (HZx : Zrep o (Frame s p b y :: ctx) x) by (by apply Zrep_step).
  assert (IH : exists cs m b0 x0, BAVL_subtree_end fuel o s xp = Some m /\ x = plug cs (tnode s E m b0 x0) /\ Forall (fun f => side f = s) cs).
  { rewrite Ex. destruct s; [eapply IHr|eapply IHl]; rewrite <- ?Ex; eauto; try (by rewrite Hx); rewrite Ex; lia. }
  destruct IH as (cs&m&b0&x0&Hm&->&Hcs). exists (cs ++ [Frame s p b y]), m, b0, x0. split; [done|]. rewrite plug_app. split; [done|].
  apply Forall_app. split; [done|]. by apply Forall_singleton.
Qed.

Lemma hole_sideb o g ctx x p b y s : Zrep o (g :: ctx) (T x p b y) ->
  exists l, link_of (fp g) s o = Some l /\ bool_decide (l = Some p) = eqb (side g) s.
Proof.
  intros HZ. destruct (Zrep_hole _ _ _ _ _ _ _ HZ) as (Hg&Hs). eexists. split; [by rewrite (link_of_ok _ _ _ _ Hg)|].
  destruct s; [rewrite Hs; by destruct (side g)|]. destruct HZ as (_&_&Hn). rewrite ctx_ptrs_cons in Hn. cbn [ptrs] in Hn. parts Hn.
  destruct (side g); cbn [hnode link link0 eqb]; [apply bool_decide_false; by intros ?%rootp_ptrs|by apply bool_decide_true].
Qed.

(** The nearest node beyond the hole on side [s]. *)
Definition beyond (s : bool) (ctx : list frame) : option positive := if s then hd_error (ctx_r ctx) else last (ctx_l ctx).

Lemma climb_ok ctx : forall o s fuel x p b y, Zrep o ctx (T x p b y) -> (length ctx < fuel)%nat -> climb fuel o s p = Some (beyond s ctx).
Proof.
  induction ctx as [|f ctx IH]; intros o s [|fuel] x p b y HZ Hf; cbn [length] in Hf; try lia; cbn [climb];
    rewrite (parent_of_ok _ _ _ (Zrep_node_T _ _ _ _ _ _ HZ)); cbn [mbind option_bind parent ctx_par]; [by destruct s|].
  destruct (hole_sideb _ _ _ _ _ _ _ s HZ) as (l&->&Hl). cbn [mbind option_bind]. rewrite Hl.
  destruct (side f) eqn:Hsf, s; cbn [eqb]; unfold beyond in *; cbn [ctx_l ctx_r]; rewrite Hsf; rewrite ?app_nil_r; cbn [app].
  - apply (proj1 (Zrep_step _ _ _ _)) in HZ. unfold plug1 in HZ. rewrite Hsf in HZ. cbn [tnode] in HZ. eapply (IH o true); [exact HZ|lia].
  - rewrite app_assoc, last_snoc. done.
  - done.
  - apply (proj1 (Zrep_step _ _ _ _)) in HZ. unfold plug1 in HZ. rewrite Hsf in HZ. cbn [tnode] in HZ. eapply (IH o false); [exact HZ|lia].
Qed.

Lemma plug_left_spine cs m b x : Forall (fun f => side f = false) cs -> hd_error (ptrs (plug cs (T E m b x))) = Some m.
Proof.
  intros H. rewrite ptrs_plug. assert (E0 : ctx_l cs = []) by (induction H as [|f cs Hf _ IH]; [done|]; simpl; by rewrite Hf, IH).
  by rewrite E0.
Qed.

Lemma plug_right_spine cs m b x : Forall (fun f => side f = true) cs -> last (ptrs (plug cs (T x m b E))) = Some m.
Proof.
  intros H. rewrite ptrs_plug. assert (E0 : ctx_r cs = []) by (induction H as [|f cs Hf _ IH]; [done|]; simpl; by rewrite Hf, IH).
  rewrite E0, app_nil_r. simpl. by rewrite app_assoc, last_snoc.
Qed.

(** The first or last node of a subtree. *)
Definition extreme (s : bool) (l : list positive) : option positive := if s then last l else hd_error l.

Lemma subtree_extreme o s t ctx c : Zrep o ctx t -> rootp t = Some c ->
  exists m, BAVL_subtree_end (tree_fuel o) o s c = Some m /\ extreme s (ptrs t) = Some m.
Proof.
  intros HZ Hc. destruct (fuel_ok _ _ _ HZ) as [Hf _]. destruct (subtree_end_ok o s t (tree_fuel o) ctx c HZ Hc ltac:(lia)) as (cs&m&b&x&->&->&Hcs).
  exists m. split; [done|]. destruct s; [by apply plug_right_spine|by apply plug_left_spine].
Qed.

Lemma get_end_ok o s t : Zrep o [] t -> get_end s o = Some (extreme s (ptrs t)).
Proof.
  intros HZ. pose proof HZ as (_&Hr&_). cbn [rep_ctx] in Hr. unfold get_end. rewrite Hr. destruct t as [|l p b r] eqn:Ht.
  - by destruct s.
  - cbn [rootp]. destruct (subtree_extreme o s _ [] p HZ eq_refl) as (m&->&Hm). cbn [fmap option_fmap option_map]. by rewrite Hm.
Qed.

Lemma neighbour_ok o s ctx x p b y : Zrep o ctx (T x p b y) ->
  neighbour s o p = Some (if s then hd_error (ptrs y ++ ctx_r ctx) else last (ctx_l ctx ++ ptrs x)).
Proof.
  intros HZ. pose proof (fuel_ok _ _ _ HZ) as [_ Hf]. unfold neighbour.
  rewrite (link_of_ok _ _ _ _ (Zrep_node_T _ _ _ _ _ _ HZ)). cbn [mbind option_bind]. destruct s; cbn [link link0 link1].
  - destruct y as [|yl yp yb yr] eqn:Hy; cbn [rootp negb].
    + by rewrite (climb_ok _ _ _ _ _ _ _ _ HZ Hf).
    + rewrite <- Hy in *. assert (HZy : Zrep o (Frame true p b x :: ctx) y) by (by apply Zrep_step).
      destruct (subtree_extreme o false _ _ yp HZy) as (m&->&Hm); [by rewrite Hy|]. cbn [extreme] in Hm. cbn [fmap option_fmap option_map].
      destruct (ptrs y); simpl in *; congruence.
  - destruct x as [|xl xp xb xr] eqn:Hx; cbn [rootp negb].
    + rewrite app_nil_r. by rewrite (climb_ok _ _ _ _ _ _ _ _ HZ Hf).
    + rewrite <- Hx in *. assert (HZx : Zrep o (Frame false p b y :: ctx) x) by (by apply Zrep_step).
      destruct (subtree_extreme o true _ _ xp HZx) as (m&->&Hm); [by rewrite Hx|]. cbn [extreme] in Hm. cbn [fmap option_fmap option_map].
      apply last_Some in Hm as (l'&->). by rewrite app_assoc, last_snoc.
Qed.

Lemma find_ctx t : forall p, p ∈ ptrs t -> exists ctx x b y, t = plug ctx (T x p b y).
Proof.
  induction t as [|l IHl q b r IHr]; intros p; cbn [ptrs]; [by intros ?%not_elem_of_nil|]. rewrite elem_of_app, elem_of_cons.
  intros [(ctx&x&b'&y&->)%IHl|[->|(ctx&x&b'&y&->)%IHr]].
  - exists (ctx ++ [Frame false q b r]), x, b', y. by rewrite plug_app.
  - by exists [], l, b, r.
  - exists (ctx ++ [Frame true q b l]), x, b', y. by rewrite plug_app.
Qed.

(** ** Removal *)

(** Removal of a node with at most one subtree. *)
Lemma remove_single o ctx s x p b : Zrep o ctx (tnode s x p b E) -> avl (plug ctx (tnode s x p b E)) ->
  exists o' t', (match ctx_par ctx with
      | Some q => l ← link_of q true o; o ← BAVL_replace_subtree o p (rootp x); BAVL_rebalance (tree_fuel o) o q (bool_decide (l = Some p)) (-1)
      | None => BAVL_replace_subtree o p (rootp x)
      end) = Some o' /\ Zrep o' [] t' /\ avl t' /\ ptrs t' = ctx_l ctx ++ ptrs x ++ ctx_r ctx.
Proof.
  intros HZ Hav. destruct (replace_subtree_ok o ctx s x p b HZ) as (o1&Hr&HZ1).
  rewrite avl_plug, avl_tnode, height_tnode in Hav. destruct Hav as ((Hx&_&_)&Hok). cbn [height] in Hok.
  pose proof (height_nonneg x). destruct ctx as [|f ctx]; cbn [ctx_par].
  - exists o1, x. split_and!; try done. simpl. by rewrite app_nil_r.
  - destruct (hole_sideb o f ctx (if s then E else x) p b (if s then x else E) true) as (l&->&Hl); [by destruct s|].
    cbn [mbind option_bind]. rewrite Hr. cbn [mbind option_bind]. rewrite Hl.
    replace (eqb (side f) true) with (side f) by (by destruct (side f)).
    destruct (rebalance_ok ctx f x o1 (-1) (tree_fuel o1) HZ1 Hx) as (o'&t'&Hb&HZ'&Hav'&Hp').
    + by replace (height x - -1) with (1 + Z.max (height x) 0) by lia.
    + lia.
    + destruct (fuel_ok _ _ _ HZ1) as [_ Hf]. cbn [length] in Hf. lia.
    + exists o', t'. split_and!; try done. by rewrite Hp', ptrs_plug.
Qed.

Lemma height_plug cs t t' : height t = height t' -> height (plug cs t) = height (plug cs t').
Proof.
  revert t t'. induction cs as [|f cs IH]; intros t t' H; simpl; [done|]. apply IH. unfold plug1. by rewrite !height_tnode, H.
Qed.

Lemma avl_plug_ext cs t t' : height t = height t' -> (avl t -> avl t') -> avl (plug cs t) -> avl (plug cs t').
Proof. intros H Ht. rewrite !avl_plug, H. naive_solver. Qed.

Lemma ctx_l_app c1 c2 : ctx_l (c1 ++ c2) = ctx_l c2 ++ ctx_l c1.
Proof. induction c1 as [|f c1 IH]; simpl; [by rewrite app_nil_r|]. by rewrite IH, <- app_assoc. Qed.

Lemma ctx_r_app c1 c2 : ctx_r (c1 ++ c2) = ctx_r c1 ++ ctx_r c2.
Proof. induction c1 as [|f c1 IH]; simpl; [done|]. by rewrite IH, <- app_assoc. Qed.

Lemma ctx_r_spine cs : right_spine cs -> ctx_r cs = [].
Proof. induction 1 as [|f cs Hf _ IH]; [done|]. simpl. by rewrite Hf, IH. Qed.

(** A node with two subtrees is exchanged with the greatest one below it on
    the left; it then has at most one. *)
Lemma remove_double o ctx x p b y : Zrep o ctx (T x p b y) -> avl (plug ctx (T x p b y)) -> x <> E ->
  exists l o1 cs m bm z, rootp x = Some l /\ BAVL_subtree_max o l = Some m /\ BAVL_swap_nodes o p m = Some o1 /\
    Zrep o1 (cs ++ Frame false m b y :: ctx) (T z p bm E) /\ avl (plug (cs ++ Frame false m b y :: ctx) (T z p bm E)) /\
    ptrs x = ctx_l cs ++ ptrs z ++ [m] /\ ctx_r cs = [].
Proof.
  intros HZ Hav Hx. destruct x as [|xl l xb xr] eqn:Ex; [done|]. rewrite <- Ex in *.
  assert (HZx : Zrep o (Frame false p b y :: ctx) x) by (by apply Zrep_step).
  destruct (fuel_ok _ _ _ HZx) as [Hf _].
  destruct (subtree_end_ok o true x (tree_fuel o) _ l HZx ltac:(by rewrite Ex) ltac:(lia)) as (cs&m&bm&z&Hm&Hxc&Hcs).
  cbn [tnode] in Hxc. rewrite Hxc in HZ, Hav. destruct (swap_nodes_ok o ctx cs z m bm p b y Hcs HZ) as (o1&Hsw&HZ1).
  exists l, o1, cs, m, bm, z. split; [by rewrite Ex|]. split; [done|]. split; [done|].
  split; [by rewrite Zrep_app, Zrep_step|]. split.
  - rewrite plug_app. cbn [plug]. unfold plug1. cbn [side fp fb sib tnode]. revert Hav. apply avl_plug_ext.
    + cbn [height]. by rewrite (height_plug cs (T z m bm E) (T z p bm E)).
    + cbn [avl]. rewrite (height_plug cs (T z m bm E) (T z p bm E)) by done. intros (H1&H2). split; [|done].
      revert H1. by apply avl_plug_ext.
  - pose proof (ctx_r_spine cs Hcs) as Hr. split; [|done]. rewrite Hxc, ptrs_plug, Hr, app_nil_r. done.
Qed.

Lemma remove_ok o ctx x p b y : Zrep o ctx (T x p b y) -> avl (plug ctx (T x p b y)) ->
  exists o' t', BAVL_Remove o p = Some o' /\ Zrep o' [] t' /\ avl t' /\ ptrs t' = ctx_l ctx ++ ptrs x ++ ptrs y ++ ctx_r ctx.
Proof.
  intros HZ Hav. unfold BAVL_Remove. pose proof (Zrep_node_T _ _ _ _ _ _ HZ) as Hp. rewrite !(link_of_ok _ _ _ _ Hp).
  cbn [mbind option_bind link link0 link1]. destruct x as [|xl xp xb xr] eqn:Ex; [|destruct y as [|yl yp yb yr] eqn:Ey].
  - cbn [rootp mbind option_bind]. rewrite (parent_of_ok _ _ _ Hp), !(link_of_ok _ _ _ _ Hp). cbn [mbind option_bind link link0 link1 parent].
    destruct (remove_single o ctx true y p b HZ Hav) as (o'&t'&Hr&HZ'&Hav'&Hpt). by exists o', t'.
  - cbn [rootp mbind option_bind]. rewrite (parent_of_ok _ _ _ Hp), !(link_of_ok _ _ _ _ Hp). cbn [mbind option_bind link link0 link1 parent rootp].
    destruct (remove_single o ctx false _ p b HZ Hav) as (o'&t'&Hr&HZ'&Hav'&Hpt). by exists o', t'.
  - rewrite <- Ex, <- Ey in *. destruct (remove_double o ctx x p b y HZ Hav) as (l&o1&cs&m&bm&z&Hl&Hm&Hsw&HZ1&Hav1&Hpx&Hcr); [by rewrite Ex|].
    rewrite Hl. assert (Hy : exists yp, rootp y = Some yp) by (rewrite Ey; by eexists). destruct Hy as (yp'&->). rewrite Hm. cbn [mbind option_bind].
    rewrite Hsw. cbn [mbind option_bind]. pose proof (Zrep_node_T _ _ _ _ _ _ HZ1) as Hp1.
    rewrite (parent_of_ok _ _ _ Hp1), !(link_of_ok _ _ _ _ Hp1). cbn [mbind option_bind link link0 link1 parent rootp].
    replace (match rootp z with Some l0 => Some l0 | None => None end) with (rootp z) by (by destruct (rootp z)).
    destruct (remove_single o1 _ false _ p bm HZ1 Hav1) as (o'&t'&Hr&HZ'&Hav'&Hpt). exists o', t'. split_and!; try done.
    rewrite Hpt, ctx_l_app, ctx_r_app, Hcr, Hpx. cbn [ctx_l ctx_r side fp sib]. by list_simplifier.
Qed.

(** ** The order *)

Section Ordered.

Context {V : Type} (ok : V -> Prop) (comparator : V -> V -> Z) `{HC : !Comparator ok comparator}.

Lemma cmp_self v : ok v -> comparator v v = 0.
Proof. intros. by apply (cmp_eq (Comparator := HC)). Qed.

Lemma cmp_lt_trans a b c : ok a -> ok b -> ok c -> comparator a b = -1 -> comparator b c = -1 -> comparator a c = -1.
Proof.
  intros Ha Hb Hc H1 H2. pose proof (cmp_trans (Comparator := HC) a b c Ha Hb Hc ltac:(lia) ltac:(lia)).
  destruct (cmp_range (Comparator := HC) a c) as [?|[H0|?]]; [done| |lia]. apply (cmp_eq (Comparator := HC)) in H0 as ->; [|done..].
  pose proof (cmp_antisym (Comparator := HC) b c). lia.
Qed.

Definition before (value : positive -> V) (p q : positive) : Prop := comparator (value p) (value q) = -1.

Definition above (value : positive -> V) (v : V) (p : positive) : Prop := comparator v (value p) = 1.
Definition below (value : positive -> V) (v : V) (p : positive) : Prop := comparator v (value p) = -1.

Lemma sorted_app_inv (R : positive -> positive -> Prop) A B : StronglySorted R (A ++ B) ->
  StronglySorted R A /\ StronglySorted R B /\ forall a b, a ∈ A -> b ∈ B -> R a b.
Proof.
  induction A as [|a A IH]; simpl; [intros; split_and!; [constructor|done|by intros ? ? ?%not_elem_of_nil]|].
  intros [Hs Ha]%StronglySorted_inv. destruct (IH Hs) as (H1&H2&H3). apply Forall_app in Ha as [Ha1 Ha2]. split_and!; [by constructor|done|].
  intros x b [->|Hx]%elem_of_cons Hb; [|by apply H3]. rewrite Forall_forall in Ha2. auto.
Qed.

Lemma sorted_app (R : positive -> positive -> Prop) A B : StronglySorted R A -> StronglySorted R B ->
  (forall a b, a ∈ A -> b ∈ B -> R a b) -> StronglySorted R (A ++ B).
Proof.
  intros HA HB H. induction HA as [|a A HA IH Ha]; simpl; [done|]. constructor.
  - apply IH. intros x b Hx Hb. apply H; [by right|done].
  - apply Forall_app. split; [done|]. apply Forall_forall. intros b Hb. apply H; [by left|done].
Qed.

Lemma descend_ok o value v t : ok v -> Forall (fun p => ok (value p)) (ptrs t) -> forall ctx fuel c, Zrep o ctx t -> rootp t = Some c -> StronglySorted (before value) (ptrs t) ->
  Forall (above value v) (ctx_l ctx) -> Forall (below value v) (ctx_r ctx) -> height t <= Z.of_nat fuel ->
  exists c' found, descend comparator fuel o value v c = Some (c', found) /\
    match found with
    | None => c' ∈ ptrs (plug ctx t) /\ comparator v (value c') = 0
    | Some s => exists b z ctx', plug ctx t = plug (Frame s c' b z :: ctx') E /\
        Forall (above value v) (ctx_l (Frame s c' b z :: ctx')) /\ Forall (below value v) (ctx_r (Frame s c' b z :: ctx'))
    end.
Proof.
  intros Hv. induction t as [|l IHl p b r IHr]; intros Hok ctx fuel c HZ Hc Hs Hl Hr Hf; [done|]. injection Hc as <-. cbn [ptrs] in Hs, Hok.
  apply Forall_app in Hok as [Hokl Hokr]. apply Forall_cons in Hokr as [Hokp Hokr]. specialize (IHl Hokl). specialize (IHr Hokr).
  rewrite Forall_forall in Hokl, Hokr.
  apply sorted_app_inv in Hs as (Hsl&Hsr&Hlr). apply StronglySorted_inv in Hsr as [Hsr Hpr]. rewrite Forall_forall in Hpr.
  pose proof (height_nonneg l). pose proof (height_nonneg r). cbn [height] in Hf. destruct fuel as [|fuel]; [lia|]. cbn [descend].
  destruct (cmp_range (Comparator := HC) v (value p)) as [E1|[E1|E1]]; rewrite E1; cbn [Z.eqb Pos.eqb].
  - (* left *)
    rewrite (link_of_ok _ _ _ _ (Zrep_node_T _ _ _ _ _ _ HZ)). cbn [mbind option_bind link link0].
    assert (Hr' : Forall (below value v) (ctx_r (Frame false p b r :: ctx))).
    { cbn [ctx_r side fp sib]. apply Forall_app. split; [|done]. constructor; [done|]. apply Forall_forall. intros q Hq.
      eapply (cmp_lt_trans _ (value p)); auto. by apply Hpr. }
    assert (Hl' : Forall (above value v) (ctx_l (Frame false p b r :: ctx))) by (cbn [ctx_l side]; by rewrite app_nil_r).
    destruct l as [|ll lp lb lr] eqn:El; cbn [rootp].
    + exists p, (Some false). split; [done|]. by exists b, r, ctx.
    + rewrite <- El in *. apply (IHl (Frame false p b r :: ctx)); try done; [by apply Zrep_step|by rewrite El|lia].
  - exists p, None. split; [done|]. split; [|done]. rewrite ptrs_plug. cbn [ptrs]. rewrite !elem_of_app, elem_of_cons. auto.
  - rewrite (link_of_ok _ _ _ _ (Zrep_node_T _ _ _ _ _ _ HZ)). cbn [mbind option_bind link link1].
    assert (Hl' : Forall (above value v) (ctx_l (Frame true p b l :: ctx))).
    { cbn [ctx_l side fp sib]. apply Forall_app. split; [done|]. apply Forall_app. split; [|by apply Forall_singleton]. apply Forall_forall.
      intros q Hq. unfold above. rewrite (cmp_antisym (Comparator := HC) (value q)). rewrite (cmp_lt_trans (value q) (value p) v); auto.
      - apply (Hlr q p Hq). by left.
      - by rewrite (cmp_antisym (Comparator := HC) v), E1. }
    destruct r as [|rl rp rb rr] eqn:Er; cbn [rootp].
    + exists p, (Some true). split; [done|]. by exists b, l, ctx.
    + rewrite <- Er in *. apply (IHr (Frame true p b l :: ctx)); try done; [by apply Zrep_step|by rewrite Er|lia].
Qed.

End Ordered.

(** ** The tree implements a sorted list *)

Section Refinement.

Context {V : Type} (ok : V -> Prop) (comparator : V -> V -> Z) `{HC : !Comparator ok comparator}.

Notation before := (before comparator).
Notation above := (above comparator).
Notation below := (below comparator).

(** The operations; a node that is not in the tree may get another value. *)
Inductive op :=
  | Insert (p : positive)
  | Remove (p : positive)
  | Lookup (v : V)
  | LookupExact (v : V)
  | IsEmpty
  | GetFirst
  | GetLast
  | GetNext (p : positive)
  | GetPrev (p : positive)
  | SetValue (p : positive) (v : V).

Definition set_value (p : positive) (v : V) (value : positive -> V) (q : positive) : V := if decide (q = p) then v else value q.

(** The new state and the results, an [int] and a node. *)
Definition code_step (st : BAVL * (positive -> V)) (x : op) : option (BAVL * (positive -> V) * (bool * option positive)) :=
  let '(o, value) := st in
  match x with
  | Insert p => '(res, ref, o) ← BAVL_Insert comparator o value p; Some (o, value, (res, ref))
  | Remove p => o ← BAVL_Remove o p; Some (o, value, (true, None))
  | Lookup v => r ← BAVL_Lookup comparator o value v; Some (o, value, (true, r))
  | LookupExact v => r ← BAVL_LookupExact comparator o value v; Some (o, value, (true, r))
  | IsEmpty => Some (o, value, (BAVL_IsEmpty o, None))
  | GetFirst => r ← BAVL_GetFirst o; Some (o, value, (true, r))
  | GetLast => r ← BAVL_GetLast o; Some (o, value, (true, r))
  | GetNext p => r ← BAVL_GetNext o p; Some (o, value, (true, r))
  | GetPrev p => r ← BAVL_GetPrev o p; Some (o, value, (true, r))
  | SetValue p v => Some (o, set_value p v value, (true, None))
  end.

(** The documented preconditions. *)
Definition allowed (L : list positive) (value : positive -> V) (x : op) : Prop :=
  match x with
  | Insert p => p ∉ L /\ ok (value p)
  | SetValue p _ => p ∉ L
  | Lookup v | LookupExact v => ok v
  | Remove p | GetNext p | GetPrev p => p ∈ L
  | _ => True
  end.

(** The place of a value among the nodes, and a node next to it. *)
Definition place (value : positive -> V) (v : V) (L A B : list positive) : Prop :=
  L = A ++ B /\ Forall (above value v) A /\ Forall (below value v) B.
Definition near (A B : list positive) (ref : option positive) : Prop :=
  (A = [] /\ B = [] /\ ref = None) \/ exists c, ref = Some c /\ (last A = Some c \/ hd_error B = Some c).

Definition spec_step (L : list positive) (value : positive -> V) (x : op)
    (L' : list positive) (value' : positive -> V) (res : bool * option positive) : Prop :=
  match x with
  | Insert p =>
      value' = value /\
      ((exists q, q ∈ L /\ comparator (value p) (value q) = 0 /\ L' = L /\ res = (false, Some q)) \/
       (exists A B ref, place value (value p) L A B /\ L' = A ++ p :: B /\ res = (true, ref) /\ near A B ref))
  | Remove p => value' = value /\ res = (true, None) /\ exists A B, L = A ++ p :: B /\ L' = A ++ B
  | Lookup v =>
      value' = value /\ L' = L /\
      ((exists q, q ∈ L /\ comparator v (value q) = 0 /\ res = (true, Some q)) \/
       (exists A B ref, place value v L A B /\ res = (true, ref) /\ near A B ref))
  | LookupExact v =>
      value' = value /\ L' = L /\
      ((exists q, q ∈ L /\ comparator v (value q) = 0 /\ res = (true, Some q)) \/
       (Forall (fun q => comparator v (value q) <> 0) L /\ res = (true, None)))
  | IsEmpty => value' = value /\ L' = L /\ res = (bool_decide (L = []), None)
  | GetFirst => value' = value /\ L' = L /\ res = (true, hd_error L)
  | GetLast => value' = value /\ L' = L /\ res = (true, last L)
  | GetNext p => value' = value /\ L' = L /\ exists A B, L = A ++ p :: B /\ res = (true, hd_error B)
  | GetPrev p => value' = value /\ L' = L /\ exists A B, L = A ++ p :: B /\ res = (true, last A)
  | SetValue p v => value' = set_value p v value /\ L' = L /\ res = (true, None)
  end.

(** The tree is well formed and balanced and holds the nodes [L], in order. *)
Definition sim (o : BAVL) (value : positive -> V) (L : list positive) : Prop :=
  exists t, Zrep o [] t /\ avl t /\ ptrs t = L /\ StronglySorted (before value) L /\ Forall (fun p => ok (value p)) L.

Lemma search_ok o value v t c : Zrep o [] t -> rootp t = Some c -> StronglySorted (before value) (ptrs t) ->
  Forall (fun p => ok (value p)) (ptrs t) -> ok v ->
  exists c' found, descend comparator (tree_fuel o) o value v c = Some (c', found) /\
    match found with
    | None => c' ∈ ptrs t /\ comparator v (value c') = 0
    | Some s => exists f ctx, t = plug (f :: ctx) E /\ side f = s /\ fp f = c' /\
        place value v (ptrs t) (ctx_l (f :: ctx)) (ctx_r (f :: ctx)) /\ near (ctx_l (f :: ctx)) (ctx_r (f :: ctx)) (Some c')
    end.
Proof.
  intros HZ Hc Hs Hok Hv. destruct (fuel_ok _ _ _ HZ) as [Hf _].
  destruct (descend_ok ok comparator o value v t Hv Hok [] (tree_fuel o) c HZ Hc Hs) as (c'&found&Hd&Hres); [constructor..|lia|].
  exists c', found. split; [done|]. destruct found as [s|]; [|done]. destruct Hres as (b&z&ctx&Hp&Ha&Hb).
  change (plug [] t) with t in Hp. exists (Frame s c' b z), ctx. split_and!; try done.
  - split_and!; [|done..]. rewrite Hp, ptrs_plug. done.
  - right. exists c'. split; [done|]. destruct s; [left|by right]. cbn [ctx_l side fp sib]. by rewrite app_assoc, last_snoc.
Qed.

Lemma sorted_insert_place value v L A B p : place value v L A B -> value p = v -> StronglySorted (before value) L ->
  StronglySorted (before value) (A ++ p :: B).
Proof.
  intros (->&Ha&Hb) Hv Hs. apply sorted_app_inv in Hs as (HA&HB&HAB). rewrite Forall_forall in Ha. apply sorted_app; [done| |].
  - constructor; [done|]. eapply Forall_impl; [exact Hb|]. intros q Hq. unfold before. by rewrite Hv.
  - intros a b Hia [->|Hib]%elem_of_cons; [|by apply HAB]. unfold before. rewrite Hv, (cmp_antisym (Comparator := HC) v). rewrite (Ha a Hia). done.
Qed.

Lemma insert_step o value L p : sim o value L -> p ∉ L -> ok (value p) ->
  exists o' L' res ref, BAVL_Insert comparator o value p = Some (res, ref, o') /\ sim o' value L' /\
    spec_step L value (Insert p) L' value (res, ref).
Proof.
  intros (t&HZ&Hav&<-&Hs&Hok) Hp Hvp. unfold BAVL_Insert. pose proof HZ as (_&Hr&_). cbn [rep_ctx] in Hr. rewrite Hr.
  destruct t as [|l c b r] eqn:Et; cbn [rootp].
  - eexists _, [p], true, None. split; [done|]. split.
    + exists (T E p 0 E). split; [apply insert_root_ok|]. split; [cbn; lia|]. split; [done|]. split; [repeat constructor|by apply Forall_singleton].
    + split; [done|]. right. exists [], [], None. split_and!; try done. by left.
  - rewrite <- Et in *. destruct (search_ok o value (value p) t c HZ ltac:(by rewrite Et) Hs Hok Hvp) as (c'&found&->&Hres). cbn [mbind option_bind].
    destruct found as [s|].
    + destruct Hres as (f&ctx&Hpl&<-&<-&Hplace&Hnear). rewrite Hpl in HZ, Hav. apply Zrep_plug in HZ. pose proof HZ as (_&_&Hnd).
      assert (Hpc : p ∉ ctx_ptrs (f :: ctx)).
      { rewrite <- ctx_ptrs_perm. intros Hin. apply Hp. rewrite Hpl, ptrs_plug. done. }
      destruct (insert_leaf_ok o f ctx p HZ Hpc) as (o1&->&HZ1). cbn [mbind option_bind].
      apply avl_plug in Hav as [_ Hcok]. cbn [height] in Hcok.
      destruct (rebalance_ok ctx f (T E p 0 E) _ 1 (tree_fuel (store_node p (Node (Some (fp f)) None None 0) o1)) HZ1) as (o'&t'&->&HZ'&Hav'&Hpt').
      { cbn; split_and!; try done; lia. }
      { done. }
      { lia. }
      { destruct (fuel_ok _ _ _ HZ1) as [_ Hf]. cbn [length] in Hf. lia. }
      cbn [mbind option_bind]. rewrite ptrs_plug in Hpt'. cbn [ptrs app] in Hpt'.
      exists o', (ctx_l (f :: ctx) ++ p :: ctx_r (f :: ctx)), true, (Some (fp f)). split; [done|]. split.
      * exists t'. split_and!; try done; [by eapply sorted_insert_place|]. rewrite Hpl, ptrs_plug in Hok. apply Forall_app in Hok as [??].
        apply Forall_app. split; [done|]. by constructor.
      * split; [done|]. right. by eexists _, _, _.
    + exists o, (ptrs t), false, (Some c'). split; [done|]. split; [by exists t|]. split; [done|]. left. exists c'. split_and!; try done; by destruct Hres.
Qed.

Lemma remove_step o value L p : sim o value L -> p ∈ L ->
  exists o' A B, BAVL_Remove o p = Some o' /\ L = A ++ p :: B /\ sim o' value (A ++ B).
Proof.
  intros (t&HZ&Hav&<-&Hs&Hok) Hp. destruct (find_ctx t p Hp) as (ctx&x&b&y&->). apply Zrep_plug in HZ.
  destruct (remove_ok o ctx x p b y HZ Hav) as (o'&t'&->&HZ'&Hav'&Hpt). exists o', (ctx_l ctx ++ ptrs x), (ptrs y ++ ctx_r ctx).
  rewrite ptrs_plug in Hs, Hok |- *. cbn [ptrs] in *. split; [done|]. split; [by list_simplifier|]. exists t'.
  split_and!; [done..|by list_simplifier| |rewrite !Forall_app, !Forall_cons in *; tauto].
  replace (ctx_l ctx ++ (ptrs x ++ p :: ptrs y) ++ ctx_r ctx) with ((ctx_l ctx ++ ptrs x) ++ p :: ptrs y ++ ctx_r ctx) in Hs by (by list_simplifier).
  apply sorted_app_inv in Hs as (H1&H2&H3). apply StronglySorted_inv in H2 as [H2 _]. apply sorted_app; [done..|].
  intros a c Ha Hc. apply H3; [done|]. by right.
Qed.

Lemma lookup_step o value L v : sim o value L -> ok v ->
  exists r r', BAVL_Lookup comparator o value v = Some r /\ BAVL_LookupExact comparator o value v = Some r' /\
    spec_step L value (Lookup v) L value (true, r) /\ spec_step L value (LookupExact v) L value (true, r').
Proof.
  intros (t&HZ&Hav&<-&Hs&Hok) Hv. unfold BAVL_Lookup, BAVL_LookupExact. pose proof HZ as (_&Hr&_). cbn [rep_ctx] in Hr. rewrite Hr.
  destruct t as [|l c b r] eqn:Et; cbn [rootp].
  - exists None, None. split_and!; [done..| |].
    + split_and!; [done..|]. right. exists [], [], None. split_and!; [split_and!; by constructor|done|by left].
    + split_and!; [done..|]. right. split; [constructor|done].
  - rewrite <- Et in *. destruct (search_ok o value v t c HZ ltac:(by rewrite Et) Hs Hok Hv) as (c'&found&->&Hres). cbn [mbind option_bind].
    destruct found as [s|].
    + destruct Hres as (f&ctx&_&_&_&Hplace&Hnear). exists (Some c'), None. split_and!; [done..| |].
      * split_and!; [done..|]. right. by eexists _, _, _.
      * split_and!; [done..|]. right. split; [|done]. destruct Hplace as (->&Ha&Hb).
        apply Forall_app. split; [eapply Forall_impl; [exact Ha|]|eapply Forall_impl; [exact Hb|]]; unfold above, below; intros q Hq; simpl in Hq; lia.
    + destruct Hres as [Hin Heq]. exists (Some c'), (Some c'). split_and!; [done..| |]; (split_and!; [done..|]; left; by exists c').
Qed.

Lemma before_ext value value' L : (forall p, p ∈ L -> value' p = value p) -> StronglySorted (before value) L -> StronglySorted (before value') L.
Proof.
  intros H Hs. induction Hs as [|p L Hs IH Hp]; [constructor|]. constructor; [apply IH; intros; apply H; by right|].
  rewrite Forall_forall in *. intros q Hq. unfold before. rewrite !H by (rewrite elem_of_cons; auto). by apply Hp.
Qed.

Lemma neighbour_step o value L p s : sim o value L -> p ∈ L ->
  exists A B, L = A ++ p :: B /\ neighbour s o p = Some (if s then hd_error B else last A).
Proof.
  intros (t&HZ&_&<-&_) Hp. destruct (find_ctx t p Hp) as (ctx&x&b&y&->). apply Zrep_plug in HZ.
  exists (ctx_l ctx ++ ptrs x), (ptrs y ++ ctx_r ctx). split; [rewrite ptrs_plug; by list_simplifier|]. by apply (neighbour_ok o s ctx x p b y).
Qed.

Lemma tree_step_ok o value L x : sim o value L -> allowed L value x ->
  exists o' value' L' res, code_step (o, value) x = Some (o', value', res) /\ spec_step L value x L' value' res /\ sim o' value' L'.
Proof.
  intros Hsim Ha. pose proof Hsim as (t&HZ&Hav&Ht&Hs&Hok). destruct x as [p|p|v|v| | | |p|p|p v]; cbn [allowed] in Ha; cbn [code_step].
  - destruct Ha as [Ha Hv]. destruct (insert_step o value L p Hsim Ha Hv) as (o'&L'&res&ref&->&Hsim'&Hsp). cbn [mbind option_bind]. by eexists _, _, _, _.
  - destruct (remove_step o value L p Hsim Ha) as (o'&A&B&->&HL&Hsim'). cbn [mbind option_bind]. eexists _, _, (A ++ B), _.
    split; [done|]. split; [|done]. split_and!; [done..|]. by exists A, B.
  - destruct (lookup_step o value L v Hsim Ha) as (r&_&->&_&Hsp&_). cbn [mbind option_bind]. by eexists _, _, _, _.
  - destruct (lookup_step o value L v Hsim Ha) as (_&r&_&->&_&Hsp). cbn [mbind option_bind]. by eexists _, _, _, _.
  - eexists _, _, L, _. split; [done|]. split; [|done]. split_and!; [done..|]. unfold BAVL_IsEmpty.
    pose proof HZ as (_&Hr&_). cbn [rep_ctx] in Hr. rewrite Hr, <- Ht. destruct t as [|l q b r]; cbn [rootp ptrs]; [done|].
    rewrite bool_decide_false; [done|]. by destruct (ptrs l).
  - unfold BAVL_GetFirst. rewrite (get_end_ok _ _ _ HZ), Ht. cbn [mbind option_bind extreme]. by eexists _, _, L, _.
  - unfold BAVL_GetLast. rewrite (get_end_ok _ _ _ HZ), Ht. cbn [mbind option_bind extreme]. by eexists _, _, L, _.
  - unfold BAVL_GetNext. destruct (neighbour_step o value L p true Hsim Ha) as (A&B&HL&->). cbn [mbind option_bind].
    eexists _, _, L, _. split; [done|]. split; [|done]. split_and!; [done..|]. by exists A, B.
  - unfold BAVL_GetPrev. destruct (neighbour_step o value L p false Hsim Ha) as (A&B&HL&->). cbn [mbind option_bind].
    eexists _, _, L, _. split; [done|]. split; [|done]. split_and!; [done..|]. by exists A, B.
  - eexists _, _, L, _. split; [done|]. split; [done|]. exists t.
    assert (He : forall q, q ∈ L -> set_value p v value q = value q).
    { intros q Hq. unfold set_value. rewrite decide_False; [done|]. by intros ->. }
    split_and!; [done..|by eapply before_ext|]. rewrite Forall_forall in *. intros q Hq. rewrite He by done. auto.
Qed.

(** Every operation is allowed, whatever the earlier ones returned. *)
Fixpoint legal (L : list positive) (value : positive -> V) (xs : list op) : Prop :=
  match xs with
  | [] => True
  | x :: xs' => allowed L value x /\ forall L' value' res, spec_step L value x L' value' res -> legal L' value' xs'
  end.

Fixpoint code_steps (st : BAVL * (positive -> V)) (xs : list op) : option (BAVL * (positive -> V) * list (bool * option positive)) :=
  match xs with
  | [] => Some (st, [])
  | x :: xs' =>
      '(st, res) ← code_step st x;
      '(st, ress) ← code_steps st xs';
      Some (st, res :: ress)
  end.

Inductive spec_steps : list positive -> (positive -> V) -> list op -> list positive -> (positive -> V) -> list (bool * option positive) -> Prop :=
  | spec_nil L value : spec_steps L value [] L value []
  | spec_cons L value x L1 value1 res xs L2 value2 ress :
      spec_step L value x L1 value1 res -> spec_steps L1 value1 xs L2 value2 ress ->
      spec_steps L value (x :: xs) L2 value2 (res :: ress).

Lemma tree_steps_ok xs : forall o value L, sim o value L -> legal L value xs ->
  exists o' value' L' ress, code_steps (o, value) xs = Some (o', value', ress) /\ spec_steps L value xs L' value' ress /\ sim o' value' L'.
Proof.
  induction xs as [|x xs IH]; intros o value L Hsim Hl.
  - exists o, value, L, []. split_and!; [done|constructor|done].
  - destruct Hl as [Ha Hl]. destruct (tree_step_ok o value L x Hsim Ha) as (o1&v1&L1&res&Hc&Hsp&Hsim1).
    destruct (IH o1 v1 L1 Hsim1 (Hl _ _ _ Hsp)) as (o2&v2&L2&ress&Hc2&Hsp2&Hsim2).
    exists o2, v2, L2, (res :: ress). cbn [code_steps]. rewrite Hc. cbn [mbind option_bind]. rewrite Hc2. split_and!; [done|by econstructor|done].
Qed.

Lemma init_ok value : sim BAVL_Init value [].
Proof. exists E. split; [|split_and!; constructor]. split_and!; [done..|constructor]. Qed.

(** C21: The AVL tree is a sorted list of nodes. From the empty tree, any legal
    sequence of insertions, removals, lookups, walks and changes of values of
    nodes outside the tree runs without following a null or dangling pointer;
    an insertion is refused exactly if an equal value is present and otherwise
    puts the node at its place in the order; a removal takes out that node; lookups,
    first, last, next and previous return the nodes the list says, where an
    inexact lookup returns a direct neighbour of the missing value. Afterwards
    the parent links are right, every balance factor is the difference of the heights
    of the subtrees and at most 1 in size, and the in-order nodes are the
    list. *)
Theorem BAVL_refines value xs : legal [] value xs ->
  exists o' value' L' ress, code_steps (BAVL_Init, value) xs = Some (o', value', ress) /\
    spec_steps [] value xs L' value' ress /\ sim o' value' L'.
Proof. apply tree_steps_ok, init_ok. Qed.

(** ** Depth *)

Lemma descend_fuel o value v fuel : forall fuel' c res, (fuel <= fuel')%nat ->
  descend comparator fuel o value v c = Some res -> descend comparator fuel' o value v c = Some res.
Proof.
  induction fuel as [|fuel IH]; intros [|fuel'] c res Hf; cbn [descend]; try done; try lia. case_match; [done|].
  destruct (link_of c _ o) as [[c'|]|]; cbn [mbind option_bind]; [|done..]. apply IH. lia.
Qed.

Lemma avl_size t : avl t -> 2 ^ height t <= (Z.of_nat (length (ptrs t)) + 1) ^ 2.
Proof.
  induction t as [|l IHl p b r IHr]; intros Hav; [simpl; lia|]. destruct Hav as (Hl&Hr&Hb&Hb1). specialize (IHl Hl). specialize (IHr Hr).
  cbn [ptrs height]. rewrite length_app. cbn [length]. pose proof (height_nonneg l). pose proof (height_nonneg r).
  set (a := Z.of_nat (length (ptrs l)) + 1) in *. set (c := Z.of_nat (length (ptrs r)) + 1) in *.
  replace (Z.of_nat (length (ptrs l) + S (length (ptrs r))) + 1) with (a + c) by (unfold a, c; lia).
  assert (Ha : 1 <= a) by (unfold a; lia). assert (Hc : 1 <= c) by (unfold c; lia). clearbody a c.
  assert (Hgen : forall h x y, 0 <= h -> 1 <= x -> 1 <= y -> 2 ^ (h + 1) <= x ^ 2 -> 2 ^ h <= y ^ 2 -> 2 ^ (h + 2) <= (x + y) ^ 2).
  { intros h x y Hh Hx Hy H1 H2. rewrite Z.pow_add_r in * by lia. pose proof (Z.pow_pos_nonneg 2 h ltac:(lia) Hh) as Hp.
    set (P := 2 ^ h) in *. clearbody P. rewrite !Z.pow_2_r in *. change (2 ^ 1) with 2 in *. change (2 ^ 2) with 4 in *.
    assert (Hxy : P <= x * y); [|nia]. destruct (Z.le_gt_cases P (x * y)) as [?|Hlt]; [done|]. exfalso.
    assert (P * P <= (x * x) * (y * y)) by nia. nia. }
  destruct (Z.eq_dec b 0) as [E0|E0]; [|destruct (Z.eq_dec b 1) as [E1|E1]].
  - replace (1 + Z.max (height l) (height r)) with (height l + 1) by lia. replace (height r) with (height l) in IHr by lia.
    rewrite Z.pow_add_r by lia. pose proof (Z.pow_pos_nonneg 2 (height l)). nia.
  - replace (1 + Z.max (height l) (height r)) with (height l + 2) by lia. rewrite (Z.add_comm a c). apply Hgen; try lia. by replace (height l + 1) with (height r) by lia.
  - replace (1 + Z.max (height l) (height r)) with (height r + 2) by lia. apply Hgen; try lia. by replace (height r + 1) with (height l) by lia.
Qed.

Lemma avl_height t : avl t -> height t <= 2 * Z.log2 (Z.of_nat (length (ptrs t)) + 1) + 1.
Proof.
  intros Hav. pose proof (avl_size t Hav) as H. pose proof (height_nonneg t). set (n := Z.of_nat (length (ptrs t)) + 1) in *.
  assert (Hn : 1 <= n) by (unfold n; lia). clearbody n. destruct (Z.log2_spec n ltac:(lia)) as [_ Hlt].
  assert (Hlt2 : n ^ 2 < (2 ^ Z.succ (Z.log2 n)) ^ 2) by (apply Z.pow_lt_mono_l; lia).
  pose proof (Z.log2_nonneg n). rewrite <- Z.pow_mul_r in Hlt2 by lia.
  assert (2 ^ height t < 2 ^ (Z.succ (Z.log2 n) * 2)) by lia. apply Z.pow_lt_mono_r_iff in H2; lia.
Qed.

(** Lookups and the descent of an insertion are logarithmic: in a tree of
    [n] nodes, however it was built, the search for any value stops after at most
    [2 * log2 (n + 1) + 1] comparisons, with the result of [BAVL_Lookup]. *)
Theorem BAVL_lookup_depth o value L v r : sim o value L -> ok v -> root o = Some r ->
  exists c found, descend comparator (Z.to_nat (2 * Z.log2 (Z.of_nat (length L) + 1) + 1)) o value v r = Some (c, found) /\
    BAVL_Lookup comparator o value v = Some (Some c).
Proof.
  intros (t&HZ&Hav&<-&Hs&Hok) Hv Hr. pose proof HZ as (_&Hroot&_). cbn [rep_ctx] in Hroot. pose proof (avl_height t Hav) as Hh.
  set (k := 2 * Z.log2 _ + 1) in *. pose proof (height_nonneg t).
  destruct (descend_ok ok comparator o value v t Hv Hok [] (Z.to_nat k) r HZ ltac:(congruence) Hs) as (c&found&Hd&_); [constructor..|lia|].
  destruct (search_ok o value v t r HZ ltac:(congruence) Hs Hok Hv) as (c'&found'&Hd'&_). exists c, found. split; [done|].
  unfold BAVL_Lookup. rewrite Hr, Hd'. cbn [mbind option_bind]. do 2 f_equal.
  destruct (Nat.le_ge_cases (Z.to_nat k) (tree_fuel o)) as [Hle|Hle]; [eapply descend_fuel in Hd; [|exact Hle]|eapply descend_fuel in Hd'; [|exact Hle]]; congruence.
Qed.

End Refinement.

(** Three insertions in ascending order, which need a rotation, a step to the
    neighbour and a removal of the new root. *)
Definition ex_ops : list (op (V := Z)) := [Insert 1; Insert 2; Insert 3; GetNext 2; Remove 2; LookupExact 3%Z]%positive.

Lemma ex_legal : legal (fun _ => True) B_COMPARE [] Z.pos ex_ops.
Proof.
  assert (Hins : forall L p L' value' res, p ∉ L -> spec_step B_COMPARE L Z.pos (Insert p) L' value' res ->
    value' = Z.pos /\ forall q, q ∈ L' <-> q = p \/ q ∈ L).
  { intros L p L' value' res Hp (->&[(q&Hq&Hc&_)|(A&B&ref&(->&_)&->&_)]); split; try done.
    - apply (proj1 (cmp_eq (Comparator := B_COMPARE_Comparator) _ _ I I)) in Hc. assert (p = q) by congruence. by subst q.
    - intros q. rewrite !elem_of_app, elem_of_cons. naive_solver. }
  unfold ex_ops. cbn [legal]. split; [split; [apply not_elem_of_nil|done]|].
  intros L1 v1 r1 H1. apply Hins in H1 as [-> H1]; [|apply not_elem_of_nil]. split; [set_solver|].
  intros L2 v2 r2 H2. apply Hins in H2 as [-> H2]; [|set_solver]. split; [set_solver|].
  intros L3 v3 r3 H3. apply Hins in H3 as [-> H3]; [|set_solver]. split; [set_solver|].
  intros L4 v4 r4 (->&->&_). split; [set_solver|]. by intros.
Qed.

Lemma BAVL_refines_witness :
  exists o' value' L' ress, code_steps B_COMPARE (BAVL_Init, Z.pos) ex_ops = Some (o', value', ress) /\
    spec_steps B_COMPARE [] Z.pos ex_ops L' value' ress /\ sim (fun _ => True) B_COMPARE o' value' L'.
Proof. apply (BAVL_refines (fun _ => True) B_COMPARE Z.pos ex_ops). exact ex_legal. Defined.

Lemma BAVL_lookup_depth_witness :
  exists o c found, descend B_COMPARE (Z.to_nat (2 * Z.log2 (Z.of_nat (length [1%positive]) + 1) + 1)) o Z.pos 7 1%positive = Some (c, found) /\
    BAVL_Lookup B_COMPARE o Z.pos 7 = Some (Some c).
Proof.
  exists (Tree (Some 1%positive) {[1%positive := Node None None None 0]}).
  apply (BAVL_lookup_depth (fun _ => True) B_COMPARE (Tree (Some 1%positive) {[1%positive := Node None None None 0]}) Z.pos [1%positive] 7 1%positive); [|done..].
  exists (T E 1%positive 0 E). split; [apply (insert_root_ok BAVL_Init)|]. split; [cbn; lia|]. split; [done|]. split; repeat constructor.
Defined.
