(* ===== verification/LinkedList1.v ===== *)
(** * The doubly linked list

    [structure/LinkedList1.h], the intrusive list that keeps the connections of
    the udpgw client by recency and the TCP clients of tun2socks. The nodes are in
    a heap; an access through a null or dangling pointer gives [None]. *)

From S2P Require Import Prelude.

(** The last element of a list of the model; [last] is a field below. *)
#[local] Notation list_last := (@last positive) (only parsing).

Record LinkedList1Node := LNode { p : option positive; n : option positive }.

Record LinkedList1 := LList { first : option positive; last : option positive; lnodes : gmap positive LinkedList1Node }.

Definition set_first (v : option positive) (o : LinkedList1) : LinkedList1 := LList v (last o) (lnodes o).
Definition set_last (v : option positive) (o : LinkedList1) : LinkedList1 := LList (first o) v (lnodes o).
Definition put (x : positive) (v : LinkedList1Node) (o : LinkedList1) : LinkedList1 := LList (first o) (last o) (<[x := v]> (lnodes o)).

Definition set_p (x : positive) (v : option positive) (o : LinkedList1) : option LinkedList1 :=
  d ← lnodes o !! x; Some (put x (LNode v (n d)) o).
Definition set_n (x : positive) (v : option positive) (o : LinkedList1) : option LinkedList1 :=
  d ← lnodes o !! x; Some (put x (LNode (p d) v) o).

(** [if (x) x->n = v; else list->first = v;] and its mirror image. *)
Definition link_n (x v : option positive) (o : LinkedList1) : option LinkedList1 :=
  match x with Some x => set_n x v o | None => Some (set_first v o) end.
Definition link_p (x v : option positive) (o : LinkedList1) : option LinkedList1 :=
  match x with Some x => set_p x v o | None => Some (set_last v o) end.

Definition LinkedList1_Init (h : gmap positive LinkedList1Node) : LinkedList1 := LList None None h.
Definition LinkedList1_IsEmpty (o : LinkedList1) : bool := match first o with None => true | Some _ => false end.
Definition LinkedList1_GetFirst (o : LinkedList1) : option positive := first o.
Definition LinkedList1_GetLast (o : LinkedList1) : option positive := last o.

Definition LinkedList1_Prepend (o : LinkedList1) (node : positive) : option LinkedList1 :=
  let o := put node (LNode None (first o)) o in
  o ← link_p (first o) (Some node) o;
  Some (set_first (Some node) o).

Definition LinkedList1_Append (o : LinkedList1) (node : positive) : option LinkedList1 :=
  let o := put node (LNode (last o) None) o in
  o ← link_n (last o) (Some node) o;
  Some (set_last (Some node) o).

Definition LinkedList1_InsertBefore (o : LinkedList1) (node target : positive) : option LinkedList1 :=
  t ← lnodes o !! target;
  let o := put node (LNode (p t) (Some target)) o in
  o ← link_n (p t) (Some node) o;
  set_p target (Some node) o.

Definition LinkedList1_InsertAfter (o : LinkedList1) (node target : positive) : option LinkedList1 :=
  t ← lnodes o !! target;
  let o := put node (LNode (Some target) (n t)) o in
  o ← link_p (n t) (Some node) o;
  set_n target (Some node) o.

Definition LinkedList1_Remove (o : LinkedList1) (node : positive) : option LinkedList1 :=
  d ← lnodes o !! node;
  o ← link_n (p d) (n d) o;
  d ← lnodes o !! node;
  link_p (n d) (p d) o.

(** [ins_list] is passed by value: its ends [ifirst] and [ilast]. *)
Definition LinkedList1_InsertListAfter (o : LinkedList1) (ifirst ilast target : option positive) : option LinkedList1 :=
  match ifirst with
  | None => Some o
  | Some f =>
      t_next ← match target with Some t => n <$> lnodes o !! t | None => Some (first o) end;
      o ← set_p f target o;
      l ← ilast;
      o ← set_n l t_next o;
      o ← link_n target (Some f) o;
      link_p t_next (Some l) o
  end.

Definition LinkedList1Node_Next (o : LinkedList1) (node : positive) : option (option positive) := n <$> lnodes o !! node.
Definition LinkedList1Node_Prev (o : LinkedList1) (node : positive) : option (option positive) := p <$> lnodes o !! node.

(** ** Pieces of a list in the heap *)

Definition hd_or (L : list positive) (d : option positive) : option positive := match L with [] => d | x :: _ => Some x end.
Fixpoint last_or (L : list positive) (d : option positive) : option positive := match L with [] => d | x :: L' => last_or L' (Some x) end.

(** The nodes [L], between [pv] and [nx]. *)
Fixpoint dseg (h : gmap positive LinkedList1Node) (pv : option positive) (L : list positive) (nx : option positive) : Prop :=
  match L with
  | [] => True
  | x :: L' => h !! x = Some (LNode pv (hd_or L' nx)) /\ dseg h (Some x) L' nx
  end.

Lemma hd_or_app A B d : hd_or (A ++ B) d = hd_or A (hd_or B d).
Proof. by destruct A. Qed.

Lemma last_or_app A : forall B d, last_or (A ++ B) d = last_or B (last_or A d).
Proof. induction A; intros; simpl; auto. Qed.

Lemma dseg_app h A : forall pv B nx, dseg h pv (A ++ B) nx <-> dseg h pv A (hd_or B nx) /\ dseg h (last_or A pv) B nx.
Proof.
  induction A as [|x A IH]; intros pv B nx; simpl; [naive_solver|]. rewrite IH, hd_or_app. naive_solver.
Qed.

Lemma dseg_frame h h' L : (forall x, x ∈ L -> h' !! x = h !! x) -> forall pv nx, dseg h pv L nx -> dseg h' pv L nx.
Proof.
  induction L as [|x L IH]; intros Hf pv nx; simpl; [done|]. intros [Hx HL]. rewrite Hf by (by left). split; [done|].
  apply IH; [|done]. intros y Hy. apply Hf. by right.
Qed.

(** The list holds [L]. *)
Definition Rep (o : LinkedList1) (L : list positive) : Prop :=
  first o = hd_or L None /\ last o = last_or L None /\ dseg (lnodes o) None L None /\ NoDup L.

(** The last node of [A], or the start of the list, gets a new successor. *)
Lemma link_n_ok o A nx v : dseg (lnodes o) None A nx -> NoDup A -> first o = hd_or A nx ->
  exists o', link_n (last_or A None) v o = Some o' /\ dseg (lnodes o') None A v /\ first o' = hd_or A v /\ last o' = last o /\
    forall x, x ∉ A -> lnodes o' !! x = lnodes o !! x.
Proof.
  intros Hd Hn Hf. destruct A as [|a A] using rev_ind; [by eexists|clear IHA]. rewrite last_or_app. cbn [last_or link_n].
  apply dseg_app in Hd as [HA [Ha _]]. cbn [hd_or] in *. unfold set_n. rewrite Ha. cbn [mbind option_bind p].
  apply NoDup_app in Hn as (_&Hn&_). eexists. split; [done|]. unfold put. cbn [lnodes first last]. split_and!; [|by rewrite Hf, !hd_or_app|done|].
  - apply dseg_app. split; [|cbn [dseg hd_or]; by rewrite lookup_insert_eq]. eapply dseg_frame; [|exact HA]. intros x Hx.
    rewrite lookup_insert_ne; [done|]. intros <-. eapply Hn; [done|]. by left.
  - intros x Hx. rewrite lookup_insert_ne; [done|]. intros <-. apply Hx, elem_of_app. right. by left.
Qed.

Lemma link_p_ok o B pv v : dseg (lnodes o) pv B None -> NoDup B -> last o = last_or B pv ->
  exists o', link_p (hd_or B None) v o = Some o' /\ dseg (lnodes o') v B None /\ last o' = last_or B v /\ first o' = first o /\
    forall x, x ∉ B -> lnodes o' !! x = lnodes o !! x.
Proof.
  intros Hd Hn Hl. destruct B as [|b B]; [by eexists|]. destruct Hd as [Hb HB]. cbn [hd_or link_p]. unfold set_p. rewrite Hb.
  cbn [mbind option_bind n]. apply NoDup_cons in Hn as [Hn _]. eexists. split; [done|]. unfold put. cbn [lnodes first last].
  split_and!; [|done..|].
  - split; [by rewrite lookup_insert_eq|]. eapply dseg_frame; [|exact HB]. intros x Hx. rewrite lookup_insert_ne; [done|]. by intros <-.
  - intros x Hx. rewrite lookup_insert_ne; [done|]. intros <-. apply Hx. by left.
Qed.

(** ** Operations *)

Lemma dll_split o A B : Rep o (A ++ B) ->
  dseg (lnodes o) None A (hd_or B None) /\ dseg (lnodes o) (last_or A None) B None /\ first o = hd_or A (hd_or B None) /\
  last o = last_or B (last_or A None) /\ NoDup A /\ NoDup B /\ (forall x, x ∈ A -> x ∉ B).
Proof.
  intros (Hf&Hl&Hd&Hn). apply dseg_app in Hd as [HA HB]. rewrite hd_or_app in Hf. rewrite last_or_app in Hl.
  apply NoDup_app in Hn as (?&?&?). by split_and!.
Qed.

Lemma NoDup_insert (A B : list positive) x : NoDup A -> NoDup B -> (forall y, y ∈ A -> y ∉ B) -> x ∉ A -> x ∉ B -> NoDup (A ++ x :: B).
Proof.
  intros. apply NoDup_app. split_and!; [done| |by apply NoDup_cons]. intros y Hy [->|?]%elem_of_cons; naive_solver.
Qed.

(** A new node is linked in between [A] and [B]; the two neighbours are written
    in either order. *)
Lemma insert_np o A B x : Rep o (A ++ B) -> x ∉ A ++ B ->
  exists o1 o2, link_n (last_or A None) (Some x) (put x (LNode (last_or A None) (hd_or B None)) o) = Some o1 /\
    link_p (hd_or B None) (Some x) o1 = Some o2 /\ Rep o2 (A ++ x :: B).
Proof.
  intros (HA&HB&Hf&Hl&HnA&HnB&Hdis)%dll_split [HxA HxB]%not_elem_of_app. set (o0 := put x _ o).
  assert (Hfr : forall y, y <> x -> lnodes o0 !! y = lnodes o !! y) by (intros; apply lookup_insert_ne; congruence).
  destruct (link_n_ok o0 A (hd_or B None) (Some x)) as (o1&H1&HA1&Hf1&Hl1&Hfr1);
    [eapply dseg_frame; [|exact HA]; intros y Hy; apply Hfr; congruence|done|done|].
  destruct (link_p_ok o1 B (last_or A None) (Some x)) as (o2&H2&HB2&Hl2&Hf2&Hfr2);
    [eapply dseg_frame; [|exact HB]; intros y Hy; rewrite Hfr1, Hfr by (intros ?; naive_solver); done|done|by rewrite Hl1|].
  exists o1, o2. split_and!; [done..|]. split_and!.
  - rewrite Hf2, Hf1, hd_or_app. done.
  - rewrite Hl2, last_or_app. done.
  - apply dseg_app. split; [eapply dseg_frame; [|exact HA1]; intros y Hy; apply Hfr2; by apply Hdis|]. cbn [dseg]. split; [|done].
    rewrite Hfr2, Hfr1 by done. apply lookup_insert_eq.
  - by apply NoDup_insert.
Qed.

Lemma insert_pn o A B x : Rep o (A ++ B) -> x ∉ A ++ B ->
  exists o1 o2, link_p (hd_or B None) (Some x) (put x (LNode (last_or A None) (hd_or B None)) o) = Some o1 /\
    link_n (last_or A None) (Some x) o1 = Some o2 /\ Rep o2 (A ++ x :: B).
Proof.
  intros (HA&HB&Hf&Hl&HnA&HnB&Hdis)%dll_split [HxA HxB]%not_elem_of_app. set (o0 := put x _ o).
  assert (Hfr : forall y, y <> x -> lnodes o0 !! y = lnodes o !! y) by (intros; apply lookup_insert_ne; congruence).
  destruct (link_p_ok o0 B (last_or A None) (Some x)) as (o1&H1&HB1&Hl1&Hf1&Hfr1);
    [eapply dseg_frame; [|exact HB]; intros y Hy; apply Hfr; congruence|done|done|].
  destruct (link_n_ok o1 A (hd_or B None) (Some x)) as (o2&H2&HA2&Hf2&Hl2&Hfr2);
    [eapply dseg_frame; [|exact HA]; intros y Hy; rewrite Hfr1, Hfr by (intros ?; naive_solver); done|done|by rewrite Hf1|].
  exists o1, o2. split_and!; [done..|]. split_and!.
  - rewrite Hf2, hd_or_app. done.
  - rewrite Hl2, Hl1, last_or_app. done.
  - apply dseg_app. split; [done|]. cbn [dseg]. split; [rewrite Hfr2, Hfr1 by done; apply lookup_insert_eq|].
    eapply dseg_frame; [|exact HB1]. intros y Hy. apply Hfr2. intros HyA. by apply (Hdis y).
  - by apply NoDup_insert.
Qed.

Lemma last_or_some A x d : last_or (A ++ [x]) d = Some x.
Proof. by rewrite last_or_app. Qed.

(** The contents of a node in place. *)
Lemma rep_node o A x B : Rep o (A ++ x :: B) -> lnodes o !! x = Some (LNode (last_or A None) (hd_or B None)).
Proof. intros (_&_&Hd&_). apply dseg_app in Hd as [_ [Hx _]]. done. Qed.

Lemma Prepend_ok o L x : Rep o L -> x ∉ L -> exists o', LinkedList1_Prepend o x = Some o' /\ Rep o' (x :: L).
Proof.
  intros HR Hx. destruct (insert_pn o [] L x HR Hx) as (o1&o2&H1&H2&HR2). cbn [last_or link_n] in *. injection H2 as <-.
  destruct HR as (Hf&_). unfold LinkedList1_Prepend. cbn [put first]. rewrite Hf, H1. by eexists.
Qed.

Lemma Append_ok o L x : Rep o L -> x ∉ L -> exists o', LinkedList1_Append o x = Some o' /\ Rep o' (L ++ [x]).
Proof.
  intros HR Hx. assert (HR' := HR). rewrite <- (app_nil_r L) in HR', Hx. destruct (insert_np o L [] x HR' Hx) as (o1&o2&H1&H2&HR2).
  cbn [hd_or link_p] in *. injection H2 as <-. destruct HR as (_&Hl&_). unfold LinkedList1_Append. cbn [put last]. rewrite Hl, H1. by eexists.
Qed.

Lemma InsertBefore_ok o A t B x : Rep o (A ++ t :: B) -> x ∉ A ++ t :: B ->
  exists o', LinkedList1_InsertBefore o x t = Some o' /\ Rep o' (A ++ x :: t :: B).
Proof.
  intros HR Hx. destruct (insert_np o A (t :: B) x HR Hx) as (o1&o2&H1&H2&HR2). unfold LinkedList1_InsertBefore.
  rewrite (rep_node _ _ _ _ HR). cbn [mbind option_bind p]. cbn [hd_or link_p] in *. rewrite H1. cbn [mbind option_bind]. by exists o2.
Qed.

Lemma InsertAfter_ok o A t B x : Rep o (A ++ t :: B) -> x ∉ A ++ t :: B ->
  exists o', LinkedList1_InsertAfter o x t = Some o' /\ Rep o' (A ++ t :: x :: B).
Proof.
  intros HR Hx. assert (E : forall C, A ++ t :: C = (A ++ [t]) ++ C) by (intros; by rewrite <- app_assoc). unfold LinkedList1_InsertAfter.
  rewrite (rep_node _ _ _ _ HR). cbn [mbind option_bind n]. rewrite E in HR, Hx. destruct (insert_pn o _ B x HR Hx) as (o1&o2&H1&H2&HR2).
  rewrite last_or_some in *. rewrite H1. cbn [mbind option_bind link_n] in *. rewrite E. by exists o2.
Qed.

Lemma Remove_ok o A x B : Rep o (A ++ x :: B) -> exists o', LinkedList1_Remove o x = Some o' /\ Rep o' (A ++ B).
Proof.
  intros HR. pose proof (rep_node _ _ _ _ HR) as Hx. apply dll_split in HR as (HA&[_ HB]&Hf&Hl&HnA&HnB&Hdis).
  apply NoDup_cons in HnB as [HxB HnB]. assert (HxA : x ∉ A) by (intros Hin; apply (Hdis x Hin); by left).
  unfold LinkedList1_Remove. rewrite Hx. cbn [mbind option_bind p n].
  destruct (link_n_ok o A (Some x) (hd_or B None) HA HnA Hf) as (o1&->&HA1&Hf1&Hl1&Hfr1). cbn [mbind option_bind].
  rewrite Hfr1, Hx by done. cbn [mbind option_bind p n].
  assert (HdAB : forall y, y ∈ B -> y ∉ A) by (intros y Hy HyA; apply (Hdis y HyA); by right).
  destruct (link_p_ok o1 B (Some x) (last_or A None)) as (o2&->&HB2&Hl2&Hf2&Hfr2);
    [eapply dseg_frame; [|exact HB]; intros y Hy; apply Hfr1; auto|done|by rewrite Hl1, Hl|].
  exists o2. split; [done|]. split_and!.
  - by rewrite Hf2, Hf1, hd_or_app.
  - by rewrite Hl2, last_or_app.
  - apply dseg_app. split; [|done]. eapply dseg_frame; [|exact HA1]. intros y Hy. apply Hfr2. intros HyB. by apply (HdAB y).
  - apply NoDup_app. split_and!; [done| |done]. intros y Hy HyB. by apply (HdAB y).
Qed.

(** The ends of a piece get new neighbours. *)
Lemma set_p_ok o x L pv nx v : dseg (lnodes o) pv (x :: L) nx -> NoDup (x :: L) ->
  exists o', set_p x v o = Some o' /\ dseg (lnodes o') v (x :: L) nx /\ first o' = first o /\ last o' = last o /\
    forall y, y ∉ x :: L -> lnodes o' !! y = lnodes o !! y.
Proof.
  intros [Hx HL] [Hn _]%NoDup_cons. unfold set_p. rewrite Hx. cbn [mbind option_bind n]. eexists. split; [done|]. unfold put. cbn [lnodes first last dseg].
  split_and!; [by rewrite lookup_insert_eq| |done..|].
  - eapply dseg_frame; [|exact HL]. intros y Hy. rewrite lookup_insert_ne; [done|]. by intros <-.
  - intros y Hy. rewrite lookup_insert_ne; [done|]. intros <-. apply Hy. by left.
Qed.

Lemma set_n_ok o x L pv nx v : dseg (lnodes o) pv (L ++ [x]) nx -> NoDup (L ++ [x]) ->
  exists o', set_n x v o = Some o' /\ dseg (lnodes o') pv (L ++ [x]) v /\ first o' = first o /\ last o' = last o /\
    forall y, y ∉ L ++ [x] -> lnodes o' !! y = lnodes o !! y.
Proof.
  intros [HL [Hx _]]%dseg_app (_&Hn&_)%NoDup_app. unfold set_n. rewrite Hx. cbn [mbind option_bind p]. eexists. split; [done|].
  unfold put. cbn [lnodes first last]. rewrite dseg_app. cbn [dseg hd_or]. split_and!; [|by rewrite lookup_insert_eq|done..|].
  - eapply dseg_frame; [|exact HL]. intros y Hy. rewrite lookup_insert_ne; [done|]. intros <-. eapply Hn; [done|]. by left.
  - intros y Hy. rewrite lookup_insert_ne; [done|]. intros <-. apply Hy, elem_of_app. right. by left.
Qed.

(** The nodes [M] of another list are spliced in between [A] and [B]. *)
Lemma InsertListAfter_ok o A M B : Rep o (A ++ B) -> dseg (lnodes o) None M None -> NoDup M -> (forall x, x ∈ M -> x ∉ A ++ B) ->
  exists o', LinkedList1_InsertListAfter o (hd_or M None) (last_or M None) (last_or A None) = Some o' /\ Rep o' (A ++ M ++ B).
Proof.
  intros HR HM HnM HMd. destruct M as [|m M0] eqn:EM; [by exists o|]. rewrite <- EM in *.
  assert (HdM : forall y, y ∈ M -> y ∉ A /\ y ∉ B) by (intros; by apply not_elem_of_app, HMd).
  pose proof (dll_split _ _ _ HR) as (HA&HB&Hf&Hl&HnA&HnB&Hdis).
  assert (Hnext : (match last_or A None with Some t => n <$> lnodes o !! t | None => Some (first o) end) = Some (hd_or B None)).
  { destruct A as [|t A _] using rev_ind; [by rewrite Hf|]. rewrite last_or_some. rewrite <- app_assoc in HR.
    by rewrite (rep_node _ _ _ _ HR). }
  unfold LinkedList1_InsertListAfter. assert (Eh : hd_or M None = Some m) by (by rewrite EM). rewrite Eh, Hnext. cbn [mbind option_bind].
  rewrite EM in HM, HnM. destruct (set_p_ok o m M0 None None (last_or A None) HM HnM) as (o1&->&HM1&Hf1&Hl1&Hfr1). cbn [mbind option_bind].
  rewrite <- EM in HM, HnM, HM1, Hfr1. destruct (exists_last (l := M)) as (M1&l&EL); [by rewrite EM|].
  assert (Elast : last_or M None = Some l) by (by rewrite EL, last_or_some). rewrite Elast. cbn [mbind option_bind].
  rewrite EL in HM1, HnM. destruct (set_n_ok o1 l M1 _ None (hd_or B None) HM1 HnM) as (o2&->&HM2&Hf2&Hl2&Hfr2). cbn [mbind option_bind].
  rewrite <- EL in HM1, HnM, HM2, Hfr2.
  assert (Hfr : forall y, y ∉ M -> lnodes o2 !! y = lnodes o !! y) by (intros; by rewrite Hfr2, Hfr1).
  destruct (link_n_ok o2 A (hd_or B None) (Some m)) as (o3&->&HA3&Hf3&Hl3&Hfr3);
    [eapply dseg_frame; [|exact HA]; intros y Hy; apply Hfr; intros HyM; by destruct (HdM y HyM)|done|congruence|]. cbn [mbind option_bind].
  destruct (link_p_ok o3 B (last_or A None) (Some l)) as (o4&->&HB4&Hl4&Hf4&Hfr4);
    [eapply dseg_frame; [|exact HB]; intros y Hy; rewrite Hfr3, Hfr by (intros ?; naive_solver); done|done|congruence|].
  exists o4. split; [done|]. split_and!.
  - rewrite Hf4, Hf3, hd_or_app, EM. done.
  - rewrite Hl4, !last_or_app. rewrite EL at 1. by rewrite last_or_some.
  - apply dseg_app. rewrite hd_or_app. replace (hd_or M (hd_or B None)) with (Some m) by (by rewrite EM). split.
    + eapply dseg_frame; [|exact HA3]. intros y Hy. apply Hfr4. by apply Hdis.
    + apply dseg_app. assert (El : last_or M (last_or A None) = Some l) by (by rewrite EL, last_or_some). rewrite El. split; [|done]. eapply dseg_frame; [|exact HM2]. intros y Hy.
      destruct (HdM y Hy). by rewrite Hfr4, Hfr3.
  - rewrite !NoDup_app. split_and!; try done; [|intros y Hy; by apply HdM]. intros y Hy [HyM|HyB]%elem_of_app; [by destruct (HdM y HyM)|by apply (Hdis y)].
Qed.

(** ** The list is a list *)

Inductive op :=
  | Prepend (x : positive) | Append (x : positive) | InsertBefore (x t : positive) | InsertAfter (x t : positive) | Remove (x : positive)
  | IsEmpty | GetFirst | GetLast | Next (x : positive) | Prev (x : positive).

Definition code_step (o : LinkedList1) (c : op) : option (LinkedList1 * option positive) :=
  match c with
  | Prepend x => o ← LinkedList1_Prepend o x; Some (o, None)
  | Append x => o ← LinkedList1_Append o x; Some (o, None)
  | InsertBefore x t => o ← LinkedList1_InsertBefore o x t; Some (o, None)
  | InsertAfter x t => o ← LinkedList1_InsertAfter o x t; Some (o, None)
  | Remove x => o ← LinkedList1_Remove o x; Some (o, None)
  | IsEmpty => Some (o, if LinkedList1_IsEmpty o then Some 1%positive else None)
  | GetFirst => Some (o, LinkedList1_GetFirst o)
  | GetLast => Some (o, LinkedList1_GetLast o)
  | Next x => r ← LinkedList1Node_Next o x; Some (o, r)
  | Prev x => r ← LinkedList1Node_Prev o x; Some (o, r)
  end.

(** The documented preconditions and effects. *)
Inductive spec_step : list positive -> op -> list positive -> option positive -> Prop :=
  | spec_prepend L x : x ∉ L -> spec_step L (Prepend x) (x :: L) None
  | spec_append L x : x ∉ L -> spec_step L (Append x) (L ++ [x]) None
  | spec_before A t B x : x ∉ A ++ t :: B -> spec_step (A ++ t :: B) (InsertBefore x t) (A ++ x :: t :: B) None
  | spec_after A t B x : x ∉ A ++ t :: B -> spec_step (A ++ t :: B) (InsertAfter x t) (A ++ t :: x :: B) None
  | spec_remove A x B : spec_step (A ++ x :: B) (Remove x) (A ++ B) None
  | spec_empty L : spec_step L IsEmpty L (if bool_decide (L = []) then Some 1%positive else None)
  | spec_first L : spec_step L GetFirst L (hd_error L)
  | spec_last L : spec_step L GetLast L (list_last L)
  | spec_next A x B : spec_step (A ++ x :: B) (Next x) (A ++ x :: B) (hd_error B)
  | spec_prev A x B : spec_step (A ++ x :: B) (Prev x) (A ++ x :: B) (list_last A).

Lemma hd_or_error L : hd_or L None = hd_error L.
Proof. by destruct L. Qed.

Lemma last_or_last L : last_or L None = list_last L.
Proof. destruct L as [|x L _] using rev_ind; [done|]. by rewrite last_or_some, last_snoc. Qed.

Lemma list_step_ok o L c L' r : Rep o L -> spec_step L c L' r -> exists o', code_step o c = Some (o', r) /\ Rep o' L'.
Proof.
  intros HR Hs. destruct Hs as [L x Hx|L x Hx|A t B x Hx|A t B x Hx|A x B|L|L|L|A x B|A x B]; cbn [code_step].
  - destruct (Prepend_ok o L x HR Hx) as (o'&->&?). by exists o'.
  - destruct (Append_ok o L x HR Hx) as (o'&->&?). by exists o'.
  - destruct (InsertBefore_ok o A t B x HR Hx) as (o'&->&?). by exists o'.
  - destruct (InsertAfter_ok o A t B x HR Hx) as (o'&->&?). by exists o'.
  - destruct (Remove_ok o A x B HR) as (o'&->&?). by exists o'.
  - exists o. split; [|done]. destruct HR as (Hf&_). unfold LinkedList1_IsEmpty. rewrite Hf. by destruct L.
  - exists o. split; [|done]. destruct HR as (Hf&_). unfold LinkedList1_GetFirst. by rewrite Hf, hd_or_error.
  - exists o. split; [|done]. destruct HR as (_&Hl&_). unfold LinkedList1_GetLast. by rewrite Hl, last_or_last.
  - exists o. split; [|done]. unfold LinkedList1Node_Next. by rewrite (rep_node _ _ _ _ HR), <- hd_or_error.
  - exists o. split; [|done]. unfold LinkedList1Node_Prev. by rewrite (rep_node _ _ _ _ HR), <- last_or_last.
Qed.
