(* ===== verification/BSocksClient.v ===== *)
(** * The SOCKS5 client

    [socksclient/BSocksClient.c] with the message layouts of
    [misc/socks_proto.h]: connect to the proxy, offer the authentication methods,
    authenticate, request a connection to the destination, read the reply and
    hand the connection over. Handlers are functions from the state to the new
    state and the calls made; [realloc] stands for [BRealloc] and is a parameter. *)

From Stdlib Require Import ZArith Lia.
From S2P Require Import Prelude ByteOrder.

Definition SOCKS_VERSION : Z := 0x05.
Definition SOCKS_METHOD_NO_AUTHENTICATION_REQUIRED : Z := 0x00.
Definition SOCKS_METHOD_USERNAME_PASSWORD : Z := 0x02.
Definition SOCKS_CMD_CONNECT : Z := 0x01.
Definition SOCKS_ATYP_IPV4 : Z := 0x01.
Definition SOCKS_ATYP_IPV6 : Z := 0x04.
Definition SOCKS_REP_SUCCEEDED : Z := 0x00.

(** [struct BSocksClient_auth_info]: the type with the data of its kind. *)
Inductive auth_info :=
| Auth_None
| Auth_Password (username password : list byte).

Definition auth_type (a : auth_info) : Z :=
  match a with
  | Auth_None => SOCKS_METHOD_NO_AUTHENTICATION_REQUIRED
  | Auth_Password _ _ => SOCKS_METHOD_USERNAME_PASSWORD
  end.

Definition BSocksClient_auth_none : auth_info := Auth_None.
Definition BSocksClient_auth_password (u p : list byte) : auth_info := Auth_Password u p.

(** Destination; addresses and ports as the bytes they have in memory. *)
Inductive dest := Dest_IPv4 (ip port : Z) | Dest_IPv6 (ip : list byte) (port : Z).

Inductive socks_state :=
| STATE_CONNECTING | STATE_SENDING_HELLO | STATE_SENT_HELLO | STATE_SENDING_PASSWORD
| STATE_SENT_PASSWORD | STATE_SENDING_REQUEST | STATE_SENT_REQUEST
| STATE_RECEIVED_REPLY_HEADER | STATE_UP.

Inductive socks_event :=
| BSOCKSCLIENT_EVENT_ERROR | BSOCKSCLIENT_EVENT_UP | BSOCKSCLIENT_EVENT_ERROR_CLOSED.

(** Which sub-objects are initialised. *)
Record resources := Res { connector : bool; con : bool; control_io : bool; up_io : bool }.

Record BSocksClient := SC {
  auths : list auth_info; dest_addr : dest;
  state : socks_state; buffer : option (list byte);
  recv_dest : Z; recv_len : Z; recv_total : Z; res : resources
}.

Definition set_state (s : socks_state) (o : BSocksClient) :=
  SC (auths o) (dest_addr o) s (buffer o) (recv_dest o) (recv_len o) (recv_total o) (res o).
Definition set_buffer (b : option (list byte)) (o : BSocksClient) :=
  SC (auths o) (dest_addr o) (state o) b (recv_dest o) (recv_len o) (recv_total o) (res o).
Definition set_recv (d l t : Z) (o : BSocksClient) :=
  SC (auths o) (dest_addr o) (state o) (buffer o) d l t (res o).
Definition set_res (r : resources) (o : BSocksClient) :=
  SC (auths o) (dest_addr o) (state o) (buffer o) (recv_dest o) (recv_len o) (recv_total o) r.

Inductive action :=
| Send (msg : list byte)       (** [PacketPassInterface_Sender_Send] of the buffer's bytes *)
| Recv (off len : Z)           (** [StreamRecvInterface_Receiver_Recv] into the buffer *)
| Handler (e : socks_event).

Definition buf_bytes (o : BSocksClient) : list byte := match buffer o with Some b => b | None => [] end.

Section client.
(** [BRealloc (buffer, size)]. *)
Context (realloc : option (list byte) -> Z -> option (list byte)).

Definition report_error (o : BSocksClient) (e : socks_event) : BSocksClient * list action :=
  (o, [Handler e]).

Definition init_control_io (o : BSocksClient) : BSocksClient :=
  set_res (Res (connector (res o)) (con (res o)) true (up_io (res o))) o.
Definition free_control_io (o : BSocksClient) : BSocksClient :=
  set_res (Res (connector (res o)) (con (res o)) false (up_io (res o))) o.
Definition init_up_io (o : BSocksClient) : BSocksClient :=
  set_res (Res (connector (res o)) (con (res o)) (control_io (res o)) true) o.
Definition free_up_io (o : BSocksClient) : BSocksClient :=
  set_res (Res (connector (res o)) (con (res o)) (control_io (res o)) false) o.
Definition init_con (o : BSocksClient) : BSocksClient :=
  set_res (Res (connector (res o)) true (control_io (res o)) (up_io (res o))) o.
Definition free_con (o : BSocksClient) : BSocksClient :=
  set_res (Res (connector (res o)) false (control_io (res o)) (up_io (res o))) o.

(** The sizes asked for are small constants or sums checked against 255, so
    [bsize_t] does not overflow. *)
Definition reserve_buffer (o : BSocksClient) (size : Z) : option BSocksClient :=
  match realloc (buffer o) size with
  | None => None
  | Some b => Some (set_buffer (Some b) o)
  end.

Definition do_receive (o : BSocksClient) : BSocksClient * list action :=
  (o, [Recv (recv_dest o + recv_len o) (recv_total o - recv_len o)]).

Definition start_receive (o : BSocksClient) (d total : Z) : BSocksClient * list action :=
  do_receive (set_recv d 0 total o).

Definition write_buf (off : Z) (d : list byte) (o : BSocksClient) : BSocksClient :=
  set_buffer (Some (splice off d (buf_bytes o))) o.

(** [for (i = 0; i < num_auth_info; i++) memcpy(o->buffer + 2 + i, &method, 1)]. *)
Fixpoint write_methods (i : Z) (l : list auth_info) (o : BSocksClient) : BSocksClient :=
  match l with
  | [] => o
  | a :: l' => write_methods (i + 1) l' (write_buf (2 + i) [z2b (hton8 (auth_type a))] o)
  end.

(** [con_ok] is the result of [BConnection_Init]. *)
Definition connector_handler (o : BSocksClient) (is_error con_ok : bool)
    : BSocksClient * list action :=
  if is_error then report_error o BSOCKSCLIENT_EVENT_ERROR else
  if negb con_ok then report_error o BSOCKSCLIENT_EVENT_ERROR else
  let o := init_con o in
  let o := init_control_io o in
  let num := zlen (auths o) in
  let fail1 o := report_error (free_con (free_control_io o)) BSOCKSCLIENT_EVENT_ERROR in
  if (num =? 0) || (255 <? num) then fail1 o else
  let size := 2 + num * 1 in
  match reserve_buffer o size with
  | None => fail1 o
  | Some o =>
      let o := write_buf 0 [z2b (hton8 SOCKS_VERSION); z2b (hton8 num)] o in
      let o := write_methods 0 (auths o) o in
      (set_state STATE_SENDING_HELLO o, [Send (slice 0 size (buf_bytes o))])
  end.

(** The events of the established connection. *)
Inductive con_event := BCONNECTION_EVENT_ERROR | BCONNECTION_EVENT_RECVCLOSED.

Definition connection_handler (o : BSocksClient) (e : con_event) : BSocksClient * list action :=
  match state o, e with
  | STATE_UP, BCONNECTION_EVENT_RECVCLOSED => report_error o BSOCKSCLIENT_EVENT_ERROR_CLOSED
  | _, _ => report_error o BSOCKSCLIENT_EVENT_ERROR
  end.

Definition sizeof_socks_addr (d : dest) : Z :=
  match d with Dest_IPv4 _ _ => 6 | Dest_IPv6 _ _ => 18 end.

Definition socks_addr_bytes (d : dest) : list byte :=
  match d with
  | Dest_IPv4 ip port => store_le32 ip ++ store_le16 port
  | Dest_IPv6 ip port => ip ++ store_le16 port
  end.

Definition atyp_of (d : dest) : Z :=
  match d with Dest_IPv4 _ _ => SOCKS_ATYP_IPV4 | Dest_IPv6 _ _ => SOCKS_ATYP_IPV6 end.

Definition auth_finished (o : BSocksClient) : BSocksClient * list action :=
  let size := 4 + sizeof_socks_addr (dest_addr o) in
  match reserve_buffer o size with
  | None => report_error o BSOCKSCLIENT_EVENT_ERROR
  | Some o =>
      let o := write_buf 4 (socks_addr_bytes (dest_addr o)) o in
      let o := write_buf 0 [z2b (hton8 SOCKS_VERSION); z2b (hton8 SOCKS_CMD_CONNECT);
                            z2b (hton8 0); z2b (hton8 (atyp_of (dest_addr o)))] o in
      (set_state STATE_SENDING_REQUEST o, [Send (slice 0 size (buf_bytes o))])
  end.

Fixpoint find_auth (t : Z) (l : list auth_info) : option auth_info :=
  match l with
  | [] => None
  | a :: l' => if auth_type a =? t then Some a else find_auth t l'
  end.

Definition byte_at (i : Z) (o : BSocksClient) : Z := b2z (buf_bytes o !!! Z.to_nat i).

Definition recv_hello (o : BSocksClient) : BSocksClient * list action :=
  let fail := report_error o BSOCKSCLIENT_EVENT_ERROR in
  if negb (ntoh8 (byte_at 0 o) =? SOCKS_VERSION) then fail else
  match find_auth (ntoh8 (byte_at 1 o)) (auths o) with
  | None => fail
  | Some Auth_None => auth_finished o
  | Some (Auth_Password u p) =>
      if (zlen u =? 0) || (255 <? zlen u) || (zlen p =? 0) || (255 <? zlen p) then fail else
      let size := 1 + 1 + zlen u + 1 + zlen p in
      match reserve_buffer o size with
      | None => fail
      | Some o =>
          let o := write_buf 0 [z2b 1] o in
          let o := write_buf 1 [z2b (zlen u)] o in
          let o := write_buf 2 u o in
          let o := write_buf (2 + zlen u) [z2b (zlen p)] o in
          let o := write_buf (3 + zlen u) p o in
          (set_state STATE_SENDING_PASSWORD o, [Send (slice 0 size (buf_bytes o))])
      end
  end.

Definition recv_reply_header (o : BSocksClient) : BSocksClient * list action :=
  let fail := report_error o BSOCKSCLIENT_EVENT_ERROR in
  if negb (ntoh8 (byte_at 0 o) =? SOCKS_VERSION) then fail else
  if negb (ntoh8 (byte_at 1 o) =? SOCKS_REP_SUCCEEDED) then fail else
  let go addr_len :=
    let '(o, l) := start_receive o 4 addr_len in (set_state STATE_RECEIVED_REPLY_HEADER o, l) in
  if ntoh8 (byte_at 3 o) =? SOCKS_ATYP_IPV4 then go 6 else
  if ntoh8 (byte_at 3 o) =? SOCKS_ATYP_IPV6 then go 18 else fail.

(** [char] is signed on the targets; both tests compare with small constants. *)
Definition recv_password_reply (o : BSocksClient) : BSocksClient * list action :=
  if negb (byte_at 0 o =? 1) then report_error o BSOCKSCLIENT_EVENT_ERROR else
  if negb (byte_at 1 o =? 0) then report_error o BSOCKSCLIENT_EVENT_ERROR else
  auth_finished o.

Definition recv_reply_rest (o : BSocksClient) : BSocksClient * list action :=
  let o := set_buffer None o in
  let o := free_control_io o in
  let o := init_up_io o in
  (set_state STATE_UP o, [Handler BSOCKSCLIENT_EVENT_UP]).

Definition recv_handler_done (o : BSocksClient) (data_len : Z) : BSocksClient * list action :=
  let o := set_recv (recv_dest o) (recv_len o + data_len) (recv_total o) o in
  if recv_len o <? recv_total o then do_receive o else
  match state o with
  | STATE_SENT_HELLO => recv_hello o
  | STATE_SENT_REQUEST => recv_reply_header o
  | STATE_SENT_PASSWORD => recv_password_reply o
  | STATE_RECEIVED_REPLY_HEADER => recv_reply_rest o
  | _ => (o, [])
  end.

Definition send_handler_done (o : BSocksClient) : BSocksClient * list action :=
  let go size total st :=
    match reserve_buffer o size with
    | None => report_error o BSOCKSCLIENT_EVENT_ERROR
    | Some o => let '(o, l) := start_receive o 0 total in (set_state st o, l)
    end in
  match state o with
  | STATE_SENDING_HELLO => go 2 2 STATE_SENT_HELLO
  | STATE_SENDING_REQUEST => go (4 + Z.max 6 18) 4 STATE_SENT_REQUEST
  | STATE_SENDING_PASSWORD => go 2 2 STATE_SENT_PASSWORD
  | _ => (o, [])
  end.

(** [connector_ok] is the result of [BConnector_Init]. *)
Definition BSocksClient_Init (a : list auth_info) (d : dest) (connector_ok : bool)
    : option BSocksClient :=
  if connector_ok
  then Some (SC a d STATE_CONNECTING None 0 0 0 (Res true false false false)) else None.

(** The sub-objects released, in order. *)
Inductive release := R_up_io | R_control_io | R_con | R_connector | R_buffer.

Definition BSocksClient_Free (o : BSocksClient) : list release :=
  (match state o with
   | STATE_CONNECTING => []
   | STATE_UP => [R_up_io; R_con]
   | _ => [R_control_io; R_con]
   end) ++ [R_connector] ++ match buffer o with Some _ => [R_buffer] | None => [] end.

(** ** The messages *)

Definition hello_msg (a : list auth_info) : list byte :=
  [x05; z2b (zlen a)] ++ map (fun x => z2b (auth_type x)) a.

Definition auth_msgs (a : auth_info) : list (list byte) :=
  match a with
  | Auth_None => []
  | Auth_Password u p => [[x01; z2b (zlen u)] ++ u ++ [z2b (zlen p)] ++ p]
  end.

Definition request_msg (d : dest) : list byte :=
  [x05; x01; x00; z2b (atyp_of d)] ++ socks_addr_bytes d.

(** The server's part of a successful dialogue: the method it chose, its verdict
    on the password, and the reply with the bound address. *)
Definition auth_reply (a : auth_info) : list byte :=
  match a with Auth_None => [] | Auth_Password _ _ => [x01; x00] end.

Definition greeting (a : auth_info) : list byte := [x05; z2b (auth_type a)] ++ auth_reply a.

Definition addr_len (atyp : byte) : option Z :=
  if b2z atyp =? SOCKS_ATYP_IPV4 then Some 6
  else if b2z atyp =? SOCKS_ATYP_IPV6 then Some 18 else None.

Definition good_dialogue (auths : list auth_info) (a : auth_info) (r : list byte) : Prop :=
  find_auth (auth_type a) auths = Some a /\
  exists rsv atyp addr n, addr_len atyp = Some n /\ zlen addr = n /\
    r = greeting a ++ [x05; x00; rsv; atyp] ++ addr.

(** ** The client between a server and its owner *)

Record sys := Sys {
  cl : BSocksClient;
  sending : bool; recving : option (Z * Z);
  sent : list (list byte);      (** history: messages sent *)
  rcvd : list byte;             (** history: bytes of the server consumed *)
  events : list socks_event     (** history: events reported to the owner *)
}.

Definition failed (s : sys) : bool :=
  existsb (fun e => match e with BSOCKSCLIENT_EVENT_UP => false | _ => true end) (events s).

(** Contracts: one send and one receive at a time, a receive inside the buffer. *)
Definition do_action (a : action) (s : sys) : option sys :=
  match a with
  | Send m => if sending s then None
              else Some (Sys (cl s) true (recving s) (sent s ++ [m]) (rcvd s) (events s))
  | Recv o n =>
      match recving s with
      | Some _ => None
      | None => if (0 <=? o) && (0 <? n) && (o + n <=? zlen (buf_bytes (cl s)))
                then Some (Sys (cl s) (sending s) (Some (o, n)) (sent s) (rcvd s) (events s)) else None
      end
  | Handler e => Some (Sys (cl s) (sending s) (recving s) (sent s) (rcvd s) (events s ++ [e]))
  end.

Fixpoint do_actions (l : list action) (s : sys) : option sys :=
  match l with
  | [] => Some s
  | a :: l' => match do_action a s with Some s' => do_actions l' s' | None => None end
  end.

Inductive event :=
| EConnector (is_error con_ok : bool) | ESent | EData (d : list byte) | EConnection (e : con_event).

(** An event that can happen; the owner frees the client on an error. [None]: the
    event cannot happen, or a contract is broken. *)
Definition sys_step (s : sys) (e : event) : option sys :=
  if failed s then None else
  match e with
  | EConnector ie ok =>
      match state (cl s) with
      | STATE_CONNECTING =>
          let '(o, l) := connector_handler (cl s) ie ok in
          do_actions l (Sys o (sending s) (recving s) (sent s) (rcvd s) (events s))
      | _ => None
      end
  | ESent =>
      if sending s then
        let '(o, l) := send_handler_done (cl s) in
        do_actions l (Sys o false (recving s) (sent s) (rcvd s) (events s))
      else None
  | EData d =>
      match recving s with
      | Some (off, n) =>
          if (0 <? zlen d) && (zlen d <=? n) then
            let o := set_buffer (Some (splice off d (buf_bytes (cl s)))) (cl s) in
            let '(o, l) := recv_handler_done o (zlen d) in
            do_actions l (Sys o (sending s) None (sent s) (rcvd s ++ d) (events s))
          else None
      | None => None
      end
  | EConnection ev =>
      match state (cl s) with
      | STATE_CONNECTING => None
      | _ => let '(o, l) := connection_handler (cl s) ev in
             do_actions l (Sys o (sending s) (recving s) (sent s) (rcvd s) (events s))
      end
  end.

Definition enabled (s : sys) (e : event) : Prop :=
  failed s = false /\
  match e with
  | EConnector _ _ => state (cl s) = STATE_CONNECTING
  | ESent => sending s = true
  | EData d => exists off n, recving s = Some (off, n) /\ 0 < zlen d <= n
  | EConnection _ => state (cl s) <> STATE_CONNECTING
  end.

Fixpoint run (s : sys) (es : list event) : option sys :=
  match es with
  | [] => Some s
  | e :: es' => match sys_step s e with Some s' => run s' es' | None => None end
  end.

(** ** Invariant *)

Definition res_ok (o : BSocksClient) : Prop :=
  res o = match state o with
          | STATE_CONNECTING => Res true false false false
          | STATE_UP => Res true true false true
          | _ => Res true true true false
          end.

(** Receiving [total] bytes at [d] of a buffer of [size], after the bytes [r]. *)
Definition receiving (s : sys) (size d total : Z) (r : list byte) : Prop :=
  sending s = false /\ recving s = Some (d + recv_len (cl s), total - recv_len (cl s)) /\
  recv_dest (cl s) = d /\ recv_total (cl s) = total /\ 0 <= recv_len (cl s) < total /\
  (exists b, buffer (cl s) = Some b /\ zlen b = size /\ 0 <= d /\ d + total <= size) /\
  rcvd s = r ++ slice d (recv_len (cl s)) (buf_bytes (cl s)).

Definition sending_now (s : sys) (r : list byte) : Prop :=
  sending s = true /\ recving s = None /\ rcvd s = r /\ is_Some (buffer (cl s)).

Definition authed (s : sys) (a : auth_info) (more : list (list byte)) : Prop :=
  find_auth (auth_type a) (auths (cl s)) = Some a /\
  sent s = hello_msg (auths (cl s)) :: auth_msgs a ++ more.

Definition phase (s : sys) : Prop :=
  match state (cl s) with
  | STATE_CONNECTING =>
      sending s = false /\ recving s = None /\ sent s = [] /\ rcvd s = [] /\ buffer (cl s) = None
  | STATE_SENDING_HELLO => sending_now s [] /\ sent s = [hello_msg (auths (cl s))]
  | STATE_SENT_HELLO => receiving s 2 0 2 [] /\ sent s = [hello_msg (auths (cl s))]
  | STATE_SENDING_PASSWORD => exists u p,
      authed s (Auth_Password u p) [] /\ sending_now s [x05; x02]
  | STATE_SENT_PASSWORD => exists u p,
      authed s (Auth_Password u p) [] /\ receiving s 2 0 2 [x05; x02]
  | STATE_SENDING_REQUEST => exists a,
      authed s a [request_msg (dest_addr (cl s))] /\ sending_now s (greeting a)
  | STATE_SENT_REQUEST => exists a,
      authed s a [request_msg (dest_addr (cl s))] /\ receiving s 22 0 4 (greeting a)
  | STATE_RECEIVED_REPLY_HEADER => exists a rsv atyp n,
      authed s a [request_msg (dest_addr (cl s))] /\ addr_len atyp = Some n /\
      receiving s 22 4 n (greeting a ++ [x05; x00; rsv; atyp])
  | STATE_UP => exists a,
      authed s a [request_msg (dest_addr (cl s))] /\ good_dialogue (auths (cl s)) a (rcvd s) /\
      sending s = false /\ recving s = None /\ buffer (cl s) = None
  end.

Record Inv (s : sys) : Prop := {
  i_res : res_ok (cl s);
  i_phase : failed s = false -> phase s;
  i_up : failed s = false -> events s = if match state (cl s) with STATE_UP => true | _ => false end
                                        then [BSOCKSCLIENT_EVENT_UP] else [];
  i_ports : match dest_addr (cl s) with Dest_IPv6 ip _ => zlen ip = 16 | _ => True end
}.

Lemma zlen_socks_addr d :
  match d with Dest_IPv6 ip _ => zlen ip = 16 | _ => True end ->
  zlen (socks_addr_bytes d) = sizeof_socks_addr d.
Proof. destruct d; cbn [socks_addr_bytes sizeof_socks_addr]; [done|]. intros H. rewrite zlen_app, H. done. Qed.

(** ** Writing the messages *)

Lemma write_methods_spec i l o b :
  0 <= i -> buffer o = Some b -> 2 + i + zlen l <= zlen b ->
  write_methods i l o = set_buffer (Some (splice (2 + i) (map (fun x => z2b (auth_type x)) l) b)) o.
Proof.
  revert i o b. induction l as [|a l IH]; intros i o b Hi Hb Hl; cbn [write_methods map].
  - destruct o. cbn in *. subst. unfold set_buffer. cbn. do 2 f_equal.
    unfold splice. cbn [app length]. rewrite Nat.add_0_r, take_drop. done.
  - rewrite zlen_cons in Hl. pose proof (zlen_nonneg l).
    erewrite IH; [|lia|reflexivity|].
    + unfold write_buf, set_buffer, buf_bytes. rewrite Hb. cbn. do 2 f_equal.
      replace (2 + (i + 1)) with (2 + i + zlen [z2b (auth_type a)]) by (unfold zlen; simpl; lia).
      rewrite splice_splice_after; [done|lia|]. unfold zlen in *. rewrite length_map. simpl. lia.
    + unfold buf_bytes. rewrite Hb. rewrite zlen_splice; unfold zlen in *; simpl; lia.
Qed.

Lemma slice_splice_front d m n : n = zlen d -> n <= zlen m -> slice 0 n (splice 0 d m) = d.
Proof. intros -> Hl. apply slice_splice_same; lia. Qed.

Context (realloc_size : forall b n b', realloc b n = Some b' -> zlen b' = n).

Lemma reserve_spec o n o' :
  reserve_buffer o n = Some o' -> exists b, o' = set_buffer (Some b) o /\ zlen b = n.
Proof.
  unfold reserve_buffer. destruct (realloc (buffer o) n) as [b|] eqn:E; [|done].
  intros [= <-]. exists b. split; [done|]. eapply realloc_size. exact E.
Qed.

(** The request is written byte for byte, whatever the buffer held. *)
Lemma auth_finished_spec o :
  match dest_addr o with Dest_IPv6 ip _ => zlen ip = 16 | _ => True end ->
  auth_finished o = (o, [Handler BSOCKSCLIENT_EVENT_ERROR]) \/
  exists b, auth_finished o = (set_state STATE_SENDING_REQUEST (set_buffer (Some b) o),
                               [Send (request_msg (dest_addr o))]).
Proof.
  intros Hd. unfold auth_finished. destruct (reserve_buffer o _) as [o'|] eqn:E; [|left; done]. right.
  apply reserve_spec in E as (b & -> & Hb). cbn [dest_addr set_buffer].
  pose proof (zlen_socks_addr _ Hd) as Hz.
  assert (0 < sizeof_socks_addr (dest_addr o)) as Hpos by (destruct (dest_addr o); cbn; lia).
  unfold write_buf, buf_bytes. cbn [buffer set_buffer dest_addr].
  set (h := [_; _; _; _]). assert (zlen h = 4) as Hh by done.
  pose proof (splice_splice_join 0 h (socks_addr_bytes (dest_addr o)) b ltac:(lia) ltac:(lia)) as Hj.
  rewrite Hh in Hj. change (0 + 4) with 4 in Hj. rewrite Hj.
  eexists. f_equal. unfold buf_bytes. cbn [buffer set_buffer].
  rewrite slice_splice_front; [|rewrite zlen_app; lia|lia]. done.
Qed.

Lemma hello_spec o b num :
  buffer o = Some b -> num = zlen (auths o) -> zlen b = 2 + num * 1 ->
  exists b', write_methods 0 (auths o) (write_buf 0 [z2b (hton8 SOCKS_VERSION); z2b (hton8 num)] o)
     = set_buffer (Some b') o /\ slice 0 (2 + num * 1) b' = hello_msg (auths o).
Proof.
  intros Hb -> Hl. pose proof (zlen_nonneg (auths o)).
  erewrite write_methods_spec; [|lia|reflexivity|].
  2: { unfold buf_bytes. rewrite Hb. rewrite zlen_splice; [lia|lia|]. change (zlen [_; _]) with 2. lia. }
  unfold buf_bytes. rewrite Hb. eexists. split; [reflexivity|].
  set (h := [_; _]). assert (zlen h = 2) as Hh by done.
  assert (zlen (map (fun x => z2b (auth_type x)) (auths o)) = zlen (auths o)) as Hm
    by (unfold zlen; rewrite length_map; done).
  pose proof (splice_splice_after 0 h (map (fun x => z2b (auth_type x)) (auths o)) b ltac:(lia) ltac:(lia)) as Hj.
  rewrite Hh in Hj. change (0 + 2) with (2 + 0) in Hj. rewrite Hj.
  rewrite slice_splice_front; [reflexivity|rewrite zlen_app; lia|lia].
Qed.

Lemma password_spec u p b :
  zlen b = 1 + 1 + zlen u + 1 + zlen p ->
  let w off d m := splice off d m in
  slice 0 (1 + 1 + zlen u + 1 + zlen p)
    (w (3 + zlen u) p (w (2 + zlen u) [z2b (zlen p)] (w 2 u (w 1 [z2b (zlen u)] (w 0 [z2b 1] b)))))
  = [x01; z2b (zlen u)] ++ u ++ [z2b (zlen p)] ++ p.
Proof.
  intros Hb w. unfold w. pose proof (zlen_nonneg u). pose proof (zlen_nonneg p).
  assert (forall x : byte, zlen [x] = 1) as H1 by done.
  pose proof (splice_splice_after 0 [z2b 1] [z2b (zlen u)] b) as E1.
  rewrite !H1 in E1. change (0 + 1) with 1 in E1. rewrite E1 by lia. cbn [app].
  pose proof (splice_splice_after 0 [z2b 1; z2b (zlen u)] u b) as E2.
  change (zlen [z2b 1; z2b (zlen u)]) with 2 in E2. change (0 + 2) with 2 in E2. rewrite E2 by lia.
  pose proof (splice_splice_after 0 ([z2b 1; z2b (zlen u)] ++ u) [z2b (zlen p)] b) as E3.
  rewrite zlen_app in E3. change (zlen [z2b 1; z2b (zlen u)]) with 2 in E3. rewrite H1 in E3.
  replace (0 + (2 + zlen u)) with (2 + zlen u) in E3 by lia. rewrite E3 by lia.
  pose proof (splice_splice_after 0 (([z2b 1; z2b (zlen u)] ++ u) ++ [z2b (zlen p)]) p b) as E4.
  rewrite !zlen_app in E4. change (zlen [z2b 1; z2b (zlen u)]) with 2 in E4. rewrite H1 in E4.
  replace (0 + (2 + zlen u + 1)) with (3 + zlen u) in E4 by lia. rewrite E4 by lia.
  rewrite slice_splice_front; [|rewrite !zlen_app; change (zlen [z2b 1; z2b (zlen u)]) with 2; rewrite H1; lia|lia].
  rewrite <- !app_assoc. done.
Qed.

(** ** Steps *)

Definition ports_ok (o : BSocksClient) : Prop :=
  match dest_addr o with Dest_IPv6 ip _ => zlen ip = 16 | _ => True end.

Lemma Inv_fail o se rc st rd ev e :
  res_ok o -> ports_ok o -> e <> BSOCKSCLIENT_EVENT_UP -> Inv (Sys o se rc st rd (ev ++ [e])).
Proof.
  intros Hr Hp He. assert (failed (Sys o se rc st rd (ev ++ [e])) = true) as Hf.
  { unfold failed. cbn. rewrite existsb_app. destruct e; [|done|]; cbn; apply orb_true_r. }
  split; [done| | |done]; intros H; congruence.
Qed.

Lemma step_connector s ie ok :
  Inv s -> enabled s (EConnector ie ok) ->
  exists s', sys_step s (EConnector ie ok) = Some s' /\ Inv s'.
Proof.
  intros [Hr Hph Hup Hp] [Hf Hst]. specialize (Hph Hf). unfold phase in Hph. rewrite Hst in Hph.
  destruct Hph as (H1 & H2 & H3 & H4 & H5). pose proof Hr as Hr0. unfold res_ok in Hr. rewrite Hst in Hr.
  specialize (Hup Hf). rewrite Hst in Hup.
  unfold sys_step. rewrite Hf, Hst. unfold connector_handler.
  destruct ie; [eexists; split; [reflexivity|]; apply Inv_fail; done|].
  destruct ok; cbn [negb];
    [|eexists; split; [reflexivity|]; apply Inv_fail; done].
  assert (forall o, state o = STATE_CONNECTING -> res o = Res true true true false ->
    dest_addr o = dest_addr (cl s) -> forall se rc st rd, exists s',
    do_actions (snd (report_error (free_con (free_control_io o)) BSOCKSCLIENT_EVENT_ERROR))
      (Sys (fst (report_error (free_con (free_control_io o)) BSOCKSCLIENT_EVENT_ERROR)) se rc st rd (events s))
    = Some s' /\ Inv s') as Hfail1.
  { intros o Ho Hro Hd se rc st rd. eexists. split; [reflexivity|].
    apply Inv_fail; [unfold res_ok; cbn; rewrite Ho, Hro; done|unfold ports_ok; cbn; rewrite Hd; done|done]. }
  set (o1 := init_control_io (init_con (cl s))).
  assert (res o1 = Res true true true false) as Hr1 by (cbn; rewrite Hr; done).
  change (auths o1) with (auths (cl s)).
  destruct ((zlen (auths (cl s)) =? 0) || (255 <? zlen (auths (cl s)))).
  { apply (Hfail1 o1); done. }
  destruct (reserve_buffer o1 _) as [o2|] eqn:E; [|apply (Hfail1 o1); done].
  apply reserve_spec in E as (b & -> & Hb). set (o2 := set_buffer (Some b) o1).
  destruct (hello_spec o2 b (zlen (auths (cl s))) eq_refl eq_refl Hb) as (b' & Hw & Hs).
  change (auths (write_buf _ _ o2)) with (auths o2). rewrite Hw.
  unfold buf_bytes. cbn [buffer set_buffer]. rewrite Hs. cbn [do_actions do_action sending]. rewrite H1.
  eexists. split; [reflexivity|]. split.
  - exact Hr1.
  - intros _. cbn. rewrite H2, H3, H4. split; [|done]. split_and!; done.
  - intros _. cbn. done.
  - exact Hp.
Qed.

(** Everything but the buffer, the counters and the state is fixed. *)
Lemma start_receive_Inv s o size total st r :
  sending s = false -> recving s = None -> failed s = false -> rcvd s = r ->
  (exists b, buffer o = Some b /\ zlen b = size) -> 0 < total <= size ->
  exists s', do_actions (snd (start_receive o 0 total))
      (Sys (set_state st (fst (start_receive o 0 total))) (sending s) (recving s) (sent s) (rcvd s) (events s))
    = Some s' /\ receiving s' size 0 total r /\ sent s' = sent s /\ rcvd s' = rcvd s /\ events s' = events s /\
    cl s' = set_state st (set_recv 0 0 total o).
Proof.
  intros H1 H2 Hf H3 (b & Hb & Hsz) Ht. unfold start_receive, do_receive. cbn [fst snd do_actions do_action recving].
  rewrite H2. unfold buf_bytes. cbn [cl set_state buffer set_recv recv_dest recv_len recv_total]. rewrite Hb.
  destruct (Z.leb_spec 0 (0 + 0)); [|lia]. destruct (Z.ltb_spec 0 (total - 0)); [|lia].
  destruct (Z.leb_spec (0 + 0 + (total - 0)) (zlen b)); [|lia]. cbn [andb].
  eexists. split; [reflexivity|]. split; [|done]. unfold receiving. cbn. rewrite H1, slice_nil, app_nil_r.
  split_and!; try done; try lia. exists b. split_and!; try done; lia.
Qed.

Lemma step_sent s :
  Inv s -> enabled s ESent -> exists s', sys_step s ESent = Some s' /\ Inv s'.
Proof.
  intros [Hr Hph Hup Hp] [Hf Hse]. specialize (Hph Hf). specialize (Hup Hf).
  unfold sys_step. rewrite Hf, Hse. unfold send_handler_done.
  assert (forall st size total st' r,
    state (cl s) = st -> st <> STATE_CONNECTING -> st <> STATE_UP -> st' <> STATE_CONNECTING -> st' <> STATE_UP ->
    sending_now s r -> 0 < total <= size ->
    (forall s', receiving s' size 0 total r -> sent s' = sent s -> auths (cl s') = auths (cl s) ->
       dest_addr (cl s') = dest_addr (cl s) -> state (cl s') = st' -> phase s') ->
    exists s', (let '(o, l) := match reserve_buffer (cl s) size with
        | None => report_error (cl s) BSOCKSCLIENT_EVENT_ERROR
        | Some o => let '(o, l) := start_receive o 0 total in (set_state st' o, l) end in
      do_actions l (Sys o false (recving s) (sent s) (rcvd s) (events s))) = Some s' /\ Inv s') as Hgen.
  { intros st size total st' r Hst N1 N2 N3 N4 (_ & Hrc & Hrd & _) Ht Hk.
    destruct (reserve_buffer (cl s) size) as [o|] eqn:E.
    2: { eexists. split; [reflexivity|]. apply Inv_fail; done. }
    apply reserve_spec in E as (b & -> & Hb).
    destruct (start_receive_Inv (Sys (cl s) false (recving s) (sent s) (rcvd s) (events s))
      (set_buffer (Some b) (cl s)) size total st' r) as (s' & Hs' & Hrec & Hsent & _ & Hev & Hcl); try done.
    { exists b. done. }
    cbn [sending recving sent rcvd events] in *.
    destruct (start_receive (set_buffer (Some b) (cl s)) 0 total) as [o l]. cbn [fst snd] in Hs'.
    exists s'. split; [exact Hs'|].
    assert (Hf' : failed s' = failed s) by (unfold failed; rewrite Hev; done).
    assert (Hupn : (if match state (cl s) with STATE_UP => true | _ => false end
                    then [BSOCKSCLIENT_EVENT_UP] else []) = []) by (rewrite Hst; destruct st; done).
    rewrite Hupn in Hup.
    split.
    - unfold res_ok in *. rewrite Hcl. cbn [res set_state set_recv set_buffer state]. rewrite Hr, Hst.
      destruct st, st'; done.
    - intros _. apply Hk; [done|done|rewrite Hcl; done..].
    - intros _. rewrite Hev, Hup, Hcl. cbn. destruct st'; done.
    - rewrite Hcl. exact Hp. }
  unfold phase in Hph. destruct (state (cl s)) eqn:Hst;
    try (exfalso; unfold receiving in Hph; naive_solver congruence).
  - destruct Hph as [Hn Hsn]. apply (Hgen _ 2 2 STATE_SENT_HELLO [] eq_refl); try done.
    intros s' Hrec Hsent Ha _ Hs'. unfold phase. rewrite Hs', Hsent, Ha. done.
  - destruct Hph as (u & p & [Ha1 Ha2] & Hn).
    apply (Hgen _ 2 2 STATE_SENT_PASSWORD [x05; x02] eq_refl); try done.
    intros s' Hrec Hsent Ha _ Hs'. unfold phase. rewrite Hs'. exists u, p.
    split; [split; rewrite ?Ha, ?Hsent; done|done].
  - destruct Hph as (a & [Ha1 Ha2] & Hn).
    apply (Hgen _ 22 4 STATE_SENT_REQUEST (greeting a) eq_refl); try done.
    intros s' Hrec Hsent Ha Hd Hs'. unfold phase. rewrite Hs'. exists a.
    split; [split; rewrite ?Ha, ?Hsent, ?Hd; done|done].
Qed.

(** ** Receiving *)

(** The client after [d] arrived, before the message is looked at. *)
Definition after_data (s : sys) (off : Z) (d : list byte) : BSocksClient :=
  let o := set_buffer (Some (splice off d (buf_bytes (cl s)))) (cl s) in
  set_recv (recv_dest o) (recv_len o + zlen d) (recv_total o) o.

Lemma slice_splice_snoc off len d m :
  0 <= off -> 0 <= len -> off + len + zlen d <= zlen m ->
  slice off (len + zlen d) (splice (off + len) d m) = slice off len m ++ d.
Proof.
  intros. pose proof (zlen_nonneg d).
  rewrite slice_app_join, slice_splice_same, slice_splice_before by lia. done.
Qed.

Lemma after_data_bytes s size d0 total r d :
  receiving s size d0 total r -> zlen d <= total - recv_len (cl s) ->
  let o := after_data s (d0 + recv_len (cl s)) d in
  (exists b, buffer o = Some b /\ zlen b = size) /\
  rcvd s ++ d = r ++ slice d0 (recv_len o) (buf_bytes o).
Proof.
  intros (_ & _ & Hd & Ht & Hl & (b & Hb & Hsz & Hd0 & Hsize) & Hr) Hd'.
  cbv zeta. unfold after_data, buf_bytes in *. cbn. rewrite Hb in *. pose proof (zlen_nonneg d).
  split; [eexists; split; [reflexivity|]; rewrite zlen_splice; lia|].
  rewrite Hr, <- app_assoc. f_equal. rewrite slice_splice_snoc; [done|lia..].
Qed.

(** Part of the message: the client asks for the rest. *)
Lemma step_data_partial s size d0 total r d :
  receiving s size d0 total r -> 0 < zlen d < total - recv_len (cl s) ->
  exists s', do_actions (snd (do_receive (after_data s (d0 + recv_len (cl s)) d)))
      (Sys (after_data s (d0 + recv_len (cl s)) d) (sending s) None (sent s) (rcvd s ++ d) (events s)) = Some s' /\
    receiving s' size d0 total r /\ sent s' = sent s /\ events s' = events s /\
    cl s' = after_data s (d0 + recv_len (cl s)) d.
Proof.
  intros Hrec Hd. destruct (after_data_bytes s size d0 total r d Hrec ltac:(lia)) as [(b & Hb & Hsz) Hr].
  destruct Hrec as (Hse & _ & Hd0 & Ht & Hl & (b0 & _ & _ & Hd1 & Hsize) & _).
  set (o := after_data _ _ _) in *.
  assert (recv_len o = recv_len (cl s) + zlen d) as Hlen by done.
  assert (recv_dest o = d0) as Hdest by done. assert (recv_total o = total) as Htot by done.
  unfold do_receive. cbn [snd do_actions do_action recving]. unfold buf_bytes. cbn [cl]. rewrite Hb.
  rewrite Hdest, Htot.
  destruct (Z.leb_spec 0 (d0 + recv_len o)); [|lia]. destruct (Z.ltb_spec 0 (total - recv_len o)); [|lia].
  destruct (Z.leb_spec (d0 + recv_len o + (total - recv_len o)) (zlen b)); [|lia]. cbn [andb].
  eexists. split; [reflexivity|]. split; [|done]. unfold receiving. cbn [cl sending recving rcvd].
  split_and!; try done; try lia. exists b. done.
Qed.

(** The request goes out after the authentication. *)
Lemma step_auth_finished o a st rd :
  res o = Res true true true false -> ports_ok o ->
  state o <> STATE_CONNECTING -> state o <> STATE_UP ->
  find_auth (auth_type a) (auths o) = Some a -> st = hello_msg (auths o) :: auth_msgs a -> rd = greeting a ->
  exists s', (let '(o', l) := auth_finished o in do_actions l (Sys o' false None st rd [])) = Some s' /\ Inv s'.
Proof.
  intros Hres Hp N1 N2 Ha -> ->.
  destruct (auth_finished_spec o Hp) as [->|(b & ->)].
  - eexists. split; [reflexivity|]. apply (Inv_fail o false None _ _ []); [|done|done].
    unfold res_ok. rewrite Hres. destruct (state o); done.
  - eexists. split; [reflexivity|]. split; [exact Hres| |done|exact Hp].
    intros _. exists a. split; [split; [exact Ha|]; cbn; done|]. done.
Qed.

Lemma find_auth_spec t l a : find_auth t l = Some a -> auth_type a = t.
Proof.
  induction l as [|x l IH]; cbn; [done|]. destruct (Z.eqb_spec (auth_type x) t); [|exact IH].
  intros [= <-]. done.
Qed.

Lemma auth_type_byte a b : auth_type a = b2z b -> b = z2b (auth_type a).
Proof. intros ->. symmetry. apply z2b_b2z. Qed.

(** The reaction [h] to a complete message, with nothing pending. *)
Definition reacts (h : BSocksClient * list action) (st : list (list byte)) (rd : list byte) : Prop :=
  exists s', (let '(o', l) := h in do_actions l (Sys o' false None st rd [])) = Some s' /\ Inv s'.

Lemma reacts_fail o st rd :
  res_ok o -> ports_ok o -> reacts (report_error o BSOCKSCLIENT_EVENT_ERROR) st rd.
Proof. intros Hr Hp. eexists. split; [reflexivity|]. apply (Inv_fail o false None st rd []); done. Qed.

Lemma byte_at_spec o b i x : buffer o = Some b -> b !! Z.to_nat i = Some x -> byte_at i o = b2z x.
Proof. intros Hb Hx. unfold byte_at, buf_bytes. rewrite Hb. f_equal. apply list_lookup_total_correct, Hx. Qed.

Lemma hello_done o b0 b1 :
  res_ok o -> ports_ok o -> state o = STATE_SENT_HELLO -> buffer o = Some [b0; b1] ->
  reacts (recv_hello o) [hello_msg (auths o)] [b0; b1].
Proof.
  intros Hr Hp Hst Hb. pose proof (reacts_fail o [hello_msg (auths o)] [b0; b1] Hr Hp) as Hfail.
  unfold recv_hello. rewrite (byte_at_spec o _ 0 b0 Hb), (byte_at_spec o _ 1 b1 Hb) by done.
  cbv zeta. unfold ntoh8, hton8. destruct (Z.eqb_spec (b2z b0) SOCKS_VERSION) as [E|]; [|exact Hfail]. cbn [negb].
  assert (b0 = x05) as -> by (apply b2z_inj; exact E).
  destruct (find_auth (b2z b1) (auths o)) as [a|] eqn:Ea; [|exact Hfail].
  pose proof (find_auth_spec _ _ _ Ea) as Ht. pose proof (auth_type_byte _ _ Ht) as ->.
  assert (res o = Res true true true false) as Hres by (unfold res_ok in Hr; rewrite Hst in Hr; exact Hr).
  destruct a as [|u p].
  { apply (step_auth_finished o Auth_None); try done; try congruence. }
  destruct (_ || _ || _ || _); [exact Hfail|].
  destruct (reserve_buffer o _) as [o2|] eqn:E2; [|exact Hfail].
  apply reserve_spec in E2 as (b & -> & Hsz).
  pose proof (password_spec u p b Hsz) as Hw. cbv zeta in Hw.
  unfold write_buf, buf_bytes. cbn [buffer set_buffer]. rewrite Hw.
  eexists. split; [reflexivity|]. split; [exact Hres| |done|exact Hp].
  intros _. exists u, p. split; [|done]. split; done.
Qed.

Lemma password_done o u p b0 b1 :
  res_ok o -> ports_ok o -> state o = STATE_SENT_PASSWORD -> buffer o = Some [b0; b1] ->
  find_auth (auth_type (Auth_Password u p)) (auths o) = Some (Auth_Password u p) ->
  reacts (recv_password_reply o) (hello_msg (auths o) :: auth_msgs (Auth_Password u p)) ([x05; x02] ++ [b0; b1]).
Proof.
  intros Hr Hp Hst Hb Ha. pose proof (fun st rd => reacts_fail o st rd Hr Hp) as Hfail.
  unfold recv_password_reply. rewrite (byte_at_spec o _ 0 b0 Hb), (byte_at_spec o _ 1 b1 Hb) by done.
  destruct (Z.eqb_spec (b2z b0) 1) as [E|]; [|apply Hfail].
  destruct (Z.eqb_spec (b2z b1) 0) as [E'|]; [|apply Hfail]. cbn [negb].
  assert (b0 = x01) as -> by (apply b2z_inj; exact E). assert (b1 = x00) as -> by (apply b2z_inj; exact E').
  apply (step_auth_finished o (Auth_Password u p)); try done; try congruence.
  unfold res_ok in Hr. rewrite Hst in Hr. exact Hr.
Qed.

Lemma header_done o a b0 b1 b2 b3 rest :
  res_ok o -> ports_ok o -> state o = STATE_SENT_REQUEST ->
  buffer o = Some (b0 :: b1 :: b2 :: b3 :: rest) -> zlen rest = 18 ->
  find_auth (auth_type a) (auths o) = Some a ->
  reacts (recv_reply_header o) (hello_msg (auths o) :: auth_msgs a ++ [request_msg (dest_addr o)])
    (greeting a ++ [b0; b1; b2; b3]).
Proof.
  intros Hr Hp Hst Hb Hsz Ha. pose proof (fun st rd => reacts_fail o st rd Hr Hp) as Hfail.
  unfold recv_reply_header.
  rewrite (byte_at_spec o _ 0 b0 Hb), (byte_at_spec o _ 1 b1 Hb), (byte_at_spec o _ 3 b3 Hb) by done.
  cbv zeta. unfold ntoh8, hton8.
  destruct (Z.eqb_spec (b2z b0) SOCKS_VERSION) as [E|]; [|apply Hfail].
  destruct (Z.eqb_spec (b2z b1) SOCKS_REP_SUCCEEDED) as [E'|]; [|apply Hfail]. cbn [negb].
  assert (b0 = x05) as -> by (apply b2z_inj; exact E). assert (b1 = x00) as -> by (apply b2z_inj; exact E').
  assert (forall n, 0 < n <= 18 -> addr_len b3 = Some n ->
    reacts (set_state STATE_RECEIVED_REPLY_HEADER (set_recv 4 0 n o), [Recv (4 + 0) (n - 0)])
      (hello_msg (auths o) :: auth_msgs a ++ [request_msg (dest_addr o)]) (greeting a ++ [x05; x00; b2; b3])) as Hgo.
  { intros n Hn Haddr. unfold reacts. cbn [do_actions do_action recving cl]. unfold buf_bytes.
    cbn [buffer set_state set_recv]. rewrite Hb. rewrite !zlen_cons, Hsz.
    destruct (Z.ltb_spec 0 (n - 0)); [|lia]. destruct (Z.leb_spec (4 + 0 + (n - 0)) (1 + (1 + (1 + (1 + 18))))); [|lia].
    eexists. split; [reflexivity|]. unfold res_ok in Hr. rewrite Hst in Hr. split; [exact Hr| |done|exact Hp].
    intros _. exists a, b2, b3, n. split; [split; done|]. split; [done|]. unfold receiving.
    cbn. rewrite Hb. rewrite slice_nil, app_nil_r. split_and!; try done; try lia.
    eexists. split; [reflexivity|]. rewrite !zlen_cons, Hsz. split_and!; lia. }
  unfold addr_len in Hgo.
  destruct (Z.eqb_spec (b2z b3) SOCKS_ATYP_IPV4); [apply (Hgo 6); [lia|done]|].
  destruct (Z.eqb_spec (b2z b3) SOCKS_ATYP_IPV6); [apply (Hgo 18); [lia|done]|]. apply Hfail.
Qed.

Lemma rest_done o a rsv atyp addr n :
  res_ok o -> ports_ok o -> state o = STATE_RECEIVED_REPLY_HEADER ->
  find_auth (auth_type a) (auths o) = Some a -> addr_len atyp = Some n -> zlen addr = n ->
  reacts (recv_reply_rest o) (hello_msg (auths o) :: auth_msgs a ++ [request_msg (dest_addr o)])
    ((greeting a ++ [x05; x00; rsv; atyp]) ++ addr).
Proof.
  intros Hr Hp Hst Ha Haddr Hn. unfold res_ok in Hr. rewrite Hst in Hr.
  eexists. split; [reflexivity|]. split; [unfold res_ok; cbn; rewrite Hr; done| |done|exact Hp].
  intros _. exists a. split; [split; done|]. split; [|done]. split; [done|].
  exists rsv, atyp, addr, n. split; [done|]. split; [done|]. cbn [rcvd]. rewrite <- app_assoc. done.
Qed.

(** Same client but for the bytes received so far. *)
Definition same_point (s s' : sys) : Prop :=
  sent s' = sent s /\ events s' = events s /\ auths (cl s') = auths (cl s) /\
  dest_addr (cl s') = dest_addr (cl s) /\ state (cl s') = state (cl s) /\ res (cl s') = res (cl s).

Definition message_handler (o : BSocksClient) : BSocksClient * list action :=
  match state o with
  | STATE_SENT_HELLO => recv_hello o
  | STATE_SENT_REQUEST => recv_reply_header o
  | STATE_SENT_PASSWORD => recv_password_reply o
  | STATE_RECEIVED_REPLY_HEADER => recv_reply_rest o
  | _ => (o, [])
  end.

Lemma step_data_gen s size d0 total r d :
  Inv s -> failed s = false -> receiving s size d0 total r -> state (cl s) <> STATE_UP ->
  0 < zlen d <= total - recv_len (cl s) ->
  (forall s', receiving s' size d0 total r -> same_point s s' -> phase s') ->
  (forall o b, res_ok o -> ports_ok o -> buffer o = Some b -> zlen b = size ->
     auths o = auths (cl s) -> dest_addr o = dest_addr (cl s) -> state o = state (cl s) ->
     reacts (message_handler o) (sent s) (r ++ slice d0 total b)) ->
  exists s', sys_step s (EData d) = Some s' /\ Inv s'.
Proof.
  intros [Hr Hph Hup Hp] Hf Hrec Hnup Hd Hpart Hfull. specialize (Hup Hf).
  assert (events s = []) as Hev by (rewrite Hup; destruct (state (cl s)); done).
  destruct (after_data_bytes s size d0 total r d Hrec ltac:(lia)) as [(b & Hb & Hsz) Hrd].
  pose proof Hrec as (Hse & Hrc & Hdest & Htot & _).
  unfold sys_step. rewrite Hf, Hrc.
  destruct (Z.ltb_spec 0 (zlen d)); [|lia]. destruct (Z.leb_spec (zlen d) (total - recv_len (cl s))); [|lia].
  cbn [andb]. unfold recv_handler_done. fold (after_data s (d0 + recv_len (cl s)) d).
  set (o := after_data s (d0 + recv_len (cl s)) d) in *.
  assert (recv_len o = recv_len (cl s) + zlen d) as Hlen by done. assert (recv_total o = total) as Htot' by done.
  rewrite Htot'. destruct (Z.ltb_spec (recv_len o) total).
  - destruct (step_data_partial s size d0 total r d Hrec ltac:(lia)) as (s' & Hs' & Hrec' & Hsent & Hevs & Hcl).
    exists s'. split; [exact Hs'|]. split.
    + rewrite Hcl. exact Hr.
    + intros _. apply Hpart; [done|]. unfold same_point. rewrite Hcl. done.
    + intros _. rewrite Hevs, Hcl. exact Hup.
    + rewrite Hcl. exact Hp.
  - replace (recv_len o) with total in Hrd by lia. unfold buf_bytes in Hrd. rewrite Hb in Hrd.
    rewrite Hse, Hrd, Hev. fold (message_handler o). apply (Hfull o b); done.
Qed.

Lemma step_data s d :
  Inv s -> enabled s (EData d) -> exists s', sys_step s (EData d) = Some s' /\ Inv s'.
Proof.
  intros HI [Hf (off & n & Hrc & Hd)]. pose proof (i_phase _ HI Hf) as Hph.
  assert (forall size d0 total r, receiving s size d0 total r -> 0 < zlen d <= total - recv_len (cl s)) as Hlen.
  { intros size d0 total r (_ & E & _). rewrite Hrc in E. simplify_eq. lia. }
  unfold phase in Hph. destruct (state (cl s)) eqn:Hst;
    try (exfalso; unfold sending_now in Hph; naive_solver congruence).
  - destruct Hph as [Hrec Hs]. eapply step_data_gen; eauto; [congruence|..].
    + intros s' Hrec' (E1 & _ & E3 & _ & E5 & _). unfold phase. rewrite E5, Hst, E1, E3. done.
    + intros o b Hr Hp Hb Hsz Ha Hde Hso. unfold message_handler. rewrite Hso, Hst, Hs, <- Ha.
      destruct b as [|b0 [|b1 [|]]]; try (unfold zlen in Hsz; cbn in Hsz; lia).
      apply (hello_done o); congruence.
  - destruct Hph as (u & p & [Ha1 Hs] & Hrec). eapply step_data_gen; eauto; [congruence|..].
    + intros s' Hrec' (E1 & _ & E3 & _ & E5 & _). unfold phase, authed. rewrite E5, Hst, E1, E3. eauto.
    + intros o b Hr Hp Hb Hsz Ha Hde Hso. unfold message_handler. rewrite Hso, Hst, Hs, app_nil_r, <- Ha.
      destruct b as [|b0 [|b1 [|]]]; try (unfold zlen in Hsz; cbn in Hsz; lia).
      apply (password_done o); congruence.
  - destruct Hph as (a & [Ha1 Hs] & Hrec). eapply step_data_gen; eauto; [congruence|..].
    + intros s' Hrec' (E1 & _ & E3 & E4 & E5 & _). unfold phase, authed. rewrite E5, Hst, E1, E3, E4. eauto.
    + intros o b Hr Hp Hb Hsz Ha Hde Hso. unfold message_handler. rewrite Hso, Hst, Hs, <- Ha, <- Hde.
      destruct b as [|b0 [|b1 [|b2 [|b3 rest]]]]; try (unfold zlen in Hsz; cbn in Hsz; lia).
      apply (header_done o a b0 b1 b2 b3 rest); try congruence. rewrite !zlen_cons in Hsz. lia.
  - destruct Hph as (a & rsv & atyp & n' & [Ha1 Hs] & Hn & Hrec). eapply step_data_gen; eauto; [congruence|..].
    + intros s' Hrec' (E1 & _ & E3 & E4 & E5 & _). unfold phase, authed. rewrite E5, Hst, E1, E3, E4.
      exists a, rsv, atyp, n'. done.
    + intros o b Hr Hp Hb Hsz Ha Hde Hso. unfold message_handler. rewrite Hso, Hst, Hs, <- Ha, <- Hde.
      destruct Hrec as (_ & _ & _ & _ & Hl & (b' & _ & _ & _ & Hsz') & _).
      apply (rest_done o a rsv atyp _ n'); try congruence. rewrite zlen_slice; lia.
Qed.

Lemma step_connection s e :
  Inv s -> enabled s (EConnection e) -> exists s', sys_step s (EConnection e) = Some s' /\ Inv s'.
Proof.
  intros [Hr _ _ Hp] [Hf Hst]. unfold sys_step. rewrite Hf.
  destruct (state (cl s)) eqn:E; try done; unfold connection_handler; rewrite E;
    destruct e; eexists; (split; [reflexivity|]); apply Inv_fail; done.
Qed.

(** No contract is ever broken, and the invariant is preserved. *)
Lemma step_Inv s e : Inv s -> enabled s e -> exists s', sys_step s e = Some s' /\ Inv s'.
Proof.
  destruct e; [apply step_connector|apply step_sent|apply step_data|apply step_connection].
Qed.

Lemma step_enabled s e s' : sys_step s e = Some s' -> enabled s e.
Proof.
  unfold sys_step, enabled. destruct (failed s); [done|]. intros H. split; [done|].
  destruct e; cbn in *.
  - destruct (state (cl s)); done.
  - destruct (sending s); done.
  - destruct (recving s) as [[off n]|]; [|done]. exists off, n. split; [done|].
    destruct (Z.ltb_spec 0 (zlen d)); [|done]. destruct (Z.leb_spec (zlen d) n); [|done]. lia.
  - destruct (state (cl s)); done.
Qed.

Lemma run_Inv es : forall s s', Inv s -> run s es = Some s' -> Inv s'.
Proof.
  induction es as [|e es IH]; intros s s' HI; cbn [run]; [intros [= <-]; done|].
  destruct (sys_step s e) as [s1|] eqn:E; [|done]. intros H. apply (IH s1); [|done].
  destruct (step_Inv s e HI (step_enabled _ _ _ E)) as (s2 & E2 & H2). congruence.
Qed.

Definition start (a : list auth_info) (d : dest) : option sys :=
  match BSocksClient_Init a d true with
  | Some o => Some (Sys o false None [] [] [])
  | None => None
  end.

Lemma start_Inv a d s :
  match d with Dest_IPv6 ip _ => zlen ip = 16 | _ => True end -> start a d = Some s -> Inv s.
Proof. intros Hd [= <-]. split; try done. Qed.

(** ** The configuration never changes *)

Definition cfg (o : BSocksClient) : list auth_info * dest := (auths o, dest_addr o).

Lemma reserve_cfg o n o' : reserve_buffer o n = Some o' -> cfg o' = cfg o.
Proof. intros H. apply reserve_spec in H as (b & -> & _). done. Qed.

Lemma write_methods_cfg l : forall i o, cfg (write_methods i l o) = cfg o.
Proof. induction l as [|a l IH]; intros i o; cbn [write_methods]; [done|]. rewrite IH. done. Qed.

Lemma auth_finished_cfg o : cfg (fst (auth_finished o)) = cfg o.
Proof.
  unfold auth_finished. destruct (reserve_buffer o _) as [o'|] eqn:E; [|done]. apply reserve_cfg in E. exact E.
Qed.

Lemma connector_handler_cfg o ie ok : cfg (fst (connector_handler o ie ok)) = cfg o.
Proof.
  unfold connector_handler. destruct ie; [done|]. destruct ok; [|done]. cbn [negb].
  destruct (_ || _); [done|]. destruct (reserve_buffer _ _) as [o'|] eqn:E; [|done].
  apply reserve_cfg in E. cbn [fst]. transitivity (cfg o'); [|exact E].
  change (cfg (set_state ?s ?o)) with (cfg o). rewrite write_methods_cfg. done.
Qed.

Lemma send_handler_cfg o : cfg (fst (send_handler_done o)) = cfg o.
Proof.
  unfold send_handler_done. destruct (state o); try done;
    destruct (reserve_buffer o _) as [o'|] eqn:E; try done; apply reserve_cfg in E; exact E.
Qed.

Lemma message_handler_cfg o : cfg (fst (message_handler o)) = cfg o.
Proof.
  unfold message_handler. destruct (state o); try done.
  - unfold recv_hello. destruct (negb _); [done|]. destruct (find_auth _ _) as [[|u p]|]; [|..|done].
    + apply auth_finished_cfg.
    + destruct (_ || _ || _ || _); [done|]. destruct (reserve_buffer o _) as [o'|] eqn:E; [|done].
      apply reserve_cfg in E. exact E.
  - unfold recv_password_reply. repeat (destruct (negb _); [done|]). apply auth_finished_cfg.
  - unfold recv_reply_header. repeat (destruct (negb _); [done|]). repeat (destruct (_ =? _); [done|]). done.
Qed.

Lemma recv_handler_cfg o n : cfg (fst (recv_handler_done o n)) = cfg o.
Proof.
  unfold recv_handler_done. destruct (_ <? _); [done|].
  match goal with |- cfg (fst ?h) = _ => change h with (message_handler (set_recv (recv_dest o) (recv_len o + n) (recv_total o) o)) end.
  rewrite message_handler_cfg. done.
Qed.

Lemma do_actions_cl l : forall s s', do_actions l s = Some s' -> cl s' = cl s.
Proof.
  induction l as [|a l IH]; intros s s'; cbn [do_actions]; [intros [= <-]; done|].
  destruct (do_action a s) as [s1|] eqn:E; [|done]. intros H. rewrite (IH _ _ H).
  destruct a; cbn in E.
  - destruct (sending s); simplify_eq; done.
  - destruct (recving s); [done|]. destruct (_ && _ && _); simplify_eq; done.
  - simplify_eq. done.
Qed.

Lemma step_cfg s e s' : sys_step s e = Some s' -> cfg (cl s') = cfg (cl s).
Proof.
  unfold sys_step. destruct (failed s); [done|].
  assert (forall (h : BSocksClient * list action) s1 se rc st rd ev, cfg (fst h) = cfg (cl s) ->
    (let '(o, l) := h in do_actions l (Sys o se rc st rd ev)) = Some s1 -> cfg (cl s1) = cfg (cl s)) as Hk.
  { intros [o l] s1 se rc st rd ev Hh H. apply do_actions_cl in H. rewrite H. exact Hh. }
  destruct e as [ie ok| |d|ev].
  - destruct (state (cl s)); try done. apply Hk, connector_handler_cfg.
  - destruct (sending s); [|done]. apply Hk, send_handler_cfg.
  - destruct (recving s) as [[off n]|]; [|done]. destruct (_ && _); [|done]. apply Hk. rewrite recv_handler_cfg. done.
  - destruct (state (cl s)) eqn:E; try done; apply Hk; unfold connection_handler; rewrite E; destruct ev; done.
Qed.

Lemma run_cfg es : forall s s', run s es = Some s' -> cfg (cl s') = cfg (cl s).
Proof.
  induction es as [|e es IH]; intros s s'; cbn [run]; [intros [= <-]; done|].
  destruct (sys_step s e) as [s1|] eqn:E; [|done]. intros H. rewrite (IH _ _ H). apply (step_cfg _ _ _ E).
Qed.

(** ** A server that keeps to the protocol *)

Definition is_error (a : action) : bool :=
  match a with Handler BSOCKSCLIENT_EVENT_UP => false | Handler _ => true | _ => false end.

Definition quiet (h : BSocksClient * list action) : Prop := existsb is_error (snd h) = false.

Lemma do_actions_failed l : forall s s',
  do_actions l s = Some s' -> failed s' = failed s || existsb is_error l.
Proof.
  induction l as [|a l IH]; intros s s'; cbn [do_actions existsb]; [intros [= <-]; rewrite orb_false_r; done|].
  destruct (do_action a s) as [s1|] eqn:E; [|done]. intros H. rewrite (IH _ _ H), orb_assoc. f_equal.
  destruct a; cbn in E.
  - destruct (sending s); simplify_eq. rewrite orb_false_r. done.
  - destruct (recving s); [done|]. destruct (_ && _ && _); simplify_eq. rewrite orb_false_r. done.
  - simplify_eq. unfold failed. cbn. rewrite existsb_app. cbn. rewrite orb_false_r. destruct e; done.
Qed.

Definition creds_ok (a : auth_info) : Prop :=
  match a with
  | Auth_None => True
  | Auth_Password u p => 0 < zlen u <= 255 /\ 0 < zlen p <= 255
  end.

Context (realloc_total : forall b n, 0 < n -> is_Some (realloc b n)).

Lemma reserve_total o n : 0 < n -> exists b, reserve_buffer o n = Some (set_buffer (Some b) o).
Proof. intros Hn. unfold reserve_buffer. destruct (realloc_total (buffer o) n Hn) as [b ->]. eauto. Qed.

Lemma auth_finished_quiet o : quiet (auth_finished o).
Proof.
  unfold auth_finished. destruct (reserve_total o (4 + sizeof_socks_addr (dest_addr o))) as (b & ->); [|done].
  destruct (dest_addr o); cbn; lia.
Qed.

Lemma connector_handler_quiet o : 0 < zlen (auths o) <= 255 -> quiet (connector_handler o false true).
Proof.
  intros Hn. unfold connector_handler. cbn [negb]. change (auths (init_control_io (init_con o))) with (auths o).
  destruct (Z.eqb_spec (zlen (auths o)) 0); [lia|]. destruct (Z.ltb_spec 255 (zlen (auths o))); [lia|].
  destruct (reserve_total (init_control_io (init_con o)) (2 + zlen (auths o) * 1)) as (b & ->); [lia|]. done.
Qed.

Lemma send_handler_quiet o : quiet (send_handler_done o).
Proof.
  unfold send_handler_done. destruct (state o); try done.
  - destruct (reserve_total o 2) as (b & ->); [lia|done].
  - destruct (reserve_total o 2) as (b & ->); [lia|done].
  - destruct (reserve_total o (4 + Z.max 6 18)) as (b & ->); [lia|done].
Qed.

Lemma hello_quiet o a b :
  buffer o = Some b -> b = [x05; z2b (auth_type a)] ->
  find_auth (auth_type a) (auths o) = Some a -> creds_ok a -> quiet (recv_hello o).
Proof.
  intros Hb -> Ha Hc. unfold recv_hello.
  rewrite (byte_at_spec o _ 0 x05 Hb), (byte_at_spec o _ 1 _ Hb eq_refl) by done.
  cbv zeta. unfold ntoh8, hton8. cbn [negb].
  replace (b2z (z2b (auth_type a))) with (auth_type a) by (destruct a; done). rewrite Ha.
  destruct a as [|u p]; [apply auth_finished_quiet|]. destruct Hc as [Hu Hp].
  destruct (Z.eqb_spec (zlen u) 0); [lia|]. destruct (Z.ltb_spec 255 (zlen u)); [lia|].
  destruct (Z.eqb_spec (zlen p) 0); [lia|]. destruct (Z.ltb_spec 255 (zlen p)); [lia|]. cbn [orb].
  destruct (reserve_total o (1 + 1 + zlen u + 1 + zlen p)) as (b & ->); [lia|]. done.
Qed.

Lemma password_quiet o : buffer o = Some [x01; x00] -> quiet (recv_password_reply o).
Proof.
  intros Hb. unfold recv_password_reply. rewrite (byte_at_spec o _ 0 x01 Hb), (byte_at_spec o _ 1 x00 Hb) by done.
  apply auth_finished_quiet.
Qed.

Lemma header_quiet o rsv atyp rest n :
  buffer o = Some (x05 :: x00 :: rsv :: atyp :: rest) -> addr_len atyp = Some n -> quiet (recv_reply_header o).
Proof.
  intros Hb Hn. unfold recv_reply_header.
  rewrite (byte_at_spec o _ 0 x05 Hb), (byte_at_spec o _ 1 x00 Hb), (byte_at_spec o _ 3 atyp Hb) by done.
  unfold addr_len in Hn. unfold ntoh8, hton8. cbn [negb]. destruct (b2z atyp =? SOCKS_ATYP_IPV4); [done|].
  destruct (b2z atyp =? SOCKS_ATYP_IPV6); [done|]. done.
Qed.

(** A dialogue determines the method chosen and its own length. *)
Lemma dialogue_auth l a a' x y :
  find_auth (auth_type a) l = Some a -> find_auth (auth_type a') l = Some a' ->
  (greeting a ++ x) `prefix_of` (greeting a' ++ y) -> a = a'.
Proof.
  intros H1 H2 [k Hk]. unfold greeting in Hk. cbn in Hk. injection Hk as Hk _.
  assert (auth_type a = auth_type a') as E by (destruct a, a'; done). rewrite E in H1. congruence.
Qed.

Definition benign (e : event) : Prop :=
  match e with EConnector ie ok => ie = false /\ ok = true | EConnection _ => False | _ => True end.

Lemma do_actions_rcvd l : forall s s', do_actions l s = Some s' -> rcvd s' = rcvd s.
Proof.
  induction l as [|a l IH]; intros s s'; cbn [do_actions]; [intros [= <-]; done|].
  destruct (do_action a s) as [s1|] eqn:E; [|done]. intros H. rewrite (IH _ _ H).
  destruct a; cbn in E.
  - destruct (sending s); simplify_eq; done.
  - destruct (recving s); [done|]. destruct (_ && _ && _); simplify_eq; done.
  - simplify_eq. done.
Qed.

(** The complete message at [d0] is what the server sent there. *)
Lemma message_quiet s size d0 total r0 o b au r :
  Inv s -> failed s = false -> receiving s size d0 total r0 ->
  good_dialogue (auths (cl s)) au r -> creds_ok au ->
  buffer o = Some b -> zlen b = size -> state o = state (cl s) -> auths o = auths (cl s) ->
  (r0 ++ slice d0 total b) `prefix_of` r -> quiet (message_handler o).
Proof.
  intros HI Hf Hrec [Hau (rsv & atyp & addr & n & Hn & Haddr & ->)] Hc Hb Hsz Hst Ha Hpre.
  pose proof (i_phase _ HI Hf) as Hph. unfold phase in Hph. unfold message_handler. rewrite Hst.
  assert (forall size' d0' total' r0', receiving s size' d0' total' r0' -> size' = size /\ d0' = d0 /\ total' = total /\ r0' = r0) as Huniq.
  { intros size' d0' total' r0' (_ & _ & E1 & E2 & _ & (b1 & E3 & E4 & _) & E5).
    destruct Hrec as (_ & _ & F1 & F2 & _ & (b2 & F3 & F4 & _) & F5).
    assert (d0' = d0) as -> by congruence. rewrite E5 in F5. apply app_inv_tail in F5.
    split_and!; congruence. }
  destruct (state (cl s)) eqn:E; try done.
  - destruct Hph as [Hrec' _]. destruct (Huniq _ _ _ _ Hrec') as (<- & <- & <- & <-).
    apply (hello_quiet o au b Hb); [|congruence|done].
    destruct b as [|b0 [|b1 [|]]]; try (unfold zlen in Hsz; cbn in Hsz; lia).
    destruct Hpre as [k Hk]. unfold greeting in Hk. cbn in Hk. injection Hk as <- <- _. done.
  - destruct Hph as (u & p & _ & Hrec'). destruct (Huniq _ _ _ _ Hrec') as (<- & <- & <- & <-).
    destruct b as [|b0 [|b1 [|]]]; try (unfold zlen in Hsz; cbn in Hsz; lia).
    apply (password_quiet o). rewrite Hb. do 2 f_equal.
    + destruct Hpre as [k Hk], au; cbn in Hk; simplify_eq/=; done.
    + destruct Hpre as [k Hk], au; cbn in Hk; simplify_eq/=; done.
  - destruct Hph as (a & [Ha1 _] & Hrec'). destruct (Huniq _ _ _ _ Hrec') as (<- & <- & <- & <-).
    pose proof (dialogue_auth _ _ _ _ _ Ha1 Hau Hpre) as ->. apply prefix_app_inv in Hpre.
    destruct b as [|b0 [|b1 [|b2 [|b3 rest]]]]; try (unfold zlen in Hsz; cbn in Hsz; lia).
    destruct Hpre as [k Hk]. cbn in Hk. injection Hk as <- <- <- <- _.
    exact (header_quiet o _ _ rest n Hb Hn).
Qed.

Lemma step_quiet s e s' au r :
  Inv s -> 0 < zlen (auths (cl s)) <= 255 -> good_dialogue (auths (cl s)) au r -> creds_ok au -> benign e ->
  sys_step s e = Some s' -> rcvd s' `prefix_of` r -> failed s' = false.
Proof.
  intros HI Hnum Hg Hc Hbe Hstep Hpre.
  pose proof (step_enabled _ _ _ Hstep) as [Hf _]. unfold sys_step in Hstep. rewrite Hf in Hstep.
  assert (forall (h : BSocksClient * list action) se rc st rd, quiet h ->
    (let '(o, l) := h in do_actions l (Sys o se rc st rd (events s))) = Some s' -> failed s' = false) as Hk.
  { intros [o l] se rc st rd Hq H. rewrite (do_actions_failed _ _ _ H). unfold quiet in Hq. cbn in Hq. rewrite Hq, orb_false_r. exact Hf. }
  destruct e as [ie ok| |d|ev]; [| | |done].
  - destruct Hbe as [-> ->]. destruct (state (cl s)); try done. eapply Hk, Hstep. apply connector_handler_quiet, Hnum.
  - destruct (sending s); [|done]. eapply Hk, Hstep. apply send_handler_quiet.
  - destruct (recving s) as [[off n]|] eqn:Hrc; [|done]. destruct (_ && _) eqn:Hd; [|done].
    assert (exists size d0 total r0, receiving s size d0 total r0) as (size & d0 & total & r0 & Hrec).
    { pose proof (i_phase _ HI Hf) as Hph. unfold phase in Hph. destruct (state (cl s));
        try (exfalso; unfold sending_now in Hph; naive_solver congruence); naive_solver. }
    pose proof Hrec as (_ & Hrc' & Hdest & Htot & _). rewrite Hrc in Hrc'. injection Hrc' as -> ->.
    apply andb_true_iff in Hd as [_ Hd]. apply Z.leb_le in Hd.
    destruct (after_data_bytes s size d0 total r0 d Hrec Hd) as [(b & Hb & Hsz) Hrd].
    eapply Hk; [|exact Hstep]. unfold recv_handler_done. fold (after_data s (d0 + recv_len (cl s)) d).
    set (o := after_data s (d0 + recv_len (cl s)) d) in *.
    assert (recv_total o = total) as Ht by done. rewrite Ht.
    destruct (Z.ltb_spec (recv_len o) total) as [Hlt|Hge]; [done|]. fold (message_handler o).
    apply (message_quiet s size d0 total r0 o b au r); try done.
    assert (rcvd s' = rcvd s ++ d) as Hr' by (destruct (recv_handler_done _ _) in Hstep; apply do_actions_rcvd in Hstep; exact Hstep).
    assert (recv_len o = recv_len (cl s) + zlen d) as Hlen by done.
    replace (recv_len o) with total in Hrd by lia. unfold buf_bytes in Hrd. rewrite Hb in Hrd.
    rewrite <- Hrd, <- Hr'. exact Hpre.
Qed.

Lemma step_rcvd s e s' : sys_step s e = Some s' -> rcvd s `prefix_of` rcvd s'.
Proof.
  unfold sys_step. destruct (failed s); [done|].
  assert (forall (h : BSocksClient * list action) se rc st rd ev, rcvd s `prefix_of` rd ->
    (let '(o, l) := h in do_actions l (Sys o se rc st rd ev)) = Some s' -> rcvd s `prefix_of` rcvd s') as Hk.
  { intros [o l] se rc st rd ev Hp H. rewrite (do_actions_rcvd _ _ _ H). exact Hp. }
  destruct e as [ie ok| |d|ev].
  - destruct (state (cl s)); try done. apply Hk. done.
  - destruct (sending s); [|done]. apply Hk. done.
  - destruct (recving s) as [[off n]|]; [|done]. destruct (_ && _); [|done]. apply Hk. apply prefix_app_r. done.
  - destruct (state (cl s)); try done; apply Hk; done.
Qed.

Lemma run_rcvd es : forall s s', run s es = Some s' -> rcvd s `prefix_of` rcvd s'.
Proof.
  induction es as [|e es IH]; intros s s'; cbn [run]; [intros [= <-]; done|].
  destruct (sys_step s e) as [s1|] eqn:E; [|done]. intros H. etransitivity; [apply (step_rcvd _ _ _ E)|apply IH, H].
Qed.

Lemma run_quiet au r es : forall s s',
  Inv s -> failed s = false -> 0 < zlen (auths (cl s)) <= 255 -> good_dialogue (auths (cl s)) au r -> creds_ok au ->
  Forall benign es -> run s es = Some s' -> rcvd s' `prefix_of` r -> failed s' = false.
Proof.
  induction es as [|e es IH]; intros s s' HI Hf Hnum Hg Hc Hbe; cbn [run]; [intros [= <-]; done|].
  destruct (sys_step s e) as [s1|] eqn:E; [|done]. intros H Hpre. apply Forall_cons in Hbe as [Hb1 Hb2].
  pose proof (step_cfg _ _ _ E) as Hcfg. injection Hcfg as Ha _.
  apply (IH s1); rewrite ?Ha; try done.
  - destruct (step_Inv s e HI (step_enabled _ _ _ E)) as (s2 & E2 & H2). congruence.
  - apply (step_quiet s e s1 au r); try done. etransitivity; [apply (run_rcvd _ _ _ H)|done].
Qed.

(** ** Where the client stands in the dialogue *)

Definition pending_input (s : sys) (r : list byte) : Prop :=
  exists off n, recving s = Some (off, n) /\ 0 < n /\ zlen (rcvd s) + n <= zlen r.

Lemma receiving_pending s size d0 total r0 r :
  receiving s size d0 total r0 -> zlen r0 + total <= zlen r -> pending_input s r.
Proof.
  intros (_ & Hrc & _ & _ & Hl & (b & Hb & Hsz & Hd & Hs) & Hrd) Hlen.
  exists (d0 + recv_len (cl s)), (total - recv_len (cl s)). split; [done|]. split; [lia|].
  unfold buf_bytes in Hrd. rewrite Hb in Hrd. rewrite Hrd, zlen_app, zlen_slice; lia.
Qed.

Lemma prefix_zlen {A} (l k : list A) : l `prefix_of` k -> zlen l <= zlen k.
Proof. intros [x ->]. rewrite zlen_app. pose proof (zlen_nonneg x). lia. Qed.

Lemma greeting_len a : 2 <= zlen (greeting a) <= 4 /\ (zlen (greeting a) = 2 -> a = Auth_None).
Proof. destruct a; cbn; split; done || lia. Qed.

Lemma good_dialogue_up l a a' r r' :
  good_dialogue l a r -> good_dialogue l a' r' -> r `prefix_of` r' -> r = r'.
Proof.
  intros [Ha (rsv & atyp & addr & n & Hn & Hl & ->)] [Ha' (rsv' & atyp' & addr' & n' & Hn' & Hl' & ->)] Hp.
  pose proof (dialogue_auth _ _ _ _ _ Ha Ha' Hp) as ->. apply prefix_app_inv in Hp. f_equal.
  destruct Hp as [k Hk]. cbn in Hk. injection Hk as -> -> Hk. rewrite Hn in Hn'. injection Hn' as ->.
  assert (k = []) as ->. { apply zlen_0_inv. apply (f_equal zlen) in Hk. rewrite zlen_app in Hk. lia. }
  rewrite app_nil_r in Hk. subst. done.
Qed.

Lemma dialogue_standing s au r :
  Inv s -> failed s = false -> good_dialogue (auths (cl s)) au r -> rcvd s `prefix_of` r ->
  (state (cl s) = STATE_UP /\ rcvd s = r) \/
  (state (cl s) <> STATE_UP /\ zlen (rcvd s) < zlen r /\
   (state (cl s) = STATE_CONNECTING \/ sending s = true \/ pending_input s r)).
Proof.
  intros HI Hf Hg Hpre. pose proof (i_phase _ HI Hf) as Hph. unfold phase in Hph.
  pose proof Hg as [Hau (rsv & atyp & addr & n & Hn & Haddr & Hr)].
  assert (zlen r = zlen (greeting au) + 4 + n) as Hlen by (rewrite Hr, !zlen_app, Haddr; change (zlen [_; _; _; _]) with 4; lia).
  pose proof (greeting_len au) as [Hgl Hgn].
  assert (0 < n) as Hn0 by (unfold addr_len in Hn; destruct (_ =? _); [|destruct (_ =? _)]; simplify_eq; lia).
  assert (forall a x, find_auth (auth_type a) (auths (cl s)) = Some a -> rcvd s = greeting a ++ x -> a = au) as Huniq.
  { intros a x Ha E. rewrite E, Hr in Hpre. apply (dialogue_auth _ _ _ _ _ Ha Hau Hpre). }
  assert (pending_input s r -> zlen (rcvd s) < zlen r) as Hpl by (intros (off & m & _ & ?); lia).
  destruct (state (cl s)) eqn:E.
  - right. destruct Hph as (_ & _ & _ & -> & _). split; [done|]. split; [rewrite ?zlen_cons, ?zlen_nil; lia|]. auto.
  - right. destruct Hph as [(Hs & _ & -> & _) _]. split; [done|]. split; [rewrite ?zlen_cons, ?zlen_nil; lia|]. auto.
  - right. destruct Hph as [Hrec _]. assert (pending_input s r) by (eapply receiving_pending; [exact Hrec|rewrite ?zlen_cons, ?zlen_nil; lia]). auto.
  - right. destruct Hph as (u & p & _ & (Hs & _ & -> & _)). split; [done|]. split; [rewrite ?zlen_cons, ?zlen_nil; lia|]. auto.
  - right. destruct Hph as (u & p & [Ha _] & Hrec).
    assert (pending_input s r); [|by auto]. eapply receiving_pending; [exact Hrec|]. change (zlen [_; _]) with 2. lia.
  - right. destruct Hph as (a & [Ha _] & (Hs & _ & Hrd & _)).
    assert (a = au) as -> by (apply (Huniq a []); [done|]; rewrite app_nil_r; done).
    split; [done|]. split; [rewrite Hrd; lia|]. auto.
  - right. destruct Hph as (a & [Ha _] & Hrec).
    assert (a = au) as -> by (eapply Huniq; [done|]; apply Hrec).
    assert (pending_input s r) by (eapply receiving_pending; [exact Hrec|lia]). auto.
  - right. destruct Hph as (a & rsv' & atyp' & n' & [Ha _] & Hn' & Hrec).
    pose proof Hrec as (_ & _ & _ & _ & _ & _ & Hrd). rewrite <- app_assoc in Hrd.
    assert (a = au) as -> by (eapply Huniq; done).
    rewrite Hrd, Hr in Hpre. apply prefix_app_inv in Hpre. destruct Hpre as [k Hk]. cbn in Hk.
    injection Hk as -> -> _. rewrite Hn in Hn'. injection Hn' as ->.
    assert (pending_input s r); [|by auto]. eapply receiving_pending; [exact Hrec|]. rewrite zlen_app. change (zlen [_; _; _; _]) with 4. lia.
  - left. destruct Hph as (a & _ & Hg' & _). split; [done|]. apply (good_dialogue_up _ _ _ _ _ Hg' Hg Hpre).
Qed.
End client.

(** ** Properties *)

(** The sub-objects that are initialised, in the order they are to be freed. *)
Definition initialised (o : BSocksClient) : list release :=
  (if up_io (res o) then [R_up_io] else []) ++ (if control_io (res o) then [R_control_io] else []) ++
  (if con (res o) then [R_con] else []) ++ (if connector (res o) then [R_connector] else []) ++
  match buffer o with Some _ => [R_buffer] | None => [] end.

(** C18: the client announces UP only after a complete and successful SOCKS5
    dialogue. Whatever the order of completions and however the server's bytes are
    split, when UP is the only event reported the client has sent exactly the
    hello, the credentials if the server asked for them and the request for its
    destination; the bytes it consumed are exactly a well-formed dialogue in which
    the server chose an offered method, accepted the credentials and reported
    success with a complete bound address; and nothing is left pending. *)
Theorem socks_up_sound
    (realloc : option (list byte) -> Z -> option (list byte))
    (realloc_size : forall b n b', realloc b n = Some b' -> zlen b' = n)
    a d s es s' :
  match d with Dest_IPv6 ip _ => zlen ip = 16 | _ => True end ->
  start a d = Some s -> run realloc s es = Some s' -> events s' = [BSOCKSCLIENT_EVENT_UP] ->
  exists au, good_dialogue a au (rcvd s') /\ sent s' = hello_msg a :: auth_msgs au ++ [request_msg d] /\
    sending s' = false /\ recving s' = None /\ state (cl s') = STATE_UP /\
    res (cl s') = Res true true false true.
Proof.
  intros Hd Hs Hrun Hev. pose proof (start_Inv a d s Hd Hs) as HI.
  pose proof (run_Inv realloc realloc_size es s s' HI Hrun) as HI'.
  pose proof (run_cfg realloc realloc_size es s s' Hrun) as Hc. injection Hs as <-. injection Hc as Ha Hde.
  assert (failed s' = false) as Hf by (unfold failed; rewrite Hev; done).
  pose proof (i_up _ HI' Hf) as Hup. rewrite Hev in Hup. pose proof (i_phase _ HI' Hf) as Hph.
  pose proof (i_res _ HI') as Hr. unfold phase in Hph. unfold res_ok in Hr.
  destruct (state (cl s')) eqn:E; try done. destruct Hph as (au & [_ Hsent] & Hg & H1 & H2 & _).
  exists au. rewrite <- Ha, <- Hde. split_and!; done.
Qed.

(** C19: a server that keeps to the protocol is always served. If memory is
    available, the number of methods and the lengths of the credentials are legal
    and the bytes received so far begin a well-formed dialogue [r], then no error
    is reported; the client is up exactly when all of [r] was read; before that it
    waits for the connection, for a send to finish or for input, and never asks
    for a byte beyond the end of [r], so the data of the tunnel that follows is
    left for the owner. *)
Theorem socks_completes
    (realloc : option (list byte) -> Z -> option (list byte))
    (realloc_size : forall b n b', realloc b n = Some b' -> zlen b' = n)
    (realloc_total : forall b n, 0 < n -> is_Some (realloc b n))
    a d s es s' au r :
  match d with Dest_IPv6 ip _ => zlen ip = 16 | _ => True end ->
  0 < zlen a <= 255 -> good_dialogue a au r -> creds_ok au -> Forall benign es ->
  start a d = Some s -> run realloc s es = Some s' -> rcvd s' `prefix_of` r ->
  failed s' = false /\
  ((state (cl s') = STATE_UP /\ rcvd s' = r) \/
   (state (cl s') <> STATE_UP /\ zlen (rcvd s') < zlen r /\
    (state (cl s') = STATE_CONNECTING \/ sending s' = true \/ pending_input s' r))).
Proof.
  intros Hd Hn Hg Hc Hbe Hs Hrun Hpre. pose proof (start_Inv a d s Hd Hs) as HI.
  pose proof (run_Inv realloc realloc_size es s s' HI Hrun) as HI'.
  pose proof (run_cfg realloc realloc_size es s s' Hrun) as Hcfg. injection Hs as <-. injection Hcfg as Ha Hde.
  assert (failed s' = false) as Hf.
  { eapply (run_quiet realloc realloc_size realloc_total au r es); [exact HI|done..]. }
  split; [done|]. apply (dialogue_standing _ au r HI' Hf); [rewrite Ha|]; done.
Qed.

(** C20: no contract is broken and nothing leaks. From every state the client can
    reach, each event that can happen is handled without starting a second send or
    receive and without a receive outside its buffer, and at every point, failures
    included, [BSocksClient_Free] releases exactly the sub-objects that are
    initialised, users before what they use. *)
Theorem socks_safe
    (realloc : option (list byte) -> Z -> option (list byte))
    (realloc_size : forall b n b', realloc b n = Some b' -> zlen b' = n)
    a d s es s' :
  match d with Dest_IPv6 ip _ => zlen ip = 16 | _ => True end ->
  start a d = Some s -> run realloc s es = Some s' ->
  (forall e, enabled s' e -> is_Some (sys_step realloc s' e)) /\
  BSocksClient_Free (cl s') = initialised (cl s').
Proof.
  intros Hd Hs Hrun. pose proof (start_Inv a d s Hd Hs) as HI.
  pose proof (run_Inv realloc realloc_size es s s' HI Hrun) as HI'. split.
  - intros e He. destruct (step_Inv realloc realloc_size s' e HI' He) as (s2 & E & _). eauto.
  - pose proof (i_res _ HI') as Hr. unfold res_ok in Hr. unfold BSocksClient_Free, initialised.
    rewrite Hr. destruct (state (cl s')); done.
Qed.

(** ** A concrete dialogue: user [u], password [pw], to 10.0.0.1 port 80 *)

Definition keep_realloc (b : option (list byte)) (n : Z) : option (list byte) :=
  if 0 <=? n then Some (take (Z.to_nat n) (match b with Some b => b | None => [] end ++ repeat x00 (Z.to_nat n)))
  else None.

Lemma keep_realloc_size b n b' : keep_realloc b n = Some b' -> zlen b' = n.
Proof.
  unfold keep_realloc. destruct (Z.leb_spec 0 n); [|done]. intros [= <-].
  unfold zlen. rewrite length_take, length_app, repeat_length. lia.
Qed.

Lemma keep_realloc_total b n : 0 < n -> is_Some (keep_realloc b n).
Proof. unfold keep_realloc. destruct (Z.leb_spec 0 n); [eauto|lia]. Qed.

Definition ex_auths : list auth_info := [Auth_None; Auth_Password [x75] [x70; x77]].
Definition ex_dest : dest := Dest_IPv4 0x0100000A 0x5000.
Definition ex_reply : list byte :=
  [x05; x02] ++ [x01; x00] ++ [x05; x00; x00; x01] ++ [x00; x00; x00; x00; x00; x00].

Definition ex_events : list event :=
  [EConnector false true; ESent; EData [x05]; EData [x02]; ESent; EData [x01; x00]; ESent;
   EData [x05; x00; x00]; EData [x01]; EData [x00; x00; x00; x00; x00; x00]].

Definition ex_start : sys := Sys (SC ex_auths ex_dest STATE_CONNECTING None 0 0 0 (Res true false false false)) false None [] [] [].

Definition ex_end : sys :=
  Sys (SC ex_auths ex_dest STATE_UP None 4 6 6 (Res true true false true)) false None
    [[x05; x02; x00; x02]; [x01; x01; x75; x02; x70; x77];
     [x05; x01; x00; x01; x0a; x00; x00; x01; x00; x50]] ex_reply [BSOCKSCLIENT_EVENT_UP].

Lemma ex_run : run keep_realloc ex_start ex_events = Some ex_end.
Proof. vm_compute. reflexivity. Qed.

Lemma ex_good : good_dialogue ex_auths (Auth_Password [x75] [x70; x77]) ex_reply.
Proof. split; [done|]. exists x00, x01, [x00; x00; x00; x00; x00; x00], 6. done. Qed.

Lemma socks_up_sound_witness :
  exists au, good_dialogue ex_auths au ex_reply /\
    sent ex_end = hello_msg ex_auths :: auth_msgs au ++ [request_msg ex_dest] /\
    sending ex_end = false /\ recving ex_end = None /\ state (cl ex_end) = STATE_UP /\
    res (cl ex_end) = Res true true false true.
Proof.
  apply (socks_up_sound keep_realloc keep_realloc_size ex_auths ex_dest ex_start ex_events ex_end);
    [exact I|reflexivity|exact ex_run|reflexivity].
Defined.

Lemma socks_completes_witness :
  failed ex_end = false /\
  ((state (cl ex_end) = STATE_UP /\ rcvd ex_end = ex_reply) \/
   (state (cl ex_end) <> STATE_UP /\ zlen (rcvd ex_end) < zlen ex_reply /\
    (state (cl ex_end) = STATE_CONNECTING \/ sending ex_end = true \/ pending_input ex_end ex_reply))).
Proof.
  apply (socks_completes keep_realloc keep_realloc_size keep_realloc_total ex_auths ex_dest ex_start ex_events
    ex_end (Auth_Password [x75] [x70; x77]) ex_reply);
    [exact I|done|exact ex_good|done|repeat constructor|reflexivity|exact ex_run|reflexivity].
Defined.

Lemma socks_safe_witness :
  (forall e, enabled ex_end e -> is_Some (sys_step keep_realloc ex_end e)) /\
  BSocksClient_Free (cl ex_end) = [R_up_io; R_con; R_connector].
Proof.
  apply (socks_safe keep_realloc keep_realloc_size ex_auths ex_dest ex_start ex_events ex_end);
    [exact I|reflexivity|exact ex_run].
Defined.
