(* ===== verification/UdpGwClient.v ===== *)
(** * The UDP gateway client

    [udpgw_client/UdpGwClient.c] with the message layouts of
    [protocol/udpgw_proto.h]: a table of UDP "connections" (local and remote
    address) multiplexed over one stream to the gateway, each with a connection id.
    A connection is found by its addresses when the device sends a datagram and by
    its id when the gateway sends one; when the table is full the least recently
    used connection is recycled.

    Connections live in a heap, and the trees and the list hold their addresses.
    A [BAVL] tree is the finite map from the key to the node, which its contract
    with the comparators ([BAddr.v]) makes it. The outcomes of [malloc] and of
    [PacketProtoFlow_Init] are arguments. *)

From Stdlib Require Import ZArith Lia.
From stdpp Require Import gmap.
From S2P Require Import Prelude ByteOrder BAddr Flow.

Definition UDPGW_CLIENT_FLAG_KEEPALIVE : Z := Z.shiftl 1 0.
Definition UDPGW_CLIENT_FLAG_REBIND : Z := Z.shiftl 1 1.
Definition UDPGW_CLIENT_FLAG_DNS : Z := Z.shiftl 1 2.
Definition UDPGW_CLIENT_FLAG_IPV6 : Z := Z.shiftl 1 3.

Definition sizeof_udpgw_header : Z := 3.
Definition sizeof_socks_udp_header : Z := 4.
Definition sizeof_packetproto_header : Z := 2.
Definition sizeof_udpgw_addr_ipv4 : Z := 6.
Definition sizeof_udpgw_addr_ipv6 : Z := 18.

(** The Android build adds the larger header of the other gateway protocol. *)
Definition udpgw_compute_mtu (dgram_mtu : Z) : Z :=
  if dgram_mtu <? 0 then -1 else
  let s := sizeof_socks_udp_header + (Z.max sizeof_udpgw_addr_ipv4 sizeof_udpgw_addr_ipv6 + dgram_mtu) in
  if INT_MAX <? s then -1 else s.

Record UdpGwClient_conaddr := Conaddr { local_addr : BAddr; remote_addr : BAddr }.

#[export] Instance conaddr_eq_dec : EqDecision UdpGwClient_conaddr.
Proof. solve_decision. Defined.
#[export] Instance conaddr_countable : Countable UdpGwClient_conaddr.
Proof.
  apply (inj_countable' (fun a => (local_addr a, remote_addr a)) (fun p => Conaddr (fst p) (snd p))).
  intros []; reflexivity.
Defined.

Definition uint16_comparator (v1 v2 : Z) : Z := B_COMPARE v1 v2.

Definition conaddr_comparator (v1 v2 : UdpGwClient_conaddr) : Z :=
  let r := BAddr_CompareOrder (remote_addr v1) (remote_addr v2) in
  if negb (r =? 0) then r else BAddr_CompareOrder (local_addr v1) (local_addr v2).

Notation ptr := positive (only parsing).

Record UdpGwClient_connection := Con {
  conaddr : UdpGwClient_conaddr;
  first_flags : Z; first_data : list byte;
  conid : Z;
  first_job : bool;                             (** the job is pending *)
  send_if : Flow.BufferWriter.BufferWriter
}.

Definition set_conaddr (a : UdpGwClient_conaddr) (c : UdpGwClient_connection) :=
  Con a (first_flags c) (first_data c) (conid c) (first_job c) (send_if c).
Definition set_first_job (b : bool) (c : UdpGwClient_connection) :=
  Con (conaddr c) (first_flags c) (first_data c) (conid c) b (send_if c).
Definition set_send_if (w : Flow.BufferWriter.BufferWriter) (c : UdpGwClient_connection) :=
  Con (conaddr c) (first_flags c) (first_data c) (conid c) (first_job c) w.

Record UdpGwClient := GW {
  udp_mtu : Z; max_connections : Z; send_buffer_size : Z; udpgw_mtu : Z; pp_mtu : Z;
  heap : gmap ptr UdpGwClient_connection;
  connections_tree_by_conaddr : gmap UdpGwClient_conaddr ptr;
  connections_tree_by_conid : gmap Z ptr;
  connections_list : list ptr;
  num_connections : Z; next_conid : Z;
  keepalive_sending : bool; have_server : bool
}.

Definition set_heap (h : gmap ptr UdpGwClient_connection) (o : UdpGwClient) :=
  GW (udp_mtu o) (max_connections o) (send_buffer_size o) (udpgw_mtu o) (pp_mtu o) h
     (connections_tree_by_conaddr o) (connections_tree_by_conid o) (connections_list o)
     (num_connections o) (next_conid o) (keepalive_sending o) (have_server o).
Definition set_by_conaddr (t : gmap UdpGwClient_conaddr ptr) (o : UdpGwClient) :=
  GW (udp_mtu o) (max_connections o) (send_buffer_size o) (udpgw_mtu o) (pp_mtu o) (heap o)
     t (connections_tree_by_conid o) (connections_list o)
     (num_connections o) (next_conid o) (keepalive_sending o) (have_server o).
Definition set_by_conid (t : gmap Z ptr) (o : UdpGwClient) :=
  GW (udp_mtu o) (max_connections o) (send_buffer_size o) (udpgw_mtu o) (pp_mtu o) (heap o)
     (connections_tree_by_conaddr o) t (connections_list o)
     (num_connections o) (next_conid o) (keepalive_sending o) (have_server o).
Definition set_list (l : list ptr) (o : UdpGwClient) :=
  GW (udp_mtu o) (max_connections o) (send_buffer_size o) (udpgw_mtu o) (pp_mtu o) (heap o)
     (connections_tree_by_conaddr o) (connections_tree_by_conid o) l
     (num_connections o) (next_conid o) (keepalive_sending o) (have_server o).
Definition set_num (n : Z) (o : UdpGwClient) :=
  GW (udp_mtu o) (max_connections o) (send_buffer_size o) (udpgw_mtu o) (pp_mtu o) (heap o)
     (connections_tree_by_conaddr o) (connections_tree_by_conid o) (connections_list o)
     n (next_conid o) (keepalive_sending o) (have_server o).
Definition set_next_conid (n : Z) (o : UdpGwClient) :=
  GW (udp_mtu o) (max_connections o) (send_buffer_size o) (udpgw_mtu o) (pp_mtu o) (heap o)
     (connections_tree_by_conaddr o) (connections_tree_by_conid o) (connections_list o)
     (num_connections o) n (keepalive_sending o) (have_server o).
Definition set_keepalive (b : bool) (o : UdpGwClient) :=
  GW (udp_mtu o) (max_connections o) (send_buffer_size o) (udpgw_mtu o) (pp_mtu o) (heap o)
     (connections_tree_by_conaddr o) (connections_tree_by_conid o) (connections_list o)
     (num_connections o) (next_conid o) b (have_server o).
Definition set_have_server (b : bool) (o : UdpGwClient) :=
  GW (udp_mtu o) (max_connections o) (send_buffer_size o) (udpgw_mtu o) (pp_mtu o) (heap o)
     (connections_tree_by_conaddr o) (connections_tree_by_conid o) (connections_list o)
     (num_connections o) (next_conid o) (keepalive_sending o) b.

(** What the client does to its surroundings. *)
Inductive action :=
| Submit (con : ptr) (packet : list byte)         (** into the connection's send buffer *)
| Received (local remote : BAddr) (data : list byte)
| Recv_Done | Servererror
| Keepalive_Send (packet : list byte)
| Server_Start | Server_Free | Connection_Free (con : ptr) | Queue_Free.

(** [BAVL_Insert] leaves a tree that has the key alone. *)
Definition BAVL_Insert `{Countable K} (k : K) (p : ptr) (t : gmap K ptr) : gmap K ptr :=
  match t !! k with Some _ => t | None => <[k := p]> t end.

Definition LinkedList1_Remove (p : ptr) (l : list ptr) : list ptr := filter (fun q => q <> p) l.
Definition LinkedList1_Append (p : ptr) (l : list ptr) : list ptr := l ++ [p].

(** ** Operations *)

Definition free_server (o : UdpGwClient) : list action := [Server_Free].

Definition decoder_handler_error (o : UdpGwClient) : UdpGwClient * list action := (o, [Servererror]).

Definition keepalive_packet : list byte :=
  store_le16 sizeof_udpgw_header ++ [z2b UDPGW_CLIENT_FLAG_KEEPALIVE; x00; x00].

Definition send_monitor_handler (o : UdpGwClient) : UdpGwClient * list action :=
  if keepalive_sending o then (o, []) else (set_keepalive true o, [Keepalive_Send keepalive_packet]).

Definition keepalive_if_handler_done (o : UdpGwClient) : UdpGwClient * list action :=
  (set_keepalive false o, []).

Definition find_connection_by_conaddr (o : UdpGwClient) (a : UdpGwClient_conaddr) : option ptr :=
  connections_tree_by_conaddr o !! a.
Definition find_connection_by_conid (o : UdpGwClient) (id : Z) : option ptr :=
  connections_tree_by_conid o !! u16 id.

(** The loop of [find_unused_conid]; [None] if it is still running after [fuel]
    iterations. *)
Fixpoint find_unused_conid (fuel : nat) (o : UdpGwClient) : option (Z * UdpGwClient) :=
  match fuel with
  | O => None
  | S fuel' =>
      match find_connection_by_conid o (next_conid o) with
      | None => Some (u16 (next_conid o), o)
      | Some _ =>
          find_unused_conid fuel'
            (if next_conid o =? max_connections o - 1 then set_next_conid 0 o
             else set_next_conid (next_conid o + 1) o)
      end
  end.

(** One iteration per connection is enough. *)
Definition conid_fuel (o : UdpGwClient) : nat := Z.to_nat (max_connections o).

Definition connection_init (o : UdpGwClient) (a : UdpGwClient_conaddr) (flags : Z) (data : list byte)
    (malloc : option ptr) (flow_ok : bool) : option UdpGwClient :=
  match malloc with
  | None => Some o
  | Some p =>
      match find_unused_conid (conid_fuel o) o with
      | None => None
      | Some (id, o) =>
          if negb flow_ok then Some o else
          let con := Con a flags data id true Flow.BufferWriter.BufferWriter_Init in
          let o := set_heap (<[p := con]> (heap o)) o in
          let o := set_by_conaddr (BAVL_Insert a p (connections_tree_by_conaddr o)) o in
          let o := set_by_conid (BAVL_Insert id p (connections_tree_by_conid o)) o in
          let o := set_list (LinkedList1_Append p (connections_list o)) o in
          Some (set_num (num_connections o + 1) o)
      end
  end.

Definition connection_free (p : ptr) (o : UdpGwClient) : UdpGwClient * list action :=
  match heap o !! p with
  | None => (o, [])
  | Some con =>
      let o := set_num (num_connections o - 1) o in
      let o := set_list (LinkedList1_Remove p (connections_list o)) o in
      let o := set_by_conid (delete (conid con) (connections_tree_by_conid o)) o in
      let o := set_by_conaddr (delete (conaddr con) (connections_tree_by_conaddr o)) o in
      (set_heap (delete p (heap o)) o, [Connection_Free p])
  end.

Definition addr_bytes (a : BAddr) : list byte :=
  match a with
  | BAddr_IPv4 ip port => store_le32 ip ++ store_le16 port
  | BAddr_IPv6 ip port => ip ++ store_le16 port
  | BAddr_None => []
  end.

(** The bytes [connection_send] writes: header, address, data. *)
Definition udpgw_packet (con : UdpGwClient_connection) (flags : Z) (data : list byte) : list byte :=
  let flags := match remote_addr (conaddr con) with
               | BAddr_IPv6 _ _ => Z.lor flags UDPGW_CLIENT_FLAG_IPV6 | _ => flags end in
  ([z2b (ltoh8 flags)] ++ store_le16 (ltoh16 (conid con))) ++ addr_bytes (remote_addr (conaddr con)) ++ data.

Definition connection_send (p : ptr) (flags : Z) (data : list byte) (o : UdpGwClient)
    : UdpGwClient * list action :=
  match heap o !! p with
  | None => (o, [])
  | Some con =>
      match Flow.BufferWriter.BufferWriter_StartPacket (send_if con) with
      | None => (o, [])
      | Some _ =>
          let packet := udpgw_packet con flags data in
          let w := fst (Flow.BufferWriter.BufferWriter_EndPacket (send_if con) (zlen packet)) in
          (set_heap (<[p := set_send_if w con]> (heap o)) o, [Submit p packet])
      end
  end.

Definition connection_first_job_handler (p : ptr) (o : UdpGwClient) : UdpGwClient * list action :=
  match heap o !! p with
  | None => (o, [])
  | Some con =>
      let o := set_heap (<[p := set_first_job false con]> (heap o)) o in
      connection_send p (Z.lor UDPGW_CLIENT_FLAG_REBIND (first_flags con)) (first_data con) o
  end.

Definition reuse_connection (o : UdpGwClient) (a : UdpGwClient_conaddr) : option (ptr * UdpGwClient) :=
  match connections_list o with
  | [] => None
  | p :: _ =>
      match heap o !! p with
      | None => None
      | Some con =>
          let o := set_by_conaddr (delete (conaddr con) (connections_tree_by_conaddr o)) o in
          let o := set_heap (<[p := set_conaddr a con]> (heap o)) o in
          Some (p, set_by_conaddr (BAVL_Insert a p (connections_tree_by_conaddr o)) o)
      end
  end.

Definition touch (p : ptr) (o : UdpGwClient) : UdpGwClient :=
  set_list (LinkedList1_Append p (LinkedList1_Remove p (connections_list o))) o.

Definition parse_addr (flags : Z) (data : list byte) : option (BAddr * list byte) :=
  if negb (Z.land flags UDPGW_CLIENT_FLAG_IPV6 =? 0) then
    if zlen data <? sizeof_udpgw_addr_ipv6 then None
    else Some (BAddr_IPv6 (slice 0 16 data) (load_le16 (drop 16 data)), drop 18 data)
  else
    if zlen data <? sizeof_udpgw_addr_ipv4 then None
    else Some (BAddr_IPv4 (load_le32 data) (load_le16 (drop 4 data)), drop 6 data).

Definition recv_interface_handler_send (o : UdpGwClient) (data : list byte) : UdpGwClient * list action :=
  let drop_packet := (o, [Recv_Done]) in
  if zlen data <? sizeof_udpgw_header then drop_packet else
  let flags := ltoh8 (b2z (data !!! 0%nat)) in
  let id := ltoh16 (load_le16 (drop 1 data)) in
  match parse_addr flags (drop 3 data) with
  | None => drop_packet
  | Some (remote, data) =>
      if udp_mtu o <? zlen data then drop_packet else
      match find_connection_by_conid o id with
      | None => drop_packet
      | Some p =>
          match heap o !! p with
          | None => drop_packet
          | Some con =>
              if negb (BAddr_CompareOrder (remote_addr (conaddr con)) remote =? 0) then drop_packet else
              (touch p o, [Recv_Done; Received (local_addr (conaddr con)) (remote_addr (conaddr con)) data])
          end
      end
  end.

(** [queue_ok] is the result of [PacketPassFairQueue_Init]. *)
Definition UdpGwClient_Init (mtu max size : Z) (queue_ok : bool) : option UdpGwClient :=
  let max := if 65535 + 1 <? max then 65535 + 1 else max in
  let gw := udpgw_compute_mtu mtu in
  if queue_ok then
    Some (GW mtu max size gw (gw + sizeof_packetproto_header) ∅ ∅ ∅ [] 0 0 false false)
  else None.

Fixpoint free_connections (fuel : nat) (o : UdpGwClient) : UdpGwClient * list action :=
  match fuel, connections_list o with
  | S fuel', p :: _ =>
      let '(o, l1) := connection_free p o in
      let '(o, l2) := free_connections fuel' o in (o, l1 ++ l2)
  | _, _ => (o, [])
  end.

Definition UdpGwClient_Free (o : UdpGwClient) : UdpGwClient * list action :=
  let '(o, l) := free_connections (length (connections_list o)) o in
  (o, l ++ (if have_server o then free_server o else []) ++ [Queue_Free]).

Definition UdpGwClient_SubmitPacket (o : UdpGwClient) (local remote : BAddr) (is_dns : bool)
    (data : list byte) (malloc : option ptr) (flow_ok : bool) : option (UdpGwClient * list action) :=
  let a := Conaddr local remote in
  let flags := if is_dns then Z.lor 0 UDPGW_CLIENT_FLAG_DNS else 0 in
  match find_connection_by_conaddr o a with
  | Some p => Some (connection_send p flags data (touch p o))
  | None =>
      if num_connections o =? max_connections o then
        match reuse_connection o a with
        | None => None
        | Some (p, o) => Some (connection_send p (Z.lor flags UDPGW_CLIENT_FLAG_REBIND) data (touch p o))
        end
      else
        match connection_init o a flags data malloc flow_ok with
        | None => None
        | Some o => Some (o, [])
        end
  end.

(** [decoder_ok] is the result of [PacketProtoDecoder_Init]. *)
Definition UdpGwClient_ConnectServer (o : UdpGwClient) (decoder_ok : bool) : option (UdpGwClient * list action) :=
  if decoder_ok then Some (set_have_server true o, [Server_Start]) else None.

Definition UdpGwClient_DisconnectServer (o : UdpGwClient) : UdpGwClient * list action :=
  (set_have_server false o, free_server o).

(** ** Well-formed tables *)

Definition addr_usable (a : BAddr) : Prop := BAddr_ok a /\ BAddr_IsInvalid a = false.
Definition conaddr_ok (a : UdpGwClient_conaddr) : Prop :=
  addr_usable (local_addr a) /\ addr_usable (remote_addr a).

Record WF (o : UdpGwClient) : Prop := {
  wf_nodup : NoDup (connections_list o);
  wf_heap : forall p, p ∈ connections_list o <-> is_Some (heap o !! p);
  wf_conid : forall id p, connections_tree_by_conid o !! id = Some p <->
                          exists c, heap o !! p = Some c /\ conid c = id;
  wf_conaddr : forall a p, connections_tree_by_conaddr o !! a = Some p <->
                           exists c, heap o !! p = Some c /\ conaddr c = a;
  wf_num : num_connections o = zlen (connections_list o);
  wf_max : 0 < max_connections o <= 65536;
  wf_le : num_connections o <= max_connections o;
  wf_ids : forall p c, heap o !! p = Some c -> 0 <= conid c < max_connections o;
  wf_next : 0 <= next_conid o < max_connections o;
  wf_addrs : forall p c, heap o !! p = Some c -> conaddr_ok (conaddr c)
}.

(** *** Allocating a connection id *)

Definition next_of (o : UdpGwClient) : Z :=
  if next_conid o =? max_connections o - 1 then 0 else next_conid o + 1.

Lemma next_of_range o : 0 <= next_conid o < max_connections o -> 0 <= next_of o < max_connections o.
Proof. intros H. unfold next_of. destruct (Z.eqb_spec (next_conid o) (max_connections o - 1)); lia. Qed.

Lemma next_of_mod o i :
  0 <= next_conid o < max_connections o -> 
  (next_of o + i) mod max_connections o = (next_conid o + (i + 1)) mod max_connections o.
Proof.
  intros H. unfold next_of. destruct (Z.eqb_spec (next_conid o) (max_connections o - 1)) as [E|]; [|f_equal; lia].
  rewrite E. replace (max_connections o - 1 + (i + 1)) with (0 + i + 1 * max_connections o) by lia.
  rewrite Z.mod_add by lia. done.
Qed.

Lemma find_unused_step fuel o :
  find_unused_conid (S fuel) o =
  match find_connection_by_conid o (next_conid o) with
  | None => Some (u16 (next_conid o), o)
  | Some _ => find_unused_conid fuel (set_next_conid (next_of o) o)
  end.
Proof. cbn [find_unused_conid]. unfold next_of. destruct (find_connection_by_conid _ _); [|done]. destruct (_ =? _); done. Qed.

Lemma find_unused_result fuel : forall o,
  max_connections o <= 65536 -> 0 <= next_conid o < max_connections o ->
  match find_unused_conid fuel o with
  | Some (n, o') => o' = set_next_conid n o /\ 0 <= n < max_connections o /\ connections_tree_by_conid o !! n = None
  | None => forall i, 0 <= i < Z.of_nat fuel ->
              is_Some (connections_tree_by_conid o !! ((next_conid o + i) mod max_connections o))
  end.
Proof.
  induction fuel as [|fuel IH]; intros o Hmax Hn; [cbn; lia|].
  rewrite find_unused_step. unfold find_connection_by_conid. rewrite u16_id by lia.
  destruct (connections_tree_by_conid o !! next_conid o) as [p|] eqn:E.
  2: { split; [destruct o; done|]. done. }
  specialize (IH (set_next_conid (next_of o) o) Hmax (next_of_range o Hn)).
  destruct (find_unused_conid fuel _) as [[n o']|].
  - destruct IH as (-> & H1 & H2). split; [destruct o; done|]. done.
  - intros i Hi. destruct (decide (i = 0)) as [->|Hi0].
    + rewrite Z.add_0_r, Z.mod_small by done. eauto.
    + specialize (IH (i - 1) ltac:(lia)). cbn [next_conid set_next_conid max_connections connections_tree_by_conid] in IH.
      rewrite next_of_mod in IH by done. replace (i - 1 + 1) with i in IH by lia. exact IH.
Qed.

(** The ids in use are as many as the connections. *)
Lemma ids_bounded o (n : Z) :
  WF o -> 0 <= n -> (forall i, 0 <= i < n -> is_Some (connections_tree_by_conid o !! i)) -> n <= num_connections o.
Proof.
  intros W Hn Hall. rewrite (wf_num _ W).
  set (f := fun i => default 1%positive (connections_tree_by_conid o !! i)).
  assert (f <$> seqZ 0 n ⊆+ connections_list o) as Hsub.
  { apply NoDup_submseteq.
    - apply NoDup_fmap_2_strong; [|apply NoDup_seqZ]. intros i j Hi Hj Hf.
      apply elem_of_seqZ in Hi, Hj.
      destruct (Hall i ltac:(lia)) as [p Hp], (Hall j ltac:(lia)) as [q Hq]. unfold f in Hf. rewrite Hp, Hq in Hf. cbn in Hf. subst q.
      apply (wf_conid _ W) in Hp as (c & Hc & Hid). apply (wf_conid _ W) in Hq as (c' & Hc' & Hid'). congruence.
    - intros p Hp. apply list_elem_of_fmap in Hp as (i & -> & Hi). apply elem_of_seqZ in Hi.
      destruct (Hall i ltac:(lia)) as [p Hp]. unfold f. rewrite Hp. cbn.
      apply (wf_heap _ W). apply (wf_conid _ W) in Hp as (c & Hc & _). eauto. }
  apply submseteq_length in Hsub. rewrite length_fmap, length_seqZ in Hsub. unfold zlen. lia.
Qed.

Lemma find_unused_total o :
  WF o -> num_connections o < max_connections o ->
  exists n, find_unused_conid (conid_fuel o) o = Some (n, set_next_conid n o) /\
            0 <= n < max_connections o /\ connections_tree_by_conid o !! n = None.
Proof.
  intros W Hlt. pose proof (wf_max _ W). pose proof (wf_next _ W) as Hnext.
  pose proof (find_unused_result (conid_fuel o) o ltac:(lia) Hnext) as H'.
  destruct (find_unused_conid _ o) as [[n o']|]; [destruct H' as (-> & H1 & H2); eauto|].
  exfalso. assert (max_connections o <= num_connections o); [|lia].
  apply (ids_bounded o); [done|lia|]. intros i Hi.
  pose proof (Z.mod_pos_bound (i - next_conid o) (max_connections o) ltac:(lia)).
  specialize (H' ((i - next_conid o) mod max_connections o) ltac:(unfold conid_fuel; lia)).
  rewrite Zplus_mod_idemp_r in H'. replace (next_conid o + (i - next_conid o)) with i in H' by lia.
  rewrite Z.mod_small in H' by lia. exact H'.
Qed.

(** *** The operations keep the tables well-formed *)

Lemma elem_of_touch p q l : q ∈ LinkedList1_Append p (LinkedList1_Remove p l) <-> q = p \/ q ∈ l.
Proof.
  unfold LinkedList1_Append, LinkedList1_Remove. rewrite elem_of_app, list_elem_of_singleton, list_elem_of_filter.
  destruct (decide (q = p)); naive_solver.
Qed.

Lemma NoDup_remove p (l : list ptr) : NoDup l -> NoDup (LinkedList1_Remove p l).
Proof. apply NoDup_filter. Qed.

Lemma NoDup_touch p l : NoDup l -> NoDup (LinkedList1_Append p (LinkedList1_Remove p l)).
Proof.
  intros H. unfold LinkedList1_Append. apply NoDup_app. split; [apply NoDup_remove, H|].
  split; [|apply NoDup_singleton]. intros x Hx. unfold LinkedList1_Remove in Hx.
  apply list_elem_of_filter in Hx as [Hx _]. rewrite list_elem_of_singleton. done.
Qed.

Lemma zlen_remove p (l : list ptr) : NoDup l -> p ∈ l -> zlen (LinkedList1_Remove p l) = zlen l - 1.
Proof.
  intros Hnd Hp. apply list_elem_of_split in Hp as (l1 & l2 & ->). unfold LinkedList1_Remove.
  apply NoDup_app in Hnd as (_ & Hd & Hnd2). apply NoDup_cons in Hnd2 as [Hn2 _].
  assert (forall l : list ptr, (forall x, x ∈ l -> x <> p) -> filter (fun q => q <> p) l = l) as Hid.
  { intros l Hl. induction l as [|x l IH]; [done|]. rewrite filter_cons, decide_True by (apply Hl; set_solver).
    f_equal. apply IH. set_solver. }
  rewrite filter_app, filter_cons, decide_False by naive_solver.
  rewrite (Hid l1), (Hid l2).
  - rewrite !zlen_app, zlen_cons. lia.
  - intros x Hx ->. done.
  - intros x Hx ->. apply (Hd p Hx). left.
Qed.

Lemma WF_touch p o : WF o -> p ∈ connections_list o -> WF (touch p o).
Proof.
  intros W Hp. destruct W. split; cbn; try done.
  - apply NoDup_touch; done.
  - intros q. rewrite elem_of_touch, <- wf_heap0. naive_solver.
  - unfold LinkedList1_Append. rewrite zlen_app, zlen_remove by done. change (zlen [p]) with 1. lia.
Qed.

Lemma WF_update p c c' o :
  WF o -> heap o !! p = Some c -> conid c' = conid c -> conaddr c' = conaddr c ->
  WF (set_heap (<[p := c']> (heap o)) o).
Proof.
  intros W Hc Hid Ha. destruct W.
  assert (forall q (P : UdpGwClient_connection -> Prop), (P c' <-> P c) ->
    ((exists x, <[p := c']> (heap o) !! q = Some x /\ P x) <-> exists x, heap o !! q = Some x /\ P x)) as Hex.
  { intros q P HP. destruct (decide (q = p)) as [->|Hq].
    - rewrite lookup_insert_eq, Hc. split; intros (x & [= <-] & Hx); eexists; (split; [done|]); tauto.
    - rewrite lookup_insert_ne by done. done. }
  split; cbn; try done.
  - intros q. rewrite wf_heap0. destruct (decide (q = p)) as [->|Hq];
      [rewrite lookup_insert_eq, Hc|rewrite lookup_insert_ne by done]; split; eauto.
  - intros id q. rewrite wf_conid0. symmetry. apply Hex. rewrite Hid. done.
  - intros a q. rewrite wf_conaddr0. symmetry. apply Hex. rewrite Ha. done.
  - intros q x. destruct (decide (q = p)) as [->|Hq].
    + rewrite lookup_insert_eq. intros [= <-]. rewrite Hid. eauto.
    + rewrite lookup_insert_ne by done. eauto.
  - intros q x. destruct (decide (q = p)) as [->|Hq].
    + rewrite lookup_insert_eq. intros [= <-]. rewrite Ha. eauto.
    + rewrite lookup_insert_ne by done. eauto.
Qed.

Lemma WF_connection_send p f d o : WF o -> WF (fst (connection_send p f d o)).
Proof.
  intros W. unfold connection_send. destruct (heap o !! p) as [c|] eqn:E; [|done].
  destruct (Flow.BufferWriter.BufferWriter_StartPacket _); [|done]. cbn [fst]. eapply WF_update; eauto.
Qed.

Lemma WF_first_job p o : WF o -> WF (fst (connection_first_job_handler p o)).
Proof.
  intros W. unfold connection_first_job_handler. destruct (heap o !! p) as [c|] eqn:E; [|done].
  apply WF_connection_send. eapply WF_update; eauto.
Qed.

Lemma WF_next n o : WF o -> 0 <= n < max_connections o -> WF (set_next_conid n o).
Proof. intros W Hn. destruct W. split; done. Qed.

(** A new connection with addresses and an id that are not in use. *)
Lemma WF_insert p c o :
  WF o -> heap o !! p = None -> connections_tree_by_conaddr o !! conaddr c = None ->
  connections_tree_by_conid o !! conid c = None -> 0 <= conid c < max_connections o ->
  num_connections o < max_connections o -> conaddr_ok (conaddr c) ->
  WF (GW (udp_mtu o) (max_connections o) (send_buffer_size o) (udpgw_mtu o) (pp_mtu o)
     (<[p := c]> (heap o)) (<[conaddr c := p]> (connections_tree_by_conaddr o))
     (<[conid c := p]> (connections_tree_by_conid o)) (connections_list o ++ [p])
     (num_connections o + 1) (next_conid o) (keepalive_sending o) (have_server o)).
Proof.
  intros W Hp Ha Hid Hr Hlt Hok. destruct W.
  assert (p ∉ connections_list o) as Hnp by (rewrite wf_heap0, Hp; intros [? ?]; done).
  split; cbn; try done.
  - apply NoDup_app. split; [done|]. split; [|apply NoDup_singleton].
    intros x Hx. rewrite list_elem_of_singleton. congruence.
  - intros q. rewrite elem_of_app, list_elem_of_singleton, wf_heap0. destruct (decide (q = p)) as [->|Hq].
    + rewrite lookup_insert_eq. naive_solver.
    + rewrite lookup_insert_ne by done. naive_solver.
  - intros id q. destruct (decide (q = p)) as [->|Hq].
    + rewrite lookup_insert_eq. destruct (decide (id = conid c)) as [->|Hi].
      * rewrite lookup_insert_eq. naive_solver.
      * rewrite lookup_insert_ne by done. rewrite wf_conid0, Hp. naive_solver.
    + rewrite (lookup_insert_ne (heap o)) by done. rewrite <- wf_conid0. destruct (decide (id = conid c)) as [->|Hi].
      * rewrite lookup_insert_eq, Hid. naive_solver.
      * rewrite lookup_insert_ne by done. done.
  - intros a q. destruct (decide (q = p)) as [->|Hq].
    + rewrite lookup_insert_eq. destruct (decide (a = conaddr c)) as [->|Hi].
      * rewrite lookup_insert_eq. naive_solver.
      * rewrite lookup_insert_ne by done. rewrite wf_conaddr0, Hp. naive_solver.
    + rewrite (lookup_insert_ne (heap o)) by done. rewrite <- wf_conaddr0. destruct (decide (a = conaddr c)) as [->|Hi].
      * rewrite lookup_insert_eq, Ha. naive_solver.
      * rewrite lookup_insert_ne by done. done.
  - rewrite zlen_app. change (zlen [p]) with 1. lia.
  - lia.
  - intros q x. destruct (decide (q = p)) as [->|Hq].
    + rewrite lookup_insert_eq. intros [= <-]. done.
    + rewrite lookup_insert_ne by done. eauto.
  - intros q x. destruct (decide (q = p)) as [->|Hq].
    + rewrite lookup_insert_eq. intros [= <-]. done.
    + rewrite lookup_insert_ne by done. eauto.
Qed.

Lemma BAVL_Insert_new `{Countable K} (k : K) p t : t !! k = None -> BAVL_Insert k p t = <[k := p]> t.
Proof. intros E. unfold BAVL_Insert. rewrite E. done. Qed.

(** The connection [connection_init] builds. *)
Definition new_connection (a : UdpGwClient_conaddr) (flags : Z) (data : list byte) (id : Z) : UdpGwClient_connection :=
  Con a flags data id true Flow.BufferWriter.BufferWriter_Init.

Lemma connection_init_spec o a flags data p :
  WF o -> conaddr_ok a -> num_connections o < max_connections o ->
  connections_tree_by_conaddr o !! a = None -> heap o !! p = None ->
  exists id, 0 <= id < max_connections o /\ connections_tree_by_conid o !! id = None /\
    connection_init o a flags data (Some p) false = Some (set_next_conid id o) /\
    exists o', connection_init o a flags data (Some p) true = Some o' /\ WF o' /\
      heap o' = <[p := new_connection a flags data id]> (heap o) /\
      connections_list o' = connections_list o ++ [p] /\ max_connections o' = max_connections o.
Proof.
  intros W Hok Hlt Ha Hp. destruct (find_unused_total o W Hlt) as (id & Hf & Hid & Hnone). exists id.
  split; [done|]. split; [done|]. unfold connection_init. rewrite Hf. cbn [negb]. split; [done|].
  eexists. split; [reflexivity|]. split; [|done].
  cbn [connections_tree_by_conaddr connections_tree_by_conid set_heap set_next_conid set_by_conaddr set_by_conid].
  rewrite !BAVL_Insert_new by done.
  apply (WF_insert p (new_connection a flags data id) (set_next_conid id o)); try done. apply WF_next; done.
Qed.

Lemma WF_nonempty o : WF o -> num_connections o = max_connections o ->
  exists p l c, connections_list o = p :: l /\ heap o !! p = Some c.
Proof.
  intros W E. pose proof (wf_max _ W). pose proof (wf_num _ W) as Hn.
  destruct (connections_list o) as [|p l] eqn:El; [rewrite zlen_nil in Hn; lia|].
  assert (p ∈ connections_list o) as Hp by (rewrite El; left). apply (wf_heap _ W) in Hp as [c Hc]. eauto.
Qed.

(** Recycling: the first connection of the list gets the new addresses and keeps
    its id; all others are as they were. *)
Lemma reuse_spec o a p l c :
  WF o -> conaddr_ok a -> connections_list o = p :: l -> heap o !! p = Some c ->
  connections_tree_by_conaddr o !! a = None ->
  exists o', reuse_connection o a = Some (p, o') /\ WF o' /\
    heap o' = <[p := set_conaddr a c]> (heap o) /\ connections_list o' = connections_list o /\
    max_connections o' = max_connections o /\ num_connections o' = num_connections o.
Proof.
  intros W Hok Hl Hc Ha. unfold reuse_connection. rewrite Hl, Hc. eexists. split; [reflexivity|].
  cbn [connections_tree_by_conaddr set_by_conaddr set_heap]. rewrite BAVL_Insert_new.
  2: { rewrite lookup_delete_None. auto. }
  split; [|done]. pose proof (proj2 (wf_conaddr _ W (conaddr c) p) (ex_intro _ c (conj Hc eq_refl))) as Hca.
  destruct W. split; cbn; try done.
  - intros q. rewrite wf_heap0. destruct (decide (q = p)) as [->|Hq];
      [rewrite lookup_insert_eq, Hc|rewrite lookup_insert_ne by done]; split; eauto.
  - intros id q. rewrite wf_conid0. destruct (decide (q = p)) as [->|Hq].
    + rewrite lookup_insert_eq, Hc. naive_solver.
    + rewrite lookup_insert_ne by done. done.
  - intros a' q. destruct (decide (a' = a)) as [->|Haa].
    + rewrite lookup_insert_eq. destruct (decide (q = p)) as [->|Hq].
      * rewrite lookup_insert_eq. naive_solver.
      * rewrite lookup_insert_ne by done. rewrite <- wf_conaddr0, Ha. naive_solver.
    + rewrite (lookup_insert_ne _ a a') by done. destruct (decide (a' = conaddr c)) as [->|Hac].
      * rewrite lookup_delete_eq. destruct (decide (q = p)) as [->|Hq].
        -- rewrite lookup_insert_eq. naive_solver.
        -- rewrite lookup_insert_ne by done. rewrite <- wf_conaddr0, Hca. naive_solver.
      * rewrite lookup_delete_ne by done. rewrite wf_conaddr0. destruct (decide (q = p)) as [->|Hq].
        -- rewrite lookup_insert_eq, Hc. naive_solver.
        -- rewrite lookup_insert_ne by done. done.
  - intros q x. destruct (decide (q = p)) as [->|Hq].
    + rewrite lookup_insert_eq. intros [= <-]. cbn. eauto.
    + rewrite lookup_insert_ne by done. eauto.
  - intros q x. destruct (decide (q = p)) as [->|Hq].
    + rewrite lookup_insert_eq. intros [= <-]. done.
    + rewrite lookup_insert_ne by done. eauto.
Qed.

Lemma connection_free_WF p c o :
  WF o -> heap o !! p = Some c -> WF (fst (connection_free p o)) /\
    connections_list (fst (connection_free p o)) = LinkedList1_Remove p (connections_list o) /\
    heap (fst (connection_free p o)) = delete p (heap o).
Proof.
  intros W Hc. assert (p ∈ connections_list o) as Hp by (apply (wf_heap _ W); eauto).
  unfold connection_free. rewrite Hc. split; [|done]. destruct W. split; cbn; try done; try lia.
  - apply NoDup_remove. done.
  - intros q. unfold LinkedList1_Remove. rewrite list_elem_of_filter, wf_heap0. destruct (decide (q = p)) as [->|Hq].
    + rewrite lookup_delete_eq. split; [tauto|]. intros [? ?]; done.
    + rewrite lookup_delete_ne by done. tauto.
  - intros id q. destruct (decide (q = p)) as [->|Hq].
    + rewrite lookup_delete_eq. split; [|naive_solver]. intros H. apply lookup_delete_Some in H as [Hne H].
      apply wf_conid0 in H as (x & Hx & <-). congruence.
    + rewrite (lookup_delete_ne (heap o)) by done. rewrite <- wf_conid0, lookup_delete_Some. split; [tauto|].
      intros H. split; [|done]. intros <-. assert (connections_tree_by_conid o !! conid c = Some p) by (apply wf_conid0; eauto). congruence.
  - intros a q. destruct (decide (q = p)) as [->|Hq].
    + rewrite lookup_delete_eq. split; [|naive_solver]. intros H. apply lookup_delete_Some in H as [Hne H].
      apply wf_conaddr0 in H as (x & Hx & <-). congruence.
    + rewrite (lookup_delete_ne (heap o)) by done. rewrite <- wf_conaddr0, lookup_delete_Some. split; [tauto|].
      intros H. split; [|done]. intros <-. assert (connections_tree_by_conaddr o !! conaddr c = Some p) by (apply wf_conaddr0; eauto). congruence.
  - fold (LinkedList1_Remove p (connections_list o)). rewrite zlen_remove by done. lia.
  - intros q x Hx. apply lookup_delete_Some in Hx as [_ Hx]. eauto.
  - intros q x Hx. apply lookup_delete_Some in Hx as [_ Hx]. eauto.
Qed.

(** Every connection is freed, once, and nothing is left. *)
Lemma free_connections_spec fuel : forall o,
  WF o -> length (connections_list o) = fuel ->
  heap (fst (free_connections fuel o)) = ∅ /\ connections_list (fst (free_connections fuel o)) = [] /\
  num_connections (fst (free_connections fuel o)) = 0 /\
  have_server (fst (free_connections fuel o)) = have_server o /\
  snd (free_connections fuel o) = map Connection_Free (connections_list o).
Proof.
  induction fuel as [|fuel IH]; intros o W Hl.
  - destruct (connections_list o) as [|] eqn:E; [|done]. cbn. rewrite E. split_and!; try done.
    + apply map_eq. intros p. rewrite lookup_empty. destruct (heap o !! p) eqn:Hp; [|done].
      assert (p ∈ connections_list o) as Hin by (apply (wf_heap _ W); eauto). rewrite E in Hin. set_solver.
    + rewrite (wf_num _ W), E. done.
  - destruct (connections_list o) as [|p l] eqn:E; [done|]. cbn [free_connections]. rewrite E.
    assert (p ∈ connections_list o) as Hp by (rewrite E; left). apply (wf_heap _ W) in Hp as [c Hc].
    destruct (connection_free_WF p c o W Hc) as (W' & Hl' & _).
    assert (LinkedList1_Remove p (connections_list o) = l) as Hrem.
    { pose proof (wf_nodup _ W) as Hnd. rewrite E in Hnd |- *. apply NoDup_cons in Hnd as [Hn _].
      unfold LinkedList1_Remove. rewrite filter_cons, decide_False by naive_solver.
      clear -Hn. induction l as [|x l IH]; [done|]. rewrite filter_cons, decide_True by set_solver. f_equal. apply IH. set_solver. }
    rewrite Hrem in Hl'.
    assert (snd (connection_free p o) = [Connection_Free p] /\ have_server (fst (connection_free p o)) = have_server o) as [Hs Hh]
      by (unfold connection_free; rewrite Hc; done).
    destruct (connection_free p o) as [o1 l1]. cbn [fst snd] in *. subst l1.
    destruct (IH o1 W') as (I1 & I2 & I3 & I4 & I5); [rewrite Hl'; cbn in Hl; lia|].
    destruct (free_connections fuel o1) as [o2 l2]. cbn [fst snd] in *. rewrite I5, Hl', I4, Hh. split_and!; done.
Qed.

(** ** The messages *)

Definition is_ipv6 (a : BAddr) : bool := match a with BAddr_IPv6 _ _ => true | _ => false end.

Lemma load_store_le16 x r : 0 <= x < 2 ^ 16 -> load_le16 (store_le16 x ++ r) = x.
Proof.
  intros H. change (load_le16 (store_le16 x ++ r)) with (le_load (le_store 2 x)).
  rewrite le_load_store. apply Z.mod_small. exact H.
Qed.

Lemma load_store_le32 x r : 0 <= x < 2 ^ 32 -> load_le32 (store_le32 x ++ r) = x.
Proof.
  intros H. change (load_le32 (store_le32 x ++ r)) with (le_load (le_store 4 x)).
  rewrite le_load_store. apply Z.mod_small. exact H.
Qed.

Lemma store_load_le16 a b : store_le16 (load_le16 [a; b]) = [a; b].
Proof. apply (le_store_load [a; b]). Qed.

Lemma parse_addr_spec flags a d :
  addr_usable a -> negb (Z.land flags UDPGW_CLIENT_FLAG_IPV6 =? 0) = is_ipv6 a ->
  parse_addr flags (addr_bytes a ++ d) = Some (a, d).
Proof.
  intros [Hok Hv] Hf. unfold parse_addr. rewrite Hf. pose proof (zlen_nonneg d).
  destruct a as [|ip port|ip port]; [done| |]; cbn [is_ipv6 addr_bytes]; destruct Hok as [H1 H2].
  - assert (zlen ((store_le32 ip ++ store_le16 port) ++ d) = 6 + zlen d) as Hl by (rewrite zlen_app; done).
    rewrite Hl. destruct (Z.ltb_spec (6 + zlen d) sizeof_udpgw_addr_ipv4) as [Hc|_]; [unfold sizeof_udpgw_addr_ipv4 in Hc; lia|].
    do 2 f_equal. rewrite <- app_assoc, load_store_le32 by done. f_equal. apply (load_store_le16 port d H2).
  - assert (zlen ((ip ++ store_le16 port) ++ d) = 18 + zlen d) as Hl.
    { rewrite !zlen_app. unfold zlen at 1. rewrite H1. done. }
    rewrite Hl. destruct (Z.ltb_spec (18 + zlen d) sizeof_udpgw_addr_ipv6) as [Hc|_]; [unfold sizeof_udpgw_addr_ipv6 in Hc; lia|].
    rewrite <- app_assoc. unfold slice. change (Z.to_nat 0) with 0%nat. rewrite drop_0.
    rewrite take_app_length' by (symmetry; exact H1).
    rewrite (drop_app_length' ip _ 16) by done. rewrite load_store_le16 by done. do 2 f_equal.
    replace 18%nat with (length ip + 2)%nat by lia. rewrite <- drop_drop, drop_app_length. done.
Qed.

Lemma parse_addr_inv flags data a d :
  parse_addr flags data = Some (a, d) ->
  data = addr_bytes a ++ d /\ addr_usable a /\ is_ipv6 a = negb (Z.land flags UDPGW_CLIENT_FLAG_IPV6 =? 0).
Proof.
  unfold parse_addr. destruct (negb _).
  - destruct (Z.ltb_spec (zlen data) sizeof_udpgw_addr_ipv6) as [|Hl]; [done|]. intros [= <- <-].
    unfold sizeof_udpgw_addr_ipv6, zlen in Hl. cbn [addr_bytes is_ipv6].
    assert (length (slice 0 16 data) = 16%nat) as H16 by (unfold slice; rewrite length_take, length_drop; lia).
    split; [|split; [split; [split; [exact H16|]|done]|done]].
    + unfold slice. change (Z.to_nat 16) with 16%nat. change (Z.to_nat 0) with 0%nat. rewrite drop_0.
      replace (store_le16 (load_le16 (drop 16 data))) with (take 2 (drop 16 data)).
      * rewrite <- app_assoc. change (drop 18 data) with (drop (16 + 2) data). rewrite <- drop_drop, take_drop, take_drop. done.
      * symmetry. unfold store_le16, load_le16.
        pose proof (le_store_load (take 2 (drop 16 data))) as E. rewrite length_take, length_drop, Nat.min_l in E by lia. exact E.
    + unfold load_le16. pose proof (le_load_range (take 2 (drop 16 data))) as Hr.
      unfold zlen in Hr. rewrite length_take, length_drop, Nat.min_l in Hr by lia. exact Hr.
  - destruct (Z.ltb_spec (zlen data) sizeof_udpgw_addr_ipv4) as [|Hl]; [done|]. intros [= <- <-].
    unfold sizeof_udpgw_addr_ipv4, zlen in Hl.
    destruct data as [|b0 [|b1 [|b2 [|b3 [|b4 [|b5 rest]]]]]]; try (cbn in Hl; lia). clear Hl.
    cbn [addr_bytes is_ipv6]. cbn [drop].
    change (load_le32 (b0 :: b1 :: b2 :: b3 :: b4 :: b5 :: rest)) with (le_load [b0; b1; b2; b3]).
    change (load_le16 (b4 :: b5 :: rest)) with (le_load [b4; b5]).
    split; [|split; [split; [split; [apply (le_load_range [b0; b1; b2; b3])|apply (le_load_range [b4; b5])]|done]|done]].
    pose proof (le_store_load [b0; b1; b2; b3]) as E1. pose proof (le_store_load [b4; b5]) as E2.
    cbn [length] in E1, E2. unfold store_le32, store_le16. rewrite E1, E2. done.
Qed.

(** A datagram of the gateway for connection [c] with payload [d]. *)
Definition gateway_datagram (fb : byte) (c : UdpGwClient_connection) (d : list byte) : list byte :=
  [fb] ++ store_le16 (conid c) ++ addr_bytes (remote_addr (conaddr c)) ++ d.

Definition flag_matches (fb : byte) (a : BAddr) : Prop :=
  negb (Z.land (b2z fb) UDPGW_CLIENT_FLAG_IPV6 =? 0) = is_ipv6 a.

Lemma recv_complete o p c fb d :
  WF o -> heap o !! p = Some c -> flag_matches fb (remote_addr (conaddr c)) -> zlen d <= udp_mtu o ->
  recv_interface_handler_send o (gateway_datagram fb c d) =
    (touch p o, [Recv_Done; Received (local_addr (conaddr c)) (remote_addr (conaddr c)) d]).
Proof.
  intros W Hc Hf Hd. pose proof (wf_ids _ W _ _ Hc) as Hid. pose proof (wf_max _ W).
  destruct (wf_addrs _ W _ _ Hc) as [_ Hr]. unfold recv_interface_handler_send, gateway_datagram.
  set (rest := addr_bytes _ ++ d). 
  destruct (Z.ltb_spec (zlen ([fb] ++ store_le16 (conid c) ++ rest)) sizeof_udpgw_header) as [Hlt|_].
  { rewrite !zlen_app in Hlt. change (zlen [fb]) with 1 in Hlt. change (zlen (store_le16 _)) with 2 in Hlt.
    unfold sizeof_udpgw_header in Hlt. pose proof (zlen_nonneg rest). lia. }
  change (ltoh8 (b2z (([fb] ++ store_le16 (conid c) ++ rest) !!! 0%nat))) with (b2z fb).
  change (drop 1 ([fb] ++ store_le16 (conid c) ++ rest)) with (store_le16 (conid c) ++ rest).
  change (drop 3 ([fb] ++ store_le16 (conid c) ++ rest)) with rest.
  unfold rest. rewrite parse_addr_spec by done. destruct (Z.ltb_spec (udp_mtu o) (zlen d)); [lia|].
  unfold find_connection_by_conid, ltoh16, htol16. rewrite load_store_le16, u16_id by lia.
  rewrite (proj2 (wf_conid _ W (conid c) p)) by eauto. rewrite Hc.
  rewrite (proj2 (cmp_eq (c := BAddr_CompareOrder) _ _ (proj1 Hr) (proj1 Hr))) by done. done.
Qed.

(** Nothing else is passed to the user. *)
Lemma recv_sound o data l r d :
  WF o -> Received l r d ∈ snd (recv_interface_handler_send o data) ->
  exists p c fb, heap o !! p = Some c /\ conaddr c = Conaddr l r /\ flag_matches fb r /\
    data = gateway_datagram fb c d /\ zlen d <= udp_mtu o.
Proof.
  intros W. unfold recv_interface_handler_send.
  assert (Received l r d ∉ [Recv_Done]) as Hno by set_solver.
  destruct (Z.ltb_spec (zlen data) sizeof_udpgw_header) as [|Hl]; [done|].
  destruct (parse_addr _ _) as [[ra pd]|] eqn:Hp; [|done].
  destruct (Z.ltb_spec (udp_mtu o) (zlen pd)); [done|].
  destruct (find_connection_by_conid o _) as [p|] eqn:Hi; [|done].
  destruct (heap o !! p) as [c|] eqn:Hc; [|done].
  apply parse_addr_inv in Hp as (Hdata & Hu & Hfl).
  destruct (wf_addrs _ W _ _ Hc) as [_ Hr].
  destruct (Z.eqb_spec (BAddr_CompareOrder (remote_addr (conaddr c)) ra) 0) as [E|]; [|done]. cbn [negb snd].
  apply (cmp_eq (c := BAddr_CompareOrder) _ _ (proj1 Hr) (proj1 Hu)) in E.
  intros Hin. assert (l = local_addr (conaddr c) /\ r = remote_addr (conaddr c) /\ d = pd) as (-> & -> & ->) by set_solver.
  unfold zlen, sizeof_udpgw_header in Hl. destruct data as [|fb [|i0 [|i1 rest]]]; try (cbn in Hl; lia).
  cbn [drop] in Hdata. exists p, c, fb. split; [done|]. split; [destruct (conaddr c); done|].
  split; [unfold flag_matches; rewrite E, Hfl; done|]. split; [|done].
  unfold gateway_datagram. rewrite E, <- Hdata.
  unfold find_connection_by_conid in Hi. apply (wf_conid _ W) in Hi as (c' & Hc' & Hid).
  rewrite Hc in Hc'. injection Hc' as <-.
  change (drop 1 (fb :: i0 :: i1 :: rest)) with (i0 :: i1 :: rest) in Hid.
  change (load_le16 (i0 :: i1 :: rest)) with (le_load [i0; i1]) in Hid. unfold ltoh16, htol16 in Hid.
  rewrite u16_id in Hid by apply (le_load_range [i0; i1]). rewrite Hid.
  pose proof (le_store_load [i0; i1]) as E2. cbn [length] in E2. unfold store_le16. rewrite E2. done.
Qed.

(** ** Sending *)

Lemma connection_send_spec p c f d o :
  heap o !! p = Some c ->
  exists o', connection_send p f d o =
      (o', if Flow.BufferWriter.out_have (send_if c) then [Submit p (udpgw_packet c f d)] else []) /\
    (exists c', heap o' = <[p := c']> (heap o) /\ conaddr c' = conaddr c /\ conid c' = conid c /\
                udpgw_packet c' = udpgw_packet c) /\
    connections_tree_by_conaddr o' = connections_tree_by_conaddr o /\ connections_list o' = connections_list o.
Proof.
  intros Hc. unfold connection_send, Flow.BufferWriter.BufferWriter_StartPacket. rewrite Hc.
  destruct (Flow.BufferWriter.out_have (send_if c)); eexists; (split; [reflexivity|]); (split; [|done]).
  - eexists. split; [reflexivity|]. done.
  - exists c. rewrite insert_id by done. done.
Qed.

Definition submit_flags (is_dns found : bool) : Z :=
  let flags := if is_dns then Z.lor 0 UDPGW_CLIENT_FLAG_DNS else 0 in
  if found then flags else Z.lor flags UDPGW_CLIENT_FLAG_REBIND.

(** What a submission does to connection [p], chosen for the addresses [a]. *)
Record Routed (o o' : UdpGwClient) (a : UdpGwClient_conaddr) (flags : Z) (data : list byte)
    (p : ptr) (acts : list action) : Prop := {
  rt_found : find_connection_by_conaddr o' a = Some p;
  rt_con : exists c, heap o' !! p = Some c /\ conaddr c = a /\
             forall q b, Submit q b ∈ acts -> q = p /\ b = udpgw_packet c flags data;
  rt_only : forall e, e ∈ acts -> exists q b, e = Submit q b;
  rt_frame : forall q, q <> p -> heap o' !! q = heap o !! q;
  rt_list : connections_list o' = LinkedList1_Append p (LinkedList1_Remove p (connections_list o))
}.

Lemma submit_existing o a flags data p c :
  WF o -> heap o !! p = Some c -> conaddr c = a ->
  Routed o (fst (connection_send p flags data (touch p o))) a flags data p
         (snd (connection_send p flags data (touch p o))) /\
  (Flow.BufferWriter.out_have (send_if c) = true ->
     snd (connection_send p flags data (touch p o)) = [Submit p (udpgw_packet c flags data)]).
Proof.
  intros W Hc Ha. destruct (connection_send_spec p c flags data (touch p o) Hc)
    as (o' & Hs & (c' & Hh & Hca & Hci & Hpk) & Ht & Hl).
  rewrite Hs. cbn [fst snd]. split; [|intros ->; done]. split.
  - unfold find_connection_by_conaddr. rewrite Ht. cbn. apply (wf_conaddr _ W). eauto.
  - exists c'. rewrite Hh, lookup_insert_eq. split; [done|]. split; [congruence|].
    intros q b Hin. rewrite Hpk. destruct (Flow.BufferWriter.out_have _); set_solver.
  - intros e Hin. destruct (Flow.BufferWriter.out_have _); set_solver.
  - intros q Hq. rewrite Hh, lookup_insert_ne by done. done.
  - rewrite Hl. done.
Qed.

(** The three ways a datagram is submitted: on its connection, on the recycled
    first connection of a full list, or on a new connection that sends it later. *)
Lemma submit_cases o local remote is_dns data malloc flow_ok :
  WF o -> conaddr_ok (Conaddr local remote) -> (forall p, malloc = Some p -> heap o !! p = None) ->
  let a := Conaddr local remote in
  exists o' acts, UdpGwClient_SubmitPacket o local remote is_dns data malloc flow_ok = Some (o', acts) /\ WF o' /\
    match find_connection_by_conaddr o a with
    | Some p => Routed o o' a (submit_flags is_dns true) data p acts
    | None =>
        if num_connections o =? max_connections o then
          exists p l, connections_list o = p :: l /\ Routed o o' a (submit_flags is_dns false) data p acts
        else acts = [] /\
          match malloc, flow_ok with
          | Some p, true =>
              find_connection_by_conaddr o' a = Some p /\ connections_list o' = connections_list o ++ [p] /\
              exists id, heap o' = <[p := new_connection a (submit_flags is_dns true) data id]> (heap o) /\
                connections_tree_by_conid o !! id = None
          | _, _ => heap o' = heap o /\ connections_list o' = connections_list o /\ find_connection_by_conaddr o' a = None
          end
    end.
Proof.
  intros W Hok Hm a. unfold UdpGwClient_SubmitPacket. fold a.
  destruct (find_connection_by_conaddr o a) as [p|] eqn:Hf.
  { apply (wf_conaddr _ W) in Hf as (c & Hc & Hca).
    destruct (submit_existing o a (submit_flags is_dns true) data p c W Hc Hca) as [HR _].
    eexists _, _. rewrite surjective_pairing at 1. split; [reflexivity|]. split; [|exact HR].
    apply WF_connection_send, WF_touch; [done|]. apply (wf_heap _ W). eauto. }
  destruct (Z.eqb_spec (num_connections o) (max_connections o)) as [Hn|Hn].
  { destruct (WF_nonempty o W Hn) as (p & l & c & Hl & Hc).
    destruct (reuse_spec o a p l c W Hok Hl Hc Hf) as (o1 & -> & W1 & Hh & Hl1 & _).
    assert (heap o1 !! p = Some (set_conaddr a c)) as Hc1 by (rewrite Hh; apply lookup_insert_eq).
    destruct (submit_existing o1 a (submit_flags is_dns false) data p _ W1 Hc1 eq_refl) as [[R1 R2 R3 R4 R5] _].
    eexists _, _. rewrite surjective_pairing at 1. split; [reflexivity|]. split.
    - apply WF_connection_send, WF_touch; [done|]. rewrite Hl1, Hl. left.
    - exists p, l. split; [done|]. split; [done|done|done| |etransitivity; [exact R5|rewrite Hl1; done]].
      intros q Hq. etransitivity; [exact (R4 q Hq)|]. rewrite Hh, lookup_insert_ne by done. done. }
  assert (num_connections o < max_connections o) as Hlt by (pose proof (wf_le _ W); lia).
  destruct malloc as [p|].
  2: { exists o, []. split; [done|]. split; [done|]. split; [done|]. done. }
  destruct (connection_init_spec o a (submit_flags is_dns true) data p W Hok Hlt Hf (Hm p eq_refl))
    as (id & Hid & Hnone & Hfail & o' & Hinit & W' & Hh & Hl & _).
  unfold submit_flags in Hfail, Hinit. destruct flow_ok.
  - rewrite Hinit. exists o', []. split; [done|]. split; [done|]. split; [done|]. split.
    + apply (wf_conaddr _ W'). rewrite Hh. eexists. rewrite lookup_insert_eq. split; [reflexivity|done].
    + split; [done|]. exists id. done.
  - rewrite Hfail. eexists _, []. split; [reflexivity|]. split; [apply WF_next; done|]. done.
Qed.

(** ** The client in its surroundings *)

Inductive event :=
| ESubmit (local remote : BAddr) (is_dns : bool) (data : list byte) (malloc : option ptr) (flow_ok : bool)
| EFirstJob (p : ptr)                     (** the reactor runs the connection's job *)
| EReady (p : ptr)                        (** the connection's send buffer has room *)
| ERecv (data : list byte)                (** the decoder delivers a packet *)
| EInactive | EKeepaliveDone | EConnect (decoder_ok : bool) | EDisconnect | EDecoderError.

(** [uses] is the history of connections used: those a datagram was submitted or
    received on. *)
Record sys := Sys { gw : UdpGwClient; uses : list ptr }.

Definition used (a : option ptr) : list ptr := match a with Some p => [p] | None => [] end.

Definition received_on (o : UdpGwClient) (acts : list action) : list ptr :=
  match acts with
  | [Recv_Done; Received l r _] => used (find_connection_by_conaddr o (Conaddr l r))
  | _ => []
  end.

(** [malloc] returns memory that is not in use. *)
Definition fresh_ptr (o : UdpGwClient) (malloc : option ptr) : bool :=
  match malloc with Some p => match heap o !! p with Some _ => false | None => true end | None => true end.

(** [None]: the event cannot happen, or the operation does not return. *)
Definition sys_step (s : sys) (e : event) : option (sys * list action) :=
  let o := gw s in
  let plain r := let '(o', l) := r in Some (Sys o' (uses s), l) in
  match e with
  | ESubmit l r dns d m f =>
      if fresh_ptr o m then
        match UdpGwClient_SubmitPacket o l r dns d m f with
        | Some (o', acts) => Some (Sys o' (uses s ++ used (find_connection_by_conaddr o' (Conaddr l r))), acts)
        | None => None
        end
      else None
  | EFirstJob p =>
      match heap o !! p with
      | Some c => if first_job c then plain (connection_first_job_handler p o) else None
      | None => None
      end
  | EReady p =>
      match heap o !! p with
      | Some c => Some (Sys (set_heap (<[p := set_send_if (Flow.BufferWriter.output_handler_recv (send_if c) 0) c]> (heap o)) o) (uses s), [])
      | None => None
      end
  | ERecv d =>
      if have_server o then
        let '(o', acts) := recv_interface_handler_send o d in Some (Sys o' (uses s ++ received_on o acts), acts)
      else None
  | EInactive => plain (send_monitor_handler o)
  | EKeepaliveDone => if keepalive_sending o then plain (keepalive_if_handler_done o) else None
  | EConnect ok =>
      if have_server o then None
      else match UdpGwClient_ConnectServer o ok with Some r => plain r | None => Some (s, []) end
  | EDisconnect => if have_server o then plain (UdpGwClient_DisconnectServer o) else None
  | EDecoderError => if have_server o then plain (decoder_handler_error o) else None
  end.

(** Events the surroundings can produce. *)
Definition enabled (s : sys) (e : event) : Prop :=
  match e with
  | ESubmit l r _ _ m _ => conaddr_ok (Conaddr l r) /\ fresh_ptr (gw s) m = true
  | EFirstJob p => exists c, heap (gw s) !! p = Some c /\ first_job c = true
  | EReady p => is_Some (heap (gw s) !! p)
  | ERecv _ | EDisconnect | EDecoderError => have_server (gw s) = true
  | EInactive => True
  | EKeepaliveDone => keepalive_sending (gw s) = true
  | EConnect _ => have_server (gw s) = false
  end.

Inductive reachable (s0 : sys) : sys -> Prop :=
| reach_start : reachable s0 s0
| reach_step s e s' acts : reachable s0 s -> enabled s e -> sys_step s e = Some (s', acts) -> reachable s0 s'.

Definition start (mtu max size : Z) : option sys :=
  match UdpGwClient_Init mtu max size true with Some o => Some (Sys o []) | None => None end.

(** *** Least recently used first *)

Definition recency (u : list ptr) : list ptr :=
  fold_left (fun l p => LinkedList1_Append p (LinkedList1_Remove p l)) u [].

Lemma recency_snoc u p : recency (u ++ [p]) = LinkedList1_Append p (LinkedList1_Remove p (recency u)).
Proof. unfold recency. rewrite fold_left_app. done. Qed.

Lemma remove_absent p (l : list ptr) : p ∉ l -> LinkedList1_Remove p l = l.
Proof.
  intros Hp. unfold LinkedList1_Remove. induction l as [|x l IH]; [done|].
  rewrite filter_cons, decide_True by set_solver. f_equal. apply IH. set_solver.
Qed.

Lemma remove_split x p (l l1 l2 : list ptr) :
  LinkedList1_Remove x l = l1 ++ p :: l2 ->
  exists m1 m2, l = m1 ++ p :: m2 /\ LinkedList1_Remove x m2 = l2.
Proof.
  unfold LinkedList1_Remove. revert l1. induction l as [|y l IH]; intros l1.
  - destruct l1; done.
  - rewrite filter_cons. destruct (decide (y <> x)).
    + destruct l1 as [|z l1]; cbn.
      * intros [= -> <-]. exists [], l. done.
      * intros [= -> E]. destruct (IH _ E) as (m1 & m2 & -> & E2). exists (z :: m1), m2. done.
    + intros E. destruct (IH _ E) as (m1 & m2 & -> & E2). exists (y :: m1), m2. done.
Qed.

(** A connection of the list was last used before those after it. *)
Lemma recency_order u : forall p l1 l2,
  recency u = l1 ++ p :: l2 -> exists u1 u2, u = u1 ++ p :: u2 /\ p ∉ u2 /\ forall q, q ∈ l2 -> q ∈ u2.
Proof.
  induction u as [|x u IH] using rev_ind; intros p l1 l2; [destruct l1; done|].
  rewrite recency_snoc. unfold LinkedList1_Append.
  destruct l2 as [|y l2 _] using rev_ind; intros E.
  - apply app_inj_tail in E as [_ ->]. exists u, []. split; [done|]. set_solver.
  - rewrite app_comm_cons, app_assoc in E. apply app_inj_tail in E as [E ->].
    assert (p <> y) as Hpy.
    { assert (p ∈ LinkedList1_Remove y (recency u)) as Hin by (rewrite E; set_solver).
      unfold LinkedList1_Remove in Hin. apply list_elem_of_filter in Hin as [? _]. done. }
    apply remove_split in E as (m1 & m2 & E & Em). destruct (IH _ _ _ E) as (u1 & u2 & -> & Hp & Hq).
    exists u1, (u2 ++ [y]). split; [rewrite <- app_assoc; done|]. split; [set_solver|].
    intros q Hin. apply elem_of_app in Hin as [Hin|Hin]; [|set_solver].
    rewrite <- Em in Hin. unfold LinkedList1_Remove in Hin. apply list_elem_of_filter in Hin as [_ Hin]. set_solver.
Qed.

Definition Good (s : sys) : Prop := WF (gw s) /\ connections_list (gw s) = recency (uses s).

Lemma fresh_ptr_spec o m : fresh_ptr o m = true -> forall p, m = Some p -> heap o !! p = None.
Proof. intros H p ->. unfold fresh_ptr in H. destruct (heap o !! p); done. Qed.

Lemma WF_keepalive o k : WF o -> WF (set_keepalive k o).
Proof. intros W. destruct W. split; done. Qed.

Lemma WF_have_server o h : WF o -> WF (set_have_server h o).
Proof. intros W. destruct W. split; done. Qed.

Lemma first_job_list p o : connections_list (fst (connection_first_job_handler p o)) = connections_list o.
Proof.
  unfold connection_first_job_handler. destruct (heap o !! p) as [c|] eqn:Hc; [|done].
  unfold connection_send. cbn [heap set_heap]. rewrite lookup_insert_eq.
  destruct (Flow.BufferWriter.BufferWriter_StartPacket _); done.
Qed.

Lemma step_submit s l r dns d m f :
  Good s -> enabled s (ESubmit l r dns d m f) ->
  exists s' acts, sys_step s (ESubmit l r dns d m f) = Some (s', acts) /\ Good s'.
Proof.
  intros [W Hu] [Hok Hfr]. cbn [sys_step]. rewrite Hfr. pose proof (fresh_ptr_spec _ _ Hfr) as Hm.
  destruct (submit_cases (gw s) l r dns d m f W Hok Hm) as (o' & acts & -> & W' & Hc).
  eexists _, _. split; [reflexivity|]. split; [exact W'|]. cbn [gw uses].
  assert (forall p fl, Routed (gw s) o' (Conaddr l r) fl d p acts ->
    connections_list o' = recency (uses s ++ used (find_connection_by_conaddr o' (Conaddr l r)))) as Hr.
  { intros p fl [R1 _ _ _ R5]. rewrite R1. cbn [used]. rewrite recency_snoc, <- Hu. exact R5. }
  destruct (find_connection_by_conaddr (gw s) (Conaddr l r)) as [p|]; [eapply Hr, Hc|].
  destruct (_ =? _); [destruct Hc as (p & l' & _ & Hc); eapply Hr, Hc|].
  destruct Hc as [_ Hc]. destruct m as [p|]; [|destruct Hc as (_ & -> & ->); cbn [used]; rewrite app_nil_r; done].
  destruct f; [|destruct Hc as (_ & -> & ->); cbn [used]; rewrite app_nil_r; done].
  destruct Hc as (-> & Hl & _). cbn [used]. rewrite recency_snoc, <- Hu, Hl.
  rewrite remove_absent; [done|]. rewrite (wf_heap _ W), (Hm p eq_refl). intros [? ?]; done.
Qed.

Lemma step_recv s d :
  Good s -> enabled s (ERecv d) -> exists s' acts, sys_step s (ERecv d) = Some (s', acts) /\ Good s'.
Proof.
  intros [W Hu] Hs. cbn [sys_step enabled] in *. rewrite Hs.
  assert (forall l, Good (Sys (gw s) (uses s ++ received_on (gw s) [l]))) as Hdrop.
  { intros l. replace (received_on (gw s) [l]) with (@nil positive) by (destruct l; done). rewrite app_nil_r. done. }
  destruct (recv_interface_handler_send (gw s) d) as [o' acts] eqn:E.
  eexists _, _. split; [reflexivity|]. unfold recv_interface_handler_send in E.
  destruct (zlen d <? sizeof_udpgw_header); [injection E as <- <-; apply Hdrop|].
  destruct (parse_addr _ _) as [[ra pd]|]; [|injection E as <- <-; apply Hdrop].
  destruct (udp_mtu (gw s) <? zlen pd); [injection E as <- <-; apply Hdrop|].
  destruct (find_connection_by_conid (gw s) _) as [p|]; [|injection E as <- <-; apply Hdrop].
  destruct (heap (gw s) !! p) as [c|] eqn:Hc; [|injection E as <- <-; apply Hdrop].
  destruct (negb _); [injection E as <- <-; apply Hdrop|]. injection E as <- <-.
  assert (find_connection_by_conaddr (gw s) (conaddr c) = Some p) as Hf by (apply (wf_conaddr _ W); eauto).
  split; cbn [gw uses received_on].
  - apply WF_touch; [done|]. apply (wf_heap _ W). eauto.
  - replace (Conaddr (local_addr (conaddr c)) (remote_addr (conaddr c))) with (conaddr c) by (destruct (conaddr c); done).
    rewrite Hf. cbn [used]. rewrite recency_snoc, <- Hu. done.
Qed.

(** Every event that can happen is handled, and the invariant is kept. *)
Lemma step_Good s e : Good s -> enabled s e -> exists s' acts, sys_step s e = Some (s', acts) /\ Good s'.
Proof.
  intros HG He. destruct e as [l r dns d m f|p|p|d| | |ok| |].
  - apply step_submit; done.
  - destruct He as (c & Hc & Hj). cbn [sys_step]. rewrite Hc, Hj. destruct HG as [W Hu].
    pose proof (WF_first_job p (gw s) W) as W'. pose proof (first_job_list p (gw s)) as Hl.
    destruct (connection_first_job_handler p (gw s)) as [o' acts]. eexists _, _. split; [reflexivity|].
    split; [exact W'|]. cbn [gw uses fst] in *. rewrite Hl. exact Hu.
  - destruct He as [c Hc]. cbn [sys_step]. rewrite Hc. destruct HG as [W Hu]. eexists _, _. split; [reflexivity|].
    split; [|exact Hu]. eapply WF_update; eauto.
  - apply step_recv; done.
  - destruct HG as [W Hu]. cbn [sys_step]. unfold send_monitor_handler.
    destruct (keepalive_sending (gw s)); eexists _, _; (split; [reflexivity|]); (split; [|done]); cbn; [done|].
    apply WF_keepalive. done.
  - destruct HG as [W Hu]. cbn [sys_step enabled] in *. rewrite He. eexists _, _. split; [reflexivity|].
    split; [apply WF_keepalive|]; done.
  - cbn [sys_step enabled] in *. rewrite He. destruct HG as [W Hu].
    destruct ok; eexists _, _; (split; [reflexivity|]); (split; [|done]); [apply WF_have_server|]; done.
  - cbn [sys_step enabled] in *. rewrite He. destruct HG as [W Hu]. eexists _, _. split; [reflexivity|].
    split; [apply WF_have_server|]; done.
  - cbn [sys_step enabled] in *. rewrite He. eexists _, _. split; [reflexivity|]. destruct HG. done.
Qed.

Lemma start_Good mtu max size s : 0 < max -> start mtu max size = Some s -> Good s.
Proof.
  intros Hmax [= <-]. split; [|done]. cbn [gw].
  set (m := if 65535 + 1 <? max then 65535 + 1 else max).
  assert (0 < m <= 65536) as Hm by (subst m; destruct (Z.ltb_spec (65535 + 1) max); lia).
  split; cbn [connections_list heap connections_tree_by_conid connections_tree_by_conaddr num_connections
    max_connections next_conid]; fold m; rewrite ?zlen_nil; try lia; try done.
  - constructor.
  - intros p. rewrite lookup_empty. split; [set_solver|intros [? ?]; done].
  - intros id p. rewrite !lookup_empty. naive_solver.
  - intros a p. rewrite !lookup_empty. naive_solver.
Qed.

Lemma reachable_Good s0 s : Good s0 -> reachable s0 s -> Good s.
Proof.
  intros HG Hr. induction Hr as [|s e s' acts _ IH He Hs]; [done|].
  destruct (step_Good s e IH He) as (s2 & a2 & E & H2). congruence.
Qed.

(** ** Properties *)

Lemma conaddr_comparator_then v1 v2 :
  conaddr_comparator v1 v2 =
  cmp_then BAddr_CompareOrder BAddr_CompareOrder (remote_addr v1, local_addr v1) (remote_addr v2, local_addr v2).
Proof. done. Qed.

(** The comparator of the tree by addresses is a total order on usable
    addresses that takes only equal connections as equal, which is what the tree
    asks of it: no two connections are confused, and none is lost. *)
Theorem conaddr_comparator_order :
  Comparator (fun a => BAddr_ok (remote_addr a) /\ BAddr_ok (local_addr a)) conaddr_comparator.
Proof.
  apply (Comparator_key _ (fun p => BAddr_ok (fst p) /\ BAddr_ok (snd p))
    (fun a => (remote_addr a, local_addr a)) (cmp_then BAddr_CompareOrder BAddr_CompareOrder)).
  - apply cmp_then_Comparator; apply _.
  - done.
  - intros [l r] [l' r'] _ _ [= -> ->]. done.
  - apply conaddr_comparator_then.
Qed.

(** The connection table is never corrupted and no operation hangs. In every
    reachable state the two trees, the list and the counter describe the same
    connections, the ids are distinct and below the maximum, which the counter
    never exceeds; and every event that can happen is handled, so the search for
    an unused id ends within one round over the ids. *)
Theorem udpgw_table_safe mtu max size s0 s :
  0 < max -> start mtu max size = Some s0 -> reachable s0 s ->
  WF (gw s) /\ forall e, enabled s e -> is_Some (sys_step s e).
Proof.
  intros Hmax Hs Hr. pose proof (reachable_Good s0 s (start_Good _ _ _ _ Hmax Hs) Hr) as HG.
  split; [apply HG|]. intros e He. destruct (step_Good s e HG He) as (s' & a & -> & _). eauto.
Qed.

(** A datagram goes out on the connection of its addresses. A submission in a
    reachable state returns; if there is a connection with these addresses, or the
    table is full, the packet handed over is the datagram with that connection's
    id and remote address, asking the gateway to rebind exactly if the connection
    was recycled, and no other connection changes; otherwise a connection with an
    unused id is made to send it, unless memory runs out, which leaves the table
    as it was. *)
Theorem udpgw_submit_routes mtu max size s0 s local remote is_dns data malloc flow_ok :
  0 < max -> start mtu max size = Some s0 -> reachable s0 s ->
  conaddr_ok (Conaddr local remote) -> fresh_ptr (gw s) malloc = true ->
  let o := gw s in
  let a := Conaddr local remote in
  exists o' acts, UdpGwClient_SubmitPacket o local remote is_dns data malloc flow_ok = Some (o', acts) /\ WF o' /\
    match find_connection_by_conaddr o a with
    | Some p => Routed o o' a (submit_flags is_dns true) data p acts
    | None =>
        if num_connections o =? max_connections o then
          exists p l, connections_list o = p :: l /\ Routed o o' a (submit_flags is_dns false) data p acts
        else acts = [] /\
          match malloc, flow_ok with
          | Some p, true =>
              find_connection_by_conaddr o' a = Some p /\ connections_list o' = connections_list o ++ [p] /\
              exists id, heap o' = <[p := new_connection a (submit_flags is_dns true) data id]> (heap o) /\
                connections_tree_by_conid o !! id = None
          | _, _ => heap o' = heap o /\ connections_list o' = connections_list o /\ find_connection_by_conaddr o' a = None
          end
    end.
Proof.
  intros Hmax Hs Hr Hok Hfr. destruct (reachable_Good s0 s (start_Good _ _ _ _ Hmax Hs) Hr) as [W _].
  apply (submit_cases (gw s) local remote is_dns data malloc flow_ok W Hok (fresh_ptr_spec _ _ Hfr)).
Qed.

(** Only the least recently used connection is recycled: if a submission in a
    reachable state takes a connection that had other addresses, then since that
    connection was last used, a datagram was sent or received on every other. *)
Theorem udpgw_recycles_lru mtu max size s0 s local remote is_dns data malloc flow_ok o' acts p c c' q :
  0 < max -> start mtu max size = Some s0 -> reachable s0 s ->
  conaddr_ok (Conaddr local remote) -> fresh_ptr (gw s) malloc = true ->
  UdpGwClient_SubmitPacket (gw s) local remote is_dns data malloc flow_ok = Some (o', acts) ->
  heap (gw s) !! p = Some c -> heap o' !! p = Some c' -> conaddr c' <> conaddr c ->
  is_Some (heap (gw s) !! q) -> q <> p ->
  exists u1 u2, uses s = u1 ++ p :: u2 /\ p ∉ u2 /\ q ∈ u2.
Proof.
  intros Hmax Hs Hr Hok Hfr Hsub Hc Hc' Hne Hq Hqp.
  destruct (reachable_Good s0 s (start_Good _ _ _ _ Hmax Hs) Hr) as [W Hu].
  destruct (submit_cases (gw s) local remote is_dns data malloc flow_ok W Hok (fresh_ptr_spec _ _ Hfr))
    as (o2 & acts2 & E & W' & Hcase). rewrite Hsub in E. injection E as <- <-.
  destruct (find_connection_by_conaddr (gw s) _) as [p0|] eqn:Hf.
  { exfalso. destruct Hcase as [_ (c0 & H1 & H2 & _) _ Hfr' _]. destruct (decide (p = p0)) as [->|Hp].
    - apply (wf_conaddr _ W) in Hf as (c1 & Hc1 & Ha). congruence.
    - rewrite (Hfr' p Hp) in Hc'. congruence. }
  destruct (_ =? _).
  2: { exfalso. destruct Hcase as [_ Hcase]. destruct malloc as [p0|]; [destruct flow_ok|];
         [destruct Hcase as (_ & _ & id & Hh & _)|destruct Hcase as [Hh _]..]; rewrite Hh in Hc'; try congruence.
       pose proof (fresh_ptr_spec _ _ Hfr p0 eq_refl) as Hnone.
       rewrite lookup_insert_ne in Hc' by congruence. congruence. }
  destruct Hcase as (p0 & l & Hl & [_ _ _ Hfr' _]). destruct (decide (p = p0)) as [<-|Hp].
  2: { rewrite (Hfr' p Hp) in Hc'. congruence. }
  rewrite Hu in Hl. destruct (recency_order (uses s) p [] l Hl) as (u1 & u2 & E & Hpu & Hall).
  exists u1, u2. split; [done|]. split; [done|]. apply Hall. apply (wf_heap _ W) in Hq.
  rewrite Hu, Hl in Hq. set_solver.
Qed.

(** C25: exactly the gateway's datagrams for live connections reach the user: the
    user is called with the payload [d] from remote [r] to local [l] if and only if
    the message is, byte for byte, a header with the id of a connection between [l]
    and [r], the encoding of [r], and [d], with [d] within the MTU. A reply to a
    connection whose id now belongs to other addresses is never delivered. *)
Theorem udpgw_received_exact mtu max size s0 s data l r d :
  0 < max -> start mtu max size = Some s0 -> reachable s0 s ->
  Received l r d ∈ snd (recv_interface_handler_send (gw s) data) <->
  exists p c fb, heap (gw s) !! p = Some c /\ conaddr c = Conaddr l r /\ flag_matches fb r /\
    data = gateway_datagram fb c d /\ zlen d <= udp_mtu (gw s).
Proof.
  intros Hmax Hs Hr. destruct (reachable_Good s0 s (start_Good _ _ _ _ Hmax Hs) Hr) as [W _].
  split; [apply recv_sound, W|]. intros (p & c & fb & Hc & Ha & Hf & -> & Hd).
  rewrite (recv_complete (gw s) p c fb d W Hc); [|rewrite Ha; exact Hf|exact Hd]. rewrite Ha. cbn. set_solver.
Qed.

Lemma udpgw_packet_flags f a :
  0 <= f < 8 -> BAddr_IsInvalid a = false ->
  flag_matches (z2b (match a with BAddr_IPv6 _ _ => Z.lor f UDPGW_CLIENT_FLAG_IPV6 | _ => f end)) a.
Proof.
  intros Hf Ha. unfold flag_matches.
  assert (f = 0 \/ f = 1 \/ f = 2 \/ f = 3 \/ f = 4 \/ f = 5 \/ f = 6 \/ f = 7) as Hc by lia.
  destruct a; [done| |]; repeat (destruct Hc as [->|Hc]; [done|]); subst; done.
Qed.

(** What a connection sends, the gateway can answer: a packet built for a
    connection, with any of the flags the client uses, is parsed back to the
    connection's id, remote address and payload, so a gateway that returns it
    reaches the connection it came from, and the connection becomes the most
    recently used. *)
Theorem udpgw_echo mtu max size s0 s p c f d :
  0 < max -> start mtu max size = Some s0 -> reachable s0 s ->
  heap (gw s) !! p = Some c -> 0 <= f < 8 -> zlen d <= udp_mtu (gw s) ->
  recv_interface_handler_send (gw s) (udpgw_packet c f d) =
    (touch p (gw s), [Recv_Done; Received (local_addr (conaddr c)) (remote_addr (conaddr c)) d]).
Proof.
  intros Hmax Hs Hr Hc Hf Hd. destruct (reachable_Good s0 s (start_Good _ _ _ _ Hmax Hs) Hr) as [W _].
  destruct (wf_addrs _ W _ _ Hc) as [_ [_ Hv]]. pose proof (udpgw_packet_flags f _ Hf Hv) as Hm.
  rewrite <- (recv_complete (gw s) p c _ d W Hc Hm Hd). f_equal.
Qed.

(** Freeing the client frees every connection exactly once, least recently
    used first, then the server part if there is one, then the queue, and leaves no
    connection behind. *)
Theorem udpgw_free_all mtu max size s0 s :
  0 < max -> start mtu max size = Some s0 -> reachable s0 s ->
  heap (fst (UdpGwClient_Free (gw s))) = ∅ /\ num_connections (fst (UdpGwClient_Free (gw s))) = 0 /\
  snd (UdpGwClient_Free (gw s)) =
    map Connection_Free (connections_list (gw s)) ++ (if have_server (gw s) then [Server_Free] else []) ++ [Queue_Free].
Proof.
  intros Hmax Hs Hr. destruct (reachable_Good s0 s (start_Good _ _ _ _ Hmax Hs) Hr) as [W _].
  destruct (free_connections_spec _ (gw s) W eq_refl) as (H1 & _ & H2 & H3 & H4). unfold UdpGwClient_Free.
  destruct (free_connections _ (gw s)) as [o l]. cbn [fst snd] in *. rewrite H3, H4.
  split; [done|]. split; [done|]. destruct (have_server (gw s)); done.
Qed.

(** ** A table of one connection, recycled *)

Definition ex_l : BAddr := BAddr_IPv4 0x0200000A 0x3930.
Definition ex_r1 : BAddr := BAddr_IPv4 0x08080808 0x3500.
Definition ex_r2 : BAddr := BAddr_IPv6 (repeat x11 16) 0x3500.

(** One step that must succeed. *)
Definition next (s : sys) (e : event) : sys := match sys_step s e with Some (s', _) => s' | None => s end.

Definition ex0 : sys := match start 1500 2 8 with Some s => s | None => Sys (GW 0 0 0 0 0 ∅ ∅ ∅ [] 0 0 false false) [] end.
Definition ex1 : sys := next ex0 (ESubmit ex_l ex_r1 true [x61] (Some 1%positive) true).
Definition ex2 : sys := next ex1 (ESubmit ex_r1 ex_r2 false [x62] (Some 2%positive) true).
Definition ex3 : sys := next ex2 (EReady 1%positive).

Lemma ex_usable : conaddr_ok (Conaddr ex_l ex_r1) /\ conaddr_ok (Conaddr ex_r1 ex_r2) /\ conaddr_ok (Conaddr ex_l ex_r2).
Proof. repeat split; vm_compute; congruence. Qed.

Lemma step_next s e :
  match sys_step s e with Some _ => true | None => false end = true ->
  exists acts, sys_step s e = Some (next s e, acts).
Proof. unfold next. destruct (sys_step s e) as [[s' acts]|]; [eauto|done]. Qed.

Lemma reachable_next s0 s e :
  reachable s0 s -> enabled s e -> match sys_step s e with Some _ => true | None => false end = true ->
  reachable s0 (next s e).
Proof. intros Hr He Hs. apply step_next in Hs as [acts Hs]. eapply reach_step; eauto. Qed.

Lemma ex_start : start 1500 2 8 = Some ex0.
Proof. reflexivity. Qed.

Lemma ex_reachable : reachable ex0 ex3.
Proof.
  destruct ex_usable as (U1 & U2 & _). unfold ex3, ex2, ex1.
  apply reachable_next; [apply reachable_next; [apply reachable_next; [apply reach_start|..]|..]|..].
  - split; [exact U1|vm_compute; reflexivity].
  - vm_compute; reflexivity.
  - split; [exact U2|vm_compute; reflexivity].
  - vm_compute; reflexivity.
  - cbn [enabled]. apply is_Some_alt. vm_compute. exact I.
  - vm_compute; reflexivity.
Qed.

Lemma udpgw_table_safe_witness :
  WF (gw ex3) /\ forall e, enabled ex3 e -> is_Some (sys_step ex3 e).
Proof. apply (udpgw_table_safe 1500 2 8 ex0 ex3); [lia|exact ex_start|exact ex_reachable]. Defined.

Lemma udpgw_submit_routes_witness :
  exists o' acts, UdpGwClient_SubmitPacket (gw ex3) ex_l ex_r2 false [x63] None true = Some (o', acts) /\ WF o' /\
    exists p l, connections_list (gw ex3) = p :: l /\
      Routed (gw ex3) o' (Conaddr ex_l ex_r2) (submit_flags false false) [x63] p acts.
Proof.
  assert (find_connection_by_conaddr (gw ex3) (Conaddr ex_l ex_r2) = None) as Hf by (vm_compute; reflexivity).
  assert ((num_connections (gw ex3) =? max_connections (gw ex3)) = true) as Hn by (vm_compute; reflexivity).
  pose proof (udpgw_submit_routes 1500 2 8 ex0 ex3 ex_l ex_r2 false [x63] None true ltac:(lia) ex_start
    ex_reachable (proj2 (proj2 ex_usable)) eq_refl) as H. cbv zeta in H. rewrite Hf, Hn in H. exact H.
Defined.

Lemma udpgw_recycles_lru_witness :
  exists u1 u2, uses ex3 = u1 ++ 1%positive :: u2 /\ 1%positive ∉ u2 /\ 2%positive ∈ u2.
Proof.
  destruct (UdpGwClient_SubmitPacket (gw ex3) ex_l ex_r2 false [x63] None true) as [[o' acts]|] eqn:E.
  2: { exfalso. assert (match UdpGwClient_SubmitPacket (gw ex3) ex_l ex_r2 false [x63] None true with
         Some _ => true | None => false end = true) as H by (vm_compute; reflexivity). rewrite E in H. discriminate H. }
  assert ((conaddr <$> heap (gw ex3) !! 1%positive) = Some (Conaddr ex_l ex_r1)) as H1 by (vm_compute; reflexivity).
  assert (match UdpGwClient_SubmitPacket (gw ex3) ex_l ex_r2 false [x63] None true with
    Some (o', _) => conaddr <$> heap o' !! 1%positive | None => None end = Some (Conaddr ex_l ex_r2)) as H2
    by (vm_compute; reflexivity).
  assert (match heap (gw ex3) !! 2%positive with Some _ => true | None => false end = true) as H3 by (vm_compute; reflexivity).
  rewrite E in H2. apply fmap_Some in H1 as (c & Hc & Ha). apply fmap_Some in H2 as (c' & Hc' & Ha').
  apply (udpgw_recycles_lru 1500 2 8 ex0 ex3 ex_l ex_r2 false [x63] None true o' acts 1%positive c c' 2%positive);
    [lia|exact ex_start|exact ex_reachable|apply ex_usable|reflexivity|exact E|exact Hc|exact Hc'| | |discriminate].
  - rewrite <- Ha, <- Ha'. discriminate.
  - destruct (heap (gw ex3) !! 2%positive); [eauto|discriminate H3].
Defined.

Lemma udpgw_received_exact_witness :
  Received ex_l ex_r1 [x7a] ∈ snd (recv_interface_handler_send (gw ex3)
    [x00; x00; x00; x08; x08; x08; x08; x00; x35; x7a]).
Proof.
  apply (udpgw_received_exact 1500 2 8 ex0 ex3);
    [lia|exact ex_start|exact ex_reachable|].
  eexists 1%positive, _, x00. split; [vm_compute; reflexivity|].
  split; [reflexivity|]. split; [reflexivity|]. split; [vm_compute; reflexivity|vm_compute; congruence].
Defined.

Lemma udpgw_echo_witness :
  exists c, heap (gw ex3) !! 1%positive = Some c /\
    recv_interface_handler_send (gw ex3) (udpgw_packet c UDPGW_CLIENT_FLAG_DNS [x7a]) =
      (touch 1%positive (gw ex3), [Recv_Done; Received (local_addr (conaddr c)) (remote_addr (conaddr c)) [x7a]]).
Proof.
  eexists. split; [vm_compute; reflexivity|].
  apply (udpgw_echo 1500 2 8 ex0 ex3 1%positive);
    [lia|exact ex_start|exact ex_reachable|vm_compute; reflexivity|split; vm_compute; congruence|vm_compute; congruence].
Defined.

Lemma udpgw_free_all_witness :
  heap (fst (UdpGwClient_Free (gw ex3))) = ∅ /\ num_connections (fst (UdpGwClient_Free (gw ex3))) = 0 /\
  snd (UdpGwClient_Free (gw ex3)) = [Connection_Free 1; Connection_Free 2; Queue_Free].
Proof. apply (udpgw_free_all 1500 2 8 ex0 ex3); [lia|exact ex_start|exact ex_reachable]. Defined.
