(* ===== verification/UdpGwIndex.v ===== *)
(** * The indices of the udpgw client on real trees

    [UdpGwClient.v] keeps the two trees of [udpgw_client/UdpGwClient.c] as finite
    maps and the recency list as a list. Here the maps are discharged by the AVL tree
    of [BAVL.v] and the list by [LinkedList1.v]: the lookups, insertions and
    removals that the client performs on them give what the maps and lists
    of the model say. *)

From Stdlib Require Import Sorted.
From S2P Require Import Prelude.
From S2P Require Import BAddr.
From S2P Require Import LinkedList1.
From S2P Require Import BAVL.
From S2P Require Import UdpGwClient.

Section Index.

Context {K : Type} `{Countable K} (ok : K -> Prop) (cmp : K -> K -> Z) `{HC : !Comparator ok cmp}.

(** The tree [o], with the values of its nodes, holds the map [m]. *)
Definition index (o : BAVL.BAVL) (value : positive -> K) (m : gmap K positive) : Prop :=
  exists L, BAVL.sim ok cmp o value L /\ forall k q, m !! k = Some q <-> q ∈ L /\ value q = k.

Lemma sim_ok o value L q : BAVL.sim ok cmp o value L -> q ∈ L -> ok (value q).
Proof. intros (t&_&_&_&_&Hok) Hq. rewrite Forall_forall in Hok. auto. Qed.

Lemma sim_nodup o value L : BAVL.sim ok cmp o value L -> NoDup L.
Proof. intros (t&(_&_&Hn)&_&<-&_). by rewrite app_nil_r in Hn. Qed.

Lemma index_lookup o value m k : index o value m -> ok k -> BAVL.BAVL_LookupExact cmp o value k = Some (m !! k).
Proof.
  intros (L&Hs&Hm) Hk. destruct (BAVL.lookup_step ok cmp o value L k Hs Hk) as (_&r&_&->&_&_&_&Hr). f_equal.
  destruct Hr as [(q&Hq&Hc&[= ->])|(Hall&[= ->])].
  - symmetry. apply Hm. split; [done|]. symmetry. apply (proj1 (cmp_eq (Comparator := HC) _ _ Hk (sim_ok _ _ _ _ Hs Hq))), Hc.
  - destruct (m !! k) as [q|] eqn:Hq; [|done]. apply Hm in Hq as [Hq <-]. rewrite Forall_forall in Hall.
    destruct (Hall q Hq). by apply BAVL.cmp_self with ok.
Qed.

Lemma index_insert o value m p : index o value m -> (forall k, m !! k <> Some p) -> ok (value p) ->
  exists ref o', BAVL.BAVL_Insert cmp o value p = Some (bool_decide (m !! value p = None), ref, o') /\
    index o' value (UdpGwClient.BAVL_Insert (value p) p m).
Proof.
  intros (L&Hs&Hm) Hp Hv. assert (HpL : p ∉ L) by (intros Hin; apply (Hp (value p)); by apply Hm).
  destruct (BAVL.insert_step ok cmp o value L p Hs HpL Hv) as (o'&L'&res&ref&->&Hs'&_&Hsp).
  destruct Hsp as [(q&Hq&Hc&->&[= -> ->])|(A&B&ref'&(HL&HA&HB)&->&[= -> ->]&_)].
  - apply (proj1 (cmp_eq (Comparator := HC) _ _ Hv (sim_ok _ _ _ _ Hs Hq))) in Hc.
    assert (Hk : m !! value p = Some q) by (by apply Hm). exists (Some q), o'. unfold UdpGwClient.BAVL_Insert. rewrite Hk.
    rewrite bool_decide_false by done. split; [done|]. by exists L.
  - assert (Hk : m !! value p = None).
    { destruct (m !! value p) as [q|] eqn:Hq; [|done]. apply Hm in Hq as [Hq Hvq]. rewrite HL in Hq.
      pose proof (BAVL.cmp_self ok cmp (value p) Hv) as Hself. rewrite Forall_forall in HA, HB.
      apply elem_of_app in Hq as [Hq|Hq]; [specialize (HA q Hq)|specialize (HB q Hq)]; unfold BAVL.above, BAVL.below in *; rewrite Hvq in *; lia. }
    exists ref', o'. unfold UdpGwClient.BAVL_Insert. rewrite Hk, bool_decide_true by done. split; [done|]. exists (A ++ p :: B). split; [done|].
    intros k q. rewrite elem_of_app, elem_of_cons. rewrite HL in Hm, HpL. setoid_rewrite elem_of_app in Hm. rewrite elem_of_app in HpL.
    destruct (decide (value p = k)) as [<-|Hne].
    + rewrite lookup_insert_eq. split; [intros [= <-]; auto|]. intros [Hq Hvq]. f_equal. destruct (decide (q = p)) as [->|Hqp]; [done|].
      exfalso. assert (Hq' : m !! value p = Some q) by (apply Hm; naive_solver). congruence.
    + rewrite lookup_insert_ne, Hm by done. naive_solver.
Qed.

Lemma index_remove o value m k p : index o value m -> m !! k = Some p ->
  exists o', BAVL.BAVL_Remove o p = Some o' /\ index o' value (delete k m).
Proof.
  intros (L&Hs&Hm) Hk. pose proof (proj1 (Hm k p) Hk) as [Hp Hv].
  destruct (BAVL.remove_step ok cmp o value L p Hs Hp) as (o'&A&B&->&HL&Hs'). exists o'. split; [done|]. exists (A ++ B). split; [done|].
  pose proof (sim_nodup _ _ _ Hs) as Hn. rewrite HL in Hn. apply NoDup_app in Hn as (_&Hn1&Hn2). apply NoDup_cons in Hn2 as [Hn2 _].
  intros k' q. destruct (decide (k = k')) as [<-|Hne].
  - rewrite lookup_delete_eq. split; [done|]. intros [Hq Hvq]. exfalso. assert (Hkq : m !! k = Some q).
    { apply Hm. split; [|done]. rewrite HL. rewrite elem_of_app, elem_of_cons in *. naive_solver. }
    rewrite Hk in Hkq. injection Hkq as <-. apply elem_of_app in Hq as [Hq|Hq]; [|done]. apply (Hn1 p Hq). by left.
  - rewrite lookup_delete_ne, Hm, HL, !elem_of_app, elem_of_cons by done. naive_solver.
Qed.

(** What the client relies on. *)
Definition tree_contract (o : BAVL.BAVL) (value : positive -> K) (m : gmap K positive) : Prop :=
  (forall k, ok k -> BAVL.BAVL_LookupExact cmp o value k = Some (m !! k)) /\
  (forall p, (forall k, m !! k <> Some p) -> ok (value p) ->
     exists ref o', BAVL.BAVL_Insert cmp o value p = Some (bool_decide (m !! value p = None), ref, o') /\
       index o' value (UdpGwClient.BAVL_Insert (value p) p m)) /\
  (forall k p, m !! k = Some p -> exists o', BAVL.BAVL_Remove o p = Some o' /\ index o' value (delete k m)).

Lemma index_contract o value m : index o value m -> tree_contract o value m.
Proof.
  intros Hi. split_and!.
  - intros k. by apply index_lookup.
  - intros p. by apply index_insert.
  - intros k p. by apply index_remove.
Qed.

End Index.

(** Comparison of connection addresses, on addresses of a known type. *)
Definition conaddr_typed (a : UdpGwClient_conaddr) : Prop := BAddr_ok (remote_addr a) /\ BAddr_ok (local_addr a).

#[export] Instance conaddr_Comparator : Comparator conaddr_typed conaddr_comparator := conaddr_comparator_order.
#[export] Instance uint16_Comparator : Comparator (fun _ => True) uint16_comparator := B_COMPARE_Comparator.

(** The recency list. *)
Lemma list_remove_filter (A B : list positive) q : NoDup (A ++ q :: B) -> UdpGwClient.LinkedList1_Remove q (A ++ q :: B) = A ++ B.
Proof.
  intros (_&H1&H2)%NoDup_app. apply NoDup_cons in H2 as [H2 _]. unfold UdpGwClient.LinkedList1_Remove.
  assert (Hid : forall l : list positive, q ∉ l -> filter (fun x => x <> q) l = l).
  { induction l as [|x l IH]; [done|]. rewrite not_elem_of_cons. intros [Hx Hl]. rewrite filter_cons_True by congruence. f_equal. auto. }
  rewrite filter_app, filter_cons_False by auto. rewrite !Hid; [done..|]. intros Hq. apply (H1 q Hq). by left.
Qed.

Definition list_contract (l : LinkedList1.LinkedList1) (L : list positive) : Prop :=
  LinkedList1.LinkedList1_GetFirst l = hd_error L /\
  (forall q, q ∉ L -> exists l', LinkedList1.LinkedList1_Append l q = Some l' /\ LinkedList1.Rep l' (UdpGwClient.LinkedList1_Append q L)) /\
  (forall q, q ∈ L -> exists l', LinkedList1.LinkedList1_Remove l q = Some l' /\ LinkedList1.Rep l' (UdpGwClient.LinkedList1_Remove q L)).

Lemma rep_contract l L : LinkedList1.Rep l L -> list_contract l L.
Proof.
  intros HR. split_and!.
  - destruct HR as (Hf&_). unfold LinkedList1.LinkedList1_GetFirst. by rewrite Hf, LinkedList1.hd_or_error.
  - intros q Hq. by apply LinkedList1.Append_ok.
  - intros q (A&B&->)%list_elem_of_split. pose proof HR as (_&_&_&Hn). rewrite list_remove_filter by done. by apply LinkedList1.Remove_ok.
Qed.

(** C32: The data structures under the udpgw client keep their promises. Where the
    two AVL trees hold the maps and the linked list holds the list of the
    client, the searches of [find_connection_by_conaddr] and
    [find_connection_by_conid] return what the model says, and every insertion,
    removal and append the client may perform runs without touching a null or
    dangling pointer and again holds the map or list of the model, comparators
    included. *)
Theorem udpgw_structures u t1 v1 t2 v2 l :
  index conaddr_typed conaddr_comparator t1 v1 (connections_tree_by_conaddr u) ->
  index (fun _ => True) uint16_comparator t2 v2 (connections_tree_by_conid u) ->
  LinkedList1.Rep l (connections_list u) ->
  (forall a, conaddr_typed a -> BAVL.BAVL_LookupExact conaddr_comparator t1 v1 a = Some (find_connection_by_conaddr u a)) /\
  (forall id, BAVL.BAVL_LookupExact uint16_comparator t2 v2 (u16 id) = Some (find_connection_by_conid u id)) /\
  tree_contract conaddr_typed conaddr_comparator t1 v1 (connections_tree_by_conaddr u) /\
  tree_contract (fun _ => True) uint16_comparator t2 v2 (connections_tree_by_conid u) /\
  list_contract l (connections_list u).
Proof.
  intros H1 H2 HL. split_and!.
  - intros a Ha. exact (index_lookup _ _ _ _ _ a H1 Ha).
  - intros id. exact (index_lookup _ _ _ _ _ (u16 id) H2 I).
  - exact (index_contract _ _ _ _ _ H1).
  - exact (index_contract _ _ _ _ _ H2).
  - by apply rep_contract.
Qed.

(** A client with one connection. *)
Lemma udpgw_structures_witness :
  let a := Conaddr (BAddr_IPv4 1 2) (BAddr_IPv4 3 4) in
  let u := GW 0 1 1 0 0 ∅ {[a := 1%positive]} {[0 := 1%positive]} [1%positive] 1 0 false false in
  let t := BAVL.Tree (Some 1%positive) {[1%positive := BAVL.Node None None None 0]} in
  let l := LinkedList1.LList (Some 1%positive) (Some 1%positive) {[1%positive := LinkedList1.LNode None None]} in
  (forall b, conaddr_typed b -> BAVL.BAVL_LookupExact conaddr_comparator t (fun _ => a) b = Some (find_connection_by_conaddr u b)) /\
  (forall id, BAVL.BAVL_LookupExact uint16_comparator t (fun _ => 0) (u16 id) = Some (find_connection_by_conid u id)) /\
  tree_contract conaddr_typed conaddr_comparator t (fun _ => a) (connections_tree_by_conaddr u) /\
  tree_contract (fun _ => True) uint16_comparator t (fun _ => 0) (connections_tree_by_conid u) /\
  list_contract l (connections_list u).
Proof.
  intros a u t l.
  assert (Hi : forall {K} `{Countable K} (ok : K -> Prop) cmp (k : K), ok k -> index ok cmp t (fun _ => k) {[k := 1%positive]}).
  { intros K HE HCt ok cmp k Hk. exists [1%positive]. split.
    - exists (BAVL.T BAVL.E 1%positive 0 BAVL.E). split; [apply (BAVL.insert_root_ok BAVL.BAVL_Init)|]. split; [cbn; lia|]. split; [done|].
      split; [repeat constructor|by apply Forall_singleton].
    - intros k' q. rewrite lookup_singleton_Some, list_elem_of_singleton. naive_solver. }
  apply (udpgw_structures u t (fun _ => a) t (fun _ => 0) l).
  - apply Hi. split; cbn; lia.
  - by apply Hi.
  - split_and!; [done..| |apply NoDup_singleton]. split; [apply lookup_singleton_eq|done].
Defined.
