(* ===== verification/SocksUdpGw.v ===== *)
(** * The connection to the UDP gateway

    [tun2socks/SocksUdpGwClient.c], in the configuration of the application (without
    [ANDROID_UDP]): a udpgw client whose server is reached through a SOCKS client,
    with a timer to connect again after a failure. The two clients are those of
    [BSocksClient] and [UdpGwClient], each with its surroundings; their calls into each
    other and the handlers of this object are made here. [None] is a broken
    contract: an assertion of the source that does not hold, or a call to an object
    that is not initialised or not in the state for it. *)

From Stdlib Require Import ZArith Lia.
From stdpp Require Import gmap.
From S2P Require Import Prelude.
From S2P Require Import BAddr.
From S2P Require Import BSocksClient.
From S2P Require Import UdpGwClient.

Notation socks_sys := BSocksClient.sys (only parsing).
Notation udpgw_sys := UdpGwClient.sys (only parsing).

Record SocksUdpGwClient := SUG {
  auth_list : list auth_info; remote_udpgw_addr : dest;
  udpgw_client : udpgw_sys;
  reconnect_timer : bool;               (** the timer is running *)
  have_socks : bool;
  socks_client : option socks_sys;      (** the object, while it is initialised *)
  socks_up : bool
}.

Definition set_udpgw u o := SUG (auth_list o) (remote_udpgw_addr o) u (reconnect_timer o) (have_socks o) (socks_client o) (socks_up o).
Definition set_timer b o := SUG (auth_list o) (remote_udpgw_addr o) (udpgw_client o) b (have_socks o) (socks_client o) (socks_up o).
Definition set_have_socks b o := SUG (auth_list o) (remote_udpgw_addr o) (udpgw_client o) (reconnect_timer o) b (socks_client o) (socks_up o).
Definition set_socks c o := SUG (auth_list o) (remote_udpgw_addr o) (udpgw_client o) (reconnect_timer o) (have_socks o) c (socks_up o).
Definition set_up b o := SUG (auth_list o) (remote_udpgw_addr o) (udpgw_client o) (reconnect_timer o) (have_socks o) (socks_client o) b.

(** [ASSERT]. *)
Definition assert (b : bool) : option unit := if b then Some tt else None.

Definition server (o : SocksUdpGwClient) : bool := have_server (gw (udpgw_client o)).

(** [UdpGwClient_ConnectServer] and [UdpGwClient_DisconnectServer]; the first asserts that there is no server, the
    second that there is one. *)
Definition connect_server (ok : bool) (o : SocksUdpGwClient) : option (bool * SocksUdpGwClient) :=
  _ ← assert (negb (server o));
  match UdpGwClient_ConnectServer (gw (udpgw_client o)) ok with
  | None => Some (false, o)
  | Some (g, _) => Some (true, set_udpgw (UdpGwClient.Sys g (uses (udpgw_client o))) o)
  end.

Definition disconnect_server (o : SocksUdpGwClient) : option SocksUdpGwClient :=
  _ ← assert (server o);
  Some (set_udpgw (UdpGwClient.Sys (fst (UdpGwClient_DisconnectServer (gw (udpgw_client o)))) (uses (udpgw_client o))) o).

Definition free_socks (o : SocksUdpGwClient) : option SocksUdpGwClient :=
  _ ← assert (have_socks o);
  o ← (if socks_up o then disconnect_server o else Some o);
  _ ← socks_client o;
  Some (set_have_socks false (set_socks None o)).

(** [socks_ok] is the result of [BConnector_Init] in [BSocksClient_Init]. *)
Definition try_connect (socks_ok : bool) (o : SocksUdpGwClient) : option SocksUdpGwClient :=
  _ ← assert (negb (have_socks o));
  _ ← assert (negb (reconnect_timer o));
  match BSocksClient_Init (auth_list o) (remote_udpgw_addr o) socks_ok with
  | None => Some (set_timer true o)
  | Some c => Some (set_up false (set_have_socks true (set_socks (Some (BSocksClient.Sys c false None [] [] [])) o)))
  end.

Definition reconnect_timer_handler (socks_ok : bool) (o : SocksUdpGwClient) : option SocksUdpGwClient :=
  _ ← assert (negb (have_socks o));
  try_connect socks_ok o.

(** [decoder_ok] is the result of [PacketProtoDecoder_Init] in [UdpGwClient_ConnectServer]. *)
Definition socks_client_handler (decoder_ok : bool) (e : socks_event) (o : SocksUdpGwClient) : option SocksUdpGwClient :=
  _ ← assert (have_socks o);
  match e with
  | BSOCKSCLIENT_EVENT_UP =>
    _ ← assert (negb (socks_up o));
    '(ok, o) ← connect_server decoder_ok o;
    if ok : bool then Some (set_up true o) else o ← free_socks o; Some (set_timer true o)
  | BSOCKSCLIENT_EVENT_ERROR | BSOCKSCLIENT_EVENT_ERROR_CLOSED => o ← free_socks o; Some (set_timer true o)
  end.

Definition udpgw_handler_servererror (o : SocksUdpGwClient) : option SocksUdpGwClient :=
  _ ← assert (have_socks o);
  _ ← assert (socks_up o);
  o ← free_socks o;
  Some (set_timer true o).

(** The user's handler gets what the udpgw client delivers. *)
Definition udpgw_handler_received (local remote : BAddr) (data : list byte) : list (BAddr * BAddr * list byte) :=
  [(local, remote, data)].

Definition SocksUdpGwClient_Init (mtu max size : Z) (auths : list auth_info) (d : dest) (queue_ok socks_ok : bool)
  : option (option SocksUdpGwClient) :=
  match UdpGwClient_Init mtu max size queue_ok with
  | None => Some None
  | Some g => Some <$> try_connect socks_ok (SUG auths d (UdpGwClient.Sys g []) false false None false)
  end.

(** What the parts release: the SOCKS client's sub-objects, then those of the udpgw
    client. *)
Definition SocksUdpGwClient_Free (o : SocksUdpGwClient) : option (list release * list UdpGwClient.action) :=
  let freed := match socks_client o with Some c => BSocksClient_Free (cl c) | None => [] end in
  o' ← (if have_socks o then free_socks o else Some o);
  Some (if have_socks o then freed else [], snd (UdpGwClient_Free (gw (udpgw_client (set_timer false o'))))).

Definition SocksUdpGwClient_SubmitPacket (o : SocksUdpGwClient) (local remote : BAddr) (is_dns : bool) (data : list byte)
    (malloc : option positive) (flow_ok : bool) : option SocksUdpGwClient :=
  '(u, _) ← UdpGwClient.sys_step (udpgw_client o) (ESubmit local remote is_dns data malloc flow_ok);
  Some (set_udpgw u o).

(** ** The object in its surroundings *)

Section Tunnel.

Context (realloc : option (list byte) -> Z -> option (list byte)).
Context (realloc_size : forall b n b', realloc b n = Some b' -> zlen b' = n).

Inductive event :=
| Socks (e : BSocksClient.event) (decoder_ok : bool)     (** something happens to the SOCKS client *)
| Gateway (e : UdpGwClient.event)                        (** or to the udpgw client *)
| Timer (socks_ok : bool).                               (** the timer expires *)

Definition datagram : Type := BAddr * BAddr * list byte.

Fixpoint socks_events (decoder_ok : bool) (l : list socks_event) (o : SocksUdpGwClient) : option SocksUdpGwClient :=
  match l with
  | [] => Some o
  | e :: l => o ← socks_client_handler decoder_ok e o; socks_events decoder_ok l o
  end.

Fixpoint gateway_actions (l : list UdpGwClient.action) (o : SocksUdpGwClient) : option (SocksUdpGwClient * list datagram) :=
  match l with
  | [] => Some (o, [])
  | Servererror :: l => o ← udpgw_handler_servererror o; gateway_actions l o
  | Received local remote data :: l => '(o, r) ← gateway_actions l o; Some (o, udpgw_handler_received local remote data ++ r)
  | _ :: l => gateway_actions l o
  end.

(** This object alone connects and disconnects the udpgw client. *)
Definition own_event (e : UdpGwClient.event) : bool :=
  match e with EConnect _ | EDisconnect => false | _ => true end.

Definition step (o : SocksUdpGwClient) (e : event) : option (SocksUdpGwClient * list datagram) :=
  match e with
  | Socks e ok =>
    c ← socks_client o;
    c' ← BSocksClient.sys_step realloc c e;
    o ← socks_events ok (drop (length (events c)) (events c')) (set_socks (Some c') o);
    Some (o, [])
  | Gateway e =>
    _ ← assert (own_event e);
    '(u, acts) ← UdpGwClient.sys_step (udpgw_client o) e;
    gateway_actions acts (set_udpgw u o)
  | Timer ok =>
    _ ← assert (reconnect_timer o);
    o ← reconnect_timer_handler ok (set_timer false o);
    Some (o, [])
  end.

Definition enabled (o : SocksUdpGwClient) (e : event) : Prop :=
  match e with
  | Socks e _ => exists c, socks_client o = Some c /\ BSocksClient.enabled c e
  | Gateway e => own_event e = true /\ UdpGwClient.enabled (udpgw_client o) e
  | Timer _ => reconnect_timer o = true
  end.

Inductive reachable (o0 : SocksUdpGwClient) : SocksUdpGwClient -> Prop :=
| reach_start : reachable o0 o0
| reach_step o e o' out : reachable o0 o -> enabled o e -> step o e = Some (o', out) -> reachable o0 o'.

(** ** One event is reported at a time *)

Definition reported (l : list BSocksClient.action) : list socks_event :=
  omap (fun a => match a with Handler e => Some e | _ => None end) l.

Lemma do_actions_events l : forall s s', BSocksClient.do_actions l s = Some s' -> events s' = events s ++ reported l.
Proof.
  induction l as [|a l IH]; intros s s'; cbn [BSocksClient.do_actions]; [intros [= <-]; by rewrite app_nil_r|].
  destruct (do_action a s) as [s1|] eqn:E; [|done]. intros H. rewrite (IH s1 s' H). destruct a as [m|off n|e]; simpl in E |- *.
  - destruct (sending s); [done|]. by injection E as <-.
  - destruct (recving s); [done|]. destruct (_ && _); [|done]. by injection E as <-.
  - injection E as <-. simpl. by rewrite <- app_assoc.
Qed.

Definition few (h : BSocksClient.BSocksClient * list BSocksClient.action) : Prop := (length (reported (snd h)) <= 1)%nat.

Lemma connector_few o ie ok : few (connector_handler realloc o ie ok).
Proof. unfold few, connector_handler, report_error. repeat case_match; simpl; lia. Qed.

Lemma auth_finished_few o : few (auth_finished realloc o).
Proof. unfold few, auth_finished, report_error. repeat case_match; simpl; lia. Qed.

Lemma send_few o : few (send_handler_done realloc o).
Proof. unfold few, send_handler_done, start_receive, do_receive, report_error. repeat case_match; simpl; lia. Qed.

Lemma hello_few o : few (recv_hello realloc o).
Proof.
  unfold recv_hello. destruct (negb _); [unfold few; simpl; lia|]. destruct (find_auth _ _) as [[|u p]|]; [apply auth_finished_few|..|unfold few; simpl; lia].
  unfold few, report_error. repeat case_match; simpl; lia.
Qed.

Lemma recv_few o n : few (recv_handler_done realloc o n).
Proof.
  unfold recv_handler_done. cbv zeta. destruct (_ <? _); [unfold few; simpl; lia|].
  destruct (state _); try apply hello_few; unfold recv_password_reply, recv_reply_header, recv_reply_rest; try (unfold few; simpl; lia).
  - destruct (negb _); [unfold few; simpl; lia|]. destruct (negb _); [unfold few; simpl; lia|]. apply auth_finished_few.
  - unfold few, report_error, start_receive, do_receive. repeat case_match; simplify_eq; simpl; lia.
Qed.

Lemma connection_few o e : few (connection_handler o e).
Proof. unfold few, connection_handler, report_error. repeat case_match; simpl; lia. Qed.

Lemma step_few s e s' : BSocksClient.sys_step realloc s e = Some s' -> exists l, events s' = events s ++ l /\ (length l <= 1)%nat.
Proof.
  unfold BSocksClient.sys_step. destruct (failed s); [done|]. intros H.
  assert (exists h s0, few h /\ events s0 = events s /\ BSocksClient.do_actions (snd h) s0 = Some s') as (h & s0 & F & E & H0).
  { destruct e as [ie ok| |d|ev].
    - destruct (state (cl s)); try done. pose proof (connector_few (cl s) ie ok) as F.
      destruct (connector_handler realloc (cl s) ie ok) as [o l]. by exists (o, l), (BSocksClient.Sys o (sending s) (recving s) (sent s) (rcvd s) (events s)).
    - destruct (sending s); [|done]. pose proof (send_few (cl s)) as F. destruct (send_handler_done realloc (cl s)) as [o l].
      by exists (o, l), (BSocksClient.Sys o false (recving s) (sent s) (rcvd s) (events s)).
    - destruct (recving s) as [[off n]|]; [|done]. destruct (_ && _); [|done]. cbv zeta in H.
      pose proof (recv_few (set_buffer (Some (splice off d (buf_bytes (cl s)))) (cl s)) (zlen d)) as F.
      destruct (recv_handler_done realloc _ _) as [o l]. by exists (o, l), (BSocksClient.Sys o (sending s) None (sent s) (rcvd s ++ d) (events s)).
    - pose proof (connection_few (cl s) ev) as F. destruct (connection_handler (cl s) ev) as [o l].
      exists (o, l), (BSocksClient.Sys o (sending s) (recving s) (sent s) (rcvd s) (events s)). by destruct (state (cl s)). }
  exists (reported (snd h)). split; [|done]. rewrite (do_actions_events _ _ _ H0). by rewrite E.
Qed.

(** ** Who changes the server of the udpgw client *)

Lemma find_unused_server fuel : forall o n o', find_unused_conid fuel o = Some (n, o') -> have_server o' = have_server o.
Proof.
  induction fuel as [|fuel IH]; intros o n o'; cbn [find_unused_conid]; [done|].
  destruct (find_connection_by_conid o (next_conid o)); [|by intros [= _ <-]]. intros H. rewrite (IH _ _ _ H). by destruct (_ =? _).
Qed.

Lemma init_server o a fl d m f o' : connection_init o a fl d m f = Some o' -> have_server o' = have_server o.
Proof.
  unfold connection_init. destruct m as [q|]; [|by intros [= <-]]. destruct (find_unused_conid _ o) as [[id o1]|] eqn:E; [|done].
  pose proof (find_unused_server _ _ _ _ E) as H. destruct f; simpl; by intros [= <-].
Qed.

(** Neither the server nor the surroundings are told of an error. *)
Definition silent (o : UdpGwClient.UdpGwClient) (r : UdpGwClient.UdpGwClient * list UdpGwClient.action) : Prop :=
  have_server (fst r) = have_server o /\ Servererror ∉ snd r.

Lemma send_silent q fl d o o0 : have_server o = have_server o0 -> silent o0 (connection_send q fl d o).
Proof.
  intros E. unfold connection_send, silent. destruct (heap o !! q) as [c|]; [|split; [done|set_solver]].
  destruct (Flow.BufferWriter.BufferWriter_StartPacket _); (split; [done|]); set_solver.
Qed.

Lemma submit_silent o l r dns d m f res : UdpGwClient_SubmitPacket o l r dns d m f = Some res -> silent o res.
Proof.
  unfold UdpGwClient_SubmitPacket. destruct (find_connection_by_conaddr _ _); [intros [= <-]; by apply send_silent|]. destruct (_ =? _).
  - unfold reuse_connection. destruct (connections_list o) as [|q l']; [done|]. destruct (heap o !! q); [|done]. intros [= <-]. by apply send_silent.
  - destruct (connection_init _ _ _ _ _ _) as [o'|] eqn:E; [|done]. intros [= <-]. split; [by eapply init_server|set_solver].
Qed.

Lemma recv_silent o d : silent o (recv_interface_handler_send o d).
Proof. unfold recv_interface_handler_send. repeat case_match; (split; [done|set_solver]). Qed.

Lemma first_job_silent o q : silent o (connection_first_job_handler q o).
Proof. unfold connection_first_job_handler. destruct (heap o !! q); [by apply send_silent|split; [done|set_solver]]. Qed.

Lemma gateway_step_server u e u' acts : own_event e = true -> UdpGwClient.sys_step u e = Some (u', acts) ->
  have_server (gw u') = have_server (gw u) /\ (Servererror ∉ acts \/ acts = [Servererror] /\ have_server (gw u) = true).
Proof.
  intros Ow. assert (forall r, silent (gw u) r -> forall us, u' = UdpGwClient.Sys (fst r) us -> acts = snd r ->
    have_server (gw u') = have_server (gw u) /\ (Servererror ∉ acts \/ acts = [Servererror] /\ have_server (gw u) = true)) as Q.
  { intros r [H1 H2] us -> ->. auto. }
  destruct e as [l r dns d m f|q|q|d| | |ok| |]; cbn [UdpGwClient.sys_step] in *; try done.
  - destruct (fresh_ptr _ _); [|done]. destruct (UdpGwClient_SubmitPacket _ _ _ _ _ _ _) as [[o' a']|] eqn:E; [|done]. intros [= <- <-].
    exact (Q (o', a') (submit_silent _ _ _ _ _ _ _ _ E) _ eq_refl eq_refl).
  - destruct (heap (gw u) !! q); [|done]. destruct (first_job _); [|done]. pose proof (first_job_silent (gw u) q) as S.
    destruct (connection_first_job_handler q (gw u)) as [o' a']. intros [= <- <-]. exact (Q (o', a') S _ eq_refl eq_refl).
  - destruct (heap (gw u) !! q); [|done]. intros [= <- <-]. split; [done|]. left. set_solver.
  - destruct (have_server (gw u)) eqn:E; [|done]. pose proof (recv_silent (gw u) d) as S.
    destruct (recv_interface_handler_send (gw u) d) as [o' a']. intros [= <- <-]. exact (Q (o', a') S _ eq_refl eq_refl).
  - unfold send_monitor_handler. destruct (keepalive_sending _); intros [= <- <-]; (split; [done|]); left; set_solver.
  - destruct (keepalive_sending _); [|done]. intros [= <- <-]. split; [done|]. left. set_solver.
  - destruct (have_server (gw u)) eqn:E; [|done]. intros [= <- <-]. auto.
Qed.

(** ** The invariant *)

Record Good (o : SocksUdpGwClient) : Prop := {
  g_udpgw : UdpGwClient.Good (udpgw_client o);
  g_timer : reconnect_timer o = negb (have_socks o);
  g_server : server o = have_socks o && socks_up o;
  g_dest : match remote_udpgw_addr o with Dest_IPv6 ip _ => zlen ip = 16 | _ => True end;
  g_none : have_socks o = false -> socks_client o = None;
  g_some : have_socks o = true -> exists c, socks_client o = Some c /\ BSocksClient.Inv c /\ failed c = false /\
    cfg (cl c) = (auth_list o, remote_udpgw_addr o) /\ events c = if socks_up o then [BSOCKSCLIENT_EVENT_UP] else [];
}.

(** The same connections, with the same ids, addresses and send buffers. *)
Record same_table (g g' : UdpGwClient.UdpGwClient) : Prop := {
  sm_heap : heap g' = heap g;
  sm_conaddr : connections_tree_by_conaddr g' = connections_tree_by_conaddr g;
  sm_conid : connections_tree_by_conid g' = connections_tree_by_conid g;
  sm_list : connections_list g' = connections_list g;
}.

Definition config (o : SocksUdpGwClient) : list auth_info * dest := (auth_list o, remote_udpgw_addr o).

(** The SOCKS client is taken away and the timer started: in a state that is good but for the
    SOCKS client itself, which has just failed. *)
Lemma free_and_retry o c : UdpGwClient.Good (udpgw_client o) -> have_socks o = true -> socks_client o = Some c -> server o = socks_up o ->
  match remote_udpgw_addr o with Dest_IPv6 ip _ => zlen ip = 16 | _ => True end ->
  exists o', (o' ← free_socks o; Some (set_timer true o')) = Some o' /\ Good o' /\ config o' = config o /\
    same_table (gw (udpgw_client o)) (gw (udpgw_client o')).
Proof.
  intros [W U] H C S D. unfold free_socks, assert. rewrite H. cbn [mbind option_bind]. destruct (socks_up o) eqn:E.
  - unfold disconnect_server, assert. rewrite S. cbn [mbind option_bind socks_client set_udpgw]. rewrite C. cbn [mbind option_bind].
    eexists. split; [reflexivity|]. split; [|by split]. constructor; try done. split; [by apply WF_have_server|done].
  - cbn [mbind option_bind]. rewrite C. cbn [mbind option_bind]. eexists. split; [reflexivity|]. split; [|by split]. by constructor.
Qed.

Lemma try_connect_good ok o : UdpGwClient.Good (udpgw_client o) -> have_socks o = false -> socks_client o = None -> reconnect_timer o = false ->
  server o = false -> match remote_udpgw_addr o with Dest_IPv6 ip _ => zlen ip = 16 | _ => True end ->
  exists o', try_connect ok o = Some o' /\ Good o' /\ config o' = config o /\ same_table (gw (udpgw_client o)) (gw (udpgw_client o')).
Proof.
  intros G H C T S D. unfold try_connect, assert. rewrite H, T. cbn [mbind option_bind negb]. unfold BSocksClient_Init.
  destruct ok; eexists; (split; [reflexivity|]); (split; [|by split]); constructor; try done; simpl; try (by rewrite ?H, ?S).
  - intros _. eexists. split; [reflexivity|]. split; [|done]. by apply (start_Inv (auth_list o) (remote_udpgw_addr o)).
Qed.

(** *** Events of the SOCKS client *)

Lemma events_alive c c' l up : BSocksClient.Inv c' -> failed c' = false -> events c = (if up : bool then [BSOCKSCLIENT_EVENT_UP] else []) ->
  events c' = events c ++ l -> l = [] \/ up = false /\ l = [BSOCKSCLIENT_EVENT_UP].
Proof.
  intros I F E E'. pose proof (i_up _ I F) as U. rewrite E', E in U. destruct up, (state (cl c')); simpl in U; try discriminate U; auto.
  all: injection U as ->; auto.
Qed.

Lemma events_failed c c' l : failed c = false -> failed c' = true -> events c' = events c ++ l -> (length l <= 1)%nat ->
  exists e, l = [e] /\ e <> BSOCKSCLIENT_EVENT_UP.
Proof.
  unfold failed. intros F F' E L. rewrite E, existsb_app, F in F'. destruct l as [|e [|? ?]]; [done| |simpl in L; lia]. exists e. split; [done|].
  by intros ->.
Qed.

Lemma step_socks_good o e ok : Good o -> enabled o (Socks e ok) ->
  exists o' out, step o (Socks e ok) = Some (o', out) /\ Good o' /\ config o' = config o /\ same_table (gw (udpgw_client o)) (gw (udpgw_client o')).
Proof.
  intros G (c & C & En). cbn [step]. rewrite C. cbn [mbind option_bind].
  destruct (have_socks o) eqn:H; [|rewrite (g_none _ G H) in C; discriminate C].
  destruct (g_some _ G H) as (c0 & C0 & I & F & Cf & Ev). rewrite C in C0. injection C0 as <-.
  destruct (BSocksClient.step_Inv realloc realloc_size c e I En) as (c' & St & I'). rewrite St. cbn [mbind option_bind].
  pose proof (step_cfg realloc realloc_size c e c' St) as Cf'. destruct (step_few c e c' St) as (l & El & Ll).
  rewrite El, drop_app_length. set (o1 := set_socks (Some c') o). pose proof (g_server _ G) as Sv. rewrite H in Sv. cbn [andb] in Sv.
  assert (forall x, x <> BSOCKSCLIENT_EVENT_UP -> exists o', socks_events ok [x] o1 = Some o' /\ Good o' /\ config o' = config o /\
    same_table (gw (udpgw_client o)) (gw (udpgw_client o'))) as Fail.
  { intros x Nx. destruct (free_and_retry o1 c' (g_udpgw _ G) H eq_refl Sv (g_dest _ G)) as (o' & E' & Ho'). exists o'. split; [|exact Ho'].
    unfold socks_events, socks_client_handler, assert. change (have_socks o1) with (have_socks o). rewrite H. cbn [mbind option_bind].
    destruct x; [| done|]; cbn [mbind option_bind] in E'; by rewrite E'. }
  destruct (failed c') eqn:F'.
  { destruct (events_failed c c' l F F' El Ll) as (x & -> & Nx). destruct (Fail x Nx) as (o' & -> & Ho'). cbn [mbind option_bind]. eauto. }
  assert (forall up, events c' = (if up : bool then [BSOCKSCLIENT_EVENT_UP] else []) -> exists c1, Some c' = Some c1 /\ BSocksClient.Inv c1 /\
    failed c1 = false /\ cfg (cl c1) = (auth_list o, remote_udpgw_addr o) /\ events c1 = (if up then [BSOCKSCLIENT_EVENT_UP] else [])) as Some'.
  { intros up Eu. exists c'. split; [done|]. split; [done|]. split; [done|]. split; [by rewrite Cf'|done]. }
  destruct (events_alive c c' l (socks_up o) I' F' Ev El) as [->|[Up ->]].
  { cbn [socks_events mbind option_bind]. eexists _, _. split; [reflexivity|]. split; [|by split]. constructor; simpl; try apply G.
    - by rewrite H.
    - intros _. apply Some'. by rewrite El, app_nil_r. }
  unfold socks_events, socks_client_handler, assert. change (have_socks o1) with (have_socks o). change (socks_up o1) with (socks_up o).
  rewrite H, Up. cbn [mbind option_bind negb]. unfold connect_server, assert. change (server o1) with (server o). rewrite Sv, Up. cbn [mbind option_bind negb].
  destruct ok; unfold UdpGwClient_ConnectServer; cbn [mbind option_bind].
  - eexists _, _. split; [reflexivity|]. split; [|by split]. destruct (g_udpgw _ G) as [W U]. constructor; simpl; try apply G.
    + split; [by apply WF_have_server|done].
    + by rewrite H.
    + by rewrite H.
    + intros _. apply (Some' true). rewrite El, Ev. by rewrite Up.
  - destruct (free_and_retry o1 c' (g_udpgw _ G) H eq_refl Sv (g_dest _ G)) as (o' & E' & Ho'). cbn [mbind option_bind] in E'.
    change (option_bind _ _ (fun o0 => Some (set_timer true o0)) (free_socks o1)) with (free_socks o1 ≫= fun o0 => Some (set_timer true o0)).
    rewrite E'. cbn [mbind option_bind]. eauto.
Qed.

(** *** Events of the udpgw client, and the timer *)

Lemma silent_actions l : forall o, Servererror ∉ l -> exists out, gateway_actions l o = Some (o, out).
Proof.
  induction l as [|a l IH]; intros o N; [by eexists|]. apply not_elem_of_cons in N as [Na Nl]. destruct (IH o Nl) as [out E].
  destruct a; try done; cbn [gateway_actions]; rewrite E; cbn [mbind option_bind]; eauto.
Qed.

Lemma step_gateway_good o e : Good o -> enabled o (Gateway e) ->
  exists o' out, step o (Gateway e) = Some (o', out) /\ Good o' /\ config o' = config o.
Proof.
  intros G [Ow En]. cbn [step]. unfold assert. rewrite Ow. cbn [mbind option_bind].
  destruct (UdpGwClient.step_Good (udpgw_client o) e (g_udpgw _ G) En) as (u & acts & E & Gu). rewrite E. cbn [mbind option_bind].
  destruct (gateway_step_server _ _ _ _ Ow E) as [Sv [N|[-> Se]]].
  - destruct (silent_actions acts (set_udpgw u o) N) as [out ->]. eexists _, _. split; [reflexivity|]. split; [|done].
    constructor; simpl; try done; try apply G. unfold server; simpl. rewrite Sv. apply G.
  - fold (server o) in Se. rewrite (g_server _ G) in Se. apply andb_true_iff in Se as [H Up]. destruct (g_some _ G H) as (c & C & _).
    destruct (free_and_retry (set_udpgw u o) c Gu H C) as (o' & E' & Go & Co & _).
    { unfold server; simpl. rewrite Sv, Up. change (have_server (gw (udpgw_client o))) with (server o). by rewrite (g_server _ G), H, Up. }
    { apply G. }
    cbn [gateway_actions]. unfold udpgw_handler_servererror, assert. change (have_socks (set_udpgw u o)) with (have_socks o).
    change (socks_up (set_udpgw u o)) with (socks_up o). rewrite H, Up. cbn [mbind option_bind] in E' |- *. rewrite E'. cbn [mbind option_bind].
    exists o', []. split; [done|]. split; [done|exact Co].
Qed.

Lemma step_timer_good o ok : Good o -> enabled o (Timer ok) ->
  exists o' out, step o (Timer ok) = Some (o', out) /\ Good o' /\ config o' = config o /\ same_table (gw (udpgw_client o)) (gw (udpgw_client o')).
Proof.
  intros G T. simpl in T. cbn [step]. unfold assert. rewrite T. cbn [mbind option_bind]. unfold reconnect_timer_handler, assert.
  assert (have_socks o = false) as H by (rewrite (g_timer _ G) in T; by apply negb_true_iff).
  change (have_socks (set_timer false o)) with (have_socks o). rewrite H. cbn [mbind option_bind negb].
  destruct (try_connect_good ok (set_timer false o)) as (o' & -> & Ho'); try done; try exact (g_udpgw _ G); try exact (g_dest _ G).
  - exact (g_none _ G H).
  - change (server o = false). by rewrite (g_server _ G), H.
  - cbn [mbind option_bind]. eauto.
Qed.

Lemma step_good o e : Good o -> enabled o e -> exists o' out, step o e = Some (o', out) /\ Good o' /\ config o' = config o.
Proof.
  intros G En. destruct e as [e ok|e|ok].
  - destruct (step_socks_good o e ok G En) as (o' & out & E & G' & C & _). eauto.
  - by apply step_gateway_good.
  - destruct (step_timer_good o ok G En) as (o' & out & E & G' & C & _). eauto.
Qed.

Lemma init_good mtu max size auths d socks_ok o : 0 < max -> match d with Dest_IPv6 ip _ => zlen ip = 16 | _ => True end ->
  SocksUdpGwClient_Init mtu max size auths d true socks_ok = Some (Some o) -> Good o /\ config o = (auths, d).
Proof.
  intros Hm Hd. unfold SocksUdpGwClient_Init. destruct (UdpGwClient_Init mtu max size true) as [g|] eqn:E; [|done].
  assert (UdpGwClient.Good (UdpGwClient.Sys g [])) as Gu by (apply (start_Good mtu max size); [done|]; unfold UdpGwClient.start; by rewrite E).
  destruct (try_connect_good socks_ok (SUG auths d (UdpGwClient.Sys g []) false false None false)) as (o' & -> & G & C & _); try done.
  { unfold UdpGwClient_Init in E. by injection E as <-. }
  intros [= <-]. by split.
Qed.

Lemma reachable_good o0 o : Good o0 -> reachable o0 o -> Good o /\ config o = config o0.
Proof.
  intros G. induction 1 as [|o e o' out _ [IH C] En E]; [done|]. destruct (step_good o e IH En) as (o2 & out2 & E2 & G2 & C2).
  rewrite E in E2. injection E2 as -> ->. split; [done|congruence].
Qed.

(** ** Properties *)

(** C23: the tunnel to the gateway is kept up. Whatever the SOCKS server, the
    gateway, the user and memory do, no assertion fails and no object is used that is
    not initialised; there is always either a SOCKS client under way or the timer that will
    start the next one, never both; and the udpgw client has a server exactly while its
    stream is a SOCKS connection on which the whole dialogue was successful, with the
    configured credentials and the configured gateway as its destination. *)
Theorem gateway_tunnel mtu max size auths d socks_ok o0 o : 0 < max ->
  match d with Dest_IPv6 ip _ => zlen ip = 16 | _ => True end ->
  SocksUdpGwClient_Init mtu max size auths d true socks_ok = Some (Some o0) -> reachable o0 o ->
  (forall e, enabled o e -> is_Some (step o e)) /\
  reconnect_timer o = negb (have_socks o) /\ (have_socks o = true <-> is_Some (socks_client o)) /\
  (server o = true <-> exists c, socks_client o = Some c /\ state (cl c) = STATE_UP) /\
  (server o = true -> exists c au, socks_client o = Some c /\ state (cl c) = STATE_UP /\ good_dialogue auths au (rcvd c) /\
     sent c = hello_msg auths :: auth_msgs au ++ [request_msg d]).
Proof.
  intros Hm Hd Hi Hr. destruct (init_good _ _ _ _ _ _ _ Hm Hd Hi) as [G0 C0]. destruct (reachable_good o0 o G0 Hr) as [G C].
  rewrite C0 in C. injection C as Ca Cd.
  assert (server o = true -> exists c au, socks_client o = Some c /\ state (cl c) = STATE_UP /\ good_dialogue auths au (rcvd c) /\
    sent c = hello_msg auths :: auth_msgs au ++ [request_msg d]) as Up.
  { rewrite (g_server _ G). intros [H Up]%andb_true_iff. destruct (g_some _ G H) as (c & E & I & F & Cf & Ev). exists c. rewrite Up in Ev.
    pose proof (i_up _ I F) as U. pose proof (i_phase _ I F) as Ph. rewrite Ev in U. unfold phase in Ph. injection Cf as Cf1 Cf2.
    destruct (state (cl c)); try discriminate U. destruct Ph as (au & [_ Hs] & Hg & _). exists au. rewrite Cf1, Ca in Hg. rewrite Cf1, Cf2, Ca, Cd in Hs. done. }
  assert (have_socks o = true <-> is_Some (socks_client o)) as Hs.
  { split; [intros H; destruct (g_some _ G H) as (c & -> & _); eauto|]. intros [c E]. destruct (have_socks o) eqn:H; [done|].
    by rewrite (g_none _ G H) in E. }
  split; [|split; [apply G|split; [exact Hs|split; [split|exact Up]]]].
  - intros e En. destruct (step_good o e G En) as (o' & out & -> & _). eauto.
  - intros H. destruct (Up H) as (c & _ & H1 & H2 & _). eauto.
  - intros (c & E & St). assert (have_socks o = true) as H by (apply Hs; eauto). rewrite (g_server _ G), H.
    destruct (g_some _ G H) as (c' & E' & I & F & _ & Ev). rewrite E in E'. injection E' as <-. pose proof (i_up _ I F) as U.
    rewrite St, Ev in U. by destruct (socks_up o).
Qed.

(** Losing the gateway and getting it back costs no connection: what happens to the SOCKS
    client, and the timer, leave the table of connections with their ids as it is. *)
Theorem gateway_reconnects o0 o e o' out : Good o0 -> reachable o0 o -> enabled o e -> step o e = Some (o', out) ->
  match e with Gateway _ => False | _ => True end -> same_table (gw (udpgw_client o)) (gw (udpgw_client o')) /\ out = [].
Proof.
  intros G0 Hr En E He. destruct (reachable_good o0 o G0 Hr) as [G _]. destruct e as [e ok|e|ok]; [|done|].
  - destruct (step_socks_good o e ok G En) as (o2 & out2 & E2 & _ & _ & T). rewrite E in E2. injection E2 as -> ->. split; [done|].
    cbn [step] in E. destruct (socks_client o); [|done]. cbn [mbind option_bind] in E. destruct (BSocksClient.sys_step _ _ _); [|done].
    cbn [mbind option_bind] in E. destruct (socks_events _ _ _); [|done]. by injection E.
  - destruct (step_timer_good o ok G En) as (o2 & out2 & E2 & _ & _ & T). rewrite E in E2. injection E2 as -> ->. split; [done|].
    cbn [step] in E. destruct (assert _); [|done]. cbn [mbind option_bind] in E. destruct (reconnect_timer_handler _ _); [|done]. by injection E.
Qed.

(** Freeing it releases what is initialised and nothing else: the sub-objects of the
    SOCKS client if there is one, and the connections, by then without a server. *)
Theorem gateway_free o0 o : Good o0 -> reachable o0 o ->
  SocksUdpGwClient_Free o = Some (match socks_client o with Some c => initialised (cl c) | None => [] end,
    map Connection_Free (connections_list (gw (udpgw_client o))) ++ [Queue_Free]).
Proof.
  intros G0 Hr. destruct (reachable_good o0 o G0 Hr) as [G _]. unfold SocksUdpGwClient_Free.
  assert (forall o', UdpGwClient.Good (udpgw_client o') -> server o' = false -> snd (UdpGwClient_Free (gw (udpgw_client (set_timer false o')))) =
    map Connection_Free (connections_list (gw (udpgw_client o'))) ++ [Queue_Free]) as Fr.
  { intros o' [W _] S. destruct (free_connections_spec _ _ W eq_refl) as (_ & _ & _ & H3 & H4). unfold UdpGwClient_Free. simpl.
    destruct (free_connections _ _) as [g l]. cbn [fst snd] in *. unfold server in S. by rewrite H3, H4, S. }
  destruct (have_socks o) eqn:H.
  - destruct (g_some _ G H) as (c & C & I & _). rewrite C. pose proof (g_server _ G) as S. rewrite H in S. cbn [andb] in S.
    assert (BSocksClient_Free (cl c) = initialised (cl c)) as ->.
    { pose proof (i_res _ I) as R. unfold res_ok in R. unfold BSocksClient_Free, initialised. rewrite R. by destruct (state (cl c)). }
    unfold free_socks, assert. rewrite H. cbn [mbind option_bind]. destruct (socks_up o) eqn:Up.
    + unfold disconnect_server, assert. rewrite S. cbn [mbind option_bind socks_client set_udpgw]. rewrite C. cbn [mbind option_bind].
      rewrite Fr; [done| |done]. destruct (g_udpgw _ G) as [W U]. split; [by apply WF_have_server|done].
    + cbn [mbind option_bind]. rewrite C. cbn [mbind option_bind]. rewrite Fr; [done|apply G|exact S].
  - rewrite (g_none _ G H). cbn [mbind option_bind]. rewrite Fr; [done|apply G|]. by rewrite (g_server _ G), H.
Qed.

End Tunnel.

(** ** Example: the dialogue of the SOCKS client's example *)

(** Events of the SOCKS client, one after another. *)
Fixpoint socks_run (realloc : option (list byte) -> Z -> option (list byte)) (o : SocksUdpGwClient) (es : list BSocksClient.event)
  : option SocksUdpGwClient :=
  match es with
  | [] => Some o
  | e :: es => '(o, _) ← step realloc o (Socks e true); socks_run realloc o es
  end.

Lemma socks_run_reach realloc o0 es : forall o o', reachable realloc o0 o -> socks_run realloc o es = Some o' -> reachable realloc o0 o'.
Proof.
  induction es as [|e es IH]; intros o o' R; cbn [socks_run]; [by intros [= <-]|].
  destruct (step realloc o (Socks e true)) as [[o1 out]|] eqn:E; [|done]. cbn [mbind option_bind]. apply IH.
  apply (reach_step _ _ o (Socks e true) o1 out); [done| |done]. cbn [step] in E. destruct (socks_client o) as [c|] eqn:C; [|done].
  cbn [mbind option_bind] in E. destruct (BSocksClient.sys_step realloc c e) as [c'|] eqn:Es; [|done]. exists c. split; [done|].
  by eapply BSocksClient.step_enabled.
Qed.

Definition ex_tunnel0 : SocksUdpGwClient :=
  default (SUG [] ex_dest (UdpGwClient.Sys (GW 0 0 0 0 0 ∅ ∅ ∅ [] 0 0 false false) []) false false None false)
    (mjoin (SocksUdpGwClient_Init 1500 2 8 ex_auths ex_dest true true)).

Definition ex_tunnel : SocksUdpGwClient := default ex_tunnel0 (socks_run keep_realloc ex_tunnel0 ex_events).

Lemma gateway_tunnel_witness : server ex_tunnel = true /\
  exists c au, socks_client ex_tunnel = Some c /\ state (cl c) = STATE_UP /\ good_dialogue ex_auths au (rcvd c) /\
    sent c = hello_msg ex_auths :: auth_msgs au ++ [request_msg ex_dest].
Proof.
  split; [vm_compute; reflexivity|].
  refine (proj2 (proj2 (proj2 (proj2 (gateway_tunnel keep_realloc keep_realloc_size 1500 2 8 ex_auths ex_dest true ex_tunnel0 ex_tunnel _ _ _ _)))) _).
  - lia.
  - exact I.
  - vm_compute. reflexivity.
  - apply (socks_run_reach keep_realloc ex_tunnel0 ex_events ex_tunnel0); [apply reach_start|vm_compute; reflexivity].
  - vm_compute. reflexivity.
Defined.
