(* ===== verification/Tun2socksUdp.v ===== *)
(** * UDP at the TUN device

    The datagram half of [tun2socks/tun2socks.c]: recognising UDP packets read
    from the device and handing them to the gateway client
    ([process_device_udp_packet]), building the packets that carry the gateway's
    datagrams to the device ([udpgw_client_handler_received]), and the DNS
    redirection ([process_device_dns_packet] with its table of pending queries).
    The device's buffer is the packet handed to [BTap_Send]. *)

From Stdlib Require Import ZArith Lia.
From stdpp Require Import gmap.
From S2P Require Import Prelude ByteOrder IpProto BAddr.

(** The options and the addresses of the interface these functions read. *)
Record config := Config {
  udpgw_remote_server_addr : bool;      (** a gateway is configured *)
  udpgw_transparent_dns : bool;
  netif_ipaddr : Z;
  netif_ip6addr : bool;                 (** IPv6 is enabled *)
  udp_mtu : Z;
  device_mtu : Z;
  dnsgw : option (Z * Z)                (** address and port of the DNS gateway *)
}.

Definition ip_version (data : list byte) : Z :=
  if 0 <? zlen data then Z.shiftr (b2z (data !!! 0%nat)) 4 else 0.

(** ** From the device to the gateway *)

(** [None] is the return value 0; the submitted packet otherwise: local address,
    remote address, [is_dns], payload. *)
Definition process_device_udp_packet (cfg : config) (data : list byte)
    : option (BAddr * BAddr * bool * list byte) :=
  if negb (udpgw_remote_server_addr cfg) then None else
  let parsed :=
    if ip_version data =? 4 then
      if (zlen data <? sizeof_ipv4_header) || negb (b2z (data !!! 9%nat) =? IPV4_PROTOCOL_UDP) then None else
      match ipv4_check data with
      | None => None
      | Some (ipv4_header, data) =>
          match udp_check data with
          | None => None
          | Some (udp_header, data) =>
              let checksum_in_packet := udp_cksum udp_header in
              let udp_header := udp_set_checksum 0 udp_header in
              let checksum_computed := udp_checksum udp_header data (zlen data)
                (source_address ipv4_header) (destination_address ipv4_header) in
              if negb (checksum_in_packet =? checksum_computed) then None else
              Some (BAddr_IPv4 (source_address ipv4_header) (source_port udp_header),
                    BAddr_IPv4 (destination_address ipv4_header) (dest_port udp_header),
                    udpgw_transparent_dns cfg && (destination_address ipv4_header =? netif_ipaddr cfg)
                      && (dest_port udp_header =? hton16 53), data)
          end
      end
    else if ip_version data =? 6 then
      if negb (netif_ip6addr cfg) then None else
      if (zlen data <? sizeof_ipv6_header) || negb (b2z (data !!! 6%nat) =? IPV6_NEXT_UDP) then None else
      match ipv6_check data with
      | None => None
      | Some (ipv6_header, data) =>
          match udp_check data with
          | None => None
          | Some (udp_header, data) =>
              let checksum_in_packet := udp_cksum udp_header in
              let udp_header := udp_set_checksum 0 udp_header in
              let checksum_computed := udp_ip6_checksum udp_header data (zlen data)
                (source_address6 ipv6_header) (destination_address6 ipv6_header) in
              if negb (checksum_in_packet =? checksum_computed) then None else
              Some (BAddr_IPv6 (source_address6 ipv6_header) (source_port udp_header),
                    BAddr_IPv6 (destination_address6 ipv6_header) (dest_port udp_header), false, data)
          end
      end
    else None in
  match parsed with
  | None => None
  | Some (local_addr, remote_addr, is_dns, data) =>
      if udp_mtu cfg <? zlen data then None else Some (local_addr, remote_addr, is_dns, data)
  end.

(** ** From the gateway to the device *)

(** The packet sent to the device; [None] if the datagram is dropped. Local and
    remote are of one family; a mixed pair is excluded by the caller. *)
Definition udpgw_client_handler_received (cfg : config) (local_addr remote_addr : BAddr) (data : list byte)
    : option (list byte) :=
  let data_len := zlen data in
  match local_addr, remote_addr with
  | BAddr_IPv4 local_ip local_port, BAddr_IPv4 remote_ip remote_port =>
      if (UINT16_MAX - (sizeof_ipv4_header + sizeof_udp_header) <? data_len) ||
         (device_mtu cfg - (sizeof_ipv4_header + sizeof_udp_header) <? data_len) then None else
      let iph := Ipv4Header (IPV4_MAKE_VERSION_IHL sizeof_ipv4_header) (hton8 0)
        (hton16 (u16 (sizeof_ipv4_header + sizeof_udp_header + data_len))) (hton16 0) (hton16 0)
        (hton8 64) (hton8 IPV4_PROTOCOL_UDP) (hton16 0) remote_ip local_ip in
      let iph := ipv4_set_checksum (ipv4_checksum iph [] 0) iph in
      let udph := UdpHeader remote_port local_port (hton16 (u16 (sizeof_udp_header + data_len))) (hton16 0) in
      let udph := udp_set_checksum
        (udp_checksum udph data data_len (source_address iph) (destination_address iph)) udph in
      Some (ipv4_header_bytes iph ++ udp_header_bytes udph ++ data)
  | BAddr_IPv6 local_ip local_port, BAddr_IPv6 remote_ip remote_port =>
      if negb (netif_ip6addr cfg) then None else
      if (UINT16_MAX - sizeof_udp_header <? data_len) ||
         (device_mtu cfg - (sizeof_ipv6_header + sizeof_udp_header) <? data_len) then None else
      let iph := Ipv6Header (hton8 (Z.shiftl 6 4)) (hton8 0) (hton16 0)
        (hton16 (u16 (sizeof_udp_header + data_len))) (hton8 IPV6_NEXT_UDP) (hton8 64) remote_ip local_ip in
      let udph := UdpHeader remote_port local_port (hton16 (u16 (sizeof_udp_header + data_len))) (hton16 0) in
      let udph := udp_set_checksum
        (udp_ip6_checksum udph data data_len (source_address6 iph) (destination_address6 iph)) udph in
      Some (ipv6_header_bytes iph ++ udp_header_bytes udph ++ data)
  | _, _ => None
  end.

(** ** DNS redirection *)

Record Connection := Conn { c_local_addr : BAddr; c_remote_addr : BAddr; c_port : Z; c_count : Z }.

(** [connections_tree], by port, and the [init] flag of
    [process_device_dns_packet]. *)
Record dns_state := Dns { dns_init : bool; connections_tree : gmap Z Connection }.

Definition conaddr_comparator (v1 v2 : Z) : Z :=
  if v1 =? v2 then 0 else if v2 <? v1 then 1 else -1.

Definition find_connection (t : gmap Z Connection) (port : Z) : option Connection := t !! port.

Definition remove_connection (t : gmap Z Connection) (con : Connection) : gmap Z Connection :=
  let con := Conn (c_local_addr con) (c_remote_addr con) (c_port con) (c_count con - 1) in
  if c_count con <=? 0 then delete (c_port con) t else <[c_port con := con]> t.

Definition insert_connection (t : gmap Z Connection) (local_addr remote_addr : BAddr) (port : Z)
    : gmap Z Connection :=
  match find_connection t port with
  | Some con => <[port := Conn (c_local_addr con) (c_remote_addr con) (c_port con) (c_count con + 1)]> t
  | None => <[port := Conn local_addr remote_addr port 1]> t
  end.

Definition free_connections (t : gmap Z Connection) : gmap Z Connection := ∅.

(** [addr.ipv4.ip] and [addr.ipv4.port]; the table only holds IPv4 addresses. *)
Definition ipv4_ip (a : BAddr) : Z := match a with BAddr_IPv4 ip _ => ip | _ => 0 end.
Definition ipv4_port (a : BAddr) : Z := match a with BAddr_IPv4 _ port => port | _ => 0 end.

Definition ipv4_set_addresses (s d : Z) (h : ipv4_header) : ipv4_header :=
  Ipv4Header (version4_ihl4 h) (ds h) (total_length h) (identification h) (flags3_fragmentoffset13 h)
    (ttl h) (protocol h) (ipv4_cksum h) s d.
Definition udp_set_ports (s d : Z) (h : udp_header) : udp_header := UdpHeader s d (udp_len h) (udp_cksum h).

(** The end of the function: both checksums are renewed and the packet is written. *)
Definition write_dns_packet (iph : ipv4_header) (udph : udp_header) (data : list byte) : list byte :=
  let iph := ipv4_set_checksum (hton16 0) iph in
  let iph := ipv4_set_checksum (ipv4_checksum iph [] 0) iph in
  let udph := udp_set_checksum (hton16 0) udph in
  let udph := udp_set_checksum
    (udp_checksum udph data (zlen data) (source_address iph) (destination_address iph)) udph in
  ipv4_header_bytes iph ++ udp_header_bytes udph ++ data.

(** [None]: not handled. Otherwise the new table and the packet sent. The memory
    for a table entry is taken to be available: the code uses it unchecked. *)
Definition process_device_dns_packet (cfg : config) (st : dns_state) (data : list byte)
    : option (dns_state * list byte) :=
  match dnsgw cfg with
  | None => None
  | Some (gw_ip, gw_port) =>
      if negb (ip_version data =? 4) then None else
      if (zlen data <? sizeof_ipv4_header) || negb (b2z (data !!! 9%nat) =? IPV4_PROTOCOL_UDP) then None else
      match ipv4_check data with
      | None => None
      | Some (iph, data) =>
          match udp_check data with
          | None => None
          | Some (udph, data) =>
              let checksum_in_packet := udp_cksum udph in
              let udph := udp_set_checksum 0 udph in
              let checksum_computed :=
                udp_checksum udph data (zlen data) (source_address iph) (destination_address iph) in
              if negb (checksum_in_packet =? checksum_computed) then None else
              let to_dns := dest_port udph =? hton16 53 in
              let from_dns := source_port udph =? gw_port in
              if to_dns then
                let tree := if dns_init st then connections_tree st else ∅ in
                let tree := insert_connection tree
                  (BAddr_IPv4 (source_address iph) (source_port udph))
                  (BAddr_IPv4 (destination_address iph) (dest_port udph)) (source_port udph) in
                Some (Dns true tree,
                      write_dns_packet (ipv4_set_addresses (netif_ipaddr cfg) gw_ip iph)
                        (udp_set_ports (source_port udph) gw_port udph) data)
              else if from_dns then
                if negb (dns_init st) then None else
                match find_connection (connections_tree st) (dest_port udph) with
                | None => None
                | Some con =>
                    Some (Dns true (remove_connection (connections_tree st) con),
                          write_dns_packet
                            (ipv4_set_addresses (ipv4_ip (c_remote_addr con)) (ipv4_ip (c_local_addr con)) iph)
                            (udp_set_ports (ipv4_port (c_remote_addr con)) (dest_port udph) udph) data)
                end
              else None
          end
      end
  end.

(** ** The device's reader and writer *)

Inductive route :=
| To_Device (packet : list byte)                                        (** answered by the DNS redirection *)
| To_Udpgw (local remote : BAddr) (is_dns : bool) (payload : list byte)
| To_Lwip (packet : list byte)
| Dropped.

(** [pbuf_ok] is the result of [pbuf_alloc]. *)
Definition device_read_handler_send (cfg : config) (st : dns_state) (data : list byte) (pbuf_ok : bool)
    : dns_state * route :=
  match process_device_dns_packet cfg st data with
  | Some (st', packet) => (st', To_Device packet)
  | None =>
      match process_device_udp_packet cfg data with
      | Some (l, r, dns, d) => (st, To_Udpgw l r dns d)
      | None =>
          if UINT16_MAX <? zlen data then (st, Dropped)
          else if pbuf_ok then (st, To_Lwip data) else (st, Dropped)
      end
  end.

(** The loop over the chunks of a packet; [buf] is what [device_write_buf] holds,
    [len] bytes of it written. *)
Fixpoint gather (mtu : Z) (chunks : list (list byte)) (buf : list byte) (len : Z) : option (list byte * Z) :=
  match chunks with
  | [] => Some (buf, len)
  | c :: cs => if mtu - len <? zlen c then None else gather mtu cs (splice len c buf) (len + zlen c)
  end.

(** The packet handed to [BTap_Send], if any; [p :: rest] is the chain of chunks. *)
Definition common_netif_output (cfg : config) (quitting : bool) (buf : list byte) (p : list byte) (rest : list (list byte))
    : option (list byte) :=
  if quitting then None else
  match rest with
  | [] => if device_mtu cfg <? zlen p then None else Some p
  | _ =>
      match gather (device_mtu cfg) (p :: rest) buf 0 with
      | None => None
      | Some (buf, len) => Some (slice 0 len buf)
      end
  end.

(** ** Packets *)

(** [data] is a UDP packet over IPv4 without options, every length consistent and
    every checksum right. *)
Record udp4_packet (data : list byte) (src sport dst dport : Z) (payload : list byte) : Prop := {
  u4_wf : exists iph udph segment,
    ipv4_check data = Some (iph, segment) /\ udp_check segment = Some (udph, payload) /\
    version4_ihl4 iph = 0x45 /\ protocol iph = IPV4_PROTOCOL_UDP /\
    ntoh16 (total_length iph) = 28 + zlen payload /\ ntoh16 (udp_len udph) = 8 + zlen payload /\
    source_address iph = src /\ destination_address iph = dst /\
    source_port udph = sport /\ dest_port udph = dport /\
    udp_cksum udph = udp_checksum (udp_set_checksum 0 udph) payload (zlen payload) src dst
}.

Lemma udp_checksum_range h p l s d : 0 <= udp_checksum h p l s d < 2 ^ 16.
Proof. apply hton16_range. Qed.
Lemma udp_ip6_checksum_range h p l s d : 0 <= udp_ip6_checksum h p l s d < 2 ^ 16.
Proof. apply hton16_range. Qed.

(** Headers sealed by the code make a correct packet. *)
Lemma sealed_packet iph udph data :
  ipv4_header_wf iph -> udp_header_wf udph -> version4_ihl4 iph = 0x45 -> protocol iph = IPV4_PROTOCOL_UDP ->
  ntoh16 (total_length iph) = 28 + zlen data -> ntoh16 (udp_len udph) = 8 + zlen data ->
  udp4_packet (write_dns_packet iph udph data) (source_address iph) (source_port udph)
    (destination_address iph) (dest_port udph) data.
Proof.
  intros Hi Hu Hv Hp Ht Hl. split. unfold write_dns_packet.
  pose proof (ipv4_sealed_check iph) as Hseal. cbv zeta in Hseal. assert (hton16 0 = 0) as Hz by reflexivity.
  rewrite Hz in *.
  set (ck := udp_checksum (udp_set_checksum 0 udph) data (zlen data) _ _).
  eexists _, (udp_set_checksum ck udph), (udp_header_bytes (udp_set_checksum ck udph) ++ data).
  split; [apply Hseal; [done|done|]; rewrite Ht, zlen_app, zlen_udp_header_bytes; lia|].
  split; [apply udp_check_bytes; [|exact Hl]; destruct Hu; constructor; [assumption..|apply udp_checksum_range]|].
  split_and!; try reflexivity; assumption.
Qed.

Lemma received_as_written cfg lip lport rip rport data :
  zlen data <= 65535 - 28 -> zlen data <= device_mtu cfg - 28 ->
  udpgw_client_handler_received cfg (BAddr_IPv4 lip lport) (BAddr_IPv4 rip rport) data =
  Some (write_dns_packet
    (Ipv4Header 0x45 0 (hton16 (28 + zlen data)) 0 0 64 17 0 rip lip)
    (UdpHeader rport lport (hton16 (8 + zlen data)) 0) data).
Proof.
  intros H1 H2. pose proof (zlen_nonneg data). unfold udpgw_client_handler_received.
  unfold UINT16_MAX, sizeof_ipv4_header, sizeof_udp_header.
  destruct (Z.ltb_spec (2 ^ 16 - 1 - (20 + 8)) (zlen data)); [lia|].
  destruct (Z.ltb_spec (device_mtu cfg - (20 + 8)) (zlen data)); [lia|]. cbn [orb].
  rewrite !(u16_id (8 + zlen data)), !(u16_id (20 + 8 + zlen data)) by lia.
  replace (20 + 8 + zlen data) with (28 + zlen data) by lia. reflexivity.
Qed.

Lemma ipv4_check_header data iph seg :
  ipv4_check data = Some (iph, seg) -> 20 <= zlen data /\ iph = ipv4_header_load data.
Proof.
  unfold ipv4_check. destruct (Z.ltb_spec (zlen data) sizeof_ipv4_header) as [|Hge]; [done|].
  unfold sizeof_ipv4_header in Hge. intros Hi.
  repeat match type of Hi with (if ?b then _ else _) = _ => destruct b; [done|] end. injection Hi as <- _. done.
Qed.

(** What the device's reader makes of a correct packet. *)
Lemma udp4_header_bytes data src sport dst dport payload :
  udp4_packet data src sport dst dport payload ->
  ip_version data = 4 /\ 20 <= zlen data /\ b2z (data !!! 9%nat) = IPV4_PROTOCOL_UDP.
Proof.
  intros [(iph & udph & seg & Hi & _ & Hv & Hp & _)].
  apply ipv4_check_header in Hi as [Hl ->].
  unfold zlen in Hl.
  do 10 (destruct data as [|? data]; [simpl in Hl; lia|]).
  unfold ipv4_header_load, field, slice in Hv, Hp. cbn [version4_ihl4 protocol] in Hv, Hp.
  split; [|split; [unfold zlen; lia|]].
  - unfold ip_version. destruct (Z.ltb_spec 0 (zlen (b :: b0 :: b1 :: b2 :: b3 :: b4 :: b5 :: b6 :: b7 :: b8 :: data))) as [|Hz]; [|unfold zlen in Hz; cbn in Hz; lia].
    cbn [lookup_total list_lookup_total]. change (le_load [b] = 69) in Hv. cbn [le_load] in Hv.
    replace (b2z b) with 69 by lia. done.
  - change (le_load [b8] = 17) in Hp. cbn [le_load] in Hp. cbn. unfold IPV4_PROTOCOL_UDP. lia.
Qed.

Lemma process_udp4 cfg data src sport dst dport payload :
  udpgw_remote_server_addr cfg = true -> udp4_packet data src sport dst dport payload -> zlen payload <= udp_mtu cfg ->
  process_device_udp_packet cfg data =
    Some (BAddr_IPv4 src sport, BAddr_IPv4 dst dport,
          udpgw_transparent_dns cfg && (dst =? netif_ipaddr cfg) && (dport =? hton16 53), payload).
Proof.
  intros Hc Hp Hm. destruct (udp4_header_bytes _ _ _ _ _ _ Hp) as (Hv & Hl & H9).
  destruct Hp as [(iph & udph & seg & Hi & Hu & _ & _ & _ & _ & <- & <- & <- & <- & Hck)].
  unfold process_device_udp_packet. rewrite Hc, Hv, H9. unfold sizeof_ipv4_header.
  destruct (Z.ltb_spec (zlen data) 20); [lia|]. cbn [negb orb Z.eqb]. rewrite Hi, Hu.
  rewrite (proj2 (Z.eqb_eq _ _) Hck). cbn. destruct (Z.ltb_spec (udp_mtu cfg) (zlen payload)); [lia|]. reflexivity.
Qed.

Lemma slice_of_drop off n (l k m : list byte) :
  drop (Z.to_nat off) m = l ++ k -> length l = Z.to_nat n -> slice off n m = l.
Proof. intros Hd Hl. unfold slice. rewrite Hd. apply take_app_length'. done. Qed.

Lemma ipv6_built pl s d rest :
  0 <= pl < 2 ^ 16 -> length s = 16%nat -> length d = 16%nat -> pl = hton16 (zlen rest) -> zlen rest < 2 ^ 16 ->
  let h := Ipv6Header 0x60 0 0 pl 17 64 s d in
  ipv6_check (ipv6_header_bytes h ++ rest) = Some (h, rest).
Proof.
  intros Hpl Hs Hd Hp Hr h. pose proof (zlen_nonneg rest).
  assert (drop (Z.to_nat 8) (ipv6_header_bytes h ++ rest) = s ++ d ++ rest) as H8.
  { change (drop (Z.to_nat 8) (ipv6_header_bytes h ++ rest)) with ((s ++ d) ++ rest). rewrite <- app_assoc. done. }
  assert (drop (Z.to_nat 24) (ipv6_header_bytes h ++ rest) = d ++ rest) as H24.
  { change (Z.to_nat 24) with (8 + 16)%nat. rewrite <- drop_drop. change 8%nat with (Z.to_nat 8). rewrite H8.
    rewrite drop_app_length' by done. done. }
  assert (drop (Z.to_nat 40) (ipv6_header_bytes h ++ rest) = rest) as H40.
  { change (Z.to_nat 40) with (24 + 16)%nat. rewrite <- drop_drop. change 24%nat with (Z.to_nat 24). rewrite H24.
    rewrite drop_app_length' by done. done. }
  assert (zlen (ipv6_header_bytes h ++ rest) = 40 + zlen rest) as Hlen.
  { rewrite zlen_app. f_equal. unfold ipv6_header_bytes, zlen. rewrite !length_app. cbn [source_address6 destination_address6 h]. rewrite Hs, Hd. done. }
  assert (ipv6_header_load (ipv6_header_bytes h ++ rest) = h) as Hload.
  { unfold ipv6_header_load. rewrite (slice_of_drop 8 16 s (d ++ rest)), (slice_of_drop 24 16 d rest) by done.
    unfold h. f_equal. change (le_load (le_store 2 pl) = pl). rewrite le_load_store. apply Z.mod_small. exact Hpl. }
  unfold ipv6_check. rewrite Hload, Hlen. unfold sizeof_ipv6_header.
  destruct (Z.ltb_spec (40 + zlen rest) 40); [lia|]. cbn [version4_tc4 h payload_length negb].
  change (negb (Z.shiftr (ntoh8 96) 4 =? 6)) with false. cbv iota.
  rewrite Hp, ntoh16_hton16, u16_id by lia. destruct (Z.ltb_spec (40 + zlen rest - 40) (zlen rest)); [lia|].
  do 2 f_equal. unfold slice. rewrite H40. apply take_ge. unfold zlen. lia.
Qed.

Lemma received_roundtrip6 cfg lip lport rip rport data :
  udpgw_remote_server_addr cfg = true -> netif_ip6addr cfg = true ->
  length lip = 16%nat -> length rip = 16%nat -> 0 <= lport < 2 ^ 16 -> 0 <= rport < 2 ^ 16 ->
  zlen data <= 65535 - 8 -> zlen data <= device_mtu cfg - 48 -> zlen data <= udp_mtu cfg ->
  exists packet, udpgw_client_handler_received cfg (BAddr_IPv6 lip lport) (BAddr_IPv6 rip rport) data = Some packet /\
    zlen packet = 48 + zlen data /\
    process_device_udp_packet cfg packet = Some (BAddr_IPv6 rip rport, BAddr_IPv6 lip lport, false, data).
Proof.
  intros Hc H6 Hl Hr Hlp Hrp H1 H2 H3. pose proof (zlen_nonneg data).
  unfold udpgw_client_handler_received. rewrite H6. unfold UINT16_MAX, sizeof_ipv6_header, sizeof_udp_header.
  destruct (Z.ltb_spec (2 ^ 16 - 1 - 8) (zlen data)); [lia|].
  destruct (Z.ltb_spec (device_mtu cfg - (40 + 8)) (zlen data)); [lia|]. cbn [orb negb].
  rewrite !(u16_id (8 + zlen data)) by lia. assert (hton16 0 = 0) as Hz by reflexivity. rewrite Hz.
  cbn [source_address6 destination_address6].
  set (u0 := UdpHeader rport lport (hton16 (8 + zlen data)) 0).
  set (ck := udp_ip6_checksum u0 data (zlen data) rip lip).
  assert (udp_header_wf (udp_set_checksum ck u0)) as Hwf.
  { constructor; cbn [udp_set_checksum u0 source_port dest_port udp_len udp_cksum];
      [done|done|apply hton16_range|apply udp_ip6_checksum_range]. }
  eexists. split; [reflexivity|].
  change (hton8 (Z.shiftl 6 4)) with 0x60. change (hton8 0) with 0. change (hton8 IPV6_NEXT_UDP) with 17. change (hton8 64) with 64.
  assert (zlen (udp_header_bytes (udp_set_checksum ck u0) ++ data) = 8 + zlen data) as Hseg
    by (rewrite zlen_app, zlen_udp_header_bytes; done).
  set (seg := udp_header_bytes (udp_set_checksum ck u0) ++ data) in *.
  pose proof (ipv6_built (hton16 (8 + zlen data)) rip lip seg (hton16_range _) Hr Hl ltac:(rewrite Hseg; done) ltac:(lia)) as Hchk.
  cbv zeta in Hchk. set (iph := Ipv6Header _ _ _ _ _ _ _ _) in *.
  assert (zlen (ipv6_header_bytes iph ++ seg) = 48 + zlen data) as Hlen.
  { rewrite zlen_app, Hseg. unfold ipv6_header_bytes, zlen at 1. rewrite !length_app.
    cbn [source_address6 destination_address6 iph]. rewrite Hr, Hl. cbn. lia. }
  split; [exact Hlen|]. unfold process_device_udp_packet. rewrite Hc, H6, Hlen.
  assert (ip_version (ipv6_header_bytes iph ++ seg) = 6) as ->.
  { unfold ip_version. rewrite Hlen. destruct (Z.ltb_spec 0 (48 + zlen data)); [|lia]. reflexivity. }
  change (6 =? 4) with false. change (6 =? 6) with true. unfold sizeof_ipv6_header.
  destruct (Z.ltb_spec (48 + zlen data) 40); [lia|].
  change ((ipv6_header_bytes iph ++ seg) !!! 6%nat) with (z2b 17). change (b2z (z2b 17)) with 17.
  cbv beta iota. change (negb true) with false. change (false || negb (17 =? IPV6_NEXT_UDP)) with false. cbv iota.
  rewrite Hchk. unfold seg. rewrite udp_check_bytes.
  2: { exact Hwf. }
  2: { cbn [udp_set_checksum u0 udp_len]. rewrite ntoh16_hton16, u16_id by lia. done. }
  change (udp_cksum (udp_set_checksum ck u0)) with ck.
  change (udp_ip6_checksum (udp_set_checksum 0 (udp_set_checksum ck u0)) data (zlen data) (source_address6 iph) (destination_address6 iph)) with ck.
  rewrite Z.eqb_refl. cbn [negb]. destruct (Z.ltb_spec (udp_mtu cfg) (zlen data)); [lia|]. reflexivity.
Qed.

(** *** The device's writer *)

Lemma gather_spec mtu chunks : forall buf len,
  0 <= len <= mtu -> zlen buf = mtu ->
  gather mtu chunks buf len =
    if len + zlen (concat chunks) <=? mtu
    then Some (splice len (concat chunks) buf, len + zlen (concat chunks)) else None.
Proof.
  induction chunks as [|c cs IH]; intros buf len Hl Hb; cbn [gather concat].
  - rewrite zlen_nil. destruct (Z.leb_spec (len + 0) mtu); [|lia]. do 2 f_equal; [|lia].
    unfold splice. rewrite Nat.add_0_r. cbn [app]. rewrite take_drop. done.
  - rewrite zlen_app. pose proof (zlen_nonneg c). pose proof (zlen_nonneg (concat cs)).
    destruct (Z.ltb_spec (mtu - len) (zlen c)).
    + destruct (Z.leb_spec (len + (zlen c + zlen (concat cs))) mtu); [lia|done].
    + rewrite IH by (rewrite ?zlen_splice; lia). rewrite Z.add_assoc.
      destruct (Z.leb_spec (len + zlen c + zlen (concat cs)) mtu); [|done].
      rewrite splice_splice_after by lia. done.
Qed.

(** *** The table of pending queries *)

(** The packet of a query: to port 53. *)
Lemma dns_query_spec cfg st data gw_ip gw_port src sport dst payload :
  dnsgw cfg = Some (gw_ip, gw_port) -> 0 <= gw_ip < 2 ^ 32 -> 0 <= gw_port < 2 ^ 16 -> 0 <= netif_ipaddr cfg < 2 ^ 32 ->
  udp4_packet data src sport dst (hton16 53) payload ->
  exists packet,
    process_device_dns_packet cfg st data =
      Some (Dns true (insert_connection (if dns_init st then connections_tree st else ∅)
              (BAddr_IPv4 src sport) (BAddr_IPv4 dst (hton16 53)) sport), packet) /\
    udp4_packet packet (netif_ipaddr cfg) sport gw_ip gw_port payload.
Proof.
  intros Hg Hgi Hgp Hn Hp. destruct (udp4_header_bytes _ _ _ _ _ _ Hp) as (Hv & Hl & H9).
  destruct Hp as [(iph & udph & seg & Hi & Hu & Hvi & Hpr & Htl & Hul & <- & <- & <- & Hd & Hck)].
  unfold process_device_dns_packet. rewrite Hg, Hv, H9. unfold sizeof_ipv4_header.
  destruct (Z.ltb_spec (zlen data) 20); [lia|]. change (negb (4 =? 4)) with false.
  change (false || negb (IPV4_PROTOCOL_UDP =? IPV4_PROTOCOL_UDP)) with false. cbv iota. rewrite Hi, Hu.
  rewrite (proj2 (Z.eqb_eq _ _) Hck). cbn [negb].
  change (dest_port (udp_set_checksum 0 udph)) with (dest_port udph). rewrite Hd, Z.eqb_refl.
  eexists. split; [reflexivity|].
  assert (ipv4_header_wf iph) as Hwi by (apply ipv4_check_header in Hi as [_ ->]; apply ipv4_header_load_wf).
  assert (udp_header_wf udph) as Hwu by (apply udp_check_spec in Hu as (len & _ & _ & _ & -> & _); apply udp_header_load_wf).
  apply (sealed_packet (ipv4_set_addresses (netif_ipaddr cfg) gw_ip iph)
    (udp_set_ports (source_port udph) gw_port (udp_set_checksum 0 udph))); try done.
  - destruct Hwi. constructor; assumption.
  - destruct Hwu. constructor; cbn; try assumption. lia.
Qed.

(** The packet of an answer: from the gateway's port, to a port with a pending
    query. *)
Lemma dns_reply_spec cfg st data gw_ip gw_port src dst dport payload lip rip rport con :
  dnsgw cfg = Some (gw_ip, gw_port) -> dns_init st = true -> dport <> hton16 53 ->
  find_connection (connections_tree st) dport = Some con ->
  c_local_addr con = BAddr_IPv4 lip dport -> c_remote_addr con = BAddr_IPv4 rip rport ->
  0 <= lip < 2 ^ 32 -> 0 <= rip < 2 ^ 32 -> 0 <= rport < 2 ^ 16 ->
  udp4_packet data src gw_port dst dport payload ->
  exists packet,
    process_device_dns_packet cfg st data = Some (Dns true (remove_connection (connections_tree st) con), packet) /\
    udp4_packet packet rip rport lip dport payload.
Proof.
  intros Hg Hin Hne Hf Hcl Hcr Hlip Hrip Hrp Hp. destruct (udp4_header_bytes _ _ _ _ _ _ Hp) as (Hv & Hl & H9).
  destruct Hp as [(iph & udph & seg & Hi & Hu & Hvi & Hpr & Htl & Hul & <- & <- & Hs & <- & Hck)].
  unfold process_device_dns_packet. rewrite Hg, Hv, H9. unfold sizeof_ipv4_header.
  destruct (Z.ltb_spec (zlen data) 20); [lia|]. change (negb (4 =? 4)) with false.
  change (false || negb (IPV4_PROTOCOL_UDP =? IPV4_PROTOCOL_UDP)) with false. cbv iota. rewrite Hi, Hu.
  rewrite (proj2 (Z.eqb_eq _ _) Hck). cbn [negb].
  change (dest_port (udp_set_checksum 0 udph)) with (dest_port udph).
  change (source_port (udp_set_checksum 0 udph)) with (source_port udph).
  destruct (Z.eqb_spec (dest_port udph) (hton16 53)); [done|]. rewrite Hs, Z.eqb_refl, Hin, Hf. cbn [negb].
  eexists. split; [reflexivity|].
  assert (ipv4_header_wf iph) as Hwi by (apply ipv4_check_header in Hi as [_ ->]; apply ipv4_header_load_wf).
  assert (udp_header_wf udph) as Hwu by (apply udp_check_spec in Hu as (len & _ & _ & _ & -> & _); apply udp_header_load_wf).
  rewrite Hcl, Hcr. cbn [ipv4_ip ipv4_port].
  apply (sealed_packet (ipv4_set_addresses rip lip iph)
    (udp_set_ports rport (dest_port udph) (udp_set_checksum 0 udph))); try done.
  - destruct Hwi. constructor; assumption.
  - destruct Hwu. constructor; cbn; try assumption. lia.
Qed.

Lemma insert_remove_new t l r port :
  t !! port = None -> remove_connection (insert_connection t l r port) (Conn l r port 1) = t.
Proof.
  intros H. unfold remove_connection, insert_connection, find_connection. rewrite H. cbn.
  rewrite delete_insert_eq, delete_id; done.
Qed.

Lemma udp4_ranges data s sp d dp p :
  udp4_packet data s sp d dp p -> 0 <= s < 2 ^ 32 /\ 0 <= sp < 2 ^ 16 /\ 0 <= d < 2 ^ 32 /\ 0 <= dp < 2 ^ 16.
Proof.
  intros [(iph & udph & seg & Hi & Hu & _ & _ & _ & _ & <- & <- & <- & <- & _)].
  apply ipv4_check_header in Hi as [_ ->]. apply udp_check_spec in Hu as (len & _ & _ & _ & -> & _).
  destruct (ipv4_header_load_wf data), (udp_header_load_wf seg). done.
Qed.

(** *** What a forwarded packet is *)

Lemma slice_slice a b o n (m : list byte) :
  0 <= a -> 0 <= b -> 0 <= o -> a + b <= n -> slice a b (slice o n m) = slice (o + a) b m.
Proof.
  intros Ha Hb Ho Hn. unfold slice. rewrite take_drop_commute, take_take, Nat.min_l by lia.
  rewrite <- take_drop_commute, drop_drop. f_equal. f_equal. lia.
Qed.

Lemma field_slice a b o n (m : list byte) :
  0 <= a -> 0 <= b -> 0 <= o -> a + b <= n -> field a b (slice o n m) = field (o + a) b m.
Proof. intros. unfold field. rewrite slice_slice by lia. done. Qed.

Lemma ipv4_check_payload data iph seg :
  ipv4_check data = Some (iph, seg) ->
  exists hl total, 20 <= hl <= total /\ total <= zlen data /\ seg = slice hl (total - hl) data.
Proof.
  unfold ipv4_check. intros H.
  repeat match type of H with
  | (if ?a <? ?b then _ else _) = _ => destruct (Z.ltb_spec a b); [done|]
  | (if negb ?b then _ else _) = _ => destruct b; cbn [negb] in H; [|done]
  end.
  injection H as _ <-. unfold sizeof_ipv4_header in *.
  exists (u16 (IPV4_GET_IHL (ipv4_header_load data) * 4)), (ntoh16 (total_length (ipv4_header_load data))).
  split; [lia|]. split; [lia|reflexivity].
Qed.

Lemma udp_header_bytes_load d : 8 <= zlen d -> udp_header_bytes (udp_header_load d) = slice 0 8 d.
Proof.
  intros Hl. do 8 (destruct d as [|? d]; [by unfold zlen in Hl; simpl in Hl; lia|]).
  unfold udp_header_bytes, udp_header_load, field, slice. cbn [source_port dest_port udp_len udp_cksum].
  cbn [Z.to_nat Pos.to_nat Pos.iter_op Nat.add take drop].
  repeat match goal with |- context [le_store ?n (le_load ?l)] =>
    change (le_store n (le_load l)) with (le_store (length l) (le_load l));
    rewrite (le_store_load l) end.
  reflexivity.
Qed.

(** The code's comparison means that the datagram's sum is all ones. *)
Lemma udp_verified h payload s d :
  zlen payload <= 65535 - 8 ->
  udp_cksum h = udp_checksum (udp_set_checksum 0 h) payload (zlen payload) s d ->
  oc16 (pseudo4 s d (zlen payload) + wsum (udp_header_bytes h) + wsum payload) = 65535.
Proof.
  intros Hp Hck. pose proof (udp_checksum_spec (udp_set_checksum 0 h) payload s d Hp) as Hs.
  rewrite <- Hck in Hs. pose proof (wsum_udp_set_checksum (udp_cksum h) h) as Hw.
  replace (udp_set_checksum (udp_cksum h) h) with h in Hw by (destruct h; done).
  unfold udp_sum in Hs. rewrite Hw, Hs.
  set (S0 := pseudo4 s d (zlen payload) + (wsum (udp_header_bytes (udp_set_checksum 0 h)) + wsum payload)).
  replace (_ + _ + _) with (S0 + (65535 - oc16 S0)) by (unfold S0; lia). apply oc16_complement.
  pose proof (wsum_bounds (udp_header_bytes (udp_set_checksum 0 h))). pose proof (wsum_bounds payload).
  pose proof (wsum_bounds (store_le32 s)). pose proof (wsum_bounds (store_le32 d)). pose proof (zlen_nonneg payload).
  unfold S0, pseudo4. lia.
Qed.

(** ** Properties *)

(** The packets built for the device are correct. A datagram from [remote] to
    [local] that fits the device becomes a packet within the device's MTU which the
    receiver's own checks accept (lengths, header checksum, UDP checksum over the
    pseudo header) and which carries exactly that datagram from [remote] to
    [local], over IPv4 and over IPv6. *)
Theorem device_packet_roundtrip cfg local remote data :
  udpgw_remote_server_addr cfg = true -> BAddr_ok local -> BAddr_ok remote -> zlen data <= udp_mtu cfg ->
  match local, remote with
  | BAddr_IPv4 _ _, BAddr_IPv4 _ _ => zlen data <= Z.min 65535 (device_mtu cfg) - 28
  | BAddr_IPv6 _ _, BAddr_IPv6 _ _ =>
      netif_ip6addr cfg = true /\ zlen data <= 65535 - 8 /\ zlen data <= device_mtu cfg - 48
  | _, _ => False
  end ->
  exists packet dns, udpgw_client_handler_received cfg local remote data = Some packet /\
    zlen packet <= device_mtu cfg /\
    process_device_udp_packet cfg packet = Some (remote, local, dns, data).
Proof.
  intros Hc Hl Hr Hm Hfit. destruct local as [|lip lport|lip lport], remote as [|rip rport|rip rport]; try done.
  - destruct Hl as [Hl1 Hl2], Hr as [Hr1 Hr2]. pose proof (zlen_nonneg data).
    rewrite received_as_written by lia. eexists _, _. split; [reflexivity|]. split.
    + unfold write_dns_packet. rewrite !zlen_app, zlen_ipv4_header_bytes, zlen_udp_header_bytes. lia.
    + apply process_udp4; [done| |done].
      apply (sealed_packet (Ipv4Header _ _ _ _ _ _ _ _ _ _) (UdpHeader _ _ _ _)); try done.
      * constructor; cbn; try lia; apply hton16_range.
      * constructor; cbn; try lia; apply hton16_range.
      * cbn [total_length]. rewrite ntoh16_hton16, u16_id by lia. done.
      * cbn [udp_len]. rewrite ntoh16_hton16, u16_id by lia. done.
  - destruct Hfit as (H6 & H1 & H2), Hl as [Hl1 Hl2], Hr as [Hr1 Hr2].
    destruct (received_roundtrip6 cfg lip lport rip rport data) as (packet & E & Hlen & Hp); try done.
    exists packet, false. split; [done|]. split; [lia|done].
Qed.

Lemma device_packet_roundtrip_witness :
  exists packet dns,
    udpgw_client_handler_received (Config true false 0x0200000A false 1472 1500 None)
      (BAddr_IPv4 0x0100000A 0x3930) (BAddr_IPv4 0x08080808 0x3500) [x61; x62; x63] = Some packet /\
    zlen packet <= 1500 /\
    process_device_udp_packet (Config true false 0x0200000A false 1472 1500 None) packet =
      Some (BAddr_IPv4 0x08080808 0x3500, BAddr_IPv4 0x0100000A 0x3930, dns, [x61; x62; x63]).
Proof.
  apply (device_packet_roundtrip (Config true false 0x0200000A false 1472 1500 None)
    (BAddr_IPv4 0x0100000A 0x3930) (BAddr_IPv4 0x08080808 0x3500) [x61; x62; x63]);
    [reflexivity|split; split; vm_compute; congruence|split; split; vm_compute; congruence|vm_compute; congruence|vm_compute; congruence].
Defined.

(** Nothing damaged is forwarded. When a packet of the device is submitted to
    the gateway over IPv4, the addresses and ports are those of the packet's bytes,
    the one's complement sum of the datagram with its pseudo header is all ones,
    and the payload is the packet's own bytes after the two headers, no longer
    than the gateway's MTU. *)
Theorem device_udp_sound cfg data src sport dst dport dns payload :
  process_device_udp_packet cfg data = Some (BAddr_IPv4 src sport, BAddr_IPv4 dst dport, dns, payload) ->
  exists hl, 20 <= hl /\ hl + 8 + zlen payload <= zlen data /\
    payload = slice (hl + 8) (zlen payload) data /\
    src = field 12 4 data /\ dst = field 16 4 data /\
    sport = field hl 2 data /\ dport = field (hl + 2) 2 data /\
    oc16 (pseudo4 src dst (zlen payload) + wsum (slice hl 8 data) + wsum payload) = 65535 /\
    zlen payload <= udp_mtu cfg.
Proof.
  unfold process_device_udp_packet. destruct (negb (udpgw_remote_server_addr cfg)); [done|].
  destruct (ip_version data =? 4).
  2: { destruct (ip_version data =? 6); [|done]. destruct (negb (netif_ip6addr cfg)); [done|].
       destruct (_ || _); [done|]. destruct (ipv6_check data) as [[h6 seg]|]; [|done].
       destruct (udp_check seg) as [[uh p]|]; [|done]. destruct (negb _); [done|]. destruct (_ <? _); done. }
  destruct (_ || _); [done|]. destruct (ipv4_check data) as [[iph seg]|] eqn:Hi; [|done].
  destruct (udp_check seg) as [[udph p]|] eqn:Hu; [|done].
  destruct (Z.eqb_spec (udp_cksum udph)
    (udp_checksum (udp_set_checksum 0 udph) p (zlen p) (source_address iph) (destination_address iph))) as [Hck|]; [|done].
  cbn [negb]. destruct (Z.ltb_spec (udp_mtu cfg) (zlen p)); [done|].
  intros [= <- <- <- <- _ <-]. destruct (ipv4_check_payload _ _ _ Hi) as (hl & tot & Hhl & Htot & Hseg).
  apply ipv4_check_header in Hi as [_ ->]. apply udp_check_spec in Hu as (len & Hl8 & Hlen & Hlr & Huh & Hp).
  assert (zlen seg = tot - hl) as Hzs by (rewrite Hseg, zlen_slice; lia).
  assert (zlen p = len - 8) as Hzp by (rewrite Hp, zlen_slice; lia).
  pose proof (badvpn_read_be16_range (drop 4 seg)) as Hrange.
  exists hl. split; [lia|]. split; [lia|]. split; [rewrite Hp at 1; rewrite Hseg, slice_slice, <- Hzp by lia; done|].
  split; [done|]. split; [done|].
  split; [rewrite Huh; cbn; rewrite Hseg, field_slice, Z.add_0_r by lia; done|].
  split; [rewrite Huh; cbn; rewrite Hseg, field_slice by lia; done|]. split; [|lia].
  replace (slice hl 8 data) with (udp_header_bytes udph); [apply udp_verified; [lia|exact Hck]|].
  rewrite Huh, udp_header_bytes_load by lia. rewrite Hseg, slice_slice, Z.add_0_r by lia. done.
Qed.

Definition ex_cfg : config := Config true false 0x0200000A false 1472 1500 (Some (0x0A00000A, 0xD91F)).
Definition ex_packet : list byte :=
  match udpgw_client_handler_received ex_cfg (BAddr_IPv4 0x08080808 0x3500) (BAddr_IPv4 0x0100000A 0x3930) [x61; x62; x63] with
  | Some p => p | None => [] end.

Lemma device_udp_sound_witness :
  exists hl, 20 <= hl /\ hl + 8 + 3 <= 31 /\ [x61; x62; x63] = slice (hl + 8) 3 ex_packet /\
    0x0100000A = field 12 4 ex_packet /\ 0x08080808 = field 16 4 ex_packet /\
    0x3930 = field hl 2 ex_packet /\ 0x3500 = field (hl + 2) 2 ex_packet /\
    oc16 (pseudo4 0x0100000A 0x08080808 3 + wsum (slice hl 8 ex_packet) + wsum [x61; x62; x63]) = 65535 /\ 3 <= 1472.
Proof.
  apply (device_udp_sound ex_cfg ex_packet 0x0100000A 0x3930 0x08080808 0x3500 false [x61; x62; x63]).
  vm_compute. reflexivity.
Defined.

(** The DNS redirection is transparent. A query from [src:sport] to port 53 of
    any server is sent on to the gateway from the interface's own address, and the
    gateway's answer to that port comes back to [src:sport] as if from the server
    asked; both rewritten packets have right lengths and checksums and unchanged
    payloads, and the table is afterwards as it was before. *)
Theorem dns_redirect_roundtrip cfg st gw_ip gw_port query src sport dst q answer asrc adst a :
  dnsgw cfg = Some (gw_ip, gw_port) -> 0 <= gw_ip < 2 ^ 32 -> 0 <= gw_port < 2 ^ 16 ->
  0 <= netif_ipaddr cfg < 2 ^ 32 ->
  dns_init st = true -> connections_tree st !! sport = None -> sport <> hton16 53 ->
  udp4_packet query src sport dst (hton16 53) q -> udp4_packet answer asrc gw_port adst sport a ->
  exists st1 packet1 packet2,
    process_device_dns_packet cfg st query = Some (st1, packet1) /\
    udp4_packet packet1 (netif_ipaddr cfg) sport gw_ip gw_port q /\
    process_device_dns_packet cfg st1 answer = Some (st, packet2) /\
    udp4_packet packet2 dst (hton16 53) src sport a.
Proof.
  intros Hg Hgi Hgp Hn Hin Hnone Hne Hq Ha.
  destruct (dns_query_spec cfg st query gw_ip gw_port src sport dst q Hg Hgi Hgp Hn Hq) as (packet1 & E1 & Hp1).
  destruct (udp4_ranges _ _ _ _ _ _ Hq) as (R1 & R2 & R3 & R4).
  rewrite Hin in E1. eexists _, packet1. 
  set (t := insert_connection _ _ _ _) in *.
  assert (find_connection t sport = Some (Conn (BAddr_IPv4 src sport) (BAddr_IPv4 dst (hton16 53)) sport 1)) as Hf.
  { unfold t, insert_connection, find_connection. rewrite Hnone. apply lookup_insert_eq. }
  destruct (dns_reply_spec cfg (Dns true t) answer gw_ip gw_port asrc adst sport a src dst (hton16 53) _
    Hg eq_refl Hne Hf eq_refl eq_refl R1 R3 R4 Ha) as (packet2 & E2 & Hp2).
  exists packet2. split; [exact E1|]. split; [done|]. split; [|done].
  etransitivity; [exact E2|]. cbn [connections_tree]. unfold t. rewrite insert_remove_new by done.
  destruct st as [i t0]. cbn in *. subst i. done.
Qed.

Definition ex_query : list byte :=
  write_dns_packet (Ipv4Header 0x45 0 (hton16 30) 0 0 64 17 0 0x0100000A 0x08080808)
    (UdpHeader 0x3930 (hton16 53) (hton16 10) 0) [x71; x3f].
Definition ex_answer : list byte :=
  write_dns_packet (Ipv4Header 0x45 0 (hton16 31) 0 0 64 17 0 0x0A00000A 0x0200000A)
    (UdpHeader 0xD91F 0x3930 (hton16 11) 0) [x61; x21; x21].

Lemma ex_udp4 s sp d dp p :
  0 <= s < 2 ^ 32 -> 0 <= d < 2 ^ 32 -> 0 <= sp < 2 ^ 16 -> 0 <= dp < 2 ^ 16 -> zlen p < 1000 ->
  udp4_packet (write_dns_packet (Ipv4Header 0x45 0 (hton16 (28 + zlen p)) 0 0 64 17 0 s d)
    (UdpHeader sp dp (hton16 (8 + zlen p)) 0) p) s sp d dp p.
Proof.
  intros Hs Hd Hsp Hdp Hp. pose proof (zlen_nonneg p).
  apply (sealed_packet (Ipv4Header _ _ _ _ _ _ _ _ _ _) (UdpHeader _ _ _ _)); try done.
  - constructor; cbn; try lia; apply hton16_range.
  - constructor; cbn; try lia; apply hton16_range.
  - cbn [total_length]. rewrite ntoh16_hton16, u16_id by lia. done.
  - cbn [udp_len]. rewrite ntoh16_hton16, u16_id by lia. done.
Qed.

Lemma dns_redirect_roundtrip_witness :
  exists st1 packet1 packet2,
    process_device_dns_packet ex_cfg (Dns true ∅) ex_query = Some (st1, packet1) /\
    udp4_packet packet1 0x0200000A 0x3930 0x0A00000A 0xD91F [x71; x3f] /\
    process_device_dns_packet ex_cfg st1 ex_answer = Some (Dns true ∅, packet2) /\
    udp4_packet packet2 0x08080808 (hton16 53) 0x0100000A 0x3930 [x61; x21; x21].
Proof.
  apply (dns_redirect_roundtrip ex_cfg (Dns true ∅) 0x0A00000A 0xD91F ex_query 0x0100000A 0x3930 0x08080808 [x71; x3f]
    ex_answer 0x0A00000A 0x0200000A [x61; x21; x21]);
    [reflexivity|split; vm_compute; congruence|split; vm_compute; congruence|split; vm_compute; congruence
    |reflexivity|reflexivity|vm_compute; congruence| |].
  - apply (ex_udp4 0x0100000A 0x3930 0x08080808 (hton16 53) [x71; x3f]); first [reflexivity | split; vm_compute; congruence].
  - apply (ex_udp4 0x0A00000A 0xD91F 0x0200000A 0x3930 [x61; x21; x21]); first [reflexivity | split; vm_compute; congruence].
Defined.

(** The table keeps one server per source port. When a port has a pending
    query, a second query from it to another server is counted but its server is
    not recorded: the next answer to the port is delivered as if from the first
    server, and the entry stays for one more answer. *)
Theorem dns_port_shared cfg st gw_ip gw_port query src sport dst q answer asrc adst a lip server con :
  dnsgw cfg = Some (gw_ip, gw_port) -> 0 <= gw_ip < 2 ^ 32 -> 0 <= gw_port < 2 ^ 16 ->
  0 <= netif_ipaddr cfg < 2 ^ 32 -> 0 <= lip < 2 ^ 32 -> 0 <= server < 2 ^ 32 ->
  dns_init st = true -> sport <> hton16 53 ->
  connections_tree st !! sport = Some con -> con = Conn (BAddr_IPv4 lip sport) (BAddr_IPv4 server (hton16 53)) sport 1 ->
  udp4_packet query src sport dst (hton16 53) q -> udp4_packet answer asrc gw_port adst sport a ->
  exists st1 packet1 st2 packet2,
    process_device_dns_packet cfg st query = Some (st1, packet1) /\
    process_device_dns_packet cfg st1 answer = Some (st2, packet2) /\
    udp4_packet packet2 server (hton16 53) lip sport a /\
    connections_tree st2 !! sport = Some con.
Proof.
  intros Hg Hgi Hgp Hn Hlip Hsrv Hin Hne Hsome -> Hq Ha.
  destruct (dns_query_spec cfg st query gw_ip gw_port src sport dst q Hg Hgi Hgp Hn Hq) as (packet1 & E1 & Hp1).
  destruct (udp4_ranges _ _ _ _ _ _ Hq) as (_ & _ & _ & R4). rewrite Hin in E1.
  set (t := insert_connection _ _ _ _) in *.
  assert (find_connection t sport = Some (Conn (BAddr_IPv4 lip sport) (BAddr_IPv4 server (hton16 53)) sport 2)) as Hf.
  { unfold t, insert_connection, find_connection. rewrite Hsome. apply lookup_insert_eq. }
  destruct (dns_reply_spec cfg (Dns true t) answer gw_ip gw_port asrc adst sport a lip server (hton16 53) _
    Hg eq_refl Hne Hf eq_refl eq_refl Hlip Hsrv R4 Ha) as (packet2 & E2 & Hp2).
  exists (Dns true t), packet1, (Dns true (remove_connection t (Conn (BAddr_IPv4 lip sport) (BAddr_IPv4 server (hton16 53)) sport 2))), packet2.
  split; [exact E1|]. split; [exact E2|]. split; [done|].
  unfold remove_connection. cbn [connections_tree c_count c_port Z.sub Z.leb Z.compare].
  change (2 - 1 <=? 0) with false. cbv iota. apply lookup_insert_eq.
Qed.

Lemma dns_port_shared_witness :
  exists st1 packet1 st2 packet2,
    process_device_dns_packet ex_cfg
      (Dns true {[ 0x3930 := Conn (BAddr_IPv4 0x0100000A 0x3930) (BAddr_IPv4 0x01010101 (hton16 53)) 0x3930 1 ]}) ex_query
      = Some (st1, packet1) /\
    process_device_dns_packet ex_cfg st1 ex_answer = Some (st2, packet2) /\
    udp4_packet packet2 0x01010101 (hton16 53) 0x0100000A 0x3930 [x61; x21; x21] /\
    connections_tree st2 !! 0x3930 = Some (Conn (BAddr_IPv4 0x0100000A 0x3930) (BAddr_IPv4 0x01010101 (hton16 53)) 0x3930 1).
Proof.
  apply (dns_port_shared ex_cfg (Dns true _) 0x0A00000A 0xD91F ex_query 0x0100000A 0x3930 0x08080808 [x71; x3f]
    ex_answer 0x0A00000A 0x0200000A [x61; x21; x21] 0x0100000A 0x01010101);
    [reflexivity|split; vm_compute; congruence|split; vm_compute; congruence|split; vm_compute; congruence
    |split; vm_compute; congruence|split; vm_compute; congruence|reflexivity|vm_compute; congruence|reflexivity|reflexivity| |].
  - apply (ex_udp4 0x0100000A 0x3930 0x08080808 (hton16 53) [x71; x3f]); first [reflexivity | split; vm_compute; congruence].
  - apply (ex_udp4 0x0A00000A 0xD91F 0x0200000A 0x3930 [x61; x21; x21]); first [reflexivity | split; vm_compute; congruence].
Defined.

(** Output to the device is all or nothing: a packet of any number of chunks
    that fits the device's MTU is written as the concatenation of its chunks,
    whatever the write buffer held; one that does not fit is dropped, and no chunk
    is ever copied past the buffer's end. *)
Theorem netif_output_exact cfg buf p rest :
  0 <= device_mtu cfg -> zlen buf = device_mtu cfg ->
  common_netif_output cfg false buf p rest =
    if zlen (concat (p :: rest)) <=? device_mtu cfg then Some (concat (p :: rest)) else None.
Proof.
  intros Hm Hb. unfold common_netif_output. destruct rest as [|p2 rest].
  - cbn [concat]. rewrite app_nil_r. destruct (Z.ltb_spec (device_mtu cfg) (zlen p)), (Z.leb_spec (zlen p) (device_mtu cfg)); done || lia.
  - rewrite gather_spec by lia. rewrite Z.add_0_l. destruct (Z.leb_spec (zlen (concat (p :: p2 :: rest))) (device_mtu cfg)); [|done].
    f_equal. apply slice_splice_same; lia.
Qed.

Lemma netif_output_exact_witness :
  common_netif_output ex_cfg false (repeat x00 1500) [x45] [[x61]; [x62; x63]] = Some [x45; x61; x62; x63].
Proof. rewrite (netif_output_exact ex_cfg (repeat x00 1500) [x45] [[x61]; [x62; x63]]); [reflexivity|vm_compute; congruence|reflexivity]. Defined.
