(* ===== verification/Tun2socksTcp.v ===== *)
(** * TCP connections through the SOCKS proxy

    The connection half of [tun2socks/tun2socks.c]: a [struct tcp_client] ties a
    TCP connection that lwIP accepted from the device to a SOCKS client, copies
    the two streams and takes both sides down in an orderly way.

    The world of one client holds the client structure, the objects it uses (the
    lwIP connection with its registered callbacks, the SOCKS client with its send
    and receive interfaces, the variable that watches for its death while jobs
    run) and the history of the bytes moved. Every read and write of the client
    structure tests that the structure is still allocated; that and every call
    that breaks its contract (an operation on a freed object, a second send while
    one is under way, a failed [ASSERT]) sets [fault].

    The results of lwIP calls are an oracle. Three callbacks end with
    [SYNC_COMMIT], which runs the jobs that they caused before they return; the
    jobs that matter to the client are completions and events of its SOCKS
    client, and which of them run is an argument [sc] of the callbacks, of which
    [commit_ok] only says that it runs jobs that are due. The jobs can free the
    client; the callbacks find out by [DEAD_ENTER] and [DEAD_LEAVE2]. *)

From Stdlib Require Import ZArith Lia.
From S2P Require Import Prelude BSocksClient.

Definition CLIENT_SOCKS_RECV_BUF_SIZE : Z := 8192.

Inductive err_t := ERR_OK | ERR_MEM | ERR_ABRT | ERR_OTHER.

(** [buf] is [buf[0..buf_used)]; [socks_recv_buf] is meaningful up to
    [socks_recv_buf_used]. *)
Record tcp_client := TC {
  client_closed : bool; buf : list byte;
  socks_up : bool; socks_closed : bool;
  socks_recv_buf : list byte; socks_recv_buf_used : Z; socks_recv_buf_sent : Z;
  socks_recv_waiting : bool; socks_recv_tcp_pending : Z
}.

Definition buf_used (c : tcp_client) : Z := zlen (buf c).

(** The objects around the client. [dead_client] is whether the pointer of that
    name points to the variable [badvpn__dead] of the callback under way, and
    [catcher] is that variable, [None] when no callback has one. *)
Record surroundings := Env {
  pcb : bool;                                   (** lwIP's connection exists *)
  cb_err : bool; cb_recv : bool; cb_sent : bool; (** its callbacks are set *)
  socks : bool;                                 (** the SOCKS client exists *)
  s_sending : option Z; s_recving : bool;       (** its interfaces are busy *)
  allocated : bool;                             (** the client structure *)
  dead_client : bool; catcher : option bool
}.

(** The bytes moved: taken from the device, accepted by SOCKS, confirmed to lwIP;
    read from SOCKS, handed to lwIP, acknowledged by the device. *)
Record history := Hist {
  taken : list byte; forwarded : list byte; recved : Z;
  fetched : list byte; written : list byte; acked : Z
}.

Record world := W { cli : tcp_client; env : surroundings; hist : history; fault : bool }.

Definition upd_env (f : surroundings -> surroundings) (w : world) : world := W (cli w) (f (env w)) (hist w) (fault w).
Definition upd_hist (f : history -> history) (w : world) : world := W (cli w) (env w) (f (hist w)) (fault w).

(** [ASSERT], and the contract of a call. *)
Definition ASSERT (b : bool) (w : world) : world := if b then w else W (cli w) (env w) (hist w) true.

(** *** Access to the client structure *)

Definition touch (w : world) : world := ASSERT (allocated (env w)) w.
(** Reading fields. *)
Definition load (w : world) : world * tcp_client := (touch w, cli w).
(** Writing fields. *)
Definition upd (f : tcp_client -> tcp_client) (w : world) : world :=
  W (f (cli w)) (env w) (hist w) (fault w || negb (allocated (env w))).
(** [ASSERT] on fields. *)
Definition CHECK (p : tcp_client -> bool) (w : world) : world := ASSERT (p (cli w)) (touch w).
(** The log line names the client's addresses. *)
Definition client_log (w : world) : world := touch w.

Definition set_client_closed (c : tcp_client) :=
  TC true (buf c) (socks_up c) (socks_closed c) (socks_recv_buf c) (socks_recv_buf_used c)
     (socks_recv_buf_sent c) (socks_recv_waiting c) (socks_recv_tcp_pending c).
Definition set_buf (b : list byte) (c : tcp_client) :=
  TC (client_closed c) b (socks_up c) (socks_closed c) (socks_recv_buf c) (socks_recv_buf_used c)
     (socks_recv_buf_sent c) (socks_recv_waiting c) (socks_recv_tcp_pending c).
Definition set_socks_up (c : tcp_client) :=
  TC (client_closed c) (buf c) true (socks_closed c) (socks_recv_buf c) (socks_recv_buf_used c)
     (socks_recv_buf_sent c) (socks_recv_waiting c) (socks_recv_tcp_pending c).
Definition set_socks_closed (c : tcp_client) :=
  TC (client_closed c) (buf c) (socks_up c) true (socks_recv_buf c) (socks_recv_buf_used c)
     (socks_recv_buf_sent c) (socks_recv_waiting c) (socks_recv_tcp_pending c).
Definition set_recv (d : list byte) (used sent : Z) (waiting : bool) (pending : Z) (c : tcp_client) :=
  TC (client_closed c) (buf c) (socks_up c) (socks_closed c) d used sent waiting pending.
Definition set_recv_used (used : Z) (c : tcp_client) :=
  set_recv (socks_recv_buf c) used (socks_recv_buf_sent c) (socks_recv_waiting c) (socks_recv_tcp_pending c) c.
Definition set_recv_waiting (b : bool) (c : tcp_client) :=
  set_recv (socks_recv_buf c) (socks_recv_buf_used c) (socks_recv_buf_sent c) b (socks_recv_tcp_pending c) c.
Definition set_recv_pending (n : Z) (c : tcp_client) :=
  set_recv (socks_recv_buf c) (socks_recv_buf_used c) (socks_recv_buf_sent c) (socks_recv_waiting c) n c.

Definition set_pcb (p e r s : bool) (v : surroundings) :=
  Env p e r s (socks v) (s_sending v) (s_recving v) (allocated v) (dead_client v) (catcher v).
Definition set_socks (a : bool) (s : option Z) (r : bool) (v : surroundings) :=
  Env (pcb v) (cb_err v) (cb_recv v) (cb_sent v) a s r (allocated v) (dead_client v) (catcher v).
Definition set_allocated (a : bool) (v : surroundings) :=
  Env (pcb v) (cb_err v) (cb_recv v) (cb_sent v) (socks v) (s_sending v) (s_recving v) a (dead_client v) (catcher v).
Definition set_dead (d : bool) (k : option bool) (v : surroundings) :=
  Env (pcb v) (cb_err v) (cb_recv v) (cb_sent v) (socks v) (s_sending v) (s_recving v) (allocated v) d k.

(** *** The death of the client, as a callback sees it ([misc/dead.h]) *)

Definition catching (v : surroundings) : bool := match catcher v with Some _ => true | None => false end.

(** [DEAD_KILL] writes through the pointer, which must not outlive the variable
    it points to. *)
Definition DEAD_KILL (w : world) : world :=
  let w := touch w in
  if dead_client (env w) then
    upd_env (fun v => set_dead (dead_client v) (Some true) v) (ASSERT (catching (env w)) w)
  else w.
(** The pointer must be unset, so that the variable declared with it remembers
    [NULL]. *)
Definition DEAD_ENTER (w : world) : world :=
  let w := ASSERT (negb (dead_client (env w))) (touch w) in
  upd_env (set_dead true (Some false)) w.
(** Only a client that was not killed has its pointer set back. *)
Definition DEAD_LEAVE2 (w : world) : world :=
  match catcher (env w) with
  | Some false => upd_env (fun v => set_dead false (catcher v) v) (touch w)
  | _ => w
  end.
Definition DEAD_KILLED (w : world) : bool := match catcher (env w) with Some b => b | None => false end.
(** The callback returns, and its variable is gone. *)
Definition leave_scope (w : world) : world := upd_env (fun v => set_dead (dead_client v) None v) w.

(** [DEAD_ENTER], [SYNC_COMMIT], [DEAD_LEAVE2] and what the callback returns. *)
Definition commit_and_return (sc : world -> world) (w : world) : world * err_t :=
  let w := DEAD_ENTER w in
  let w := sc w in
  let w := DEAD_LEAVE2 w in
  (leave_scope w, if DEAD_KILLED w then ERR_ABRT else ERR_OK).

(** ** lwIP's and the SOCKS client's calls *)

(** What lwIP answers: [tcp_close] succeeds, the free space in the send buffer and
    the result of [tcp_write] at each round, [tcp_output] succeeds. *)
Record oracle := Oracle { close_ok : bool; sndbuf : nat -> Z; write_res : nat -> err_t; output_ok : bool }.

(** A call on [client->pcb]. *)
Definition on_pcb (w : world) : world := ASSERT (pcb (env w)) (touch w).

Definition tcp_err (set : bool) (w : world) : world :=
  upd_env (fun v => set_pcb (pcb v) set (cb_recv v) (cb_sent v) v) (on_pcb w).
Definition tcp_recv (set : bool) (w : world) : world :=
  upd_env (fun v => set_pcb (pcb v) (cb_err v) set (cb_sent v) v) (on_pcb w).
Definition tcp_sent (set : bool) (w : world) : world :=
  upd_env (fun v => set_pcb (pcb v) (cb_err v) (cb_recv v) set v) (on_pcb w).
Definition pcb_gone (v : surroundings) : surroundings := set_pcb false false false false v.
(** [tcp_close] that fails leaves the connection. *)
Definition tcp_close (ok : bool) (w : world) : world :=
  let w := on_pcb w in if ok then upd_env pcb_gone w else w.
Definition tcp_abort (w : world) : world := upd_env pcb_gone (on_pcb w).
Definition tcp_recved (n : Z) (w : world) : world :=
  upd_hist (fun h => Hist (taken h) (forwarded h) (recved h + n) (fetched h) (written h) (acked h)) (on_pcb w).
(** A [tcp_write] that succeeds. *)
Definition tcp_write (d : list byte) (w : world) : world :=
  upd_hist (fun h => Hist (taken h) (forwarded h) (recved h) (fetched h) (written h ++ d) (acked h)) (on_pcb w).

Definition socks_free (w : world) : world :=
  upd_env (set_socks false None false) (ASSERT (socks (env w)) (touch w)).
Definition StreamPassInterface_Sender_Send (len : Z) (w : world) : world :=
  upd_env (fun v => set_socks (socks v) (Some len) (s_recving v) v)
    (ASSERT (socks (env w) && (0 <? len) && match s_sending (env w) with None => true | Some _ => false end) (touch w)).
Definition StreamRecvInterface_Receiver_Recv (w : world) : world :=
  upd_env (fun v => set_socks (socks v) (s_sending v) true v)
    (ASSERT (socks (env w) && negb (s_recving (env w))) (touch w)).

(** ** Taking a client down *)

Definition client_dealloc (w : world) : world :=
  let w := CHECK client_closed w in
  let w := CHECK socks_closed w in
  upd_env (set_allocated false) (touch w).

Definition remove_callbacks (w : world) : world := tcp_sent false (tcp_recv false (tcp_err false w)).

(** The three functions call each other; two calls deep is enough, see
    [takedown]. *)
Fixpoint client_handle_freed_client (fuel : nat) (o : oracle) (w : world) : world :=
  match fuel with
  | O => ASSERT false w
  | S fuel' =>
      let w := CHECK (fun c => negb (client_closed c)) w in
      let w := DEAD_KILL w in
      let w := upd set_client_closed w in
      let '(w, c) := load w in
      if (0 <? buf_used c) && negb (socks_closed c) then client_log w
      else if negb (socks_closed c) then client_free_socks fuel' o w
      else client_dealloc w
  end
with client_free_client (fuel : nat) (o : oracle) (w : world) : world :=
  match fuel with
  | O => ASSERT false w
  | S fuel' =>
      let w := CHECK (fun c => negb (client_closed c)) w in
      let w := remove_callbacks w in
      let w := tcp_close (close_ok o) w in
      let w := if close_ok o then w else tcp_abort (client_log w) in
      client_handle_freed_client fuel' o w
  end
with client_free_socks (fuel : nat) (o : oracle) (w : world) : world :=
  match fuel with
  | O => ASSERT false w
  | S fuel' =>
      let w := CHECK (fun c => negb (socks_closed c)) w in
      let '(w, c) := load w in
      let w := if socks_up c then if negb (client_closed c) then tcp_recv false w else w else w in
      let w := socks_free w in
      let w := upd set_socks_closed w in
      let '(w, c) := load w in
      if socks_up c && ((0 <=? socks_recv_buf_used c) || (0 <? socks_recv_tcp_pending c)) && negb (client_closed c)
      then client_log w
      else if negb (client_closed c) then client_free_client fuel' o w
      else client_dealloc w
  end.

Definition takedown : nat := 4.

Definition client_abort_client (o : oracle) (w : world) : world :=
  let w := CHECK (fun c => negb (client_closed c)) w in
  let w := remove_callbacks w in
  let w := tcp_abort w in
  client_handle_freed_client takedown o w.

Definition client_murder (w : world) : world :=
  let '(w, c) := load w in
  let w := if negb (client_closed c) then
             upd set_client_closed (DEAD_KILL (tcp_abort (remove_callbacks w))) else w in
  let '(w, c) := load w in
  let w := if negb (socks_closed c) then upd set_socks_closed (socks_free w) else w in
  client_dealloc w.

(** ** The callbacks *)

(** The connection is gone when lwIP calls this. *)
Definition client_err_func (o : oracle) (w : world) : world :=
  let w := CHECK (fun c => negb (client_closed c)) w in
  client_handle_freed_client takedown o (client_log w).

Definition client_send_to_socks (w : world) : world :=
  let w := CHECK (fun c => negb (socks_closed c)) w in
  let w := CHECK socks_up w in
  let w := CHECK (fun c => 0 <? buf_used c) w in
  let '(w, c) := load w in
  StreamPassInterface_Sender_Send (buf_used c) w.

(** [p = None] is the end of the device's stream; [wnd] is [TCP_WND], the size of
    the buffer. *)
Definition client_recv_func (wnd : Z) (o : oracle) (sc : world -> world) (p : option (list byte)) (w : world)
  : world * err_t :=
  let w := CHECK (fun c => negb (client_closed c)) w in
  match p with
  | None => (client_free_client takedown o (client_log w), ERR_ABRT)
  | Some p =>
      let w := ASSERT (0 <? zlen p) w in
      let '(w, c) := load w in
      if wnd - buf_used c <? zlen p then (client_log w, ERR_MEM) else
      let w := upd (fun c => set_buf (buf c ++ p) c) w in
      let w := upd_hist (fun h => Hist (taken h ++ p) (forwarded h) (recved h) (fetched h) (written h) (acked h)) w in
      let '(w, c) := load w in
      if (buf_used c =? zlen p) && socks_up c then
        let w := CHECK (fun c => negb (socks_closed c)) w in
        commit_and_return sc (client_send_to_socks w)
      else (w, ERR_OK)
  end.

Definition client_socks_recv_initiate (w : world) : world :=
  let w := CHECK (fun c => negb (client_closed c)) w in
  let w := CHECK (fun c => negb (socks_closed c)) w in
  let w := CHECK socks_up w in
  let w := CHECK (fun c => socks_recv_buf_used c =? -1) w in
  StreamRecvInterface_Receiver_Recv w.

Definition client_socks_handler (o : oracle) (event : socks_event) (w : world) : world :=
  let w := CHECK (fun c => negb (socks_closed c)) w in
  match event with
  | BSOCKSCLIENT_EVENT_ERROR => client_free_socks takedown o (client_log w)
  | BSOCKSCLIENT_EVENT_UP =>
      let w := CHECK (fun c => negb (socks_up c)) w in
      let w := client_log w in
      let w := upd (fun c => set_recv_pending 0 (set_recv_used (-1) c)) w in
      let '(w, c) := load w in
      let w := if negb (client_closed c) then tcp_sent true w else w in
      let w := upd set_socks_up w in
      let '(w, c) := load w in
      let w := if 0 <? buf_used c then client_send_to_socks w else w in
      let '(w, c) := load w in
      if negb (client_closed c) then client_socks_recv_initiate w else w
  | BSOCKSCLIENT_EVENT_ERROR_CLOSED =>
      let w := CHECK socks_up w in
      client_free_socks takedown o (client_log w)
  end.

Definition client_socks_send_handler_done (o : oracle) (data_len : Z) (w : world) : world :=
  let w := CHECK (fun c => negb (socks_closed c)) w in
  let w := CHECK socks_up w in
  let w := CHECK (fun c => 0 <? buf_used c) w in
  let w := CHECK (fun c => (0 <? data_len) && (data_len <=? buf_used c)) w in
  let w := upd (fun c => set_buf (drop (Z.to_nat data_len) (buf c)) c) w in
  let '(w, c) := load w in
  let w := if negb (client_closed c) then tcp_recved data_len w else w in
  let '(w, c) := load w in
  if 0 <? buf_used c then StreamPassInterface_Sender_Send (buf_used c) w
  else if client_closed c then client_free_socks takedown o (client_log w) else w.

(** The loop of [client_socks_recv_send_out]; [true] when [tcp_write] failed for
    good. [i] counts the rounds; a round that goes on writes at least one byte.
    [tcp_sndbuf] and [tcp_write] use the connection. *)
Fixpoint send_out_loop (fuel i : nat) (o : oracle) (w : world) : world * bool :=
  match fuel with
  | O => (ASSERT false w, false)
  | S fuel' =>
      let '(w, c) := load w in
      let w := on_pcb w in
      let to_write := Z.min (socks_recv_buf_used c - socks_recv_buf_sent c) (sndbuf o i) in
      if to_write =? 0 then (w, false) else
      match write_res o i with
      | ERR_OK =>
          let w := tcp_write (slice (socks_recv_buf_sent c) to_write (socks_recv_buf c)) w in
          let w := upd (fun c => set_recv (socks_recv_buf c) (socks_recv_buf_used c) (socks_recv_buf_sent c + to_write)
                                   (socks_recv_waiting c) (socks_recv_tcp_pending c + to_write) c) w in
          let '(w, c) := load w in
          if socks_recv_buf_sent c <? socks_recv_buf_used c then send_out_loop fuel' (S i) o w
          else (w, false)
      | ERR_MEM => (on_pcb w, false)
      | _ => (client_log (on_pcb w), true)
      end
  end.

(** One round per byte left is enough. *)
Definition send_out_fuel (c : tcp_client) : nat := Z.to_nat (socks_recv_buf_used c - socks_recv_buf_sent c).

(** The result is [true] for the return value -1. *)
Definition client_socks_recv_send_out (o : oracle) (w : world) : world * bool :=
  let w := CHECK (fun c => negb (client_closed c)) w in
  let w := CHECK socks_up w in
  let w := CHECK (fun c => 0 <? socks_recv_buf_used c) w in
  let w := CHECK (fun c => socks_recv_buf_sent c <? socks_recv_buf_used c) w in
  let w := CHECK (fun c => negb (socks_recv_waiting c)) w in
  let '(w, failed) := send_out_loop (send_out_fuel (cli w)) 0 o w in
  if failed then (client_abort_client o w, true) else
  let w := on_pcb w in  (* tcp_output *)
  if negb (output_ok o) then (client_abort_client o (client_log w), true) else
  let '(w, c) := load w in
  if socks_recv_buf_sent c <? socks_recv_buf_used c then
    if socks_recv_tcp_pending c =? 0 then (client_abort_client o (client_log w), true)
    else (upd (set_recv_waiting true) w, false)
  else (upd (set_recv_used (-1)) w, false).

Definition client_socks_recv_handler_done (o : oracle) (data : list byte) (w : world) : world :=
  let data_len := zlen data in
  let w := ASSERT ((0 <? data_len) && (data_len <=? CLIENT_SOCKS_RECV_BUF_SIZE)) w in
  let w := CHECK (fun c => negb (socks_closed c)) w in
  let w := CHECK socks_up w in
  let w := CHECK (fun c => socks_recv_buf_used c =? -1) w in
  let '(w, c) := load w in
  if client_closed c then w else
  let w := upd (fun c => set_recv data data_len 0 false (socks_recv_tcp_pending c) c) w in
  let '(w, aborted) := client_socks_recv_send_out o w in
  if aborted then w else
  let '(w, c) := load w in
  if socks_recv_buf_used c =? -1 then client_socks_recv_initiate w else w.

Definition client_sent_func (o : oracle) (sc : world -> world) (len : Z) (w : world) : world * err_t :=
  let w := CHECK (fun c => negb (client_closed c)) w in
  let w := CHECK socks_up w in
  let w := CHECK (fun c => (0 <? len) && (len <=? socks_recv_tcp_pending c)) w in
  let w := upd (fun c => set_recv_pending (socks_recv_tcp_pending c - len) c) w in
  let '(w, c) := load w in
  if 0 <? socks_recv_buf_used c then
    let w := CHECK socks_recv_waiting w in
    let w := CHECK (fun c => socks_recv_buf_sent c <? socks_recv_buf_used c) w in
    let w := upd (set_recv_waiting false) w in
    let '(w, aborted) := client_socks_recv_send_out o w in
    if aborted then (w, ERR_ABRT) else
    let w := CHECK (fun c => 0 <? socks_recv_tcp_pending c) w in
    let '(w, c) := load w in
    if (socks_recv_buf_used c =? -1) && negb (socks_closed c)
    then commit_and_return sc (client_socks_recv_initiate w)
    else (w, ERR_OK)
  else if socks_closed c && (socks_recv_tcp_pending c =? 0) then
    (client_free_client takedown o (client_log w), ERR_ABRT)
  else (w, ERR_OK).

(** The client when it has been set up, before the jobs run. *)
Definition accepted : world :=
  W (TC false [] false false [] (-1) 0 false 0)
    (Env true true true false true None false true false None)
    (Hist [] [] 0 [] [] 0) false.

(** A failure leaves no client; nothing has run by then. *)
Definition listener_accept_func (malloc_ok username_ok socks_ok : bool) (sc : world -> world) : option world * err_t :=
  if negb malloc_ok then (None, ERR_MEM) else
  if negb username_ok then (None, ERR_MEM) else
  if negb socks_ok then (None, ERR_MEM) else
  let '(w, res) := commit_and_return sc (client_log accepted) in (Some w, res).

(** ** Events *)

Inductive event :=
| EDeviceData (p : list byte) | EDeviceFin | EDeviceError | EDeviceAck (n : Z)
| ESocks (e : socks_event) | ESocksSent (n : Z) | ESocksData (d : list byte) | EMurder.

(** What lwIP and the SOCKS client can do to a client that exists. lwIP keeps to
    the window and acknowledges only what was written; the interfaces complete
    what was asked. *)
Definition enabled (wnd : Z) (w : world) (e : event) : Prop :=
  allocated (env w) = true /\
  match e with
  | EDeviceData p =>
      pcb (env w) = true /\ cb_recv (env w) = true /\ 0 < zlen p /\ zlen (taken (hist w)) + zlen p - recved (hist w) <= wnd
  | EDeviceFin => pcb (env w) = true /\ cb_recv (env w) = true
  | EDeviceError => pcb (env w) = true /\ cb_err (env w) = true
  | EDeviceAck n => pcb (env w) = true /\ cb_sent (env w) = true /\ 0 < n <= zlen (written (hist w)) - acked (hist w)
  | ESocks e => socks (env w) = true /\
      match e with
      | BSOCKSCLIENT_EVENT_UP => socks_up (cli w) = false
      | BSOCKSCLIENT_EVENT_ERROR => True
      | BSOCKSCLIENT_EVENT_ERROR_CLOSED => socks_up (cli w) = true
      end
  | ESocksSent n => socks (env w) = true /\ exists m, s_sending (env w) = Some m /\ 0 < n <= m
  | ESocksData d => socks (env w) = true /\ s_recving (env w) = true /\ 0 < zlen d <= CLIENT_SOCKS_RECV_BUF_SIZE
  | EMurder => True
  end.

(** What the SOCKS client does to the client runs from jobs. *)
Definition is_job (e : event) : bool :=
  match e with ESocks _ | ESocksSent _ | ESocksData _ => true | _ => false end.

Definition run_job (o : oracle) (e : event) (w : world) : world :=
  match e with
  | ESocks e => client_socks_handler o e w
  | ESocksSent n =>
      client_socks_send_handler_done o n
        (upd_hist (fun h => Hist (taken h) (forwarded h ++ take (Z.to_nat n) (buf (cli w))) (recved h) (fetched h) (written h) (acked h))
          (upd_env (fun v => set_socks (socks v) None (s_recving v) v) w))
  | ESocksData d =>
      client_socks_recv_handler_done o d
        (upd_hist (fun h => Hist (taken h) (forwarded h) (recved h) (fetched h ++ d) (written h) (acked h))
          (upd_env (fun v => set_socks (socks v) (s_sending v) false v) w))
  | _ => w
  end.

Definition step (wnd : Z) (o : oracle) (sc : world -> world) (w : world) (e : event) : world * err_t :=
  match e with
  | EDeviceData p => client_recv_func wnd o sc (Some p) w
  | EDeviceFin => client_recv_func wnd o sc None w
  | EDeviceError => (client_err_func o (upd_env pcb_gone w), ERR_OK)
  | EDeviceAck n =>
      client_sent_func o sc n
        (upd_hist (fun h => Hist (taken h) (forwarded h) (recved h) (fetched h) (written h) (acked h + n)) w)
  | EMurder => (client_murder w, ERR_OK)
  | _ => (run_job o e w, ERR_OK)
  end.

(** The free space in lwIP's send buffer is a [u16_t]. *)
Definition oracle_ok (o : oracle) : Prop := forall i, 0 <= sndbuf o i.

(** [SYNC_COMMIT] runs any jobs that are due, in any number. *)
Inductive commits (wnd : Z) : world -> world -> Prop :=
| commits_done w : commits wnd w w
| commits_job w o e w' :
    oracle_ok o -> is_job e = true -> enabled wnd w e -> commits wnd (run_job o e w) w' -> commits wnd w w'.

Definition commit_ok (wnd : Z) (sc : world -> world) : Prop := forall w, commits wnd w (sc w).

Inductive reachable (wnd : Z) (w0 : world) : world -> Prop :=
| reach_start : reachable wnd w0 w0
| reach_step w o sc e :
    reachable wnd w0 w -> oracle_ok o -> commit_ok wnd sc -> enabled wnd w e ->
    reachable wnd w0 (fst (step wnd o sc w e)).

(** ** Invariant *)

(** In order, without loss inside: what was forwarded is a prefix of what was
    taken, in both directions. *)
Definition in_order (h : history) : Prop :=
  forwarded h `prefix_of` taken h /\ written h `prefix_of` fetched h.

(** What holds whatever the state of the connection to the device. *)
Record Core (w : world) : Prop := {
  l_sclosed : socks_closed (cli w) = negb (socks (env w));
  l_down : socks_up (cli w) = false ->
    s_sending (env w) = None /\ s_recving (env w) = false /\ socks_recv_buf_used (cli w) = -1 /\
    fetched (hist w) = [] /\ written (hist w) = [] /\ acked (hist w) = 0;
  l_send : socks (env w) = true -> socks_up (cli w) = true ->
    match s_sending (env w) with None => buf (cli w) = [] | Some n => 0 < n <= zlen (buf (cli w)) end;
  l_recv : s_recving (env w) = true -> socks_recv_buf_used (cli w) = -1;
  d_up : taken (hist w) = forwarded (hist w) ++ buf (cli w);
  d_order : in_order (hist w)
}.

(** What holds of an open connection to the device. *)
Record Open (w : world) : Prop := {
  l_recving : socks (env w) = true -> socks_up (cli w) = true ->
    socks_recv_buf_used (cli w) = -1 -> s_recving (env w) = true;
  l_rbuf : socks_recv_buf_used (cli w) = -1 \/
    (0 <= socks_recv_buf_sent (cli w) < socks_recv_buf_used (cli w) /\
     socks_recv_buf_used (cli w) = zlen (socks_recv_buf (cli w)) /\
     socks_recv_waiting (cli w) = true /\ 0 < socks_recv_tcp_pending (cli w));
  l_pend : socks_up (cli w) = true ->
    socks_recv_tcp_pending (cli w) = zlen (written (hist w)) - acked (hist w) /\ 0 <= socks_recv_tcp_pending (cli w);
  d_recved : recved (hist w) = zlen (forwarded (hist w));
  d_down : fetched (hist w) = written (hist w) ++
      (if socks_recv_buf_used (cli w) =? -1 then []
       else drop (Z.to_nat (socks_recv_buf_sent (cli w))) (socks_recv_buf (cli w)))
}.

Record Live (w : world) : Prop := {
  l_closed : client_closed (cli w) = negb (pcb (env w));
  l_one : pcb (env w) = true \/ socks (env w) = true;
  l_buf : pcb (env w) = false -> buf (cli w) <> [];
  l_wait : socks (env w) = false ->
    socks_up (cli w) = true /\ cb_recv (env w) = false /\ s_sending (env w) = None /\ s_recving (env w) = false /\
    (0 <= socks_recv_buf_used (cli w) \/ 0 < socks_recv_tcp_pending (cli w));
  l_err : cb_err (env w) = pcb (env w);
  l_sent : cb_sent (env w) = pcb (env w) && socks_up (cli w);
  l_core : Core w;
  l_open : pcb (env w) = true -> Open w
}.

Definition Gone (w : world) : Prop := pcb (env w) = false /\ socks (env w) = false.

Record Inv (w : world) : Prop := {
  i_fault : fault w = false;
  i_order : in_order (hist w);
  i_live : allocated (env w) = true -> Live w;
  i_gone : allocated (env w) = false -> Gone w;
  i_dead : pcb (env w) = true -> dead_client (env w) = catching (env w)
}.

(** What a callback that waits for jobs finds in its variable when the connection
    was closed meanwhile. *)
Definition killed (k : option bool) : option bool := match k with Some _ => Some true | None => None end.
Definition kill (v : surroundings) : surroundings := set_dead (dead_client v) (killed (catcher v)) v.

(** What a call does to the connection and to that variable: nothing, or it closes
    the one and sets the other. No data is taken from the device. *)
Definition calm (w w' : world) : Prop :=
  taken (hist w') = taken (hist w) /\ pcb (env w') = pcb (env w) /\ catcher (env w') = catcher (env w).
Definition closes (w w' : world) : Prop :=
  taken (hist w') = taken (hist w) /\ pcb (env w') = false /\ catcher (env w') = killed (catcher (env w)).
Definition evolves (w w' : world) : Prop := calm w w' \/ (pcb (env w) = true /\ closes w w').

Lemma evolves_trans w1 w2 w3 : evolves w1 w2 -> evolves w2 w3 -> evolves w1 w3.
Proof.
  intros [(A1 & A2 & A3)|(P & A1 & A2 & A3)] [(B1 & B2 & B3)|(Q & B1 & B2 & B3)].
  - left. split_and!; congruence.
  - right. rewrite <- A2. split; [done|]. split_and!; congruence.
  - right. split; [done|]. split_and!; congruence.
  - congruence.
Qed.

(** Fully taken down, with history [h] and [k] in the variable. *)
Definition Dead (w : world) (h : history) (k : option bool) : Prop :=
  fault w = false /\ allocated (env w) = false /\ Gone w /\ hist w = h /\ catcher (env w) = k.

Lemma Dead_Inv w h k : Dead w h k -> in_order h -> Inv w.
Proof. intros (H1 & H2 & [H3 H4] & <- & _) Ho. split; try done; congruence. Qed.

Lemma Dead_closes w w' : Dead w' (hist w) (killed (catcher (env w))) -> closes w w'.
Proof. intros (_ & _ & [H _] & E & K). split_and!; congruence. Qed.

(** *** Accesses to a client that exists *)

Lemma touch_ok w : allocated (env w) = true -> touch w = w.
Proof. unfold touch. intros ->. done. Qed.

Lemma load_ok w : allocated (env w) = true -> load w = (w, cli w).
Proof. intros H. unfold load. rewrite touch_ok by done. done. Qed.

Lemma CHECK_ok p w : allocated (env w) = true -> p (cli w) = true -> CHECK p w = w.
Proof. intros H E. unfold CHECK. rewrite touch_ok, E by done. done. Qed.

(** The assertions hold, from the innermost, each by [tac]. *)
Ltac passed tac :=
  repeat match goal with
  | |- context [CHECK ?p ?w] =>
      lazymatch w with context [CHECK _ _] => fail | _ => rewrite (CHECK_ok p w) by tac end
  end.

Lemma on_pcb_ok w : allocated (env w) = true -> pcb (env w) = true -> on_pcb w = w.
Proof. intros H E. unfold on_pcb. rewrite touch_ok, E by done. done. Qed.

Ltac open_world w :=
  destruct w as [[cc b su sl rb ru rs rw rp] [pc ce cr cs so ss sr al dc kt] h f].

(** The connection is gone: the client stays exactly if SOCKS must still be sent
    buffered data. *)
Lemma handle_freed_spec n o w :
  fault w = false -> allocated (env w) = true -> pcb (env w) = false -> client_closed (cli w) = false ->
  socks_closed (cli w) = negb (socks (env w)) -> dead_client (env w) = catching (env w) ->
  if (0 <? buf_used (cli w)) && socks (env w)
  then client_handle_freed_client (S (S n)) o w = upd set_client_closed (upd_env kill w)
  else Dead (client_handle_freed_client (S (S n)) o w) (hist w) (killed (catcher (env w))).
Proof.
  open_world w. cbn [fault env allocated pcb cli client_closed socks_closed socks hist dead_client catcher]. intros -> -> -> -> -> ->.
  unfold buf_used. cbn [buf].
  destruct (0 <? zlen b) eqn:Eb; destruct so; destruct kt; cbn -[zlen Z.ltb Z.leb]; unfold buf_used; cbn -[zlen Z.ltb Z.leb];
    rewrite Eb; cbn -[zlen Z.ltb Z.leb]; try (done || (repeat split));
    destruct su; cbn -[zlen Z.ltb Z.leb]; rewrite ?andb_false_r; cbn -[zlen Z.ltb Z.leb]; repeat split.
Qed.

Lemma free_client_spec n o w :
  fault w = false -> allocated (env w) = true -> pcb (env w) = true -> client_closed (cli w) = false ->
  socks_closed (cli w) = negb (socks (env w)) -> dead_client (env w) = catching (env w) ->
  if (0 <? buf_used (cli w)) && socks (env w)
  then client_free_client (S (S (S n))) o w = upd set_client_closed (upd_env kill (upd_env pcb_gone w))
  else Dead (client_free_client (S (S (S n))) o w) (hist w) (killed (catcher (env w))).
Proof.
  intros Hf Ha Hp Hc Hs Hd.
  assert (client_free_client (S (S (S n))) o w = client_handle_freed_client (S (S n)) o (upd_env pcb_gone w)) as ->.
  { clear Hs Hd. open_world w. cbn in Hf, Ha, Hp, Hc. subst.
    cbn [client_free_client]. unfold remove_callbacks, tcp_close, tcp_abort, tcp_sent, tcp_recv, tcp_err. cbn -[client_handle_freed_client].
    destruct (close_ok o); cbn -[client_handle_freed_client]; done. }
  exact (handle_freed_spec n o (upd_env pcb_gone w) Hf Ha eq_refl Hc Hs Hd).
Qed.

(** SOCKS is gone: the client stays exactly if the device must still be sent data
    or acknowledge it. *)
Lemma free_socks_spec o w :
  fault w = false -> allocated (env w) = true -> socks (env w) = true -> socks_closed (cli w) = false ->
  client_closed (cli w) = negb (pcb (env w)) -> (pcb (env w) = true -> dead_client (env w) = catching (env w)) ->
  if socks_up (cli w) && ((0 <=? socks_recv_buf_used (cli w)) || (0 <? socks_recv_tcp_pending (cli w))) && pcb (env w)
  then client_free_socks takedown o w =
         upd set_socks_closed (upd_env (fun v => set_socks false None false (set_pcb (pcb v) (cb_err v) false (cb_sent v) v)) w)
  else Dead (client_free_socks takedown o w) (hist w)
         (if pcb (env w) then killed (catcher (env w)) else catcher (env w)).
Proof.
  intros Hf Ha Hs Hc Hp Hd. unfold takedown.
  set (w1 := upd set_socks_closed (socks_free
    (if socks_up (cli w) then if negb (client_closed (cli w)) then tcp_recv false w else w else w))).
  assert (client_free_socks 4 o w =
    if socks_up (cli w) && ((0 <=? socks_recv_buf_used (cli w)) || (0 <? socks_recv_tcp_pending (cli w))) && pcb (env w)
    then w1 else if pcb (env w) then client_free_client 3 o w1 else client_dealloc w1) as ->.
  { clear Hd. unfold w1. open_world w. cbn in Hf, Ha, Hs, Hc, Hp. subst. cbn -[client_free_client client_dealloc Z.leb Z.ltb].
    destruct su, pc; cbn -[client_free_client client_dealloc Z.leb Z.ltb]; rewrite ?andb_true_r, ?andb_false_r; done. }
  assert (fault w1 = false /\ allocated (env w1) = true /\ pcb (env w1) = pcb (env w) /\ client_closed (cli w1) = negb (pcb (env w))
    /\ socks (env w1) = false /\ socks_closed (cli w1) = true /\ hist w1 = hist w /\
    dead_client (env w1) = dead_client (env w) /\ catcher (env w1) = catcher (env w)) as (F1 & F2 & F3 & F4 & F5 & F6 & F7 & F8 & F9).
  { unfold w1. clear Hd. open_world w. cbn in Hf, Ha, Hs, Hc, Hp. subst. destruct su, pc; done. }
  destruct (socks_up (cli w) && _ && _) eqn:E.
  { apply andb_true_iff in E as [E Ep]. apply andb_true_iff in E as [Eu _]. unfold w1.
    rewrite Eu, Hp, Ep. cbn [negb]. clear Hd F8 F9. open_world w. cbn in *. subst. done. }
  rewrite <- F7, <- F9. destruct (pcb (env w)) eqn:Ep.
  - pose proof (free_client_spec 0 o w1 F1 F2 F3 ltac:(rewrite F4; done) ltac:(rewrite F6, F5; done)) as H.
    rewrite F5, andb_false_r in H. apply H. unfold catching. rewrite F8, F9. apply Hd. done.
  - unfold client_dealloc. rewrite (CHECK_ok client_closed w1), (CHECK_ok socks_closed w1), touch_ok by done.
    split_and!; done.
Qed.

(** *** Taking down keeps the invariant *)

Lemma zlen_pos_ne (l : list byte) : (0 <? zlen l) = true -> l <> [].
Proof. intros H ->. done. Qed.

Lemma zlen_not_pos (l : list byte) : (0 <? zlen l) = false -> l = [].
Proof. intros H. apply zlen_0_inv. pose proof (zlen_nonneg l). apply Z.ltb_ge in H. lia. Qed.

Lemma Inv_handle_freed n o w :
  fault w = false -> allocated (env w) = true -> pcb (env w) = false -> client_closed (cli w) = false ->
  cb_err (env w) = false -> cb_sent (env w) = false -> Core w -> dead_client (env w) = catching (env w) ->
  Inv (client_handle_freed_client (S (S n)) o w) /\ closes w (client_handle_freed_client (S (S n)) o w).
Proof.
  intros Hf Ha Hp Hc He Hs C Hd. pose proof (handle_freed_spec n o w Hf Ha Hp Hc (l_sclosed _ C) Hd) as H.
  destruct ((0 <? buf_used (cli w)) && socks (env w)) eqn:E.
  2: { split; [eapply Dead_Inv; [exact H|apply C]|apply Dead_closes, H]. }
  rewrite H. split; [|split_and!; done].
  apply andb_true_iff in E as [Eb Es].
  split; [cbn; rewrite Hf, Ha; done|apply C| |cbn; congruence|cbn; congruence].
  intros _. split; cbn; rewrite ?Hp, ?Es, ?He, ?Hs; try done.
  - auto.
  - intros _. apply zlen_pos_ne. exact Eb.
  - destruct C. split; cbn; done.
Qed.

Lemma Core_pcb_gone w : Core w -> Core (upd_env pcb_gone w).
Proof. intros []. split; done. Qed.

Lemma Inv_free_client n o w :
  fault w = false -> allocated (env w) = true -> pcb (env w) = true -> client_closed (cli w) = false -> Core w ->
  dead_client (env w) = catching (env w) ->
  Inv (client_free_client (S (S (S n))) o w) /\ closes w (client_free_client (S (S (S n))) o w).
Proof.
  intros Hf Ha Hp Hc C Hd. pose proof (free_client_spec n o w Hf Ha Hp Hc (l_sclosed _ C) Hd) as H.
  pose proof (handle_freed_spec n o (upd_env pcb_gone w) Hf Ha eq_refl Hc (l_sclosed _ C) Hd) as H'.
  pose proof (Inv_handle_freed n o (upd_env pcb_gone w) Hf Ha eq_refl Hc eq_refl eq_refl (Core_pcb_gone w C) Hd) as [HI _].
  cbn [cli env upd_env] in H'. change (socks (pcb_gone (env w))) with (socks (env w)) in H'.
  destruct ((0 <? buf_used (cli w)) && socks (env w)).
  - rewrite H. rewrite H' in HI. split; [exact HI|split_and!; done].
  - split; [eapply Dead_Inv; [exact H|apply C]|apply Dead_closes, H].
Qed.

Lemma Inv_abort o w :
  fault w = false -> allocated (env w) = true -> pcb (env w) = true -> client_closed (cli w) = false -> Core w ->
  dead_client (env w) = catching (env w) ->
  Inv (client_abort_client o w) /\ closes w (client_abort_client o w).
Proof.
  intros Hf Ha Hp Hc C Hd.
  assert (client_abort_client o w = client_handle_freed_client takedown o (upd_env pcb_gone w)) as ->.
  { clear C Hd. open_world w. cbn in Hf, Ha, Hp, Hc. subst. done. }
  apply (Inv_handle_freed 2 o (upd_env pcb_gone w)); try done. apply Core_pcb_gone, C.
Qed.

Lemma Inv_free_socks o w :
  fault w = false -> allocated (env w) = true -> socks (env w) = true -> client_closed (cli w) = negb (pcb (env w)) ->
  Core w -> (pcb (env w) = true -> Live w) -> (pcb (env w) = true -> dead_client (env w) = catching (env w)) ->
  Inv (client_free_socks takedown o w) /\ evolves w (client_free_socks takedown o w).
Proof.
  intros Hf Ha Hs Hc C HL Hd. assert (socks_closed (cli w) = false) as Hsc by (rewrite (l_sclosed _ C), Hs; done).
  pose proof (free_socks_spec o w Hf Ha Hs Hsc Hc Hd) as H.
  destruct (socks_up (cli w) && _ && _) eqn:E.
  2: { split; [eapply Dead_Inv; [exact H|apply C]|]. destruct (pcb (env w)) eqn:Ep.
       - right. split; [done|]. apply Dead_closes, H.
       - left. destruct H as (_ & _ & [H _] & E1 & E2). split_and!; congruence. }
  rewrite H. split; [|left; split_and!; done]. apply andb_true_iff in E as [E Ep]. apply andb_true_iff in E as [Eu E].
  specialize (HL Ep). split; [cbn; rewrite Hf, Ha; done|apply C| |cbn; congruence|exact Hd]. intros _.
  destruct HL as [L1 L2 L3 L4 L5 L6 _ LO]. split; cbn; rewrite ?Ep; try done.
  - congruence.
  - auto.
  - intros _. split_and!; try done. apply orb_true_iff in E as [E|E]; [apply Z.leb_le in E|apply Z.ltb_lt in E]; auto.
  - rewrite L5. exact Ep.
  - rewrite L6, Ep. done.
  - destruct C. split; cbn; try done. intros E0. congruence.
  - intros _. destruct (LO Ep). split; cbn; try done.
Qed.

(** *** Events *)

Lemma not_closed wnd w e : Inv w -> enabled wnd w e -> pcb (env w) = true -> client_closed (cli w) = false.
Proof. intros HI [Ha _] Hp. rewrite (l_closed _ (i_live _ HI Ha)), Hp. done. Qed.

Lemma step_fin wnd o sc w :
  Inv w -> enabled wnd w EDeviceFin ->
  Inv (fst (step wnd o sc w EDeviceFin)) /\ closes w (fst (step wnd o sc w EDeviceFin)).
Proof.
  intros HI He. pose proof He as [Ha [Hp Hr]]. pose proof (not_closed _ _ _ HI He Hp) as Hc.
  cbn [step client_recv_func fst]. unfold client_log. rewrite CHECK_ok, touch_ok by (cbn; rewrite ?Hc; done).
  apply Inv_free_client; try done; [apply HI|apply (i_live _ HI Ha)|apply HI, Hp].
Qed.

Lemma step_error wnd o sc w :
  Inv w -> enabled wnd w EDeviceError ->
  Inv (fst (step wnd o sc w EDeviceError)) /\ closes w (fst (step wnd o sc w EDeviceError)).
Proof.
  intros HI He. pose proof He as [Ha [Hp Hr]]. pose proof (not_closed _ _ _ HI He Hp) as Hc.
  cbn [step fst]. unfold client_err_func, client_log. rewrite CHECK_ok, touch_ok by (cbn; rewrite ?Hc; done).
  apply (Inv_handle_freed 2 o (upd_env pcb_gone w)); try done; [apply HI|apply Core_pcb_gone, (i_live _ HI Ha)|apply HI, Hp].
Qed.

Lemma step_murder wnd o sc w :
  Inv w -> enabled wnd w EMurder -> Inv (fst (step wnd o sc w EMurder)) /\ evolves w (fst (step wnd o sc w EMurder)).
Proof.
  intros HI [Ha _]. pose proof (i_fault _ HI) as Hf. pose proof (i_order _ HI) as Ho. pose proof (i_dead _ HI) as Hd.
  destruct (i_live _ HI Ha) as [L1 _ _ _ _ _ [L2 _ _ _ _ _] _]. clear HI.
  assert (Dead (client_murder w) (hist w) (if pcb (env w) then killed (catcher (env w)) else catcher (env w))) as HD.
  { clear Ho. open_world w. cbn in *. subst.
    destruct pc; [rewrite (Hd eq_refl); destruct kt|]; destruct so; cbn; repeat split. }
  split; [exact (Dead_Inv _ _ _ HD Ho)|]. cbn [step fst]. destruct (pcb (env w)) eqn:Ep.
  - right. split; [done|]. apply Dead_closes, HD.
  - left. destruct HD as (_ & _ & [H _] & E1 & E2). split_and!; congruence.
Qed.

Lemma in_order_taken h p : in_order h -> in_order (Hist (taken h ++ p) (forwarded h) (recved h) (fetched h) (written h) (acked h)).
Proof. intros [H1 H2]. split; cbn; [apply prefix_app_r, H1|exact H2]. Qed.

(** Appending [p] to the buffer, with the send under way afterwards. *)
Definition append_data (p : list byte) (s : option Z) (w : world) : world :=
  upd_env (fun v => set_socks (socks v) s (s_recving v) v)
    (upd_hist (fun h => Hist (taken h ++ p) (forwarded h) (recved h) (fetched h) (written h) (acked h))
      (upd (fun c => set_buf (buf c ++ p) c) w)).

Lemma Inv_append_data p s w :
  Inv w -> allocated (env w) = true -> pcb (env w) = true -> socks (env w) = true -> 0 < zlen p ->
  (if socks_up (cli w) then exists n, s = Some n /\ 0 < n <= zlen (buf (cli w) ++ p) else s = None) ->
  Inv (append_data p s w).
Proof.
  intros HI Ha Hp Hs Hpos Hsend. destruct (i_live _ HI Ha) as [L1 L2 L3 L4 L5 L6 [C1 C2 C3 C4 C5 C6] LO].
  split; [cbn; rewrite (i_fault _ HI), Ha; done|apply in_order_taken, HI| |cbn; congruence|apply HI]. intros _.
  split; cbn; rewrite ?Hp, ?Hs; try done; try congruence; auto.
  - split; cbn; try done.
    + intros E. rewrite E in Hsend. destruct (C2 E) as [_ H2]. done.
    + intros _ E. rewrite E in Hsend. destruct Hsend as (n & -> & Hn). exact Hn.
    + rewrite C5, app_assoc. done.
    + apply in_order_taken, C6.
  - intros _. destruct (LO Hp). split; cbn; done.
Qed.

Lemma sender_send_ok n w :
  allocated (env w) = true -> socks (env w) = true -> s_sending (env w) = None -> 0 < n ->
  StreamPassInterface_Sender_Send n w = upd_env (fun v => set_socks (socks v) (Some n) (s_recving v) v) w.
Proof.
  intros Ha Hs Hn Hpos. unfold StreamPassInterface_Sender_Send.
  rewrite touch_ok, Hs, Hn, (proj2 (Z.ltb_lt 0 n)) by done. done.
Qed.

Lemma send_to_socks_ok w :
  allocated (env w) = true -> socks (env w) = true -> socks_closed (cli w) = false -> socks_up (cli w) = true ->
  s_sending (env w) = None -> 0 < zlen (buf (cli w)) ->
  client_send_to_socks w = upd_env (fun v => set_socks (socks v) (Some (zlen (buf (cli w)))) (s_recving v) v) w.
Proof.
  intros Ha Hs Hc Hu Hn Hb. unfold client_send_to_socks.
  rewrite (CHECK_ok _ w), (CHECK_ok _ w), (CHECK_ok _ w), load_ok by
    first [done|cbn; rewrite Hc; done|unfold buf_used; apply Z.ltb_lt; done].
  apply sender_send_ok; done.
Qed.

(** Data of the device always fits the buffer. *)
Lemma device_data_appended wnd o sc w p :
  Inv w -> enabled wnd w (EDeviceData p) ->
  exists s' b, step wnd o sc w (EDeviceData p) =
    (if b : bool then commit_and_return sc (append_data p s' w) else (append_data p s' w, ERR_OK)) /\
  Inv (append_data p s' w).
Proof.
  intros HI [Ha (Hp & Hr & Hpos & Hwnd)]. pose proof (i_fault _ HI) as Hf.
  destruct (i_live _ HI Ha) as [L1 L2 L3 L4 L5 L6 C LO]. specialize (LO Hp).
  assert (socks (env w) = true) as Hs.
  { destruct (socks (env w)) eqn:E; [done|]. destruct (L4 eq_refl) as (_ & E2 & _). congruence. }
  assert (zlen p <= wnd - zlen (buf (cli w))) as Hfit.
  { rewrite (d_recved _ LO), (d_up _ C), zlen_app in Hwnd. lia. }
  pose proof (l_sclosed _ C) as Hsc. rewrite Hs in Hsc. pose proof (l_send _ C Hs) as Hsnd.
  pose proof (l_down _ C) as Hdown. pose proof (zlen_nonneg (buf (cli w))) as Hbl.
  set (now := (zlen (buf (cli w) ++ p) =? zlen p) && socks_up (cli w)).
  set (s' := if now then Some (zlen p) else s_sending (env w)). exists s', now. split.
  { clear HI LO C L2 L3 L4 L5 L6 Hdown Hwnd. unfold s', now, append_data. rewrite Hp in L1. open_world w.
    cbn [cli env client_closed buf socks_up socks_closed pcb socks s_sending fault negb allocated cb_recv] in *. subst.
    cbn -[zlen Z.ltb Z.eqb client_send_to_socks commit_and_return]. unfold buf_used.
    rewrite (proj2 (Z.ltb_lt 0 (zlen p))) by lia. cbn -[zlen Z.ltb Z.eqb client_send_to_socks commit_and_return].
    rewrite (proj2 (Z.ltb_ge (wnd - zlen b) (zlen p))) by lia.
    destruct su; [|rewrite andb_false_r; done]. rewrite andb_true_r.
    destruct (Z.eqb_spec (zlen (b ++ p)) (zlen p)) as [E|]; [|done]. f_equal.
    rewrite zlen_app in E. specialize (Hsnd eq_refl). destruct ss; [lia|]. subst b.
    rewrite send_to_socks_ok by (cbn; done || lia). done. }
  apply Inv_append_data; try done.
  destruct (socks_up (cli w)) eqn:Eu; [|unfold s', now; rewrite andb_false_r; apply Hdown; done].
  unfold s', now. rewrite andb_true_r, zlen_app. specialize (Hsnd eq_refl).
  destruct (Z.eqb_spec (zlen (buf (cli w)) + zlen p) (zlen p)).
  - exists (zlen p). split; [done|]. lia.
  - destruct (s_sending (env w)) as [n'|] eqn:E; [exists n'; split; [done|]; lia|].
    rewrite Hsnd, zlen_nil in *. lia.
Qed.

(** SOCKS comes up: buffered data is sent and receiving starts. *)
Definition socks_is_up (w : world) : world :=
  let c := cli w in
  let v := env w in
  W (TC (client_closed c) (buf c) true (socks_closed c) (socks_recv_buf c) (-1) (socks_recv_buf_sent c)
        (socks_recv_waiting c) 0)
    (Env (pcb v) (cb_err v) (cb_recv v) (pcb v) true
       (if 0 <? zlen (buf c) then Some (zlen (buf c)) else None) (pcb v) (allocated v) (dead_client v) (catcher v))
    (hist w) (fault w).

Lemma step_up_eq o w :
  Live w -> fault w = false -> allocated (env w) = true -> socks (env w) = true -> socks_up (cli w) = false ->
  client_socks_handler o BSOCKSCLIENT_EVENT_UP w = socks_is_up w.
Proof.
  intros [L1 _ _ _ _ L6 C _] Hf Ha Hs Hu. destruct (l_down _ C Hu) as (D1 & D2 & _).
  pose proof (l_sclosed _ C) as Hsc. rewrite Hs in Hsc. rewrite Hu, andb_false_r in L6. clear C.
  open_world w. cbn [cli env client_closed buf socks_up socks_closed pcb socks s_sending s_recving fault negb cb_sent allocated] in *. subst.
  unfold socks_is_up, client_socks_handler. cbn -[zlen Z.ltb client_send_to_socks client_socks_recv_initiate].
  unfold buf_used. cbn -[zlen Z.ltb client_send_to_socks client_socks_recv_initiate].
  destruct pc; cbn -[zlen Z.ltb client_send_to_socks client_socks_recv_initiate];
    (destruct (Z.ltb_spec 0 (zlen b)); [rewrite send_to_socks_ok by done|]); done.
Qed.

Lemma job_socks wnd o w e :
  Inv w -> enabled wnd w (ESocks e) -> Inv (run_job o (ESocks e) w) /\ evolves w (run_job o (ESocks e) w).
Proof.
  intros HI [Ha [Hs He]]. pose proof (i_live _ HI Ha) as HL. pose proof (i_fault _ HI) as Hf.
  pose proof HL as [L1 L2 L3 L4 L5 L6 C LO]. pose proof (l_sclosed _ C) as Hsc. rewrite Hs in Hsc.
  cbn [run_job]. destruct e.
  - unfold client_socks_handler, client_log. rewrite CHECK_ok, touch_ok by (cbn; rewrite ?Hsc; done).
    apply Inv_free_socks; try done. apply HI.
  - rewrite (step_up_eq o w HL Hf Ha Hs He). destruct (l_down _ C He) as (D1 & D2 & D3 & D4 & D5 & D6).
    split; [|left; split_and!; done].
    split; [exact Hf|apply HI| |cbn; congruence|apply HI]. intros _.
    split; try done; cbn [socks_is_up env cli socks pcb cb_sent socks_up].
    + right. done.
    + rewrite andb_true_r. done.
    + split; cbn; try done.
      * intros _ _. destruct (0 <? zlen (buf (cli w))) eqn:E; [apply Z.ltb_lt in E; lia|apply zlen_not_pos, E].
      * apply C.
      * apply C.
    + intros Hp. destruct (LO Hp). rewrite D4, D5 in *. split; cbn; try done; auto.
      * intros _. rewrite D5, D6. done.
      * rewrite D4, D5. done.
  - unfold client_socks_handler, client_log. rewrite (CHECK_ok _ w), (CHECK_ok _ w), touch_ok by (cbn; rewrite ?Hsc; done).
    apply Inv_free_socks; try done. apply HI.
Qed.

(** SOCKS accepted [n] bytes: they leave the buffer, and lwIP's window opens by as
    much. *)
Definition socks_took (n : Z) (s : option Z) (w : world) : world :=
  W (set_buf (drop (Z.to_nat n) (buf (cli w))) (cli w))
    (set_socks (socks (env w)) s (s_recving (env w)) (env w))
    (Hist (taken (hist w)) (forwarded (hist w) ++ take (Z.to_nat n) (buf (cli w)))
       (if pcb (env w) then recved (hist w) + n else recved (hist w))
       (fetched (hist w)) (written (hist w)) (acked (hist w)))
    (fault w).

Lemma socks_took_Core n s w :
  Core w -> socks (env w) = true -> socks_up (cli w) = true ->
  match s with None => drop (Z.to_nat n) (buf (cli w)) = [] | Some k => 0 < k <= zlen (drop (Z.to_nat n) (buf (cli w))) end ->
  Core (socks_took n s w).
Proof.
  intros [C1 C2 C3 C4 C5 C6] Hs Hu Hk. split; cbn; try done.
  - rewrite Hu. done.
  - rewrite <- app_assoc, take_drop. exact C5.
  - destruct C6 as [O1 O2]. split; cbn; [|exact O2]. rewrite C5. exists (drop (Z.to_nat n) (buf (cli w))).
    rewrite <- app_assoc, take_drop. done.
Qed.

Lemma socks_took_Live n s w :
  Live w -> socks (env w) = true -> socks_up (cli w) = true -> 0 < n <= zlen (buf (cli w)) ->
  (pcb (env w) = false -> drop (Z.to_nat n) (buf (cli w)) <> []) ->
  match s with None => drop (Z.to_nat n) (buf (cli w)) = [] | Some k => 0 < k <= zlen (drop (Z.to_nat n) (buf (cli w))) end ->
  Live (socks_took n s w).
Proof.
  intros [L1 L2 L3 L4 L5 L6 C LO] Hs Hu Hn Hne Hk. split; cbn; try done.
  - rewrite Hs. done.
  - apply socks_took_Core; done.
  - intros Hp. destruct (LO Hp). split; cbn; try done.
    rewrite Hp, zlen_app, d_recved0. unfold zlen at 3. rewrite length_take. unfold zlen in *. lia.
Qed.

Lemma job_sent wnd o w n :
  Inv w -> enabled wnd w (ESocksSent n) -> Inv (run_job o (ESocksSent n) w) /\ evolves w (run_job o (ESocksSent n) w).
Proof.
  intros HI [Ha [Hs (m & Hm & Hn)]]. pose proof (i_live _ HI Ha) as HL. pose proof (i_fault _ HI) as Hf.
  pose proof HL as [L1 L2 L3 L4 L5 L6 C LO]. pose proof (l_sclosed _ C) as Hsc. rewrite Hs in Hsc.
  assert (socks_up (cli w) = true) as Hu.
  { destruct (socks_up (cli w)) eqn:E; [done|]. destruct (l_down _ C E) as (E2 & _). congruence. }
  pose proof (l_send _ C Hs Hu) as Hsnd. rewrite Hm in Hsnd.
  set (s' := if 0 <? zlen (drop (Z.to_nat n) (buf (cli w))) then Some (zlen (drop (Z.to_nat n) (buf (cli w)))) else None).
  assert (run_job o (ESocksSent n) w =
    if (0 <? zlen (drop (Z.to_nat n) (buf (cli w)))) || pcb (env w) then socks_took n s' w
    else client_free_socks takedown o (socks_took n s' w)) as ->.
  { unfold s', socks_took. clear HI HL C LO L2 L3 L4 L5 L6.
    open_world w. cbn [cli env client_closed buf socks_up socks_closed pcb socks s_sending s_recving fault negb hist allocated] in *. subst.
    cbn -[zlen Z.ltb Z.leb client_socks_send_handler_done client_free_socks drop take Z.to_nat]. unfold client_socks_send_handler_done, buf_used.
    passed ltac:(cbn -[zlen Z.ltb Z.leb]; rewrite ?andb_true_iff, ?Z.ltb_lt, ?Z.leb_le; done || lia).
    cbn -[zlen Z.ltb Z.leb client_free_socks drop take Z.to_nat takedown StreamPassInterface_Sender_Send].
    destruct pc; cbn -[zlen Z.ltb Z.leb client_free_socks drop take Z.to_nat takedown StreamPassInterface_Sender_Send];
      destruct (Z.ltb_spec 0 (zlen (drop (Z.to_nat n) b))); cbn -[zlen Z.ltb Z.leb client_free_socks drop take Z.to_nat takedown StreamPassInterface_Sender_Send]; try done;
      rewrite sender_send_ok by done; done. }
  assert (match s' with None => drop (Z.to_nat n) (buf (cli w)) = [] | Some k => 0 < k <= zlen (drop (Z.to_nat n) (buf (cli w))) end) as Hk.
  { unfold s'. destruct (0 <? zlen (drop _ _)) eqn:E; [apply Z.ltb_lt in E; lia|apply zlen_not_pos, E]. }
  destruct (0 <? zlen (drop (Z.to_nat n) (buf (cli w)))) eqn:Ed; [|destruct (pcb (env w)) eqn:Ep]; cbn [orb].
  - assert (Live (socks_took n s' w)) as HL' by (apply socks_took_Live; try done; [lia|]; intros _; apply zlen_pos_ne, Ed).
    split; [|left; split_and!; done]. split; [exact Hf|apply HL'|intros _; exact HL'|cbn; congruence|apply HI].
  - assert (Live (socks_took n s' w)) as HL' by (apply socks_took_Live; try done; [lia|congruence]).
    split; [|left; split_and!; done]. split; [exact Hf|apply HL'|intros _; exact HL'|cbn; congruence|apply HI].
  - apply (Inv_free_socks o (socks_took n s' w));
      try done; [cbn; rewrite L1, Ep; done|apply socks_took_Core; done|cbn; congruence|cbn; congruence].
Qed.

(** *** Sending received data to the device *)

(** [k] more bytes of the receive buffer were written. *)
Definition advance (k : Z) (w : world) : world :=
  let c := cli w in
  W (set_recv (socks_recv_buf c) (socks_recv_buf_used c) (socks_recv_buf_sent c + k) (socks_recv_waiting c)
       (socks_recv_tcp_pending c + k) c) (env w)
    (Hist (taken (hist w)) (forwarded (hist w)) (recved (hist w)) (fetched (hist w))
       (written (hist w) ++ slice (socks_recv_buf_sent c) k (socks_recv_buf c)) (acked (hist w))) (fault w).

Lemma advance_0 w : advance 0 w = w.
Proof.
  open_world w. destruct h. unfold advance. cbn. rewrite slice_nil, app_nil_r, !Z.add_0_r. done.
Qed.

Lemma advance_advance j k w :
  0 <= j -> 0 <= k -> 0 <= socks_recv_buf_sent (cli w) -> advance k (advance j w) = advance (j + k) w.
Proof.
  intros Hj Hk Hs. unfold advance. cbn. rewrite slice_app_join, <- app_assoc, !Z.add_assoc by lia. done.
Qed.

Lemma send_out_loop_spec o : oracle_ok o -> forall fuel i w,
  allocated (env w) = true -> pcb (env w) = true -> 0 <= socks_recv_buf_sent (cli w) < socks_recv_buf_used (cli w) ->
  socks_recv_buf_used (cli w) - socks_recv_buf_sent (cli w) <= Z.of_nat fuel ->
  exists k failed, send_out_loop fuel i o w = (advance k w, failed) /\
    0 <= k <= socks_recv_buf_used (cli w) - socks_recv_buf_sent (cli w).
Proof.
  intros Ho. induction fuel as [|fuel IH]; intros i w Ha Hp Hr Hfuel; [lia|]. cbn [send_out_loop].
  rewrite load_ok, on_pcb_ok by done. unfold client_log. rewrite touch_ok, on_pcb_ok by (rewrite ?on_pcb_ok; done).
  set (n := Z.min _ _). pose proof (Ho i) as Hi.
  assert (0 <= n <= socks_recv_buf_used (cli w) - socks_recv_buf_sent (cli w)) as Hn by (unfold n; lia).
  destruct (Z.eqb_spec n 0) as [E|E].
  { exists 0, false. rewrite advance_0. split; [done|lia]. }
  destruct (write_res o i).
  2: { exists 0, false. rewrite advance_0. split; [done|lia]. }
  2, 3: exists 0, true; rewrite advance_0; split; [done|lia].
  assert (upd (fun c => set_recv (socks_recv_buf c) (socks_recv_buf_used c) (socks_recv_buf_sent c + n)
      (socks_recv_waiting c) (socks_recv_tcp_pending c + n) c)
    (tcp_write (slice (socks_recv_buf_sent (cli w)) n (socks_recv_buf (cli w))) w) = advance n w) as ->.
  { unfold tcp_write, upd, advance. rewrite on_pcb_ok by done. cbn. rewrite Ha, orb_false_r. done. }
  rewrite load_ok by done.
  change (socks_recv_buf_used (cli (advance n w))) with (socks_recv_buf_used (cli w)).
  change (socks_recv_buf_sent (cli (advance n w))) with (socks_recv_buf_sent (cli w) + n).
  destruct (Z.ltb_spec (socks_recv_buf_sent (cli w) + n) (socks_recv_buf_used (cli w))).
  2: { exists n, false. split; [done|lia]. }
  destruct (IH (S i) (advance n w) Ha Hp) as (k & failed & Hk & Hkr).
  - cbn. lia.
  - cbn. lia.
  - exists (n + k), failed. cbn in Hkr. rewrite Hk, advance_advance by lia. split; [done|lia].
Qed.

(** An open connection with SOCKS up, between two receives. *)
Record Half (w : world) : Prop := {
  h_fault : fault w = false; h_alloc : allocated (env w) = true;
  h_pcb : pcb (env w) = true; h_cc : client_closed (cli w) = false; h_up : socks_up (cli w) = true;
  h_err : cb_err (env w) = true; h_sent : cb_sent (env w) = true;
  h_wait : socks (env w) = false -> cb_recv (env w) = false /\ s_sending (env w) = None;
  h_core : Core w; h_recving : s_recving (env w) = false;
  h_pend : socks_recv_tcp_pending (cli w) = zlen (written (hist w)) - acked (hist w) /\ 0 <= socks_recv_tcp_pending (cli w);
  h_recved : recved (hist w) = zlen (forwarded (hist w));
  h_dead : dead_client (env w) = catching (env w)
}.

(** With bytes [sent..used) of the receive buffer to go. *)
Record Holding (w : world) : Prop := {
  ho_range : 0 <= socks_recv_buf_sent (cli w) <= socks_recv_buf_used (cli w);
  ho_len : socks_recv_buf_used (cli w) = zlen (socks_recv_buf (cli w));
  ho_down : fetched (hist w) = written (hist w) ++ drop (Z.to_nat (socks_recv_buf_sent (cli w))) (socks_recv_buf (cli w))
}.

Lemma advance_Holding k w :
  Holding w -> 0 <= k <= socks_recv_buf_used (cli w) - socks_recv_buf_sent (cli w) -> Holding (advance k w).
Proof.
  intros [H1 H2 H3] Hk. split; cbn; [lia|done|].
  rewrite H3, <- app_assoc. f_equal. unfold slice.
  rewrite Z2Nat.inj_add, <- drop_drop, take_drop by lia. done.
Qed.

Lemma Half_upd w c h :
  Half w -> client_closed c = client_closed (cli w) -> socks_up c = socks_up (cli w) -> buf c = buf (cli w) ->
  socks_closed c = socks_closed (cli w) ->
  taken h = taken (hist w) -> forwarded h = forwarded (hist w) -> recved h = recved (hist w) -> in_order h ->
  socks_recv_tcp_pending c = zlen (written h) - acked h -> 0 <= socks_recv_tcp_pending c ->
  Half (W c (env w) h (fault w || negb (allocated (env w)))).
Proof.
  intros [] E1 E2 E3 E4 E5 E6 E7 Ho Hp Hp0. destruct h_core0 as [C1 C2 C3 C4 C5 C6].
  rewrite h_alloc0, orb_false_r. split; cbn; try congruence; try done.
  split; cbn; try congruence; try done.
  - rewrite E3, E2. exact C3.
Qed.

Lemma advance_Half k w :
  Half w -> Holding w -> 0 <= k <= socks_recv_buf_used (cli w) - socks_recv_buf_sent (cli w) -> Half (advance k w).
Proof.
  intros HH HO Hk. pose proof (advance_Holding k w HO Hk) as [_ _ HO3]. pose proof (h_pend _ HH) as [P1 P2].
  destruct HO as [O1 O2 O3].
  assert (Half (W (cli (advance k w)) (env w) (hist (advance k w)) (fault w || negb (allocated (env w))))) as H.
  2: { rewrite (h_alloc _ HH), orb_false_r in H. exact H. }
  apply Half_upd; try done; cbn in *.
  - destruct (d_order _ (h_core _ HH)) as [D1 D2]. split; cbn; [done|]. eexists. exact HO3.
  - rewrite zlen_app, zlen_slice by lia. lia.
  - lia.
Qed.

Definition Queued (w : world) : Prop :=
  socks_recv_buf_used (cli w) = -1 /\ 0 < socks_recv_tcp_pending (cli w) /\ fetched (hist w) = written (hist w).

Definition Waiting (w : world) : Prop :=
  Holding w /\ socks_recv_buf_sent (cli w) < socks_recv_buf_used (cli w) /\
  socks_recv_waiting (cli w) = true /\ 0 < socks_recv_tcp_pending (cli w).

Lemma send_out_spec o w :
  oracle_ok o -> Half w -> Holding w -> socks_recv_buf_sent (cli w) < socks_recv_buf_used (cli w) ->
  socks_recv_waiting (cli w) = false ->
  let '(w', aborted) := client_socks_recv_send_out o w in
  if aborted then Inv w' /\ closes w w' else
  Half w' /\ env w' = env w /\ taken (hist w') = taken (hist w) /\ (Queued w' \/ Waiting w').
Proof.
  intros Ho HH HO Hlt Hw. unfold client_socks_recv_send_out, client_log.
  destruct HO as [O1 O2 O3] eqn:EO. clear EO.
  passed ltac:(cbn; rewrite ?(h_alloc _ HH), ?(h_cc _ HH), ?(h_up _ HH), ?Hw; first [done|apply Z.ltb_lt; lia]).
  destruct (send_out_loop_spec o Ho (send_out_fuel (cli w)) 0 w (h_alloc _ HH) (h_pcb _ HH)) as (k & failed & Hk & Hkr);
    [lia|unfold send_out_fuel; lia|]. rewrite Hk.
  pose proof (advance_Half k w HH HO Hkr) as HH'. pose proof (advance_Holding k w HO Hkr) as HO'.
  assert (taken (hist (advance k w)) = taken (hist w) /\ env (advance k w) = env w) as [Htk Henv] by done.
  set (w1 := advance k w) in *.
  rewrite on_pcb_ok, load_ok, touch_ok by apply HH'.
  assert (Inv (client_abort_client o w1) /\ closes w (client_abort_client o w1)) as Habort.
  { apply (Inv_abort o w1); apply HH'. }
  destruct failed; [exact Habort|]. destruct (output_ok o); cbn [negb]; [|exact Habort].
  destruct (Z.ltb_spec (socks_recv_buf_sent (cli w1)) (socks_recv_buf_used (cli w1))) as [Hlt1|Hge1].
  - destruct (Z.eqb_spec (socks_recv_tcp_pending (cli w1)) 0) as [|Hne]; [exact Habort|].
    pose proof (h_pend _ HH') as [P1 P2]. split.
    + apply (Half_upd w1 (set_recv_waiting true (cli w1)) (hist w1)); try done; apply HH'.
    + split; [done|]. split; [done|]. right. split; [destruct HO'; split; done|]. split; [exact Hlt1|]. split; [done|]. cbn. cbn in Hne, P2. lia.
  - assert (k = socks_recv_buf_used (cli w) - socks_recv_buf_sent (cli w)) as Hkeq by (cbn in Hge1; lia).
    pose proof (h_pend _ HH') as [P1 P2]. pose proof (h_pend _ HH) as [_ P0]. split.
    + apply (Half_upd w1 (set_recv_used (-1) (cli w1)) (hist w1)); try done; apply HH'.
    + split; [done|]. split; [done|]. left. split; [done|]. split; [cbn; lia|]. cbn. destruct HO' as [_ _ D]. cbn in D.
      replace (socks_recv_buf_sent (cli w) + k) with (zlen (socks_recv_buf (cli w))) in D by lia.
      rewrite (drop_ge (socks_recv_buf (cli w))) in D by (unfold zlen; lia). rewrite app_nil_r in D. exact D.
Qed.

Lemma Half_Live w :
  Half w -> (socks (env w) = false -> 0 <= socks_recv_buf_used (cli w) \/ 0 < socks_recv_tcp_pending (cli w)) -> Open w -> Live w.
Proof.
  intros [] Hw HO. split; try done.
  - rewrite h_cc0, h_pcb0. done.
  - auto.
  - congruence.
  - intros E. destruct (h_wait0 E). split_and!; auto.
  - congruence.
  - rewrite h_pcb0, h_up0. done.
Qed.

Lemma Waiting_Inv w : Half w -> Waiting w -> Inv w.
Proof.
  intros HH ([O1 O2 O3] & Hlt & Hw & Hp). split; [apply HH|apply (h_core _ HH)| |intros E; pose proof (h_alloc _ HH); congruence|intros _; apply HH].
  intros _. apply Half_Live; [done|intros _; left; lia|]. split.
  - intros _ _ E. lia.
  - right. split_and!; try done; lia.
  - intros _. apply (h_pend _ HH).
  - apply (h_recved _ HH).
  - destruct (Z.eqb_spec (socks_recv_buf_used (cli w)) (-1)); [lia|]. done.
Qed.

Lemma Queued_closed_Inv w : Half w -> Queued w -> socks (env w) = false -> Inv w.
Proof.
  intros HH (Hu & Hp & Hf) Hs. split; [apply HH|apply (h_core _ HH)| |intros E; pose proof (h_alloc _ HH); congruence|intros _; apply HH].
  intros _. apply Half_Live; [done|auto|]. split.
  - congruence.
  - auto.
  - intros _. apply (h_pend _ HH).
  - apply (h_recved _ HH).
  - rewrite Hu. cbn. rewrite app_nil_r. exact Hf.
Qed.

(** Receiving starts again. *)
Definition receiving (w : world) : world := upd_env (fun v => set_socks (socks v) (s_sending v) true v) w.

Lemma Queued_open_Inv w :
  Half w -> Queued w -> socks (env w) = true -> client_socks_recv_initiate w = receiving w /\ Inv (receiving w).
Proof.
  intros HH (Hu & Hp & Hf) Hs. pose proof (h_pend _ HH) as Hpend. pose proof (h_recved _ HH) as Hrec.
  pose proof HH as [F1 F2 F3 F4 F5 F6 F7 F8 [C1 C2 C3 C4 C5 C6] F10 _ _ FD]. split.
  { unfold client_socks_recv_initiate.
    passed ltac:(first [done|cbn; rewrite ?F4, ?C1, ?Hs, ?Hu; done]).
    unfold StreamRecvInterface_Receiver_Recv. rewrite touch_ok, Hs, F10 by done. done. }
  split; [done|done| |cbn; congruence|intros _; exact FD]. intros _. split; cbn; try congruence; try done.
  - rewrite F4, F3. done.
  - auto.
  - rewrite F3, F5. done.
  - split; cbn; try done. congruence.
  - intros _. split; cbn; try done; auto. rewrite Hu. cbn. rewrite app_nil_r. exact Hf.
Qed.

Lemma job_data wnd o w d :
  oracle_ok o -> Inv w -> enabled wnd w (ESocksData d) ->
  Inv (run_job o (ESocksData d) w) /\ evolves w (run_job o (ESocksData d) w).
Proof.
  intros Ho HI [Ha (Hs & Hr & Hd)]. pose proof (i_live _ HI Ha) as HL. pose proof (i_fault _ HI) as Hf.
  pose proof HL as [L1 L2 L3 L4 L5 L6 C LO]. pose proof C as [C1 C2 C3 C4 C5 C6]. rewrite Hs in C1. cbn [negb] in C1.
  assert (socks_up (cli w) = true) as Hu.
  { destruct (socks_up (cli w)) eqn:E; [done|]. destruct (C2 eq_refl) as (_ & E2 & _). congruence. }
  pose proof (C4 Hr) as Hused. cbn [run_job].
  set (w1 := upd_hist _ (upd_env _ w)).
  assert (in_order (hist w1)) as Ho1 by (destruct C6 as [O1 O2]; split; cbn; [done|apply prefix_app_r, O2]).
  assert (Core w1) as C' by (split; cbn; first [done|exact Ho1|congruence|intros E; congruence|rewrite Hs; exact C1]).
  unfold client_socks_recv_handler_done.
  rewrite (proj2 (Z.ltb_lt 0 (zlen d))), (proj2 (Z.leb_le (zlen d) CLIENT_SOCKS_RECV_BUF_SIZE)) by lia. cbn [andb ASSERT].
  passed ltac:(first [done|cbn; rewrite ?C1, ?Hused; done]). rewrite load_ok by done.
  change (client_closed (cli w1)) with (client_closed (cli w)). rewrite L1. destruct (pcb (env w)) eqn:Ep; cbn [negb].
  2: { split; [|left; split_and!; done].
       split; [exact Hf|exact Ho1| |cbn; congruence|cbn; congruence]. intros _. split; cbn; try congruence; auto; done. }
  specialize (LO eq_refl). destruct LO as [O1 O2 O3 O4 O5].
  set (w2 := upd _ w1).
  assert (Half w2) as HH.
  { split; cbn; try done; try congruence; auto.
    - rewrite Hf, Ha. done.
    - rewrite L6, Hu. done.
    - destruct C'. split; cbn in *; first [done|intros E; congruence].
    - apply HI, Ep. }
  assert (Holding w2) as HO.
  { split; cbn; [lia|done|]. rewrite O5, Hused. cbn. rewrite app_nil_r. done. }
  pose proof (send_out_spec o w2 Ho HH HO ltac:(cbn; lia) eq_refl) as Hout.
  assert (socks (env w2) = true) as Hs2 by exact Hs.
  destruct (client_socks_recv_send_out o w2) as [w3 aborted]. destruct aborted.
  { split; [apply Hout|]. right. split; [exact Ep|apply Hout]. }
  destruct Hout as (HH3 & Henv & Htk & HQW). rewrite load_ok by apply HH3.
  assert (calm w w3) as Hcalm by (split_and!; rewrite ?Henv; done).
  destruct HQW as [HQ|HW].
  - rewrite (proj1 HQ). cbn [Z.eqb Pos.eqb].
    destruct (Queued_open_Inv w3 HH3 HQ ltac:(rewrite Henv; done)) as [-> HI3]. split; [exact HI3|left; exact Hcalm].
  - pose proof HW as ([R _ _] & Hlt & _). destruct (Z.eqb_spec (socks_recv_buf_used (cli w3)) (-1)); [lia|].
    split; [apply Waiting_Inv; done|left; exact Hcalm].
Qed.

(** *** Jobs that run before a callback returns *)

Lemma job_evolves wnd o w e :
  oracle_ok o -> is_job e = true -> Inv w -> enabled wnd w e -> Inv (run_job o e w) /\ evolves w (run_job o e w).
Proof.
  intros Ho Hj HI He. destruct e; try discriminate.
  - eapply job_socks; done.
  - eapply job_sent; done.
  - eapply job_data; done.
Qed.

Lemma commits_evolves wnd w w' : commits wnd w w' -> Inv w -> Inv w' /\ evolves w w'.
Proof.
  induction 1 as [w|w o e w' Ho Hj He _ IH]; intros HI; [split; [done|left; split_and!; done]|].
  destruct (job_evolves wnd o w e Ho Hj HI He) as [HI1 HE]. destruct (IH HI1) as [HI2 HE2].
  split; [exact HI2|]. exact (evolves_trans _ _ _ HE HE2).
Qed.

Lemma Inv_set_dead d k w :
  Inv w -> (pcb (env w) = true -> d = match k with Some _ => true | None => false end) -> Inv (upd_env (set_dead d k) w).
Proof.
  intros [I1 I2 I3 I4 I5] Hd. split; try done. intros Ha. destruct (I3 Ha) as [L1 L2 L3 L4 L5 L6 [] LO].
  split; try done. intros Hp. destruct (LO Hp). split; done.
Qed.

(** The callback returns [ERR_ABRT] exactly if the connection is gone, as lwIP asks
    of it, and uses the client again only if it exists. *)
Lemma commit_spec wnd sc w :
  commit_ok wnd sc -> Inv w -> pcb (env w) = true -> allocated (env w) = true -> catcher (env w) = None ->
  let '(w', r) := commit_and_return sc w in
  Inv w' /\ catcher (env w') = None /\ taken (hist w') = taken (hist w) /\
  r = if pcb (env w') then ERR_OK else ERR_ABRT.
Proof.
  intros Hsc HI Hp Ha Hk. pose proof (i_dead _ HI Hp) as Hd. unfold catching in Hd. rewrite Hk in Hd.
  unfold commit_and_return, DEAD_ENTER. rewrite touch_ok, Hd by done. cbn [negb ASSERT].
  pose proof (Inv_set_dead true (Some false) w HI ltac:(done)) as HI1.
  destruct (commits_evolves wnd _ _ (Hsc (upd_env (set_dead true (Some false)) w)) HI1) as [HI2 HE].
  set (w2 := sc _) in *. unfold DEAD_LEAVE2.
  destruct HE as [(T & P & K)|(_ & T & P & K)]; cbn in T, P, K.
  - rewrite K, touch_ok.
    2: { destruct (allocated (env w2)) eqn:E; [done|]. destruct (i_gone _ HI2 E). congruence. }
    unfold DEAD_KILLED, leave_scope. cbn. rewrite K, P, Hp. split_and!; try done.
    apply (Inv_set_dead false None w2); done.
  - rewrite K. unfold DEAD_KILLED, leave_scope. cbn. rewrite K, P. split_and!; try done.
    apply (Inv_set_dead (dead_client (env w2)) None w2); [done|congruence].
Qed.

(** What a callback of lwIP leaves, from a world in which none is under way. *)
Definition returns (r : world * err_t) : Prop :=
  Inv (fst r) /\ catcher (env (fst r)) = None /\ snd r = if pcb (env (fst r)) then ERR_OK else ERR_ABRT.

Lemma step_device_data wnd o sc w p :
  commit_ok wnd sc -> Inv w -> catcher (env w) = None -> enabled wnd w (EDeviceData p) ->
  returns (step wnd o sc w (EDeviceData p)) /\
  taken (hist (fst (step wnd o sc w (EDeviceData p)))) = taken (hist w) ++ p.
Proof.
  intros Hsc HI Hk He. pose proof He as [Ha (Hp & _)].
  destruct (device_data_appended wnd o sc w p HI He) as (s & b & -> & HI1). destruct b.
  - pose proof (commit_spec wnd sc _ Hsc HI1 Hp Ha Hk) as H.
    destruct (commit_and_return sc (append_data p s w)) as [w' r]. destruct H as (H1 & H2 & H3 & H4).
    split; [split_and!; done|exact H3].
  - split; [|done]. split_and!; [exact HI1|exact Hk|]. cbn. rewrite Hp. done.
Qed.

Lemma device_data_no_jobs wnd o w p :
  Inv w -> enabled wnd w (EDeviceData p) -> snd (step wnd o (fun w => w) w (EDeviceData p)) = ERR_OK.
Proof.
  intros HI He. destruct (device_data_appended wnd o (fun w => w) w p HI He) as (s & b & -> & _).
  destruct b; [|done]. unfold commit_and_return. cbn [snd]. set (w1 := DEAD_ENTER _).
  assert (catcher (env w1) = Some false) as Hk by done.
  unfold DEAD_LEAVE2. rewrite Hk. unfold touch, ASSERT, DEAD_KILLED. destruct (allocated (env w1)); cbn [env upd_env set_dead catcher]; rewrite Hk; done.
Qed.

Lemma closes_returns w w' : Inv w' -> closes w w' -> catcher (env w) = None -> returns (w', ERR_ABRT).
Proof. intros HI (_ & Hp & Hk) E. rewrite E in Hk. split_and!; [done|exact Hk|]. cbn. rewrite Hp. done. Qed.

Lemma step_ack wnd o sc w n :
  oracle_ok o -> commit_ok wnd sc -> Inv w -> catcher (env w) = None -> enabled wnd w (EDeviceAck n) ->
  returns (step wnd o sc w (EDeviceAck n)).
Proof.
  intros Ho Hsync HI Hk [Ha (Hp & Hcb & Hn)]. pose proof (i_dead _ HI Hp) as Hd. pose proof (i_live _ HI Ha) as HL. pose proof (i_fault _ HI) as Hf.
  pose proof HL as [L1 L2 L3 L4 L5 L6 C LO]. specialize (LO Hp). destruct LO as [O1 O2 O3 O4 O5].
  rewrite Hp in *. assert (socks_up (cli w) = true) as Hu by (rewrite L6 in Hcb; exact Hcb).
  destruct (O3 Hu) as [P1 P2]. cbn [step].
  set (w1 := upd_hist _ w). unfold client_sent_func, client_log.
  rewrite (CHECK_ok _ w1), (CHECK_ok _ w1), (CHECK_ok _ w1) by
    first [done|cbn; rewrite L1; done|cbn -[Z.ltb Z.leb]; rewrite andb_true_iff, Z.ltb_lt, Z.leb_le; lia].
  set (w2 := upd _ w1). rewrite load_ok, touch_ok by done.
  change (socks_recv_buf_used (cli w2)) with (socks_recv_buf_used (cli w)).
  assert (s_recving (env w) = true -> socks_recv_buf_used (cli w) = -1) as C4 by apply C.
  pose proof C as [C1 C2 C3 _ C5 C6].
  assert (Core w2) as C' by (split; cbn; first [done|intros E; congruence]).
  destruct (Z.ltb_spec 0 (socks_recv_buf_used (cli w))) as [Hpos|Hneg].
  - destruct O2 as [|(R1 & R2 & R3 & R4)]; [lia|].
    rewrite (CHECK_ok _ w2), (CHECK_ok _ w2) by first [done|cbn; apply Z.ltb_lt; lia].
    set (w3 := upd (set_recv_waiting false) w2).
    assert (Half w3) as HH.
    { split; cbn; try done; try congruence.
      - rewrite Hf, Ha. done.
      - intros E. destruct (L4 E) as (_ & ? & ? & _). done.
      - destruct C'. split; cbn; done.
      - destruct (s_recving (env w)); [|done]. specialize (C4 eq_refl). lia.
      - lia. }
    assert (Holding w3) as HO.
    { split; cbn; [lia|done|]. rewrite O5. destruct (Z.eqb_spec (socks_recv_buf_used (cli w)) (-1)); [lia|done]. }
    pose proof (send_out_spec o w3 Ho HH HO ltac:(cbn; lia) eq_refl) as Hout.
    destruct (client_socks_recv_send_out o w3) as [w4 aborted]. destruct aborted.
    { apply (closes_returns w3); [apply Hout|apply Hout|exact Hk]. }
    destruct Hout as (HH4 & Henv & Htk & HQW). pose proof (l_sclosed _ (h_core _ HH4)) as Hsc.
    pose proof (h_alloc _ HH4) as Ha4.
    assert (catcher (env w4) = None) as Hk4 by (rewrite Henv; exact Hk).
    assert (Inv w4 -> returns (w4, ERR_OK)) as Hret.
    { intros HI4. split_and!; [exact HI4|exact Hk4|]. cbn. rewrite (h_pcb _ HH4). done. }
    destruct HQW as [HQ|HW].
    + pose proof HQ as (Q1 & Q2 & _). rewrite CHECK_ok, load_ok by first [done|apply Z.ltb_lt, Q2].
      rewrite Q1, Hsc. cbn [Z.eqb Pos.eqb andb].
      destruct (socks (env w4)) eqn:Es; cbn [negb]; [|apply Hret, Queued_closed_Inv; done].
      destruct (Queued_open_Inv w4 HH4 HQ Es) as [-> HI4].
      pose proof (commit_spec wnd sc _ Hsync HI4 (h_pcb _ HH4) Ha4 Hk4) as H.
      destruct (commit_and_return sc (receiving w4)) as [w' r]. destruct H as (H1 & H2 & _ & H4). split_and!; done.
    + pose proof HW as ([R _ _] & Hlt & _ & Q2). rewrite CHECK_ok, load_ok by first [done|apply Z.ltb_lt, Q2].
      destruct (Z.eqb_spec (socks_recv_buf_used (cli w4)) (-1)); [lia|]. cbn [andb]. apply Hret, Waiting_Inv; done.
  - assert (socks_recv_buf_used (cli w) = -1) as Hused by (destruct O2 as [|?]; lia).
    change (socks_closed (cli w2)) with (socks_closed (cli w)). rewrite C1.
    change (socks_recv_tcp_pending (cli w2)) with (socks_recv_tcp_pending (cli w) - n).
    assert (fault w2 = false) as Hf2 by (cbn; rewrite Hf, Ha; done).
    destruct (negb (socks (env w)) && (socks_recv_tcp_pending (cli w) - n =? 0)) eqn:E.
    + destruct (Inv_free_client 1 o w2 Hf2 Ha Hp L1 C' Hd) as [HI2 HC2]. exact (closes_returns _ _ HI2 HC2 Hk).
    + split; [|split; [exact Hk|cbn; rewrite Hp; done]]. cbn [fst].
      split; [exact Hf2|exact C6| |cbn; congruence|intros _; exact Hd]. intros _. split; cbn; rewrite ?Hp; try done.
      * intros Es. destruct (L4 Es) as (H1 & H2 & H3 & H4 & _). rewrite Es in E. cbn [negb andb] in E.
        apply Z.eqb_neq in E. split_and!; try done. right. lia.
      * intros _. split; cbn; try done; auto. lia.
Qed.

(** Callbacks of lwIP that return a value. *)
Definition is_callback (e : event) : bool :=
  match e with EDeviceData _ | EDeviceFin | EDeviceAck _ => true | _ => false end.

Lemma callback_returns wnd o sc w e :
  oracle_ok o -> commit_ok wnd sc -> Inv w -> catcher (env w) = None -> enabled wnd w e -> is_callback e = true ->
  returns (step wnd o sc w e).
Proof.
  intros Ho Hsc HI Hk He Hc. destruct e; try discriminate.
  - apply step_device_data; done.
  - destruct (step_fin wnd o sc w HI He) as [H1 H2]. exact (closes_returns _ _ H1 H2 Hk).
  - apply step_ack; done.
Qed.

Lemma evolves_idle w w' : evolves w w' -> catcher (env w) = None -> catcher (env w') = None.
Proof. intros [(_ & _ & ->)|(_ & _ & _ & ->)] ->; done. Qed.

(** Between two events no callback is under way. *)
Definition Idle (w : world) : Prop := Inv w /\ catcher (env w) = None.

Lemma tcp_step_Idle wnd o sc w e :
  oracle_ok o -> commit_ok wnd sc -> Idle w -> enabled wnd w e -> Idle (fst (step wnd o sc w e)).
Proof.
  intros Ho Hsc [HI Hk] He. destruct (is_callback e) eqn:Ec.
  { destruct (callback_returns wnd o sc w e Ho Hsc HI Hk He Ec) as (H1 & H2 & _). split; done. }
  destruct (is_job e) eqn:Ej.
  { destruct (job_evolves wnd o w e Ho Ej HI He) as [H1 H2].
    destruct e; try discriminate; split; [exact H1|exact (evolves_idle _ _ H2 Hk)|exact H1|exact (evolves_idle _ _ H2 Hk)|exact H1|exact (evolves_idle _ _ H2 Hk)]. }
  destruct e; try discriminate.
  - destruct (step_error wnd o sc w HI He) as [H1 (_ & _ & H2)]. rewrite Hk in H2. split; done.
  - destruct (step_murder wnd o sc w HI He) as [H1 H2]. split; [exact H1|exact (evolves_idle _ _ H2 Hk)].
Qed.

Lemma accepted_Inv : Inv accepted.
Proof.
  split; cbn; try done. intros _. split; cbn; try done; auto.
  - intros _. split; cbn; try done; auto.
Qed.

Lemma accept_Idle wnd sc w r :
  commit_ok wnd sc -> listener_accept_func true true true sc = (Some w, r) ->
  Idle w /\ r = if pcb (env w) then ERR_OK else ERR_ABRT.
Proof.
  unfold listener_accept_func. cbn [negb]. change (client_log accepted) with accepted. intros Hsc.
  pose proof (commit_spec wnd sc accepted Hsc accepted_Inv eq_refl eq_refl eq_refl) as H.
  destruct (commit_and_return sc accepted) as [w' r']. intros [= <- <-]. destruct H as (H1 & H2 & _ & H4).
  split; [split; done|exact H4].
Qed.

Lemma reachable_Idle wnd w0 w : Idle w0 -> reachable wnd w0 w -> Idle w.
Proof. intros HI Hr. induction Hr as [|w o sc e Hr IH Ho Hsc He]; [done|]. apply tcp_step_Idle; done. Qed.

(** ** Properties *)

(** C33: a client is taken down exactly once and nothing is used after it was
    freed. Whatever the order of data, acknowledgements, closes, errors and lwIP
    results, and whatever jobs of the SOCKS client run inside the callbacks, no
    [ASSERT] of the handlers can fail, no field of a freed client structure is
    read or written, no freed connection or SOCKS client is used, nothing is freed
    twice, no interface is used while busy, and no dead variable is written after
    its callback returned; when the client structure is freed, the connection and
    the SOCKS client have been freed before. The callbacks for new connections,
    received data and acknowledgements return [ERR_ABRT], by which lwIP knows that
    it must not use the connection again, exactly if they or the jobs they ran
    closed it. *)
Theorem tcp_client_safe wnd sc0 w0 r0 w :
  commit_ok wnd sc0 -> listener_accept_func true true true sc0 = (Some w0, r0) -> reachable wnd w0 w ->
  fault w = false /\ (allocated (env w) = false -> pcb (env w) = false /\ socks (env w) = false) /\
  (r0 = ERR_ABRT <-> pcb (env w0) = false) /\
  (forall o sc e, oracle_ok o -> commit_ok wnd sc -> enabled wnd w e -> is_callback e = true ->
     (snd (step wnd o sc w e) = ERR_ABRT <-> pcb (env (fst (step wnd o sc w e))) = false)).
Proof.
  intros Hsc Hs Hr. destruct (accept_Idle _ _ _ _ Hsc Hs) as [H0 Er].
  destruct (reachable_Idle wnd w0 w H0 Hr) as [HI Hk].
  split; [apply HI|]. split; [apply (i_gone _ HI)|].
  split; [rewrite Er; destruct (pcb (env w0)); done|].
  intros o sc e Ho Hc He Hcb. destruct (callback_returns wnd o sc w e Ho Hc HI Hk He Hcb) as (_ & _ & ->).
  destruct (pcb (env (fst _))); split; done.
Qed.

(** C34: both streams are copied faithfully. At any time the bytes SOCKS accepted
    are the first of those taken from the device, the rest being in the buffer, and
    the bytes handed to lwIP are the first of those read from SOCKS, the rest being
    in the receive buffer as long as the device is connected; the window reopened
    to the device is exactly what SOCKS accepted; and data of the device that
    respects the window is always taken, never refused for lack of buffer space:
    the callback returns [ERR_OK], or [ERR_ABRT] if a job that it ran closed the
    connection. *)
Theorem tcp_client_streams wnd sc0 w0 r0 w o sc p :
  commit_ok wnd sc0 -> listener_accept_func true true true sc0 = (Some w0, r0) -> reachable wnd w0 w ->
  forwarded (hist w) `prefix_of` taken (hist w) /\ written (hist w) `prefix_of` fetched (hist w) /\
  (allocated (env w) = true -> taken (hist w) = forwarded (hist w) ++ buf (cli w)) /\
  (allocated (env w) = true -> pcb (env w) = true ->
     recved (hist w) = zlen (forwarded (hist w)) /\
     fetched (hist w) = written (hist w) ++
       (if socks_recv_buf_used (cli w) =? -1 then []
        else drop (Z.to_nat (socks_recv_buf_sent (cli w))) (socks_recv_buf (cli w)))) /\
  (enabled wnd w (EDeviceData p) -> commit_ok wnd sc ->
     snd (step wnd o sc w (EDeviceData p)) =
       (if pcb (env (fst (step wnd o sc w (EDeviceData p)))) then ERR_OK else ERR_ABRT) /\
     taken (hist (fst (step wnd o sc w (EDeviceData p)))) = taken (hist w) ++ p) /\
  (enabled wnd w (EDeviceData p) -> snd (step wnd o (fun w => w) w (EDeviceData p)) = ERR_OK).
Proof.
  intros Hc Hs Hr. destruct (reachable_Idle wnd w0 w (proj1 (accept_Idle _ _ _ _ Hc Hs)) Hr) as [HI Hk].
  split; [apply (i_order _ HI)|]. split; [apply (i_order _ HI)|]. split.
  - intros Ha. apply (d_up _ (l_core _ (i_live _ HI Ha))).
  - split.
    2: { split; [|apply device_data_no_jobs; done].
         intros He Hsc. destruct (step_device_data wnd o sc w p Hsc HI Hk He) as [(_ & _ & H1) H2]. done. }
    intros Ha Hp. pose proof (l_open _ (i_live _ HI Ha) Hp) as O. split; [apply (d_recved _ O)|apply (d_down _ O)].
Qed.

(** C35: no client waits for nothing. While a client exists, at least one side is
    open. If the device is gone there is data left for SOCKS, which is being sent
    or waits for SOCKS to come up. If SOCKS is gone there is data that the device
    has yet to acknowledge or be sent. While both are open and SOCKS is up, data
    is being sent to SOCKS exactly if there is some, and either a receive is under
    way or the receive buffer waits for an acknowledgement that is outstanding. *)
Theorem tcp_client_progress wnd sc0 w0 r0 w :
  commit_ok wnd sc0 -> listener_accept_func true true true sc0 = (Some w0, r0) -> reachable wnd w0 w ->
  allocated (env w) = true ->
  (pcb (env w) = true \/ socks (env w) = true) /\
  (pcb (env w) = false -> buf (cli w) <> [] /\ (socks_up (cli w) = true -> is_Some (s_sending (env w)))) /\
  (socks (env w) = false -> cb_sent (env w) = true /\ 0 < zlen (written (hist w)) - acked (hist w)) /\
  (socks (env w) = true -> socks_up (cli w) = true ->
     (is_Some (s_sending (env w)) <-> buf (cli w) <> []) /\
     (pcb (env w) = true -> s_recving (env w) = true \/
        (socks_recv_waiting (cli w) = true /\ cb_sent (env w) = true /\ 0 < zlen (written (hist w)) - acked (hist w)))).
Proof.
  intros Hc Hs Hr Ha. destruct (reachable_Idle wnd w0 w (proj1 (accept_Idle _ _ _ _ Hc Hs)) Hr) as [HI _].
  destruct (i_live _ HI Ha) as [L1 L2 L3 L4 L5 L6 C LO].
  assert (socks (env w) = true -> socks_up (cli w) = true -> (is_Some (s_sending (env w)) <-> buf (cli w) <> [])) as Hsend.
  { intros E1 E2. pose proof (l_send _ C E1 E2) as H. destruct (s_sending (env w)) as [n|].
    - split; [|eauto]. intros _ Hb. pose proof (f_equal zlen Hb) as Hz. rewrite zlen_nil in Hz. lia.
    - split; [intros [? ?]; done|done]. }
  split; [done|]. split.
  { intros Hp. split; [auto|]. intros Hu. apply Hsend; auto. destruct L2; [congruence|done]. }
  split.
  { intros Es. destruct (L4 Es) as (Hu & _ & _ & _ & Hw). assert (pcb (env w) = true) as Hp by (destruct L2; congruence).
    destruct (LO Hp) as [_ O2 O3 _ _]. destruct (O3 Hu) as [P1 P2]. rewrite L6, Hp, Hu. split; [done|].
    destruct O2 as [O2|O2]; lia. }
  intros Es Hu. split; [auto|]. intros Hp. destruct (LO Hp) as [O1 O2 O3 _ _]. destruct (O3 Hu) as [P1 P2].
  destruct O2 as [O2|(_ & _ & O4 & O5)]; [left; auto|]. right. rewrite L6, Hp, Hu. split; [done|]. split; [done|lia].
Qed.

(** *** A connection whose device closes while SOCKS still has data to take *)

Definition ex_oracle : oracle := Oracle true (fun _ => 3) (fun _ => ERR_OK) true.

Definition no_jobs (w : world) : world := w.

(** The SOCKS client fails while the callback waits. *)
Definition socks_fails (w : world) : world :=
  if allocated (env w) && socks (env w) then run_job ex_oracle (ESocks BSOCKSCLIENT_EVENT_ERROR) w else w.

Lemma ex_oracle_ok : oracle_ok ex_oracle.
Proof. intros i. cbn. lia. Qed.

Lemma no_jobs_ok wnd : commit_ok wnd no_jobs.
Proof. intros w. apply commits_done. Qed.

Lemma socks_fails_ok wnd : commit_ok wnd socks_fails.
Proof.
  intros w. unfold socks_fails. destruct (allocated (env w) && socks (env w)) eqn:E; [|apply commits_done].
  apply andb_true_iff in E as [E1 E2].
  apply (commits_job wnd w ex_oracle (ESocks BSOCKSCLIENT_EVENT_ERROR)); [exact ex_oracle_ok|done|done|apply commits_done].
Qed.

Definition ex_events : list event :=
  [EDeviceData [x61; x62]; ESocks BSOCKSCLIENT_EVENT_UP; ESocksData [x01; x02; x03; x04]; ESocksSent 1; EDeviceFin].

Definition ex_run (es : list event) : world := fold_left (fun w e => fst (step 4 ex_oracle no_jobs w e)) es accepted.
Definition ex_world : world := ex_run ex_events.

Lemma ex_tcp_reachable : reachable 4 accepted ex_world.
Proof.
  unfold ex_world, ex_run, ex_events. cbn [fold_left].
  repeat (apply reach_step; [|exact ex_oracle_ok|exact (no_jobs_ok 4)|]); [apply reach_start|..];
    (split; [vm_compute; reflexivity|]); cbn [enabled].
  4: { split; [vm_compute; reflexivity|]. exists 2. split; [vm_compute; reflexivity|lia]. }
  all: split_and!; vm_compute; first [reflexivity|discriminate].
Qed.

(** SOCKS is up and has nothing to send; it fails when the device's first bytes are
    handed to it. *)
Definition ex_idle : world := ex_run [ESocks BSOCKSCLIENT_EVENT_UP].

Lemma ex_idle_reachable : reachable 4 accepted ex_idle.
Proof.
  unfold ex_idle, ex_run. cbn [fold_left].
  apply reach_step; [apply reach_start|exact ex_oracle_ok|exact (no_jobs_ok 4)|]. split; [reflexivity|]. cbn. auto.
Qed.

Lemma tcp_client_safe_witness :
  fault ex_idle = false /\ pcb (env (fst (step 4 ex_oracle socks_fails ex_idle (EDeviceData [x61])))) = false.
Proof.
  destruct (tcp_client_safe 4 no_jobs accepted ERR_OK ex_idle (no_jobs_ok 4) ltac:(reflexivity) ex_idle_reachable)
    as (H1 & _ & _ & H2).
  split; [exact H1|]. apply (H2 ex_oracle socks_fails (EDeviceData [x61])).
  - exact ex_oracle_ok.
  - exact (socks_fails_ok 4).
  - split; [reflexivity|]. cbn. split_and!; done || lia.
  - reflexivity.
  - reflexivity.
Defined.

Lemma tcp_client_streams_witness :
  forwarded (hist ex_world) = [x61] /\ taken (hist ex_world) = [x61; x62] /\
  written (hist ex_world) `prefix_of` [x01; x02; x03; x04].
Proof.
  split; [reflexivity|]. split; [reflexivity|].
  destruct (tcp_client_streams 4 no_jobs accepted ERR_OK ex_world ex_oracle no_jobs []
    (no_jobs_ok 4) ltac:(reflexivity) ex_tcp_reachable) as (_ & H & _).
  assert (fetched (hist ex_world) = [x01; x02; x03; x04]) as <- by reflexivity. exact H.
Defined.

Lemma tcp_client_progress_witness :
  pcb (env ex_world) = false /\ buf (cli ex_world) <> [] /\ is_Some (s_sending (env ex_world)).
Proof.
  split; [reflexivity|].
  destruct (tcp_client_progress 4 no_jobs accepted ERR_OK ex_world (no_jobs_ok 4) ltac:(reflexivity) ex_tcp_reachable ltac:(reflexivity))
    as (_ & H & _).
  destruct (H ltac:(reflexivity)) as [H1 H2]. split; [exact H1|]. apply H2. reflexivity.
Defined.
