(* ===== verification/PdnsdNames.v ===== *)
(** * Domain names of the DNS daemon

    [pdnsd/src/helpers.h]: [rhnlen], [rhnicmp], [skipsegs], [rhnsegcnt];
    [pdnsd/src/helpers.c]: [str2rhn], [parsestr2rhn], [rhn2str], [rhncpy],
    [isnormalencdomname]; [pdnsd/src/dns.c]: [decompress_name], [domain_match],
    [compress_name].

    A name is held in memory in transport form: each label preceded by its
    length byte, the whole ended by a zero byte. The model works on byte lists
    with checked accesses: every read of a message or a name and every write to
    a buffer is an [option], and [None] stands for an access outside the
    object, a wrap-around of a length, a failed [PDNSD_ASSERT] or an exhausted
    loop bound. The theorems show that it does not occur. *)

From S2P Require Import Prelude.

Open Scope nat_scope.

Definition DNSNAMEBUFSIZE : nat := 256.

(** ** Return codes and checked memory *)

Inductive rc := RC_OK | RC_FORMAT | RC_TRUNC.

#[export] Instance rc_eq_dec : EqDecision rc.
Proof. solve_decision. Defined.

(** The value of a byte as an unsigned number. *)
Definition b2n (b : byte) : nat := N.to_nat (Byte.to_N b).
Definition n2b (n : nat) : byte := z2b (Z.of_nat n).

(** [buf[i] = b] *)
Definition store (i : nat) (b : byte) (buf : list byte) : option (list byte) :=
  if decide (i < length buf) then Some (<[i := b]> buf) else None.

(** ** Decompression *)

(** [do { tgt[tpos++] = *lptr++; } while (--lb);] for a positive [lb]. *)
Fixpoint copy_label (msg : list byte) (lptr : nat) (tgt : list byte) (tpos lb : nat)
    : option (list byte) :=
  match lb with
  | O => Some tgt
  | S lb' =>
      b ← msg !! lptr;
      tgt ← store tpos b tgt;
      copy_label msg (S lptr) tgt (S tpos) lb'
  end.

(** [((lb & 0x3f) << 8) | *lptr] *)
Definition pointer_offset (lb : nat) (b : byte) : nat :=
  Z.to_nat (Z.lor (Z.shiftl (Z.land (Z.of_nat lb) 0x3f) 8) (b2z b)).

(** How a loop over labels ends: at the zero byte, at a pointer (first loop
    only), or with an error. [newsz] is the rest of the data field. *)
Inductive walk :=
  | Ended (newsz : nat) (tgt : list byte) (tpos : nat)
  | Jumped (offs newsz : nat) (tgt : list byte) (tpos : nat)
  | Failed (code : rc).

(** The first loop: labels at the source position, up to the first pointer. *)
Fixpoint plain_labels (fuel : nat) (msg : list byte) (lptr newsz : nat) (tgt : list byte) (tpos : nat)
    : option walk :=
  match fuel, newsz with
  | O, _ => None
  | _, O => None
  | S fuel', S newsz =>
      lb ← b2n <$> msg !! lptr;
      let lptr := S lptr in
      if 0x3f <? lb then
        if lb <? 0xc0 then Some (Failed RC_FORMAT) else
        if newsz =? 0 then Some (Failed RC_TRUNC) else
        if length msg <=? lptr then Some (Failed RC_FORMAT) else
        b ← msg !! lptr;
        let offs := pointer_offset lb b in
        if length msg <=? offs then Some (Failed RC_FORMAT) else
        Some (Jumped offs (newsz - 1) tgt tpos)
      else
        tgt ← store tpos (n2b lb) tgt;
        let tpos := S tpos in
        if lb =? 0 then Some (Ended newsz tgt tpos) else
        if newsz <=? lb then Some (Failed RC_TRUNC) else
        if length msg <=? lptr + lb then Some (Failed RC_FORMAT) else
        if DNSNAMEBUFSIZE - 1 <? tpos + lb then Some (Failed RC_FORMAT) else
        tgt ← copy_label msg lptr tgt tpos lb;
        plain_labels fuel' msg (lptr + lb) (newsz - lb) tgt (tpos + lb)
  end.

(** The second loop, after a jump. A pointer met here counts a hop and goes on
    at its target, which is how the inner [while] of the source ends. *)
Fixpoint jumped_labels (fuel : nat) (msg : list byte) (lptr hops : nat) (tgt : list byte) (tpos : nat)
    : option walk :=
  match fuel with
  | O => None
  | S fuel' =>
      lb ← b2n <$> msg !! lptr;
      let lptr := S lptr in
      if 0x3f <? lb then
        if lb <? 0xc0 then Some (Failed RC_FORMAT) else
        if length msg <=? lptr then Some (Failed RC_FORMAT) else
        let hops := S hops in
        if 255 <? hops then Some (Failed RC_FORMAT) else
        b ← msg !! lptr;
        let offs := pointer_offset lb b in
        if length msg <=? offs then Some (Failed RC_FORMAT) else
        jumped_labels fuel' msg offs hops tgt tpos
      else
        tgt ← store tpos (n2b lb) tgt;
        let tpos := S tpos in
        if lb =? 0 then Some (Ended 0 tgt tpos) else
        if length msg <=? lptr + lb then Some (Failed RC_FORMAT) else
        if DNSNAMEBUFSIZE - 1 <? tpos + lb then Some (Failed RC_FORMAT) else
        tgt ← copy_label msg lptr tgt tpos lb;
        jumped_labels fuel' msg (lptr + lb) hops tgt (tpos + lb)
  end.

(** Each turn of a loop writes at least two bytes of the 256 of the target or
    is one of at most 255 hops. *)
Definition name_fuel : nat := 513.

(** What the caller sees: a code, and on success the moved source position, the
    rest of the data field, the target buffer and the name's length. *)
Inductive name_result :=
  | NameOk (src sz : nat) (tgt : list byte) (len : nat)
  | NameError (code : rc).

Definition decompress_name (msg : list byte) (src sz : nat) (tgt : list byte) : option name_result :=
  if sz =? 0 then Some (NameError RC_TRUNC) else
  if length msg <=? src then Some (NameError RC_FORMAT) else
  w ← plain_labels name_fuel msg src sz tgt 0;
  match w with
  | Failed code => Some (NameError code)
  | Ended newsz tgt tpos => Some (NameOk (src + (sz - newsz)) newsz tgt tpos)
  | Jumped offs newsz tgt tpos =>
      w ← jumped_labels name_fuel msg offs 1 tgt tpos;
      match w with
      | Ended _ tgt tpos => Some (NameOk (src + (sz - newsz)) newsz tgt tpos)
      | Failed code => Some (NameError code)
      | Jumped _ _ _ _ => None
      end
  end.

(** ** What a name in a message means

    [expands msg pos hops n ls]: the name at [pos] occupies [n] bytes there and
    stands for the labels [ls]; [hops] pointers are followed (RFC 1035, 4.1.4). *)
Inductive expands (msg : list byte) : nat -> nat -> nat -> list (list byte) -> Prop :=
  | expands_root pos :
      msg !! pos = Some x00 -> expands msg pos 0 1 []
  | expands_label pos b l hops n ls :
      msg !! pos = Some b -> b2n b = length l -> 0 < length l <= 63 ->
      take (length l) (drop (S pos) msg) = l ->
      expands msg (S pos + length l) hops n ls ->
      expands msg pos hops (S (length l) + n) (l :: ls)
  | expands_pointer pos b b' hops n ls :
      msg !! pos = Some b -> 0xc0 <= b2n b -> msg !! S pos = Some b' ->
      expands msg (pointer_offset (b2n b) b') hops n ls ->
      expands msg pos (S hops) 2 ls.

(** Labels in transport form. *)
Definition enc_label (l : list byte) : list byte := n2b (length l) :: l.
Definition enc_labels (ls : list (list byte)) : list byte := concat (map enc_label ls).
Definition wire (ls : list (list byte)) : list byte := enc_labels ls ++ [x00].

(** A name in the limits of the daemon: at most 255 pointers, and a transport
    form that fits the buffer. *)
Definition name_at (msg : list byte) (pos n : nat) (ls : list (list byte)) : Prop :=
  exists hops, expands msg pos hops n ls /\ hops <= 255 /\ length (wire ls) <= DNSNAMEBUFSIZE.

(** ** Lemmas on bytes and buffers *)

Lemma b2n_b2z b : Z.of_nat (b2n b) = b2z b.
Proof. unfold b2n, b2z. lia. Qed.

Lemma b2n_lt b : b2n b < 256.
Proof. pose proof (b2z_range b). pose proof (b2n_b2z b). lia. Qed.

Lemma n2b_b2n b : n2b (b2n b) = b.
Proof. unfold n2b. rewrite b2n_b2z. apply z2b_b2z. Qed.

Lemma b2n_n2b n : n < 256 -> b2n (n2b n) = n.
Proof.
  intros. apply Nat2Z.inj. rewrite b2n_b2z. unfold n2b. rewrite b2z_z2b. apply u8_id. lia.
Qed.

Lemma b2n_0 b : b2n b = 0 -> b = x00.
Proof. intros H. rewrite <- (n2b_b2n b), H. reflexivity. Qed.

Lemma store_at pre x rest b : store (length pre) b (pre ++ x :: rest) = Some (pre ++ b :: rest).
Proof.
  unfold store. rewrite decide_True by (rewrite length_app; simpl; lia).
  rewrite insert_app_r_alt by done. by rewrite Nat.sub_diag.
Qed.

Lemma copy_label_spec msg lb : forall lptr pre rest,
  lptr + lb <= length msg -> lb <= length rest ->
  copy_label msg lptr (pre ++ rest) (length pre) lb =
  Some (pre ++ take lb (drop lptr msg) ++ drop lb rest).
Proof.
  induction lb as [|lb IH]; intros lptr pre rest Hm Hr; simpl.
  - by rewrite drop_0.
  - destruct (lookup_lt_is_Some_2 msg lptr) as [b Hb]; [lia|]. rewrite Hb. simpl.
    destruct rest as [|x rest]; [simpl in Hr; lia|]. rewrite store_at. simpl.
    rewrite (drop_S _ _ _ Hb). simpl.
    specialize (IH (S lptr) (pre ++ [b]) rest). simpl in Hr.
    rewrite length_app, Nat.add_1_r, <- !app_assoc in IH. simpl in IH. apply IH; lia.
Qed.

Lemma length_enc_labels_cons l ls : length (enc_labels (l :: ls)) = S (length l) + length (enc_labels ls).
Proof. unfold enc_labels. simpl. by rewrite length_app. Qed.

Lemma length_wire ls : length (wire ls) = S (length (enc_labels ls)).
Proof. unfold wire. rewrite length_app. simpl. lia. Qed.

Lemma length_wire_cons l ls : length (wire (l :: ls)) = S (length l) + length (wire ls).
Proof. rewrite !length_wire, length_enc_labels_cons. lia. Qed.

Lemma wire_cons l ls : wire (l :: ls) = n2b (length l) :: l ++ wire ls.
Proof. unfold wire, enc_labels, enc_label. simpl. by rewrite <- app_assoc. Qed.

Lemma expands_inv_lt msg pos hops n ls : expands msg pos hops n ls -> pos < length msg.
Proof. destruct 1; by eapply lookup_lt_Some. Qed.

(** The part of a label's branch that both loops share: the length byte and the
    label are appended to what was written. *)
Lemma copy_label_step msg pos b pre rest :
  msg !! pos = Some b -> b2n b <> 0 -> S pos + b2n b < length msg -> S (b2n b) <= length rest ->
  exists l tgt, length l = b2n b /\ take (length l) (drop (S pos) msg) = l /\
    store (length pre) (n2b (b2n b)) (pre ++ rest) = Some tgt /\
    copy_label msg (S pos) tgt (S (length pre)) (b2n b) =
    Some ((pre ++ enc_label l) ++ drop (S (length l)) rest).
Proof.
  intros Hb H0 Hm Hr. destruct rest as [|x rest]; [simpl in Hr; lia|].
  exists (take (b2n b) (drop (S pos) msg)), ((pre ++ [n2b (b2n b)]) ++ rest).
  assert (Hl : length (take (b2n b) (drop (S pos) msg)) = b2n b)
    by (rewrite length_take, length_drop; lia).
  rewrite !Hl. split_and!; [done..|by rewrite store_at, <- app_assoc|].
  pose proof (copy_label_spec msg (b2n b) (S pos) (pre ++ [n2b (b2n b)]) rest) as Hc.
  rewrite length_app, Nat.add_1_r in Hc. simpl in Hc, Hr. rewrite Hc by lia.
  unfold enc_label. rewrite Hl. by rewrite <- !app_assoc.
Qed.

(** What stands at a position: the end of a name, a label followed by more, a
    pointer into the message, or nothing that can begin a name. *)
Inductive head := Root | Label (l : list byte) | Pointer (off : nat) | Bad.

Definition head_at (msg : list byte) (pos : nat) : head :=
  match msg !! pos with
  | None => Bad
  | Some b =>
      if b2n b =? 0 then Root else
      if b2n b <=? 63 then
        if length msg <=? S pos + b2n b then Bad else Label (take (b2n b) (drop (S pos) msg))
      else if b2n b <? 0xc0 then Bad else
      match msg !! S pos with
      | None => Bad
      | Some b' => let off := pointer_offset (b2n b) b' in
                   if length msg <=? off then Bad else Pointer off
      end
  end.

Lemma head_at_label msg pos l :
  head_at msg pos = Label l ->
  exists b, msg !! pos = Some b /\ b2n b = length l /\ 0 < length l <= 63 /\
    take (length l) (drop (S pos) msg) = l /\ S pos + length l < length msg.
Proof.
  unfold head_at. destruct (msg !! pos) as [b|] eqn:Hb; [|done].
  destruct (Nat.eqb_spec (b2n b) 0); [done|].
  destruct (Nat.leb_spec (b2n b) 63); [|by repeat case_match].
  destruct (Nat.leb_spec (length msg) (S pos + b2n b)); [done|]. intros [= <-].
  assert (Hl : length (take (b2n b) (drop (S pos) msg)) = b2n b)
    by (rewrite length_take, length_drop; lia).
  exists b. rewrite Hl. repeat split; lia || done.
Qed.

Lemma head_at_pointer msg pos off :
  head_at msg pos = Pointer off ->
  exists b b', msg !! pos = Some b /\ 0xc0 <= b2n b /\ msg !! S pos = Some b' /\
    off = pointer_offset (b2n b) b' /\ off < length msg.
Proof.
  unfold head_at. destruct (msg !! pos) as [b|] eqn:Hb; [|done].
  destruct (Nat.eqb_spec (b2n b) 0); [done|].
  destruct (Nat.leb_spec (b2n b) 63); [by case_match|].
  destruct (Nat.ltb_spec (b2n b) 0xc0); [done|].
  destruct (msg !! S pos) as [b'|] eqn:Hb'; [|done].
  destruct (Nat.leb_spec (length msg) (pointer_offset (b2n b) b')); [done|].
  intros [= <-]. by exists b, b'.
Qed.

(** The meaning of a name by cases on what stands at its position. *)
Lemma expands_head msg pos h n ls :
  expands msg pos h n ls <->
  match head_at msg pos with
  | Root => h = 0 /\ n = 1 /\ ls = []
  | Label l => exists n' ls', ls = l :: ls' /\ n = S (length l) + n' /\
      expands msg (S pos + length l) h n' ls'
  | Pointer off => exists h' n', h = S h' /\ n = 2 /\ expands msg off h' n' ls
  | Bad => False
  end.
Proof.
  split.
  - destruct 1 as [pos Hb|pos b l h n ls Hb Hl ? Ht He|pos b b' h n ls Hb ? Hb' He]; unfold head_at; rewrite Hb.
    + by simpl.
    + rewrite (proj2 (Nat.eqb_neq _ _)), (proj2 (Nat.leb_le _ _)), Hl by lia.
      rewrite (proj2 (Nat.leb_gt _ _)), Ht by (by eapply expands_inv_lt). by eauto.
    + rewrite (proj2 (Nat.eqb_neq _ _)), (proj2 (Nat.leb_gt _ _)), (proj2 (Nat.ltb_ge _ _)), Hb' by lia.
      rewrite (proj2 (Nat.leb_gt _ _)) by (by eapply expands_inv_lt). by eauto.
  - destruct (head_at msg pos) as [|l|off|] eqn:Hh; [..|done].
    + unfold head_at in Hh. destruct (msg !! pos) as [b|] eqn:Hb; [|done].
      destruct (Nat.eqb_spec (b2n b) 0) as [H0|]; [|by repeat case_match].
      apply b2n_0 in H0 as ->. intros (->&->&->). by apply expands_root.
    + apply head_at_label in Hh as (b&?&?&?&?&?). intros (n'&ls'&->&->&?). by eapply expands_label.
    + apply head_at_pointer in Hh as (b&b'&?&?&?&->&?). intros (h'&n'&->&->&?). by eapply expands_pointer.
Qed.

Lemma enc_label_length l : length (enc_label l) = S (length l).
Proof. done. Qed.

(** One turn of the loops, by cases on what stands at the position. *)
Lemma jumped_labels_step fuel msg lptr hops pre rest :
  lptr < length msg -> length pre <= 255 -> DNSNAMEBUFSIZE <= length pre + length rest ->
  jumped_labels (S fuel) msg lptr hops (pre ++ rest) (length pre) =
  match head_at msg lptr with
  | Root => Some (Ended 0 (pre ++ x00 :: drop 1 rest) (S (length pre)))
  | Label l =>
      if 255 <? length (pre ++ enc_label l) then Some (Failed RC_FORMAT)
      else jumped_labels fuel msg (S lptr + length l) hops
             ((pre ++ enc_label l) ++ drop (length (enc_label l)) rest) (length (pre ++ enc_label l))
  | Pointer off =>
      if 255 <? S hops then Some (Failed RC_FORMAT)
      else jumped_labels fuel msg off (S hops) (pre ++ rest) (length pre)
  | Bad => Some (Failed RC_FORMAT)
  end.
Proof.
  unfold DNSNAMEBUFSIZE. intros Hl Hp Hr. destruct (lookup_lt_is_Some_2 msg lptr Hl) as [b Hb].
  cbn [jumped_labels]. unfold head_at. rewrite Hb. cbn [fmap option_fmap option_map mbind option_bind].
  destruct (Nat.ltb_spec 0x3f (b2n b)).
  - rewrite (proj2 (Nat.eqb_neq (b2n b) 0)), (proj2 (Nat.leb_gt (b2n b) 63)) by lia.
    destruct (b2n b <? 0xc0); [done|].
    destruct (Nat.leb_spec (length msg) (S lptr)).
    { by rewrite lookup_ge_None_2 by lia. }
    destruct (lookup_lt_is_Some_2 msg (S lptr)) as [b' Hb']; [lia|]. rewrite Hb'.
    cbn [mbind option_bind]. by repeat case_match.
  - destruct rest as [|x rest]; [simpl in Hr; lia|].
    destruct (Nat.eqb_spec (b2n b) 0) as [H0|H0].
    { rewrite H0. rewrite store_at. done. }
    rewrite (proj2 (Nat.leb_le (b2n b) 63)) by lia.
    destruct (Nat.leb_spec (length msg) (S lptr + b2n b)); [by rewrite store_at|].
    assert (Hl' : length (take (b2n b) (drop (S lptr) msg)) = b2n b)
      by (rewrite length_take, length_drop; lia).
    rewrite length_app, enc_label_length, !Hl', Nat.add_succ_r. unfold DNSNAMEBUFSIZE.
    replace (S (length pre) + b2n b) with (S (length pre + b2n b)) by lia.
    destruct (Nat.ltb_spec 255 (S (length pre + b2n b))).
    { rewrite store_at. cbn [mbind option_bind]. by rewrite (proj2 (Nat.ltb_lt _ _)) by lia. }
    destruct (copy_label_step msg lptr b pre (x :: rest)) as (l&tgt&Hll&Ht&Hs&Hc); [done|lia..|simpl in *; lia|].
    rewrite Hs. cbn [mbind option_bind]. rewrite (proj2 (Nat.ltb_ge _ _)), Hc by lia. cbn [mbind option_bind].
    rewrite Hll in Ht. rewrite Ht, Hll. done.
Qed.

Lemma plain_labels_step fuel msg lptr newsz pre rest :
  lptr < length msg -> length pre <= 255 -> DNSNAMEBUFSIZE <= length pre + length rest ->
  let r := plain_labels (S fuel) msg lptr (S newsz) (pre ++ rest) (length pre) in
  match head_at msg lptr with
  | Root => r = Some (Ended newsz (pre ++ x00 :: drop 1 rest) (S (length pre)))
  | Label l =>
      r = if newsz <=? length l then Some (Failed RC_TRUNC) else
          if 255 <? length (pre ++ enc_label l) then Some (Failed RC_FORMAT)
          else plain_labels fuel msg (S lptr + length l) (newsz - length l)
                 ((pre ++ enc_label l) ++ drop (length (enc_label l)) rest) (length (pre ++ enc_label l))
  | Pointer off =>
      r = if newsz =? 0 then Some (Failed RC_TRUNC) else Some (Jumped off (newsz - 1) (pre ++ rest) (length pre))
  | Bad => exists code, r = Some (Failed code) /\ code <> RC_OK
  end.
Proof.
  unfold DNSNAMEBUFSIZE. intros Hl Hp Hr. cbv zeta. destruct (lookup_lt_is_Some_2 msg lptr Hl) as [b Hb].
  cbn [plain_labels]. unfold head_at. rewrite Hb. cbn [fmap option_fmap option_map mbind option_bind].
  destruct (Nat.ltb_spec 0x3f (b2n b)).
  - rewrite (proj2 (Nat.eqb_neq (b2n b) 0)), (proj2 (Nat.leb_gt (b2n b) 63)) by lia.
    destruct (b2n b <? 0xc0); [by eexists|].
    destruct (Nat.leb_spec (length msg) (S lptr)).
    { rewrite lookup_ge_None_2 by lia. case_match; by eexists. }
    destruct (lookup_lt_is_Some_2 msg (S lptr)) as [b' Hb']; [lia|]. rewrite Hb'.
    cbn [mbind option_bind]. repeat case_match; simplify_eq; done || by eexists.
  - destruct rest as [|x rest]; [simpl in Hr; lia|].
    destruct (Nat.eqb_spec (b2n b) 0) as [H0|H0].
    { rewrite H0. rewrite store_at. done. }
    rewrite (proj2 (Nat.leb_le (b2n b) 63)) by lia.
    destruct (Nat.leb_spec (length msg) (S lptr + b2n b)).
    { rewrite store_at. cbn [mbind option_bind]. case_match; by eexists. }
    assert (Hl' : length (take (b2n b) (drop (S lptr) msg)) = b2n b)
      by (rewrite length_take, length_drop; lia).
    rewrite length_app, enc_label_length, !Hl', Nat.add_succ_r. unfold DNSNAMEBUFSIZE.
    replace (S (length pre) + b2n b) with (S (length pre + b2n b)) by lia.
    destruct (newsz <=? b2n b); [by rewrite store_at|].
    destruct (Nat.ltb_spec 255 (S (length pre + b2n b))).
    { rewrite store_at. cbn [mbind option_bind]. by rewrite (proj2 (Nat.ltb_lt _ _)) by lia. }
    destruct (copy_label_step msg lptr b pre (x :: rest)) as (l&tgt&Hll&Ht&Hs&Hc); [done|lia..|simpl in *; lia|].
    rewrite Hs. cbn [mbind option_bind]. rewrite (proj2 (Nat.ltb_ge _ _)), Hc by lia. cbn [mbind option_bind].
    rewrite Hll in Ht. rewrite Ht, Hll. done.
Qed.

(** The second loop computes the expansion at its position if that stays
    within the limits, and fails otherwise. *)
Lemma jumped_labels_spec msg fuel : forall lptr hops pre rest,
  lptr < length msg -> hops <= 255 -> length pre <= 255 ->
  DNSNAMEBUFSIZE <= length pre + length rest -> (255 - hops) + (255 - length pre) < fuel ->
  exists w, jumped_labels fuel msg lptr hops (pre ++ rest) (length pre) = Some w /\
  match w with
  | Ended _ tgt tpos => exists h n ls, expands msg lptr h n ls /\ hops + h <= 255 /\
      tpos = length (pre ++ wire ls) /\ tpos <= DNSNAMEBUFSIZE /\
      tgt = (pre ++ wire ls) ++ drop (length (wire ls)) rest
  | Failed code => code = RC_FORMAT /\ forall h n ls, expands msg lptr h n ls -> hops + h <= 255 ->
      DNSNAMEBUFSIZE < length (pre ++ wire ls)
  | Jumped _ _ _ _ => False
  end.
Proof.
  induction fuel as [|fuel IH]; intros lptr hops pre rest Hl Hh Hp Hr Hf; [lia|].
  rewrite jumped_labels_step by done. pose proof (expands_head msg lptr) as Hx.
  destruct (head_at msg lptr) as [|l|off|] eqn:Hd.
  - eexists; split; [done|]. exists 0, 1, []. rewrite length_app. unfold DNSNAMEBUFSIZE in *. simpl.
    rewrite <- app_assoc. split_and!; [by apply Hx|lia || done..].
  - apply head_at_label in Hd as (_&_&_&?&_&?). destruct (Nat.ltb_spec 255 (length (pre ++ enc_label l))) as [Ho|Ho].
    { eexists; split; [done|]. split; [done|]. intros h n ls (n'&ls'&->&_)%Hx _.
      rewrite length_app, ?length_wire_cons, enc_label_length in *. unfold DNSNAMEBUFSIZE. rewrite length_wire. lia. }
    destruct (IH (S lptr + length l) hops (pre ++ enc_label l) (drop (length (enc_label l)) rest)) as (w&->&Hw);
      [rewrite ?length_drop, ?length_app, ?enc_label_length in *; lia..|].
    eexists; split; [done|].
    assert (Ha : forall ls', (pre ++ enc_label l) ++ wire ls' = pre ++ wire (l :: ls'))
      by (intros; by rewrite wire_cons, <- app_assoc).
    destruct w as [? tgt tpos|?|code]; [|done|].
    + destruct Hw as (h&n&ls&He&?&?&?&->). exists h, (S (length l) + n), (l :: ls). rewrite Ha in *.
      split_and!; [apply Hx; by eauto|done..|]. by rewrite drop_drop, length_wire_cons, enc_label_length.
    + destruct Hw as (?&Hw). split; [done|]. intros h n ls (n'&ls'&->&->&He)%Hx ?. rewrite <- Ha. by eapply Hw.
  - apply head_at_pointer in Hd as (?&?&?&?&?&?&?). destruct (Nat.ltb_spec 255 (S hops)).
    { eexists; split; [done|]. split; [done|]. intros h n ls (h'&n'&->&_)%Hx ?. lia. }
    destruct (IH off (S hops) pre rest) as (w&->&Hw); [lia || done..|].
    eexists; split; [done|]. destruct w as [? tgt tpos|?|code]; [|done|].
    + destruct Hw as (h&n&ls&He&?&?&?&?). exists (S h), 2, ls. split_and!; [apply Hx; by eauto|lia|done..].
    + destruct Hw as (?&Hw). split; [done|]. intros h n ls (h'&n'&->&->&He)%Hx ?. eapply Hw; [done|lia].
  - eexists; split; [done|]. split; [done|]. by intros h n ls ?%Hx.
Qed.

(** The first loop: the expansion at its position with the rest of the data
    field, the target of a first pointer, or an error that is [RC_TRUNC] if the
    name is only too long for the data field. *)
Lemma plain_labels_spec msg fuel : forall lptr newsz pre rest,
  lptr < length msg -> 0 < newsz -> length pre <= 255 ->
  DNSNAMEBUFSIZE <= length pre + length rest -> 255 - length pre < fuel ->
  exists w, plain_labels fuel msg lptr newsz (pre ++ rest) (length pre) = Some w /\
  match w with
  | Ended newsz' tgt tpos => exists n ls, expands msg lptr 0 n ls /\ n + newsz' = newsz /\
      tpos = length (pre ++ wire ls) /\ tpos <= DNSNAMEBUFSIZE /\
      tgt = (pre ++ wire ls) ++ drop (length (wire ls)) rest
  | Jumped off newsz' tgt tpos => exists n ls, n + newsz' = newsz /\ off < length msg /\
      tpos = length (pre ++ enc_labels ls) /\ tpos <= 255 /\
      tgt = (pre ++ enc_labels ls) ++ drop (length (enc_labels ls)) rest /\
      (forall h n' ls', expands msg lptr h n' ls' <->
         exists h' n'' ls'', h = S h' /\ n' = n /\ ls' = ls ++ ls'' /\ expands msg off h' n'' ls'')
  | Failed code => code <> RC_OK /\ forall h n ls, expands msg lptr h n ls ->
      length (pre ++ wire ls) <= DNSNAMEBUFSIZE -> newsz < n /\ code = RC_TRUNC
  end.
Proof.
  induction fuel as [|fuel IH]; intros lptr newsz pre rest Hl Hz Hp Hr Hf; [lia|].
  destruct newsz as [|newsz]; [lia|].
  pose proof (plain_labels_step fuel msg lptr newsz pre rest Hl Hp Hr) as Hs. cbv zeta in Hs.
  pose proof (expands_head msg lptr) as Hx.
  destruct (head_at msg lptr) as [|l|off|] eqn:Hd.
  - rewrite Hs. eexists; split; [done|]. exists 1, []. rewrite length_app. unfold DNSNAMEBUFSIZE in *. simpl.
    rewrite <- app_assoc. split_and!; [by apply Hx|lia || done..].
  - apply head_at_label in Hd as (_&_&_&?&_&?). destruct (Nat.leb_spec newsz (length l)) as [Hn|Hn].
    { rewrite Hs. eexists; split; [done|]. split; [done|]. intros h n ls (n'&ls'&->&->&He)%Hx _.
      split; [|done]. destruct He; lia. }
    destruct (Nat.ltb_spec 255 (length (pre ++ enc_label l))) as [Ho|Ho].
    { rewrite Hs. eexists; split; [done|]. split; [done|]. intros h n ls (n'&ls'&->&_)%Hx.
      rewrite length_app, ?length_wire_cons, enc_label_length in *. unfold DNSNAMEBUFSIZE. rewrite length_wire. lia. }
    destruct (IH (S lptr + length l) (newsz - length l) (pre ++ enc_label l) (drop (length (enc_label l)) rest)) as (w&Hw'&Hw);
      [rewrite ?length_drop, ?length_app, ?enc_label_length in *; lia..|].
    rewrite Hs. eexists; split; [exact Hw'|].
    assert (Ha : forall ls', (pre ++ enc_label l) ++ wire ls' = pre ++ wire (l :: ls'))
      by (intros; by rewrite wire_cons, <- app_assoc).
    assert (Hb : forall ls', (pre ++ enc_label l) ++ enc_labels ls' = pre ++ enc_labels (l :: ls'))
      by (intros; by rewrite <- app_assoc).
    destruct w as [? tgt tpos|off newsz' tgt tpos|code].
    + destruct Hw as (n&ls&He&?&?&?&->). exists (S (length l) + n), (l :: ls). rewrite Ha in *.
      split_and!; [apply Hx; by eauto|lia|done..|]. by rewrite drop_drop, length_wire_cons, enc_label_length.
    + destruct Hw as (n&ls&?&?&?&?&->&Hi). exists (S (length l) + n), (l :: ls). rewrite Hb in *.
      split_and!; [lia|done..|by rewrite drop_drop, length_enc_labels_cons, enc_label_length|].
      intros h n1 ls1. rewrite Hx. setoid_rewrite Hi. naive_solver.
    + destruct Hw as (?&Hw). split; [done|]. intros h n ls (n'&ls'&->&->&He)%Hx ?. rewrite <- Ha in *.
      destruct (Hw _ _ _ He); [done|]. split; [lia|done].
  - apply head_at_pointer in Hd as (?&?&?&?&?&?&?). destruct (Nat.eqb_spec newsz 0).
    { rewrite Hs. eexists; split; [done|]. split; [done|]. intros h n ls (h'&n'&->&->&?)%Hx ?. split; [lia|done]. }
    rewrite Hs. eexists; split; [done|]. exists 2, []. unfold enc_labels. simpl. rewrite app_nil_r, drop_0.
    split_and!; [lia|done..|]. intros h n' ls'. rewrite Hx. naive_solver.
  - destruct Hs as (code&->&?). eexists; split; [done|]. split; [done|]. by intros h n ls ?%Hx.
Qed.

(** [decompress_name] always returns, and computes the name at the position if
    there is one in the limits. *)
Lemma decompress_name_spec msg src sz tgt :
  DNSNAMEBUFSIZE <= length tgt ->
  exists r, decompress_name msg src sz tgt = Some r /\
  match r with
  | NameOk src' sz' tgt' len => exists n ls, name_at msg src n ls /\
      src' = src + n /\ sz' + n = sz /\ len = length (wire ls) /\ tgt' = wire ls ++ drop len tgt
  | NameError code => code <> RC_OK /\
      forall n ls, name_at msg src n ls -> sz < n /\ code = RC_TRUNC
  end.
Proof.
  intros Ht. unfold decompress_name. destruct (Nat.eqb_spec sz 0) as [->|Hz].
  { eexists; split; [done|]. split; [done|]. intros n ls (h&He&_). split; [|done]. destruct He; lia. }
  destruct (Nat.leb_spec (length msg) src).
  { eexists; split; [done|]. split; [done|]. intros n ls (h&He%expands_inv_lt&_). lia. }
  destruct (plain_labels_spec msg name_fuel src sz [] tgt) as (w&Hw&Hs); [cbn [length]; unfold name_fuel; lia..|].
  change (plain_labels name_fuel msg src sz tgt 0 = Some w) in Hw. rewrite Hw. cbn [mbind option_bind].
  destruct w as [newsz tgt' tpos|off newsz tgt' tpos|code]; cbn [app] in Hs.
  - destruct Hs as (n&ls&He&Hn&->&?&->). eexists; split; [done|]. exists n, ls.
    split_and!; [by exists 0; auto with lia|lia..|done].
  - destruct Hs as (n&ls&Hn&?&->&?&->&Hi).
    destruct (jumped_labels_spec msg name_fuel off 1 (enc_labels ls) (drop (length (enc_labels ls)) tgt))
      as (w&->&Hs); [rewrite ?length_drop; unfold name_fuel, DNSNAMEBUFSIZE in *; lia..|].
    assert (Ha : forall ls', enc_labels ls ++ wire ls' = wire (ls ++ ls'))
      by (intros; unfold wire, enc_labels; by rewrite map_app, concat_app, <- app_assoc).
    cbn [mbind option_bind]. destruct w as [? tgt' tpos|?|code]; [|done|].
    + destruct Hs as (h&n'&ls'&He&?&->&?&->). eexists; split; [done|]. exists n, (ls ++ ls').
      rewrite Ha, drop_drop, <- length_app, Ha in *.
      split_and!; [exists (S h); split_and!; [by apply Hi; eauto 10|lia|lia]|lia..|done].
    + destruct Hs as (->&Hs). eexists; split; [done|]. split; [done|].
      intros n1 ls1 (h&(h'&n''&ls''&->&->&->&He)%Hi&?&?). rewrite <- Ha in *.
      specialize (Hs _ _ _ He). lia.
  - destruct Hs as (?&Hs). eexists; split; [done|]. split; [done|]. intros n ls (h&He&?&?). by eapply Hs.
Qed.

(** A position has at most one meaning. *)
Lemma expands_det msg pos h1 n1 ls1 :
  expands msg pos h1 n1 ls1 ->
  forall h2 n2 ls2, expands msg pos h2 n2 ls2 -> h1 = h2 /\ n1 = n2 /\ ls1 = ls2.
Proof.
  induction 1 as [pos Hb|pos b l h n ls Hb Hl ? Ht He IH|pos b b' h n ls Hb ? Hb' He IH]; intros h2 n2 ls2 H2.
  - apply expands_head in H2. unfold head_at in H2. rewrite Hb in H2. simpl in H2. naive_solver.
  - inversion H2; simplify_eq; [change (b2n x00) with 0 in *; lia| |lia].
    assert (l = l0) as <- by congruence. edestruct IH as (?&?&?); [done|]. by subst.
  - inversion H2; simplify_eq; [change (b2n x00) with 0 in *; lia|lia|].
    edestruct IH as (?&?&?); [done|]. by subst.
Qed.

Lemma decompress_name_ok msg src n ls sz tgt :
  DNSNAMEBUFSIZE <= length tgt -> name_at msg src n ls -> n <= sz ->
  decompress_name msg src sz tgt =
    Some (NameOk (src + n) (sz - n) (wire ls ++ drop (length (wire ls)) tgt) (length (wire ls))).
Proof.
  intros Ht Hn Hz. destruct (decompress_name_spec msg src sz tgt Ht) as (r&->&Hr).
  destruct r as [src' sz' tgt' len|code].
  - destruct Hr as (n'&ls'&(h&He&_)&->&?&->&->). destruct Hn as (h'&He'&_).
    destruct (expands_det _ _ _ _ _ He _ _ _ He') as (_&->&->). do 2 f_equal. lia.
  - destruct Hr as (_&Hr). apply Hr in Hn. lia.
Qed.

(** C36: decompression is total, safe and exact. For any message, position and
    data field, hostile ones included, [decompress_name] returns; it reads only
    the message and writes only the target. It succeeds exactly if a name of at
    most 255 pointers and 256 bytes stands at the position and its part there
    lies in the data field: the target then holds the transport form of the
    expanded name and the source and the rest of the field are moved behind the
    name. A name that is only cut off by the end of the field gives
    [RC_TRUNC]; pointer loops, pointers out of the message, unknown label types
    and names that are too long give an error. *)
Theorem decompress_name_exact msg src sz tgt :
  DNSNAMEBUFSIZE <= length tgt ->
  is_Some (decompress_name msg src sz tgt) /\
  (forall r, (exists src' sz' tgt' len, r = NameOk src' sz' tgt' len /\ decompress_name msg src sz tgt = Some r) <->
     exists n ls, name_at msg src n ls /\ n <= sz /\
       r = NameOk (src + n) (sz - n) (wire ls ++ drop (length (wire ls)) tgt) (length (wire ls)) ) /\
  (forall n ls, name_at msg src n ls -> sz < n -> decompress_name msg src sz tgt = Some (NameError RC_TRUNC)).
Proof.
  intros Ht. destruct (decompress_name_spec msg src sz tgt Ht) as (r&Hd&Hr). split_and!.
  - rewrite Hd. done.
  - intros r'. split.
    + intros (src'&sz'&tgt'&len&->&Hd'). rewrite Hd in Hd'. injection Hd' as ->.
      destruct Hr as (n&ls&Hn&->&<-&->&->). exists n, ls. split_and!; [done|lia|]. f_equal. lia.
    + intros (n&ls&Hn&Hz&->). do 4 eexists. split; [done|]. by apply decompress_name_ok.
  - intros n ls Hn Hz. rewrite Hd. destruct r as [src' sz' tgt' len|code].
    + destruct Hr as (n'&ls'&(h&He&_)&_&?&_). destruct Hn as (h'&He'&_).
      destruct (expands_det _ _ _ _ _ He _ _ _ He') as (_&->&_). lia.
    + destruct Hr as (_&Hr). by destruct (Hr _ _ Hn) as (_&->).
Qed.

(** A message with a name "a." and a second one "b.a." that points to it, and
    a pointer to itself. *)
Definition ex_msg : list byte :=
  map n2b [1; 97; 0; 1; 98; 0xc0; 0; 0xc0; 7].

Lemma decompress_name_exact_witness :
  decompress_name ex_msg 3 6 (repeat x00 256) =
    Some (NameOk 7 2 (wire [[n2b 98]; [n2b 97]] ++ repeat x00 251) 5) /\
  (exists n ls, name_at ex_msg 3 n ls /\ n <= 6 /\
     NameOk 7 2 (wire [[n2b 98]; [n2b 97]] ++ repeat x00 251) 5 =
     NameOk (3 + n) (6 - n) (wire ls ++ drop (length (wire ls)) (repeat x00 256)) (length (wire ls))) /\
  decompress_name ex_msg 7 2 (repeat x00 256) = Some (NameError RC_FORMAT).
Proof.
  assert (E : decompress_name ex_msg 3 6 (repeat x00 256) =
    Some (NameOk 7 2 (wire [[n2b 98]; [n2b 97]] ++ repeat x00 251) 5)) by (by vm_compute).
  split; [exact E|]. split; [|by vm_compute].
  apply (decompress_name_exact ex_msg 3 6 (repeat x00 256)); [by vm_compute; lia|].
  do 4 eexists. split; [done|exact E].
Defined.
