(* ===== verification/PdnsdCompress.v ===== *)
(** * Name compression of the DNS daemon

    [pdnsd/src/dns.c]: [domain_match], [compress_name];
    [pdnsd/src/helpers.h]: [rhnlen], [rhnicmp].

    [compress_name] writes a name into an answer, replacing the longest suffix
    that an earlier name of the answer ends with by a pointer to it. It keeps
    the names written so far, with their offsets, in a list ([dlist] in the
    source: items of varying size, appended at the end and walked from the
    front). The comment in the source says that only the uncompressed part of
    an earlier name can be pointed to and that taking the first name with the
    longest match is enough; that argument, with the limit on offsets, is
    proved here. *)

From S2P Require Import Prelude.
From S2P Require Import ByteOrder.
From S2P Require Import PdnsdNames.

Open Scope nat_scope.

(** ** Case folding *)

(** [tolower] and [toupper] of the C locale. *)
Definition tolower (b : byte) : byte :=
  if (65 <=? b2n b) && (b2n b <=? 90) then n2b (b2n b + 32) else b.

Definition toupper (b : byte) : byte :=
  if (97 <=? b2n b) && (b2n b <=? 122) then n2b (b2n b - 32) else b.

(** ** Operations on names in transport form *)

(** [while ((lb = rhn[i++])) i += lb; return i;] *)
Fixpoint rhnlen_loop (fuel : nat) (rhn : list byte) (i : nat) : option nat :=
  match fuel with
  | O => None
  | S fuel' =>
      lb ← b2n <$> rhn !! i;
      if lb =? 0 then Some (S i) else rhnlen_loop fuel' rhn (S i + lb)
  end.

Definition rhnlen (rhn : list byte) : option nat := rhnlen_loop (S (length rhn)) rhn 0.

(** The comparison of a label's bytes in [rhnicmp]. *)
Fixpoint same_bytes (a b : list byte) (i lb : nat) : option bool :=
  match lb with
  | O => Some true
  | S lb' =>
      x ← a !! i; y ← b !! i;
      if decide (tolower x = tolower y) then same_bytes a b (S i) lb' else Some false
  end.

Fixpoint rhnicmp_loop (fuel : nat) (a b : list byte) (i : nat) : option bool :=
  match fuel with
  | O => None
  | S fuel' =>
      x ← a !! i; y ← b !! i;
      if negb (b2n x =? b2n y) then Some false else
      if b2n x =? 0 then Some true else
      same ← same_bytes a b (S i) (b2n x);
      if (same : bool) then rhnicmp_loop fuel' a b (S i + b2n x) else Some false
  end.

Definition rhnicmp (a b : list byte) : option bool := rhnicmp_loop (S (length a)) a b 0.

(** ** [domain_match] *)

(** The length bytes of a name and the offset of its end; the arrays [ls] and
    [ld] hold 128 of them. *)
Fixpoint collect_lengths (fuel : nat) (s : list byte) (i : nat) (ls : list nat) : option (list nat * nat) :=
  match fuel with
  | O => None
  | S fuel' =>
      lb ← b2n <$> s !! i;
      if lb =? 0 then Some (ls, i) else
      if length ls <? 128 then collect_lengths fuel' s (i + (lb + 1)) (ls ++ [lb]) else None
  end.

(** [for (; lb; --lb) if (tolower(ms[--i]) != tolower(md[--j])) goto mismatch;] *)
Fixpoint compare_back (ms md : list byte) (i j lb : nat) {struct lb} : option (option (nat * nat)) :=
  match lb with
  | O => Some (Some (i, j))
  | S lb' =>
      match i, j with
      | S i', S j' =>
          x ← ms !! i'; y ← md !! j';
          if decide (tolower x = tolower y) then compare_back ms md i' j' lb' else Some None
      | _, _ => None
      end
  end.

(** The loop over the labels from the last one; [k] labels have matched. *)
Fixpoint match_labels (ms md : list byte) (ls ld : list nat) (i j k : nat) : option (nat * nat * nat) :=
  match ls, ld with
  | lb :: ls', lb' :: ld' =>
      if negb (lb =? lb') then Some (k, i, j) else
      r ← compare_back ms md i j lb;
      match r with
      | Some (S i', S j') => match_labels ms md ls' ld' i' j' (S k)
      | Some _ => None
      | None => Some (k, i, j)
      end
  | _, _ => Some (k, i, j)
  end.

(** The number of common labels and the offsets where they begin in [ms] and
    [md]. *)
Definition domain_match (ms md : list byte) : option (nat * nat * nat) :=
  '(ls, i) ← collect_lengths (S (length ms)) ms 0 [];
  '(ld, j) ← collect_lengths (S (length md)) md 0 [];
  match_labels ms md (rev ls) (rev ld) i j 0.

(** ** [compress_name] *)

Record compel_t := Compel { index : nat; s : list byte }.

(** The search: longest match so far, its offset in the name, the offset in
    the packet to point to. *)
Fixpoint find_longest (inn : list byte) (cb : list compel_t) (longest lrem coffs : nat)
    : option (nat * nat * nat) :=
  match cb with
  | [] => Some (longest, lrem, coffs)
  | ci :: cb' =>
      '(rv, rem, to) ← domain_match inn (s ci);
      if longest <? rv then
        let newoffs := index ci + to in
        if (Z.of_nat newoffs <=? 0x3fff)%Z then find_longest inn cb' rv rem newoffs
        else find_longest inn cb' longest lrem coffs
      else find_longest inn cb' longest lrem coffs
  end.

(** [out[lrem] = 0xc0 | ((coffs & 0x3f00) >> 8); out[lrem + 1] = coffs & 0xff;] *)
Definition pointer_bytes (coffs : nat) : list byte :=
  [z2b (Z.lor 0xc0 (Z.shiftr (Z.land (Z.of_nat coffs) 0x3f00) 8)); z2b (Z.land (Z.of_nat coffs) 0xff)].

(** The bytes written to [out] and the new list. [grow] is whether [dlist_grow]
    gets its memory; if not, the list is gone and 0 is returned. *)
Definition compress_name (grow : bool) (inn : list byte) (offs : nat) (cb : list compel_t)
    : option (nat * list byte * list compel_t) :=
  ilen ← rhnlen inn;
  if DNSNAMEBUFSIZE <? ilen then None else
  '(longest, lrem, coffs) ← find_longest inn cb 0 0 0;
  '(out, add) ←
    (if 0 <? longest then
       if ilen <? lrem + 2 then None
       else Some (take lrem inn ++ pointer_bytes coffs, negb (lrem =? 0))
     else Some (take ilen inn, true));
  if (add : bool) then
    if grow then Some (length out, out, cb ++ [Compel offs (take ilen inn)])
    else Some (0, out, [])
  else Some (length out, out, cb).

(** ** Names as lists of labels *)

Definition valid_label (l : list byte) : Prop := 0 < length l <= 63.
Definition valid_name (ls : list (list byte)) : Prop :=
  Forall valid_label ls /\ length (wire ls) <= DNSNAMEBUFSIZE.

Definition fold (ls : list (list byte)) : list (list byte) := map (map tolower) ls.

Lemma enc_labels_app ls ls' : enc_labels (ls ++ ls') = enc_labels ls ++ enc_labels ls'.
Proof. unfold enc_labels. by rewrite map_app, concat_app. Qed.

Lemma wire_app ls ls' : wire (ls ++ ls') = enc_labels ls ++ wire ls'.
Proof. unfold wire. by rewrite enc_labels_app, app_assoc. Qed.

Lemma length_enc_labels_ge ls : Forall valid_label ls -> 2 * length ls <= length (enc_labels ls).
Proof.
  induction 1 as [|l ls Hl _ IH]; [simpl; lia|]. rewrite length_enc_labels_cons. simpl. unfold valid_label in Hl. lia.
Qed.

Lemma valid_name_count ls : valid_name ls -> length ls <= 127.
Proof.
  intros [Hv Hl]. pose proof (length_enc_labels_ge ls Hv). rewrite length_wire in Hl. unfold DNSNAMEBUFSIZE in Hl. lia.
Qed.

Lemma length_enc_fold ls ls' : fold ls = fold ls' -> length (enc_labels ls) = length (enc_labels ls').
Proof.
  revert ls'. induction ls as [|l ls IH]; intros [|l' ls'] H; try done. injection H as Hl H.
  apply (f_equal length) in Hl. rewrite !length_map in Hl. rewrite !length_enc_labels_cons, Hl. f_equal. auto.
Qed.

Lemma length_fold_eq ls ls' : fold ls = fold ls' -> length ls = length ls'.
Proof. intros H. apply (f_equal length) in H. unfold fold in H. by rewrite !length_map in H. Qed.

Lemma wire_nil_lookup pre r : b2n <$> (pre ++ wire [] ++ r) !! length pre = Some 0.
Proof. change (wire [] ++ r) with (x00 :: r). by rewrite list_lookup_middle. Qed.

Lemma wire_cons_lookup pre l ls r : valid_label l ->
  b2n <$> (pre ++ wire (l :: ls) ++ r) !! length pre = Some (length l) /\ (length l =? 0) = false.
Proof.
  intros Hl. unfold valid_label in Hl. rewrite wire_cons. simpl. rewrite list_lookup_middle by done. simpl.
  rewrite b2n_n2b by lia. split; [done|]. apply Nat.eqb_neq. lia.
Qed.

Lemma wire_cons_assoc pre l ls r : pre ++ wire (l :: ls) ++ r = (pre ++ enc_label l) ++ wire ls ++ r.
Proof. rewrite wire_cons. unfold enc_label. simpl. by rewrite <- !app_assoc. Qed.

Lemma length_app_enc_label pre l : length (pre ++ enc_label l) = S (length pre + length l).
Proof. rewrite length_app, enc_label_length. lia. Qed.

(** A walk over a name sees its labels. *)
Lemma rhnlen_loop_wire ls : Forall valid_label ls -> forall fuel pre r,
  length ls < fuel ->
  rhnlen_loop fuel (pre ++ wire ls ++ r) (length pre) = Some (length pre + length (wire ls)).
Proof.
  induction 1 as [|l ls Hl _ IH]; intros [|fuel] pre r Hf; cbn [length] in Hf; try lia; cbn [rhnlen_loop].
  - rewrite wire_nil_lookup. simpl. f_equal. lia.
  - destruct (wire_cons_lookup pre l ls r Hl) as (->&H0). cbn [mbind option_bind]. rewrite H0, wire_cons_assoc.
    specialize (IH fuel (pre ++ enc_label l) r ltac:(lia)). rewrite length_app_enc_label in IH.
    rewrite length_wire_cons. simpl. rewrite IH. f_equal. lia.
Qed.

Lemma rhnlen_wire ls r : Forall valid_label ls -> rhnlen (wire ls ++ r) = Some (length (wire ls)).
Proof.
  intros Hv. unfold rhnlen. apply (rhnlen_loop_wire ls Hv _ [] r).
  pose proof (length_enc_labels_ge ls Hv). rewrite length_app, length_wire. lia.
Qed.

Lemma collect_lengths_wire ls : Forall valid_label ls -> forall fuel pre r acc,
  length ls < fuel -> length acc + length ls <= 128 ->
  collect_lengths fuel (pre ++ wire ls ++ r) (length pre) acc =
  Some (acc ++ map length ls, length pre + length (enc_labels ls)).
Proof.
  induction 1 as [|l ls Hl _ IH]; intros [|fuel] pre r acc Hf Ha; cbn [length] in Hf, Ha; try lia; cbn [collect_lengths].
  - rewrite wire_nil_lookup. simpl. by rewrite app_nil_r, Nat.add_0_r.
  - destruct (wire_cons_lookup pre l ls r Hl) as (->&H0). cbn [mbind option_bind]. rewrite H0, wire_cons_assoc.
    rewrite (proj2 (Nat.ltb_lt _ _)) by lia.
    specialize (IH fuel (pre ++ enc_label l) r (acc ++ [length l]) ltac:(lia)).
    rewrite length_app_enc_label, length_app in IH. cbn [length] in IH.
    replace (length pre + (length l + 1)) with (S (length pre + length l)) by lia. rewrite IH by lia.
    rewrite length_enc_labels_cons, <- app_assoc. do 2 f_equal. lia.
Qed.

(** ** The longest common suffix *)

Fixpoint lcp (a b : list (list byte)) : nat :=
  match a, b with
  | x :: a', y :: b' => if decide (x = y) then S (lcp a' b') else 0
  | _, _ => 0
  end.

(** The number of labels two names have in common at their ends, ignoring
    case. *)
Definition common (A B : list (list byte)) : nat := lcp (rev (fold A)) (rev (fold B)).

(** The last [m] labels of a name, folded. *)
Definition suffix (m : nat) (A : list (list byte)) : list (list byte) := take m (rev (fold A)).

Lemma lcp_take a b : take (lcp a b) a = take (lcp a b) b /\ lcp a b <= length a /\ lcp a b <= length b.
Proof.
  revert b. induction a as [|x a IH]; intros [|y b]; simpl; try (split_and!; lia || done).
  destruct (decide (x = y)) as [->|]; simpl; [|split_and!; lia || done].
  destruct (IH b) as (H&?&?). rewrite H. split_and!; lia || done.
Qed.

Lemma lcp_max m a b : take m a = take m b -> m <= length a -> m <= length b -> m <= lcp a b.
Proof.
  revert a b. induction m as [|m IH]; intros a b; [lia|].
  destruct a as [|x a], b as [|y b]; simpl; try lia. intros [= -> H] ??.
  rewrite decide_True by done. specialize (IH _ _ H). lia.
Qed.

Lemma length_rev_fold A : length (rev (fold A)) = length A.
Proof. unfold fold. by rewrite length_rev, length_map. Qed.

Lemma common_suffix A B m : m <= common A B -> suffix m A = suffix m B /\ m <= length A /\ m <= length B.
Proof.
  intros Hm. unfold common, suffix in *. destruct (lcp_take (rev (fold A)) (rev (fold B))) as (H&?&?).
  rewrite !length_rev_fold in *. split_and!; [|lia..].
  replace m with (m `min` lcp (rev (fold A)) (rev (fold B))) by lia. rewrite <- !take_take. by rewrite H.
Qed.

Lemma common_max A B m : suffix m A = suffix m B -> m <= length A -> m <= length B -> m <= common A B.
Proof. intros. apply lcp_max; [done|by rewrite length_rev_fold..]. Qed.

Lemma common_trans A B C m : m <= common A B -> m <= common B C -> m <= common A C.
Proof.
  intros (H1&?&?)%common_suffix (H2&?&?)%common_suffix. apply common_max; [congruence|done..].
Qed.

Lemma suffix_fold_drop m A B : m <= length A -> m <= length B ->
  suffix m A = suffix m B -> fold (drop (length A - m) A) = fold (drop (length B - m) B).
Proof.
  intros Ha Hb H. unfold suffix in H. apply (f_equal (@rev _)) in H. rewrite !firstn_rev, !rev_involutive in H.
  unfold fold in *. by rewrite !length_map, !skipn_map in H.
Qed.

(** ** [domain_match] finds it *)

Lemma compare_back_label P Q ra rb : forall a b, length a = length b ->
  compare_back (P ++ a ++ ra) (Q ++ b ++ rb) (length P + length a) (length Q + length b) (length a) =
  Some (if decide (map tolower a = map tolower b) then Some (length P, length Q) else None).
Proof.
  intros a. revert ra rb. induction a as [|x a IH] using rev_ind; intros ra rb b Hl.
  { destruct b; [|done]. rewrite decide_True by done. simpl. by rewrite !Nat.add_0_r. }
  destruct b as [|y b _] using rev_ind; rewrite !length_app in *; simpl in Hl; [lia|].
  simpl. rewrite !Nat.add_1_r, !Nat.add_succ_r. cbn [compare_back].
  rewrite <- !length_app, <- !(app_assoc _ [_]). cbn [app].
  assert (Hx : forall (R : list byte) c z rc, (R ++ c ++ z :: rc) !! length (R ++ c) = Some z)
    by (intros; rewrite app_assoc; by rewrite list_lookup_middle).
  rewrite !Hx. cbn [mbind option_bind]. rewrite !map_app. simpl.
  destruct (decide (tolower x = tolower y)) as [E|E].
  - rewrite !length_app, (IH (x :: ra) (y :: rb)) by lia. f_equal.
    apply decide_ext. rewrite E. split; [by intros ->|]. by intros (?&_)%app_inj_2.
  - rewrite decide_False; [done|]. intros (_&?)%app_inj_2; [congruence|done].
Qed.

Lemma enc_labels_rev_cons a A :
  enc_labels (rev (a :: A)) = (enc_labels (rev A) ++ [n2b (length a)]) ++ a.
Proof.
  simpl. rewrite enc_labels_app. unfold enc_labels at 2. simpl. unfold enc_label.
  by rewrite app_nil_r, <- app_assoc.
Qed.

Lemma match_labels_spec A : forall B ra rb k,
  match_labels (enc_labels (rev A) ++ ra) (enc_labels (rev B) ++ rb) (map length A) (map length B)
    (length (enc_labels (rev A))) (length (enc_labels (rev B))) k =
  let c := lcp (fold A) (fold B) in
  Some (k + c, length (enc_labels (rev (drop c A))), length (enc_labels (rev (drop c B)))).
Proof.
  induction A as [|a A IH]; intros [|b B] ra rb k; cbv zeta;
    try (cbn [map match_labels fold lcp drop]; by rewrite Nat.add_0_r).
  cbn [map match_labels]. destruct (Nat.eqb_spec (length a) (length b)) as [Hl|Hl]; cbn [negb].
  - rewrite !enc_labels_rev_cons, <- !(app_assoc _ _ ra), <- !(app_assoc _ _ rb).
    rewrite !(length_app _ a), !(length_app _ b), compare_back_label by done. cbn [mbind option_bind fold map lcp].
    destruct (decide (map tolower a = map tolower b)); cbn [drop].
    + rewrite !length_app, !Nat.add_1_r. rewrite <- !app_assoc, (IH B). cbv zeta. by rewrite Nat.add_succ_r.
    + rewrite !enc_labels_rev_cons, !length_app. f_equal. by rewrite Nat.add_0_r.
  - cbn [fold map lcp]. rewrite decide_False; [by rewrite Nat.add_0_r|].
    intros E%(f_equal length). by rewrite !length_map in E.
Qed.

(** Where the last [m] labels of a name begin. *)
Definition suffix_offset (m : nat) (A : list (list byte)) : nat :=
  length (enc_labels (take (length A - m) A)).

Lemma domain_match_spec A B ra :
  valid_name A -> valid_name B ->
  domain_match (wire A ++ ra) (wire B) =
  Some (common A B, suffix_offset (common A B) A, suffix_offset (common A B) B).
Proof.
  intros HA HB. pose proof (valid_name_count A HA). pose proof (valid_name_count B HB).
  destruct HA as [HA _], HB as [HB _].
  pose proof (length_enc_labels_ge A HA). pose proof (length_enc_labels_ge B HB).
  unfold domain_match.
  rewrite (collect_lengths_wire A HA _ [] ra []) by (rewrite ?length_app, ?length_wire; simpl; lia).
  cbn [mbind option_bind app length Nat.add]. rewrite <- (app_nil_r (wire B)) at 2.
  rewrite (collect_lengths_wire B HB _ [] [] []) by (rewrite ?length_wire; simpl; lia).
  cbn [mbind option_bind app length Nat.add]. unfold wire. rewrite <- app_assoc.
  pose proof (match_labels_spec (rev A) (rev B) ([x00] ++ ra) [x00] 0) as Hm.
  rewrite !rev_involutive, !map_rev in Hm. rewrite Hm. cbv zeta. unfold common, suffix_offset.
  assert (Hf : forall C, fold (rev C) = rev (fold C)) by (intros; unfold fold; by rewrite map_rev).
  by rewrite !Hf, !skipn_rev, !rev_involutive.
Qed.

(** ** Expansion in a growing message *)

Lemma expands_app msg x pos h n ls : expands msg pos h n ls -> expands (msg ++ x) pos h n ls.
Proof.
  induction 1 as [pos Hb|pos b l h n ls Hb Hl ? Ht He IH|pos b b' h n ls Hb ? Hb' He IH].
  - apply expands_root. by apply lookup_app_l_Some.
  - eapply expands_label; [by apply lookup_app_l_Some|done..| |done].
    apply expands_inv_lt in He. rewrite drop_app_le, take_app_le by (rewrite ?length_drop; lia). done.
  - eapply expands_pointer; [by apply lookup_app_l_Some|done|by apply lookup_app_l_Some|done].
Qed.

Lemma expands_labels C : Forall valid_label C -> forall pre rest h n ls,
  expands (pre ++ enc_labels C ++ rest) (length pre + length (enc_labels C)) h n ls ->
  expands (pre ++ enc_labels C ++ rest) (length pre) h (length (enc_labels C) + n) (C ++ ls).
Proof.
  induction 1 as [|l C Hl _ IH]; intros pre rest h n ls He.
  { change (length (enc_labels [])) with 0 in *. by rewrite Nat.add_0_r in He. }
  rewrite length_enc_labels_cons in *.
  assert (Ha : pre ++ enc_labels (l :: C) ++ rest = (pre ++ enc_label l) ++ enc_labels C ++ rest)
    by (unfold enc_labels; simpl; by rewrite <- !app_assoc).
  assert (Hb : (pre ++ enc_label l) ++ enc_labels C ++ rest = pre ++ n2b (length l) :: l ++ enc_labels C ++ rest)
    by (unfold enc_label; by rewrite <- !app_assoc).
  rewrite Ha in *. specialize (IH (pre ++ enc_label l) rest h n ls). rewrite length_app_enc_label in IH.
  rewrite <- Nat.add_assoc. eapply expands_label; [rewrite Hb; by apply list_lookup_middle| |done| |].
  - apply b2n_n2b. unfold valid_label in Hl. lia.
  - rewrite Hb, (drop_app_ge pre) by lia. replace (S (length pre) - length pre) with 1 by lia. simpl.
    by rewrite drop_0, take_app_length.
  - apply IH. by replace (S (length pre + length l) + length (enc_labels C)) with
      (length pre + (S (length l) + length (enc_labels C))) by lia.
Qed.

(** ** The list of names and the message *)

(** An item with its name as labels and the number of labels that were written
    out before a pointer. *)
Record entry := Entry { pos : nat; name : list (list byte); plain : nat }.

Definition compel (e : entry) : compel_t := Compel (pos e) (wire (name e)).

(** The offset behind the labels written out. *)
Definition plain_end (e : entry) : nat := pos e + length (enc_labels (take (plain e) (name e))).

(** Each written label begins an expansion of the rest of the name in the
    message, with fewer pointers than labels; if the name was compressed, an
    earlier item has the suffix that was replaced; and items lie one behind the
    other. *)
Definition entry_ok (msg : list byte) (earlier : list entry) (e : entry) : Prop :=
  valid_name (name e) /\ plain e <= length (name e) /\ plain_end e <= length msg /\
  (forall p, p < plain e -> exists h n ls,
     expands msg (pos e + length (enc_labels (take p (name e)))) h n ls /\
     fold ls = fold (drop p (name e)) /\ h <= length (name e) - p) /\
  (plain e < length (name e) -> exists e', e' ∈ earlier /\
     length (name e) - plain e <= common (name e) (name e')) /\
  (forall e', e' ∈ earlier -> plain_end e' <= pos e).

Definition table_ok (msg : list byte) (es : list entry) : Prop :=
  forall k e, es !! k = Some e -> entry_ok msg (take k es) e.

Lemma table_ok_app msg x es : table_ok msg es -> table_ok (msg ++ x) es.
Proof.
  intros Ht k e He. destruct (Ht k e He) as (?&?&?&Hp&?&?). unfold entry_ok. rewrite length_app.
  split_and!; [done|done|lia| |done|done]. intros p Hlt. destruct (Hp p Hlt) as (h&n&ls&?&?&?).
  exists h, n, ls. split_and!; [by apply expands_app|done..].
Qed.

Lemma table_ok_snoc msg es e : table_ok msg es -> entry_ok msg es e -> table_ok msg (es ++ [e]).
Proof.
  intros Ht He k e' Hk. apply lookup_app_Some in Hk as [Hk|[Hge Hk]].
  - rewrite take_app_le by (apply lookup_lt_Some in Hk; lia). by apply Ht.
  - apply list_lookup_singleton_Some in Hk as [Hk <-]. assert (k = length es) as -> by lia.
    by rewrite take_app_length.
Qed.

(** ** The search *)

Definition pointer_to (A : list (list byte)) (e : entry) : nat :=
  pos e + suffix_offset (common A (name e)) (name e).

Definition far (n : nat) : Prop := (0x3fff < Z.of_nat n)%Z.

(** What the search has found after the items [es]: items with a longer match
    are too far away to be pointed to, and the match is with the first item
    that has it and is near enough. *)
Definition found (A : list (list byte)) (es : list entry) (longest lrem coffs : nat) : Prop :=
  (forall e, e ∈ es -> longest < common A (name e) -> far (pointer_to A e)) /\
  (0 < longest -> exists k e, es !! k = Some e /\ longest = common A (name e) /\
     lrem = suffix_offset longest A /\ coffs = pointer_to A e /\ ~ far coffs /\
     forall e', e' ∈ take k es -> longest <= common A (name e') -> far (pointer_to A e')).

Lemma found_skip A es e longest lrem coffs :
  found A es longest lrem coffs -> (longest < common A (name e) -> far (pointer_to A e)) ->
  found A (es ++ [e]) longest lrem coffs.
Proof.
  intros [H1 H2] He. split.
  - intros e' [?|He'%list_elem_of_singleton]%elem_of_app; subst; auto.
  - intros H0. destruct (H2 H0) as (k&e1&Hk&?&?&?&?&Hf). exists k, e1.
    split_and!; [by apply lookup_app_l_Some|done..|].
    rewrite take_app_le by (apply lookup_lt_Some in Hk; lia). done.
Qed.

Lemma found_take A es e longest lrem coffs :
  found A es longest lrem coffs -> longest < common A (name e) -> ~ far (pointer_to A e) ->
  found A (es ++ [e]) (common A (name e)) (suffix_offset (common A (name e)) A) (pointer_to A e).
Proof.
  intros [H1 _] Hl Hf. split.
  - intros e' [?|He'%list_elem_of_singleton]%elem_of_app ?; subst; [apply H1; [done|lia]|lia].
  - intros _. exists (length es), e. rewrite list_lookup_middle, take_app_length by done.
    split_and!; [done..|]. intros e' ??. apply H1; [done|lia].
Qed.

Lemma find_longest_spec A ra es2 : valid_name A -> Forall (fun e => valid_name (name e)) es2 ->
  forall es1 longest lrem coffs, found A es1 longest lrem coffs ->
  exists l r c, find_longest (wire A ++ ra) (map compel es2) longest lrem coffs = Some (l, r, c) /\
    found A (es1 ++ es2) l r c.
Proof.
  intros HA. induction 1 as [|e es2 He _ IH]; intros es1 longest lrem coffs Hf.
  { exists longest, lrem, coffs. by rewrite app_nil_r. }
  cbn [map find_longest]. change (s (compel e)) with (wire (name e)). change (index (compel e)) with (pos e).
  rewrite domain_match_spec by done. cbn [mbind option_bind]. fold (pointer_to A e).
  assert (Ha : es1 ++ e :: es2 = (es1 ++ [e]) ++ es2) by (by rewrite <- app_assoc). rewrite Ha.
  destruct (Nat.ltb_spec longest (common A (name e))); [destruct (Z.leb_spec (Z.of_nat (pointer_to A e)) 0x3fff)|];
    apply IH.
  - apply (found_take _ _ _ longest lrem coffs); [done..|]. unfold far. lia.
  - by apply found_skip.
  - apply found_skip; [done|]. lia.
Qed.

(** ** Pointers lead to labels that were written out *)

Lemma length_enc_take_mono p q A : p <= q -> length (enc_labels (take p A)) <= length (enc_labels (take q A)).
Proof.
  intros H. replace (take p A) with (take p (take q A)) by (rewrite take_take; f_equal; lia).
  rewrite <- (take_drop p (take q A)) at 2. rewrite enc_labels_app, length_app. lia.
Qed.

Lemma take_elem_lookup {B} (es : list B) i e : e ∈ take i es -> exists j, j < i /\ es !! j = Some e.
Proof.
  intros (j&Hj)%list_elem_of_lookup. apply lookup_take_Some in Hj as [??]. by exists j.
Qed.

Lemma elem_take_le {B} (es : list B) i k e : e ∈ take i es -> i <= k -> e ∈ take k es.
Proof.
  intros He Hk. replace (take i es) with (take i (take k es)) in He by (rewrite take_take; f_equal; lia).
  rewrite <- (take_drop i (take k es)). apply elem_of_app. by left.
Qed.

(** If the chosen suffix began in the compressed part of its item, an earlier
    item would have it in its written part, and the search would have taken
    that one, whose offset is smaller. *)
Lemma chosen_is_plain msg es A k e longest :
  table_ok msg es -> es !! k = Some e -> 0 < longest -> longest = common A (name e) ->
  ~ far (pointer_to A e) ->
  (forall e', e' ∈ take k es -> longest <= common A (name e') -> far (pointer_to A e')) ->
  length (name e) - longest < plain e.
Proof.
  intros Ht Hk H0 Hl Hn Hf.
  enough (Hi : forall i e', i <= k -> es !! i = Some e' -> longest <= common A (name e') ->
    length (name e') - longest < plain e') by (apply (Hi k); [done..|lia]).
  induction i as [i IH] using lt_wf_ind. intros e' Hik He' Hc.
  destruct (decide (length (name e') - longest < plain e')) as [|Hp]; [done|exfalso].
  destruct (Ht i e' He') as (_&_&_&_&Hearlier&_). apply common_suffix in Hc as Hc'. destruct Hc' as (_&_&?).
  destruct Hearlier as (e2&H2&Hc2); [lia|].
  assert (Hc3 : longest <= common A (name e2)) by (apply (common_trans _ (name e')); lia).
  apply (elem_take_le _ _ k) in H2 as H2k; [|done].
  destruct (take_elem_lookup _ _ _ H2) as (j&Hj&Hje).
  specialize (IH j Hj e2 ltac:(lia) Hje Hc3). specialize (Hf e2 H2k Hc3).
  destruct (Ht k e Hk) as (_&_&_&_&_&Hord). specialize (Hord e2 H2k).
  unfold far, pointer_to, plain_end, suffix_offset in *.
  pose proof (length_enc_take_mono (length (name e2) - common A (name e2)) (plain e2) (name e2)). lia.
Qed.

(** ** One name *)

Lemma pointer_high_bits c : (0 <= c <= 0x3fff)%Z -> Z.shiftr (Z.land c 0x3f00) 8 = (c / 256)%Z.
Proof.
  intros Hc. apply Z.bits_inj'. intros n Hn. rewrite Z.shiftr_spec, Z.land_spec by lia.
  change 0x3f00%Z with (Z.shiftl (Z.ones 6) 8). rewrite Z.shiftl_spec by lia.
  change 256%Z with (2 ^ 8)%Z. rewrite <- Z.shiftr_div_pow2, Z.shiftr_spec by lia.
  replace (n + 8 - 8)%Z with n by lia. destruct (Z.ltb_spec n 6).
  - rewrite Z.ones_spec_low by lia. by rewrite andb_true_r.
  - rewrite (Z.ones_spec_high 6 n) by lia. rewrite andb_false_r. symmetry. apply Z.bits_above_log2; [lia|].
    destruct (decide (c = 0)%Z) as [->|]; [simpl; lia|].
    apply Z.log2_lt_pow2; [lia|]. apply Z.lt_le_trans with (2 ^ 14)%Z; [lia|]. apply Z.pow_le_mono_r; lia.
Qed.

Lemma pointer_tag hi : (0 <= hi < 64)%Z -> Z.lor 0xc0 hi = (0xc0 + hi)%Z /\ Z.land (0xc0 + hi) 0x3f = hi.
Proof.
  intros Hh.
  assert (H : Forall (fun hi => Z.lor 0xc0 hi = (0xc0 + hi)%Z /\ Z.land (0xc0 + hi) 0x3f = hi) (seqZ 0 64))
    by (by apply (bool_decide_unpack _)).
  rewrite Forall_forall in H. apply H. apply elem_of_seqZ. lia.
Qed.

Lemma pointer_bytes_offset c : ~ far c ->
  exists b b', pointer_bytes c = [b; b'] /\ 0xc0 <= b2n b /\ pointer_offset (b2n b) b' = c.
Proof.
  unfold far. intros Hc. do 2 eexists. split; [done|].
  pose proof (Z.div_pos (Z.of_nat c) 256). pose proof (Z.div_lt_upper_bound (Z.of_nat c) 256 64).
  rewrite pointer_high_bits by lia.
  destruct (pointer_tag (Z.of_nat c / 256)) as (->&Ht); [lia|].
  assert (Hb : Z.of_nat (b2n (z2b (0xc0 + Z.of_nat c / 256))) = (0xc0 + Z.of_nat c / 256)%Z)
    by (rewrite b2n_b2z, b2z_z2b; apply u8_id; lia).
  split; [lia|]. unfold pointer_offset. rewrite Hb, Ht.
  change 0xff%Z with (Z.ones 8). rewrite Z.land_ones by lia.
  pose proof (Z.mod_pos_bound (Z.of_nat c) 256). change (2 ^ 8)%Z with 256%Z.
  rewrite b2z_z2b, u8_id by lia. rewrite lor_shift8 by lia.
  pose proof (Z.div_mod (Z.of_nat c) 256). lia.
Qed.

(** If the first [u] labels of a name are written out and what follows them
    expands to the rest of it, the same holds at each of these labels. *)
Lemma written_expands msg A u tail h n ls :
  Forall valid_label A ->
  let M := msg ++ enc_labels (take u A) ++ tail in
  expands M (length msg + length (enc_labels (take u A))) h n ls -> fold ls = fold (drop u A) ->
  forall p, p <= u -> exists ls',
    expands M (length msg + length (enc_labels (take p A))) h (length (enc_labels (drop p (take u A))) + n) ls' /\
    fold ls' = fold (drop p A).
Proof.
  intros HA M He Hf p Hp. exists (drop p (take u A) ++ ls).
  assert (Hs : enc_labels (take u A) = enc_labels (take p A) ++ enc_labels (drop p (take u A))).
  { rewrite <- enc_labels_app. f_equal. rewrite <- (take_drop p (take u A)) at 1. f_equal.
    rewrite take_take. f_equal. lia. }
  split.
  - subst M. rewrite Hs in *. rewrite <- app_assoc, (app_assoc msg), <- length_app in *.
    apply expands_labels; [by apply Forall_drop, Forall_take|].
    rewrite length_app, <- app_assoc in He. rewrite !length_app in *. by rewrite <- app_assoc, <- Nat.add_assoc.
  - unfold fold in *. rewrite map_app, Hf, <- map_app. f_equal.
    rewrite <- (take_drop u A) at 3. rewrite drop_app. f_equal.
    rewrite length_take. destruct (decide (u <= length A)).
    + replace (p - u `min` length A) with 0 by lia. done.
    + by rewrite !(drop_ge A u), drop_nil by lia.
Qed.

(** The message after a name, and the list with or without a new item. *)
Lemma written_ok msg es A u tail h ls :
  table_ok msg es -> valid_name A -> u <= length A ->
  let M := msg ++ enc_labels (take u A) ++ tail in
  expands M (length msg + length (enc_labels (take u A))) h (length tail) ls -> fold ls = fold (drop u A) ->
  h <= S (length A - u) -> (u = length A -> h = 0) ->
  (u < length A -> exists e', e' ∈ es /\ length A - u <= common A (name e')) ->
  table_ok M (es ++ [Entry (length msg) A u]) /\
  exists ls', fold ls' = fold A /\ name_at M (length msg) (length (enc_labels (take u A) ++ tail)) ls'.
Proof.
  intros Ht HA Hu M He Hf Hh H0 Hc.
  pose proof (written_expands msg A u tail h (length tail) ls (proj1 HA) He Hf) as Hw. split.
  - apply table_ok_snoc; [by apply table_ok_app|].
    split_and!; simpl; [done|done| | |done|].
    + unfold plain_end. simpl. subst M. rewrite !length_app. lia.
    + intros p Hp. destruct (Hw p) as (ls'&?&?); [lia|]. exists h. do 2 eexists. split_and!; [done..|].
      destruct (decide (u = length A)) as [E|E]; [rewrite (H0 E)|]; lia.
    + intros e' (k&Hk)%list_elem_of_lookup. by destruct (Ht k e' Hk) as (_&_&?&_).
  - destruct (Hw 0) as (ls'&He'&Hf'); [lia|]. rewrite drop_0 in *. exists ls'. split; [done|].
    exists h. rewrite length_app. split_and!.
    + by rewrite Nat.add_0_r in He'.
    + pose proof (valid_name_count A HA). lia.
    + rewrite length_wire, (length_enc_fold _ _ Hf'), <- length_wire. apply HA.
Qed.

(** Items that the search passes by: names without labels, and names that are too
    far away to be pointed to. [covers cb es] says that [cb] has the items of [es]
    and such ones between them. *)
Definition inert (c : compel_t) : Prop := exists B, valid_name B /\ s c = wire B /\ (B = [] \/ far (index c)).

Inductive covers : list compel_t -> list entry -> Prop :=
  | covers_nil : covers [] []
  | covers_keep e cb es : covers cb es -> covers (compel e :: cb) (e :: es)
  | covers_skip c cb es : inert c -> covers cb es -> covers (c :: cb) es.

Lemma covers_all es : covers (map compel es) es.
Proof. induction es; by constructor. Qed.

Lemma covers_app cb es cb' es' : covers cb es -> covers cb' es' -> covers (cb ++ cb') (es ++ es').
Proof. induction 1; intros; [done|..]; cbn; constructor; auto. Qed.

Lemma common_nil A : common A [] = 0.
Proof. unfold common. cbn. by destruct (rev (fold A)). Qed.

Lemma far_mono n m : far n -> n <= m -> far m.
Proof. unfold far. lia. Qed.

Lemma find_longest_covers A ra cb es : covers cb es -> valid_name A -> Forall (fun e => valid_name (name e)) es ->
  forall l r c, find_longest (wire A ++ ra) cb l r c = find_longest (wire A ++ ra) (map compel es) l r c.
Proof.
  intros Hc HA. induction Hc as [|e cb es _ IH|[i w] cb es (B & HB & Hw & Hi) _ IH]; intros He l r c; [done|..].
  - apply Forall_cons in He as [He Hes]. cbn [map find_longest]. unfold compel; cbn [s index].
    rewrite domain_match_spec by done. cbn [mbind option_bind]. by rewrite !IH.
  - cbn [s index] in Hw, Hi. subst w. cbn [find_longest s index]. rewrite domain_match_spec by done. cbn [mbind option_bind].
    destruct (Nat.ltb_spec l (common A B)) as [Hl|]; [|by rewrite IH].
    destruct Hi as [->|Hf]; [rewrite common_nil in Hl; lia|].
    rewrite (proj2 (Z.leb_gt _ _)); [by rewrite IH|]. apply (far_mono _ (i + suffix_offset (common A B) B)) in Hf; [exact Hf|lia].
Qed.

(** The search finds nothing, or an offset whose expansion is the suffix; what
    matches better is too far away. *)
Lemma find_longest_expands es A ra :
  Forall (fun e => valid_name (name e)) es -> valid_name A ->
  exists l r c, find_longest (wire A ++ ra) (map compel es) 0 0 0 = Some (l, r, c) /\
  (forall e, e ∈ es -> l < common A (name e) -> far (pointer_to A e)) /\
  (l = 0 \/ exists e, 0 < l <= length A /\ l = common A (name e) /\ e ∈ es /\ r = suffix_offset l A /\ ~ far c /\ c = pointer_to A e /\
     forall msg, table_ok msg es -> exists h n ls, expands msg c h n ls /\ fold ls = fold (drop (length A - l) A) /\ h <= l).
Proof.
  intros Hes HA.
  destruct (find_longest_spec A ra es) with (es1 := @nil entry) (longest := 0) (lrem := 0) (coffs := 0)
    as (l&r&c&->&[Hm Hl]); [done|done|split; [by intros ? ?%not_elem_of_nil|lia]|].
  exists l, r, c. split; [done|]. split; [done|]. destruct (decide (l = 0)) as [|Hl0]; [by left|right].
  destruct (Hl ltac:(lia)) as (k&e&Hk&->&->&->&Hn&Hf). clear Hl. cbn [app] in *.
  assert (Hl : 0 < common A (name e)) by lia.
  destruct (common_suffix A (name e) _ (Nat.le_refl _)) as (Hs&Hla&Hle).
  exists e. split_and!; [lia..|done|by eapply list_elem_of_lookup_2|done|done|done|]. intros msg Ht.
  pose proof (chosen_is_plain msg es A k e _ Ht Hk Hl eq_refl Hn Hf) as Hp.
  destruct (Ht k e Hk) as (_&_&_&Hx&_). destruct (Hx _ Hp) as (h&n&ls&Hex&Hfl&Hh).
  exists h, n, ls. split_and!; [done| |lia]. rewrite Hfl. symmetry. by apply suffix_fold_drop.
Qed.

(** A compressed name: what is written, and that it is written in the space of
    the name. *)
Lemma suffix_split l A ra : valid_name A -> 0 < l <= length A ->
  take (suffix_offset l A) (wire A ++ ra) = enc_labels (take (length A - l) A) /\
  suffix_offset l A + 3 <= length (wire A) /\ (suffix_offset l A = 0 <-> length A - l = 0).
Proof.
  intros [HA _] Hl. unfold suffix_offset. set (u := length A - l).
  pose proof (length_enc_labels_ge (drop u A) ltac:(by apply Forall_drop)).
  pose proof (length_enc_labels_ge (take u A) ltac:(by apply Forall_take)).
  rewrite length_drop, length_take in *. split_and!.
  - rewrite <- (take_drop u A) at 2. rewrite wire_app, <- app_assoc. apply take_app_length.
  - rewrite <- (take_drop u A) at 2. rewrite wire_app, length_app, length_wire. lia.
  - split; [lia|]. intros ->. done.
Qed.

(** What [compress_name] does at offset [n]: the last [l] labels are found. If they
    are the whole name, the list stays as it is. *)
Lemma compress_name_run cb es A ra n grow :
  covers cb es -> Forall (fun e => valid_name (name e)) es -> valid_name A ->
  exists l out, l <= length A /\ (forall e, e ∈ es -> l < common A (name e) -> far (pointer_to A e)) /\
    0 < length out <= length (wire A) /\
    let e := Entry n A (length A - l) in
    let whole := (0 <? l) && (l =? length A) in
    compress_name grow (wire A ++ ra) n cb =
      Some (if whole then (length out, out, cb) else if (grow : bool) then (length out, out, cb ++ [compel e]) else (0, out, [])) /\
    (whole = true -> exists e', e' ∈ es /\ length A <= common A (name e') /\ ~ far (pointer_to A e')) /\
    forall msg, length msg = n -> table_ok msg es ->
      table_ok (msg ++ out) (if whole then es else es ++ [e]) /\
      exists ls, fold ls = fold A /\ name_at (msg ++ out) n (length out) ls.
Proof.
  intros Hcov Hes HA. unfold compress_name. rewrite rhnlen_wire by apply HA. cbn [mbind option_bind].
  rewrite (proj2 (Nat.ltb_ge _ _)), (find_longest_covers A ra cb es) by (done || apply HA).
  destruct (find_longest_expands es A ra Hes HA) as (l&r&c&->&Hm&Hl). cbn [mbind option_bind].
  rewrite take_app_length. destruct Hl as [->|(e&Hl&Hc&He&->&Hn&Hpc&Hx)].
  - exists 0, (wire A). rewrite Nat.sub_0_r. split; [lia|]. split; [done|]. split; [rewrite length_wire; lia|].
    split; [by destruct grow|]. split; [done|]. intros msg <- Ht. cbn [Nat.ltb Nat.leb andb].
    destruct (written_ok msg es A (length A) [x00] 0 []) as (Ht'&Hname); [done..| |by rewrite drop_all|lia|done|lia|].
    + apply expands_root. rewrite firstn_all, app_assoc, <- length_app. by apply list_lookup_middle.
    + by rewrite firstn_all in *.
  - destruct (suffix_split l A ra HA Hl) as (->&Hlen&H0). destruct (pointer_bytes_offset _ Hn) as (b&b'&Hb&Hb1&Hb2).
    assert (Hol : length (enc_labels (take (length A - l) A) ++ pointer_bytes c) = suffix_offset l A + 2)
      by (rewrite length_app; unfold suffix_offset in *; rewrite Hb; simpl; lia).
    exists l, (enc_labels (take (length A - l) A) ++ pointer_bytes c). rewrite Hol.
    rewrite (proj2 (Nat.ltb_lt 0 l)), (proj2 (Nat.ltb_ge _ _)) by lia. cbn [mbind option_bind andb].
    split; [lia|]. split; [done|]. split; [lia|]. split_and!.
    + rewrite Hol. destruct (Nat.eqb_spec l (length A)) as [E|E], (Nat.eqb_spec (suffix_offset l A) 0) as [E'|E']; cbn [negb];
        [done|exfalso; apply E', H0; lia|apply H0 in E'; lia|by destruct grow].
    + intros <-%Nat.eqb_eq. exists e. by rewrite <- Hc, <- Hpc.
    + intros msg <- Ht. destruct (Hx msg Ht) as (h&m&ls&Hex&Hf&Hh).
      destruct (written_ok msg es A (length A - l) (pointer_bytes c) (S h) ls) as (Ht'&Hname);
        [done|done|lia| |done|lia|lia|intros _; exists e; split; [done|lia]|].
      { rewrite Hb, app_assoc, <- length_app. apply (expands_pointer _ _ b b' h m); [by apply list_lookup_middle|done| |].
        - rewrite lookup_app_r, Nat.sub_succ_l, Nat.sub_diag by lia. done.
        - rewrite Hb2, <- app_assoc. by apply expands_app. }
      rewrite Hol in Hname. split; [|done]. destruct (Nat.eqb_spec l (length A)); [by apply table_ok_app|done].
Qed.

Lemma table_ok_valid msg es : table_ok msg es -> Forall (fun e => valid_name (name e)) es.
Proof. intros Ht. apply Forall_forall. intros e (k&Hk)%list_elem_of_lookup. by destruct (Ht k e Hk). Qed.

Lemma compress_name_spec msg es A ra :
  table_ok msg es -> valid_name A ->
  exists out es', compress_name true (wire A ++ ra) (length msg) (map compel es) = Some (length out, out, map compel es') /\
    table_ok (msg ++ out) es' /\ length out <= length (wire A) /\
    exists ls, fold ls = fold A /\ name_at (msg ++ out) (length msg) (length out) ls.
Proof.
  intros Ht HA.
  destruct (compress_name_run (map compel es) es A ra (length msg) true (covers_all es) (table_ok_valid _ _ Ht) HA)
    as (l&out&_&_&Hlen&Hc&_&Hm). destruct (Hm msg eq_refl Ht) as (Ht'&ls&Hf&Hn). exists out. rewrite Hc.
  destruct (_ && _) in *; [exists es|eexists (es ++ [_]); rewrite map_app]; (split_and!; [done|done|lia|by exists ls]).
Qed.

(** ** A whole answer *)

(** The parts of an answer in the order they are written: names, and bytes of
    headers and data between them. *)
Inductive item := Raw (bs : list byte) | Name (A : list (list byte)).

(** The message and, for each name, its offset, its length there and itself. *)
Fixpoint build (items : list item) (msg : list byte) (cb : list compel_t)
    : option (list byte * list (nat * nat * list (list byte))) :=
  match items with
  | [] => Some (msg, [])
  | Raw bs :: items' => build items' (msg ++ bs) cb
  | Name A :: items' =>
      '(rl, out, cb) ← compress_name true (wire A) (length msg) cb;
      '(m, placed) ← build items' (msg ++ out) cb;
      Some (m, (length msg, rl, A) :: placed)
  end.

Definition item_ok (i : item) : Prop := match i with Raw _ => True | Name A => valid_name A end.

Definition names (items : list item) : list (list (list byte)) :=
  omap (fun i => match i with Raw _ => None | Name A => Some A end) items.

Lemma name_at_app msg x p n ls : name_at msg p n ls -> name_at (msg ++ x) p n ls.
Proof. intros (h&?&?&?). exists h. split_and!; [by apply expands_app|done..]. Qed.

Lemma build_spec items : Forall item_ok items -> forall msg es, table_ok msg es ->
  exists x placed, build items msg (map compel es) = Some (msg ++ x, placed) /\ map snd placed = names items /\
    Forall (fun '(p, n, A) => n <= length (wire A) /\ valid_name A /\
              exists ls, fold ls = fold A /\ name_at (msg ++ x) p n ls) placed.
Proof.
  induction 1 as [|i items Hi _ IH]; intros msg es Ht.
  { exists [], []. by rewrite app_nil_r. }
  destruct i as [bs|A]; cbn [build].
  - destruct (IH (msg ++ bs) es) as (x&placed&->&?&?); [by apply table_ok_app|].
    exists (bs ++ x), placed. by rewrite app_assoc.
  - destruct (compress_name_spec msg es A [] Ht Hi) as (out&es'&Hc&Ht'&?&ls&Hf&Hn).
    rewrite app_nil_r in Hc. rewrite Hc. cbn [mbind option_bind].
    destruct (IH (msg ++ out) es' Ht') as (x&placed&->&Hm&Hp). cbn [mbind option_bind].
    rewrite <- app_assoc in *. eexists _, _. split; [done|]. split; [cbn [map snd]; by rewrite Hm|].
    constructor; [|done]. split_and!; [done..|]. exists ls. split; [done|].
    rewrite app_assoc. by apply name_at_app.
Qed.

(** Compression loses nothing. For any sequence of names and other bytes
    written behind a header, [compress_name] succeeds on every name, never takes
    more room than the name itself, and in the finished message
    [decompress_name] gives back each name, equal to the one written up to
    case, and moves exactly behind the bytes written for it. In particular no
    pointer leads into a part that was itself compressed away, none exceeds
    the 14 bits it has, and the limit on hops is never reached. *)
Theorem compress_roundtrip items start :
  Forall item_ok items ->
  exists msg placed, build items start [] = Some (msg, placed) /\ map snd placed = names items /\
  Forall (fun '(p, n, A) =>
    n <= length (wire A) /\
    forall sz tgt, n <= sz -> DNSNAMEBUFSIZE <= length tgt -> exists ls, fold ls = fold A /\
      decompress_name msg p sz tgt =
        Some (NameOk (p + n) (sz - n) (wire ls ++ drop (length (wire A)) tgt) (length (wire A)))) placed.
Proof.
  intros Hi. destruct (build_spec items Hi start []) as (x&placed&Hb&Hm&Hp); [by intros ??|].
  exists (start ++ x), placed. split_and!; [done..|].
  eapply Forall_impl; [exact Hp|]. intros ((p&n)&A) (?&_&ls&Hf&Hn). split; [done|].
  intros sz tgt Hz Ht. exists ls. split; [done|].
  rewrite (decompress_name_ok _ _ n ls) by done.
  by rewrite !length_wire, (length_enc_fold _ _ Hf).
Qed.

(** "www.Ex.org.", "mail.ex.ORG." and "ex.org." behind a 12 byte header. *)
Definition ex_items : list item :=
  let l := map n2b in
  [Name [l [119; 119; 119]; l [69; 120]; l [111; 114; 103]]; Raw (l [0; 1; 0; 1]);
   Name [l [109; 97; 105; 108]; l [101; 120]; l [79; 82; 71]]; Name [l [101; 120]; l [111; 114; 103]]].

Lemma compress_roundtrip_witness :
  map (fun '(p, n, _) => (p, n)) (from_option snd [] (build ex_items (repeat x00 12) [])) = [(12, 12); (28, 7); (35, 2)] /\
  exists msg placed, build ex_items (repeat x00 12) [] = Some (msg, placed) /\ map snd placed = names ex_items /\
  Forall (fun '(p, n, A) =>
    n <= length (wire A) /\
    forall sz tgt, n <= sz -> DNSNAMEBUFSIZE <= length tgt -> exists ls, fold ls = fold A /\
      decompress_name msg p sz tgt =
        Some (NameOk (p + n) (sz - n) (wire ls ++ drop (length (wire A)) tgt) (length (wire A)))) placed.
Proof.
  split; [by vm_compute|]. apply (compress_roundtrip ex_items (repeat x00 12)).
  repeat constructor; unfold valid_label; vm_compute; lia.
Defined.
