(* ===== verification/PdnsdNameStr.v ===== *)
(** * Domain names as text in the DNS daemon

    [pdnsd/src/helpers.c]: [str2rhn], [parsestr2rhn], [rhn2str], [rhncpy],
    [isnormalencdomname]. Text is memory that is read byte by byte up to a zero
    byte or a given length; names in transport form are written to a buffer of
    [DNSNAMEBUFSIZE] bytes. As in [PdnsdNames], [None] is an access outside the
    memory, which the theorems exclude. *)

From S2P Require Import Prelude.
From S2P Require Import PdnsdNames.
From S2P Require Import PdnsdCompress.

Open Scope nat_scope.

Definition dot : byte := n2b 46.

(** ** From text to transport form *)

(** [j < len && str[j]]: the byte at [j], or [Some None] at the end of the text.
    Without a length only the zero byte ends it. *)
Definition peek (len : option nat) (str : list byte) (j : nat) : option (option byte) :=
  if match len with Some n => n <=? j | None => false end then Some None else
  b ← str !! j;
  Some (if b2n b =? 0 then None else Some b).

Inductive scan_result := Scanned (j : nat) (rhn : list byte) | TooLong (rhn : list byte).

(** The inner [for]: copies a label behind the place of its length byte. *)
Fixpoint scan (fuel : nat) (len : option nat) (str rhn : list byte) (j jlim : nat) : option scan_result :=
  match fuel with
  | O => None
  | S fuel' =>
      c ← peek len str j;
      match c with
      | None => Some (Scanned j rhn)
      | Some b =>
          if decide (b = dot) then Some (Scanned j rhn) else
          if jlim <=? j then Some (TooLong rhn) else
          rhn ← store (j + 1) b rhn;
          scan fuel' len str rhn (S j) jlim
      end
  end.

Definition jlimit (i : nat) : nat := Nat.min (i + 63) (DNSNAMEBUFSIZE - 2).

(** A label is at most 255 bytes away from the start. *)
Definition scan_fuel : nat := 257.

(** The outer [for] of [str2rhn] and what follows it. *)
Fixpoint str2rhn_loop (fuel : nat) (str rhn : list byte) (i : nat) : option (bool * list byte) :=
  match fuel with
  | O => None
  | S fuel' =>
      r ← scan scan_fuel None str rhn i (jlimit i);
      match r with
      | TooLong rhn => Some (false, rhn)
      | Scanned j rhn =>
          c ← peek None str j;
          match c with
          | None =>
              rhn ← store i x00 rhn;
              Some (negb ((i <? j) || (i =? 0)), rhn)
          | Some _ =>
              if j <=? i then Some (false, rhn) else
              rhn ← store i (n2b (j - i)) rhn;
              str2rhn_loop fuel' str rhn (j + 1)
          end
      end
  end.

Definition str2rhn (str rhn : list byte) : option (bool * list byte) :=
  c ← str !! 0;
  c' ← (if decide (c = dot) then str !! 1 else Some c);
  if decide (c = dot /\ c' = x00) then
    rhn ← store 0 x00 rhn; Some (true, rhn)
  else str2rhn_loop DNSNAMEBUFSIZE str rhn 0.

(** The messages of [parsestr2rhn]; [None] stands for the null pointer it
    returns on success. *)
Inductive parse_error :=
  | Domain_name_element_too_long
  | Empty_name_element
  | Empty_domain_name.

Fixpoint parsestr2rhn_loop (fuel : nat) (str : list byte) (len : nat) (rhn : list byte) (i : nat)
    : option (option parse_error * list byte) :=
  match fuel with
  | O => None
  | S fuel' =>
      let finish i rhn :=
        rhn ← store i x00 rhn;
        Some (if i =? 0 then Some Empty_domain_name else None, rhn) in
      r ← scan scan_fuel (Some len) str rhn i (jlimit i);
      match r with
      | TooLong rhn => Some (Some Domain_name_element_too_long, rhn)
      | Scanned j rhn =>
          c ← peek (Some len) str j;
          if j <=? i then
            match c with
            | Some _ => Some (Some Empty_name_element, rhn)
            | None => finish i rhn
            end
          else
            rhn ← store i (n2b (j - i)) rhn;
            match c with
            | Some _ => parsestr2rhn_loop fuel' str len rhn (j + 1)
            | None => finish (j + 1) rhn
            end
      end
  end.

Definition parsestr2rhn (str : list byte) (len : nat) (rhn : list byte) : option (option parse_error * list byte) :=
  root ← (if len =? 0 then Some false else
          c ← str !! 0;
          if decide (c = dot) then
            if len =? 1 then Some true else c' ← str !! 1; Some (b2n c' =? 0)
          else Some false);
  if (root : bool) then rhn ← store 0 x00 rhn; Some (None, rhn)
  else parsestr2rhn_loop DNSNAMEBUFSIZE str len rhn 0.

(** ** From transport form to text *)

(** [isgraph] of the C locale, and the characters that are escaped. *)
Definition isgraph (c : byte) : bool := (33 <=? b2n c) && (b2n c <=? 126).
Definition backslash : byte := n2b 92.
Definition special (c : byte) : bool :=
  bool_decide (c = dot) || bool_decide (c = backslash) || bool_decide (c = n2b 34).

(** The text of ["\\%03o"]. *)
Definition octal (c : byte) : list byte :=
  [backslash; n2b (48 + b2n c / 64); n2b (48 + b2n c / 8 mod 8); n2b (48 + b2n c mod 8)].

(** [snprintf(&str[j], rem, ...)]: at most [rem] bytes with the zero byte, and
    the length the text needs. *)
Fixpoint store_list (j : nat) (bs buf : list byte) : option (list byte) :=
  match bs with
  | [] => Some buf
  | b :: bs' => buf ← store j b buf; store_list (S j) bs' buf
  end.

Definition snprintf (j rem : nat) (text buf : list byte) : option (list byte) :=
  match rem with
  | O => Some buf
  | S rem' => store_list j (take rem' text ++ [x00]) buf
  end.

(** The overflow exit: the text ends in up to three dots. *)
Definition rhn2str_overflow (str : list byte) (size : nat) : option (list byte) :=
  str ← store (size - 1) x00 str;
  if size - 1 =? 0 then Some str else
  str ← store (size - 2) dot str;
  if size - 2 =? 0 then Some str else
  str ← store (size - 3) dot str;
  if size - 3 =? 0 then Some str else store (size - 4) dot str.

(** One character of a label, for which there is room. *)
Inductive put_result := Put (j : nat) (str : list byte) | Overflow (str : list byte).

Definition put_char (c : byte) (str : list byte) (j size : nat) : option put_result :=
  if isgraph c then
    if special c then
      str ← store j backslash str;
      if size <=? j + 1 + 2 then Some (Overflow str) else
      str ← store (j + 1) c str; Some (Put (j + 2) str)
    else str ← store j c str; Some (Put (j + 1) str)
  else
    let rem := size - 1 - j in
    str ← snprintf j rem (octal c) str;
    if rem <=? length (octal c) then str ← store j dot str; Some (Overflow str)
    else Some (Put (j + length (octal c)) str).

(** The [for] over a label. *)
Fixpoint put_label (rhn : list byte) (i lb : nat) (str : list byte) (j size : nat) : option put_result :=
  match lb with
  | O => Some (Put j str)
  | S lb' =>
      if size <=? j + 2 then Some (Overflow str) else
      c ← rhn !! i;
      r ← put_char c str j size;
      match r with
      | Put j str => put_label rhn (S i) lb' str j size
      | Overflow str => Some (Overflow str)
      end
  end.

Fixpoint rhn2str_loop (fuel : nat) (rhn : list byte) (i lb : nat) (str : list byte) (j size : nat)
    : option (list byte) :=
  match fuel with
  | O => None
  | S fuel' =>
      r ← put_label rhn i lb str j size;
      match r with
      | Overflow str => rhn2str_overflow str size
      | Put j str =>
          str ← store j dot str;
          lb' ← b2n <$> rhn !! (i + lb);
          if lb' =? 0 then store (j + 1) x00 str
          else rhn2str_loop fuel' rhn (S (i + lb)) lb' str (j + 1) size
      end
  end.

(** [None] inside is the null pointer returned for a size of 0. *)
Definition rhn2str (rhn str : list byte) (size : nat) : option (option (list byte)) :=
  if size =? 0 then Some None else
  lb ← b2n <$> rhn !! 0;
  str ←
    (if lb =? 0 then
       if 2 <=? size then str ← store 0 dot str; store 1 x00 str else store 0 x00 str
     else rhn2str_loop (S (length rhn)) rhn 1 lb str 0 size);
  Some (Some str).

(** ** Copy and validation *)

Definition rhncpy (dst src : list byte) : option (nat * list byte) :=
  len ← rhnlen src;
  if DNSNAMEBUFSIZE <? len then None else
  if (len <=? length dst) && (len <=? length src) then Some (len, take len src ++ drop len dst) else None.

Fixpoint isnormalencdomname_loop (fuel : nat) (rhn : list byte) (maxlen i : nat) : option bool :=
  match fuel with
  | O => None
  | S fuel' =>
      if maxlen <=? i then Some false else
      lb ← b2n <$> rhn !! i;
      if lb =? 0 then Some true else
      if 0x3f <? lb then Some false else
      isnormalencdomname_loop fuel' rhn maxlen (S i + lb)
  end.

Definition isnormalencdomname (rhn : list byte) (maxlen : nat) : option bool :=
  let maxlen := Nat.min maxlen DNSNAMEBUFSIZE in
  isnormalencdomname_loop (S maxlen) rhn maxlen 0.

(** ** Text of a name *)

Definition dotted (ls : list (list byte)) : list byte := concat (map (fun l => l ++ [dot]) ls).

Definition text_label (l : list byte) : Prop := valid_label l /\ dot ∉ l.

(** The text [T] is what is read from [str]. *)
Definition reads (len : option nat) (str T : list byte) : Prop :=
  forall j, j <= length T -> peek len str j = Some (T !! j).

Lemma dotted_cons l ls : dotted (l :: ls) = l ++ dot :: dotted ls.
Proof. unfold dotted. simpl. by rewrite <- app_assoc. Qed.

Lemma dotted_app ls ls' : dotted (ls ++ ls') = dotted ls ++ dotted ls'.
Proof. unfold dotted. by rewrite map_app, concat_app. Qed.

Lemma length_dotted ls : length (dotted ls) = length (enc_labels ls).
Proof.
  induction ls as [|l ls IH]; [done|]. rewrite dotted_cons, length_enc_labels_cons, length_app. simpl. lia.
Qed.

(** Text up to the first dot. *)
Definition stops (t : list byte) : Prop := t = [] \/ exists t', t = dot :: t'.

Lemma split_dot T : exists l t, T = l ++ t /\ dot ∉ l /\ stops t.
Proof.
  induction T as [|b T (l&t&->&Hl&Ht)].
  - exists [], []. split_and!; [done|by apply not_elem_of_nil|by left].
  - destruct (decide (b = dot)) as [->|Hb].
    + exists [], (dot :: l ++ t). split_and!; [done|by apply not_elem_of_nil|right; eauto].
    + exists (b :: l), t. split_and!; [done| |done]. apply not_elem_of_cons. split; [congruence|done].
Qed.

Lemma split_dot_unique l l' t t' : l ++ t = l' ++ t' -> dot ∉ l -> dot ∉ l' -> stops t -> stops t' -> l = l' /\ t = t'.
Proof.
  revert l'. induction l as [|b l IH]; intros [|b' l'] H Hl Hl' Ht Ht'; simpl in H; [done| | |].
  - subst t. destruct Ht as [|(?&[= -> _])]; [done|]. by apply not_elem_of_cons in Hl' as [].
  - subst t'. destruct Ht' as [|(?&[= -> _])]; [done|]. by apply not_elem_of_cons in Hl as [].
  - injection H as -> H. apply not_elem_of_cons in Hl as [_ ?], Hl' as [_ ?].
    by destruct (IH l' H) as (->&->).
Qed.

(** ** The parser *)

Lemma scan_spec len str T jlim : reads len str T -> jlim <= DNSNAMEBUFSIZE - 2 -> forall l fuel P t R rest,
  T = P ++ l ++ t -> dot ∉ l -> stops t -> length R = S (length P) ->
  DNSNAMEBUFSIZE <= length (R ++ rest) -> jlim + 1 - length P < fuel ->
  if decide (l = [] \/ length P + length l <= jlim)
  then scan fuel len str (R ++ rest) (length P) jlim = Some (Scanned (length P + length l) (R ++ l ++ drop (length l) rest))
  else exists rhn, scan fuel len str (R ++ rest) (length P) jlim = Some (TooLong rhn).
Proof.
  unfold DNSNAMEBUFSIZE. intros HT Hj. induction l as [|b l IH]; intros [|fuel] P t R rest E Hd Ht HR Hb Hf; try lia.
  - rewrite decide_True by (by left). cbn [scan length app] in *. rewrite HT by (rewrite E, length_app; lia).
    rewrite E, lookup_app_r, Nat.sub_diag by lia. cbn [mbind option_bind].
    destruct Ht as [->|(t'&->)]; cbn [lookup list_lookup]; rewrite Nat.add_0_r, drop_0; [done|].
    by rewrite decide_True.
  - apply not_elem_of_cons in Hd as [Hbd Hd]. cbn [app] in E. cbn [scan]. rewrite HT by (rewrite E, length_app; lia).
    rewrite E, list_lookup_middle by done. cbn [mbind option_bind]. destruct (decide (b = dot)); [congruence|].
    destruct (Nat.leb_spec jlim (length P)).
    { rewrite decide_False; [by eauto|]. simpl. intros [|]; [done|lia]. }
    rewrite length_app in Hb. destruct rest as [|x rest]; [simpl in Hb; lia|].
    rewrite Nat.add_1_r, <- HR, store_at, HR. cbn [mbind option_bind].
    specialize (IH fuel (P ++ [b]) t (R ++ [b]) rest). rewrite !length_app, <- !app_assoc in IH. cbn [length app] in *.
    rewrite !Nat.add_1_r in IH. specialize (IH E Hd Ht ltac:(lia) ltac:(lia) ltac:(lia)).
    replace (length P + S (length l)) with (S (length P) + length l) by lia.
    revert IH. destruct (decide (l = [] \/ S (length P) + length l <= jlim)) as [Hc|Hc]; intros IH.
    + rewrite decide_True; [exact IH|]. right. destruct Hc as [->|]; simpl; lia.
    + rewrite decide_False; [exact IH|]. intros [|]; [done|]. apply Hc. by right.
Qed.

(** One label read: where the scan ends and what the buffer then holds. *)
Lemma scan_label len str T ls l t rest :
  reads len str T -> T = dotted ls ++ l ++ t -> dot ∉ l -> stops t ->
  length (enc_labels ls) <= 255 -> DNSNAMEBUFSIZE <= length (enc_labels ls ++ rest) ->
  let i := length (enc_labels ls) in
  if decide (l = [] \/ length l <= 63 /\ i + length l <= DNSNAMEBUFSIZE - 2)
  then exists x rest', rest = x :: rest' /\
    scan scan_fuel len str (enc_labels ls ++ rest) i (jlimit i) =
    Some (Scanned (i + length l) (enc_labels ls ++ x :: l ++ drop (length l) rest'))
  else exists rhn, scan scan_fuel len str (enc_labels ls ++ rest) i (jlimit i) = Some (TooLong rhn).
Proof.
  unfold DNSNAMEBUFSIZE. intros HT E Hd Ht Hi Hb. set (i := length (enc_labels ls)). rewrite length_app in Hb.
  destruct rest as [|x rest]; [simpl in Hb; lia|].
  pose proof (scan_spec len str T (jlimit i) HT ltac:(unfold jlimit, DNSNAMEBUFSIZE; lia) l scan_fuel (dotted ls) t
    (enc_labels ls ++ [x]) rest E Hd Ht) as Hs.
  rewrite <- !app_assoc, !length_app, length_dotted in Hs. fold i in Hs. cbn [length app] in *.
  unfold jlimit, scan_fuel, DNSNAMEBUFSIZE in *. specialize (Hs ltac:(lia) ltac:(lia) ltac:(lia)).
  destruct (decide (l = [] \/ length l <= 63 /\ i + length l <= 256 - 2)) as [H1|H1].
  - rewrite decide_True in Hs by (destruct H1; [by left|right; lia]). by exists x, rest.
  - rewrite decide_False in Hs by (intros [|]; apply H1; [by left|right; lia]). done.
Qed.

(** The buffer after the length byte of a label. *)
Lemma store_label ls x l rest' :
  store (length (enc_labels ls)) (n2b (length l)) (enc_labels ls ++ x :: l ++ drop (length l) rest') =
  Some (enc_labels (ls ++ [l]) ++ drop (length (enc_labels (ls ++ [l]))) (enc_labels ls ++ x :: rest')).
Proof.
  rewrite store_at, enc_labels_app, length_app. unfold enc_labels at 3. simpl. unfold enc_label.
  rewrite app_nil_r, <- app_assoc. simpl. do 4 f_equal.
  rewrite drop_app_ge by lia. replace (length (enc_labels ls) + S (length l) - length (enc_labels ls)) with (S (length l)) by lia.
  done.
Qed.

Lemma enc_labels_nil_inv ls : length (enc_labels ls) = 0 -> ls = [].
Proof. destruct ls; [done|]. rewrite length_enc_labels_cons. lia. Qed.

Lemma drop_wire_end ls x (rest rhn0 : list byte) :
  drop (length (enc_labels ls)) rhn0 = x :: rest -> drop (S (length (enc_labels ls))) rhn0 = rest.
Proof. intros H. rewrite <- Nat.add_1_r, <- drop_drop, H. done. Qed.

Lemma drop_enc_shift ls l (rhn0 : list byte) :
  drop (length (enc_labels (ls ++ [l]))) rhn0 =
  drop (length (enc_labels (ls ++ [l]))) (enc_labels ls ++ drop (length (enc_labels ls)) rhn0).
Proof.
  rewrite enc_labels_app, length_app, drop_app_ge, drop_drop by lia. f_equal. lia.
Qed.

Lemma text_label_next l T t : l ++ t = T -> stops t -> dot ∉ l -> forall ls', Forall text_label ls' -> T = dotted ls' ->
  (ls' = [] /\ l = [] /\ t = []) \/ (exists ls'', ls' = l :: ls'' /\ t = dot :: dotted ls'' /\ text_label l).
Proof.
  intros E Ht Hl ls' Hls ->. destruct Hls as [|l' ls'' Hl' Hls'].
  - left. by apply app_eq_nil in E as [-> ->].
  - right. rewrite dotted_cons in E. destruct (split_dot_unique l l' t (dot :: dotted ls'')) as (->&->);
      [done..|apply Hl'|done|right; eauto|]. by exists ls''.
Qed.

(** The buffer with the labels [ls] written over its first bytes. *)
Definition filled (ls : list (list byte)) (rhn0 : list byte) : list byte :=
  enc_labels ls ++ drop (length (enc_labels ls)) rhn0.

Lemma length_enc_snoc ls l : length (enc_labels (ls ++ [l])) = length (enc_labels ls) + length l + 1.
Proof. rewrite enc_labels_app, length_app. unfold enc_labels at 2. simpl. rewrite app_nil_r. simpl. lia. Qed.

(** A scan from the end of the labels read so far: the label is too long, or
    it is in the buffer behind a free byte. *)
Lemma scan_filled len str T ls l t rhn0 :
  reads len str T -> T = dotted ls ++ l ++ t -> dot ∉ l -> stops t ->
  length (wire ls) <= DNSNAMEBUFSIZE <= length rhn0 ->
  let i := length (enc_labels ls) in
  let r := scan scan_fuel len str (filled ls rhn0) i (jlimit i) in
  (l = [] /\ r = Some (Scanned i (filled ls rhn0))) \/
  (text_label l /\ length (wire (ls ++ [l])) <= DNSNAMEBUFSIZE /\ exists rhn, r = Some (Scanned (i + length l) rhn) /\
     (exists b, store i b rhn <> None) /\ store i (n2b (length l)) rhn = Some (filled (ls ++ [l]) rhn0)) \/
  (l <> [] /\ ~ (text_label l /\ length (wire (ls ++ [l])) <= DNSNAMEBUFSIZE) /\ exists rhn, r = Some (TooLong rhn)).
Proof.
  intros HT E Hd Ht [Hw Hr]. cbv zeta. rewrite !length_wire, length_enc_snoc in *. unfold filled, DNSNAMEBUFSIZE in *.
  pose proof (scan_label len str T ls l t (drop (length (enc_labels ls)) rhn0) HT E Hd Ht ltac:(lia)
    ltac:(rewrite length_app, length_drop; unfold DNSNAMEBUFSIZE; lia)) as Hs. cbv zeta in Hs.
  unfold DNSNAMEBUFSIZE in Hs.
  destruct l as [|b0 l0]; [|set (l := b0 :: l0) in *; assert (Hl : 0 < length l) by (simpl; lia); clearbody l].
  { left. rewrite decide_True in Hs by (by left). destruct Hs as (x&rest'&->&->).
    split; [done|]. cbn [length app]. by rewrite Nat.add_0_r, drop_0. }
  right. destruct (decide (l = [] \/ length l <= 63 /\ length (enc_labels ls) + length l <= 256 - 2)) as [Hc|Hc].
  - left. destruct Hs as (x&rest'&Hx&->). destruct Hc as [->|[??]]; [simpl in Hl; lia|].
    split; [by repeat split|]. split; [lia|]. eexists; split; [done|]. split.
    + exists x00. by rewrite store_at.
    + by rewrite store_label, <- Hx, <- drop_enc_shift.
  - right. split; [by intros ->; simpl in Hl; lia|]. split; [|done]. intros [[[??] _] ?]. apply Hc. right. lia.
Qed.

(** The byte behind the label that was read. *)
Lemma peek_after len str T ls l t :
  reads len str T -> T = dotted ls ++ l ++ t ->
  peek len str (length (enc_labels ls) + length l) = Some (t !! 0).
Proof.
  intros HT E. rewrite HT by (rewrite E, !length_app, length_dotted; lia).
  rewrite E, <- length_dotted, <- length_app, app_assoc, lookup_app_r, Nat.sub_diag by lia. done.
Qed.

Lemma store_end ls rhn0 : length (wire ls) <= length rhn0 ->
  store (length (enc_labels ls)) x00 (filled ls rhn0) = Some (wire ls ++ drop (length (wire ls)) rhn0).
Proof.
  rewrite length_wire. intros Hl. unfold filled, wire.
  destruct (drop (length (enc_labels ls)) rhn0) as [|x rest] eqn:Hx.
  { apply (f_equal length) in Hx. rewrite length_drop in Hx. simpl in Hx. lia. }
  rewrite store_at, <- app_assoc. by rewrite (drop_wire_end _ _ _ _ Hx).
Qed.

Lemma str2rhn_loop_step str T rhn0 ls l t fuel :
  reads None str T -> T = dotted ls ++ l ++ t -> dot ∉ l -> stops t ->
  length (wire ls) <= DNSNAMEBUFSIZE <= length rhn0 ->
  let r := str2rhn_loop (S fuel) str (filled ls rhn0) (length (enc_labels ls)) in
  (text_label l /\ length (wire (ls ++ [l])) <= DNSNAMEBUFSIZE /\ exists t', t = dot :: t' /\
     r = str2rhn_loop fuel str (filled (ls ++ [l]) rhn0) (length (enc_labels (ls ++ [l])))) \/
  (l = [] /\ t = [] /\ ls <> [] /\ r = Some (true, wire ls ++ drop (length (wire ls)) rhn0)) \/
  ((exists rhn, r = Some (false, rhn)) /\ (l = [] -> t = [] -> ls = []) /\
   (text_label l -> length (wire (ls ++ [l])) <= DNSNAMEBUFSIZE -> t = [])).
Proof.
  intros HT E Hd Ht Hw. cbv zeta. cbn [str2rhn_loop].
  pose proof (peek_after None str T ls l t HT E) as Hp.
  destruct (scan_filled None str T ls l t rhn0 HT E Hd Ht Hw) as [(->&->)|[(Hl&Hlw&rhn&->&Hs1&Hs2)|(Hl&Hno&rhn&->)]];
    cbn [mbind option_bind].
  - cbn [length] in Hp. rewrite Nat.add_0_r in Hp. rewrite Hp. cbn [mbind option_bind].
    destruct Ht as [->|(t'&->)]; cbn [lookup list_lookup].
    + rewrite store_end by lia. cbn [mbind option_bind]. rewrite Nat.ltb_irrefl.
      destruct (Nat.eqb_spec (length (enc_labels ls)) 0) as [H0|H0]; cbn [orb negb].
      * apply enc_labels_nil_inv in H0 as ->. right; right. by eauto.
      * right; left. split_and!; [done..|by intros ->|done].
    + rewrite Nat.leb_refl. right; right. split_and!; [by eauto|done|]. intros [[? _] _]. simpl in *. lia.
  - rewrite Hp. cbn [mbind option_bind]. destruct Hl as [[Hl1 Hl2] Hl3].
    destruct Ht as [->|(t'&->)]; cbn [lookup list_lookup].
    + destruct Hs1 as (b&Hb). unfold store in *. case_decide; [|done]. cbn [mbind option_bind].
      rewrite (proj2 (Nat.ltb_lt _ _)) by lia. right; right. split_and!; [by eauto| |done].
      intros ->. simpl in Hl1. lia.
    + rewrite (proj2 (Nat.leb_gt _ _)) by lia.
      replace (length (enc_labels ls) + length l - length (enc_labels ls)) with (length l) by lia.
      rewrite Hs2. cbn [mbind option_bind]. left. split_and!; [by repeat split|done|].
      exists t'. split; [done|]. by rewrite length_enc_snoc.
  - right; right. split_and!; [by eauto|done|]. intros. exfalso. by apply Hno.
Qed.

Lemma dotted_snoc ls l t' : dotted (ls ++ [l]) ++ t' = dotted ls ++ l ++ dot :: t'.
Proof. rewrite dotted_app, <- app_assoc. unfold dotted at 2. simpl. by rewrite app_nil_r, <- app_assoc. Qed.

Lemma length_wire_snoc_le ls l ls' : length (wire (ls ++ [l])) <= length (wire (ls ++ l :: ls')).
Proof. rewrite !length_wire, length_enc_snoc, enc_labels_app, length_app, length_enc_labels_cons. lia. Qed.

Lemma str2rhn_loop_spec str T rhn0 : reads None str T -> DNSNAMEBUFSIZE <= length rhn0 -> forall fuel ls T',
  T = dotted ls ++ T' -> length (wire ls) <= DNSNAMEBUFSIZE -> 255 - length (enc_labels ls) < fuel ->
  exists ok rhn', str2rhn_loop fuel str (filled ls rhn0) (length (enc_labels ls)) = Some (ok, rhn') /\
  if ok : bool then exists ls', T' = dotted ls' /\ Forall text_label ls' /\ ls ++ ls' <> [] /\
      length (wire (ls ++ ls')) <= DNSNAMEBUFSIZE /\ rhn' = wire (ls ++ ls') ++ drop (length (wire (ls ++ ls'))) rhn0
  else forall ls', T' = dotted ls' -> Forall text_label ls' -> ls ++ ls' <> [] -> DNSNAMEBUFSIZE < length (wire (ls ++ ls')).
Proof.
  intros HT Hr. induction fuel as [|fuel IH]; intros ls T' E Hw Hf; [lia|].
  destruct (split_dot T') as (l&t&->&Hd&Ht). pose proof (text_label_next l _ t eq_refl Ht Hd) as Hnext.
  destruct (str2rhn_loop_step str T rhn0 ls l t fuel HT E Hd Ht ltac:(lia))
    as [(Hl&Hlw&t'&->&->)|[(->&->&Hne&->)|((rhn&->)&H1&H2)]].
  - destruct (IH (ls ++ [l]) t') as (ok&rhn'&->&Hok); [by rewrite dotted_snoc|done| |].
    { rewrite length_wire, length_enc_snoc in Hlw. rewrite length_enc_snoc. unfold DNSNAMEBUFSIZE in *. lia. }
    do 2 eexists. split; [done|]. destruct ok.
    + destruct Hok as (ls'&->&?&?&?&->). exists (l :: ls'). rewrite <- app_assoc in *. cbn [app] in *.
      split_and!; [by rewrite dotted_cons|by constructor|done..].
    + intros ls' El Hls' Hne. destruct (Hnext ls' Hls' El) as [(_&_&?)|(ls''&->&[= ->]&_)]; [done|].
      specialize (Hok ls''). rewrite <- app_assoc in Hok. apply Hok; [done|by apply Forall_cons in Hls' as []|exact Hne].
  - do 2 eexists. split; [done|]. exists []. rewrite (app_nil_r ls). split_and!; [done|by apply Forall_nil|done..].
  - do 2 eexists. split; [done|]. intros ls' El Hls' Hne.
    destruct (Hnext ls' Hls' El) as [(->&->&->)|(ls''&->&->&Hl)]; [by rewrite H1, app_nil_r in Hne|].
    destruct (decide (length (wire (ls ++ [l])) <= DNSNAMEBUFSIZE)) as [Hle|Hgt]; [by specialize (H2 Hl Hle)|].
    pose proof (length_wire_snoc_le ls l ls''). lia.
Qed.

Lemma parsestr2rhn_loop_step str len T rhn0 ls l t fuel :
  reads (Some len) str T -> T = dotted ls ++ l ++ t -> dot ∉ l -> stops t ->
  length (wire ls) <= DNSNAMEBUFSIZE <= length rhn0 ->
  let r := parsestr2rhn_loop (S fuel) str len (filled ls rhn0) (length (enc_labels ls)) in
  let fits := text_label l /\ length (wire (ls ++ [l])) <= DNSNAMEBUFSIZE in
  let named ls := Some (None, wire ls ++ drop (length (wire ls)) rhn0) in
  (fits /\ exists t', t = dot :: t' /\
     r = parsestr2rhn_loop fuel str len (filled (ls ++ [l]) rhn0) (length (enc_labels (ls ++ [l])))) \/
  (fits /\ t = [] /\ r = named (ls ++ [l])) \/
  (l = [] /\ t = [] /\ ls <> [] /\ r = named ls) \/
  ((exists e rhn, r = Some (Some e, rhn)) /\ (l = [] -> t = [] -> ls = []) /\ ~ fits).
Proof.
  intros HT E Hd Ht Hw. cbv zeta. cbn [parsestr2rhn_loop].
  pose proof (peek_after (Some len) str T ls l t HT E) as Hp.
  destruct (scan_filled (Some len) str T ls l t rhn0 HT E Hd Ht Hw) as [(->&->)|[(Hl&Hlw&rhn&->&_&Hs2)|(Hl&Hno&rhn&->)]];
    cbn [mbind option_bind].
  - cbn [length] in Hp. rewrite Nat.add_0_r in Hp. rewrite Hp. cbn [mbind option_bind]. rewrite Nat.leb_refl.
    destruct Ht as [->|(t'&->)]; cbn [lookup list_lookup].
    + rewrite store_end by lia. cbn [mbind option_bind].
      destruct (Nat.eqb_spec (length (enc_labels ls)) 0) as [H0|H0].
      * apply enc_labels_nil_inv in H0 as ->. right; right; right. split_and!; [by eauto|done|].
        intros [[[? _] _] _]. simpl in *. lia.
      * right; right; left. split_and!; [done..|by intros ->|done].
    + right; right; right. split_and!; [by eauto|done|]. intros [[[? _] _] _]. simpl in *. lia.
  - rewrite Hp. cbn [mbind option_bind]. destruct Hl as [[Hl1 Hl2] Hl3].
    rewrite (proj2 (Nat.leb_gt _ _)) by lia.
    replace (length (enc_labels ls) + length l - length (enc_labels ls)) with (length l) by lia.
    rewrite Hs2. cbn [mbind option_bind]. rewrite <- length_enc_snoc.
    destruct Ht as [->|(t'&->)]; cbn [lookup list_lookup].
    + rewrite store_end by lia. cbn [mbind option_bind].
      rewrite (proj2 (Nat.eqb_neq _ _)) by (rewrite length_enc_snoc; lia).
      right; left. by repeat split.
    + left. split; [by repeat split|]. by exists t'.
  - right; right; right. split_and!; [by eauto|done|done].
Qed.

(** What stands for the names [ls']: text whose last dot may be missing. *)
Definition dotted_opt (T' : list byte) (ls' : list (list byte)) : Prop :=
  T' = dotted ls' \/ T' ++ [dot] = dotted ls'.

Lemma text_label_next_opt l t : stops t -> dot ∉ l -> forall ls', Forall text_label ls' -> dotted_opt (l ++ t) ls' ->
  (ls' = [] /\ l = [] /\ t = []) \/ (ls' = [l] /\ t = [] /\ text_label l) \/
  (exists t' ls'', ls' = l :: ls'' /\ t = dot :: t' /\ dotted_opt t' ls'' /\ text_label l).
Proof.
  intros Ht Hd ls' Hls [E|E].
  - destruct (text_label_next l _ t eq_refl Ht Hd ls' Hls E) as [?|(ls''&->&->&?)]; [by left|].
    right; right. exists (dotted ls''), ls''. split_and!; [done..|by left|done].
  - rewrite <- app_assoc in E.
    destruct (text_label_next l _ (t ++ [dot]) eq_refl ltac:(destruct Ht as [->|(?&->)]; right; eauto) Hd ls' Hls E)
      as [(->&->&H)|(ls''&->&H&?)]; [by destruct t|]. right.
    destruct Ht as [->|(t'&->)].
    + injection H as H. left. split_and!; [|done..]. by destruct ls'' as [|[|? ?] ?]; [|discriminate H..].
    + injection H as H. right. exists t', ls''. split_and!; [done..|by right|done].
Qed.

Lemma parsestr2rhn_loop_spec str len T rhn0 : reads (Some len) str T -> DNSNAMEBUFSIZE <= length rhn0 -> forall fuel ls T',
  T = dotted ls ++ T' -> length (wire ls) <= DNSNAMEBUFSIZE -> 255 - length (enc_labels ls) < fuel ->
  exists e rhn', parsestr2rhn_loop fuel str len (filled ls rhn0) (length (enc_labels ls)) = Some (e, rhn') /\
  match e with
  | None => exists ls', dotted_opt T' ls' /\ Forall text_label ls' /\ ls ++ ls' <> [] /\
      length (wire (ls ++ ls')) <= DNSNAMEBUFSIZE /\ rhn' = wire (ls ++ ls') ++ drop (length (wire (ls ++ ls'))) rhn0
  | Some _ => forall ls', dotted_opt T' ls' -> Forall text_label ls' -> ls ++ ls' <> [] ->
      DNSNAMEBUFSIZE < length (wire (ls ++ ls'))
  end.
Proof.
  intros HT Hr. induction fuel as [|fuel IH]; intros ls T' E Hw Hf; [lia|].
  destruct (split_dot T') as (l&t&->&Hd&Ht). pose proof (text_label_next_opt l t Ht Hd) as Hnext.
  destruct (parsestr2rhn_loop_step str len T rhn0 ls l t fuel HT E Hd Ht ltac:(lia))
    as [([Hl Hlw]&t'&->&->)|[([Hl Hlw]&->&->)|[(->&->&Hne&->)|((e&rhn&->)&H1&H2)]]].
  - destruct (IH (ls ++ [l]) t') as (e&rhn'&->&He); [by rewrite dotted_snoc|done| |].
    { rewrite length_wire, length_enc_snoc in Hlw. rewrite length_enc_snoc. unfold DNSNAMEBUFSIZE in *. lia. }
    do 2 eexists. split; [done|]. destruct e.
    + intros ls' El Hls' Hne. destruct (Hnext ls' Hls' El) as [(_&_&?)|[(_&?&_)|(t1&ls''&->&[= ->]&?&_)]]; [done..|].
      specialize (He ls''). rewrite <- app_assoc in He. apply He; [done|by apply Forall_cons in Hls' as []|exact Hne].
    + destruct He as (ls'&Ho&?&?&?&->). exists (l :: ls'). rewrite <- app_assoc in *. cbn [app] in *.
      split_and!; [|by constructor|done..]. unfold dotted_opt. rewrite dotted_cons.
      destruct Ho as [->|Ho]; [by left|right]. by rewrite <- Ho, <- app_assoc.
  - do 2 eexists. split; [done|]. exists [l]. split_and!; [|by apply Forall_singleton|by destruct ls|done..].
    right. by rewrite app_nil_r, dotted_cons.
  - do 2 eexists. split; [done|]. exists []. rewrite (app_nil_r ls). split_and!; [by left|by apply Forall_nil|done..].
  - do 2 eexists. split; [done|]. intros ls' El Hls' Hne.
    destruct (decide (length (wire (ls ++ [l])) <= DNSNAMEBUFSIZE)) as [Hle|Hgt].
    + destruct (Hnext ls' Hls' El) as [(->&->&->)|[(->&_&?)|(t'&ls''&->&_&_&?)]]; [by rewrite H1, app_nil_r in Hne|..];
        by destruct H2.
    + destruct (Hnext ls' Hls' El) as [(->&->&->)|[(->&_&?)|(t'&ls''&->&_&_&?)]]; [by rewrite H1, app_nil_r in Hne|lia|].
      pose proof (length_wire_snoc_le ls l ls''). lia.
Qed.

(** ** Statements about the parsers *)

(** The text [T] denotes the name [ls]: a single dot the root, otherwise labels
    of 1 to 63 characters, each followed by a dot, 256 bytes in transport
    form. *)
Definition name_text (T : list byte) (ls : list (list byte)) : Prop :=
  (ls = [] /\ T = [dot]) \/
  (ls <> [] /\ T = dotted ls /\ Forall text_label ls /\ length (wire ls) <= DNSNAMEBUFSIZE).

Lemma reads_string T r : x00 ∉ T -> reads None (T ++ x00 :: r) T.
Proof.
  intros H0 j Hj. unfold peek. destruct (T !! j) as [b|] eqn:Hb.
  - rewrite lookup_app_l, Hb by (by eapply lookup_lt_Some). cbn [mbind option_bind].
    destruct (Nat.eqb_spec (b2n b) 0) as [->%b2n_0|]; [|done]. by apply list_elem_of_lookup_2 in Hb.
  - apply lookup_ge_None in Hb. assert (j = length T) as -> by lia. by rewrite list_lookup_middle.
Qed.

Lemma reads_length T r : x00 ∉ T -> reads (Some (length T)) (T ++ r) T.
Proof.
  intros H0 j Hj. unfold peek. destruct (T !! j) as [b|] eqn:Hb.
  - apply lookup_lt_Some in Hb as Hlt. rewrite (proj2 (Nat.leb_gt _ _)), lookup_app_l, Hb by lia. cbn [mbind option_bind].
    destruct (Nat.eqb_spec (b2n b) 0) as [->%b2n_0|]; [|done]. by apply list_elem_of_lookup_2 in Hb.
  - apply lookup_ge_None in Hb. by rewrite (proj2 (Nat.leb_le _ _)).
Qed.

Lemma dotted_not_dot ls : Forall text_label ls -> dotted ls <> [dot].
Proof.
  intros [|l ls' [[Hl _] Hd] _]; [done|]. rewrite dotted_cons. destruct l as [|b l]; [simpl in Hl; lia|].
  intros [= -> _]. apply Hd. by left.
Qed.

Lemma dotted_inj ls : Forall text_label ls -> forall ls', Forall text_label ls' -> dotted ls = dotted ls' -> ls = ls'.
Proof.
  induction 1 as [|l ls [? Hd] Hls IH]; intros ls' Hls' E.
  - destruct ls' as [|l' ls']; [done|]. rewrite dotted_cons in E. by destruct l'.
  - rewrite dotted_cons in E.
    destruct (text_label_next l _ (dot :: dotted ls) E ltac:(right; eauto) Hd ls' Hls' eq_refl) as [(_&_&?)|(ls''&->&[= ?]&_)]; [done|].
    f_equal. apply IH; [by apply Forall_cons in Hls' as []|done].
Qed.

Lemma str2rhn_spec T r rhn : x00 ∉ T -> DNSNAMEBUFSIZE <= length rhn ->
  exists ok rhn', str2rhn (T ++ x00 :: r) rhn = Some (ok, rhn') /\
  if ok : bool then exists ls, name_text T ls /\ rhn' = wire ls ++ drop (length (wire ls)) rhn
  else forall ls, ~ name_text T ls.
Proof.
  intros H0 Hr. destruct (decide (T = [dot])) as [->|HT].
  { unfold str2rhn. cbn [app lookup list_lookup mbind option_bind]. rewrite !decide_True by done.
    cbn [mbind option_bind]. rewrite decide_True by done. destruct rhn as [|x rhn]; [simpl in Hr; unfold DNSNAMEBUFSIZE in Hr; lia|].
    do 2 eexists. split; [done|]. exists []. split; [by left|done]. }
  destruct (str2rhn_loop_spec (T ++ x00 :: r) T rhn (reads_string T r H0) Hr DNSNAMEBUFSIZE [] T)
    as (ok&rhn'&Hrun&Hok); [done|unfold DNSNAMEBUFSIZE; cbn [length]; rewrite ?length_wire; cbn; lia..|].
  exists ok, rhn'. split.
  - change (str2rhn_loop DNSNAMEBUFSIZE (T ++ x00 :: r) rhn 0 = Some (ok, rhn')) in Hrun.
    rewrite <- Hrun. unfold str2rhn. destruct T as [|b [|b' T]]; cbn [app lookup list_lookup mbind option_bind].
    + by rewrite decide_False by naive_solver.
    + destruct (decide (b = dot)) as [->|]; [done|]. cbn [mbind option_bind]. by rewrite decide_False by naive_solver.
    + destruct (decide (b = dot)) as [->|]; cbn [mbind option_bind]; rewrite decide_False; [done| |done|naive_solver].
      intros [_ ->]. apply H0. right. by left.
  - destruct ok.
    + destruct Hok as (ls'&->&?&?&?&->). exists ls'. split; [by right|done].
    + intros ls [(->&->)|(?&->&?&?)]; [done|]. specialize (Hok ls). cbn [app] in Hok.
      specialize (Hok eq_refl ltac:(done) ltac:(done)). lia.
Qed.

Lemma parsestr2rhn_spec T r rhn : x00 ∉ T -> DNSNAMEBUFSIZE <= length rhn ->
  exists e rhn', parsestr2rhn (T ++ r) (length T) rhn = Some (e, rhn') /\
  match e with
  | None => exists ls, (name_text T ls \/ ls <> [] /\ name_text (T ++ [dot]) ls) /\ rhn' = wire ls ++ drop (length (wire ls)) rhn
  | Some _ => forall ls, ~ name_text T ls /\ (ls <> [] -> ~ name_text (T ++ [dot]) ls)
  end.
Proof.
  intros H0 Hr. destruct (decide (T = [dot])) as [->|HT].
  { unfold parsestr2rhn. cbn [app length Nat.eqb lookup list_lookup mbind option_bind]. rewrite decide_True by done.
    cbn [mbind option_bind]. destruct rhn as [|x rhn]; [simpl in Hr; unfold DNSNAMEBUFSIZE in Hr; lia|].
    do 2 eexists. split; [done|]. exists []. split; [left; by left|done]. }
  destruct (parsestr2rhn_loop_spec (T ++ r) (length T) T rhn (reads_length T r H0) Hr DNSNAMEBUFSIZE [] T)
    as (e&rhn'&Hrun&He); [done|unfold DNSNAMEBUFSIZE; cbn [length]; rewrite ?length_wire; cbn; lia..|].
  exists e, rhn'. split.
  - change (parsestr2rhn_loop DNSNAMEBUFSIZE (T ++ r) (length T) rhn 0 = Some (e, rhn')) in Hrun.
    rewrite <- Hrun. unfold parsestr2rhn. destruct T as [|b [|b' T]]; cbn [app length Nat.eqb lookup list_lookup mbind option_bind].
    + done.
    + destruct (decide (b = dot)) as [->|]; [done|]. done.
    + destruct (decide (b = dot)) as [->|]; cbn [mbind option_bind]; [|done].
      rewrite (proj2 (Nat.eqb_neq _ _)); [done|]. intros ->%b2n_0. apply H0. right. by left.
  - destruct e; cbn [app] in He.
    + intros ls. split.
      * intros [(->&->)|(?&->&?&?)]; [done|]. specialize (He ls ltac:(by left) ltac:(done) ltac:(done)). lia.
      * intros Hne [(->&_)|(?&E&?&?)]; [done|]. specialize (He ls ltac:(by right) ltac:(done) ltac:(done)). lia.
    + destruct He as (ls'&[->|E]&?&?&?&->); exists ls'; (split; [|done]).
      * left. by right.
      * right. split; [done|]. by right.
Qed.

(** As [name_text], with or without the last dot. *)
Definition parse_text (T : list byte) (ls : list (list byte)) : Prop :=
  name_text T ls \/ ls <> [] /\ name_text (T ++ [dot]) ls.

Lemma dotted_extra_dot ls : Forall text_label ls -> forall ls', Forall text_label ls' -> dotted ls ++ [dot] <> dotted ls'.
Proof.
  induction 1 as [|l ls [? Hd] Hls IH]; intros ls' Hls' E.
  - by apply (dotted_not_dot ls' Hls').
  - rewrite dotted_cons, <- app_assoc in E.
    destruct (text_label_next l _ (dot :: dotted ls ++ [dot]) E ltac:(right; eauto) Hd ls' Hls' eq_refl)
      as [(_&_&?)|(ls''&->&[= ?]&_)]; [done|]. apply (IH ls''); [by apply Forall_cons in Hls' as []|done].
Qed.

Lemma parse_text_det T ls ls' : parse_text T ls -> parse_text T ls' -> ls = ls'.
Proof.
  assert (H1 : forall T ls ls', name_text T ls -> name_text T ls' -> ls = ls').
  { intros T1 l1 l2 [(->&->)|(?&->&?&?)] [(->&E)|(?&E&?&?)]; [done|by apply symmetry, dotted_not_dot in E|by apply dotted_not_dot in E|].
    by apply dotted_inj. }
  assert (H2 : forall T ls ls', name_text T ls -> ls' <> [] -> name_text (T ++ [dot]) ls' -> False).
  { intros T1 l1 l2 [(->&->)|(?&->&?&?)] Hn [(->&E)|(?&E&Hf&?)]; [done| |done|].
    - destruct Hf as [|[|b l] ? [[Hl _] Hd] _]; [done|simpl in Hl; lia|]. rewrite dotted_cons in E. injection E as <- _.
      apply Hd. by left.
    - by apply dotted_extra_dot in E. }
  intros [?|[??]] [?|[??]]; [by eapply H1|exfalso; by eapply (H2 T)..|by eapply H1].
Qed.

(** The parsers of names accept exactly the names. For any text, however
    long, and whatever follows it in memory, both return and write only the
    256 bytes of the buffer; [str2rhn] succeeds exactly on the root and on
    labels of 1 to 63 characters that each end in a dot, 256 bytes in all, and
    [parsestr2rhn] also where the last dot is missing; the buffer then begins
    with the name in transport form. *)
Theorem text_to_name_exact T r rhn :
  x00 ∉ T -> DNSNAMEBUFSIZE <= length rhn ->
  is_Some (str2rhn (T ++ x00 :: r) rhn) /\ is_Some (parsestr2rhn (T ++ r) (length T) rhn) /\
  (forall rhn', str2rhn (T ++ x00 :: r) rhn = Some (true, rhn') <->
     exists ls, name_text T ls /\ rhn' = wire ls ++ drop (length (wire ls)) rhn) /\
  (forall rhn', parsestr2rhn (T ++ r) (length T) rhn = Some (None, rhn') <->
     exists ls, parse_text T ls /\ rhn' = wire ls ++ drop (length (wire ls)) rhn).
Proof.
  intros H0 Hr. destruct (str2rhn_spec T r rhn H0 Hr) as (ok&rhn1&->&Hok).
  destruct (parsestr2rhn_spec T r rhn H0 Hr) as (e&rhn2&->&He). split_and!; [done..| |].
  - intros rhn'. split.
    + intros [= -> ->]. done.
    + intros (ls&Hls&->). destruct ok; [|by destruct (Hok ls)]. destruct Hok as (ls'&Hls'&->).
      by rewrite (parse_text_det T ls ls') by (by left).
  - intros rhn'. split.
    + intros [= -> ->]. done.
    + intros (ls&Hls&->). destruct e.
      * exfalso. destruct (He ls) as [Ha Hb]. destruct Hls as [|[??]]; [by apply Ha|by apply Hb].
      * destruct He as (ls'&Hls'&->). by rewrite (parse_text_det T ls ls').
Qed.

Lemma text_to_name_exact_witness :
  let T := map n2b [97; 46; 98; 99; 46] in
  parsestr2rhn (T ++ []) 5 (repeat x00 256) =
    Some (None, wire [[n2b 97]; map n2b [98; 99]] ++ drop 6 (repeat x00 256)) /\
  exists ls, parse_text T ls /\ wire [[n2b 97]; map n2b [98; 99]] ++ drop 6 (repeat x00 256) =
    wire ls ++ drop (length (wire ls)) (repeat x00 256).
Proof.
  intros T.
  assert (E : parsestr2rhn (T ++ []) 5 (repeat x00 256) =
    Some (None, wire [[n2b 97]; map n2b [98; 99]] ++ drop 6 (repeat x00 256))) by (by vm_compute).
  split; [exact E|].
  apply (text_to_name_exact T [] (repeat x00 256)); [|by vm_compute; lia|exact E].
  by apply (bool_decide_unpack _); vm_compute.
Defined.

(** ** Printing *)

(** Only the first [size] bytes of a buffer were changed. *)
Definition framed (size : nat) (str str' : list byte) : Prop :=
  length str' = length str /\ drop size str' = drop size str.

#[export] Instance framed_preorder size : PreOrder (framed size).
Proof. split; [done|]. intros a b c [??] [??]. split; congruence. Qed.

Lemma store_framed size i b str : i < size -> size <= length str ->
  exists str', store i b str = Some str' /\ framed size str str' /\ str' !! i = Some b.
Proof.
  intros. unfold store. rewrite decide_True by lia. eexists; split; [done|]. split; [split|].
  - apply length_insert.
  - by rewrite drop_insert_lt by lia.
  - apply list_lookup_insert_eq. lia.
Qed.

Lemma store_list_framed size bs : forall j str, j + length bs <= size -> size <= length str ->
  exists str', store_list j bs str = Some str' /\ framed size str str'.
Proof.
  induction bs as [|b bs IH]; intros j str Hj Hs; cbn [length store_list] in *; [by eexists|].
  destruct (store_framed size j b str) as (str1&->&Hf&_); [lia..|]. cbn [mbind option_bind].
  destruct (IH (S j) str1) as (str2&->&?); [lia|destruct Hf; lia|]. eexists; split; [done|]. by etrans.
Qed.

Lemma put_char_safe c str j size : j + 2 < size -> size <= length str ->
  exists r, put_char c str j size = Some r /\
  match r with Put j' str' => j' + 1 < size /\ framed size str str' | Overflow str' => framed size str str' end.
Proof.
  intros Hj Hs. unfold put_char. destruct (isgraph c); [destruct (special c)|].
  - destruct (store_framed size j backslash str) as (str1&->&Hf&_); [lia..|]. cbn [mbind option_bind].
    destruct (Nat.leb_spec size (j + 1 + 2)); [by eexists|].
    destruct (store_framed size (j + 1) c str1) as (str2&->&Hf2&_); [lia|destruct Hf; lia|]. cbn [mbind option_bind].
    eexists; split; [done|]. split; [lia|]. by etrans.
  - destruct (store_framed size j c str) as (str1&->&Hf&_); [lia..|]. cbn [mbind option_bind].
    eexists; split; [done|]. split; [lia|done].
  - unfold snprintf. destruct (size - 1 - j) as [|rem'] eqn:Hrem; [lia|].
    destruct (store_list_framed size (take rem' (octal c) ++ [x00]) j str) as (str1&->&Hf);
      [rewrite ?length_app, ?length_take; simpl; lia..|]. cbn [mbind option_bind].
    destruct (Nat.leb_spec (S rem') (length (octal c))).
    + destruct (store_framed size j dot str1) as (str2&->&Hf2&_); [lia|destruct Hf; lia|]. cbn [mbind option_bind].
      eexists; split; [done|]. cbv beta iota. by etrans.
    + eexists; split; [done|]. split; [simpl in *; lia|done].
Qed.

Lemma put_label_safe rhn size lb : forall i str j, i + lb <= length rhn -> (lb = 0 -> j + 1 < size) -> size <= length str ->
  exists r, put_label rhn i lb str j size = Some r /\
  match r with Put j' str' => j' + 1 < size /\ framed size str str' | Overflow str' => framed size str str' end.
Proof.
  induction lb as [|lb IH]; intros i str j Hi Hj Hs; cbn [put_label].
  { eexists; split; [done|]. split; [auto|done]. }
  destruct (Nat.leb_spec size (j + 2)); [by eexists|].
  destruct (lookup_lt_is_Some_2 rhn i) as [c ->]; [lia|]. cbn [mbind option_bind].
  destruct (put_char_safe c str j size) as ([j1 str1|str1]&->&Hr); [done..| |]; cbn [mbind option_bind].
  - destruct Hr as [Hj1 Hf]. destruct (IH (S i) str1 j1) as (r&->&Hr); [lia..|destruct Hf; lia|].
    eexists; split; [done|]. destruct r as [j2 str2|str2]; cbv beta iota; [destruct Hr; split; [done|]|]; by etrans.
  - by eexists.
Qed.

(** The result of printing: the frame, and a zero byte inside. *)
Definition printed (size : nat) (str str' : list byte) : Prop :=
  framed size str str' /\ exists k, k < size /\ str' !! k = Some x00.

Lemma overflow_safe str0 str size : 0 < size -> size <= length str0 -> framed size str0 str ->
  exists str', rhn2str_overflow str size = Some str' /\ printed size str0 str'.
Proof.
  intros H0 Hs Hf. unfold rhn2str_overflow.
  destruct (store_framed size (size - 1) x00 str) as (str1&->&Hf1&Hk); [lia|destruct Hf; lia|]. cbn [mbind option_bind].
  assert (Hstep : forall i (s1 : list byte), i < size - 1 -> framed size str0 s1 -> s1 !! (size - 1) = Some x00 ->
    exists s2, store i dot s1 = Some s2 /\ framed size str0 s2 /\ s2 !! (size - 1) = Some x00).
  { intros i s1 Hi Hf' Hk'. destruct (store_framed size i dot s1) as (s2&Hst&?&_); [lia|destruct Hf'; lia|].
    exists s2. split; [done|]. split; [by etrans|]. unfold store in Hst. case_decide; [|done]. injection Hst as <-.
    by rewrite list_lookup_insert_ne by lia. }
  assert (Hend : forall s1, framed size str0 s1 -> s1 !! (size - 1) = Some x00 -> printed size str0 s1)
    by (intros s1 ??; split; [done|]; exists (size - 1); split; [lia|done]).
  assert (Hf2 : framed size str0 str1) by (by etrans).
  destruct (Nat.eqb_spec (size - 1) 0); [by eexists; eauto|].
  destruct (Hstep (size - 2) str1) as (str2&->&?&?); [lia|done..|]. cbn [mbind option_bind].
  destruct (Nat.eqb_spec (size - 2) 0); [by eexists; eauto|].
  destruct (Hstep (size - 3) str2) as (str3&->&?&?); [lia|done..|]. cbn [mbind option_bind].
  destruct (Nat.eqb_spec (size - 3) 0); [by eexists; eauto|].
  destruct (Hstep (size - 4) str3) as (str4&->&?&?); [lia|done..|]. by eexists; eauto.
Qed.

Lemma rhn2str_loop_safe str0 size : 0 < size -> size <= length str0 -> forall ls fuel P l r str j,
  Forall valid_label (l :: ls) -> length ls < fuel -> framed size str0 str ->
  exists str', rhn2str_loop fuel (P ++ l ++ wire ls ++ r) (length P) (length l) str j size = Some str' /\ printed size str0 str'.
Proof.
  intros H0 Hs. induction ls as [|l' ls IH]; intros [|fuel] P l r str j Hv Hl Hf; cbn [length] in Hl; try lia;
    cbn [rhn2str_loop]; apply Forall_cons in Hv as [Hvl Hv];
    match goal with |- context [put_label ?rh] =>
      destruct (put_label_safe rh size (length l) (length P) str j) as (res&->&Hres);
      [rewrite !length_app; lia|unfold valid_label in Hvl; lia|destruct Hf; lia|] end; cbn [mbind option_bind];
    (destruct res as [j1 str1|str1]; [|apply overflow_safe; [done..|by etrans]]);
    destruct Hres as [Hj1 Hf1]; (destruct (store_framed size j1 dot str1) as (str2&->&Hf2&_); [lia|destruct Hf, Hf1; lia|]);
    cbn [mbind option_bind]; rewrite app_assoc, <- length_app.
  - rewrite wire_nil_lookup. cbn [mbind option_bind Nat.eqb].
    destruct (store_framed size (j1 + 1) x00 str2) as (str3&->&Hf3&Hk); [lia|destruct Hf, Hf1, Hf2; lia|].
    eexists; split; [done|]. split; [by repeat (etrans; [eassumption|])|]. exists (j1 + 1). split; [lia|done].
  - pose proof Hv as Hv2. apply Forall_cons in Hv2 as [Hvl' _].
    destruct (wire_cons_lookup (P ++ l) l' ls r Hvl') as (->&Hz). cbn [mbind option_bind]. rewrite Hz.
    destruct (IH fuel ((P ++ l) ++ [n2b (length l')]) l' r str2 (j1 + 1)) as (str'&Hrun&Hp); [done|lia|by repeat (etrans; [eassumption|])|].
    exists str'. split; [|done]. rewrite <- Hrun, (length_app _ [_]), wire_cons.
    cbn [app length]. rewrite !Nat.add_1_r. by rewrite <- !app_assoc.
Qed.

(** Characters that are printed as they are. *)
Definition plain_char (c : byte) : Prop := isgraph c = true /\ special c = false.

Lemma put_label_plain size l : Forall plain_char l -> forall P R pre rest,
  length pre + length l + 1 < size -> size <= length (pre ++ rest) ->
  put_label (P ++ l ++ R) (length P) (length l) (pre ++ rest) (length pre) size =
  Some (Put (length pre + length l) (pre ++ l ++ drop (length l) rest)).
Proof.
  induction 1 as [|c l [Hg Hsp] _ IH]; intros P R pre rest Hj Hs; cbn [length put_label] in *.
  { by rewrite Nat.add_0_r, drop_0. }
  rewrite (proj2 (Nat.leb_gt _ _)) by lia. cbn [app]. rewrite list_lookup_middle by done. cbn [mbind option_bind].
  unfold put_char. rewrite Hg, Hsp. rewrite length_app in Hs. destruct rest as [|x rest]; [simpl in Hs; lia|].
  rewrite store_at. cbn [mbind option_bind].
  specialize (IH (P ++ [c]) R (pre ++ [c]) rest). rewrite !length_app, !Nat.add_1_r, <- !app_assoc in IH.
  cbn [app length] in *. rewrite !Nat.add_1_r. rewrite IH by lia. cbn [drop]. do 2 f_equal. lia.
Qed.

Lemma rhn2str_loop_plain size ls : Forall (Forall plain_char) ls -> Forall valid_label ls -> forall fuel P l r pre rest,
  Forall plain_char l -> length ls < fuel ->
  length pre + length (dotted (l :: ls)) < size -> size <= length (pre ++ rest) ->
  rhn2str_loop fuel (P ++ l ++ wire ls ++ r) (length P) (length l) (pre ++ rest) (length pre) size =
  Some (pre ++ dotted (l :: ls) ++ x00 :: drop (S (length (dotted (l :: ls)))) rest).
Proof.
  induction 1 as [|l' ls Hp' Hp IH]; intros Hv [|fuel] P l r pre rest Hl Hf Hd Hs; cbn [length] in Hf; try lia;
    cbn [rhn2str_loop]; rewrite dotted_cons, length_app in *; cbn [length] in *;
    rewrite put_label_plain by (done || (rewrite ?length_app; lia)); cbn [mbind option_bind];
    (destruct (drop (length l) rest) as [|x rest'] eqn:Hx;
      [apply (f_equal length) in Hx; rewrite length_drop in Hx; simpl in Hx; lia|]);
    rewrite (app_assoc pre), <- length_app, store_at; cbn [mbind option_bind];
    rewrite app_assoc, <- (length_app P).
  - rewrite wire_nil_lookup. cbn [mbind option_bind Nat.eqb].
    destruct rest' as [|y rest'']; [apply (f_equal length) in Hx; rewrite length_drop in Hx; simpl in Hx; lia|].
    pose proof (store_at ((pre ++ l) ++ [dot]) y rest'' x00) as Hst. rewrite length_app, <- (app_assoc _ [dot]) in Hst.
    cbn [length app] in Hst. rewrite Hst. change (dotted []) with (@nil byte). cbn [app length].
    replace (S (length l + 1)) with (length l + 2) by lia. rewrite <- drop_drop, Hx. cbn [drop]. by rewrite <- !app_assoc.
  - apply Forall_cons in Hv as [Hvl' Hv]. destruct (wire_cons_lookup (P ++ l) l' ls r Hvl') as (->&Hz).
    cbn [mbind option_bind]. rewrite Hz.
    specialize (IH Hv fuel ((P ++ l) ++ [n2b (length l')]) l' r ((pre ++ l) ++ [dot]) rest' Hp' ltac:(lia)).
    assert (Hlr : length rest' = length rest - S (length l))
      by (apply (f_equal length) in Hx; rewrite length_drop in Hx; simpl in Hx; lia).
    rewrite !(length_app _ [_]), !Nat.add_1_r in IH. rewrite <- !(app_assoc _ [_]) in IH. cbn [app] in IH.
    rewrite wire_cons. cbn [app]. rewrite <- (app_assoc l' (wire ls) r), Nat.add_1_r.
    rewrite IH by (rewrite ?length_app; cbn [length]; rewrite ?length_app; lia).
    rewrite <- !app_assoc. cbn [app]. do 4 f_equal.
    replace (S (length l + S (length (dotted (l' :: ls))))) with (length l + S (S (length (dotted (l' :: ls))))) by lia.
    by rewrite <- drop_drop, Hx.
Qed.

(** The text of a name. *)
Definition text_of (ls : list (list byte)) : list byte :=
  match ls with [] => [dot] | _ => dotted ls end.

Lemma plain_not c : plain_char c -> c <> dot /\ c <> x00.
Proof.
  intros [Hg Hs]. split; intros ->; [|done]. unfold special in Hs.
  by rewrite bool_decide_eq_true_2 in Hs.
Qed.

Lemma plain_text ls : Forall valid_label ls -> Forall (Forall plain_char) ls ->
  Forall text_label ls /\ x00 ∉ text_of ls.
Proof.
  intros Hv Hp. split.
  - apply Forall_forall. intros l Hl. rewrite Forall_forall in Hv, Hp. split; [by apply Hv|].
    intros Hd. specialize (Hp l Hl). rewrite Forall_forall in Hp. by destruct (plain_not dot (Hp dot Hd)).
  - assert (Hd : x00 ∉ dotted ls).
    { clear Hv. induction Hp as [|l ls Hl _ IH]; [by apply not_elem_of_nil|]. rewrite dotted_cons.
      intros [H|[?|H]%elem_of_cons]%elem_of_app; [|done|done].
      rewrite Forall_forall in Hl. by destruct (plain_not x00 (Hl x00 H)). }
    destruct ls; [|done]. simpl. by intros [?|?%not_elem_of_nil]%elem_of_cons.
Qed.

Lemma rhn2str_safe ls r str size : Forall valid_label ls -> 0 < size <= length str ->
  exists str', rhn2str (wire ls ++ r) str size = Some (Some str') /\ printed size str str'.
Proof.
  intros Hv Hs. unfold rhn2str. rewrite (proj2 (Nat.eqb_neq _ _)) by lia. destruct Hv as [|l ls Hl Hv].
  - rewrite (wire_nil_lookup [] r : b2n <$> (wire [] ++ r) !! 0 = Some 0). cbn [mbind option_bind Nat.eqb].
    destruct (Nat.leb_spec 2 size).
    + destruct (store_framed size 0 dot str) as (str1&->&Hf&_); [lia..|]. cbn [mbind option_bind].
      destruct (store_framed size 1 x00 str1) as (str2&->&Hf2&?); [lia|destruct Hf; lia|]. cbn [mbind option_bind].
      eexists; split; [done|]. split; [by etrans|]. exists 1. split; [lia|done].
    + destruct (store_framed size 0 x00 str) as (str1&->&Hf&?); [lia..|]. cbn [mbind option_bind].
      eexists; split; [done|]. split; [done|]. exists 0. split; [lia|done].
  - destruct (wire_cons_lookup [] l ls r Hl) as (Hk&Hz). cbn [app length] in Hk. rewrite Hk.
    cbn [mbind option_bind]. rewrite Hz.
    assert (Hfuel : length ls < S (length (wire (l :: ls) ++ r))).
    { pose proof (length_enc_labels_ge ls Hv). rewrite length_app, length_wire_cons, length_wire. lia. }
    destruct (rhn2str_loop_safe str size (proj1 Hs) (proj2 Hs) ls (S (length (wire (l :: ls) ++ r))) [n2b (length l)] l r str 0)
      as (str'&Hrun&?); [by constructor|done|done|].
    replace ([n2b (length l)] ++ l ++ wire ls ++ r) with (wire (l :: ls) ++ r) in Hrun
      by (rewrite wire_cons; simpl; by rewrite <- app_assoc).
    cbn [length] in Hrun. rewrite Hrun. by eexists.
Qed.

Lemma rhn2str_plain ls r str size : Forall valid_label ls -> Forall (Forall plain_char) ls ->
  length (text_of ls) < size <= length str ->
  rhn2str (wire ls ++ r) str size = Some (Some (text_of ls ++ x00 :: drop (S (length (text_of ls))) str)).
Proof.
  intros Hv Hp Hs. unfold rhn2str. rewrite (proj2 (Nat.eqb_neq _ _)) by lia. destruct Hp as [|l ls Hl Hp].
  - rewrite (wire_nil_lookup [] r : b2n <$> (wire [] ++ r) !! 0 = Some 0). cbn [mbind option_bind Nat.eqb text_of length] in *.
    rewrite (proj2 (Nat.leb_le _ _)) by lia. destruct str as [|x [|y str]]; simpl in Hs; try lia. done.
  - apply Forall_cons in Hv as [Hvl Hv]. destruct (wire_cons_lookup [] l ls r Hvl) as (Hk&Hz).
    cbn [app length] in Hk. rewrite Hk. cbn [mbind option_bind]. rewrite Hz. cbn [text_of] in *.
    assert (Hfuel : length ls < S (length (wire (l :: ls) ++ r))).
    { pose proof (length_enc_labels_ge ls Hv). rewrite length_app, length_wire_cons, length_wire. lia. }
    pose proof (rhn2str_loop_plain size ls Hp Hv _ [n2b (length l)] l r [] str Hl Hfuel
      ltac:(cbn [length Nat.add]; lia) ltac:(cbn [app]; lia)) as Hrun.
    replace ([n2b (length l)] ++ l ++ wire ls ++ r) with (wire (l :: ls) ++ r) in Hrun
      by (rewrite wire_cons; simpl; by rewrite <- app_assoc).
    cbn [length app] in Hrun. rewrite Hrun. done.
Qed.

(** Names are printed safely and can be read back. For any name and any
    buffer size, [rhn2str] writes only the given bytes and leaves a text with a
    zero byte in them; if the name has only printable characters that need no
    escape and its text fits, [str2rhn] turns the text back into the same
    name. *)
Theorem name_text_roundtrip ls r str size rhn :
  valid_name ls -> 0 < size <= length str -> DNSNAMEBUFSIZE <= length rhn ->
  exists str', rhn2str (wire ls ++ r) str size = Some (Some str') /\ printed size str str' /\
  (Forall (Forall plain_char) ls -> length (text_of ls) < size ->
   str2rhn str' rhn = Some (true, wire ls ++ drop (length (wire ls)) rhn)).
Proof.
  intros [Hv Hw] Hs Hr. destruct (rhn2str_safe ls r str size Hv Hs) as (str'&Hrun&Hp).
  exists str'. split_and!; [done..|]. intros Hpl Hfit.
  rewrite rhn2str_plain in Hrun by (done || lia). injection Hrun as <-.
  destruct (plain_text ls Hv Hpl) as [Ht H0].
  assert (Hn : name_text (text_of ls) ls) by (destruct ls; [by left|right; by split_and!]).
  destruct (str2rhn_spec (text_of ls) (drop (S (length (text_of ls))) str) rhn H0 Hr) as ([|]&rhn'&->&Hok).
  - destruct Hok as (ls'&Hls'&->). by rewrite (parse_text_det (text_of ls) ls ls') by (by left).
  - by destruct (Hok ls).
Qed.

Lemma name_text_roundtrip_witness :
  exists str', rhn2str (wire [map n2b [97; 98]; [n2b 99]] ++ []) (repeat x00 256) 256 = Some (Some str') /\
    printed 256 (repeat x00 256) str' /\
    (Forall (Forall plain_char) [map n2b [97; 98]; [n2b 99]] -> 5 < 256 ->
     str2rhn str' (repeat x00 256) = Some (true, wire [map n2b [97; 98]; [n2b 99]] ++ drop 6 (repeat x00 256))).
Proof.
  apply (name_text_roundtrip [map n2b [97; 98]; [n2b 99]] [] (repeat x00 256) 256 (repeat x00 256)).
  - split; [repeat constructor; simpl; lia|]. by vm_compute; lia.
  - rewrite repeat_length. lia.
  - rewrite repeat_length. done.
Defined.

(** ** Copy and validation *)

Lemma rhncpy_wire dst ls r : valid_name ls -> DNSNAMEBUFSIZE <= length dst ->
  rhncpy dst (wire ls ++ r) = Some (length (wire ls), wire ls ++ drop (length (wire ls)) dst).
Proof.
  intros [Hv Hw] Hd. unfold rhncpy. rewrite rhnlen_wire by done. cbn [mbind option_bind].
  rewrite (proj2 (Nat.ltb_ge _ _)), (proj2 (Nat.leb_le _ (length dst))), (proj2 (Nat.leb_le _ _))
    by (rewrite ?length_app; lia).
  cbn [andb]. by rewrite take_app_length.
Qed.

Lemma isnormalencdomname_loop_wire maxlen ls : Forall valid_label ls -> forall fuel pre r,
  maxlen - length pre < fuel ->
  isnormalencdomname_loop fuel (pre ++ wire ls ++ r) maxlen (length pre) =
  Some (bool_decide (length pre + length (wire ls) <= maxlen)).
Proof.
  induction 1 as [|l ls Hl _ IH]; intros [|fuel] pre r Hf; try lia; cbn [isnormalencdomname_loop];
    (destruct (Nat.leb_spec maxlen (length pre)); [by rewrite bool_decide_false by (rewrite length_wire; lia)|]).
  - rewrite wire_nil_lookup. cbn [mbind option_bind Nat.eqb]. rewrite bool_decide_true; [done|].
    change (length (wire [])) with 1. lia.
  - destruct (wire_cons_lookup pre l ls r Hl) as (->&Hz). cbn [mbind option_bind]. rewrite Hz.
    rewrite (proj2 (Nat.ltb_ge _ _)), wire_cons_assoc by apply Hl.
    specialize (IH fuel (pre ++ enc_label l) r). rewrite length_app_enc_label in IH. cbn [Nat.add].
    rewrite IH by lia. f_equal. apply bool_decide_ext. rewrite length_wire_cons. lia.
Qed.

(** A name in transport form is accepted exactly if it fits. *)
Lemma isnormalencdomname_wire ls r maxlen : Forall valid_label ls ->
  isnormalencdomname (wire ls ++ r) maxlen = Some (bool_decide (length (wire ls) <= Nat.min maxlen DNSNAMEBUFSIZE)).
Proof.
  intros Hv. unfold isnormalencdomname.
  apply (isnormalencdomname_loop_wire (Nat.min maxlen DNSNAMEBUFSIZE) ls Hv _ [] r). simpl. lia.
Qed.
