(* ===== verification/PdnsdHash.v ===== *)
(** * The hash table of the DNS cache

    [pdnsd/src/hash.c] and [hash.h]: 1024 buckets, each a chain of entries
    linked by [next] and ordered by a second, longer hash of the name. The model
    keeps the entries in a heap; a location in the table, which the source
    holds as a pointer to a pointer, is the head of a bucket or the [next] field
    of an entry. [unsigned long] has 32 or 64 bits on the targets, so its width
    is a parameter of the section. [None] is again undefined behaviour. *)

From Stdlib Require Import Sorted.
From S2P Require Import Prelude.
From S2P Require Import PdnsdNames.
From S2P Require Import PdnsdCompress.

Open Scope nat_scope.

Definition HASH_SZ : nat := 10.
Definition HASH_NUM_BUCKETS : nat := 1024.
Definition HASH_BITMASK : Z := 1023.

(** A cache entry: its identity and its name; the hash table looks at nothing
    else. *)
Record dns_cent_t := Cent { cent_id : nat; qname : list byte }.

Record dns_hash_ent_t := Ent { next : option positive; rhash : Z; data : dns_cent_t }.

Record hash_table := Table {
  hash_buckets : list (option positive);
  entries : gmap positive dns_hash_ent_t;
}.

(** [dns_hash_ent_t **] *)
Inductive slot := Bucket (i : nat) | Next (p : positive).

Record dns_hash_loc_t := Loc { loc_pos : slot; loc_rhash : Z }.

Record dns_hash_pos_t := Pos { pos_bucket : nat; pos_ent : option positive }.

Definition read_slot (t : hash_table) (l : slot) : option (option positive) :=
  match l with
  | Bucket i => hash_buckets t !! i
  | Next p => next <$> entries t !! p
  end.

Definition write_slot (l : slot) (v : option positive) (t : hash_table) : hash_table :=
  match l with
  | Bucket i => Table (<[i := v]> (hash_buckets t)) (entries t)
  | Next p => Table (hash_buckets t) (alter (fun e => Ent v (rhash e) (data e)) p (entries t))
  end.

Definition free_entry (p : positive) (t : hash_table) : hash_table :=
  Table (hash_buckets t) (delete p (entries t)).

Section Hash.

Variable ulong_bits : nat.

Definition ulong (z : Z) : Z := (z mod 2 ^ Z.of_nat ulong_bits)%Z.

(** ** The hash function *)

(** [s += c << (i % (HASH_SZ-5)); r += (unsigned long)c << (i % (8*sizeof(unsigned long)-7));] *)
Definition hash_add (c i : nat) (sr : Z * Z) : Z * Z :=
  (u32 (sr.1 + u32 (Z.shiftl (Z.of_nat c) (Z.of_nat (i mod (HASH_SZ - 5))))),
   ulong (sr.2 + ulong (Z.shiftl (Z.of_nat c) (Z.of_nat (i mod (ulong_bits - 7)))))).

Fixpoint hash_label (str : list byte) (i lb : nat) (sr : Z * Z) : option (Z * Z) :=
  match lb with
  | O => Some sr
  | S lb' =>
      c ← toupper <$> str !! i;
      hash_label str (S i) lb' (hash_add (b2n c) i sr)
  end.

Fixpoint hash_loop (fuel : nat) (str : list byte) (i : nat) (sr : Z * Z) : option (Z * Z) :=
  match fuel with
  | O => None
  | S fuel' =>
      lb ← b2n <$> str !! i;
      if lb =? 0 then Some sr else
      sr ← hash_label str (S i) lb (hash_add lb i sr);
      hash_loop fuel' str (S i + lb) sr
  end.

(** [s=(s&HASH_BITMASK)+((s&(~HASH_BITMASK))>>HASH_SZ);] *)
Definition hash_fold (s : Z) : Z :=
  (Z.land s HASH_BITMASK + Z.shiftr (Z.land s (u32 (Z.lnot HASH_BITMASK))) (Z.of_nat HASH_SZ))%Z.

Definition dns_hash (str : list byte) : option (nat * Z) :=
  sr ← hash_loop (S (length str)) str 0 (0, 0)%Z;
  Some (Z.to_nat (Z.land (hash_fold (hash_fold sr.1)) HASH_BITMASK), sr.2).

(** ** Lookup, insertion, deletion *)

Definition mk_dns_hash : hash_table := Table (repeat None HASH_NUM_BUCKETS) ∅.

(** The [while] of [dns_lookup] and [del_dns_hash]: the slot where it stops and
    the entry there if it is for the key. *)
Fixpoint find_slot (fuel : nat) (t : hash_table) (key : list byte) (rh : Z) (hep : slot)
    : option (slot * option (positive * dns_hash_ent_t)) :=
  match fuel with
  | O => None
  | S fuel' =>
      he ← read_slot t hep;
      match he with
      | None => Some (hep, None)
      | Some p =>
          e ← entries t !! p;
          if (rhash e <=? rh)%Z then
            same ← (if (rhash e =? rh)%Z then rhnicmp key (qname (data e)) else Some false);
            if (same : bool) then Some (hep, Some (p, e))
            else find_slot fuel' t key rh (Next p)
          else Some (hep, None)
      end
  end.

Definition walk_fuel (t : hash_table) : nat := S (size (entries t)).

Definition dns_lookup (t : hash_table) (key : list byte) : option (option dns_cent_t * dns_hash_loc_t) :=
  '(idx, rh) ← dns_hash key;
  '(hep, found) ← find_slot (walk_fuel t) t key rh (Bucket idx);
  Some (match found with Some (_, e) => Some (data e) | None => None end, Loc hep rh).

(** [he] is the memory [malloc] returns, if any. *)
Definition add_dns_hash (t : hash_table) (data : dns_cent_t) (loc : dns_hash_loc_t) (he : option positive)
    : option (bool * hash_table) :=
  match he with
  | None => Some (false, t)
  | Some p =>
      nx ← read_slot t (loc_pos loc);
      let t := Table (hash_buckets t) (<[p := Ent nx (loc_rhash loc) data]> (entries t)) in
      Some (true, write_slot (loc_pos loc) (Some p) t)
  end.

Definition del_dns_hash_ent (t : hash_table) (loc : dns_hash_loc_t) : option (dns_cent_t * hash_table) :=
  he ← read_slot t (loc_pos loc);
  p ← he;
  e ← entries t !! p;
  Some (data e, free_entry p (write_slot (loc_pos loc) (next e) t)).

Definition del_dns_hash (t : hash_table) (key : list byte) : option (option dns_cent_t * hash_table) :=
  '(idx, rh) ← dns_hash key;
  '(hep, found) ← find_slot (walk_fuel t) t key rh (Bucket idx);
  match found with
  | Some (p, e) => Some (Some (data e), free_entry p (write_slot hep (next e) t))
  | None => Some (None, t)
  end.

(** ** Deletion of buckets; the cache entries passed to [del_cent] in order *)

Fixpoint free_chain (fuel : nat) (t : hash_table) (he : option positive) : option (list dns_cent_t * hash_table) :=
  match fuel with
  | O => None
  | S fuel' =>
      match he with
      | None => Some ([], t)
      | Some p =>
          e ← entries t !! p;
          '(cs, t) ← free_chain fuel' (free_entry p t) (next e);
          Some (data e :: cs, t)
      end
  end.

Definition free_dns_hash_bucket (t : hash_table) (i : nat) : option (list dns_cent_t * hash_table) :=
  he ← read_slot t (Bucket i);
  free_chain (walk_fuel t) (write_slot (Bucket i) None t) he.

Fixpoint free_buckets (n i : nat) (t : hash_table) : option (list dns_cent_t * hash_table) :=
  match n with
  | O => Some ([], t)
  | S n' =>
      '(cs, t) ← free_dns_hash_bucket t i;
      '(cs', t) ← free_buckets n' (S i) t;
      Some (cs ++ cs', t)
  end.

Definition free_dns_hash (t : hash_table) : option (list dns_cent_t * hash_table) :=
  free_buckets HASH_NUM_BUCKETS 0 t.

(** [slist_t]: a domain, whether it must match exactly, and the rule
    ([C_INCLUDED] or not). *)
Record slist_t := Slist { domain : list byte; exact : bool; included : bool }.

(** The [for] over the list: the rule of the first item that matches. *)
Fixpoint selected (name : list byte) (sla : list slist_t) : option bool :=
  match sla with
  | [] => Some false
  | sl :: sla' =>
      '(_, nrem, lrem) ← domain_match name (domain sl);
      if (lrem =? 0) && (negb (exact sl) || (nrem =? 0)) then Some (included sl)
      else selected name sla'
  end.

Fixpoint free_selected (fuel : nat) (t : hash_table) (sla : list slist_t) (hep : slot)
    : option (list dns_cent_t * hash_table) :=
  match fuel with
  | O => None
  | S fuel' =>
      he ← read_slot t hep;
      match he with
      | None => Some ([], t)
      | Some p =>
          e ← entries t !! p;
          del ← selected (qname (data e)) sla;
          if (del : bool) then
            '(cs, t) ← free_selected fuel' (free_entry p (write_slot hep (next e) t)) sla hep;
            Some (data e :: cs, t)
          else free_selected fuel' t sla (Next p)
      end
  end.

Definition free_dns_hash_selected (t : hash_table) (i : nat) (sla : list slist_t) : option (list dns_cent_t * hash_table) :=
  free_selected (walk_fuel t) t sla (Bucket i).

(** ** Iteration *)

(** The first entry in the buckets from [i] on. *)
Fixpoint fetch_from (n i : nat) (t : hash_table) : option (option (dns_cent_t * dns_hash_pos_t)) :=
  match n with
  | O => Some None
  | S n' =>
      he ← hash_buckets t !! i;
      match he with
      | None => fetch_from n' (S i) t
      | Some p => e ← entries t !! p; Some (Some (data e, Pos i (next e)))
      end
  end.

Definition fetch_first (t : hash_table) : option (option (dns_cent_t * dns_hash_pos_t)) :=
  fetch_from HASH_NUM_BUCKETS 0 t.

Definition fetch_next (t : hash_table) (pos : dns_hash_pos_t) : option (option (dns_cent_t * dns_hash_pos_t)) :=
  match pos_ent pos with
  | Some p => e ← entries t !! p; Some (Some (data e, Pos (pos_bucket pos) (next e)))
  | None => fetch_from (HASH_NUM_BUCKETS - S (pos_bucket pos)) (S (pos_bucket pos)) t
  end.

(** A loop [for (ce=fetch_first(&pos); ce; ce=fetch_next(&pos))] whose body
    deletes some of the entries it retrieves. *)
Fixpoint visit_from (fuel : nat) (del : dns_cent_t -> bool) (t : hash_table) (cur : option (dns_cent_t * dns_hash_pos_t))
    : option (list dns_cent_t * hash_table) :=
  match fuel with
  | O => None
  | S fuel' =>
      match cur with
      | None => Some ([], t)
      | Some (c, pos) =>
          t ← (if del c then snd <$> del_dns_hash t (qname c) else Some t);
          cur ← fetch_next t pos;
          '(cs, t) ← visit_from fuel' del t cur;
          Some (c :: cs, t)
      end
  end.

Definition visit (del : dns_cent_t -> bool) (t : hash_table) : option (list dns_cent_t * hash_table) :=
  cur ← fetch_first t;
  visit_from (walk_fuel t) del t cur.

End Hash.

(** ** Names and the hash *)

Lemma toupper_tolower b : toupper (tolower b) = toupper b.
Proof. destruct b; reflexivity. Qed.

Lemma tolower_small n : n <= 63 -> tolower (n2b n) = n2b n.
Proof. intros. unfold tolower. rewrite b2n_n2b by lia. by rewrite (proj2 (Nat.leb_gt 65 n)) by lia. Qed.

(** The key of a name: its transport form in lower case. *)
Definition lower (name : list byte) : list byte := map tolower name.
Definition key (c : dns_cent_t) : list byte := lower (qname c).

Lemma lower_wire_cons l ls : valid_label l -> lower (wire (l :: ls)) = n2b (length l) :: map tolower l ++ lower (wire ls).
Proof. intros Hl. unfold lower. rewrite wire_cons. simpl. rewrite map_app, tolower_small by apply Hl. done. Qed.

Lemma lower_wire A : Forall valid_label A -> forall B, Forall valid_label B ->
  lower (wire A) = lower (wire B) <-> fold A = fold B.
Proof.
  induction 1 as [|a A Ha _ IH]; intros B HB.
  - destruct HB as [|b B Hb _]; [done|]. rewrite lower_wire_cons by done. split; [|done].
    intros [= H _]. apply (f_equal b2n) in H. unfold valid_label in Hb. rewrite b2n_n2b in H by lia.
    change (b2n (tolower x00)) with 0 in H. lia.
  - destruct HB as [|b B Hb HB].
    + rewrite lower_wire_cons by done. split; [|done]. intros [= H _]. apply (f_equal b2n) in H.
      unfold valid_label in Ha. rewrite b2n_n2b in H by lia. change (b2n (tolower x00)) with 0 in H. lia.
    + rewrite !lower_wire_cons by done. unfold valid_label in *. simpl. split.
      * intros [= Hl H]. apply (f_equal b2n) in Hl. rewrite !b2n_n2b in Hl by lia.
        apply app_inj_1 in H as [-> H]; [|by rewrite !length_map]. f_equal. by apply IH.
      * intros [= Hl H]. apply (f_equal length) in Hl as Hl2. rewrite !length_map in Hl2. rewrite Hl, Hl2. do 2 f_equal. by apply IH.
Qed.

Section HashSpec.

Context (ulong_bits : nat).

Fixpoint label_hash (l : list byte) (i : nat) (sr : Z * Z) : Z * Z :=
  match l with
  | [] => sr
  | b :: l' => label_hash l' (S i) (hash_add ulong_bits (b2n (toupper b)) i sr)
  end.

Fixpoint name_hash (ls : list (list byte)) (i : nat) (sr : Z * Z) : Z * Z :=
  match ls with
  | [] => sr
  | l :: ls' => name_hash ls' (S i + length l) (label_hash l (S i) (hash_add ulong_bits (length l) i sr))
  end.

Lemma hash_label_spec l : forall pre rest sr,
  hash_label ulong_bits (pre ++ l ++ rest) (length pre) (length l) sr = Some (label_hash l (length pre) sr).
Proof.
  induction l as [|b l IH]; intros pre rest sr; [done|]. cbn [length hash_label label_hash app].
  rewrite list_lookup_middle by done. cbn [fmap option_fmap option_map mbind option_bind].
  specialize (IH (pre ++ [b]) rest). rewrite length_app, Nat.add_1_r, <- app_assoc in IH. apply IH.
Qed.

Lemma hash_loop_spec ls : Forall valid_label ls -> forall fuel pre r sr, length ls < fuel ->
  hash_loop ulong_bits fuel (pre ++ wire ls ++ r) (length pre) sr = Some (name_hash ls (length pre) sr).
Proof.
  induction 1 as [|l ls Hl _ IH]; intros [|fuel] pre r sr Hf; cbn [length] in Hf; try lia; cbn [hash_loop].
  - rewrite wire_nil_lookup. done.
  - destruct (wire_cons_lookup pre l ls r Hl) as (->&Hz). cbn [mbind option_bind]. rewrite Hz.
    assert (E : pre ++ wire (l :: ls) ++ r = (pre ++ [n2b (length l)]) ++ l ++ wire ls ++ r)
      by (rewrite wire_cons; simpl; by rewrite <- !app_assoc).
    assert (El : length (pre ++ [n2b (length l)]) = S (length pre)) by (rewrite length_app; simpl; lia).
    rewrite E, <- El, hash_label_spec, El. cbn [mbind option_bind name_hash].
    specialize (IH fuel ((pre ++ [n2b (length l)]) ++ l) r).
    rewrite length_app, El, <- (app_assoc _ l) in IH. apply IH. lia.
Qed.

Lemma label_hash_fold l l' : map tolower l = map tolower l' -> forall i sr, label_hash l i sr = label_hash l' i sr.
Proof.
  revert l'. induction l as [|b l IH]; intros [|b' l'] H i sr; try done. injection H as Hb H. simpl.
  by rewrite <- (toupper_tolower b), Hb, toupper_tolower, (IH l').
Qed.

Lemma name_hash_fold ls ls' : fold ls = fold ls' -> forall i sr, name_hash ls i sr = name_hash ls' i sr.
Proof.
  revert ls'. induction ls as [|l ls IH]; intros [|l' ls'] H i sr; try done. injection H as Hl H. simpl.
  apply (f_equal length) in Hl as Hlen. rewrite !length_map in Hlen.
  by rewrite Hlen, (label_hash_fold l l'), (IH ls').
Qed.

(** The hash of a name. *)
Definition hash_of (ls : list (list byte)) : nat * Z :=
  let sr := name_hash ls 0 (0, 0)%Z in
  (Z.to_nat (Z.land (hash_fold (hash_fold sr.1)) HASH_BITMASK), sr.2).

Lemma dns_hash_spec ls r : Forall valid_label ls -> dns_hash ulong_bits (wire ls ++ r) = Some (hash_of ls).
Proof.
  intros Hv. unfold dns_hash. pose proof (length_enc_labels_ge ls Hv).
  rewrite (hash_loop_spec ls Hv _ [] r) by (rewrite length_app, length_wire; lia). done.
Qed.

Lemma hash_of_fold ls ls' : fold ls = fold ls' -> hash_of ls = hash_of ls'.
Proof. intros H. unfold hash_of. by rewrite (name_hash_fold ls ls'). Qed.

Lemma hash_of_bound ls : (hash_of ls).1 < HASH_NUM_BUCKETS.
Proof.
  unfold hash_of. cbn [fst]. unfold HASH_NUM_BUCKETS, HASH_BITMASK. change 1023%Z with (Z.ones 10).
  rewrite Z.land_ones by lia. pose proof (Z.mod_pos_bound (hash_fold (hash_fold (name_hash ls 0 (0, 0)%Z).1)) (2 ^ 10)). lia.
Qed.

End HashSpec.

(** ** Comparison of names *)

Lemma same_bytes_spec l : forall l' pre pre' ra rb, length pre = length pre' -> length l = length l' ->
  same_bytes (pre ++ l ++ ra) (pre' ++ l' ++ rb) (length pre) (length l) =
  Some (bool_decide (map tolower l = map tolower l')).
Proof.
  induction l as [|b l IH]; intros [|b' l'] pre pre' ra rb Hp Hl; try done.
  cbn [length same_bytes app]. rewrite list_lookup_middle by done. cbn [mbind option_bind].
  rewrite Hp, list_lookup_middle by done. cbn [mbind option_bind]. rewrite <- Hp.
  destruct (decide (tolower b = tolower b')) as [E|E].
  - specialize (IH l' (pre ++ [b]) (pre' ++ [b']) ra rb). rewrite !length_app, Nat.add_1_r, <- !app_assoc in IH.
    cbn [app] in IH. rewrite IH by (simpl in *; lia). f_equal. apply bool_decide_ext. simpl. rewrite E. split; congruence.
  - by rewrite bool_decide_false by (simpl; congruence).
Qed.

Lemma rhnicmp_loop_spec A : Forall valid_label A -> forall B, Forall valid_label B -> forall fuel pre pre' ra rb,
  length pre = length pre' -> length A < fuel ->
  rhnicmp_loop fuel (pre ++ wire A ++ ra) (pre' ++ wire B ++ rb) (length pre) = Some (bool_decide (fold A = fold B)).
Proof.
  assert (Hlk : forall (pre : list byte) C r, Forall valid_label C -> exists b, (pre ++ wire C ++ r) !! length pre = Some b /\
    b2n b = match C with [] => 0 | c :: _ => length c end).
  { intros pre C r [|c C' Hc _]; [exists x00|exists (n2b (length c))]; rewrite ?wire_cons; simpl;
      rewrite list_lookup_middle by done; [done|]. unfold valid_label in Hc. by rewrite b2n_n2b by lia. }
  induction 1 as [|a A Ha HA IH]; intros B HB [|fuel] pre pre' ra rb Hp Hf; cbn [length] in Hf; try lia; cbn [rhnicmp_loop].
  - destruct (Hlk pre [] ra ltac:(constructor)) as (x&->&Hx), (Hlk pre' B rb HB) as (y&Hy1&Hy).
    cbn [mbind option_bind]. rewrite Hp, Hy1. cbn [mbind option_bind]. rewrite Hx, Hy.
    destruct HB as [|b B Hb _]; [done|]. unfold valid_label in Hb. rewrite (proj2 (Nat.eqb_neq 0 _)) by lia. cbn [negb].
    by rewrite bool_decide_false.
  - destruct (Hlk pre (a :: A) ra ltac:(by constructor)) as (x&->&Hx), (Hlk pre' B rb HB) as (y&Hy1&Hy).
    cbn [mbind option_bind]. rewrite Hp, Hy1. cbn [mbind option_bind]. rewrite Hx, Hy, <- Hp.
    unfold valid_label in Ha. destruct HB as [|b B Hb HB].
    { rewrite (proj2 (Nat.eqb_neq _ _)) by lia. cbn [negb]. by rewrite bool_decide_false. }
    destruct (Nat.eqb_spec (length a) (length b)) as [Hab|Hab]; cbn [negb].
    2: { rewrite bool_decide_false; [done|]. intros [= Hl _]. apply (f_equal length) in Hl. by rewrite !length_map in Hl. }
    rewrite (proj2 (Nat.eqb_neq _ _)), !wire_cons_assoc by lia.
    pose proof (same_bytes_spec a b (pre ++ [n2b (length a)]) (pre' ++ [n2b (length b)]) (wire A ++ ra) (wire B ++ rb)) as Hs.
    rewrite !length_app, !Nat.add_1_r, <- !app_assoc in Hs. unfold enc_label. rewrite <- !app_assoc. cbn [app] in *.
    rewrite Hs by (simpl; lia). cbn [mbind option_bind].
    specialize (IH B HB fuel (pre ++ enc_label a) (pre' ++ enc_label b) ra rb).
    rewrite !length_app_enc_label, <- !app_assoc in IH. cbn [app enc_label Nat.add] in *.
    destruct (bool_decide_reflect (map tolower a = map tolower b)) as [E|E].
    + rewrite IH by lia. f_equal. apply bool_decide_ext. simpl. rewrite E. split; congruence.
    + by rewrite bool_decide_false by (simpl; congruence).
Qed.

Lemma rhnicmp_spec A B ra rb : Forall valid_label A -> Forall valid_label B ->
  rhnicmp (wire A ++ ra) (wire B ++ rb) = Some (bool_decide (fold A = fold B)).
Proof.
  intros HA HB. unfold rhnicmp. pose proof (length_enc_labels_ge A HA).
  apply (rhnicmp_loop_spec A HA B HB _ [] []); [done|]. rewrite length_app, length_wire. lia.
Qed.

(** ** Chains in the heap *)

(** An entry of a chain: its address, its long hash and its cache entry. *)
Definition item : Type := positive * Z * dns_cent_t.
Definition ptr (x : item) : positive := x.1.1.
Definition ihash (x : item) : Z := x.1.2.
Definition cent (x : item) : dns_cent_t := x.2.

(** The chain from [hd] to [tl] holds the items. *)
Fixpoint seg (h : gmap positive dns_hash_ent_t) (hd : option positive) (es : list item) (tl : option positive) : Prop :=
  match es with
  | [] => hd = tl
  | x :: es' => hd = Some (ptr x) /\ exists nx, h !! ptr x = Some (Ent nx (ihash x) (cent x)) /\ seg h nx es' tl
  end.

Lemma chain_app h es1 : forall hd es2 tl, seg h hd (es1 ++ es2) tl <-> exists m, seg h hd es1 m /\ seg h m es2 tl.
Proof.
  induction es1 as [|x es1 IH]; intros hd es2 tl; simpl; [naive_solver|]. setoid_rewrite IH. naive_solver.
Qed.

Lemma chain_frame h h' es : (forall p, p ∈ map ptr es -> h' !! p = h !! p) -> forall hd tl, seg h hd es tl -> seg h' hd es tl.
Proof.
  induction es as [|x es IH]; intros Hf hd tl; [done|]. intros [-> (nx&Hx&Hs)]. split; [done|].
  exists nx. split; [rewrite Hf; [done|by left]|]. apply IH; [|done]. intros p Hp. apply Hf. by right.
Qed.

(** The slot behind the items [es] of bucket [i]. *)
Definition slot_of (i : nat) (es : list item) : slot :=
  match last es with None => Bucket i | Some x => Next (ptr x) end.

Lemma slot_of_snoc i es x : slot_of i (es ++ [x]) = Next (ptr x).
Proof. unfold slot_of. by rewrite last_snoc. Qed.

(** The table holds the chains [L], one for each bucket, and nothing else. *)
Record Rep (t : hash_table) (L : list (list item)) : Prop := {
  rep_length : length L = HASH_NUM_BUCKETS;
  rep_chains : Forall2 (fun hd es => seg (entries t) hd es None) (hash_buckets t) L;
  rep_nodup : NoDup (map ptr (concat L));
  rep_dom : forall p, is_Some (entries t !! p) <-> p ∈ map ptr (concat L);
}.

Lemma Forall2_seg_frame h h' hds L : (forall p, p ∈ map ptr (concat L) -> h' !! p = h !! p) ->
  Forall2 (fun hd es => seg h hd es None) hds L -> Forall2 (fun hd es => seg h' hd es None) hds L.
Proof.
  intros Hf. induction 1 as [|hd es hds L Hs _ IH]; [constructor|]. simpl in Hf. rewrite map_app in Hf.
  constructor; [|apply IH; intros; apply Hf, elem_of_app; by right].
  eapply chain_frame; [|done]. intros. apply Hf, elem_of_app. by left.
Qed.

Lemma concat_mid {A} (Lb : list (list A)) es La : concat (Lb ++ es :: La) = concat Lb ++ es ++ concat La.
Proof. rewrite concat_app. done. Qed.

(** A bucket in its table. *)
Lemma rep_bucket t L i : Rep t L -> i < HASH_NUM_BUCKETS ->
  exists Lb es La hb hd ha, L = Lb ++ es :: La /\ hash_buckets t = hb ++ hd :: ha /\ length Lb = i /\ length hb = i /\
    Forall2 (fun hd es => seg (entries t) hd es None) hb Lb /\ seg (entries t) hd es None /\
    Forall2 (fun hd es => seg (entries t) hd es None) ha La.
Proof.
  intros [HL Hc _ _] Hi. destruct (lookup_lt_is_Some_2 L i) as [es Hes]; [lia|].
  apply list_elem_of_split_length in Hes as (Lb&La&->&Hlb).
  apply Forall2_app_inv_r in Hc as (hb&hr&Hb&Hr&Ht). apply Forall2_cons_inv_r in Hr as (hd&ha&Hhd&Ha&->).
  exists Lb, es, La, hb, hd, ha. apply Forall2_length in Hb as Hl. split_and!; try done; lia.
Qed.

(** Exchange of the chain of one bucket. *)
Lemma rep_replace t Lb es La hb hd ha hd' es' h' :
  Rep t (Lb ++ es :: La) -> hash_buckets t = hb ++ hd :: ha -> length hb = length Lb ->
  Forall2 (fun hd es => seg (entries t) hd es None) hb Lb -> Forall2 (fun hd es => seg (entries t) hd es None) ha La ->
  seg h' hd' es' None ->
  (forall p, p ∉ map ptr es -> p ∉ map ptr es' -> h' !! p = entries t !! p) ->
  (forall p, p ∈ map ptr es -> is_Some (h' !! p) <-> p ∈ map ptr es') ->
  (forall p, p ∈ map ptr es' -> p ∉ map ptr es -> entries t !! p = None) ->
  NoDup (map ptr es') ->
  Rep (Table (hb ++ hd' :: ha) h') (Lb ++ es' :: La).
Proof.
  intros [HL _ Hn Hd] Hb Hl Hhb Hha Hs Hf Hdom Hnew Hn'. rewrite concat_mid, !map_app in Hn, Hd.
  rewrite !NoDup_app in Hn. destruct Hn as (Hn1&Hn2&Hn3&Hn4&Hn5).
  assert (Hout : forall p, p ∈ map ptr (concat Lb) \/ p ∈ map ptr (concat La) -> p ∉ map ptr es /\ p ∉ map ptr es').
  { intros p Hp. assert (Hpe : p ∉ map ptr es).
    { intros He. destruct Hp as [Hp|Hp]; [eapply Hn2; [done|]; apply elem_of_app; by left|by eapply Hn4]. }
    split; [done|]. intros He'. specialize (Hnew p He' Hpe). destruct (proj2 (Hd p)) as [? Hx]; [|by rewrite Hnew in Hx].
    rewrite !elem_of_app. naive_solver. }
  split.
  - rewrite length_app in *. simpl in *. lia.
  - apply Forall2_app; [|constructor; [done|]]; (eapply Forall2_seg_frame; [|done]); intros p Hp; apply Hf; apply Hout; auto.
  - rewrite concat_mid, !map_app. rewrite !NoDup_app. split_and!; try done.
    + intros p Hp. rewrite elem_of_app. intros [?|?]; [by apply (Hout p); auto|].
      eapply Hn2; [done|]. apply elem_of_app. by right.
    + intros p Hp Hp2. by apply (Hout p); auto.
  - intros p. rewrite concat_mid, !map_app, !elem_of_app. cbn [entries].
    destruct (decide (p ∈ map ptr es)) as [He|He].
    + rewrite Hdom by done. split; [auto|]. intros [Hp|[?|Hp]]; [|done|]; by destruct (Hout p); auto.
    + destruct (decide (p ∈ map ptr es')) as [He'|He'].
      * split; [auto|]. intros _. clear -Hs He'. revert hd' Hs. induction es' as [|x es' IH]; intros hd' Hs; [by apply not_elem_of_nil in He'|].
        destruct Hs as (_&nx&Hx&Hs). apply elem_of_cons in He' as [->|He']; [by eauto|by eapply IH].
      * rewrite Hf, Hd, !elem_of_app by done. naive_solver.
Qed.

(** ** Slots of a chain *)

Lemma read_slot_spec t i hb hd ha es1 es2 :
  hash_buckets t = hb ++ hd :: ha -> length hb = i -> seg (entries t) hd (es1 ++ es2) None ->
  exists m, read_slot t (slot_of i es1) = Some m /\ seg (entries t) m es2 None.
Proof.
  intros Hb Hi Hs. destruct es1 as [|x es1 _] using rev_ind.
  - exists hd. split; [|done]. simpl. rewrite Hb. by apply list_lookup_middle.
  - rewrite slot_of_snoc. rewrite <- app_assoc in Hs. apply chain_app in Hs as (m1&_&(->&nx&Hx&Hs)).
    exists nx. cbn [read_slot]. by rewrite Hx.
Qed.

Lemma write_slot_spec t i hb hd ha es1 tl v :
  hash_buckets t = hb ++ hd :: ha -> length hb = i -> seg (entries t) hd es1 tl -> NoDup (map ptr es1) ->
  exists hd', hash_buckets (write_slot (slot_of i es1) v t) = hb ++ hd' :: ha /\
    seg (entries (write_slot (slot_of i es1) v t)) hd' es1 v /\
    (forall p, p ∉ map ptr es1 -> entries (write_slot (slot_of i es1) v t) !! p = entries t !! p) /\
    (forall p, is_Some (entries (write_slot (slot_of i es1) v t) !! p) <-> is_Some (entries t !! p)).
Proof.
  intros Hb Hi Hs Hn. destruct es1 as [|x es1 _] using rev_ind.
  - exists v. cbn [slot_of last write_slot hash_buckets entries]. split_and!; [|done..].
    rewrite Hb, insert_app_r_alt, Hi, Nat.sub_diag by lia. done.
  - rewrite slot_of_snoc. cbn [write_slot hash_buckets entries]. exists hd.
    rewrite map_app, NoDup_app in Hn. destruct Hn as (_&Hn&_).
    apply chain_app in Hs as (m1&Hs1&(->&nx&Hx&<-)). split_and!; [done| | |].
    + apply chain_app. exists (Some (ptr x)). split.
      * eapply chain_frame; [|done]. intros p Hp. rewrite lookup_alter_ne; [done|]. intros <-.
        eapply Hn; [done|]. by apply list_elem_of_singleton.
      * split; [done|]. exists v. rewrite lookup_alter_eq, Hx. done.
    + intros p Hp. rewrite lookup_alter_ne; [done|]. intros <-. apply Hp. rewrite map_app, elem_of_app. right.
      by apply list_elem_of_singleton.
    + intros p. destruct (decide (p = ptr x)) as [->|Hne].
      * rewrite lookup_alter_eq, Hx. simpl. split; by eauto.
      * by rewrite lookup_alter_ne by congruence.
Qed.

Lemma seg_length h hd es : seg h hd es None -> NoDup (map ptr es) -> length es <= size h.
Proof.
  intros Hs Hn. rewrite <- (length_map ptr), <- (size_list_to_set (C := gset positive)), <- (size_dom (D := gset positive)) by done.
  apply subseteq_size. intros p. rewrite elem_of_list_to_set, elem_of_dom. clear Hn.
  revert hd Hs. induction es as [|x es IH]; intros hd Hs Hp; [by apply not_elem_of_nil in Hp|].
  destruct Hs as (_&nx&Hx&Hs). apply elem_of_cons in Hp as [->|Hp]; [by eauto|by eapply IH].
Qed.

Section Table.

Context (ulong_bits : nat).

Notation hash_of := (hash_of ulong_bits).

(** Each item is in the bucket of its name, with the long hash of its name, and
    chains are ordered by it. *)
Definition item_ok (i : nat) (x : item) : Prop :=
  exists ls, valid_name ls /\ qname (cent x) = wire ls /\ hash_of ls = (i, ihash x).

Definition by_hash (x y : item) : Prop := (ihash x <= ihash y)%Z.

Definition bucket_ok (i : nat) (es : list item) : Prop := Forall (item_ok i) es /\ StronglySorted by_hash es.

(** An item for the key is found by its hash. *)
Lemma item_ok_key i x A : item_ok i x -> valid_name A -> key (cent x) = lower (wire A) -> hash_of A = (i, ihash x).
Proof.
  intros (ls&[Hv _]&Hq&<-) [HA _] Hk. unfold key in Hk. rewrite Hq in Hk. apply lower_wire in Hk; [|done..].
  by apply hash_of_fold.
Qed.

(** Where the search in a bucket stops. *)
Definition stops_at (A : list (list byte)) (rh : Z) (es1 es2 : list item) (found : option (positive * dns_hash_ent_t))
    (h : gmap positive dns_hash_ent_t) : Prop :=
  Forall (fun x => (ihash x <= rh)%Z /\ key (cent x) <> lower (wire A)) es1 /\
  match found with
  | Some (p, e) => exists x es, es2 = x :: es /\ p = ptr x /\ h !! p = Some e /\ data e = cent x /\
      key (cent x) = lower (wire A)
  | None => Forall (fun x => (rh < ihash x)%Z) es2
  end.

Lemma find_slot_spec t i hb hd ha A r rh : hash_buckets t = hb ++ hd :: ha -> length hb = i -> valid_name A -> hash_of A = (i, rh) ->
  forall es2 es1 fuel, seg (entries t) hd (es1 ++ es2) None -> Forall (item_ok i) es2 -> StronglySorted by_hash es2 -> length es2 < fuel ->
  Forall (fun x => (ihash x <= rh)%Z /\ key (cent x) <> lower (wire A)) es1 ->
  exists ea eb found, es1 ++ es2 = ea ++ eb /\
    find_slot fuel t (wire A ++ r) rh (slot_of i es1) = Some (slot_of i ea, found) /\ stops_at A rh ea eb found (entries t).
Proof.
  intros Hb Hi HA Hh. induction es2 as [|x es2 IH]; intros es1 [|fuel] Hs Hok Hso Hf H1; cbn [length] in Hf; try lia;
    cbn [find_slot]; destruct (read_slot_spec t i hb hd ha es1 _ Hb Hi Hs) as (m&->&Hm); cbn [mbind option_bind].
  - simpl in Hm. subst m. exists es1, [], None. split_and!; [done..|]. by split.
  - destruct Hm as (->&nx&Hx&_). cbn [mbind option_bind]. rewrite Hx. cbn [mbind option_bind rhash data].
    apply Forall_cons in Hok as [Hxok Hok]. apply StronglySorted_inv in Hso as [Hso Hxs].
    destruct (Z.leb_spec (ihash x) rh) as [Hle|Hgt].
    + assert (Hcmp : (if (ihash x =? rh)%Z then rhnicmp (wire A ++ r) (qname (cent x)) else Some false) =
        Some (bool_decide (key (cent x) = lower (wire A)))).
      { destruct Hxok as (ls&[Hv ?]&Hq&Hhx). destruct HA as [HA ?]. destruct (Z.eqb_spec (ihash x) rh) as [E|E].
        - rewrite Hq, <- (app_nil_r (wire ls)), rhnicmp_spec by done. f_equal. apply bool_decide_ext.
          unfold key. rewrite Hq, lower_wire by done. naive_solver.
        - rewrite bool_decide_false; [done|]. unfold key. rewrite Hq, lower_wire by done. intros Hf'%(hash_of_fold ulong_bits).
          rewrite Hhx, Hh in Hf'. congruence. }
      rewrite Hcmp. cbn [mbind option_bind]. destruct (bool_decide_reflect (key (cent x) = lower (wire A))) as [E|E].
      * exists es1, (x :: es2), (Some (ptr x, Ent nx (ihash x) (cent x))). split_and!; [done..|]. split; [done|].
        exists x, es2. by split_and!.
      * assert (Ha : es1 ++ x :: es2 = (es1 ++ [x]) ++ es2) by (by rewrite <- app_assoc). rewrite Ha in Hs |- *.
        destruct (IH (es1 ++ [x]) fuel Hs Hok Hso ltac:(lia)) as (ea&eb&found&?&Hr&?).
        { apply Forall_app. split; [done|]. by apply Forall_singleton. }
        rewrite slot_of_snoc in Hr. by exists ea, eb, found.
    + exists es1, (x :: es2), None. split_and!; [done..|]. split; [done|]. constructor; [done|].
      eapply Forall_impl; [exact Hxs|]. unfold by_hash. intros y Hy. simpl in Hy. lia.
Qed.

(** ** Insertion and removal in a chain *)

Lemma nodup_bucket t Lb es La : Rep t (Lb ++ es :: La) -> NoDup (map ptr es).
Proof. intros [_ _ Hn _]. rewrite concat_mid, !map_app, !NoDup_app in Hn. naive_solver. Qed.

Lemma rep_split t Lb es La : Rep t (Lb ++ es :: La) ->
  exists hb hd ha, hash_buckets t = hb ++ hd :: ha /\ length hb = length Lb /\
    Forall2 (fun hd es => seg (entries t) hd es None) hb Lb /\ seg (entries t) hd es None /\
    Forall2 (fun hd es => seg (entries t) hd es None) ha La.
Proof.
  intros [_ Hc _ _]. apply Forall2_app_inv_r in Hc as (hb&hr&Hb&Hr&Ht).
  apply Forall2_cons_inv_r in Hr as (hd&ha&Hhd&Ha&->). exists hb, hd, ha. apply Forall2_length in Hb as Hl. by split_and!.
Qed.

Lemma rep_delete t Lb es1 x es2 La : Rep t (Lb ++ (es1 ++ x :: es2) :: La) ->
  exists e, entries t !! ptr x = Some e /\ data e = cent x /\
    read_slot t (slot_of (length Lb) es1) = Some (Some (ptr x)) /\
    Rep (free_entry (ptr x) (write_slot (slot_of (length Lb) es1) (next e) t)) (Lb ++ (es1 ++ es2) :: La).
Proof.
  intros HR. destruct (rep_split _ _ _ _ HR) as (hb&hd&ha&Hb&Hl&Hhb&Hs&Hha).
  pose proof (nodup_bucket _ _ _ _ HR) as Hn. rewrite map_app, NoDup_app in Hn. destruct Hn as (Hn1&Hn2&Hn3).
  apply NoDup_cons in Hn3 as [Hn3 Hn4].
  destruct (read_slot_spec t (length Lb) hb hd ha es1 (x :: es2) Hb Hl Hs) as (m&Hm&->&nx&Hx&_).
  apply chain_app in Hs as (m1&Hs1&(->&nx'&Hx'&Hs2)). rewrite Hx in Hx'. injection Hx' as <-.
  exists (Ent nx (ihash x) (cent x)). split_and!; [done..|]. cbn [next].
  destruct (write_slot_spec t (length Lb) hb hd ha es1 _ nx Hb Hl Hs1 Hn1) as (hd'&Hb'&Hs'&Hf&Hd).
  assert (Hx1 : ptr x ∉ map ptr es1) by (intros H; eapply Hn2; [done|by left]).
  assert (Hfr : forall es, (forall p, p ∈ map ptr es -> p <> ptr x) -> forall p, p ∈ map ptr es ->
    delete (ptr x) (entries (write_slot (slot_of (length Lb) es1) nx t)) !! p = entries (write_slot (slot_of (length Lb) es1) nx t) !! p)
    by (intros es He p Hp; rewrite lookup_delete_ne; [done|apply not_eq_sym, (He p Hp)]).
  unfold free_entry. rewrite Hb'. eapply (rep_replace t Lb (es1 ++ x :: es2)); try done.
  - apply chain_app. exists nx. split.
    + eapply chain_frame; [|exact Hs']. apply Hfr. by intros p Hp ->.
    + eapply chain_frame; [|exact Hs2]. intros p Hp. rewrite lookup_delete_ne by (by intros <-).
      apply Hf. intros H1. eapply Hn2; [done|]. by right.
  - intros p Hp _. rewrite map_app, elem_of_app in Hp. cbn [map] in Hp. rewrite elem_of_cons in Hp.
    rewrite lookup_delete_ne by naive_solver. apply Hf. naive_solver.
  - intros p. rewrite !map_app, !elem_of_app. cbn [map]. rewrite elem_of_cons. intros Hp.
    destruct (decide (p = ptr x)) as [->|Hne].
    + rewrite lookup_delete_eq. split; [by intros []|]. intros [?|?]; done.
    + rewrite lookup_delete_ne, Hd by congruence. destruct HR as [_ _ _ Hdom]. rewrite Hdom, concat_mid, !map_app, !elem_of_app.
      cbn [map]. rewrite elem_of_cons. naive_solver.
  - intros p. rewrite !map_app, !elem_of_app. cbn [map]. rewrite elem_of_cons. naive_solver.
  - rewrite map_app, NoDup_app. split_and!; [done| |done]. intros p Hp Hp2. eapply Hn2; [done|]. by right.
Qed.

Lemma rep_insert t Lb es1 es2 La p rh c nx : Rep t (Lb ++ (es1 ++ es2) :: La) -> entries t !! p = None ->
  read_slot t (slot_of (length Lb) es1) = Some nx ->
  Rep (write_slot (slot_of (length Lb) es1) (Some p) (Table (hash_buckets t) (<[p := Ent nx rh c]> (entries t))))
    (Lb ++ (es1 ++ (p, rh, c) :: es2) :: La).
Proof.
  intros HR Hp Hr. destruct (rep_split _ _ _ _ HR) as (hb&hd&ha&Hb&Hl&Hhb&Hs&Hha).
  pose proof (nodup_bucket _ _ _ _ HR) as Hn.
  destruct (read_slot_spec t (length Lb) hb hd ha es1 es2 Hb Hl Hs) as (m&Hm&Hs2). rewrite Hr in Hm. injection Hm as <-.
  assert (Hpn : forall es, seg (entries t) hd es None -> p ∉ map ptr es).
  { intros es He. clear -He Hp. revert hd He. induction es as [|x es IH]; intros hd He; [by apply not_elem_of_nil|].
    destruct He as (_&nx&Hx&He). apply not_elem_of_cons. split; [congruence|by eapply IH]. }
  specialize (Hpn _ Hs). rewrite map_app in Hn, Hpn. rewrite elem_of_app in Hpn. rewrite NoDup_app in Hn. destruct Hn as (Hn1&Hn2&Hn3).
  apply chain_app in Hs as (m1&Hs1&_). set (t1 := Table (hash_buckets t) (<[p := Ent nx rh c]> (entries t))).
  assert (Hs1' : seg (entries t1) hd es1 m1)
    by (eapply chain_frame; [|exact Hs1]; intros q Hq; cbn; rewrite lookup_insert_ne; [done|]; intros <-; naive_solver).
  destruct (write_slot_spec t1 (length Lb) hb hd ha es1 _ (Some p) Hb Hl Hs1' Hn1) as (hd'&Hb'&Hs'&Hf&Hd).
  assert (Ht : forall t, t = Table (hash_buckets t) (entries t)) by (by intros []).
  rewrite (Ht (write_slot _ _ t1)), Hb'.
  eapply (rep_replace t Lb (es1 ++ es2)); try done.
  - apply chain_app. exists (Some p). split; [done|]. split; [done|]. exists nx. split.
    + rewrite Hf by (cbn; naive_solver). cbn. by rewrite lookup_insert_eq.
    + eapply chain_frame; [|exact Hs2]. intros q Hq. rewrite Hf by (intros H; by eapply Hn2). cbn.
      rewrite lookup_insert_ne; [done|]. intros <-. naive_solver.
  - intros q. rewrite !map_app, !elem_of_app. cbn [map]. rewrite elem_of_cons. intros H1 H2. rewrite Hf by naive_solver.
    cbn. rewrite lookup_insert_ne by (intros <-; cbn in *; naive_solver). done.
  - intros q. rewrite Hd. rewrite !map_app, !elem_of_app. cbn [map]. rewrite elem_of_cons. intros Hq.
    cbn. destruct (decide (q = p)) as [->|]; [naive_solver|]. rewrite lookup_insert_ne by done.
    destruct HR as [_ _ _ Hdom]. rewrite Hdom, concat_mid, !map_app, !elem_of_app. naive_solver.
  - intros q. rewrite !map_app, !elem_of_app. cbn [map]. rewrite elem_of_cons. intros [?|[->|?]] Hq; naive_solver.
  - rewrite map_app, NoDup_app. split_and!; [done| |].
    + intros q Hq. cbn [map]. rewrite elem_of_cons. intros [->|?]; [naive_solver|]. by eapply Hn2.
    + cbn [map]. apply NoDup_cons. split; [naive_solver|done].
Qed.

(** ** The table as a finite map *)

Record Table_ok (t : hash_table) (L : list (list item)) : Prop := {
  ok_rep : Rep t L;
  ok_buckets : forall i es, L !! i = Some es -> bucket_ok i es;
  ok_keys : NoDup (map (fun x => key (cent x)) (concat L));
}.

(** The cache entries by the lower-case form of their names. *)
Definition table_map (L : list (list item)) : gmap (list byte) dns_cent_t :=
  list_to_map (map (fun x => (key (cent x), cent x)) (concat L)).

Lemma keys_fst (l : list item) : (map (fun x => (key (cent x), cent x)) l).*1 = map (fun x => key (cent x)) l.
Proof. induction l as [|x l IH]; [done|]. simpl. f_equal. exact IH. Qed.

Lemma table_map_lookup t L k c : Table_ok t L ->
  table_map L !! k = Some c <-> exists x, x ∈ concat L /\ cent x = c /\ key c = k.
Proof.
  intros [_ _ Hk]. rewrite <- keys_fst in Hk. unfold table_map. rewrite <- (elem_of_list_to_map _ k c Hk).
  rewrite list_elem_of_fmap. split.
  - intros (x&[= -> ->]&?). by exists x.
  - intros (x&?&<-&<-). by exists x.
Qed.

Lemma table_map_none t L k : Table_ok t L ->
  table_map L !! k = None <-> forall x, x ∈ concat L -> key (cent x) <> k.
Proof.
  intros Hok. split.
  - intros Hn x Hx Hk. assert (H : table_map L !! k = Some (cent x)) by (apply (table_map_lookup t); eauto). congruence.
  - intros Hx. destruct (table_map L !! k) as [c|] eqn:E; [|done].
    apply (table_map_lookup t) in E as (x&?&<-&<-); [|done]. by destruct (Hx x).
Qed.

Lemma concat_perm Lb es1 (x : item) es2 La :
  concat (Lb ++ (es1 ++ x :: es2) :: La) ≡ₚ x :: concat (Lb ++ (es1 ++ es2) :: La).
Proof. rewrite !concat_mid, <- !app_assoc. simpl. by rewrite <- !Permutation_middle. Qed.

(** The map of a table with one more item. *)
Lemma table_map_add Lb es1 es2 La x :
  NoDup (map (fun x => key (cent x)) (concat (Lb ++ (es1 ++ x :: es2) :: La))) ->
  table_map (Lb ++ (es1 ++ x :: es2) :: La) = <[key (cent x) := cent x]> (table_map (Lb ++ (es1 ++ es2) :: La)) /\
  table_map (Lb ++ (es1 ++ es2) :: La) !! key (cent x) = None.
Proof.
  intros Hn. pose proof (concat_perm Lb es1 x es2 La) as Hp. rewrite Hp in Hn. simpl in Hn. apply NoDup_cons in Hn as [Hx Hn]. split.
  - unfold table_map. etrans.
    + apply (list_to_map_proper _ (map (fun x => (key (cent x), cent x)) (x :: concat (Lb ++ (es1 ++ es2) :: La)))).
      * rewrite keys_fst, Hp. cbn [map]. by apply NoDup_cons.
      * by rewrite Hp.
    + done.
  - unfold table_map. apply not_elem_of_list_to_map. by rewrite keys_fst.
Qed.

Lemma lookup_mid_ne {B} (Lb : list B) es es' La i : i <> length Lb -> (Lb ++ es' :: La) !! i = (Lb ++ es :: La) !! i.
Proof.
  intros Hi. destruct (decide (i < length Lb)); [by rewrite !lookup_app_l by lia|].
  rewrite !lookup_app_r by lia. by destruct (i - length Lb) eqn:E; [lia|].
Qed.

Lemma table_ok_replace t t' Lb es es' La :
  Table_ok t (Lb ++ es :: La) -> Rep t' (Lb ++ es' :: La) -> bucket_ok (length Lb) es' ->
  NoDup (map (fun x => key (cent x)) (concat (Lb ++ es' :: La))) -> Table_ok t' (Lb ++ es' :: La).
Proof.
  intros [_ Hb _] HR Hes Hn. split; [done| |done]. intros i e Hi. destruct (decide (i = length Lb)) as [->|Hne].
  - rewrite list_lookup_middle in Hi by done. by injection Hi as <-.
  - apply Hb. rewrite <- Hi. symmetry. by apply lookup_mid_ne.
Qed.

(** The search for a name. *)
Lemma search t L A r : Table_ok t L -> valid_name A ->
  exists Lb ea eb La found, L = Lb ++ (ea ++ eb) :: La /\
    hash_of A = (length Lb, (hash_of A).2) /\
    find_slot (walk_fuel t) t (wire A ++ r) (hash_of A).2 (Bucket (length Lb)) = Some (slot_of (length Lb) ea, found) /\
    stops_at A (hash_of A).2 ea eb found (entries t) /\
    table_map L !! lower (wire A) = (fun pe : positive * dns_hash_ent_t => data pe.2) <$> found.
Proof.
  intros Hok HA. pose proof (hash_of_bound ulong_bits A) as Hi.
  destruct (rep_bucket t L (hash_of A).1 (ok_rep _ _ Hok) Hi) as (Lb&es&La&hb&hd&ha&->&Hb&HLb&Hhb&_&Hs&_).
  pose proof (ok_buckets _ _ Hok (length Lb) es ltac:(by apply list_lookup_middle)) as [Hit Hso].
  destruct (find_slot_spec t (length Lb) hb hd ha A r (hash_of A).2 Hb ltac:(lia) HA ltac:(rewrite HLb; by destruct (hash_of A))
    es [] (walk_fuel t)) as (ea&eb&found&Heq&Hf&Hst); [done..| |by constructor|].
  { pose proof (seg_length _ _ _ Hs (nodup_bucket _ _ _ _ (ok_rep _ _ Hok))). unfold walk_fuel. lia. }
  simpl in Heq. subst es. exists Lb, ea, eb, La, found. split_and!; [done|rewrite HLb; by destruct (hash_of A)|done|done|].
  destruct Hst as [Hea Hfd]. destruct found as [[p e]|]; simpl.
  - destruct Hfd as (x&eb'&->&->&_&->&Hk). apply (table_map_lookup t); [done|]. exists x. split_and!; [|done..].
    rewrite concat_mid, !elem_of_app, elem_of_cons. auto.
  - apply (table_map_none t); [done|]. intros x Hx Hk.
    apply list_elem_of_lookup in Hx as (j&Hj). apply list_elem_of_lookup_2 in Hj as Hx.
    apply list_elem_of_In, in_concat in Hx as (es'&Hes'&Hx). apply list_elem_of_In in Hx, Hes'.
    apply list_elem_of_lookup in Hes' as (i&Hi').
    destruct (ok_buckets _ _ Hok i es' Hi') as [Hit' _]. rewrite Forall_forall in Hit'.
    pose proof (item_ok_key i x A (Hit' x Hx) HA Hk) as Hh. rewrite Hh in HLb. simpl in HLb. subst i.
    rewrite list_lookup_middle in Hi' by done. injection Hi' as <-. rewrite Hh in *. simpl in *.
    apply elem_of_app in Hx as [Hx|Hx].
    + rewrite Forall_forall in Hea. by destruct (Hea x Hx).
    + rewrite Forall_forall in Hfd. specialize (Hfd x Hx). lia.
Qed.

Lemma chain_sorted_remove es1 x es2 : StronglySorted by_hash (es1 ++ x :: es2) -> StronglySorted by_hash (es1 ++ es2).
Proof.
  induction es1 as [|y es1 IH]; intros H; apply StronglySorted_inv in H as [H Hf]; [done|].
  constructor; [by apply IH|]. rewrite Forall_app, Forall_cons in Hf. apply Forall_app. naive_solver.
Qed.

Lemma sorted_insert es1 es2 x : StronglySorted by_hash (es1 ++ es2) ->
  Forall (fun y => (ihash y <= ihash x)%Z) es1 -> Forall (fun y => (ihash x < ihash y)%Z) es2 ->
  StronglySorted by_hash (es1 ++ x :: es2).
Proof.
  induction es1 as [|y es1 IH]; intros H H1 H2.
  - constructor; [done|]. eapply Forall_impl; [exact H2|]. unfold by_hash. intros z Hz. simpl in Hz. lia.
  - apply StronglySorted_inv in H as [H Hf]. apply Forall_cons in H1 as [Hy H1]. constructor; [by apply IH|].
    rewrite Forall_app in Hf. apply Forall_app. split; [naive_solver|]. constructor; [done|naive_solver].
Qed.

(** Removal of an item keeps the table in order. *)
Lemma table_ok_remove t t' Lb es1 x es2 La : Table_ok t (Lb ++ (es1 ++ x :: es2) :: La) -> Rep t' (Lb ++ (es1 ++ es2) :: La) ->
  Table_ok t' (Lb ++ (es1 ++ es2) :: La) /\
  table_map (Lb ++ (es1 ++ es2) :: La) = delete (key (cent x)) (table_map (Lb ++ (es1 ++ x :: es2) :: La)).
Proof.
  intros Hok HR. pose proof (ok_keys _ _ Hok) as Hk. destruct (table_map_add _ _ _ _ _ Hk) as [Hm Hn]. split.
  - eapply table_ok_replace; [done..| |].
    + destruct (ok_buckets _ _ Hok (length Lb) _ ltac:(by apply list_lookup_middle)) as [H1 H2].
      split; [|by eapply chain_sorted_remove]. rewrite Forall_app, Forall_cons in H1. apply Forall_app. naive_solver.
    + rewrite concat_perm in Hk. by apply NoDup_cons in Hk as [_ ?].
  - rewrite Hm. by rewrite delete_insert_id.
Qed.

Lemma dns_lookup_ok t L A r : Table_ok t L -> valid_name A ->
  exists loc, dns_lookup ulong_bits t (wire A ++ r) = Some (table_map L !! lower (wire A), loc) /\
    loc_rhash loc = (hash_of A).2 /\
    exists Lb ea eb La, L = Lb ++ (ea ++ eb) :: La /\ loc_pos loc = slot_of (length Lb) ea /\ hash_of A = (length Lb, (hash_of A).2) /\
      match table_map L !! lower (wire A) with
      | Some c => exists x eb', eb = x :: eb' /\ cent x = c /\ key c = lower (wire A)
      | None => Forall (fun y => (ihash y <= (hash_of A).2)%Z) ea /\ Forall (fun y => ((hash_of A).2 < ihash y)%Z) eb
      end.
Proof.
  intros Hok HA. destruct (search t L A r Hok HA) as (Lb&ea&eb&La&found&HL&Hh&Hf&[Hea Hfd]&Hm).
  exists (Loc (slot_of (length Lb) ea) (hash_of A).2). unfold dns_lookup.
  rewrite dns_hash_spec by apply HA. rewrite Hh at 1. cbn [mbind option_bind]. rewrite Hf. cbn [mbind option_bind].
  rewrite Hm. split; [by destruct found as [[??]|]|]. split; [done|].
  exists Lb, ea, eb, La. split_and!; [done..|]. destruct found as [[p e]|]; simpl.
  - destruct Hfd as (x&es&->&->&_&->&Hk). by exists x, es.
  - split; [|done]. eapply Forall_impl; [exact Hea|]. by intros y [??].
Qed.

(** Insertion at the location of an unsuccessful lookup. *)
Lemma add_dns_hash_ok t L A c loc p : Table_ok t L -> valid_name A -> qname c = wire A ->
  table_map L !! key c = None -> entries t !! p = None -> dns_lookup ulong_bits t (qname c) = Some (None, loc) ->
  exists t' L', add_dns_hash t c loc (Some p) = Some (true, t') /\ Table_ok t' L' /\ table_map L' = <[key c := c]> (table_map L).
Proof.
  intros Hok HA Hq Hn Hp Hl. assert (Hkey : key c = lower (wire A)) by (unfold key; by rewrite Hq).
  destruct (dns_lookup_ok t L A [] Hok HA) as (loc'&Hl'&Hrh&Lb&ea&eb&La&->&Hpos&Hh&Hm). rewrite app_nil_r, <- Hq, <- Hkey in *.
  rewrite Hl in Hl'. injection Hl' as _ <-. rewrite Hn in Hm. destruct Hm as [Hea Heb].
  destruct (rep_split _ _ _ _ (ok_rep _ _ Hok)) as (hb&hd&ha&Hb&Hlen&_&Hs&_).
  destruct (read_slot_spec t (length Lb) hb hd ha ea eb Hb Hlen Hs) as (nx&Hr&_).
  unfold add_dns_hash. rewrite Hpos, Hr. cbn [mbind option_bind].
  pose proof (rep_insert t Lb ea eb La p (loc_rhash loc) c nx (ok_rep _ _ Hok) Hp Hr) as HR.
  do 2 eexists. split; [done|].
  assert (Hk : NoDup (map (fun x => key (cent x)) (concat (Lb ++ (ea ++ (p, loc_rhash loc, c) :: eb) :: La)))).
  { pose proof (ok_keys _ _ Hok) as Hk. pose proof (proj1 (table_map_none t _ _ Hok) Hn) as Hx.
    rewrite concat_perm. cbn [map]. apply NoDup_cons. split; [|done]. intros (x&Hx1&Hx2)%list_elem_of_fmap. by apply (Hx x). }
  split; [|by apply (table_map_add Lb ea eb La (p, loc_rhash loc, c))].
  eapply table_ok_replace; [exact Hok|exact HR| |exact Hk].
  destruct (ok_buckets _ _ Hok (length Lb) _ ltac:(by apply list_lookup_middle)) as [H1 H2]. split.
  - rewrite Forall_app in *. rewrite Forall_cons. split_and!; [naive_solver| |naive_solver].
    exists A. split_and!; [done..|]. by rewrite Hh, Hrh.
  - apply sorted_insert; [done|by rewrite <- Hrh in *..].
Qed.

(** An item is determined by its name. *)
Lemma split_unique l1 : forall l1' (x x' : item) l2 l2',
  l1 ++ x :: l2 = l1' ++ x' :: l2' -> NoDup (map (fun x => key (cent x)) (l1 ++ x :: l2)) -> key (cent x) = key (cent x') ->
  l1 = l1' /\ x = x' /\ l2 = l2'.
Proof.
  induction l1 as [|y l1 IH]; intros [|y' l1'] x x' l2 l2' E Hn Hk; simpl in E, Hn; apply NoDup_cons in Hn as [Hn1 Hn2].
  - by injection E as -> ->.
  - injection E as -> ->. exfalso. apply Hn1. rewrite Hk. apply list_elem_of_fmap. exists x'. split; [done|].
    rewrite elem_of_app, elem_of_cons. auto.
  - injection E as -> <-. exfalso. apply Hn1. rewrite <- Hk. apply list_elem_of_fmap. exists x. split; [done|].
    rewrite elem_of_app, elem_of_cons. auto.
  - injection E as -> E. destruct (IH _ _ _ _ _ E Hn2 Hk) as (->&->&->). done.
Qed.

Lemma unique_item t A Lb ea x eb La Lb' ea' x' eb' La' :
  Table_ok t (Lb ++ (ea ++ x :: eb) :: La) -> valid_name A ->
  Lb ++ (ea ++ x :: eb) :: La = Lb' ++ (ea' ++ x' :: eb') :: La' ->
  key (cent x) = lower (wire A) -> key (cent x') = lower (wire A) ->
  Lb = Lb' /\ ea = ea' /\ x = x' /\ eb = eb' /\ La = La'.
Proof.
  intros Hok HA E Hk Hk'.
  assert (Hlen : forall Lb ea x eb La, Table_ok t (Lb ++ (ea ++ x :: eb) :: La) -> key (cent x) = lower (wire A) ->
    length Lb = (hash_of A).1).
  { intros Lb1 ea1 x1 eb1 La1 Hok1 Hk1.
    destruct (ok_buckets _ _ Hok1 (length Lb1) _ ltac:(by apply list_lookup_middle)) as [Hit _].
    rewrite Forall_app, Forall_cons in Hit. destruct Hit as (_&Hit&_). by rewrite (item_ok_key _ _ A Hit HA Hk1). }
  pose proof (Hlen _ _ _ _ _ Hok Hk) as H1. pose proof Hok as Hok2. rewrite E in Hok2. pose proof (Hlen _ _ _ _ _ Hok2 Hk') as H2.
  apply app_inj_1 in E as [-> E]; [|lia]. injection E as E ->.
  pose proof (ok_keys _ _ Hok) as Hn. rewrite concat_mid, map_app, (map_app _ (ea ++ _)), !NoDup_app in Hn. destruct Hn as (_&_&Hn&_).
  destruct (split_unique _ _ _ _ _ _ E Hn ltac:(congruence)) as (->&->&->). done.
Qed.

(** Removal by name, and of the entry a lookup found. *)
Lemma del_item_ok t Lb ea x eb La A r : Table_ok t (Lb ++ (ea ++ x :: eb) :: La) -> valid_name A -> key (cent x) = lower (wire A) ->
  exists t', Table_ok t' (Lb ++ (ea ++ eb) :: La) /\ del_dns_hash ulong_bits t (wire A ++ r) = Some (Some (cent x), t') /\
    exists loc, dns_lookup ulong_bits t (wire A ++ r) = Some (Some (cent x), loc) /\ del_dns_hash_ent t loc = Some (cent x, t').
Proof.
  intros Hok HA Hk. destruct (search t _ A r Hok HA) as (Lb'&ea'&eb'&La'&found&HL&Hh&Hf&[Hea Hfd]&Hm).
  assert (Hx : table_map (Lb ++ (ea ++ x :: eb) :: La) !! lower (wire A) = Some (cent x)).
  { apply (table_map_lookup t); [done|]. exists x. split_and!; [|done..]. rewrite concat_mid, !elem_of_app, elem_of_cons. auto. }
  rewrite Hx in Hm. destruct found as [[p e]|]; [|done]. injection Hm as Hm.
  destruct Hfd as (x'&es&->&->&He&Hde&Hk').
  destruct (unique_item t A _ _ _ _ _ _ _ _ _ _ Hok HA HL Hk Hk') as (->&->&->&->&->).
  destruct (rep_delete t Lb' ea' x' es La' (ok_rep _ _ Hok)) as (e'&He'&Hd'&Hr'&HR). rewrite He in He'. injection He' as <-.
  destruct (table_ok_remove _ _ _ _ _ _ _ Hok HR) as [Hok' _].
  eexists. split; [exact Hok'|]. unfold del_dns_hash, dns_lookup, del_dns_hash_ent. rewrite !dns_hash_spec by apply HA.
  destruct (hash_of A) as [i rh]. injection Hh as ->. cbn [snd] in Hf. cbn [mbind option_bind]. rewrite Hf. cbn [mbind option_bind]. rewrite Hde.
  split; [done|]. eexists. split; [done|]. cbn [loc_pos]. rewrite Hr'. cbn [mbind option_bind]. rewrite He. cbn [mbind option_bind].
  by rewrite Hde.
Qed.

(** ** Freeing *)

Lemma free_chain_spec es : forall fuel b h he, seg h he es None -> NoDup (map ptr es) -> length es < fuel ->
  exists h', free_chain fuel (Table b h) he = Some (map cent es, Table b h') /\
    forall p, h' !! p = if decide (p ∈ map ptr es) then None else h !! p.
Proof.
  induction es as [|x es IH]; intros [|fuel] b h he Hs Hn Hf; cbn [length] in Hf; try lia; cbn [free_chain].
  - simpl in Hs. subst he. eexists; split; [done|]. intros p. by rewrite decide_False by apply not_elem_of_nil.
  - destruct Hs as (->&nx&Hx&Hs). cbn [entries]. rewrite Hx. cbn [mbind option_bind next data]. cbn [map] in *.
    apply NoDup_cons in Hn as [Hnx Hn]. unfold free_entry. cbn [hash_buckets entries].
    destruct (IH fuel b (delete (ptr x) h) nx) as (h'&->&Hh'); [|done|lia|].
    { eapply chain_frame; [|done]. intros p Hp. rewrite lookup_delete_ne; [done|]. by intros <-. }
    cbn [mbind option_bind]. eexists; split; [done|]. intros p. rewrite Hh'.
    destruct (decide (p = ptr x)) as [->|Hne].
    + rewrite (decide_True (P := ptr x ∈ ptr x :: _)) by (by left). by rewrite lookup_delete_eq; case_decide.
    + rewrite lookup_delete_ne by done. destruct (decide (p ∈ map ptr es)).
      * rewrite decide_True; [done|by right].
      * rewrite decide_False; [done|]. by intros [?|?]%elem_of_cons.
Qed.

Lemma free_bucket_ok t Lb es La : Rep t (Lb ++ es :: La) ->
  exists t', free_dns_hash_bucket t (length Lb) = Some (map cent es, t') /\ Rep t' (Lb ++ [] :: La).
Proof.
  intros HR. destruct (rep_split _ _ _ _ HR) as (hb&hd&ha&Hb&Hl&Hhb&Hs&Hha). pose proof (nodup_bucket _ _ _ _ HR) as Hn.
  unfold free_dns_hash_bucket. cbn [read_slot]. rewrite Hb, <- Hl, list_lookup_middle by done. cbn [mbind option_bind write_slot].
  destruct (free_chain_spec es (walk_fuel t) (<[length hb := None]> (hash_buckets t)) (entries t) hd Hs Hn) as (h'&Hfc&Hh').
  { pose proof (seg_length _ _ _ Hs Hn). unfold walk_fuel. lia. }
  rewrite Hfc. eexists; split; [done|]. rewrite Hb, insert_app_r_alt, Nat.sub_diag by lia. cbn [insert list_insert].
  eapply (rep_replace t Lb es La hb hd ha None []); try done.
  - intros p Hp _. rewrite Hh'. by rewrite decide_False.
  - intros p Hp. rewrite Hh', decide_True by done. split; [by intros []|]. by intros ?%not_elem_of_nil.
  - by intros p ?%not_elem_of_nil.
  - constructor.
Qed.

Lemma free_buckets_ok La : forall Lb t, Rep t (Lb ++ La) ->
  exists t', free_buckets (length La) (length Lb) t = Some (map cent (concat La), t') /\ Rep t' (Lb ++ repeat [] (length La)).
Proof.
  induction La as [|es La IH]; intros Lb t HR; cbn [length free_buckets repeat].
  - by exists t.
  - destruct (free_bucket_ok t Lb es La HR) as (t1&->&HR1). cbn [mbind option_bind].
    destruct (IH (Lb ++ [[]]) t1) as (t2&Hf&HR2); [by rewrite <- app_assoc|].
    rewrite length_app, Nat.add_1_r in Hf. rewrite Hf. cbn [mbind option_bind]. eexists. split.
    + simpl. by rewrite map_app.
    + by rewrite <- app_assoc in HR2.
Qed.

(** Items that are kept and items that are deleted. *)
Definition sel (sla : list slist_t) (x : item) : bool := bool_decide (selected (qname (cent x)) sla = Some true).

Lemma free_selected_ok sla es2 : forall fuel t Lb es1 La, Rep t (Lb ++ (es1 ++ es2) :: La) -> length es2 < fuel ->
  Forall (fun x => is_Some (selected (qname (cent x)) sla)) es2 ->
  exists t', free_selected fuel t sla (slot_of (length Lb) es1) = Some (map cent (filter (fun x => sel sla x = true) es2), t') /\
    Rep t' (Lb ++ (es1 ++ filter (fun x => sel sla x = false) es2) :: La).
Proof.
  induction es2 as [|x es2 IH]; intros [|fuel] t Lb es1 La HR Hf Hsel; cbn [length] in Hf; try lia; cbn [free_selected].
  - destruct (rep_split _ _ _ _ HR) as (hb&hd&ha&Hb&Hl&_&Hs&_).
    destruct (read_slot_spec t (length Lb) hb hd ha es1 [] Hb Hl Hs) as (m&->&Hm). simpl in Hm. subst m. by exists t.
  - apply Forall_cons in Hsel as [[d Hd] Hsel].
    destruct (rep_delete t Lb es1 x es2 La HR) as (e&He&Hde&Hr&HR'). rewrite Hr. cbn [mbind option_bind].
    rewrite He. cbn [mbind option_bind]. rewrite Hde, Hd. cbn [mbind option_bind].
    assert (Hx : sel sla x = d) by (unfold sel; rewrite Hd; destruct d; by case_bool_decide).
    rewrite !filter_cons. destruct d.
    + destruct (IH fuel _ Lb es1 La HR' ltac:(lia) Hsel) as (t'&->&HRt). cbn [mbind option_bind].
      rewrite decide_True, (decide_False (P := sel sla x = false)) by congruence. by eexists.
    + assert (Ha : es1 ++ x :: es2 = (es1 ++ [x]) ++ es2) by (by rewrite <- app_assoc). rewrite Ha in HR.
      destruct (IH fuel t Lb (es1 ++ [x]) La HR ltac:(lia) Hsel) as (t'&Hf'&HRt). rewrite slot_of_snoc in Hf'. rewrite Hf'.
      rewrite decide_False, (decide_True (P := sel sla x = false)) by congruence.
      eexists. split; [done|]. by rewrite <- app_assoc in HRt.
Qed.

(** Keeping only some items of a bucket keeps the table in order. *)
Lemma sorted_filter (f : item -> bool) es : StronglySorted by_hash es -> StronglySorted by_hash (filter (fun x => f x = false) es).
Proof.
  induction 1 as [|x es Hs IH Hx]; [constructor|]. rewrite filter_cons. case_decide; [|done].
  constructor; [done|]. apply Forall_forall. intros y Hy. apply list_elem_of_filter in Hy as [_ Hy].
  rewrite Forall_forall in Hx. auto.
Qed.

Lemma table_ok_filter t t' Lb es La (f : item -> bool) :
  Table_ok t (Lb ++ es :: La) -> Rep t' (Lb ++ filter (fun x => f x = false) es :: La) ->
  Table_ok t' (Lb ++ filter (fun x => f x = false) es :: La).
Proof.
  intros Hok HR. eapply table_ok_replace; [done..| |].
  - destruct (ok_buckets _ _ Hok (length Lb) _ ltac:(by apply list_lookup_middle)) as [H1 H2]. split; [|by apply sorted_filter].
    apply Forall_forall. intros y Hy. apply list_elem_of_filter in Hy as [_ Hy]. rewrite Forall_forall in H1. auto.
  - pose proof (ok_keys _ _ Hok) as Hk.
    eapply sublist_NoDup; [exact Hk|]. apply fmap_sublist. rewrite !concat_mid.
    apply sublist_app; [done|]. apply sublist_app; [apply sublist_filter|done].
Qed.

(** ** The table implements a finite map *)

(** Operations as the cache performs them. A key is a name in memory, with
    whatever follows it; an addition looks the name up first; [ok] is whether
    [malloc] succeeds. *)
Inductive op :=
  | Lookup (A : list (list byte)) (r : list byte)
  | Add (c : dns_cent_t) (ok : bool)
  | Delete (A : list (list byte)) (r : list byte)
  | DeleteFound (A : list (list byte)) (r : list byte)
  | FreeBucket (i : nat)
  | FreeSelected (i : nat) (sla : list slist_t)
  | FreeAll
  | Visit (del : dns_cent_t -> bool).

Context (malloc : gset positive -> positive).

(** The new table and the cache entries returned or freed. *)
Definition code_step (t : hash_table) (o : op) : option (hash_table * list dns_cent_t) :=
  match o with
  | Lookup A r => '(c, _) ← dns_lookup ulong_bits t (wire A ++ r); Some (t, option_list c)
  | Add c ok =>
      '(found, loc) ← dns_lookup ulong_bits t (qname c);
      match found with
      | Some c' => Some (t, [c'])
      | None =>
          '(_, t) ← add_dns_hash t c loc (if ok then Some (malloc (dom (entries t))) else None);
          Some (t, [])
      end
  | Delete A r => '(c, t) ← del_dns_hash ulong_bits t (wire A ++ r); Some (t, option_list c)
  | DeleteFound A r =>
      '(found, loc) ← dns_lookup ulong_bits t (wire A ++ r);
      match found with
      | Some _ => '(c, t) ← del_dns_hash_ent t loc; Some (t, [c])
      | None => Some (t, [])
      end
  | FreeBucket i => '(cs, t) ← free_dns_hash_bucket t i; Some (t, cs)
  | FreeSelected i sla => '(cs, t) ← free_dns_hash_selected t i sla; Some (t, cs)
  | FreeAll => '(cs, t) ← free_dns_hash t; Some (t, cs)
  | Visit del => '(cs, t) ← visit ulong_bits del t; Some (t, cs)
  end.

Definition op_ok (o : op) : Prop :=
  match o with
  | Lookup A _ | Delete A _ | DeleteFound A _ => valid_name A
  | Add c _ => exists A, valid_name A /\ qname c = wire A
  | FreeBucket i => i < HASH_NUM_BUCKETS
  | FreeSelected i sla => i < HASH_NUM_BUCKETS /\ Forall (fun sl => exists D, valid_name D /\ domain sl = wire D) sla
  | FreeAll | Visit _ => True
  end.

Definition in_bucket (i : nat) (c : dns_cent_t) : Prop := fst <$> dns_hash ulong_bits (qname c) = Some i.

(** Exactly the entries with [P] are gone, each freed once. *)
Definition freed (P : dns_cent_t -> Prop) (m m' : gmap (list byte) dns_cent_t) (cs : list dns_cent_t) : Prop :=
  (forall k c, m' !! k = Some c <-> m !! k = Some c /\ ~ P c) /\
  NoDup cs /\ (forall c, c ∈ cs <-> m !! key c = Some c /\ P c).

Lemma freed_ext (P Q : dns_cent_t -> Prop) m m' cs : (forall c, P c <-> Q c) -> freed P m m' cs -> freed Q m m' cs.
Proof. intros H (H1&H2&H3). split_and!; [intros k c; rewrite H1|done|intros c; rewrite H3]; by rewrite H. Qed.

(** The same operations on a finite map from names to cache entries. *)
Definition spec_step (m : gmap (list byte) dns_cent_t) (o : op) (m' : gmap (list byte) dns_cent_t) (cs : list dns_cent_t) : Prop :=
  match o with
  | Lookup A _ => m' = m /\ cs = option_list (m !! lower (wire A))
  | Add c ok =>
      match m !! key c with
      | Some c' => m' = m /\ cs = [c']
      | None => m' = (if ok then <[key c := c]> m else m) /\ cs = []
      end
  | Delete A _ | DeleteFound A _ => m' = delete (lower (wire A)) m /\ cs = option_list (m !! lower (wire A))
  | FreeBucket i => freed (in_bucket i) m m' cs
  | FreeSelected i sla => freed (fun c => in_bucket i c /\ selected (qname c) sla = Some true) m m' cs
  | FreeAll => freed (fun _ => True) m m' cs
  | Visit del =>
      NoDup cs /\ (forall c, c ∈ cs <-> m !! key c = Some c) /\
      (forall k c, m' !! k = Some c <-> m !! k = Some c /\ del c = false)
  end.

Inductive spec_steps : gmap (list byte) dns_cent_t -> list op -> gmap (list byte) dns_cent_t -> list (list dns_cent_t) -> Prop :=
  | spec_nil m : spec_steps m [] m []
  | spec_cons m o m' cs os m'' css :
      spec_step m o m' cs -> spec_steps m' os m'' css -> spec_steps m (o :: os) m'' (cs :: css).

Fixpoint code_steps (t : hash_table) (os : list op) : option (hash_table * list (list dns_cent_t)) :=
  match os with
  | [] => Some (t, [])
  | o :: os' =>
      '(t, cs) ← code_step t o;
      '(t, css) ← code_steps t os';
      Some (t, cs :: css)
  end.

Definition sim (t : hash_table) (m : gmap (list byte) dns_cent_t) : Prop := exists L, Table_ok t L /\ m = table_map L.

Lemma item_in_bucket i x : item_ok i x -> in_bucket i (cent x).
Proof.
  intros (ls&[Hv _]&Hq&Hh). unfold in_bucket. rewrite Hq, <- (app_nil_r (wire ls)), dns_hash_spec by done. by rewrite Hh.
Qed.

Lemma bucket_of t L x : Table_ok t L -> x ∈ concat L -> exists i es, L !! i = Some es /\ x ∈ es /\ item_ok i x.
Proof.
  intros Hok Hx. apply list_elem_of_In, in_concat in Hx as (es&Hes&Hx). apply list_elem_of_In in Hx, Hes.
  apply list_elem_of_lookup in Hes as (i&Hi). exists i, es. split_and!; [done..|].
  destruct (ok_buckets _ _ Hok i es Hi) as [H _]. rewrite Forall_forall in H. auto.
Qed.

(** The items of a bucket are those its hash selects. *)
Lemma in_bucket_iff t Lb es La x : Table_ok t (Lb ++ es :: La) -> x ∈ concat (Lb ++ es :: La) ->
  in_bucket (length Lb) (cent x) <-> x ∈ es.
Proof.
  intros Hok Hx. split.
  - intros Hb. destruct (bucket_of _ _ _ Hok Hx) as (i&es'&Hi&Hxe&Hit). apply item_in_bucket in Hit. unfold in_bucket in *.
    rewrite Hb in Hit. injection Hit as <-. rewrite list_lookup_middle in Hi by done. by injection Hi as <-.
  - intros He. destruct (ok_buckets _ _ Hok (length Lb) es ltac:(by apply list_lookup_middle)) as [H _].
    rewrite Forall_forall in H. by apply item_in_bucket, H.
Qed.

Lemma nodup_split_l (l1 l2 : list item) x : NoDup (map (fun x => key (cent x)) (l1 ++ l2)) -> x ∈ l1 -> x ∈ l2 -> False.
Proof.
  rewrite map_app, NoDup_app. intros (_&Hn&_) H1 H2. apply (Hn (key (cent x))); apply list_elem_of_fmap; by exists x.
Qed.

Lemma nodup_cents (es : list item) : NoDup (map (fun x => key (cent x)) es) -> NoDup (map cent es).
Proof. intros H. apply (NoDup_fmap_1 key). change (NoDup (map key (map cent es))). by rewrite map_map. Qed.

Lemma freed_bucket t t' Lb es La (g : dns_cent_t -> bool) :
  Table_ok t (Lb ++ es :: La) -> Table_ok t' (Lb ++ filter (fun x => g (cent x) = false) es :: La) ->
  freed (fun c => in_bucket (length Lb) c /\ g c = true) (table_map (Lb ++ es :: La))
    (table_map (Lb ++ filter (fun x => g (cent x) = false) es :: La)) (map cent (filter (fun x => g (cent x) = true) es)).
Proof.
  intros Hok Hok'. pose proof (fun x => in_bucket_iff t Lb es La x Hok) as Hin. split_and!.
  - intros k c. rewrite (table_map_lookup t'), (table_map_lookup t) by done.
    rewrite !concat_mid in *. setoid_rewrite elem_of_app. setoid_rewrite elem_of_app. setoid_rewrite list_elem_of_filter.
    split.
    + intros (x&Hx&<-&<-). split; [exists x; naive_solver|]. intros [Hb Hg].
      assert (He : x ∈ es) by (apply Hin; [rewrite !elem_of_app; naive_solver|done]).
      destruct Hx as [Hx|[[Hx _]|Hx]]; [|congruence|]; pose proof (ok_keys _ _ Hok) as Hk; rewrite concat_mid in Hk.
      * eapply (nodup_split_l _ _ _ Hk Hx). rewrite elem_of_app. by left.
      * rewrite app_assoc in Hk. eapply (nodup_split_l _ _ _ Hk); [|exact Hx]. rewrite elem_of_app. by right.
    + intros [(x&Hx&<-&<-) Hn]. exists x. split_and!; [|done..]. destruct Hx as [|[Hx|]]; [by left| |by auto].
      right; left. split; [|done]. destruct (g (cent x)) eqn:Hg; [|done]. destruct Hn. split; [|done].
      apply Hin; [rewrite !elem_of_app; auto|done].
  - pose proof (ok_keys _ _ Hok) as Hk. rewrite concat_mid, map_app, (map_app _ es), !NoDup_app in Hk. destruct Hk as (_&_&Hk&_).
    apply nodup_cents. eapply sublist_NoDup; [exact Hk|]. apply fmap_sublist, sublist_filter.
  - intros c. rewrite (table_map_lookup t), list_elem_of_fmap by done. setoid_rewrite list_elem_of_filter. split.
    + intros (x&->&Hg&Hx). assert (Hc : x ∈ concat (Lb ++ es :: La)) by (rewrite concat_mid, !elem_of_app; auto).
      split; [by exists x|]. split; [by apply Hin|done].
    + intros [(x&Hx&<-&_) [Hb Hg]]. exists x. split; [done|]. split; [done|]. by apply Hin.
Qed.

Lemma selected_total ls sla : valid_name ls -> Forall (fun sl => exists D, valid_name D /\ domain sl = wire D) sla ->
  is_Some (selected (wire ls) sla).
Proof.
  intros Hv. induction 1 as [|sl sla (D&HD&Hs) _ IH]; [by eexists|]. cbn [selected].
  rewrite <- (app_nil_r (wire ls)), Hs, domain_match_spec by done. cbn [mbind option_bind]. rewrite app_nil_r. by case_match.
Qed.

Lemma del_dns_hash_none t L A r : Table_ok t L -> valid_name A -> table_map L !! lower (wire A) = None ->
  del_dns_hash ulong_bits t (wire A ++ r) = Some (None, t).
Proof.
  intros Hok HA Hn. destruct (search t L A r Hok HA) as (Lb&ea&eb&La&found&_&Hh&Hf&_&Hm).
  rewrite Hn in Hm. destruct found; [done|]. unfold del_dns_hash. rewrite dns_hash_spec by apply HA.
  destruct (hash_of A) as [i rh]. injection Hh as ->. cbn [snd] in Hf. cbn [mbind option_bind]. by rewrite Hf.
Qed.

(** The item a name stands for. *)
Lemma table_map_item t L k c : Table_ok t L -> table_map L !! k = Some c ->
  exists Lb ea x eb La, L = Lb ++ (ea ++ x :: eb) :: La /\ cent x = c /\ key (cent x) = k.
Proof.
  intros Hok Hm. apply (table_map_lookup t) in Hm as (x&Hx&<-&<-); [|done].
  destruct (bucket_of _ _ _ Hok Hx) as (i&es&Hi&Hxe&_). apply list_elem_of_split_length in Hi as (Lb&La&->&_).
  apply list_elem_of_split in Hxe as (ea&eb&->). by exists Lb, ea, x, eb, La.
Qed.

Lemma delete_step t L A r : Table_ok t L -> valid_name A ->
  (table_map L !! lower (wire A) = None /\ del_dns_hash ulong_bits t (wire A ++ r) = Some (None, t)) \/
  (exists c t' L' loc, table_map L !! lower (wire A) = Some c /\ del_dns_hash ulong_bits t (wire A ++ r) = Some (Some c, t') /\
     dns_lookup ulong_bits t (wire A ++ r) = Some (Some c, loc) /\ del_dns_hash_ent t loc = Some (c, t') /\
     Table_ok t' L' /\ table_map L' = delete (lower (wire A)) (table_map L)).
Proof.
  intros Hok HA. destruct (table_map L !! lower (wire A)) as [c|] eqn:Hm; [right|left; split; [done|by eapply del_dns_hash_none]].
  destruct (table_map_item _ _ _ _ Hok Hm) as (Lb&ea&x&eb&La&->&<-&Hk).
  destruct (del_item_ok t Lb ea x eb La A r Hok HA Hk) as (t'&Hok'&Hd&loc&Hl&He).
  exists (cent x), t', (Lb ++ (ea ++ eb) :: La), loc. split_and!; [done..|]. rewrite <- Hk.
  by destruct (table_ok_remove _ _ _ _ _ _ _ Hok (ok_rep _ _ Hok')) as [_ ?].
Qed.

Lemma free_selected_step t Lb es La sla : Table_ok t (Lb ++ es :: La) ->
  Forall (fun sl => exists D, valid_name D /\ domain sl = wire D) sla ->
  exists t' L' cs, free_dns_hash_selected t (length Lb) sla = Some (cs, t') /\ Table_ok t' L' /\
    freed (fun c => in_bucket (length Lb) c /\ selected (qname c) sla = Some true) (table_map (Lb ++ es :: La)) (table_map L') cs.
Proof.
  intros Hok Hsla. set (g := fun c => bool_decide (selected (qname c) sla = Some true)).
  destruct (free_selected_ok sla es (walk_fuel t) t Lb [] La (ok_rep _ _ Hok)) as (t'&Hf&HR).
  { destruct (rep_split _ _ _ _ (ok_rep _ _ Hok)) as (hb&hd&ha&_&_&_&Hs&_).
    pose proof (seg_length _ _ _ Hs (nodup_bucket _ _ _ _ (ok_rep _ _ Hok))). unfold walk_fuel. lia. }
  { destruct (ok_buckets _ _ Hok (length Lb) es ltac:(by apply list_lookup_middle)) as [H _].
    eapply Forall_impl; [exact H|]. intros x (ls&Hv&->&_). by apply selected_total. }
  pose proof (table_ok_filter t t' Lb es La (fun x => g (cent x)) Hok HR) as Hok'.
  eexists t', _, _. split; [exact Hf|]. split; [exact Hok'|].
  eapply freed_ext, (freed_bucket t t' Lb es La g Hok Hok'). intros c. unfold g. by rewrite bool_decide_eq_true.
Qed.

Lemma concat_empties n : concat (repeat (@nil item) n) = [].
Proof. by induction n. Qed.

Lemma rep_empty t : Rep t (repeat [] HASH_NUM_BUCKETS) -> Table_ok t (repeat [] HASH_NUM_BUCKETS).
Proof.
  intros HR. split; [done| |rewrite concat_empties; constructor]. intros i es Hi.
  apply list_elem_of_lookup_2, list_elem_of_In, repeat_spec in Hi as ->. by split; constructor.
Qed.

(** ** Iteration *)

(** The iteration is at [x]: the entries before it have been seen, and the saved
    position is the one after it. *)
Definition at_item (L : list (list item)) (seen : list item) (x : item) (rest : list item) (pos : dns_hash_pos_t) : Prop :=
  exists Lb es1 es2 La, L = Lb ++ (es1 ++ x :: es2) :: La /\ seen = concat Lb ++ es1 /\ rest = es2 ++ concat La /\
    pos = Pos (length Lb) (ptr <$> hd_error es2).

Definition at_rest (L : list (list item)) (seen rest : list item) (cur : option (dns_cent_t * dns_hash_pos_t)) : Prop :=
  match rest with
  | [] => cur = None
  | x :: rest' => exists pos, cur = Some (cent x, pos) /\ at_item L seen x rest' pos
  end.

Lemma seg_head h hd es : seg h hd es None -> hd = ptr <$> hd_error es.
Proof. destruct es; simpl; [done|]. by intros []. Qed.

Lemma fetch_from_ok La : forall Lb t, Rep t (Lb ++ La) ->
  exists cur, fetch_from (length La) (length Lb) t = Some cur /\ at_rest (Lb ++ La) (concat Lb) (concat La) cur.
Proof.
  induction La as [|es La IH]; intros Lb t HR; cbn [length fetch_from]; [by eexists|].
  destruct (rep_split _ _ _ _ HR) as (hb&hd&ha&Hb&Hl&_&Hs&_).
  rewrite Hb, <- Hl, list_lookup_middle by done. cbn [mbind option_bind]. destruct es as [|x es].
  - simpl in Hs. subst hd. destruct (IH (Lb ++ [[]]) t) as (cur&Hf&Hc); [by rewrite <- app_assoc|].
    rewrite length_app, Nat.add_1_r, <- Hl in Hf. rewrite <- app_assoc, concat_app, app_nil_r in Hc. by exists cur.
  - destruct Hs as (->&nx&Hx&Hs). rewrite Hx. cbn [mbind option_bind next data]. eexists. split; [done|].
    eexists. split; [done|]. exists Lb, [], es, La. apply seg_head in Hs. subst nx. by rewrite app_nil_r, Hl.
Qed.

Lemma fetch_next_ok t Lb es1 es2 La : Rep t (Lb ++ (es1 ++ es2) :: La) ->
  exists cur, fetch_next t (Pos (length Lb) (ptr <$> hd_error es2)) = Some cur /\
    at_rest (Lb ++ (es1 ++ es2) :: La) (concat Lb ++ es1) (es2 ++ concat La) cur.
Proof.
  intros HR. unfold fetch_next. cbn [pos_ent pos_bucket]. destruct es2 as [|x es2]; cbn [hd_error fmap option_fmap option_map].
  - pose proof (rep_length _ _ HR) as HL. rewrite length_app in HL. cbn [length] in HL.
    replace (HASH_NUM_BUCKETS - S (length Lb)) with (length La) by lia.
    assert (Ha : Lb ++ (es1 ++ []) :: La = (Lb ++ [es1]) ++ La) by (by rewrite app_nil_r, <- app_assoc). rewrite Ha in *.
    destruct (fetch_from_ok La (Lb ++ [es1]) t HR) as (cur&Hf&Hc). rewrite length_app, Nat.add_1_r in Hf.
    rewrite concat_app in Hc. simpl in Hc. rewrite app_nil_r in Hc. by exists cur.
  - destruct (rep_split _ _ _ _ HR) as (hb&hd&ha&_&_&_&Hs&_). apply chain_app in Hs as (m&_&_&nx&Hx&Hs). rewrite Hx.
    cbn [mbind option_bind next data]. eexists. split; [done|]. eexists. split; [done|].
    exists Lb, es1, es2, La. apply seg_head in Hs. by subst nx.
Qed.

(** A step of the loop: the body may delete the current entry. *)
Lemma visit_step (del : dns_cent_t -> bool) t L seen x rest pos : Table_ok t L -> at_item L seen x rest pos ->
  exists t' L' cur, (if del (cent x) then snd <$> del_dns_hash ulong_bits t (qname (cent x)) else Some t) = Some t' /\
    Table_ok t' L' /\ fetch_next t' pos = Some cur /\
    at_rest L' (seen ++ if del (cent x) then [] else [x]) rest cur /\
    concat L' = seen ++ (if del (cent x) then [] else [x]) ++ rest.
Proof.
  intros Hok (Lb&es1&es2&La&->&->&->&->). destruct (del (cent x)).
  - destruct (ok_buckets _ _ Hok (length Lb) _ ltac:(by apply list_lookup_middle)) as [Hi _].
    apply Forall_app in Hi as [_ Hi]. apply Forall_cons in Hi as [(A&HA&Hq&_) _].
    destruct (del_item_ok t Lb es1 x es2 La A [] Hok HA ltac:(unfold key; by rewrite Hq)) as (t'&Hok'&Hd&_).
    rewrite app_nil_r in Hd. rewrite Hq, Hd. cbn [fmap option_fmap option_map snd].
    destruct (fetch_next_ok t' Lb es1 es2 La (ok_rep _ _ Hok')) as (cur&Hf&Hc). rewrite app_nil_r.
    exists t', (Lb ++ (es1 ++ es2) :: La), cur. split_and!; try done. by rewrite concat_mid, <- !app_assoc.
  - assert (Ha : es1 ++ x :: es2 = (es1 ++ [x]) ++ es2) by (by rewrite <- app_assoc). rewrite Ha in Hok.
    destruct (fetch_next_ok t Lb (es1 ++ [x]) es2 La (ok_rep _ _ Hok)) as (cur&Hf&Hc). rewrite app_assoc in Hc.
    exists t, (Lb ++ ((es1 ++ [x]) ++ es2) :: La), cur. split_and!; try done. rewrite concat_mid. by rewrite <- !app_assoc.
Qed.

Lemma visit_from_ok del rest : forall fuel t L seen cur, Table_ok t L -> at_rest L seen rest cur -> concat L = seen ++ rest ->
  length rest < fuel ->
  exists t' L', visit_from ulong_bits fuel del t cur = Some (map cent rest, t') /\ Table_ok t' L' /\
    concat L' = seen ++ filter (fun x => del (cent x) = false) rest.
Proof.
  induction rest as [|x rest IH]; intros [|fuel] t L seen cur Hok Hc HL Hf; cbn [length] in Hf; try lia; cbn [visit_from].
  - simpl in Hc. subst cur. by exists t, L.
  - destruct Hc as (pos&->&Hat). destruct (visit_step del t L seen x rest pos Hok Hat) as (t1&L1&cur&->&Hok1&Hn&Hc1&HL1).
    cbn [mbind option_bind]. rewrite Hn. cbn [mbind option_bind]. rewrite app_assoc in HL1.
    destruct (IH fuel t1 L1 _ cur Hok1 Hc1 HL1 ltac:(lia)) as (t2&L2&->&Hok2&HL2). cbn [mbind option_bind].
    exists t2, L2. split_and!; [done..|]. rewrite HL2, filter_cons, <- app_assoc. destruct (del (cent x)); by case_decide.
Qed.

Lemma items_bound t L : Rep t L -> length (concat L) <= size (entries t).
Proof.
  intros HR. rewrite <- (length_map ptr), <- (size_list_to_set (C := gset positive)), <- (size_dom (D := gset positive)) by apply HR.
  apply subseteq_size. intros p. rewrite elem_of_list_to_set, elem_of_dom. apply HR.
Qed.

Lemma visit_ok del t L : Table_ok t L -> exists t' L', visit ulong_bits del t = Some (map cent (concat L), t') /\ Table_ok t' L' /\
  concat L' = filter (fun x => del (cent x) = false) (concat L).
Proof.
  intros Hok. destruct (fetch_from_ok L [] t (ok_rep _ _ Hok)) as (cur&Hf&Hc). rewrite (rep_length _ _ (ok_rep _ _ Hok)) in Hf.
  unfold visit, fetch_first. cbn [length] in Hf. rewrite Hf. cbn [mbind option_bind].
  apply (visit_from_ok del (concat L) (walk_fuel t) t L [] cur Hok Hc eq_refl).
  pose proof (items_bound _ _ (ok_rep _ _ Hok)). unfold walk_fuel. lia.
Qed.

Context (malloc_fresh : forall X, malloc X ∉ X).

Lemma step_ok t m o : sim t m -> op_ok o ->
  exists t' m' cs, code_step t o = Some (t', cs) /\ spec_step m o m' cs /\ sim t' m'.
Proof.
  intros (L&Hok&->) Ho. destruct o as [A r|c ok|A r|A r|i|i sla| |del]; simpl in Ho; cbn [code_step spec_step].
  - destruct (dns_lookup_ok t L A r Hok Ho) as (loc&->&_). do 3 eexists. split; [done|]. split; [done|]. by exists L.
  - destruct Ho as (A&HA&Hq). destruct (dns_lookup_ok t L A [] Hok HA) as (loc&Hl&_). rewrite app_nil_r, <- Hq in Hl.
    assert (Hk : key c = lower (wire A)) by (unfold key; by rewrite Hq). rewrite <- Hq in *. fold (key c) in *.
    rewrite Hl. cbn [mbind option_bind]. destruct (table_map L !! key c) as [c'|] eqn:Hm.
    { do 3 eexists. split; [done|]. split; [done|]. by exists L. }
    destruct ok.
    + destruct (add_dns_hash_ok t L A c loc (malloc (dom (entries t))) Hok HA Hq Hm) as (t'&L'&->&Hok'&?); [|done|].
      { apply not_elem_of_dom, malloc_fresh. }
      cbn [mbind option_bind]. do 3 eexists. split; [done|]. split; [done|]. by exists L'.
    + cbn [add_dns_hash mbind option_bind]. do 3 eexists. split; [done|]. split; [done|]. by exists L.
  - destruct (delete_step t L A r Hok Ho) as [[Hm ->]|(c&t'&L'&loc&Hm&->&_&_&Hok'&Hd)]; cbn [mbind option_bind]; rewrite Hm.
    + do 3 eexists. split; [done|]. split; [done|]. exists L. by rewrite delete_id.
    + do 3 eexists. split; [done|]. split; [done|]. by exists L'.
  - destruct (delete_step t L A r Hok Ho) as [[Hm _]|(c&t'&L'&loc&Hm&_&->&Hd&Hok'&Hdm)].
    + destruct (dns_lookup_ok t L A r Hok Ho) as (loc&->&_). rewrite Hm. cbn [mbind option_bind].
      do 3 eexists. split; [done|]. split; [done|]. exists L. by rewrite delete_id.
    + cbn [mbind option_bind]. rewrite Hd, Hm. cbn [mbind option_bind]. do 3 eexists. split; [done|]. split; [done|]. by exists L'.
  - destruct (rep_bucket t L i (ok_rep _ _ Hok) Ho) as (Lb&es&La&_&_&_&->&_&<-&_).
    destruct (free_bucket_ok t Lb es La (ok_rep _ _ Hok)) as (t'&->&HR). cbn [mbind option_bind].
    assert (He : filter (fun x : item => true = false) es = [] /\ filter (fun x : item => true = true) es = es).
    { clear. induction es as [|x es [IH1 IH2]]; [done|]. rewrite filter_cons_False, filter_cons_True, IH1, IH2 by done. done. }
    pose proof (table_ok_filter t t' Lb es La (fun _ => true) Hok) as Hok'. cbv beta in Hok'. rewrite (proj1 He) in Hok'. specialize (Hok' HR).
    pose proof (freed_bucket t t' Lb es La (fun _ => true) Hok) as Hf. cbv beta in Hf. rewrite (proj1 He), (proj2 He) in Hf.
    do 3 eexists. split; [done|]. split; [|by exists (Lb ++ [] :: La)].
    eapply freed_ext, (Hf Hok'). naive_solver.
  - destruct Ho as [Hi Hsla]. destruct (rep_bucket t L i (ok_rep _ _ Hok) Hi) as (Lb&es&La&_&_&_&->&_&<-&_).
    destruct (free_selected_step t Lb es La sla Hok Hsla) as (t'&L'&cs&->&Hok'&Hf). cbn [mbind option_bind].
    do 3 eexists. split; [done|]. split; [exact Hf|]. by exists L'.
  - destruct (free_buckets_ok L [] t (ok_rep _ _ Hok)) as (t'&Hf&HR). rewrite (rep_length _ _ (ok_rep _ _ Hok)) in *.
    unfold free_dns_hash. cbn [length app] in *. rewrite Hf. cbn [mbind option_bind]. pose proof (rep_empty t' HR) as Hok'.
    do 3 eexists. split; [done|]. split; [|by exists (repeat [] HASH_NUM_BUCKETS)]. split_and!.
    + intros k c. rewrite (table_map_lookup t'), concat_empties by done. split; [intros (x&Hx&_); by apply not_elem_of_nil in Hx|].
      by intros [_ []].
    + apply nodup_cents, (ok_keys _ _ Hok).
    + intros c. rewrite (table_map_lookup t), list_elem_of_fmap by done. split.
      * intros (x&->&Hx). split; [by exists x|done].
      * intros [(x&Hx&<-&_) _]. by exists x.
  - destruct (visit_ok del t L Hok) as (t'&L'&->&Hok'&HL). cbn [mbind option_bind].
    do 3 eexists. split; [done|]. split; [|by exists L']. split_and!.
    + apply nodup_cents, (ok_keys _ _ Hok).
    + intros c. rewrite (table_map_lookup t), list_elem_of_fmap by done. split; [intros (x&->&Hx); by exists x|].
      intros (x&Hx&<-&_). by exists x.
    + intros k c. rewrite (table_map_lookup t'), (table_map_lookup t), HL by done. setoid_rewrite list_elem_of_filter. split.
      * intros (x&[Hd Hx]&<-&<-). split; [by exists x|done].
      * intros [(x&Hx&<-&<-) Hd]. by exists x.
Qed.

Lemma steps_ok os : Forall op_ok os -> forall t m, sim t m ->
  exists t' css m', code_steps t os = Some (t', css) /\ spec_steps m os m' css /\ sim t' m'.
Proof.
  induction 1 as [|o os Ho _ IH]; intros t m Hs.
  - exists t, [], m. split_and!; [done|constructor|done].
  - destruct (step_ok t m o Hs Ho) as (t1&m1&cs&Hc&Hsp&Hs1). destruct (IH t1 m1 Hs1) as (t2&css&m2&Hc2&Hsp2&Hs2).
    exists t2, (cs :: css), m2. cbn [code_steps]. rewrite Hc. cbn [mbind option_bind]. rewrite Hc2.
    split_and!; [done|by econstructor|done].
Qed.

Lemma empty_ok : sim mk_dns_hash ∅.
Proof.
  exists (repeat [] HASH_NUM_BUCKETS). split.
  - apply rep_empty. split.
    + apply repeat_length.
    + unfold mk_dns_hash. cbn [hash_buckets entries]. induction HASH_NUM_BUCKETS as [|n IH]; [constructor|].
      by constructor.
    + rewrite concat_empties. constructor.
    + intros p. rewrite concat_empties. split; [by intros []|]. by intros ?%not_elem_of_nil.
  - unfold table_map. by rewrite concat_empties.
Qed.

(** C40: The hash table of the cache is a finite map from names, without
    regard to case, to cache entries. From the empty table, any sequence of
    lookups, additions behind a lookup (with [malloc] succeeding or not),
    deletions by name or at the position a lookup found, bucket-wise frees with and
    without a selection list, and iterations that delete some of the entries
    they retrieve runs without undefined behaviour, returns or frees exactly
    the entries the map says, each once, and ends in a table that again stands
    for the map. *)
Theorem dns_hash_refines os : Forall op_ok os ->
  exists t' css m', code_steps mk_dns_hash os = Some (t', css) /\ spec_steps ∅ os m' css /\ sim t' m'.
Proof. intros H. apply steps_ok; [done|apply empty_ok]. Qed.

End Table.

(** Two names that differ in case; the second addition finds the first entry,
    and the iteration deletes it. *)
Lemma dns_hash_refines_witness :
  let os := [Add (Cent 1 (wire [[n2b 97]])) true; Add (Cent 2 (wire [[n2b 65]])) true;
             Add (Cent 3 (wire [[n2b 98]])) false; Lookup [[n2b 98]] []; Visit (fun _ => true); Lookup [[n2b 97]] []] in
  (exists t' m', code_steps 64 fresh mk_dns_hash os =
     Some (t', [[]; [Cent 1 (wire [[n2b 97]])]; []; []; [Cent 1 (wire [[n2b 97]])]; []]) /\ sim 64 t' m') /\
  exists t' css m', code_steps 64 fresh mk_dns_hash os = Some (t', css) /\ spec_steps 64 ∅ os m' css /\ sim 64 t' m'.
Proof.
  intros os.
  assert (H : exists t' css m', code_steps 64 fresh mk_dns_hash os = Some (t', css) /\ spec_steps 64 ∅ os m' css /\ sim 64 t' m').
  { assert (Hv : forall n, valid_name [[n2b n]]).
    { intros n. split; [apply Forall_singleton; unfold valid_label; simpl; lia|]. unfold DNSNAMEBUFSIZE. vm_compute. lia. }
    apply (dns_hash_refines 64 fresh is_fresh). repeat apply Forall_cons_2; try apply Forall_nil_2; cbn [op_ok]; eauto. }
  split; [|exact H]. destruct H as (t'&css&m'&Hc&_&Hs). exists t', m'. split; [|exact Hs]. rewrite Hc.
  assert (E : snd <$> code_steps 64 fresh mk_dns_hash os =
    Some [[]; [Cent 1 (wire [[n2b 97]])]; []; []; [Cent 1 (wire [[n2b 97]])]; []]) by (by vm_compute).
  rewrite Hc in E. injection E as ->. reflexivity.
Defined.
