(* ===== verification/PdnsdLock.v ===== *)
(** * The read-write lock of the DNS cache

    [pdnsd/src/cache.c], lines 178 to 440: readers and writers are counted in
    variables guarded by [lock_mutex]; threads that cannot proceed sleep on one of
    two condition variables. Every stretch of code that runs with the mutex held,
    up to its release or to [pthread_cond_wait], is one step of the model, so a
    run is a sequence of such steps of the threads in any order. The choices the
    system makes are part of the event: which sleeping thread a signal wakes,
    wake-ups without a signal (which POSIX permits), the expiry of a timed wait,
    a mutex that [softlock_mutex] does not get. The lock is in use
    ([use_cache_lock] is set) from [init_cache_lock] on. *)

From Stdlib Require Import ZifyBool.
From S2P Require Import Prelude.

Open Scope Z_scope.

(** Where a thread is, between two stretches with the mutex held. *)
Inductive pc :=
| Idle
| ReadSleep                        (* in pthread_cond_wait(&r_cond) *)
| ReadWoken                        (* woken, waiting for the mutex *)
| Reading
| WriteSleep (timed : bool)        (* in pthread_cond_[timed]wait(&rw_cond) *)
| WriteWoken (timed : bool)
| WriteTimedOut                    (* timed wait over, waiting for the mutex *)
| Writing
| YieldTested                      (* yield_lock_cache_rw saw a waiting thread *)
| Yielding                         (* in usleep_r *)
| SoftRead (tr : nat)              (* softlock_cache_r after tr failures *)
| SoftReading
| SoftWrite (tr : nat)
| SoftWriting.

#[global] Instance pc_eq_dec : EqDecision pc.
Proof. solve_decision. Defined.

Record cache_lock := Lock {
  cache_w_lock : bool;
  cache_r_lock : Z;
  r_pend : Z;
  rw_pend : Z;
  r_susp : bool;
  threads : list pc;
}.

Definition set_pc (i : nat) (p : pc) (s : cache_lock) : cache_lock :=
  Lock (cache_w_lock s) (cache_r_lock s) (r_pend s) (rw_pend s) (r_susp s) (<[i := p]> (threads s)).

Definition SOFTLOCK_MAXTRIES : nat := 1000.
#[global] Opaque SOFTLOCK_MAXTRIES.

(** ** The stretches of code *)

Definition SUSP_THRESH (r : Z) : Z := r `quot` 2 + 2.

(** The loop test of [lock_cache_r] and what follows it. *)
Definition read_try (i : nat) (s : cache_lock) : cache_lock :=
  let susp := if SUSP_THRESH (r_pend s) <? rw_pend s then true else r_susp s in
  if susp || cache_w_lock s
  then Lock (cache_w_lock s) (cache_r_lock s) (r_pend s) (rw_pend s) susp (<[i := ReadSleep]> (threads s))
  else Lock (cache_w_lock s) (cache_r_lock s + 1) (r_pend s - 1) (rw_pend s) susp (<[i := Reading]> (threads s)).

Definition lock_cache_r (i : nat) (s : cache_lock) : cache_lock :=
  read_try i (Lock (cache_w_lock s) (cache_r_lock s) (r_pend s + 1) (rw_pend s) (r_susp s) (threads s)).

(** The loop test of [lock_cache_rw] and [timedlock_cache_rw]. *)
Definition write_try (timed : bool) (i : nat) (s : cache_lock) : cache_lock :=
  if cache_w_lock s || negb (cache_r_lock s =? 0)
  then set_pc i (WriteSleep timed) s
  else Lock true (cache_r_lock s) (r_pend s) (rw_pend s - 1) (r_susp s) (<[i := Writing]> (threads s)).

Definition start_write (timed : bool) (i : nat) (s : cache_lock) : cache_lock :=
  write_try timed i (Lock (cache_w_lock s) (cache_r_lock s) (r_pend s) (rw_pend s + 1) (r_susp s) (threads s)).

Definition lock_cache_rw : nat -> cache_lock -> cache_lock := start_write false.
Definition timedlock_cache_rw : nat -> cache_lock -> cache_lock := start_write true.

(** The [cleanup_return] path of [timedlock_cache_rw]. *)
Definition give_up_write (i : nat) (s : cache_lock) : cache_lock :=
  Lock (cache_w_lock s) (cache_r_lock s) (r_pend s) (rw_pend s - 1) (r_susp s) (<[i := Idle]> (threads s)).

(** [pthread_cond_signal(&rw_cond)]: a sleeping writer, if there is one, wakes;
    which one is not determined, [None] is a choice that is not possible. *)
Definition sleeps_rw (p : pc) : bool := match p with WriteSleep _ => true | _ => false end.

Definition signal_rw (pick : nat) (s : cache_lock) : option cache_lock :=
  match threads s !! pick with
  | Some (WriteSleep t) => Some (set_pc pick (WriteWoken t) s)
  | _ => if existsb sleeps_rw (threads s) then None else Some s
  end.

(** [pthread_cond_broadcast(&r_cond)] *)
Definition wake_r (p : pc) : pc := match p with ReadSleep => ReadWoken | _ => p end.

Definition broadcast_r (s : cache_lock) : cache_lock :=
  Lock (cache_w_lock s) (cache_r_lock s) (r_pend s) (rw_pend s) (r_susp s) (map wake_r (threads s)).

Definition unlock_cache_r (pick i : nat) (s : cache_lock) : option cache_lock :=
  let n := if 0 <? cache_r_lock s then cache_r_lock s - 1 else cache_r_lock s in
  let s := Lock (cache_w_lock s) n (r_pend s) (rw_pend s) (r_susp s) (<[i := Idle]> (threads s)) in
  if n =? 0 then signal_rw pick s else Some s.

(** What [unlock_cache_rw] and the first half of [yield_lock_cache_rw] do; the
    thread goes on to [next]. *)
Definition release_rw (next : pc) (pick i : nat) (s : cache_lock) : option cache_lock :=
  let s := Lock false (cache_r_lock s) (r_pend s) (rw_pend s) false (<[i := next]> (threads s)) in
  if (r_pend s =? 0) || (SUSP_THRESH (r_pend s) <? rw_pend s)
  then signal_rw pick s
  else Some (broadcast_r s).

Definition unlock_cache_rw : nat -> nat -> cache_lock -> option cache_lock := release_rw Idle.

(** The unguarded test of [yield_lock_cache_rw], its release, its second half. *)
Definition yield_test (i : nat) (s : cache_lock) : cache_lock :=
  if (r_pend s =? 0) && (rw_pend s =? 0) then s else set_pc i YieldTested s.

Definition yield_release : nat -> nat -> cache_lock -> option cache_lock := release_rw Yielding.
Definition yield_relock : nat -> cache_lock -> cache_lock := start_write false.

(** One turn of the loops of [softlock_cache_r] and [softlock_cache_rw];
    [got] is the result of [softlock_mutex]. *)
Definition softlock_cache_r (got : bool) (i tr : nat) (s : cache_lock) : cache_lock :=
  if negb got then set_pc i Idle s
  else if negb (cache_w_lock s)
  then Lock (cache_w_lock s) (cache_r_lock s + 1) (r_pend s) (rw_pend s) (r_susp s) (<[i := SoftReading]> (threads s))
  else if (SOFTLOCK_MAXTRIES <=? S tr)%nat then set_pc i Idle s else set_pc i (SoftRead (S tr)) s.

Definition softlock_cache_rw (got : bool) (i tr : nat) (s : cache_lock) : cache_lock :=
  if negb got then set_pc i Idle s
  else if negb (cache_w_lock s || negb (cache_r_lock s =? 0))
  then Lock true (cache_r_lock s) (r_pend s) (rw_pend s) (r_susp s) (<[i := SoftWriting]> (threads s))
  else if (SOFTLOCK_MAXTRIES <=? S tr)%nat then set_pc i Idle s else set_pc i (SoftWrite (S tr)) s.

(** When the mutex is not obtained the thread stays the holder. *)
Definition softunlock_cache_r (got : bool) (i : nat) (s : cache_lock) : cache_lock :=
  if negb got then s
  else let n := if 0 <? cache_r_lock s then cache_r_lock s - 1 else cache_r_lock s in
       Lock (cache_w_lock s) n (r_pend s) (rw_pend s) (r_susp s) (<[i := Idle]> (threads s)).

Definition softunlock_cache_rw (got : bool) (i : nat) (s : cache_lock) : cache_lock :=
  if negb got then s
  else Lock false (cache_r_lock s) (r_pend s) (rw_pend s) (r_susp s) (<[i := Idle]> (threads s)).

(** ** Runs *)

Inductive event :=
| LockR (i : nat) | LockRW (i : nat) | TimedLockRW (i : nat)
| Resume (i : nat)                  (* a woken thread gets the mutex back *)
| UnlockR (i pick : nat) | UnlockRW (i pick : nat)
| YieldTest (i : nat) | YieldRelease (i pick : nat) | YieldRelock (i : nat)
| SoftLockR (i : nat) | SoftLockRW (i : nat) | SoftTurn (i : nat) (got : bool) | SoftUnlock (i : nat) (got : bool)
| Spurious (i : nat)                (* a sleeping thread wakes without a signal *)
| Expire (i : nat).                 (* the time of a timed wait is over *)

(** [None]: the event is not possible in the state. *)
Definition step (s : cache_lock) (e : event) : option cache_lock :=
  match e with
  | LockR i => if decide (threads s !! i = Some Idle) then Some (lock_cache_r i s) else None
  | LockRW i => if decide (threads s !! i = Some Idle) then Some (lock_cache_rw i s) else None
  | TimedLockRW i => if decide (threads s !! i = Some Idle) then Some (timedlock_cache_rw i s) else None
  | Resume i =>
    match threads s !! i with
    | Some ReadWoken => Some (read_try i s)
    | Some (WriteWoken t) => Some (write_try t i s)
    | Some WriteTimedOut => Some (give_up_write i s)
    | _ => None
    end
  | UnlockR i pick => if decide (threads s !! i = Some Reading) then unlock_cache_r pick i s else None
  | UnlockRW i pick => if decide (threads s !! i = Some Writing) then unlock_cache_rw pick i s else None
  | YieldTest i => if decide (threads s !! i = Some Writing) then Some (yield_test i s) else None
  | YieldRelease i pick => if decide (threads s !! i = Some YieldTested) then yield_release pick i s else None
  | YieldRelock i => if decide (threads s !! i = Some Yielding) then Some (yield_relock i s) else None
  | SoftLockR i => if decide (threads s !! i = Some Idle) then Some (set_pc i (SoftRead 0) s) else None
  | SoftLockRW i => if decide (threads s !! i = Some Idle) then Some (set_pc i (SoftWrite 0) s) else None
  | SoftTurn i got =>
    match threads s !! i with
    | Some (SoftRead tr) => Some (softlock_cache_r got i tr s)
    | Some (SoftWrite tr) => Some (softlock_cache_rw got i tr s)
    | _ => None
    end
  | SoftUnlock i got =>
    match threads s !! i with
    | Some SoftReading => Some (softunlock_cache_r got i s)
    | Some SoftWriting => Some (softunlock_cache_rw got i s)
    | _ => None
    end
  | Spurious i =>
    match threads s !! i with
    | Some ReadSleep => Some (set_pc i ReadWoken s)
    | Some (WriteSleep t) => Some (set_pc i (WriteWoken t) s)
    | _ => None
    end
  | Expire i => if decide (threads s !! i = Some (WriteSleep true)) then Some (set_pc i WriteTimedOut s) else None
  end.

Definition init (n : nat) : cache_lock := Lock false 0 0 0 false (repeat Idle n).

Inductive reach (allowed : event -> Prop) : cache_lock -> Prop :=
| reach_init n : reach allowed (init n)
| reach_step s e s' : reach allowed s -> allowed e -> step s e = Some s' -> reach allowed s'.

(** ** Counting threads *)

Fixpoint cnt (f : pc -> bool) (l : list pc) : Z :=
  match l with
  | [] => 0
  | p :: l => (if f p then 1 else 0) + cnt f l
  end.

Lemma cnt_nonneg f l : 0 <= cnt f l.
Proof. induction l as [|p l IH]; simpl; [lia|]. destruct (f p); lia. Qed.

Lemma cnt_insert f l : forall i p q, l !! i = Some p ->
  cnt f (<[i := q]> l) = cnt f l - (if f p then 1 else 0) + (if f q then 1 else 0).
Proof.
  induction l as [|x l IH]; intros [|i] p q H; simplify_eq/=; [lia|].
  rewrite (IH _ _ _ H). lia.
Qed.

Lemma cnt_map f g l : (forall p, f (g p) = f p) -> cnt f (map g l) = cnt f l.
Proof. intros E. induction l as [|p l IH]; simpl; [done|]. by rewrite E, IH. Qed.

Lemma cnt_repeat f p n : f p = false -> cnt f (repeat p n) = 0.
Proof. intros E. induction n as [|n IH]; simpl; [done|]. by rewrite E, IH. Qed.

Lemma cnt_pos f l i p : l !! i = Some p -> f p = true -> 0 < cnt f l.
Proof.
  revert i. induction l as [|x l IH]; intros [|i] H E; simplify_eq/=.
  - rewrite E. pose proof (cnt_nonneg f l). lia.
  - specialize (IH _ H E). destruct (f x); lia.
Qed.

Lemma cnt_ex f l : 0 < cnt f l -> exists i p, l !! i = Some p /\ f p = true.
Proof.
  induction l as [|x l IH]; simpl; [lia|]. destruct (f x) eqn:E.
  - intros _. by exists 0%nat, x.
  - intros H. destruct IH as (i & p & ? & ?); [lia|]. by exists (S i), p.
Qed.

Lemma cnt_two f l i j p q : l !! i = Some p -> l !! j = Some q -> f p = true -> f q = true -> cnt f l <= 1 -> i = j.
Proof.
  revert i j. induction l as [|x l IH]; intros [|i] [|j] Hi Hj Ep Eq H; simplify_eq/=; [done| | |].
  - rewrite Ep in H. pose proof (cnt_pos f l j q Hj Eq). lia.
  - rewrite Eq in H. pose proof (cnt_pos f l i p Hi Ep). lia.
  - f_equal. eapply IH; eauto. destruct (f x); lia.
Qed.

(** ** The counters count *)

Definition reads (p : pc) : bool := match p with Reading | SoftReading => true | _ => false end.
Definition writes (p : pc) : bool := match p with Writing | YieldTested | SoftWriting => true | _ => false end.
Definition waits_r (p : pc) : bool := match p with ReadSleep | ReadWoken => true | _ => false end.
Definition waits_rw (p : pc) : bool := match p with WriteSleep _ | WriteWoken _ | WriteTimedOut => true | _ => false end.
Definition woken_rw (p : pc) : bool := match p with WriteWoken _ => true | _ => false end.
Definition woken_r (p : pc) : bool := match p with ReadWoken => true | _ => false end.
Definition sleeps_r (p : pc) : bool := match p with ReadSleep => true | _ => false end.

Definition holds (p : pc) : bool := reads p || writes p.

Record counted (s : cache_lock) : Prop := {
  c_r : cache_r_lock s = cnt reads (threads s);
  c_w : cnt writes (threads s) = if cache_w_lock s then 1 else 0;
  c_excl : cache_w_lock s = true -> cache_r_lock s = 0;
  c_rp : r_pend s = cnt waits_r (threads s);
  c_wp : rw_pend s = cnt waits_rw (threads s);
}.

(** Rewrites the count of an updated thread list by the thread's old state. *)
Ltac recount :=
  repeat match goal with
  | H : ?l !! ?i = Some ?p |- context [cnt ?f (<[?i := ?q]> ?l)] => rewrite (cnt_insert f l i p q H)
  end; simpl.

Ltac tally :=
  constructor; simpl; recount;
  repeat match goal with H : cache_w_lock ?s = _ |- context [cache_w_lock ?s] => rewrite H end;
  try done; try lia.

Lemma signal_cases pick s s' : signal_rw pick s = Some s' ->
  (s' = s /\ existsb sleeps_rw (threads s) = false) \/
  exists t, threads s !! pick = Some (WriteSleep t) /\ s' = set_pc pick (WriteWoken t) s.
Proof.
  unfold signal_rw. intros H. destruct (threads s !! pick) as [[]|]; [..|by case_match; simplify_eq; left].
  all: try (by case_match; simplify_eq; left). simplify_eq. right. by eexists.
Qed.

Lemma signal_counted pick s s' : counted s -> signal_rw pick s = Some s' -> counted s'.
Proof.
  intros C [[-> _]|(t & E & ->)]%signal_cases; [done|]. destruct C. tally.
Qed.

Lemma broadcast_counted s : counted s -> counted (broadcast_r s).
Proof. intros []. constructor; simpl; rewrite ?cnt_map; try done; by intros []. Qed.

Lemma write_try_counted t i s p : counted s -> threads s !! i = Some p ->
  waits_rw p = true -> counted (write_try t i s).
Proof.
  intros [] E P. unfold write_try. destruct (cache_w_lock s) eqn:W; simpl; [|destruct (Z.eqb_spec (cache_r_lock s) 0); simpl].
  all: destruct p; try discriminate; tally.
Qed.

Lemma start_write_counted t i s : counted s -> (threads s !! i = Some Idle \/ threads s !! i = Some Yielding) ->
  counted (start_write t i s).
Proof.
  intros [] E. unfold start_write, write_try; simpl. destruct (cache_w_lock s) eqn:W; simpl; [|destruct (Z.eqb_spec (cache_r_lock s) 0); simpl].
  all: destruct E; tally.
Qed.

Lemma release_counted next pick i s s' p : counted s -> threads s !! i = Some p -> writes p = true ->
  next = Idle \/ next = Yielding -> release_rw next pick i s = Some s' -> counted s'.
Proof.
  intros [] E P N H. unfold release_rw in H.
  set (s1 := Lock _ _ _ _ _ _) in H.
  assert (counted s1).
  { subst s1. destruct N; subst next; destruct p; try discriminate.
    all: pose proof (cnt_pos writes _ _ _ E eq_refl); destruct (cache_w_lock s) eqn:W; try lia; tally. }
  case_match; [by eapply signal_counted|]. simplify_eq. by apply broadcast_counted.
Qed.

Lemma unlock_r_counted pick i s s' : counted s -> threads s !! i = Some Reading ->
  unlock_cache_r pick i s = Some s' -> counted s'.
Proof.
  intros [] E H. unfold unlock_cache_r in H. pose proof (cnt_pos reads _ _ _ E eq_refl).
  destruct (Z.ltb_spec 0 (cache_r_lock s)); [|lia].
  set (s1 := Lock _ _ _ _ _ _) in H.
  assert (counted s1).
  { subst s1. tally. }
  case_match; [by eapply signal_counted|by simplify_eq].
Qed.

Lemma read_counted i s : counted s -> threads s !! i = Some ReadWoken -> counted (read_try i s).
Proof.
  intros [] E. unfold read_try. destruct (_ || _) eqn:X; [tally|].
  apply orb_false_iff in X as [_ W]. rewrite W in *. tally.
Qed.

Lemma lock_r_counted i s : counted s -> threads s !! i = Some Idle -> counted (lock_cache_r i s).
Proof.
  intros [] E. unfold lock_cache_r, read_try; simpl. destruct (_ || _) eqn:X; [tally|].
  apply orb_false_iff in X as [_ W]. rewrite W in *. tally.
Qed.

Lemma soft_counted got i tr s : counted s ->
  (threads s !! i = Some (SoftRead tr) -> counted (softlock_cache_r got i tr s)) /\
  (threads s !! i = Some (SoftWrite tr) -> counted (softlock_cache_rw got i tr s)) /\
  (threads s !! i = Some SoftReading -> counted (softunlock_cache_r got i s)) /\
  (threads s !! i = Some SoftWriting -> counted (softunlock_cache_rw got i s)).
Proof.
  intros Cs. pose proof Cs as [].
  repeat split_and; intros E; unfold softlock_cache_r, softlock_cache_rw, softunlock_cache_r, softunlock_cache_rw;
    destruct got; simpl; try done; try solve [tally].
  - destruct (cache_w_lock s) eqn:W; simpl; [case_match|]; tally.
  - destruct (cache_w_lock s) eqn:W; simpl; [|destruct (Z.eqb_spec (cache_r_lock s) 0)]; simpl; try case_match;
      tally.
  - pose proof (cnt_pos reads _ _ _ E eq_refl). destruct (Z.ltb_spec 0 (cache_r_lock s)); [|lia].
    tally.
  - pose proof (cnt_pos writes _ _ _ E eq_refl). destruct (cache_w_lock s) eqn:W; [|lia].
    tally.
Qed.

Lemma step_counted s e s' : counted s -> step s e = Some s' -> counted s'.
Proof.
  intros C. destruct e; simpl; intros H; repeat case_match; simplify_eq.
  all: try solve [destruct C; tally].
  - by apply lock_r_counted.
  - by apply start_write_counted; [|left].
  - by apply start_write_counted; [|left].
  - by apply read_counted.
  - by eapply write_try_counted.
  - by eapply unlock_r_counted.
  - by eapply (release_counted Idle); eauto.
  - unfold yield_test. case_match; [done|]. destruct C; tally.
  - by eapply (release_counted Yielding); eauto.
  - by apply start_write_counted; [|right].
  - by apply soft_counted.
  - by apply soft_counted.
  - by apply soft_counted.
  - by apply soft_counted.
Qed.

Lemma init_counted n : counted (init n).
Proof. constructor; simpl; rewrite ?cnt_repeat; done. Qed.

Lemma reach_counted allowed s : reach allowed s -> counted s.
Proof. induction 1; [apply init_counted|by eapply step_counted]. Qed.

(** ** No lost wake-up *)

(** Runs in which no timed wait expires and no soft lock (only used at exit) is
    taken. *)
Definition lasting (e : event) : Prop :=
  match e with SoftLockR _ | SoftLockRW _ | Expire _ => False | _ => True end.

Definition odd (p : pc) : bool :=
  match p with WriteTimedOut | SoftRead _ | SoftReading | SoftWrite _ | SoftWriting => true | _ => false end.

Definition free (s : cache_lock) : Prop := cache_w_lock s = false /\ cache_r_lock s = 0.

(** A free lock with a writer asleep has a thread under way that will take it; a
    suspension or a sleeping reader has a writer that will end it. *)
Record alive (s : cache_lock) : Prop := {
  a_counted : counted s;
  a_odd : cnt odd (threads s) = 0;
  a_susp : r_susp s = true -> cache_w_lock s = true \/ 0 < rw_pend s;
  a_read : 0 < cnt sleeps_r (threads s) -> cache_w_lock s = true \/ 0 < rw_pend s;
  a_write : free s -> 0 < cnt sleeps_rw (threads s) ->
    0 < cnt woken_rw (threads s) \/
    0 < cnt woken_r (threads s) /\ r_susp s = false /\ rw_pend s <= SUSP_THRESH (r_pend s);
}.

Lemma cnt_waits_r l : cnt waits_r l = cnt sleeps_r l + cnt woken_r l.
Proof. induction l as [|[] l IH]; simpl; lia. Qed.

Lemma cnt_waits_rw l : cnt sleeps_rw l + cnt woken_rw l <= cnt waits_rw l <= cnt sleeps_rw l + cnt woken_rw l + cnt odd l.
Proof. induction l as [|[] l IH]; simpl; lia. Qed.

Lemma no_sleeper l : existsb sleeps_rw l = false -> cnt sleeps_rw l = 0.
Proof. induction l as [|p l IH]; simpl; [done|]. intros [-> ?]%orb_false_iff. rewrite IH; done. Qed.

Lemma cnt_wake_r l : cnt sleeps_r (map wake_r l) = 0 /\ cnt woken_r (map wake_r l) = cnt waits_r l.
Proof. induction l as [|[] l IH]; simpl; lia. Qed.

Lemma susp_thresh r : 0 <= r -> 2 <= SUSP_THRESH r <= SUSP_THRESH (r + 1).
Proof. intros H. unfold SUSP_THRESH. Z.to_euclidean_division_equations. lia. Qed.

(** The counts of all kinds of threads, related. *)
Ltac facts s :=
  pose proof (cnt_nonneg sleeps_r (threads s)); pose proof (cnt_nonneg woken_r (threads s));
  pose proof (cnt_nonneg sleeps_rw (threads s)); pose proof (cnt_nonneg woken_rw (threads s));
  pose proof (cnt_nonneg reads (threads s)); pose proof (cnt_nonneg odd (threads s));
  pose proof (cnt_waits_r (threads s)); pose proof (cnt_waits_rw (threads s));
  pose proof (susp_thresh (r_pend s)).

Ltac alive_tac :=
  constructor; unfold free in *; simpl in *; recount; try assumption; try lia.

(** Opens the invariant of [s] with the facts on its counts. *)
Ltac open_alive A s :=
  let C := fresh "C" in destruct A as [C ? ? ? ?]; facts s; pose proof C as []; destruct s; simpl in *.

Lemma read_try_alive i s : alive s -> threads s !! i = Some ReadWoken -> alive (read_try i s).
Proof.
  intros A E. pose proof (read_counted i s (a_counted _ A) E) as C'. revert C'.
  pose proof (cnt_pos woken_r _ _ _ E eq_refl). open_alive A s. unfold read_try; simpl.
  destruct (_ <? _) eqn:T; destruct (_ || _) eqn:X; intros C'; alive_tac.
Qed.

Lemma lock_r_alive i s : alive s -> threads s !! i = Some Idle -> alive (lock_cache_r i s).
Proof.
  intros A E. pose proof (lock_r_counted i s (a_counted _ A) E) as C'. revert C'.
  open_alive A s. unfold lock_cache_r, read_try; simpl.
  destruct (_ <? _) eqn:T; destruct (_ || _) eqn:X; intros C'; alive_tac.
Qed.

Lemma write_try_alive t i s : alive s -> threads s !! i = Some (WriteWoken t) -> alive (write_try t i s).
Proof.
  intros A E. pose proof (write_try_counted t i s _ (a_counted _ A) E eq_refl) as C'. revert C'.
  open_alive A s. unfold write_try, set_pc; simpl. destruct (_ || _) eqn:X; intros C'; alive_tac.
Qed.

Lemma start_write_alive t i s : alive s -> threads s !! i = Some Idle \/ threads s !! i = Some Yielding ->
  alive (start_write t i s).
Proof.
  intros A E. pose proof (start_write_counted t i s (a_counted _ A) E) as C'. revert C'.
  open_alive A s. unfold start_write, write_try, set_pc; simpl.
  destruct (_ || _) eqn:X; intros C'; destruct E; alive_tac.
Qed.

(** What a signal adds to a state that is otherwise in order. *)
Lemma signal_alive pick s s' : counted s -> cnt odd (threads s) = 0 ->
  (r_susp s = true -> cache_w_lock s = true \/ 0 < rw_pend s) ->
  (0 < cnt sleeps_r (threads s) -> cache_w_lock s = true \/ 0 < rw_pend s) ->
  signal_rw pick s = Some s' -> alive s'.
Proof.
  intros C O K L H. pose proof (signal_counted _ _ _ C H) as C'. facts s.
  apply signal_cases in H as [[-> N%no_sleeper]|(t & E & ->)]; [constructor; try done; lia|].
  pose proof (cnt_pos sleeps_rw _ _ _ E eq_refl). destruct s. unfold set_pc in *. alive_tac.
Qed.

Lemma unlock_r_alive pick i s s' : alive s -> threads s !! i = Some Reading ->
  unlock_cache_r pick i s = Some s' -> alive s'.
Proof.
  intros A E H. pose proof (unlock_r_counted pick i s s' (a_counted _ A) E H) as C'. revert H.
  pose proof (cnt_pos reads _ _ _ E eq_refl). open_alive A s. unfold unlock_cache_r; simpl.
  destruct (Z.ltb_spec 0 cache_r_lock0); [|lia].
  destruct (Z.eqb_spec (cache_r_lock0 - 1) 0); intros H'; [|simplify_eq; alive_tac].
  eapply signal_alive; [..|exact H']; simpl; recount; try lia. tally.
Qed.

Lemma release_alive next pick i s s' p : alive s -> threads s !! i = Some p -> p = Writing \/ p = YieldTested ->
  next = Idle \/ next = Yielding -> release_rw next pick i s = Some s' -> alive s'.
Proof.
  intros A E P N H. assert (Wp : writes p = true) by (destruct P; by subst).
  pose proof (release_counted next pick i s s' p (a_counted _ A) E Wp N H) as C'. revert H.
  pose proof (cnt_pos writes _ _ _ E Wp). open_alive A s. unfold release_rw; simpl.
  destruct (_ || _) eqn:X; intros H'.
  - eapply signal_alive; [..|exact H']; destruct N, P; subst; simpl; recount; try lia.
    all: tally.
  - simplify_eq. unfold broadcast_r in *; simpl in *.
    destruct (cnt_wake_r (<[i := next]> threads0)) as [Z1 Z2].
    destruct N, P; subst; constructor; unfold free in *; simpl; rewrite ?Z1, ?Z2; try done; recount; try lia.
    all: rewrite cnt_map; [recount; lia|by intros []].
Qed.

Lemma not_odd s i p : alive s -> threads s !! i = Some p -> odd p = true -> False.
Proof. intros [] E O. pose proof (cnt_pos odd _ _ _ E O). lia. Qed.

Lemma step_alive s e s' : alive s -> lasting e -> step s e = Some s' -> alive s'.
Proof.
  intros A Le H. pose proof (step_counted _ _ _ (a_counted _ A) H) as C'. revert H.
  destruct e; simpl; intros H; try done; repeat case_match; simplify_eq.
  all: try by exfalso; eapply not_odd; eauto.
  - by apply lock_r_alive.
  - by apply start_write_alive; [|left].
  - by apply start_write_alive; [|left].
  - by apply read_try_alive.
  - by apply write_try_alive.
  - by eapply unlock_r_alive.
  - eapply (release_alive Idle); eauto.
  - unfold yield_test in *. case_match; [done|]. open_alive A s. unfold set_pc in *. alive_tac.
  - eapply (release_alive Yielding); eauto.
  - by apply start_write_alive; [|right].
  - open_alive A s. unfold set_pc in *. alive_tac.
  - open_alive A s. unfold set_pc in *. alive_tac.
Qed.

Lemma reach_alive s : reach lasting s -> alive s.
Proof.
  induction 1; [|by eapply step_alive].
  constructor; [apply init_counted|..]; simpl; rewrite ?cnt_repeat; try done; lia.
Qed.

Definition asleep (p : pc) : bool := sleeps_r p || sleeps_rw p.

(** Thread [j] holds the lock, or takes it with its next step. *)
Definition under_way (s : cache_lock) (j : nat) : Prop :=
  exists p, threads s !! j = Some p /\
    (holds p = true \/ exists s' p', step s (Resume j) = Some s' /\ threads s' !! j = Some p' /\ holds p' = true).

Lemma holder_under_way s : counted s -> ~ free s -> exists j, under_way s j.
Proof.
  intros C F. unfold free in F. destruct C.
  destruct (decide (0 < cnt reads (threads s))) as [(j & p & E & P)%cnt_ex|N].
  - exists j, p. split; [done|]. left. unfold holds. by rewrite P.
  - destruct (cnt_ex writes (threads s)) as (j & p & E & P).
    + pose proof (cnt_nonneg reads (threads s)). destruct (cache_w_lock s); [lia|]. exfalso. apply F. split; [done|lia].
    + exists j, p. split; [done|]. left. unfold holds. rewrite P. by destruct (reads p).
Qed.

Lemma free_under_way s : alive s -> free s -> 0 < cnt sleeps_rw (threads s) -> exists j, under_way s j.
Proof.
  intros A F W. destruct F as [Fw Fr]. destruct (a_write _ A (conj Fw Fr) W) as [(j & p & E & P)%cnt_ex|((j & p & E & P)%cnt_ex & S & T)].
  - destruct p; try discriminate. exists j, (WriteWoken timed). split; [done|]. right. simpl. rewrite E. unfold write_try.
    rewrite Fw, Fr. simpl. eexists _, Writing. split; [done|]. simpl. split; [|done].
    apply list_lookup_insert_eq. by eapply lookup_lt_Some.
  - destruct p; try discriminate. exists j, ReadWoken. split; [done|]. right. simpl. rewrite E. unfold read_try.
    destruct (Z.ltb_spec (SUSP_THRESH (r_pend s)) (rw_pend s)); [lia|]. rewrite S, Fw. simpl.
    eexists _, Reading. split; [done|]. simpl. split; [|done]. apply list_lookup_insert_eq. by eapply lookup_lt_Some.
Qed.

Lemma sleeper_under_way s i p : alive s -> threads s !! i = Some p -> asleep p = true -> exists j, under_way s j.
Proof.
  intros A E P. destruct (decide (cache_w_lock s = false /\ cache_r_lock s = 0)) as [F|F];
    [|by apply holder_under_way; [apply A|]].
  apply orb_true_iff in P as [P|P]; [|apply free_under_way; [done..|by eapply cnt_pos]].
  pose proof (cnt_pos sleeps_r _ _ _ E P) as Q. pose proof (a_read _ A Q). pose proof (a_counted _ A) as [].
  facts s. pose proof (a_odd _ A). destruct F as [Fw Fr].
  destruct (decide (0 < cnt sleeps_rw (threads s))) as [W|W]; [by apply free_under_way|].
  destruct (cnt_ex woken_rw (threads s)) as (j & q & Ej & Pj); [lia|].
  destruct q; try discriminate. exists j, (WriteWoken timed). split; [done|]. right. simpl. rewrite Ej. unfold write_try.
  rewrite Fw, Fr. simpl. eexists _, Writing. split; [done|]. simpl. split; [|done].
  apply list_lookup_insert_eq. by eapply lookup_lt_Some.
Qed.

(** ** The lock drains *)

(** Steps of threads that are inside the lock functions or release the lock; no
    new request. *)
Definition settling (e : event) : Prop :=
  match e with Resume _ | UnlockR _ _ | UnlockRW _ _ | YieldRelease _ _ | YieldRelock _ => True | _ => False end.

Fixpoint steps (s : cache_lock) (es : list event) : option cache_lock :=
  match es with
  | [] => Some s
  | e :: es => s' ← step s e; steps s' es
  end.

(** An upper bound on the steps a thread can still take or cause, among [n]
    threads. *)
Definition effort (n : Z) (p : pc) : Z :=
  match p with
  | Reading | Writing => n + 2
  | ReadSleep | WriteSleep _ => n + 3
  | ReadWoken | WriteWoken _ => n + 4
  | Yielding => n + 5
  | YieldTested => 2 * n + 8
  | _ => 0
  end.

Fixpoint total (f : pc -> Z) (l : list pc) : Z :=
  match l with [] => 0 | p :: l => f p + total f l end.

Definition work (s : cache_lock) : Z := total (effort (zlen (threads s))) (threads s).

Lemma total_insert f l : forall i p q, l !! i = Some p -> total f (<[i := q]> l) = total f l - f p + f q.
Proof.
  induction l as [|x l IH]; intros [|i] p q H; simplify_eq/=; [lia|]. rewrite (IH _ _ _ H). lia.
Qed.

Lemma total_wake n l : total (effort n) (map wake_r l) <= total (effort n) l + zlen l.
Proof. unfold zlen. induction l as [|[] l IH]; cbn [total map effort wake_r length]; lia. Qed.

Lemma total_nonneg n l : 0 <= n -> 0 <= total (effort n) l.
Proof. intros N. induction l as [|[] l IH]; simpl; lia. Qed.

Lemma signal_work pick s s' : signal_rw pick s = Some s' ->
  zlen (threads s') = zlen (threads s) /\ work s' <= work s + 1.
Proof.
  intros [[-> _]|(t & E & ->)]%signal_cases; [lia|]. unfold work, zlen; simpl. rewrite length_insert.
  rewrite (total_insert _ _ _ _ _ E). simpl. lia.
Qed.

Lemma release_work next pick i s s' p : threads s !! i = Some p -> next = Idle \/ next = Yielding ->
  effort (zlen (threads s)) next + zlen (threads s) + 1 < effort (zlen (threads s)) p ->
  release_rw next pick i s = Some s' -> work s' < work s.
Proof.
  intros E N D H. unfold release_rw in H. pose proof (zlen_nonneg (threads s)).
  set (s1 := Lock _ _ _ _ _ _) in H.
  assert (zlen (threads s1) = zlen (threads s) /\ work s1 < work s - zlen (threads s) - 1) as [Z1 W1].
  { subst s1. unfold work, zlen in *; simpl. rewrite length_insert, (total_insert _ _ _ _ _ E). split; [done|lia]. }
  clearbody s1. case_match.
  - apply signal_work in H as [_ ?]. lia.
  - simplify_eq. unfold work, broadcast_r; simpl. pose proof (total_wake (zlen (threads s1)) (threads s1)).
    unfold zlen in *. rewrite length_map. unfold work, zlen in *. lia.
Qed.

Ltac effort_tac E :=
  unfold work, zlen; simpl; rewrite ?length_insert, (total_insert _ _ _ _ _ E); simpl; lia.

Lemma settle_work s e s' : alive s -> settling e -> step s e = Some s' -> work s' < work s.
Proof.
  intros A Se H. pose proof (zlen_nonneg (threads s)). destruct e; simpl in *; try done; repeat case_match; simplify_eq.
  - unfold read_try. case_match; effort_tac H1.
  - unfold write_try, set_pc. case_match; effort_tac H1.
  - exfalso. by eapply not_odd; eauto.
  - unfold unlock_cache_r in H. destruct (_ =? 0).
    + apply signal_work in H as [_ ?]. revert H. unfold work, zlen in *; simpl. rewrite length_insert, (total_insert _ _ _ _ _ e). simpl. lia.
    + simplify_eq. effort_tac e.
  - eapply (release_work Idle); eauto. simpl. lia.
  - eapply (release_work Yielding); eauto. simpl. lia.
  - unfold yield_relock, start_write, write_try, set_pc; simpl. case_match; effort_tac e.
Qed.

Lemma signal_some s : exists pick s', signal_rw pick s = Some s'.
Proof.
  destruct (existsb sleeps_rw (threads s)) eqn:X.
  - apply existsb_exists in X as (p & [i E]%list_elem_of_In%list_elem_of_lookup & P).
    destruct p; try discriminate. exists i. unfold signal_rw. rewrite E. by eexists.
  - exists 0%nat. unfold signal_rw. rewrite X. destruct (threads s !! 0%nat) as [[]|]; by eexists.
Qed.

Lemma release_some next i s : exists pick s', release_rw next pick i s = Some s'.
Proof. unfold release_rw. case_match; [apply signal_some|by exists 0%nat; eexists]. Qed.

Lemma unlock_r_some i s : exists pick s', unlock_cache_r pick i s = Some s'.
Proof. unfold unlock_cache_r. case_match; [apply signal_some|by exists 0%nat; eexists]. Qed.

Lemma busy_settles s i p : alive s -> threads s !! i = Some p -> p <> Idle -> asleep p = false ->
  exists e s', settling e /\ step s e = Some s'.
Proof.
  intros A E NI NS. destruct p; try done; try (by exfalso; eapply not_odd; eauto).
  - exists (Resume i). simpl. rewrite E. by eexists.
  - destruct (unlock_r_some i s) as (pick & s' & H). exists (UnlockR i pick), s'. simpl. by rewrite decide_True.
  - exists (Resume i). simpl. rewrite E. by eexists.
  - destruct (release_some Idle i s) as (pick & s' & H). exists (UnlockRW i pick), s'. simpl. by rewrite decide_True.
  - destruct (release_some Yielding i s) as (pick & s' & H). exists (YieldRelease i pick), s'. simpl. by rewrite decide_True.
  - exists (YieldRelock i). simpl. rewrite decide_True by done. by eexists.
Qed.

Lemma settles_or_idle s : alive s -> Forall (fun p => p = Idle) (threads s) \/ exists e s', settling e /\ step s e = Some s'.
Proof.
  intros A. destruct (decide (Forall (fun p => p = Idle) (threads s))) as [|N]; [by left|right].
  apply not_Forall_Exists in N; [|apply _]. apply Exists_exists in N as (p & [i E]%list_elem_of_lookup & P).
  destruct (asleep p) eqn:S; [|by eapply busy_settles].
  destruct (sleeper_under_way s i p A E S) as (j & q & Ej & [Hq|(s' & ? & H & _)]).
  - eapply busy_settles; [done|exact Ej|by intros ->|]. by destruct q.
  - by exists (Resume j), s'.
Qed.

Lemma settle_lasting e : settling e -> lasting e.
Proof. by destruct e. Qed.

Lemma settle_steps es : Forall settling es -> forall s s', alive s -> steps s es = Some s' ->
  alive s' /\ work s' + zlen es <= work s.
Proof.
  induction 1 as [|e es Se _ IH]; simpl; intros s s' A H; [simplify_eq; by split; [|unfold zlen; simpl; lia]|].
  destruct (step s e) as [s1|] eqn:E; simplify_eq/=.
  pose proof (settle_work s e s1 A Se E). destruct (IH s1 s') as [A' W']; [|done|].
  - eapply step_alive; eauto using settle_lasting.
  - split; [done|]. unfold zlen in *; simpl. lia.
Qed.

Lemma reach_steps allowed es : Forall allowed es -> forall s s', reach allowed s -> steps s es = Some s' -> reach allowed s'.
Proof.
  induction 1 as [|e es Ae _ IH]; simpl; intros s s' R H; [by simplify_eq|].
  destruct (step s e) as [s1|] eqn:E; simplify_eq/=. eapply IH; [|done]. by eapply reach_step.
Qed.

(** ** Suspension of readers *)

Definition releases (e : event) : Prop :=
  match e with UnlockRW _ _ | YieldRelease _ _ => True | _ => False end.

(** Once reading is suspended, no further reader gets the lock until a writer has
    had it and released it, unless it takes a soft lock. *)
Theorem suspension_holds s e s' : r_susp s = true -> ~ releases e -> (forall i got, e <> SoftTurn i got) ->
  step s e = Some s' -> r_susp s' = true /\ cache_r_lock s' <= cache_r_lock s.
Proof.
  intros S N NS H. destruct e; simpl in N, H |- *; try (exfalso; by eauto); repeat case_match; simplify_eq; simpl; try (split; [done|lia]).
  all: unfold lock_cache_r, read_try, lock_cache_rw, timedlock_cache_rw, yield_relock, start_write, write_try, yield_test,
    softunlock_cache_r, softunlock_cache_rw; simpl; try rewrite S; simpl; repeat case_match; simpl; try (split; [done|lia]).
  unfold unlock_cache_r in H. destruct (_ =? 0); [apply signal_cases in H as [[-> _]|(? & _ & ->)]|simplify_eq]; simpl.
  all: try (split; [done|case_match; lia]). all: by exfalso; eapply NS.
Qed.

(** ** The properties *)

(** C24: Mutual exclusion. In every run, with timed and soft locks, spurious
    wake-ups and expiries included, while a thread holds the cache lock for
    writing no other thread holds it, for reading or for writing. *)
Theorem cache_lock_exclusion allowed s i j p q : reach allowed s ->
  threads s !! i = Some p -> threads s !! j = Some q -> writes p = true -> i <> j -> holds q = false.
Proof.
  intros R Hi Hj Wp N. apply not_true_is_false. intros Q. apply N. destruct (reach_counted _ _ R) as [? Cw Ex ? ?].
  pose proof (cnt_pos writes _ _ _ Hi Wp) as P. destruct (cache_w_lock s); [|lia].
  apply orb_true_iff in Q as [Rq|Wq].
  - pose proof (cnt_pos reads _ _ _ Hj Rq). specialize (Ex eq_refl). lia.
  - eapply (cnt_two writes); eauto. lia.
Qed.

Lemma cache_lock_exclusion_witness : holds ReadSleep = false.
Proof.
  refine (cache_lock_exclusion (fun _ => True) (Lock true 0 1 0 false [ReadSleep; Writing]) 1 0 Writing ReadSleep
    (reach_steps _ [LockRW 1; LockR 0]%nat _ (init 2) _ (reach_init _ 2) _) _ _ _ _).
  - repeat constructor.
  - reflexivity.
  - reflexivity.
  - reflexivity.
  - reflexivity.
  - discriminate.
Defined.

(** C26: The lock is never stuck and drains: as long as no timed wait expires and no
    soft lock is in play, from any reachable state, if only the threads already
    inside go on and the holders release, whatever the order and whichever thread
    each signal wakes, the run stops after a bounded number of steps, and it can
    only stop when every thread that waited has had the lock and left it. *)
Theorem cache_lock_drains s es s' : reach lasting s -> Forall settling es -> steps s es = Some s' ->
  zlen es <= work s /\
  (Forall (fun p => p = Idle) (threads s') \/ exists e s'', settling e /\ step s' e = Some s'').
Proof.
  intros R%reach_alive Se H. destruct (settle_steps es Se s s' R H) as [A W].
  pose proof (total_nonneg (zlen (threads s')) (threads s') (zlen_nonneg _)). unfold work in W at 1.
  split; [lia|by apply settles_or_idle].
Qed.

Lemma cache_lock_drains_witness : exists s s' es,
  threads s = [Reading; WriteSleep false; WriteSleep false; WriteSleep false; ReadSleep] /\
  steps s es = Some s' /\ zlen es <= work s /\
  (Forall (fun p => p = Idle) (threads s') \/ exists e s'', settling e /\ step s' e = Some s'').
Proof.
  pose (s := Lock false 1 1 3 true [Reading; WriteSleep false; WriteSleep false; WriteSleep false; ReadSleep]).
  pose (es := [UnlockR 0 2; Resume 2; UnlockRW 2 0; Resume 4; UnlockR 4 1; Resume 1; UnlockRW 1 3; Resume 3; UnlockRW 3 0]%nat).
  exists s, (Lock false 0 0 0 false (repeat Idle 5)), es.
  split; [reflexivity|]. split; [reflexivity|].
  apply (cache_lock_drains s es (Lock false 0 0 0 false (repeat Idle 5))); [|repeat constructor|reflexivity].
  apply (reach_steps lasting [LockR 0; LockRW 1; LockRW 2; LockRW 3; LockR 4]%nat) with (s := init 5);
    [repeat constructor|apply reach_init|reflexivity].
Defined.

(** The hypothesis on expiries is needed: with five threads, three timed writers
    that time out while a reader holds the lock leave a second reader asleep, the
    lock free and nobody to wake it. *)
Definition stranding : list event :=
  [LockR 0; TimedLockRW 1; TimedLockRW 2; TimedLockRW 3; LockR 4;
   Expire 1; Expire 2; Expire 3; Resume 1; Resume 2; Resume 3; UnlockR 0 0].

Theorem timeout_strands_reader :
  steps (init 5) stranding = Some (Lock false 0 1 0 true [Idle; Idle; Idle; Idle; ReadSleep]).
Proof. reflexivity. Qed.
