(* ===== verification/PdnsdSort.v ===== *)
(** * Ordering the list of cached record sets

    The list [rrset_l] of [pdnsd/src/cache.c] is kept by age. While the program
    runs, [insert_rrl] puts each new entry in its place by a search from the end;
    while the disk cache is read, entries are appended and [sort_rrl] sorts the
    list at the end by a merge sort over an array of 32 partial lists. This file
    models the orders of the two routines on lists of entries with a time
    stamp, and shows that they build the same list. The links of the list
    nodes are followed as list structure; the back links, which [sort_rrl]
    rebuilds in a last pass, are implied by it. *)

From Stdlib Require Import Sorted.
From S2P Require Import Prelude.

Open Scope Z_scope.

Section Order.

Context {A : Type} (ts : A -> Z).

(** ** The routines *)

Fixpoint listmerge (p : list A) : list A -> list A :=
  fix go q :=
    match p, q with
    | [], _ => q
    | _, [] => p
    | x :: p', y :: q' => if ts x <=? ts y then x :: listmerge p' q else y :: go q'
    end.

Definition NTMPSORT : nat := 32.

(** The inner loop of [sort_rrl]. [tmp] is the filled part of the array, [[]] a
    null pointer; full slots are merged into the carry until a null slot, or the
    end of the filled part, takes it. *)
Fixpoint push (tmp : list (list A)) (carry : list A) : list (list A) :=
  match tmp with
  | [] => [carry]
  | [] :: tmp => carry :: tmp
  | t :: tmp => [] :: push tmp (listmerge t carry)
  end.

(** The outer loop; [None] is the failed assertion [counter!=end]. *)
Fixpoint distribute (rem : list A) (tmp : list (list A)) : option (list (list A)) :=
  match rem with
  | [] => Some tmp
  | x :: rem =>
    let tmp := push tmp [x] in
    if (NTMPSORT <? length tmp)%nat then None else distribute rem tmp
  end.

Definition collect (tmp : list (list A)) : list A :=
  match tmp with
  | [] => []
  | t :: tmp => fold_left (fun carry t => listmerge t carry) tmp t
  end.

Definition sort_rrl (l : list A) : option (list A) :=
  match l with
  | _ :: _ :: _ => collect <$> distribute l []
  | _ => Some l
  end.

(** The search of [insert_rrl] with [insert_sort] set: backwards from the tail to
    the first entry that is not younger. *)
Fixpoint insert_back (x : A) (r : list A) : list A :=
  match r with
  | [] => [x]
  | y :: r' => if ts y <=? ts x then x :: r else y :: insert_back x r'
  end.

Definition insert_sorted (l : list A) (x : A) : list A := reverse (insert_back x (reverse l)).

(** ** A sorted list is determined by its runs of equal time stamps *)

Definition keep (k : Z) (l : list A) : list A := base.filter (fun x => ts x = k) l.

Definition older (x y : A) : Prop := ts x <= ts y.

Lemma keep_cons k x l : keep k (x :: l) = if decide (ts x = k) then x :: keep k l else keep k l.
Proof. unfold keep. by rewrite filter_cons. Qed.

Lemma keep_app k l l' : keep k (l ++ l') = keep k l ++ keep k l'.
Proof. apply filter_app. Qed.

Lemma keep_none k l : Forall (fun x => ts x <> k) l -> keep k l = [].
Proof. induction 1 as [|x l N _ IH]; [done|]. by rewrite keep_cons, decide_False. Qed.

Lemma sorted_head_keep x l : StronglySorted older (x :: l) -> forall k, k < ts x -> keep k (x :: l) = [].
Proof.
  intros [_ F]%StronglySorted_inv k Hk. apply keep_none. constructor; [lia|].
  eapply Forall_impl; [exact F|]. unfold older. intros; simpl in *; lia.
Qed.

Lemma sorted_unique l : forall l', StronglySorted older l -> StronglySorted older l' ->
  (forall k, keep k l = keep k l') -> l = l'.
Proof.
  induction l as [|x l IH]; intros [|y l'] S S' E; [done| | |].
  - specialize (E (ts y)). rewrite keep_cons, decide_True in E; done.
  - specialize (E (ts x)). rewrite keep_cons, decide_True in E; done.
  - assert (ts x = ts y) as T.
    { destruct (Z.lt_trichotomy (ts x) (ts y)) as [L|[?|L]]; [exfalso|done|exfalso].
      - specialize (E (ts x)). rewrite (sorted_head_keep _ _ S' _ L), keep_cons, decide_True in E; done.
      - specialize (E (ts y)). rewrite (sorted_head_keep _ _ S _ L), keep_cons, decide_True in E; done. }
    assert (x = y) as <-.
    { specialize (E (ts x)). rewrite !keep_cons, !decide_True in E by congruence. by simplify_eq. }
    f_equal. apply IH; [by apply StronglySorted_inv in S as [? _]|by apply StronglySorted_inv in S' as [? _]|].
    intros k. specialize (E k). rewrite !keep_cons in E. case_decide; by simplify_eq.
Qed.

(** ** Merging *)

Lemma listmerge_nil_l q : listmerge [] q = q.
Proof. by destruct q. Qed.

Lemma listmerge_nil_r p : listmerge p [] = p.
Proof. by destruct p. Qed.

Lemma listmerge_cons x p y q :
  listmerge (x :: p) (y :: q) = if ts x <=? ts y then x :: listmerge p (y :: q) else y :: listmerge (x :: p) q.
Proof. done. Qed.

Lemma listmerge_perm p : forall q, Permutation (listmerge p q) (p ++ q).
Proof.
  induction p as [|x p IHp]; [intros; by rewrite listmerge_nil_l|].
  induction q as [|y q IHq]; [by rewrite listmerge_nil_r, app_nil_r|].
  rewrite listmerge_cons. case_match; [by rewrite IHp|]. rewrite IHq. by rewrite Permutation_middle.
Qed.

Lemma forall_merge (P : A -> Prop) p q : Forall P p -> Forall P q -> Forall P (listmerge p q).
Proof. intros. rewrite listmerge_perm. by apply Forall_app. Qed.

Lemma listmerge_sorted p : StronglySorted older p -> forall q, StronglySorted older q -> StronglySorted older (listmerge p q).
Proof.
  induction p as [|x p IHp]; intros Sp q Sq; [by rewrite listmerge_nil_l|].
  pose proof Sp as [Sp' Fp]%StronglySorted_inv.
  induction q as [|y q IHq]; [by rewrite listmerge_nil_r|]. pose proof Sq as [Sq' Fq]%StronglySorted_inv.
  rewrite listmerge_cons. destruct (Z.leb_spec (ts x) (ts y)); constructor; auto; apply forall_merge; try done.
  - constructor; [done|]. eapply Forall_impl; [exact Fq|]. unfold older; intros; simpl in *; lia.
  - constructor; [unfold older; lia|]. eapply Forall_impl; [exact Fp|]. unfold older; intros; simpl in *; lia.
Qed.

(** The merge is stable: of equal stamps, those of the first list come first. *)
Lemma listmerge_keep k p : StronglySorted older p -> forall q, StronglySorted older q ->
  keep k (listmerge p q) = keep k p ++ keep k q.
Proof.
  induction p as [|x p IHp]; intros Sp q Sq; [by rewrite listmerge_nil_l|].
  pose proof Sp as [Sp' Fp]%StronglySorted_inv.
  induction q as [|y q IHq]; [by rewrite listmerge_nil_r, app_nil_r|]. pose proof Sq as [Sq' Fq]%StronglySorted_inv.
  rewrite listmerge_cons. destruct (Z.leb_spec (ts x) (ts y)).
  - rewrite !(keep_cons k x), IHp by done. by case_decide.
  - rewrite !(keep_cons k y), IHq by done. case_decide; [|done].
    rewrite (sorted_head_keep _ _ Sp) by lia. done.
Qed.

(** ** The insertion *)

Lemma insert_sorted_snoc l y x : insert_sorted (l ++ [y]) x =
  if ts y <=? ts x then (l ++ [y]) ++ [x] else insert_sorted l x ++ [y].
Proof.
  unfold insert_sorted. rewrite reverse_snoc. simpl. case_match; by rewrite ?reverse_cons, ?reverse_involutive.
Qed.

Lemma insert_sorted_perm l x : Permutation (insert_sorted l x) (x :: l).
Proof.
  induction l as [|y l IH] using rev_ind; [done|]. rewrite insert_sorted_snoc. case_match.
  - by rewrite Permutation_app_comm.
  - by rewrite IH.
Qed.

Lemma sorted_snoc l y : StronglySorted older (l ++ [y]) <-> StronglySorted older l /\ Forall (fun x => older x y) l.
Proof.
  induction l as [|x l IH]; simpl.
  - split; [by repeat constructor|repeat constructor].
  - split.
    + intros [S F]%StronglySorted_inv. apply IH in S as [S1 F1]. apply Forall_app in F as [F2 F3].
      split; constructor; try done. by inversion F3.
    + intros [[S F]%StronglySorted_inv F']. inversion F' as [|?? Oxy Fy]; subst. constructor; [by apply IH|].
      apply Forall_app. by repeat constructor.
Qed.

Lemma insert_keeps_sorted l x : StronglySorted older l -> StronglySorted older (insert_sorted l x).
Proof.
  induction l as [|y l IH] using rev_ind; intros S; [repeat constructor|]. rewrite insert_sorted_snoc.
  pose proof S as [S1 F1]%sorted_snoc. destruct (Z.leb_spec (ts y) (ts x)).
  - apply sorted_snoc. split; [done|]. apply Forall_app. split; [|by repeat constructor].
    eapply Forall_impl; [exact F1|]. unfold older; intros; simpl in *; lia.
  - apply sorted_snoc. split; [auto|]. rewrite insert_sorted_perm. constructor; [unfold older; lia|done].
Qed.

Lemma insert_sorted_keep k l x : StronglySorted older l -> keep k (insert_sorted l x) = keep k (l ++ [x]).
Proof.
  induction l as [|y l IH] using rev_ind; intros S; [done|]. rewrite insert_sorted_snoc.
  pose proof S as [S1 F1]%sorted_snoc. destruct (Z.leb_spec (ts y) (ts x)); [done|].
  rewrite keep_app, IH, !keep_app by done. rewrite !keep_cons. unfold keep at 2 4 6; simpl.
  destruct (decide (ts x = k)), (decide (ts y = k)); rewrite ?app_nil_r; try done; lia.
Qed.

(** What repeated insertion makes of a sequence of entries. *)
Definition inserted (l : list A) : list A := fold_left insert_sorted l [].

Lemma inserted_snoc l x : inserted (l ++ [x]) = insert_sorted (inserted l) x.
Proof. unfold inserted. by rewrite fold_left_app. Qed.

Lemma inserted_spec l : StronglySorted older (inserted l) /\ forall k, keep k (inserted l) = keep k l.
Proof.
  induction l as [|x l [S E]] using rev_ind; [by repeat constructor|]. rewrite inserted_snoc. split.
  - by apply insert_keeps_sorted.
  - intros k. rewrite insert_sorted_keep by done. by rewrite !keep_app, E.
Qed.

(** ** The merge sort *)

(** The partial lists are sorted; slot [i] of the rest of the array holds nothing or
    [2^i] entries. *)
Definition slots_ok (i : nat) (tmp : list (list A)) : Prop :=
  forall j t, tmp !! j = Some t -> StronglySorted older t /\ (t = [] \/ length t = (2 ^ (i + j))%nat).

(** The entries seen so far, the oldest slots last in the array. *)
Fixpoint order_of (tmp : list (list A)) (k : Z) : list A :=
  match tmp with
  | [] => []
  | t :: tmp => order_of tmp k ++ keep k t
  end.

Lemma slots_ok_cons i t tmp : slots_ok i (t :: tmp) <->
  (StronglySorted older t /\ (t = [] \/ length t = (2 ^ i)%nat)) /\ slots_ok (S i) tmp.
Proof.
  split.
  - intros H. split; [destruct (H 0%nat t eq_refl) as [? ?]; by rewrite Nat.add_0_r in *|].
    intros j u Hu. specialize (H (S j) u Hu). by rewrite Nat.add_succ_r in H.
  - intros [H0 H] [|j] u Hu; simplify_eq/=; [by rewrite Nat.add_0_r|]. rewrite Nat.add_succ_r. by apply (H j).
Qed.

Lemma listmerge_length p q : length (listmerge p q) = (length p + length q)%nat.
Proof. rewrite listmerge_perm. apply length_app. Qed.

Lemma push_ok tmp : forall i carry, slots_ok i tmp -> StronglySorted older carry -> length carry = (2 ^ i)%nat ->
  slots_ok i (push tmp carry) /\ (forall k, order_of (push tmp carry) k = order_of tmp k ++ keep k carry) /\
  length (concat (push tmp carry)) = (length (concat tmp) + length carry)%nat.
Proof.
  induction tmp as [|t tmp IH]; intros i carry H Sc Lc; cbn [push].
  - simpl. split; [|by rewrite app_nil_r]. apply slots_ok_cons. split; [auto|]. by intros j u Hu.
  - apply slots_ok_cons in H as [[St Lt] H]. destruct t as [|x t].
    + split; [|split]; [apply slots_ok_cons; auto|simpl; intros; by rewrite app_nil_r|simpl; rewrite length_app; lia].
    + destruct Lt as [|Lt]; [done|]. destruct (IH (S i) (listmerge (x :: t) carry)) as (H1 & H2 & H3); [done| | |].
      * by apply listmerge_sorted.
      * rewrite listmerge_length, Lt, Lc. simpl. lia.
      * pose proof (listmerge_length (x :: t) carry) as LL. split; [|split]; cbn [order_of concat app].
        -- apply slots_ok_cons. split; [by split; [constructor|left]|done].
        -- intros k. rewrite H2. rewrite listmerge_keep by done. by rewrite app_nil_r, app_assoc.
        -- rewrite H3, LL. simpl. rewrite length_app. lia.
Qed.

(** The last slot in use is full, so that [n] slots in use hold at least [2^(n-1)]
    entries: with fewer than [2^32] entries the array never overflows. *)
Definition last_full (tmp : list (list A)) : Prop := forall t, last tmp = Some t -> t <> [].

Lemma push_nonnil tmp carry : carry <> [] -> exists u us, push tmp carry = u :: us.
Proof. destruct tmp as [|[|x t] tmp]; simpl; eauto. Qed.

Lemma push_last tmp : forall carry, carry <> [] -> last_full tmp -> last_full (push tmp carry).
Proof.
  induction tmp as [|[|x t] tmp IH]; intros carry N L; cbn [push].
  - intros u Hu. by simplify_eq/=.
  - destruct tmp as [|y tmp]; intros u Hu; [by simplify_eq/=|]. by apply L.
  - assert (listmerge (x :: t) carry <> []) as N'.
    { intros E. pose proof (listmerge_length (x :: t) carry) as Q. rewrite E in Q. simpl in Q. lia. }
    destruct (push_nonnil tmp _ N') as (u & us & E). intros v Hv.
    assert (last_full tmp) as L' by (destruct tmp as [|z tmp]; [by intros ? ?|exact L]).
    apply (IH _ N' L'). rewrite E in *. exact Hv.
Qed.

Lemma full_bound tmp i : slots_ok i tmp -> last_full tmp -> tmp <> [] -> (2 ^ (i + length tmp - 1) <= length (concat tmp))%nat.
Proof.
  intros H L N. destruct tmp as [|t tmp _] using rev_ind; [done|].
  specialize (L t). rewrite last_snoc in L. specialize (L eq_refl).
  destruct (H (length tmp) t) as [_ [?|E]]; [by rewrite lookup_app_r, Nat.sub_diag|done|].
  rewrite concat_app, !length_app. simpl. rewrite app_nil_r, E.
  replace (i + (length tmp + 1) - 1)%nat with (i + length tmp)%nat by lia. lia.
Qed.

Lemma distribute_ok rem : forall tmp, slots_ok 0 tmp -> last_full tmp ->
  Z.of_nat (length (concat tmp) + length rem) < 2 ^ 32 ->
  exists tmp', distribute rem tmp = Some tmp' /\ slots_ok 0 tmp' /\
    (forall k, order_of tmp' k = order_of tmp k ++ keep k rem).
Proof.
  induction rem as [|x rem IH]; intros tmp H L B; cbn [distribute].
  - exists tmp. split; [done|]. split; [done|]. intros k. by rewrite app_nil_r.
  - destruct (push_ok tmp 0 [x] H) as (H1 & H2 & H3); [by repeat constructor|done|].
    assert (L1 : last_full (push tmp [x])) by (by apply push_last).
    destruct (push_nonnil tmp [x]) as (u & us & E); [done|].
    assert (length (push tmp [x]) <= 32)%nat as B1.
    { pose proof (full_bound _ 0 H1 L1) as F. rewrite E in F at 1. specialize (F ltac:(done)).
      apply Nat.nlt_ge. intros B1. assert (2 ^ 32 <= 2 ^ (0 + length (push tmp [x]) - 1))%nat by (apply Nat.pow_le_mono_r; lia).
      simpl length in *. apply (f_equal Z.of_nat) in H3. assert (Z.of_nat (2 ^ 32) = 2 ^ 32) by (rewrite Nat2Z.inj_pow; done). lia. }
    destruct (Nat.ltb_spec NTMPSORT (length (push tmp [x]))); [unfold NTMPSORT in *; lia|].
    destruct (IH (push tmp [x])) as (tmp' & E' & H' & O'); [done..| |].
    + rewrite H3. simpl in *. lia.
    + exists tmp'. split; [done|]. split; [done|]. intros k. rewrite O', H2, <- app_assoc. by rewrite <- (keep_app k [x] rem).
Qed.

Lemma collect_from tmp : forall i carry, slots_ok i tmp -> StronglySorted older carry ->
  let r := fold_left (fun carry t => listmerge t carry) tmp carry in
  StronglySorted older r /\ forall k, keep k r = order_of tmp k ++ keep k carry.
Proof.
  induction tmp as [|t tmp IH]; intros i carry H Sc; cbn [fold_left order_of]; [done|].
  apply slots_ok_cons in H as [[St _] H]. destruct (IH (S i) (listmerge t carry) H) as [S' E']; [by apply listmerge_sorted|].
  split; [done|]. intros k. rewrite E', listmerge_keep by done. by rewrite app_assoc.
Qed.

Lemma collect_ok tmp : slots_ok 0 tmp ->
  StronglySorted older (collect tmp) /\ forall k, keep k (collect tmp) = order_of tmp k.
Proof.
  destruct tmp as [|t tmp]; [intros; by repeat constructor|]. intros [[S _] H]%slots_ok_cons.
  by apply (collect_from tmp 1 t H S).
Qed.

Lemma sort_rrl_ok l : Z.of_nat (length l) < 2 ^ 32 -> sort_rrl l = Some (inserted l).
Proof.
  intros B. destruct l as [|x [|y l]]; [done..|]. unfold sort_rrl.
  destruct (distribute_ok (x :: y :: l) []) as (tmp & -> & H & O); [by intros ? ?|by intros ? ?|done|].
  simpl fmap. f_equal. destruct (collect_ok _ H) as [S E], (inserted_spec (x :: y :: l)) as [S' E'].
  apply sorted_unique; [done..|]. intros k. by rewrite E, E', O.
Qed.

Lemma inserted_perm l : Permutation (inserted l) l.
Proof.
  induction l as [|x l IH] using rev_ind; [done|]. rewrite inserted_snoc, insert_sorted_perm, IH. apply Permutation_cons_append.
Qed.

(** C31: Appending entries in any order and sorting them once with the merge sort of
    [sort_rrl] gives exactly the list that [insert_rrl] builds by inserting the
    same entries one after another: the entries in order of age, and entries of
    equal age in the order in which they came. The fixed array of 32 partial lists
    does not overflow below 2^32 entries. *)
Theorem sort_rrl_equiv l : Z.of_nat (length l) < 2 ^ 32 ->
  sort_rrl l = Some (fold_left insert_sorted l []) /\
  Permutation (fold_left insert_sorted l []) l /\ StronglySorted older (fold_left insert_sorted l []).
Proof.
  intros B. split; [by apply sort_rrl_ok|]. split; [apply inserted_perm|apply inserted_spec].
Qed.

End Order.

Lemma sort_rrl_equiv_witness :
  sort_rrl fst [(5, 0); (3, 1); (5, 2); (1, 3); (3, 4)] = Some [(1, 3); (3, 1); (3, 4); (5, 0); (5, 2)] /\
  sort_rrl fst [(5, 0); (3, 1); (5, 2); (1, 3); (3, 4)] =
    Some (fold_left (insert_sorted fst) [(5, 0); (3, 1); (5, 2); (1, 3); (3, 4)] []).
Proof.
  split; [reflexivity|].
  exact (proj1 (sort_rrl_equiv fst [(5, 0); (3, 1); (5, 2); (1, 3); (3, 4)] eq_refl)).
Defined.
