(* ===== verification/PdnsdCent.v ===== *)
(** * Cache entries of the DNS cache

    [pdnsd/src/cache.h], the tables of [rr_types.h] and the functions of
    [cache.c] that build, copy and take apart cache entries ([dns_cent_t]), with the
    list [rrset_l] of the record sets in order of age.

    A cache entry lives in a heap [cents] under an address, whether it belongs to
    the cache or to a caller that builds or reads it. Its record sets are stored in
    the entry: the two arrays [rrmu] and [rrext] are one array of [NRRMU] slots,
    extended by [NREXT] slots while [rrext] is allocated, as the macros
    [RRARR_INDEX] see them. The union of [dns_cent_t] is an inductive type; the
    code selects a member by the flag [DF_NEGATIVE]. The entries of [rrset_l] have
    addresses too; [rrset_l] is the list of them with their contents. The pointer
    to a record set in a list entry is the pair of its [cent] and [idx], valid as
    long as the record set in that slot points back to the list entry.

    Operations are in a state monad with failure: failure is undefined
    behaviour (use of freed memory, a wrong member of the union) or an assertion of
    the program that fails. The results of [malloc] are a list of
    answers in the state. Struct sizes are parameters. *)

From S2P Require Import Prelude.
From S2P Require Import PdnsdNames.
From S2P Require Import PdnsdHash.
From S2P Require Import PdnsdSort.

Open Scope Z_scope.

(** ** Record types *)

Definition T_MIN : Z := 1.
Definition T_NUM : Z := 51.
Definition NRRMU : nat := 8.
Definition NRREXT : nat := 39.
Definition NRRTOT : nat := 47.

Definition rrlkuptab : list nat :=
  [0; 1; 8; 9; 2; 3; 10; 11; 12; 13; 14; 4; 15; 16; 5; 6; 17; 18; 19; 20; 21; 22; 23; 24; 25; 26; 27; 7; 28; 29; 30;
   31; 32; 33; 34; 35; 36; 47; 48; 49; 50; 37; 38; 39; 40; 41; 42; 43; 44; 45; 46]%nat.

Definition RRCL_ALIAS : Z := 1.
Definition RRCL_RECORD : Z := 2.
Definition RRCL_IDEM : Z := 4.
Definition RRCL_PTR : Z := 8.
Definition RRX_ALIAS : Z := Z.lor RRCL_RECORD RRCL_PTR.
Definition RRX_RECORD : Z := Z.lor RRCL_ALIAS RRCL_PTR.
Definition RRX_IDEM : Z := 0.
Definition RRX_PTR : Z := Z.lor RRCL_ALIAS RRCL_RECORD.

Record rr_infos := Infos { class : Z; excludes : Z }.

Definition rr_info : list rr_infos :=
  let record := Infos RRCL_RECORD RRX_RECORD in
  let idem := Infos RRCL_IDEM RRX_IDEM in
  let alias := Infos RRCL_ALIAS RRX_ALIAS in
  let ptr := Infos RRCL_PTR RRX_PTR in
  [record; idem; alias; idem; ptr; idem; idem; record;
   idem; idem; idem; idem; idem; idem; record; record; idem; record; record; record; record; record; record; ptr;
   idem; idem; idem; record; record; idem; record; record; record; record; record; record; record;
   idem; idem; idem; idem; idem; idem; idem; idem; idem; idem].

(** The index of the record sets of a type, if the type is in the table. *)
Definition rr_index (type : Z) : option nat :=
  let tpi := type - T_MIN in
  if (0 <=? tpi) && (tpi <? T_NUM) then rrlkuptab !! Z.to_nat tpi else None.

(** The last types of the table are not cached. *)
Definition PDNSD_NOT_CACHED_TYPE (type : Z) : bool :=
  match rr_index type with Some i => (NRRTOT <=? i)%nat | None => true end.

(** ** Flags *)

Definition CF_NEGATIVE : Z := 1.
Definition CF_LOCAL : Z := 2.
Definition CF_AUTH : Z := 4.
Definition CF_NOCACHE : Z := 8.
Definition CF_ADDITIONAL : Z := 16.
Definition CF_NOPURGE : Z := 32.
Definition CF_ROOTSERV : Z := 64.

Definition DF_NEGATIVE : Z := 1.
Definition DF_LOCAL : Z := 2.
Definition DF_AUTH : Z := 4.
Definition DF_NOCACHE : Z := 8.
Definition DF_WILD : Z := 16.

Definition has (fl bit : Z) : bool := negb (Z.land fl bit =? 0).
Definition without (fl bit : Z) : Z := Z.ldiff fl bit.

Definition cundef : Z := 0xff.
Definition CACHE_LAT : Z := 120.
Definition CLAT_ADJ (ttl : Z) : Z := if ttl <? CACHE_LAT then CACHE_LAT else ttl.

(** ** Data *)

(** [rrs] are the data of the chained [rr_bucket_t]. *)
Record rr_set_t := RRSet { lent : option nat; ttl : Z; ts : Z; rflags : Z; rrs : list (list byte) }.

Inductive union :=
| Neg (lent : option nat) (ttl ts : Z)
| RR (arr : list (option rr_set_t)).

Record dns_cent_t := Cent {
  qname : list byte;
  cs : Z;
  num_rrs : Z;
  flags : Z;
  body : union;
  c_ns : Z;
  c_soa : Z;
}.

(** A list entry is for a record set, by its slot, or for a negative entry
    ([rrset] null and [idx] -1 in the source). *)
Record rr_lent_t := Lent { le_cent : nat; le_idx : option nat }.

Record cache := Cache {
  cents : gmap nat dns_cent_t;
  hash : gmap (list byte) nat;          (* the hash table: [PdnsdHash] *)
  rrset_l : list (nat * rr_lent_t);
  cache_size : Z;
  ent_num : Z;
  insert_sort : bool;
  fresh : nat;                          (* the next address *)
  mallocs : list bool;                  (* what the next calls of malloc answer *)
}.

Definition set_cents h s := Cache h (hash s) (rrset_l s) (cache_size s) (ent_num s) (insert_sort s) (fresh s) (mallocs s).
Definition set_hash t s := Cache (cents s) t (rrset_l s) (cache_size s) (ent_num s) (insert_sort s) (fresh s) (mallocs s).
Definition set_list l s := Cache (cents s) (hash s) l (cache_size s) (ent_num s) (insert_sort s) (fresh s) (mallocs s).
Definition set_size z s := Cache (cents s) (hash s) (rrset_l s) z (ent_num s) (insert_sort s) (fresh s) (mallocs s).
Definition set_num z s := Cache (cents s) (hash s) (rrset_l s) (cache_size s) z (insert_sort s) (fresh s) (mallocs s).
Definition set_sort b s := Cache (cents s) (hash s) (rrset_l s) (cache_size s) (ent_num s) b (fresh s) (mallocs s).
Definition set_fresh n s := Cache (cents s) (hash s) (rrset_l s) (cache_size s) (ent_num s) (insert_sort s) n (mallocs s).
Definition set_mallocs m s := Cache (cents s) (hash s) (rrset_l s) (cache_size s) (ent_num s) (insert_sort s) (fresh s) m.

Definition with_flags f c := Cent (qname c) (cs c) (num_rrs c) f (body c) (c_ns c) (c_soa c).
Definition with_body b c := Cent (qname c) (cs c) (num_rrs c) (flags c) b (c_ns c) (c_soa c).
Definition with_cs z c := Cent (qname c) z (num_rrs c) (flags c) (body c) (c_ns c) (c_soa c).
Definition with_num z c := Cent (qname c) (cs c) z (flags c) (body c) (c_ns c) (c_soa c).
Definition with_ns z c := Cent (qname c) (cs c) (num_rrs c) (flags c) (body c) z (c_soa c).
Definition with_soa z c := Cent (qname c) (cs c) (num_rrs c) (flags c) (body c) (c_ns c) z.

(** ** The monad *)

Definition M (A : Type) : Type := cache -> option (A * cache).

#[global] Instance M_ret : MRet M := fun A x s => Some (x, s).
#[global] Instance M_bind : MBind M := fun A B f m s => match m s with Some (x, s') => f x s' | None => None end.

Definition fail {A} : M A := fun _ => None.
Definition get : M cache := fun s => Some (s, s).
Definition modify (f : cache -> cache) : M unit := fun s => Some (tt, f s).
Definition assert_that (b : bool) : M unit := if b then mret tt else fail.

Definition load (a : nat) : M dns_cent_t := fun s => c ← cents s !! a; Some (c, s).
Definition store (a : nat) (c : dns_cent_t) : M unit := modify (fun s => set_cents (<[a := c]> (cents s)) s).
Definition new_address : M nat := fun s => Some (fresh s, set_fresh (S (fresh s)) s).

(** [malloc]: whether memory was obtained. *)
Definition malloc : M bool := fun s =>
  match mallocs s with
  | [] => Some (true, s)
  | b :: m => Some (b, set_mallocs m s)
  end.

(** ** Access to the record sets *)

Definition negative (c : dns_cent_t) : bool := has (flags c) DF_NEGATIVE.

Definition arr (c : dns_cent_t) : list (option rr_set_t) := match body c with RR a => a | Neg _ _ _ => [] end.

Definition RRARR_LEN (c : dns_cent_t) : nat :=
  if negative c then 0%nat else if (NRRMU <? length (arr c))%nat then NRRTOT else NRRMU.

Definition RRARR_INDEX_TESTEXT (c : dns_cent_t) (i : nat) : option rr_set_t :=
  if negative c then None else mjoin (arr c !! i).

Definition RRARR_INDEX (c : dns_cent_t) (i : nat) : option rr_set_t := mjoin (arr c !! i).

Definition set_slot (i : nat) (r : option rr_set_t) (c : dns_cent_t) : dns_cent_t :=
  with_body (RR (<[i := r]> (arr c))) c.

Definition getrrset (c : dns_cent_t) (type : Z) : option rr_set_t :=
  if negative c then None else i ← rr_index type; RRARR_INDEX c i.

Definition have_rr (c : dns_cent_t) (type : Z) : bool :=
  negb (negative c) &&
  match i ← rr_index type; RRARR_INDEX c i with
  | Some r => match rrs r with [] => false | _ => true end
  | None => false
  end.

(** The sums are exact here. In the source they are [time_t] sums, signed, which agree as
    long as the time stamp is not within a lifetime of the end of the type's range; a disk
    file can hold such time stamps, and nothing in the source excludes them. *)
Definition timedout (now : Z) (r : rr_set_t) : bool := ts r + CLAT_ADJ (ttl r) <? now.

Definition timedout_nxdom (now : Z) (c : dns_cent_t) : bool :=
  match body c with Neg _ t s => s + CLAT_ADJ t <? now | RR _ => false end.

(** ** The list of record sets *)

(** What a list entry points to: the time stamp of its record set or of its negative
    entry. *)
Definition get_rrlent_ts (s : cache) (e : nat * rr_lent_t) : option Z :=
  c ← cents s !! le_cent e.2;
  match le_idx e.2 with
  | Some i => r ← RRARR_INDEX c i; if decide (lent r = Some e.1) then Some (ts r) else None
  | None => match body c with
            | Neg l _ t => Some t
            | RR _ => None
            end
  end.

(** The backward search of [insert_rrl]. *)
Fixpoint insert_from_tail (s : cache) (t : Z) (ne : nat * rr_lent_t) (r : list (nat * rr_lent_t))
  : option (list (nat * rr_lent_t)) :=
  match r with
  | [] => Some [ne]
  | le :: r' =>
    t' ← get_rrlent_ts s le;
    if t' <=? t then Some (ne :: r) else (le ::.) <$> insert_from_tail s t ne r'
  end.

(** The record set in slot [idx] of the entry, or the negative entry itself. *)
Definition insert_rrl (cent : nat) (idx : option nat) : M bool :=
  c ← load cent;
  let r := i ← idx; RRARR_INDEX c i in
  if match r with Some r => has (rflags r) CF_LOCAL | None => false end || has (flags c) DF_LOCAL then mret true else
  ok ← malloc;
  if negb ok then mret false else
  l ← new_address;
  let ne := (l, Lent cent idx) in
  t ← (match r, body c with
       | Some r, _ => mret (ts r)
       | None, Neg _ _ t => mret t
       | None, RR _ => fail
       end : M Z);
  s ← get;
  (if insert_sort s then
     match insert_from_tail s t ne (reverse (rrset_l s)) with
     | Some r => modify (set_list (reverse r))
     | None => fail
     end
   else modify (set_list (rrset_l s ++ [ne])));;
  (match idx, r, body c with
   | Some i, Some r, _ => store cent (set_slot i (Some (RRSet (Some l) (ttl r) (ts r) (rflags r) (rrs r))) c)
   | None, _, Neg _ tl t => store cent (with_body (Neg (Some l) tl t) c)
   | _, _, _ => fail
   end);;
  mret true.

Definition remove_rrl (l : nat) : M unit :=
  s ← get;
  assert_that (bool_decide (l ∈ (rrset_l s).*1));;
  modify (set_list (base.filter (fun e => e.1 <> l) (rrset_l s))).

(** [sort_rrl]: all the time stamps are read, [PdnsdSort.sort_rrl] is the order. *)
Definition sort_list : M unit := fun s =>
  keyed ← mapM (fun e => t ← get_rrlent_ts s e; Some (t, e)) (rrset_l s);
  l ← sort_rrl fst keyed;
  Some (tt, set_list l.*2 s).

(** ** Building and taking apart entries *)

Record sizes := Sizes { sizeof_cent : Z; sizeof_rr_set : Z; sizeof_rr_bucket : Z; sizeof_ptr : Z }.

Section Cent.

Variable abi : sizes.

Definition ext_size : Z := sizeof_ptr abi * Z.of_nat NRREXT.
Definition bucket_size (d : list byte) : Z := sizeof_rr_bucket abi + zlen d.
Definition rrset_size (r : rr_set_t) : Z := sizeof_rr_set abi + fold_right (fun d z => bucket_size d + z) 0 (rrs r).

(** The entry is in storage the caller has; the address of the initialised entry,
    or nothing when the name could not be allocated. *)
Definition init_cent (name : list byte) (ttl ts flags : Z) : M (option nat) :=
  ok ← malloc;
  if negb ok then mret None else
  a ← new_address;
  store a (Cent name (sizeof_cent abi + zlen name) 0 flags
             (if has flags DF_NEGATIVE then Neg None ttl ts else RR (repeat None NRRMU)) cundef cundef);;
  mret (Some a).

(** When the entry was negative it becomes an empty one with records. *)
Definition unnegate (cent : nat) : M unit :=
  c ← load cent;
  if negative c then
    match body c with
    | Neg l _ _ =>
      (match l with Some l => remove_rrl l | None => mret tt end);;
      store cent (with_body (RR (repeat None NRRMU)) (with_flags (without (flags c) DF_NEGATIVE) c))
    | RR _ => fail
    end
  else mret tt.

Definition add_cent_rrset_by_index (cent : nat) (idx : nat) (ttl ts flags : Z) : M bool :=
  unnegate cent;;
  assert_that (idx <? NRRTOT)%nat;;
  c ← load cent;
  ok ← (if (idx <? length (arr c))%nat then mret true else
        ok ← malloc;
        (if ok then store cent (with_cs (cs c + ext_size) (with_body (RR (arr c ++ repeat None NRREXT)) c)) else mret tt);;
        mret ok : M bool);
  if negb ok then mret false else
  c ← load cent;
  ok ← malloc;
  if negb ok then store cent (set_slot idx None c);; mret false else
  store cent (with_num (num_rrs c + 1) (with_cs (cs c + sizeof_rr_set abi) (set_slot idx (Some (RRSet None ttl ts flags [])) c)));;
  mret true.

Definition add_cent_rrset_by_type (cent : nat) (type ttl ts flags : Z) : M bool :=
  match rr_index type with
  | Some idx => add_cent_rrset_by_index cent idx ttl ts flags
  | None => fail
  end.

(** The new record goes after the record at position [rtail] of the set, or
    to its front; the result has the position of the new record. *)
Definition add_cent_rr_int (cent : nat) (idx : nat) (ttl ts flags : Z) (d : list byte) (rtail : option nat)
  : M (option nat) :=
  ok ← malloc;
  if negb ok then mret None else
  ok ← (match rtail with
        | Some _ => mret true
        | None => c ← load cent;
                  match RRARR_INDEX_TESTEXT c idx with
                  | Some _ => mret true
                  | None => add_cent_rrset_by_index cent idx ttl ts flags
                  end
        end : M bool);
  if negb ok then mret None else
  c ← load cent;
  match RRARR_INDEX c idx with
  | Some r =>
    let n := match rtail with Some n => S n | None => 0%nat end in
    store cent (with_cs (cs c + bucket_size d)
      (set_slot idx (Some (RRSet (lent r) (PdnsdCent.ttl r) (PdnsdCent.ts r) (rflags r)
                             (take n (rrs r) ++ d :: drop n (rrs r)))) c));;
    mret (Some n)
  | None => fail
  end.

Definition add_cent_rr (cent : nat) (type ttl ts flags : Z) (d : list byte) : M bool :=
  c ← load cent;
  if has (PdnsdCent.flags c) DF_LOCAL && negb (has flags CF_LOCAL) then mret true else
  match rr_index type with
  | None => fail
  | Some idx =>
    assert_that (idx <? NRRTOT)%nat;;
    match RRARR_INDEX_TESTEXT c idx with
    | Some r =>
      store cent (set_slot idx (Some (RRSet (lent r) (Z.min ttl (PdnsdCent.ttl r)) (PdnsdCent.ts r) (rflags r) (rrs r))) c);;
      if bool_decide (d ∈ rrs r) then mret true else
      let rtail := match rrs r with [] => None | _ => Some (length (rrs r) - 1)%nat end in
      done ← add_cent_rr_int cent idx ttl ts flags d rtail; mret (bool_decide (is_Some done))
    | None => done ← add_cent_rr_int cent idx ttl ts flags d None; mret (bool_decide (is_Some done))
    end
  end.

(** The size of the memory freed. *)
Definition del_rrset (r : rr_set_t) : M Z :=
  (match lent r with Some l => remove_rrl l | None => mret tt end);; mret (rrset_size r).

Definition del_cent_rrset_by_index (cent : nat) (i : nat) : M Z :=
  c ← load cent;
  match RRARR_INDEX_TESTEXT c i with
  | Some r =>
    rv ← del_rrset r;
    store cent (with_flags (without (flags c) DF_AUTH) (with_cs (cs c - rv) (with_num (num_rrs c - 1) (set_slot i None c))));;
    mret rv
  | None => mret 0
  end.

(** [del_rrset] on each record set of an array; the sum of the sizes. *)
Fixpoint del_rrsets (a : list (option rr_set_t)) : M Z :=
  match a with
  | [] => mret 0
  | Some r :: a => rv ← del_rrset r; n ← del_rrsets a; mret (rv + n)
  | None :: a => del_rrsets a
  end.

(** All callers then free the entry itself, or abandon it. *)
Definition free_cent (cent : nat) : M unit :=
  c ← load cent;
  (if negative c then
     match body c with
     | Neg (Some l) _ _ => remove_rrl l
     | Neg None _ _ => mret tt
     | RR _ => fail
     end
   else match body c with
        | RR a => del_rrsets a;; mret tt
        | Neg _ _ _ => fail
        end);;
  modify (fun s => set_cents (delete cent (cents s)) s).

Definition negate_cent (cent : nat) (ttl ts : Z) : M unit :=
  c ← load cent;
  if negative c then
    match body c with
    | Neg l _ _ => store cent (with_body (Neg l ttl ts) c)
    | RR _ => fail
    end
  else match body c with
       | RR a =>
         n ← del_rrsets a;
         let ext := if (NRRMU <? length a)%nat then ext_size else 0 in
         store cent (with_body (Neg None ttl ts) (with_flags (Z.lor (flags c) DF_NEGATIVE)
                       (with_num 0 (with_cs (cs c - n - ext) c))))
       | Neg _ _ _ => fail
       end.

(** ** Copies *)

(** One allocation for the set and one for each record. *)
Fixpoint malloc_all (n : nat) : M bool :=
  match n with
  | O => mret true
  | S n => ok ← malloc; if negb ok then mret false else malloc_all n
  end.

(** The copy, not in the list; or nothing, all that was allocated being freed. *)
Definition copy_rrset (r : rr_set_t) : M (option rr_set_t) :=
  ok ← malloc_all (S (length (rrs r)));
  mret (if negb ok then None else Some (RRSet None (ttl r) (ts r) (rflags r) (rrs r))).

Fixpoint copy_slots (a : list (option rr_set_t)) : M (option (list (option rr_set_t))) :=
  match a with
  | [] => mret (Some [])
  | None :: a => x ← copy_slots a; mret ((None ::.) <$> x)
  | Some r :: a =>
    y ← copy_rrset r;
    match y with
    | None => mret None
    | Some r' => x ← copy_slots a; mret ((Some r' ::.) <$> x)
    end
  end.

Definition copy_cent (cent : nat) : M (option nat) :=
  c ← load cent;
  ok ← malloc;
  if negb ok then mret None else
  ok ← malloc;
  if negb ok then mret None else
  b ← (if negative c then
         match body c with
         | Neg _ ttl ts => mret (Some (Neg None ttl ts))
         | RR _ => fail
         end
       else match body c with
            | RR a =>
              ok ← (if (NRRMU <? length a)%nat then malloc else mret true : M bool);
              if negb ok then mret None else x ← copy_slots a; mret (RR <$> x)
            | Neg _ _ _ => fail
            end : M (option union));
  match b with
  | None => mret None
  | Some b =>
    a ← new_address;
    store a (Cent (qname c) (cs c) (num_rrs c) (flags c) b (c_ns c) (c_soa c));;
    mret (Some a)
  end.

End Cent.
