(* ===== verification/PdnsdCache.v ===== *)
(** * The operations of the DNS cache

    [pdnsd/src/cache.c]: purging, conflict resolution, adding, deleting,
    invalidating and looking up entries, on the entries of [PdnsdCent]. The hash
    table is the finite map that [PdnsdHash.dns_hash_refines] shows it to
    be; its key is the name in lower case. Each function that takes the cache
    lock is one operation on the state ([PdnsdLock.cache_lock_exclusion]), except
    [lookup_cache], which takes the lock twice and is two operations,
    [lookup_cache_r] and [lookup_cache_rw]. The time is
    an argument: [time(NULL)] does not change while the lock is held. *)

From S2P Require Import Prelude.
From S2P Require Import PdnsdNames.
From S2P Require Import PdnsdHash.
From S2P Require Import PdnsdSort.
From S2P Require Import PdnsdCent.

Open Scope Z_scope.

(** ** Names *)

Fixpoint rhnsegcnt_loop (fuel : nat) (rhn : list byte) : option nat :=
  match fuel with
  | O => None
  | S fuel =>
    match rhn with
    | [] => None
    | b :: rhn => if (b2n b =? 0)%nat then Some 0%nat else S <$> rhnsegcnt_loop fuel (drop (b2n b) rhn)
    end
  end.

Definition rhnsegcnt (rhn : list byte) : option nat := rhnsegcnt_loop (S (length rhn)) rhn.

Fixpoint skipsegs (nm : list byte) (k : nat) : option (list byte) :=
  match k with
  | O => Some nm
  | S k =>
    match nm with
    | [] => None
    | b :: r => if (b2n b =? 0)%nat then Some nm else skipsegs (drop (b2n b) r) k
    end
  end.

Definition dns_lookup (s : cache) (name : list byte) : option nat := hash s !! lower name.

Record globals := Globals { perm_cache : Z; min_ttl : Z; max_ttl : Z; neg_ttl : Z }.

Definition MCSZ : Z := 10240.

Section Operations.

Variable abi : sizes.
Variable global : globals.
Variable now : Z.

Notation ext_size := (ext_size abi).
Notation del_cent_rrset_by_index := (del_cent_rrset_by_index abi).
Notation add_cent_rrset_by_index := (add_cent_rrset_by_index abi).
Notation add_cent_rr_int := (add_cent_rr_int abi).
Notation free_cent := (free_cent abi).

Definition add_size (z : Z) : M unit := modify (fun s => set_size (cache_size s + z) s).

(** ** Deleting entries *)

Definition del_cent (cent : nat) : M unit :=
  c ← load cent;
  add_size (- cs c);;
  free_cent cent;;
  modify (fun s => set_num (ent_num s - 1) s).

(** With [loc] or without, the hash entry of the name goes; a name that is not
    there, or belongs to another entry, is only logged. *)
Definition del_cache_ent (cent : nat) : M unit :=
  c ← load cent;
  modify (fun s => set_hash (delete (lower (qname c)) (hash s)) s);;
  del_cent cent.

Definition del_cache (name : list byte) : M unit :=
  s ← get;
  match dns_lookup s name with
  | Some cent => modify (fun s => set_hash (delete (lower name) (hash s)) s);; del_cent cent
  | None => mret tt
  end.

(** [free_dns_hash_bucket] and [free_dns_hash_selected], called by [empty_cache] and
    [destroy_cache], take entries out of the table and call [del_cent] on each;
    [ks] are the names, as the table gave them. *)
Fixpoint free_names (ks : list (list byte)) : M unit :=
  match ks with
  | [] => mret tt
  | k :: ks => del_cache k;; free_names ks
  end.

(** ** Purging *)

(** The test for what is to be purged: timed out, and neither local nor marked to be kept
    ([CF_NOPURGE], the mark of answers from servers with purge_cache off). *)
Definition expired (r : rr_set_t) : bool :=
  negb (has (rflags r) CF_NOPURGE || has (rflags r) CF_LOCAL) && timedout now r.

Definition purge_rrset (cent idx : nat) (test : bool) : M bool :=
  c ← load cent;
  match RRARR_INDEX_TESTEXT c idx with
  | Some r =>
    if expired r then
      (if test then mret tt else rv ← del_cent_rrset_by_index cent idx; add_size (- rv));; mret true
    else mret false
  | None => mret false
  end.

(** The loop of [purge_all_rrsets] over [n] slots from [i]: deleted sets, remaining
    sets, remaining sets of the extended array. *)
Fixpoint purge_slots (n i : nat) (cent : nat) (test : bool) : M (Z * Z * Z) :=
  match n with
  | O => mret (0, 0, 0)
  | S n =>
    c ← load cent;
    match RRARR_INDEX c i with
    | Some r =>
      if expired r then
        (if test then mret tt else rv ← del_cent_rrset_by_index cent i; add_size (- rv));;
        '(rv, numrrs, numrrext) ← purge_slots n (S i) cent test;
        mret (rv + 1, numrrs, numrrext)
      else
        '(rv, numrrs, numrrext) ← purge_slots n (S i) cent test;
        mret (rv, numrrs + 1, if (NRRMU <=? i)%nat then numrrext + 1 else numrrext)
    | None => purge_slots n (S i) cent test
    end
  end.

(** The number of deleted items and of remaining sets. *)
Definition purge_all_rrsets (cent : nat) (test : bool) : M (Z * Z) :=
  c ← load cent;
  if negative c then mret (0, 0) else
  '(rv, numrrs, numrrext) ← purge_slots (RRARR_LEN c) 0 cent test;
  c ← load cent;
  if (NRRMU <? length (arr c))%nat && (numrrext =? 0) then
    (if test then mret tt else
       store cent (with_cs (cs c - ext_size) (with_body (RR (take NRRMU (arr c))) c));;
       add_size (- ext_size));;
    mret (rv + 1, numrrs)
  else mret (rv, numrrs).

Definition GET_RRSMU (c : dns_cent_t) (i : nat) : option rr_set_t := if negative c then None else RRARR_INDEX c i.

(** Whether the reference [cref] (a number of trailing name elements) to the record set
    in slot [i], the NS or the SOA records, is stale. *)
Definition stale_ref (c : dns_cent_t) (cref : Z) (i : nat) : M bool :=
  s ← get;
  match rhnsegcnt (qname c) with
  | None => fail
  | Some n =>
    let scnt := Z.of_nat n in
    rrset ← (if cref =? scnt then mret (GET_RRSMU c i) else
             if cref <? scnt then
               match skipsegs (qname c) (n - Z.to_nat cref) with
               | None => fail
               | Some nm =>
                 match dns_lookup s nm with
                 | Some ce => c' ← load ce; mret (GET_RRSMU c' i)
                 | None => mret None
                 end
               end
             else mret None : M (option rr_set_t));
    mret (match rrset with
          | Some r => match rrs r with [] => true | _ => negb (has (rflags r) CF_LOCAL) && timedout now r end
          | None => true
          end)
  end.

Definition RRMUINDEX_NS : nat := 1.
Definition RRMUINDEX_SOA : nat := 3.

(** A stale reference is set back to undefined; [npurge] counts. *)
Definition purge_ref (cent : nat) (test : bool) (ref : dns_cent_t -> Z) (i : nat) (clear : dns_cent_t -> dns_cent_t) (npurge : Z)
  : M Z :=
  c ← load cent;
  if ref c =? cundef then mret npurge else
  stale ← stale_ref c (ref c) i;
  if negb stale then mret npurge else
  (if test then mret tt else store cent (clear c));; mret (npurge + 1).

(** [-1] when the entry was, or would be, removed. *)
Definition purge_cent (cent : nat) (delete test : bool) : M Z :=
  '(npurge, numrrs) ← purge_all_rrsets cent test;
  c ← load cent;
  if delete && (numrrs =? 0) &&
     (negb (negative c) || (negb (has (flags c) DF_LOCAL) && timedout_nxdom now c)) then
    (if test then mret tt else del_cache_ent cent);; mret (-1)
  else if has (flags c) DF_LOCAL then mret npurge
  else
    npurge ← purge_ref cent test c_ns RRMUINDEX_NS (with_ns cundef) npurge;
    purge_ref cent test c_soa RRMUINDEX_SOA (with_soa cundef) npurge.

(** The contents and the successor of a list entry. *)
Fixpoint list_at (l : nat) (es : list (nat * rr_lent_t)) : option (rr_lent_t * option nat) :=
  match es with
  | [] => None
  | e :: es => if decide (e.1 = l) then Some (e.2, fst <$> hd_error es) else list_at l es
  end.

(** The flags of what a list entry points to: whether it is local. *)
Definition lent_local (l : nat) (e : rr_lent_t) : M bool :=
  c ← load (le_cent e);
  match le_idx e with
  | Some i =>
    match RRARR_INDEX c i with
    | Some r => assert_that (bool_decide (lent r = Some l));; mret (has (rflags r) CF_LOCAL || has (flags c) DF_LOCAL)
    | None => fail
    end
  | None => mret (has (flags c) DF_LOCAL)
  end.

(** What the first loop of [purge_cache] does with an entry: timed out records go. *)
Definition purge_timed_out (e : rr_lent_t) : M unit :=
  (match le_idx e with Some i => purge_rrset (le_cent e) i false;; mret tt | None => mret tt end);;
  c ← load (le_cent e);
  if (num_rrs c =? 0) && (negb (negative c) || (negb (has (flags c) DF_LOCAL) && timedout_nxdom now c))
  then del_cache_ent (le_cent e) else mret tt.

(** The second loop: every record goes. *)
Definition purge_any (e : rr_lent_t) : M unit :=
  (match le_idx e with
   | Some i => rv ← del_cent_rrset_by_index (le_cent e) i; add_size (- rv)
   | None => mret tt
   end);;
  c ← load (le_cent e);
  if num_rrs c =? 0 then del_cache_ent (le_cent e) else mret tt.

(** A walk along the list from [le], as long as [go] holds of the cache size; the
    successor is read before the entry is worked on. *)
Fixpoint walk (fuel : nat) (go : Z -> bool) (work : rr_lent_t -> M unit) (le : option nat) : M unit :=
  match le with
  | None => mret tt
  | Some l =>
    s ← get;
    if negb (go (cache_size s)) then mret tt else
    match fuel, list_at l (rrset_l s) with
    | S fuel, Some (e, next) =>
      local ← lent_local l e;
      (if (local : bool) then mret tt else work e);;
      walk fuel go work next
    | _, _ => fail
    end
  end.

Definition walk_list (go : Z -> bool) (work : rr_lent_t -> M unit) : M unit :=
  s ← get; walk (length (rrset_l s)) go work (fst <$> hd_error (rrset_l s)).

Definition purge_cache (sz : Z) (lazy : bool) : M unit :=
  walk_list (fun z => negb lazy || (sz <? z)) purge_timed_out;;
  s ← get;
  if cache_size s <=? sz then mret tt else
  (if insert_sort s then mret tt else sort_list;; modify (set_sort true));;
  walk_list (fun z => sz <? z) purge_any.

(** ** Conflicts *)

Definition conflicts (rri : rr_infos) (i : nat) (r : rr_set_t) : bool :=
  negb (has (rflags r) CF_NEGATIVE) &&
  match rr_info !! i with
  | Some x => has (class rri) (excludes x) || has (excludes rri) (class x)
  | None => false
  end.

(** The first loop of [cr_check_add]: [None] when a local set conflicts, otherwise
    the number of conflicts and the sum of their remaining lifetimes. *)
Fixpoint cr_scan (rri : rr_infos) (i : nat) (a : list (option rr_set_t)) : option (Z * Z) :=
  match a with
  | [] => Some (0, 0)
  | Some r :: a =>
    if conflicts rri i r then
      if has (rflags r) CF_LOCAL then None else
      '(ncf, nttl) ← cr_scan rri (S i) a;
      let rttl := ttl r + ts r - now in
      Some (ncf + 1, if 0 <? rttl then nttl + rttl else nttl)
    else cr_scan rri (S i) a
  | None :: a => cr_scan rri (S i) a
  end.

(** The second loop: the conflicting sets are deleted. *)
Fixpoint cr_remove (rri : rr_infos) (n i : nat) (cent : nat) : M unit :=
  match n with
  | O => mret tt
  | S n =>
    c ← load cent;
    (match RRARR_INDEX c i with
     | Some r => if conflicts rri i r then del_cent_rrset_by_index cent i;; mret tt else mret tt
     | None => mret tt
     end);;
    cr_remove rri n (S i) cent
  end.

Definition cr_check_add (cent idx : nat) (ttl ts flags : Z) : M bool :=
  if has flags CF_NEGATIVE then mret true else
  match rr_info !! idx with
  | None => fail
  | Some rri =>
    c ← load cent;
    let remove := cr_remove rri (RRARR_LEN c) 0 cent;; mret true in
    if has flags CF_LOCAL then remove else
    if has (PdnsdCent.flags c) DF_LOCAL then mret false else
    match cr_scan rri 0 (if negative c then [] else arr c) with
    | None => mret false
    | Some (ncf, nttl) =>
      if ncf =? 0 then mret true else
      if nttl `quot` ncf <? ttl then remove else mret false
    end
  end.

(** ** Adding *)

Definition adjusted_ttl (neg : bool) (t : Z) : Z :=
  let m := if neg && (neg_ttl global <? min_ttl global) then neg_ttl global else min_ttl global in
  if t <? m then m else if max_ttl global <? t then max_ttl global else t.

Definition adjust_ttl (r : rr_set_t) : rr_set_t :=
  if has (rflags r) CF_NOCACHE
  then RRSet (lent r) 0 (ts r) (without (rflags r) CF_NOCACHE) (rrs r)
  else RRSet (lent r) (adjusted_ttl (has (rflags r) CF_NEGATIVE) (ttl r)) (ts r) (rflags r) (rrs r).

Definition adjust_dom_ttl (c : dns_cent_t) : M dns_cent_t :=
  match body c with
  | Neg l t s =>
    mret (if has (flags c) DF_NOCACHE
          then with_body (Neg l 0 s) (with_flags (without (flags c) DF_NOCACHE) c)
          else with_body (Neg l (adjusted_ttl true t) s) c)
  | RR _ => fail
  end.

(** Record sets [i] to [i+n-1] of a new entry are adjusted and listed; [false] when
    memory runs out. *)
Fixpoint list_slots (n i : nat) (ce : nat) : M bool :=
  match n with
  | O => mret true
  | S n =>
    c ← load ce;
    match RRARR_INDEX c i with
    | Some r =>
      store ce (set_slot i (Some (adjust_ttl r)) c);;
      ok ← insert_rrl ce (Some i);
      if negb ok then mret false else list_slots n (S i) ce
    | None => list_slots n (S i) ce
    end
  end.

Definition purge_to_limit : M unit := purge_cache (perm_cache global * 1024 + MCSZ) true.

(** The branch of [add_cache] for a name that is not in the table. *)
Definition add_new (cent : nat) : M unit :=
  c ← load cent;
  if (num_rrs c =? 0) && negb (negative c) then purge_to_limit else
  ce ← copy_cent cent;
  match ce with
  | None => mret tt
  | Some ce =>
    c ← load ce;
    ok ← (if negb (negative c) then list_slots (RRARR_LEN c) 0 ce
          else c ← adjust_dom_ttl c; store ce c;; insert_rrl ce None);
    if negb ok then free_cent ce else
    ok ← malloc;
    if negb ok then free_cent ce else
    modify (fun s => set_hash (<[lower (qname c) := ce]> (hash s)) s);;
    modify (fun s => set_num (ent_num s + 1) s);;
    add_size (cs c);;
    purge_to_limit
  end.

(** The new set is not to replace the one there. *)
Definition keeps (old new : rr_set_t) : bool :=
  (negb (has (rflags new) CF_LOCAL) && has (rflags old) CF_LOCAL) ||
  (has (rflags new) CF_ADDITIONAL &&
   (negb (has (rflags old) CF_ADDITIONAL) || (negb (has (rflags new) CF_ROOTSERV) && has (rflags old) CF_ROOTSERV)) &&
   negb (timedout now old)).

(** The loop that copies the records. *)
Fixpoint add_rrs (ce i : nat) (new : rr_set_t) (ds : list (list byte)) (rtail : option nat) : M bool :=
  match ds with
  | [] => mret true
  | d :: ds =>
    n ← add_cent_rr_int ce i (ttl new) (ts new) (rflags new) d rtail;
    match n with None => mret false | Some n => add_rrs ce i new ds (Some n) end
  end.

(** The record set is copied into the empty slot and listed; [false] when memory
    runs out, the set then being removed again if it was begun. *)
Definition fill_rrset (ce i : nat) (new : rr_set_t) : M bool :=
  ok ← add_cent_rrset_by_index ce i (ttl new) (ts new) (rflags new);
  if negb ok then mret false else
  ok ← add_rrs ce i new (rrs new) None;
  if negb ok then del_cent_rrset_by_index ce i;; mret false else
  c ← load ce;
  match RRARR_INDEX c i with
  | None => fail
  | Some r =>
    store ce (set_slot i (Some (adjust_ttl r)) c);;
    ok ← insert_rrl ce (Some i);
    if negb ok then del_cent_rrset_by_index ce i;; mret false else mret true
  end.

(** One record set of the new entry. *)
Definition add_rrset (ce i : nat) (new : rr_set_t) : M bool :=
  c ← load ce;
  if match RRARR_INDEX_TESTEXT c i with Some old => keeps old new | None => false end then mret true else
  del_cent_rrset_by_index ce i;;
  ok ← cr_check_add ce i (ttl new) (ts new) (rflags new);
  if negb ok then mret true else fill_rrset ce i new.

Fixpoint add_rrsets (ce : nat) (i : nat) (a : list (option rr_set_t)) : M bool :=
  match a with
  | [] => mret true
  | Some new :: a => ok ← add_rrset ce i new; if negb ok then mret false else add_rrsets ce (S i) a
  | None :: a => add_rrsets ce (S i) a
  end.

Definition merge_ref (old new : Z) : Z :=
  if negb (new =? cundef) && ((old =? cundef) || (old <? new)) then new else old.

(** The branch of [add_cache] for a name that is in the table, the new entry having
    records. *)
Definition add_existing (ce cent : nat) : M unit :=
  purge_cent ce false false;;
  c ← load ce;
  add_size (- cs c);;
  n ← load cent;
  ok ← add_rrsets ce 0 (take (RRARR_LEN n) (arr n));
  if negb ok then c ← load ce; add_size (cs c) else
  c ← load ce;
  store ce (with_soa (merge_ref (c_soa c) (c_soa n)) (with_ns (merge_ref (c_ns c) (c_ns n))
             (with_flags (Z.lor (flags c) (Z.land (flags n) (Z.lor DF_AUTH DF_WILD))) c)));;
  add_size (cs c);;
  purge_to_limit.

(** [retry] is taken at most once: the entry found is deleted before. *)
Fixpoint add_cache_retry (fuel : nat) (cent : nat) : M unit :=
  match fuel with
  | O => fail
  | S fuel =>
    n ← load cent;
    s ← get;
    match dns_lookup s (qname n) with
    | None => add_new cent
    | Some ce =>
      if negative n then
        c ← load ce;
        if existsb (fun r => match r with Some r => has (rflags r) CF_LOCAL | None => false end)
             (if negative c then [] else arr c) then mret tt
        else del_cache_ent ce;; add_cache_retry fuel cent
      else add_existing ce cent
    end
  end.

Definition add_cache : nat -> M unit := add_cache_retry 2.

(** ** Changing entries in place *)

Definition invalidated (r : rr_set_t) : rr_set_t := RRSet (lent r) (ttl r) 0 (without (rflags r) CF_AUTH) (rrs r).

Definition invalidate_record (name : list byte) : M unit :=
  s ← get;
  match dns_lookup s name with
  | None => mret tt
  | Some ce =>
    c ← load ce;
    b ← (if negb (negative c) then
           match body c with RR a => mret (RR (map (fmap invalidated) a)) | Neg _ _ _ => fail end
         else match body c with Neg l t _ => mret (Neg l t 0) | RR _ => fail end : M union);
    store ce (with_flags (without (flags c) DF_AUTH) (with_body b c))
  end.

Definition set_cent_flags (name : list byte) (fl : Z) : M bool :=
  s ← get;
  match dns_lookup s name with
  | None => mret false
  | Some ce => c ← load ce; store ce (with_flags (Z.lor (flags c) fl) c);; mret true
  end.

(** ** Looking up *)

(** The length byte at the start of a name. *)
Definition label_len (nm : list byte) : M nat := match nm with b :: _ => mret (b2n b) | [] => fail end.

(** The loop of [getlocalowner]: [nm] is the name at hand, [lb] its first length
    byte. *)
Fixpoint localowner_loop (fuel : nat) (nm : list byte) (lb : nat) (tp : Z) : M (option (list byte)) :=
  match fuel with
  | O => fail
  | S fuel =>
    let nm := drop (lb + 1) nm in
    lb ← label_len nm;
    if (lb =? 0)%nat then mret None else
    s ← get;
    match dns_lookup s nm with
    | Some ce =>
      c ← load ce;
      if negb (has (flags c) DF_LOCAL) then mret None else
      if have_rr c tp then mret (Some nm) else localowner_loop fuel nm lb tp
    | None => localowner_loop fuel nm lb tp
    end
  end.

Definition getlocalowner (name : list byte) (tp : Z) : M (option (list byte)) :=
  lb ← label_len name;
  if (lb =? 0)%nat then mret None else localowner_loop (length name) name lb tp.

Inductive wild_t := WNone | WWild | WNeg | WLocnerr.

(** The search up the name hierarchy in [lookup_cache]. *)
Fixpoint wild_loop (fuel : nat) (nm : list byte) (lb : nat) : M (option nat * wild_t) :=
  match fuel with
  | O => fail
  | S fuel =>
    let nm := drop (lb + 1) nm in
    lb ← label_len nm;
    if (lb =? 0)%nat then mret (None, WNone) else
    s ← get;
    match dns_lookup s nm with
    | None => wild_loop fuel nm lb
    | Some ce =>
      c ← load ce;
      if has (flags c) DF_NEGATIVE then mret (Some ce, WNeg) else
      if has (flags c) DF_WILD then
        match dns_lookup s (x01 :: x2a :: nm) with
        | Some ce => mret (Some ce, WWild)
        | None => mret (None, WNone)
        end
      else if has (flags c) DF_LOCAL then mret (Some ce, WLocnerr)
      else mret (None, WNone)
    end
  end.

Definition find_cent (name : list byte) (wild : bool) : M (option nat * wild_t) :=
  s ← get;
  match dns_lookup s name with
  | Some ce => mret (Some ce, WNone)
  | None =>
    if negb wild then mret (None, WNone) else
    lb ← label_len name;
    if (lb =? 0)%nat then mret (None, WNone) else wild_loop (length name) name lb
  end.

(** The part under the read lock: [None] when something has to be purged first,
    otherwise the answer, a copy that belongs to the caller. *)
Definition lookup_cache_r (name : list byte) (wild : bool) : M (option (option nat * wild_t)) :=
  '(ret, w) ← find_cent name wild;
  match ret with
  | None => mret (Some (None, w))
  | Some ce =>
    purge ← purge_cent ce true true;
    if negb (purge =? 0) then mret None else
    copy ← copy_cent ce; mret (Some (copy, w))
  end.

(** The part under the write lock. *)
Definition lookup_cache_rw (name : list byte) (wild : bool) : M (option nat * wild_t) :=
  '(ret, w) ← find_cent name wild;
  match ret with
  | None => mret (None, w)
  | Some ce =>
    n ← purge_cent ce true false;
    if n <? 0 then mret (None, w) else
    copy ← copy_cent ce; mret (copy, w)
  end.

(** Both parts, when no other thread comes in between. *)
Definition lookup_cache (name : list byte) (wild : bool) : M (option nat * wild_t) :=
  res ← lookup_cache_r name wild;
  match res with
  | Some x => mret x
  | None => lookup_cache_rw name wild
  end.

Definition lookup_cache_local_rrset (name : list byte) (type : Z) : M (option rr_set_t) :=
  s ← get;
  match dns_lookup s name with
  | None => mret None
  | Some ce =>
    c ← load ce;
    match getrrset c type with
    | Some r => if has (rflags r) CF_LOCAL then copy_rrset r else mret None
    | None => mret None
    end
  end.

End Operations.
