(* ===== verification/PdnsdCentInv.v ===== *)
(** * The heap of cache entries and the list of record sets, in order

    A calculus for the monad of [PdnsdCent] ([post]: the operation succeeds and its
    result has a property), the invariant [Core] that ties the heap of entries, the
    list [rrset_l] and the hash table together, and what the operations of
    [PdnsdCent] do to it: each succeeds, keeps [Core], and touches one entry
    only. *)

From S2P Require Import Prelude.
From S2P Require Import PdnsdNames.
From S2P Require Import PdnsdCompress.
From S2P Require Import PdnsdHash.
From S2P Require Import PdnsdSort.
From S2P Require Import PdnsdCent.

Open Scope Z_scope.

(** ** Total correctness of operations *)

Definition post {A} (m : M A) (s : cache) (Q : A -> cache -> Prop) : Prop := exists r s', m s = Some (r, s') /\ Q r s'.

Lemma post_ret {A} (x : A) s (Q : A -> cache -> Prop) : Q x s -> post (mret x) s Q.
Proof. intros H. by exists x, s. Qed.

Lemma post_bind {A B} (m : M A) (k : A -> M B) s Q : post m s (fun x s1 => post (k x) s1 Q) -> post (m ≫= k) s Q.
Proof. intros (x & s1 & E & y & s2 & E2 & H). exists y, s2. unfold mbind, M_bind. by rewrite E. Qed.

Lemma post_mono {A} (m : M A) s (P Q : A -> cache -> Prop) : post m s P -> (forall r s', P r s' -> Q r s') -> post m s Q.
Proof. intros (r & s' & E & H) I. exists r, s'. eauto. Qed.

Lemma post_get s (Q : cache -> cache -> Prop) : Q s s -> post get s Q.
Proof. intros H. by exists s, s. Qed.

Lemma post_modify f s (Q : unit -> cache -> Prop) : Q tt (f s) -> post (modify f) s Q.
Proof. intros H. by exists tt, (f s). Qed.

Lemma post_load a c s (Q : dns_cent_t -> cache -> Prop) : cents s !! a = Some c -> Q c s -> post (load a) s Q.
Proof. intros E H. exists c, s. unfold load. by rewrite E. Qed.

Lemma post_store a c s (Q : unit -> cache -> Prop) : Q tt (set_cents (<[a := c]> (cents s)) s) -> post (store a c) s Q.
Proof. apply (post_modify (fun s => set_cents (<[a := c]> (cents s)) s)). Qed.

Lemma post_assert b s (Q : unit -> cache -> Prop) : b = true -> Q tt s -> post (assert_that b) s Q.
Proof. intros -> H. by exists tt, s. Qed.

Lemma post_malloc s (Q : bool -> cache -> Prop) : (forall b m, Q b (set_mallocs m s)) -> post malloc s Q.
Proof.
  intros H. unfold post, malloc. destruct s as [h t l z n b f [|x m]]; eexists _, _; (split; [reflexivity|]).
  - apply (H true []).
  - apply (H x m).
Qed.

Lemma post_new_address s (Q : nat -> cache -> Prop) : Q (fresh s) (set_fresh (S (fresh s)) s) -> post new_address s Q.
Proof. intros H. by eexists _, _. Qed.

Lemma post_some {A} (m : M A) s Q r s' : post m s Q -> m s = Some (r, s') -> Q r s'.
Proof. intros (? & ? & E & H) E'. by simplify_eq. Qed.

(** One step of a sequence. *)
Ltac pstep :=
  lazymatch goal with
  | |- post (mbind _ _) _ _ => apply post_bind
  | |- post (mret _) _ _ => apply post_ret
  | |- post get _ _ => apply post_get
  | |- post (modify _) _ _ => apply post_modify
  | |- post (store _ _) _ _ => apply post_store
  | |- post new_address _ _ => apply post_new_address
  | |- post malloc _ _ => apply post_malloc; intros
  | |- post (if ?b then _ else _) _ _ => let E := fresh "E" in destruct b eqn:E
  end.

(** ** Flags *)

Lemma has_without f b b' : Z.land b b' = 0 -> has (without f b) b' = has f b'.
Proof.
  intros H. unfold has, without. f_equal. f_equal. apply Z.bits_inj'. intros n Hn.
  rewrite !Z.land_spec, Z.ldiff_spec. apply (f_equal (fun z => Z.testbit z n)) in H.
  rewrite Z.land_spec, Z.bits_0 in H. destruct (Z.testbit f n), (Z.testbit b n), (Z.testbit b' n); done.
Qed.

Lemma has_without_same f b : has (without f b) b = false.
Proof.
  unfold has, without. apply negb_false_iff, Z.eqb_eq. apply Z.bits_inj'. intros n Hn.
  rewrite Z.land_spec, Z.ldiff_spec, Z.bits_0. destruct (Z.testbit f n), (Z.testbit b n); done.
Qed.

Lemma has_lor f b b' : has (Z.lor f b) b' = has f b' || has b b'.
Proof.
  unfold has. rewrite Z.land_lor_distr_l.
  destruct (Z.eqb_spec (Z.land f b') 0) as [->|N]; simpl; [by rewrite Z.lor_0_l|].
  apply negb_true_iff, Z.eqb_neq. by intros [? _]%Z.lor_eq_0_iff.
Qed.

(** ** Entries *)

Definition is_neg (b : union) : bool := match b with Neg _ _ _ => true | RR _ => false end.

Definition nsets (a : list (option rr_set_t)) : Z := fold_right (fun (x : option rr_set_t) n => (if x then 1 else 0) + n) 0 a.

(** The list entry of slot [i], or of the entry as a whole. *)
Definition lent_at (c : dns_cent_t) (i : option nat) : option nat :=
  match i, body c with
  | None, Neg l _ _ => l
  | Some i, RR a => r ← mjoin (a !! i); lent r
  | _, _ => None
  end.

Lemma lent_at_slot c i : lent_at c (Some i) = RRARR_INDEX c i ≫= lent.
Proof. unfold lent_at, RRARR_INDEX, arr. by destruct (body c). Qed.

Section Core.

Variable abi : sizes.

Notation ext_size := (ext_size abi).
Notation rrset_size := (rrset_size abi).

Definition sets_size (a : list (option rr_set_t)) : Z :=
  fold_right (fun x n => match x with Some r => rrset_size r | None => 0 end + n) 0 a.

Definition cent_size (c : dns_cent_t) : Z :=
  sizeof_cent abi + zlen (qname c) + sets_size (arr c) + (if (NRRMU <? length (arr c))%nat then ext_size else 0).

(** A well-formed entry: the flag selects the member of the union, the arrays have
    their sizes, and the counters count. *)
Record cent_ok (c : dns_cent_t) : Prop := {
  co_tag : negative c = is_neg (body c);
  co_len : match body c with RR a => length a = NRRMU \/ length a = NRRTOT | Neg _ _ _ => True end;
  co_num : num_rrs c = nsets (arr c);
  co_cs : cs c = cent_size c;
  co_name : exists A, valid_name A /\ qname c = wire A;
}.

Record Core (s : cache) : Prop := {
  k_cents : forall a c, cents s !! a = Some c -> cent_ok c;
  k_list : forall l a i, (l, Lent a i) ∈ rrset_l s <-> exists c, cents s !! a = Some c /\ lent_at c i = Some l;
  k_nodup : NoDup (rrset_l s).*1;
  k_hash : forall k a, hash s !! k = Some a -> exists c, cents s !! a = Some c /\ lower (qname c) = k;
  k_fresh_c : forall a c, cents s !! a = Some c -> (a < fresh s)%nat;
  k_fresh_l : forall e, e ∈ rrset_l s -> (e.1 < fresh s)%nat;
}.

Lemma core_ext s s' : cents s' = cents s -> rrset_l s' = rrset_l s -> hash s' = hash s -> (fresh s <= fresh s')%nat ->
  Core s -> Core s'.
Proof.
  intros Ec El Eh Ef [K1 K2 K3 K4 K5 K6]. constructor; rewrite ?Ec, ?El, ?Eh; try done.
  - intros a c H. specialize (K5 a c H). lia.
  - intros e H. specialize (K6 e H). lia.
Qed.

Lemma lents_inj s l a b i j c d : Core s -> cents s !! a = Some c -> lent_at c i = Some l ->
  cents s !! b = Some d -> lent_at d j = Some l -> a = b /\ i = j.
Proof.
  intros K Ha La Hb Lb.
  assert ((l, Lent a i) ∈ rrset_l s) as H1 by (apply (k_list _ K); eauto).
  assert ((l, Lent b j) ∈ rrset_l s) as H2 by (apply (k_list _ K); eauto).
  apply list_elem_of_lookup in H1 as [p H1]. apply list_elem_of_lookup in H2 as [q H2].
  pose proof (k_nodup _ K) as ND. rewrite NoDup_alt in ND.
  assert (p = q) as <- by (eapply (ND p q l); rewrite list_lookup_fmap, ?H1, ?H2; done).
  by simplify_eq.
Qed.

(** An entry changes, and the list entries it no longer refers to go. *)
Lemma core_shrink s a c c' L : Core s -> cents s !! a = Some c -> cent_ok c' -> qname c' = qname c ->
  (forall i l, lent_at c' i = Some l -> lent_at c i = Some l) ->
  sublist L (rrset_l s) ->
  (forall e, e ∈ L <-> e ∈ rrset_l s /\ (le_cent e.2 = a -> lent_at c' (le_idx e.2) = Some e.1)) ->
  Core (set_list L (set_cents (<[a := c']> (cents s)) s)).
Proof.
  intros K Ha Ok Nm Sub SL HL. constructor; simpl.
  - intros b d [[<- <-]|[? ?]]%lookup_insert_Some; [done|eapply k_cents; eauto].
  - intros l b i. rewrite HL, (k_list _ K). simpl. destruct (decide (b = a)) as [->|N].
    + rewrite lookup_insert_eq. split.
      * intros [_ H]. exists c'. auto.
      * intros (d & ? & H). simplify_eq. split; [exists c; auto|done].
    + rewrite lookup_insert_ne by done. naive_solver.
  - eapply sublist_NoDup; [apply (k_nodup _ K)|by apply fmap_sublist].
  - intros k b Hb. destruct (k_hash _ K k b Hb) as (d & Hd & Hk). destruct (decide (b = a)) as [->|N].
    + simplify_eq. exists c'. rewrite lookup_insert_eq, Nm. done.
    + exists d. by rewrite lookup_insert_ne.
  - intros b d [[<- <-]|[? ?]]%lookup_insert_Some; eapply k_fresh_c; eauto.
  - intros e [H _]%HL. by apply (k_fresh_l _ K).
Qed.

(** An entry changes, the list does not. *)
Lemma core_store s a c c' : Core s -> cents s !! a = Some c -> cent_ok c' -> qname c' = qname c ->
  (forall i, lent_at c' i = lent_at c i) -> Core (set_cents (<[a := c']> (cents s)) s).
Proof.
  intros K Ha Ok Nm Sub.
  apply (core_ext (set_list (rrset_l s) (set_cents (<[a := c']> (cents s)) s))); [done..|].
  eapply core_shrink; eauto.
  - intros i l. by rewrite Sub.
  - intros e. split; [|tauto]. intros He. split; [done|]. intros <-. rewrite Sub.
    destruct e as [l [b i]]. apply (k_list _ K) in He as (d & ? & ?). simpl in *. by simplify_eq.
Qed.

(** A new entry that is not in the list. *)
Lemma core_new s c : Core s -> cent_ok c -> (forall i, lent_at c i = None) ->
  Core (set_cents (<[fresh s := c]> (cents s)) (set_fresh (S (fresh s)) s)).
Proof.
  intros K Ok NL.
  assert (N : cents s !! fresh s = None).
  { destruct (cents s !! fresh s) eqn:E; [|done]. apply (k_fresh_c _ K) in E. lia. }
  constructor; simpl.
  - intros b d [[<- <-]|[? ?]]%lookup_insert_Some; [done|eapply k_cents; eauto].
  - intros l b i. rewrite (k_list _ K). destruct (decide (b = fresh s)) as [->|Nb].
    + rewrite lookup_insert_eq, N. split; [intros (? & ? & _); done|]. intros (d & ? & H). simplify_eq. by rewrite NL in H.
    + by rewrite lookup_insert_ne.
  - apply K.
  - intros k b Hb. destruct (k_hash _ K k b Hb) as (d & Hd & Hk). exists d. split; [|done].
    rewrite lookup_insert_ne; [done|congruence].
  - intros b d [[<- _]|[? H]]%lookup_insert_Some; [lia|]. apply (k_fresh_c _ K) in H. lia.
  - intros e H. apply (k_fresh_l _ K) in H. lia.
Qed.

(** An entry goes that is not in the hash table, with its list entries. *)
Lemma core_free s a c L : Core s -> cents s !! a = Some c -> (forall k, hash s !! k <> Some a) ->
  sublist L (rrset_l s) ->
  (forall e, e ∈ L <-> e ∈ rrset_l s /\ le_cent e.2 <> a) ->
  Core (set_cents (delete a (cents s)) (set_list L s)).
Proof.
  intros K Ha NH SL HL. constructor; simpl.
  - intros b d [? ?]%lookup_delete_Some. eapply k_cents; eauto.
  - intros l b i. rewrite HL, (k_list _ K). simpl. setoid_rewrite lookup_delete_Some. naive_solver.
  - eapply sublist_NoDup; [apply (k_nodup _ K)|by apply fmap_sublist].
  - intros k b Hb. destruct (k_hash _ K k b Hb) as (d & Hd & Hk). exists d. split; [|done].
    apply lookup_delete_Some. split; [|done]. intros ->. by apply (NH k).
  - intros b d [? ?]%lookup_delete_Some. eapply k_fresh_c; eauto.
  - intros e [H _]%HL. by apply (k_fresh_l _ K).
Qed.

(** ** Arrays of record sets *)

Lemma nsets_insert a : forall i (x y : option rr_set_t), a !! i = Some x ->
  nsets (<[i := y]> a) = nsets a - (if x then 1 else 0) + (if y then 1 else 0).
Proof.
  induction a as [|z a IH]; intros [|i] x y H; simplify_eq/=; [lia|]. rewrite (IH _ _ _ H). lia.
Qed.

Definition slot_size (x : option rr_set_t) : Z := match x with Some r => rrset_size r | None => 0 end.

Lemma sets_size_insert a : forall i x y, a !! i = Some x ->
  sets_size (<[i := y]> a) = sets_size a - slot_size x + slot_size y.
Proof.
  induction a as [|z a IH]; intros [|i] x y H; simplify_eq/=; [unfold slot_size; lia|].
  rewrite (IH _ _ _ H). lia.
Qed.

Lemma nsets_app a b : nsets (a ++ b) = nsets a + nsets b.
Proof. induction a as [|x a IH]; simpl; [done|]. rewrite IH. lia. Qed.

Lemma sets_size_app a b : sets_size (a ++ b) = sets_size a + sets_size b.
Proof. induction a as [|x a IH]; simpl; [done|]. rewrite IH. lia. Qed.

Lemma nsets_none n : nsets (repeat None n) = 0.
Proof. by induction n. Qed.

Lemma sets_size_none n : sets_size (repeat None n) = 0.
Proof. by induction n. Qed.

Lemma index_arr c i r : RRARR_INDEX c i = Some r <-> arr c !! i = Some (Some r).
Proof. unfold RRARR_INDEX. destruct (arr c !! i) as [[]|]; naive_solver. Qed.

Lemma testext c i : cent_ok c -> RRARR_INDEX_TESTEXT c i = RRARR_INDEX c i.
Proof.
  intros [Tag _ _ _ _]. unfold RRARR_INDEX_TESTEXT, RRARR_INDEX, arr in *. rewrite Tag. by destruct (body c).
Qed.

Lemma arr_body c i x : arr c !! i = Some x -> body c = RR (arr c).
Proof. unfold arr. by destruct (body c). Qed.

Lemma rrarr_len c : cent_ok c -> RRARR_LEN c = length (arr c).
Proof.
  intros [Tag Len _ _ _]. unfold RRARR_LEN, arr in *. rewrite Tag. destruct (body c) as [|a]; [done|].
  by destruct Len as [-> | ->].
Qed.

(** Slot [i] of an entry is overwritten, and the counters with it. *)
Definition put (i : nat) (y : option rr_set_t) (n z f : Z) (c : dns_cent_t) : dns_cent_t :=
  Cent (qname c) (cs c + z) (num_rrs c + n) f (RR (<[i := y]> (arr c))) (c_ns c) (c_soa c).

Lemma put_ok i (x y : option rr_set_t) n z f c : cent_ok c -> arr c !! i = Some x -> has f DF_NEGATIVE = false ->
  n = (if y then 1 else 0) - (if x then 1 else 0) -> z = slot_size y - slot_size x -> cent_ok (put i y n z f c).
Proof.
  intros [Tag Len Num Cs Nm] H F En Ez. rewrite (arr_body _ _ _ H) in Tag, Len. constructor; simpl; [done| | | |done].
  - by rewrite length_insert.
  - unfold arr at 1. simpl. rewrite Num, (nsets_insert _ _ _ _ H). lia.
  - rewrite Cs. unfold cent_size, arr at 3 4; simpl. rewrite (sets_size_insert _ _ _ _ H), length_insert. lia.
Qed.

Lemma put_lent i y n z f c j : arr c !! i <> None ->
  lent_at (put i y n z f c) j = if decide (j = Some i) then y ≫= lent else lent_at c j.
Proof.
  intros N. destruct (arr c !! i) as [x|] eqn:H; [|done]. unfold lent_at, put; simpl. rewrite (arr_body _ _ _ H).
  destruct j as [j|]; [|by rewrite decide_False].
  destruct (decide (j = i)) as [->|Nj].
  - rewrite decide_True, list_lookup_insert_eq; [done|by eapply lookup_lt_Some|done].
  - rewrite decide_False, list_lookup_insert_ne by congruence. done.
Qed.

(** ** Taking entries off the list *)

Definition unlist (o : option nat) (L : list (nat * rr_lent_t)) : list (nat * rr_lent_t) :=
  match o with Some l => base.filter (fun e => e.1 <> l) L | None => L end.

Lemma remove_rrl_run l s : l ∈ (rrset_l s).*1 -> remove_rrl l s = Some (tt, set_list (unlist (Some l) (rrset_l s)) s).
Proof.
  intros H. unfold remove_rrl, get, assert_that, modify, mbind, M_bind. by rewrite bool_decide_true.
Qed.

Lemma unlist_sub o L : sublist (unlist o L) L.
Proof. destruct o; [apply sublist_filter|done]. Qed.

Lemma unlist_elem o L e : e ∈ unlist o L <-> e ∈ L /\ o <> Some e.1.
Proof. destruct o as [l|]; simpl; [|naive_solver]. rewrite list_elem_of_filter. naive_solver. Qed.

Lemma listed s a c i l : Core s -> cents s !! a = Some c -> lent_at c i = Some l -> l ∈ (rrset_l s).*1.
Proof.
  intros K Ha Hl. apply list_elem_of_fmap. exists (l, Lent a i). split; [done|]. apply (k_list _ K). eauto.
Qed.

(** A listed record set goes, or a record set that is not listed. *)
Lemma core_unlist s a c i c' : Core s -> cents s !! a = Some c -> cent_ok c' -> qname c' = qname c ->
  (forall j, lent_at c' j = if decide (j = i) then None else lent_at c j) ->
  Core (set_list (unlist (lent_at c i) (rrset_l s)) (set_cents (<[a := c']> (cents s)) s)).
Proof.
  intros K Ha Ok Nm HL. eapply core_shrink; eauto using unlist_sub.
  - intros j l. rewrite HL. by case_decide.
  - intros [l [b j]]. rewrite unlist_elem. simpl. split.
    + intros [He N]. split; [done|]. intros ->. apply (k_list _ K) in He as (d & ? & Hd). simplify_eq.
      rewrite HL. case_decide; [congruence|done].
    + intros [He Hb]. split; [done|]. intros Hl. pose proof He as (d & Hd & Ld)%(k_list _ K).
      destruct (lents_inj s l a b i j c d K Ha Hl Hd Ld) as [<- <-]. specialize (Hb eq_refl). rewrite HL in Hb.
      by rewrite decide_True in Hb.
Qed.

(** ** What an operation on one entry leaves alone *)

(** Same name and references; of the flags only [DF_NEGATIVE] and [DF_AUTH] differ. *)
Record like (c c' : dns_cent_t) : Prop := {
  lk_name : qname c' = qname c;
  lk_ns : c_ns c' = c_ns c;
  lk_soa : c_soa c' = c_soa c;
  lk_flags : forall b, Z.land DF_NEGATIVE b = 0 -> Z.land DF_AUTH b = 0 -> has (flags c') b = has (flags c) b;
}.

Record touches (a : nat) (s s' : cache) : Prop := {
  t_hash : hash s' = hash s;
  t_size : cache_size s' = cache_size s;
  t_num : ent_num s' = ent_num s;
  t_sort : insert_sort s' = insert_sort s;
  t_other : forall b, b <> a -> cents s' !! b = cents s !! b;
  t_self : forall c, cents s !! a = Some c -> exists c', cents s' !! a = Some c' /\ like c c';
}.

#[export] Instance like_refl : Reflexive like.
Proof. intros c. by constructor. Qed.

#[export] Instance like_trans : Transitive like.
Proof. intros c1 c2 c3 [] []. constructor; try congruence. intros b H1 H2. rewrite <- lk_flags0 by done. auto. Qed.

#[export] Instance touches_refl a : Reflexive (touches a).
Proof. intros s. constructor; try done. intros c Hc. by exists c. Qed.

#[export] Instance touches_trans a : Transitive (touches a).
Proof.
  intros s1 s2 s3 [H1 S1 N1 I1 O1 K1] [H2 S2 N2 I2 O2 K2]. constructor; try congruence.
  - intros b N. by rewrite O2, O1.
  - intros c Hc. destruct (K1 c Hc) as (c' & Hc' & L1), (K2 c' Hc') as (c'' & ? & L2). exists c''. split; [done|by etrans].
Qed.

(** Only the memory the allocator has to give changes. *)
Lemma touches_mallocs a m s : touches a s (set_mallocs m s).
Proof. constructor; try done. intros c Hc. by exists c. Qed.

Lemma core_mallocs m s : Core s -> Core (set_mallocs m s).
Proof. by apply core_ext. Qed.

Lemma touches_store a s c c' : cents s !! a = Some c -> like c c' ->
  touches a s (set_cents (<[a := c']> (cents s)) s).
Proof.
  intros Ha L. constructor; simpl; try done.
  - intros b N. by rewrite lookup_insert_ne.
  - intros d Hd. simplify_eq. exists c'. by rewrite lookup_insert_eq.
Qed.

Lemma touches_list a s s' L : touches a s s' -> touches a s (set_list L s').
Proof. intros []. by constructor. Qed.

Lemma like_put i y n z f c :
  (forall b, Z.land DF_NEGATIVE b = 0 -> Z.land DF_AUTH b = 0 -> has f b = has (flags c) b) -> like c (put i y n z f c).
Proof. by constructor. Qed.

(** ** Deleting a record set *)

Definition dropped (i : nat) (r : rr_set_t) (c : dns_cent_t) : dns_cent_t :=
  put i None (-1) (- rrset_size r) (without (flags c) DF_AUTH) c.

Definition after_drop (a i : nat) (r : rr_set_t) (c : dns_cent_t) (s : cache) : cache :=
  set_list (unlist (lent r) (rrset_l s)) (set_cents (<[a := dropped i r c]> (cents s)) s).

Lemma not_negative c i x : cent_ok c -> arr c !! i = Some x -> negative c = false.
Proof. intros [Tag _ _ _ _] H. by rewrite Tag, (arr_body _ _ _ H). Qed.

Lemma dropped_ok i r c : cent_ok c -> RRARR_INDEX c i = Some r -> cent_ok (dropped i r c).
Proof.
  intros Ok H. pose proof (proj1 (index_arr c i r) H) as H'. eapply put_ok; [done|exact H'| |done|simpl; lia].
  rewrite has_without by done. eapply (not_negative _ _ _ Ok); eauto.
Qed.

Lemma lent_at_index c i r : RRARR_INDEX c i = Some r -> lent_at c (Some i) = lent r.
Proof. intros H. by rewrite lent_at_slot, H. Qed.

Lemma core_drop s a c i r : Core s -> cents s !! a = Some c -> RRARR_INDEX c i = Some r -> Core (after_drop a i r c s).
Proof.
  intros K Ha Hr. pose proof (k_cents _ K _ _ Ha) as Ok. unfold after_drop.
  rewrite <- (lent_at_index c i r Hr). apply (core_unlist s a c); [done..|by apply dropped_ok|done|].
  intros j. unfold dropped. rewrite put_lent; [by case_decide|]. apply index_arr in Hr. by rewrite Hr.
Qed.

Lemma del_set_run s a c i r : Core s -> cents s !! a = Some c -> RRARR_INDEX c i = Some r ->
  del_cent_rrset_by_index abi a i s = Some (rrset_size r, after_drop a i r c s).
Proof.
  intros K Ha Hr. pose proof (k_cents _ K _ _ Ha) as Ok.
  unfold del_cent_rrset_by_index, load, mbind, M_bind. rewrite Ha. simpl. rewrite testext, Hr by done.
  assert (del_rrset abi r s = Some (rrset_size r, set_list (unlist (lent r) (rrset_l s)) s)) as D.
  { unfold del_rrset, mbind, M_bind. destruct (lent r) as [l|] eqn:El; [|simpl; by destruct s].
    rewrite remove_rrl_run; [done|]. eapply (listed s a c (Some i)); [done..|]. by rewrite (lent_at_index c i r). }
  unfold mbind, M_bind in D |- *. rewrite D. unfold store, modify, mret, M_ret. do 2 f_equal.
Qed.

Lemma del_none_run s a c i : Core s -> cents s !! a = Some c -> RRARR_INDEX c i = None ->
  del_cent_rrset_by_index abi a i s = Some (0, s).
Proof.
  intros K Ha Hr. pose proof (k_cents _ K _ _ Ha) as Ok.
  unfold del_cent_rrset_by_index, load, mbind, M_bind. rewrite Ha. simpl. by rewrite testext, Hr.
Qed.

Lemma touches_drop s a c i r : cents s !! a = Some c -> touches a s (after_drop a i r c s).
Proof.
  intros Ha. apply touches_list. eapply touches_store; [done|]. apply like_put. intros b _ H. by apply has_without.
Qed.

Lemma index_put i y n z f c j : arr c !! i <> None ->
  RRARR_INDEX (put i y n z f c) j = if decide (j = i) then y else RRARR_INDEX c j.
Proof.
  intros N. destruct (arr c !! i) as [x|] eqn:H; [|done]. unfold RRARR_INDEX, put; simpl. unfold arr at 1; simpl.
  destruct (decide (j = i)) as [->|Nj]; [|by rewrite list_lookup_insert_ne].
  rewrite list_lookup_insert_eq; [by destruct y|by eapply lookup_lt_Some].
Qed.

(** In every case: the slot is empty afterwards, the others are as before. *)
Lemma del_set_post s a c i : Core s -> cents s !! a = Some c ->
  post (del_cent_rrset_by_index abi a i) s (fun rv s' => Core s' /\ touches a s s' /\
    exists c', cents s' !! a = Some c' /\ rv = cs c - cs c' /\ negative c' = negative c /\
      length (arr c') = length (arr c) /\
      forall j, RRARR_INDEX c' j = if decide (j = i) then None else RRARR_INDEX c j).
Proof.
  intros K Ha. destruct (RRARR_INDEX c i) as [r|] eqn:Hr.
  - exists (rrset_size r), (after_drop a i r c s). split; [by apply del_set_run|].
    split; [by apply core_drop|]. split; [by apply touches_drop|].
    exists (dropped i r c). pose proof (proj1 (index_arr c i r) Hr) as H'. simpl. rewrite lookup_insert_eq. split; [done|].
    split; [lia|]. split; [by apply has_without|].
    split; [unfold arr at 1; simpl; by rewrite length_insert|]. intros j. apply index_put. by rewrite H'.
  - exists 0, s. split; [by eapply del_none_run|]. split; [done|]. split; [done|]. exists c. repeat split; try done; [lia|].
    intros j. case_decide; by subst.
Qed.

(** ** Adding record sets *)

Lemma unnegate_post s a c : Core s -> cents s !! a = Some c ->
  post (unnegate a) s (fun _ s' => Core s' /\ touches a s s' /\
    exists c', cents s' !! a = Some c' /\ body c' = RR (arr c') /\ forall j, RRARR_INDEX c' j = RRARR_INDEX c j).
Proof.
  intros K Ha. pose proof (k_cents _ K _ _ Ha) as [Tag Len Num Cs Nm]. unfold unnegate. pstep.
  eapply post_load; [done|]. rewrite Tag. destruct (body c) as [l t0 t1|a0] eqn:B; simpl.
  2: { apply post_ret. split; [done|]. split; [done|]. exists c. split; [done|]. split; [|done]. unfold arr. by rewrite B. }
  set (c' := with_body _ _).
  assert (Ok : cent_ok c').
  { constructor; simpl; try done; [by apply has_without_same|by left| |].
    - rewrite Num. unfold arr at 1. by rewrite B.
    - rewrite Cs. unfold cent_size, arr. simpl. by rewrite B. }
  assert (K' : Core (set_cents (<[a := c']> (cents s)) (set_list (unlist l (rrset_l s)) s))).
  { assert (lent_at c None = l) as <- by (unfold lent_at; by rewrite B).
    apply (core_unlist s a c None c' K Ha Ok eq_refl). intros [j|]; unfold lent_at; simpl; [|done].
    rewrite B. by do 8 (destruct j as [|j]; [done|]). }
  assert (forall L, touches a s (set_cents (<[a := c']> (cents s)) (set_list L s))) as T.
  { intros L. change (touches a s (set_list L (set_cents (<[a := c']> (cents s)) s))). apply touches_list, (touches_store a s c c' Ha). constructor; simpl; try done.
    intros b Hb _. by apply has_without. }
  apply post_bind. exists tt, (set_list (unlist l (rrset_l s)) s). split.
  - destruct l as [l|]; [apply remove_rrl_run|by destruct s]. eapply (listed s a c None); [done..|].
    unfold lent_at. by rewrite B.
  - apply post_store. split; [done|]. split; [done|]. exists c'. simpl. rewrite lookup_insert_eq. split; [done|].
    split; [done|]. intros j. unfold RRARR_INDEX, arr; simpl. rewrite B. by do 8 (destruct j as [|j]; [done|]).
Qed.

Definition extended (c : dns_cent_t) : dns_cent_t :=
  with_cs (cs c + ext_size) (with_body (RR (arr c ++ repeat None NRREXT)) c).

Lemma lookup_none_tail (x : list (option rr_set_t)) n j : mjoin ((x ++ repeat None n) !! j) = mjoin (x !! j).
Proof.
  destruct (decide (j < length x)%nat) as [H|H]; [by rewrite lookup_app_l|].
  rewrite lookup_app_r, (lookup_ge_None_2 x) by lia. generalize (j - length x)%nat as k. clear.
  by induction n as [|n IH]; intros [|k]; simpl.
Qed.

Lemma extended_ok c : cent_ok c -> body c = RR (arr c) -> length (arr c) = NRRMU -> cent_ok (extended c).
Proof.
  intros [Tag _ Num Cs Nm] B L. constructor; try done.
  - change (negative c = false). by rewrite Tag, B.
  - right. unfold extended; cbn [body with_cs with_body]. by rewrite length_app, L.
  - change (num_rrs c = nsets (arr c ++ repeat None NRREXT)). rewrite nsets_app, nsets_none, Num. lia.
  - change (cs c + ext_size = sizeof_cent abi + zlen (qname c) + sets_size (arr c ++ repeat None NRREXT) +
      (if (NRRMU <? length (arr c ++ repeat None NRREXT))%nat then ext_size else 0)).
    rewrite sets_size_app, sets_size_none, length_app, L, Cs. unfold cent_size. rewrite L, !repeat_length. simpl. lia.
Qed.

Lemma extended_index c j : RRARR_INDEX (extended c) j = RRARR_INDEX c j.
Proof. apply (lookup_none_tail (arr c) NRREXT). Qed.

Lemma extended_lent c i : body c = RR (arr c) -> lent_at (extended c) i = lent_at c i.
Proof. intros B. destruct i as [i|]; [by rewrite !lent_at_slot, extended_index|]. unfold lent_at; simpl. by rewrite B. Qed.

(** The array of record sets is long enough for slot [i] afterwards. *)
Lemma extend_post s a c i : Core s -> cents s !! a = Some c -> body c = RR (arr c) -> (i < NRRTOT)%nat ->
  post (if (i <? length (arr c))%nat then mret true else
        ok ← malloc;
        (if ok then store a (extended c) else mret tt);; mret ok : M bool) s
    (fun ok s' => Core s' /\ touches a s s' /\
       exists c', cents s' !! a = Some c' /\ body c' = RR (arr c') /\ (ok = true -> (i < length (arr c'))%nat) /\
         forall j, RRARR_INDEX c' j = RRARR_INDEX c j).
Proof.
  intros K Ha B Hi. pose proof (k_cents _ K _ _ Ha) as Ok. destruct (Nat.ltb_spec i (length (arr c))) as [L|L].
  - apply post_ret. split; [done|]. split; [done|]. by exists c.
  - assert (length (arr c) = NRRMU) as L8.
    { pose proof (co_len _ Ok) as Len. rewrite B in Len. destruct Len as [?|E]; [done|]. lia. }
    apply post_bind, post_malloc. intros ok m. apply post_bind. destruct ok.
    + apply post_store, post_ret. simpl. split; [|split].
      * apply (core_store (set_mallocs m s) a c); try done; [by apply core_mallocs|by apply extended_ok|].
        intros j. by apply extended_lent.
      * etrans; [apply (touches_mallocs a m)|]. by apply (touches_store a (set_mallocs m s) c).
      * exists (extended c). rewrite lookup_insert_eq. split; [done|]. split; [done|]. split.
        -- intros _. unfold extended, arr at 1; cbn [body with_cs with_body]. rewrite length_app, L8, repeat_length. exact Hi.
        -- apply extended_index.
    + apply post_ret, post_ret. split; [by apply core_mallocs|]. split; [apply touches_mallocs|]. exists c. by simpl.
Qed.

(** What adding a record set leaves: slot [i] holds it, or is as it was. *)
Lemma add_set_post s a c i tl t f : Core s -> cents s !! a = Some c -> RRARR_INDEX c i = None -> (i < NRRTOT)%nat ->
  post (add_cent_rrset_by_index abi a i tl t f) s (fun ok s' => Core s' /\ touches a s s' /\
    exists c', cents s' !! a = Some c' /\ body c' = RR (arr c') /\
      forall j, RRARR_INDEX c' j = if decide (j = i /\ ok = true) then Some (RRSet None tl t f []) else RRARR_INDEX c j).
Proof.
  intros K Ha Hn Hi. unfold add_cent_rrset_by_index. pstep. eapply post_mono; [by apply (unnegate_post s a c)|].
  intros _ s1 (K1 & T1 & c1 & Ha1 & B1 & I1). pstep. apply post_assert; [by apply Nat.ltb_lt|].
  pstep. eapply post_load; [done|]. pstep. eapply post_mono; [by apply (extend_post s1 a c1 i)|].
  intros ok s2 (K2 & T2 & c2 & Ha2 & B2 & L2 & I2). pose proof (k_cents _ K2 _ _ Ha2) as Ok2. destruct ok; simpl.
  2: { pstep. split; [done|]. split; [by etrans|]. exists c2. split; [done|]. split; [done|]. intros j.
       rewrite decide_False by naive_solver. by rewrite I2, I1. }
  pstep. eapply post_load; [done|]. pstep. apply post_malloc. intros ok m.
  destruct (lookup_lt_is_Some_2 (arr c2) i (L2 eq_refl)) as [x Hx].
  assert (x = None) as ->.
  { destruct x as [r|]; [|done]. apply index_arr in Hx. congruence. }
  destruct ok; simpl.
  - pstep. pstep. pstep. set (c' := with_num _ _).
    assert (c' = put i (Some (RRSet None tl t f [])) 1 (sizeof_rr_set abi) (flags c2) c2) as -> by done.
    assert (Ok' : cent_ok (put i (Some (RRSet None tl t f [])) 1 (sizeof_rr_set abi) (flags c2) c2)).
    { eapply put_ok; [done|exact Hx| |done|simpl; unfold PdnsdCent.rrset_size; simpl; lia]. by eapply (not_negative c2). }
    split; [|split].
    + apply (core_store (set_mallocs m s2) a c2); [by apply core_mallocs|done..|]. intros j.
      rewrite put_lent by (by rewrite Hx). case_decide; [|done]. subst j. by rewrite lent_at_slot, I2, I1, Hn.
    + etrans; [by etrans|]. etrans; [apply (touches_mallocs a m)|]. apply (touches_store a (set_mallocs m s2) c2); [done|].
      by apply like_put.
    + eexists. simpl. rewrite lookup_insert_eq. split; [done|]. split; [done|]. intros j. rewrite index_put by (by rewrite Hx).
      destruct (decide (j = i)) as [->|N]; [by rewrite decide_True|]. rewrite decide_False by naive_solver. by rewrite I2, I1.
  - pstep. pstep. pstep. assert (set_slot i None c2 = c2) as ->.
    { unfold set_slot, with_body. rewrite list_insert_id by done. rewrite <- B2. by destruct c2. }
    split; [|split].
    + apply (core_store (set_mallocs m s2) a c2); [by apply core_mallocs|done..].
    + etrans; [by etrans|]. etrans; [apply (touches_mallocs a m)|]. by apply (touches_store a (set_mallocs m s2) c2).
    + exists c2. simpl. rewrite lookup_insert_eq. split; [done|]. split; [done|]. intros j. rewrite decide_False by naive_solver.
      by rewrite I2, I1.
Qed.

(** A record set is replaced in its slot by one with the same list entry. *)
Lemma replace_ok s a c i r r' c' : Core s -> cents s !! a = Some c -> RRARR_INDEX c i = Some r -> lent r' = lent r ->
  c' = put i (Some r') 0 (rrset_size r' - rrset_size r) (flags c) c ->
  Core (set_cents (<[a := c']> (cents s)) s) /\ touches a s (set_cents (<[a := c']> (cents s)) s) /\
  forall j, RRARR_INDEX c' j = if decide (j = i) then Some r' else RRARR_INDEX c j.
Proof.
  intros K Ha Hr Hl ->. pose proof (k_cents _ K _ _ Ha) as Ok. pose proof (proj1 (index_arr c i r) Hr) as Hx.
  split; [|split].
  - apply (core_store s a c); try done.
    + eapply put_ok; [done|exact Hx| |done|done]. by eapply (not_negative c).
    + intros j. rewrite put_lent by (by rewrite Hx). case_decide; [|done]. subst j. by rewrite lent_at_slot, Hr.
  - apply (touches_store a s c); [done|]. by apply like_put.
  - intros j. apply index_put. by rewrite Hx.
Qed.

(** The record [d] put in at position [n]. *)
Definition grow (n : nat) (d : list byte) (r : rr_set_t) : rr_set_t :=
  RRSet (lent r) (ttl r) (ts r) (rflags r) (take n (rrs r) ++ d :: drop n (rrs r)).

Lemma grow_size n d r : rrset_size (grow n d r) = rrset_size r + bucket_size abi d.
Proof.
  unfold PdnsdCent.rrset_size; simpl. rewrite fold_right_app. rewrite <- (take_drop n (rrs r)) at 3.
  rewrite fold_right_app. simpl. generalize (fold_right (fun d z => bucket_size abi d + z) 0 (drop n (rrs r))).
  generalize (take n (rrs r)). intros l z. induction l as [|x l IH]; simpl; lia.
Qed.

Lemma add_rr_int_post s a c i tl t f d rtail : Core s -> cents s !! a = Some c -> (i < NRRTOT)%nat ->
  (rtail <> None -> RRARR_INDEX c i <> None) ->
  post (add_cent_rr_int abi a i tl t f d rtail) s (fun res s' => Core s' /\ touches a s s' /\
    exists c', cents s' !! a = Some c' /\ (body c' = body c \/ body c' = RR (arr c')) /\
      match res with
      | None => forall j, RRARR_INDEX c' j = RRARR_INDEX c j
      | Some n => n = match rtail with Some n => S n | None => 0%nat end /\
        forall j, RRARR_INDEX c' j =
          if decide (j = i) then Some (grow n d (default (RRSet None tl t f []) (RRARR_INDEX c i))) else RRARR_INDEX c j
      end).
Proof.
  intros K Ha Hi Ht. pose proof (k_cents _ K _ _ Ha) as Ok. unfold add_cent_rr_int. pstep. apply post_malloc. intros ok m.
  destruct ok; simpl.
  2: { pstep. split; [by apply core_mallocs|]. split; [apply touches_mallocs|]. exists c. auto. }
  pstep. eapply (post_mono _ _ (fun ok s1 => Core s1 /\ touches a s s1 /\ exists c1, cents s1 !! a = Some c1 /\ (body c1 = body c \/ body c1 = RR (arr c1)) /\
    forall j, RRARR_INDEX c1 j = if decide (j = i /\ ok = true) then Some (default (RRSet None tl t f []) (RRARR_INDEX c i))
      else RRARR_INDEX c j)).
  - assert (RRARR_INDEX c i <> None -> post (mret true) (set_mallocs m s) (fun ok s1 => Core s1 /\ touches a s s1 /\
      exists c1, cents s1 !! a = Some c1 /\ (body c1 = body c \/ body c1 = RR (arr c1)) /\ forall j, RRARR_INDEX c1 j =
        if decide (j = i /\ ok = true) then Some (default (RRSet None tl t f []) (RRARR_INDEX c i)) else RRARR_INDEX c j)) as Old.
    { intros N. pstep. split; [by apply core_mallocs|]. split; [apply touches_mallocs|]. exists c. split; [done|]. split; [by left|].
      intros j. case_decide as D; [|done]. destruct D as [-> _]. by destruct (RRARR_INDEX c i). }
    destruct rtail as [n|]; [by apply Old, Ht|]. pstep. eapply post_load; [done|]. rewrite testext by done.
    destruct (RRARR_INDEX c i) eqn:E; [by apply Old|].
    eapply post_mono; [apply (add_set_post (set_mallocs m s) a c i tl t f); [by apply core_mallocs|done..]|].
    intros ok s1 (K1 & T1 & c1 & Ha1 & B1 & I1). split; [done|]. split; [by etrans; [apply touches_mallocs|]|].
    exists c1. split; [done|]. split; [by right|]. intros j. by rewrite I1.
  - intros ok s1 (K1 & T1 & c1 & Ha1 & B1 & I1). destruct ok; simpl.
    2: { pstep. split; [done|]. split; [done|]. exists c1. split; [done|]. split; [done|]. intros j. rewrite I1. by rewrite decide_False by naive_solver. }
    pstep. eapply post_load; [done|]. set (r := default (RRSet None tl t f []) (RRARR_INDEX c i)) in *.
    assert (RRARR_INDEX c1 i = Some r) as Hr by (rewrite I1; by rewrite decide_True).
    rewrite Hr. pstep. pstep. pstep. set (n := match rtail with Some n => S n | None => 0%nat end).
    destruct (replace_ok s1 a c1 i r (grow n d r)
      (with_cs (cs c1 + bucket_size abi d) (set_slot i (Some (grow n d r)) c1))) as (K2 & T2 & I2); [done..| |].
    { rewrite grow_size. unfold put, with_cs, set_slot, with_body; simpl. f_equal; lia. }
    split; [exact K2|]. split; [by etrans|]. eexists. simpl. rewrite lookup_insert_eq. split; [done|]. split; [by right|]. split; [done|].
    intros j. rewrite I2. destruct (decide (j = i)); [done|]. rewrite I1. by rewrite decide_False by naive_solver.
Qed.

(** ** Entering the list *)

Lemma core_insert s a c i c' L : Core s -> cents s !! a = Some c -> cent_ok c' -> qname c' = qname c ->
  lent_at c i = None -> (forall j, lent_at c' j = if decide (j = i) then Some (fresh s) else lent_at c j) ->
  Permutation L ((fresh s, Lent a i) :: rrset_l s) ->
  Core (set_cents (<[a := c']> (cents s)) (set_list L (set_fresh (S (fresh s)) s))).
Proof.
  intros K Ha Ok Nm Hi HL P. constructor; simpl.
  - intros b d [[<- <-]|[? ?]]%lookup_insert_Some; [done|eapply k_cents; eauto].
  - intros l b j. rewrite P, elem_of_cons, (k_list _ K). destruct (decide (b = a)) as [->|N].
    + rewrite lookup_insert_eq. split.
      * intros [?|(d & ? & Hd)]; simplify_eq; exists c'; (split; [done|]); rewrite HL; [by rewrite decide_True|].
        case_decide; [|done]. subst. congruence.
      * intros (d & ? & Hd). simplify_eq. rewrite HL in Hd. case_decide; [left; by simplify_eq|right; eauto].
    + rewrite lookup_insert_ne by done. naive_solver.
  - rewrite P. simpl. apply NoDup_cons. split; [|apply K]. intros (e & E & He)%list_elem_of_fmap.
    apply (k_fresh_l _ K) in He. lia.
  - intros k b Hb. destruct (k_hash _ K k b Hb) as (d & Hd & Hk). destruct (decide (b = a)) as [->|N].
    + simplify_eq. exists c'. by rewrite lookup_insert_eq, Nm.
    + exists d. by rewrite lookup_insert_ne.
  - intros b d [[<- <-]|[? Hb]]%lookup_insert_Some; [apply (k_fresh_c _ K) in Ha|apply (k_fresh_c _ K) in Hb]; lia.
  - intros e. rewrite P, elem_of_cons. intros [->|He]; [simpl; lia|]. apply (k_fresh_l _ K) in He. lia.
Qed.

Lemma ts_defined s e : Core s -> e ∈ rrset_l s -> is_Some (get_rrlent_ts s e).
Proof.
  intros K He. destruct e as [l [a i]]. apply (k_list _ K) in He as (c & Hc & Hl). unfold get_rrlent_ts; simpl. rewrite Hc. simpl.
  destruct i as [i|].
  - rewrite lent_at_slot in Hl.
    destruct (RRARR_INDEX c i) as [r|]; [|done]. simpl in *. rewrite decide_True by done. by eexists.
  - unfold lent_at in Hl. destruct (body c); [by eexists|done].
Qed.

Lemma insert_from_tail_perm s t ne r : (forall e, e ∈ r -> is_Some (get_rrlent_ts s e)) ->
  exists r', insert_from_tail s t ne r = Some r' /\ Permutation r' (ne :: r).
Proof.
  induction r as [|e r IH]; intros H; simpl; [by eexists|].
  destruct (H e) as [t' ->]; [left|]. simpl. case_match; [by eexists|].
  destruct IH as (r' & -> & P); [intros; apply H; by right|]. simpl. eexists. split; [done|]. rewrite P. apply Permutation_swap.
Qed.

(** The state with a new entry [ne] in the list, where the code puts it. *)
Lemma enter_list s t ne : Core s ->
  post (if insert_sort s then
          match insert_from_tail s t ne (reverse (rrset_l s)) with
          | Some r => modify (set_list (reverse r))
          | None => fail
          end
        else modify (set_list (rrset_l s ++ [ne])) : M unit) s
    (fun _ s' => exists L, s' = set_list L s /\ Permutation L (ne :: rrset_l s)).
Proof.
  intros K. destruct (insert_sort s).
  - destruct (insert_from_tail_perm s t ne (reverse (rrset_l s))) as (r & -> & P).
    { intros e He. rewrite elem_of_reverse in He. by apply ts_defined. }
    pstep. eexists. split; [done|]. by rewrite reverse_Permutation, P, reverse_Permutation.
  - pstep. eexists. split; [done|]. apply Permutation_app_comm.
Qed.

Definition relent (o : option nat) (r : rr_set_t) : rr_set_t := RRSet o (ttl r) (ts r) (rflags r) (rrs r).

Definition local (c : dns_cent_t) (r : rr_set_t) : bool := has (rflags r) CF_LOCAL || has (flags c) DF_LOCAL.

Lemma insert_set_post s a c i r : Core s -> cents s !! a = Some c -> RRARR_INDEX c i = Some r -> lent r = None ->
  post (insert_rrl a (Some i)) s (fun ok s' => Core s' /\ touches a s s' /\
    exists c' o, cents s' !! a = Some c' /\ cs c' = cs c /\ (ok = true -> local c r = true \/ o <> None) /\
      forall j, RRARR_INDEX c' j = if decide (j = i) then Some (relent o r) else RRARR_INDEX c j).
Proof.
  intros K Ha Hr Hn. pose proof (k_cents _ K _ _ Ha) as Ok. unfold insert_rrl. pstep. eapply post_load; [done|].
  cbn [mbind option_bind]. rewrite Hr. fold (local c r).
  assert (forall s', Core s' -> touches a s s' -> cents s' !! a = Some c -> forall ok : bool, (ok = true -> local c r = true) ->
    Core s' /\ touches a s s' /\ exists c' o, cents s' !! a = Some c' /\ cs c' = cs c /\
      (ok = true -> local c r = true \/ o <> None) /\
      forall j, RRARR_INDEX c' j = if decide (j = i) then Some (relent o r) else RRARR_INDEX c j) as Same.
  { intros s' K' T' Ha' ok L. split; [done|]. split; [done|]. exists c, None. split; [done|]. split; [done|]. split; [naive_solver|].
    intros j. case_decide; [|done]. subst j. rewrite Hr. f_equal. destruct r; simpl in *. by subst. }
  destruct (local c r) eqn:L; [pstep; by apply Same|]. pstep. apply post_malloc. intros ok m. destruct ok; simpl.
  2: { pstep. apply Same; [by apply core_mallocs|apply touches_mallocs|done..]. }
  pstep. pstep. pstep. pstep. pstep. pstep. pstep.
  eapply post_mono; [apply (enter_list (set_fresh (S (fresh s)) (set_mallocs m s)) (ts r) (fresh s, Lent a (Some i)))|].
  { eapply core_ext; [..|exact K]; simpl; try done. lia. }
  intros _ s' (L' & -> & P). pstep. pstep. pstep. simpl. pose proof (proj1 (index_arr c i r) Hr) as Hx.
  set (c' := put i (Some (relent (Some (fresh s)) r)) 0 0 (flags c) c).
  match goal with |- context [<[a := ?d]> _] => replace d with c' by (unfold c', put, set_slot, with_body; f_equal; lia) end.
  split; [|split].
  - apply (core_insert (set_mallocs m s) a c (Some i)); try done; [by apply core_mallocs| | |].
    + eapply put_ok; [done|exact Hx| |done|simpl; unfold PdnsdCent.rrset_size; simpl; lia]. by eapply (not_negative c).
    + by rewrite lent_at_slot, Hr.
    + intros j. subst c'. by rewrite put_lent by (by rewrite Hx).
  - constructor; simpl; try done.
    + intros b N. by rewrite lookup_insert_ne.
    + intros d Hd. simplify_eq. exists c'. rewrite lookup_insert_eq. split; [done|]. by apply like_put.
  - exists c', (Some (fresh s)). rewrite lookup_insert_eq. split; [done|]. split; [simpl; lia|]. split; [by right|].
    intros j. apply index_put. by rewrite Hx.
Qed.

Lemma insert_neg_post s a c tl t : Core s -> cents s !! a = Some c -> body c = Neg None tl t ->
  post (insert_rrl a None) s (fun ok s' => Core s' /\ touches a s s' /\
    exists o, cents s' !! a = Some (with_body (Neg o tl t) c) /\ (ok = true -> has (flags c) DF_LOCAL = true \/ o <> None)).
Proof.
  intros K Ha B. pose proof (k_cents _ K _ _ Ha) as Ok. unfold insert_rrl. pstep. eapply post_load; [done|].
  cbn [mbind option_bind orb]. rewrite B.
  assert (with_body (Neg None tl t) c = c) as Wb by (unfold with_body; rewrite <- B; by destruct c).
  destruct (has (flags c) DF_LOCAL) eqn:L.
  { pstep. split; [done|]. split; [done|]. exists None. rewrite Wb. auto. }
  pstep. apply post_malloc. intros ok m. destruct ok; simpl.
  2: { pstep. split; [by apply core_mallocs|]. split; [apply touches_mallocs|]. exists None. by rewrite Wb. }
  pstep. pstep. pstep. pstep. pstep. pstep. pstep.
  eapply post_mono; [apply (enter_list (set_fresh (S (fresh s)) (set_mallocs m s)) t (fresh s, Lent a None))|].
  { eapply core_ext; [..|exact K]; simpl; try done. lia. }
  intros _ s' (L' & -> & P). pstep. pstep. pstep. simpl. set (c' := with_body _ _).
  split; [|split].
  - apply (core_insert (set_mallocs m s) a c None c' L'); [by apply core_mallocs|done| |done| | |done].
    + destruct Ok as [Tag Len Num Cs Nm]. rewrite B in Tag. constructor; try done.
      * simpl. rewrite Num. unfold arr. by rewrite B.
      * simpl. rewrite Cs. unfold cent_size, arr; simpl. by rewrite B.
    + unfold lent_at. by rewrite B.
    + intros [j|]; unfold lent_at; simpl; [by rewrite B|done].
  - constructor; simpl; try done.
    + intros b N. by rewrite lookup_insert_ne.
    + intros d Hd. simplify_eq. exists c'. by rewrite lookup_insert_eq.
  - exists (Some (fresh s)). rewrite lookup_insert_eq. by split; [|right].
Qed.

(** ** Freeing entries *)

Definition lents_of (x : list (option rr_set_t)) : list nat := omap (fun y => y ≫= lent) x.

Lemma lents_of_elem c l : l ∈ lents_of (arr c) <-> exists i, lent_at c (Some i) = Some l.
Proof.
  unfold lents_of. rewrite list_elem_of_omap. split.
  - intros (y & [i Hi]%list_elem_of_lookup & Hl). exists i. rewrite lent_at_slot. unfold RRARR_INDEX. rewrite Hi.
    by destruct y.
  - intros [i Hi]. rewrite lent_at_slot in Hi. destruct (RRARR_INDEX c i) as [r|] eqn:E; [|done].
    exists (Some r). split; [|done]. apply list_elem_of_lookup. exists i. by apply index_arr.
Qed.

Lemma lents_of_nodup x : (forall i j r r' l, x !! i = Some (Some r) -> x !! j = Some (Some r') ->
  lent r = Some l -> lent r' = Some l -> i = j) -> NoDup (lents_of x).
Proof.
  unfold lents_of. induction x as [|y x IH]; intros H; simpl; [constructor|].
  assert (NoDup (omap (fun y => y ≫= lent) x)) as ND.
  { apply IH. intros i j r r' l Hi Hj Hr Hr'. assert (S i = S j) by eauto. lia. }
  destruct y as [r|]; simpl; [|done]. destruct (lent r) as [l|] eqn:El; [|done]. constructor; [|done].
  rewrite list_elem_of_omap. intros (y & [j Hj]%list_elem_of_lookup & Hy). destruct y as [r'|]; [|done].
  specialize (H 0%nat (S j) r r' l eq_refl Hj El Hy). done.
Qed.

Lemma cent_lents_nodup s a c : Core s -> cents s !! a = Some c -> NoDup (lents_of (arr c)).
Proof.
  intros K Ha. apply lents_of_nodup. intros i j r r' l Hi Hj Hr Hr'.
  assert (a = a /\ Some i = Some j) as [_ ?]; [|by simplify_eq].
  eapply (lents_inj s l); eauto; rewrite lent_at_slot; unfold RRARR_INDEX; rewrite ?Hi, ?Hj; done.
Qed.

Lemma filter_ext_in {A} (P Q : A -> Prop) `{!forall x, Decision (P x)} `{!forall x, Decision (Q x)} (l : list A) :
  (forall x, x ∈ l -> P x <-> Q x) -> base.filter P l = base.filter Q l.
Proof.
  induction l as [|x l IH]; intros E; [done|]. rewrite !filter_cons, IH by (intros; apply E; by right).
  specialize (E x (list_elem_of_here x l)). repeat case_decide; tauto.
Qed.

Lemma filter_all {A} (P : A -> Prop) `{!forall x, Decision (P x)} (l : list A) :
  (forall x, x ∈ l -> P x) -> base.filter P l = l.
Proof.
  induction l as [|x l IH]; intros E; [done|]. rewrite filter_cons, decide_True, IH; [done| |apply E; left].
  intros; apply E; by right.
Qed.

Lemma del_rrsets_run x : forall s, NoDup (lents_of x) -> (forall l, l ∈ lents_of x -> l ∈ (rrset_l s).*1) ->
  del_rrsets abi x s = Some (sets_size x, set_list (base.filter (fun e => e.1 ∉ lents_of x) (rrset_l s)) s).
Proof.
  induction x as [|y x IH]; intros s ND H.
  - simpl. rewrite filter_all; [by destruct s|]. intros e _. apply not_elem_of_nil.
  - destruct y as [r|]; [|simpl; by rewrite (IH s ND H)].
    cbn [del_rrsets]. unfold del_rrset, mbind, M_bind. unfold lents_of in ND, H |- *. simpl in ND, H |- *.
    destruct (lent r) as [l|] eqn:El; simpl in ND, H |- *.
    + apply NoDup_cons in ND as [Nl ND]. rewrite remove_rrl_run by (apply H; left). unfold mret at 1, M_ret.
      rewrite (IH _ ND).
      * unfold mret, M_ret; simpl. do 2 f_equal. rewrite list_filter_filter.
        apply (f_equal (fun L => set_list L s)), list_filter_iff. intros e. rewrite not_elem_of_cons. tauto.
      * simpl. intros l' Hl'. assert (l' ∈ (rrset_l s).*1) as (e & -> & He)%list_elem_of_fmap by (apply H; by right).
        apply list_elem_of_fmap. exists e. split; [done|]. apply list_elem_of_filter. split; [|done]. intros E. by rewrite E in Hl'.
    + unfold mret at 1, M_ret. by rewrite (IH s ND H).
Qed.

Definition free_state (a : nat) (s : cache) : cache :=
  set_cents (delete a (cents s)) (set_list (base.filter (fun e => le_cent e.2 <> a) (rrset_l s)) s).

Lemma free_cent_run s a c : Core s -> cents s !! a = Some c -> free_cent abi a s = Some (tt, free_state a s).
Proof.
  intros K Ha. pose proof (k_cents _ K _ _ Ha) as Ok. unfold free_cent, load, mbind, M_bind. rewrite Ha. simpl.
  rewrite (co_tag _ Ok).
  assert (forall e, e ∈ rrset_l s -> le_cent e.2 = a <-> lent_at c (le_idx e.2) = Some e.1) as Own.
  { intros [l [b i]] He. simpl. pose proof He as (d & Hd & Hl)%(k_list _ K). split.
    - intros ->. by simplify_eq.
    - intros Hl'. by destruct (lents_inj s l a b i i c d) as [-> _]. }
  destruct (body c) as [[l|] t0 t1|x] eqn:B; simpl.
  - rewrite remove_rrl_run by (eapply (listed s a c None); [done..|]; unfold lent_at; by rewrite B).
    unfold modify, free_state. simpl. do 2 f_equal.
    apply (f_equal (fun L => set_cents (delete a (cents s)) (set_list L s))), filter_ext_in. intros e He. rewrite (Own e He).
    destruct (le_idx e.2) as [i|] eqn:Ei; unfold lent_at; rewrite B; [|naive_solver].
    split; [done|]. intros _ El. assert (lent_at c (Some i) = lent_at c None) as X.
    { destruct e as [l' [b i']]; simpl in *; subst.
      pose proof He as (d & Hd & Hl)%(k_list _ K).
      destruct (lents_inj s l b a (Some i) None d c) as [_ ?]; try done. unfold lent_at. by rewrite B. }
    unfold lent_at in X. by rewrite B in X.
  - unfold mret, M_ret, modify, free_state. rewrite filter_all; [by destruct s|].
    intros e He. rewrite (Own e He). unfold lent_at. rewrite B. by destruct (le_idx e.2).
  - assert (arr c = x) as <- by (unfold arr; by rewrite B).
    rewrite del_rrsets_run; [|by eapply cent_lents_nodup|].
    2: { intros l [i Hl]%lents_of_elem. by eapply listed. }
    unfold mret, M_ret, modify, free_state. simpl. do 2 f_equal.
    apply (f_equal (fun L => set_cents (delete a (cents s)) (set_list L s))), filter_ext_in. intros e He. rewrite (Own e He).
    rewrite lents_of_elem. split; [|by intros N [i Hi]; apply N; destruct e as [l [b i']]; simpl in *;
      pose proof He as (d & Hd & Hl)%(k_list _ K); destruct (lents_inj s l b a i' (Some i) d c) as [-> ->]].
    intros N Hl. apply N. destruct (le_idx e.2) as [i|]; [eauto|]. unfold lent_at in Hl. by rewrite B in Hl.
Qed.

Lemma core_free_state s a c : Core s -> cents s !! a = Some c -> (forall k, hash s !! k <> Some a) -> Core (free_state a s).
Proof.
  intros K Ha H. eapply core_free; eauto; [apply sublist_filter|]. intros e. rewrite list_elem_of_filter. tauto.
Qed.

(** ** Copies and new entries *)

Lemma malloc_all_post n : forall s, post (malloc_all n) s (fun _ s' => exists m, s' = set_mallocs m s).
Proof.
  induction n as [|n IH]; intros s; cbn [malloc_all].
  - pstep. exists (mallocs s). by destruct s.
  - pstep. apply post_malloc. intros ok m. destruct ok; simpl; [|pstep; by exists m].
    eapply post_mono; [apply IH|]. intros _ s' [m' ->]. by exists m'.
Qed.

Lemma copy_rrset_post r s : post (copy_rrset r) s (fun res s' => (res = None \/ res = Some (relent None r)) /\
  exists m, s' = set_mallocs m s).
Proof.
  unfold copy_rrset. pstep. eapply post_mono; [apply malloc_all_post|]. intros ok s' Hm. pstep. split; [|done].
  destruct ok; [by right|by left].
Qed.

Definition bare (x : list (option rr_set_t)) : list (option rr_set_t) := map (fmap (relent None)) x.

Lemma copy_slots_post x : forall s, post (copy_slots x) s (fun res s' => (res = None \/ res = Some (bare x)) /\
  exists m, s' = set_mallocs m s).
Proof.
  induction x as [|[r|] x IH]; intros s; cbn [copy_slots].
  - pstep. split; [by right|]. exists (mallocs s). by destruct s.
  - pstep. eapply post_mono; [apply copy_rrset_post|]. intros res s1 ([->| ->] & m & ->); [pstep; split; [by left|by eexists]|].
    pstep. eapply post_mono; [apply IH|]. intros res s2 (Hr & m' & ->). pstep. split; [|by eexists].
    destruct Hr as [->| ->]; [by left|by right].
  - pstep. eapply post_mono; [apply IH|]. intros res s2 (Hr & m' & ->). pstep. split; [|by eexists].
    destruct Hr as [->| ->]; [by left|by right].
Qed.

Definition copy_of (c : dns_cent_t) : dns_cent_t :=
  with_body (match body c with Neg _ tl t => Neg None tl t | RR x => RR (bare x) end) c.

Lemma bare_size x : nsets (bare x) = nsets x /\ sets_size (bare x) = sets_size x /\ length (bare x) = length x.
Proof. induction x as [|[r|] x (H1 & H2 & H3)]; simpl; [done|..]; rewrite H1, H2, H3; done. Qed.

Lemma arr_copy c : arr (copy_of c) = bare (arr c).
Proof. unfold arr, copy_of; simpl. by destruct (body c). Qed.

Lemma copy_of_ok c : cent_ok c -> cent_ok (copy_of c).
Proof.
  intros [Tag Len Num Cs Nm]. destruct (bare_size (arr c)) as (H1 & H2 & H3). constructor.
  - change (negative c = is_neg (body (copy_of c))). rewrite Tag. unfold copy_of; simpl. by destruct (body c).
  - unfold copy_of; simpl. destruct (body c); [done|]. by rewrite (proj2 (proj2 (bare_size _))).
  - rewrite arr_copy, H1. exact Num.
  - unfold cent_size. rewrite arr_copy, H2, H3. exact Cs.
  - exact Nm.
Qed.

Lemma bare_lookup x i : mjoin (bare x !! i) = relent None <$> mjoin (x !! i).
Proof. unfold bare. rewrite list_lookup_fmap. by destruct (x !! i) as [[]|]. Qed.

Lemma copy_of_index c i : RRARR_INDEX (copy_of c) i = relent None <$> RRARR_INDEX c i.
Proof. unfold RRARR_INDEX. by rewrite arr_copy, bare_lookup. Qed.

Lemma copy_of_lent c i : lent_at (copy_of c) i = None.
Proof.
  destruct i as [i|]; [rewrite lent_at_slot, copy_of_index; by destruct (RRARR_INDEX c i)|].
  unfold lent_at, copy_of; simpl. by destruct (body c).
Qed.

Definition with_new (c : dns_cent_t) (m : list bool) (s : cache) : cache :=
  set_cents (<[fresh s := c]> (cents s)) (set_fresh (S (fresh s)) (set_mallocs m s)).

Lemma core_with_new c m s : Core s -> cent_ok c -> (forall i, lent_at c i = None) -> Core (with_new c m s).
Proof. intros K Ok L. by apply (core_new (set_mallocs m s) c (core_mallocs m s K)). Qed.

Lemma copy_cent_post s a c : Core s -> cents s !! a = Some c ->
  post (copy_cent a) s (fun res s' => exists m,
    (res = None /\ s' = set_mallocs m s) \/ (res = Some (fresh s) /\ s' = with_new (copy_of c) m s)).
Proof.
  intros K Ha. pose proof (k_cents _ K _ _ Ha) as Ok. unfold copy_cent. pstep. eapply post_load; [done|].
  pstep. apply post_malloc. intros [] m; simpl; [|pstep; eexists; by left].
  pstep. apply post_malloc. intros [] m1; simpl; [|pstep; eexists; by left].
  rewrite (co_tag _ Ok). pstep.
  eapply (post_mono _ _ (fun b s' => (b = None \/ b = Some (body (copy_of c))) /\ exists m, s' = set_mallocs m s)).
  - unfold copy_of; simpl. destruct (body c) as [l t0 t1|x]; simpl; [pstep; split; [by right|by eexists]|].
    pstep. eapply (post_mono _ _ (fun _ s' => exists m, s' = set_mallocs m s)).
    { destruct (NRRMU <? length x)%nat; [apply post_malloc; intros; by eexists|pstep; by eexists]. }
    intros ok s1 [m2 ->]. destruct ok; simpl; [|pstep; split; [by left|by eexists]].
    pstep. eapply post_mono; [apply copy_slots_post|]. intros res s2 (Hr & m3 & ->). pstep. split; [|by eexists].
    destruct Hr as [->| ->]; [by left|by right].
  - intros b s1 (Hb & m2 & ->). destruct Hb as [->| ->]; [pstep; eexists; by left|].
    pstep. pstep. pstep. pstep. pstep. exists m2. right. by split.
Qed.

Lemma init_cent_post s A tl t f : Core s -> valid_name A ->
  post (init_cent abi (wire A) tl t f) s (fun res s' => exists m,
    (res = None /\ s' = set_mallocs m s) \/
    (exists c, res = Some (fresh s) /\ s' = with_new c m s /\ cent_ok c /\ flags c = f /\ (forall i, RRARR_INDEX c i = None) /\
       forall i, lent_at c i = None)).
Proof.
  intros K V. unfold init_cent. pstep. apply post_malloc. intros [] m; simpl; [|pstep; eexists; by left].
  pstep. pstep. pstep. pstep. pstep. exists m. right. eexists. split; [done|]. split; [done|].
  assert (forall i, mjoin (repeat (@None rr_set_t) 8 !! i) = None) as N.
  { intros i. by do 8 (destruct i as [|i]; [done|]). }
  split; [|split; [done|split]].
  - constructor; simpl; [| | | |by exists A].
    + unfold negative; simpl. by destruct (has f DF_NEGATIVE).
    + destruct (has f DF_NEGATIVE); [done|by left].
    + unfold arr; simpl. by destruct (has f DF_NEGATIVE).
    + unfold cent_size, arr; simpl. destruct (has f DF_NEGATIVE); simpl; lia.
  - intros i. unfold RRARR_INDEX, arr; simpl. destruct (has f DF_NEGATIVE); [done|apply N].
  - intros [i|]; unfold lent_at; simpl; destruct (has f DF_NEGATIVE); try done. change (mjoin (repeat None 8 !! i) ≫= lent = None). by rewrite N.
Qed.

(** ** Negating, adding a record, sorting the list *)

Lemma owner s a c e : Core s -> cents s !! a = Some c -> e ∈ rrset_l s ->
  le_cent e.2 = a <-> lent_at c (le_idx e.2) = Some e.1.
Proof.
  destruct e as [l [b i]]. intros K Ha He. simpl. pose proof He as (d & Hd & Hl)%(k_list _ K). split.
  - intros ->. by simplify_eq.
  - intros Hl'. by destruct (lents_inj s l a b i i c d) as [-> _].
Qed.

Lemma negate_post s a c tl t : Core s -> cents s !! a = Some c ->
  post (negate_cent abi a tl t) s (fun _ s' => Core s' /\ touches a s s' /\
    exists c', cents s' !! a = Some c' /\ body c' = Neg (lent_at c None) tl t /\ num_rrs c' = 0).
Proof.
  intros K Ha. pose proof (k_cents _ K _ _ Ha) as [Tag Len Num Cs Nm]. unfold negate_cent. pstep.
  eapply post_load; [done|]. rewrite Tag. destruct (body c) as [l t0 t1|x] eqn:B; simpl in Tag |- *.
  - pstep. split; [|split].
    + apply (core_store s a c); [done..| |done|].
      * constructor; simpl; [done..| | |done].
        -- rewrite Num. unfold arr. by rewrite B.
        -- rewrite Cs. unfold cent_size, arr; simpl. by rewrite B.
      * intros [i|]; unfold lent_at; simpl; by rewrite B.
    + by apply (touches_store a s c).
    + exists (with_body (Neg l tl t) c). simpl. rewrite lookup_insert_eq. split; [done|]. split; [unfold lent_at; by rewrite B|].
      rewrite Num. unfold arr. by rewrite B.
  - assert (arr c = x) as <- by (unfold arr; by rewrite B). pstep.
    eexists _, _. split.
    { apply del_rrsets_run; [by eapply cent_lents_nodup|]. intros l [i Hl]%lents_of_elem. by eapply listed. }
    pstep. simpl. set (c' := with_body _ _). set (L := base.filter _ (rrset_l s)).
    assert (cent_ok c') as Ok'.
    { constructor; simpl; [|done| | |done].
      - unfold negative; simpl. rewrite has_lor. by rewrite orb_true_r.
      - done.
      - unfold cent_size at 1; simpl. rewrite Cs. unfold cent_size. lia. }
    split; [|split].
    + apply (core_shrink s a c c' L); try done.
      * intros [i|] l; unfold lent_at; simpl; done.
      * apply sublist_filter.
      * intros e. subst L. rewrite list_elem_of_filter. split.
        -- intros [N He]. split; [done|]. intros Ho. exfalso. apply N. apply lents_of_elem.
           pose proof (proj1 (owner s a c e K Ha He) Ho) as Hl. destruct (le_idx e.2) as [i|]; [eauto|].
           unfold lent_at in Hl. by rewrite B in Hl.
        -- intros [He Hc]. split; [|done]. intros [i Hl]%lents_of_elem. destruct e as [l [b i']]; simpl in *.
           pose proof He as (d & Hd & Hl')%(k_list _ K).
           destruct (lents_inj s l a b (Some i) i' c d) as [-> <-]; try done. specialize (Hc eq_refl). done.
    + change (touches a s (set_list L (set_cents (<[a := c']> (cents s)) s))). apply touches_list, (touches_store a s c c' Ha).
      constructor; simpl; try done. intros b Hb _. rewrite has_lor. unfold has at 2. rewrite Hb. simpl. by rewrite orb_false_r.
    + exists c'. simpl. rewrite lookup_insert_eq. split; [done|]. split; [unfold lent_at; by rewrite B|done].
Qed.

Lemma core_perm s L : Core s -> Permutation L (rrset_l s) -> Core (set_list L s).
Proof.
  intros [K1 K2 K3 K4 K5 K6] P. constructor; simpl; try done.
  - intros l a i. by rewrite P.
  - by rewrite P.
  - intros e. rewrite P. auto.
Qed.

Lemma sort_list_post s : Core s -> Z.of_nat (length (rrset_l s)) < 2 ^ 32 ->
  post sort_list s (fun _ s' => exists L, s' = set_list L s /\ Permutation L (rrset_l s)).
Proof.
  intros K B. unfold post, sort_list.
  assert (exists y, mapM (fun e => t ← get_rrlent_ts s e; Some (t, e)) (rrset_l s) = Some y /\ y.*2 = rrset_l s) as (y & -> & Hy).
  { pose proof (fun e => ts_defined s e K) as D. revert D. clear. induction (rrset_l s) as [|e l IH]; intros D; [by exists []|].
    destruct (D e) as [t Ht]; [left|]. destruct IH as (y & Ey & Hy); [intros; apply D; by right|].
    exists ((t, e) :: y). simpl. rewrite Ht. simpl. rewrite Ey. split; [done|]. simpl. f_equal. exact Hy. }
  simpl. assert (Z.of_nat (length y) < 2 ^ 32) as By by (rewrite <- Hy, length_fmap in B; done).
  rewrite (sort_rrl_ok fst y By). simpl. eexists _, _. split; [done|]. eexists. split; [done|].
  rewrite <- Hy. apply fmap_Permutation. apply inserted_perm.
Qed.

Lemma lents_kept c c' : (body c' = body c \/ body c' = RR (arr c')) ->
  (forall j, RRARR_INDEX c' j ≫= lent = RRARR_INDEX c j ≫= lent) -> forall i l, lent_at c' i = Some l -> lent_at c i = Some l.
Proof.
  intros B H [i|] l; [by rewrite !lent_at_slot, H|]. unfold lent_at. destruct B as [-> | ->]; done.
Qed.

Lemma add_rr_post s a c type tl t f d : Core s -> cents s !! a = Some c -> (forall i, rr_index type = Some i -> (i < NRRTOT)%nat) ->
  rr_index type <> None ->
  post (add_cent_rr abi a type tl t f d) s (fun ok s' => Core s' /\ touches a s s' /\
    exists c', cents s' !! a = Some c' /\ forall i l, lent_at c' i = Some l -> lent_at c i = Some l).
Proof.
  intros K Ha Hi Hn. pose proof (k_cents _ K _ _ Ha) as Ok. unfold add_cent_rr. pstep. eapply post_load; [done|].
  pstep; [pstep; split; [done|]; split; [done|]; by exists c|]. destruct (rr_index type) as [i|]; [|done]. pstep.
  apply post_assert; [apply Nat.ltb_lt; auto|]. rewrite testext by done.
  destruct (RRARR_INDEX c i) as [r|] eqn:Hr.
  - pstep. pstep. set (r' := RRSet _ _ _ _ _).
    destruct (replace_ok s a c i r r' (set_slot i (Some r') c)) as (K1 & T1 & I1); [done..| |].
    { unfold put, set_slot, with_body. f_equal; [|lia..]. subst r'. unfold PdnsdCent.rrset_size. simpl. lia. }
    set (c1 := set_slot i (Some r') c) in *. assert (forall i l, lent_at c1 i = Some l -> lent_at c i = Some l) as L1.
    { apply lents_kept; [by right|]. intros j. rewrite I1. case_decide; [|done]. subst j. by rewrite Hr. }
    pstep; [pstep; split; [done|]; split; [done|]; exists c1; simpl; by rewrite lookup_insert_eq|].
    set (s1 := set_cents _ _) in *. pstep.
    eapply post_mono; [eapply (add_rr_int_post s1 a c1); [done|simpl; apply lookup_insert_eq|auto|]|].
    + intros _. rewrite I1. by rewrite decide_True.
    + intros n s2 (K2 & T2 & c2 & Ha2 & B2 & M2). pstep. split; [done|]. split; [by etrans|]. exists c2. split; [done|].
      intros j l Hj. apply L1. revert j l Hj. apply lents_kept; [done|]. intros j. destruct n as [n|]; [|by rewrite M2].
      destruct M2 as [_ M2]. rewrite M2. destruct (decide (j = i)) as [->|]; [|done]. by rewrite I1, decide_True.
  - pstep. eapply post_mono; [by eapply (add_rr_int_post s a); eauto|]. intros n s2 (K2 & T2 & c2 & Ha2 & B2 & M2). pstep.
    split; [done|]. split; [done|]. exists c2. split; [done|]. apply lents_kept; [done|]. intros j.
    destruct n as [n|]; [|by rewrite M2]. destruct M2 as [_ M2]. rewrite M2. destruct (decide (j = i)) as [->|]; [|done]. by rewrite Hr.
Qed.

End Core.
