(* ===== verification/PdnsdCacheCost.v ===== *)
(** * How many addresses the operations of the cache use

    A bound on the number of new addresses each operation takes, and that no
    operation switches back from insertion in order of age to appending
    ([insert_sort]). Both are needed where the list is sorted as a whole. Memory that is
    available stays so: a list of answers of the allocator that has run out, after
    which every request is granted, is not filled again. *)

From S2P Require Import Prelude.
From S2P Require Import PdnsdNames.
From S2P Require Import PdnsdHash.
From S2P Require Import PdnsdSort.
From S2P Require Import PdnsdCent.
From S2P Require Import PdnsdCache.

Open Scope Z_scope.

Definition costs {A} (n : nat) (m : M A) : Prop :=
  forall s r s', m s = Some (r, s') ->
    (fresh s' <= fresh s + n)%nat /\ (insert_sort s = true -> insert_sort s' = true) /\ (mallocs s = [] -> mallocs s' = []).

Notation calm := (costs 0).

Lemma costs_weaken {A} n n' (m : M A) : (n <= n')%nat -> costs n m -> costs n' m.
Proof. intros L H s r s' E. destruct (H s r s' E). split; [lia|done]. Qed.

Lemma costs_bind {A B} n1 n2 (m : M A) (k : A -> M B) : costs n1 m -> (forall x, costs n2 (k x)) -> costs (n1 + n2) (m ≫= k).
Proof.
  intros Hm Hk s r s'. unfold mbind, M_bind. destruct (m s) as [[x s1]|] eqn:E1; [|done]. intros E2.
  destruct (Hm s x s1 E1) as (L1 & S1 & M1), (Hk x s1 r s' E2) as (L2 & S2 & M2). split; [lia|auto].
Qed.

Lemma calm_bind {A B} n (m : M A) (k : A -> M B) : calm m -> (forall x, costs n (k x)) -> costs n (m ≫= k).
Proof. apply (costs_bind 0). Qed.

Lemma calm_after {A B} n (m : M A) (k : A -> M B) : costs n m -> (forall x, calm (k x)) -> costs n (m ≫= k).
Proof. intros Hm Hk. rewrite <- (Nat.add_0_r n). by apply costs_bind. Qed.

Lemma costs_ret {A} n (x : A) : costs n (mret x).
Proof. intros s r s' [= <- <-]. split; [lia|done]. Qed.

Lemma costs_fail {A} n : costs n (@fail A).
Proof. done. Qed.

Lemma calm_malloc : calm malloc.
Proof. intros s r s'. unfold malloc. destruct (mallocs s) eqn:E; intros [= <- <-]; (split; [simpl; lia|done]). Qed.

Lemma calm_get : calm get.
Proof. intros s r s' [= <- <-]. split; [lia|done]. Qed.

Lemma calm_load a : calm (load a).
Proof. intros s r s'. unfold load. destruct (cents s !! a); [|done]. intros [= <- <-]. split; [lia|done]. Qed.

Lemma calm_modify f : (forall s, fresh (f s) = fresh s) -> (forall s, insert_sort s = true -> insert_sort (f s) = true) ->
  (forall s, mallocs (f s) = mallocs s) -> calm (modify f).
Proof. intros H1 H2 H3 s r s' [= <- <-]. rewrite H1, H3. split; [lia|auto]. Qed.

Lemma calm_store a c : calm (store a c).
Proof. by apply calm_modify. Qed.

Lemma costs_new_address : costs 1 new_address.
Proof. intros s r s' [= <- <-]. split; [simpl; lia|done]. Qed.

Lemma calm_assert b : calm (assert_that b).
Proof. destruct b; [apply costs_ret|apply costs_fail]. Qed.

Create HintDb cost.
#[export] Hint Resolve costs_ret costs_fail calm_malloc calm_get calm_load calm_store calm_assert : cost.
#[export] Hint Extern 1 (costs 0 (modify _)) => (apply calm_modify; [done|by auto|done]) : cost.

(** One step of a program that uses no addresses, or of one that goes on to use some. *)
Ltac calm_step :=
  lazymatch goal with
  | |- costs _ (mbind _ _) => apply calm_bind; [solve [eauto 3 with cost]|intros ?]
  | |- costs _ (if ?b then _ else _) => destruct b
  | |- costs _ (match ?x with _ => _ end) => destruct x
  | |- _ => solve [eauto 3 with cost]
  end.

(** ** The list and the record sets *)

Lemma calm_remove l : calm (remove_rrl l).
Proof. unfold remove_rrl. repeat calm_step. Qed.

#[export] Hint Resolve calm_remove : cost.

Lemma costs_insert a i : costs 1 (insert_rrl a i).
Proof.
  unfold insert_rrl. calm_step. calm_step; [calm_step|]. calm_step. calm_step; [calm_step|].
  apply calm_after; [apply costs_new_address|]. intros l. apply calm_bind; [repeat calm_step|intros t]. calm_step.
  apply calm_bind; [repeat calm_step|intros ?]. apply calm_bind; [repeat calm_step|intros ?]. calm_step.
Qed.

Lemma calm_sort : calm sort_list.
Proof.
  intros s r s'. unfold sort_list. destruct (mapM _ _) as [x|]; [|done]. simpl. destruct (sort_rrl fst x) as [y|]; [|done].
  intros [= <- <-]. split; [simpl; lia|done].
Qed.

#[export] Hint Resolve calm_sort : cost.

Section Cost.

Variable abi : sizes.
Variable global : globals.
Variable now : Z.

Lemma calm_unnegate a : calm (unnegate a).
Proof. unfold unnegate. calm_step. calm_step; [|calm_step]. calm_step; [|calm_step]. apply calm_bind; [repeat calm_step|intros ?]. calm_step. Qed.

Lemma calm_add_set a i tl t f : calm (add_cent_rrset_by_index abi a i tl t f).
Proof.
  unfold add_cent_rrset_by_index. apply calm_bind; [apply calm_unnegate|intros ?]. calm_step. calm_step.
  apply calm_bind; [|intros ok; repeat calm_step]. calm_step; [calm_step|]. calm_step.
  apply calm_bind; [repeat calm_step|intros ?]. calm_step.
Qed.

#[local] Hint Resolve calm_add_set : cost.

Lemma calm_add_rr_int a i tl t f d rt : calm (add_cent_rr_int abi a i tl t f d rt).
Proof.
  unfold add_cent_rr_int. calm_step. calm_step; [calm_step|]. apply calm_bind; [repeat calm_step|intros ok]. repeat calm_step.
Qed.

#[local] Hint Resolve calm_add_rr_int : cost.

Lemma calm_add_rr a type tl t f d : calm (add_cent_rr abi a type tl t f d).
Proof. unfold add_cent_rr. repeat calm_step. Qed.

Lemma calm_del_rrset r : calm (del_rrset abi r).
Proof. unfold del_rrset. apply calm_bind; [repeat calm_step|intros ?]. calm_step. Qed.

#[local] Hint Resolve calm_del_rrset : cost.

Lemma calm_del_set a i : calm (del_cent_rrset_by_index abi a i).
Proof. unfold del_cent_rrset_by_index. repeat calm_step. Qed.

#[local] Hint Resolve calm_del_set : cost.

Lemma calm_del_rrsets x : calm (del_rrsets abi x).
Proof. induction x as [|[r|] x IH]; cbn [del_rrsets]; repeat calm_step. Qed.

#[local] Hint Resolve calm_del_rrsets : cost.

Lemma calm_free a : calm (free_cent abi a).
Proof. unfold free_cent. calm_step. apply calm_bind; [repeat calm_step|intros ?]. calm_step. Qed.

#[local] Hint Resolve calm_free : cost.

Lemma calm_malloc_all n : calm (malloc_all n).
Proof. induction n as [|n IH]; cbn [malloc_all]; repeat calm_step. Qed.

#[local] Hint Resolve calm_malloc_all : cost.

Lemma calm_copy_slots x : calm (copy_slots x).
Proof.
  induction x as [|[r|] x IH]; cbn [copy_slots]; [calm_step| |repeat calm_step].
  unfold copy_rrset. apply calm_bind; [repeat calm_step|intros y]. repeat calm_step.
Qed.

#[local] Hint Resolve calm_copy_slots : cost.

Lemma costs_copy a : costs 1 (copy_cent a).
Proof.
  unfold copy_cent. calm_step. calm_step. calm_step; [calm_step|]. calm_step. calm_step; [calm_step|].
  apply calm_bind; [|intros b].
  - calm_step; calm_step; try calm_step. apply calm_bind; [repeat calm_step|intros ok]. repeat calm_step.
  - calm_step; [|calm_step]. apply calm_after; [apply costs_new_address|intros y]. repeat calm_step.
Qed.

Lemma costs_init A tl t f : costs 1 (init_cent abi A tl t f).
Proof.
  unfold init_cent. calm_step. calm_step; [calm_step|]. apply calm_after; [apply costs_new_address|intros y]. repeat calm_step.
Qed.

(** ** Purging *)

Lemma calm_add_size z : calm (add_size z).
Proof. unfold add_size. calm_step. Qed.

#[local] Hint Resolve calm_add_size : cost.

Lemma calm_del_cache_ent a : calm (del_cache_ent abi a).
Proof. unfold del_cache_ent, del_cent. repeat calm_step. Qed.

#[local] Hint Resolve calm_del_cache_ent : cost.

Lemma calm_purge_slots n : forall i a test, calm (purge_slots abi now n i a test).
Proof.
  induction n as [|n IH]; intros i a test; cbn [purge_slots]; [calm_step|]. calm_step. calm_step; [|apply IH]. calm_step.
  - apply calm_bind; [repeat calm_step|intros ?]. apply calm_bind; [apply IH|intros [[? ?] ?]]. calm_step.
  - apply calm_bind; [apply IH|intros [[? ?] ?]]. calm_step.
Qed.

Lemma calm_stale c cref i : calm (stale_ref now c cref i).
Proof. unfold stale_ref. calm_step. calm_step; [|calm_step]. apply calm_bind; [repeat calm_step|intros ?]. calm_step. Qed.

#[local] Hint Resolve calm_stale : cost.

Lemma calm_purge_ref a test ref i clear np : calm (purge_ref now a test ref i clear np).
Proof. unfold purge_ref. calm_step. calm_step; [calm_step|]. calm_step. calm_step; [calm_step|]. apply calm_bind; repeat calm_step. Qed.

#[local] Hint Resolve calm_purge_ref : cost.

Lemma calm_purge_cent a delete test : calm (purge_cent abi now a delete test).
Proof.
  unfold purge_cent. apply calm_bind.
  - unfold purge_all_rrsets. calm_step. calm_step; [calm_step|]. apply calm_bind; [apply calm_purge_slots|intros [[? ?] ?]].
    calm_step. calm_step; [|calm_step]. apply calm_bind; [|intros ?; calm_step]. repeat calm_step.
  - intros [? ?]. calm_step. calm_step; [apply calm_bind; repeat calm_step|]. repeat calm_step.
Qed.

#[local] Hint Resolve calm_purge_cent : cost.

Lemma calm_walk go work fuel : (forall e, calm (work e)) -> forall le, calm (walk fuel go work le).
Proof.
  intros H. induction fuel as [|fuel IH]; intros [l|]; cbn [walk]; try calm_step; [repeat calm_step|].
  calm_step; [calm_step|]. destruct (list_at l _) as [[e next]|]; [|calm_step].
  apply calm_bind; [unfold lent_local; repeat calm_step|intros b]. apply calm_bind; [calm_step; [calm_step|apply H]|intros ?]. apply IH.
Qed.

Lemma calm_timed_out e : calm (purge_timed_out abi now e).
Proof.
  unfold purge_timed_out. apply calm_bind; [|intros ?; repeat calm_step]. calm_step; [|calm_step].
  apply calm_bind; [|intros ?; calm_step]. unfold purge_rrset. calm_step. calm_step; [|calm_step]. calm_step; [|calm_step].
  apply calm_bind; repeat calm_step.
Qed.

Lemma calm_any e : calm (purge_any abi e).
Proof. unfold purge_any. apply calm_bind; [|intros ?; repeat calm_step]. repeat calm_step. Qed.

Lemma calm_walk_list go work : (forall e, calm (work e)) -> calm (walk_list go work).
Proof. intros H. unfold walk_list. calm_step. by apply calm_walk. Qed.

Lemma calm_purge_cache sz lazy : calm (purge_cache abi now sz lazy).
Proof.
  unfold purge_cache. apply calm_bind; [apply calm_walk_list, calm_timed_out|intros ?]. calm_step. calm_step; [calm_step|].
  apply calm_bind; [repeat calm_step|intros ?]. apply calm_walk_list, calm_any.
Qed.

(** ** Adding *)

Lemma calm_cr_remove rri n : forall i a, calm (cr_remove abi rri n i a).
Proof.
  induction n as [|n IH]; intros i a; cbn [cr_remove]; [calm_step|]. calm_step. apply calm_bind; [repeat calm_step|intros ?]. apply IH.
Qed.

#[local] Hint Resolve calm_cr_remove : cost.

Lemma calm_cr_check_add a i tl t f : calm (cr_check_add abi now a i tl t f).
Proof.
  unfold cr_check_add. calm_step; [calm_step|]. calm_step; [|calm_step]. calm_step. calm_step; [repeat calm_step|].
  calm_step; [calm_step|]. calm_step; [|calm_step]. repeat calm_step.
Qed.

#[local] Hint Resolve calm_cr_check_add : cost.

Lemma calm_add_rrs a i new ds : forall rt, calm (add_rrs abi a i new ds rt).
Proof. induction ds as [|d ds IH]; intros rt; cbn [add_rrs]; repeat calm_step. Qed.

#[local] Hint Resolve calm_add_rrs : cost.

Lemma costs_add_rrset a i new : costs 1 (add_rrset abi global now a i new).
Proof.
  unfold add_rrset, fill_rrset. calm_step. calm_step; [calm_step|]. calm_step. calm_step. calm_step; [calm_step|].
  calm_step. calm_step; [calm_step|]. calm_step. calm_step; [repeat calm_step|]. calm_step. calm_step; [|calm_step]. calm_step.
  apply calm_after; [apply costs_insert|intros ok]. repeat calm_step.
Qed.

Lemma costs_add_rrsets a x : forall i, costs (length x) (add_rrsets abi global now a i x).
Proof.
  induction x as [|[new|] x IH]; intros i; cbn [add_rrsets length]; [calm_step| |].
  - apply (costs_bind 1); [apply costs_add_rrset|intros ok]. calm_step; [calm_step|apply IH].
  - apply (costs_weaken (length x)); [lia|apply IH].
Qed.

Lemma costs_list_slots n : forall i a, costs n (list_slots global n i a).
Proof.
  induction n as [|n IH]; intros i a; cbn [list_slots]; [calm_step|]. calm_step. calm_step.
  - calm_step. apply (costs_bind 1); [apply costs_insert|intros ok]. calm_step; [calm_step|apply IH].
  - apply (costs_weaken n); [lia|apply IH].
Qed.

Lemma rrarr_len_bound c : (RRARR_LEN c <= NRRTOT)%nat.
Proof. unfold RRARR_LEN, NRRTOT, NRRMU. repeat case_match; lia. Qed.

Lemma costs_enlist c a : costs NRRTOT (if negb (negative c) then list_slots global (RRARR_LEN c) 0 a
  else d ← adjust_dom_ttl global c; store a d;; insert_rrl a None : M bool).
Proof.
  calm_step; [apply (costs_weaken (RRARR_LEN c)); [apply rrarr_len_bound|apply costs_list_slots]|].
  apply (costs_weaken 1); [unfold NRRTOT; lia|]. apply calm_bind; [unfold adjust_dom_ttl; repeat calm_step|intros d].
  calm_step. apply costs_insert.
Qed.

Lemma calm_purge_to_limit : calm (purge_to_limit abi global now).
Proof. apply calm_purge_cache. Qed.

#[local] Hint Resolve calm_purge_to_limit : cost.

Lemma costs_add_new b : costs (S NRRTOT) (add_new abi global now b).
Proof.
  unfold add_new. calm_step. calm_step; [apply (costs_weaken 0); [lia|calm_step]|].
  apply (costs_bind 1 NRRTOT); [apply costs_copy|intros [ce|]]; [|calm_step]. calm_step.
  apply calm_after; [apply costs_enlist|intros ok]. repeat calm_step.
Qed.

Lemma costs_add_existing a b : costs NRRTOT (add_existing abi global now a b).
Proof.
  unfold add_existing. calm_step. calm_step. calm_step. calm_step. apply calm_after; [|intros ok; repeat calm_step].
  eapply costs_weaken; [|apply costs_add_rrsets]. rewrite length_take. pose proof (rrarr_len_bound x2). lia.
Qed.

Lemma costs_add_cache b : costs (S NRRTOT) (add_cache abi global now b).
Proof.
  unfold add_cache. generalize 2%nat as fuel. induction fuel as [|fuel IH]; cbn [add_cache_retry]; [done|].
  calm_step. calm_step. calm_step; [|apply costs_add_new].
  calm_step; [|apply (costs_weaken NRRTOT); [lia|apply costs_add_existing]]. calm_step. calm_step; [calm_step|].
  calm_step. exact IH.
Qed.

(** ** The other operations *)

Lemma calm_del_cache A : calm (del_cache abi A).
Proof. unfold del_cache, del_cent. repeat calm_step. Qed.

Lemma calm_free_names ks : calm (free_names abi ks).
Proof. induction ks as [|k ks IH]; cbn [free_names]; [calm_step|]. apply calm_bind; [apply calm_del_cache|intros ?; exact IH]. Qed.

Lemma calm_negate a tl t : calm (negate_cent abi a tl t).
Proof. unfold negate_cent. repeat calm_step. Qed.

Lemma calm_label nm : calm (label_len nm).
Proof. unfold label_len. repeat calm_step. Qed.

#[local] Hint Resolve calm_label : cost.

Lemma calm_wild fuel : forall nm lb, calm (wild_loop fuel nm lb).
Proof. induction fuel as [|fuel IH]; intros nm lb; cbn [wild_loop]; repeat calm_step. Qed.

#[local] Hint Resolve calm_wild : cost.

Lemma calm_find A wild : calm (find_cent A wild).
Proof. unfold find_cent. repeat calm_step. Qed.

Lemma calm_localowner fuel : forall nm lb tp, calm (localowner_loop fuel nm lb tp).
Proof. induction fuel as [|fuel IH]; intros nm lb tp; cbn [localowner_loop]; repeat calm_step. Qed.

Lemma costs_lookup_r A wild : costs 1 (lookup_cache_r abi now A wild).
Proof.
  unfold lookup_cache_r. apply calm_bind; [apply calm_find|intros [[ce|] w]]; [|calm_step].
  calm_step. calm_step; [calm_step|]. apply calm_after; [apply costs_copy|intros ?; calm_step].
Qed.

Lemma costs_lookup_rw A wild : costs 1 (lookup_cache_rw abi now A wild).
Proof.
  unfold lookup_cache_rw. apply calm_bind; [apply calm_find|intros [[ce|] w]]; [|calm_step].
  calm_step. calm_step; [calm_step|]. apply calm_after; [apply costs_copy|intros ?; calm_step].
Qed.

End Cost.
