(* ===== verification/PdnsdCacheInv.v ===== *)
(** * The invariant of the DNS cache

    [Inv] holds between the operations of [PdnsdCache]: the structures of
    [PdnsdCentInv.Core] agree, exactly the entries in the hash table are in
    the list, every record set that may be purged is in the list, [cache_size] is
    the sum of the sizes of the entries and [ent_num] their number. This file
    shows that every operation runs without undefined behaviour and keeps it,
    and what purging achieves. *)

From S2P Require Import Prelude.
From S2P Require Import PdnsdNames.
From S2P Require Import PdnsdCompress.
From S2P Require Import PdnsdHash.
From S2P Require Import PdnsdSort.
From S2P Require Import PdnsdCent.
From S2P Require Import PdnsdCache.
From S2P Require Import PdnsdCacheCost.
From S2P Require Import PdnsdCentInv.

Open Scope Z_scope.

Section Inv.

Variable abi : sizes.
Variable global : globals.
Variable now : Z.

Notation Core := (Core abi).
Notation cent_ok := (cent_ok abi).
Notation rrset_size := (rrset_size abi).

(** ** The sum of the sizes *)

Definition cs_at (h : gmap nat dns_cent_t) (a : nat) : Z := match h !! a with Some c => cs c | None => 0 end.

Definition sum_cs (h : gmap nat dns_cent_t) (m : gmap (list byte) nat) : Z := map_fold (fun _ a z => cs_at h a + z) 0 m.

Definition total (s : cache) : Z := sum_cs (cents s) (hash s).

Lemma sum_insert h m k a : m !! k = None -> sum_cs h (<[k := a]> m) = cs_at h a + sum_cs h m.
Proof.
  intros N. unfold sum_cs. rewrite map_fold_insert_L; [done| |done]. intros; lia.
Qed.

Lemma sum_delete h m k a : m !! k = Some a -> sum_cs h (delete k m) = sum_cs h m - cs_at h a.
Proof.
  intros H. rewrite <- (insert_delete_id m k a H) at 2. rewrite sum_insert by apply lookup_delete_eq. lia.
Qed.

Lemma sum_ext h h' m : (forall k a, m !! k = Some a -> cs_at h' a = cs_at h a) -> sum_cs h' m = sum_cs h m.
Proof.
  induction m as [|k a m N IH] using map_ind; intros H; [done|].
  rewrite !sum_insert by done. rewrite (H k a) by apply lookup_insert_eq. f_equal. apply IH.
  intros k' a' H'. apply (H k'). rewrite lookup_insert_ne; [done|congruence].
Qed.

Lemma sum_as (f : nat -> Z) h m : (forall k a, m !! k = Some a -> cs_at h a = f a) ->
  map_fold (fun (_ : list byte) a z => cs_at h a + z) 0 m = map_fold (fun _ a z => f a + z) 0 m.
Proof.
  induction m as [|k a m N IH] using map_ind; intros H; [done|].
  rewrite !map_fold_insert_L by (intros; done || lia). rewrite (H k a) by apply lookup_insert_eq. f_equal. apply IH.
  intros k' a' H'. apply (H k'). rewrite lookup_insert_ne; [done|congruence].
Qed.

(** ** The invariant *)

Definition Owned (s : cache) : Prop :=
  forall a c i l, cents s !! a = Some c -> lent_at c i = Some l -> exists k, hash s !! k = Some a.

Record all_listed (c : dns_cent_t) : Prop := {
  al_set : forall i r, RRARR_INDEX c i = Some r -> lent r = None -> local c r = true;
  al_neg : forall tl t, body c = Neg None tl t -> has (flags c) DF_LOCAL = true;
}.

Definition Listed (s : cache) : Prop := forall k a c, hash s !! k = Some a -> cents s !! a = Some c -> all_listed c.

Record Base (s : cache) : Prop := {
  b_core : Core s;
  b_owned : Owned s;
  b_num : ent_num s = Z.of_nat (size (hash s));
}.

Record Inv (s : cache) : Prop := {
  i_base : Base s;
  i_listed : Listed s;
  i_size : cache_size s = total s;
}.

Lemma hash_inj s k k' a : Core s -> hash s !! k = Some a -> hash s !! k' = Some a -> k = k'.
Proof.
  intros K H H'. destruct (k_hash _ _ K _ _ H) as (c & Hc & <-), (k_hash _ _ K _ _ H') as (c' & Hc' & <-). by simplify_eq.
Qed.

Lemma base_touch s s' k a : Base s -> Core s' -> touches a s s' -> hash s !! k = Some a -> Base s'.
Proof.
  intros [K O N] K' T H. constructor; [done| |by rewrite (t_num _ _ _ T), (t_hash _ _ _ T)].
  intros b c i l Hb Hl. rewrite (t_hash _ _ _ T). destruct (decide (b = a)) as [->|Nb]; [eauto|].
  rewrite (t_other _ _ _ T) in Hb by done. by eapply O.
Qed.

Lemma listed_touch s s' a : Listed s -> touches a s s' -> (forall c, cents s' !! a = Some c -> all_listed c) -> Listed s'.
Proof.
  intros L T H k b c Hk Hb. destruct (decide (b = a)) as [->|Nb]; [auto|].
  rewrite (t_other _ _ _ T) in Hb by done. rewrite (t_hash _ _ _ T) in Hk. by eapply L.
Qed.

Lemma total_touch s s' k a c c' : Core s -> touches a s s' -> hash s !! k = Some a ->
  cents s !! a = Some c -> cents s' !! a = Some c' -> total s' = total s - cs c + cs c'.
Proof.
  intros K T Hk Ha Ha'. unfold total. rewrite (t_hash _ _ _ T).
  rewrite <- (insert_delete_id (hash s) k a Hk). rewrite !sum_insert by apply lookup_delete_eq.
  rewrite (sum_ext (cents s) (cents s')).
  - unfold cs_at. rewrite Ha, Ha'. lia.
  - intros k' b [Nk Hb]%lookup_delete_Some. unfold cs_at. rewrite (t_other _ _ _ T); [done|].
    intros ->. apply Nk. by eapply hash_inj.
Qed.

(** The cache entry of a name. *)
Lemma cached s k a : Core s -> hash s !! k = Some a -> exists c, cents s !! a = Some c /\ lower (qname c) = k /\ cent_ok c.
Proof. intros K H. destruct (k_hash _ _ K _ _ H) as (c & Hc & E). exists c. eauto using k_cents. Qed.

(** An entry keeps its size and its record sets. *)
Lemma inv_store s k a c c' : Inv s -> hash s !! k = Some a -> cents s !! a = Some c -> cent_ok c' -> qname c' = qname c ->
  cs c' = cs c -> (forall i, lent_at c' i = lent_at c i) -> (all_listed c -> all_listed c') ->
  Inv (set_cents (<[a := c']> (cents s)) s).
Proof.
  intros [[K O N] L Z] Hk Ha Ok Nm Ecs El Hal. pose proof (core_store _ _ _ _ _ K Ha Ok Nm El) as K'.
  assert (forall b d, cents s !! b = Some d -> b <> a -> <[a := c']> (cents s) !! b = Some d) as Other
    by (intros; by rewrite lookup_insert_ne).
  constructor; [constructor; simpl; try done| |simpl].
  - intros b d i l. simpl. intros [[<- <-]|[? ?]]%lookup_insert_Some Hl; [eauto|by eapply O].
  - intros k' b d. simpl. intros Hk' [[<- <-]|[? ?]]%lookup_insert_Some; [|by eapply L]. eauto.
  - rewrite Z. unfold total; simpl. symmetry. apply sum_ext. intros k' b Hb. unfold cs_at.
    destruct (decide (b = a)) as [->|Nb]; [by rewrite lookup_insert_eq, Ha|by rewrite lookup_insert_ne].
Qed.

(** ** Deleting an entry *)

(** The state without the entry [a] of name [k]. *)
Definition removed (k : list byte) (a : nat) (c : dns_cent_t) (s : cache) : cache :=
  set_num (ent_num s - 1) (free_state a (set_size (cache_size s + - cs c) (set_hash (base.delete k (hash s)) s))).

Lemma core_unhash s k : Core s -> Core (set_hash (base.delete k (hash s)) s).
Proof. intros [K1 K2 K3 K4 K5 K6]. constructor; simpl; try done. intros k' a [_ H]%lookup_delete_Some. auto. Qed.

Lemma del_cent_run s a c : Core s -> cents s !! a = Some c ->
  del_cent abi a s = Some (tt, set_num (ent_num s - 1) (free_state a (set_size (cache_size s + - cs c) s))).
Proof.
  intros K Ha. unfold del_cent, load, mbind, M_bind. rewrite Ha. simpl. unfold add_size, modify.
  rewrite (free_cent_run abi (set_size (cache_size s + - cs c) s) a c); [done| |done]. by eapply core_ext; [..|exact K].
Qed.

Lemma del_cache_ent_run s k a c : Core s -> hash s !! k = Some a -> cents s !! a = Some c ->
  del_cache_ent abi a s = Some (tt, removed k a c s).
Proof.
  intros K Hk Ha. destruct (cached s k a K Hk) as (c' & ? & <- & _). simplify_eq.
  unfold del_cache_ent, load, mbind, M_bind. rewrite Ha. simpl. unfold modify.
  rewrite (del_cent_run (set_hash (base.delete (lower (qname c)) (hash s)) s) a c); [done|by apply core_unhash|done].
Qed.

Lemma removed_base s k a c : Base s -> hash s !! k = Some a -> cents s !! a = Some c -> Base (removed k a c s).
Proof.
  intros [K O N] Hk Ha. assert (Core (removed k a c s)) as K'.
  { eapply core_ext; [..|eapply (core_free_state abi (set_hash (base.delete k (hash s)) s) a c)]; try done.
    - by apply core_unhash.
    - simpl. intros k' [Nk Hk']%lookup_delete_Some. apply Nk. by eapply hash_inj. }
  constructor; [done| |].
  - intros b d i l. simpl. intros [Nb Hb]%lookup_delete_Some Hl. destruct (O b d i l Hb Hl) as [k' Hk'].
    exists k'. apply lookup_delete_Some. split; [|done]. intros ->. congruence.
  - simpl. rewrite N. rewrite map_size_delete_Some by (by eexists). assert (size (hash s) <> 0%nat); [|lia].
    apply map_size_ne_0_lookup. by exists k, a.
Qed.

Lemma removed_inv s k a c : Inv s -> hash s !! k = Some a -> cents s !! a = Some c -> Inv (removed k a c s).
Proof.
  intros [B L Z] Hk Ha. constructor; [by apply removed_base| |].
  - intros k' b d. simpl. intros [_ Hk']%lookup_delete_Some [_ Hb]%lookup_delete_Some. by eapply L.
  - simpl. rewrite Z. unfold total; simpl. rewrite (sum_ext (cents s) (base.delete a (cents s))).
    + rewrite (sum_delete _ _ _ _ Hk). unfold cs_at. rewrite Ha. lia.
    + intros k' b [Nk Hk']%lookup_delete_Some. unfold cs_at. rewrite lookup_delete_ne; [done|].
      intros <-. apply Nk. eapply hash_inj; [apply B|done..].
Qed.

(** Entries of the list that belong to another entry stay. *)
Lemma removed_list k a c s : rrset_l (removed k a c s) = base.filter (fun e => le_cent e.2 <> a) (rrset_l s).
Proof. done. Qed.

(** ** Expired record sets *)

Lemma listed_drop c i r : all_listed c -> RRARR_INDEX c i = Some r -> all_listed (dropped abi i r c).
Proof.
  intros [H1 H2] Hr. pose proof (proj1 (index_arr c i r) Hr) as Hx. constructor; [|done].
  intros j r' Hj Hl. unfold dropped in Hj. rewrite index_put in Hj by (by rewrite Hx). case_decide; [done|].
  specialize (H1 j r' Hj Hl). unfold local in *. unfold dropped, put; simpl. by rewrite has_without.
Qed.

(** A record set of a cached entry goes, and its size is taken off the total. *)
Definition after_purge (a i : nat) (r : rr_set_t) (c : dns_cent_t) (s : cache) : cache :=
  set_size (cache_size s + - rrset_size r) (after_drop abi a i r c s).

Lemma purge_inv s k a c i r : Inv s -> hash s !! k = Some a -> cents s !! a = Some c -> RRARR_INDEX c i = Some r ->
  Inv (after_purge a i r c s).
Proof.
  intros [B L Z] Hk Ha Hr. pose proof (b_core _ B) as K. pose proof (core_drop abi s a c i r K Ha Hr) as K'.
  pose proof (touches_drop abi s a c i r Ha) as T.
  assert (cents (after_drop abi a i r c s) !! a = Some (dropped abi i r c)) as Ha' by (simpl; apply lookup_insert_eq).
  constructor.
  - destruct (base_touch _ _ k a B K' T Hk) as [K2 O2 N2]. constructor; try done. by eapply core_ext; [..|exact K2].
  - intros k' b d Hk' Hb. eapply (listed_touch s (after_drop abi a i r c s) a L T); [|exact Hk'|exact Hb].
    intros d' Hd'. rewrite Ha' in Hd'. simplify_eq. apply listed_drop; [|done]. exact (L _ _ _ Hk Ha).
  - simpl. rewrite Z. change (total (after_purge a i r c s)) with (total (after_drop abi a i r c s)).
    rewrite (total_touch s _ k a c (dropped abi i r c) K T Hk Ha Ha'). simpl. lia.
Qed.

Lemma purge_set_run s k a c i r : Inv s -> hash s !! k = Some a -> cents s !! a = Some c -> RRARR_INDEX c i = Some r ->
  (rv ← del_cent_rrset_by_index abi a i; add_size (- rv)) s = Some (tt, after_purge a i r c s).
Proof.
  intros [B _ _] Hk Ha Hr. unfold mbind, M_bind. rewrite (del_set_run abi s a c i r (b_core _ B) Ha Hr). done.
Qed.

(** ** Local records *)

(** The cached entry of a name. *)
Definition view (s : cache) (k : list byte) : option dns_cent_t := hash s !! k ≫= fun a => cents s !! a.

Lemma view_some s k c : view s k = Some c <-> exists a, hash s !! k = Some a /\ cents s !! a = Some c.
Proof.
  unfold view. split; [|intros (a & H & H'); by rewrite H].
  destruct (hash s !! k) as [a|] eqn:H; [|done]. intros H'. by exists a.
Qed.

(** A record set with the same records and lifetime, local or not. *)
Record same_data (r r' : rr_set_t) : Prop := {
  sd_rrs : rrs r' = rrs r;
  sd_ttl : ttl r' = ttl r;
  sd_local : has (rflags r') CF_LOCAL = has (rflags r) CF_LOCAL;
}.

Definition keeps_local (c c' : dns_cent_t) : Prop :=
  forall i r, RRARR_INDEX c i = Some r -> has (rflags r) CF_LOCAL = true ->
  exists r', RRARR_INDEX c' i = Some r' /\ same_data r r'.

(** Every local record set stays in the cache, under its name and type. *)
Definition kept (s s' : cache) : Prop :=
  forall k c i r, view s k = Some c -> RRARR_INDEX c i = Some r -> has (rflags r) CF_LOCAL = true ->
  exists c' r', view s' k = Some c' /\ RRARR_INDEX c' i = Some r' /\ same_data r r'.

(** Every record set in the cache was there before, under its name and type. *)
Definition shrinks (s s' : cache) : Prop :=
  forall k c' i r', view s' k = Some c' -> RRARR_INDEX c' i = Some r' ->
  exists c r, view s k = Some c /\ RRARR_INDEX c i = Some r /\ same_data r r'.

#[export] Instance same_data_trans : Transitive same_data.
Proof. intros r1 r2 r3 [] []. constructor; congruence. Qed.

Lemma keeps_local_sub c c' : (forall i r, RRARR_INDEX c i = Some r -> has (rflags r) CF_LOCAL = true -> RRARR_INDEX c' i = Some r) ->
  keeps_local c c'.
Proof. intros H i r Hr L. exists r. split; [by apply H|done]. Qed.

#[export] Instance keeps_local_refl : Reflexive keeps_local.
Proof. intros c. by apply keeps_local_sub. Qed.

#[export] Instance keeps_local_trans : Transitive keeps_local.
Proof.
  intros c1 c2 c3 H1 H2 i r Hr L. destruct (H1 i r Hr L) as (r' & Hr' & S1).
  destruct (H2 i r' Hr') as (r'' & ? & S2); [by rewrite (sd_local _ _ S1)|]. exists r''. split; [done|by etrans].
Qed.

#[export] Instance kept_refl : Reflexive kept.
Proof. intros s k c i r Hc Hr L. by exists c, r. Qed.

#[export] Instance kept_trans : Transitive kept.
Proof.
  intros s1 s2 s3 H1 H2 k c i r Hc Hr L. destruct (H1 k c i r Hc Hr L) as (c' & r' & Hc' & Hr' & S1).
  destruct (H2 k c' i r' Hc' Hr') as (c'' & r'' & ? & ? & S2); [by rewrite (sd_local _ _ S1)|].
  exists c'', r''. split; [done|]. split; [done|by etrans].
Qed.

#[export] Instance shrinks_refl : Reflexive shrinks.
Proof. intros s k c i r Hc Hr. by exists c, r. Qed.

#[export] Instance shrinks_trans : Transitive shrinks.
Proof.
  intros s1 s2 s3 H1 H2 k c i r Hc Hr. destruct (H2 k c i r Hc Hr) as (c' & r' & Hc' & Hr' & S2).
  destruct (H1 k c' i r' Hc' Hr') as (c'' & r'' & ? & ? & S1). exists c'', r''. split; [done|]. split; [done|by etrans].
Qed.

(** Only entry [a] changes. *)
Lemma kept_store s s' a : hash s' = hash s -> (forall b, b <> a -> cents s' !! b = cents s !! b) ->
  (forall c, cents s !! a = Some c -> exists c', cents s' !! a = Some c' /\ keeps_local c c') -> kept s s'.
Proof.
  intros Eh Eo Ha k c i r (b & Hk & Hb)%view_some Hr L. destruct (decide (b = a)) as [->|N].
  - destruct (Ha c Hb) as (c' & Hc' & H). destruct (H i r Hr L) as (r' & ? & ?). exists c', r'. split; [|done].
    apply view_some. exists a. by rewrite Eh.
  - exists c, r. split; [|done]. apply view_some. exists b. by rewrite Eh, Eo.
Qed.

Lemma shrinks_store s s' a : hash s' = hash s -> (forall b, b <> a -> cents s' !! b = cents s !! b) ->
  (forall c' i r', cents s' !! a = Some c' -> RRARR_INDEX c' i = Some r' ->
     exists c r, cents s !! a = Some c /\ RRARR_INDEX c i = Some r /\ same_data r r') -> shrinks s s'.
Proof.
  intros Eh Eo Ha k c' i r' (b & Hk & Hb)%view_some Hr. rewrite Eh in Hk. destruct (decide (b = a)) as [->|N].
  - destruct (Ha c' i r' Hb Hr) as (c & r & Hc & Hi & Sd). exists c, r. split; [apply view_some; by exists a|done].
  - rewrite Eo in Hb by done. exists c', r'. split; [|done]. apply view_some. by exists b.
Qed.

Lemma shrinks_ext s s' : hash s' = hash s -> cents s' = cents s -> shrinks s s'.
Proof. intros Eh Ec k c i r Hc Hr. exists c, r. split; [|done]. unfold view in *. by rewrite Eh, Ec in Hc. Qed.

Lemma shrinks_removed s k a c : shrinks s (removed k a c s).
Proof.
  intros k' d i r (b & Hk & Hb)%view_some Hr. simpl in *. apply lookup_delete_Some in Hk as [_ Hk].
  apply lookup_delete_Some in Hb as [_ Hb]. exists d, r. split; [|done]. apply view_some. by exists b.
Qed.

Lemma kept_ext s s' : hash s' = hash s -> cents s' = cents s -> kept s s'.
Proof. intros Eh Ec. apply (kept_store s s' 0); [done|by rewrite Ec|]. intros c Hc. exists c. by rewrite Ec. Qed.

(** An entry without local record sets goes. *)
Lemma kept_removed s k a c : Core s -> hash s !! k = Some a -> cents s !! a = Some c ->
  (forall i r, RRARR_INDEX c i = Some r -> has (rflags r) CF_LOCAL = false) -> kept s (removed k a c s).
Proof.
  intros K Hk Ha H k' d i r (b & Hk' & Hb)%view_some Hr L. exists d, r. split; [|done].
  assert (b <> a) as N by (intros ->; simplify_eq; by rewrite (H i r Hr) in L).
  apply view_some. exists b. simpl. rewrite !lookup_delete_ne; [done..|congruence|congruence].
Qed.

Lemma kept_purge s a c i r : cents s !! a = Some c -> RRARR_INDEX c i = Some r -> has (rflags r) CF_LOCAL = false ->
  kept s (after_purge a i r c s).
Proof.
  intros Ha Hr L. apply (kept_store _ _ a); [done|intros b N; simpl; by rewrite lookup_insert_ne|].
  intros c' Hc'. simplify_eq. simpl. rewrite lookup_insert_eq. eexists. split; [done|]. apply keeps_local_sub.
  intros j r' Hj L'. unfold dropped. rewrite index_put; [|apply index_arr in Hr; by rewrite Hr].
  rewrite decide_False; [done|]. intros ->. congruence.
Qed.

Lemma shrinks_purge s a c i r : cents s !! a = Some c -> RRARR_INDEX c i = Some r -> shrinks s (after_purge a i r c s).
Proof.
  intros Ha Hr. apply (shrinks_store _ _ a); [done|intros b N; simpl; by rewrite lookup_insert_ne|].
  intros c' j r' Hc' Hj. simpl in Hc'. rewrite lookup_insert_eq in Hc'. simplify_eq. exists c, r'. split; [done|].
  unfold dropped in Hj. rewrite index_put in Hj; [|apply index_arr in Hr; by rewrite Hr]. by case_decide.
Qed.

(** ** Entries of the callers *)

(** An entry that is not in the hash table is left alone, and stays out of it. *)
Definition foreign (s s' : cache) : Prop :=
  forall b c, cents s !! b = Some c -> (forall k, hash s !! k <> Some b) ->
  cents s' !! b = Some c /\ forall k, hash s' !! k <> Some b.

#[export] Instance foreign_refl : Reflexive foreign.
Proof. intros s b c Hb N. done. Qed.

#[export] Instance foreign_trans : Transitive foreign.
Proof. intros s1 s2 s3 H1 H2 b c Hb N. destruct (H1 b c Hb N). by apply H2. Qed.

Lemma foreign_store s s' k a : hash s !! k = Some a -> hash s' = hash s -> (forall b, b <> a -> cents s' !! b = cents s !! b) ->
  foreign s s'.
Proof. intros Hk Eh Eo b c Hb N. rewrite Eh, Eo; [done|]. intros ->. by apply (N k). Qed.

Lemma foreign_removed s k a c : hash s !! k = Some a -> foreign s (removed k a c s).
Proof.
  intros Hk b d Hb N. simpl. rewrite lookup_delete_ne by (intros ->; by apply (N k)). split; [done|].
  intros k' [_ H]%lookup_delete_Some. by apply (N k').
Qed.

Lemma foreign_ext s s' : hash s' = hash s -> cents s' = cents s -> foreign s s'.
Proof. intros Eh Ec b c Hb N. by rewrite Eh, Ec. Qed.

Lemma del_cache_post s A : Inv s -> post (del_cache abi A) s (fun _ s' => Inv s' /\ foreign s s' /\ shrinks s s' /\ hash s' = base.delete (lower A) (hash s)).
Proof.
  intros I. unfold del_cache, dns_lookup. pstep. pstep. destruct (hash s !! lower A) as [a|] eqn:Hk.
  - destruct (cached s _ a (b_core _ (i_base _ I)) Hk) as (c & Ha & _ & _). pstep. pstep.
    eexists _, _. split; [apply (del_cent_run _ a c); [by apply core_unhash, I|done]|].
    split; [by apply (removed_inv s (lower A) a c)|]. split; [by apply (foreign_removed s (lower A) a c)|].
    split; [by apply (shrinks_removed s (lower A) a c)|done].
  - pstep. split; [done|]. split; [done|]. split; [done|]. by rewrite delete_id.
Qed.

Lemma free_names_post ks : forall s, Inv s -> post (free_names abi ks) s (fun _ s' => Inv s' /\ foreign s s' /\ shrinks s s').
Proof.
  induction ks as [|k ks IH]; intros s I; cbn [free_names]; [by pstep|]. pstep.
  eapply post_mono; [by apply del_cache_post|]. intros _ s' (I' & F' & S' & _).
  eapply post_mono; [by apply IH|]. intros _ s'' (I'' & F'' & S''). split; [done|]. split; by etrans.
Qed.

(** ** Walking along the list *)

Definition is_local (s : cache) (e : nat * rr_lent_t) : bool :=
  match cents s !! le_cent e.2 with
  | Some c =>
    match le_idx e.2 with
    | Some i => match RRARR_INDEX c i with Some r => local c r | None => false end
    | None => has (flags c) DF_LOCAL
    end
  | None => false
  end.

Lemma lent_local_run s l e : Core s -> (l, e) ∈ rrset_l s -> lent_local l e s = Some (is_local s (l, e), s).
Proof.
  intros K He. destruct e as [a i]. pose proof He as (c & Ha & Hl)%(k_list _ _ K).
  unfold lent_local, is_local, load, mbind, M_bind; simpl. rewrite Ha. simpl. destruct i as [i|]; [|done].
  rewrite lent_at_slot in Hl. destruct (RRARR_INDEX c i) as [r|]; [|done]. simpl in Hl.
  unfold assert_that. by rewrite bool_decide_true.
Qed.

(** What the work on list entry [l] does: at most [l] leaves the list. *)
Record purges (l : nat) (s s' : cache) : Prop := {
  p_inv : Inv s';
  p_list : rrset_l s' = rrset_l s \/ rrset_l s' = unlist (Some l) (rrset_l s);
  p_local : forall e, e ∈ rrset_l s' -> is_local s' e = is_local s e;
  p_kept : kept s s';
  p_foreign : foreign s s';
  p_shrinks : shrinks s s';
}.

Lemma purges_refl l s : Inv s -> purges l s s.
Proof. intros I. constructor; auto; reflexivity. Qed.

Lemma unlist_twice o L : unlist o (unlist o L) = unlist o L.
Proof. destruct o as [l|]; [|done]. simpl. rewrite list_filter_filter. apply list_filter_iff. tauto. Qed.

Lemma purges_trans l s1 s2 s3 : purges l s1 s2 -> purges l s2 s3 -> purges l s1 s3.
Proof.
  intros [I1 L1 H1 K1 F1 S1] [I2 L2 H2 K2 F2 S2]. constructor; [done| | |by etrans|by etrans|by etrans].
  - destruct L1 as [E1|E1], L2 as [E2|E2]; rewrite E2, E1, ?unlist_twice; auto.
  - intros e He. rewrite H2 by done. apply H1. destruct L2 as [E|E]; rewrite E in He; [done|]. by apply unlist_elem in He as [? _].
Qed.

Lemma nsets_zero x : nsets x = 0 -> forall i r, x !! i <> Some (Some r).
Proof.
  induction x as [|y x IH]; intros H i r; [done|]. simpl in H.
  assert (0 <= nsets x) by (clear; induction x as [|[] x IH]; simpl; lia).
  destruct y as [y|]; [lia|]. destruct i as [|i]; simpl; [done|]. apply IH. lia.
Qed.

(** The list without the entries of [a], when [a] has at most one. *)
Lemma filter_owner s a c i : Core s -> cents s !! a = Some c -> (forall j, j <> i -> lent_at c j = None) ->
  base.filter (fun e => le_cent e.2 <> a) (rrset_l s) = unlist (lent_at c i) (rrset_l s).
Proof.
  intros K Ha H. destruct (lent_at c i) as [l|] eqn:El; simpl.
  - apply filter_ext_in. intros e He. rewrite (owner abi s a c e K Ha He). split; intros N E; apply N.
    + destruct e as [l' [b j]]; simpl in *. subst l'. pose proof He as (d & Hd & Hl)%(k_list _ _ K).
      by destruct (lents_inj abi s l a b i j c d K Ha El Hd Hl) as [_ <-].
    + destruct (decide (le_idx e.2 = i)) as [Ei|Ni]; [rewrite Ei in E; congruence|]. by rewrite H in E.
  - apply filter_all. intros e He. rewrite (owner abi s a c e K Ha He). intros E.
    destruct (decide (le_idx e.2 = i)) as [Ei|Ni]; [rewrite Ei in E; congruence|]. by rewrite H in E.
Qed.

Lemma purges_removed s l k a c i : Inv s -> hash s !! k = Some a -> cents s !! a = Some c ->
  (forall j, j <> i -> lent_at c j = None) -> (lent_at c i = None \/ lent_at c i = Some l) -> num_rrs c = 0 ->
  purges l s (removed k a c s).
Proof.
  intros I Hk Ha H Hi Z. pose proof (b_core _ (i_base _ I)) as K. constructor; [by apply removed_inv| | | |by apply foreign_removed|apply shrinks_removed].
  - rewrite removed_list, (filter_owner s a c i K Ha H). destruct Hi as [-> | ->]; auto.
  - intros e. rewrite removed_list, list_elem_of_filter. intros [N _]. unfold is_local. simpl. by rewrite lookup_delete_ne.
  - apply kept_removed; try done. intros j r Hr%index_arr. rewrite (co_num _ _ (k_cents _ _ K _ _ Ha)) in Z.
    by apply (nsets_zero _ Z) in Hr.
Qed.

Lemma purges_set s l k a c i r : Inv s -> hash s !! k = Some a -> cents s !! a = Some c -> RRARR_INDEX c i = Some r ->
  lent r = Some l -> has (rflags r) CF_LOCAL = false -> purges l s (after_purge a i r c s).
Proof.
  intros I Hk Ha Hr Hl Nl. pose proof (b_core _ (i_base _ I)) as K. pose proof (proj1 (index_arr c i r) Hr) as Hx.
  constructor; [by eapply purge_inv|right; simpl; by rewrite Hl| |by eapply kept_purge| |by eapply shrinks_purge].
  2: { apply (foreign_store _ _ k a); [done..|]. intros b N. simpl. by rewrite lookup_insert_ne. }
  simpl. rewrite Hl. intros e [He N]%unlist_elem. unfold is_local. simpl.
  destruct (decide (le_cent e.2 = a)) as [Ea|Na]; [|by rewrite lookup_insert_ne].
  rewrite Ea, lookup_insert_eq, Ha. pose proof (proj1 (owner abi s a c e K Ha He) Ea) as Hle.
  destruct (le_idx e.2) as [j|]; [|simpl; by rewrite has_without].
  unfold dropped. rewrite index_put by (by rewrite Hx). case_decide as D.
  - subst j. rewrite lent_at_slot, Hr in Hle. simpl in Hle. congruence.
  - destruct (RRARR_INDEX c j); [|done]. unfold local; simpl. by rewrite has_without.
Qed.

Lemma empty_lents c i : cent_ok c -> num_rrs c = 0 -> lent_at c (Some i) = None.
Proof.
  intros Ok N. rewrite lent_at_slot. destruct (RRARR_INDEX c i) as [r|] eqn:E; [|done].
  apply index_arr in E. rewrite (co_num _ _ Ok) in N. by apply (nsets_zero _ N) in E.
Qed.

(** The entry behind a list entry is deleted when it holds no record sets any more. *)
Lemma purges_empty s l k a c : Inv s -> hash s !! k = Some a -> cents s !! a = Some c -> num_rrs c = 0 ->
  lent_at c None = None \/ lent_at c None = Some l -> post (del_cache_ent abi a) s (fun _ s' => purges l s s').
Proof.
  intros I Hk Ha N H. pose proof (b_core _ (i_base _ I)) as K. pose proof (k_cents _ _ K _ _ Ha) as Ok.
  eexists _, _. split; [by apply (del_cache_ent_run s k a c)|]. apply (purges_removed s l k a c None); try done.
  intros [j|] Nj; [by apply empty_lents|done].
Qed.

Lemma entry_of s l e : Inv s -> (l, e) ∈ rrset_l s ->
  exists k c, hash s !! k = Some (le_cent e) /\ cents s !! le_cent e = Some c /\ lent_at c (le_idx e) = Some l /\ cent_ok c.
Proof.
  intros [[K O _] _ _] He. destruct e as [a i]. pose proof He as (c & Ha & Hl)%(k_list _ _ K).
  destruct (O a c i l Ha Hl) as [k Hk]. exists k, c. eauto using k_cents.
Qed.

Lemma neg_lent c i l : lent_at c (Some i) = Some l -> lent_at c None = None.
Proof. unfold lent_at. by destruct (body c). Qed.

Lemma dropped_none c i r : body (dropped abi i r c) = RR (<[i := None]> (arr c)).
Proof. done. Qed.

Lemma not_local_set s l a c i r : is_local s (l, Lent a (Some i)) = false -> cents s !! a = Some c -> RRARR_INDEX c i = Some r ->
  has (rflags r) CF_LOCAL = false.
Proof. unfold is_local. simpl. intros H Ha Hr. rewrite Ha, Hr in H. by apply orb_false_iff in H as [? _]. Qed.

Lemma purge_timed_out_post s l e : Inv s -> (l, e) ∈ rrset_l s -> is_local s (l, e) = false -> post (purge_timed_out abi now e) s (fun _ s' => purges l s s').
Proof.
  intros I He NL. destruct (entry_of s l e I He) as (k & c & Hk & Ha & Hl & Ok). destruct e as [a i]; simpl in *.
  unfold purge_timed_out; simpl. pstep.
  eapply (post_mono _ _ (fun _ s1 => purges l s s1 /\ exists c1, hash s1 !! k = Some a /\ cents s1 !! a = Some c1 /\
    (lent_at c1 None = None \/ lent_at c1 None = Some l))).
  - destruct i as [i|].
    + rewrite lent_at_slot in Hl. destruct (RRARR_INDEX c i) as [r|] eqn:Hr; [|done]. simpl in Hl.
      pose proof (neg_lent c i l ltac:(rewrite lent_at_slot, Hr; done)) as Nl.
      pstep. unfold purge_rrset. pstep. eapply post_load; [done|]. rewrite (testext abi) by done. rewrite Hr.
      pstep; [|pstep; pstep; split; [by apply purges_refl|]; eauto].
      pstep. eexists _, _. split; [by apply (purge_set_run s k a c i r)|]. pstep. pstep.
      split; [eapply purges_set; eauto using not_local_set|]. eexists. simpl. rewrite lookup_insert_eq. split; [done|]. split; [done|]. by left.
    + pstep. split; [by apply purges_refl|]. eauto.
  - intros _ s1 (P1 & c1 & Hk1 & Ha1 & Hl1). pstep. eapply post_load; [done|]. pstep; [|by pstep].
    apply andb_true_iff in E as [E _]. eapply post_mono; [eapply (purges_empty s1 l k a c1); try done; [apply P1|by apply Z.eqb_eq]|].
    intros ? s2 P2. by eapply purges_trans.
Qed.

Lemma purge_any_post s l e : Inv s -> (l, e) ∈ rrset_l s -> is_local s (l, e) = false ->
  post (purge_any abi e) s (fun _ s' => purges l s s' /\ rrset_l s' = unlist (Some l) (rrset_l s)).
Proof.
  intros I He NL. destruct (entry_of s l e I He) as (k & c & Hk & Ha & Hl & Ok). destruct e as [a i]; simpl in *.
  unfold purge_any; simpl. pstep. destruct i as [i|].
  - rewrite lent_at_slot in Hl. destruct (RRARR_INDEX c i) as [r|] eqn:Hr; [|done]. simpl in Hl.
    eexists _, _. split; [by apply (purge_set_run s k a c i r)|]. pose proof (purges_set s l k a c i r I Hk Ha Hr Hl ltac:(eauto using not_local_set)) as P1.
    assert (rrset_l (after_purge a i r c s) = unlist (Some l) (rrset_l s)) as E1 by (simpl; by rewrite Hl).
    pstep. eapply (post_load _ (dropped abi i r c)); [simpl; apply lookup_insert_eq|]. pstep; [|by pstep].
    eapply post_mono; [eapply (purges_empty _ l k a (dropped abi i r c)); [apply P1|done|simpl; apply lookup_insert_eq|by apply Z.eqb_eq|by left]|].
    intros ? s2 P2. split; [by eapply purges_trans|]. destruct (p_list _ _ _ P2) as [-> | ->]; rewrite E1, ?unlist_twice; done.
  - pstep. pstep. eapply post_load; [done|]. unfold lent_at in Hl. destruct (body c) as [l' tl t|] eqn:B; [|done]. subst l'.
    assert (num_rrs c = 0) as N by (rewrite (co_num _ _ Ok); unfold arr; by rewrite B).
    rewrite N. simpl. assert (lent_at c None = Some l) as Hl by (unfold lent_at; by rewrite B).
    pose proof (b_core _ (i_base _ I)) as K. eexists _, _. split; [by apply (del_cache_ent_run s k a c)|].
    assert (forall j, j <> None -> lent_at c j = None) as H by (intros [j|] ?; [by apply empty_lents|done]).
    split; [by apply (purges_removed s l k a c None); auto|].
    rewrite removed_list, (filter_owner s a c None (b_core _ (i_base _ I)) Ha H). by rewrite Hl.
Qed.

Lemma list_at_run l e pre post' : l ∉ pre.*1 -> list_at l (pre ++ (l, e) :: post') = Some (e, fst <$> hd_error post').
Proof.
  induction pre as [|[l' e'] pre IH]; simpl; intros N; [by rewrite decide_True|].
  apply not_elem_of_cons in N as [N1 N2]. rewrite decide_False by done. by apply IH.
Qed.

Lemma unlist_middle l e pre post' : NoDup (pre ++ (l, e) :: post').*1 ->
  unlist (Some l) (pre ++ (l, e) :: post') = pre ++ post'.
Proof.
  intros ND. rewrite fmap_app in ND. simpl in ND. apply NoDup_app in ND as (_ & N1 & N2). apply NoDup_cons in N2 as [N2 _].
  simpl. rewrite filter_app, filter_cons, decide_False by (simpl; tauto). rewrite !filter_all; [done| |].
  - intros [l' e'] H E. simpl in E. subst. apply N2. apply list_elem_of_fmap. by exists (l, e').
  - intros [l' e'] H E. simpl in E. subst. apply (N1 l); [|left]. apply list_elem_of_fmap. by exists (l, e').
Qed.

(** The walk: it never meets a freed list entry; afterwards the cache size is
    small enough, or it has come to the end, and then [done] holds of all that is
    left. *)
Lemma walk_post (go : Z -> bool) (work : rr_lent_t -> M unit) (finished : cache -> nat * rr_lent_t -> Prop) :
  (forall s l e, Inv s -> (l, e) ∈ rrset_l s -> is_local s (l, e) = false ->
     post (work e) s (fun _ s' => purges l s s' /\ (forall e', (l, e') ∈ rrset_l s' -> finished s' (l, e')))) ->
  (forall s s' l e', purges l s s' -> e' ∈ rrset_l s' -> finished s e' -> finished s' e') ->
  (forall s e, is_local s e = true -> finished s e) ->
  forall fuel s pre suf, Inv s -> rrset_l s = pre ++ suf -> (length suf <= fuel)%nat -> Forall (finished s) pre ->
  post (walk fuel go work (fst <$> hd_error suf)) s (fun _ s' => Inv s' /\ kept s s' /\ foreign s s' /\ shrinks s s' /\
    (go (cache_size s') = false \/ Forall (finished s') (rrset_l s'))).
Proof.
  intros Hw Hf Hl. induction fuel as [|fuel IH]; intros s pre [|[l e] suf] I E Len F; simpl in Len; try lia; cbn [walk hd_error fmap option_fmap option_map].
  1, 2: pstep; split; [done|]; split; [done|]; split; [done|]; split; [done|]; right; by rewrite E, app_nil_r.
  pose proof (b_core _ (i_base _ I)) as K. pose proof (k_nodup _ _ K) as ND. rewrite E in ND.
  assert ((l, e) ∈ rrset_l s) as He by (rewrite E; apply elem_of_app; right; left).
  assert (l ∉ pre.*1) as Nl.
  { rewrite fmap_app in ND. apply NoDup_app in ND as (_ & N & _). intros H. apply (N l H). left. }
  simpl. pstep. pstep. destruct (go (cache_size s)) eqn:G; simpl; [|pstep; split; [done|]; split; [done|]; split; [done|]; split; [done|]; by left].
  rewrite E at 1. rewrite list_at_run by done. pstep.
  eexists _, _. split; [by apply lent_local_run|]. pstep. destruct (is_local s (l, e)) eqn:L.
  - pstep. apply (IH s (pre ++ [(l, e)])); [done|by rewrite E, <- app_assoc|lia|]. apply Forall_app. split; [done|]. constructor; auto.
  - eapply post_mono; [by apply Hw|]. intros _ s' [P F']. pose proof (p_kept _ _ _ P) as Kp. pose proof (p_foreign _ _ _ P) as Fo. pose proof (p_shrinks _ _ _ P) as Sh.
    eapply (post_mono _ _ (fun _ s2 => Inv s2 /\ kept s' s2 /\ foreign s' s2 /\ shrinks s' s2 /\
      (go (cache_size s2) = false \/ Forall (finished s2) (rrset_l s2))));
      [|intros [] s2 (? & ? & ? & ? & G2); split; [done|]; split; [by etrans|]; split; [by etrans|]; split; [by etrans|exact G2]].
    assert ((forall x, x ∈ pre -> x ∈ rrset_l s') -> Forall (finished s') pre) as Fp.
    { intros Sub. rewrite Forall_forall in F |- *. intros e' H'. eapply Hf; [exact P|auto..]. }
    destruct (p_list _ _ _ P) as [E'|E'].
    + apply (IH s' (pre ++ [(l, e)])); [apply P|by rewrite E', E, <- app_assoc|lia|]. apply Forall_app. split.
      * apply Fp. intros x Hx. rewrite E', E. apply elem_of_app. by left.
      * constructor; [|done]. apply F'. by rewrite E'.
    + rewrite E, unlist_middle in E' by done. apply (IH s' pre); [apply P|done|lia|].
      apply Fp. intros x Hx. rewrite E'. apply elem_of_app. by left.
Qed.

Lemma walk_list_post go work finished :
  (forall s l e, Inv s -> (l, e) ∈ rrset_l s -> is_local s (l, e) = false ->
     post (work e) s (fun _ s' => purges l s s' /\ (forall e', (l, e') ∈ rrset_l s' -> finished s' (l, e')))) ->
  (forall s s' l e', purges l s s' -> e' ∈ rrset_l s' -> finished s e' -> finished s' e') ->
  (forall s e, is_local s e = true -> finished s e) ->
  forall s, Inv s -> post (walk_list go work) s (fun _ s' => Inv s' /\ kept s s' /\ foreign s s' /\ shrinks s s' /\
    (go (cache_size s') = false \/ Forall (finished s') (rrset_l s'))).
Proof.
  intros Hw Hf Hl s I. unfold walk_list. pstep. pstep. by apply (walk_post go work finished Hw Hf Hl _ s []).
Qed.

(** ** Sorting the list *)

(** The list can be sorted now, and after [n] more addresses: there is no need to, or its
    length is below the 2^32 entries that the merge sort can take. *)
Definition sortable (n : nat) (s : cache) : Prop := insert_sort s = true \/ Z.of_nat (fresh s + n) < 2 ^ 32.

Lemma post_costs {A} n (m : M A) s Q : costs n m -> post m s Q ->
  post m s (fun r s' => Q r s' /\ forall n', sortable (n + n') s -> sortable n' s').
Proof.
  intros H (r & s' & E & HQ). exists r, s'. split; [done|]. split; [done|]. destruct (H s r s' E) as (L & S & _).
  intros n' [E'|E']; [left; auto|right; lia].
Qed.

Lemma sortable_le n n' s : (n' <= n)%nat -> sortable n s -> sortable n' s.
Proof. intros L [E|E]; [by left|right; lia]. Qed.

Lemma list_length s : Core s -> (length (rrset_l s) <= fresh s)%nat.
Proof.
  intros K. rewrite <- (length_fmap fst (rrset_l s)), <- (length_seq (fresh s) 0).
  apply NoDup_incl_length; [apply NoDup_ListNoDup, (k_nodup _ _ K)|]. intros l Hl%list_elem_of_In.
  apply list_elem_of_fmap in Hl as (e & -> & He). apply in_seq. pose proof (k_fresh_l _ _ K e He). lia.
Qed.

(** The list in another order. *)
Lemma inv_perm s L b : Inv s -> Permutation L (rrset_l s) -> Inv (set_sort b (set_list L s)).
Proof.
  intros [[K O N] Li Z] P. constructor; [constructor; try done|..]; try done.
  eapply core_ext; [..|by apply (core_perm abi s L K P)]; done.
Qed.

(** [purge_cache] brings the cache down to the size, or leaves only local records in
    the list. *)
Lemma purge_cache_post s sz lazy : Inv s -> sortable 0 s ->
  post (purge_cache abi now sz lazy) s (fun _ s' => Inv s' /\ kept s s' /\ foreign s s' /\ shrinks s s' /\
    (cache_size s' <= sz \/ Forall (fun e => is_local s' e = true) (rrset_l s'))).
Proof.
  intros I So. unfold purge_cache. pstep.
  eapply post_mono; [eapply post_costs; [apply calm_walk_list|apply (walk_list_post _ _ (fun _ _ => True)); try done]|].
  { apply calm_timed_out. }
  { intros s1 l e I1 He NL. eapply post_mono; [by apply purge_timed_out_post|]. auto. }
  intros _ s1 [(I1 & K1 & F1 & S1 & _) So1]. specialize (So1 0%nat So). pstep. pstep.
  destruct (Z.leb_spec (cache_size s1) sz); [pstep; by auto 10|]. pstep.
  eapply (post_mono _ _ (fun _ s2 => Inv s2 /\ kept s1 s2 /\ foreign s1 s2 /\ shrinks s1 s2)).
  { destruct (insert_sort s1) eqn:Is; [by pstep|]. destruct So1 as [?|So1]; [congruence|]. pstep.
    pose proof (b_core _ (i_base _ I1)) as Kc. pose proof (list_length s1 Kc) as Len.
    eapply post_mono; [apply (sort_list_post abi s1 Kc); lia|]. intros _ s2 (L & -> & P). pstep.
    split; [by apply inv_perm|]. split; [by apply kept_ext|]. split; [by apply foreign_ext|by apply shrinks_ext]. }
  intros _ s2 (I2 & K2 & F2 & S2).
  eapply post_mono; [apply (walk_list_post _ _ (fun s e => is_local s e = true)); try done|].
  - intros s3 l e I3 He NL. eapply post_mono; [by apply purge_any_post|]. intros _ s4 [P E]. split; [done|].
    intros e'. rewrite E, unlist_elem. naive_solver.
  - intros s3 s4 l e' P He H'. by rewrite (p_local _ _ _ P).
  - intros _ s3 (I3 & K3 & F3 & S3 & G). split; [done|]. split; [etrans; [exact K1|by etrans]|].
    split; [etrans; [exact F1|by etrans]|]. split; [etrans; [exact S1|by etrans]|]. destruct G as [G|F]; [left|by right].
    apply Z.ltb_ge in G. lia.
Qed.

(** What it means that only local entries are in the list: whatever is left of a
    cached entry is local. *)
Lemma only_local s k a c : Inv s -> Forall (fun e => is_local s e = true) (rrset_l s) ->
  hash s !! k = Some a -> cents s !! a = Some c ->
  (forall i r, RRARR_INDEX c i = Some r -> local c r = true) /\ (negative c = true -> has (flags c) DF_LOCAL = true).
Proof.
  intros [[K _ _] L _] F Hk Ha. rewrite Forall_forall in F. specialize (L k a c Hk Ha). split.
  - intros i r Hr. destruct (lent r) as [l|] eqn:El; [|by eapply al_set].
    assert ((l, Lent a (Some i)) ∈ rrset_l s) as He.
    { apply (k_list _ _ K). exists c. split; [done|]. by rewrite lent_at_slot, Hr. }
    specialize (F _ He). unfold is_local in F. simpl in F. by rewrite Ha, Hr in F.
  - intros N. rewrite (co_tag _ _ (k_cents _ _ K _ _ Ha)) in N. destruct (body c) as [[l|] tl t|] eqn:B; [| |done].
    + assert ((l, Lent a None) ∈ rrset_l s) as He.
      { apply (k_list _ _ K). exists c. split; [done|]. unfold lent_at. by rewrite B. }
      specialize (F _ He). unfold is_local in F. simpl in F. by rewrite Ha in F.
    + by eapply al_neg.
Qed.

(** ** Purging one entry *)

Notation expired := (expired now).

(** Same name and, but for [DF_NEGATIVE] and [DF_AUTH], the same flags. *)
Record akin (c c' : dns_cent_t) : Prop := {
  ak_name : qname c' = qname c;
  ak_flags : forall b, Z.land DF_NEGATIVE b = 0 -> Z.land DF_AUTH b = 0 -> has (flags c') b = has (flags c) b;
}.

(** Only entry [a] changed, and the size of the cache. *)
Record near (a : nat) (s s' : cache) : Prop := {
  n_hash : hash s' = hash s;
  n_other : forall b, b <> a -> cents s' !! b = cents s !! b;
}.

Lemma near_trans a s1 s2 s3 : near a s1 s2 -> near a s2 s3 -> near a s1 s3.
Proof. intros [] []. constructor; [congruence|]. intros b N. rewrite n_other1, n_other0; done. Qed.

Lemma akin_trans c1 c2 c3 : akin c1 c2 -> akin c2 c3 -> akin c1 c3.
Proof. intros [] []. constructor; [congruence|]. intros b H1 H2. rewrite ak_flags1, ak_flags0; done. Qed.

Lemma akin_like c c' : like c c' -> akin c c'.
Proof. intros []. by constructor. Qed.

(** What purging leaves of a slot: sets that are timed out go, but for those that are local
    or marked to be kept. *)
Definition live (o : option rr_set_t) : option rr_set_t := r ← o; if expired r then None else Some r.

Definition in_range (i n j : nat) : bool := (i <=? j)%nat && (j <? i + n)%nat.

Definition purged (i n : nat) (c c' : dns_cent_t) : Prop :=
  forall j, RRARR_INDEX c' j = if in_range i n j then live (RRARR_INDEX c j) else RRARR_INDEX c j.

(** What the loop has counted in slots [i] to [i+n-1]. *)
Record counted (i n : nat) (c : dns_cent_t) (rv nr ne : Z) : Prop := {
  ct_rv : 0 <= rv /\ (rv = 0 -> forall j r, in_range i n j = true -> RRARR_INDEX c j = Some r -> expired r = false);
  ct_nr : 0 <= nr /\ (nr = 0 -> forall j r, in_range i n j = true -> RRARR_INDEX c j = Some r -> expired r = true);
  ct_ne : 0 <= ne /\ (ne = 0 -> forall j r, in_range i n j = true -> (NRRMU <= j)%nat -> RRARR_INDEX c j = Some r -> expired r = true);
  ct_none : (forall j r, in_range i n j = true -> RRARR_INDEX c j = Some r -> expired r = true) -> nr = 0;
}.

Lemma in_range_S i n j : in_range i (S n) j = bool_decide (j = i) || in_range (S i) n j.
Proof.
  unfold in_range. apply Bool.eq_iff_eq_true.
  rewrite orb_true_iff, !andb_true_iff, !Nat.leb_le, !Nat.ltb_lt, bool_decide_eq_true. lia.
Qed.

Lemma in_range_self i n : in_range (S i) n i = false.
Proof. unfold in_range. by rewrite (proj2 (Nat.leb_gt (S i) i)) by lia. Qed.

Lemma counted_step i n c rv nr ne rv' nr' ne' :
  counted (S i) n c rv nr ne -> rv <= rv' -> nr <= nr' -> ne <= ne' ->
  (forall r, RRARR_INDEX c i = Some r ->
     if expired r then rv < rv' else nr < nr' /\ ((NRRMU <= i)%nat -> ne < ne')) ->
  ((forall r, RRARR_INDEX c i = Some r -> expired r = true) -> nr' = nr) -> counted i (S n) c rv' nr' ne'.
Proof.
  intros [[A1 B1] [A2 B2] [A3 B3] C4] L1 L2 L3 H H4.
  assert (forall j, in_range i (S n) j = true -> j = i \/ in_range (S i) n j = true) as R.
  { intros j. rewrite in_range_S. intros [?%bool_decide_eq_true|?]%orb_true_iff; auto. }
  constructor; [split; [lia|]..|].
  - intros Z j r [->|Rj]%R Hj; [|eapply B1; eauto; lia]. specialize (H r Hj). destruct (expired r); [lia|done].
  - intros Z j r [->|Rj]%R Hj; [|eapply B2; eauto; lia]. specialize (H r Hj). destruct (expired r); [done|lia].
  - intros Z j r [->|Rj]%R Hm Hj; [|eapply B3; eauto; lia]. specialize (H r Hj). destruct (expired r); [done|].
    destruct H as [_ H]. specialize (H Hm). lia.
  - intros X. rewrite H4; [apply C4; intros j r Rj|intros r]; apply X; rewrite in_range_S; [by rewrite Rj, orb_true_r|].
    by rewrite bool_decide_true.
Qed.

Lemma counted_ext i n c c' rv nr ne : (forall j, in_range i n j = true -> RRARR_INDEX c' j = RRARR_INDEX c j) ->
  counted i n c' rv nr ne -> counted i n c rv nr ne.
Proof.
  intros E [[A1 B1] [A2 B2] [A3 B3] C4].
  constructor; [(split; [done|])..|].
  - intros Z j r Rj Hj. eapply B1; eauto. by rewrite E.
  - intros Z j r Rj Hj. eapply B2; eauto. by rewrite E.
  - intros Z j r Rj Hm Hj. eapply B3; eauto. by rewrite E.
  - intros X. apply C4. intros j r Rj. rewrite E by done. by apply X.
Qed.

Lemma purge_slots_post n : forall i s k a c test, Inv s -> hash s !! k = Some a -> cents s !! a = Some c ->
  post (purge_slots abi now n i a test) s (fun '(rv, nr, ne) s' => counted i n c rv nr ne /\
    if test then s' = s else Inv s' /\ near a s s' /\
      exists c', cents s' !! a = Some c' /\ like c c' /\ negative c' = negative c /\ length (arr c') = length (arr c) /\ purged i n c c').
Proof.
  induction n as [|n IH]; intros i s k a c test I Hk Ha; cbn [purge_slots].
  { assert (forall j, in_range i 0 j = false) as R.
    { intros j. unfold in_range. destruct (Nat.leb_spec i j), (Nat.ltb_spec j (i + 0)); try done; lia. }
    pstep. split; [|destruct test; [done|]].
    - constructor; [split; [done|]; intros _ j r Rj; by rewrite R in Rj..|done].
    - split; [done|]. split; [done|]. exists c. repeat split; try done. intros j. by rewrite R. }
  pstep. eapply post_load; [done|]. destruct (RRARR_INDEX c i) as [r|] eqn:Hr.
  2: { eapply post_mono; [by eapply IH|]. intros [[rv nr] ne] s' [C H]. split.
       - eapply counted_step; [exact C|lia..| |done]. intros r' Hr'. congruence.
       - destruct test; [done|]. destruct H as (I' & N' & c' & ? & ? & ? & ? & P). split; [done|]. split; [done|].
         exists c'. repeat split; try done; try apply H0. intros j. rewrite P, in_range_S. case_bool_decide; [|done]. subst j.
         by rewrite in_range_self, Hr. }
  pose proof (proj1 (index_arr c i r) Hr) as Hx. destruct (expired r) eqn:X.
  - destruct test.
    + pstep. pstep. pstep. eapply post_mono; [by eapply IH|]. intros [[rv nr] ne] s' [C ->]. pstep. split; [|done].
      eapply counted_step; [exact C|lia..| |done]. intros r' Hr'. rewrite Hr in Hr'. simplify_eq. rewrite X. lia.
    + pstep. eexists _, _. split; [by apply (purge_set_run s k a c i r)|]. pstep.
      set (s1 := after_purge a i r c s). assert (cents s1 !! a = Some (dropped abi i r c)) as Ha1 by (simpl; apply lookup_insert_eq).
      assert (Inv s1) as I1 by (by eapply purge_inv).
      eapply post_mono; [by eapply (IH (S i) s1 k a)|]. intros [[rv nr] ne] s' [C (I' & N' & c' & Hc' & Lk & Ng & Ln & P)].
      assert (forall j, RRARR_INDEX (dropped abi i r c) j = if decide (j = i) then None else RRARR_INDEX c j) as D.
      { intros j. unfold dropped. apply index_put. by rewrite Hx. }
      pstep. split; [|split; [done|split; [|exists c']]].
      * eapply (counted_step _ _ _ rv nr ne); [|lia..| |done].
        -- eapply counted_ext; [|exact C]. intros j Rj. rewrite D, decide_False; [done|]. intros ->. by rewrite in_range_self in Rj.
        -- intros r' Hr'. rewrite Hr in Hr'. simplify_eq. rewrite X. lia.
      * eapply near_trans; [|exact N']. constructor; [done|]. intros b Nb. simpl. by rewrite lookup_insert_ne.
      * split; [done|]. split; [|split; [|split]].
        -- etrans; [|exact Lk]. apply like_put. intros b _ H. by apply has_without.
        -- rewrite Ng. by apply has_without.
        -- rewrite Ln. unfold dropped, arr at 1; simpl. apply length_insert.
        -- intros j. rewrite P, in_range_S, D. case_bool_decide as E; [subst j|].
           ++ rewrite in_range_self, decide_True by done. simpl. rewrite Hr. simpl. by rewrite X.
           ++ by rewrite decide_False.
  - pstep. eapply post_mono; [by eapply (IH (S i) s k a)|]. intros [[rv nr] ne] s' [C H]. pstep. split.
    + eapply counted_step; [exact C|lia|lia|destruct (NRRMU <=? i)%nat; lia| |].
      * intros r' Hr'. rewrite Hr in Hr'. simplify_eq. rewrite X.
        split; [lia|]. intros M. rewrite (proj2 (Nat.leb_le NRRMU i) M). lia.
      * intros Sp. by rewrite (Sp r Hr) in X.
    + destruct test; [done|]. destruct H as (I' & N' & c' & Hc' & Lk & Ng & Ln & P). split; [done|]. split; [done|].
      exists c'. repeat split; try done; try apply Lk. intros j. rewrite P, in_range_S. case_bool_decide; [|done]. subst j.
      rewrite in_range_self, Hr. simpl. by rewrite X.
Qed.

(** An entry changes its size, and the cache size follows. *)
Lemma inv_resize s k a c c' z : Inv s -> hash s !! k = Some a -> cents s !! a = Some c -> cent_ok c' -> like c c' ->
  z = cs c' - cs c -> (forall i, lent_at c' i = lent_at c i) -> (all_listed c -> all_listed c') ->
  Inv (set_size (cache_size s + z) (set_cents (<[a := c']> (cents s)) s)).
Proof.
  intros [B L Z] Hk Ha Ok Lk Ez El Hal. pose proof (b_core _ B) as K.
  pose proof (core_store _ _ _ _ _ K Ha Ok (lk_name _ _ Lk) El) as K'. pose proof (touches_store a s c c' Ha Lk) as T.
  destruct (base_touch _ _ k a B K' T Hk) as [_ O2 N2]. constructor; [constructor; try done|..].
  - by eapply core_ext; [..|exact K'].
  - intros k' b d Hk' Hb. eapply (listed_touch s _ a L T); [|exact Hk'|exact Hb]. simpl. intros d' Hd'.
    rewrite lookup_insert_eq in Hd'. simplify_eq. apply Hal. exact (L _ _ _ Hk Ha).
  - simpl. rewrite Z. change (total (set_size _ ?x)) with (total x).
    rewrite (total_touch s _ k a c c' K T Hk Ha); [lia|]. simpl. apply lookup_insert_eq.
Qed.

Lemma no_sets x : (forall j r, x !! j <> Some (Some r)) -> nsets x = 0 /\ sets_size abi x = 0.
Proof.
  induction x as [|y x IH]; intros H; [done|]. destruct y as [y|]; [by destruct (H 0%nat y)|].
  simpl. destruct IH as [-> ->]; [|done]. intros j r. apply (H (S j)).
Qed.

Definition truncated (c : dns_cent_t) : dns_cent_t :=
  with_cs (cs c - ext_size abi) (with_body (RR (take NRRMU (arr c))) c).

Lemma truncated_facts c : cent_ok c -> (NRRMU < length (arr c))%nat -> (forall j r, (NRRMU <= j)%nat -> RRARR_INDEX c j <> Some r) ->
  cent_ok (truncated c) /\ (forall j, RRARR_INDEX (truncated c) j = RRARR_INDEX c j) /\
  (forall i, lent_at (truncated c) i = lent_at c i) /\ (all_listed c -> all_listed (truncated c)).
Proof.
  intros [Tag Len Num Cs Nm] L8 H.
  assert (body c = RR (arr c)) as B by (unfold arr in *; destruct (body c); [simpl in L8; lia|done]).
  destruct (no_sets (drop NRRMU (arr c))) as [Z1 Z2].
  { intros j r Hj. rewrite lookup_drop in Hj. apply (H (NRRMU + j)%nat r); [lia|]. by apply index_arr. }
  assert (forall j, RRARR_INDEX (truncated c) j = RRARR_INDEX c j) as Ix.
  { intros j. unfold RRARR_INDEX, truncated, arr at 1; simpl. destruct (decide (j < NRRMU)%nat) as [Lj|Lj].
    - by rewrite lookup_take_lt.
    - rewrite lookup_take_ge by lia. destruct (arr c !! j) as [[r|]|] eqn:E; [|done|done]. exfalso. apply (H j r); [lia|]. by apply index_arr. }
  assert (forall i, lent_at (truncated c) i = lent_at c i) as Lt.
  { intros [i|]; [by rewrite !lent_at_slot, Ix|]. unfold lent_at; simpl. by rewrite B. }
  split; [|split; [done|split; [done|]]].
  - rewrite <- (take_drop NRRMU (arr c)) in Num. rewrite nsets_app, Z1 in Num.
    constructor; [| | | |done].
    + change (negative c = false). by rewrite Tag, B.
    + left. change (length (take NRRMU (arr c)) = NRRMU). rewrite length_take. lia.
    + change (num_rrs c = nsets (take NRRMU (arr c))). lia.
    + change (cs c - ext_size abi = sizeof_cent abi + zlen (qname c) + sets_size abi (take NRRMU (arr c)) +
        (if (NRRMU <? length (take NRRMU (arr c)))%nat then ext_size abi else 0)).
      rewrite Cs. unfold cent_size. rewrite <- (take_drop NRRMU (arr c)) at 1. rewrite sets_size_app, Z2, length_take.
      rewrite (proj2 (Nat.ltb_lt _ _) L8), (proj2 (Nat.ltb_ge _ _)) by lia. lia.
  - intros [A1 A2]. constructor; [|done]. intros i r Hi Hl. rewrite Ix in Hi. exact (A1 i r Hi Hl).
Qed.

Lemma purge_all_post s k a c test : Inv s -> hash s !! k = Some a -> cents s !! a = Some c ->
  post (purge_all_rrsets abi now a test) s (fun '(rv, nr) s' =>
    (0 <= rv /\ (rv = 0 -> forall j r, RRARR_INDEX c j = Some r -> expired r = false)) /\
    (nr = 0 <-> forall j r, RRARR_INDEX c j = Some r -> expired r = true) /\
    if test then s' = s else Inv s' /\ near a s s' /\
      exists c', cents s' !! a = Some c' /\ like c c' /\ negative c' = negative c /\ (forall j, RRARR_INDEX c' j = live (RRARR_INDEX c j)) /\
        (negative c = true -> c' = c)).
Proof.
  intros I Hk Ha. pose proof (b_core _ (i_base _ I)) as K. pose proof (k_cents _ _ K _ _ Ha) as Ok.
  unfold purge_all_rrsets. pstep. eapply post_load; [done|]. destruct (negative c) eqn:Ng.
  - assert (forall j, RRARR_INDEX c j = None) as N.
    { intros j. rewrite (co_tag _ _ Ok) in Ng. unfold RRARR_INDEX, arr. by destruct (body c). }
    pstep. split; [|split].
    + split; [done|]. intros _ j r. by rewrite N.
    + split; [|done]. intros _ j r. by rewrite N.
    + destruct test; [done|]. split; [done|]. split; [done|]. exists c. repeat split; try done. intros j. by rewrite N.
  - rewrite (rrarr_len abi) by done. pstep. eapply post_mono; [by eapply (purge_slots_post _ 0 s k a c test)|].
    intros [[rv nr] ne] s1 [C H]. destruct C as [[A1 B1] [A2 B2] [A3 B3] C4].
    assert (forall j r, RRARR_INDEX c j = Some r -> in_range 0 (length (arr c)) j = true) as R.
    { intros j r Hj%index_arr. unfold in_range. simpl. apply Nat.ltb_lt. by eapply lookup_lt_Some. }
    assert (0 <= rv /\ (rv = 0 -> forall j r, RRARR_INDEX c j = Some r -> expired r = false)) as G1 by (split; [done|]; intros; eauto).
    assert (nr = 0 <-> forall j r, RRARR_INDEX c j = Some r -> expired r = true) as G2 by (split; [intros; eauto|intros X; apply C4; eauto]).
    destruct test.
    { subst s1. pstep. eapply post_load; [done|]. pstep; [pstep; pstep|]; pstep; (split; [|done]); [|done].
      split; [lia|]. intros. lia. }
    destruct H as (I1 & N1 & c1 & Ha1 & Lk & Ng1 & Ln1 & P1).
    assert (forall j, RRARR_INDEX c1 j = live (RRARR_INDEX c j)) as P.
    { intros j. rewrite P1. destruct (RRARR_INDEX c j) as [r|] eqn:E; [by rewrite (R j r E)|by case_match]. }
    pstep. eapply post_load; [done|]. pstep.
    + apply andb_true_iff in E as [E1%Nat.ltb_lt E2%Z.eqb_eq]. pose proof (b_core _ (i_base _ I1)) as K1.
      destruct (truncated_facts c1) as (Ok2 & Ix2 & Lt2 & Al2); [eapply k_cents; eauto|done| |].
      { intros j r M Hj. rewrite P in Hj. destruct (RRARR_INDEX c j) as [r'|] eqn:Ej; [|done]. simpl in Hj.
        rewrite (B3 E2 j r' (R j r' Ej) M Ej) in Hj. done. }
      pstep. pstep. pstep. apply post_modify. pstep. split; [|split; [done|]].
      { split; [lia|]. intros. lia. }
      split; [|split].
      * apply (inv_resize s1 k a c1 (truncated c1)); try done; [by rewrite (n_hash _ _ _ N1)|simpl; lia].
      * eapply near_trans; [exact N1|]. constructor; [done|]. intros b Nb. simpl. by rewrite lookup_insert_ne.
      * exists (truncated c1). simpl. rewrite lookup_insert_eq. split; [done|]. split; [by etrans; [exact Lk|]|].
        split; [exact (eq_trans Ng1 Ng)|]. split; [|done]. intros j. by rewrite Ix2, P.
    + pstep. split; [done|]. split; [done|]. split; [done|]. split; [done|]. exists c1.
      split; [done|]. split; [done|]. split; [exact (eq_trans Ng1 Ng)|done].
Qed.

End Inv.
