(* ===== verification/PdnsdCacheOps.v ===== *)
(** * The operations of the DNS cache keep its invariant

    On the invariant of [PdnsdCacheInv]: what purging one entry, adding, changing
    and looking up entries do, on every branch. *)

From S2P Require Import Prelude.
From S2P Require Import PdnsdNames.
From S2P Require Import PdnsdCompress.
From S2P Require Import PdnsdHash.
From S2P Require Import PdnsdSort.
From S2P Require Import PdnsdCent.
From S2P Require Import PdnsdCache.
From S2P Require Import PdnsdCentInv.
From S2P Require Import PdnsdCacheInv.

Open Scope Z_scope.

(** ** Names *)

Lemma drop_label l ls : drop (length l) (l ++ wire ls) = wire ls.
Proof. by rewrite drop_app_length. Qed.

Lemma label_length l : valid_label l -> b2n (n2b (length l)) = length l /\ (length l =? 0)%nat = false.
Proof. intros [? ?]. rewrite b2n_n2b by lia. split; [done|]. apply Nat.eqb_neq. lia. Qed.

Lemma rhnsegcnt_wire ls : Forall valid_label ls -> rhnsegcnt (wire ls) = Some (length ls).
Proof.
  unfold rhnsegcnt. intros V. assert (length (wire ls) < S (length (wire ls)))%nat as F by lia. revert F.
  generalize (S (length (wire ls))) as fuel.
  induction V as [|l ls V1 V2 IH]; intros [|fuel] F; [lia|done|lia|].
  rewrite length_wire_cons in F. rewrite wire_cons. cbn [rhnsegcnt_loop]. destruct (label_length l V1) as [-> ->].
  rewrite drop_label, IH by lia. done.
Qed.

Lemma skipsegs_wire ls k : Forall valid_label ls -> skipsegs (wire ls) k = Some (wire (drop k ls)).
Proof.
  intros V. revert k. induction V as [|l ls V1 V2 IH]; intros [|k]; try done.
  rewrite wire_cons. cbn [skipsegs]. destruct (label_length l V1) as [-> ->]. by rewrite drop_label, IH.
Qed.

Section Ops.

Variable abi : sizes.
Variable global : globals.
Variable now : Z.

Notation Core := (Core abi).
Notation Inv := (Inv abi).
Notation cent_ok := (cent_ok abi).
Notation expired := (expired now).
Notation live := (live now).

(** What every operation does that takes nothing local away and adds nothing. *)
Record fine (s s' : cache) : Prop := {
  fi_inv : Inv s';
  fi_kept : kept s s';
  fi_foreign : foreign s s';
  fi_shrinks : shrinks s s';
}.

Lemma fine_refl s : Inv s -> fine s s.
Proof. intros I. by constructor. Qed.

Lemma fine_trans s1 s2 s3 : fine s1 s2 -> fine s2 s3 -> fine s1 s3.
Proof. intros [] []. constructor; [done|by etrans..]. Qed.

Lemma fine_ext s s' : Inv s' -> hash s' = hash s -> cents s' = cents s -> fine s s'.
Proof. intros I Eh Ec. constructor; [done|by apply kept_ext|by apply foreign_ext|by apply shrinks_ext]. Qed.

(** ** Purging one entry *)

Lemma stale_ref_post s c cref i : Core s -> cent_ok c -> post (stale_ref now c cref i) s (fun _ s' => s' = s).
Proof.
  intros K Ok. destruct (co_name _ _ Ok) as (A & [V _] & Nm). unfold stale_ref. pstep. pstep.
  rewrite Nm, rhnsegcnt_wire by done. pstep. eapply (post_mono _ _ (fun _ s' => s' = s)); [|intros r s' ->; by pstep].
  case_match; [by pstep|]. case_match; [|by pstep]. rewrite skipsegs_wire by done. unfold dns_lookup.
  destruct (hash s !! _) as [a|] eqn:Hk; [|by pstep]. destruct (cached _ s _ a K Hk) as (c' & Ha & _).
  pstep. eapply post_load; [done|]. by pstep.
Qed.

Lemma purge_all_negative s a c test : cents s !! a = Some c -> negative c = true ->
  purge_all_rrsets abi now a test s = Some ((0, 0), s).
Proof. intros Ha N. unfold purge_all_rrsets, load, mbind, M_bind. rewrite Ha. simpl. by rewrite N. Qed.

(** Nothing of the entry has to be purged: each of its sets is local, marked to be kept or
    not timed out; if it is negative it is local or not timed out. *)
Record all_live (c : dns_cent_t) : Prop := {
  al_sets : forall j r, RRARR_INDEX c j = Some r -> expired r = false;
  al_dom : negative c = true -> has (flags c) DF_LOCAL || negb (timedout_nxdom now c) = true;
}.

(** Every record set of the entry has to be purged. *)
Definition spent (c : dns_cent_t) : Prop := forall j r, RRARR_INDEX c j = Some r -> expired r = true.

(** The whole entry has to be purged: it has no set to be kept and, if it is negative, is
    timed out and not local. *)
Definition dead (c : dns_cent_t) : Prop :=
  spent c /\ (negative c = true -> has (flags c) DF_LOCAL || negb (timedout_nxdom now c) = false).

(** Whether [purge_cent] keeps the entry. *)
Lemma stays c numrrs : (negative c = true -> numrrs = 0) ->
  (numrrs =? 0) && (negb (negative c) || (negb (has (flags c) DF_LOCAL) && timedout_nxdom now c)) = false ->
  negative c = true -> has (flags c) DF_LOCAL || negb (timedout_nxdom now c) = true.
Proof.
  intros H E N. rewrite (H N), N in E. simpl in E. destruct (has _ _), (timedout_nxdom _ _); done.
Qed.

Lemma stays_alive c numrrs : (negative c = true -> numrrs = 0) -> (numrrs = 0 <-> spent c) ->
  (numrrs =? 0) && (negb (negative c) || (negb (has (flags c) DF_LOCAL) && timedout_nxdom now c)) = false -> ~ dead c.
Proof.
  intros H S E [->%S D]. simpl in E. destruct (negative c); [|done]. specialize (D eq_refl).
  destruct (has _ _), (timedout_nxdom _ _); done.
Qed.

Lemma goes_dead c numrrs : (numrrs = 0 <-> spent c) ->
  (numrrs =? 0) && (negb (negative c) || (negb (has (flags c) DF_LOCAL) && timedout_nxdom now c)) = true -> dead c.
Proof.
  intros S [Z%Z.eqb_eq%S E]%andb_true_iff. split; [done|]. intros N. rewrite N in E. destruct (has _ _), (timedout_nxdom _ _); done.
Qed.

(** Changes that [inv_store] allows, and that matter to nobody. *)
Record indifferent (c c' : dns_cent_t) : Prop := {
  in_name : qname c' = qname c;
  in_cs : cs c' = cs c;
  in_num : num_rrs c' = num_rrs c;
  in_flags : flags c' = flags c;
  in_body : body c' = body c;
}.

Lemma indifferent_index c c' j : indifferent c c' -> RRARR_INDEX c' j = RRARR_INDEX c j.
Proof. intros [_ _ _ _ B]. unfold RRARR_INDEX, arr. by rewrite B. Qed.

Lemma indifferent_ok c c' : indifferent c c' -> cent_ok c -> cent_ok c'.
Proof.
  intros [Nm Cs Num Fl B] [T L N C Q]. assert (arr c' = arr c) as A by (unfold arr; by rewrite B).
  constructor; [by unfold negative; rewrite Fl, B|by rewrite B|by rewrite A, Num| |by rewrite Nm].
  unfold cent_size. by rewrite A, Nm, Cs.
Qed.

Lemma indifferent_listed c c' : indifferent c c' -> all_listed c -> all_listed c'.
Proof.
  intros H [L1 L2]. constructor.
  - intros i r. rewrite (indifferent_index c c' i H). unfold local. rewrite (in_flags _ _ H). apply L1.
  - intros tl t. rewrite (in_body _ _ H), (in_flags _ _ H). apply L2.
Qed.

Lemma store_indifferent s k a c c' : Inv s -> hash s !! k = Some a -> cents s !! a = Some c -> indifferent c c' ->
  Inv (set_cents (<[a := c']> (cents s)) s) /\ near a s (set_cents (<[a := c']> (cents s)) s).
Proof.
  intros I Hk Ha H. split.
  - apply (inv_store abi s k a c); try done; try apply H; [|intros i|by apply indifferent_listed].
    + apply (indifferent_ok c); [done|]. eapply k_cents; [apply I|done].
    + unfold lent_at. by rewrite (in_body _ _ H).
  - constructor; [done|]. intros b N. simpl. by rewrite lookup_insert_ne.
Qed.

(** One of the references. *)
Lemma purge_ref_post s k a c test ref i clear np : Inv s -> hash s !! k = Some a -> cents s !! a = Some c -> 0 <= np ->
  (forall c, indifferent c (clear c)) ->
  post (purge_ref now a test ref i clear np) s (fun rv s' => np <= rv /\
    if test then s' = s else Inv s' /\ near a s s' /\ exists c', cents s' !! a = Some c' /\ indifferent c c').
Proof.
  intros I Hk Ha Np Cl. assert (indifferent c c) as Rf by done.
  assert (forall n, np <= n -> np <= n /\ if test then s = s else Inv s /\ near a s s /\ exists c', cents s !! a = Some c' /\ indifferent c c') as Same.
  { intros n L. split; [done|]. destruct test; [done|]. split; [done|]. split; [done|]. by exists c. }
  pose proof (b_core _ _ (i_base _ _ I)) as K. unfold purge_ref. pstep. eapply post_load; [done|].
  destruct (ref c =? cundef); [pstep; by apply Same|]. pstep. eapply post_mono; [apply stale_ref_post; [done|by eapply k_cents]|].
  intros [] s' ->; simpl; [|pstep; by apply Same]. pstep. destruct test; [pstep; pstep; by split; [lia|]|].
  pstep. pstep. destruct (store_indifferent s k a c (clear c) I Hk Ha (Cl c)) as [I' N']. split; [lia|]. split; [done|].
  split; [done|]. exists (clear c). simpl. by rewrite lookup_insert_eq.
Qed.

Lemma kept_live s s' a c c' : near a s s' -> cents s !! a = Some c -> cents s' !! a = Some c' ->
  (forall j, RRARR_INDEX c' j = live (RRARR_INDEX c j)) -> kept s s'.
Proof.
  intros N Ha Ha' H. apply (kept_store s s' a); [apply N|apply N|]. intros d Hd. simplify_eq. exists c'. split; [done|].
  apply keeps_local_sub. intros i r Hr L. rewrite H, Hr. simpl. unfold PdnsdCache.expired. by rewrite L, orb_true_r.
Qed.

Lemma shrinks_live s s' a c c' : near a s s' -> cents s !! a = Some c -> cents s' !! a = Some c' ->
  (forall j, RRARR_INDEX c' j = live (RRARR_INDEX c j)) -> shrinks s s'.
Proof.
  intros N Ha Ha' H. apply (shrinks_store s s' a); [apply N|apply N|]. intros d i r Hd Hr. simplify_eq. exists c, r.
  split; [done|]. rewrite H in Hr. destruct (RRARR_INDEX c i) as [r0|]; [|done]. simpl in Hr. case_match; [done|]. by simplify_eq.
Qed.

Lemma foreign_near s s' k a : hash s !! k = Some a -> near a s s' -> foreign s s'.
Proof. intros Hk N. by apply (foreign_store s s' k a); [|apply N..]. Qed.

(** The entry as [purge_cent] leaves it, with [delete] or without. *)
Record purged_to (delete : bool) (c c' : dns_cent_t) : Prop := {
  pt_akin : akin c c';
  pt_neg : negative c' = negative c;
  pt_index : forall j, RRARR_INDEX c' j = live (RRARR_INDEX c j);
  pt_dom : delete = true -> negative c' = true -> has (flags c') DF_LOCAL || negb (timedout_nxdom now c') = true;
  pt_body : negative c = true -> body c' = body c;
  pt_alive : delete = true -> ~ dead c;
}.

Lemma purged_to_indifferent delete c c1 c2 : purged_to delete c c1 -> indifferent c1 c2 -> purged_to delete c c2.
Proof.
  intros [[A1 A2] Ng P D B Al] In. constructor.
  - constructor; [by rewrite (in_name _ _ In)|]. intros b. rewrite (in_flags _ _ In). apply A2.
  - rewrite <- Ng. unfold negative. by rewrite (in_flags _ _ In).
  - intros j. by rewrite (indifferent_index _ _ j In).
  - unfold negative, timedout_nxdom in *. rewrite (in_flags _ _ In), (in_body _ _ In). exact D.
  - by rewrite (in_body _ _ In).
  - done.
Qed.

Lemma purge_all_cases s k a c test : Inv s -> hash s !! k = Some a -> cents s !! a = Some c ->
  post (purge_all_rrsets abi now a test) s (fun '(rv, nr) s' => 0 <= rv /\ (negative c = true -> nr = 0) /\
    (rv = 0 -> forall j r, RRARR_INDEX c j = Some r -> expired r = false) /\
    (nr = 0 <-> spent c) /\
    if test then s' = s else Inv s' /\ near a s s' /\
      exists c', cents s' !! a = Some c' /\ akin c c' /\ negative c' = negative c /\ (forall j, RRARR_INDEX c' j = live (RRARR_INDEX c j)) /\
        (negative c = true -> c' = c)).
Proof.
  intros I Hk Ha. destruct (negative c) eqn:Ng.
  - eexists _, _. split; [by apply (purge_all_negative s a c)|]. assert (forall j, RRARR_INDEX c j = None) as N.
    { intros j. rewrite (co_tag _ _ (k_cents _ _ (b_core _ _ (i_base _ _ I)) _ _ Ha)) in Ng. unfold RRARR_INDEX, arr. by destruct (body c). }
    split; [done|]. split; [done|]. split; [intros _ j r; by rewrite N|]. split; [by split; [intros _ j r; rewrite N|]|].
    destruct test; [done|]. split; [done|]. split; [done|]. exists c. repeat split; try done. intros j. by rewrite N.
  - eapply post_mono; [by apply (purge_all_post abi now s k a c test)|]. intros [rv nr] s' ([R1 R2] & R3 & H).
    split; [done|]. split; [done|]. split; [done|]. split; [done|]. destruct test; [done|].
    destruct H as (I' & N' & c' & Ha' & Lk & Ng' & P & _). split; [done|]. split; [done|]. exists c'.
    split; [done|]. split; [by apply akin_like|]. split; [congruence|done].
Qed.

Lemma purge_cent_test s k a c delete : Inv s -> hash s !! k = Some a -> cents s !! a = Some c ->
  post (purge_cent abi now a delete true) s (fun rv s' => s' = s /\ (rv = 0 -> delete = true -> all_live c /\ ~ dead c)).
Proof.
  intros I Hk Ha. unfold purge_cent. pstep. eapply post_mono; [by apply (purge_all_cases s k a c true)|].
  intros [rv nr] s' (R0 & R1 & R2 & R3 & ->). pstep. eapply post_load; [done|].
  destruct (delete && _ && _) eqn:D; [pstep; pstep; pstep; done|].
  assert (rv = 0 -> delete = true -> all_live c /\ ~ dead c) as G.
  { intros E ->. split; [constructor; [by apply R2|]; by apply (stays c nr)|]. by apply (stays_alive c nr). }
  destruct (has (flags c) DF_LOCAL); [by pstep|]. pstep.
  eapply post_mono; [by apply (purge_ref_post s k a c true)|]. intros n s' [L1 ->].
  eapply post_mono; [apply (purge_ref_post s k a c true); try done; lia|]. intros n' s' [L2 ->]. split; [done|].
  intros -> ->. apply G; [lia|done].
Qed.


Lemma fine_removed s k a c : Inv s -> hash s !! k = Some a -> cents s !! a = Some c ->
  (forall i r, RRARR_INDEX c i = Some r -> has (rflags r) CF_LOCAL = false) -> fine s (removed k a c s).
Proof.
  intros I Hk Ha H. constructor; [by apply removed_inv|apply (kept_removed abi); try done; apply I|by apply foreign_removed|].
  apply shrinks_removed.
Qed.

(** Under the write lock: the entry is removed and holds no local records, or what
    is left of it is alive. *)
Lemma purge_cent_post s k a c delete : Inv s -> hash s !! k = Some a -> cents s !! a = Some c ->
  post (purge_cent abi now a delete false) s (fun rv s' => fine s s' /\
    ((delete = true /\ rv = -1 /\ hash s' = base.delete k (hash s) /\ dead c) \/
     (0 <= rv /\ near a s s' /\ exists c', cents s' !! a = Some c' /\ purged_to delete c c'))).
Proof.
  intros I Hk Ha. unfold purge_cent. pstep. eapply post_mono; [by apply (purge_all_cases s k a c false)|].
  intros [rv nr] s1 (R0 & R1 & R2 & R3 & I1 & N1 & c1 & Ha1 & Ak & Ng & P & Same). pstep. eapply post_load; [done|].
  assert (hash s1 !! k = Some a) as Hk1 by (by rewrite (n_hash _ _ _ N1)).
  assert (fine s s1) as F1 by (constructor; eauto using kept_live, foreign_near, shrinks_live).
  assert ((nr =? 0) && (negb (negative c1) || (negb (has (flags c1) DF_LOCAL) && timedout_nxdom now c1)) =
    (nr =? 0) && (negb (negative c) || (negb (has (flags c) DF_LOCAL) && timedout_nxdom now c))) as Dom.
  { rewrite Ng. destruct (negative c); [by rewrite Same|done]. }
  destruct (delete && _ && _) eqn:D.
  - pstep. eexists _, _. split; [by apply (del_cache_ent_run abi s1 k a c1); [apply I1|..]|]. pstep.
    rewrite <- andb_assoc, Dom in D. apply andb_true_iff in D as [-> Dd%(goes_dead c nr R3)]. split.
    + apply (fine_trans _ _ _ F1), fine_removed; try done. intros i r. rewrite P.
      destruct (RRARR_INDEX c i) as [r'|] eqn:Hr; [|done]. simpl. by rewrite (proj1 Dd i r' Hr).
    + left. split; [done|]. split; [done|]. split; [simpl; by rewrite (n_hash _ _ _ N1)|done].
  - rewrite <- andb_assoc in D. assert (purged_to delete c c1) as Pt.
    { constructor; [done..| | |].
      - intros ->. apply (stays c1 nr); [by rewrite Ng|done].
      - intros N. by rewrite Same.
      - intros ->. rewrite Dom in D. by apply (stays_alive c nr). }
    destruct (has (flags c1) DF_LOCAL).
    { pstep. split; [done|]. right. eauto. }
    pstep. eapply post_mono; [by apply (purge_ref_post s1 k a c1 false)|]. intros n s2 (L2 & I2 & N2 & c2 & Ha2 & In2).
    assert (hash s2 !! k = Some a) as Hk2 by (by rewrite (n_hash _ _ _ N2)).
    eapply post_mono; [apply (purge_ref_post s2 k a c2 false); try done; lia|]. intros n' s3 (L3 & I3 & N3 & c3 & Ha3 & In3).
    pose proof (near_trans _ _ _ _ (near_trans _ _ _ _ N1 N2) N3) as N.
    pose proof (purged_to_indifferent _ _ _ _ (purged_to_indifferent _ _ _ _ Pt In2) In3) as Pt3.
    pose proof (pt_index _ _ _ Pt3) as P3. split; [constructor; eauto using kept_live, foreign_near, shrinks_live|].
    right. split; [lia|]. eauto.
Qed.

(** ** Looking up *)

Definition first_len (ls : list (list byte)) : nat := match ls with [] => 0%nat | l :: _ => length l end.

Lemma label_len_run ls s : Forall valid_label ls -> label_len (wire ls) s = Some (first_len ls, s).
Proof.
  intros V. destruct V as [|l ls V1 V2]; [done|]. rewrite wire_cons. unfold label_len, mret, M_ret. simpl.
  by rewrite (proj1 (label_length l V1)).
Qed.

Lemma drop_first l ls : drop (length l + 1) (wire (l :: ls)) = wire ls.
Proof. rewrite wire_cons, Nat.add_comm. simpl. apply drop_label. Qed.

Lemma wire_fuel ls : Forall valid_label ls -> (length ls <= length (wire ls))%nat.
Proof. intros V. pose proof (length_enc_labels_ge ls V). rewrite length_wire. lia. Qed.

(** The entry that answers for the names below [ls], or none: the nearest ancestor
    with an entry decides. *)
Fixpoint nearest (s : cache) (ls : list (list byte)) : option nat * wild_t :=
  match ls with
  | [] => (None, WNone)
  | l :: ls' =>
    match hash s !! lower (wire ls) with
    | None => nearest s ls'
    | Some ce =>
      match cents s !! ce with
      | None => (None, WNone)
      | Some c =>
        if has (flags c) DF_NEGATIVE then (Some ce, WNeg) else
        if has (flags c) DF_WILD then
          match hash s !! lower (wire ([x2a] :: ls)) with Some w => (Some w, WWild) | None => (None, WNone) end
        else if has (flags c) DF_LOCAL then (Some ce, WLocnerr)
        else (None, WNone)
      end
    end
  end.

Definition find_spec (s : cache) (A : list (list byte)) (wild : bool) : option nat * wild_t :=
  match hash s !! lower (wire A) with
  | Some ce => (Some ce, WNone)
  | None => if wild then nearest s (tl A) else (None, WNone)
  end.

Lemma wild_loop_run s : Core s -> forall ls l fuel, Forall valid_label (l :: ls) -> (length (l :: ls) <= fuel)%nat ->
  wild_loop fuel (wire (l :: ls)) (length l) s = Some (nearest s ls, s).
Proof.
  intros K. induction ls as [|l' ls IH]; intros l [|fuel] V F; try (simpl in F; lia); cbn [wild_loop].
  all: rewrite drop_first; inversion V as [|? ? V1 V2]; subst; unfold mbind, M_bind; rewrite (label_len_run _ s V2); cbn [first_len].
  { done. }
  inversion V2 as [|? ? V3 V4]; subst. rewrite (proj2 (label_length l' V3)). unfold get, dns_lookup. cbn [nearest].
  destruct (hash s !! lower (wire (l' :: ls))) as [a|] eqn:Hk; [|apply IH; [done|simpl in *; lia]].
  destruct (cached abi s _ a K Hk) as (c & Ha & _). unfold load. rewrite Ha. cbn [mbind option_bind].
  rewrite (wire_cons [x2a]). change (n2b (length [x2a])) with x01. cbn [app].
  repeat (case_match; try done).
Qed.

Lemma find_cent_run s A wild : Core s -> valid_name A -> find_cent (wire A) wild s = Some (find_spec s A wild, s).
Proof.
  intros K [V _]. unfold find_cent, find_spec, dns_lookup, get, mbind, M_bind.
  destruct (hash s !! lower (wire A)); [done|]. destruct wild; [|done]. simpl.
  rewrite (label_len_run A s V). destruct V as [|l ls V1 V2]; [done|]. cbn [first_len].
  rewrite (proj2 (label_length l V1)). apply wild_loop_run; [done|by constructor|]. apply wire_fuel. by constructor.
Qed.

(** The entry found is in the cache. *)
Lemma nearest_cached s ls a w : nearest s ls = (Some a, w) -> exists k, hash s !! k = Some a.
Proof.
  induction ls as [|l ls IH]; cbn [nearest]; [done|]. destruct (hash s !! lower (wire (l :: ls))) as [b|] eqn:Hk; [|done].
  repeat (case_match; try done); intros [= <- <-]; eauto.
Qed.

Lemma find_cached s A wild a w : find_spec s A wild = (Some a, w) -> exists k, hash s !! k = Some a.
Proof.
  unfold find_spec. destruct (hash s !! _) as [b|] eqn:Hk; [intros [= <- <-]; eauto|].
  destruct wild; [apply nearest_cached|done].
Qed.

(** A new entry of a caller. *)
Lemma fresh_free s : Core s -> cents s !! fresh s = None.
Proof. intros K. destruct (cents s !! fresh s) eqn:E; [|done]. apply (k_fresh_c _ _ K) in E. lia. Qed.

Lemma fresh_unhashed s k : Core s -> hash s !! k <> Some (fresh s).
Proof. intros K (c & Hc & _)%(k_hash _ _ K). by rewrite fresh_free in Hc. Qed.

Lemma inv_same s s' : cents s' = cents s -> hash s' = hash s -> rrset_l s' = rrset_l s -> cache_size s' = cache_size s ->
  ent_num s' = ent_num s -> fresh s' = fresh s -> Inv s -> Inv s'.
Proof.
  intros Ec Eh El Ez En Ef [[K O N] L Z]. constructor; [constructor|..].
  - eapply core_ext; eauto. lia.
  - intros a c i l. rewrite Ec, Eh. apply O.
  - by rewrite En, Eh.
  - intros k a c. rewrite Ec, Eh. apply L.
  - unfold total. by rewrite Ez, Ec, Eh.
Qed.

Lemma inv_mallocs m s : Inv s -> Inv (set_mallocs m s).
Proof. by apply inv_same. Qed.

Lemma inv_with_new c m s : Inv s -> cent_ok c -> (forall i, lent_at c i = None) -> Inv (with_new c m s).
Proof.
  intros [[K O N] L Z] Ok Nl. constructor; [constructor; try done|..].
  - by apply core_with_new.
  - intros b d i l. simpl. intros [[<- <-]|[? ?]]%lookup_insert_Some Hl; [by rewrite Nl in Hl|by eapply O].
  - intros k b d. simpl. intros Hk [[<- <-]|[? ?]]%lookup_insert_Some; [by apply fresh_unhashed in Hk|by eapply L].
  - simpl. rewrite Z. unfold total; simpl. symmetry. apply sum_ext. intros k b Hb. unfold cs_at.
    rewrite lookup_insert_ne; [done|]. intros <-. by apply (fresh_unhashed s k K).
Qed.

Lemma fine_with_new c m s : Inv s -> cent_ok c -> (forall i, lent_at c i = None) -> fine s (with_new c m s).
Proof.
  intros I Ok Nl. pose proof (b_core _ _ (i_base _ _ I)) as K.
  assert (forall b d, cents s !! b = Some d -> cents (with_new c m s) !! b = Some d) as Old.
  { intros b d Hb. simpl. rewrite lookup_insert_ne; [done|]. intros <-. by rewrite fresh_free in Hb. }
  constructor; [by apply inv_with_new|..].
  - intros k d i r (b & Hk & Hb)%view_some Hr L. exists d, r. split; [|done]. apply view_some. eauto.
  - intros b d Hb N. eauto.
  - intros k d i r (b & Hk & Hb)%view_some Hr. exists d, r. split; [|done]. apply view_some. exists b. split; [done|].
    simpl in Hk, Hb. rewrite lookup_insert_ne in Hb; [done|]. intros <-. by apply (fresh_unhashed s k K).
Qed.

Lemma live_copy c : all_live c -> all_live (copy_of c).
Proof.
  intros [A B]. constructor.
  - intros j r. rewrite copy_of_index. destruct (RRARR_INDEX c j) as [r'|] eqn:Hr; [|done]. intros [= <-]. by apply (A j r').
  - intros N. specialize (B N). unfold timedout_nxdom, copy_of in *; simpl. by destruct (body c).
Qed.

Lemma live_purged c c' : purged_to true c c' -> all_live c'.
Proof.
  intros [Ak _ P D _ _]. constructor; [|by apply D]. intros j r. rewrite P. destruct (RRARR_INDEX c j) as [r'|]; [|done]. simpl.
  destruct (expired r') eqn:E; [done|]. by intros [= <-].
Qed.

(** What a caller gets: a copy of its own, of an entry found for the name, without the sets
    that have to be purged. *)
Record served (A : list (list byte)) (wild : bool) (s s' : cache) (b : nat) (w : wild_t) : Prop := {
  sv_found : exists a c c', find_spec s A wild = (Some a, w) /\ cents s !! a = Some c /\ qname c' = qname c /\ negative c' = negative c /\
    has (flags c') DF_LOCAL = has (flags c) DF_LOCAL /\ (forall j, RRARR_INDEX c' j = relent None <$> live (RRARR_INDEX c j)) /\
    cents s' !! b = Some c' /\ all_live c' /\ (forall i, lent_at c' i = None);
  sv_own : forall k, hash s' !! k <> Some b;
  sv_other : forall b0 c0, cents s !! b0 = Some c0 -> (forall k, hash s !! k <> Some b0) -> b0 <> b;
}.

Lemma live_id c j : all_live c -> live (RRARR_INDEX c j) = RRARR_INDEX c j.
Proof. intros [H _]. destruct (RRARR_INDEX c j) as [r|] eqn:Hr; [|done]. simpl. by rewrite (H j r Hr). Qed.

Lemma lookup_cache_r_post s A wild : Inv s -> valid_name A ->
  post (lookup_cache_r abi now (wire A) wild) s (fun res s' => fine s s' /\ hash s' = hash s /\
    match res with
    | None => s' = s
    | Some (None, w) => w = (find_spec s A wild).2
    | Some (Some b, w) => served A wild s s' b w
    end).
Proof.
  intros I V. pose proof (b_core _ _ (i_base _ _ I)) as K. unfold lookup_cache_r. pstep.
  eexists _, _. split; [by apply find_cent_run|]. destruct (find_spec s A wild) as [[a|] w] eqn:F.
  2: { pstep. split; [by apply fine_refl|done]. }
  destruct (find_cached _ _ _ _ _ F) as [k Hk]. destruct (cached _ s k a K Hk) as (c & Ha & _ & Ok). pstep.
  eapply post_mono; [by apply (purge_cent_test s k a c true)|]. intros rv s' [-> Lv].
  destruct (Z.eqb_spec rv 0) as [E|E]; simpl; [|pstep; split; [by apply fine_refl|done]]. destruct (Lv E eq_refl) as [Lv' _]. pstep.
  eapply post_mono; [by apply (copy_cent_post abi s a c)|]. intros res s' (m & [[-> ->]|[-> ->]]); pstep.
  - split; [by apply fine_ext; [apply inv_mallocs|..]|done].
  - split; [apply fine_with_new; [done|by apply copy_of_ok|apply copy_of_lent]|]. split; [done|]. split; [|intros k'; simpl; by apply fresh_unhashed|intros b0 c0 Hb0 _ ->; apply (k_fresh_c _ _ K) in Hb0; lia].
    exists a, c, (copy_of c). rewrite F. simpl. rewrite lookup_insert_eq. split; [done|]. split; [done|]. split; [done|]. split; [done|]. split; [done|].
    split; [intros j; rewrite copy_of_index; by rewrite live_id|]. split; [done|]. split; [by apply live_copy|apply copy_of_lent].
Qed.

Lemma lookup_cache_rw_post s A wild : Inv s -> valid_name A ->
  post (lookup_cache_rw abi now (wire A) wild) s (fun '(res, w) s' => fine s s' /\
    match res with
    | None => w = (find_spec s A wild).2
    | Some b => served A wild s s' b w
    end).
Proof.
  intros I V. pose proof (b_core _ _ (i_base _ _ I)) as K. unfold lookup_cache_rw. pstep.
  eexists _, _. split; [by apply find_cent_run|]. destruct (find_spec s A wild) as [[a|] w] eqn:F.
  2: { pstep. split; [by apply fine_refl|done]. }
  destruct (find_cached _ _ _ _ _ F) as [k Hk]. destruct (cached _ s k a K Hk) as (c & Ha & _ & Ok). pstep.
  eapply post_mono; [by apply (purge_cent_post s k a c true)|].
  intros rv s1 (F1 & [(_ & -> & _)|(Np & N1 & c1 & Ha1 & Pt)]); [by simpl; pstep|].
  rewrite (proj2 (Z.ltb_ge _ _) Np). pose proof (b_core _ _ (i_base _ _ (fi_inv _ _ F1))) as K1. pstep.
  eapply post_mono; [by apply (copy_cent_post abi s1 a c1)|]. intros res s' (m & [[-> ->]|[-> ->]]); pstep.
  - split; [apply (fine_trans _ _ _ F1), fine_ext; [apply inv_mallocs, F1|done..]|done].
  - split; [apply (fine_trans _ _ _ F1), fine_with_new; [apply F1|by apply copy_of_ok; eapply k_cents|apply copy_of_lent]|].
    split; [|intros k'; simpl; by apply fresh_unhashed|].
    2: { intros b0 c0 Hb0 Nb0 ->. destruct (fi_foreign _ _ F1 _ _ Hb0 Nb0) as [Hb1 _]. apply (k_fresh_c _ _ K1) in Hb1. lia. }
    exists a, c, (copy_of c1). rewrite F. simpl. rewrite lookup_insert_eq. split; [done|]. split; [done|]. split; [apply Pt|].
    split; [apply (pt_neg _ _ _ Pt)|]. split; [by apply (pt_akin _ _ _ Pt)|].
    split; [intros j; rewrite copy_of_index; by rewrite (pt_index _ _ _ Pt)|]. split; [done|].
    split; [by apply live_copy, (live_purged c)|apply copy_of_lent].
Qed.

End Ops.
