(* ===== verification/PdnsdCacheAdd.v ===== *)
(** * Adding entries to the DNS cache

    What [add_cache] and the operations that change a cached entry in place do to the
    cache, on every branch: conflicts, refused replacements, exhausted memory. *)

From S2P Require Import Prelude.
From S2P Require Import PdnsdNames.
From S2P Require Import PdnsdCompress.
From S2P Require Import PdnsdHash.
From S2P Require Import PdnsdSort.
From S2P Require Import PdnsdCent.
From S2P Require Import PdnsdCache.
From S2P Require Import PdnsdCacheCost.
From S2P Require Import PdnsdCentInv.
From S2P Require Import PdnsdCacheInv.
From S2P Require Import PdnsdCacheOps.

Open Scope Z_scope.

Section Add.

Variable abi : sizes.
Variable global : globals.
Variable now : Z.

Notation Core := (Core abi).
Notation Inv := (Inv abi).
Notation cent_ok := (cent_ok abi).
Notation rrset_size := (rrset_size abi).
Notation fine := (fine abi).
Notation adjust_ttl := (adjust_ttl global).

(** ** Work on one entry *)

(** Entry [a] is worked on, and is [c'] now. *)
Record works (a : nat) (s s' : cache) (c' : dns_cent_t) : Prop := {
  w_core : Core s';
  w_touch : touches a s s';
  w_cent : cents s' !! a = Some c';
  w_listed : all_listed c';
}.

Lemma works_refl a s c : Core s -> cents s !! a = Some c -> all_listed c -> works a s s c.
Proof. intros K Ha L. by constructor. Qed.

Lemma works_trans a s1 s2 s3 c2 c3 : works a s1 s2 c2 -> works a s2 s3 c3 -> works a s1 s3 c3.
Proof. intros [] []. constructor; try done. by etrans. Qed.

Lemma works_mallocs a s m c : Core s -> cents s !! a = Some c -> all_listed c -> works a s (set_mallocs m s) c.
Proof. intros K Ha L. constructor; [by apply core_mallocs|apply touches_mallocs|done..]. Qed.

(** The record sets of [c'] were in [c]. *)
Definition subsets (c c' : dns_cent_t) : Prop := forall j r, RRARR_INDEX c' j = Some r -> RRARR_INDEX c j = Some r.

#[local] Instance subsets_trans : Transitive subsets.
Proof. intros c1 c2 c3 H1 H2 j r Hj. auto. Qed.

Lemma like_local c c' r : like c c' -> local c' r = local c r.
Proof. intros Lk. unfold local. by rewrite (lk_flags _ _ Lk). Qed.

Lemma touch_like a s s' c c' : touches a s s' -> cents s !! a = Some c -> cents s' !! a = Some c' -> like c c'.
Proof. intros T Ha Ha'. destruct (t_self _ _ _ T c Ha) as (d & ? & ?). by simplify_eq. Qed.

Lemma listed_sub c c' : like c c' -> subsets c c' -> body c' = RR (arr c') -> all_listed c -> all_listed c'.
Proof.
  intros Lk Sub B [A1 A2]. constructor; [|by rewrite B]. intros i r Hr Hl. rewrite (like_local c) by done. eauto.
Qed.

Lemma negative_index c i : cent_ok c -> negative c = true -> RRARR_INDEX c i = None.
Proof. intros Ok. rewrite (co_tag _ _ Ok). unfold RRARR_INDEX, arr. by destruct (body c). Qed.

Lemma positive_body c : cent_ok c -> negative c = false -> body c = RR (arr c).
Proof. intros Ok. rewrite (co_tag _ _ Ok). unfold arr. by destruct (body c). Qed.

Lemma index_body c i r : RRARR_INDEX c i = Some r -> body c = RR (arr c).
Proof. intros H%index_arr. by eapply arr_body. Qed.

Lemma del_works s a c i : Core s -> cents s !! a = Some c -> all_listed c ->
  post (del_cent_rrset_by_index abi a i) s (fun _ s' => exists c', works a s s' c' /\
    forall j, RRARR_INDEX c' j = if decide (j = i) then None else RRARR_INDEX c j).
Proof.
  intros K Ha L. pose proof (k_cents _ _ K _ _ Ha) as Ok. destruct (negative c) eqn:N.
  - pose proof (negative_index c i Ok N) as E. eexists _, _. split; [by apply (del_none_run abi s a c)|].
    exists c. split; [by apply works_refl|]. intros j. case_decide; by subst.
  - eapply post_mono; [by apply (del_set_post abi s a c i)|]. intros rv s' (K' & T & c' & Ha' & _ & N' & _ & P).
    exists c'. split; [|done]. constructor; try done. apply (listed_sub c); [by eapply touch_like| | |done].
    + intros j r. rewrite P. by case_decide.
    + apply positive_body; [by eapply k_cents|congruence].
Qed.

(** ** Conflicts *)

Lemma cr_remove_post rri n : forall i s a c, Core s -> cents s !! a = Some c -> all_listed c ->
  post (cr_remove abi rri n i a) s (fun _ s' => exists c', works a s s' c' /\ subsets c c' /\
    forall j r, RRARR_INDEX c j = Some r -> RRARR_INDEX c' j = Some r \/ conflicts rri j r = true).
Proof.
  induction n as [|n IH]; intros i s a c K Ha L; cbn [cr_remove].
  { pstep. exists c. split; [by apply works_refl|]. split; [by intros j r|auto]. }
  pstep. eapply post_load; [done|]. pstep.
  eapply (post_mono _ _ (fun _ s1 => exists c1, works a s s1 c1 /\ subsets c c1 /\
    forall j r, RRARR_INDEX c j = Some r -> RRARR_INDEX c1 j = Some r \/ conflicts rri j r = true)).
  - assert (post (mret tt) s (fun _ s1 => exists c1, works a s s1 c1 /\ subsets c c1 /\
      forall j r, RRARR_INDEX c j = Some r -> RRARR_INDEX c1 j = Some r \/ conflicts rri j r = true)) as Same.
    { pstep. exists c. split; [by apply works_refl|]. split; [by intros j r|auto]. }
    destruct (RRARR_INDEX c i) as [r|] eqn:Hr; [|done]. destruct (conflicts rri i r) eqn:Cf; [|done]. pstep.
    eapply post_mono; [by apply (del_works s a c i)|]. intros rv s1 (c1 & W1 & P1). pstep. exists c1. split; [done|]. split.
    + intros j r'. rewrite P1. by case_decide.
    + intros j r' Hj. rewrite P1. case_decide as D; [|by left]. subst j. right. congruence.
  - intros _ s1 (c1 & W1 & S1 & P1). eapply post_mono; [apply (IH (S i) s1 a c1); apply W1|].
    intros [] s2 (c2 & W2 & S2 & P2). exists c2. split; [by eapply works_trans|]. split; [by etrans|].
    intros j r Hj. destruct (P1 j r Hj) as [H1|]; [|by right]. by apply P2.
Qed.

Lemma cr_scan_local rri x : forall i p, cr_scan now rri i x = Some p ->
  forall j r, x !! j = Some (Some r) -> conflicts rri (i + j) r = true -> has (rflags r) CF_LOCAL = false.
Proof.
  induction x as [|[r0|] x IH]; intros i p E j r Hj Cf; [done|..]; cbn [cr_scan] in E.
  - destruct j as [|j]; simpl in Hj.
    + simplify_eq. rewrite Nat.add_0_r in Cf. rewrite Cf in E. by destruct (has (rflags r) CF_LOCAL).
    + rewrite <- Nat.add_succ_comm in Cf. destruct (conflicts rri i r0); [|by eapply IH].
      destruct (has (rflags r0) CF_LOCAL); [done|]. destruct (cr_scan now rri (S i) x) as [q|] eqn:E'; [|done]. by eapply IH.
  - destruct j as [|j]; simpl in Hj; [done|]. rewrite <- Nat.add_succ_comm in Cf. by eapply IH.
Qed.

Lemma rr_info_total i : (i < NRRTOT)%nat -> is_Some (rr_info !! i).
Proof. intros H. apply lookup_lt_is_Some. exact H. Qed.

Lemma cr_check_add_post s a c i tl t f : Core s -> cents s !! a = Some c -> all_listed c -> (i < NRRTOT)%nat ->
  post (cr_check_add abi now a i tl t f) s (fun ok s' => exists c', works a s s' c' /\ subsets c c' /\
    (has f CF_LOCAL = false -> keeps_local c c')).
Proof.
  intros K Ha L Hi. pose proof (k_cents _ _ K _ _ Ha) as Ok. unfold cr_check_add.
  assert (forall b : bool, post (mret b) s (fun _ s' => exists c', works a s s' c' /\ subsets c c' /\ (has f CF_LOCAL = false -> keeps_local c c'))) as Same.
  { intros b. pstep. exists c. split; [by apply works_refl|]. split; [by intros j r|done]. }
  destruct (has f CF_NEGATIVE); [by apply Same|]. destruct (rr_info_total i Hi) as [rri ->].
  pstep. eapply post_load; [done|].
  assert ((has f CF_LOCAL = false -> forall j r, RRARR_INDEX c j = Some r -> conflicts rri j r = true -> has (rflags r) CF_LOCAL = false) ->
    post (cr_remove abi rri (RRARR_LEN c) 0 a;; mret true) s (fun _ s' => exists c', works a s s' c' /\ subsets c c' /\
      (has f CF_LOCAL = false -> keeps_local c c'))) as Rm.
  { intros H. pstep. eapply post_mono; [by apply (cr_remove_post rri _ 0 s a c)|]. intros _ s' (c' & W & S & P). pstep.
    exists c'. split; [done|]. split; [done|]. intros Nf. apply keeps_local_sub. intros j r Hj Lr.
    destruct (P j r Hj) as [|Cf]; [done|]. by rewrite (H Nf j r Hj Cf) in Lr. }
  destruct (has f CF_LOCAL) eqn:Lf; [by apply Rm|]. destruct (has (flags c) DF_LOCAL); [by apply Same|].
  destruct (cr_scan now rri 0 _) as [[ncf nttl]|] eqn:Sc; [|by apply Same].
  destruct (ncf =? 0); [by apply Same|]. destruct (_ <? tl); [|by apply Same]. apply Rm. intros _ j r Hj Cf.
  destruct (negative c) eqn:N; [by rewrite negative_index in Hj|]. apply index_arr in Hj. by eapply (cr_scan_local rri _ 0).
Qed.

(** ** Adding one record set *)

Definition with_rrs (ds : list (list byte)) (r : rr_set_t) : rr_set_t := RRSet (lent r) (ttl r) (ts r) (rflags r) ds.

(** The position of the last record. *)
Definition tail_of (ds : list (list byte)) : option nat := match ds with [] => None | _ => Some (length ds - 1)%nat end.

Lemma tail_of_next ds d : match tail_of ds with Some n => S n | None => 0%nat end = length ds /\
  tail_of (ds ++ [d]) = Some (length ds).
Proof.
  split; [destruct ds; simpl; lia|]. unfold tail_of. destruct (ds ++ [d]) eqn:E; [by destruct ds|].
  rewrite <- E, length_app. simpl. f_equal. lia.
Qed.

Lemma grow_end r d : grow (length (rrs r)) d r = with_rrs (rrs r ++ [d]) r.
Proof. unfold grow, with_rrs. by rewrite firstn_all, drop_all. Qed.

Lemma add_rrs_post new i ds : (i < NRRTOT)%nat -> forall s a c r, Core s -> cents s !! a = Some c -> RRARR_INDEX c i = Some r ->
  post (add_rrs abi a i new ds (tail_of (rrs r))) s (fun ok s' => Core s' /\ touches a s s' /\
    exists c' ds', cents s' !! a = Some c' /\ (ok = true -> ds' = rrs r ++ ds) /\
      forall j, RRARR_INDEX c' j = if decide (j = i) then Some (with_rrs ds' r) else RRARR_INDEX c j).
Proof.
  intros Hi. induction ds as [|d ds IH]; intros s a c r K Ha Hr; cbn [add_rrs].
  - pstep. split; [done|]. split; [done|]. exists c, (rrs r). split; [done|]. split; [by rewrite app_nil_r|].
    intros j. case_decide; [|done]. subst j. rewrite Hr. by destruct r.
  - pstep. eapply post_mono; [apply (add_rr_int_post abi s a c i); [done..|by rewrite Hr]|].
    intros n s1 (K1 & T1 & c1 & Ha1 & _ & M1). destruct (tail_of_next (rrs r) d) as [E1 E2]. destruct n as [n|].
    + destruct M1 as [-> M1]. rewrite E1 in M1 |- *. rewrite Hr in M1. simpl in M1. rewrite grow_end in M1.
      rewrite <- E2. change (rrs r ++ [d]) with (rrs (with_rrs (rrs r ++ [d]) r)).
      eapply post_mono; [apply (IH s1 a c1); [done..|by rewrite M1, decide_True]|].
      intros ok s2 (K2 & T2 & c2 & ds' & Ha2 & E & M2). split; [done|]. split; [by etrans|]. exists c2, ds'. split; [done|]. split.
      * intros Eo. rewrite (E Eo). simpl. by rewrite <- app_assoc.
      * intros j. rewrite M2, M1. by case_decide.
    + pstep. split; [done|]. split; [done|]. exists c1, (rrs r). split; [done|]. split; [done|].
      intros j. rewrite M1. case_decide; [|done]. subst j. rewrite Hr. by destruct r.
Qed.

Lemma adjust_relent o r : adjust_ttl (relent o r) = relent o (adjust_ttl r).
Proof. unfold PdnsdCache.adjust_ttl, relent. simpl. by case_match. Qed.

Lemma adjust_size r : rrset_size (adjust_ttl r) = rrset_size r.
Proof. unfold PdnsdCache.adjust_ttl. by case_match. Qed.

Lemma adjust_local r : has (rflags (adjust_ttl r)) CF_LOCAL = has (rflags r) CF_LOCAL.
Proof. unfold PdnsdCache.adjust_ttl. case_match; [simpl; by apply has_without|done]. Qed.

(** A record set takes the place of one of the same size. *)
Lemma set_slot_works s a c i r r' : Core s -> cents s !! a = Some c -> RRARR_INDEX c i = Some r -> lent r' = lent r ->
  rrset_size r' = rrset_size r ->
  let c' := set_slot i (Some r') c in
  Core (set_cents (<[a := c']> (cents s)) s) /\ touches a s (set_cents (<[a := c']> (cents s)) s) /\
  forall j, RRARR_INDEX c' j = if decide (j = i) then Some r' else RRARR_INDEX c j.
Proof.
  intros K Ha Hr Hl Hs. apply (replace_ok abi s a c i r r'); [done..|].
  unfold put, set_slot, with_body. f_equal; lia.
Qed.

(** What becomes of slot [i] when [new] is added: nothing, or it is emptied, or it
    holds the new record set. *)
Definition outcome (old : option rr_set_t) (new : rr_set_t) (res : option rr_set_t) : Prop :=
  res = old \/ res = None \/ exists o, res = Some (relent o (adjust_ttl new)).

Lemma all_but i c c' : (forall j, j <> i -> RRARR_INDEX c' j = RRARR_INDEX c j) -> like c c' -> body c' = RR (arr c') ->
  all_listed c -> (forall r, RRARR_INDEX c' i = Some r -> lent r = None -> local c' r = true) -> all_listed c'.
Proof.
  intros H Lk B [A1 A2] Hi. constructor; [|by rewrite B]. intros j r Hr Hl. destruct (decide (j = i)) as [->|N]; [eauto|].
  rewrite H in Hr by done. rewrite (like_local c) by done. eauto.
Qed.

Definition listed_but (i : nat) (c : dns_cent_t) : Prop :=
  forall j r, j <> i -> RRARR_INDEX c j = Some r -> lent r = None -> local c r = true.

(** A set that could not be completed is removed. *)
Lemma undo_post s a c i : Core s -> cents s !! a = Some c -> body c = RR (arr c) -> listed_but i c ->
  post (del_cent_rrset_by_index abi a i) s (fun _ s' => exists c', works a s s' c' /\
    forall j, RRARR_INDEX c' j = if decide (j = i) then None else RRARR_INDEX c j).
Proof.
  intros K Ha B L. pose proof (k_cents _ _ K _ _ Ha) as Ok.
  eapply post_mono; [by apply (del_set_post abi s a c i)|]. intros rv s' (K' & T & c' & Ha' & _ & N' & _ & P).
  assert (body c' = RR (arr c')) as B'.
  { apply positive_body; [by eapply k_cents|]. by rewrite N', (co_tag _ _ Ok), B. }
  exists c'. split; [|done]. constructor; try done. constructor; [|by rewrite B']. intros j r. rewrite P. case_decide; [done|].
  intros Hr Hl. rewrite (like_local c) by (by eapply touch_like). eauto.
Qed.

(** ... and then the entry is as before. *)
Lemma undo_fill s s2 a c c2 i r2 new : cents s !! a = Some c -> all_listed c -> Core s2 -> touches a s s2 -> cents s2 !! a = Some c2 ->
  RRARR_INDEX c2 i = Some r2 -> (forall j, j <> i -> RRARR_INDEX c2 j = RRARR_INDEX c j) ->
  post (del_cent_rrset_by_index abi a i;; mret false) s2 (fun _ s' => exists c', works a s s' c' /\
    (forall j, j <> i -> RRARR_INDEX c' j = RRARR_INDEX c j) /\ outcome None new (RRARR_INDEX c' i)).
Proof.
  intros Ha L K2 T2 Ha2 Hr2 I2. pstep. pose proof (touch_like _ _ _ _ _ T2 Ha Ha2) as Lk2.
  eapply post_mono; [apply (undo_post s2 a c2 i); try done|].
  - by apply (index_body c2 i r2).
  - intros j r Nj. rewrite I2 by done. intros Hr Hl. rewrite (like_local c) by done. eapply al_set; eauto.
  - intros _ s3 (c3 & W3 & I3). pstep. exists c3. split; [|split].
    + destruct W3. constructor; try done. by etrans.
    + intros j Nj. by rewrite I3, decide_False, I2.
    + rewrite I3, decide_True by done. by left.
Qed.

Lemma fill_rrset_post s a c i new : Core s -> cents s !! a = Some c -> all_listed c -> RRARR_INDEX c i = None -> (i < NRRTOT)%nat ->
  post (fill_rrset abi global a i new) s (fun _ s' => exists c', works a s s' c' /\
    (forall j, j <> i -> RRARR_INDEX c' j = RRARR_INDEX c j) /\ outcome None new (RRARR_INDEX c' i)).
Proof.
  intros K Ha L Hn Hi. unfold fill_rrset. pstep. eapply post_mono; [by apply (add_set_post abi s a c i)|].
  intros ok s1 (K1 & T1 & c1 & Ha1 & B1 & I1). pose proof (touch_like _ _ _ _ _ T1 Ha Ha1) as Lk1. destruct ok; simpl.
  2: { pstep. assert (forall j, RRARR_INDEX c1 j = RRARR_INDEX c j) as E by (intros j; rewrite I1, decide_False by naive_solver; done).
       exists c1. split; [|split; [by intros|rewrite E; by left]]. constructor; try done. apply (listed_sub c); try done. intros j r. by rewrite E. }
  assert (forall j, j <> i -> RRARR_INDEX c1 j = RRARR_INDEX c j) as E1 by (intros j ?; rewrite I1, decide_False by naive_solver; done).
  assert (RRARR_INDEX c1 i = Some (RRSet None (ttl new) (ts new) (rflags new) [])) as Hr1 by (by rewrite I1, decide_True).
  pstep. eapply post_mono; [exact (add_rrs_post new i (rrs new) Hi s1 a c1 _ K1 Ha1 Hr1)|].
  intros ok s2 (K2 & T2 & c2 & ds & Ha2 & Ed & I2).
  assert (forall j, j <> i -> RRARR_INDEX c2 j = RRARR_INDEX c j) as E2 by (intros j Nj; by rewrite I2, decide_False, E1).
  destruct ok; simpl.
  2: { eapply (undo_fill s s2 a c c2 i); try done; [by etrans|by rewrite I2, decide_True]. }
  rewrite (Ed eq_refl) in I2. simpl in I2. pstep. eapply post_load; [done|].
  change (with_rrs (rrs new) _) with (relent None new) in I2. rewrite I2, decide_True by done. pstep. pstep.
  destruct (set_slot_works s2 a c2 i (relent None new) (adjust_ttl (relent None new))) as (K3 & T3 & I3); [done|done| | | |].
  { by rewrite I2, decide_True. }
  { by rewrite adjust_relent. }
  { apply adjust_size. }
  set (c3 := set_slot i _ c2) in *. set (s3 := set_cents _ _) in *. pstep.
  assert (cents s3 !! a = Some c3) as Ha3 by (simpl; apply lookup_insert_eq). rewrite adjust_relent in I3.
  eapply post_mono; [apply (insert_set_post abi s3 a c3 i (relent None (adjust_ttl new))); try done; by rewrite I3, decide_True|].
  intros ok s4 (K4 & T4 & c4 & o & Ha4 & _ & Lo & I4). change (relent o (relent None ?r)) with (relent o r) in I4.
  assert (touches a s s4) as T04 by (etrans; [exact T1|]; etrans; [exact T2|]; by etrans).
  assert (RRARR_INDEX c4 i = Some (relent o (adjust_ttl new))) as Hr4 by (by rewrite I4, decide_True).
  assert (forall j, j <> i -> RRARR_INDEX c4 j = RRARR_INDEX c j) as E4 by (intros j Nj; by rewrite I4, decide_False, I3, decide_False, E2).
  destruct ok; simpl; [|by eapply (undo_fill s s4 a c c4 i)].
  pstep. exists c4. pose proof (touch_like _ _ _ _ _ T04 Ha Ha4) as Lk4. split; [|split].
  - constructor; try done. apply (all_but i c); try done; [by eapply index_body|].
    intros r Hr Hl. rewrite Hr4 in Hr. simplify_eq. simpl in Hl. destruct (Lo eq_refl) as [H|]; [|done].
    rewrite (like_local c) by done. rewrite <- (like_local c c3); [done|].
    apply (touch_like a s s3); [|done..]. etrans; [exact T1|]. exact (transitivity T2 T3).
  - done.
  - rewrite Hr4. right. right. by exists o.
Qed.

Lemma keeps_local_rule old new : keeps now old new = false -> has (rflags new) CF_LOCAL = false -> has (rflags old) CF_LOCAL = false.
Proof. unfold keeps. intros H E. rewrite E in H. simpl in H. by apply orb_false_iff in H as [? _]. Qed.

Lemma add_rrset_post s a c i new : Core s -> cents s !! a = Some c -> all_listed c -> (i < NRRTOT)%nat ->
  post (add_rrset abi global now a i new) s (fun _ s' => exists c', works a s s' c' /\
    outcome (RRARR_INDEX c i) new (RRARR_INDEX c' i) /\
    (forall j r, j <> i -> RRARR_INDEX c' j = Some r -> RRARR_INDEX c j = Some r) /\
    (has (rflags new) CF_LOCAL = false -> keeps_local c c')).
Proof.
  intros K Ha L Hi. pose proof (k_cents _ _ K _ _ Ha) as Ok. unfold add_rrset. pstep. eapply post_load; [done|].
  rewrite (testext abi) by done. destruct (match RRARR_INDEX c i with Some old => keeps now old new | None => false end) eqn:Kp.
  { pstep. exists c. split; [by apply works_refl|]. split; [by left|]. split; [done|]. intros _. reflexivity. }
  assert (has (rflags new) CF_LOCAL = false -> forall r, RRARR_INDEX c i = Some r -> has (rflags r) CF_LOCAL = false) as Old.
  { intros Nl r Hr. rewrite Hr in Kp. by eapply keeps_local_rule. }
  pstep. eapply post_mono; [by apply (del_works s a c i)|]. intros rv s1 (c1 & W1 & I1). pstep.
  assert (has (rflags new) CF_LOCAL = false -> keeps_local c c1) as Kl1.
  { intros Nl. apply keeps_local_sub. intros j r Hr Lr. rewrite I1, decide_False; [done|]. intros ->. by rewrite (Old Nl r Hr) in Lr. }
  eapply post_mono; [apply (cr_check_add_post s1 a c1 i); try apply W1; done|]. intros ok s2 (c2 & W2 & S2 & Kl2).
  pose proof (works_trans _ _ _ _ _ _ W1 W2) as W02.
  assert (RRARR_INDEX c2 i = None) as N2.
  { destruct (RRARR_INDEX c2 i) as [r|] eqn:E; [|done]. apply S2 in E. by rewrite I1, decide_True in E. }
  assert (forall j r, j <> i -> RRARR_INDEX c2 j = Some r -> RRARR_INDEX c j = Some r) as Sub.
  { intros j r Nj Hr%S2. by rewrite I1, decide_False in Hr. }
  assert (has (rflags new) CF_LOCAL = false -> keeps_local c c2) as Kl by (intros Nl; etrans; auto).
  destruct ok; simpl; [|pstep; exists c2; split; [done|]; split; [right; by left|done]].
  eapply post_mono; [apply (fill_rrset_post s2 a c2 i new); try apply W2; done|]. intros _ s3 (c3 & W3 & E3 & O3).
  exists c3. split; [by eapply works_trans|]. split; [|split].
  - destruct O3 as [->|]; [right; by left|by right].
  - intros j r Nj. rewrite E3 by done. by apply Sub.
  - intros Nl. etrans; [by apply Kl|]. apply keeps_local_sub. intros j r Hr _. rewrite E3; [done|]. intros ->. congruence.
Qed.

(** Where the record sets of the entry come from. *)
Definition origin (x : list (option rr_set_t)) (i : nat) (c c' : dns_cent_t) : Prop :=
  forall j r, RRARR_INDEX c' j = Some r -> RRARR_INDEX c j = Some r \/
    exists m new o, j = (i + m)%nat /\ x !! m = Some (Some new) /\ r = relent o (adjust_ttl new).

Definition none_local (x : list (option rr_set_t)) : Prop := forall m r, x !! m = Some (Some r) -> has (rflags r) CF_LOCAL = false.

Lemma origin_cons y x i c c' : origin x (S i) c c' -> origin (y :: x) i c c'.
Proof.
  intros H j r Hr. destruct (H j r Hr) as [|(m & new & o & -> & Hm & ->)]; [by left|]. right. exists (S m), new, o.
  split; [lia|done].
Qed.

Lemma origin_trans x i c1 c2 c3 : origin x i c1 c2 -> origin x i c2 c3 -> origin x i c1 c3.
Proof. intros H1 H2 j r Hr. destruct (H2 j r Hr) as [Hr2|]; [by apply H1|by right]. Qed.

Lemma add_rrsets_post x : forall i s a c, Core s -> cents s !! a = Some c -> all_listed c -> (i + length x <= NRRTOT)%nat ->
  post (add_rrsets abi global now a i x) s (fun _ s' => exists c', works a s s' c' /\ origin x i c c' /\ (none_local x -> keeps_local c c')).
Proof.
  induction x as [|y x IH]; intros i s a c K Ha L Hi; cbn [add_rrsets].
  { pstep. exists c. split; [by apply works_refl|]. split; [by left|]. done. }
  simpl in Hi. assert (none_local (y :: x) -> none_local x) as Nx by (intros H m r Hm; apply (H (S m) r Hm)).
  destruct y as [new|].
  - pstep. eapply post_mono; [apply (add_rrset_post s a c i new); try done; lia|]. intros ok s1 (c1 & W1 & O1 & S1 & Kl1).
    assert (origin (Some new :: x) i c c1) as Or.
    { intros j r Hr. destruct (decide (j = i)) as [->|Nj]; [|left; by apply S1]. rewrite Hr in O1.
      destruct O1 as [|[|[o [= ->]]]]; [by left|done|]. right. exists 0%nat, new, o. split; [lia|done]. }
    assert (none_local (Some new :: x) -> keeps_local c c1) as Kl by (intros H; apply Kl1, (H 0%nat new); done).
    destruct ok; simpl; [|pstep; by exists c1].
    eapply post_mono; [apply (IH (S i) s1 a c1); try apply W1; lia|]. intros ok s2 (c2 & W2 & O2 & Kl2). exists c2.
    split; [by eapply works_trans|]. split; [by eapply origin_trans; [|apply origin_cons]|]. intros H. etrans; auto.
  - eapply post_mono; [apply (IH (S i) s a c); try done; lia|]. intros ok s2 (c2 & W2 & O2 & Kl2). exists c2.
    split; [done|]. split; [by apply origin_cons|auto].
Qed.

(** ** Adding an entry *)

(** Every record set in the cache was there before, or comes from the new entry [n],
    with its lifetime adjusted. *)
Definition grows (n : dns_cent_t) (s s' : cache) : Prop :=
  forall k c' i r', view s' k = Some c' -> RRARR_INDEX c' i = Some r' ->
  (exists c r, view s k = Some c /\ RRARR_INDEX c i = Some r /\ same_data r r') \/
  (k = lower (qname n) /\ exists new, RRARR_INDEX n i = Some new /\ same_data (adjust_ttl new) r').

Record added (n : dns_cent_t) (s s' : cache) : Prop := {
  ad_inv : Inv s';
  ad_foreign : foreign s s';
  ad_grows : grows n s s';
  ad_kept : none_local (arr n) -> kept s s';
}.

Lemma fine_added n s s' : fine s s' -> added n s s'.
Proof. intros [I K F S]. constructor; try done. intros k c i r Hc Hr. left. by apply (S k c). Qed.

Lemma fine_adds n s1 s2 s3 : fine s1 s2 -> added n s2 s3 -> added n s1 s3.
Proof.
  intros [I1 K1 F1 S1] [I2 F2 G2 K2]. constructor; [done|by etrans| |intros H; etrans; [done|by apply K2]].
  intros k c i r Hc Hr. destruct (G2 k c i r Hc Hr) as [(c' & r' & Hc' & Hr' & Sd)|]; [|by right]. left.
  destruct (S1 k c' i r' Hc' Hr') as (c0 & r0 & ? & ? & Sd'). exists c0, r0. split; [done|]. split; [done|by etrans].
Qed.

Lemma adds_fine n s1 s2 s3 : added n s1 s2 -> fine s2 s3 -> added n s1 s3.
Proof.
  intros [I1 F1 G1 K1] [I2 K2 F2 S2]. constructor; [done|by etrans| |intros H; etrans; [by apply K1|done]].
  intros k c i r Hc Hr. destruct (S2 k c i r Hc Hr) as (c' & r' & Hc' & Hr' & Sd).
  destruct (G1 k c' i r' Hc' Hr') as [(c0 & r0 & ? & ? & Sd')|(-> & new & Hn & Sd')].
  - left. exists c0, r0. split; [done|]. split; [done|by etrans].
  - right. split; [done|]. exists new. split; [done|by etrans].
Qed.

(** The size of an entry is taken off while it is worked on. *)
Lemma inv_worked s k a c s2 c2 : Inv s -> hash s !! k = Some a -> cents s !! a = Some c ->
  works a (set_size (cache_size s + - cs c) s) s2 c2 -> Inv (set_size (cache_size s2 + cs c2) s2).
Proof.
  intros [B L Z] Hk Ha [K2 T2 Ha2 L2]. set (s0 := set_size _ s) in *.
  assert (Base abi s0) as B0 by (destruct B; constructor; try done; by eapply core_ext; [..|exact b_core]).
  destruct (base_touch abi s0 s2 k a B0 K2 T2 Hk) as [_ O2 N2]. constructor; [constructor; try done|..].
  - by eapply core_ext; [..|exact K2].
  - intros k' b d Hk' Hb. eapply (listed_touch s0 s2 a L T2); [|exact Hk'|exact Hb]. intros d' Hd'. by simplify_eq.
  - simpl. rewrite (t_size _ _ _ T2). simpl. rewrite Z. change (total (set_size _ ?x)) with (total x).
    rewrite (total_touch abi s0 s2 k a c c2 (b_core _ _ B0) T2 Hk Ha Ha2). change (total s0) with (total s). lia.
Qed.

Lemma merge_flags f f' b : Z.land (Z.lor DF_AUTH DF_WILD) b = 0 -> has (Z.lor f (Z.land f' (Z.lor DF_AUTH DF_WILD))) b = has f b.
Proof.
  intros H. rewrite has_lor. replace (has (Z.land f' _) b) with false; [by rewrite orb_false_r|].
  unfold has. by rewrite <- Z.land_assoc, H, Z.land_0_r.
Qed.

(** The flags of the entry grow, its references change. *)
Lemma inv_flags s k a c c' : Inv s -> hash s !! k = Some a -> cents s !! a = Some c -> qname c' = qname c -> cs c' = cs c ->
  num_rrs c' = num_rrs c -> body c' = body c -> has (flags c') DF_NEGATIVE = has (flags c) DF_NEGATIVE ->
  (has (flags c) DF_LOCAL = true -> has (flags c') DF_LOCAL = true) -> Inv (set_cents (<[a := c']> (cents s)) s).
Proof.
  intros I Hk Ha Nm Cs Num B Ng Lc. assert (arr c' = arr c) as A by (unfold arr; by rewrite B).
  apply (inv_store abi s k a c); try done.
  - pose proof (k_cents _ _ (b_core _ _ (i_base _ _ I)) _ _ Ha) as [T Ln N C Q].
    constructor; [unfold negative; by rewrite Ng, B|by rewrite B|by rewrite A, Num| |by rewrite Nm].
    unfold cent_size. by rewrite A, Nm, Cs.
  - intros i. unfold lent_at. by rewrite B.
  - intros [A1 A2]. constructor.
    + intros i r Hr Hl. unfold RRARR_INDEX in Hr. rewrite A in Hr. specialize (A1 i r Hr Hl). unfold local in *.
      apply orb_true_iff in A1 as [->|H]; [done|]. by rewrite (Lc H), orb_true_r.
    + intros tl t. rewrite B. intros H%A2. auto.
Qed.

Lemma arr_bound c : cent_ok c -> (length (arr c) <= NRRTOT)%nat.
Proof. intros Ok. pose proof (co_len _ _ Ok) as H. unfold arr. destruct (body c); [apply Nat.le_0_l|]. destruct H as [-> | ->]; unfold NRRMU, NRRTOT; lia. Qed.

Lemma neg_arr c : cent_ok c -> (if negative c then [] else arr c) = arr c.
Proof. intros Ok. rewrite (co_tag _ _ Ok). unfold arr. by destruct (body c). Qed.

Lemma purge_to_limit_post s : Inv s -> sortable 0 s -> post (purge_to_limit abi global now) s (fun _ s' => fine s s').
Proof.
  intros I So. eapply post_mono; [by apply (purge_cache_post abi now)|]. intros _ s' (I' & K' & F' & S' & _). by constructor.
Qed.

Lemma relent_data o r : same_data r (relent o r).
Proof. done. Qed.

Lemma worked_added n s s' k a c c' : Inv s' -> k = lower (qname n) -> hash s !! k = Some a -> cents s !! a = Some c ->
  hash s' = hash s -> (forall b, b <> a -> cents s' !! b = cents s !! b) -> cents s' !! a = Some c' ->
  origin (arr n) 0 c c' -> (none_local (arr n) -> keeps_local c c') -> added n s s'.
Proof.
  intros I' Ek Hk Ha Eh Eo Ha' Or Kl. constructor; [done|by apply (foreign_store s s' k a)| |].
  - intros k' d i r (b & Hk' & Hb)%view_some Hr. rewrite Eh in Hk'. destruct (decide (b = a)) as [->|Nb].
    + simplify_eq. destruct (Or i r Hr) as [Hr0|(m & new & o & -> & Hm & ->)].
      * left. exists c, r. split; [|done]. apply view_some. eauto.
      * right. destruct (k_hash _ _ (b_core _ _ (i_base _ _ I')) k' a) as (e & He & <-); [by rewrite Eh|].
        destruct (k_hash _ _ (b_core _ _ (i_base _ _ I')) (lower (qname n)) a) as (e' & He' & E'); [by rewrite Eh|]. simplify_eq.
        split; [done|]. exists new. split; [by apply index_arr|apply relent_data].
    + rewrite Eo in Hb by done. left. exists d, r. split; [|done]. apply view_some. eauto.
  - intros H. apply (kept_store s s' a); [done..|]. intros d Hd. simplify_eq. exists c'. split; [done|by apply Kl].
Qed.

Lemma add_existing_post s a b n : Inv s -> hash s !! lower (qname n) = Some a -> cents s !! b = Some n ->
  (forall k, hash s !! k <> Some b) -> sortable NRRTOT s -> post (add_existing abi global now a b) s (fun _ s' => added n s s').
Proof.
  intros I Hk Hb Nb So. destruct (cached abi s _ a (b_core _ _ (i_base _ _ I)) Hk) as (c & Ha & _ & _). unfold add_existing. pstep.
  eapply post_mono; [eapply post_costs; [apply calm_purge_cent|by apply (purge_cent_post abi now s (lower (qname n)) a c false)]|].
  intros rv s1 [(F1 & [(? & _)|(_ & N1 & c1 & Ha1 & Pt)]) So1]; [done|]. pose proof (fi_inv _ _ _ F1) as I1.
  pose proof (b_core _ _ (i_base _ _ I1)) as K1. destruct (fi_foreign _ _ _ F1 b n Hb Nb) as [Hb1 Nb1].
  assert (hash s1 !! lower (qname n) = Some a) as Hk1 by (by rewrite (n_hash _ _ _ N1)).
  pose proof (k_cents _ _ K1 _ _ Hb1) as Okn.
  pstep. eapply post_load; [done|]. pstep. apply post_modify. set (s1' := set_size _ s1).
  assert (Core s1') as K1' by (by eapply core_ext; [..|exact K1]).
  pstep. eapply (post_load b n); [done|]. rewrite (rrarr_len abi), firstn_all by done. pstep.
  eapply post_mono; [eapply post_costs; [apply costs_add_rrsets|apply (add_rrsets_post (arr n) 0 s1' a c1); try done]|].
  { by eapply (i_listed _ _ I1). }
  { by apply arr_bound. }
  intros ok s2 [(c2 & W2 & Or & Kl) So2]. pose proof (inv_worked s1 _ a c1 s2 c2 I1 Hk1 Ha1 W2) as I2.
  pose proof (w_touch _ _ _ _ W2) as T2. pose proof (w_cent _ _ _ _ W2) as Ha2.
  destruct ok; simpl.
  - pstep. eapply post_load; [done|]. pstep. pstep. set (c3 := with_soa _ _). pstep. apply post_modify. set (s3 := set_size _ _).
    assert (Inv s3) as I3.
    { apply (inv_flags (set_size (cache_size s2 + cs c2) s2) (lower (qname n)) a c2 c3); try done.
      - simpl. by rewrite (t_hash _ _ _ T2).
      - simpl. by apply merge_flags.
      - simpl. by rewrite merge_flags. }
    assert (added n s1 s3) as A3.
    { apply (worked_added n s1 s3 (lower (qname n)) a c1 c3); try done; simpl; [by rewrite (t_hash _ _ _ T2)| |apply lookup_insert_eq].
      intros b' N. rewrite lookup_insert_ne by done. by rewrite (t_other _ _ _ T2). }
    assert (sortable 0 s3) as So3.
    { apply (So2 0%nat), (So1 (length (arr n) + 0)%nat), (sortable_le NRRTOT); [|done]. pose proof (arr_bound n Okn). lia. }
    eapply post_mono; [by apply purge_to_limit_post|]. intros ? s4 F4. exact (fine_adds _ _ _ _ F1 (adds_fine _ _ _ _ A3 F4)).
  - pstep. eapply post_load; [done|]. apply post_modify. eapply (fine_adds _ _ _ _ F1).
    apply (worked_added n s1 _ (lower (qname n)) a c1 c2); try done; simpl; [by rewrite (t_hash _ _ _ T2)|].
    intros b' N. by rewrite (t_other _ _ _ T2).
Qed.

(** *** A name that is not in the cache *)

(** A record set, but for its place in the list. *)
Definition slot (c : dns_cent_t) (j : nat) : option rr_set_t := relent None <$> RRARR_INDEX c j.

Lemma slot_copy c j : slot (copy_of c) j = slot c j.
Proof. unfold slot. rewrite copy_of_index. by destruct (RRARR_INDEX c j). Qed.

Lemma slot_data (f : rr_set_t -> rr_set_t) c c' j r' : (forall o r, f (relent o r) = relent o (f r)) -> slot c' j = f <$> slot c j ->
  RRARR_INDEX c' j = Some r' -> exists r, RRARR_INDEX c j = Some r /\ same_data (f r) r'.
Proof.
  unfold slot. intros Hf E Hr. rewrite Hr in E. destruct (RRARR_INDEX c j) as [r|]; [|done]. exists r. split; [done|].
  simpl in E. rewrite Hf in E. injection E as E1 E2 E3 E4. constructor; [done|done|]. by rewrite E3.
Qed.

Lemma list_slots_post n : forall i s a c, Core s -> cents s !! a = Some c -> body c = RR (arr c) ->
  (forall j r, (i <= j)%nat -> RRARR_INDEX c j = Some r -> lent r = None) ->
  (forall j r, (j < i)%nat -> RRARR_INDEX c j = Some r -> lent r = None -> local c r = true) ->
  (forall j r, RRARR_INDEX c j = Some r -> (j < i + n)%nat) ->
  post (list_slots global n i a) s (fun ok s' => Core s' /\ touches a s s' /\ exists c', cents s' !! a = Some c' /\ cs c' = cs c /\
    (ok = true -> all_listed c' /\ forall j, slot c' j = if decide (j < i)%nat then slot c j else adjust_ttl <$> slot c j)).
Proof.
  induction n as [|n IH]; intros i s a c K Ha B Un Li Ln; cbn [list_slots].
  { assert (forall j r, RRARR_INDEX c j = Some r -> (j < i)%nat) as Lt.
    { intros j r Hj%Ln. lia. }
    pstep. split; [done|]. split; [done|]. exists c. split; [done|]. split; [done|]. intros _. split.
    - constructor; [|by rewrite B]. intros j r Hr. by eauto.
    - intros j. case_decide; [done|]. unfold slot. destruct (RRARR_INDEX c j) as [r|] eqn:E; [|done]. by apply Lt in E. }
  pstep. eapply post_load; [done|]. destruct (RRARR_INDEX c i) as [r|] eqn:Hr.
  2: { eapply post_mono; [apply (IH (S i) s a c); try done|].
       - intros j r Lj. apply Un. lia.
       - intros j r Lj Hj. apply (Li j r); [|done]. destruct (decide (j = i)) as [->|]; [congruence|lia].
       - intros j r Hj%Ln. lia.
       - intros ok s' (K' & T' & c' & Ha' & Cs & H). split; [done|]. split; [done|]. exists c'. split; [done|]. split; [done|].
         intros E. destruct (H E) as [H1 H2]. split; [done|]. intros j. rewrite H2. unfold slot.
         destruct (decide (j = i)) as [->|]; [by rewrite Hr; repeat case_decide|]. repeat case_decide; try done; lia. }
  pose proof (Un i r (le_n i) Hr) as Nl. pstep. pstep.
  destruct (set_slot_works s a c i r (adjust_ttl r)) as (K1 & T1 & I1); try done.
  { unfold PdnsdCache.adjust_ttl. by case_match. }
  { apply adjust_size. }
  set (c1 := set_slot i _ c) in *. set (s1 := set_cents _ _) in *. pstep.
  eapply post_mono; [apply (insert_set_post abi s1 a c1 i (adjust_ttl r)); try done|].
  { simpl. apply lookup_insert_eq. }
  { by rewrite I1, decide_True. }
  { unfold PdnsdCache.adjust_ttl. by case_match. }
  intros ok s2 (K2 & T2 & c2 & o & Ha2 & Cs2 & Lo & I2). assert (touches a s s2) as T02 by (by etrans).
  destruct ok; simpl.
  2: { pstep. split; [done|]. split; [done|]. exists c2. by split. }
  assert (forall j, RRARR_INDEX c2 j = if decide (j = i) then Some (relent o (adjust_ttl r)) else RRARR_INDEX c j) as I02.
  { intros j. rewrite I2, I1. by destruct (decide (j = i)). }
  assert (body c2 = RR (arr c2)) as B2 by (apply (index_body c2 i (relent o (adjust_ttl r))); by rewrite I02, decide_True).
  eapply post_mono; [apply (IH (S i) s2 a c2); try done|].
  - intros j r' Lj. rewrite I02, decide_False by lia. apply Un. lia.
  - intros j r' Lj. rewrite I02. pose proof (touch_like _ _ _ _ _ T02 Ha Ha2) as Lk. destruct (decide (j = i)) as [->|].
    + intros [= <-] Hl. simpl in Hl. destruct (Lo eq_refl) as [H|]; [|done]. rewrite (like_local c) by done. exact H.
    + intros Hj Hl. rewrite (like_local c) by done. apply (Li j); [lia|done..].
  - intros j r'. rewrite I02. destruct (decide (j = i)); [intros _; lia|]. intros Hj%Ln. lia.
  - intros ok s3 (K3 & T3 & c3 & Ha3 & Cs3 & H). split; [done|]. split; [by etrans|]. exists c3. split; [done|].
    split; [by rewrite Cs3, Cs2|]. intros E. destruct (H E) as [H1 H2]. split; [done|]. intros j. rewrite H2.
    unfold slot. rewrite I02. destruct (decide (j = i)) as [->|Nj].
    + rewrite Hr, decide_True, decide_False by lia. simpl. by rewrite adjust_relent.
    + repeat case_decide; try done; lia.
Qed.

(** The copy is given up: the cache is as it was. *)
Lemma abandon s c m a s2 c2 : Inv s -> a = fresh s -> Core s2 -> touches a (with_new c m s) s2 -> cents s2 !! a = Some c2 ->
  fine s (free_state a s2).
Proof.
  intros I -> K2 T Ha2. pose proof (b_core _ _ (i_base _ _ I)) as K. pose proof (t_hash _ _ _ T) as Eh. simpl in Eh.
  assert (forall b, b <> fresh s -> cents s2 !! b = cents s !! b) as Eo.
  { intros b N. rewrite (t_other _ _ _ T) by done. simpl. by rewrite lookup_insert_ne. }
  assert (cents (free_state (fresh s) s2) = cents s) as Ec.
  { apply map_eq. intros b. simpl. destruct (decide (b = fresh s)) as [->|N].
    - rewrite lookup_delete_eq. symmetry. by eapply fresh_free.
    - by rewrite lookup_delete_ne, Eo. }
  apply fine_ext; [|done..]. destruct I as [[_ O N] L Z]. constructor; [constructor|..].
  - eapply core_free_state; [done..|]. intros k. rewrite Eh. by apply (fresh_unhashed abi).
  - intros b d i l Hb. rewrite Ec in Hb. simpl. rewrite Eh. by eapply O.
  - simpl. by rewrite (t_num _ _ _ T), Eh.
  - intros k b d. rewrite Ec. simpl. rewrite Eh. apply L.
  - unfold total. rewrite Ec. simpl. rewrite (t_size _ _ _ T), Eh. exact Z.
Qed.

(** The copy enters the hash table. *)
Definition entered (k : list byte) (a : nat) (z : Z) (s : cache) : cache :=
  set_size (cache_size s + z) (set_num (ent_num s + 1) (set_hash (<[k := a]> (hash s)) s)).

Lemma enter_inv s c m a s2 c2 k : Inv s -> a = fresh s -> Core s2 -> touches a (with_new c m s) s2 -> cents s2 !! a = Some c2 ->
  all_listed c2 -> k = lower (qname c2) -> hash s !! k = None -> Inv (entered k a (cs c2) s2).
Proof.
  intros I -> K2 T Ha2 L2 Ek Hk. pose proof (b_core _ _ (i_base _ _ I)) as K. pose proof (t_hash _ _ _ T) as Eh. simpl in Eh.
  assert (forall b, b <> fresh s -> cents s2 !! b = cents s !! b) as Eo.
  { intros b N. rewrite (t_other _ _ _ T) by done. simpl. by rewrite lookup_insert_ne. }
  destruct I as [[_ O N] L Z]. constructor; [constructor|..].
  - destruct K2 as [K1 K2 K3 K4 K5 K6]. constructor; simpl; try done.
    intros k' b [[<- <-]|[_ H]]%lookup_insert_Some; [by exists c2|auto].
  - intros b d i l Hb Hl. simpl in *. rewrite Eh. destruct (decide (b = fresh s)) as [->|Nb].
    + exists k. apply lookup_insert_eq.
    + rewrite Eo in Hb by done. destruct (O b d i l Hb Hl) as [k' Hk']. exists k'. rewrite lookup_insert_ne; [done|congruence].
  - simpl. rewrite (t_num _ _ _ T), Eh. simpl. rewrite map_size_insert_None by done. lia.
  - intros k' b d. simpl. rewrite Eh. intros [[<- <-]|[Nk H]]%lookup_insert_Some Hb; [by simplify_eq|].
    rewrite Eo in Hb; [by eapply L|]. intros ->. by apply (fresh_unhashed abi s k').
  - simpl. rewrite (t_size _ _ _ T). simpl. rewrite Z. unfold total; simpl. rewrite Eh, sum_insert by done.
    unfold cs_at at 1. rewrite Ha2, (sum_ext (cents s) (cents s2)); [lia|]. intros k' b Hb. unfold cs_at. rewrite Eo; [done|].
    intros ->. by apply (fresh_unhashed abi s k').
Qed.

Lemma entered_added n s c m a s2 c2 : Inv s -> a = fresh s -> Core s2 -> touches a (with_new c m s) s2 -> cents s2 !! a = Some c2 ->
  all_listed c2 -> qname c2 = qname n -> hash s !! lower (qname n) = None ->
  (forall j r', RRARR_INDEX c2 j = Some r' -> exists r, RRARR_INDEX n j = Some r /\ same_data (adjust_ttl r) r') ->
  added n s (entered (lower (qname n)) a (cs c2) s2).
Proof.
  intros I Ea K2 T Ha2 L2 Nm Hk H. pose proof (b_core _ _ (i_base _ _ I)) as K. pose proof (t_hash _ _ _ T) as Eh. simpl in Eh.
  assert (forall b d, b <> a -> cents s2 !! b = Some d <-> cents s !! b = Some d) as Eo.
  { intros b d N. rewrite (t_other _ _ _ T) by done. subst a. simpl. by rewrite lookup_insert_ne. }
  assert (forall k, hash s !! k <> Some a) as Un by (intros k; subst a; by apply (fresh_unhashed abi)).
  assert (cents s !! a = None) as Na by (subst a; by eapply fresh_free).
  constructor.
  - eapply enter_inv; eauto. by rewrite Nm.
  - intros b d Hb N. assert (b <> a) as Nb by congruence. split; [by apply Eo|]. simpl. rewrite Eh.
    intros k [[_ <-]|[_ Hk']]%lookup_insert_Some; [done|by apply (N k)].
  - intros k d i r (b & Hk' & Hb)%view_some Hr. simpl in Hk', Hb. rewrite Eh in Hk'.
    apply lookup_insert_Some in Hk' as [[<- <-]|[Nk Hk']]; [right; simplify_eq; auto|]. left. exists d, r. split; [|done].
    apply view_some. exists b. split; [done|]. apply Eo; [|done]. intros ->. by apply (Un k).
  - intros _ k d i r (b & Hk' & Hb)%view_some Hr Lr. exists d, r. split; [|done]. apply view_some. exists b. simpl. rewrite Eh.
    split; [rewrite lookup_insert_ne; [done|congruence]|]. apply Eo; [|done]. intros ->. by apply (Un k).
Qed.

(** The lifetime a negative entry gets. *)
Definition neg_adjusted (c : dns_cent_t) (tl : Z) : Z := if has (flags c) DF_NOCACHE then 0 else adjusted_ttl global true tl.

Lemma adjust_dom_ok c tl t : cent_ok c -> body c = Neg None tl t -> exists c', (forall s, adjust_dom_ttl global c s = Some (c', s)) /\
  cent_ok c' /\ qname c' = qname c /\ cs c' = cs c /\ body c' = Neg None (neg_adjusted c tl) t /\
  has (flags c') DF_LOCAL = has (flags c) DF_LOCAL.
Proof.
  intros [Tag Len Num Cs Nm] B. unfold adjust_dom_ttl, neg_adjusted. rewrite B. eexists. split; [done|]. rewrite B in *.
  assert (arr c = []) as A by (unfold arr; by rewrite B). rewrite A in Num.
  assert (cs c = sizeof_cent abi + zlen (qname c) + 0 + 0) as Cs' by (rewrite Cs; unfold cent_size; by rewrite A).
  case_match; (split; [|split; [done|split; [done|split; [done|]]]]); [..|by apply has_without| |done]; constructor; try done.
  change (has (without (flags c) DF_NOCACHE) DF_NEGATIVE = true). by rewrite has_without.
Qed.

(** The sets of the copy, or the copy itself, go into the list. *)
Lemma enlist_post s n m : Inv s -> cent_ok n ->
  let a := fresh s in let c := copy_of n in
  post (if negb (negative c) then list_slots global (RRARR_LEN c) 0 a
        else c ← adjust_dom_ttl global c; store a c;; insert_rrl a None : M bool) (with_new c m s) (fun ok s2 =>
    exists c0 c2, Core s2 /\ touches a (with_new c0 m s) s2 /\ cents s2 !! a = Some c2 /\ cs c2 = cs c /\ qname c2 = qname n /\
      (ok = true -> all_listed c2 /\ (forall j, slot c2 j = adjust_ttl <$> slot n j) /\
         (forall o tl t, body n = Neg o tl t -> exists o', body c2 = Neg o' (neg_adjusted n tl) t) /\
         has (flags c2) DF_LOCAL = has (flags n) DF_LOCAL)).
Proof.
  intros I Okn a c. pose proof (b_core _ _ (i_base _ _ I)) as K. pose proof (copy_of_ok abi n Okn) as Ok.
  pose proof (core_with_new abi c m s K Ok (copy_of_lent n)) as K1.
  assert (cents (with_new c m s) !! a = Some c) as Ha by (simpl; apply lookup_insert_eq).
  destruct (negative c) eqn:N; simpl.
  - assert (exists tl t, body c = Neg None tl t) as (tl & t & B).
    { pose proof (co_tag _ _ Ok) as Tg. fold c in Tg. rewrite N in Tg. unfold c, copy_of in *. simpl in *. destruct (body n); [eauto|done]. }
    destruct (adjust_dom_ok c tl t Ok B) as (c0 & E & Ok0 & Nm & Cs & B0 & Fl). set (tl' := neg_adjusted c tl) in *. pstep. eexists _, _. split; [apply E|].
    pstep. pstep. assert (set_cents (<[a := c0]> (cents (with_new c m s))) (with_new c m s) = with_new c0 m s) as ->.
    { unfold with_new, set_cents. simpl. by rewrite insert_insert_eq. }
    assert (forall i, lent_at c0 i = None) as Nl by (intros [i|]; unfold lent_at; by rewrite B0).
    pose proof (core_with_new abi c0 m s K Ok0 Nl) as K0.
    eapply post_mono; [apply (insert_neg_post abi _ a c0 tl' t); [done|simpl; apply lookup_insert_eq|done]|].
    intros ok s2 (K2 & T2 & o & Ha2 & Lo). exists c0, (with_body (Neg o tl' t) c0). split; [done|]. split; [done|]. split; [done|].
    split; [done|]. split; [done|]. intros ->.
    assert (forall j, RRARR_INDEX (with_body (Neg o tl' t) c0) j = None) as Nx by done.
    split; [constructor; [by intros j r'; rewrite Nx|]|].
    + intros tl0 t0. simpl. intros [= -> -> ->]. by destruct (Lo eq_refl).
    + split; [intros j; unfold slot; rewrite Nx, negative_index; [done..|exact N]|]. split; [|exact Fl].
      intros o0 tl0 t0 Bn. exists o. unfold c, copy_of in B. simpl in B. rewrite Bn in B. by injection B as -> ->.
  - rewrite (rrarr_len abi) by done. eapply post_mono; [apply (list_slots_post (length (arr c)) 0 _ a c); try done|].
    + by apply positive_body.
    + intros j r _ Hj. pose proof (copy_of_lent n (Some j)) as H. rewrite lent_at_slot in H. subst c. by rewrite Hj in H.
    + intros j r Lj. lia.
    + intros j r Hj%index_arr%lookup_lt_Some. lia.
    + intros ok s2 (K2 & T2 & c2 & Ha2 & Cs & H). exists c, c2. split; [done|]. split; [done|]. split; [done|]. split; [done|].
      split; [exact (lk_name _ _ (touch_like _ _ _ _ _ T2 Ha Ha2))|]. intros ->. destruct (H eq_refl) as [H1 H2]. split; [done|].
      split; [intros j; rewrite H2, decide_False by lia; subst c; by rewrite slot_copy|].
      split; [|by apply (lk_flags _ _ (touch_like _ _ _ _ _ T2 Ha Ha2))].
      intros o tl t Bn. pose proof (co_tag _ _ Okn) as Tg. change (negative n) with (negative c) in Tg. by rewrite N, Bn in Tg.
Qed.

Lemma add_new_post s b n : Inv s -> cents s !! b = Some n -> (forall k, hash s !! k <> Some b) -> hash s !! lower (qname n) = None ->
  sortable (S NRRTOT) s -> post (add_new abi global now b) s (fun _ s' => added n s s').
Proof.
  intros I Hb Nb Hk So. pose proof (b_core _ _ (i_base _ _ I)) as K. pose proof (k_cents _ _ K _ _ Hb) as Okn.
  unfold add_new. pstep. eapply post_load; [done|]. pstep.
  { eapply post_mono; [apply purge_to_limit_post; [done|]|]; [by apply (sortable_le (S NRRTOT)); [apply Nat.le_0_l|]|].
    intros ? s' F. by apply fine_added. }
  pstep. eapply post_mono; [eapply post_costs; [apply costs_copy|by apply (copy_cent_post abi s b n)]|].
  intros res s1 [(m & [[-> ->]|[-> ->]]) So1].
  { pstep. apply fine_added, fine_ext; [by apply inv_mallocs|done..]. }
  pstep. eapply (post_load (fresh s) (copy_of n)); [simpl; apply lookup_insert_eq|]. pstep.
  eapply post_mono; [eapply post_costs; [by apply costs_enlist|by apply enlist_post]|].
  intros ok s2 [(c0 & c2 & K2 & T2 & Ha2 & Cs & Nm & H) So2].
  assert (forall m', post (free_cent abi (fresh s)) (set_mallocs m' s2) (fun _ s' => added n s s')) as Quit.
  { intros m'. eexists _, _. split; [apply (free_cent_run abi _ _ c2); [by apply core_mallocs|done]|].
    apply fine_added, (abandon s c0 m (fresh s) (set_mallocs m' s2) c2); try done; [by apply core_mallocs|].
    etrans; [exact T2|apply touches_mallocs]. }
  destruct ok; simpl; [|assert (set_mallocs (mallocs s2) s2 = s2) as <- by (by destruct s2); apply Quit].
  pstep. apply post_malloc. intros ok m'. destruct ok; simpl; [|apply Quit]. destruct (H eq_refl) as (H1 & H2 & _).
  pstep. pstep. pstep. pstep. pstep. apply post_modify. change (qname (copy_of n)) with (qname n). change (cs c2 = cs n) in Cs. rewrite <- Cs.
  lazymatch goal with |- post _ ?x _ => assert (added n s x) as A end.
  { apply (entered_added n s c0 m (fresh s) (set_mallocs m' s2) c2); try done; [by apply core_mallocs| |].
    - etrans; [exact T2|apply touches_mallocs].
    - intros j r'. apply slot_data; [apply adjust_relent|done]. }
  eapply post_mono; [apply purge_to_limit_post; [apply A|exact (So2 0%nat (So1 NRRTOT So))]|]. intros ? s3 F3. by eapply adds_fine.
Qed.

Lemma no_local_sets c : cent_ok c ->
  existsb (fun r => match r with Some r => has (rflags r) CF_LOCAL | None => false end) (if negative c then [] else arr c) = false ->
  forall i r, RRARR_INDEX c i = Some r -> has (rflags r) CF_LOCAL = false.
Proof.
  intros Ok. rewrite neg_arr by done. intros H i r Hr%index_arr. destruct (has (rflags r) CF_LOCAL) eqn:E; [|done].
  exfalso. apply not_true_iff_false in H. apply H, existsb_exists. exists (Some r). split; [|done].
  apply list_elem_of_In, list_elem_of_lookup. eauto.
Qed.

(** [add_cache], of an entry that belongs to the caller. *)
Lemma add_cache_post s b n : Inv s -> cents s !! b = Some n -> (forall k, hash s !! k <> Some b) -> sortable (S NRRTOT) s ->
  post (add_cache abi global now b) s (fun _ s' => added n s s').
Proof.
  intros I Hb Nb So. unfold add_cache. cbn [add_cache_retry]. pose proof (b_core _ _ (i_base _ _ I)) as K.
  pstep. eapply post_load; [done|]. pstep. pstep. unfold dns_lookup at 1. destruct (hash s !! lower (qname n)) as [a|] eqn:Hk.
  2: { by apply add_new_post. }
  destruct (cached abi s _ a K Hk) as (c & Ha & _ & Ok). destruct (negative n).
  2: { apply add_existing_post; try done. by apply (sortable_le (S NRRTOT)); [apply Nat.le_succ_diag_r|]. }
  pstep. eapply post_load; [done|]. destruct (existsb _ _) eqn:Ex.
  { pstep. by apply fine_added, fine_refl. }
  pstep. eexists _, _. split; [by apply (del_cache_ent_run abi s (lower (qname n)) a c)|].
  assert (fine s (removed (lower (qname n)) a c s)) as F by (apply fine_removed; try done; by apply no_local_sets).
  destruct (fi_foreign _ _ _ F b n Hb Nb) as [Hb1 Nb1]. pstep. eapply post_load; [done|]. pstep. pstep. unfold dns_lookup.
  simpl. rewrite lookup_delete_eq. eapply post_mono; [apply (add_new_post _ b n); [apply F|done|done|simpl; apply lookup_delete_eq|exact So]|].
  intros ? s' A. by eapply fine_adds.
Qed.

(** ** Changes in place *)

Definition invalidated_body (b : union) : union :=
  match b with RR x => RR (map (fmap invalidated) x) | Neg l t _ => Neg l t 0 end.

Lemma invalidated_size x : nsets (map (fmap invalidated) x) = nsets x /\ sets_size abi (map (fmap invalidated) x) = sets_size abi x.
Proof. induction x as [|[r|] x [IH1 IH2]]; simpl; [done|..]; rewrite IH1, IH2; done. Qed.

Lemma invalidated_index (x : list (option rr_set_t)) i : mjoin (map (fmap invalidated) x !! i) = invalidated <$> mjoin (x !! i).
Proof. rewrite list_lookup_fmap. by destruct (x !! i). Qed.

Lemma invalidate_post s A : Inv s -> post (invalidate_record A) s (fun _ s' => fine s s').
Proof.
  intros I. pose proof (b_core _ _ (i_base _ _ I)) as K. unfold invalidate_record, dns_lookup. pstep. pstep.
  destruct (hash s !! lower A) as [a|] eqn:Hk; [|pstep; by apply fine_refl].
  destruct (cached abi s _ a K Hk) as (c & Ha & _ & Ok). pstep. eapply post_load; [done|]. pstep.
  eapply (post_mono _ _ (fun b s' => b = invalidated_body (body c) /\ s' = s)).
  { rewrite (co_tag _ _ Ok). destruct (body c); simpl; by pstep. }
  intros b s' [-> ->]. pstep. set (c' := with_flags _ _).
  assert (forall i, RRARR_INDEX c' i = invalidated <$> RRARR_INDEX c i) as Ix.
  { intros i. unfold RRARR_INDEX, arr, c', invalidated_body; simpl. destruct (body c); [done|]. apply invalidated_index. }
  assert (has (flags c') DF_NEGATIVE = has (flags c) DF_NEGATIVE /\ has (flags c') DF_LOCAL = has (flags c) DF_LOCAL) as [Fn Fl]
    by (split; by apply has_without).
  assert (cent_ok c') as Ok'.
  { destruct Ok as [Tg Ln Nu Cs Nm]. destruct (invalidated_size (arr c)) as [E1 E2].
    assert (arr c' = map (fmap invalidated) (arr c)) as Ea by (unfold arr, c', invalidated_body; simpl; by destruct (body c)).
    constructor; [| | | |done].
    - unfold negative. rewrite Fn. change (negative c = is_neg (body c')). rewrite Tg. unfold c'; simpl. by destruct (body c).
    - unfold c'; simpl. destruct (body c); [done|]. simpl. by rewrite length_map.
    - by rewrite Ea, E1.
    - unfold cent_size. by rewrite Ea, E2, length_map. }
  constructor.
  - apply (inv_store abi s (lower A) a c); try done.
    + intros [i|]; [rewrite !lent_at_slot, Ix; by destruct (RRARR_INDEX c i)|].
      unfold lent_at, c', invalidated_body; simpl. by destruct (body c).
    + intros [A1 A2]. constructor.
      * intros i r'. rewrite Ix. destruct (RRARR_INDEX c i) as [r|] eqn:Hr; [|done]. intros [= <-] Hl. specialize (A1 i r Hr Hl).
        unfold local in *. rewrite Fl. simpl. by rewrite has_without.
      * intros tl t H. rewrite Fl. revert H. unfold c'; simpl. destruct (body c) as [l tl0 t0|] eqn:B; [|done].
        intros [= -> _ _]. by eapply A2.
  - apply (kept_store s _ a); [done|intros b N; simpl; by rewrite lookup_insert_ne|]. intros d Hd. simplify_eq. exists c'. simpl.
    rewrite lookup_insert_eq. split; [done|]. intros i r Hr _. exists (invalidated r). rewrite Ix, Hr. split; [done|].
    constructor; [done|done|]. by apply has_without.
  - apply (foreign_store s _ (lower A) a); [done..|]. intros b N. simpl. by rewrite lookup_insert_ne.
  - apply (shrinks_store s _ a); [done|intros b N; simpl; by rewrite lookup_insert_ne|]. intros d i r' Hd. simpl in Hd.
    rewrite lookup_insert_eq in Hd. simplify_eq. rewrite Ix. destruct (RRARR_INDEX c i) as [r|] eqn:Hr; [|done]. intros [= <-].
    exists c, r. split; [done|]. split; [done|]. constructor; [done|done|]. by apply has_without.
Qed.

Lemma set_flags_post s A fl : Inv s -> has fl DF_NEGATIVE = false -> post (set_cent_flags A fl) s (fun _ s' => fine s s').
Proof.
  intros I Nf. pose proof (b_core _ _ (i_base _ _ I)) as K. unfold set_cent_flags, dns_lookup. pstep. pstep.
  destruct (hash s !! lower A) as [a|] eqn:Hk; [|pstep; by apply fine_refl].
  destruct (cached abi s _ a K Hk) as (c & Ha & _ & Ok). pstep. eapply post_load; [done|]. pstep. pstep. pstep.
  set (c' := with_flags _ c). constructor.
  - apply (inv_flags s (lower A) a c c'); try done.
    + change (has (Z.lor (flags c) fl) DF_NEGATIVE = has (flags c) DF_NEGATIVE). by rewrite has_lor, Nf, orb_false_r.
    + change (has (flags c) DF_LOCAL = true -> has (Z.lor (flags c) fl) DF_LOCAL = true). rewrite has_lor. by intros ->.
  - apply (kept_store s _ a); [done|intros b N; simpl; by rewrite lookup_insert_ne|]. intros d Hd. simplify_eq. exists c'. simpl.
    rewrite lookup_insert_eq. split; [done|]. by apply keeps_local_sub.
  - apply (foreign_store s _ (lower A) a); [done..|]. intros b N. simpl. by rewrite lookup_insert_ne.
  - apply (shrinks_store s _ a); [done|intros b N; simpl; by rewrite lookup_insert_ne|]. intros d i r' Hd. simpl in Hd.
    rewrite lookup_insert_eq in Hd. simplify_eq. intros Hr. by exists c, r'.
Qed.

End Add.
