(* ===== verification/PdnsdCacheOwn.v ===== *)
(** * Entries that belong to the callers of the DNS cache

    Entries are built, changed and freed by their owners outside the cache; the cache
    keeps its invariant and its local record sets, and nothing new gets into it. *)

From S2P Require Import Prelude.
From S2P Require Import PdnsdNames.
From S2P Require Import PdnsdCompress.
From S2P Require Import PdnsdHash.
From S2P Require Import PdnsdSort.
From S2P Require Import PdnsdCent.
From S2P Require Import PdnsdCache.
From S2P Require Import PdnsdCacheCost.
From S2P Require Import PdnsdCentInv.
From S2P Require Import PdnsdCacheInv.
From S2P Require Import PdnsdCacheOps.
From S2P Require Import PdnsdCacheAdd.

Open Scope Z_scope.

(** The entry belongs to a caller. *)
Definition own (s : cache) (b : nat) (c : dns_cent_t) : Prop := cents s !! b = Some c /\ forall k, hash s !! k <> Some b.

Lemma cacheable type : PDNSD_NOT_CACHED_TYPE type = false -> exists i, rr_index type = Some i /\ (i < NRRTOT)%nat.
Proof.
  unfold PDNSD_NOT_CACHED_TYPE. destruct (rr_index type) as [i|]; [|done]. intros H%Nat.leb_gt. eauto.
Qed.

Section Own.

Variable abi : sizes.

Notation Core := (Core abi).
Notation Inv := (Inv abi).
Notation cent_ok := (cent_ok abi).
Notation fine := (fine abi).

(** The invariant holds, local record sets are kept, and nothing new is cached. *)
Record quiet (s s' : cache) : Prop := {
  q_inv : Inv s';
  q_kept : kept s s';
  q_shrinks : shrinks s s';
}.

Lemma quiet_refl s : Inv s -> quiet s s.
Proof. intros I. by constructor. Qed.

Lemma quiet_trans s1 s2 s3 : quiet s1 s2 -> quiet s2 s3 -> quiet s1 s3.
Proof. intros [] []. constructor; [done|by etrans..]. Qed.

Lemma fine_quiet s s' : fine s s' -> quiet s s'.
Proof. intros []. by constructor. Qed.


Lemma own_unlisted s b c i : Inv s -> own s b c -> lent_at c i = None.
Proof.
  intros [[_ O _] _ _] [Hb N]. destruct (lent_at c i) as [l|] eqn:E; [|done]. destruct (O b c i l Hb E) as [k Hk].
  by apply N in Hk.
Qed.

(** Only an entry of a caller was changed. *)
Lemma own_touched s b c s' c' : Inv s -> own s b c -> Core s' -> touches b s s' -> cents s' !! b = Some c' ->
  (forall i, lent_at c' i = None) -> quiet s s'.
Proof.
  intros [[K O N] L Z] [Hb Nb] K' T Hb' Nl. pose proof (t_hash _ _ _ T) as Eh.
  assert (forall k a, hash s !! k = Some a -> cents s' !! a = cents s !! a) as Eo.
  { intros k a Hk. apply (t_other _ _ _ T). intros ->. by apply (Nb k). }
  constructor.
  - constructor; [constructor; [done| |by rewrite (t_num _ _ _ T), Eh]|..].
    + intros a d i l Ha Hl. rewrite Eh. destruct (decide (a = b)) as [->|Na]; [simplify_eq; by rewrite Nl in Hl|].
      rewrite (t_other _ _ _ T) in Ha by done. by eapply O.
    + intros k a d. rewrite Eh. intros Hk. rewrite (Eo k a Hk). exact (L k a d Hk).
    + rewrite (t_size _ _ _ T), Z. unfold total. rewrite Eh. symmetry. apply sum_ext. intros k a Hk. unfold cs_at. by rewrite (Eo k a Hk).
  - intros k d i r (a & Hk & Ha)%view_some Hr Lr. exists d, r. split; [|done]. apply view_some. exists a.
    by rewrite Eh, (Eo k a Hk).
  - intros k d i r (a & Hk & Ha)%view_some Hr. rewrite Eh in Hk. rewrite (Eo k a Hk) in Ha. exists d, r. split; [|done].
    apply view_some. eauto.
Qed.

Lemma own_freed s b c : Inv s -> own s b c -> quiet s (free_state b s).
Proof.
  intros I [Hb Nb]. pose proof I as [[K O N] L Z].
  assert (forall k a, hash s !! k = Some a -> cents (free_state b s) !! a = cents s !! a) as Eo.
  { intros k a Hk. simpl. rewrite lookup_delete_ne; [done|]. intros <-. by apply (Nb k). }
  constructor.
  - constructor; [constructor|..]; try done.
    + by eapply core_free_state.
    + intros a d i l. simpl. intros [_ Ha]%lookup_delete_Some. exact (O a d i l Ha).
    + intros k a d Hk. rewrite (Eo k a Hk). exact (L k a d Hk).
    + simpl. rewrite Z. unfold total; simpl. symmetry. apply sum_ext. intros k a Hk. unfold cs_at. rewrite <- (Eo k a Hk). by simpl.
  - intros k d i r (a & Hk & Ha)%view_some Hr Lr. exists d, r. split; [|done]. apply view_some. exists a. by rewrite (Eo k a Hk).
  - intros k d i r (a & Hk & Ha)%view_some Hr. rewrite (Eo k a Hk) in Ha. exists d, r. split; [|done]. apply view_some. eauto.
Qed.


End Own.
