(* ===== verification/PdnsdDisk.v ===== *)
(** * The disk cache file

    [read_disk_cache], [write_rrset] and [write_disk_cache] of [pdnsd/src/cache.c].
    A file is a list of bytes. The structs in it are packed; their fields are
    little-endian, with the widths of [unsigned long] and [time_t] as
    parameters. The order in which [fetch_first] and [fetch_next] enumerate the
    hash table is a parameter too. Both stand for a run in which the file can be
    opened and the lock is obtained (else nothing happens), and writing for one in which
    every [fwrite] succeeds; when one fails the file is a beginning of what is
    given here.

    Reading ends in one of three ways: at the end of the entries, at an error in the
    file (the rest is then ignored), or with the process when memory runs
    out. *)

From S2P Require Import Prelude.
From S2P Require Import ByteOrder.
From S2P Require Import PdnsdNames.
From S2P Require Import PdnsdHash.
From S2P Require Import PdnsdSort.
From S2P Require Import PdnsdCent.
From S2P Require Import PdnsdCache.

Open Scope Z_scope.

Definition cachverid : list byte := [x70; x64; x31; x33].

Definition T_A : Z := 1.
Definition T_NS : Z := 2.
Definition T_CNAME : Z := 5.
Definition T_SOA : Z := 6.
Definition T_PTR : Z := 12.
Definition T_MX : Z := 15.
Definition T_TXT : Z := 16.
Definition T_AAAA : Z := 28.

(** The most frequent types in ascending order; then all the types that are
    cached. *)
Definition rrmuiterlist : list Z := [T_A; T_NS; T_CNAME; T_SOA; T_PTR; T_MX; T_TXT; T_AAAA].

Definition rrcachiterlist : list Z :=
  [1; 2; 3; 4; 5; 6; 7; 8; 9; 10; 11; 12; 13; 14; 15; 16; 17; 18; 19; 20; 21; 22; 23; 24; 25; 26; 27; 28; 29; 30; 31; 32; 33;
   34; 35; 36; 37; 42; 43; 44; 45; 46; 47; 48; 49; 50; 51].

Definition RRITERLIST (c : dns_cent_t) : list Z :=
  if negative c then [] else if (NRRMU <? length (arr c))%nat then rrcachiterlist else rrmuiterlist.

(** [getrrset_eff], for a type of the table. *)
Definition getrrset_eff (c : dns_cent_t) (type : Z) : option rr_set_t := i ← rr_index type; RRARR_INDEX c i.

(** The type [rr_fset_t] and [dns_file_t]. *)
Record rr_fset_t := FSet { fs_tp : Z; fs_num_rr : nat; fs_flags : Z; fs_ttl : Z; fs_ts : Z }.
Record dns_file_t := DnsFile { df_qlen : nat; df_num_rrs : nat; df_flags : Z; df_c_ns : Z; df_c_soa : Z }.

Record arch := Arch { w_long : nat; w_time : nat }.

(** [fread] of one item of [n] bytes. *)
Definition fread (n : nat) (f : list byte) : option (list byte * list byte) :=
  if (n <=? length f)%nat then Some (take n f, drop n f) else None.

(** A field of [n] bytes at [o] of a struct. *)
Definition field (o n : nat) (b : list byte) : Z := le_load (take n (drop o b)).

(** Reading goes on with a value and the rest of the file, or stops because of an
    error in the file, or ends the process. *)
Inductive reading (A : Type) := Go (x : A) (f : list byte) | Stop | Exit.
Arguments Go {A}.
Arguments Stop {A}.
Arguments Exit {A}.

Section Disk.

Variable abi : sizes.
Variable global : globals.
Variable now : Z.
Variable ar : arch.

(** [time_t] is signed. *)
Definition to_signed (w : nat) (z : Z) : Z := if z <? 2 ^ (8 * Z.of_nat w - 1) then z else z - 2 ^ (8 * Z.of_nat w).
Definition time_field (o : nat) (b : list byte) : Z := to_signed (w_time ar) (field o (w_time ar) b).
Definition put_time (z : Z) : list byte := le_store (w_time ar) z.

Definition sizeof_fset : nat := 4 + 2 * w_time ar.
Definition sizeof_dns_file : nat := 6.
Definition sizeof_fttlts : nat := 2 * w_time ar.

Definition get_fset (b : list byte) : rr_fset_t :=
  FSet (field 0 1 b) (Z.to_nat (field 1 1 b)) (field 2 2 b) (time_field 4 b) (time_field (4 + w_time ar) b).

Definition put_fset (h : rr_fset_t) : list byte :=
  le_store 1 (fs_tp h) ++ le_store 1 (Z.of_nat (fs_num_rr h)) ++ le_store 2 (fs_flags h) ++ put_time (fs_ttl h) ++ put_time (fs_ts h).

Definition get_dns_file (b : list byte) : dns_file_t :=
  DnsFile (Z.to_nat (field 0 1 b)) (Z.to_nat (field 1 1 b)) (field 2 2 b) (field 4 1 b) (field 5 1 b).

Definition put_dns_file (h : dns_file_t) : list byte :=
  le_store 1 (Z.of_nat (df_qlen h)) ++ le_store 1 (Z.of_nat (df_num_rrs h)) ++ le_store 2 (df_flags h) ++
  le_store 1 (df_c_ns h) ++ le_store 1 (df_c_soa h).

(** ** Reading *)

(** The records of one set; [dtsz] is the size of the buffer. *)
Fixpoint read_rrs (n ce : nat) (sh : rr_fset_t) (dtsz : nat) (f : list byte) : M (reading nat) :=
  match n with
  | O => mret (Go dtsz f)
  | S n =>
    match fread 2 f with
    | None => free_cent abi ce;; mret Stop
    | Some (b, f) =>
      let rdlen := Z.to_nat (le_load b) in
      ok ← (if (dtsz <? rdlen)%nat then malloc else mret true : M bool);
      if negb ok then free_cent abi ce;; mret Exit else
      match fread rdlen f with
      | None => free_cent abi ce;; mret Stop
      | Some (data, f) =>
        ok ← add_cent_rr abi ce (fs_tp sh) (fs_ttl sh) (fs_ts sh) (fs_flags sh) data;
        if negb ok then free_cent abi ce;; mret Exit else
        read_rrs n ce sh (Nat.max dtsz rdlen) f
      end
    end
  end.

(** The record sets of an entry, in ascending order of their types. Two of the
    error exits do not free the entry. *)
Fixpoint read_sets (n : nat) (prevtp : Z) (ce dtsz : nat) (f : list byte) : M (reading nat) :=
  match n with
  | O => mret (Go dtsz f)
  | S n =>
    match fread sizeof_fset f with
    | None => free_cent abi ce;; mret Stop
    | Some (b, f) =>
      let sh := get_fset b in
      if PDNSD_NOT_CACHED_TYPE (fs_tp sh) then mret Stop else
      if fs_tp sh <=? prevtp then mret Stop else
      ok ← add_cent_rrset_by_type abi ce (fs_tp sh) (fs_ttl sh) (fs_ts sh) (fs_flags sh);
      if negb ok then free_cent abi ce;; mret Exit else
      r ← read_rrs (fs_num_rr sh) ce sh dtsz f;
      match r with
      | Go dtsz f => read_sets n (fs_tp sh) ce dtsz f
      | Stop => mret Stop
      | Exit => mret Exit
      end
    end
  end.

(** The test of a name, without the zero byte at its end. *)
Fixpoint check_name (fuel : nat) (nb : list byte) : bool :=
  match nb with
  | [] => true
  | b :: nb =>
    match fuel with
    | O => false
    | S fuel =>
      let lb := b2n b in
      negb ((lb =? 0)%nat || (63 <? lb)%nat || (length nb <? lb)%nat) && check_name fuel (drop lb nb)
    end
  end.

(** One entry; the entry that was handed to [add_cache] is returned for the
    statements about reading. *)
Definition read_entry (dtsz : nat) (f : list byte) : M (reading (nat * dns_cent_t)) :=
  match fread sizeof_dns_file f with
  | None => mret Stop
  | Some (b, f) =>
    let fe := get_dns_file b in
    match (if has (df_flags fe) DF_NEGATIVE then fread sizeof_fttlts f else Some (repeat x00 sizeof_fttlts, f)) with
    | None => mret Stop
    | Some (fttlts, f) =>
      match fread (df_qlen fe) f with
      | None => mret Stop
      | Some (nb, f) =>
        if negb (check_name (length nb) nb) then mret Stop else
        ce ← init_cent abi (nb ++ [x00]) (time_field 0 fttlts) (time_field (w_time ar) fttlts) (df_flags fe);
        match ce with
        | None => mret Exit
        | Some ce =>
          c ← load ce;
          store ce (with_soa (df_c_soa fe) (with_ns (df_c_ns fe) c));;
          r ← read_sets (df_num_rrs fe) 0 ce dtsz f;
          match r with
          | Go dtsz f =>
            n ← load ce;
            add_cache abi global now ce;;
            free_cent abi ce;;
            mret (Go (dtsz, n) f)
          | Stop => mret Stop
          | Exit => mret Exit
          end
        end
      end
    end
  end.

(** The entries that were read, and whether the process goes on. *)
Fixpoint read_entries (fuel : nat) (cnt : Z) (dtsz : nat) (f : list byte) : M (list dns_cent_t * bool) :=
  if cnt =? 0 then mret ([], true) else
  match fuel with
  | O => fail
  | S fuel =>
    r ← read_entry dtsz f;
    match r with
    | Go (dtsz, n) f => '(ns, ok) ← read_entries fuel (cnt - 1) dtsz f; mret (n :: ns, ok)
    | Stop => mret ([], true)
    | Exit => mret ([], false)
    end
  end.

(** The file after its version. *)
Definition read_body (f : list byte) : M (list dns_cent_t * bool) :=
  match fread (length cachverid) f with
  | None => mret ([], true)
  | Some (v, f) =>
    if negb (bool_decide (v = cachverid)) then mret ([], true) else
    match fread (w_long ar) f with
    | None => mret ([], true)
    | Some (c, f) => read_entries (S (length f)) (le_load c) 512 f
    end
  end.

Definition read_disk_cache (f : list byte) : M (list dns_cent_t * bool) :=
  ok ← malloc;
  if negb ok then mret ([], false) else
  modify (set_sort false);;
  '(ns, ok) ← read_body f;
  if negb ok then mret (ns, false) else
  s ← get;
  (if insert_sort s then mret tt else sort_list;; modify (set_sort true));;
  mret (ns, true).

(** ** Writing *)

Definition nonlocal (r : rr_set_t) : bool := negb (has (rflags r) CF_LOCAL).

Definition put_rr (d : list byte) : list byte := le_store 2 (zlen d) ++ d.

(** At most 255 records of a set are saved. *)
Definition write_rrset (tp : Z) (r : rr_set_t) : list byte :=
  let ds := take 255 (rrs r) in
  put_fset (FSet tp (length ds) (rflags r) (ttl r) (ts r)) ++ concat (map put_rr ds).

Definition is_nonlocal (x : option rr_set_t) : bool := match x with Some r => nonlocal r | None => false end.

(** The entry is saved: something of it is not local. *)
Definition saved (c : dns_cent_t) : bool :=
  if negative c then negb (has (flags c) DF_LOCAL)
  else existsb is_nonlocal (arr c).

Definition count_nonlocal (x : list (option rr_set_t)) : nat :=
  length (base.filter (fun y => is_nonlocal y = true) x).

Definition write_sets (c : dns_cent_t) (tps : list Z) : list byte :=
  concat (map (fun tp => match getrrset_eff c tp with
                         | Some r => if nonlocal r then write_rrset tp r else []
                         | None => []
                         end) tps).

Definition write_entry (c : dns_cent_t) : list byte :=
  let qn := take (length (qname c) - 1) (qname c) in
  put_dns_file (DnsFile (length qn) (count_nonlocal (arr c)) (flags c) (c_ns c) (c_soa c)) ++
  (match negative c, body c with true, Neg _ tl t => put_time tl ++ put_time t | _, _ => [] end) ++
  qn ++ write_sets c (RRITERLIST c).

Variable order : gmap (list byte) nat -> list nat.

(** The entries of the table. *)
Definition enumerate (s : cache) : list dns_cent_t := omap (fun a => cents s !! a) (order (hash s)).

Definition disk_file (cs : list dns_cent_t) : list byte :=
  cachverid ++ le_store (w_long ar) (Z.of_nat (length cs)) ++ concat (map write_entry cs).

(** The file that is written. *)
Definition write_disk_cache : M (list byte) :=
  purge_cache abi now (perm_cache global * 1024) false;;
  s ← get;
  mret (disk_file (base.filter (fun c => saved c = true) (enumerate s))).

End Disk.
