(* ===== verification/PdnsdDiskInv.v ===== *)
(** * Reading any file as a disk cache

    [read_disk_cache] on arbitrary bytes: it ends, uses no freed memory, keeps the
    invariant of the cache, and whatever is in the cache afterwards was there before
    or belongs to an entry it read. *)

From S2P Require Import Prelude.
From S2P Require Import ByteOrder.
From S2P Require Import PdnsdNames.
From S2P Require Import PdnsdCompress.
From S2P Require Import PdnsdHash.
From S2P Require Import PdnsdSort.
From S2P Require Import PdnsdCent.
From S2P Require Import PdnsdCache.
From S2P Require Import PdnsdCacheCost.
From S2P Require Import PdnsdCentInv.
From S2P Require Import PdnsdCacheInv.
From S2P Require Import PdnsdCacheOps.
From S2P Require Import PdnsdCacheAdd.
From S2P Require Import PdnsdCacheOwn.
From S2P Require Import PdnsdDisk.

Open Scope Z_scope.

(** ** Types and names *)

Lemma fread_some n f b f' : fread n f = Some (b, f') -> f = b ++ f' /\ length b = n.
Proof.
  unfold fread. case_match eqn:E; [|done]. intros [= <- <-]. apply Nat.leb_le in E. rewrite take_drop, length_take. split; [done|lia].
Qed.

Lemma fread_length n f b f' : fread n f = Some (b, f') -> (length f' + n = length f)%nat.
Proof. intros [-> <-]%fread_some. rewrite length_app. lia. Qed.

Lemma rrlkuptab_nodup : NoDup rrlkuptab.
Proof. apply (bool_decide_unpack _). vm_compute. exact I. Qed.

Lemma rr_index_inj tp tp' i : rr_index tp = Some i -> rr_index tp' = Some i -> tp = tp'.
Proof.
  unfold rr_index. destruct (_ && _) eqn:E; [|done]. destruct (_ && _) eqn:E' in |- *; [|done]. intros H H'.
  pose proof (proj1 (NoDup_alt rrlkuptab) rrlkuptab_nodup _ _ _ H H').
  apply andb_true_iff in E as [E1%Z.leb_le _], E' as [E1'%Z.leb_le _]. unfold T_MIN in *. lia.
Qed.

Lemma check_name_labels fuel : forall nb, check_name fuel nb = true -> exists A, Forall valid_label A /\ nb = enc_labels A.
Proof.
  induction fuel as [|fuel IH]; intros [|b nb]; cbn [check_name]; try done; try (intros _; by exists []).
  intros [H1%negb_true_iff H2]%andb_true_iff. apply orb_false_iff in H1 as [[E1%Nat.eqb_neq E2%Nat.ltb_ge]%orb_false_iff E3%Nat.ltb_ge].
  destruct (IH _ H2) as (A & V & E). exists (take (b2n b) nb :: A). assert (length (take (b2n b) nb) = b2n b) as L by (rewrite length_take; lia).
  split; [constructor; [unfold valid_label; lia|done]|]. change (b :: nb = (n2b (length (take (b2n b) nb)) :: take (b2n b) nb) ++ enc_labels A).
  rewrite L, n2b_b2n, <- E. simpl. by rewrite take_drop.
Qed.

Section Read.

Variable abi : sizes.
Variable global : globals.
Variable now : Z.
Variable ar : arch.

Notation Core := (Core abi).
Notation Inv := (Inv abi).
Notation cent_ok := (cent_ok abi).
Notation quiet := (quiet abi).
Notation added := (added abi global).

(** ** Building an entry *)

(** [add_cent_rr] where the record set is there. *)
Lemma add_rr_found s a c type i r tl t f d : Core s -> cents s !! a = Some c -> rr_index type = Some i -> (i < NRRTOT)%nat ->
  RRARR_INDEX c i = Some r ->
  post (add_cent_rr abi a type tl t f d) s (fun ok s' => Core s' /\ touches a s s' /\ exists c' r', cents s' !! a = Some c' /\
    lent r' = lent r /\ (forall j, RRARR_INDEX c' j = if decide (j = i) then Some r' else RRARR_INDEX c j) /\
    (ok = true -> has (flags c) DF_LOCAL && negb (has f CF_LOCAL) = false -> d ∉ rrs r ->
     r' = RRSet (lent r) (Z.min tl (ttl r)) (ts r) (rflags r) (rrs r ++ [d]))).
Proof.
  intros K Ha Hi Li Hr. pose proof (k_cents _ _ K _ _ Ha) as Ok. unfold add_cent_rr. pstep. eapply post_load; [done|].
  assert (forall j, RRARR_INDEX c j = if decide (j = i) then Some r else RRARR_INDEX c j) as Same by (intros j; case_decide; by subst).
  pstep. { pstep. split; [done|]. split; [done|]. by exists c, r. }
  rewrite Hi. pstep. apply post_assert; [by apply Nat.ltb_lt|]. rewrite (testext abi) by done. rewrite Hr. pstep. pstep.
  set (r1 := RRSet _ _ _ _ _). destruct (set_slot_works abi s a c i r r1) as (K1 & T1 & I1); try done.
  set (c1 := set_slot i (Some r1) c) in *. set (s1 := set_cents _ _) in *.
  assert (cents s1 !! a = Some c1) as Ha1 by (simpl; apply lookup_insert_eq).
  case_bool_decide as Hd. { pstep. split; [done|]. split; [done|]. exists c1, r1. split; [done|]. split; [done|]. split; [done|]. done. }
  pstep. change (match rrs r with [] => None | _ => Some (length (rrs r) - 1)%nat end) with (tail_of (rrs r)).
  eapply post_mono; [apply (add_rr_int_post abi s1 a c1 i); try done; by rewrite I1, decide_True|].
  intros n s2 (K2 & T2 & c2 & Ha2 & _ & M2). pstep. split; [done|]. split; [by etrans|]. rewrite I1, decide_True in M2 by done.
  destruct (tail_of_next (rrs r) d) as [E1 _]. destruct n as [n|].
  - destruct M2 as [-> M2]. rewrite E1 in M2. exists c2, (with_rrs (rrs r ++ [d]) r1). split; [done|]. split; [done|]. split; [|done].
    intros j. rewrite M2, I1. simpl. change (length (rrs r)) with (length (rrs r1)). rewrite grow_end. by destruct (decide (j = i)).
  - exists c2, r1. split; [done|]. split; [done|]. split; [intros j; by rewrite M2|]. by rewrite bool_decide_false by (by intros [? ?]).
Qed.

Lemma own_state s b c s' c' : Inv s -> own s b c -> Core s' -> touches b s s' -> cents s' !! b = Some c' ->
  (forall i, lent_at c' i = None) -> quiet s s' /\ own s' b c'.
Proof.
  intros I Ow K' T Hb' Nl. split; [by eapply own_touched|]. split; [done|]. rewrite (t_hash _ _ _ T). apply Ow.
Qed.

Lemma slots_unlisted c : body c = RR (arr c) -> (forall j r, RRARR_INDEX c j = Some r -> lent r = None) -> forall i, lent_at c i = None.
Proof.
  intros B H [i|]; [|unfold lent_at; by rewrite B]. rewrite lent_at_slot. destruct (RRARR_INDEX c i) as [r|] eqn:E; [|done]. simpl. eauto.
Qed.

Lemma own_slot s b c j r : Inv s -> own s b c -> RRARR_INDEX c j = Some r -> lent r = None.
Proof. intros I Ow Hr. pose proof (own_unlisted abi s b c (Some j) I Ow) as H. by rewrite lent_at_slot, Hr in H. Qed.

Lemma own_add_rr s b c type i r tl t f d : Inv s -> own s b c -> rr_index type = Some i -> (i < NRRTOT)%nat -> RRARR_INDEX c i = Some r ->
  post (add_cent_rr abi b type tl t f d) s (fun ok s' => quiet s s' /\ exists c' r', own s' b c' /\ like c c' /\
    (forall j, RRARR_INDEX c' j = if decide (j = i) then Some r' else RRARR_INDEX c j) /\
    (ok = true -> has (flags c) DF_LOCAL && negb (has f CF_LOCAL) = false -> d ∉ rrs r ->
     r' = RRSet None (Z.min tl (ttl r)) (ts r) (rflags r) (rrs r ++ [d]))).
Proof.
  intros I Ow Hi Li Hr. pose proof (own_slot s b c i r I Ow Hr) as Nl.
  eapply post_mono; [apply (add_rr_found s b c type i r); try done; [apply I|apply Ow]|].
  intros ok s' (K' & T & c' & r' & Hb' & Hl & Ix & Sp). destruct (own_state s b c s' c') as [Q Ow']; try done.
  { apply slots_unlisted; [apply (index_body c' i r'); by rewrite Ix, decide_True|]. intros j r0. rewrite Ix.
    destruct (decide (j = i)); [intros [= <-]; congruence|]. by eapply own_slot. }
  split; [done|]. exists c', r'. split; [done|]. split; [exact (touch_like _ _ _ _ _ T (proj1 Ow) Hb')|]. split; [done|]. by rewrite <- Nl.
Qed.

Lemma own_add_set s b c i tl t f : Inv s -> own s b c -> RRARR_INDEX c i = None -> (i < NRRTOT)%nat ->
  post (add_cent_rrset_by_index abi b i tl t f) s (fun ok s' => quiet s s' /\ exists c', own s' b c' /\ like c c' /\ body c' = RR (arr c') /\
    forall j, RRARR_INDEX c' j = if decide (j = i /\ ok = true) then Some (RRSet None tl t f []) else RRARR_INDEX c j).
Proof.
  intros I Ow Hn Li. eapply post_mono; [apply (add_set_post abi s b c i); try done; [apply I|apply Ow]|].
  intros ok s' (K' & T & c' & Hb' & B & Ix). destruct (own_state s b c s' c') as [Q Ow']; try done.
  { apply slots_unlisted; [done|]. intros j r0. rewrite Ix. destruct (decide (j = i /\ ok = true)); [intros Hj; by simplify_eq|]. by eapply own_slot. }
  split; [done|]. exists c'. split; [done|]. split; [exact (touch_like _ _ _ _ _ T (proj1 Ow) Hb')|]. done.
Qed.

Lemma own_free s b c : Inv s -> own s b c -> post (free_cent abi b) s (fun _ s' => quiet s s').
Proof.
  intros I Ow. eexists _, _. split; [apply (free_cent_run abi s b c); [apply I|apply Ow]|]. by eapply own_freed.
Qed.

(** ** Reading *)

Lemma calm_read_rrs n : forall ce sh dtsz f, calm (read_rrs abi n ce sh dtsz f).
Proof.
  induction n as [|n IH]; intros ce sh dtsz f; cbn [read_rrs]; [calm_step|]. pose proof (calm_free abi ce) as Cf.
  destruct (fread 2 f) as [[b f1]|]; [|repeat calm_step]. apply calm_bind; [repeat calm_step|intros ok].
  calm_step; [repeat calm_step|]. destruct (fread _ f1) as [[data f2]|]; [|repeat calm_step].
  apply calm_bind; [apply calm_add_rr|intros ok']. calm_step; [repeat calm_step|apply IH].
Qed.

Lemma calm_read_sets n : forall prevtp ce dtsz f, calm (read_sets abi ar n prevtp ce dtsz f).
Proof.
  induction n as [|n IH]; intros prevtp ce dtsz f; cbn [read_sets]; [calm_step|]. pose proof (calm_free abi ce) as Cf.
  destruct (fread _ f) as [[b f1]|]; [|repeat calm_step]. calm_step; [calm_step|]. calm_step; [calm_step|].
  apply calm_bind; [unfold add_cent_rrset_by_type; calm_step; [apply calm_add_set|calm_step]|intros ok].
  calm_step; [repeat calm_step|]. apply calm_bind; [apply calm_read_rrs|intros [dtsz' f2| |]]; [apply IH|calm_step..].
Qed.

Definition entry_cost : nat := S (S NRRTOT).

Lemma costs_read_entry dtsz f : costs entry_cost (read_entry abi global now ar dtsz f).
Proof.
  unfold read_entry. destruct (fread _ f) as [[b f1]|]; [|calm_step]. destruct (if has _ _ then _ else _) as [[tt f2]|]; [|calm_step].
  destruct (fread _ f2) as [[nb f3]|]; [|calm_step]. calm_step; [calm_step|].
  apply (costs_bind 1 (S NRRTOT)); [apply costs_init|intros [ce|]]; [|calm_step]. calm_step. calm_step.
  apply calm_bind; [apply calm_read_sets|intros [dtsz' f4| |]]; [|calm_step..]. calm_step.
  apply calm_after; [apply costs_add_cache|intros ?]. apply calm_bind; [apply calm_free|intros ?; calm_step].
Qed.

Lemma read_rrs_post n : forall s ce c i r sh dtsz f, Inv s -> own s ce c -> rr_index (fs_tp sh) = Some i -> (i < NRRTOT)%nat ->
  RRARR_INDEX c i = Some r ->
  post (read_rrs abi n ce sh dtsz f) s (fun res s' => quiet s s' /\
    match res with
    | Go _ f' => (length f' <= length f)%nat /\ exists c' r', own s' ce c' /\
        forall j, RRARR_INDEX c' j = if decide (j = i) then Some r' else RRARR_INDEX c j
    | _ => True
    end).
Proof.
  induction n as [|n IH]; intros s ce c i r sh dtsz f I Ow Hi Li Hr; cbn [read_rrs].
  { pstep. split; [by apply quiet_refl|]. split; [done|]. exists c, r. split; [done|]. intros j. case_decide; by subst. }
  assert (forall s1 (res : reading nat), quiet s s1 -> own s1 ce c -> match res with Go _ _ => False | _ => True end ->
    post (free_cent abi ce;; mret res) s1 (fun res s' => quiet s s' /\
      match res with
      | Go _ f' => (length f' <= length f)%nat /\ exists c' r', own s' ce c' /\
          forall j, RRARR_INDEX c' j = if decide (j = i) then Some r' else RRARR_INDEX c j
      | _ => True
      end)) as Quit.
  { intros s1 res Q Ow1 Hres. pstep. eapply post_mono; [apply (own_free s1 ce c); [apply Q|done]|]. intros ? s2 Q2. pstep.
    split; [by eapply quiet_trans|]. by destruct res. }
  destruct (fread 2 f) as [[b f1]|] eqn:F1; [|apply Quit; [by apply quiet_refl|done..]]. pstep.
  eapply (post_mono _ _ (fun _ s1 => exists m, s1 = set_mallocs m s)).
  { case_match; [apply post_malloc; eauto|]. pstep. exists (mallocs s). by destruct s. }
  intros ok s1 [m ->]. assert (quiet s (set_mallocs m s)) as Q1 by (apply fine_quiet, fine_ext; [by apply inv_mallocs|done..]).
  destruct ok; simpl; [|by apply Quit]. destruct (fread _ f1) as [[data f2]|] eqn:F2; [|by apply Quit]. pstep.
  eapply post_mono; [apply (own_add_rr (set_mallocs m s) ce c (fs_tp sh) i r); try done; apply Q1|].
  intros ok s2 (Q2 & c2 & r2 & Ow2 & _ & Ix2 & _). pose proof (quiet_trans _ _ _ _ Q1 Q2) as Q02. destruct ok; simpl.
  - eapply post_mono; [apply (IH s2 ce c2 i r2); try done; [apply Q02|by rewrite Ix2, decide_True]|].
    intros res s3 [Q3 H]. split; [by eapply quiet_trans|]. destruct res as [x f3| |]; [|done..]. destruct H as (L & c3 & r3 & Ow3 & Ix3).
    apply fread_length in F1, F2. split; [lia|]. exists c3, r3. split; [done|]. intros j. rewrite Ix3, Ix2. by destruct (decide (j = i)).
  - pstep. eapply post_mono; [apply (own_free s2 ce c2); [apply Q02|done]|]. intros ? s3 Q3. pstep. split; [by eapply quiet_trans|done].
Qed.

(** The types read so far are at most [prevtp]. *)
Definition types_upto (prevtp : Z) (c : dns_cent_t) : Prop :=
  forall j r, RRARR_INDEX c j = Some r -> exists tp, rr_index tp = Some j /\ tp <= prevtp.

Lemma types_fresh prevtp c tp i : types_upto prevtp c -> rr_index tp = Some i -> prevtp < tp -> RRARR_INDEX c i = None.
Proof.
  intros H Hi L. destruct (RRARR_INDEX c i) as [r|] eqn:E; [|done]. destruct (H i r E) as (tp' & Hi' & L').
  pose proof (rr_index_inj tp tp' i Hi Hi'). lia.
Qed.

Lemma read_sets_post n : forall s prevtp ce c dtsz f, Inv s -> own s ce c -> types_upto prevtp c ->
  post (read_sets abi ar n prevtp ce dtsz f) s (fun res s' => quiet s s' /\
    match res with
    | Go _ f' => (length f' <= length f)%nat /\ exists c', own s' ce c'
    | _ => True
    end).
Proof.
  induction n as [|n IH]; intros s prevtp ce c dtsz f I Ow Ty; cbn [read_sets].
  { pstep. split; [by apply quiet_refl|]. eauto. }
  assert (forall s1 c1 (res : reading nat), quiet s s1 -> own s1 ce c1 -> match res with Go _ _ => False | _ => True end ->
    post (free_cent abi ce;; mret res) s1 (fun res s' => quiet s s' /\
      match res with Go _ f' => (length f' <= length f)%nat /\ exists c', own s' ce c' | _ => True end)) as Quit.
  { intros s1 c1 res Q Ow1 Hres. pstep. eapply post_mono; [apply (own_free s1 ce c1); [apply Q|done]|]. intros ? s2 Q2. pstep.
    split; [by eapply quiet_trans|]. by destruct res. }
  destruct (fread _ f) as [[b f1]|] eqn:F1; [|eapply Quit; [by apply quiet_refl|done..]]. set (sh := get_fset ar b).
  destruct (PDNSD_NOT_CACHED_TYPE (fs_tp sh)) eqn:Nc; [pstep; split; [by apply quiet_refl|done]|].
  destruct (cacheable _ Nc) as (i & Hi & Li). destruct (Z.leb_spec (fs_tp sh) prevtp) as [L|L]; [pstep; split; [by apply quiet_refl|done]|].
  pstep. unfold add_cent_rrset_by_type. rewrite Hi. pose proof (types_fresh _ _ _ _ Ty Hi L) as Hn.
  eapply post_mono; [by apply (own_add_set s ce c i)|]. intros ok s1 (Q1 & c1 & Ow1 & _ & _ & Ix1).
  destruct ok; simpl; [|by eapply Quit]. pstep.
  eapply post_mono; [apply (read_rrs_post _ s1 ce c1 i (RRSet None (fs_ttl sh) (fs_ts sh) (fs_flags sh) [])); try done; [apply Q1|by rewrite Ix1, decide_True]|].
  intros res s2 [Q2 H2]. pose proof (quiet_trans _ _ _ _ Q1 Q2) as Q02. destruct res as [dtsz2 f2| |]; [|by pstep..].
  destruct H2 as (L2 & c2 & r2 & Ow2 & Ix2).
  eapply post_mono; [apply (IH s2 (fs_tp sh) ce c2 dtsz2 f2); [apply Q02|done|]|].
  - intros j r. rewrite Ix2. destruct (decide (j = i)) as [->|Nj]; [intros _; by exists (fs_tp sh)|].
    rewrite Ix1, decide_False by naive_solver. intros Hj. destruct (Ty j r Hj) as (tp & ? & ?). exists tp. split; [done|lia].
  - intros res s3 [Q3 H3]. split; [by eapply quiet_trans|]. destruct res as [dtsz3 f3| |]; [|done..]. destruct H3 as [L3 H3].
    apply fread_length in F1. split; [lia|done].
Qed.

(** The cache after the entries [ns] were read. *)
Record loads (ns : list dns_cent_t) (s s' : cache) : Prop := {
  ld_inv : Inv s';
  ld_from : forall k c' i r', view s' k = Some c' -> RRARR_INDEX c' i = Some r' ->
    (exists c r, view s k = Some c /\ RRARR_INDEX c i = Some r /\ same_data r r') \/
    (exists n new, n ∈ ns /\ k = lower (qname n) /\ RRARR_INDEX n i = Some new /\ same_data (adjust_ttl global new) r');
  ld_kept : Forall (fun n => none_local (arr n)) ns -> kept s s';
}.

Lemma quiet_loads s s' : quiet s s' -> loads [] s s'.
Proof. intros [I K S]. constructor; [done| |done]. intros k c i r Hc Hr. left. by apply (S k c). Qed.

Lemma added_loads n s s' : added n s s' -> loads [n] s s'.
Proof.
  intros [I _ G K]. constructor; [done| |].
  - intros k c i r Hc Hr. destruct (G k c i r Hc Hr) as [|(-> & new & Hn & Sd)]; [by left|]. right. exists n, new.
    split; [by apply list_elem_of_singleton|done].
  - intros [H _]%Forall_cons. auto.
Qed.

Lemma loads_trans ns ns' s1 s2 s3 : loads ns s1 s2 -> loads ns' s2 s3 -> loads (ns ++ ns') s1 s3.
Proof.
  intros [I1 F1 K1] [I2 F2 K2]. constructor; [done| |].
  - intros k c i r Hc Hr. destruct (F2 k c i r Hc Hr) as [(c' & r' & Hc' & Hr' & Sd)|(n & new & Hn & -> & Hi & Sd)].
    + destruct (F1 k c' i r' Hc' Hr') as [(c0 & r0 & ? & ? & Sd')|(n & new & Hn & -> & Hi & Sd')].
      * left. exists c0, r0. split; [done|]. split; [done|by etrans].
      * right. exists n, new. split; [apply elem_of_app; by left|]. split; [done|]. split; [done|by etrans].
    + right. exists n, new. split; [apply elem_of_app; by right|done].
  - intros [H1 H2]%Forall_app. etrans; auto.
Qed.

(** A new entry with its references set. *)
Lemma init_own s m c ns soa : Inv s -> cent_ok c -> (forall i, lent_at c i = None) -> (forall i, RRARR_INDEX c i = None) ->
  let c' := with_soa soa (with_ns ns c) in
  quiet s (set_cents (<[fresh s := c']> (cents (with_new c m s))) (with_new c m s)) /\
  own (set_cents (<[fresh s := c']> (cents (with_new c m s))) (with_new c m s)) (fresh s) c' /\ forall i, RRARR_INDEX c' i = None.
Proof.
  intros I Ok Nl Ni c'. pose proof (b_core _ _ (i_base _ _ I)) as K.
  assert (set_cents (<[fresh s := c']> (cents (with_new c m s))) (with_new c m s) = with_new c' m s) as ->.
  { unfold with_new, set_cents. simpl. by rewrite insert_insert_eq. }
  split; [|split; [split|done]].
  - apply fine_quiet, fine_with_new; [done| |done]. apply (indifferent_ok abi c); [|done]. by constructor.
  - simpl. apply lookup_insert_eq.
  - intros k. simpl. by apply (fresh_unhashed abi).
Qed.

Lemma read_entry_post dtsz f s : Inv s -> sortable entry_cost s ->
  post (read_entry abi global now ar dtsz f) s (fun res s' =>
    match res with
    | Go (_, n) f' => (length f' + 6 <= length f)%nat /\ loads [n] s s'
    | _ => loads [] s s'
    end).
Proof.
  intros I So. pose proof (quiet_loads _ _ (quiet_refl _ _ I)) as Same. unfold read_entry.
  destruct (fread _ f) as [[b f1]|] eqn:F1; [|by pstep]. apply fread_length in F1. unfold sizeof_dns_file in F1. set (fe := get_dns_file b).
  destruct (if has (df_flags fe) DF_NEGATIVE then _ else _) as [[ft f2]|] eqn:F2; [|by pstep].
  assert (length f2 <= length f1)%nat as L2 by (destruct (has _ _); [apply fread_length in F2; lia|by injection F2 as _ <-]).
  destruct (fread _ f2) as [[nb f3]|] eqn:F3; [|by pstep]. pose proof (fread_length _ _ _ _ F3) as L3.
  destruct (check_name (length nb) nb) eqn:Ck; simpl; [|by pstep].
  destruct (check_name_labels _ _ Ck) as (A & V & ->). assert (valid_name A) as Va.
  { split; [done|]. apply fread_some in F3 as [_ F3]. rewrite length_wire, F3. unfold fe, get_dns_file; simpl.
    pose proof (le_load_range (take 1 (drop 0 b))). unfold DNSNAMEBUFSIZE. unfold field.
    assert (zlen (take 1 (drop 0 b)) <= 1) by (unfold zlen; rewrite length_take; lia). assert (256 ^ zlen (take 1 (drop 0 b)) <= 256 ^ 1) by (apply Z.pow_le_mono_r; lia). lia. }
  change (enc_labels A ++ [x00]) with (wire A). pstep.
  eapply post_mono; [eapply post_costs; [apply costs_init|by apply (init_cent_post abi s A); [apply I|]]|].
  intros res s1 [(m & [[-> ->]|(c & -> & -> & Ok & Fl & Ni & Nl)]) So1].
  { pstep. apply quiet_loads, fine_quiet, fine_ext; [by apply inv_mallocs|done..]. }
  pstep. eapply (post_load (fresh s) c); [simpl; apply lookup_insert_eq|]. pstep. pstep.
  destruct (init_own s m c (df_c_ns fe) (df_c_soa fe)) as (Q1 & Ow1 & Ni1); try done.
  set (c1 := with_soa _ _) in *. set (s1 := set_cents _ _) in *. pstep.
  eapply post_mono; [eapply post_costs; [apply calm_read_sets|apply (read_sets_post _ s1 0 (fresh s) c1); [apply Q1|done|]]|].
  { intros j r. by rewrite Ni1. }
  intros res s2 [[Q2 H2] So2]. pose proof (quiet_trans _ _ _ _ Q1 Q2) as Q02.
  destruct res as [dtsz2 f4| |]; [|by pstep; apply quiet_loads..]. destruct H2 as (L4 & n & Ow2).
  pstep. eapply (post_load (fresh s) n); [apply Ow2|]. pstep.
  eapply post_mono; [apply (add_cache_post abi global now s2 (fresh s) n); try apply Ow2; [apply Q02|exact (So2 _ (So1 _ So))]|].
  intros ? s3 A3. pstep.
  destruct (ad_foreign _ _ _ _ _ A3 (fresh s) n (proj1 Ow2) (proj2 Ow2)) as [Hb3 Nb3].
  eapply post_mono; [apply (own_free s3 (fresh s) n); [apply A3|done]|]. intros ? s4 Q4. pstep. split; [lia|].
  pose proof (loads_trans _ _ _ _ _ (quiet_loads _ _ Q02) (loads_trans _ _ _ _ _ (added_loads _ _ _ A3) (quiet_loads _ _ Q4))) as H.
  exact H.
Qed.

Lemma read_entries_post fuel : forall cnt dtsz f s, Inv s -> (length f < fuel)%nat -> sortable (entry_cost * S (length f)) s ->
  post (read_entries abi global now ar fuel cnt dtsz f) s (fun '(ns, _) s' => loads ns s s' /\ sortable 0 s').
Proof.
  induction fuel as [|fuel IH]; intros cnt dtsz f s I L So; [lia|]. pose proof (quiet_loads _ _ (quiet_refl _ _ I)) as Same.
  assert (sortable 0 s) as So0 by (by apply (sortable_le (entry_cost * S (length f))); [apply Nat.le_0_l|]).
  cbn [read_entries]. destruct (cnt =? 0); [by pstep|]. pstep.
  assert (sortable (entry_cost + entry_cost * length f) s) as So' by (apply (sortable_le (entry_cost * S (length f))); [lia|done]).
  eapply post_mono; [eapply post_costs; [apply costs_read_entry|apply read_entry_post; [done|]]|].
  { by apply (sortable_le (entry_cost + entry_cost * length f)); [lia|]. }
  intros res s1 [H So1]. specialize (So1 _ So').
  destruct res as [[dtsz1 n] f1| |].
  - destruct H as [L1 H]. pstep. eapply post_mono; [apply (IH (cnt - 1) dtsz1 f1 s1); [apply H|lia|]|].
    + apply (sortable_le (entry_cost * length f)); [apply Nat.mul_le_mono_l; lia|done].
    + intros [ns ok] s2 [H2 So2]. pstep. split; [|done]. exact (loads_trans [n] ns _ _ _ H H2).
  - pstep. split; [done|]. by apply (sortable_le (entry_cost * length f)); [apply Nat.le_0_l|].
  - pstep. split; [done|]. by apply (sortable_le (entry_cost * length f)); [apply Nat.le_0_l|].
Qed.

(** ** The whole file *)

Lemma read_body_post f s : Inv s -> sortable (entry_cost * S (length f)) s ->
  post (read_body abi global now ar f) s (fun '(ns, _) s' => loads ns s s' /\ sortable 0 s').
Proof.
  intros I So. pose proof (quiet_loads _ _ (quiet_refl _ _ I)) as Same.
  assert (sortable 0 s) as So0 by (by apply (sortable_le (entry_cost * S (length f))); [apply Nat.le_0_l|]).
  unfold read_body. destruct (fread _ f) as [[v f1]|] eqn:F1; [|by pstep]. destruct (bool_decide _); cbn [negb]; [|by pstep].
  destruct (fread _ f1) as [[c f2]|] eqn:F2; [|by pstep]. apply fread_length in F1, F2.
  apply (read_entries_post (S (length f2)) _ _ f2 s); [done|lia|]. apply (sortable_le (entry_cost * S (length f))); [apply Nat.mul_le_mono_l; lia|done].
Qed.

(** No file is too long for the merge sort below this size. *)
Definition fits (f : list byte) (s : cache) : Prop := Z.of_nat (fresh s + entry_cost * S (length f)) < 2 ^ 32.

Lemma read_disk_post f s : Inv s -> insert_sort s = true -> fits f s ->
  post (read_disk_cache abi global now ar f) s (fun '(ns, ok) s' => loads ns s s' /\ (ok = true -> insert_sort s' = true)).
Proof.
  intros I So Ft. unfold read_disk_cache. pstep. apply post_malloc. intros ok m.
  assert (quiet s (set_mallocs m s)) as Q1 by (apply fine_quiet, fine_ext; [by apply inv_mallocs|done..]).
  destruct ok; simpl; [|pstep; split; [by apply quiet_loads|done]]. pstep. pstep. set (s1 := set_sort false _).
  assert (Inv s1) as I1 by (by apply (inv_same abi s)).
  assert (quiet s s1) as Q by (apply fine_quiet, fine_ext; done). pstep.
  eapply post_mono; [apply (read_body_post f s1 I1); right; exact Ft|]. intros [ns ok] s2 [H So2].
  pose proof (loads_trans _ _ _ _ _ (quiet_loads _ _ Q) H) as H2. simpl in H2. destruct ok; simpl; [|by pstep]. pstep. pstep. pstep.
  destruct (insert_sort s2) eqn:Is; [by pstep; pstep|]. destruct So2 as [?|So2]; [congruence|].
  pose proof (b_core _ _ (i_base _ _ (ld_inv _ _ _ H))) as K2. pose proof (list_length abi s2 K2). pstep.
  eapply post_mono; [apply (sort_list_post abi s2 K2); lia|]. intros _ s3 (L & -> & P). pstep. pstep. split; [|done].
  rewrite <- (app_nil_r ns). apply (loads_trans _ _ _ _ _ H2), quiet_loads, fine_quiet, fine_ext; [|done..].
  apply inv_perm; [apply H|done].
Qed.

End Read.
