(* ===== verification/PdnsdCacheSure.v ===== *)
(** * Operations of the DNS cache when memory is available

    A calculus for what programs return when no allocation fails, for the operations that
    build entries and copies, and for [read_disk_cache]: it ends the process only when an
    allocation fails, never because of what the file holds. *)

From S2P Require Import Prelude.
From S2P Require Import ByteOrder.
From S2P Require Import PdnsdNames.
From S2P Require Import PdnsdHash.
From S2P Require Import PdnsdSort.
From S2P Require Import PdnsdCent.
From S2P Require Import PdnsdCache.
From S2P Require Import PdnsdCacheCost.
From S2P Require Import PdnsdCentInv.
From S2P Require Import PdnsdCacheInv.
From S2P Require Import PdnsdDisk.
From S2P Require Import PdnsdDiskInv.

Open Scope Z_scope.

(** ** Programs that succeed when memory does not run out *)

Definition sure {A} (m : M A) (good : A -> Prop) : Prop :=
  forall s r s', mallocs s = [] -> m s = Some (r, s') -> mallocs s' = [] /\ good r.

Lemma sure_bind {A B} (m : M A) (k : A -> M B) g h : sure m g -> (forall x, g x -> sure (k x) h) -> sure (m ≫= k) h.
Proof.
  intros Hm Hk s r s' E. unfold mbind, M_bind. destruct (m s) as [[x s1]|] eqn:E1; [|done]. intros E2.
  destruct (Hm s x s1 E E1) as [E3 G]. by apply (Hk x G s1).
Qed.

Lemma sure_ret {A} (x : A) (g : A -> Prop) : g x -> sure (mret x) g.
Proof. intros G s r s' E [= <- <-]. done. Qed.

Lemma sure_fail {A} (g : A -> Prop) : sure fail g.
Proof. done. Qed.

Lemma sure_malloc : sure malloc (fun b => b = true).
Proof. intros s r s' E. unfold malloc. rewrite E. by intros [= <- <-]. Qed.

Lemma sure_get : sure get (fun _ => True).
Proof. by intros s r s' E [= <- <-]. Qed.

Lemma sure_load a : sure (load a) (fun _ => True).
Proof. intros s r s' E. unfold load. destruct (cents s !! a); [|done]. by intros [= <- <-]. Qed.

Lemma sure_modify f : (forall s, mallocs (f s) = mallocs s) -> sure (modify f) (fun _ => True).
Proof. intros H s r s' E [= <- <-]. by rewrite H. Qed.

Lemma sure_store a c : sure (store a c) (fun _ => True).
Proof. by apply sure_modify. Qed.

(** What a program that gives no guarantee of its own leaves: memory is still available. *)
Lemma sure_costs {A} n (m : M A) : costs n m -> sure m (fun _ => True).
Proof. intros H s r s' E Er. destruct (H s r s' Er) as (_ & _ & K). auto. Qed.

Lemma sure_new_address : sure new_address (fun _ => True).
Proof. by intros s r s' E [= <- <-]. Qed.

(** The next step of a program. *)
Ltac sure_step :=
  lazymatch goal with
  | |- sure (mret _) _ => apply sure_ret; done
  | |- sure fail _ => apply sure_fail
  | |- sure (mbind _ malloc) _ => eapply sure_bind; [apply sure_malloc|intros ? ->; cbn [negb]]
  | |- sure (mbind _ get) _ => eapply sure_bind; [apply sure_get|intros ? _]
  | |- sure (mbind _ (load _)) _ => eapply sure_bind; [apply sure_load|intros ? _]
  | |- sure (mbind _ (store _ _)) _ => eapply sure_bind; [apply sure_store|intros ? _]
  | |- sure (mbind _ (modify _)) _ => eapply sure_bind; [by apply sure_modify|intros ? _]
  | |- sure (mbind _ new_address) _ => eapply sure_bind; [apply sure_new_address|intros ? _]
  | |- sure (if ?b then _ else _) _ => destruct b
  | |- sure (match ?x with _ => _ end) _ => destruct x
  end.

Lemma sure_insert a i : sure (insert_rrl a i) (fun ok => ok = true).
Proof.
  unfold insert_rrl. sure_step. sure_step; [sure_step|]. sure_step. sure_step.
  eapply (sure_bind _ _ (fun _ => True)); [repeat sure_step|intros t _]. sure_step.
  eapply (sure_bind _ _ (fun _ => True)); [|intros _ _].
  { sure_step; [sure_step; [by apply sure_modify|sure_step]|by apply sure_modify]. }
  eapply (sure_bind _ _ (fun _ => True)); [|intros _ _; sure_step].
  repeat sure_step; apply sure_store.
Qed.

Lemma sure_malloc_all n : sure (malloc_all n) (fun ok => ok = true).
Proof. induction n as [|n IH]; cbn [malloc_all]; repeat sure_step. exact IH. Qed.

Lemma sure_copy_slots x : sure (copy_slots x) (fun r => r <> None).
Proof.
  induction x as [|[r|] x IH]; cbn [copy_slots]; [sure_step| |].
  - unfold copy_rrset. eapply (sure_bind _ _ (fun r => r <> None)).
    + eapply sure_bind; [apply sure_malloc_all|]. intros ? ->. sure_step.
    + intros [r'|] N; [|done]. eapply sure_bind; [exact IH|]. intros [y|] Ny; [sure_step|done].
  - eapply sure_bind; [exact IH|]. intros [y|] Ny; [sure_step|done].
Qed.

Lemma sure_copy a : sure (copy_cent a) (fun r => r <> None).
Proof.
  unfold copy_cent. sure_step. sure_step. sure_step. eapply (sure_bind _ _ (fun r => r <> None)).
  - sure_step; sure_step; try sure_step.
    eapply (sure_bind _ _ (fun ok => ok = true)); [sure_step; [apply sure_malloc|sure_step]|]. intros ? ->. cbn [negb].
    eapply sure_bind; [apply sure_copy_slots|]. intros [y|] Ny; [sure_step|done].
  - intros [b|] Nb; [|done]. sure_step. sure_step. sure_step.
Qed.

Lemma sure_list_slots global n : forall i a, sure (list_slots global n i a) (fun ok => ok = true).
Proof.
  induction n as [|n IH]; intros i a; cbn [list_slots]; [sure_step|]. sure_step. sure_step; [|apply IH]. sure_step.
  eapply sure_bind; [apply sure_insert|]. intros ? ->. cbn [negb]. apply IH.
Qed.

(** Its facts join a postcondition. *)
Lemma post_sure {A} (m : M A) s Q g : mallocs s = [] -> sure m g -> post m s Q -> post m s (fun r s' => Q r s' /\ mallocs s' = [] /\ g r).
Proof. intros E H (r & s' & Er & HQ). exists r, s'. split; [done|]. split; [done|]. by apply (H s). Qed.

(** ** Building entries *)

Lemma sure_new_set abi a i tl t f : sure (add_cent_rrset_by_index abi a i tl t f) (fun ok => ok = true).
Proof.
  unfold add_cent_rrset_by_index. eapply sure_bind; [apply (sure_costs 0), calm_unnegate|intros ? _].
  eapply (sure_bind _ _ (fun _ => True)); [unfold assert_that; repeat sure_step|intros ? _]. sure_step.
  eapply (sure_bind _ _ (fun ok => ok = true)); [repeat sure_step|]. intros ? ->. cbn [negb]. repeat sure_step.
Qed.

Lemma sure_new_rr abi a i tl t f d rt : sure (add_cent_rr_int abi a i tl t f d rt) (fun r => r <> None).
Proof.
  unfold add_cent_rr_int. sure_step. eapply (sure_bind _ _ (fun ok => ok = true)).
  - sure_step; [sure_step|]. sure_step. sure_step; [sure_step|apply sure_new_set].
  - intros ? ->. cbn [negb]. sure_step. sure_step; [|sure_step]. sure_step. sure_step.
Qed.

Lemma sure_cent_rr abi a type tl t f d : sure (add_cent_rr abi a type tl t f d) (fun ok => ok = true).
Proof.
  unfold add_cent_rr. sure_step. sure_step; [sure_step|]. sure_step; [|sure_step].
  eapply (sure_bind _ _ (fun _ => True)); [unfold assert_that; repeat sure_step|intros ? _].
  assert (Hgo : forall rt i, sure (done ← add_cent_rr_int abi a i tl t f d rt; mret (bool_decide (is_Some done))) (fun ok => ok = true)).
  { intros rt i. eapply sure_bind; [apply sure_new_rr|]. intros [k|] Hk; [|done]. apply sure_ret. by apply bool_decide_eq_true. }
  sure_step; [|apply Hgo]. sure_step. sure_step; [sure_step|apply Hgo].
Qed.

Lemma sure_init_cent abi name tl t f : sure (init_cent abi name tl t f) (fun r => r <> None).
Proof. unfold init_cent. sure_step. repeat sure_step. Qed.

(** ** Reading a file *)

Section Read.

Variable abi : sizes.
Variable global : globals.
Variable now : Z.
Variable ar : arch.

(** The process goes on. *)
Definition goes_on {A} (r : reading A) : Prop := r <> Exit.

Lemma sure_free a : sure (free_cent abi a) (fun _ => True).
Proof. apply (sure_costs 0), calm_free. Qed.

(** An error in the file: what was built is given up. *)
Lemma sure_stop {A} a : sure (free_cent abi a;; mret (@Stop A)) goes_on.
Proof. eapply sure_bind; [apply sure_free|intros ? _]. by apply sure_ret. Qed.

Lemma sure_read_rrs n : forall ce sh dtsz f, sure (read_rrs abi n ce sh dtsz f) goes_on.
Proof.
  induction n as [|n IH]; intros ce sh dtsz f; cbn [read_rrs]; [by apply sure_ret|].
  destruct (fread 2 f) as [[b f1]|]; [|apply sure_stop].
  eapply (sure_bind _ _ (fun ok => ok = true)); [sure_step; [apply sure_malloc|sure_step]|]. intros ? ->. cbn [negb].
  destruct (fread _ f1) as [[data f2]|]; [|apply sure_stop]. eapply sure_bind; [apply sure_cent_rr|]. intros ? ->. apply IH.
Qed.

Lemma sure_read_sets n : forall prevtp ce dtsz f, sure (read_sets abi ar n prevtp ce dtsz f) goes_on.
Proof.
  induction n as [|n IH]; intros prevtp ce dtsz f; cbn [read_sets]; [by apply sure_ret|].
  destruct (fread _ f) as [[b f1]|]; [|apply sure_stop]. sure_step; [by apply sure_ret|]. sure_step; [by apply sure_ret|].
  eapply (sure_bind _ _ (fun ok => ok = true)); [unfold add_cent_rrset_by_type; sure_step; [apply sure_new_set|sure_step]|].
  intros ? ->. cbn [negb]. eapply sure_bind; [apply sure_read_rrs|]. intros [dtsz' f2| |] G; [apply IH|by apply sure_ret|by destruct G].
Qed.

Lemma sure_read_entry dtsz f : sure (read_entry abi global now ar dtsz f) goes_on.
Proof.
  unfold read_entry. destruct (fread _ f) as [[b f1]|]; [|by apply sure_ret]. destruct (if has _ _ then _ else _) as [[tt f2]|]; [|by apply sure_ret].
  destruct (fread _ f2) as [[nb f3]|]; [|by apply sure_ret]. sure_step; [by apply sure_ret|].
  eapply sure_bind; [apply sure_init_cent|]. intros [ce|] Hce; [|done]. sure_step. sure_step.
  eapply sure_bind; [apply sure_read_sets|]. intros [dtsz' f4| |] G; [|by apply sure_ret|by destruct G]. sure_step.
  eapply sure_bind; [eapply sure_costs, costs_add_cache|intros ? _]. eapply sure_bind; [apply sure_free|intros ? _]. by apply sure_ret.
Qed.

Lemma sure_read_entries fuel : forall cnt dtsz f, sure (read_entries abi global now ar fuel cnt dtsz f) (fun r => r.2 = true).
Proof.
  induction fuel as [|fuel IH]; intros cnt dtsz f; cbn [read_entries]; sure_step; try sure_step.
  eapply sure_bind; [apply sure_read_entry|]. intros [[dtsz' n] f1| |] G; [|sure_step|by destruct G].
  eapply sure_bind; [apply IH|]. intros [ns ok] Hok. by apply sure_ret.
Qed.

(** No file makes the process end. *)
Lemma sure_read_disk f : sure (read_disk_cache abi global now ar f) (fun r => r.2 = true).
Proof.
  unfold read_disk_cache. sure_step. sure_step. eapply (sure_bind _ _ (fun r => r.2 = true)).
  - unfold read_body. destruct (fread _ f) as [[v f1]|]; [|sure_step]. sure_step; [sure_step|].
    destruct (fread _ f1) as [[c f2]|]; [apply sure_read_entries|sure_step].
  - intros [ns ok] Hok. simpl in Hok. subst ok. cbn [negb]. sure_step. eapply (sure_bind _ _ (fun _ => True)); [|intros ? _; sure_step].
    sure_step; [sure_step|]. eapply sure_bind; [apply (sure_costs 0), calm_sort|intros ? _]. by apply sure_modify.
Qed.

End Read.
