(* ===== verification/PdnsdCacheRun.v ===== *)
(** * The DNS cache in use

    Sequences of operations on the cache by its callers: building entries, adding
    them, deleting, invalidating, looking up, reading and writing the disk cache file. The theorems hold of every state such
    a sequence reaches, whatever [malloc] answers and however the time passes. *)

From S2P Require Import Prelude.
From S2P Require Import PdnsdNames.
From S2P Require Import PdnsdCompress.
From S2P Require Import PdnsdHash.
From S2P Require Import PdnsdSort.
From S2P Require Import PdnsdCent.
From S2P Require Import PdnsdCache.
From S2P Require Import PdnsdCacheCost.
From S2P Require Import PdnsdCentInv.
From S2P Require Import PdnsdCacheInv.
From S2P Require Import PdnsdCacheOps.
From S2P Require Import PdnsdCacheAdd.
From S2P Require Import PdnsdCacheOwn.
From S2P Require Import PdnsdDisk.
From S2P Require Import PdnsdDiskInv.
From S2P Require Import PdnsdCacheSure.

Open Scope Z_scope.

(** What the callers do. Entries of their own are named by their address. *)
Inductive op :=
| Init (A : list (list byte)) (ttl ts flags : Z)
| AddRR (b : nat) (type ttl ts flags : Z) (d : list byte)
| Negate (b : nat) (ttl ts : Z)
| Free (b : nat)
| Add (b : nat)
| Del (A : list (list byte))
| Empty (ks : list (list (list byte)))
| Invalidate (A : list (list byte))
| SetFlags (A : list (list byte)) (fl : Z)
| LookupR (A : list (list byte)) (wild : bool)
| LookupRW (A : list (list byte)) (wild : bool)
| LookupLocal (A : list (list byte)) (type : Z)
| LocalOwner (A : list (list byte)) (type : Z).

(** The contract of the operations: names are valid, entries are the caller's, types can
    be cached. *)
Definition allowed (s : cache) (o : op) : Prop :=
  match o with
  | Init A _ _ _ | Del A | Invalidate A | LookupR A _ | LookupRW A _ | LookupLocal A _ | LocalOwner A _ => valid_name A
  | AddRR b type _ _ _ _ => (exists c, own s b c) /\ PDNSD_NOT_CACHED_TYPE type = false
  | Negate b _ _ | Free b | Add b => exists c, own s b c
  | Empty ks => Forall valid_name ks
  | SetFlags A fl => valid_name A /\ has fl DF_NEGATIVE = false
  end.

Section Run.

Variable abi : sizes.
Variable global : globals.
Variable ar : arch.

Notation Core := (Core abi).
Notation Inv := (Inv abi).
Notation cent_ok := (cent_ok abi).
Notation fine := (fine abi).

Definition exec (now : Z) (o : op) : M unit :=
  match o with
  | Init A ttl ts flags => init_cent abi (wire A) ttl ts flags;; mret tt
  | AddRR b type ttl ts flags d => add_cent_rr abi b type ttl ts flags d;; mret tt
  | Negate b ttl ts => negate_cent abi b ttl ts
  | Free b => free_cent abi b
  | Add b => add_cache abi global now b
  | Del A => del_cache abi (wire A)
  | Empty ks => free_names abi (map wire ks)
  | Invalidate A => invalidate_record (wire A)
  | SetFlags A fl => set_cent_flags (wire A) fl;; mret tt
  | LookupR A wild => lookup_cache_r abi now (wire A) wild;; mret tt
  | LookupRW A wild => lookup_cache_rw abi now (wire A) wild;; mret tt
  | LookupLocal A type => lookup_cache_local_rrset (wire A) type;; mret tt
  | LocalOwner A type => getlocalowner (wire A) type;; mret tt
  end.

(** ** Operations that only read *)

(** The nearest ancestor that is local and has records of the type, no name in between being
    cached but not local. *)
Fixpoint local_owner (s : cache) (tp : Z) (ls : list (list byte)) : option (list byte) :=
  match ls with
  | [] => None
  | _ :: ls' =>
    match hash s !! lower (wire ls) with
    | None => local_owner s tp ls'
    | Some ce =>
      match cents s !! ce with
      | None => None
      | Some c =>
        if negb (has (flags c) DF_LOCAL) then None else
        if have_rr c tp then Some (wire ls) else local_owner s tp ls'
      end
    end
  end.

Lemma localowner_loop_run s tp : Core s -> forall ls l fuel, Forall valid_label (l :: ls) -> (length (l :: ls) <= fuel)%nat ->
  localowner_loop fuel (wire (l :: ls)) (length l) tp s = Some (local_owner s tp ls, s).
Proof.
  intros K. induction ls as [|l' ls IH]; intros l [|fuel] V F; try (simpl in F; lia); cbn [localowner_loop].
  all: rewrite drop_first; inversion V as [|? ? V1 V2]; subst; unfold mbind, M_bind; rewrite (label_len_run _ s V2); cbn [first_len].
  { done. }
  inversion V2 as [|? ? V3 V4]; subst. rewrite (proj2 (label_length l' V3)). unfold get, dns_lookup. cbn [local_owner].
  assert (localowner_loop fuel (wire (l' :: ls)) (length l') tp s = Some (local_owner s tp ls, s)) as IH' by (apply IH; [done|simpl in *; lia]).
  destruct (hash s !! lower (wire (l' :: ls))) as [a|] eqn:Hk; [|done].
  destruct (cached abi s _ a K Hk) as (c & Ha & _). unfold load. rewrite Ha. cbn [mbind option_bind].
  repeat (case_match; try done).
Qed.

Lemma getlocalowner_run s A tp : Core s -> valid_name A -> getlocalowner (wire A) tp s = Some (local_owner s tp (tl A), s).
Proof.
  intros K [V _]. unfold getlocalowner, mbind, M_bind. rewrite (label_len_run A s V). destruct V as [|l ls V1 V2]; [done|].
  cbn [first_len]. rewrite (proj2 (label_length l V1)). apply localowner_loop_run; [done|by constructor|].
  apply wire_fuel. by constructor.
Qed.

Lemma lookup_local_post s A type : Core s ->
  post (lookup_cache_local_rrset (wire A) type) s (fun res s' => (exists m, s' = set_mallocs m s) /\
    forall r', res = Some r' -> exists c r, view s (lower (wire A)) = Some c /\ getrrset c type = Some r /\
      has (rflags r) CF_LOCAL = true /\ r' = relent None r).
Proof.
  intros K. assert (exists m, s = set_mallocs m s) as Same by (exists (mallocs s); by destruct s).
  unfold lookup_cache_local_rrset, dns_lookup. pstep. pstep. destruct (hash s !! lower (wire A)) as [a|] eqn:Hk; [|by pstep].
  destruct (cached abi s _ a K Hk) as (c & Ha & _). pstep. eapply post_load; [done|].
  destruct (getrrset c type) as [r|] eqn:Hr; [|by pstep]. destruct (has (rflags r) CF_LOCAL) eqn:L; [|by pstep].
  eapply post_mono; [apply copy_rrset_post|]. intros res s' [Hres Hm]. split; [done|]. intros r' ->.
  destruct Hres as [|[= ->]]; [done|]. exists c, r. split; [apply view_some; eauto|done].
Qed.

(** ** One operation *)

(** The entry handed over. *)
Definition given (s : cache) (o : op) : option dns_cent_t := match o with Add b => cents s !! b | _ => None end.

(** An operation that may take local records out of the cache: an explicit deletion,
    or new local records. *)
Definition overrides (s : cache) (o : op) : Prop :=
  match o with
  | Del _ | Empty _ => True
  | Add b => match cents s !! b with Some n => ~ none_local (arr n) | None => False end
  | _ => False
  end.

Record stepped (o : op) (s s' : cache) : Prop := {
  st_inv : Inv s';
  st_kept : ~ overrides s o -> kept s s';
  st_grows : match given s o with Some n => grows global n s s' | None => shrinks s s' end;
}.

Lemma fine_stepped o s s' : given s o = None -> fine s s' -> stepped o s s'.
Proof. intros G [I K F S]. constructor; [done..|]. by rewrite G. Qed.

Lemma own_stepped o s s' : given s o = None -> quiet abi s s' -> stepped o s s'.
Proof. intros G [I K S]. constructor; [done..|]. by rewrite G. Qed.

Lemma add_cent_rr_stepped s b c type tl t f d o : Inv s -> own s b c -> PDNSD_NOT_CACHED_TYPE type = false -> given s o = None ->
  post (add_cent_rr abi b type tl t f d) s (fun _ s' => stepped o s s').
Proof.
  intros I Ow (i & Ei & Li)%cacheable G. pose proof (b_core _ _ (i_base _ _ I)) as K.
  eapply post_mono; [apply (add_rr_post abi s b c); [done|apply Ow|intros j Ej; congruence|by rewrite Ei]|].
  intros _ s' (K' & T & c' & Hc' & Hl). apply own_stepped; [done|]. apply (own_touched abi s b c s' c'); try done.
  intros j. destruct (lent_at c' j) as [l|] eqn:E; [|done]. apply Hl in E. by rewrite (own_unlisted abi s b c) in E.
Qed.

Lemma exec_post now o s : Inv s -> sortable (S NRRTOT) s -> allowed s o -> post (exec now o) s (fun _ s' => stepped o s s').
Proof.
  intros I So A. pose proof (b_core _ _ (i_base _ _ I)) as K.
  destruct o as [N tl t f|b type tl t f d|b tl t|b|b|N|ks|N|N fl|N w|N w|N type|N type]; simpl in A |- *.
  - pstep. eapply post_mono; [by apply init_cent_post|]. intros res s' (m & [[-> ->]|(c & -> & -> & Ok & _ & _ & Nl)]); pstep;
      apply fine_stepped; try done; [|by apply fine_with_new]. apply fine_ext; [by apply inv_mallocs|done..].
  - destruct A as [[c Ow] Hc]. pstep. eapply post_mono; [by apply (add_cent_rr_stepped s b c _ _ _ _ _ (AddRR b type tl t f d))|].
    intros ? s' H. by pstep.
  - destruct A as [c Ow]. eapply post_mono; [apply (negate_post abi s b c); [done|apply Ow]|].
    intros _ s' (K' & T & c' & Hc' & B & _). apply own_stepped; [done|]. apply (own_touched abi s b c s' c'); try done.
    intros [i|]; unfold lent_at; rewrite B; [done|]. by apply (own_unlisted abi s b c).
  - destruct A as [c Ow]. eexists _, _. split; [apply (free_cent_run abi s b c); [done|apply Ow]|].
    apply own_stepped; [done|]. by apply (own_freed abi s b c).
  - destruct A as [n [Hb Nb]]. eapply post_mono; [by apply (add_cache_post abi global now s b n)|]. intros ? s' [I' F' G' K'].
    constructor; [done| |simpl; by rewrite Hb]. simpl. rewrite Hb. intros H. apply K'. intros m rr Hm.
    destruct (has (rflags rr) CF_LOCAL) eqn:E; [|done]. exfalso. apply H. intros H'. by rewrite (H' m rr Hm) in E.
  - eapply post_mono; [by apply (del_cache_post abi)|]. intros ? s' (I' & F' & S' & _). constructor; [done| |done]. simpl. tauto.
  - eapply post_mono; [by apply (free_names_post abi)|]. intros ? s' (I' & F' & S'). constructor; [done| |done]. simpl. tauto.
  - eapply post_mono; [by apply (invalidate_post abi)|]. intros ? s' F. by apply fine_stepped.
  - destruct A as [_ Hf]. pstep. eapply post_mono; [by apply (set_flags_post abi)|]. intros ? s' F. pstep. by apply fine_stepped.
  - pstep. eapply post_mono; [by apply (lookup_cache_r_post abi now)|]. intros ? s' [F _]. pstep. by apply fine_stepped.
  - pstep. eapply post_mono; [by apply (lookup_cache_rw_post abi now)|]. intros [? ?] s' [F _]. pstep. by apply fine_stepped.
  - pstep. eapply post_mono; [by apply lookup_local_post|]. intros ? s' [[m ->] _]. pstep. apply fine_stepped; [done|].
    apply fine_ext; [by apply inv_mallocs|done..].
  - pstep. eexists _, _. split; [by apply getlocalowner_run|]. pstep. by apply fine_stepped, fine_refl.
Qed.

(** ** Sequences of operations *)

Definition empty_cache (m : list bool) : cache := Cache ∅ ∅ [] 0 0 true 0 m.

(** The states the callers can reach, with the entries handed over or read from a file so
    far. *)
Inductive reach : cache -> list dns_cent_t -> Prop :=
| reach_empty m : reach (empty_cache m) []
| reach_step s hist now o s' : reach s hist -> allowed s o -> exec now o s = Some (tt, s') ->
    reach s' (match given s o with Some n => n :: hist | None => hist end)
| reach_read s hist now f ns s' : reach s hist -> fits f s -> read_disk_cache abi global now ar f s = Some ((ns, true), s') ->
    reach s' (ns ++ hist)
| reach_write s hist now order f s' : reach s hist -> write_disk_cache abi global now ar order s = Some (f, s') -> reach s' hist.

Lemma empty_inv m : Inv (empty_cache m).
Proof.
  constructor; [constructor|..]; try done; [constructor|..]; simpl; try done.
  - intros l a i. split; [by intros ?%not_elem_of_nil|intros (c & ? & _); done].
  - constructor.
  - by intros e ?%not_elem_of_nil.
Qed.

Lemma costs_exec now o : costs (S NRRTOT) (exec now o).
Proof.
  assert (forall A (m : M A), costs (S NRRTOT) m -> costs (S NRRTOT) (m;; mret tt)) as Q.
  { intros A m H. apply calm_after; [done|intros ?; apply costs_ret]. }
  assert (forall A (m : M A), costs 1 m -> costs (S NRRTOT) m) as W1 by (intros A m; apply costs_weaken; unfold NRRTOT; lia).
  assert (forall A (m : M A), calm m -> costs (S NRRTOT) m) as W0 by (intros A m; apply costs_weaken; lia).
  destruct o; cbn [exec]; try apply Q.
  - apply W1, costs_init.
  - apply W0, calm_add_rr.
  - apply W0, calm_negate.
  - apply W0, calm_free.
  - apply costs_add_cache.
  - apply W0, calm_del_cache.
  - apply W0, calm_free_names.
  - apply W0. unfold invalidate_record. repeat calm_step. apply calm_bind; [repeat calm_step|intros ?]. calm_step.
  - apply W0. unfold set_cent_flags. repeat calm_step.
  - apply W1, costs_lookup_r.
  - apply W1, costs_lookup_rw.
  - apply W0. unfold lookup_cache_local_rrset, copy_rrset. repeat calm_step.
    apply calm_bind; [apply calm_malloc_all|intros ?]. calm_step.
  - apply W0. unfold getlocalowner. apply calm_bind; [apply calm_label|intros ?]. calm_step; [calm_step|]. apply calm_localowner.
Qed.

Lemma write_disk_post now order s : Inv s -> insert_sort s = true ->
  post (write_disk_cache abi global now ar order) s (fun _ s' => fine s s' /\ insert_sort s' = true).
Proof.
  intros I So. destruct (purge_cache_post abi now s (perm_cache global * 1024) false I (or_introl So)) as ([] & s' & E & I' & K & F & S & _).
  unfold write_disk_cache. pstep. exists tt, s'. split; [done|].
  eexists _, s'. split; [reflexivity|]. split; [by constructor|].
  exact (proj1 (proj2 (calm_purge_cache abi now _ _ s tt s' E)) So).
Qed.

Lemma reach_inv s hist : reach s hist -> Inv s /\ insert_sort s = true.
Proof.
  induction 1 as [m|s hist now o s' R [I So] A E|s hist now f ns s' R [I So] Ft E|s hist now order f s' R [I So] E].
  - split; [apply empty_inv|done].
  - split; [|exact (proj1 (proj2 (costs_exec now o s tt s' E)) So)].
    exact (st_inv _ _ _ (post_some _ _ _ _ _ (exec_post now o s I (or_introl So) A) E)).
  - destruct (post_some _ _ _ _ _ (read_disk_post abi global now ar f s I So Ft) E) as [H So']. split; [apply H|auto].
  - destruct (post_some _ _ _ _ _ (write_disk_post now order s I So) E) as [F So']. split; [apply F|done].
Qed.

Lemma reach_post s hist now o : reach s hist -> allowed s o -> post (exec now o) s (fun _ s' => stepped o s s').
Proof. intros [I So]%reach_inv A. apply exec_post; [done|by left|done]. Qed.

(** What the cache holds was handed over or read from a file. *)
Definition traced (s : cache) (hist : list dns_cent_t) : Prop :=
  forall k c i r, view s k = Some c -> RRARR_INDEX c i = Some r ->
    exists n new, n ∈ hist /\ lower (qname n) = k /\ RRARR_INDEX n i = Some new /\ same_data (adjust_ttl global new) r.

Lemma traced_loads ns s s' hist : loads abi global ns s s' -> traced s hist -> traced s' (ns ++ hist).
Proof.
  intros H T k c i r Hc Hr. destruct (ld_from _ _ _ _ _ H k c i r Hc Hr) as [(c0 & r0 & Hc0 & Hr0 & Sd)|(n & new & Hn & -> & Hi & Sd)].
  - destruct (T k c0 i r0 Hc0 Hr0) as (n' & new & H1 & H2 & H3 & Sd'). exists n', new.
    split; [apply elem_of_app; by right|]. split; [done|]. split; [done|by etrans].
  - exists n, new. split; [apply elem_of_app; by left|done].
Qed.

Lemma traced_shrinks s s' hist : shrinks s s' -> traced s hist -> traced s' hist.
Proof.
  intros S T k c i r Hc Hr. destruct (S k c i r Hc Hr) as (c0 & r0 & Hc0 & Hr0 & Sd). destruct (T k c0 i r0 Hc0 Hr0) as (n & new & H1 & H2 & H3 & Sd').
  exists n, new. split; [done|]. split; [done|]. split; [done|by etrans].
Qed.

Lemma reach_traced s hist : reach s hist -> traced s hist.
Proof.
  induction 1 as [m|s hist now o s' R IH A E|s hist now f ns s' R IH Ft E|s hist now order f s' R IH E]; [done|..].
  - pose proof (st_grows _ _ _ (post_some _ _ _ _ _ (reach_post s hist now o R A) E)) as G. destruct (given s o) as [n|].
    + intros k c i r Hc Hr. destruct (G k c i r Hc Hr) as [(c0 & r0 & Hc0 & Hr0 & Sd)|(-> & new & Hn & Sd)].
      * destruct (IH k c0 i r0 Hc0 Hr0) as (n' & new & H1 & H2 & H3 & Sd'). exists n', new.
        split; [by right|]. split; [done|]. split; [done|by etrans].
      * exists n, new. split; [by left|done].
    + by eapply traced_shrinks.
  - destruct (reach_inv _ _ R) as [I So]. apply (traced_loads ns s s'); [|done].
    exact (proj1 (post_some _ _ _ _ _ (read_disk_post abi global now ar f s I So Ft) E)).
  - destruct (reach_inv _ _ R) as [I So]. apply (traced_shrinks s); [|done].
    exact (fi_shrinks _ _ _ (proj1 (post_some _ _ _ _ _ (write_disk_post now order s I So) E))).
Qed.

(** ** The theorems *)

(** C4: an operation that keeps its contract runs to its end, in every state the
    callers can reach: no access to freed memory or to the wrong member of the union,
    no failed assertion, no endless loop, however many allocations fail. *)
Theorem cache_safe s hist now o : reach s hist -> allowed s o -> exists s', exec now o s = Some (tt, s').
Proof.
  intros R A. destruct (reach_post s hist now o R A) as ([] & s' & E & _). eauto.
Qed.

(** C10: the books of the cache are right: [cache_size] is the memory its entries
    really take, [ent_num] their number; every record set that is not local is in
    the list, and every list entry belongs to an entry of the cache. *)
Theorem cache_accounts s hist : reach s hist ->
  cache_size s = map_fold (fun _ a z => match cents s !! a with Some c => cent_size abi c | None => 0 end + z) 0 (hash s) /\
  ent_num s = Z.of_nat (size (hash s)) /\
  (forall k a c i r, hash s !! k = Some a -> cents s !! a = Some c -> RRARR_INDEX c i = Some r -> local c r = false ->
     exists l, lent r = Some l /\ (l, Lent a (Some i)) ∈ rrset_l s) /\
  (forall l e, (l, e) ∈ rrset_l s -> exists k c, hash s !! k = Some (le_cent e) /\ cents s !! le_cent e = Some c /\
     lent_at c (le_idx e) = Some l) /\
  NoDup (rrset_l s).*1.
Proof.
  intros R. destruct (reach_inv _ _ R) as [I _]. pose proof I as [[K O N] L Z].
  split; [|split; [done|split; [|split; [|apply K]]]].
  - rewrite Z. unfold total, sum_cs. apply sum_as. intros k a Hk. unfold cs_at.
    destruct (cents s !! a) as [c|] eqn:Ha; [|done]. exact (co_cs _ _ (k_cents _ _ K _ _ Ha)).
  - intros k a c i r Hk Ha Hr Lr. destruct (lent r) as [l|] eqn:E.
    + exists l. split; [done|]. apply (k_list _ _ K). exists c. split; [done|]. by rewrite lent_at_slot, Hr.
    + by rewrite (al_set _ (L k a c Hk Ha) i r Hr E) in Lr.
  - intros l e He. destruct (entry_of abi s l e I He) as (k & c & Hk & Ha & Hl & _). eauto.
Qed.

(** C11: nothing in the cache is made up: a record set under a name and a type is
    one that was handed to [add_cache] for that name and type, by a caller or while a
    disk cache file was read, with its records, and with its lifetime adjusted once. *)
Theorem cache_integrity s hist k c i r : reach s hist -> view s k = Some c -> RRARR_INDEX c i = Some r ->
  exists n new, n ∈ hist /\ lower (qname n) = k /\ RRARR_INDEX n i = Some new /\ same_data (adjust_ttl global new) r.
Proof. intros R. exact (reach_traced s hist R k c i r). Qed.

(** C13: local records stay: no answer of a name server that is added, no lookup, no purge
    and no invalidation takes a local record set out of the cache or changes its records. Left
    out are the explicit deletions ([del_cache] and emptying the cache) and the addition of an
    entry that has local records itself, which replaces those the name had: of such a call
    nothing is said here, not of other names either. *)
Theorem local_records_stay s hist now o s' : reach s hist -> allowed s o -> exec now o s = Some (tt, s') ->
  ~ overrides s o -> kept s s'.
Proof.
  intros R A E H. exact (st_kept _ _ _ (post_some _ _ _ _ _ (reach_post s hist now o R A) E) H).
Qed.

(** C17: what [lookup_cache] answers with, under the read lock or after purging
    under the write lock, is a copy that belongs to the caller, of the entry the name
    leads to. Its record sets are those of the entry without the ones to be purged,
    and it holds none of those: a set is to be purged when it is timed out and neither local
    ([CF_LOCAL]) nor marked to be kept ([CF_NOPURGE], which the answers of servers with
    purge_cache off get, the default; such sets are served after they have timed out).
    A negative entry is served only when it is local or not timed out. *)
Theorem lookup_serves_live s hist now A wild b w s' : reach s hist -> valid_name A ->
  lookup_cache_r abi now (wire A) wild s = Some (Some (Some b, w), s') \/
  lookup_cache_rw abi now (wire A) wild s = Some ((Some b, w), s') ->
  served now A wild s s' b w.
Proof.
  intros R V [E|E]; destruct (reach_inv _ _ R) as [I _].
  - by destruct (post_some _ _ _ _ _ (lookup_cache_r_post abi now s A wild I V) E) as (_ & _ & H).
  - by destruct (post_some _ _ _ _ _ (lookup_cache_rw_post abi now s A wild I V) E) as (_ & H).
Qed.

(** [purge_cache] ends, and then the cache takes at most the memory it is
    allowed, or whatever is left of each entry is local. *)
Theorem purge_bounds s hist now sz lazy : reach s hist ->
  exists s', purge_cache abi now sz lazy s = Some (tt, s') /\
    (cache_size s' <= sz \/ forall k c, view s' k = Some c ->
       (forall i r, RRARR_INDEX c i = Some r -> local c r = true) /\ (negative c = true -> has (flags c) DF_LOCAL = true)).
Proof.
  intros R. destruct (reach_inv _ _ R) as [I So]. destruct (purge_cache_post abi now s sz lazy I (or_introl So)) as ([] & s' & E & I' & _ & _ & _ & H).
  exists s'. split; [done|]. destruct H as [H|F]; [by left|]. right. intros k c (a & Hk & Ha)%view_some.
  by eapply (only_local abi s' k a c).
Qed.

(** C9: a file of any contents can be given to [read_disk_cache], truncated, damaged or
    hostile: it ends, without an access to freed memory or a failed assertion, and what the cache
    then holds it held before, or it is a record set of an entry that was read, under that
    entry's name and type; records that were local stay unless the file has local ones.
    The process goes on ([ok]) whenever no allocation fails, whatever the file holds, and then
    in a state where all the theorems here still hold. The file must not be so
    long that the list of the cache could reach the 2^32 entries its sort can take: 49
    addresses for each byte of the file and one more, and those used before, stay below
    that ([fits]). *)
Theorem disk_read_safe s hist now f : reach s hist -> fits f s ->
  exists ns ok s', read_disk_cache abi global now ar f s = Some ((ns, ok), s') /\ loads abi global ns s s' /\
    (ok = true -> reach s' (ns ++ hist)) /\ (mallocs s = [] -> ok = true).
Proof.
  intros R Ft. destruct (reach_inv _ _ R) as [I So]. destruct (read_disk_post abi global now ar f s I So Ft) as ([ns ok] & s' & E & H & _).
  exists ns, ok, s'. split; [done|]. split; [done|]. split; [intros ->; by eapply reach_read|].
  intros Mem. exact (proj2 (sure_read_disk abi global now ar f s _ s' Mem E)).
Qed.

(** The search of [lookup_cache] is the one the reference describes: the entry of
    the name, or, with wild cards, what the nearest ancestor with an entry decides. *)
Theorem find_cent_equiv s hist A wild : reach s hist -> valid_name A -> find_cent (wire A) wild s = Some (find_spec s A wild, s).
Proof. intros [I _]%reach_inv. apply (find_cent_run abi), I. Qed.

End Run.

(** ** Examples *)

#[export] Instance valid_name_dec A : Decision (valid_name A).
Proof. unfold valid_name, valid_label. apply _. Defined.

#[export] Instance own_dec s b : Decision (exists c, own s b c).
Proof.
  destruct (cents s !! b) as [c|] eqn:E; [destruct (decide (map_Forall (fun _ a => a <> b) (hash s))) as [H|H]|].
  - left. exists c. split; [done|]. intros k Hk. exact (H k b Hk eq_refl).
  - right. intros (c' & Hc' & N). apply H. intros k a Hk ->. by apply (N k).
  - right. intros (c' & Hc' & _). congruence.
Defined.

#[export] Instance allowed_dec s o : Decision (allowed s o).
Proof. destruct o; simpl; apply _. Defined.

(** The operations one after another; [None] when a contract is broken. *)
Fixpoint run (abi : sizes) (global : globals) (ops : list (Z * op)) (s : cache) (hist : list dns_cent_t)
  : option (cache * list dns_cent_t) :=
  match ops with
  | [] => Some (s, hist)
  | (now, o) :: ops =>
    if decide (allowed s o) then
      match exec abi global now o s with
      | Some (_, s') => run abi global ops s' (match given s o with Some n => n :: hist | None => hist end)
      | None => None
      end
    else None
  end.

Lemma run_reach abi global ar ops : forall s hist s' hist', reach abi global ar s hist -> run abi global ops s hist = Some (s', hist') ->
  reach abi global ar s' hist'.
Proof.
  induction ops as [|[now o] ops IH]; intros s hist s' hist' R; simpl; [by intros [= <- <-]|].
  case_decide as A; [|done]. destruct (exec abi global now o s) as [[[] s1]|] eqn:E; [|done].
  apply IH. by eapply reach_step.
Qed.

Definition example_abi : sizes := Sizes 40 40 16 8.
Definition example_arch : arch := Arch 8 8.
Definition example_globals : globals := Globals 1 120 604800 900.
Definition name1 : list (list byte) := [[x66; x6f; x6f]; [x6f; x72; x67]].

(** An entry for foo.org is built, with two addresses, added at time 1000 and given up by its builder. *)
Definition example_ops : list (Z * op) :=
  [(1000, Init name1 0 1000 0); (1000, AddRR 0 1 300 1000 0 [x01; x02; x03; x04]);
   (1000, AddRR 0 1 300 1000 0 [x01; x02; x03; x05]); (1000, Add 0); (1001, Free 0)].

(** Later an address of its own is configured for the name: the entry holds it from then on. *)
Definition local_ops : list (Z * op) :=
  example_ops ++ [(1002, Init name1 0 0 DF_LOCAL); (1002, AddRR 3 1 300 0 CF_LOCAL [x7f; x00; x00; x01]); (1002, Add 3)].

Definition after (ops : list (Z * op)) : cache * list dns_cent_t :=
  default (empty_cache [], []) (run example_abi example_globals ops (empty_cache []) []).

Lemma after_reach ops : (if run example_abi example_globals ops (empty_cache []) [] then true else false) = true ->
  reach example_abi example_globals example_arch (after ops).1 (after ops).2.
Proof.
  intros N. unfold after. destruct (run example_abi example_globals ops (empty_cache []) []) as [[s h]|] eqn:E; [|done].
  eapply run_reach; [apply reach_empty|]. exact E.
Qed.

Lemma example_reach : reach example_abi example_globals example_arch (after example_ops).1 (after example_ops).2.
Proof. apply after_reach. vm_compute. reflexivity. Qed.

Lemma local_reach : reach example_abi example_globals example_arch (after local_ops).1 (after local_ops).2.
Proof. apply after_reach. vm_compute. reflexivity. Qed.

(** The answer of a server with another address. *)
Definition answer_ops : list (Z * op) :=
  local_ops ++ [(1003, Init name1 0 1003 0); (1003, AddRR 4 1 300 1003 0 [x0a; x00; x00; x01])].

Lemma answer_reach : reach example_abi example_globals example_arch (after answer_ops).1 (after answer_ops).2.
Proof. apply after_reach. vm_compute. reflexivity. Qed.

Lemma cache_safe_witness : exists s', exec example_abi example_globals 1002 (LookupR name1 true) (after example_ops).1 = Some (tt, s').
Proof.
  apply (cache_safe example_abi example_globals example_arch _ _ 1002 (LookupR name1 true) example_reach).
  apply (bool_decide_unpack _). vm_compute. exact I.
Defined.

Lemma cache_accounts_witness :
  cache_size (after example_ops).1 = 129 /\ ent_num (after example_ops).1 = Z.of_nat (size (hash (after example_ops).1)).
Proof.
  split; [vm_compute; reflexivity|].
  exact (proj1 (proj2 (cache_accounts example_abi example_globals example_arch _ _ example_reach))).
Defined.

Definition key1 : list byte := lower (wire name1).
Definition cent1 : dns_cent_t := default (Cent [] 0 0 0 (RR []) 0 0) (view (after example_ops).1 key1).
Definition set1 : rr_set_t := RRSet (Some 2%nat) 300 1000 0 [[x01; x02; x03; x04]; [x01; x02; x03; x05]].

Lemma cache_integrity_witness : exists n new, n ∈ (after example_ops).2 /\ lower (qname n) = key1 /\ RRARR_INDEX n 0 = Some new /\
  same_data (adjust_ttl example_globals new) set1.
Proof.
  apply (cache_integrity example_abi example_globals example_arch _ _ key1 cent1 0 set1 example_reach); vm_compute; reflexivity.
Defined.

Lemma local_records_stay_witness : kept (after answer_ops).1 (after (answer_ops ++ [(1003, Add 4)])).1.
Proof.
  apply (local_records_stay example_abi example_globals example_arch _ _ 1003 (Add 4) _ answer_reach).
  - apply (bool_decide_unpack _). vm_compute. exact I.
  - vm_compute. reflexivity.
  - vm_compute. intros H. apply H. intros [|m] r Hm; [by injection Hm as <-|].
    do 7 (destruct m as [|m]; [discriminate Hm|]). discriminate Hm.
Defined.

Definition served_state (m : option (option (option nat * wild_t) * cache)) : cache :=
  match m with Some (_, s) => s | None => empty_cache [] end.

Lemma lookup_serves_live_witness :
  let s := (after example_ops).1 in
  served 1200 name1 true s (served_state (lookup_cache_r example_abi 1200 (wire name1) true s)) 3 WNone.
Proof.
  apply (lookup_serves_live example_abi example_globals example_arch _ _ 1200 name1 true 3 WNone _ example_reach).
  - apply (bool_decide_unpack _). vm_compute. exact I.
  - left. vm_compute. reflexivity.
Defined.

Lemma purge_bounds_witness : exists s', purge_cache example_abi 1200 100 true (after example_ops).1 = Some (tt, s') /\
  (cache_size s' <= 100 \/ forall k c, view s' k = Some c ->
     (forall i r, RRARR_INDEX c i = Some r -> local c r = true) /\ (negative c = true -> has (flags c) DF_LOCAL = true)).
Proof. apply (purge_bounds example_abi example_globals example_arch _ _ 1200 100 true example_reach). Defined.

(** A file that stops in the middle of an entry: version, a count of 2, an entry for foo.org
    with one address, and the beginning of another. *)
Definition example_file : list byte :=
  cachverid ++ [x02; x00; x00; x00; x00; x00; x00; x00] ++
  [x08; x01; x00; x00; xff; xff] ++ [x03; x66; x6f; x6f; x03; x6f; x72; x67] ++
  [x01; x01; x00; x00] ++ [x2c; x01; x00; x00; x00; x00; x00; x00] ++ [xe8; x03; x00; x00; x00; x00; x00; x00] ++
  [x04; x00; x7f; x00; x00; x01] ++ [x08; x01; x00].

(** What reading it gives: whether the process goes on, the entries read, the names cached. *)
Definition read_result (m : option ((list dns_cent_t * bool) * cache)) : bool * nat * nat :=
  match m with Some ((ns, ok), s) => (ok, length ns, size (hash s)) | None => (false, 0%nat, 0%nat) end.

Lemma disk_read_safe_witness : exists ns s',
  read_disk_cache example_abi example_globals 1000 example_arch example_file (empty_cache []) = Some ((ns, true), s') /\
  length ns = 1%nat /\ size (hash s') = 1%nat /\ loads example_abi example_globals ns (empty_cache []) s' /\
  reach example_abi example_globals example_arch s' (ns ++ []).
Proof.
  destruct (disk_read_safe example_abi example_globals example_arch (empty_cache []) [] 1000 example_file) as (ns & ok & s' & E & H & R & Go).
  - apply reach_empty.
  - vm_compute. reflexivity.
  - assert (read_result (read_disk_cache example_abi example_globals 1000 example_arch example_file (empty_cache [])) = (true, 1%nat, 1%nat)) as V
      by (vm_compute; reflexivity).
    rewrite (Go eq_refl) in *. rewrite E in V. injection V as L Z. exists ns, s'. split; [exact E|]. split; [exact L|].
    split; [exact Z|]. split; [exact H|]. exact (R eq_refl).
Defined.
