(* ===== verification/PdnsdCacheMem.v ===== *)
(** * The DNS cache when memory is available

    Operations of which every allocation succeeds do what they are asked: an entry
    that is added for a new name is found again with the same records, or as the same negative
    entry, unless all of it has to be purged by then. *)

From S2P Require Import Prelude.
From S2P Require Import PdnsdNames.
From S2P Require Import PdnsdCompress.
From S2P Require Import PdnsdHash.
From S2P Require Import PdnsdSort.
From S2P Require Import PdnsdCent.
From S2P Require Import PdnsdCache.
From S2P Require Import PdnsdCacheCost.
From S2P Require Import PdnsdCentInv.
From S2P Require Import PdnsdCacheInv.
From S2P Require Import PdnsdCacheOps.
From S2P Require Import PdnsdCacheAdd.
From S2P Require Import PdnsdCacheOwn.
From S2P Require Import PdnsdDisk.
From S2P Require Import PdnsdCacheSure.
From S2P Require Import PdnsdCacheRun.

Open Scope Z_scope.

Section Mem.

Variable abi : sizes.
Variable global : globals.
Variable ar : arch.

Notation Inv := (Inv abi).
Notation cent_ok := (cent_ok abi).

(** The size up to which nothing is purged. *)
Definition limit : Z := perm_cache global * 1024 + MCSZ.

(** [purge_cache] leaves a cache within its limit alone. *)
Lemma purge_within now s : cache_size s <= limit -> purge_to_limit abi global now s = Some (tt, s).
Proof.
  intros L. unfold purge_to_limit, purge_cache, walk_list, mbind, M_bind, get. fold limit.
  assert (forall o fuel work, walk fuel (fun z => negb true || (limit <? z)) work o s = Some (tt, s)) as W.
  { intros [l|] [|fuel] work; cbn [walk]; try done; unfold mbind, M_bind, get; simpl; by rewrite (proj2 (Z.ltb_ge _ _) L). }
  rewrite W. by rewrite (proj2 (Z.leb_le _ _) L).
Qed.

Lemma sure_enlist ce c : sure (if negb (negative c) then list_slots global (RRARR_LEN c) 0 ce
  else c ← adjust_dom_ttl global c; store ce c;; insert_rrl ce None : M bool) (fun ok => ok = true).
Proof.
  destruct (negative c); cbn [negb]; [|apply sure_list_slots].
  eapply (sure_bind _ _ (fun _ => True)); [unfold adjust_dom_ttl; repeat sure_step|intros c' _]. sure_step. apply sure_insert.
Qed.

(** The entry [n] is in the cache under its name, with all its records; the other names
    are as before. *)
Record entered (n : dns_cent_t) (s s' : cache) : Prop := {
  en_mallocs : mallocs s' = [];
  en_size : cache_size s' = cache_size s + cs n;
  en_hash : exists a, hash s' = <[lower (qname n) := a]> (hash s);
  en_other : forall k, k <> lower (qname n) -> view s' k = view s k;
  en_self : exists c, view s' (lower (qname n)) = Some c /\ (forall j, slot c j = adjust_ttl global <$> slot n j) /\
    (forall o tl t, body n = Neg o tl t -> exists o', body c = Neg o' (neg_adjusted global n tl) t) /\
    has (flags c) DF_LOCAL = has (flags n) DF_LOCAL /\ negative c = negative n /\ qname c = qname n;
}.

(** The entry of a new name. *)
Lemma add_new_found now s b n : Inv s -> cents s !! b = Some n -> (forall k, hash s !! k <> Some b) ->
  hash s !! lower (qname n) = None -> mallocs s = [] -> (negative n = true \/ num_rrs n <> 0) -> cache_size s + cs n <= limit ->
  post (add_new abi global now b) s (fun _ s' => entered n s s').
Proof.
  intros I Hb Nb Hk Nm Nr Sz. pose proof (b_core _ _ (i_base _ _ I)) as K. pose proof (k_cents _ _ K _ _ Hb) as Okn.
  unfold add_new. pstep. eapply post_load; [done|].
  assert ((num_rrs n =? 0) && negb (negative n) = false) as ->.
  { destruct Nr as [->|Nr]; [apply andb_false_r|by rewrite (proj2 (Z.eqb_neq _ _) Nr)]. }
  pstep. eapply post_mono; [eapply (post_sure _ _ _ _ Nm (sure_copy b)); by apply (copy_cent_post abi s b n)|].
  intros res s1 ((m & [[-> ->]|[-> ->]]) & Nm1 & Sr); [done|]. simpl in Nm1. subst m.
  pstep. eapply (post_load (fresh s) (copy_of n)); [simpl; apply lookup_insert_eq|]. pstep.
  eapply post_mono; [eapply post_sure; [..|by apply (enlist_post abi global s n [])]; [done|apply sure_enlist]|].
  intros ok s2 ((c0 & c2 & K2 & T2 & Ha2 & Cs & Nq & H) & Nm2 & ->). destruct (H eq_refl) as [_ H2]. cbn [negb].
  pstep. eapply post_mono; [apply (post_sure _ _ (fun _ s' => s' = s2) _ Nm2 sure_malloc)|].
  { exists true, s2. split; [|done]. unfold malloc. by rewrite Nm2. }
  intros ok s3 (-> & _ & ->). cbn [negb]. pstep. pstep. pstep. pstep. pstep. apply post_modify.
  change (qname (copy_of n)) with (qname n). change (cs (copy_of n)) with (cs n). eexists _, _. split.
  { apply purge_within. simpl. rewrite (t_size _ _ _ T2). exact Sz. }
  constructor; simpl.
  - done.
  - by rewrite (t_size _ _ _ T2).
  - exists (fresh s). by rewrite (t_hash _ _ _ T2).
  - intros k Nk. unfold view. simpl. rewrite lookup_insert_ne by done. rewrite (t_hash _ _ _ T2). simpl.
    destruct (hash s !! k) as [a|] eqn:E; [|done]. simpl.
    assert (a <> fresh s) as Na by (intros ->; exact (fresh_unhashed abi s k K E)).
    rewrite (t_other _ _ _ T2) by done. simpl. by rewrite lookup_insert_ne.
  - exists c2. split; [apply view_some; exists (fresh s); split; [simpl; apply lookup_insert_eq|done]|].
    destruct H2 as (S2 & B2 & L2). split; [done|]. split; [done|]. split; [done|]. split; [|done].
    rewrite (co_tag _ _ (k_cents _ _ K2 _ _ Ha2)), (co_tag _ _ Okn). destruct (body n) as [o tl t|x] eqn:Bn.
    + by destruct (B2 o tl t eq_refl) as [o' ->].
    + destruct (body c2) as [o tl t|y] eqn:B; [|done]. destruct Nr as [Nr|[]]; [by rewrite (co_tag _ _ Okn), Bn in Nr|].
      rewrite (co_num _ _ Okn). apply (no_sets abi). intros j r Hj%index_arr. specialize (S2 j). unfold slot in S2. rewrite Hj in S2.
      unfold RRARR_INDEX, arr in S2. by rewrite B in S2.
Qed.

(** A copy of an entry for a caller, without the sets that have to be purged. *)
Definition copied (now : Z) (c c' : dns_cent_t) : Prop := qname c' = qname c /\
  (forall i, RRARR_INDEX c' i = relent None <$> live now (RRARR_INDEX c i)) /\
  forall o tl t, body c = Neg o tl t -> body c' = Neg None tl t.

Lemma copy_post now s a c c0 : Inv s -> cents s !! a = Some c -> mallocs s = [] -> qname c = qname c0 ->
  (forall i, RRARR_INDEX c i = live now (RRARR_INDEX c0 i)) -> (negative c0 = true -> body c = body c0) -> cent_ok c0 ->
  post (copy_cent a) s (fun res s' => exists b c', res = Some b /\ own s' b c' /\ copied now c0 c').
Proof.
  intros I Ha Mem Nm Ix Bd Ok. pose proof (b_core _ _ (i_base _ _ I)) as K.
  eapply post_mono; [eapply (post_sure _ _ _ _ Mem (sure_copy a)); by apply (copy_cent_post abi s a c)|].
  intros res s1 ((m & [[-> ->]|[-> ->]]) & _ & Sr); [done|]. exists (fresh s), (copy_of c). split; [done|].
  split; [split; [simpl; apply lookup_insert_eq|intros k; exact (fresh_unhashed abi s k K)]|]. split; [done|].
  split; [intros i; by rewrite copy_of_index, Ix|]. intros o tl t B.
  assert (body c = Neg o tl t) as B' by (rewrite Bd; [done|]; by rewrite (co_tag _ _ Ok), B). unfold copy_of. simpl. by rewrite B'.
Qed.

(** What the lookup of a cached name gives: nothing if all of the entry has to be purged,
    and otherwise a copy without the sets that have to be. *)
Lemma lookup_exact now s A wild c : Inv s -> valid_name A -> mallocs s = [] -> view s (lower (wire A)) = Some c ->
  post (lookup_cache abi now (wire A) wild) s (fun '(res, w) s' => w = WNone /\
    match res with
    | None => dead now c
    | Some b => ~ dead now c /\ exists c', own s' b c' /\ copied now c c'
    end).
Proof.
  intros I V Mem (a & Hk & Ha)%view_some. pose proof (b_core _ _ (i_base _ _ I)) as K. pose proof (k_cents _ _ K _ _ Ha) as Ok.
  assert (find_spec s A wild = (Some a, WNone)) as F by (unfold find_spec; by rewrite Hk).
  unfold lookup_cache, lookup_cache_r. pstep. pstep. eexists _, _. split; [by apply (find_cent_run abi)|]. rewrite F. pstep.
  eapply post_mono; [by apply (purge_cent_test abi now s (lower (wire A)) a c true)|]. intros rv s' [-> Lv].
  destruct (Z.eqb_spec rv 0) as [E|E]; simpl.
  - destruct (Lv E eq_refl) as [Al Nd]. pstep.
    eapply post_mono; [apply (copy_post now s a c c); try done; intros i; by rewrite live_id|].
    intros res s1 (b & c' & -> & H). pstep. pstep. eauto.
  - pstep. unfold lookup_cache_rw. pstep. eexists _, _. split; [by apply (find_cent_run abi)|]. rewrite F. pstep.
    eapply post_mono; [eapply (post_sure _ _ _ _ Mem (sure_costs 0 _ (calm_purge_cent abi now a true false)));
      by apply (purge_cent_post abi now s (lower (wire A)) a c true)|].
    intros rv' s1 ((F1 & [(_ & -> & _ & Dd)|(Np & N1 & c1 & Ha1 & Pt)]) & Nm1 & _); [by simpl; pstep|].
    rewrite (proj2 (Z.ltb_ge _ _) Np). pstep.
    eapply post_mono; [apply (copy_post now s1 a c1 c); try done; [apply F1|apply Pt|apply (pt_index _ _ _ _ Pt)|apply (pt_body _ _ _ _ Pt)]|].
    intros res s2 (b & c' & -> & H). pstep. split; [done|]. split; [by apply (pt_alive _ _ _ _ Pt)|eauto].
Qed.

Lemma live_relent now x : relent None <$> live now x = live now (relent None <$> x).
Proof. destruct x as [r|]; [|done]. simpl. change (expired now (relent None r)) with (expired now r). by destruct (expired now r). Qed.

Lemma holds_sets n j r : cent_ok n -> RRARR_INDEX n j = Some r -> num_rrs n <> 0.
Proof. intros Ok Hr%index_arr Z. rewrite (co_num _ _ Ok) in Z. by apply (nsets_zero _ Z) in Hr. Qed.

(** Something of the entry [n] is left at the time [now], its lifetimes adjusted. *)
Definition lasts (now : Z) (n : dns_cent_t) : Prop :=
  match body n with
  | Neg _ tl t => has (flags n) DF_LOCAL = true \/ now <= t + CLAT_ADJ (neg_adjusted global n tl)
  | RR _ => exists j r, RRARR_INDEX n j = Some r /\ expired now (adjust_ttl global r) = false
  end.

Lemma slot_expired now n c : (forall j, slot c j = adjust_ttl global <$> slot n j) -> forall j,
  expired now <$> RRARR_INDEX c j = (fun r => expired now (adjust_ttl global r)) <$> RRARR_INDEX n j.
Proof.
  intros Hs j. specialize (Hs j). unfold slot in Hs. destruct (RRARR_INDEX c j) as [r'|], (RRARR_INDEX n j) as [r|]; try done.
  simpl in *. rewrite adjust_relent in Hs. injection Hs as E1 E2 E3 E4. unfold expired, timedout. by rewrite E1, E2, E3.
Qed.

Lemma spent_or now c : spent now c \/ exists j r, RRARR_INDEX c j = Some r /\ expired now r = false.
Proof.
  destruct (existsb (fun x => match x with Some r => negb (expired now r) | None => false end) (arr c)) eqn:E.
  - right. apply existsb_exists in E as ([r|] & Hx & X); [|done]. apply list_elem_of_In, list_elem_of_lookup in Hx as [j Hj%index_arr].
    exists j, r. split; [done|]. by apply negb_true_iff.
  - left. intros j r Hj%index_arr. apply not_false_is_true. intros X.
    assert (existsb (fun x => match x with Some r => negb (expired now r) | None => false end) (arr c) = true); [|congruence].
    apply existsb_exists. exists (Some r). split; [|by rewrite X]. apply list_elem_of_In. by eapply list_elem_of_lookup_2.
Qed.

(** The entry that was added has to be purged when nothing of what was handed over is left. *)
Lemma dead_lasts now n c : cent_ok n -> cent_ok c -> (forall j, slot c j = adjust_ttl global <$> slot n j) ->
  (forall o tl t, body n = Neg o tl t -> exists o', body c = Neg o' (neg_adjusted global n tl) t) ->
  has (flags c) DF_LOCAL = has (flags n) DF_LOCAL -> (negative c = negative n) -> (dead now c -> ~ lasts now n) /\ (~ dead now c -> lasts now n).
Proof.
  intros Okn Okc Hs Hn Fl Ng. pose proof (slot_expired now n c Hs) as Hx. unfold lasts, dead. rewrite Ng, (co_tag _ _ Okn), Fl.
  destruct (body n) as [o tl t|x] eqn:B; cbn [is_neg].
  - destruct (Hn o tl t eq_refl) as [o' B']. unfold timedout_nxdom. rewrite B'.
    assert (spent now c) as Sp by (intros j r; unfold RRARR_INDEX, arr; by rewrite B').
    destruct (has (flags n) DF_LOCAL); simpl; (split; [intros [_ D]|intros D]); [by specialize (D eq_refl)|by left| |].
    + specialize (D eq_refl). apply negb_false_iff, Z.ltb_lt in D. intros [?|?]; [done|lia].
    + right. apply Z.nlt_ge. intros L. apply D. split; [done|]. intros _. by apply negb_false_iff, Z.ltb_lt.
  - split.
    + intros [Sp _] (j & r & Hj & X). specialize (Hx j). rewrite Hj in Hx. destruct (RRARR_INDEX c j) as [r'|] eqn:Hj'; [|done].
      simpl in Hx. rewrite (Sp j r' Hj'), X in Hx. done.
    + intros D. destruct (spent_or now c) as [Sp|(j & r' & Hj' & X)]; [by destruct D|]. specialize (Hx j). rewrite Hj' in Hx.
      destruct (RRARR_INDEX n j) as [r|] eqn:Hj; [|done]. exists j, r. split; [done|]. simpl in Hx. rewrite X in Hx. congruence.
Qed.

(** What the caller of the lookup gets of the entry [n]. *)
Definition found_of (now : Z) (n c' : dns_cent_t) : Prop := (qname c' = qname n :> list byte) /\
  (forall i, RRARR_INDEX c' i = live now (adjust_ttl global <$> slot n i)) /\
  forall o tl t, body n = Neg o tl t -> body c' = Neg None (neg_adjusted global n tl) t.

(** C39: what is added is found. When memory is available and the cache is within its
    limit, an entry handed over for a name that is not cached, with a record set or
    negative, is found by the next lookup of the name as long as something of it is left:
    with exactly its record sets, their lifetimes adjusted, less those to be purged by then (timed out
    and neither local nor marked to be kept, the default for what servers answer), or as the negative
    entry, its lifetime adjusted. Nothing is found exactly when all its sets are to be
    purged, or it is negative, timed out and not local. *)
Theorem add_lookup_roundtrip s hist now now' A wild b n : reach abi global ar s hist -> own s b n -> qname n = wire A -> valid_name A ->
  hash s !! lower (wire A) = None -> mallocs s = [] -> cache_size s + cs n <= limit -> (negative n = true \/ num_rrs n <> 0) ->
  exists s1 s2 res, exec abi global now (Add b) s = Some (tt, s1) /\
    lookup_cache abi now' (wire A) wild s1 = Some ((res, WNone), s2) /\
    match res with
    | Some b' => lasts now' n /\ exists c', own s2 b' c' /\ found_of now' n c'
    | None => ~ lasts now' n
    end.
Proof.
  intros R Ow Nm V Hk Mem Sz Nr. destruct (reach_inv _ _ _ _ _ R) as [I _]. pose proof Ow as [Hb Nb].
  pose proof (k_cents _ _ (b_core _ _ (i_base _ _ I)) _ _ Hb) as Ok. rewrite <- Nm in Hk.
  destruct (add_new_found now s b n I Hb Nb Hk Mem Nr Sz) as ([] & s1 & E1 & [Mem1 _ _ _ (c & Hc & Hs & Hn & Fl & Ng & Nq)]).
  assert (exec abi global now (Add b) s = Some (tt, s1)) as E.
  { simpl. unfold add_cache. cbn [add_cache_retry]. unfold mbind, M_bind, load, get. rewrite Hb. simpl. unfold dns_lookup.
    by rewrite Hk. }
  assert (Inv s1) as I1 by (apply (reach_inv abi global ar s1 (n :: hist));
    pose proof (reach_step abi global ar s hist now (Add b) s1 R (ex_intro _ n Ow) E) as R1; simpl in R1; by rewrite Hb in R1).
  pose proof Hc as (a & _ & Ha)%view_some. pose proof (k_cents _ _ (b_core _ _ (i_base _ _ I1)) _ _ Ha) as Okc.
  destruct (dead_lasts now' n c Ok Okc Hs Hn Fl Ng) as [D1 D2]. rewrite Nm in Hc.
  destruct (lookup_exact now' s1 A wild c I1 V Mem1 Hc) as ([res w] & s2 & E2 & -> & H).
  exists s1, s2, res. split; [done|]. split; [done|]. destruct res as [b'|]; [|by apply D1].
  destruct H as [Nd (c' & Ow' & Q & Ix & Bd)]. split; [by apply D2|]. exists c'. split; [done|]. split; [congruence|]. split.
  - intros i. rewrite Ix, live_relent. f_equal. apply Hs.
  - intros o tl t B. destruct (Hn o tl t B) as [o' B']. by eapply Bd.
Qed.

End Mem.

(** ** Example *)

(** An entry for foo.org, not yet added. *)
Definition built_ops : list (Z * op) := take 3 example_ops.
Definition built_cent : dns_cent_t := default (Cent [] 0 0 0 (RR []) 0 0) (cents (after built_ops).1 !! 0%nat).
Definition built_set0 : rr_set_t := RRSet None 300 1000 0 [[x01; x02; x03; x04]; [x01; x02; x03; x05]].

Lemma built_reach : reach example_abi example_globals example_arch (after built_ops).1 (after built_ops).2.
Proof. apply after_reach. vm_compute. reflexivity. Qed.

(** Looked up after 200 seconds it is found. *)
Lemma built_lasts : lasts example_globals 1200 built_cent.
Proof. exists 0%nat, built_set0. vm_compute. done. Qed.

Lemma add_lookup_roundtrip_witness : exists s1 s2 b' c', exec example_abi example_globals 1000 (Add 0) (after built_ops).1 = Some (tt, s1) /\
  lookup_cache example_abi 1200 (wire name1) true s1 = Some ((Some b', WNone), s2) /\ own s2 b' c' /\
  found_of example_globals 1200 built_cent c'.
Proof.
  destruct (add_lookup_roundtrip example_abi example_globals example_arch _ _ 1000 1200 name1 true 0 built_cent built_reach)
    as (s1 & s2 & [b'|] & E1 & E2 & H).
  - split; [vm_compute; reflexivity|]. vm_compute. intros [|[] ?]; discriminate.
  - vm_compute. reflexivity.
  - apply (bool_decide_unpack _). vm_compute. exact I.
  - vm_compute. reflexivity.
  - vm_compute. reflexivity.
  - vm_compute. discriminate.
  - right. vm_compute. discriminate.
  - destruct H as [_ (c' & Ow & F)]. exists s1, s2, b', c'. split; [exact E1|]. split; [exact E2|]. split; [exact Ow|exact F].
  - destruct (H built_lasts).
Defined.
