(* ===== verification/PdnsdDiskTrip.v ===== *)
(** * Writing the disk cache file and reading it again

    When memory is available, [read_disk_cache] gets back from a file that
    [write_disk_cache] wrote what was in the cache and not local. First the
    binary formats, then the construction of an entry, then the whole file. *)

From S2P Require Import Prelude.
From S2P Require Import ByteOrder.
From S2P Require Import PdnsdNames.
From S2P Require Import PdnsdCompress.
From S2P Require Import PdnsdHash.
From S2P Require Import PdnsdSort.
From S2P Require Import PdnsdCent.
From S2P Require Import PdnsdCache.
From S2P Require Import PdnsdCacheCost.
From S2P Require Import PdnsdCentInv.
From S2P Require Import PdnsdCacheInv.
From S2P Require Import PdnsdCacheOps.
From S2P Require Import PdnsdCacheAdd.
From S2P Require Import PdnsdCacheOwn.
From S2P Require Import PdnsdDisk.
From S2P Require Import PdnsdDiskInv.
From S2P Require Import PdnsdCacheRun.
From S2P Require Import PdnsdCacheMem.

Open Scope Z_scope.

(** ** Fields *)

Lemma length_le_store n z : length (le_store n z) = n.
Proof. pose proof (zlen_le_store n z). unfold zlen in *. lia. Qed.

Lemma fread_app n b f : length b = n -> fread n (b ++ f) = Some (b, f).
Proof.
  intros <-. unfold fread. rewrite length_app, (proj2 (Nat.leb_le _ _)) by lia. by rewrite take_app_length, drop_app_length.
Qed.

Lemma load_store n z : 0 <= z < 256 ^ Z.of_nat n -> le_load (le_store n z) = z.
Proof. intros H. rewrite le_load_store. by apply Z.mod_small. Qed.

Lemma field_here n z b : 0 <= z < 256 ^ Z.of_nat n -> field 0 n (le_store n z ++ b) = z.
Proof.
  intros H. unfold field. rewrite drop_0, <- (length_le_store n z) at 1. by rewrite take_app_length, load_store.
Qed.

Lemma field_skip o n a b : field (length a + o) n (a ++ b) = field o n b.
Proof. unfold field. by rewrite drop_app_add'. Qed.

Lemma field_skip_store m o n z b : field (m + o) n (le_store m z ++ b) = field o n b.
Proof. rewrite <- (length_le_store m z) at 1. apply field_skip. Qed.

(** A time that fits the type. *)
Definition time_fits (w : nat) (z : Z) : Prop := - 2 ^ (8 * Z.of_nat w - 1) <= z < 2 ^ (8 * Z.of_nat w - 1).

Lemma signed_store w z : (0 < w)%nat -> time_fits w z -> to_signed w (le_load (le_store w z)) = z.
Proof.
  intros W [L U]. rewrite le_load_store. unfold to_signed.
  assert (256 ^ Z.of_nat w = 2 ^ (8 * Z.of_nat w)) as -> by (change 256 with (2 ^ 8); by rewrite <- Z.pow_mul_r by lia).
  assert (2 ^ (8 * Z.of_nat w) = 2 * 2 ^ (8 * Z.of_nat w - 1)) as -> by (rewrite <- Z.pow_succ_r by lia; f_equal; lia).
  set (p := 2 ^ _) in *. destruct (Z.ltb_spec z 0) as [N|N].
  - rewrite <- (Z.mod_add _ 1), Z.mod_small by lia. destruct (Z.ltb_spec (z + 1 * (2 * p)) p); lia.
  - rewrite Z.mod_small by lia. destruct (Z.ltb_spec z p); lia.
Qed.

Lemma length_put_fset ar h : length (put_fset ar h) = sizeof_fset ar.
Proof. unfold put_fset, put_time, sizeof_fset. rewrite !length_app, !length_le_store. lia. Qed.

Lemma get_put_dns_file h : (df_qlen h < 256)%nat -> (df_num_rrs h < 256)%nat -> 0 <= df_flags h < 65536 -> 0 <= df_c_ns h < 256 ->
  0 <= df_c_soa h < 256 -> get_dns_file (put_dns_file h) = h.
Proof.
  intros F1 F2 F3 F4 F5. unfold get_dns_file, put_dns_file. rewrite <- (app_nil_r (le_store 1 (df_c_soa h))).
  rewrite (field_here 1) by lia. rewrite (field_skip_store 1 0 1), (field_here 1) by lia.
  rewrite (field_skip_store 1 1 2), (field_skip_store 1 0 2), (field_here 2) by lia.
  rewrite (field_skip_store 1 3 1), (field_skip_store 1 2 1), (field_skip_store 2 0 1), (field_here 1) by lia.
  rewrite (field_skip_store 1 4 1), (field_skip_store 1 3 1), (field_skip_store 2 1 1), (field_skip_store 1 0 1), (field_here 1) by lia.
  rewrite !Nat2Z.id. by destruct h.
Qed.

Section Formats.

Variable ar : arch.
Hypothesis W : (0 < w_time ar)%nat.

Lemma time_field_here z b : time_fits (w_time ar) z -> time_field ar 0 (put_time ar z ++ b) = z.
Proof.
  intros F. unfold time_field, field, put_time. rewrite drop_0. rewrite <- (length_le_store (w_time ar) z) at 2.
  by rewrite take_app_length, signed_store.
Qed.

Lemma time_field_skip_store m o z b : time_field ar (m + o) (le_store m z ++ b) = time_field ar o b.
Proof. unfold time_field. by rewrite field_skip_store. Qed.

Lemma time_field_next z b : time_field ar (w_time ar) (put_time ar z ++ b) = time_field ar 0 b.
Proof. rewrite <- (time_field_skip_store (w_time ar) 0 z b). by rewrite Nat.add_0_r. Qed.

Record fset_fits (h : rr_fset_t) : Prop := {
  ff_tp : 0 <= fs_tp h < 256;
  ff_num : (fs_num_rr h < 256)%nat;
  ff_flags : 0 <= fs_flags h < 65536;
  ff_ttl : time_fits (w_time ar) (fs_ttl h);
  ff_ts : time_fits (w_time ar) (fs_ts h);
}.

Lemma get_put_fset h : fset_fits h -> get_fset ar (put_fset ar h) = h.
Proof.
  intros [F1 F2 F3 F4 F5]. unfold get_fset, put_fset. rewrite <- (app_nil_r (put_time ar (fs_ts h))).
  rewrite (field_here 1) by lia. rewrite (field_skip_store 1 0 1), (field_here 1) by lia.
  rewrite (field_skip_store 1 1 2), (field_skip_store 1 0 2), (field_here 2) by lia.
  rewrite (time_field_skip_store 1 3), (time_field_skip_store 1 2), (time_field_skip_store 2 0), time_field_here by done.
  rewrite (time_field_skip_store 1 (3 + w_time ar)), (time_field_skip_store 1 (2 + w_time ar)), (time_field_skip_store 2 (w_time ar)).
  rewrite time_field_next, time_field_here by done.
  rewrite Nat2Z.id. by destruct h.
Qed.

End Formats.

Lemma length_put_dns_file h : length (put_dns_file h) = sizeof_dns_file.
Proof. unfold put_dns_file. rewrite !length_app, !length_le_store. done. Qed.

Lemma check_name_valid A : Forall valid_label A -> forall fuel, (length (enc_labels A) <= fuel)%nat -> check_name fuel (enc_labels A) = true.
Proof.
  induction 1 as [|l A [V1 V2] V IH]; intros fuel F; [by destruct fuel|].
  change (enc_labels (l :: A)) with ((n2b (length l) :: l) ++ enc_labels A) in *. simpl in F. destruct fuel as [|fuel]; [lia|]. cbn [app check_name].
  rewrite b2n_n2b by lia. rewrite length_app in F. rewrite drop_app_length, IH by lia. rewrite length_app.
  rewrite (proj2 (Nat.eqb_neq _ _)), !(proj2 (Nat.ltb_ge _ _)) by lia. done.
Qed.

(** ** Types *)

(** The slots of the types in an iteration list are all the slots. *)
Lemma rrmu_slots : omap rr_index rrmuiterlist = seq 0 NRRMU.
Proof. vm_compute. reflexivity. Qed.

Lemma rrcach_slots : Permutation (omap rr_index rrcachiterlist) (seq 0 NRRTOT).
Proof. apply (bool_decide_unpack _). vm_compute. exact I. Qed.

(** Strictly ascending above [p]. *)
Fixpoint ascending (p : Z) (l : list Z) : bool :=
  match l with
  | [] => true
  | x :: l => (p <? x) && ascending x l
  end.

Lemma ascending_weaken p p' l : p <= p' -> ascending p' l = true -> ascending p l = true.
Proof. destruct l as [|x l]; [done|]. simpl. intros L [H1%Z.ltb_lt H2]%andb_true_iff. rewrite H2, (proj2 (Z.ltb_lt _ _)); [done|lia]. Qed.

Lemma ascending_above l : forall p x, ascending p l = true -> x ∈ l -> p < x.
Proof.
  induction l as [|y l IH]; intros p x; [by intros _ ?%not_elem_of_nil|]. simpl. intros [H1%Z.ltb_lt H2]%andb_true_iff.
  intros [->|H]%elem_of_cons; [done|]. specialize (IH _ _ H2 H). lia.
Qed.

(** Types in ascending order that have a slot and fit a byte. *)
Definition good_types (tps : list Z) : Prop :=
  ascending 0 tps = true /\ Forall (fun tp => 0 <= tp < 256 /\ PDNSD_NOT_CACHED_TYPE tp = false) tps.

Lemma good_iter c : good_types (RRITERLIST c).
Proof.
  unfold RRITERLIST. destruct (negative c); [by split|].
  destruct (_ <? _)%nat; (split; [reflexivity|apply (bool_decide_unpack _); vm_compute; exact I]).
Qed.

Section Slots.

Variable abi : sizes.

Lemma iter_slots c : cent_ok abi c -> Permutation (omap rr_index (RRITERLIST c)) (seq 0 (length (arr c))).
Proof.
  intros [Tg Ln _ _ _]. unfold RRITERLIST, arr in *. rewrite Tg. destruct (body c) as [l tl t|x]; [done|]. simpl.
  destruct Ln as [E|E]; rewrite E; [by rewrite <- rrmu_slots|exact rrcach_slots].
Qed.

End Slots.

(** The record sets of an entry that are written, with their types. *)
Definition kept_set (c : dns_cent_t) (tp : Z) : option (Z * rr_set_t) :=
  match getrrset_eff c tp with
  | Some r => if nonlocal r then Some (tp, r) else None
  | None => None
  end.

Lemma write_sets_kept ar c tps : write_sets ar c tps = concat (map (fun '(tp, r) => write_rrset ar tp r) (omap (kept_set c) tps)).
Proof.
  unfold write_sets. induction tps as [|tp tps IH]; [done|]. cbn [map concat omap list_omap]. rewrite IH. unfold kept_set at 2.
  destruct (getrrset_eff c tp) as [r|]; [|done]. by destruct (nonlocal r).
Qed.

(** ** Building an entry *)

Section Build.

Variable abi : sizes.
Variable ar : arch.

Definition upd (ce : nat) (c : dns_cent_t) (s : cache) : cache := set_cents (<[ce := c]> (cents s)) s.

Lemma upd_at ce c s : cents (upd ce c s) !! ce = Some c.
Proof. apply lookup_insert_eq. Qed.

Lemma upd_upd ce c c' s : upd ce c (upd ce c' s) = upd ce c s.
Proof. unfold upd, set_cents. simpl. by rewrite insert_insert_eq. Qed.

Lemma upd_id ce c s : cents s !! ce = Some c -> upd ce c s = s.
Proof. intros H. unfold upd, set_cents. rewrite insert_id by done. by destruct s. Qed.

(** An entry that holds records and is not local. *)
Record positive (c : dns_cent_t) : Prop := {
  po_tag : negative c = false;
  po_body : body c = RR (arr c);
  po_len : length (arr c) = NRRMU \/ length (arr c) = NRRTOT;
  po_local : has (flags c) DF_LOCAL = false;
}.

Definition build_set (i : nat) (tl t f : Z) (c : dns_cent_t) : dns_cent_t :=
  let c := if (i <? length (arr c))%nat then c else extended abi c in
  with_num (num_rrs c + 1) (with_cs (cs c + sizeof_rr_set abi) (set_slot i (Some (RRSet None tl t f [])) c)).

Definition build_rr (i : nat) (r : rr_set_t) (d : list byte) (c : dns_cent_t) : dns_cent_t :=
  with_cs (cs c + bucket_size abi d) (set_slot i (Some (with_rrs (rrs r ++ [d]) r)) c).

Lemma post_memory s (Q : bool -> cache -> Prop) : mallocs s = [] -> Q true s -> post malloc s Q.
Proof. intros E H. exists true, s. split; [|done]. unfold malloc. by rewrite E. Qed.

Lemma add_set_built s ce c i tl t f : cents s !! ce = Some c -> mallocs s = [] -> positive c -> (i < NRRTOT)%nat ->
  post (add_cent_rrset_by_index abi ce i tl t f) s (fun ok s' => ok = true /\ s' = upd ce (build_set i tl t f c) s).
Proof.
  intros Hc Hm [Tg B Ln _] Hi. unfold add_cent_rrset_by_index, unnegate. pstep. pstep. eapply post_load; [done|]. rewrite Tg. pstep.
  pstep. apply post_assert; [by apply Nat.ltb_lt|]. pstep. eapply post_load; [done|]. pstep. unfold build_set.
  eapply (post_mono _ _ (fun ok s' => ok = true /\ s' = upd ce (if (i <? length (arr c))%nat then c else extended abi c) s)).
  - destruct (i <? length (arr c))%nat; [pstep; by rewrite upd_id|]. pstep. apply post_memory; [done|]. pstep. pstep. by pstep.
  - intros ok s1 [-> ->]. cbn [negb]. pstep. eapply post_load; [apply upd_at|]. pstep. apply post_memory; [done|]. cbn [negb].
    pstep. pstep. pstep. split; [done|]. apply upd_upd.
Qed.

Lemma add_rr_built s ce c tp i r t f d : cents s !! ce = Some c -> mallocs s = [] -> positive c -> rr_index tp = Some i -> (i < NRRTOT)%nat ->
  RRARR_INDEX c i = Some r -> d ∉ rrs r ->
  post (add_cent_rr abi ce tp (ttl r) t f d) s (fun ok s' => ok = true /\ s' = upd ce (build_rr i r d c) s).
Proof.
  intros Hc Hm [Tg B Ln Lo] Ht Hi Hr Hd. unfold add_cent_rr. pstep. eapply post_load; [done|]. rewrite Lo. cbn [andb]. rewrite Ht.
  pstep. apply post_assert; [by apply Nat.ltb_lt|].
  assert (RRARR_INDEX_TESTEXT c i = Some r) as -> by (unfold RRARR_INDEX_TESTEXT; by rewrite Tg).
  pstep. pstep. assert (set_slot i (Some (RRSet (lent r) (Z.min (ttl r) (ttl r)) (ts r) (rflags r) (rrs r))) c = c) as ->.
  { rewrite Z.min_id. unfold set_slot, with_body. rewrite list_insert_id; [rewrite <- B; by destruct c|].
    apply index_arr in Hr. rewrite Hr. by destruct r. }
  fold (upd ce c s). rewrite upd_id by done. rewrite bool_decide_false by done. pstep.
  unfold add_cent_rr_int. pstep. apply post_memory; [done|]. cbn [negb]. pstep.
  eapply (post_mono _ _ (fun ok s' => ok = true /\ s' = s)).
  { destruct (rrs r); [|by pstep]. pstep. eapply post_load; [done|]. unfold RRARR_INDEX_TESTEXT. rewrite Tg. fold (RRARR_INDEX c i). rewrite Hr. by pstep. }
  intros ok s' [-> ->]. cbn [negb]. pstep. eapply post_load; [done|]. rewrite Hr. pstep. pstep. pstep. pstep.
  split; [by rewrite bool_decide_true by eauto|]. unfold upd, build_rr. do 5 f_equal.
  fold (tail_of (rrs r)). rewrite (proj1 (tail_of_next (rrs r) d)), firstn_all, drop_all. done.
Qed.

(** The rest of the entry stays as it was. *)
Record same_head (c c' : dns_cent_t) : Prop := {
  sh_name : qname c' = qname c;
  sh_flags : flags c' = flags c;
  sh_ns : c_ns c' = c_ns c;
  sh_soa : c_soa c' = c_soa c;
}.

#[global] Instance same_head_refl : Reflexive same_head.
Proof. by constructor. Qed.

#[global] Instance same_head_trans : Transitive same_head.
Proof. intros c1 c2 c3 [] []. constructor; congruence. Qed.

Lemma positive_slot c c' i x : positive c -> same_head c c' -> body c' = RR (<[i := x]> (arr c)) -> positive c'.
Proof.
  intros [Tg B Ln Lo] [Nm Fl Ns Sa] B'. assert (arr c' = <[i := x]> (arr c)) as A by (unfold arr at 1; by rewrite B').
  constructor; rewrite ?A; try done; [unfold negative; by rewrite Fl|by rewrite length_insert|by rewrite Fl].
Qed.

Lemma slot_index c c' i x j : body c' = RR (<[i := x]> (arr c)) -> (i < length (arr c))%nat ->
  RRARR_INDEX c' j = if decide (j = i) then x else RRARR_INDEX c j.
Proof.
  intros B' L. unfold RRARR_INDEX. assert (arr c' = <[i := x]> (arr c)) as -> by (unfold arr at 1; by rewrite B').
  destruct (decide (j = i)) as [->|N]; [by rewrite list_lookup_insert_eq|by rewrite list_lookup_insert_ne].
Qed.

Lemma slot_length c c' i x : body c' = RR (<[i := x]> (arr c)) -> length (arr c') = length (arr c).
Proof. intros B'. unfold arr at 1. by rewrite B', length_insert. Qed.

Lemma extended_positive c : positive c -> length (arr c) = NRRMU -> positive (extended abi c) /\ length (arr (extended abi c)) = NRRTOT.
Proof.
  intros [Tg B Ln Lo] L. assert (length (arr (extended abi c)) = NRRTOT) as E by (change (length (arr c ++ repeat None NRREXT) = NRRTOT); rewrite length_app, repeat_length, L; done).
  split; [|done]. constructor; [done..|by right|done].
Qed.

Lemma build_set_works i tl t f c : positive c -> (i < NRRTOT)%nat ->
  let c' := build_set i tl t f c in
  positive c' /\ same_head c c' /\ (length (arr c') = length (arr c) \/ (NRRMU <= i)%nat) /\
  forall j, RRARR_INDEX c' j = if decide (j = i) then Some (RRSet None tl t f []) else RRARR_INDEX c j.
Proof.
  intros P Hi c'. unfold c', build_set. destruct (Nat.ltb_spec i (length (arr c))) as [L|L].
  - split; [by apply (positive_slot c _ i (Some (RRSet None tl t f [])))|]. split; [done|]. split; [left; by eapply slot_length|].
    intros j. by apply slot_index.
  - pose proof (po_len _ P) as Ln. destruct (extended_positive c P) as [P1 L1]; [lia|]. set (c1 := extended abi c) in *.
    split; [apply (positive_slot c1 _ i (Some (RRSet None tl t f []))); [done|by constructor|done]|]. split; [by constructor|].
    split; [right; unfold NRRMU, NRRTOT in *; lia|]. intros j. rewrite (slot_index c1 _ i (Some (RRSet None tl t f [])) j); [|done|lia].
    unfold c1. by rewrite extended_index.
Qed.

Lemma build_rr_works i r d c : positive c -> RRARR_INDEX c i = Some r ->
  let c' := build_rr i r d c in
  positive c' /\ same_head c c' /\ length (arr c') = length (arr c) /\
  forall j, RRARR_INDEX c' j = if decide (j = i) then Some (with_rrs (rrs r ++ [d]) r) else RRARR_INDEX c j.
Proof.
  intros P Hr%index_arr c'. split; [by apply (positive_slot c _ i (Some (with_rrs (rrs r ++ [d]) r)))|]. split; [done|].
  split; [by eapply slot_length|]. intros j. apply slot_index; [done|]. by eapply lookup_lt_Some.
Qed.

(** The records of a set. *)
Lemma read_rrs_built ds : forall s ce c i r sh dtsz rest, cents s !! ce = Some c -> mallocs s = [] -> positive c ->
  rr_index (fs_tp sh) = Some i -> (i < NRRTOT)%nat -> RRARR_INDEX c i = Some r -> fs_ttl sh = ttl r ->
  NoDup (rrs r ++ ds) -> Forall (fun d => zlen d < 65536) ds ->
  post (read_rrs abi (length ds) ce sh dtsz (concat (map put_rr ds) ++ rest)) s (fun res s' => exists dt c',
    res = Go dt rest /\ s' = upd ce c' s /\ positive c' /\ same_head c c' /\ length (arr c') = length (arr c) /\
    forall j, RRARR_INDEX c' j = if decide (j = i) then Some (with_rrs (rrs r ++ ds) r) else RRARR_INDEX c j).
Proof.
  induction ds as [|d ds IH]; intros s ce c i r sh dtsz rest Hc Hm P Ht Hi Hr Tl Nd Sz; cbn [length map concat read_rrs].
  { pstep. exists dtsz, c. rewrite app_nil_r, upd_id by done. do 5 (split; [done|]). intros j.
    destruct (decide (j = i)) as [->|]; [|done]. rewrite Hr. by destruct r. }
  apply Forall_cons in Sz as [Sd Sz]. unfold put_rr at 1. rewrite <- !app_assoc, fread_app by apply length_le_store. rewrite load_store by (unfold zlen in *; lia).
  unfold zlen. rewrite Nat2Z.id. pstep. eapply (post_mono _ _ (fun ok s' => ok = true /\ s' = s)); [case_match; [by apply post_memory|by pstep]|].
  intros ok s' [-> ->]. cbn [negb]. rewrite fread_app by done. pstep. rewrite Tl.
  assert (d ∉ rrs r) as Hd by (apply NoDup_app in Nd as (_ & H & _); intros E; by apply (H d E), elem_of_cons; left).
  eapply post_mono; [by apply (add_rr_built s ce c (fs_tp sh) i r)|]. intros ok s' [-> ->]. cbn [negb].
  destruct (build_rr_works i r d c P Hr) as (P1 & H1 & L1 & I1). set (c1 := build_rr i r d c) in *.
  eapply post_mono; [apply (IH (upd ce c1 s) ce c1 i (with_rrs (rrs r ++ [d]) r) sh _ rest); try done; [apply upd_at|by rewrite I1, decide_True|]|].
  { simpl. by rewrite <- app_assoc. }
  intros res s' (dt & c2 & -> & -> & P2 & H2 & L2 & I2). exists dt, c2. split; [done|]. split; [apply upd_upd|]. split; [done|].
  split; [by etrans|]. split; [by rewrite L2|]. intros j. rewrite I2, I1. destruct (decide (j = i)); [|done]. simpl. by rewrite <- app_assoc.
Qed.

(** A record set that the format can hold. *)
Record set_fits (r : rr_set_t) : Prop := {
  sf_flags : 0 <= rflags r < 65536;
  sf_ttl : time_fits (w_time ar) (ttl r);
  sf_ts : time_fits (w_time ar) (ts r);
  sf_count : (length (rrs r) <= 255)%nat;
  sf_nodup : NoDup (rrs r);
  sf_sizes : Forall (fun d => zlen d < 65536) (rrs r);
}.

(** The record sets of an entry after those of [L] were added. *)
Fixpoint from_sets (L : list (Z * rr_set_t)) (c : dns_cent_t) (j : nat) : option rr_set_t :=
  match L with
  | [] => RRARR_INDEX c j
  | (tp, r) :: L => if decide (rr_index tp = Some j) then Some (relent None r) else from_sets L c j
  end.

Lemma from_sets_ext L c c' j : RRARR_INDEX c j = RRARR_INDEX c' j -> from_sets L c j = from_sets L c' j.
Proof. intros E. induction L as [|[tp r] L IH]; [done|]. simpl. by destruct (decide _). Qed.

Lemma from_sets_none L c j : (forall tp, tp ∈ L.*1 -> rr_index tp <> Some j) -> from_sets L c j = RRARR_INDEX c j.
Proof.
  intros H. induction L as [|[tp r] L IH]; [done|]. simpl. rewrite decide_False by (apply H; simpl; by left).
  apply IH. intros tp' Ht. apply H. simpl. by right.
Qed.

(** The array was made longer only for a set that needs it. *)
Definition tight (c : dns_cent_t) : Prop :=
  length (arr c) = NRRMU \/ exists j r, (NRRMU <= j)%nat /\ RRARR_INDEX c j = Some r.

Lemma tight_grows c c' : tight c -> length (arr c') = length (arr c) -> (forall j, RRARR_INDEX c j <> None -> RRARR_INDEX c' j <> None) -> tight c'.
Proof.
  intros [L|(j & r & L & Hr)] E H; [left; congruence|]. right. exists j. destruct (RRARR_INDEX c' j) as [r'|] eqn:E'; [by exists r'|].
  exfalso. apply (H j); [by rewrite Hr|done].
Qed.

Hypothesis W : (0 < w_time ar)%nat.

Lemma read_sets_built L : forall prevtp s ce c dtsz rest, cents s !! ce = Some c -> mallocs s = [] -> positive c -> tight c ->
  ascending prevtp L.*1 = true -> Forall (fun tp => 0 <= tp < 256 /\ PDNSD_NOT_CACHED_TYPE tp = false) L.*1 ->
  Forall set_fits L.*2 -> (forall tp i, tp ∈ L.*1 -> rr_index tp = Some i -> RRARR_INDEX c i = None) ->
  post (read_sets abi ar (length L) prevtp ce dtsz (concat (map (fun '(tp, r) => write_rrset ar tp r) L) ++ rest)) s (fun res s' =>
    exists dt c', res = Go dt rest /\ s' = upd ce c' s /\ positive c' /\ same_head c c' /\ tight c' /\
    forall j, RRARR_INDEX c' j = from_sets L c j).
Proof.
  induction L as [|[tp r] L IH]; intros prevtp s ce c dtsz rest Hc Hm P Tc As Gt Fs Hn; cbn [length map concat read_sets].
  { pstep. exists dtsz, c. by rewrite upd_id. }
  rewrite fmap_cons in As, Gt. rewrite fmap_cons in Fs. cbn [fst snd ascending] in As, Gt, Fs. apply andb_true_iff in As as [A1%Z.ltb_lt As]. apply Forall_cons in Gt as [[Gr Gc] Gt]. apply Forall_cons in Fs as [[F1 F2 F3 F4 F5 F6] Fs].
  destruct (cacheable tp Gc) as (i & Ei & Li).
  unfold write_rrset at 1. rewrite take_ge by done. rewrite <- app_assoc.
  rewrite <- app_assoc, fread_app by apply length_put_fset.
  assert (fset_fits ar (FSet tp (length (rrs r)) (rflags r) (ttl r) (ts r))) as Ff by (constructor; cbn [fs_tp fs_num_rr fs_flags fs_ttl fs_ts]; (done || lia)).
  rewrite get_put_fset by done. cbn [fs_tp fs_num_rr fs_flags fs_ttl fs_ts]. rewrite Gc, (proj2 (Z.leb_gt _ _) A1). pstep.
  unfold add_cent_rrset_by_type. rewrite Ei. eapply post_mono; [by apply (add_set_built s ce c i)|]. intros ok s' [-> ->]. cbn [negb].
  destruct (build_set_works i (ttl r) (ts r) (rflags r) c P Li) as (P1 & H1 & L1 & I1). set (c1 := build_set _ _ _ _ c) in *. pstep.
  eapply post_mono; [apply (read_rrs_built (rrs r) (upd ce c1 s) ce c1 i (RRSet None (ttl r) (ts r) (rflags r) [])); try done; [apply upd_at|by rewrite I1, decide_True]|].
  intros res s' (dt2 & c2 & -> & -> & P2 & H2 & L2 & I2). rewrite upd_upd.
  assert (forall j, RRARR_INDEX c2 j = if decide (j = i) then Some (relent None r) else RRARR_INDEX c j) as I02.
  { intros j. rewrite I2, I1. by destruct (decide (j = i)). }
  assert (tight c2) as T2.
  { destruct L1 as [L1|L1]; [|right; exists i, (relent None r); by rewrite I02, decide_True].
    apply (tight_grows c); [done|congruence|]. intros j. rewrite I02. by destruct (decide (j = i)). }
  assert (forall tp', tp' ∈ L.*1 -> rr_index tp' <> Some i) as Other.
  { intros tp' Ht' E. pose proof (ascending_above _ _ _ As Ht'). pose proof (rr_index_inj tp tp' i Ei E). lia. }
  eapply post_mono; [apply (IH tp (upd ce c2 s) ce c2 dt2 rest); try done; [apply upd_at|]|].
  { intros tp' j Ht' Ej. rewrite I02, decide_False by (intros ->; by eapply Other). apply (Hn tp'); [simpl; by right|done]. }
  intros res s' (dt & c3 & -> & -> & P3 & H3 & T3 & I3). exists dt, c3. split; [done|]. split; [apply upd_upd|]. split; [done|].
  split; [by do 2 (etrans; [eassumption|])|]. split; [done|]. intros j. rewrite I3. cbn [from_sets]. rewrite Ei.
  destruct (decide (Some i = Some j)) as [[= <-]|N].
  - rewrite from_sets_none by done. by rewrite I02, decide_True.
  - apply from_sets_ext. rewrite I02, decide_False; [done|]. congruence.
Qed.

End Build.

(** ** The record sets that are written *)

Definition stored_set (c : dns_cent_t) (j : nat) : option rr_set_t :=
  match RRARR_INDEX c j with
  | Some r => if nonlocal r then Some (relent None r) else None
  | None => None
  end.

Definition kept_sets (c : dns_cent_t) : list (Z * rr_set_t) := omap (kept_set c) (RRITERLIST c).

Lemma kept_set_some c tp tp' r : kept_set c tp = Some (tp', r) -> tp' = tp /\ nonlocal r = true /\ exists j, rr_index tp = Some j /\ RRARR_INDEX c j = Some r.
Proof.
  unfold kept_set, getrrset_eff. destruct (rr_index tp) as [j|]; [|done]. simpl. destruct (RRARR_INDEX c j) as [r'|] eqn:E; [|done].
  destruct (nonlocal r') eqn:N; [|done]. intros [= <- <-]. eauto.
Qed.

Lemma kept_ascending c tps : forall p, ascending p tps = true -> ascending p (omap (kept_set c) tps).*1 = true.
Proof.
  induction tps as [|tp tps IH]; intros p; [done|]. cbn [ascending omap list_omap]. intros [H1 H2]%andb_true_iff.
  destruct (kept_set c tp) as [[tp' r]|] eqn:E.
  - apply kept_set_some in E as (-> & _). rewrite fmap_cons. cbn [fst ascending]. rewrite H1. by apply IH.
  - apply Z.ltb_lt in H1. apply IH, (ascending_weaken _ tp); [lia|done].
Qed.

Lemma kept_types c tps (P : Z -> Prop) : Forall P tps -> Forall P (omap (kept_set c) tps).*1.
Proof.
  intros H. apply Forall_forall. intros tp ([tp' r] & -> & Hr)%list_elem_of_fmap. apply list_elem_of_omap in Hr as (tp0 & H0 & E).
  apply kept_set_some in E as (-> & _). simpl. by eapply Forall_forall.
Qed.

Lemma kept_sets_hold c tps (P : rr_set_t -> Prop) : (forall j r, RRARR_INDEX c j = Some r -> nonlocal r = true -> P r) ->
  Forall P (omap (kept_set c) tps).*2.
Proof.
  intros H. apply Forall_forall. intros r ([tp' r'] & -> & Hr)%list_elem_of_fmap. apply list_elem_of_omap in Hr as (tp0 & H0 & E).
  apply kept_set_some in E as (-> & N & j & _ & Hj). by eapply H.
Qed.

Lemma from_kept c0 c tps j : (forall i, RRARR_INDEX c0 i = None) ->
  from_sets (omap (kept_set c) tps) c0 j = if decide (j ∈ omap rr_index tps) then stored_set c j else None.
Proof.
  intros N. induction tps as [|tp tps IH]; [apply N|]. cbn [omap list_omap].
  assert (rr_index tp <> Some j -> from_sets (match kept_set c tp with Some y => y :: omap (kept_set c) tps | None => omap (kept_set c) tps end) c0 j
    = from_sets (omap (kept_set c) tps) c0 j) as Skip.
  { intros E. destruct (kept_set c tp) as [[tp' r]|] eqn:Ek; [|done]. apply kept_set_some in Ek as (-> & _). simpl. by rewrite decide_False. }
  destruct (rr_index tp) as [i|] eqn:Ei; [destruct (decide (i = j)) as [->|Nj]|].
  - rewrite decide_True by (by left). unfold kept_set at 1, getrrset_eff. rewrite Ei. cbn [mbind option_bind]. unfold stored_set in *.
    destruct (RRARR_INDEX c j) as [r|]; [destruct (nonlocal r)|]; [simpl; by rewrite decide_True|..];
      change (from_sets (omap (kept_set c) tps) c0 j = None); rewrite IH; by destruct (decide _).
  - etrans; [apply Skip; congruence|]. rewrite IH. apply decide_ext. rewrite elem_of_cons. naive_solver.
  - etrans; [by apply Skip|]. exact IH.
Qed.

Section Counts.

Variable abi : sizes.

Lemma kept_all c c0 j : cent_ok abi c -> (forall i, RRARR_INDEX c0 i = None) -> from_sets (kept_sets c) c0 j = stored_set c j.
Proof.
  intros Ok N. unfold kept_sets. rewrite from_kept by done. destruct (decide _) as [H|H]; [done|]. unfold stored_set.
  destruct (RRARR_INDEX c j) as [r|] eqn:E; [|done]. exfalso. apply H. rewrite (iter_slots abi c Ok). apply elem_of_seq.
  apply index_arr, lookup_lt_Some in E. lia.
Qed.

Lemma kept_length_indices c tps :
  length (omap (kept_set c) tps) = length (base.filter (fun j => is_nonlocal (RRARR_INDEX c j) = true) (omap rr_index tps)).
Proof.
  induction tps as [|tp tps IH]; [done|]. cbn [omap list_omap]. unfold kept_set at 1, getrrset_eff.
  destruct (rr_index tp) as [i|]; [|exact IH]. cbn [mbind option_bind]. rewrite filter_cons.
  destruct (decide _) as [H|H]; unfold is_nonlocal in H; destruct (RRARR_INDEX c i) as [r|]; try done.
  - rewrite H. cbn [length]. by rewrite IH.
  - by destruct (nonlocal r).
Qed.

Lemma filter_indices {A} (P : A -> Prop) `{!forall x, Decision (P x)} (d : nat -> A) (x : list A) : (forall j y, x !! j = Some y -> d j = y) ->
  length (base.filter P x) = length (base.filter (fun j => P (d j)) (seq 0 (length x))).
Proof.
  revert d. induction x as [|y x IH]; intros d Hx; [done|]. cbn [length]. rewrite <- cons_seq, !filter_cons.
  assert (length (base.filter P x) = length (base.filter (fun j => P (d j)) (seq 1 (length x)))) as E.
  { rewrite (IH (fun j => d (S j))) by (intros j z; apply (Hx (S j))). rewrite <- fmap_S_seq. generalize (seq 0 (length x)).
    intros l. induction l as [|z l IHl]; [done|]. rewrite fmap_cons, !filter_cons. repeat case_decide; simpl; congruence. }
  rewrite <- (Hx 0%nat y eq_refl). destruct (decide _); cbn [length]; by rewrite E.
Qed.

Lemma kept_length c : cent_ok abi c -> length (kept_sets c) = count_nonlocal (arr c).
Proof.
  intros Ok. unfold kept_sets, count_nonlocal. rewrite kept_length_indices, (iter_slots abi c Ok).
  symmetry. refine (filter_indices (fun y => is_nonlocal y = true) (RRARR_INDEX c) (arr c) _). intros j y E.
  unfold RRARR_INDEX. by rewrite E.
Qed.

End Counts.

(** ** Sizes *)

Record sizes_ok (abi : sizes) : Prop := {
  so_cent : 0 <= sizeof_cent abi;
  so_set : 0 <= sizeof_rr_set abi;
  so_bucket : 0 <= sizeof_rr_bucket abi;
  so_ptr : 0 <= sizeof_ptr abi;
}.

Section Sizes.

Variable abi : sizes.
Hypothesis So : sizes_ok abi.

Lemma slot_size_nonneg x : 0 <= slot_size abi x.
Proof.
  destruct So as [_ S1 S2 _]. destruct x as [r|]; [|done]. simpl. unfold rrset_size.
  assert (0 <= fold_right (fun d z => bucket_size abi d + z) 0 (rrs r)); [|lia].
  induction (rrs r) as [|d ds IH]; simpl; [done|]. unfold bucket_size in *. pose proof (zlen_nonneg d). lia.
Qed.

Lemma sets_size_nonneg b : 0 <= sets_size abi b.
Proof. induction b as [|x b IH]; simpl; [done|]. pose proof (slot_size_nonneg x) as H. unfold slot_size in H. lia. Qed.

Lemma sets_size_le a : forall b, (forall j, slot_size abi (mjoin (a !! j)) <= slot_size abi (mjoin (b !! j))) -> sets_size abi a <= sets_size abi b.
Proof.
  induction a as [|x a IH]; intros b H; [apply sets_size_nonneg|]. destruct b as [|y b].
  - pose proof (H 0%nat) as H0. specialize (IH [] (fun j => H (S j))). simpl in *. unfold slot_size in H0. lia.
  - pose proof (H 0%nat) as H0. specialize (IH b (fun j => H (S j))). simpl in *. unfold slot_size in H0. lia.
Qed.

(** An entry with some of the sets of another is not larger. *)
Lemma stored_smaller c n : cent_ok abi c -> cent_ok abi n -> qname n = qname c -> (forall j, RRARR_INDEX n j = stored_set c j) ->
  (negative n = false -> tight n) -> cs n <= cs c.
Proof.
  intros Okc Okn Nm Ix Ti. rewrite (co_cs _ _ Okc), (co_cs _ _ Okn). unfold cent_size. rewrite Nm.
  assert (sets_size abi (arr n) <= sets_size abi (arr c)) as L.
  { apply sets_size_le. intros j. fold (RRARR_INDEX n j) (RRARR_INDEX c j). rewrite Ix. unfold stored_set.
    pose proof (slot_size_nonneg (RRARR_INDEX c j)). destruct (RRARR_INDEX c j) as [r|]; [|done]. by destruct (nonlocal r). }
  assert (0 <= ext_size abi) as E by (unfold ext_size; pose proof (so_ptr _ So); lia).
  destruct (Nat.ltb_spec NRRMU (length (arr n))) as [Ln|Ln]; [|destruct (_ <? _)%nat; lia].
  assert (negative n = false) as N.
  { rewrite (co_tag _ _ Okn). unfold arr in Ln. destruct (body n); [simpl in Ln; lia|done]. }
  destruct (Ti N) as [Eq|(j & r & Lj & Hr)]; [lia|]. rewrite Ix in Hr. unfold stored_set in Hr.
  destruct (RRARR_INDEX c j) as [r'|] eqn:Ej; [|done]. apply index_arr, lookup_lt_Some in Ej.
  rewrite (proj2 (Nat.ltb_lt _ _)) by lia. lia.
Qed.

Lemma sizes_nonneg c : 0 <= cent_size abi c.
Proof.
  unfold cent_size, ext_size. pose proof (sets_size_nonneg (arr c)). pose proof (so_cent _ So). pose proof (so_ptr _ So).
  pose proof (zlen_nonneg (qname c)). destruct (_ <? _)%nat; lia.
Qed.

End Sizes.

(** ** One entry *)

Section Trip.

Variable abi : sizes.
Variable global : globals.
Variable now : Z.
Variable ar : arch.
Hypothesis W : (0 < w_time ar)%nat.
Hypothesis So : sizes_ok abi.

Notation Core := (Core abi).
Notation Inv := (Inv abi).
Notation cent_ok := (cent_ok abi).

(** An entry that the format can hold. *)
Record entry_fits (c : dns_cent_t) : Prop := {
  ef_flags : 0 <= flags c < 65536;
  ef_ns : 0 <= c_ns c < 256;
  ef_soa : 0 <= c_soa c < 256;
  ef_local : has (flags c) DF_LOCAL = false;
  ef_sets : forall j r, RRARR_INDEX c j = Some r -> nonlocal r = true -> set_fits ar r;
  ef_neg : forall o tl t, body c = Neg o tl t -> time_fits (w_time ar) tl /\ time_fits (w_time ar) t;
}.

(** What is read for [c]. *)
Record restored (c n : dns_cent_t) : Prop := {
  rs_head : same_head c n;
  rs_sets : forall j, RRARR_INDEX n j = stored_set c j;
  rs_neg : forall o tl t, body c = Neg o tl t -> body n = Neg None tl t;
  rs_tight : negative n = false -> tight n;
}.

Definition blank (c : dns_cent_t) (tl t : Z) : dns_cent_t :=
  Cent (qname c) (sizeof_cent abi + zlen (qname c)) 0 (flags c)
    (if negative c then Neg None tl t else RR (repeat None NRRMU)) cundef cundef.

Lemma init_built s c tl t : Core s -> cent_ok c -> mallocs s = [] ->
  post (init_cent abi (qname c) tl t (flags c)) s (fun res s' => res = Some (fresh s) /\ s' = with_new (blank c tl t) [] s /\
    cent_ok (blank c tl t) /\ (forall i, RRARR_INDEX (blank c tl t) i = None) /\ forall i, lent_at (blank c tl t) i = None).
Proof.
  intros K Ok Hm. destruct (co_name _ _ Ok) as (A & V & E).
  assert (init_cent abi (qname c) tl t (flags c) s = Some (Some (fresh s), with_new (blank c tl t) [] s)) as Er.
  { unfold init_cent, mbind, M_bind, malloc. rewrite Hm. simpl. unfold with_new, set_cents, set_fresh, set_mallocs. simpl. by rewrite Hm. }
  exists (Some (fresh s)), (with_new (blank c tl t) [] s). split; [done|]. split; [done|]. split; [done|].
  pose proof (init_cent_post abi s A tl t (flags c) K V) as P. rewrite <- E in P.
  destruct (post_some _ _ _ _ _ P Er) as (m & [[? _]|(c' & _ & Ec & H1 & _ & H3 & H4)]); [done|].
  assert (c' = blank c tl t) as <-; [|done].
  apply (f_equal (fun s1 => cents s1 !! fresh s)) in Ec. simpl in Ec. rewrite !lookup_insert_eq in Ec. by injection Ec.
Qed.

(** The times of a negative entry. *)
Definition neg_bytes (c : dns_cent_t) : list byte :=
  match negative c, body c with true, Neg _ tl t => put_time ar tl ++ put_time ar t | _, _ => [] end.

Lemma neg_read c rest : cent_ok c -> entry_fits c ->
  exists ft, (if negative c then fread (sizeof_fttlts ar) (neg_bytes c ++ rest) else Some (repeat x00 (sizeof_fttlts ar), neg_bytes c ++ rest)) = Some (ft, rest) /\
    forall o tl t, body c = Neg o tl t -> time_field ar 0 ft = tl /\ time_field ar (w_time ar) ft = t.
Proof.
  intros Ok F. pose proof (co_tag _ _ Ok) as Tg. unfold neg_bytes. rewrite Tg. destruct (body c) as [o tl t|x] eqn:B; simpl; [|by eexists].
  destruct (ef_neg _ F o tl t B) as [F1 F2]. exists (put_time ar tl ++ put_time ar t). split.
  - apply fread_app. unfold put_time, sizeof_fttlts. rewrite length_app, !length_le_store. lia.
  - intros ? ? ? [= _ <- <-]. split; [by apply time_field_here|]. rewrite <- (app_nil_r (put_time ar t)), time_field_next. by apply time_field_here.
Qed.

Lemma negative_no_sets c : cent_ok c -> negative c = true -> arr c = [] /\ exists o tl t, body c = Neg o tl t.
Proof. intros Ok N. rewrite (co_tag _ _ Ok) in N. unfold arr. destruct (body c) as [o tl t|]; [|done]. eauto. Qed.

Lemma blank_positive c tl t : entry_fits c -> negative c = false ->
  let c1 := with_soa (c_soa c) (with_ns (c_ns c) (blank c tl t)) in positive c1 /\ tight c1 /\ same_head c c1.
Proof.
  intros F N c1. assert (body c1 = RR (repeat None NRRMU)) as B by (simpl; by rewrite N).
  assert (arr c1 = repeat None NRRMU) as A by (unfold arr; by rewrite B).
  split; [|split; [left; by rewrite A|by constructor]]. constructor; [done|by rewrite A|left; by rewrite A|apply F].
Qed.

Lemma sets_restored s ce c tl t dtsz rest : let c1 := with_soa (c_soa c) (with_ns (c_ns c) (blank c tl t)) in
  cent_ok c -> entry_fits c -> cents s !! ce = Some c1 -> mallocs s = [] -> (forall i, RRARR_INDEX c1 i = None) ->
  (forall o tl' t', body c = Neg o tl' t' -> tl = tl' /\ t = t') ->
  post (read_sets abi ar (count_nonlocal (arr c)) 0 ce dtsz (write_sets ar c (RRITERLIST c) ++ rest)) s (fun res s' => exists dt n,
    res = Go dt rest /\ s' = upd ce n s /\ restored c n).
Proof.
  intros c1 Ok F Hc Hm Ni Ht. destruct (negative c) eqn:N.
  - destruct (negative_no_sets c Ok N) as [A (o & tl' & t' & B)]. destruct (Ht o tl' t' B) as [-> ->]. unfold RRITERLIST. rewrite N, A.
    cbn [count_nonlocal base.filter list_filter length read_sets write_sets map concat app]. pstep. exists dtsz, c1. rewrite upd_id by done.
    split; [done|]. split; [done|]. constructor; [by constructor|..].
    + intros j. rewrite Ni. unfold stored_set, RRARR_INDEX. by rewrite A.
    + intros ? ? ? B'. rewrite B in B'. injection B' as _ <- <-. simpl. by rewrite N.
    + unfold negative. simpl. fold (negative c). by rewrite N.
  - destruct (blank_positive c tl t F N) as (P1 & T1 & H1). fold c1 in P1, T1, H1.
    rewrite write_sets_kept, <- (kept_length abi c Ok). destruct (good_iter c) as [G1 G2].
    eapply post_mono; [apply (read_sets_built abi ar W (kept_sets c) 0 s ce c1); try done|].
    + by apply kept_ascending.
    + by apply kept_types.
    + apply kept_sets_hold, F.
    + intros res s' (dt & n & -> & -> & P & H & T & Ix). exists dt, n. split; [done|]. split; [done|]. constructor; [by etrans| |..].
      * intros j. by rewrite Ix, (kept_all abi).
      * intros o tl' t' B. rewrite (co_tag _ _ Ok), B in N. done.
      * done.
Qed.

(** The name without its zero byte. *)
Lemma name_bytes c : cent_ok c -> exists A, valid_name A /\ qname c = enc_labels A ++ [x00] /\
  take (length (qname c) - 1) (qname c) = enc_labels A /\ (length (enc_labels A) < 256)%nat.
Proof.
  intros Ok. destruct (co_name _ _ Ok) as (A & V & E). exists A. split; [done|]. split; [done|].
  destruct V as [_ L]. rewrite length_wire in L. unfold DNSNAMEBUFSIZE in L. split; [|lia].
  rewrite E, length_wire, Nat.sub_succ, Nat.sub_0_r. apply take_app_length.
Qed.

Lemma count_small c : cent_ok c -> (count_nonlocal (arr c) < 256)%nat.
Proof.
  intros Ok. pose proof (length_filter (fun y => is_nonlocal y = true) (arr c)) as L. pose proof (co_len _ _ Ok) as Ln.
  unfold count_nonlocal, arr, NRRMU, NRRTOT in *. destruct (body c) as [|x]; simpl in L |- *; lia.
Qed.

Lemma post_both {A} (m : M A) s P Q : post m s P -> post m s Q -> post m s (fun r s' => P r s' /\ Q r s').
Proof. intros (r & s' & E & H) H'. exists r, s'. split; [done|]. split; [done|]. exact (post_some _ _ _ _ _ H' E). Qed.

(** Something of the entry is saved, so something is entered. *)
Lemma saved_entered c n : cent_ok c -> cent_ok n -> saved c = true -> restored c n -> negative n = true \/ num_rrs n <> 0.
Proof.
  intros Ok Okn Sv [[_ Fl _ _] Ix _ _]. unfold saved in Sv. assert (negative n = negative c) as -> by (unfold negative; by rewrite Fl).
  destruct (negative c); [by left|]. right. apply existsb_exists in Sv as (x & Hx & Nl). destruct x as [r|]; [|done].
  apply list_elem_of_In, list_elem_of_lookup in Hx as [j Hj%index_arr]. apply (holds_sets abi n j (relent None r) Okn).
  rewrite Ix. unfold stored_set. simpl in Nl. by rewrite Hj, Nl.
Qed.

(** Freeing the entry that was handed over. *)
Lemma free_entered n s s' b : Inv s' -> own s' b n -> entered global n s s' -> entered global n s (free_state b s').
Proof.
  intros I [Hb Nb] [E1 E2 E3 E4 E5]. assert (forall k, view (free_state b s') k = view s' k) as V.
  { intros k. unfold view, free_state. simpl. destruct (hash s' !! k) as [a|] eqn:E; [|done]. simpl. rewrite lookup_delete_ne; [done|].
    intros <-. by apply (Nb k). }
  constructor; try done.
  - intros k Nk. rewrite V. by apply E4.
  - by rewrite V.
Qed.

Lemma read_entry_built c dtsz rest s : Inv s -> sortable entry_cost s -> mallocs s = [] -> cent_ok c -> entry_fits c -> saved c = true ->
  hash s !! lower (qname c) = None -> cache_size s + cs c <= limit global ->
  post (read_entry abi global now ar dtsz (write_entry ar c ++ rest)) s (fun res s' => exists dt n,
    res = Go (dt, n) rest /\ restored c n /\ cs n <= cs c /\ entered global n s s').
Proof.
  intros I St Hm Ok F Sv Hk Sz. pose proof (b_core _ _ (i_base _ _ I)) as K.
  destruct (name_bytes c Ok) as (A & V & En & Et & La). unfold read_entry, write_entry. rewrite Et. fold (neg_bytes c). rewrite <- !app_assoc.
  rewrite fread_app by apply length_put_dns_file. pose proof (count_small c Ok).
  rewrite get_put_dns_file by (simpl; (done || apply F)). cbn [df_qlen df_num_rrs df_flags df_c_ns df_c_soa]. fold (negative c).
  destruct (neg_read c (enc_labels A ++ write_sets ar c (RRITERLIST c) ++ rest) Ok F) as (ft & -> & Ht).
  rewrite fread_app by done. rewrite check_name_valid by (apply V || done). cbn [negb]. rewrite <- En. pstep.
  eapply post_mono; [by apply init_built|]. intros res s1 (-> & -> & Okb & Nib & Nlb). set (tl := time_field ar 0 ft) in *. set (t := time_field ar (w_time ar) ft) in *.
  pstep. eapply (post_load (fresh s) (blank c tl t)); [simpl; apply lookup_insert_eq|]. pstep. pstep.
  destruct (init_own abi s [] (blank c tl t) (c_ns c) (c_soa c) I Okb Nlb Nib) as (Q1 & Ow1 & Ni1). set (c1 := with_soa _ _) in *. set (s1 := set_cents _ _) in *.
  pstep. eapply post_mono; [apply post_both|].
  { apply (sets_restored s1 (fresh s) c tl t dtsz rest Ok F); [apply Ow1|done..|]. intros o tl' t' B. by destruct (Ht o tl' t' B). }
  { apply (read_sets_post abi ar (count_nonlocal (arr c)) s1 0 (fresh s) c1); [apply Q1|done|]. intros j r. by rewrite Ni1. }
  intros res s2 [(dt & n & -> & -> & Rs) [Q2 (_ & n' & Ow2)]]. set (s2 := upd (fresh s) n s1) in *.
  assert (n' = n) as -> by (destruct Ow2 as [E _]; unfold s2 in E; rewrite upd_at in E; congruence).
  pose proof (k_cents _ _ (b_core _ _ (i_base _ _ (q_inv _ _ _ Q2))) _ _ (proj1 Ow2)) as Okn. pose proof (sh_name _ _ (rs_head _ _ Rs)) as Nm.
  pstep. eapply (post_load (fresh s) n); [apply Ow2|]. pstep.
  assert (cs n <= cs c) as Sm by (apply (stored_smaller abi So); try done; apply Rs).
  assert (post (add_cache abi global now (fresh s)) s2 (fun _ s' => entered global n s2 s')) as Add.
  { unfold add_cache. cbn [add_cache_retry]. pstep. eapply (post_load (fresh s) n); [apply Ow2|]. pstep. pstep. unfold dns_lookup.
    assert (hash s2 !! lower (qname n) = None) as Hk2 by (by rewrite Nm). rewrite Hk2.
    apply add_new_found; try done; [apply Q2|apply Ow2|apply Ow2|by apply (saved_entered c n)|]. change (cache_size s2) with (cache_size s). lia. }
  eapply post_mono; [apply post_both; [exact Add|apply (add_cache_post abi global now s2 (fresh s) n); try apply Ow2; [apply Q2|]]|].
  { destruct St as [E|E]; [by left|right]. change (fresh s2) with (S (fresh s)). unfold entry_cost in E. lia. }
  intros ? s3 [En3 A3]. destruct (ad_foreign _ _ _ _ _ A3 (fresh s) n (proj1 Ow2) (proj2 Ow2)) as [Hb3 Nb3].
  pose proof (free_entered n s2 s3 (fresh s) (ad_inv _ _ _ _ _ A3) (conj Hb3 Nb3) En3) as En4.
  pstep. eexists _, _. split; [apply (free_cent_run abi s3 (fresh s) n); [apply A3|done]|]. pstep. exists dt, n. do 3 (split; [done|]).
  destruct En4 as [E1 E2 E3 E4 E5]. constructor; try done. intros k Nk. rewrite E4 by done. unfold view. change (hash s2) with (hash s).
  destruct (hash s !! k) as [a|] eqn:E; [|done]. simpl. rewrite !lookup_insert_ne; try done; intros <-; exact (fresh_unhashed abi s k K E).
Qed.

(** ** The entries of a file *)

Definition key (c : dns_cent_t) : list byte := lower (qname c).
Definition csum (l : list dns_cent_t) : Z := foldr (fun c z => cs c + z) 0 l.

(** The entry is in the cache again: its record sets that are not local, or its negative
    times, with adjusted lifetimes. *)
Definition reloaded (s : cache) (c : dns_cent_t) : Prop := exists c', view s (key c) = Some c' /\
  (forall j, slot c' j = adjust_ttl global <$> stored_set c j) /\
  forall o tl t, body c = Neg o tl t -> exists o', body c' = Neg o' (neg_adjusted global c tl) t.

Lemma entered_reloaded c n s s' : restored c n -> entered global n s s' -> reloaded s' c.
Proof.
  intros [[Nm Fl _ _] Ix Ng _] [_ _ _ _ (c' & Hc' & Hs & Hn & _)]. exists c'. unfold key. rewrite <- Nm. split; [done|]. split.
  - intros j. rewrite Hs. unfold slot. rewrite Ix. unfold stored_set. destruct (RRARR_INDEX c j) as [r|]; [|done]. by destruct (nonlocal r).
  - intros o tl t B. destruct (Hn None tl t (Ng o tl t B)) as [o' H]. exists o'. rewrite H. unfold neg_adjusted. by rewrite Fl.
Qed.

Lemma read_entries_built l : forall fuel dtsz rest s, Inv s -> mallocs s = [] -> (length l <= fuel)%nat -> sortable (entry_cost * length l) s ->
  Forall (fun c => cent_ok c /\ entry_fits c /\ saved c = true) l -> NoDup (map key l) -> (forall c, c ∈ l -> hash s !! key c = None) ->
  cache_size s + csum l <= limit global ->
  post (read_entries abi global now ar fuel (Z.of_nat (length l)) dtsz (concat (map (write_entry ar) l) ++ rest)) s (fun '(ns, ok) s' =>
    ok = true /\ Forall (reloaded s') l /\ forall k, k ∉ map key l -> view s' k = view s k).
Proof.
  induction l as [|c l IH]; intros fuel dtsz rest s I Hm Lf St Fs Nd Hk Sz.
  { destruct fuel; cbn [read_entries length]; change (Z.of_nat 0 =? 0) with true; cbv iota; (pstep; by split). }
  destruct fuel as [|fuel]; [simpl in Lf; lia|]. cbn [read_entries map concat length]. rewrite (proj2 (Z.eqb_neq _ _)) by lia.
  apply Forall_cons in Fs as [(Ok & F & Sv) Fs]. cbn [map] in Nd. apply NoDup_cons in Nd as [Nk Nd]. cbn [csum foldr] in Sz. fold (csum l) in Sz.
  cbn [length] in St, Lf. rewrite Nat.mul_succ_r, Nat.add_comm in St. rewrite <- app_assoc.
  assert (0 <= csum l) as Cn.
  { clear - So Fs. induction Fs as [|c' l (Ok' & _) _ IH]; [done|]. simpl. fold (csum l). rewrite (co_cs _ _ Ok').
    pose proof (sizes_nonneg abi So c'). lia. }
  pstep. eapply post_mono; [apply post_both; [apply (read_entry_built c dtsz (concat (map (write_entry ar) l) ++ rest) s); try done|]|].
  { by apply (sortable_le (entry_cost + entry_cost * length l)); [lia|]. }
  { apply Hk. by left. }
  { lia. }
  { eapply post_costs; [apply costs_read_entry|apply read_entry_post; [done|]].
    by apply (sortable_le (entry_cost + entry_cost * length l)); [lia|]. }
  intros res s1 [(dt & n & -> & Rs & Sm & En) [[_ Ld] St1]]. specialize (St1 _ St). pose proof (sh_name _ _ (rs_head _ _ Rs)) as Nm.
  destruct (en_hash _ _ _ _ En) as [a Eh]. replace (Z.of_nat (S (length l)) - 1) with (Z.of_nat (length l)) by lia. pstep.
  eapply post_mono; [apply (IH fuel dt rest s1); try done; [apply Ld|apply En|lia|..]|].
  - intros c' Hc'. rewrite Eh, Nm, lookup_insert_ne; [apply Hk; by right|]. fold (key c). intros E. apply Nk. rewrite E. by apply list_elem_of_fmap_2.
  - rewrite (en_size _ _ _ _ En). lia.
  - intros [ns ok] s2 (-> & Rl & Ot). pstep. split; [done|]. pose proof (entered_reloaded c n s s1 Rs En) as Rc. split.
    + constructor; [|done]. destruct Rc as (c' & Hc' & H). exists c'. split; [|done]. by rewrite Ot.
    + intros k H. cbn [map] in H. apply not_elem_of_cons in H as [H1 H2]. rewrite Ot by done. apply (en_other _ _ _ _ En). by rewrite Nm.
Qed.

(** ** The whole file *)

Hypothesis Wl : (4 <= w_long ar)%nat.

Lemma entries_length l : (length l <= length (concat (map (write_entry ar) l)))%nat.
Proof.
  induction l as [|c l IH]; [done|]. cbn [map concat length]. rewrite length_app. unfold write_entry at 1.
  rewrite !length_app, length_put_dns_file. unfold sizeof_dns_file. lia.
Qed.

Lemma file_length l : (length l <= length (disk_file ar l))%nat.
Proof. unfold disk_file. rewrite !length_app. pose proof (entries_length l). lia. Qed.

Lemma count_fits l s : fits (disk_file ar l) s -> 0 <= Z.of_nat (length l) < 256 ^ Z.of_nat (w_long ar).
Proof.
  unfold fits, entry_cost. intros F. pose proof (file_length l). assert (2 ^ 32 <= 256 ^ Z.of_nat (w_long ar)); [|lia].
  change (2 ^ 32) with (256 ^ 4). apply Z.pow_le_mono_r; lia.
Qed.

Lemma read_disk_built l s : Inv s -> mallocs s = [] -> fits (disk_file ar l) s ->
  Forall (fun c => cent_ok c /\ entry_fits c /\ saved c = true) l -> NoDup (map key l) -> (forall c, c ∈ l -> hash s !! key c = None) ->
  cache_size s + csum l <= limit global ->
  post (read_disk_cache abi global now ar (disk_file ar l)) s (fun '(ns, ok) s' =>
    ok = true /\ Forall (reloaded s') l /\ forall k, k ∉ map key l -> view s' k = view s k).
Proof.
  intros I Hm Ft Fs Nd Hk Sz. pose proof (count_fits l s Ft) as Ct. pose proof (file_length l) as Fl.
  unfold read_disk_cache. pstep. apply post_memory; [done|]. cbn [negb]. pstep. pstep. set (s1 := set_sort false s).
  assert (Inv s1) as I1 by (by apply (inv_same abi s)). pstep.
  unfold read_body at 1. unfold disk_file. rewrite fread_app by done. rewrite bool_decide_true by done. cbn [negb].
  rewrite fread_app by apply length_le_store. rewrite load_store by done. rewrite <- (app_nil_r (concat (map (write_entry ar) l))) at 2.
  assert (sortable (entry_cost * length l) s1) as St1.
  { right. change (fresh s1) with (fresh s). unfold fits in Ft. etrans; [|exact Ft]. apply inj_lt, Nat.add_lt_mono_l, Nat.mul_lt_mono_pos_l; [unfold entry_cost|]; lia. }
  pose proof (entries_length l).
  eapply post_mono; [apply post_both; [apply (read_entries_built l (S (length (concat (map (write_entry ar) l)))) 512 [] s1); try done; lia|]|].
  { apply (read_entries_post abi global now ar (S (length (concat (map (write_entry ar) l)))) (Z.of_nat (length l)) 512
      (concat (map (write_entry ar) l) ++ []) s1 I1); rewrite app_nil_r; [lia|].
    right. unfold fits, disk_file in Ft. rewrite !length_app in Ft. change (fresh s1) with (fresh s). etrans; [|exact Ft].
    apply inj_lt, Nat.add_lt_mono_l, Nat.mul_lt_mono_pos_l; [unfold entry_cost; lia|]. simpl. lia. }
  intros [ns ok] s2 [(-> & Rl & Ot) [Ld So2]]. cbn [negb]. pstep. pstep. pstep.
  destruct (insert_sort s2) eqn:Is; [by pstep; pstep|]. destruct So2 as [?|So2]; [congruence|].
  pose proof (b_core _ _ (i_base _ _ (ld_inv _ _ _ _ _ Ld))) as K2. pose proof (list_length abi s2 K2). pstep.
  eapply post_mono; [apply (sort_list_post abi s2 K2); lia|]. intros _ s3 (L & -> & P). pstep. pstep. by split.
Qed.

(** ** The entries of the table *)

Lemma csum_perm l l' : Permutation l l' -> csum l = csum l'.
Proof. induction 1; simpl; lia. Qed.

Lemma csum_filter l : Forall cent_ok l -> 0 <= csum (base.filter (fun c => saved c = true) l) <= csum l.
Proof.
  induction 1 as [|c l Ok _ IH]; [done|]. rewrite filter_cons. cbn [csum foldr]. fold (csum l). rewrite (co_cs _ _ Ok).
  pose proof (sizes_nonneg abi So c). destruct (decide _); [|lia]. cbn [csum foldr]. rewrite (co_cs _ _ Ok). fold (csum (base.filter (fun c => saved c = true) l)). lia.
Qed.

(** The table as a list, with its keys and the size of all its entries. *)
Lemma table_list s (L : list (list byte * nat)) : (forall k a, (k, a) ∈ L -> exists c, cents s !! a = Some c /\ key c = k) ->
  map key (omap (fun a => cents s !! a) L.*2) = L.*1 /\ csum (omap (fun a => cents s !! a) L.*2) = foldr (fun '(_, a) z => cs_at (cents s) a + z) 0 L.
Proof.
  induction L as [|[k a] L IH]; intros H; [done|]. destruct IH as [IH1 IH2]; [intros k' a' H'; apply H; by right|].
  destruct (H k a) as (c & Hc & Ek); [by left|]. rewrite !fmap_cons. cbn [fst snd omap list_omap foldr].
  rewrite Hc. cbn [map csum foldr].
  rewrite IH1, Ek. split; [done|]. fold (csum (omap (fun a => cents s !! a) L.*2)). rewrite IH2.
  assert (cs_at (cents s) a = cs c) as ->; [unfold cs_at; by rewrite Hc|done].
Qed.

Lemma enumerated order s : Core s -> Permutation (order (hash s)) (map_to_list (hash s)).*2 ->
  (forall c, c ∈ enumerate order s <-> view s (key c) = Some c) /\ NoDup (map key (enumerate order s)) /\
  Forall cent_ok (enumerate order s) /\ csum (enumerate order s) = total s.
Proof.
  intros K P. set (l := omap (fun a => cents s !! a) (map_to_list (hash s)).*2).
  assert (Permutation (enumerate order s) l) as Pl by (unfold enumerate, l; by rewrite P).
  assert (forall k a, (k, a) ∈ map_to_list (hash s) -> exists c, cents s !! a = Some c /\ key c = k) as Hl.
  { intros k a H%elem_of_map_to_list. by apply (k_hash _ _ K). }
  destruct (table_list s _ Hl) as [E1 E2]. fold l in E1, E2.
  assert (forall c, c ∈ l <-> view s (key c) = Some c) as Hv.
  { intros c. unfold l. rewrite list_elem_of_omap. setoid_rewrite list_elem_of_fmap. rewrite view_some. split.
    - intros (a & ([k a'] & -> & H) & Hc). destruct (Hl k a' H) as (c' & Hc' & <-). simpl in Hc. rewrite Hc in Hc'. injection Hc' as ->.
      exists a'. by split; [apply elem_of_map_to_list|].
    - intros (a & Hk & Hc). exists a. split; [|done]. exists (key c, a). split; [done|]. by apply elem_of_map_to_list. }
  split; [|split; [|split]].
  - intros c. rewrite Pl. apply Hv.
  - rewrite Pl, E1. apply NoDup_fst_map_to_list.
  - rewrite Pl. apply Forall_forall. intros c (a & _ & Ha)%Hv%view_some. by apply (k_cents _ _ K a).
  - rewrite (csum_perm _ _ Pl), E2. unfold total, sum_cs. rewrite map_fold_foldr. done.
Qed.

Lemma saved_list l : NoDup (map key l) -> NoDup (map key (base.filter (fun c => saved c = true) l)).
Proof.
  induction l as [|c l IH]; [done|]. cbn [map]. intros [N Nd]%NoDup_cons. rewrite filter_cons. destruct (decide _); [|by apply IH].
  cbn [map]. apply NoDup_cons. split; [|by apply IH]. intros (c' & E & H)%list_elem_of_fmap. apply N. rewrite E. apply list_elem_of_fmap_2.
  by apply list_elem_of_filter in H as [_ H].
Qed.

(** Of a cache that could not be purged down to its size nothing is saved. *)
Lemma none_saved s : Inv s -> Forall (fun e => is_local s e = true) (rrset_l s) ->
  (forall k c, view s k = Some c -> saved c = true -> entry_fits c) -> forall k c, view s k = Some c -> saved c = true -> False.
Proof.
  intros I F Ef k c Hv Sv. specialize (Ef k c Hv Sv). apply view_some in Hv as (a & Hk & Ha).
  destruct (only_local abi s k a c I F Hk Ha) as [L1 L2]. pose proof (ef_local _ Ef) as Lo. unfold saved in Sv.
  destruct (negative c); [by rewrite L2 in Lo|]. apply existsb_exists in Sv as ([r|] & Hx & N); [|done].
  apply list_elem_of_In, list_elem_of_lookup in Hx as [j Hj%index_arr]. specialize (L1 j r Hj). unfold local in L1. rewrite Lo, orb_false_r in L1.
  simpl in N. unfold nonlocal in N. by rewrite L1 in N.
Qed.

Lemma saved_size order s : Inv s -> Permutation (order (hash s)) (map_to_list (hash s)).*2 ->
  (forall k c, view s k = Some c -> saved c = true -> entry_fits c) ->
  cache_size s <= perm_cache global * 1024 \/ Forall (fun e => is_local s e = true) (rrset_l s) -> 0 <= perm_cache global ->
  csum (base.filter (fun c => saved c = true) (enumerate order s)) <= limit global.
Proof.
  intros I P Ef H Pc. destruct (enumerated order s (b_core _ _ (i_base _ _ I)) P) as (E1 & E2 & E3 & E4). unfold limit, MCSZ.
  destruct H as [H|H].
  - pose proof (csum_filter _ E3) as L. pose proof (i_size _ _ I) as Z. lia.
  - destruct (base.filter (fun c => saved c = true) (enumerate order s)) as [|c l] eqn:E; [simpl; lia|]. exfalso.
    assert (c ∈ base.filter (fun c => saved c = true) (enumerate order s)) as Hc by (rewrite E; by left).
    apply list_elem_of_filter in Hc as [Sv Hc%E1]. by apply (none_saved s I H Ef (key c) c).
Qed.

(** C7: what [write_disk_cache] saves, [read_disk_cache] gets back. The file that is
    written of any cache the callers reach, read by a daemon that starts with an empty
    cache and has memory, gives a cache with exactly the names of the entries that
    have something to save; under each of them are its record sets that are not local, with
    all their records in order, their flags and time stamps, and their lifetimes adjusted
    (the times of a negative entry likewise). Of the entries to save it is asked that the format can hold
    them ([entry_fits]: flags, references, times and lengths fit their fields, a set has at most 255
    records, all different, and the entry as a whole is not local), and of the file that it is
    not too long for the sort of the list that is read ([fits]). *)
Theorem disk_roundtrip s hist now0 order : reach abi global ar s hist -> 0 <= perm_cache global ->
  (forall h, Permutation (order h) (map_to_list h).*2) ->
  exists f s1, write_disk_cache abi global now0 ar order s = Some (f, s1) /\
    ((forall k c, view s1 k = Some c -> saved c = true -> entry_fits c) -> fits f (empty_cache []) ->
     exists ns s2, read_disk_cache abi global now ar f (empty_cache []) = Some ((ns, true), s2) /\
       (forall k c, view s1 k = Some c -> saved c = true -> reloaded s2 c) /\
       (forall k, view s2 k <> None -> exists c, view s1 k = Some c /\ saved c = true)).
Proof.
  intros R Pc Po. destruct (reach_inv _ _ _ _ _ R) as [I Is].
  destruct (purge_cache_post abi now0 s (perm_cache global * 1024) false I (or_introl Is)) as ([] & s1 & E & I1 & _ & _ & _ & Lim).
  set (l := base.filter (fun c => saved c = true) (enumerate order s1)). exists (disk_file ar l), s1. split.
  { unfold write_disk_cache, mbind, M_bind. by rewrite E. }
  intros Ef Ft. destruct (enumerated order s1 (b_core _ _ (i_base _ _ I1)) (Po _)) as (E1 & E2 & E3 & E4).
  assert (forall c, c ∈ l <-> view s1 (key c) = Some c /\ saved c = true) as El.
  { intros c. unfold l. rewrite list_elem_of_filter, E1. tauto. }
  destruct (read_disk_built l (empty_cache [])) as ([ns ok] & s2 & Er & -> & Rl & Ot); try done.
  - apply empty_inv.
  - apply Forall_forall. intros c Hc. rewrite Forall_forall in E3. pose proof Hc as [H Sv]%El. split; [apply E3, E1, H|by eauto].
  - by apply saved_list.
  - apply (saved_size order s1 I1 (Po _) Ef Lim Pc).
  - exists ns, s2. split; [done|]. rewrite Forall_forall in Rl. split.
    + intros k c Hv Sv. apply Rl, El. split; [|done]. apply view_some in Hv as (a & Hk & Ha).
      destruct (k_hash _ _ (b_core _ _ (i_base _ _ I1)) k a Hk) as (c' & Hc' & <-). rewrite Ha in Hc'. injection Hc' as <-.
      apply view_some. eauto.
    + intros k Hk. destruct (decide (k ∈ map key l)) as [H|H]; [|by rewrite Ot in Hk].
      apply list_elem_of_fmap in H as (c & -> & Hc). exists c. by apply El.
Qed.

End Trip.

(** ** Example *)

Definition table_order (h : gmap (list byte) nat) : list nat := (map_to_list h).*2.

Definition written : option (list byte * cache) :=
  write_disk_cache example_abi example_globals 1100 example_arch table_order (after example_ops).1.

Definition example_cent : dns_cent_t :=
  Cent (wire name1) 129 1 0 (RR (Some (RRSet (Some 2%nat) 300 1000 0 [[x01; x02; x03; x04]; [x01; x02; x03; x05]]) :: repeat None 7)) cundef cundef.

Lemma example_fits : entry_fits example_arch example_cent.
Proof.
  constructor; try done; try (vm_compute; split; discriminate || done).
  intros [|j] r Hr; [|by do 7 (destruct j as [|j]; [discriminate Hr|])]. injection Hr as <-. intros _.
  constructor; simpl; try (unfold time_fits; simpl; lia); try lia.
  - apply (bool_decide_unpack _). vm_compute. exact I.
  - by repeat constructor.
Qed.

Lemma disk_roundtrip_witness : exists f s1 ns s2, written = Some (f, s1) /\ view s1 key1 = Some example_cent /\
  read_disk_cache example_abi example_globals 2000 example_arch f (empty_cache []) = Some ((ns, true), s2) /\
  reloaded example_globals s2 example_cent.
Proof.
  destruct (disk_roundtrip example_abi example_globals 2000 example_arch ltac:(simpl; lia) ltac:(by constructor) ltac:(simpl; lia)
    (after example_ops).1 _ 1100 table_order example_reach) as (f & s1 & E & H); [done|done|].
  assert (match written with Some (f, s) => (map_to_list (hash s), cents s !! 1%nat, length f) | None => ([], None, 0%nat) end
    = ([(key1, 1%nat)], Some example_cent, 58%nat)) as V by (vm_compute; reflexivity).
  unfold written in *. rewrite E in V. injection V as Vh Vc Vl.
  assert (forall k a, hash s1 !! k = Some a <-> (k, a) = (key1, 1%nat)) as Hh.
  { intros k a. rewrite <- elem_of_map_to_list, Vh. apply list_elem_of_singleton. }
  assert (view s1 key1 = Some example_cent) as Hv by (apply view_some; exists 1%nat; split; [by apply Hh|exact Vc]).
  destruct H as (ns & s2 & Er & Rl & _).
  - intros k c (a & Hk & Ha)%view_some _. apply Hh in Hk as [= _ ->]. rewrite Vc in Ha. injection Ha as <-.
    apply example_fits.
  - unfold fits. rewrite Vl. vm_compute. reflexivity.
  - exists f, s1, ns, s2. split; [exact E|]. split; [exact Hv|]. split; [exact Er|]. exact (Rl key1 example_cent Hv eq_refl).
Defined.
