(* ===== verification/PdnsdRecords.v ===== *)
(** * Resource records in DNS messages

    [pdnsd/src/dns.h]: the message header, [GETINT16], [GETINT32], [PUTINT16],
    [PUTINT32]; [pdnsd/src/dns_query.c]: [rr_to_cache], [rrs2cent], which decode a
    section of a received message into an array of cache entries.

    A position in a message is an index, the length of the rest of the section
    goes with it. Accesses are checked: [Undef] (in the monad of the cache,
    [fail]) is a read outside the message, a write outside a buffer or a failed
    assertion. [Stop] is an early return with a code. The buffers on the stack
    have the sizes of the source; they begin as zeros here, and only the part
    that has been written is passed on.

    The second half says what the data of a record are: [layout] is the format of
    a type, [fits] relates it to the parts of some data, and [parts_at] says that
    parts stand in a message, with names that may be compressed. *)

From S2P Require Import Prelude.
From S2P Require Import PdnsdNames.
From S2P Require Import PdnsdCompress.
From S2P Require Import PdnsdNameStr.
From S2P Require Import PdnsdCent.
From S2P Require Import PdnsdDisk.

Open Scope Z_scope.

(** ** Codes and types *)

Module RC.
Definition OK : Z := 0.
Definition FORMAT : Z := 1.
Definition SERVFAIL : Z := 2.
Definition NAMEERR : Z := 3.
Definition NOTSUPP : Z := 4.
Definition BADVERS : Z := 16.
Definition TRUNC : Z := 0xfffe.
Definition FATALERR : Z := 0xffff.
End RC.

Definition rcode_of (c : rc) : Z := match c with RC_OK => RC.OK | RC_FORMAT => RC.FORMAT | RC_TRUNC => RC.TRUNC end.

Definition T_MD : Z := 3.
Definition T_MF : Z := 4.
Definition T_MB : Z := 7.
Definition T_MG : Z := 8.
Definition T_MR : Z := 9.
Definition T_MINFO : Z := 14.
Definition T_RP : Z := 17.
Definition T_AFSDB : Z := 18.
Definition T_RT : Z := 21.
Definition T_PX : Z := 26.
Definition T_NXT : Z := 30.
Definition T_SRV : Z := 33.
Definition T_NAPTR : Z := 35.
Definition T_KX : Z := 36.
Definition T_OPT : Z := 41.
Definition T_IPSECKEY : Z := 45.
Definition T_RRSIG : Z := 46.
Definition T_NSEC : Z := 47.
Definition T_MAX : Z := 51.
Definition C_IN : Z := 1.

Definition one_of (type : Z) (l : list Z) : bool := existsb (Z.eqb type) l.

(** The cases of the [switch] statements that share their code. *)
Definition name_types : list Z := [T_CNAME; T_MB; T_MD; T_MF; T_MG; T_MR; T_NS; T_PTR].
Definition pair_types : list Z := [T_MINFO; T_RP].
Definition pref_types : list Z := [T_MX; T_AFSDB; T_RT; T_KX].

(** ** Integers in messages *)

Definition GETINT16 (msg : list byte) (p : nat) : option Z :=
  a ← msg !! p; b ← msg !! S p;
  Some (Z.lor (Z.shiftl (b2z a) 8) (b2z b)).

Definition GETINT32 (msg : list byte) (p : nat) : option Z :=
  a ← msg !! p; b ← msg !! S p; c ← msg !! S (S p); d ← msg !! S (S (S p));
  Some (Z.lor (Z.lor (Z.lor (Z.shiftl (b2z a) 24) (Z.shiftl (b2z b) 16)) (Z.shiftl (b2z c) 8)) (b2z d)).

Definition PUTINT16 (s : Z) : list byte := let t := u16 s in [z2b (Z.shiftr t 8); z2b t].

Definition PUTINT32 (l : Z) : list byte :=
  let t := u32 l in [z2b (Z.shiftr t 24); z2b (Z.shiftr t 16); z2b (Z.shiftr t 8); z2b t].

Open Scope nat_scope.

(** Memory that is read or written as a whole. *)
Definition read (msg : list byte) (p n : nat) : option (list byte) :=
  if p + n <=? length msg then Some (take n (drop p msg)) else None.

Definition copy_at (off : nat) (d db : list byte) : option (list byte) :=
  if off + length d <=? length db then Some (take off db ++ d ++ drop (off + length d) db) else None.

Definition buffer (n : nat) : list byte := repeat x00 n.

(** ** Headers *)

Definition sizeof_dns_hdr_t : nat := 12.
Definition sizeof_rr_hdr_t : nat := 10.

(** The fields after the name of a record. *)
Record rr_hdr_t := RRHdr { rh_type : Z; rh_class : Z; rh_ttl : Z; rh_rdlength : nat }.

Definition get_rr_hdr (msg : list byte) (p : nat) : option rr_hdr_t :=
  type ← GETINT16 msg p;
  class ← GETINT16 msg (p + 2);
  ttl ← GETINT32 msg (p + 4);
  rdlength ← GETINT16 msg (p + 8);
  Some (RRHdr type class ttl (Z.to_nat rdlength)).

(** What an OPT record says. *)
Record edns_info_t := Edns { e_udpsize : Z; e_rcode : Z; e_version : Z; e_do_flg : Z }.

(** [ttlp] is the position of the field for the time to live; the low bits of the
    code are in the header of the message. *)
Definition opt_info (msg : list byte) (ttlp : nat) (class : Z) : option edns_info_t :=
  t0 ← msg !! ttlp; t1 ← msg !! (ttlp + 1); t2 ← msg !! (ttlp + 2); h ← msg !! 3;
  Some (Edns class (Z.lor (Z.shiftl (b2z t0) 4) (Z.land (b2z h) 0xf)) (b2z t1) (Z.land (Z.shiftr (b2z t2) 7) 1)).

(** ** Early returns *)

Inductive res (A : Type) :=
  | Undef
  | Stop (code : Z)
  | Ret (x : A).
Arguments Undef {A}.
Arguments Stop {A}.
Arguments Ret {A}.

#[global] Instance res_ret : MRet res := fun A x => Ret x.
#[global] Instance res_bind : MBind res := fun A B f m => match m with Undef => Undef | Stop c => Stop c | Ret x => f x end.

Definition of_option {A} (o : option A) : res A := match o with Some x => Ret x | None => Undef end.

(** ** The data of a record *)

(** [decompress_name] into a buffer at an offset; a name that is cut off by the end
    of the data is malformed. *)
Definition name_into (msg : list byte) (bptr blcnt : nat) (db : list byte) (off : nat)
    : res (nat * nat * list byte * nat) :=
  match decompress_name msg bptr blcnt (drop off db) with
  | None => Undef
  | Some (NameError c) => Stop (if decide (c = RC_TRUNC) then RC.FORMAT else rcode_of c)
  | Some (NameOk bptr blcnt tgt len) => Ret (bptr, blcnt, take off db ++ tgt, len)
  end.

(** The labels [trailing_junk], [record_too_short], [buffer_overflow] and
    [invalid_length]. *)
Definition reject {A} : res A := Stop RC.FORMAT.

(** The three strings of a NAPTR record: the offset behind the next ones. *)
Fixpoint naptr_strings (msg : list byte) (bptr blcnt : nat) (j len : nat) : res nat :=
  match j with
  | O => mret len
  | S j =>
      if blcnt <=? len then reject else
      b ← of_option (msg !! (bptr + len));
      naptr_strings msg bptr blcnt j (len + b2n b + 1)
  end.

(** A name behind [off] bytes that should not be compressed, but is accepted
    so: the parts are put together in memory of their own. *)
Definition reassemble (msg : list byte) (ptr bptr blcnt off : nat) : res (list byte * bool) :=
  '(bptr, blcnt, nmbuf, len) ← name_into msg bptr blcnt (buffer DNSNAMEBUFSIZE) 0;
  front ← of_option (read msg ptr off);
  rest ← of_option (read msg bptr blcnt);
  mret (front ++ take len nmbuf ++ rest, true).

(** The data of a record of a type, expanded, and whether they are put together
    in memory from [malloc]. *)
Definition rdata (msg : list byte) (ptr rdlength : nat) (type : Z) : res (list byte * bool) :=
  let blcnt := rdlength in
  let bptr := ptr in
  let default_case := d ← of_option (read msg ptr rdlength); mret (d, false) in
  if (type =? T_A)%Z then
    if negb (rdlength =? 4) then reject else default_case
  else if one_of type name_types then
    '(bptr, blcnt, db, len) ← name_into msg bptr blcnt (buffer DNSNAMEBUFSIZE) 0;
    if negb (blcnt =? 0) then reject else mret (take len db, false)
  else if one_of type pair_types then
    '(bptr, blcnt, db, len) ← name_into msg bptr blcnt (buffer (DNSNAMEBUFSIZE + DNSNAMEBUFSIZE)) 0;
    let slen := len in
    '(bptr, blcnt, db, len) ← name_into msg bptr blcnt db slen;
    let slen := slen + len in
    if negb (blcnt =? 0) then reject else mret (take slen db, false)
  else if one_of type pref_types then
    if blcnt <? 2 then reject else
    pref ← of_option (read msg bptr 2);
    db ← of_option (copy_at 0 pref (buffer (2 + DNSNAMEBUFSIZE)));
    '(bptr, blcnt, db, len) ← name_into msg (bptr + 2) (blcnt - 2) db 2;
    let slen := 2 + len in
    if negb (blcnt =? 0) then reject else mret (take slen db, false)
  else if (type =? T_SOA)%Z then
    '(bptr, blcnt, db, len) ← name_into msg bptr blcnt (buffer (DNSNAMEBUFSIZE + DNSNAMEBUFSIZE + 20)) 0;
    let slen := len in
    '(bptr, blcnt, db, len) ← name_into msg bptr blcnt db slen;
    let slen := slen + len in
    if blcnt <? 20 then reject else
    rest ← of_option (read msg bptr 20);
    db ← of_option (copy_at slen rest db);
    if negb (blcnt - 20 =? 0) then reject else mret (take (slen + 20) db, false)
  else if (type =? T_AAAA)%Z then
    if negb (rdlength =? 16) then reject else default_case
  else if (type =? T_PX)%Z then
    if blcnt <? 2 then reject else
    pref ← of_option (read msg bptr 2);
    db ← of_option (copy_at 0 pref (buffer (2 + DNSNAMEBUFSIZE + DNSNAMEBUFSIZE)));
    '(bptr, blcnt, db, len) ← name_into msg (bptr + 2) (blcnt - 2) db 2;
    let slen := 2 + len in
    '(bptr, blcnt, db, len) ← name_into msg bptr blcnt db slen;
    let slen := slen + len in
    if negb (blcnt =? 0) then reject else mret (take slen db, false)
  else if (type =? T_SRV)%Z then
    if blcnt <? 6 then reject else
    front ← of_option (read msg bptr 6);
    db ← of_option (copy_at 0 front (buffer (6 + DNSNAMEBUFSIZE)));
    '(bptr, blcnt, db, len) ← name_into msg (bptr + 6) (blcnt - 6) db 6;
    let slen := 6 + len in
    if negb (blcnt =? 0) then reject else mret (take slen db, false)
  else if (type =? T_NXT)%Z then
    '(bptr, blcnt, db, len) ← name_into msg bptr blcnt (buffer 1040) 0;
    let slen := len + blcnt in
    if 1040 <? slen then reject else
    rest ← of_option (read msg bptr blcnt);
    db ← of_option (copy_at len rest db);
    mret (take slen db, false)
  else if (type =? T_NAPTR)%Z then
    len ← naptr_strings msg bptr blcnt 3 4;
    if blcnt <? len then reject else
    front ← of_option (read msg bptr len);
    db ← of_option (copy_at 0 front (buffer (4 + 3 * 256 + DNSNAMEBUFSIZE)));
    let slen := len in
    '(bptr, blcnt, db, len) ← name_into msg (bptr + slen) (blcnt - slen) db slen;
    let slen := slen + len in
    if negb (blcnt =? 0) then reject else mret (take slen db, false)
  else if (type =? T_IPSECKEY)%Z then
    if blcnt <? 3 then reject else
    gwtp ← of_option (msg !! (bptr + 1));
    let gwtp := b2n gwtp in
    let blcnt := blcnt - 3 in
    let bptr := bptr + 3 in
    if gwtp =? 0 then default_case
    else if gwtp =? 1 then if blcnt <? 4 then reject else default_case
    else if gwtp =? 2 then if blcnt <? 16 then reject else default_case
    else if gwtp =? 3 then
      normal ← of_option (isnormalencdomname (drop bptr msg) blcnt);
      if (normal : bool) then default_case else reassemble msg ptr bptr blcnt 3
    else reject
  else if (type =? T_RRSIG)%Z then
    if blcnt <? 18 then reject else
    normal ← of_option (isnormalencdomname (drop (bptr + 18) msg) (blcnt - 18));
    if (normal : bool) then default_case else reassemble msg ptr (bptr + 18) (blcnt - 18) 18
  else if (type =? T_NSEC)%Z then
    normal ← of_option (isnormalencdomname (drop bptr msg) blcnt);
    if (normal : bool) then default_case else reassemble msg ptr bptr blcnt 0
  else default_case.

(** ** Into cache entries *)

Section ToCache.

Variable abi : sizes.

Definition lift {A} (o : option A) : M A := fun s => x ← o; Some (x, s).

(** The entry of the array with the name. *)
Fixpoint find_centa (centa : list nat) (oname : list byte) : M (option nat) :=
  match centa with
  | [] => mret None
  | cent :: centa =>
      c ← load cent;
      same ← lift (rhnicmp (qname c) oname);
      if (same : bool) then mret (Some cent) else find_centa centa oname
  end.

Fixpoint free_centa (centa : list nat) : M unit :=
  match centa with
  | [] => mret tt
  | cent :: centa => free_cent abi cent;; free_centa centa
  end.

(** [DA_GROW1_F]: space for one more entry is allocated for eight at a time; if
    there is none, the entries are freed. *)
Definition da_grow1 (centa : list nat) : M (option (list nat)) :=
  ok ← (if length centa mod 8 =? 0 then malloc else mret true : M bool);
  if (ok : bool) then mret (Some centa) else free_centa centa;; mret None.

(** [DA_RESIZE] back to the length before: the space is given back eight at a
    time; when that fails, the array is lost. *)
Definition da_shrink (centa : list nat) : M (list nat) :=
  ok ← (if (length centa mod 8 =? 0) && negb (length centa =? 0) then malloc else mret true : M bool);
  mret (if (ok : bool) then centa else []).

Definition rr_to_cache (centa : list nat) (oname : list byte) (tp ttl : Z) (d : list byte) (flags queryts : Z)
    : M (Z * list nat) :=
  found ← find_centa centa oname;
  match found with
  | Some cent =>
      ok ← add_cent_rr abi cent tp ttl queryts flags d;
      mret (if (ok : bool) then RC.OK else RC.FATALERR, centa)
  | None =>
      grown ← da_grow1 centa;
      match grown with
      | None => mret (RC.FATALERR, [])
      | Some centa =>
          cent ← init_cent abi oname 0 0 0;
          match cent with
          | None => centa ← da_shrink centa; mret (RC.FATALERR, centa)
          | Some cent =>
              ok ← add_cent_rr abi cent tp ttl queryts flags d;
              mret (if (ok : bool) then RC.OK else RC.FATALERR, centa ++ [cent])
          end
      end
  end.

(** What the caller of [rrs2cent] passes by reference: the position and what is
    left of the section, the array of entries, the OPT records. *)
Record scan := Scan { sc_ptr : nat; sc_lcnt : nat; sc_centa : list nat; sc_numopt : nat; sc_ep : edns_info_t }.

Definition moved (p l : nat) (st : scan) : scan := Scan p l (sc_centa st) (sc_numopt st) (sc_ep st).
Definition with_centa (c : list nat) (st : scan) : scan := Scan (sc_ptr st) (sc_lcnt st) c (sc_numopt st) (sc_ep st).
Definition with_opt (e : edns_info_t) (st : scan) : scan :=
  Scan (sc_ptr st) (sc_lcnt st) (sc_centa st) (S (sc_numopt st)) (if sc_numopt st =? 0 then e else sc_ep st).

(** How a turn of the loop ends. *)
Inductive turn := Return (code : Z) (st : scan) | Next (retval : Z) (st : scan).

Section Loop.

Context (msg : list byte) (flags queryts : Z).

(** One record. *)
Definition rr2cent (retval : Z) (st : scan) : M turn :=
  r ← lift (decompress_name msg (sc_ptr st) (sc_lcnt st) (buffer DNSNAMEBUFSIZE));
  match r with
  | NameError code => mret (Return (rcode_of code) st)
  | NameOk p l tgt len =>
      let oname := take len tgt in
      if l <? sizeof_rr_hdr_t then mret (Return RC.TRUNC (moved p l st)) else
      h ← lift (get_rr_hdr msg p);
      let ttlp := p + 4 in
      let p := p + sizeof_rr_hdr_t in
      let l := l - sizeof_rr_hdr_t in
      let st := moved p l st in
      if l <? rh_rdlength h then mret (Return RC.TRUNC st) else
      let skip st := moved (p + rh_rdlength h) (l - rh_rdlength h) st in
      if (rh_type h =? T_OPT)%Z then
        e ← lift (opt_info msg ttlp (rh_class h));
        mret (Next retval (skip (with_opt e st)))
      else if negb (PDNSD_NOT_CACHED_TYPE (rh_type h) || negb (rh_class h =? C_IN)%Z) then
        match rdata msg p (rh_rdlength h) (rh_type h) with
        | Undef => fail
        | Stop code => mret (Return code st)
        | Ret (d, heap) =>
            ok ← (if (heap : bool) then malloc else mret true : M bool);
            if negb ok then mret (Return RC.FATALERR st) else
            '(rc, centa) ← rr_to_cache (sc_centa st) oname (rh_type h) (rh_ttl h) d flags queryts;
            let st := with_centa centa st in
            if (rc =? RC.FATALERR)%Z then mret (Return rc st) else
            mret (Next (if (rc =? RC.OK)%Z then retval else rc) (skip st))
        end
      else mret (Next retval (skip st))
  end.

Fixpoint rrs2cent_loop (recnum : nat) (retval : Z) (st : scan) : M (Z * scan) :=
  match recnum with
  | O => mret (retval, st)
  | S recnum =>
      t ← rr2cent retval st;
      match t with
      | Return code st => mret (code, st)
      | Next retval st => rrs2cent_loop recnum retval st
      end
  end.

Definition rrs2cent (recnum : nat) (st : scan) : M (Z * scan) := rrs2cent_loop recnum RC.OK st.

End Loop.

End ToCache.

(** ** The formats of the types *)

(** The parts of the data of a record: bytes, and names, which a message may hold
    in compressed form. *)
Inductive part := Bytes (bs : list byte) | Dname (A : list (list byte)).

Definition part_bytes (x : part) : list byte := match x with Bytes bs => bs | Dname A => wire A end.
Definition data (ps : list part) : list byte := concat (map part_bytes ps).

(** [Tag g] are three bytes of which the second one is [g]; [Str] is a string
    behind its length byte; [Rest] is whatever is left. *)
Inductive field := Fixed (n : nat) | Tag (g : nat) | Str | Dom | Rest.

Inductive fits : list field -> list part -> Prop :=
  | fits_nil : fits [] []
  | fits_fixed bs L ps : fits L ps -> fits (Fixed (length bs) :: L) (Bytes bs :: ps)
  | fits_tag a g b L ps : fits L ps -> fits (Tag (b2n g) :: L) (Bytes [a; g; b] :: ps)
  | fits_str bs L ps : length bs < 256 -> fits L ps -> fits (Str :: L) (Bytes (n2b (length bs) :: bs) :: ps)
  | fits_dom A L ps : valid_name A -> fits L ps -> fits (Dom :: L) (Dname A :: ps)
  | fits_rest bs : fits [Rest] [Bytes bs].

(** The formats of RFC 1035, 1183, 1712, 2163, 2230, 2535, 2782, 2915, 4025 and
    4034. The daemon takes the data of the other types as they are. *)
Definition layouts (type : Z) : list (list field) :=
  if (type =? T_A)%Z then [[Fixed 4]]
  else if one_of type name_types then [[Dom]]
  else if one_of type pair_types then [[Dom; Dom]]
  else if one_of type pref_types then [[Fixed 2; Dom]]
  else if (type =? T_SOA)%Z then [[Dom; Dom; Fixed 20]]
  else if (type =? T_AAAA)%Z then [[Fixed 16]]
  else if (type =? T_PX)%Z then [[Fixed 2; Dom; Dom]]
  else if (type =? T_SRV)%Z then [[Fixed 6; Dom]]
  else if (type =? T_NXT)%Z then [[Dom; Rest]]
  else if (type =? T_NAPTR)%Z then [[Fixed 4; Str; Str; Str; Dom]]
  else if (type =? T_IPSECKEY)%Z then [[Tag 0; Rest]; [Tag 1; Fixed 4; Rest]; [Tag 2; Fixed 16; Rest]; [Tag 3; Dom; Rest]]
  else if (type =? T_RRSIG)%Z then [[Fixed 18; Dom; Rest]]
  else if (type =? T_NSEC)%Z then [[Dom; Rest]]
  else [[Rest]].

(** The parts of well-formed data; NXT records have a limit of their own. *)
Definition shaped (type : Z) (ps : list part) : Prop :=
  (exists L, L ∈ layouts type /\ fits L ps) /\ (type = T_NXT -> length (data ps) <= 1040).

Definition rr_ok (type : Z) (d : list byte) : Prop := exists ps, shaped type ps /\ d = data ps.

(** The parts stand in the message at [p], in [n] bytes. *)
Inductive parts_at (msg : list byte) : nat -> nat -> list part -> Prop :=
  | pa_nil p : parts_at msg p 0 []
  | pa_bytes p n bs ps : read msg p (length bs) = Some bs -> parts_at msg (p + length bs) n ps ->
      parts_at msg p (length bs + n) (Bytes bs :: ps)
  | pa_name p m n A ps : name_at msg p m A -> parts_at msg (p + m) n ps ->
      parts_at msg p (m + n) (Dname A :: ps).

(** ** Lemmas on memory *)

Lemma read_ok msg p n : p + n <= length msg -> read msg p n = Some (take n (drop p msg)).
Proof. intros H. unfold read. by rewrite (proj2 (Nat.leb_le _ _)). Qed.

Lemma read_some msg p n d : read msg p n = Some d -> p + n <= length msg /\ d = take n (drop p msg) /\ length d = n.
Proof.
  unfold read. destruct (Nat.leb_spec (p + n) (length msg)); [|done]. intros [= <-]. split_and!; [done..|].
  rewrite length_take, length_drop. lia.
Qed.

Lemma read_split msg p n k d : read msg p n = Some d -> k <= n ->
  read msg p k = Some (take k d) /\ read msg (p + k) (n - k) = Some (drop k d).
Proof.
  intros (H & -> & _)%read_some Hk. rewrite !read_ok by lia. split; f_equal.
  - rewrite take_take. f_equal. lia.
  - by rewrite skipn_firstn_comm, drop_drop.
Qed.

Lemma read_join msg p d1 d2 : read msg p (length d1) = Some d1 -> read msg (p + length d1) (length d2) = Some d2 ->
  read msg p (length d1 + length d2) = Some (d1 ++ d2).
Proof.
  intros (H1 & E1 & _)%read_some (H2 & E2 & _)%read_some. rewrite read_ok by lia. f_equal.
  rewrite E1 at 2. rewrite E2 at 2. rewrite <- (take_drop (length d1) (take _ _)), take_take, skipn_firstn_comm, drop_drop.
  f_equal; f_equal; lia.
Qed.

Lemma read_app pre d post : read (pre ++ d ++ post) (length pre) (length d) = Some d.
Proof. rewrite read_ok by (rewrite !length_app; lia). by rewrite drop_app_length, take_app_length. Qed.

Lemma read_lookup msg p n d i : read msg p n = Some d -> i < n -> msg !! (p + i) = d !! i.
Proof. intros (_ & -> & _)%read_some Hi. by rewrite lookup_take_lt, lookup_drop. Qed.

Lemma copy_at_ok off d db : off + length d <= length db -> copy_at off d db = Some (take off db ++ d ++ drop (off + length d) db).
Proof. intros H. unfold copy_at. by rewrite (proj2 (Nat.leb_le _ _)). Qed.

Lemma length_buffer n : length (buffer n) = n.
Proof. apply repeat_length. Qed.

(** ** Names *)

Lemma expands_valid msg p h n A : expands msg p h n A -> Forall valid_label A.
Proof. induction 1; [constructor|by constructor|done]. Qed.

Lemma name_at_valid msg p n A : name_at msg p n A -> valid_name A.
Proof. intros (h & He & _ & ?). split; [by eapply expands_valid|done]. Qed.

Lemma name_at_det msg p n A n' A' : name_at msg p n A -> name_at msg p n' A' -> n = n' /\ A = A'.
Proof. intros (h & He & _) (h' & He' & _). by destruct (expands_det _ _ _ _ _ He _ _ _ He') as (_ & -> & ->). Qed.

(** A name that is written out. *)
Lemma plain_name_at msg p A r : valid_name A -> drop p msg = wire A ++ r -> name_at msg p (length (wire A)) A.
Proof.
  intros [Hv Hl] Hd. assert (Hp : p <= length msg).
  { destruct (le_dec p (length msg)); [done|]. rewrite drop_ge in Hd by lia.
    apply (f_equal length) in Hd. rewrite length_app, length_wire in Hd. simpl in Hd. lia. }
  assert (Hm : msg = take p msg ++ enc_labels A ++ [x00] ++ r).
  { rewrite <- (take_drop p msg) at 1. rewrite Hd. unfold wire. by rewrite <- app_assoc. }
  exists 0. split_and!; [|lia|done]. rewrite Hm.
  pose proof (expands_labels A Hv (take p msg) ([x00] ++ r) 0 1 []) as He.
  rewrite app_nil_r, length_take, Nat.min_l, Nat.add_1_r, <- length_wire in He by done. apply He.
  apply expands_root. replace (p + length (enc_labels A)) with (length (take p msg ++ enc_labels A))
    by (rewrite length_app, length_take; lia).
  rewrite app_assoc. by apply list_lookup_middle.
Qed.

Lemma wire_name_at msg p d A r : valid_name A -> read msg p (length d) = Some d -> d = wire A ++ r ->
  name_at msg p (length (wire A)) A.
Proof.
  intros HA (Hle & Hd & _)%read_some E. apply (plain_name_at msg p A (r ++ drop (length d) (drop p msg))); [done|].
  rewrite <- (take_drop (length d) (drop p msg)) at 1. rewrite <- Hd, E, <- app_assoc. done.
Qed.

(** [name_into] decodes exactly the names that end in the data. *)
Lemma name_into_spec msg p n db off : off + DNSNAMEBUFSIZE <= length db ->
  match name_into msg p n db off with
  | Undef => False
  | Stop c => c = RC.FORMAT /\ forall m A, name_at msg p m A -> n < m
  | Ret (p', n', db', len) => exists m A, name_at msg p m A /\ m <= n /\ p' = p + m /\ n' = n - m /\
      len = length (wire A) /\ db' = take off db ++ wire A ++ drop (off + len) db
  end.
Proof.
  intros Hd. unfold name_into.
  destruct (decompress_name_spec msg p n (drop off db)) as (r & -> & Hr); [rewrite length_drop; lia|].
  destruct r as [p' n' tgt len|c].
  - destruct Hr as (m & A & Hn & -> & Hm & -> & ->). exists m, A. rewrite drop_drop.
    split_and!; [done|lia|done|lia|done|done].
  - destruct Hr as (Hc & Hr). split; [|intros m A Hn; by destruct (Hr m A Hn)].
    by destruct c.
Qed.

Lemma name_into_ok msg p n m A db off : off + DNSNAMEBUFSIZE <= length db -> name_at msg p m A -> m <= n ->
  name_into msg p n db off =
    Ret (p + m, n - m, take off db ++ wire A ++ drop (off + length (wire A)) db, length (wire A)).
Proof.
  intros Hd Hn Hm. pose proof (name_into_spec msg p n db off Hd) as H.
  destruct (name_into msg p n db off) as [|c|(((p', n'), db'), len)]; [done|destruct H as [_ H]; apply H in Hn; lia|].
  destruct H as (m' & A' & Hn' & _ & -> & -> & -> & ->). by destruct (name_at_det _ _ _ _ _ _ Hn Hn') as [-> ->].
Qed.

(** [isnormalencdomname] accepts exactly the names that are written out. *)
Lemma isnormal_loop_sound maxlen msg : forall fuel i, maxlen - i < fuel -> maxlen <= length msg ->
  exists b, isnormalencdomname_loop fuel msg maxlen i = Some b /\
  (b = true -> exists A, Forall valid_label A /\ exists r, drop i msg = wire A ++ r /\ i + length (wire A) <= maxlen).
Proof.
  induction fuel as [|fuel IH]; intros i Hf Hl; [lia|]. cbn [isnormalencdomname_loop].
  destruct (Nat.leb_spec maxlen i); [by exists false|].
  destruct (lookup_lt_is_Some_2 msg i) as [b Hb]; [lia|]. rewrite Hb. cbn [fmap option_fmap option_map mbind option_bind].
  apply drop_S in Hb as Hdrop. destruct (Nat.eqb_spec (b2n b) 0) as [E|E].
  { exists true. split; [done|]. intros _. exists []. split; [done|]. apply b2n_0 in E as ->.
    exists (drop (S i) msg). rewrite Hdrop. change (length (wire [])) with 1. split; [done|lia]. }
  destruct (Nat.ltb_spec 0x3f (b2n b)); [by exists false|].
  destruct (IH (S i + b2n b)) as (r & Hr & Hs); [lia..|]. exists r. split; [exact Hr|]. intros Ht.
  destruct (Hs Ht) as (A & HA & rest & Hrest & Hle). assert (length (wire A) > 0) by (rewrite length_wire; lia).
  set (l := take (b2n b) (drop (S i) msg)).
  assert (Hll : length l = b2n b) by (unfold l; rewrite length_take, length_drop; lia).
  exists (l :: A). split; [constructor; [unfold valid_label; lia|done]|]. exists rest.
  rewrite length_wire_cons, wire_cons, Hll, n2b_b2n. split; [|lia]. rewrite Hdrop. cbn [app]. f_equal.
  rewrite <- app_assoc, <- Hrest, <- drop_drop. symmetry. apply take_drop.
Qed.

Lemma isnormal_spec msg p n : p + n <= length msg ->
  exists b, isnormalencdomname (drop p msg) n = Some b /\
  (b = true <-> exists A, valid_name A /\ (exists r, drop p msg = wire A ++ r) /\ length (wire A) <= n).
Proof.
  intros Hl. unfold isnormalencdomname.
  destruct (isnormal_loop_sound (Nat.min n DNSNAMEBUFSIZE) (drop p msg) (S (Nat.min n DNSNAMEBUFSIZE)) 0)
    as (b & Hb & Hs); [lia|rewrite length_drop; lia|].
  exists b. split; [done|]. split.
  - intros Ht. destruct (Hs Ht) as (A & HA & r & Hr & Hle). rewrite drop_0 in Hr. exists A.
    split; [split; [done|lia]|]. split; [by exists r|lia].
  - intros (A & [HA HL] & (r & Hr) & Hle). pose proof (isnormalencdomname_wire A r n HA) as Hw.
    rewrite <- Hr in Hw. unfold isnormalencdomname in Hw. rewrite Hb in Hw. injection Hw as ->.
    apply bool_decide_eq_true. lia.
Qed.

(** ** Decoding the data of a record *)

(** A result is a code or satisfies [Q]. *)
Definition good {A} (r : res A) (Q : A -> Prop) : Prop :=
  match r with Undef => False | Stop c => c = RC.FORMAT | Ret x => Q x end.

Lemma good_bind {A B} (m : res A) (k : A -> res B) P Q : good m P -> (forall x, P x -> good (k x) Q) -> good (m ≫= k) Q.
Proof. destruct m; [done|done|]. intros Hm Hk. by apply Hk. Qed.

Lemma good_mono {A} (m : res A) (P Q : A -> Prop) : good m P -> (forall x, P x -> Q x) -> good m Q.
Proof. destruct m; [done|done|]. intros Hm Hk. by apply Hk. Qed.

Lemma good_name {B} msg p n x y db off (k : nat * nat * list byte * nat -> res B) Q :
  db = x ++ y -> off = length x -> DNSNAMEBUFSIZE <= length y ->
  (forall m A, name_at msg p m A -> m <= n -> length (wire A) <= DNSNAMEBUFSIZE ->
     good (k (p + m, n - m, (x ++ wire A) ++ drop (length (wire A)) y, length (wire A))) Q) ->
  good (name_into msg p n db off ≫= k) Q.
Proof.
  intros -> -> Hy Hk. pose proof (name_into_spec msg p n (x ++ y) (length x)) as H. rewrite length_app in H.
  specialize (H ltac:(lia)). destruct (name_into msg p n (x ++ y) (length x)) as [|c|(((p', n'), db'), len)]; cbn; [done|apply H|].
  destruct H as (m & A & Hn & Hm & -> & -> & -> & ->). rewrite take_app_length, drop_app_add, app_assoc.
  apply Hk; [done..|]. by destruct (name_at_valid _ _ _ _ Hn).
Qed.

Lemma good_read {B} msg p n (k : list byte -> res B) Q : p + n <= length msg ->
  (forall d, read msg p n = Some d -> length d = n -> good (k d) Q) -> good (of_option (read msg p n) ≫= k) Q.
Proof.
  intros H Hk. rewrite read_ok by done. cbn. apply Hk; [by apply read_ok|]. rewrite length_take, length_drop. lia.
Qed.

Lemma good_copy {B} x y d db off (k : list byte -> res B) Q : db = x ++ y -> off = length x -> length d <= length y ->
  good (k ((x ++ d) ++ drop (length d) y)) Q -> good (of_option (copy_at off d db) ≫= k) Q.
Proof.
  intros -> -> Hd Hk. rewrite copy_at_ok by (rewrite length_app; lia). cbn. by rewrite take_app_length, drop_app_add, app_assoc.
Qed.

Lemma good_some {A B} (x : A) (k : A -> res B) Q : good (k x) Q -> good (of_option (Some x) ≫= k) Q.
Proof. done. Qed.

Lemma parts_at_le msg p n ps : parts_at msg p n ps -> p <= length msg -> p + n <= length msg \/ exists A, Dname A ∈ ps.
Proof.
  induction 1 as [p|p n bs ps Hr _ IH|p m n A ps]; intros Hp; [left; lia| |right; exists A; by left].
  apply read_some in Hr as (? & _). destruct IH as [?|(A & HA)]; [lia|left; lia|right; exists A; by right].
Qed.

Lemma expands_end msg p h n A : expands msg p h n A -> p + n <= length msg.
Proof.
  induction 1 as [p Hb|p b l h n ls Hb ?? Ht He IH|p b b' h n ls Hb ? Hb' He IH].
  - apply lookup_lt_Some in Hb. lia.
  - lia.
  - apply lookup_lt_Some in Hb'. lia.
Qed.

Lemma name_at_end msg p n A : name_at msg p n A -> p + n <= length msg.
Proof. intros (h & He & _). by eapply expands_end. Qed.

Lemma parts_at_end msg p n ps : parts_at msg p n ps -> p <= length msg -> p + n <= length msg.
Proof.
  induction 1 as [p|p n bs ps (Hr & _)%read_some _ IH|p m n A ps Hn%name_at_end _ IH]; intros Hp; [lia|..];
    specialize (IH ltac:(lia)); lia.
Qed.

(** The data are those of parts in one of the formats that stand in the message. *)
Definition decoded (msg : list byte) (p n : nat) (Ls : list (list field)) (d : list byte) : Prop :=
  exists L ps, L ∈ Ls /\ fits L ps /\ parts_at msg p n ps /\ d = data ps.

Lemma pa_last_bytes msg p n bs : read msg p n = Some bs -> parts_at msg p n [Bytes bs].
Proof.
  intros H. apply read_some in H as (Hle & Hbs & Hlen). rewrite <- Hlen, <- (Nat.add_0_r (length bs)).
  apply pa_bytes; [|constructor]. rewrite Hlen, Hbs. by apply read_ok.
Qed.

Lemma pa_last_name msg p m A : name_at msg p m A -> parts_at msg p m [Dname A].
Proof. intros H. rewrite <- (Nat.add_0_r m). apply pa_name; [done|constructor]. Qed.

Lemma pa_none msg p n : n = 0 -> parts_at msg p n [].
Proof. intros ->. constructor. Qed.

Lemma pa_bytes_cut msg p n k bs ps : read msg p k = Some bs -> k <= n -> parts_at msg (p + k) (n - k) ps ->
  parts_at msg p n (Bytes bs :: ps).
Proof.
  intros H Hk Hp. pose proof H as (_ & _ & Hlen)%read_some. replace n with (length bs + (n - k)) by lia.
  apply pa_bytes; [by rewrite Hlen|]. by rewrite Hlen.
Qed.

Lemma pa_name_cut msg p n m A ps : name_at msg p m A -> m <= n -> parts_at msg (p + m) (n - m) ps ->
  parts_at msg p n (Dname A :: ps).
Proof. intros H Hm Hp. replace n with (m + (n - m)) by lia. by apply pa_name. Qed.

Lemma fits_fixed_n n bs L ps : length bs = n -> fits L ps -> fits (Fixed n :: L) (Bytes bs :: ps).
Proof. intros <-. apply fits_fixed. Qed.

Lemma data_app ps qs : data (ps ++ qs) = data ps ++ data qs.
Proof. unfold data. by rewrite map_app, concat_app. Qed.

Lemma data_cons x ps : data (x :: ps) = part_bytes x ++ data ps.
Proof. done. Qed.

Ltac in_list := repeat first [by left | right].

(** The parts found so far are the data. *)
Ltac parts_found L ps :=
  exists L, ps; split_and!;
  [in_list
  |repeat first [apply fits_nil | apply fits_rest | apply fits_fixed_n; [lia|] | apply fits_dom; [by eapply name_at_valid|]]
  |repeat first [apply pa_none; lia | by apply pa_last_bytes | eapply pa_bytes_cut; [eassumption|lia|] | eapply pa_name_cut; [eassumption|lia|]]
  |cbn [fst app]; rewrite ?take_app_length' by (rewrite ?length_app; lia); unfold data; cbn [map concat part_bytes];
   rewrite ?app_nil_r, <- ?app_assoc; done].

Ltac run_name := eapply good_name; [first [done|symmetry; apply app_nil_l]|rewrite ?length_app; cbn [length]; lia
  |rewrite ?length_drop, ?length_buffer; unfold DNSNAMEBUFSIZE in *; lia|intros ?m ?A ?Hn ?Hm ?Hw].

(** The strings of a NAPTR record; they may run over the end of the data, which is
    tested afterwards. *)
Lemma naptr_strings_sound msg p n : p + n <= length msg -> forall j len,
  good (naptr_strings msg p n j len) (fun len' => len <= len' <= len + 256 * j /\
    (len' <= n -> exists ss : list (list byte), Forall (fun s => length s < 256) ss /\ length ss = j /\
       read msg (p + len) (len' - len) = Some (data (map (fun s => Bytes (n2b (length s) :: s)) ss)))).
Proof.
  intros Hle. induction j as [|j IH]; intros len; cbn [naptr_strings].
  { split; [lia|]. intros Hn. exists []. split_and!; [done..|]. rewrite Nat.sub_diag, read_ok by lia. done. }
  destruct (Nat.leb_spec n len); [done|].
  destruct (lookup_lt_is_Some_2 msg (p + len)) as [b Hb]; [lia|]. rewrite Hb. apply good_some.
  specialize (IH (len + b2n b + 1)). pose proof (b2n_lt b).
  destruct (naptr_strings msg p n j (len + b2n b + 1)) as [|c|len']; [done..|].
  destruct IH as (Hl & IH). split; [lia|]. intros Hn. destruct (IH Hn) as (ss & Hs & Hj & Hr).
  set (s := take (b2n b) (drop (S (p + len)) msg)).
  assert (Hsl : length s = b2n b) by (unfold s; rewrite length_take, length_drop; lia).
  exists (s :: ss). split_and!; [constructor; [lia|done]|by simpl; lia|].
  cbn [map]. rewrite data_cons. cbn [part_bytes]. rewrite Hsl, n2b_b2n.
  pose proof Hr as (_ & _ & Hlen)%read_some.
  replace (len' - len) with (length (b :: s) + length (data (map (λ s0 : list byte, Bytes (n2b (length s0) :: s0)) ss)))
    by (rewrite Hlen; simpl; lia).
  apply read_join.
  - rewrite read_ok by (simpl; lia). f_equal. rewrite (drop_S _ _ _ Hb). cbn [length]. rewrite Hsl. done.
  - rewrite Hlen. cbn [length]. rewrite Hsl.
    by replace (p + len + S (b2n b)) with (p + (len + b2n b + 1)) by lia.
Qed.

Lemma fits_strings ss L ps : Forall (fun s => length s < 256) ss -> fits L ps ->
  fits (repeat Str (length ss) ++ L) (map (fun s => Bytes (n2b (length s) :: s)) ss ++ ps).
Proof. intros Hs HL. induction Hs; [done|]. cbn. by apply fits_str. Qed.

(** Bytes that are read as a whole are parts one by one. *)
Lemma pa_split msg (bss : list (list byte)) : forall p n ps,
  read msg p (length (concat bss)) = Some (concat bss) -> length (concat bss) <= n ->
  parts_at msg (p + length (concat bss)) (n - length (concat bss)) ps -> parts_at msg p n (map Bytes bss ++ ps).
Proof.
  induction bss as [|bs bss IH]; intros p n ps Hr Hn Hp; cbn [map concat app length] in *.
  { by rewrite Nat.add_0_r, Nat.sub_0_r in Hp. }
  rewrite length_app in *. destruct (read_split _ _ _ (length bs) _ Hr) as [H1 H2]; [lia|].
  rewrite take_app_length in H1. rewrite drop_app_length in H2.
  eapply pa_bytes_cut; [done|lia|]. apply IH; [|lia|].
  - by replace (length bs + length (concat bss) - length bs) with (length (concat bss)) in H2 by lia.
  - by rewrite <- Nat.add_assoc, <- Nat.sub_add_distr.
Qed.

Lemma reassemble_sound msg p n off : p + n <= length msg -> off <= n ->
  good (reassemble msg p (p + off) (n - off) off) (fun r => exists m front A rest, length front = off /\
    read msg p off = Some front /\ name_at msg (p + off) m A /\ off + m <= n /\
    read msg (p + off + m) (n - off - m) = Some rest /\ r.1 = front ++ wire A ++ rest).
Proof.
  intros Hle Ho. unfold reassemble. run_name. apply good_read; [lia|]. intros front Hf Hfl.
  apply good_read; [lia|]. intros rest Hr Hrl. exists m, front, A, rest. split_and!; [done..|lia|done|].
  cbn [fst app]. by rewrite take_app_length.
Qed.

(** Data that are taken as they are when their name is written out, and put
    together otherwise. *)
Lemma normal_or_reassemble msg p n off (front : list byte) : p + n <= length msg -> off <= n -> read msg p off = Some front ->
  good (normal ← of_option (isnormalencdomname (drop (p + off) msg) (n - off));
        if (normal : bool) then d ← of_option (read msg p n); mret (d, false) else reassemble msg p (p + off) (n - off) off)
    (fun r => exists m A rest, name_at msg (p + off) m A /\ off + m <= n /\
      read msg (p + off + m) (n - off - m) = Some rest /\ r.1 = front ++ wire A ++ rest).
Proof.
  intros Hle Ho Hf. destruct (isnormal_spec msg (p + off) (n - off)) as (b & -> & Hb); [lia|]. apply good_some. destruct b.
  - apply good_read; [lia|]. intros d Hd Hl. destruct (proj1 Hb eq_refl) as (A & HA & (r & Hr) & Hw).
    exists (length (wire A)), A, (drop (off + length (wire A)) d).
    destruct (read_split _ _ _ off _ Hd ltac:(lia)) as [H1 H2]. simplify_eq.
    destruct (read_split _ _ _ (length (wire A)) _ H2 ltac:(lia)) as [H3 H4]. rewrite drop_drop in H4.
    split_and!; [by eapply plain_name_at|lia|done|]. cbn [fst].
    rewrite <- (take_drop off d) at 1. f_equal. rewrite <- (take_drop (length (wire A)) (drop off d)) at 1. rewrite drop_drop. f_equal.
    apply read_some in H3 as (_ & -> & _). by rewrite Hr, take_app_length.
  - pose proof (reassemble_sound msg p n off Hle Ho) as H.
    destruct (reassemble msg p (p + off) (n - off) off) as [|c|r]; [done..|].
    destruct H as (m & front' & A & rest & _ & Hf' & Hn & Hm & Hr & E). simplify_eq. exists m, A, rest. by rewrite E.
Qed.

(** The cases that need more than one step. *)
Lemma rdata_naptr msg p n : p + n <= length msg ->
  good (len ← naptr_strings msg p n 3 4;
        if n <? len then reject else
        front ← of_option (read msg p len);
        db ← of_option (copy_at 0 front (buffer (4 + 3 * 256 + DNSNAMEBUFSIZE)));
        '(bptr, blcnt, db, len') ← name_into msg (p + len) (n - len) db len;
        if negb (blcnt =? 0) then reject else mret (take (len + len') db, false))
    (fun r => decoded msg p n [[Fixed 4; Str; Str; Str; Dom]] r.1).
Proof.
  intros Hle. eapply good_bind; [by apply naptr_strings_sound|]. intros len (Hb & Hs).
  destruct (Nat.ltb_spec n len); [done|]. destruct (Hs ltac:(done)) as (ss & Hss & H3 & Hr).
  apply good_read; [lia|]. intros front Hf Hfl.
  eapply good_copy; [by rewrite app_nil_l|done|rewrite length_buffer; lia|]. run_name.
  destruct (Nat.eqb_spec (n - len - m) 0); [|done]. cbn [negb].
  destruct (read_split _ _ _ 4 _ Hf ltac:(lia)) as [Hf1 Hf2]. rewrite Hr in Hf2. injection Hf2 as Hf2.
  set (strs := map (fun s => n2b (length s) :: s) ss).
  assert (Hd : data (map (fun s => Bytes (n2b (length s) :: s)) ss) = concat strs)
    by (unfold data, strs; by rewrite map_map).
  exists [Fixed 4; Str; Str; Str; Dom], (Bytes (take 4 front) :: map (fun s => Bytes (n2b (length s) :: s)) ss ++ [Dname A]).
  split_and!; [in_list|..].
  - apply fits_fixed_n; [rewrite length_take; lia|]. destruct ss as [|s1 [|s2 [|s3 [|]]]]; try done.
    apply (fits_strings [s1; s2; s3] [Dom] [Dname A] Hss). apply fits_dom; [by eapply name_at_valid|constructor].
  - eapply pa_bytes_cut; [exact Hf1|lia|].
    replace (map (fun s => Bytes (n2b (length s) :: s)) ss) with (map Bytes strs) by (unfold strs; by rewrite map_map).
    rewrite Hd in Hr. pose proof Hr as (_ & _ & Hcl)%read_some. apply pa_split; [by rewrite Hcl|lia|].
    rewrite Hcl. replace (p + 4 + (len - 4)) with (p + len) by lia. replace (n - 4 - (len - 4)) with m by lia.
    by apply pa_last_name.
  - cbn [fst app]. rewrite take_app_length' by (rewrite length_app; lia).
    rewrite data_cons, data_app. cbn [part_bytes]. unfold data at 2. cbn [map concat part_bytes].
    rewrite app_nil_r, app_assoc. f_equal. rewrite Hf2. symmetry. apply take_drop.
Qed.

Lemma parts_front_name msg p n k front m A rest Ls : read msg p k = Some front -> name_at msg (p + k) m A -> k + m <= n ->
  read msg (p + k + m) (n - k - m) = Some rest -> [Fixed k; Dom; Rest] ∈ Ls -> decoded msg p n Ls (front ++ wire A ++ rest).
Proof.
  intros Hf Hn Hm Hr HL. pose proof Hf as (_ & _ & Hlen)%read_some.
  exists [Fixed k; Dom; Rest], [Bytes front; Dname A; Bytes rest]. split_and!; [done|..].
  - apply fits_fixed_n; [done|]. apply fits_dom; [by eapply name_at_valid|constructor].
  - eapply pa_bytes_cut; [done|lia|]. eapply pa_name_cut; [done|lia|]. by apply pa_last_bytes.
  - unfold data. cbn [map concat part_bytes]. by rewrite app_nil_r.
Qed.

(** Three bytes and their second one. *)
Lemma read_tag msg p g : read msg p 3 <> None -> msg !! (p + 1) = Some g -> exists a b, read msg p 3 = Some [a; g; b].
Proof.
  intros Hr Hg. destruct (read msg p 3) as [d|] eqn:E; [|done]. pose proof E as (_ & _ & Hl)%read_some.
  pose proof (read_lookup _ _ _ _ 1 E ltac:(lia)) as H1. rewrite Hg in H1.
  destruct d as [|a [|g' [|b [|]]]]; try done. injection H1 as ->. by exists a, b.
Qed.

Lemma rdata_ipseckey msg p n : p + n <= length msg ->
  let default_case := d ← of_option (read msg p n); mret (d, false) in
  good (if n <? 3 then reject else
        gwtp ← of_option (msg !! (p + 1));
        if b2n gwtp =? 0 then default_case
        else if b2n gwtp =? 1 then if n - 3 <? 4 then reject else default_case
        else if b2n gwtp =? 2 then if n - 3 <? 16 then reject else default_case
        else if b2n gwtp =? 3 then
          normal ← of_option (isnormalencdomname (drop (p + 3) msg) (n - 3));
          if (normal : bool) then default_case else reassemble msg p (p + 3) (n - 3) 3
        else reject)
    (fun r => decoded msg p n [[Tag 0; Rest]; [Tag 1; Fixed 4; Rest]; [Tag 2; Fixed 16; Rest]; [Tag 3; Dom; Rest]] r.1).
Proof.
  intros Hle default_case. destruct (Nat.ltb_spec n 3); [done|].
  destruct (lookup_lt_is_Some_2 msg (p + 1)) as [g Hg]; [lia|]. rewrite Hg. apply good_some.
  destruct (read_tag msg p g) as (a & b & Ht); [by rewrite read_ok by lia|done|].
  assert (Hd : forall d, read msg p n = Some d -> read msg (p + 3) (n - 3) = Some (drop 3 d) /\ d = [a; g; b] ++ drop 3 d).
  { intros d Hd. destruct (read_split _ _ _ 3 _ Hd ltac:(lia)) as [H1 H2]. rewrite Ht in H1. split; [done|].
    injection H1 as ->. by rewrite take_drop. }
  assert (Hfix : forall k, b2n g < 3 -> k <= n - 3 -> [Tag (b2n g); Fixed k; Rest] ∈
    [[Tag 0; Rest]; [Tag 1; Fixed 4; Rest]; [Tag 2; Fixed 16; Rest]; [Tag 3; Dom; Rest]] ->
    good default_case (fun r => decoded msg p n
      [[Tag 0; Rest]; [Tag 1; Fixed 4; Rest]; [Tag 2; Fixed 16; Rest]; [Tag 3; Dom; Rest]] r.1)).
  { intros k _ Hk HL. apply good_read; [lia|]. intros d Hr Hl. destruct (Hd d Hr) as (Hr' & E).
    destruct (read_split _ _ _ k _ Hr' Hk) as [H1 H2]. rewrite drop_drop in H2.
    exists [Tag (b2n g); Fixed k; Rest], [Bytes [a; g; b]; Bytes (take k (drop 3 d)); Bytes (drop (3 + k) d)].
    split_and!; [done| | |].
    - apply fits_tag, fits_fixed_n; [rewrite length_take, length_drop; lia|constructor].
    - eapply pa_bytes_cut; [done|lia|]. eapply pa_bytes_cut; [done|lia|]. by apply pa_last_bytes.
    - unfold data. cbn [map concat part_bytes]. cbn [fst]. rewrite app_nil_r, <- drop_drop, take_drop. exact E. }
  destruct (Nat.eqb_spec (b2n g) 0) as [E0|].
  { apply good_read; [lia|]. intros d Hr Hl. destruct (Hd d Hr) as (Hr' & E).
    exists [Tag 0; Rest], [Bytes [a; g; b]; Bytes (drop 3 d)]. split_and!; [in_list| | |].
    - rewrite <- E0. apply fits_tag, fits_rest.
    - eapply pa_bytes_cut; [done|lia|]. by apply pa_last_bytes.
    - unfold data. cbn [map concat part_bytes]. by rewrite app_nil_r. }
  destruct (Nat.eqb_spec (b2n g) 1) as [E1|].
  { destruct (Nat.ltb_spec (n - 3) 4); [done|]. apply (Hfix 4); [lia..|]. rewrite E1. in_list. }
  destruct (Nat.eqb_spec (b2n g) 2) as [E2|].
  { destruct (Nat.ltb_spec (n - 3) 16); [done|]. apply (Hfix 16); [lia..|]. rewrite E2. in_list. }
  destruct (Nat.eqb_spec (b2n g) 3) as [E3|]; [|done].
  eapply good_mono; [eapply (normal_or_reassemble msg p n 3); [lia..|done]|].
  intros r (m & A & rest & Hn & Hm & Hr & ->).
  exists [Tag 3; Dom; Rest], [Bytes [a; g; b]; Dname A; Bytes rest]. split_and!; [in_list| | |].
  - rewrite <- E3. apply fits_tag, fits_dom; [by eapply name_at_valid|constructor].
  - eapply pa_bytes_cut; [done|lia|]. eapply pa_name_cut; [done|lia|]. by apply pa_last_bytes.
  - unfold data. cbn [map concat part_bytes]. by rewrite app_nil_r.
Qed.

Lemma rdata_sound msg p n type : p + n <= length msg ->
  good (rdata msg p n type) (fun r => decoded msg p n (layouts type) r.1 /\ (type = T_NXT -> length r.1 <= 1040)).
Proof.
  intros Hle. unfold rdata, layouts.
  destruct (type =? T_A)%Z eqn:E1.
  { destruct (Nat.eqb_spec n 4) as [->|]; [|done]. apply good_read; [lia|]. intros d Hd Hl. split; [|intros ->; done].
    parts_found [Fixed 4] [Bytes d]. }
  destruct (one_of type name_types) eqn:E2.
  { run_name. destruct (Nat.eqb_spec (n - m) 0); [|done]. split; [|intros ->; done]. cbn [negb].
    parts_found [Dom] [Dname A]. }
  destruct (one_of type pair_types) eqn:E3.
  { run_name. run_name. destruct (Nat.eqb_spec (n - m - m0) 0); [|done]. split; [|intros ->; done]. cbn [negb fst].
    parts_found [Dom; Dom] [Dname A; Dname A0]. }
  destruct (one_of type pref_types) eqn:E4.
  { destruct (Nat.ltb_spec n 2); [done|]. apply good_read; [lia|]. intros d Hd Hl.
    eapply good_copy; [by rewrite app_nil_l|done|rewrite length_buffer; lia|]. run_name.
    destruct (Nat.eqb_spec (n - 2 - m) 0); [|done]. split; [|intros ->; done]. cbn [negb fst].
    parts_found [Fixed 2; Dom] [Bytes d; Dname A]. }
  destruct (type =? T_SOA)%Z eqn:E5.
  { run_name. run_name. destruct (Nat.ltb_spec (n - m - m0) 20); [done|].
    apply good_read; [lia|]. intros d Hd Hl.
    eapply good_copy; [done|rewrite ?length_app; simpl; lia|rewrite !length_drop, length_buffer; unfold DNSNAMEBUFSIZE in *; lia|].
    destruct (Nat.eqb_spec (n - m - m0 - 20) 0); [|done]. split; [|intros ->; done]. cbn [negb fst].
    parts_found [Dom; Dom; Fixed 20] [Dname A; Dname A0; Bytes d]. }
  destruct (type =? T_AAAA)%Z eqn:E6.
  { destruct (Nat.eqb_spec n 16) as [->|]; [|done]. apply good_read; [lia|]. intros d Hd Hl. split; [|intros ->; done].
    parts_found [Fixed 16] [Bytes d]. }
  destruct (type =? T_PX)%Z eqn:E7.
  { destruct (Nat.ltb_spec n 2); [done|]. apply good_read; [lia|]. intros d Hd Hl.
    eapply good_copy; [by rewrite app_nil_l|done|rewrite length_buffer; lia|]. run_name. run_name.
    destruct (Nat.eqb_spec (n - 2 - m - m0) 0); [|done]. split; [|intros ->; done]. cbn [negb fst].
    parts_found [Fixed 2; Dom; Dom] [Bytes d; Dname A; Dname A0]. }
  destruct (type =? T_SRV)%Z eqn:E8.
  { destruct (Nat.ltb_spec n 6); [done|]. apply good_read; [lia|]. intros d Hd Hl.
    eapply good_copy; [by rewrite app_nil_l|done|rewrite length_buffer; lia|]. run_name.
    destruct (Nat.eqb_spec (n - 6 - m) 0); [|done]. split; [|intros ->; done]. cbn [negb fst].
    parts_found [Fixed 6; Dom] [Bytes d; Dname A]. }
  destruct (type =? T_NXT)%Z eqn:E9.
  { run_name. destruct (Nat.ltb_spec 1040 (length (wire A) + (n - m))); [done|].
    apply good_read; [lia|]. intros d Hd Hl.
    eapply good_copy; [done|by rewrite app_nil_l|rewrite length_drop, length_buffer; lia|]. split.
    - parts_found [Dom; Rest] [Dname A; Bytes d].
    - intros _. cbn [fst]. rewrite length_take. lia. }
  destruct (type =? T_NAPTR)%Z eqn:E10.
  { eapply good_mono; [by apply rdata_naptr|]. intros r Hr. split; [done|]. by intros ->. }
  destruct (type =? T_IPSECKEY)%Z eqn:E11.
  { eapply good_mono; [by apply rdata_ipseckey|]. intros r Hr. split; [done|]. by intros ->. }
  destruct (type =? T_RRSIG)%Z eqn:E12.
  { destruct (Nat.ltb_spec n 18); [done|].
    eapply good_mono; [eapply (normal_or_reassemble msg p n 18); [lia..|by apply read_ok; lia]|].
    intros r (m & A & rest & Hn & Hm & Hr & ->). split; [|by intros ->].
    eapply parts_front_name; [by apply read_ok; lia|done..|by in_list]. }
  destruct (type =? T_NSEC)%Z eqn:E13.
  { pose proof (normal_or_reassemble msg p n 0 []) as H. rewrite Nat.add_0_r, Nat.sub_0_r in H.
    eapply good_mono; [apply H; [lia|lia|by apply read_ok; lia]|].
    intros r (m & A & rest & Hn & Hm & Hr & ->). split; [|by intros ->]. cbn [app].
    parts_found [Dom; Rest] [Dname A; Bytes rest]. }
  apply good_read; [lia|]. intros d Hd Hl. split; [|intros ->; done]. parts_found [Rest] [Bytes d].
Qed.

(** The converse: parts in the format of the type are decoded. *)
Definition yields (r : res (list byte * bool)) (d : list byte) : Prop := exists heap, r = Ret (d, heap).

Lemma yields_name msg p n m A x y db off (k : nat * nat * list byte * nat -> res (list byte * bool)) d :
  name_at msg p m A -> db = x ++ y -> off = length x -> DNSNAMEBUFSIZE <= length y -> m <= n ->
  yields (k (p + m, n - m, (x ++ wire A) ++ drop (length (wire A)) y, length (wire A))) d ->
  yields (name_into msg p n db off ≫= k) d.
Proof.
  intros Hn -> -> Hy Hm Hk. rewrite (name_into_ok _ _ _ m A) by (rewrite ?length_app; done || lia).
  cbn. rewrite take_app_length, drop_app_add, app_assoc. exact Hk.
Qed.

Lemma yields_some {A} (o : option A) (x : A) (k : A -> res (list byte * bool)) d : o = Some x ->
  yields (k x) d -> yields (of_option o ≫= k) d.
Proof. by intros ->. Qed.

Lemma yields_copy x y bs db off (k : list byte -> res (list byte * bool)) d : db = x ++ y -> off = length x -> length bs <= length y ->
  yields (k ((x ++ bs) ++ drop (length bs) y)) d -> yields (of_option (copy_at off bs db) ≫= k) d.
Proof.
  intros -> -> Hd Hk. rewrite copy_at_ok by (rewrite length_app; lia). cbn. by rewrite take_app_length, drop_app_add, app_assoc.
Qed.

Lemma yields_ret d d' h : d = d' -> yields (mret (d, h)) d'.
Proof. intros ->. by exists h. Qed.

(** Parts are read as a whole if none of them is a name. *)
Lemma parts_read msg (bss : list (list byte)) : forall p n, parts_at msg p n (map Bytes bss) -> p <= length msg ->
  read msg p n = Some (concat bss) /\ n = length (concat bss).
Proof.
  induction bss as [|bs bss IH]; intros p n Hp Hle; cbn [map] in Hp; inversion Hp as [|? n' ? ? Hr Hps|]; subst.
  - by rewrite read_ok by lia.
  - pose proof Hr as (? & _)%read_some. destruct (IH _ _ Hps) as [H1 H2]; [lia|]. cbn [concat]. rewrite length_app, <- H2.
    split; [|done]. subst n'. by apply read_join.
Qed.

Lemma reassemble_complete msg p off m A rest front k : name_at msg (p + off) m A -> read msg p off = Some front ->
  read msg (p + off + m) k = Some rest ->
  yields (reassemble msg p (p + off) (m + k) off) (front ++ wire A ++ rest).
Proof.
  intros Hn Hf Hr. unfold reassemble.
  eapply (yields_name _ _ _ m A [] (buffer DNSNAMEBUFSIZE)); [done|done|done|by rewrite length_buffer|lia|].
  eapply yields_some; [done|]. replace (m + k - m) with k by lia. eapply yields_some; [done|]. apply yields_ret.
  cbn [app]. by rewrite take_app_length.
Qed.

Lemma normal_or_reassemble_complete msg p off m A rest front k : name_at msg (p + off) m A -> read msg p off = Some front ->
  read msg (p + off + m) k = Some rest ->
  yields (normal ← of_option (isnormalencdomname (drop (p + off) msg) (m + k));
          if (normal : bool) then d ← of_option (read msg p (off + (m + k))); mret (d, false)
          else reassemble msg p (p + off) (m + k) off) (front ++ wire A ++ rest).
Proof.
  intros Hn Hf Hr. pose proof Hr as (Hend & _)%read_some.
  pose proof (normal_or_reassemble msg p (off + (m + k)) off front) as H. replace (off + (m + k) - off) with (m + k) in H by lia.
  specialize (H ltac:(lia) ltac:(lia) Hf).
  destruct (isnormal_spec msg (p + off) (m + k)) as (b & Hb & _); [lia|]. rewrite Hb in *. destruct b; cbn in *.
  - rewrite (read_ok msg p) in * by lia. cbn in *. destruct H as (m' & A' & rest' & Hn' & _ & Hr' & ->).
    destruct (name_at_det _ _ _ _ _ _ Hn Hn') as [<- <-]. replace (m + k - m) with k in Hr' by lia.
    rewrite Hr in Hr'. injection Hr' as ->. by exists false.
  - by eapply reassemble_complete.
Qed.

Lemma fits_fixed_inv k L ps : fits (Fixed k :: L) ps -> exists bs ps', ps = Bytes bs :: ps' /\ length bs = k /\ fits L ps'.
Proof. inversion 1; eauto. Qed.

Lemma fits_tag_inv k L ps : fits (Tag k :: L) ps -> exists a g b ps', ps = Bytes [a; g; b] :: ps' /\ b2n g = k /\ fits L ps'.
Proof. inversion 1; eauto 10. Qed.

Ltac dissect :=
  repeat match goal with
  | H : _ ∈ [_] |- _ => apply list_elem_of_singleton in H; subst
  | H : fits (Fixed _ :: _) _ |- _ => apply fits_fixed_inv in H as (?bs & ?ps & -> & ?Hlen & H)
  | H : fits (Tag _ :: _) _ |- _ => apply fits_tag_inv in H as (?a & ?g & ?b & ?ps & -> & ?Hg & H)
  | H : fits (Dom :: _) _ |- _ => inversion H as [| | | |?A ? ? ?Hval ?Hfits|]; subst; clear H
  | H : fits [Rest] _ |- _ => inversion H as [| | | | |?bs]; subst; clear H
  | H : fits [] _ |- _ => inversion H; subst; clear H
  | H : parts_at _ _ _ (Bytes _ :: _) |- _ => inversion H as [|? ?n ? ? ?Hrd ?Hps|]; subst; clear H
  | H : parts_at _ _ _ (Dname _ :: _) |- _ => inversion H as [| |? ?m ?n ? ? ?Hn ?Hps]; subst; clear H
  | H : parts_at _ _ _ [] |- _ => inversion H; subst; clear H
  | H : valid_name _ |- _ => destruct H as [? ?Hw]
  | H : length ?bs = _, H' : read _ _ (length ?bs) = Some ?bs |- _ => rewrite H in *
  end.

Ltac step_name := eapply yields_name; [eassumption|first [reflexivity|symmetry; apply app_nil_l]|rewrite ?length_app; cbn [length]; lia
  |rewrite ?length_drop, ?length_buffer; unfold DNSNAMEBUFSIZE in *; lia|lia|].

Ltac step_front := rewrite (proj2 (Nat.ltb_ge _ _)) by lia; (eapply yields_some; [eassumption|]);
  (eapply yields_copy; [symmetry; apply app_nil_l|done|rewrite length_buffer; lia|]).

Ltac step_end := match goal with |- context [negb (?x =? 0)] => replace x with 0 by lia end;
  cbn [Nat.eqb negb].

Ltac step_data := apply yields_ret; cbn [app]; rewrite ?take_app_length' by (rewrite ?length_app; lia);
  unfold data; cbn [map concat part_bytes]; by rewrite ?app_nil_r, <- ?app_assoc.

Ltac step_raw := rewrite ?Nat.add_0_r in *; (eapply yields_some; [eassumption|]); step_data.

Lemma naptr_strings_run msg p n (ss : list (list byte)) : Forall (fun s => length s < 256) ss -> forall len k ps,
  parts_at msg (p + len) k (map (fun s => Bytes (n2b (length s) :: s)) ss ++ ps) -> n = len + k ->
  exists l, naptr_strings msg p n (length ss) len = Ret (len + l) /\ l <= k /\
    parts_at msg (p + (len + l)) (k - l) ps /\
    (p + len <= length msg -> read msg (p + len) l = Some (data (map (fun s => Bytes (n2b (length s) :: s)) ss))).
Proof.
  induction 1 as [|s ss Hs _ IH]; intros len k ps Hp Hn.
  { exists 0. rewrite Nat.add_0_r, Nat.sub_0_r. split_and!; [done|lia|done|]. intros Hle. by rewrite read_ok by lia. }
  cbn [map app] in Hp. inversion Hp as [|? k' ? ? Hrd Hps|]; subst. cbn [length naptr_strings] in *.
  rewrite (proj2 (Nat.leb_gt _ _)) by lia.
  pose proof (read_lookup _ _ _ _ 0 Hrd ltac:(lia)) as H0. rewrite Nat.add_0_r in H0. rewrite H0. cbn [lookup list_lookup of_option mbind res_bind].
  rewrite b2n_n2b by done. replace (p + len + S (length s)) with (p + (len + length s + 1)) in Hps by lia.
  destruct (IH _ _ _ Hps ltac:(lia)) as (l & Hl & Hk & Hp' & Hr). exists (S (length s) + l).
  rewrite Hl. replace (len + length s + 1 + l) with (len + (S (length s) + l)) in * by lia.
  replace (S (length s) + k' - (S (length s) + l)) with (k' - l) by lia. split_and!; [done|lia|done|].
  intros Hle. pose proof Hrd as (? & _)%read_some. specialize (Hr ltac:(lia)). pose proof Hr as (_ & _ & Hdl)%read_some.
  rewrite <- Hdl. cbn [map]. rewrite data_cons. apply (read_join msg (p + len) (n2b (length s) :: s)); [done|].
  cbn [length]. rewrite Hdl. by replace (p + len + S (length s)) with (p + (len + length s + 1)) by lia.
Qed.

Lemma fits_strings_inv j L ps : fits (repeat Str j ++ L) ps -> exists ss ps', length ss = j /\
  Forall (fun s => length s < 256) ss /\ ps = map (fun s => Bytes (n2b (length s) :: s)) ss ++ ps' /\ fits L ps'.
Proof.
  revert ps. induction j as [|j IH]; intros ps H; [by exists [], ps|]. cbn [repeat app] in H. inversion H as [| | |bs ? ps1 Hb Hf| |]; subst.
  destruct (IH _ Hf) as (ss & ps' & <- & Hs & -> & HL). exists (bs :: ss), ps'. split_and!; [done|by constructor|done|done].
Qed.

Lemma rdata_naptr_complete msg p n ps : fits [Fixed 4; Str; Str; Str; Dom] ps -> parts_at msg p n ps -> p <= length msg ->
  yields (len ← naptr_strings msg p n 3 4;
          if n <? len then reject else
          front ← of_option (read msg p len);
          db ← of_option (copy_at 0 front (buffer (4 + 3 * 256 + DNSNAMEBUFSIZE)));
          '(bptr, blcnt, db, len') ← name_into msg (p + len) (n - len) db len;
          if negb (blcnt =? 0) then reject else mret (take (len + len') db, false)) (data ps).
Proof.
  intros HF HP Hle. apply fits_fixed_inv in HF as (bs & ps1 & -> & Hb & HF).
  change [Str; Str; Str; Dom] with (repeat Str 3 ++ [Dom]) in HF. apply fits_strings_inv in HF as (ss & ps2 & H3 & Hs & -> & HF).
  inversion HP as [|? k ? ? Hrd Hps|]; subst. rewrite Hb in *. pose proof Hrd as (He & _)%read_some.
  destruct (naptr_strings_run msg p (4 + k) ss Hs 4 k ps2 Hps eq_refl) as (l & Hl & Hk & Hp2 & Hr).
  rewrite H3 in Hl. rewrite Hl. specialize (Hr He). pose proof Hr as (_ & _ & Hdl)%read_some.
  assert (Hll : l <= 768).
  { rewrite <- Hdl. clear -Hs H3. destruct ss as [|s1 [|s2 [|s3 [|]]]]; try done. unfold data. cbn.
    do 3 (apply Forall_cons in Hs as [? Hs]). repeat (rewrite length_app; cbn). lia. }
  inversion HF as [| | | |A ? ? [HA Hw] HF'|]; subst. inversion HF'; subst. dissect.
  cbn [mbind res_bind]. rewrite (proj2 (Nat.ltb_ge _ _)) by lia.
  pose proof (read_join msg p bs (data (map (fun s => Bytes (n2b (length s) :: s)) ss))) as Hj. rewrite Hb in Hj.
  eapply yields_some; [by apply Hj|]. eapply yields_copy; [symmetry; apply app_nil_l|done|rewrite length_app, length_buffer; unfold DNSNAMEBUFSIZE; lia|].
  eapply yields_name; [exact Hn|reflexivity|rewrite !length_app; cbn [length]; lia
    |rewrite length_drop, length_buffer, length_app; unfold DNSNAMEBUFSIZE; lia|lia|].
  step_end. apply yields_ret. rewrite take_app_length' by (rewrite ?length_app; cbn [length]; lia).
  rewrite data_cons, data_app. cbn [app part_bytes]. unfold data at 3. cbn [map concat part_bytes].
  by rewrite app_nil_r, <- app_assoc.
Qed.

Lemma rdata_ipseckey_complete msg p n L ps :
  L ∈ [[Tag 0; Rest]; [Tag 1; Fixed 4; Rest]; [Tag 2; Fixed 16; Rest]; [Tag 3; Dom; Rest]] -> fits L ps ->
  parts_at msg p n ps -> p <= length msg ->
  let default_case := d ← of_option (read msg p n); mret (d, false) in
  yields (if n <? 3 then reject else
        gwtp ← of_option (msg !! (p + 1));
        if b2n gwtp =? 0 then default_case
        else if b2n gwtp =? 1 then if n - 3 <? 4 then reject else default_case
        else if b2n gwtp =? 2 then if n - 3 <? 16 then reject else default_case
        else if b2n gwtp =? 3 then
          normal ← of_option (isnormalencdomname (drop (p + 3) msg) (n - 3));
          if (normal : bool) then default_case else reassemble msg p (p + 3) (n - 3) 3
        else reject) (data ps).
Proof.
  intros HL HF HP Hle. cbn zeta.
  assert (exists t L', L = Tag t :: L') as (t & L' & ->) by (clear -HL; set_unfold; naive_solver).
  apply fits_tag_inv in HF as (a & g & b & ps1 & -> & Hg & HF). inversion HP as [|? k ? ? Hrd Hps|]; subst.
  cbn [length] in *. pose proof (read_lookup _ _ _ _ 1 Hrd ltac:(lia)) as H1.
  rewrite (proj2 (Nat.ltb_ge _ _)) by lia. eapply yields_some; [exact H1|].
  pose proof Hrd as (He & _)%read_some. replace (3 + k - 3) with k by lia.
  assert (Hraw : forall bss, ps1 = map Bytes bss -> yields (d ← of_option (read msg p (3 + k)); mret (d, false)) (data (Bytes [a; g; b] :: ps1))).
  { intros bss ->. destruct (parts_read msg bss _ _ Hps He) as [Hr ->]. eapply yields_some; [by apply (read_join _ _ [a; g; b])|].
    apply yields_ret. rewrite data_cons. unfold data. by rewrite map_map, map_id. }
  repeat (apply elem_of_cons in HL as [HL|HL]); [..|by apply elem_of_nil in HL]; injection HL as E ->; rewrite E; cbn [Nat.eqb].
  - dissect. by apply (Hraw [bs]).
  - dissect. rewrite (proj2 (Nat.ltb_ge _ _)) by lia. by apply (Hraw [bs; bs0]).
  - dissect. rewrite (proj2 (Nat.ltb_ge _ _)) by lia. by apply (Hraw [bs; bs0]).
  - dissect. rewrite Nat.add_0_r in *. unfold data. cbn [map concat part_bytes]. rewrite app_nil_r.
    by apply normal_or_reassemble_complete.
Qed.

Lemma rdata_complete msg p n type ps : shaped type ps -> parts_at msg p n ps -> p <= length msg ->
  yields (rdata msg p n type) (data ps).
Proof.
  intros ((L & HL & HF) & HN) HP Hle. pose proof (parts_at_end _ _ _ _ HP Hle) as Hend.
  unfold rdata, layouts in *.
  destruct (type =? T_A)%Z eqn:E1; [dissect; cbn [Nat.add Nat.eqb negb]; step_raw|].
  destruct (one_of type name_types) eqn:E2; [dissect; step_name; step_end; step_data|].
  destruct (one_of type pair_types) eqn:E3; [dissect; step_name; step_name; step_end; step_data|].
  destruct (one_of type pref_types) eqn:E4; [dissect; step_front; step_name; step_end; step_data|].
  destruct (type =? T_SOA)%Z eqn:E5.
  { dissect. step_name. step_name. replace (m + (m0 + (20 + 0)) - m - m0) with 20 by lia. cbn [Nat.ltb Nat.leb].
    eapply yields_some; [eassumption|].
    eapply yields_copy; [reflexivity|rewrite ?length_app; cbn [length]; lia
      |rewrite !length_drop, length_buffer; unfold DNSNAMEBUFSIZE in *; lia|].
    step_end. step_data. }
  destruct (type =? T_AAAA)%Z eqn:E6; [dissect; cbn [Nat.add Nat.eqb negb]; step_raw|].
  destruct (type =? T_PX)%Z eqn:E7; [dissect; step_front; step_name; step_name; step_end; step_data|].
  destruct (type =? T_SRV)%Z eqn:E8; [dissect; step_front; step_name; step_end; step_data|].
  destruct (type =? T_NXT)%Z eqn:E9.
  { apply Z.eqb_eq in E9. specialize (HN E9). dissect. unfold data in HN. cbn in HN. rewrite !length_app in HN. cbn in HN.
    step_name. rewrite (proj2 (Nat.ltb_ge _ _)) by lia. eapply yields_some; [by replace (m + (length bs + 0) - m) with (length bs) by lia|].
    eapply yields_copy; [reflexivity|done|rewrite length_drop, length_buffer; lia|]. step_data. }
  destruct (type =? T_NAPTR)%Z eqn:E10; [apply list_elem_of_singleton in HL as ->; by apply rdata_naptr_complete|].
  destruct (type =? T_IPSECKEY)%Z eqn:E11; [by eapply rdata_ipseckey_complete|].
  destruct (type =? T_RRSIG)%Z eqn:E12.
  { dissect. rewrite (proj2 (Nat.ltb_ge _ _)) by lia. replace (18 + (m + (length bs0 + 0)) - 18) with (m + length bs0) by lia.
    rewrite Nat.add_0_r. unfold data. cbn [map concat part_bytes]. rewrite app_nil_r. by apply normal_or_reassemble_complete. }
  destruct (type =? T_NSEC)%Z eqn:E13.
  { dissect. pose proof (normal_or_reassemble_complete msg p 0 m A bs [] (length bs)) as H'. rewrite !Nat.add_0_r in *.
    unfold data. cbn [map concat part_bytes]. rewrite app_nil_r. apply H'; [done| |done]. by rewrite read_ok by lia. }
  dissect. step_raw.
Qed.

(** C37: Decoding the data of a record is safe and exact. For any bytes of
    a message, wherever the record ends in it, [rdata] reads and writes inside of
    its buffers and either reports a format error or returns data; it returns data
    exactly if the message has, at this place and in this length, the parts
    that the type requires, with names that may be compressed, and the data
    are these parts with the names written out. *)
Theorem rdata_exact msg p n type : p + n <= length msg ->
  (rdata msg p n type = Stop RC.FORMAT \/ exists d, yields (rdata msg p n type) d) /\
  forall d, yields (rdata msg p n type) d <-> exists ps, shaped type ps /\ parts_at msg p n ps /\ d = data ps.
Proof.
  intros Hle. pose proof (rdata_sound msg p n type Hle) as Hs. split.
  - unfold good in Hs. destruct (rdata msg p n type) as [|c|[d h]]; [done|left; by rewrite Hs|right; by exists d, h].
  - intros d. split.
    + intros [h Hd]. rewrite Hd in Hs. cbn in Hs. destruct Hs as [(L & ps & HL & HF & HP & ->) HN]. exists ps. split; [|done].
      split; [by exists L|done].
    + intros (ps & Hsh & Hp & ->). apply rdata_complete; [done|done|lia].
Qed.

(** A mail exchanger whose name is compressed: a label and a pointer to the name at
    the beginning. *)
Definition ex_mx : list byte := [n2b 2; n2b 109; n2b 120; x00; x00; n2b 10; n2b 1; n2b 97; n2b 192; x00].

Lemma rdata_exact_witness :
  (rdata ex_mx 4 6 T_MX = Stop RC.FORMAT \/ exists d, yields (rdata ex_mx 4 6 T_MX) d) /\
  (exists ps, shaped T_MX ps /\ parts_at ex_mx 4 6 ps /\ [x00; n2b 10; n2b 1; n2b 97; n2b 2; n2b 109; n2b 120; x00] = data ps) /\
  rdata ex_mx 4 5 T_MX = Stop RC.FORMAT.
Proof.
  assert (Hle : 4 + 6 <= length ex_mx) by (vm_compute; lia). destruct (rdata_exact ex_mx 4 6 T_MX Hle) as [H1 H2].
  split; [exact H1|]. split; [|by vm_compute]. apply H2. eexists. by vm_compute.
Defined.
