(* ===== verification/PdnsdAnswer.v ===== *)
(** * Answers of the DNS daemon

    [pdnsd/src/dns_answer.c], from [sva_add] to [process_query]: a query is decoded,
    and an answer is composed from cache entries, one record after the other, with
    compressed names and within the limit of the client's UDP buffer.

    The answer under construction is a state: its header as a record of the
    bit fields, the bytes behind it (so that [*sz] is 12 plus their number), the
    size of the allocated memory, and the three lists the functions share. The
    bytes of the buffer behind [*sz] are not kept: nothing reads them. What is
    written must fit the allocated memory; if it does not, if a name is read beyond
    its end or a [PDNSD_ASSERT] fails, the result is [None]. A function that
    returns 0 leaves with [Null], which frees the answer; [goto cleanup_return]
    is [Early]. The results of [malloc] and [random] are lists of answers in the
    state, as in [PdnsdCent]; [dlist_grow] is asked for memory each time it is
    called, the source asks only when a chunk is full.

    [compose_answer] gets its cache entries from three functions that are a
    type class here: the resolver in front of the cache, [lookup_cache] and
    [getlocalowner]. Between their calls other threads may change the cache, so
    they work on a state of their own; what they return are copies. *)

From S2P Require Import Prelude.
From S2P Require Import PdnsdNames.
From S2P Require Import PdnsdCompress.
From S2P Require Import PdnsdNameStr.
From S2P Require Import PdnsdCent.
From S2P Require Import PdnsdCache.
From S2P Require Import PdnsdDisk.
From S2P Require Import PdnsdRecords.

Open Scope nat_scope.

(** ** Constants *)

Definition QT_IXFR : Z := 251.
Definition QT_AXFR : Z := 252.
Definition QT_MAILB : Z := 253.
Definition QT_MAILA : Z := 254.
Definition QT_ALL : Z := 255.
Definition QC_ALL : Z := 255.
Definition QR_QUERY : Z := 0.
Definition QR_RESP : Z := 1.
Definition OP_QUERY : Z := 0.
Definition MAX_HOPS : nat := 20.
Definition UDP_BUFSIZE : Z := 512.
Definition dnsmsghdroffset : nat := 2.
Definition sizeof_opt_pseudo_rr : nat := 1 + sizeof_rr_hdr_t.
Definition ALLOCINITIALSIZE : nat := 256.
Definition RRETP_ADD : Z := 0.

(** [(newsz+ALLOCCHUNKSIZEMASK)&(~ALLOCCHUNKSIZEMASK)] *)
Definition chunked (newsz : nat) : nat := Z.to_nat (Z.ldiff (Z.of_nat newsz + 0x7f) 0x7f).

(** ** The header of a message *)

(** The 16-bit fields are in host order. The bit fields hold what was assigned to them;
    [hdr_bytes] cuts them to their width, and what a program reads comes from [get_hdr], so the
    width is not seen in between. *)
Record dns_hdr_t := Hdr {
  h_id : Z;
  h_rd : Z; h_tc : Z; h_aa : Z; h_opcode : Z; h_qr : Z;
  h_rcode : Z; h_cd : Z; h_ad : Z; h_z : Z; h_ra : Z;
  h_qdcount : Z; h_ancount : Z; h_nscount : Z; h_arcount : Z;
}.

Definition bits (z : Z) (w : Z) (o : Z) : Z := Z.shiftl (Z.land z (Z.ones w)) o.

(** The bit fields from the least significant bit on. *)
Definition hdr_flags1 (h : dns_hdr_t) : Z :=
  Z.lor (Z.lor (Z.lor (Z.lor (bits (h_rd h) 1 0) (bits (h_tc h) 1 1)) (bits (h_aa h) 1 2)) (bits (h_opcode h) 4 3)) (bits (h_qr h) 1 7).
Definition hdr_flags2 (h : dns_hdr_t) : Z :=
  Z.lor (Z.lor (Z.lor (Z.lor (bits (h_rcode h) 4 0) (bits (h_cd h) 1 4)) (bits (h_ad h) 1 5)) (bits (h_z h) 1 6)) (bits (h_ra h) 1 7).

Definition hdr_bytes (h : dns_hdr_t) : list byte :=
  PUTINT16 (h_id h) ++ [z2b (hdr_flags1 h); z2b (hdr_flags2 h)] ++
  PUTINT16 (h_qdcount h) ++ PUTINT16 (h_ancount h) ++ PUTINT16 (h_nscount h) ++ PUTINT16 (h_arcount h).

Definition field_of (z o w : Z) : Z := Z.land (Z.shiftr z o) (Z.ones w).

Definition get_hdr (data : list byte) : option dns_hdr_t :=
  id ← GETINT16 data 0;
  f1 ← b2z <$> data !! 2; f2 ← b2z <$> data !! 3;
  qd ← GETINT16 data 4; an ← GETINT16 data 6; ns ← GETINT16 data 8; ar ← GETINT16 data 10;
  Some (Hdr id (field_of f1 0 1) (field_of f1 1 1) (field_of f1 2 1) (field_of f1 3 4) (field_of f1 7 1)
          (field_of f2 0 4) (field_of f2 4 1) (field_of f2 5 1) (field_of f2 6 1) (field_of f2 7 1) qd an ns ar).

Definition with_rcode (z : Z) (h : dns_hdr_t) : dns_hdr_t :=
  Hdr (h_id h) (h_rd h) (h_tc h) (h_aa h) (h_opcode h) (h_qr h) z (h_cd h) (h_ad h) (h_z h) (h_ra h)
    (h_qdcount h) (h_ancount h) (h_nscount h) (h_arcount h).
Definition with_aa (z : Z) (h : dns_hdr_t) : dns_hdr_t :=
  Hdr (h_id h) (h_rd h) (h_tc h) z (h_opcode h) (h_qr h) (h_rcode h) (h_cd h) (h_ad h) (h_z h) (h_ra h)
    (h_qdcount h) (h_ancount h) (h_nscount h) (h_arcount h).
Definition with_tc (z : Z) (h : dns_hdr_t) : dns_hdr_t :=
  Hdr (h_id h) (h_rd h) z (h_aa h) (h_opcode h) (h_qr h) (h_rcode h) (h_cd h) (h_ad h) (h_z h) (h_ra h)
    (h_qdcount h) (h_ancount h) (h_nscount h) (h_arcount h).
Definition with_counts (qd an ns ar : Z) (h : dns_hdr_t) : dns_hdr_t :=
  Hdr (h_id h) (h_rd h) (h_tc h) (h_aa h) (h_opcode h) (h_qr h) (h_rcode h) (h_cd h) (h_ad h) (h_z h) (h_ra h) qd an ns ar.

(** [x=htons(ntohs(x)+1)] for the counters. *)
Definition inc_qdcount (h : dns_hdr_t) := with_counts (u16 (h_qdcount h + 1)) (h_ancount h) (h_nscount h) (h_arcount h) h.
Definition inc_ancount (h : dns_hdr_t) := with_counts (h_qdcount h) (u16 (h_ancount h + 1)) (h_nscount h) (h_arcount h) h.
Definition inc_nscount (h : dns_hdr_t) := with_counts (h_qdcount h) (h_ancount h) (u16 (h_nscount h + 1)) (h_arcount h) h.
Definition inc_arcount (h : dns_hdr_t) := with_counts (h_qdcount h) (h_ancount h) (h_nscount h) (u16 (h_arcount h + 1)) h.

(** ** Where cache entries come from *)

(** What [dns_cached_resolve] returns: an entry, or a code that is not [RC_OK]
    and the number of labels of the zone that says so, or [cundef]. *)
Inductive resolved := Found (c : dns_cent_t) | NotFound (rc : Z) (c_soa : Z).

Class Resolver (E : Type) := {
  dns_cached_resolve : list byte -> Z -> Z -> E -> option (resolved * E);
  lookup_copy : list byte -> E -> option (option dns_cent_t * E);
  find_localowner : list byte -> Z -> E -> option (option (list byte) * E);
}.

(** ** The state *)

(** Records that are in the answer, to avoid double additional ones. *)
Record sva_t := Sva { sv_tp : Z; sv_nm : list byte; sv_data : list byte }.

(** Records to be added to the authority section, and names whose addresses are
    to be added. *)
Record rr_ext_t := RRExt { re_tp : Z; re_ttl : Z; re_tnm : list byte; re_nm : list byte }.

Record ans (E : Type) := Ans {
  a_hdr : dns_hdr_t;
  a_body : list byte;
  a_alloc : nat;
  a_cb : list compel_t;
  a_sva : list sva_t;
  a_ar : list rr_ext_t;
  a_mallocs : list bool;
  a_randoms : list nat;
  a_env : E;
}.
Arguments Ans {E}.
Arguments a_hdr {E}.
Arguments a_body {E}.
Arguments a_alloc {E}.
Arguments a_cb {E}.
Arguments a_sva {E}.
Arguments a_ar {E}.
Arguments a_mallocs {E}.
Arguments a_randoms {E}.
Arguments a_env {E}.

Inductive exit := Null | Early.

Definition AM (E X : Type) : Type := ans E -> option ((exit + X) * ans E).

#[global] Instance AM_ret E : MRet (AM E) := fun X x a => Some (inr x, a).
#[global] Instance AM_bind E : MBind (AM E) := fun X Y f m a =>
  match m a with
  | None => None
  | Some (inl e, a') => Some (inl e, a')
  | Some (inr x, a') => f x a'
  end.

Definition sz {E} (a : ans E) : nat := sizeof_dns_hdr_t + length (a_body a).
Definition message {E} (a : ans E) : list byte := hdr_bytes (a_hdr a) ++ a_body a.

Section Answer.

Context {E : Type} `{Resolver E}.

Notation AM := (AM E).
Notation ans := (ans E).

Definition undefined {X} : AM X := fun _ => None.
Definition leave {X} (e : exit) : AM X := fun a => Some (inl e, a).
Definition read_ans : AM ans := fun a => Some (inr a, a).
Definition update (f : ans -> ans) : AM unit := fun a => Some (inr tt, f a).
Definition must (b : bool) : AM unit := if b then mret tt else undefined.
Definition defined {X} (o : option X) : AM X := match o with Some x => mret x | None => undefined end.

Definition set_hdr (f : dns_hdr_t -> dns_hdr_t) : AM unit := update (fun a =>
  Ans (f (a_hdr a)) (a_body a) (a_alloc a) (a_cb a) (a_sva a) (a_ar a) (a_mallocs a) (a_randoms a) (a_env a)).
Definition set_body (b : list byte) : AM unit := update (fun a =>
  Ans (a_hdr a) b (a_alloc a) (a_cb a) (a_sva a) (a_ar a) (a_mallocs a) (a_randoms a) (a_env a)).
Definition set_alloc (n : nat) : AM unit := update (fun a =>
  Ans (a_hdr a) (a_body a) n (a_cb a) (a_sva a) (a_ar a) (a_mallocs a) (a_randoms a) (a_env a)).
Definition set_cb (cb : list compel_t) : AM unit := update (fun a =>
  Ans (a_hdr a) (a_body a) (a_alloc a) cb (a_sva a) (a_ar a) (a_mallocs a) (a_randoms a) (a_env a)).
Definition set_sva (l : list sva_t) : AM unit := update (fun a =>
  Ans (a_hdr a) (a_body a) (a_alloc a) (a_cb a) l (a_ar a) (a_mallocs a) (a_randoms a) (a_env a)).
Definition set_ar (l : list rr_ext_t) : AM unit := update (fun a =>
  Ans (a_hdr a) (a_body a) (a_alloc a) (a_cb a) (a_sva a) l (a_mallocs a) (a_randoms a) (a_env a)).

Definition malloc : AM bool := fun a =>
  match a_mallocs a with
  | [] => Some (inr true, a)
  | b :: m => Some (inr b, Ans (a_hdr a) (a_body a) (a_alloc a) (a_cb a) (a_sva a) (a_ar a) m (a_randoms a) (a_env a))
  end.

Definition random : AM nat := fun a =>
  match a_randoms a with
  | [] => Some (inr 0, a)
  | n :: r => Some (inr n, Ans (a_hdr a) (a_body a) (a_alloc a) (a_cb a) (a_sva a) (a_ar a) (a_mallocs a) r (a_env a))
  end.

(** A call of the resolver or the cache. *)
Definition ask {X} (f : E -> option (X * E)) : AM X := fun a =>
  match f (a_env a) with
  | None => None
  | Some (x, e) => Some (inr x, Ans (a_hdr a) (a_body a) (a_alloc a) (a_cb a) (a_sva a) (a_ar a) (a_mallocs a) (a_randoms a) e)
  end.

(** ** Writing *)

(** [newsz] bytes are needed; more memory is got in chunks. *)
Definition reserve (newsz : nat) : AM unit :=
  a ← read_ans;
  if a_alloc a <? newsz then
    ok ← malloc;
    if (ok : bool) then set_alloc (chunked newsz) else leave Null
  else mret tt.

(** Bytes at [*sz], which moves behind them. *)
Definition put (bs : list byte) : AM unit :=
  a ← read_ans;
  must (dnsmsghdroffset + (sz a + length bs) <=? a_alloc a);;
  set_body (a_body a ++ bs).

(** [compress_name] at offset [*sz]: the bytes to write. *)
Definition compress (name : list byte) : AM (list byte) :=
  a ← read_ans;
  grow ← malloc;
  '(rl, out, cb) ← defined (compress_name grow name (sz a) (a_cb a));
  set_cb cb;;
  if rl =? 0 then leave Null else mret out.

(** The same, written in place. *)
Definition put_name (name : list byte) : AM nat :=
  out ← compress name;
  put out;;
  mret (length out).

(** [rhnlen] of a name in some data. *)
Definition len_of (name : list byte) : AM nat := defined (rhnlen name).

Fixpoint naptr_skip (d : list byte) (j ilen : nat) : AM nat :=
  match j with
  | O => mret ilen
  | S j =>
      b ← defined (d !! ilen);
      let ilen := ilen + b2n b + 1 in
      must (ilen <? length d);;
      naptr_skip d j ilen
  end.

(** The data of a record and [rdlen]. *)
Definition put_rdata (type : Z) (d : list byte) : AM nat :=
  let dlen := length d in
  if one_of type name_types then
    rdlen ← put_name d;
    must (rdlen <=? dlen);;
    mret rdlen
  else if one_of type pair_types then
    rdlen ← put_name d;
    ilen ← len_of d;
    must (rdlen <=? ilen);;
    blen ← put_name (drop ilen d);
    must (rdlen + blen <=? dlen);;
    mret (rdlen + blen)
  else if one_of type pref_types then
    must (2 <? dlen);;
    put (take 2 d);;
    blen ← put_name (drop 2 d);
    must (2 + blen <=? dlen);;
    mret (2 + blen)
  else if (type =? T_SOA)%Z then
    rdlen ← put_name d;
    ilen ← len_of d;
    must (rdlen <=? ilen);;
    blen ← put_name (drop ilen d);
    ilen2 ← len_of (drop ilen d);
    let ilen := ilen + ilen2 in
    must (rdlen + blen <=? ilen);;
    rest ← defined (read d ilen 20);
    put rest;;
    must (rdlen + blen + 20 <=? dlen);;
    mret (rdlen + blen + 20)
  else if (type =? T_PX)%Z then
    must (2 <? dlen);;
    put (take 2 d);;
    blen ← put_name (drop 2 d);
    ilen2 ← len_of (drop 2 d);
    let ilen := 2 + ilen2 in
    must (2 + blen <=? ilen);;
    blen2 ← put_name (drop ilen d);
    must (2 + blen + blen2 <=? dlen);;
    mret (2 + blen + blen2)
  else if (type =? T_SRV)%Z then
    must (6 <? dlen);;
    put (take 6 d);;
    blen ← put_name (drop 6 d);
    must (6 + blen <=? dlen);;
    mret (6 + blen)
  else if (type =? T_NXT)%Z then
    blen ← put_name d;
    ilen ← len_of d;
    must (blen <=? ilen);;
    must (ilen <=? dlen);;
    put (drop ilen d);;
    mret (blen + (dlen - ilen))
  else if (type =? T_NAPTR)%Z then
    must (4 <? dlen);;
    ilen ← naptr_skip d 3 4;
    put (take ilen d);;
    blen ← put_name (drop ilen d);
    must (ilen + blen <=? dlen);;
    mret (ilen + blen)
  else
    put d;;
    mret dlen.

Inductive section := S_ANSWER | S_AUTHORITY | S_ADDITIONAL.

(** Whether a record of the additional section is given up because the answer
    would not fit the client's buffer. *)
Definition too_long (udp : option Z) (n : nat) (sec : section) : bool :=
  match udp, sec with
  | Some u, S_ADDITIONAL => (u <? Z.of_nat n)%Z
  | _, _ => false
  end.

Definition count_in (sec : section) : dns_hdr_t -> dns_hdr_t :=
  match sec with S_ANSWER => inc_ancount | S_AUTHORITY => inc_nscount | S_ADDITIONAL => inc_arcount end.

Definition rr_hdr_bytes (type ttl : Z) (rdlen : nat) : list byte :=
  PUTINT16 type ++ PUTINT16 C_IN ++ PUTINT32 ttl ++ PUTINT16 (Z.of_nat rdlen).

Definition add_rr (rrn : list byte) (type ttl : Z) (d : list byte) (sec : section) (udp : option Z) : AM unit :=
  a0 ← read_ans;
  nbuf ← compress rrn;
  reserve (dnsmsghdroffset + sz a0 + length nbuf + sizeof_rr_hdr_t + length d);;
  put nbuf;;
  a1 ← read_ans;
  let rrht := length (a_body a1) in
  put (buffer sizeof_rr_hdr_t);;
  rdlen ← put_rdata type d;
  a2 ← read_ans;
  if too_long udp (sz a2) sec then set_body (take (length (a_body a0)) (a_body a2))
  else
    set_body (take rrht (a_body a2) ++ rr_hdr_bytes type ttl rdlen ++ drop (rrht + sizeof_rr_hdr_t) (a_body a2));;
    set_hdr (count_in sec).

(** ** The OPT pseudo record *)

Definition opt_bytes (udpsize rcode ednsver Zflags : Z) : list byte :=
  [x00] ++ PUTINT16 T_OPT ++ PUTINT16 udpsize ++ [z2b (Z.shiftr rcode 4); z2b ednsver] ++ PUTINT16 Zflags ++ PUTINT16 0.

Definition add_opt_pseudo_rr (udpsize rcode ednsver Zflags : Z) : AM unit :=
  a ← read_ans;
  reserve (dnsmsghdroffset + sz a + sizeof_opt_pseudo_rr);;
  put (opt_bytes udpsize rcode ednsver Zflags);;
  set_hdr inc_arcount.

(** The new size of the message, or 0; the counter is decremented. *)
Definition remove_opt_pseudo_rr (h : dns_hdr_t) (body : list byte) : option (nat * dns_hdr_t) :=
  let sz := sizeof_dns_hdr_t + length body in
  if negb ((0 <? h_arcount h)%Z && (sizeof_dns_hdr_t + sizeof_opt_pseudo_rr <=? sz)) then Some (0, h) else
  let p := length body - sizeof_opt_pseudo_rr in
  b ← body !! p;
  if negb (b2n b =? 0) then Some (0, h) else
  type ← GETINT16 body (S p);
  if negb (type =? T_OPT)%Z then Some (0, h) else
  Some (sz - sizeof_opt_pseudo_rr, with_counts (h_qdcount h) (h_ancount h) (h_nscount h) (u16 (h_arcount h - 1)) h).

(** ** The lists *)

Definition sva_add (rhn : list byte) (tp : Z) (d : list byte) : AM unit :=
  rlen ← len_of rhn;
  ok ← malloc;
  if negb ok then set_sva [];; leave Null else
  a ← read_ans;
  set_sva (a_sva a ++ [Sva tp (take rlen rhn) (take (Z.to_nat (u16 (zlen d))) d)]).

(** [tnm] with its length as an [unsigned short]. *)
Definition add_ar (tp : Z) (tnm nm : list byte) (ttl : Z) : AM unit :=
  let tnm := take (Z.to_nat (u16 (zlen tnm))) tnm in
  nm ← (if (tp =? T_NS)%Z || (tp =? T_SOA)%Z then nmsz ← len_of nm; mret (take nmsz nm) else mret [] : AM (list byte));
  ok ← malloc;
  if negb ok then set_ar [];; leave Null else
  a ← read_ans;
  set_ar (a_ar a ++ [RRExt tp ttl tnm nm]).

Definition ans_ttl (r : rr_set_t) (queryts : Z) : Z :=
  if has (rflags r) CF_LOCAL then PdnsdCent.ttl r else
  let tpassed := Z.max 0 (queryts - PdnsdCent.ts r) in
  Z.max 0 (PdnsdCent.ttl r - tpassed).

Definition follow_cname_chain (c : dns_cent_t) : AM (option (list byte)) :=
  match getrrset c T_CNAME with
  | None => mret None
  | Some r =>
      match rrs r with
      | [] => mret None
      | d :: _ => must (length d <=? DNSNAMEBUFSIZE);; mret (Some d)
      end
  end.

(** ** Record sets *)

(** The records from the one that [randrr] selects, and then from the first one,
    if [rnd_recs] is set. *)
Definition visit_order (rnd_recs : bool) (rrs : list (list byte)) : AM (list (list byte)) :=
  if rnd_recs then
    match rrs with
    | [] => mret []
    | _ => r ← random; let k := r mod length rrs in mret (drop k rrs ++ take k rrs)
    end
  else mret rrs.

(** [ar_recs] with [ar_offs]: the offset of the server name in the data. *)
Definition ar_offs (tp : Z) : option nat :=
  if one_of tp [T_NS; T_MD; T_MF; T_MB] then Some 0
  else if (tp =? T_MX)%Z then Some 2
  else if (tp =? T_SRV)%Z then Some 6
  else None.

Section Query.

Context (rnd_recs : bool) (udpbufsize : Z) (queryts : Z) (udp : option Z).

(** A turn of the loop of [add_rrset]. *)
Definition add_record (rrn : list byte) (tp ttl : Z) (d : list byte) : AM unit :=
  add_rr rrn tp ttl d S_ANSWER udp;;
  (if one_of tp [T_NS; T_A; T_AAAA] then sva_add rrn tp d else mret tt);;
  match ar_offs tp with
  | Some o => must (o <=? length d);; add_ar RRETP_ADD (drop o d) [x00] 0
  | None => mret tt
  end.

Fixpoint add_rrs (rrn : list byte) (tp ttl : Z) (ds : list (list byte)) : AM unit :=
  match ds with
  | [] => mret tt
  | d :: ds => add_record rrn tp ttl d;; add_rrs rrn tp ttl ds
  end.

Definition add_rrset (rrn : list byte) (tp : Z) (cached : dns_cent_t) : AM unit :=
  match getrrset cached tp with
  | None => mret tt
  | Some crrset =>
      ds ← visit_order rnd_recs (rrs crrset);
      add_rrs rrn tp (ans_ttl crrset queryts) ds
  end.

Fixpoint add_rrsets (rrn : list byte) (tps : list Z) (cached : dns_cent_t) : AM unit :=
  match tps with
  | [] => mret tt
  | tp :: tps => add_rrset rrn tp cached;; add_rrsets rrn tps cached
  end.

(** [qtype>=T_MIN && qtype<=T_MAX] *)
Definition is_type (qtype : Z) : bool := (T_MIN <=? qtype)%Z && (qtype <=? T_MAX)%Z.

(** The entry has records of the type, or the query is for an alias itself. *)
Definition no_alias_needed (qtype : Z) (cached : dns_cent_t) : bool :=
  (qtype =? T_CNAME)%Z || (qtype =? QT_ALL)%Z || (is_type qtype && have_rr cached qtype).

Definition add_to_response (rrn : list byte) (qtype : Z) (cached : dns_cent_t) : AM unit :=
  (if no_alias_needed qtype cached then mret tt else add_rrset rrn T_CNAME cached);;
  if (qtype =? QT_AXFR)%Z || (qtype =? QT_IXFR)%Z then leave Null
  else if (qtype =? QT_MAILB)%Z then add_rrsets rrn [T_MB; T_MG; T_MR] cached
  else if (qtype =? QT_MAILA)%Z then add_rrsets rrn [T_MD; T_MF] cached
  else if (qtype =? QT_ALL)%Z then add_rrsets rrn (RRITERLIST cached) cached
  else if is_type qtype then add_rrset rrn qtype cached
  else leave Null.

(** The record is in the answer. *)
Fixpoint already (rhn : list byte) (tp : Z) (d : list byte) (l : list sva_t) : option bool :=
  match l with
  | [] => Some false
  | st :: l =>
      if (sv_tp st =? tp)%Z then
        same ← rhnicmp (sv_nm st) rhn;
        if (same : bool) && bool_decide (sv_data st = d) then Some true else already rhn tp d l
      else already rhn tp d l
  end.

Definition add_additional_rr (rhn : list byte) (tp ttl : Z) (d : list byte) (sec : section) : AM unit :=
  a ← read_ans;
  present ← defined (already rhn tp d (a_sva a));
  if (present : bool) then mret tt else
  add_rr rhn tp ttl d sec udp;;
  sva_add rhn tp d.

Fixpoint add_additionals (rhn : list byte) (tp ttl : Z) (ds : list (list byte)) : AM unit :=
  match ds with
  | [] => mret tt
  | d :: ds => add_additional_rr rhn tp ttl d S_ADDITIONAL;; add_additionals rhn tp ttl ds
  end.

Definition add_additional_rrs (rhn : list byte) (tp ttl : Z) (rrb : list (list byte)) : AM unit :=
  ds ← visit_order rnd_recs rrb;
  add_additionals rhn tp ttl ds.

Definition add_additional_set (rhn : list byte) (tp : Z) (ae : dns_cent_t) : AM unit :=
  match getrrset ae tp with
  | Some r => add_additional_rrs rhn tp (ans_ttl r queryts) (rrs r)
  | None => mret tt
  end.

Definition add_additional_a (rhn : list byte) : AM unit :=
  found ← ask (lookup_copy rhn);
  match found with
  | Some ae => add_additional_set rhn T_A ae;; add_additional_set rhn T_AAAA ae
  | None => mret tt
  end.

End Query.

(** ** The answer *)

Record dns_queryel_t := Query { q_type : Z; q_class : Z; q_query : list byte }.

Definition blank_hdr (id opcode rd rcode : Z) : dns_hdr_t := Hdr id rd 0 0 opcode QR_RESP rcode 0 0 0 1 0 0 0 0.

(** The question section: a turn of the loop and the loop. *)
Definition add_question (qe : dns_queryel_t) : AM unit :=
  a ← read_ans;
  qlen ← len_of (q_query qe);
  reserve (dnsmsghdroffset + sz a + qlen + 4);;
  put_name (q_query qe);;
  put (PUTINT16 (q_type qe) ++ PUTINT16 (q_class qe));;
  set_hdr inc_qdcount.

Fixpoint add_questions (ql : list dns_queryel_t) : AM unit :=
  match ql with
  | [] => mret tt
  | qe :: ql => add_question qe;; add_questions ql
  end.

Definition unsupported (qe : dns_queryel_t) : bool :=
  (PDNSD_NOT_CACHED_TYPE (q_type qe) &&
   negb (one_of (q_type qe) [QT_MAILB; QT_MAILA; QT_ALL])) ||
  (negb (q_class qe =? C_IN)%Z && negb (q_class qe =? QC_ALL)%Z).

Section Compose.

Context (rnd_recs : bool) (udpbufsize : Z) (queryts : Z) (udp : option Z) (edns : bool).

(** A set that is not negative. *)
Definition positive (o : option rr_set_t) : option rr_set_t :=
  r ← o; if has (rflags r) CF_NEGATIVE then None else Some r.

Definition add_opt (rcode : Z) : AM unit := if edns then add_opt_pseudo_rr udpbufsize rcode 0 0 else mret tt.

Fixpoint add_soas (name : list byte) (ttl : Z) (ds : list (list byte)) : AM unit :=
  match ds with
  | [] => mret tt
  | d :: ds => add_rr name T_SOA ttl d S_AUTHORITY udp;; add_soas name ttl ds
  end.

(** The name does not exist: a SOA record goes to the authority section. *)
Definition name_error (qname : list byte) (c_soa : Z) : AM unit :=
  (if (c_soa =? cundef)%Z then mret tt else
   scnt ← defined (rhnsegcnt qname);
   if (c_soa <? Z.of_nat scnt)%Z then
     zone ← defined (skipsegs qname (scnt - Z.to_nat c_soa));
     found ← ask (lookup_copy zone);
     match found with
     | Some c =>
         match positive (getrrset c T_SOA) with
         | Some r => add_soas (PdnsdCent.qname c) (ans_ttl r queryts) (rrs r)
         | None => mret tt
         end
     | None => mret tt
     end
   else mret tt);;
  add_opt RC.NAMEERR.

(** The type of the records for the authority section: those of the zone
    itself, or, if there is no record of the type asked for, its SOA record. *)
Definition rretp_for (qtype : Z) (c : dns_cent_t) : Z :=
  if (is_type qtype && negb (have_rr c qtype)) ||
     ((qtype =? QT_MAILB)%Z && negb (have_rr c T_MB) && negb (have_rr c T_MG) && negb (have_rr c T_MR)) ||
     ((qtype =? QT_MAILA)%Z && negb (have_rr c T_MD) && negb (have_rr c T_MF))
  then T_SOA else T_NS.

(** The entry and the set with records for the authority section. *)
Definition authority_for (c : dns_cent_t) (rretp : Z) : AM (option (dns_cent_t * rr_set_t)) :=
  match positive (getrrset c rretp) with
  | Some r => mret (Some (c, r))
  | None =>
      scnt ← defined (rhnsegcnt (PdnsdCent.qname c));
      let tcnt := if (rretp =? T_NS)%Z then c_ns c else c_soa c in
      name ← (if negb (tcnt =? cundef)%Z && (tcnt <? Z.of_nat scnt)%Z
              then defined (skipsegs (PdnsdCent.qname c) (scnt - Z.to_nat tcnt))
              else mret (PdnsdCent.qname c) : AM (list byte));
      up ← ask (lookup_copy name);
      match up ≫= (fun c' => pair c' <$> positive (getrrset c' rretp)) with
      | Some x => mret (Some x)
      | None =>
          if has (PdnsdCent.flags c) DF_LOCAL then
            nm ← ask (find_localowner (PdnsdCent.qname c) rretp);
            match nm with
            | Some nm =>
                own ← ask (lookup_copy nm);
                mret (own ≫= fun c' => pair c' <$> getrrset c' rretp)
            | None => mret None
            end
          else mret None
      end
  end.

Fixpoint add_ars (tp : Z) (ds : list (list byte)) (nm : list byte) (ttl : Z) : AM unit :=
  match ds with
  | [] => mret tt
  | d :: ds => add_ar tp d nm ttl;; add_ars tp ds nm ttl
  end.

(** A turn of the loop for one question; [aa] is whether all entries so far were
    local, [next] what follows with the name [qname] is an alias of. *)
Definition answer_turn (next : list byte -> bool -> AM bool) (rd : bool) (qtype : Z) (qname : list byte) (aa : bool) : AM bool :=
  r ← ask (dns_cached_resolve qname qtype queryts);
  match r with
  | NotFound rc c_soa =>
      set_hdr (with_rcode rc);;
      (if (rc =? RC.NAMEERR)%Z then name_error qname c_soa else mret tt);;
      leave Early
  | Found cached =>
      let aa := aa && has (PdnsdCent.flags cached) DF_LOCAL in
      add_to_response rnd_recs queryts udp qname qtype cached;;
      cname ← (if rd && negb (no_alias_needed qtype cached) then follow_cname_chain cached else mret None : AM (option (list byte)));
      match cname with
      | Some qname => next qname aa
      | None =>
          let rretp := rretp_for qtype cached in
          auth ← authority_for cached rretp;
          (match auth with
           | Some (c, r) => add_ars rretp (rrs r) (PdnsdCent.qname c) (ans_ttl r queryts)
           | None => mret tt
           end);;
          mret aa
      end
  end.

Fixpoint answer_loop (hops : nat) (rd : bool) (qtype : Z) (qname : list byte) (aa : bool) : AM bool :=
  answer_turn (match hops with O => fun _ aa => mret aa | S hops => answer_loop hops rd qtype end) rd qtype qname aa.

Fixpoint add_answers (rd : bool) (ql : list dns_queryel_t) (aa : bool) : AM bool :=
  match ql with
  | [] => mret aa
  | qe :: ql =>
      qlen ← len_of (q_query qe);
      must (qlen <=? DNSNAMEBUFSIZE);;
      aa ← answer_loop MAX_HOPS rd (q_type qe) (take qlen (q_query qe)) aa;
      add_answers rd ql aa
  end.

Fixpoint add_authority (l : list rr_ext_t) : AM unit :=
  match l with
  | [] => mret tt
  | re :: l =>
      (if one_of (re_tp re) [T_NS; T_SOA]
       then add_additional_rr udp (re_nm re) (re_tp re) (re_ttl re) (re_tnm re) S_AUTHORITY else mret tt);;
      add_authority l
  end.

Fixpoint add_addresses (l : list rr_ext_t) : AM unit :=
  match l with
  | [] => mret tt
  | re :: l =>
      (if one_of (re_tp re) [T_NS; RRETP_ADD] then add_additional_a rnd_recs queryts udp (re_tnm re) else mret tt);;
      add_addresses l
  end.

(** What follows the allocation of the answer. *)
Definition compose_body (rd : bool) (ql : list dns_queryel_t) : AM unit :=
  add_questions ql;;
  if existsb unsupported ql then set_hdr (with_rcode RC.NOTSUPP);; leave Early else
  aa ← add_answers rd ql true;
  a ← read_ans;
  add_authority (a_ar a);;
  a ← read_ans;
  (if match udp with Some u => (u <? Z.of_nat (sz a + sizeof_opt_pseudo_rr))%Z | None => false end then mret tt else
   add_opt RC.OK;;
   a ← read_ans;
   add_addresses (a_ar a));;
  if (aa : bool) then set_hdr (with_aa 1) else mret tt.

(** The answer, or nothing if memory ran out or a question could not be handled. *)
Definition compose_answer (ql : list dns_queryel_t) (id rd : Z) (m : list bool) (r : list nat) (e : E)
    : option (option (dns_hdr_t * list byte) * list bool * E) :=
  match m with
  | false :: m => Some (None, m, e)
  | _ =>
      '(x, a) ← compose_body (negb (rd =? 0)%Z) ql
        (Ans (blank_hdr id OP_QUERY rd RC.OK) [] ALLOCINITIALSIZE [] [] [] (tail m) r e);
      Some (match x with inl Null => None | _ => Some (a_hdr a, a_body a) end, a_mallocs a, a_env a)
  end.

End Compose.

End Answer.
