(* ===== verification/PdnsdAnswerInv.v ===== *)
(** * Writing records into an answer

    The functions of [PdnsdAnswer] that write names, data and records: none of
    their assertions fails, nothing is written outside the allocated memory, and
    what they write is read back by [PdnsdRecords]. The list of names for
    compression stays correct for the message; when a record of the additional
    section is taken back, the names that stay in the list without being in the
    message are ones that are never pointed to, provided the owner name was
    [known] before. *)

From S2P Require Import Prelude.
From S2P Require Import PdnsdNames.
From S2P Require Import PdnsdCompress.
From S2P Require Import PdnsdNameStr.
From S2P Require Import PdnsdCent.
From S2P Require Import PdnsdDisk.
From S2P Require Import PdnsdRecords.
From S2P Require Import PdnsdAnswer.

Open Scope nat_scope.

(** ** Integers *)

Lemma lookup_middle {A} (pre : list A) x post n : n = length pre -> (pre ++ x :: post) !! n = Some x.
Proof. intros ->. by apply list_lookup_middle. Qed.

Lemma lor_shift a b k : (0 <= b < 2 ^ k)%Z -> (0 <= k)%Z -> Z.lor (Z.shiftl a k) b = (a * 2 ^ k + b)%Z.
Proof.
  intros Hb Hk. rewrite Z.shiftl_mul_pow2 by done. rewrite <- Z.lxor_lor; [rewrite <- Z.add_nocarry_lxor; [done|]|].
  all: apply Z.bits_inj'; intros i Hi; rewrite Z.land_spec, Z.bits_0, <- Z.shiftl_mul_pow2, Z.shiftl_spec by done.
  all: destruct (Z.lt_ge_cases i k); [by rewrite Z.testbit_neg_r by lia|].
  all: rewrite (Z.testbit_eqb b) by done; rewrite Z.div_small, andb_comm; [done|].
  all: split; [lia|]; eapply Z.lt_le_trans; [apply Hb|]; by apply Z.pow_le_mono_r.
Qed.

Lemma PUTINT16_length z : length (PUTINT16 z) = 2.
Proof. done. Qed.

Lemma PUTINT32_length z : length (PUTINT32 z) = 4.
Proof. done. Qed.

Lemma shiftr_div z k : (0 <= k)%Z -> Z.shiftr z k = (z / 2 ^ k)%Z.
Proof. apply Z.shiftr_div_pow2. Qed.

(** The bytes of a list behind another one. *)
Lemma lookup_behind {A} (pre l : list A) p i : p = length pre -> (pre ++ l) !! (p + i) = l !! i.
Proof. intros ->. rewrite lookup_app_r by lia. f_equal. lia. Qed.

Lemma GETINT16_put pre z post p : p = length pre -> GETINT16 (pre ++ PUTINT16 z ++ post) p = Some (u16 z).
Proof.
  intros Hp. unfold GETINT16. rewrite <- (Nat.add_0_r p) at 1. rewrite <- (Nat.add_1_r p), !lookup_behind by done.
  unfold PUTINT16. cbn [app lookup list_lookup mbind option_bind]. f_equal.
  pose proof (u16_range z). rewrite !b2z_z2b, lor_shift by (pose proof (u8_range (u16 z)); lia).
  rewrite shiftr_div by lia. rewrite (u8_id (_ / _)) by (split; [apply Z.div_pos|apply Z.div_lt_upper_bound]; lia).
  unfold u8. pose proof (Z.div_mod (u16 z) (2 ^ 8)). lia.
Qed.

Lemma GETINT32_put pre z post p : p = length pre -> GETINT32 (pre ++ PUTINT32 z ++ post) p = Some (u32 z).
Proof.
  intros Hp. unfold GETINT32. rewrite <- (Nat.add_0_r p) at 1.
  replace (S (S (S p))) with (p + 3) by lia. replace (S (S p)) with (p + 2) by lia. replace (S p) with (p + 1) by lia.
  rewrite !lookup_behind by done. unfold PUTINT32. cbn [app lookup list_lookup mbind option_bind]. f_equal.
  pose proof (u32_range z) as Hz. set (t := u32 z) in *. rewrite !b2z_z2b, !shiftr_div by lia.
  change (2 ^ 24)%Z with (2 ^ 8 * (2 ^ 8 * 2 ^ 8))%Z. change (2 ^ 16)%Z with (2 ^ 8 * 2 ^ 8)%Z.
  rewrite <- !Z.div_div by lia. set (t1 := (t / 2 ^ 8)%Z). set (t2 := (t1 / 2 ^ 8)%Z). set (t3 := (t2 / 2 ^ 8)%Z).
  pose proof (Z.div_mod t (2 ^ 8)). pose proof (Z.div_mod t1 (2 ^ 8)). pose proof (Z.div_mod t2 (2 ^ 8)). pose proof (Z.div_mod t3 (2 ^ 8)).
  assert (t3 / 2 ^ 8 = 0)%Z.
  { apply Z.div_small. unfold t3, t2, t1. rewrite !Z.div_div by lia. split; [apply Z.div_pos; lia|apply Z.div_lt_upper_bound; lia]. }
  pose proof (u8_range t). pose proof (u8_range t1). pose proof (u8_range t2). pose proof (u8_range t3).
  replace (Z.shiftl (u8 t3) 24) with (Z.shiftl (Z.shiftl (Z.shiftl (u8 t3) 8) 8) 8) by (by rewrite !Z.shiftl_shiftl).
  replace (Z.shiftl (u8 t2) 16) with (Z.shiftl (Z.shiftl (u8 t2) 8) 8) by (by rewrite Z.shiftl_shiftl).
  rewrite <- !Z.shiftl_lor, !lor_shift by lia. unfold u8 in *. lia.
Qed.

(** ** The same up to letter case *)

Definition same_part (x y : part) : Prop :=
  match x, y with
  | Bytes b, Bytes b' => b = b'
  | Dname A, Dname A' => fold A = fold A'
  | _, _ => False
  end.

Lemma fold_valid A A' : fold A = fold A' -> valid_name A -> valid_name A'.
Proof.
  intros Hf [HA HL]. split.
  - unfold fold in Hf. clear HL. revert A' Hf. induction HA as [|l A Hl _ IH]; intros [|l' A'] Hf; [constructor|done..|].
    injection Hf as E Hf. constructor; [|by apply IH]. unfold valid_label in *.
    apply (f_equal length) in E. rewrite !length_map in E. lia.
  - by rewrite length_wire, <- (length_enc_fold _ _ Hf), <- length_wire.
Qed.

Lemma same_part_length x y : same_part x y -> length (part_bytes x) = length (part_bytes y).
Proof. destruct x, y; cbn; [by intros ->|done..|]. intros Hf. by rewrite !length_wire, (length_enc_fold _ _ Hf). Qed.

Lemma same_data_length ps ps' : Forall2 same_part ps ps' -> length (data ps) = length (data ps').
Proof.
  induction 1 as [|x y ps ps' Hx _ IH]; [done|]. rewrite !data_cons, !length_app, IH. f_equal. by apply same_part_length.
Qed.

Lemma fits_same L ps ps' : fits L ps -> Forall2 same_part ps ps' -> fits L ps'.
Proof.
  intros HF. revert ps'. induction HF as [|bs L ps _ IH|a g b L ps _ IH|bs L ps Hb _ IH|A L ps HA _ IH|bs]; intros ps' HS;
    inversion HS as [|x y xs ys Hxy Hps]; subst; [constructor|..]; destruct y; try done; cbn in Hxy; subst; try constructor; auto.
  - by eapply fold_valid.
  - inversion Hps; subst. constructor.
Qed.

Lemma shaped_same type ps ps' : shaped type ps -> Forall2 same_part ps ps' -> shaped type ps'.
Proof.
  intros ((L & HL & HF) & HN) HS. split; [exists L; split; [done|by eapply fits_same]|].
  intros E. rewrite <- (same_data_length _ _ HS). auto.
Qed.

Lemma same_part_refl ps : Forall2 same_part ps ps.
Proof. induction ps as [|[]]; by constructor. Qed.

(** ** Parts one behind the other *)

Lemma parts_at_app msg p n m ps qs : parts_at msg p n ps -> parts_at msg (p + n) m qs -> parts_at msg p (n + m) (ps ++ qs).
Proof.
  induction 1 as [p|p n bs ps Hr _ IH|p k n A ps Hn _ IH]; intros Hq; cbn [app].
  - by rewrite Nat.add_0_r in Hq.
  - rewrite <- Nat.add_assoc. apply pa_bytes; [done|]. apply IH. by rewrite <- Nat.add_assoc.
  - rewrite <- Nat.add_assoc. apply pa_name; [done|]. apply IH. by rewrite <- Nat.add_assoc.
Qed.

Lemma read_app_l msg x p n d : read msg p n = Some d -> read (msg ++ x) p n = Some d.
Proof.
  intros (Hle & -> & _)%read_some. rewrite read_ok by (rewrite length_app; lia). f_equal.
  rewrite drop_app_le, take_app_le by (rewrite ?length_drop; lia). done.
Qed.

Lemma parts_at_ext msg x p n ps : parts_at msg p n ps -> parts_at (msg ++ x) p n ps.
Proof. induction 1; constructor; auto using read_app_l, name_at_app. Qed.

(** ** Names that a record may have without any trace when it is taken back *)

Definition known (es : list entry) (n : nat) (A : list (list byte)) : Prop :=
  A = [] \/ far n \/ exists e, e ∈ es /\ length A <= common A (name e) /\ ~ far (pointer_to A e).

Lemma known_mono es es' n n' A : known es n A -> es `prefix_of` es' -> n <= n' -> known es' n' A.
Proof.
  intros [->|[Hf|(e & He & Hc)]] [k ->] Hn; [by left|right; left; by eapply far_mono|].
  right; right. exists e. split; [|done]. apply elem_of_app. by left.
Qed.

Lemma common_le A B : common A B <= length A.
Proof. apply (common_suffix A B _ (Nat.le_refl _)). Qed.

Lemma common_self A : common A A = length A.
Proof. apply Nat.le_antisymm; [apply common_le|]. by apply common_max. Qed.

Lemma suffix_offset_self A : suffix_offset (length A) A = 0.
Proof. unfold suffix_offset. by rewrite Nat.sub_diag. Qed.

Section Inv.

Context {E : Type} `{Resolver E} (P : E -> Prop).

Notation ans := (ans E).
Notation AM := (AM E).

(** ** Partial and total correctness

    [m] is defined; it ends with [Q], leaves early with [R], or fails and leaves
    the cache with [P]. *)
Definition apost {X} (m : AM X) (a : ans) (Q : X -> ans -> Prop) (R : ans -> Prop) : Prop :=
  exists r a', m a = Some (r, a') /\
    match r with inr x => Q x a' | inl Early => R a' | inl Null => P (a_env a') end.

Lemma apost_ret {X} (x : X) a (Q : X -> ans -> Prop) R : Q x a -> apost (mret x) a Q R.
Proof. intros HQ. by exists (inr x), a. Qed.

Lemma apost_bind {X Y} (m : AM X) (k : X -> AM Y) a Q R : apost m a (fun x a' => apost (k x) a' Q R) R -> apost (m ≫= k) a Q R.
Proof.
  intros ([e|x] & a' & Hm & HQ).
  - exists (inl e), a'. split; [|done]. unfold mbind, AM_bind. by rewrite Hm.
  - destruct HQ as (r & a'' & Hk & HQ). exists r, a''. split; [|done]. unfold mbind, AM_bind. by rewrite Hm.
Qed.

Lemma apost_mono {X} (m : AM X) a (Q Q' : X -> ans -> Prop) (R R' : ans -> Prop) : apost m a Q R ->
  (forall x a', Q x a' -> Q' x a') -> (forall a', R a' -> R' a') -> apost m a Q' R'.
Proof. intros (r & a' & Hm & HQ) H1 H2. exists r, a'. split; [done|]. destruct r as [[]|]; auto. Qed.

Lemma apost_read {Y} (k : ans -> AM Y) a Q R : apost (k a) a Q R -> apost (read_ans ≫= k) a Q R.
Proof. intros HQ. apply apost_bind. by exists (inr a), a. Qed.

Lemma apost_update f a (Q : unit -> ans -> Prop) R : Q tt (f a) -> apost (update f) a Q R.
Proof. intros HQ. by exists (inr tt), (f a). Qed.

Lemma apost_must b a (Q : unit -> ans -> Prop) R : b = true -> Q tt a -> apost (must b) a Q R.
Proof. intros -> HQ. by apply apost_ret. Qed.

Lemma apost_defined {X} (o : option X) x a (Q : X -> ans -> Prop) R : o = Some x -> Q x a -> apost (defined o) a Q R.
Proof. intros -> HQ. by apply apost_ret. Qed.

Lemma apost_null {X} a (Q : X -> ans -> Prop) R : P (a_env a) -> apost (leave Null) a Q R.
Proof. intros HP. by exists (inl Null), a. Qed.

Lemma apost_early {X} a (Q : X -> ans -> Prop) (R : ans -> Prop) : R a -> apost (leave Early) a Q R.
Proof. intros HR. by exists (inl Early), a. Qed.

(** Only the memory that the allocator has to give changes. *)
Definition with_mallocs (m : list bool) (a : ans) : ans :=
  Ans (a_hdr a) (a_body a) (a_alloc a) (a_cb a) (a_sva a) (a_ar a) m (a_randoms a) (a_env a).

Lemma apost_malloc a (Q : bool -> ans -> Prop) R : (forall b m, Q b (with_mallocs m a)) -> apost malloc a Q R.
Proof.
  intros HQ. unfold malloc, apost. destruct (a_mallocs a) as [|b m] eqn:Em; [|exists (inr b); eexists; split; [done|]; apply HQ].
  exists (inr true), a. split; [done|]. specialize (HQ true []). unfold with_mallocs in HQ. rewrite <- Em in HQ. by destruct a.
Qed.

(** ** The message and the list of names *)

(** The bytes of a message that are filled in later, the header of the message
    and that of the record being written, are not fixed yet: [S] are the messages
    that the answer may become. *)
Definition ext (S : list byte -> Prop) (bs : list byte) : list byte -> Prop := fun m' => exists m, S m /\ m' = m ++ bs.

Record base (a : ans) (S : list byte -> Prop) (es : list entry) : Prop := {
  b_alloc : dnsmsghdroffset + sz a <= a_alloc a;
  b_cov : covers (a_cb a) es;
  b_valid : Forall (fun e => valid_name (name e)) es;
  b_tab : forall m, S m -> length m = sz a /\ table_ok m es;
}.

(** What writing leaves as it is. *)
Record quiet (a a' : ans) : Prop := {
  q_hdr : a_hdr a' = a_hdr a;
  q_sva : a_sva a' = a_sva a;
  q_ar : a_ar a' = a_ar a;
  q_env : a_env a' = a_env a;
}.

#[global] Instance still_refl : Reflexive quiet.
Proof. by constructor. Qed.

#[global] Instance still_trans : Transitive quiet.
Proof. intros a b c [] []. constructor; congruence. Qed.

Lemma still_mallocs m a : quiet a (with_mallocs m a).
Proof. by constructor. Qed.

Lemma base_sub a (S S' : list byte -> Prop) es : base a S es -> (forall m, S' m -> S m) -> base a S' es.
Proof. intros [? ? ? T] HS. constructor; [done..|]. intros m Hm. by apply T, HS. Qed.

Lemma compress_post a S es A ra R : base a S es -> valid_name A -> P (a_env a) ->
  apost (compress (wire A ++ ra)) a (fun out a' => exists es',
    quiet a a' /\ a_body a' = a_body a /\ a_alloc a' = a_alloc a /\ covers (a_cb a') es' /\ es `prefix_of` es' /\
    Forall (fun e => valid_name (name e)) es' /\ length out <= length (wire A) /\ known es' (sz a) A /\
    (known es (sz a) A -> covers (a_cb a') es) /\
    forall m, S m -> table_ok (m ++ out) es' /\
      exists ls, fold A = fold ls /\ name_at (m ++ out) (sz a) (length out) ls) R.
Proof.
  intros B HA HP. apply apost_read, apost_bind, apost_malloc. intros grow mem. apply apost_bind.
  destruct (compress_name_run (a_cb a) es A ra (sz a) grow (b_cov _ _ _ B) (b_valid _ _ _ B) HA)
    as (l & out & Hl & Hfar & Hlen & Hc & Hw & Hm).
  eapply apost_defined; [exact Hc|]. set (whole := (0 <? l) && (l =? length A)) in *.
  set (e := Entry (sz a) A (length A - l)) in *.
  destruct whole eqn:Ew; [|destruct grow; [|by apply apost_bind, apost_update, apost_null]].
  - apply apost_bind, apost_update. rewrite (proj2 (Nat.eqb_neq _ _)) by lia. apply apost_ret.
    destruct (Hw eq_refl) as (e' & He' & Hce & Hne). exists es. split_and!; [done|done|done|apply B|done|apply B|lia| |by intros _; apply B|].
    + right; right. by exists e'.
    + intros m Sm. destruct (b_tab _ _ _ B m Sm) as [Hl' Ht']. destruct (Hm m Hl' Ht') as (Ht & ls & Hf & Hn).
      split; [done|]. by exists ls.
  - apply apost_bind, apost_update. rewrite (proj2 (Nat.eqb_neq _ _)) by lia. apply apost_ret.
    exists (es ++ [e]). cbn [a_cb a_body a_alloc]. split_and!; [done|done|done| |by exists [e]| |lia| | |].
    + apply covers_app; [apply B|]. apply covers_keep. constructor.
    + apply Forall_app. split; [apply B|]. by constructor.
    + destruct (decide (far (sz a))) as [Hf|Hf]; [by right; left|]. right; right. exists e.
      split; [apply elem_of_app; right; by left|]. unfold pointer_to. cbn [name pos e].
      rewrite common_self, suffix_offset_self, Nat.add_0_r. done.
    + intros Hk. rewrite <- (app_nil_r es). apply covers_app; [apply B|]. apply covers_skip; [|constructor].
      exists A. split; [done|]. split; [done|]. cbn [index compel e pos].
      destruct (decide (A = [])) as [|HA0]; [by left|right].
      destruct Hk as [->|[Hf|(e' & He' & Hce & Hne)]]; [done|done|]. exfalso.
      assert (length A <> 0) by by destruct A.
      destruct (decide (l < length A)); [by apply Hne, Hfar; [|lia]|].
      unfold whole in Ew. rewrite (proj2 (Nat.ltb_lt 0 l)), (proj2 (Nat.eqb_eq l (length A))) in Ew by lia. done.
    + intros m Sm. destruct (b_tab _ _ _ B m Sm) as [Hl' Ht']. destruct (Hm m Hl' Ht') as (Ht & ls & Hf & Hn).
      split; [done|]. by exists ls.
Qed.

(** ** Writing parts *)

(** The bytes [bs] have been appended, and they are the parts [ps]. *)
Record wrote (a : ans) (S : list byte -> Prop) (es : list entry) (ps : list part) (a' : ans) (es' : list entry) (bs : list byte) : Prop := {
  w_quiet : quiet a a';
  w_alloc : a_alloc a' = a_alloc a;
  w_body : a_body a' = a_body a ++ bs;
  w_base : base a' (ext S bs) es';
  w_es : es `prefix_of` es';
  w_len : length bs <= length (data ps);
  w_parts : forall m, S m -> exists ps', Forall2 same_part ps ps' /\ parts_at (m ++ bs) (sz a) (length bs) ps';
}.

Lemma wrote_sz a S es ps a' es' bs : wrote a S es ps a' es' bs -> sz a' = sz a + length bs.
Proof. intros W. unfold sz. rewrite (w_body _ _ _ _ _ _ _ W), length_app. lia. Qed.

Lemma wrote_nil a S es : base a S es -> wrote a S es [] a es [].
Proof.
  intros B. constructor; [done|done|by rewrite app_nil_r| |done|done|].
  - eapply base_sub; [done|]. intros m (m' & Hm & ->). by rewrite app_nil_r.
  - intros m Hm. exists []. split; [done|constructor].
Qed.

Lemma wrote_trans a S es ps a1 es1 bs1 qs a2 es2 bs2 :
  wrote a S es ps a1 es1 bs1 -> wrote a1 (ext S bs1) es1 qs a2 es2 bs2 -> wrote a S es (ps ++ qs) a2 es2 (bs1 ++ bs2).
Proof.
  intros W1 W2. pose proof (wrote_sz _ _ _ _ _ _ _ W1) as Hs. destruct W1 as [Q1 A1 B1 _ E1 L1 P1], W2 as [Q2 A2 B2 I2 E2 L2 P2].
  constructor; [by etrans|congruence|by rewrite B2, B1, app_assoc| |by etrans|by rewrite data_app, !length_app; lia|].
  { eapply base_sub; [done|]. intros m (m' & Hm & ->). exists (m' ++ bs1). split; [by exists m'|]. by rewrite app_assoc. }
  intros m Hm. destruct (P1 m Hm) as (ps' & HS1 & HP1). destruct (P2 (m ++ bs1)) as (qs' & HS2 & HP2); [by exists m|].
  exists (ps' ++ qs'). split; [by apply Forall2_app|]. rewrite length_app, app_assoc. apply parts_at_app.
  - by apply parts_at_ext.
  - by rewrite <- Hs.
Qed.

Lemma ext_base a S es bs a' : base a S es -> a_body a' = a_body a ++ bs -> a_alloc a' = a_alloc a -> a_cb a' = a_cb a ->
  dnsmsghdroffset + sz a + length bs <= a_alloc a -> base a' (ext S bs) es.
Proof.
  intros B Hb Ha Hc Hle. assert (Hs : sz a' = sz a + length bs) by (unfold sz; rewrite Hb, length_app; lia).
  constructor; [lia|rewrite Hc; apply B|apply B|]. intros m' (m & Hm & ->). destruct (b_tab _ _ _ B m Hm) as [Hl Ht].
  split; [rewrite length_app; lia|by apply table_ok_app].
Qed.

Lemma put_post a S es bs R : base a S es -> dnsmsghdroffset + sz a + length bs <= a_alloc a ->
  apost (put bs) a (fun _ a' => wrote a S es [Bytes bs] a' es bs /\ a_cb a' = a_cb a) R.
Proof.
  intros B Hle. apply apost_read, apost_bind, apost_must; [apply Nat.leb_le; lia|]. apply apost_update. split; [|done].
  constructor; [by constructor|done|done|by eapply ext_base|done|by unfold data; cbn; rewrite app_nil_r|].
  intros m Hm. exists [Bytes bs]. split; [apply same_part_refl|]. apply pa_last_bytes.
  destruct (b_tab _ _ _ B m Hm) as [<- _]. rewrite <- (app_nil_r bs) at 1. apply read_app.
Qed.

Lemma put_name_post a S es A ra R : base a S es -> valid_name A -> P (a_env a) ->
  dnsmsghdroffset + sz a + length (wire A) <= a_alloc a ->
  apost (put_name (wire A ++ ra)) a (fun n a' => exists es' bs, n = length bs /\ wrote a S es [Dname A] a' es' bs /\ known es' (sz a') A) R.
Proof.
  intros B HA HP Hle. apply apost_bind. eapply apost_mono; [by eapply compress_post| |done].
  intros out a1 (es' & Q1 & B1 & A1 & C1 & E1 & V1 & L1 & K1 & _ & T1).
  apply apost_bind, apost_read, apost_bind, apost_must.
  { apply Nat.leb_le. unfold sz in *. rewrite A1, B1. lia. }
  apply apost_update, apost_ret. exists es', out. split; [done|]. rewrite B1.
  match goal with |- wrote _ _ _ _ ?x _ _ /\ _ => assert (Hs : sz x = sz a + length out) by (unfold sz; cbn [a_body]; rewrite length_app; lia) end.
  split; [|eapply known_mono; [exact K1|done|lia]].
  constructor; cbn [a_body a_alloc]; [destruct Q1; by constructor|done|done| |done|by unfold data; cbn; rewrite app_nil_r|].
  - constructor; cbn [a_cb]; [cbn [a_alloc]; lia|done|done|]. intros m' (m & Hm & ->). destruct (b_tab _ _ _ B m Hm) as [Hl _].
    split; [rewrite length_app; lia|by apply T1].
  - intros m Hm. destruct (T1 m Hm) as (_ & ls & Hf & Hn). exists [Dname ls].
    split; [by constructor|]. by apply pa_last_name.
Qed.

(** The same as steps of a longer program: behind parts that are written, the
    next one is. *)
Lemma step_put {X} (k : unit -> AM X) a S es ps a1 es1 bs1 bs Q R :
  wrote a S es ps a1 es1 bs1 -> dnsmsghdroffset + sz a1 + length bs <= a_alloc a1 ->
  (forall a2, wrote a S es (ps ++ [Bytes bs]) a2 es1 (bs1 ++ bs) -> sz a2 = sz a1 + length bs -> a_alloc a2 = a_alloc a1 ->
     apost (k tt) a2 Q R) ->
  apost (put bs ≫= k) a1 Q R.
Proof.
  intros W Hle Hk. apply apost_bind. eapply apost_mono; [apply (put_post a1 (ext S bs1) es1); [apply W|done]| |done].
  intros [] a2 (W2 & _). apply Hk; [by eapply wrote_trans|by eapply wrote_sz|apply W2].
Qed.

Lemma step_name {X} (k : nat -> AM X) a S es ps a1 es1 bs1 A name ra Q R :
  wrote a S es ps a1 es1 bs1 -> P (a_env a) -> valid_name A -> name = wire A ++ ra ->
  dnsmsghdroffset + sz a1 + length (wire A) <= a_alloc a1 ->
  (forall a2 es2 bs, wrote a S es (ps ++ [Dname A]) a2 es2 (bs1 ++ bs) -> sz a2 = sz a1 + length bs -> a_alloc a2 = a_alloc a1 ->
     length bs <= length (wire A) -> es1 `prefix_of` es2 -> known es2 (sz a2) A -> apost (k (length bs)) a2 Q R) ->
  apost (put_name name ≫= k) a1 Q R.
Proof.
  intros W HP HA -> Hle Hk. apply apost_bind. eapply apost_mono; [apply (put_name_post a1 (ext S bs1) es1 A ra); [apply W|done| |done]| |done].
  { by rewrite (q_env _ _ (w_quiet _ _ _ _ _ _ _ W)). }
  intros n a2 (es2 & bs & -> & W2 & K2). pose proof (w_len _ _ _ _ _ _ _ W2) as Hlen. unfold data in Hlen. cbn in Hlen.
  rewrite app_nil_r in Hlen. apply (Hk a2 es2 bs); [by eapply wrote_trans|by eapply wrote_sz|apply W2|done|apply W2|done].
Qed.

Lemma step_must {X} b (k : unit -> AM X) a Q R : b = true -> apost (k tt) a Q R -> apost (must b ≫= k) a Q R.
Proof. intros Hb HQ. apply apost_bind. by apply apost_must. Qed.

Lemma step_len {X} name A ra (k : nat -> AM X) a Q R : valid_name A -> name = wire A ++ ra ->
  apost (k (length (wire A))) a Q R -> apost (len_of name ≫= k) a Q R.
Proof. intros HA -> HQ. apply apost_bind. eapply apost_defined; [by apply rhnlen_wire, HA|done]. Qed.

(** Data written as they are, names included. *)
Definition valid_part (x : part) : Prop := match x with Bytes _ => True | Dname A => valid_name A end.

Lemma fits_valid L ps : fits L ps -> Forall valid_part ps.
Proof. induction 1; constructor; done || constructor. Qed.

Lemma raw_parts msg ps : Forall valid_part ps -> forall p, read msg p (length (data ps)) = Some (data ps) ->
  parts_at msg p (length (data ps)) ps.
Proof.
  induction 1 as [|x ps Hx _ IH]; intros p Hr; [constructor|]. rewrite data_cons in *. rewrite length_app in *.
  destruct (read_split _ _ _ (length (part_bytes x)) _ Hr) as [H1 H2]; [lia|].
  rewrite take_app_length in H1. rewrite drop_app_length in H2.
  replace (length (part_bytes x) + length (data ps) - length (part_bytes x)) with (length (data ps)) in H2 by lia.
  destruct x as [bs|A]; [by apply pa_bytes; auto|]. apply pa_name; [|by apply IH].
  eapply (wire_name_at _ _ (wire A) A []); [done|done|by rewrite app_nil_r].
Qed.

Lemma wrote_raw a S es ps a' es' : base a S es -> Forall valid_part ps -> wrote a S es [Bytes (data ps)] a' es' (data ps) -> wrote a S es ps a' es' (data ps).
Proof.
  intros B Hv [W1 W2 W3 W4 W5 W6 W7]. constructor; [done..|by unfold data in *; cbn in W6; rewrite app_nil_r in W6|].
  intros m Hm. exists ps. split; [apply same_part_refl|]. apply raw_parts; [done|].
  destruct (b_tab _ _ _ B m Hm) as [<- _]. rewrite <- (app_nil_r (data ps)) at 1. apply read_app.
Qed.

Lemma naptr_skip_post (ss : list (list byte)) A a R Q : Forall (fun s => length s < 256) ss -> forall pre,
  let d := pre ++ data (map (fun s => Bytes (n2b (length s) :: s)) ss) ++ wire A in
  Q (length pre + length (data (map (fun s => Bytes (n2b (length s) :: s)) ss))) a ->
  apost (naptr_skip d (length ss) (length pre)) a Q R.
Proof.
  induction 1 as [|s ss Hs _ IH]; intros pre d HQ; cbn [length naptr_skip].
  { apply apost_ret. cbn in HQ. by rewrite Nat.add_0_r in HQ. }
  subst d. cbn [map] in *. rewrite data_cons in *. cbn [part_bytes app] in *. apply apost_bind.
  eapply apost_defined; [by apply lookup_middle|]. rewrite b2n_n2b by done. apply step_must.
  { apply Nat.ltb_lt. rewrite !length_app. cbn. rewrite !length_app, length_wire. lia. }
  specialize (IH (pre ++ n2b (length s) :: s)). rewrite !length_app in IH. cbn [length] in *.
  rewrite <- !app_assoc in *. cbn [app] in *. rewrite <- ?app_assoc in *.
  replace (length pre + length s + 1) with (length pre + S (length s)) by lia. apply IH.
  rewrite length_app in HQ. cbn in HQ. by replace (length pre + S (length s) + length (data (map (fun s => Bytes (n2b (length s) :: s)) ss)))
    with (length pre + S (length s + length (data (map (fun s => Bytes (n2b (length s) :: s)) ss)))) by lia.
Qed.

(** Types whose names are written out. *)
Definition raw_types : list Z := [T_IPSECKEY; T_RRSIG; T_NSEC].

Definition put_ok (a : ans) (S : list byte -> Prop) (es : list entry) (type : Z) (ps : list part) (n : nat) (a' : ans) : Prop :=
  exists es' bs, n = length bs /\ wrote a S es ps a' es' bs /\ ((forall A, Dname A ∉ ps) -> a_cb a' = a_cb a) /\
    (one_of type raw_types = false -> forall A, Dname A ∈ ps -> known es' (sz a') A).

Lemma put_rest_post a S es type ps R : base a S es -> Forall valid_part ps -> dnsmsghdroffset + sz a + length (data ps) <= a_alloc a ->
  (one_of type raw_types = false -> forall A, Dname A ∉ ps) ->
  apost (put (data ps);; mret (length (data ps))) a (put_ok a S es type ps) R.
Proof.
  intros B Hv Hle Hn. apply apost_bind. eapply apost_mono; [by apply (put_post a S es)| |done].
  intros [] a1 (W & Hcb). apply apost_ret. exists es, (data ps). split; [done|]. split; [by apply wrote_raw|]. split; [done|].
  intros Hr A HA. by apply Hn in HA.
Qed.

Ltac capacity := repeat match goal with
  | H : wrote _ _ _ _ _ _ _ |- _ => apply w_alloc in H
  end; unfold data in *; cbn [map concat part_bytes] in *; rewrite ?length_app in *; cbn [length] in *; lia.

Lemma one_of_in type l : one_of type l = true -> type ∈ l.
Proof. unfold one_of. intros (x & Hx & ->%Z.eqb_eq)%existsb_exists. by apply list_elem_of_In. Qed.

(** The formats in the order in which [put_rdata] looks for them. *)
Definition put_layouts (type : Z) : list (list field) :=
  if one_of type name_types then [[Dom]]
  else if one_of type pair_types then [[Dom; Dom]]
  else if one_of type pref_types then [[Fixed 2; Dom]]
  else if (type =? T_SOA)%Z then [[Dom; Dom; Fixed 20]]
  else if (type =? T_PX)%Z then [[Fixed 2; Dom; Dom]]
  else if (type =? T_SRV)%Z then [[Fixed 6; Dom]]
  else if (type =? T_NXT)%Z then [[Dom; Rest]]
  else if (type =? T_NAPTR)%Z then [[Fixed 4; Str; Str; Str; Dom]]
  else layouts type.

Lemma put_layouts_eq type : layouts type = put_layouts type.
Proof.
  unfold put_layouts.
  destruct (one_of type name_types) eqn:E1; [apply one_of_in in E1; repeat (apply elem_of_cons in E1 as [->|E1]; [done|]); by apply elem_of_nil in E1|].
  destruct (one_of type pair_types) eqn:E2; [apply one_of_in in E2; repeat (apply elem_of_cons in E2 as [->|E2]; [done|]); by apply elem_of_nil in E2|].
  destruct (one_of type pref_types) eqn:E3; [apply one_of_in in E3; repeat (apply elem_of_cons in E3 as [->|E3]; [done|]); by apply elem_of_nil in E3|].
  do 5 (case_match; [match goal with H : (_ =? _)%Z = true |- _ => by apply Z.eqb_eq in H as -> end|]). done.
Qed.

(** The types that are not in this order have no names that could be compressed. *)
Lemma rest_layouts type L ps : L ∈ layouts type -> fits L ps -> one_of type raw_types = false ->
  one_of type (name_types ++ pair_types ++ pref_types ++ [T_SOA; T_PX; T_SRV; T_NXT; T_NAPTR]) = false ->
  forall A, Dname A ∉ ps.
Proof.
  intros HL HF Hr Hn A. unfold one_of in Hr, Hn. cbn in Hr, Hn. unfold layouts, one_of in HL. cbn in HL.
  rewrite !orb_false_iff in *. dands. rewrite ?orb_false_r in HL.
  repeat match goal with H : (_ =? _)%Z = false |- _ => rewrite H in HL; clear H end. cbn in HL.
  destruct (type =? T_A)%Z; [|destruct (type =? T_AAAA)%Z]; dissect; by intros ?%list_elem_of_singleton.
Qed.

Ltac known_names := intros _ ?A ?HA; repeat (apply elem_of_cons in HA as [HA|HA]; [try discriminate HA|]);
  try (by apply elem_of_nil in HA); injection HA as ->.

Ltac finish_put es2 bs := apply apost_ret; exists es2, bs; split; [rewrite ?length_app; cbn [length]; lia|split; [done|split]];
  [intros Hno; exfalso; eapply Hno; match goal with |- Dname _ ∈ ?ps => first [by in_list | by (apply elem_of_app; right; left) | right; apply elem_of_app; right; by left] end|].

Ltac the_name := unfold data; cbn [map concat part_bytes]; rewrite ?app_nil_r, ?drop_app_length, ?take_app_length; try done.

Lemma put_naptr_post a S es type ps R : base a S es -> fits [Fixed 4; Str; Str; Str; Dom] ps -> P (a_env a) ->
  dnsmsghdroffset + sz a + length (data ps) <= a_alloc a ->
  apost (must (4 <? length (data ps));; ilen ← naptr_skip (data ps) 3 4; put (take ilen (data ps));;
         blen ← put_name (drop ilen (data ps)); must (ilen + blen <=? length (data ps));; mret (ilen + blen)) a (put_ok a S es type ps) R.
Proof.
  intros B HF HP Hle. apply fits_fixed_inv in HF as (bs & ps1 & -> & Hb & HF).
  change [Str; Str; Str; Dom] with (repeat Str 3 ++ [Dom]) in HF. apply fits_strings_inv in HF as (ss & ps2 & H3 & Hs & -> & HF).
  dissect. set (strs := map (fun s => Bytes (n2b (length s) :: s)) ss) in *.
  assert (Hd : data (Bytes bs :: strs ++ [Dname A]) = bs ++ data strs ++ wire A).
  { rewrite data_cons, data_app. unfold data at 2. cbn. by rewrite app_nil_r. }
  assert (Hf : data (Bytes bs :: strs) = bs ++ data strs) by done.
  rewrite Hd in *. rewrite !length_app in *. pose proof (length_wire A).
  apply step_must; [apply Nat.ltb_lt; lia|]. apply apost_bind.
  pose proof (naptr_skip_post ss A a R) as Hskip. rewrite H3 in Hskip. rewrite <- Hb at 1. apply Hskip; [done|].
  fold strs. rewrite app_assoc, <- length_app, take_app_length, drop_app_length.
  apply apost_bind. eapply apost_mono; [apply (put_post a S es); [done|rewrite length_app; lia]| |done].
  intros [] a1 (W & _). rewrite <- Hf in W. apply wrote_raw in W;
    [|done|constructor; [done|]; apply Forall_forall; unfold strs; by intros x (s & -> & _)%list_elem_of_fmap].
  pose proof (wrote_sz _ _ _ _ _ _ _ W) as Hs1. pose proof (w_alloc _ _ _ _ _ _ _ W) as Ha1. rewrite Hf, length_app in Hs1.
  eapply (step_name _ a S es _ _ _ _ A); [exact W|done|done|by rewrite app_nil_r|lia|]. intros a2 es2 b2 W' Hs' Ha' Hl' He' Hk'.
  apply step_must; [apply Nat.leb_le; rewrite !length_app; lia|].
  rewrite Hf in W'. finish_put es2 ((bs ++ data strs) ++ b2). intros _ A' HA'. cbn [app] in HA'.
  apply elem_of_cons in HA' as [|[HA'|HA']%elem_of_app]; [done|by apply list_elem_of_fmap in HA' as (? & ? & _)|].
  by apply list_elem_of_singleton in HA' as [= ->].
Qed.

Lemma put_rdata_post a S es type ps R : base a S es -> shaped type ps -> P (a_env a) ->
  dnsmsghdroffset + sz a + length (data ps) <= a_alloc a ->
  apost (put_rdata type (data ps)) a (put_ok a S es type ps) R.
Proof.
  intros B ((L & HL & HF) & HN) HP Hle. rewrite put_layouts_eq in HL. unfold put_rdata, put_layouts in *.
  pose proof (wrote_nil a S es B) as W0.
  destruct (one_of type name_types) eqn:E1.
  { dissect. eapply (step_name _ a S es _ _ _ _ A); [exact W0|done|done|the_name|capacity|]. intros a2 es2 bs W Hs Ha Hl He Hk.
    apply step_must; [apply Nat.leb_le; capacity|]. finish_put es2 bs. by known_names. }
  destruct (one_of type pair_types) eqn:E2.
  { dissect. assert (Hd : data [Dname A; Dname A0] = wire A ++ wire A0) by the_name. rewrite Hd in *. rewrite length_app in Hle.
    eapply (step_name _ a S es _ _ _ _ A); [exact W0|done|done|done|lia|]. intros a2 es2 bs W Hs Ha Hl He Hk.
    eapply (step_len _ A); [done|done|]. rewrite drop_app_length. apply step_must; [by apply Nat.leb_le|].
    eapply (step_name _ a S es _ _ _ _ A0); [exact W|done|done|by rewrite app_nil_r|lia|]. intros a3 es3 bs' W' Hs' Ha' Hl' He' Hk'.
    apply step_must; [apply Nat.leb_le; rewrite length_app; lia|]. finish_put es3 (bs ++ bs'). known_names; [|done].
    eapply known_mono; [exact Hk|done|lia]. }
  destruct (one_of type pref_types) eqn:E3.
  { dissect. assert (Hd : data [Bytes bs; Dname A] = bs ++ wire A) by the_name. rewrite Hd in *. rewrite length_app in *.
    pose proof (length_wire A). apply step_must; [apply Nat.ltb_lt; lia|]. rewrite take_app_length', drop_app_length' by done.
    eapply step_put; [exact W0|lia|]. intros a1 W Hs Ha.
    eapply (step_name _ a S es _ _ _ _ A); [exact W|done|done|by rewrite app_nil_r|lia|]. intros a2 es2 bs' W' Hs' Ha' Hl' He' Hk'.
    apply step_must; [apply Nat.leb_le; lia|]. finish_put es2 (bs ++ bs'). by known_names. }
  destruct (type =? T_SOA)%Z eqn:E4.
  { dissect. assert (Hd : data [Dname A; Dname A0; Bytes bs] = wire A ++ wire A0 ++ bs) by the_name.
    rewrite Hd in *. rewrite !length_app in *.
    eapply (step_name _ a S es _ _ _ _ A); [exact W0|done|done|done|lia|]. intros a2 es2 b1 W Hs Ha Hl He Hk.
    eapply (step_len _ A); [done|done|]. rewrite drop_app_length. apply step_must; [by apply Nat.leb_le|].
    eapply (step_name _ a S es _ _ _ _ A0); [exact W|done|done|done|lia|]. intros a3 es3 b2 W' Hs' Ha' Hl' He' Hk'.
    eapply (step_len _ A0); [done|done|]. apply step_must; [apply Nat.leb_le; lia|]. apply apost_bind.
    eapply apost_defined. { rewrite <- Hlen, app_assoc, <- length_app. rewrite <- (app_nil_r bs) at 1. apply read_app. }
    eapply step_put; [exact W'|lia|]. intros a4 W'' Hs'' Ha''.
    apply step_must; [apply Nat.leb_le; lia|]. finish_put es3 ((b1 ++ b2) ++ bs). known_names.
    - eapply known_mono; [exact Hk|done|lia].
    - eapply known_mono; [exact Hk'|done|lia]. }
  destruct (type =? T_PX)%Z eqn:E5.
  { dissect. assert (Hd : data [Bytes bs; Dname A; Dname A0] = bs ++ wire A ++ wire A0) by the_name.
    rewrite Hd in *. rewrite !length_app in *. pose proof (length_wire A).
    apply step_must; [apply Nat.ltb_lt; lia|]. rewrite take_app_length', (drop_app_length' bs) by done.
    eapply step_put; [exact W0|lia|]. intros a1 W Hs Ha.
    eapply (step_name _ a S es _ _ _ _ A); [exact W|done|done|done|lia|]. intros a2 es2 b2 W' Hs' Ha' Hl' He' Hk'.
    eapply (step_len _ A); [done|done|]. apply step_must; [apply Nat.leb_le; lia|].
    rewrite <- Hlen, drop_app_add, drop_app_length.
    eapply (step_name _ a S es _ _ _ _ A0); [exact W'|done|done|by rewrite app_nil_r|lia|]. intros a3 es3 b3 W'' Hs'' Ha'' Hl'' He'' Hk''.
    apply step_must; [apply Nat.leb_le; lia|]. finish_put es3 ((bs ++ b2) ++ b3). known_names; [|done].
    eapply known_mono; [exact Hk'|done|lia]. }
  destruct (type =? T_SRV)%Z eqn:E6.
  { dissect. assert (Hd : data [Bytes bs; Dname A] = bs ++ wire A) by the_name. rewrite Hd in *. rewrite length_app in *.
    pose proof (length_wire A). apply step_must; [apply Nat.ltb_lt; lia|]. rewrite take_app_length', drop_app_length' by done.
    eapply step_put; [exact W0|lia|]. intros a1 W Hs Ha.
    eapply (step_name _ a S es _ _ _ _ A); [exact W|done|done|by rewrite app_nil_r|lia|]. intros a2 es2 bs' W' Hs' Ha' Hl' He' Hk'.
    apply step_must; [apply Nat.leb_le; lia|]. finish_put es2 (bs ++ bs'). by known_names. }
  destruct (type =? T_NXT)%Z eqn:E7.
  { dissect. assert (Hd : data [Dname A; Bytes bs] = wire A ++ bs) by the_name. rewrite Hd in *. rewrite length_app in *.
    eapply (step_name _ a S es _ _ _ _ A); [exact W0|done|done|done|lia|]. intros a2 es2 b1 W Hs Ha Hl He Hk.
    eapply (step_len _ A); [done|done|]. apply step_must; [by apply Nat.leb_le|]. apply step_must; [apply Nat.leb_le; lia|].
    rewrite drop_app_length. eapply step_put; [exact W|lia|]. intros a3 W' Hs' Ha'.
    finish_put es2 (b1 ++ bs). known_names. eapply known_mono; [exact Hk|done|lia]. }
  destruct (type =? T_NAPTR)%Z eqn:E8.
  { apply list_elem_of_singleton in HL as ->. by apply put_naptr_post. }
  apply put_rest_post; [done|by eapply fits_valid|done|]. intros Hr. eapply rest_layouts; [done|done|done|].
  unfold one_of in *. rewrite !existsb_app, E1, E2, E3. cbn [existsb]. by rewrite E4, E5, E6, E7, E8.
Qed.

(** ** Records *)

(** A record: owner, type, class, time to live and the parts of its data. *)
Record rec := Rec { r_name : list (list byte); r_type : Z; r_class : Z; r_ttl : Z; r_parts : list part }.

Record same_rec (x y : rec) : Prop := {
  sr_name : fold (r_name x) = fold (r_name y);
  sr_type : r_type x = r_type y;
  sr_class : r_class x = r_class y;
  sr_ttl : r_ttl x = r_ttl y;
  sr_parts : Forall2 same_part (r_parts x) (r_parts y);
}.

(** The record stands in the message at [p], in [n] bytes. *)
Definition rec_at (msg : list byte) (p n : nat) (r : rec) : Prop := exists m k,
  name_at msg p m (r_name r) /\ get_rr_hdr msg (p + m) = Some (RRHdr (r_type r) (r_class r) (r_ttl r) k) /\
  parts_at msg (p + m + sizeof_rr_hdr_t) k (r_parts r) /\ n = m + sizeof_rr_hdr_t + k.

Lemma chunked_le n : n <= chunked n.
Proof.
  unfold chunked. change 0x7f%Z with (Z.ones 7). rewrite Z.ldiff_ones_r, Z.shiftl_mul_pow2, Z.shiftr_div_pow2 by lia.
  pose proof (Z.div_mod (Z.of_nat n + Z.ones 7) (2 ^ 7)). pose proof (Z.mod_pos_bound (Z.of_nat n + Z.ones 7) (2 ^ 7)).
  change (Z.ones 7) with 127%Z in *. lia.
Qed.

Lemma reserve_post a n R : P (a_env a) ->
  apost (reserve n) a (fun _ a' => quiet a a' /\ a_body a' = a_body a /\ a_cb a' = a_cb a /\
    n <= a_alloc a' /\ a_alloc a <= a_alloc a') R.
Proof.
  intros HP. apply apost_read. destruct (Nat.ltb_spec (a_alloc a) n); [|by apply apost_ret].
  apply apost_bind, apost_malloc. intros [] m; [|by apply apost_null]. apply apost_update. cbn.
  pose proof (chunked_le n). split_and!; [by constructor|done|done|lia|lia].
Qed.

Lemma get_rr_hdr_put pre type ttl k post p : p = length pre -> (0 <= type < 2 ^ 16)%Z -> (Z.of_nat k < 2 ^ 16)%Z ->
  get_rr_hdr (pre ++ rr_hdr_bytes type ttl k ++ post) p = Some (RRHdr type C_IN (u32 ttl) k).
Proof.
  intros -> Ht Hk. unfold get_rr_hdr, rr_hdr_bytes. rewrite <- !app_assoc. set (M := pre ++ _).
  assert (H1 : GETINT16 M (length pre) = Some (u16 type)) by (unfold M; by apply GETINT16_put).
  assert (H2 : GETINT16 M (length pre + 2) = Some (u16 C_IN)).
  { unfold M. rewrite app_assoc. apply GETINT16_put. by rewrite length_app. }
  assert (H3 : GETINT32 M (length pre + 4) = Some (u32 ttl)).
  { unfold M. rewrite app_assoc, (app_assoc (pre ++ _)). apply GETINT32_put. rewrite !length_app, !PUTINT16_length. lia. }
  assert (H4 : GETINT16 M (length pre + 8) = Some (u16 (Z.of_nat k))).
  { unfold M. rewrite app_assoc, (app_assoc (pre ++ _)), (app_assoc ((pre ++ _) ++ _)). apply GETINT16_put.
    rewrite !length_app, !PUTINT16_length, PUTINT32_length. lia. }
  rewrite H1, H2, H3, H4. cbn [mbind option_bind]. rewrite !u16_id by (done || lia). by rewrite Nat2Z.id.
Qed.

Lemma length_rr_hdr_bytes type ttl k : length (rr_hdr_bytes type ttl k) = sizeof_rr_hdr_t.
Proof. done. Qed.

(** The header of the message is not fixed before the end. *)
Definition headed (b : list byte) : list byte -> Prop := fun m => exists h, length h = sizeof_dns_hdr_t /\ m = h ++ b.

(** A record has been appended. *)
Record added (a : ans) (es : list entry) (r : rec) (a' : ans) (es' : list entry) : Prop := {
  ad_body : exists bs, a_body a' = a_body a ++ bs /\
    forall h, length h = sizeof_dns_hdr_t -> exists r', same_rec r r' /\ rec_at (h ++ a_body a ++ bs) (sz a) (length bs) r';
  ad_base : base a' (headed (a_body a')) es';
  ad_es : es `prefix_of` es';
  ad_sva : a_sva a' = a_sva a;
  ad_ar : a_ar a' = a_ar a;
  ad_env : a_env a' = a_env a;
  ad_names : one_of (r_type r) raw_types = false -> forall A, Dname A ∈ r_parts r -> known es' (sz a') A;
}.

(** A record of the additional section has been taken back. *)
Record withdrawn (a : ans) (es : list entry) (a' : ans) : Prop := {
  wd_quiet : quiet a a';
  wd_body : a_body a' = a_body a;
  wd_base : base a' (headed (a_body a')) es;
}.

(** Ten bytes are left for the header of a record. *)
Definition hole (S : list byte -> Prop) : list byte -> Prop :=
  fun m => exists m0 x, S m0 /\ length x = sizeof_rr_hdr_t /\ m = m0 ++ x.

(** The owner name and the space for the header. *)
Lemma add_rr_front a es A (d : list byte) R Q (k : ans -> AM unit) : base a (headed (a_body a)) es -> valid_name A -> P (a_env a) ->
  (forall nbuf a3 a4 es1, quiet a a4 -> a_body a3 = a_body a ++ nbuf -> a_body a4 = a_body a3 ++ buffer sizeof_rr_hdr_t ->
     base a4 (hole (ext (headed (a_body a)) nbuf)) es1 -> es `prefix_of` es1 ->
     dnsmsghdroffset + sz a4 + length d <= a_alloc a4 -> (known es (sz a) A -> covers (a_cb a4) es) ->
     (forall m, headed (a_body a) m -> exists ls, fold A = fold ls /\ name_at (m ++ nbuf) (sz a) (length nbuf) ls) ->
     apost (k a3) a4 Q R) ->
  apost (nbuf ← compress (wire A);
         reserve (dnsmsghdroffset + sz a + length nbuf + sizeof_rr_hdr_t + length d);;
         put nbuf;; a3 ← read_ans; put (buffer sizeof_rr_hdr_t);; k a3) a Q R.
Proof.
  intros B HA HP Hk. apply apost_bind. rewrite <- (app_nil_r (wire A)).
  eapply apost_mono; [by apply (compress_post a (headed (a_body a)) es A [])| |done].
  intros nbuf a1 (es1 & Q1 & B1 & A1 & C1 & E1 & V1 & L1 & _ & K1 & T1). apply apost_bind.
  eapply apost_mono; [apply reserve_post; by rewrite (q_env _ _ Q1)| |done].
  intros [] a2 (Q2 & B2 & C2 & Hn & Ha). rewrite B1 in B2. cbn beta.
  apply apost_bind, apost_read, apost_bind, apost_must; [apply Nat.leb_le; unfold sz in *; rewrite B2; lia|].
  apply apost_update. apply apost_read. apply apost_bind, apost_read, apost_bind, apost_must.
  { apply Nat.leb_le. unfold sz in *. cbn [a_body a_alloc]. rewrite B2, length_app, length_buffer. lia. }
  apply apost_update. eapply (Hk nbuf _ _ es1); cbn [a_body a_cb a_alloc].
  - transitivity a2; [by transitivity a1|by constructor].
  - by rewrite B2.
  - done.
  - constructor; cbn [a_alloc a_cb]; [unfold sz in *; cbn [a_body]; rewrite B2, !length_app, length_buffer; lia|by rewrite C2|done|].
    intros m (m0 & x & (m1 & Hm1 & ->) & Hx & ->). pose proof (b_tab _ _ _ B m1 Hm1) as [Hl _]. split.
    + unfold sz in *. cbn [a_body]. rewrite B2, !length_app, length_buffer, Hl, Hx. lia.
    + apply table_ok_app. by apply T1.
  - done.
  - unfold sz in *. cbn [a_body]. rewrite B2, !length_app, length_buffer. lia.
  - rewrite C2. exact K1.
  - intros m Hm. by apply T1.
Qed.

Lemma write_rr_post a es A type ttl ps sec udp R : base a (headed (a_body a)) es -> valid_name A -> shaped type ps -> P (a_env a) ->
  (0 <= type < 2 ^ 16)%Z -> (zlen (data ps) < 2 ^ 16)%Z ->
  (sec = S_ADDITIONAL -> (forall A, Dname A ∉ ps) /\ known es (sz a) A) ->
  apost (add_rr (wire A) type ttl (data ps) sec udp) a (fun _ a' =>
    (sec = S_ADDITIONAL /\ withdrawn a es a') \/
    (exists es', added a es (Rec A type C_IN (u32 ttl) ps) a' es' /\ a_hdr a' = count_in sec (a_hdr a) /\
       too_long udp (sz a') sec = false)) R.
Proof.
  intros B HA Hsh HP Ht Hd Hsec. unfold add_rr. apply apost_read.
  eapply (add_rr_front a es A (data ps)); [done..|].
  intros nbuf a3 a4 es1 Q4 B3 B4 H4 E4 Hcap K4 N4. apply apost_bind.
  eapply apost_mono; [eapply (put_rdata_post a4 _ es1); [exact H4|done|by rewrite (q_env _ _ Q4)|lia]| |done].
  intros n a5 (es5 & bs & -> & W5 & Hcb & Hk5). apply apost_read.
  pose proof (w_quiet _ _ _ _ _ _ _ W5) as Q5. pose proof (w_body _ _ _ _ _ _ _ W5) as B5. rewrite B4, B3 in B5.
  pose proof (wrote_sz _ _ _ _ _ _ _ W5) as S5. pose proof (w_base _ _ _ _ _ _ _ W5) as I5.
  destruct (too_long udp (sz a5) sec) eqn:El.
  - assert (sec = S_ADDITIONAL) as -> by (unfold too_long in El; destruct udp, sec; done).
    destruct (Hsec eq_refl) as (Hno & Hkn). apply apost_update. left. split; [done|]. rewrite B5, <- !app_assoc, take_app_length.
    constructor; [destruct Q4, Q5; constructor; cbn; congruence|done|].
    pose proof (b_alloc _ _ _ B). pose proof (b_alloc _ _ _ I5).
    constructor; cbn [a_body a_cb a_alloc]; [unfold sz in *; cbn [a_body]; rewrite B5, !length_app in *; lia| |apply B|].
    + rewrite Hcb by done. by apply K4.
    + intros m Hm. by apply (b_tab _ _ _ B).
  - rewrite B3. set (hb := rr_hdr_bytes type ttl (length bs)).
    assert (Hbody : take (length (a_body a ++ nbuf)) (a_body a5) ++ hb ++ drop (length (a_body a ++ nbuf) + sizeof_rr_hdr_t) (a_body a5)
      = a_body a ++ nbuf ++ hb ++ bs).
    { rewrite B5, <- !app_assoc, (app_assoc (a_body a)). rewrite take_app_length, drop_app_add.
      rewrite (drop_app_length' (buffer _)), <- app_assoc by done. done. }
    apply apost_bind, apost_update, apost_update. cbn [a_body a_hdr]. rewrite Hbody.
    pose proof (w_len _ _ _ _ _ _ _ W5) as Hlen. right. exists es5.
    assert (Hsz : sz a5 = sizeof_dns_hdr_t + length (a_body a ++ nbuf ++ hb ++ bs))
      by (unfold sz; rewrite B5, !length_app, length_buffer; unfold hb; rewrite length_rr_hdr_bytes; lia).
    assert (Hmem : forall h, length h = sizeof_dns_hdr_t -> hole (ext (headed (a_body a)) nbuf) (h ++ a_body a ++ nbuf ++ hb)).
    { intros h Hh. exists (h ++ a_body a ++ nbuf), hb. split_and!; [|done|by rewrite <- !app_assoc].
      exists (h ++ a_body a). split; [by exists h|by rewrite <- app_assoc]. }
    split; [|split; [destruct Q4, Q5; congruence|by unfold sz; cbn [a_body]; rewrite <- Hsz]]. constructor; cbn [a_sva a_ar a_env].
    + exists (nbuf ++ hb ++ bs). cbn [a_body]. split; [done|]. intros h Hh.
      destruct (N4 (h ++ a_body a)) as (ls & Hf & Hn); [by exists h|].
      destruct (w_parts _ _ _ _ _ _ _ W5 _ (Hmem h Hh)) as (ps' & Hps & Hpa).
      exists (Rec ls type C_IN (u32 ttl) ps'). split; [by constructor|].
      exists (length nbuf), (length bs). cbn [r_name r_type r_class r_ttl r_parts]. split_and!.
      * apply (name_at_app _ (hb ++ bs)) in Hn. by rewrite <- !app_assoc in Hn.
      * rewrite !app_assoc, <- (app_assoc _ hb). apply get_rr_hdr_put; [|done|unfold zlen in Hd; lia].
        unfold sz. rewrite !length_app, Hh. lia.
      * rewrite <- !app_assoc in Hpa. unfold sz in *. rewrite B4, B3, !length_app, length_buffer in Hpa.
        by replace (sizeof_dns_hdr_t + length (a_body a) + length nbuf + sizeof_rr_hdr_t)
          with (sizeof_dns_hdr_t + (length (a_body a) + length nbuf + sizeof_rr_hdr_t)) by lia.
      * unfold hb. rewrite !length_app, length_rr_hdr_bytes. lia.
    + constructor; cbn [a_body a_cb a_alloc]; [unfold sz; cbn [a_body]; rewrite <- Hsz; apply I5|apply I5|apply I5|].
      intros m (h & Hh & ->). destruct (b_tab _ _ _ I5 (h ++ a_body a ++ nbuf ++ hb ++ bs)) as [Hl Htab].
      { exists (h ++ a_body a ++ nbuf ++ hb). split; [by apply Hmem|by rewrite <- !app_assoc]. }
      split; [|done]. unfold sz. cbn [a_body]. by rewrite length_app, Hh.
    + etrans; [exact E4|apply W5].
    + destruct Q4, Q5; congruence.
    + destruct Q4, Q5; congruence.
    + destruct Q4, Q5; congruence.
    + cbn [r_type r_parts]. intros Hr A' HA'. unfold sz. cbn [a_body]. rewrite <- Hsz. by apply Hk5.
Qed.

End Inv.
