(* ===== verification/PdnsdAnswerMem.v ===== *)
(** * Answers when there is memory

    [compose_answer] of [PdnsdAnswer] returns no answer only if memory ran out:
    every function that builds the answer, on any arguments, does not fail as
    long as each request for memory is granted. The only other failures, for types
    of queries that cannot be answered, are excluded by the check of the
    questions that precedes the composition. *)

From S2P Require Import Prelude.
From S2P Require Import PdnsdNames.
From S2P Require Import PdnsdCompress.
From S2P Require Import PdnsdNameStr.
From S2P Require Import PdnsdCent.
From S2P Require Import PdnsdCache.
From S2P Require Import PdnsdDisk.
From S2P Require Import PdnsdRecords.
From S2P Require Import PdnsdAnswer.

Open Scope nat_scope.

Lemma rhnlen_loop_bounds fuel : forall rhn i n, rhnlen_loop fuel rhn i = Some n -> i < n /\ i < length rhn.
Proof.
  induction fuel as [|fuel IH]; intros rhn i n Hn; [done|]. cbn [rhnlen_loop] in Hn.
  destruct (rhn !! i) as [b|] eqn:Eb; [|done]. apply lookup_lt_Some in Eb. cbn in Hn.
  case_match; [injection Hn as <-; lia|]. apply IH in Hn. lia.
Qed.

Lemma compress_name_nonzero name offs cb rl out cb' : compress_name true name offs cb = Some (rl, out, cb') -> rl <> 0.
Proof.
  unfold compress_name. destruct (rhnlen name) as [n|] eqn:En; cbn [mbind option_bind]; [|done].
  apply rhnlen_loop_bounds in En as [H1 H2]. destruct (DNSNAMEBUFSIZE <? n); [done|].
  destruct (find_longest _ _ _ _ _) as [[[longest lrem] coffs]|]; cbn [mbind option_bind]; [|done].
  destruct (0 <? longest); [destruct (n <? lrem + 2); cbn [mbind option_bind]; [done|]|]; cbn [mbind option_bind]; [destruct (negb _)|]; intros [= <- <- <-];
    rewrite ?length_app, ?length_take; cbn; lia.
Qed.

Section Mem.

Context {E : Type} `{Resolver E}.

Notation ans := (ans E).
Notation AM := (AM E).

(** The program does not fail if there is memory. *)
Definition certain {X} (m : AM X) : Prop := forall a r a', a_mallocs a = [] -> m a = Some (r, a') -> a_mallocs a' = [] /\ r <> inl Null.

Lemma certain_ret {X} (x : X) : certain (mret x).
Proof. by intros a r a' Ha [= <- <-]. Qed.

Lemma certain_early {X} : certain (leave Early : AM X).
Proof. by intros a r a' Ha [= <- <-]. Qed.

Lemma certain_undefined {X} : certain (undefined : AM X).
Proof. by intros a r a' Ha. Qed.

Lemma certain_must b : certain (must b).
Proof. destruct b; [apply certain_ret|apply certain_undefined]. Qed.

Lemma certain_defined {X} (o : option X) : certain (defined o).
Proof. destruct o; [apply certain_ret|apply certain_undefined]. Qed.

Lemma certain_bind {X Y} (m : AM X) (k : X -> AM Y) : certain m -> (forall x, certain (k x)) -> certain (m ≫= k).
Proof.
  intros Hm Hk a r a' Ha. unfold mbind, AM_bind. destruct (m a) as [[[e|x] a1]|] eqn:Em; [..|done].
  - intros [= <- <-]. destruct (Hm _ _ _ Ha Em) as [H1 H2]. split; [done|]. intros [= ->]. done.
  - destruct (Hm _ _ _ Ha Em) as [H1 _]. by apply Hk.
Qed.

Lemma certain_read : certain read_ans.
Proof. by intros a r a' Ha [= <- <-]. Qed.

Lemma certain_update f : (forall a, a_mallocs (f a) = a_mallocs a) -> certain (update f).
Proof. intros Hf a r a' Ha [= <- <-]. by rewrite Hf. Qed.

Lemma certain_ask {X} (f : E -> option (X * E)) : certain (ask f).
Proof. intros a r a' Ha. unfold ask. destruct (f (a_env a)) as [[x e]|]; [|done]. by intros [= <- <-]. Qed.

Lemma certain_random : certain random.
Proof. intros a r a' Ha. unfold random. by destruct (a_randoms a); intros [= <- <-]. Qed.

(** Requests for memory are granted. *)
Lemma certain_malloc {Y} (k : bool -> AM Y) : certain (k true) -> certain (malloc ≫= k).
Proof. intros Hk a r a' Ha. unfold mbind, AM_bind, malloc. rewrite Ha. by apply Hk. Qed.

End Mem.

Create HintDb certain.
#[export] Hint Resolve certain_ret certain_early certain_undefined certain_must certain_defined certain_read certain_ask certain_random : certain.

(** Goes through a program; [Hint]s are the programs it calls. *)
Ltac certainly := repeat first
  [ solve [auto with certain nocore]
  | apply certain_update; done
  | apply certain_malloc; cbn [negb]
  | apply certain_bind; [|intros ?]
  | match goal with |- certain (match ?x with _ => _ end) => destruct x end ].

Section Functions.

Context {E : Type} `{Resolver E}.

Notation AM := (AM E).

Lemma certain_reserve n : certain (reserve n : AM unit).
Proof. unfold reserve, set_alloc. certainly. Qed.
Hint Resolve certain_reserve : certain.

Lemma certain_put bs : certain (put bs : AM unit).
Proof. unfold put, set_body. certainly. Qed.
Hint Resolve certain_put : certain.

Lemma certain_compress name : certain (compress name : AM (list byte)).
Proof.
  unfold compress, set_cb. apply certain_bind; [certainly|]. intros a0. apply certain_malloc.
  intros a r a' Ha. unfold mbind, AM_bind. destruct (compress_name true name (sz a0) (a_cb a0)) as [[[rl out] cb]|] eqn:Ec; [|done].
  cbn. apply compress_name_nonzero in Ec. rewrite (proj2 (Nat.eqb_neq rl 0)) by done. by intros [= <- <-].
Qed.
Hint Resolve certain_compress : certain.

Lemma certain_put_name name : certain (put_name name : AM nat).
Proof. unfold put_name. certainly. Qed.
Hint Resolve certain_put_name : certain.

Lemma certain_len_of name : certain (len_of name : AM nat).
Proof. unfold len_of. certainly. Qed.
Hint Resolve certain_len_of : certain.

Lemma certain_naptr_skip d j : forall i, certain (naptr_skip d j i : AM nat).
Proof. induction j as [|j IH]; intros i; cbn [naptr_skip]; certainly. Qed.
Hint Resolve certain_naptr_skip : certain.

Lemma certain_put_rdata type d : certain (put_rdata type d : AM nat).
Proof. unfold put_rdata. certainly. Qed.
Hint Resolve certain_put_rdata : certain.

Lemma certain_add_rr rrn type ttl d sec udp : certain (add_rr rrn type ttl d sec udp : AM unit).
Proof. unfold add_rr, set_body, set_hdr. certainly. Qed.
Hint Resolve certain_add_rr : certain.

Lemma certain_sva_add rhn tp d : certain (sva_add rhn tp d : AM unit).
Proof. unfold sva_add, set_sva. certainly. Qed.
Hint Resolve certain_sva_add : certain.

Lemma certain_add_ar tp tnm nm ttl : certain (add_ar tp tnm nm ttl : AM unit).
Proof. unfold add_ar, set_ar. certainly. Qed.
Hint Resolve certain_add_ar : certain.

Lemma certain_add_record udp rrn tp ttl d : certain (add_record udp rrn tp ttl d : AM unit).
Proof. unfold add_record. certainly. Qed.
Hint Resolve certain_add_record : certain.

Lemma certain_visit_order rnd ds : certain (visit_order rnd ds : AM (list (list byte))).
Proof. unfold visit_order. certainly. Qed.
Hint Resolve certain_visit_order : certain.

Lemma certain_add_rrs udp rrn tp ttl ds : certain (add_rrs udp rrn tp ttl ds : AM unit).
Proof. induction ds; cbn [add_rrs]; certainly. Qed.
Hint Resolve certain_add_rrs : certain.

Lemma certain_add_rrset rnd qts udp rrn tp c : certain (add_rrset rnd qts udp rrn tp c : AM unit).
Proof. unfold add_rrset. certainly. Qed.
Hint Resolve certain_add_rrset : certain.

Lemma certain_add_rrsets rnd qts udp rrn tps c : certain (add_rrsets rnd qts udp rrn tps c : AM unit).
Proof. induction tps; cbn [add_rrsets]; certainly. Qed.
Hint Resolve certain_add_rrsets : certain.

(** The types [add_to_response] handles. *)
Definition handled (qtype : Z) : Prop := is_type qtype = true \/ one_of qtype [QT_MAILB; QT_MAILA; QT_ALL] = true.

Lemma certain_add_to_response rnd qts udp rrn qtype c : handled qtype -> certain (add_to_response rnd qts udp rrn qtype c : AM unit).
Proof.
  intros Hq. unfold add_to_response. apply certain_bind; [certainly|intros _].
  assert ((qtype =? QT_AXFR)%Z || (qtype =? QT_IXFR)%Z = false) as ->.
  { unfold handled, is_type, one_of, QT_MAILB, QT_MAILA, QT_ALL, QT_AXFR, QT_IXFR, T_MIN, T_MAX in *. cbn in Hq. lia. }
  unfold handled, one_of in Hq. cbn in Hq. destruct (qtype =? QT_MAILB)%Z; [certainly|]. destruct (qtype =? QT_MAILA)%Z; [certainly|].
  destruct (qtype =? QT_ALL)%Z; [certainly|]. destruct Hq as [->|]; [certainly|done].
Qed.

Lemma unsupported_handled qe : unsupported qe = false -> handled (q_type qe).
Proof.
  unfold unsupported, handled, PDNSD_NOT_CACHED_TYPE, rr_index, is_type. intros [Hu _]%orb_false_iff. cbn zeta in Hu.
  destruct (one_of _ _); [by right|]. rewrite andb_true_r in Hu. left.
  destruct ((0 <=? q_type qe - T_MIN)%Z && (q_type qe - T_MIN <? T_NUM)%Z) eqn:Er; [|done].
  unfold T_MIN, T_NUM, T_MAX in *. lia.
Qed.

Lemma certain_add_additional_rr udp rhn tp ttl d sec : certain (add_additional_rr udp rhn tp ttl d sec : AM unit).
Proof. unfold add_additional_rr. certainly. Qed.
Hint Resolve certain_add_additional_rr : certain.

Lemma certain_add_additionals udp rhn tp ttl ds : certain (add_additionals udp rhn tp ttl ds : AM unit).
Proof. induction ds; cbn [add_additionals]; certainly. Qed.
Hint Resolve certain_add_additionals : certain.

Lemma certain_add_additional_set rnd qts udp rhn tp c : certain (add_additional_set rnd qts udp rhn tp c : AM unit).
Proof. unfold add_additional_set, add_additional_rrs. certainly. Qed.
Hint Resolve certain_add_additional_set : certain.

Lemma certain_add_additional_a rnd qts udp rhn : certain (add_additional_a rnd qts udp rhn : AM unit).
Proof. unfold add_additional_a. certainly. Qed.
Hint Resolve certain_add_additional_a : certain.

Lemma certain_add_questions ql : certain (add_questions ql : AM unit).
Proof. induction ql; cbn [add_questions]; unfold add_question, set_hdr; certainly. Qed.
Hint Resolve certain_add_questions : certain.

Lemma certain_add_opt us edns rcode : certain (add_opt us edns rcode : AM unit).
Proof. unfold add_opt, add_opt_pseudo_rr, set_hdr. certainly. Qed.
Hint Resolve certain_add_opt : certain.

Lemma certain_add_soas udp name ttl ds : certain (add_soas udp name ttl ds : AM unit).
Proof. induction ds; cbn [add_soas]; certainly. Qed.
Hint Resolve certain_add_soas : certain.

Lemma certain_name_error us qts udp edns qname csoa : certain (name_error us qts udp edns qname csoa : AM unit).
Proof. unfold name_error. certainly. Qed.
Hint Resolve certain_name_error : certain.

Lemma certain_follow c : certain (follow_cname_chain c : AM (option (list byte))).
Proof. unfold follow_cname_chain. certainly. Qed.
Hint Resolve certain_follow : certain.

Lemma certain_authority_for c tp : certain (authority_for c tp : AM _).
Proof. unfold authority_for. certainly. Qed.
Hint Resolve certain_authority_for : certain.

Lemma certain_add_ars tp ds nm ttl : certain (add_ars tp ds nm ttl : AM unit).
Proof. induction ds; cbn [add_ars]; certainly. Qed.
Hint Resolve certain_add_ars : certain.

Lemma certain_answer_turn rnd us qts udp edns next rd qtype qname aa : handled qtype -> (forall nm b, certain (next nm b)) ->
  certain (answer_turn rnd us qts udp edns next rd qtype qname aa : AM bool).
Proof.
  intros Hq Hn. pose proof (fun c => certain_add_to_response rnd qts udp qname qtype c Hq). unfold answer_turn, set_hdr. certainly.
Qed.

Lemma certain_answer_loop rnd us qts udp edns rd qtype hops : handled qtype -> forall qname aa,
  certain (answer_loop rnd us qts udp edns hops rd qtype qname aa : AM bool).
Proof.
  intros Hq. induction hops as [|hops IH]; intros qname aa; cbn [answer_loop]; (apply certain_answer_turn; [done|]); [certainly|done].
Qed.

Lemma certain_add_answers rnd us qts udp edns rd ql : existsb unsupported ql = false -> forall aa,
  certain (add_answers rnd us qts udp edns rd ql aa : AM bool).
Proof.
  induction ql as [|qe ql IH]; intros Hu aa; cbn [add_answers]; [certainly|]. cbn in Hu. apply orb_false_iff in Hu as [Hq Hu].
  pose proof (IH Hu). pose proof (certain_answer_loop rnd us qts udp edns rd (q_type qe) MAX_HOPS (unsupported_handled qe Hq)). certainly.
Qed.

Lemma certain_add_authority udp l : certain (add_authority udp l : AM unit).
Proof. induction l; cbn [add_authority]; certainly. Qed.
Hint Resolve certain_add_authority : certain.

Lemma certain_add_addresses rnd qts udp l : certain (add_addresses rnd qts udp l : AM unit).
Proof. induction l; cbn [add_addresses]; certainly. Qed.
Hint Resolve certain_add_addresses : certain.

Lemma certain_compose_body rnd us qts udp edns rd ql : certain (compose_body rnd us qts udp edns rd ql : AM unit).
Proof.
  unfold compose_body, set_hdr. apply certain_bind; [certainly|intros _].
  destruct (existsb unsupported ql) eqn:Eu; [certainly|]. pose proof (certain_add_answers rnd us qts udp edns rd ql Eu). certainly.
Qed.

(** There is an answer if there is memory. *)
Lemma compose_answer_some rnd us qts udp edns ql id rd r (e : E) o m e' :
  compose_answer rnd us qts udp edns ql id rd [] r e = Some (o, m, e') -> exists x, o = Some x.
Proof.
  unfold compose_answer. set (a0 := Ans _ _ _ _ _ _ _ _ _).
  destruct (compose_body rnd us qts udp edns _ ql a0) as [[x a]|] eqn:Ec; [|done]. cbn.
  apply certain_compose_body in Ec as [_ Hx]; [|done]. destruct x as [[]|]; [done|..]; intros [= <- _ _]; by eexists.
Qed.

End Functions.
