(* ===== verification/PdnsdAnswerRun.v ===== *)
(** * Answers as a whole

    [compose_answer] of [PdnsdAnswer]: for any resolver that returns well-formed
    entries, the answer consists of the questions and three sections of records
    whose numbers are in the header, and every record of it comes from an entry
    the resolver or the cache returned for its name. The lists [sva] and [ar] are
    kept correct on the way, in particular the names in [ar] are names that have
    been written into the answer before their addresses are added. *)

From S2P Require Import Prelude.
From S2P Require Import PdnsdNames.
From S2P Require Import PdnsdCompress.
From S2P Require Import PdnsdNameStr.
From S2P Require Import PdnsdHash.
From S2P Require Import PdnsdCent.
From S2P Require Import PdnsdCache.
From S2P Require Import PdnsdCacheOps.
From S2P Require Import PdnsdDisk.
From S2P Require Import PdnsdRecords.
From S2P Require Import PdnsdAnswer.
From S2P Require Import PdnsdAnswerInv.
From S2P Require Import PdnsdAnswerMem.

Open Scope nat_scope.

(** ** Sequences in a message *)

Inductive seq_at {X} (one : nat -> nat -> X -> Prop) : nat -> nat -> list X -> Prop :=
  | seq_nil p : seq_at one p p []
  | seq_cons p n q x xs : one p n x -> seq_at one (p + n) q xs -> seq_at one p q (x :: xs).

Lemma seq_at_snoc {X} (one : nat -> nat -> X -> Prop) p q n xs x :
  seq_at one p q xs -> one q n x -> seq_at one p (q + n) (xs ++ [x]).
Proof.
  induction 1 as [p|p m q y xs Hy _ IH]; intros Hx; [by eapply seq_cons; [done|constructor]|].
  cbn [app]. eapply seq_cons; [done|auto].
Qed.

Lemma seq_at_mono {X} (one one' : nat -> nat -> X -> Prop) p q xs : (forall p n x, one p n x -> one' p n x) ->
  seq_at one p q xs -> seq_at one' p q xs.
Proof. intros Hm. induction 1; [constructor|]. eapply seq_cons; eauto. Qed.

(** A record of the message that is the given one up to letter case. *)
Definition rec_like (msg : list byte) (p n : nat) (r : rec) : Prop := exists r', same_rec r r' /\ rec_at msg p n r'.

Record question := Quest { qn_name : list (list byte); qn_type : Z; qn_class : Z }.

Definition question_like (msg : list byte) (p n : nat) (q : question) : Prop := exists m ls,
  fold (qn_name q) = fold ls /\ name_at msg p m ls /\ GETINT16 msg (p + m) = Some (qn_type q) /\
  GETINT16 msg (p + m + 2) = Some (qn_class q) /\ n = m + 4.

Lemma GETINT16_app msg x p z : GETINT16 msg p = Some z -> GETINT16 (msg ++ x) p = Some z.
Proof.
  unfold GETINT16. destruct (msg !! p) as [a|] eqn:Ea; [|done]. destruct (msg !! S p) as [b|] eqn:Eb; [|done].
  by rewrite (lookup_app_l_Some _ _ _ _ Ea), (lookup_app_l_Some _ _ _ _ Eb).
Qed.

Lemma GETINT32_app msg x p z : GETINT32 msg p = Some z -> GETINT32 (msg ++ x) p = Some z.
Proof.
  unfold GETINT32. destruct (msg !! p) as [a|] eqn:Ea; [|done]. destruct (msg !! S p) as [b|] eqn:Eb; [|done].
  destruct (msg !! S (S p)) as [c|] eqn:Ec; [|done]. destruct (msg !! S (S (S p))) as [d|] eqn:Ed; [|done].
  by rewrite (lookup_app_l_Some _ _ _ _ Ea), (lookup_app_l_Some _ _ _ _ Eb), (lookup_app_l_Some _ _ _ _ Ec), (lookup_app_l_Some _ _ _ _ Ed).
Qed.

Lemma get_rr_hdr_app msg x p h : get_rr_hdr msg p = Some h -> get_rr_hdr (msg ++ x) p = Some h.
Proof.
  unfold get_rr_hdr. destruct (GETINT16 msg p) as [t|] eqn:E1; [|done]. destruct (GETINT16 msg (p + 2)) as [c|] eqn:E2; [|done].
  destruct (GETINT32 msg (p + 4)) as [l|] eqn:E3; [|done]. destruct (GETINT16 msg (p + 8)) as [k|] eqn:E4; [|done].
  by rewrite (GETINT16_app _ _ _ _ E1), (GETINT16_app _ _ _ _ E2), (GETINT32_app _ _ _ _ E3), (GETINT16_app _ _ _ _ E4).
Qed.

Lemma rec_like_app msg x p n r : rec_like msg p n r -> rec_like (msg ++ x) p n r.
Proof.
  intros (r' & Hs & m & k & Hn & Hh & Hp & ->). exists r'. split; [done|]. exists m, k.
  split_and!; [by apply name_at_app|by apply get_rr_hdr_app|by apply parts_at_ext|done].
Qed.

Lemma question_like_app msg x p n q : question_like msg p n q -> question_like (msg ++ x) p n q.
Proof.
  intros (m & ls & Hf & Hn & H1 & H2 & ->). exists m, ls. split_and!; [done|by apply name_at_app|by apply GETINT16_app..|done].
Qed.

(** ** The contents of an answer *)

Record content := Content { c_qs : list question; c_an : list rec; c_nsec : list rec; c_ar : list rec }.

Record laid_out (msg : list byte) (c : content) : Prop := {
  lo_at : exists p1 p2 p3, seq_at (question_like msg) sizeof_dns_hdr_t p1 (c_qs c) /\ seq_at (rec_like msg) p1 p2 (c_an c) /\
    seq_at (rec_like msg) p2 p3 (c_nsec c) /\ seq_at (rec_like msg) p3 (length msg) (c_ar c);
}.

Definition push (sec : section) (r : rec) (c : content) : content :=
  match sec with
  | S_ANSWER => Content (c_qs c) (c_an c ++ [r]) (c_nsec c) (c_ar c)
  | S_AUTHORITY => Content (c_qs c) (c_an c) (c_nsec c ++ [r]) (c_ar c)
  | S_ADDITIONAL => Content (c_qs c) (c_an c) (c_nsec c) (c_ar c ++ [r])
  end.

(** The sections behind it are empty. *)
Definition last_section (sec : section) (c : content) : Prop :=
  match sec with S_ANSWER => c_nsec c = [] /\ c_ar c = [] | S_AUTHORITY => c_ar c = [] | S_ADDITIONAL => True end.

Lemma seq_at_inv_nil {X} (one : nat -> nat -> X -> Prop) p q : seq_at one p q [] -> p = q.
Proof. by inversion 1. Qed.

Lemma laid_out_push msg bs sec r c : laid_out msg c -> last_section sec c ->
  rec_like (msg ++ bs) (length msg) (length bs) r -> laid_out (msg ++ bs) (push sec r c).
Proof.
  intros [(p1 & p2 & p3 & H1 & H2 & H3 & H4)] Hlast Hr.
  pose proof (fun p n q => question_like_app msg bs p n q) as Eq. pose proof (fun p n q => rec_like_app msg bs p n q) as Er.
  apply (seq_at_mono _ _ _ _ _ Eq) in H1. apply (seq_at_mono _ _ _ _ _ Er) in H2, H3, H4. constructor. rewrite length_app.
  destruct sec; cbn in *.
  - destruct Hlast as [E1 E2]. rewrite E1, E2 in *. apply seq_at_inv_nil in H3 as <-, H4 as ->.
    exists p1, (length msg + length bs), (length msg + length bs). split_and!; [done|by apply seq_at_snoc|constructor..].
  - rewrite Hlast in *. apply seq_at_inv_nil in H4 as ->.
    exists p1, p2, (length msg + length bs). split_and!; [done|done|by apply seq_at_snoc|constructor].
  - exists p1, p2, p3. split_and!; [done..|by apply seq_at_snoc].
Qed.

(** The counters of the header. *)
Record counted (h : dns_hdr_t) (c : content) : Prop := {
  n_qd : h_qdcount h = u16 (zlen (c_qs c));
  n_an : h_ancount h = u16 (zlen (c_an c));
  n_ns : h_nscount h = u16 (zlen (c_nsec c));
  n_ar : h_arcount h = u16 (zlen (c_ar c));
}.

Lemma u16_succ z : u16 (u16 z + 1) = u16 (z + 1).
Proof. unfold u16. by rewrite Z.add_mod_idemp_l by lia. Qed.

Lemma zlen_snoc {X} (l : list X) x : zlen (l ++ [x]) = (zlen l + 1)%Z.
Proof. rewrite zlen_app. done. Qed.

Lemma counted_push h c sec r : counted h c -> counted (count_in sec h) (push sec r c).
Proof.
  intros [H1 H2 H3 H4]. destruct sec; constructor; cbn; rewrite ?H1, ?H2, ?H3, ?H4, ?zlen_snoc, ?u16_succ; done.
Qed.

(** ** Entries that can be served *)

Record servable (c : dns_cent_t) : Prop := {
  se_name : exists A, valid_name A /\ PdnsdCent.qname c = wire A;
  se_data : forall tp r d, getrrset c tp = Some r -> d ∈ rrs r -> rr_ok tp d /\ (zlen d < 2 ^ 16)%Z;
}.

(** What [compose_answer] relies on: the functions return, the state of the cache
    stays good, the names they are asked for have entries [V] and [W] allow, and the
    entries are well-formed. *)
Class ResolverOk (E : Type) `{Resolver E} (P : E -> Prop) (V W : list (list byte) -> dns_cent_t -> Prop) : Prop := {
  resolve_ok : forall A qtype t e, valid_name A -> P e -> exists r e', dns_cached_resolve (wire A) qtype t e = Some (r, e') /\ P e' /\
    match r with Found c => V A c /\ servable c | NotFound rc _ => rc <> RC.OK end;
  lookup_ok : forall A e, valid_name A -> P e -> exists o e', lookup_copy (wire A) e = Some (o, e') /\ P e' /\
    forall c, o = Some c -> W A c /\ servable c;
  owner_ok : forall A tp e, valid_name A -> P e -> exists o e', find_localowner (wire A) tp e = Some (o, e') /\ P e' /\
    forall nm, o = Some nm -> exists B, valid_name B /\ nm = wire B;
}.

Lemma wire_inj A : Forall valid_label A -> forall B, Forall valid_label B -> wire A = wire B -> A = B.
Proof.
  assert (Hz : forall l : list byte, valid_label l -> n2b (length l) <> x00).
  { intros l Hl E. apply (f_equal b2n) in E. unfold valid_label in Hl. rewrite b2n_n2b in E by lia. change (b2n x00) with 0 in E. lia. }
  induction 1 as [|l A Hl HA IH]; intros [|l' B] HB E; [done|..]; try apply Forall_cons in HB as [Hl' HB].
  - rewrite wire_cons in E. injection E as E _. by destruct (Hz l' Hl').
  - rewrite wire_cons in E. injection E as E _. by destruct (Hz l Hl).
  - rewrite !wire_cons in E. injection E as E1 E2. apply (f_equal b2n) in E1. unfold valid_label in Hl, Hl'.
    rewrite !b2n_n2b in E1 by lia. apply app_inj_1 in E2 as [-> E2]; [|done]. f_equal. by apply IH.
Qed.

Lemma getrrset_type c tp r : getrrset c tp = Some r -> (1 <= tp <= 51)%Z.
Proof.
  unfold getrrset, rr_index. destruct (negative c); [done|]. cbn zeta.
  destruct ((0 <=? tp - T_MIN)%Z && (tp - T_MIN <? T_NUM)%Z) eqn:Er; [|done].
  apply andb_true_iff in Er as [E1%Z.leb_le E2%Z.ltb_lt]. unfold T_MIN, T_NUM in *. lia.
Qed.

Section Run.

Context {E : Type} `{ResolverOk E P V W} (queryts : Z) (qs : list question).

Notation ans := (ans E).

(** ** Where records come from *)

(** The names asked for and the names they are aliases of. *)
Inductive alias : list (list byte) -> Prop :=
  | alias_question q : q ∈ qs -> alias (qn_name q)
  | alias_cname A c r B ds : alias A -> V A c -> getrrset c T_CNAME = Some r -> rrs r = wire B :: ds -> valid_name B -> alias B.

(** The record is one of the entry's. *)
Definition of_entry (c : dns_cent_t) (tp ttl : Z) (d : list byte) : Prop :=
  exists set, getrrset c tp = Some set /\ d ∈ rrs set /\ ttl = u32 (ans_ttl set queryts).

Definition answer_rec (r : rec) : Prop := alias (r_name r) /\ r_class r = C_IN /\ shaped (r_type r) (r_parts r) /\
  exists c, V (r_name r) c /\ of_entry c (r_type r) (r_ttl r) (data (r_parts r)).

Definition authority_rec (r : rec) : Prop := (r_type r = T_NS \/ r_type r = T_SOA) /\ r_class r = C_IN /\
  shaped (r_type r) (r_parts r) /\
  exists A c, (V A c \/ W A c) /\ PdnsdCent.qname c = wire (r_name r) /\ of_entry c (r_type r) (r_ttl r) (data (r_parts r)).

Definition address_rec (r : rec) : Prop := (r_type r = T_A \/ r_type r = T_AAAA) /\ r_class r = C_IN /\
  shaped (r_type r) (r_parts r) /\
  exists c, W (r_name r) c /\ of_entry c (r_type r) (r_ttl r) (data (r_parts r)).

(** The OPT record has no owner and no data. *)
Definition opt_rec (r : rec) : Prop := r_name r = [] /\ r_type r = T_OPT /\ r_parts r = [].

Definition sec_rec (sec : section) (r : rec) : Prop :=
  match sec with S_ANSWER => answer_rec r | S_AUTHORITY => authority_rec r | S_ADDITIONAL => opt_rec r \/ address_rec r end.

(** ** The lists *)

(** A name server in [sva] is in the answer, so its name is known. *)
Definition sva_ok (es : list entry) (n : nat) (st : sva_t) : Prop :=
  (exists A, valid_name A /\ sv_nm st = wire A) /\
  (sv_tp st = T_NS -> forall B, valid_name B -> sv_data st = wire B -> known es n B).

(** An item of [ar] is a record for the authority section or a known name. *)
Definition ar_ok (es : list entry) (n : nat) (re : rr_ext_t) : Prop :=
  (re_tp re = RRETP_ADD /\ exists B, valid_name B /\ re_tnm re = wire B /\ known es n B) \/
  (exists B ps A c, valid_name B /\ re_nm re = wire B /\ shaped (re_tp re) ps /\ re_tnm re = data ps /\ (zlen (data ps) < 2 ^ 16)%Z /\
     (re_tp re = T_NS \/ re_tp re = T_SOA) /\ (V A c \/ W A c) /\ PdnsdCent.qname c = wire B /\
     of_entry c (re_tp re) (u32 (re_ttl re)) (re_tnm re)).

Lemma sva_ok_mono es es' n n' st : es `prefix_of` es' -> n <= n' -> sva_ok es n st -> sva_ok es' n' st.
Proof. intros He Hn [HA HB]. split; [done|]. intros Ht B HB' Hd. eapply known_mono; eauto. Qed.

Lemma ar_ok_mono es es' n n' re : es `prefix_of` es' -> n <= n' -> ar_ok es n re -> ar_ok es' n' re.
Proof.
  intros He Hn [(Ht & B & HB & Hd & Hk)|Ha]; [left|by right]. split; [done|]. exists B. split_and!; [done..|by eapply known_mono].
Qed.

(** ** The state *)

(** The fields of the header that stay as they are. *)
Record hdr_fixed (h h' : dns_hdr_t) : Prop := {
  f_id : h_id h' = h_id h; f_rd : h_rd h' = h_rd h; f_tc : h_tc h' = h_tc h; f_opcode : h_opcode h' = h_opcode h;
  f_qr : h_qr h' = h_qr h; f_cd : h_cd h' = h_cd h; f_ad : h_ad h' = h_ad h; f_z : h_z h' = h_z h; f_ra : h_ra h' = h_ra h;
}.

#[global] Instance hdr_fixed_refl : Reflexive hdr_fixed.
Proof. by constructor. Qed.

#[global] Instance hdr_fixed_trans : Transitive hdr_fixed.
Proof. intros x y z [] []. constructor; congruence. Qed.

Record inv (a : ans) (es : list entry) (c : content) : Prop := {
  i_base : base a (headed (a_body a)) es;
  i_out : forall h, length h = sizeof_dns_hdr_t -> laid_out (h ++ a_body a) c;
  i_count : counted (a_hdr a) c;
  i_an : Forall answer_rec (c_an c);
  i_ns : Forall authority_rec (c_nsec c);
  i_ad : Forall (fun r => opt_rec r \/ address_rec r) (c_ar c);
  i_sva : Forall (sva_ok es (sz a)) (a_sva a);
  i_ar : Forall (ar_ok es (sz a)) (a_ar a);
  i_env : P (a_env a);
}.

(** From one state to a later one. *)
Record step (a : ans) (es : list entry) (c : content) (a' : ans) (es' : list entry) (c' : content) : Prop := {
  st_inv : inv a' es' c';
  st_es : es `prefix_of` es';
  st_sz : sz a <= sz a';
  st_hdr : hdr_fixed (a_hdr a) (a_hdr a');
  st_rcode : h_rcode (a_hdr a') = h_rcode (a_hdr a);
  st_aa : h_aa (a_hdr a') = h_aa (a_hdr a);
  st_qs : c_qs c' = c_qs c;
  st_an : c_an c `prefix_of` c_an c';
  st_ns : c_nsec c `prefix_of` c_nsec c';
  st_ar : c_ar c `prefix_of` c_ar c';
}.

Lemma step_refl a es c : inv a es c -> step a es c a es c.
Proof. intros I. by constructor. Qed.

Lemma step_trans a es c a1 es1 c1 a2 es2 c2 : step a es c a1 es1 c1 -> step a1 es1 c1 a2 es2 c2 -> step a es c a2 es2 c2.
Proof. intros [] []. constructor; first [done|by etrans|lia|congruence]. Qed.

(** Changes that touch neither the message nor the list of names. *)
Lemma inv_keep a a' es c : inv a es c -> a_body a' = a_body a -> a_alloc a' = a_alloc a -> a_cb a' = a_cb a ->
  counted (a_hdr a') c -> Forall (sva_ok es (sz a)) (a_sva a') -> Forall (ar_ok es (sz a)) (a_ar a') -> P (a_env a') -> inv a' es c.
Proof.
  intros I Hb Ha Hc Hh Hs Hr He. assert (Hz : sz a' = sz a) by (unfold sz; by rewrite Hb).
  constructor; rewrite ?Hz; try done; try apply I.
  - rewrite Hb. destruct (i_base _ _ _ I) as [B1 B2 B3 B4]. constructor; [by rewrite Ha, Hz|by rewrite Hc|done|by rewrite Hz].
  - rewrite Hb. apply I.
Qed.

Lemma added_inv a es c r a' es' sec : inv a es c -> last_section sec c -> sec_rec sec r -> added a es r a' es' ->
  a_hdr a' = count_in sec (a_hdr a) -> step a es c a' es' (push sec r c).
Proof.
  intros I Hlast Hr Ad Hh. destruct (ad_body _ _ _ _ _ Ad) as (bs & Hb & Hrec).
  assert (Hz : sz a' = sz a + length bs) by (unfold sz; rewrite Hb, length_app; lia).
  pose proof (ad_es _ _ _ _ _ Ad) as He.
  assert (Hsva : forall st, sva_ok es (sz a) st -> sva_ok es' (sz a') st) by (intros st; apply sva_ok_mono; [done|lia]).
  assert (Har : forall re, ar_ok es (sz a) re -> ar_ok es' (sz a') re) by (intros re; apply ar_ok_mono; [done|lia]).
  constructor; [|done|lia| | | | | | |].
  - constructor.
    + apply Ad.
    + intros h Hhl. rewrite Hb, app_assoc. apply laid_out_push; [by apply I|done|].
      destruct (Hrec h Hhl) as (r' & Hs & Hat). exists r'. split; [done|]. rewrite <- app_assoc.
      replace (length (h ++ a_body a)) with (sz a) by (rewrite length_app, Hhl; done). done.
    + rewrite Hh. by apply counted_push, I.
    + destruct sec; cbn; try apply I. apply Forall_app. split; [apply I|by constructor].
    + destruct sec; cbn; try apply I. apply Forall_app. split; [apply I|by constructor].
    + destruct sec; cbn; try apply I. apply Forall_app. split; [apply I|by constructor].
    + rewrite (ad_sva _ _ _ _ _ Ad). eapply Forall_impl; [apply I|exact Hsva].
    + rewrite (ad_ar _ _ _ _ _ Ad). eapply Forall_impl; [apply I|exact Har].
    + rewrite (ad_env _ _ _ _ _ Ad). apply I.
  - rewrite Hh. by destruct sec.
  - rewrite Hh. by destruct sec.
  - rewrite Hh. by destruct sec.
  - by destruct sec.
  - destruct sec; cbn; [by exists [r]|done..].
  - destruct sec; cbn; [done|by exists [r]|done].
  - destruct sec; cbn; [done|done|by exists [r]].
Qed.

Lemma withdrawn_inv a es c a' : inv a es c -> withdrawn a es a' -> step a es c a' es c.
Proof.
  intros I [Q B W']. assert (Hz : sz a' = sz a) by (unfold sz; by rewrite B).
  constructor; rewrite ?(q_hdr _ _ Q); try done; [|lia].
  constructor; rewrite ?Hz, ?(q_hdr _ _ Q), ?(q_sva _ _ Q), ?(q_ar _ _ Q), ?(q_env _ _ Q); try done; try apply I.
  rewrite B. apply I.
Qed.

(** Writing a record keeps the invariant, whatever becomes of the record. *)
Lemma add_rr_inv a es c A type ttl ps sec udp R : inv a es c -> last_section sec c -> valid_name A -> shaped type ps ->
  (0 <= type < 2 ^ 16)%Z -> (zlen (data ps) < 2 ^ 16)%Z -> sec_rec sec (Rec A type C_IN (u32 ttl) ps) ->
  (sec = S_ADDITIONAL -> (forall A, Dname A ∉ ps) /\ known es (sz a) A) ->
  apost P (add_rr (wire A) type ttl (data ps) sec udp) a (fun _ a' => exists es' c', step a es c a' es' c' /\
    a_sva a' = a_sva a /\ a_ar a' = a_ar a /\
    ((sec = S_ADDITIONAL /\ c' = c /\ sz a' = sz a) \/ (c' = push sec (Rec A type C_IN (u32 ttl) ps) c /\ too_long udp (sz a') sec = false /\
      (one_of type raw_types = false -> forall A, Dname A ∈ ps -> known es' (sz a') A)))) R.
Proof.
  intros I Hlast HA Hsh Ht Hd Hrec Hsec. eapply apost_mono; [eapply write_rr_post; eauto; apply I| |done].
  intros [] a' [(-> & Wd)|(es' & Ad & Hh & Hl)].
  - exists es, c. split; [by apply withdrawn_inv|]. pose proof (wd_quiet _ _ _ Wd) as []. split_and!; [done..|].
    left. split_and!; [done|done|]. unfold sz. by rewrite (wd_body _ _ _ Wd).
  - exists es', (push sec (Rec A type C_IN (u32 ttl) ps) c). split; [by apply added_inv|].
    split; [apply Ad|]. split; [apply Ad|]. right. split_and!; [done..|]. apply (ad_names _ _ _ _ _ Ad).
Qed.

(** ** The lists grow *)

Lemma take_short (d : list byte) : (zlen d < 2 ^ 16)%Z -> take (Z.to_nat (u16 (zlen d))) d = d.
Proof. intros Hd. rewrite u16_id by (pose proof (zlen_nonneg d); lia). apply take_ge. unfold zlen. lia. Qed.

Lemma sva_add_inv a es c A tp d R : inv a es c -> valid_name A -> (zlen d < 2 ^ 16)%Z ->
  (tp = T_NS -> forall B, valid_name B -> d = wire B -> known es (sz a) B) ->
  apost P (sva_add (wire A) tp d) a (fun _ a' => step a es c a' es c /\ a_ar a' = a_ar a /\ sz a' = sz a) R.
Proof.
  intros I HA Hd Hk. rewrite <- (app_nil_r (wire A)). eapply (step_len P _ A []); [done|done|].
  apply apost_bind, apost_malloc. intros [] m; cbn [negb]; [|apply apost_bind, apost_update, apost_null, I].
  apply apost_read, apost_update. split; [|done]. constructor; cbn [a_hdr]; try done.
  eapply inv_keep; [exact I|done|done|done|apply I| |apply I|apply I]. cbn [a_sva].
  apply Forall_app. split; [apply I|]. constructor; [|done]. rewrite app_nil_r, take_ge, take_short by done. split; [by exists A|done].
Qed.

Lemma add_ar_inv a es c tp tnm nm ttl R : inv a es c -> (zlen tnm < 2 ^ 16)%Z ->
  (tp = RRETP_ADD -> exists B, valid_name B /\ tnm = wire B /\ known es (sz a) B) ->
  (tp <> RRETP_ADD -> exists A, valid_name A /\ nm = wire A /\ ar_ok es (sz a) (RRExt tp ttl tnm nm)) ->
  apost P (add_ar tp tnm nm ttl) a (fun _ a' => step a es c a' es c /\ a_sva a' = a_sva a /\ sz a' = sz a /\
    exists re, a_ar a' = a_ar a ++ [re]) R.
Proof.
  intros I Hd Hadd Hns. unfold add_ar. rewrite take_short by done. apply apost_bind.
  apply (apost_mono P _ _ (fun nm' a' => a' = a /\ ar_ok es (sz a) (RRExt tp ttl tnm nm')) _ R); [| |done].
  - destruct (decide (tp = RRETP_ADD)) as [->|Hn].
    + apply apost_ret. split; [done|]. left. split; [done|]. by apply Hadd.
    + destruct (Hns Hn) as (A & HA & -> & Hok).
      assert ((tp =? T_NS)%Z || (tp =? T_SOA)%Z = true) as ->.
      { destruct Hok as [[? _]|(? & ? & ? & ? & _ & _ & _ & _ & _ & Ht & _)]; [done|]. cbn in Ht. destruct Ht as [->| ->]; done. }
      rewrite <- (app_nil_r (wire A)). eapply (step_len P _ A []); [done|done|]. apply apost_ret. split; [done|].
      by rewrite app_nil_r, take_ge by done.
  - intros nm' a' [-> Hok]. apply apost_bind, apost_malloc.
    intros [] m; cbn [negb]; [|apply apost_bind, apost_update, apost_null, I].
    apply apost_read, apost_update. split; [|split; [done|split; [done|by eexists]]]. constructor; cbn [a_hdr]; try done.
    eapply inv_keep; [exact I|done|done|done|apply I|apply I| |apply I]. cbn [a_ar].
    apply Forall_app. split; [apply I|by constructor].
Qed.

(** ** Record sets of the answer section *)

Lemma ns_shape ps : shaped T_NS ps -> exists B, valid_name B /\ ps = [Dname B].
Proof.
  intros ((L & HL & HF) & _). apply list_elem_of_singleton in HL as ->.
  inversion HF as [| | | |B ? ? HB HF'|]; subst. inversion HF'; subst. by exists B.
Qed.

Lemma ar_offs_shape tp o ps : shaped tp ps -> ar_offs tp = Some o ->
  one_of tp raw_types = false /\ o <= length (data ps) /\
  exists B, valid_name B /\ Dname B ∈ ps /\ drop o (data ps) = wire B.
Proof.
  intros ((L & HL & HF) & _). unfold ar_offs.
  destruct (one_of tp [T_NS; T_MD; T_MF; T_MB]) eqn:E1.
  { intros [= <-]. apply one_of_in in E1. assert (layouts tp = [[Dom]] /\ one_of tp raw_types = false) as [El Er].
    { repeat (apply elem_of_cons in E1 as [->|E1]; [done|]). by apply elem_of_nil in E1. }
    rewrite El in HL. dissect. split; [done|]. split; [lia|]. exists A. split_and!; [done|by left|]. unfold data. cbn. by rewrite app_nil_r. }
  destruct (Z.eqb_spec tp T_MX) as [->|_].
  { intros [= <-]. change (layouts T_MX) with [[Fixed 2; Dom]] in HL. dissect. split; [done|].
    unfold data. cbn [map concat part_bytes]. rewrite app_nil_r, length_app. split; [lia|]. exists A.
    split_and!; [done|right; by left|]. by rewrite drop_app_length'. }
  destruct (Z.eqb_spec tp T_SRV) as [->|_]; [|done].
  intros [= <-]. change (layouts T_SRV) with [[Fixed 6; Dom]] in HL. dissect. split; [done|].
  unfold data. cbn [map concat part_bytes]. rewrite app_nil_r, length_app. split; [lia|]. exists A.
  split_and!; [done|right; by left|]. by rewrite drop_app_length'.
Qed.

(** The records of a set are in the answer section. *)
Definition has_records (A : list (list byte)) (tp : Z) (ds : list (list byte)) (an : list rec) : Prop :=
  forall d, d ∈ ds -> exists r, r ∈ an /\ r_name r = A /\ r_type r = tp /\ data (r_parts r) = d.

Lemma has_records_mono A tp ds an an' : has_records A tp ds an -> an `prefix_of` an' -> has_records A tp ds an'.
Proof. intros Hr [k ->] d Hd. destruct (Hr d Hd) as (r & Hin & Hx). exists r. split; [|done]. apply elem_of_app. by left. Qed.

Section Entry.

Context (udp : option Z) (A : list (list byte)) (cent : dns_cent_t).
Context (Hal : alias A) (HA : valid_name A) (HV : V A cent) (Hse : servable cent).

Lemma add_record_inv a es c tp set d R : inv a es c -> last_section S_ANSWER c -> getrrset cent tp = Some set -> d ∈ rrs set ->
  apost P (add_record udp (wire A) tp (ans_ttl set queryts) d) a
    (fun _ a' => exists es' c', step a es c a' es' c' /\ last_section S_ANSWER c' /\
       exists r, c_an c' = c_an c ++ [r] /\ r_name r = A /\ r_type r = tp /\ data (r_parts r) = d) R.
Proof.
  intros I Hlast Hset Hin. pose proof (getrrset_type _ _ _ Hset) as Htp.
  destruct (se_data _ Hse tp set d Hset Hin) as [(ps & Hsh & ->) Hlen]. apply apost_bind.
  eapply apost_mono; [eapply (add_rr_inv a es c A tp _ ps); try done; [lia|]| |done].
  { split; [done|]. split; [done|]. split; [done|]. exists cent. split; [done|]. by exists set. }
  intros [] a1 (es1 & c1 & S1 & Hsv & Har & [(? & _)|(-> & _ & Hkn)]); [done|].
  set (r := Rec A tp C_IN (u32 (ans_ttl set queryts)) ps) in *.
  assert (L1 : last_section S_ANSWER (push S_ANSWER r c)) by done. pose proof (st_inv _ _ _ _ _ _ S1) as I1.
  assert (Hfin : exists r0, c_an (push S_ANSWER r c) = c_an c ++ [r0] /\ r_name r0 = A /\ r_type r0 = tp /\ data (r_parts r0) = data ps)
    by (by exists r). apply apost_bind.
  apply (apost_mono P _ _ (fun _ a' => step a1 es1 (push S_ANSWER r c) a' es1 (push S_ANSWER r c) /\ sz a' = sz a1) _ R); [| |done].
  { destruct (one_of tp [T_NS; T_A; T_AAAA]); [|apply apost_ret; split; [by apply step_refl|done]].
    eapply apost_mono; [apply (sva_add_inv a1 es1 (push S_ANSWER r c) A); [done|done|done|]| |done]; [|by intros [] a2 (? & _ & ?)].
    intros -> B HB Hd. destruct (ns_shape _ Hsh) as (B' & HB' & ->). unfold data in Hd. cbn in Hd. rewrite app_nil_r in Hd.
    apply wire_inj in Hd as ->; [|apply HB'|apply HB]. apply Hkn; [done|by left]. }
  intros [] a2 (S2 & Hz2). pose proof (step_trans _ _ _ _ _ _ _ _ _ S1 S2) as S12.
  destruct (ar_offs tp) as [o|] eqn:Eo; [|by apply apost_ret; exists es1, (push S_ANSWER r c)].
  destruct (ar_offs_shape _ _ _ Hsh Eo) as (Hraw & Ho & B & HB & HinB & HdB).
  apply step_must; [by apply Nat.leb_le|].
  eapply apost_mono; [apply (add_ar_inv a2 es1 (push S_ANSWER r c)); [apply S2| | |done]| |done].
  - unfold zlen in *. rewrite length_drop. lia.
  - intros _. exists B. rewrite Hz2. split_and!; [done..|by apply Hkn].
  - intros [] a3 (S3 & _). exists es1, (push S_ANSWER r c). split; [by eapply step_trans|done].
Qed.

Lemma add_rrs_inv tp set R ds : forall a es c, inv a es c -> last_section S_ANSWER c -> getrrset cent tp = Some set ->
  (forall d, d ∈ ds -> d ∈ rrs set) ->
  apost P (add_rrs udp (wire A) tp (ans_ttl set queryts) ds) a
    (fun _ a' => exists es' c', step a es c a' es' c' /\ last_section S_ANSWER c' /\ has_records A tp ds (c_an c')) R.
Proof.
  induction ds as [|d ds IH]; intros a es c I Hlast Hset Hin; cbn [add_rrs].
  { apply apost_ret. exists es, c. split_and!; [by apply step_refl|apply Hlast..|]. by intros d ?%elem_of_nil. }
  apply apost_bind. eapply apost_mono; [eapply add_record_inv; [done..|by apply Hin; left]| |done].
  intros [] a1 (es1 & c1 & S1 & L1 & r & Hr & Hn & Ht & Hd).
  eapply apost_mono; [apply (IH a1 es1 c1); [apply S1|done|done|by intros; apply Hin; right]| |done].
  intros [] a2 (es2 & c2 & S2 & L2 & Hrs). exists es2, c2. split; [by eapply step_trans|]. split; [done|].
  intros d' [->|Hd']%elem_of_cons; [|by apply Hrs]. exists r. split; [|done].
  destruct (st_an _ _ _ _ _ _ S2) as [k ->]. rewrite Hr. apply elem_of_app. left. apply elem_of_app. right. by left.
Qed.

Lemma visit_order_post rnd ds a es c R : inv a es c ->
  apost P (visit_order rnd ds) a (fun ds' a' => step a es c a' es c /\
    a_ar a' = a_ar a /\ sz a' = sz a /\ Permutation ds' ds) R.
Proof.
  intros I. unfold visit_order. destruct rnd; [|by apply apost_ret; split_and!; [apply step_refl|..]].
  destruct ds as [|d ds]; [by apply apost_ret; split_and!; [apply step_refl|..]|]. apply apost_bind. unfold random.
  assert (Hp : forall k, Permutation (drop k (d :: ds) ++ take k (d :: ds)) (d :: ds))
    by (intros k; rewrite Permutation_app_comm, take_drop; done).
  unfold apost at 1. destruct (a_randoms a) as [|n rs].
  - exists (inr 0), a. split; [done|]. apply apost_ret. split_and!; [by apply step_refl|done..|apply Hp].
  - eexists (inr n), _. split; [done|]. apply apost_ret. split_and!; [|done..|apply Hp].
    constructor; cbn; try done. by eapply inv_keep; [exact I|..]; try apply I.
Qed.

Lemma add_rrset_inv rnd tp R a es c : inv a es c -> last_section S_ANSWER c ->
  apost P (add_rrset rnd queryts udp (wire A) tp cent) a
    (fun _ a' => exists es' c', step a es c a' es' c' /\ last_section S_ANSWER c' /\
       forall set, getrrset cent tp = Some set -> has_records A tp (rrs set) (c_an c')) R.
Proof.
  intros I Hlast. unfold add_rrset. destruct (getrrset cent tp) as [set|] eqn:Hset.
  2: { apply apost_ret. exists es, c. split_and!; [by apply step_refl|apply Hlast..|done]. }
  apply apost_bind. eapply apost_mono; [by apply (visit_order_post rnd (rrs set) a es c)| |done].
  intros ds a1 (S1 & _ & _ & Hp). eapply apost_mono; [apply (add_rrs_inv tp set _ ds a1 es c); [apply S1|done|done|]| |done].
  { intros d Hd. by rewrite <- Hp. }
  intros [] a2 (es2 & c2 & S2 & L2 & Hr). exists es2, c2. split; [by eapply step_trans|]. split; [done|].
  intros set' [= <-] d Hd. apply Hr. by rewrite Hp.
Qed.

Lemma add_rrsets_inv rnd R tps : forall a es c, inv a es c -> last_section S_ANSWER c ->
  apost P (add_rrsets rnd queryts udp (wire A) tps cent) a
    (fun _ a' => exists es' c', step a es c a' es' c' /\ last_section S_ANSWER c' /\
       forall tp set, tp ∈ tps -> getrrset cent tp = Some set -> has_records A tp (rrs set) (c_an c')) R.
Proof.
  induction tps as [|tp tps IH]; intros a es c I Hlast; cbn [add_rrsets].
  { apply apost_ret. exists es, c. split_and!; [by apply step_refl|apply Hlast..|by intros ? ? ?%elem_of_nil]. }
  apply apost_bind. eapply apost_mono; [by apply add_rrset_inv| |done]. intros [] a1 (es1 & c1 & S1 & L1 & H1).
  eapply apost_mono; [apply (IH a1 es1 c1); [apply S1|done]| |done]. intros [] a2 (es2 & c2 & S2 & L2 & H2).
  exists es2, c2. split; [by eapply step_trans|]. split; [done|].
  intros tp' set [->|Hin]%elem_of_cons Hset; [|by apply H2]. eapply has_records_mono; [by apply H1|apply S2].
Qed.

(** The types of the records that answer a query. *)
Definition answer_types (qtype : Z) : list Z :=
  (if no_alias_needed qtype cent then [] else [T_CNAME]) ++
  (if (qtype =? QT_MAILB)%Z then [T_MB; T_MG; T_MR]
   else if (qtype =? QT_MAILA)%Z then [T_MD; T_MF]
   else if (qtype =? QT_ALL)%Z then RRITERLIST cent
   else if is_type qtype then [qtype] else []).

Definition complete_for (qtype : Z) (an : list rec) : Prop :=
  forall tp set, tp ∈ answer_types qtype -> getrrset cent tp = Some set -> has_records A tp (rrs set) an.

Lemma add_to_response_inv rnd qtype R a es c : inv a es c -> last_section S_ANSWER c ->
  apost P (add_to_response rnd queryts udp (wire A) qtype cent) a
    (fun _ a' => exists es' c', step a es c a' es' c' /\ last_section S_ANSWER c' /\ complete_for qtype (c_an c')) R.
Proof.
  intros I Hlast. unfold add_to_response, complete_for, answer_types. apply apost_bind.
  apply (apost_mono P _ _ (fun _ a' => exists es' c', step a es c a' es' c' /\ last_section S_ANSWER c' /\
    forall tp set, tp ∈ (if no_alias_needed qtype cent then [] else [T_CNAME]) -> getrrset cent tp = Some set ->
      has_records A tp (rrs set) (c_an c')) _ R); [| |done].
  { destruct (no_alias_needed qtype cent).
    - apply apost_ret. exists es, c. split_and!; [by apply step_refl|apply Hlast..|by intros ? ? ?%elem_of_nil].
    - eapply apost_mono; [by apply add_rrset_inv| |done]. intros [] a1 (es1 & c1 & S1 & L1 & H1). exists es1, c1.
      split; [done|]. split; [done|]. intros tp set ->%list_elem_of_singleton. apply H1. }
  intros [] a1 (es1 & c1 & S1 & L1 & H1). pose proof (st_inv _ _ _ _ _ _ S1) as I1.
  assert (Hgo : forall tps, apost P (add_rrsets rnd queryts udp (wire A) tps cent) a1
    (fun _ a' => exists es' c', step a es c a' es' c' /\ last_section S_ANSWER c' /\ forall tp set,
       tp ∈ (if no_alias_needed qtype cent then [] else [T_CNAME]) ++ tps -> getrrset cent tp = Some set ->
       has_records A tp (rrs set) (c_an c')) R).
  { intros tps. eapply apost_mono; [by apply (add_rrsets_inv rnd R tps a1 es1 c1)| |done].
    intros [] a2 (es2 & c2 & S2 & L2 & H2). exists es2, c2. split; [by eapply step_trans|]. split; [done|].
    intros tp set [Hin|Hin]%elem_of_app Hset; [|by apply H2]. eapply has_records_mono; [by apply H1|apply S2]. }
  destruct ((qtype =? QT_AXFR)%Z || (qtype =? QT_IXFR)%Z); [apply apost_null, I1|].
  destruct (qtype =? QT_MAILB)%Z; [apply Hgo|]. destruct (qtype =? QT_MAILA)%Z; [apply Hgo|].
  destruct (qtype =? QT_ALL)%Z; [apply Hgo|]. destruct (is_type qtype); [|apply apost_null, I1].
  eapply apost_mono; [by apply add_rrset_inv| |done].
  intros [] a3 (es3 & c3 & S3 & L3 & H3). exists es3, c3. split; [by eapply step_trans|]. split; [done|].
  intros tp set [Hin|Hin]%elem_of_app Hset; [|apply list_elem_of_singleton in Hin as ->; by apply H3].
  eapply has_records_mono; [by apply H1|apply S3].
Qed.

End Entry.

(** ** Authority and addresses *)

Lemma already_spec es n A tp d l : Forall (sva_ok es n) l -> valid_name A ->
  exists b, already (wire A) tp d l = Some b /\ (b = true -> exists st, st ∈ l /\ sv_tp st = tp /\ sv_data st = d).
Proof.
  intros Hl HA. induction Hl as [|st l ((B & HB & Hn) & _) _ IH]; [by exists false|]. cbn [already].
  destruct IH as (b & Hb & Hs).
  assert (Hrec : exists b0, Some b = Some b0 /\ (b0 = true -> exists st', st' ∈ st :: l /\ sv_tp st' = tp /\ sv_data st' = d)).
  { exists b. split; [done|]. intros Ht. destruct (Hs Ht) as (st' & Hin & Hx). exists st'. split; [by right|done]. }
  destruct (Z.eqb_spec (sv_tp st) tp) as [Et|_]; [|by rewrite Hb].
  pose proof (rhnicmp_spec B A [] [] (proj1 HB) (proj1 HA)) as Hc. rewrite !app_nil_r in Hc. rewrite Hn, Hc. cbn [mbind option_bind].
  destruct (_ && _) eqn:Eb; [|by rewrite Hb]. apply andb_true_iff in Eb as [_ Ed%bool_decide_eq_true].
  exists true. split; [done|]. intros _. exists st. split; [by left|done].
Qed.

Lemma add_authority_rr_inv udp a es c re R : inv a es c -> last_section S_AUTHORITY c -> ar_ok es (sz a) re -> re_tp re <> RRETP_ADD ->
  apost P (add_additional_rr udp (re_nm re) (re_tp re) (re_ttl re) (re_tnm re) S_AUTHORITY) a
    (fun _ a' => exists es' c', step a es c a' es' c' /\ last_section S_AUTHORITY c' /\ a_ar a' = a_ar a /\
       (re_tp re = T_NS -> forall B, valid_name B -> re_tnm re = wire B -> known es' (sz a') B)) R.
Proof.
  intros I Hlast [(? & _)|(N & ps & A' & cent & HN & Hnm & Hsh & Htnm & Hlen & Htp & HVW & Hq & Hof)] Hne; [done|].
  apply apost_read, apost_bind. rewrite Hnm. destruct (already_spec es (sz a) N (re_tp re) (re_tnm re) (a_sva a)) as (b & Hb & Hs); [apply I|done|].
  eapply apost_defined; [exact Hb|]. destruct b.
  - apply apost_ret. exists es, c. split_and!; [by apply step_refl|done|done|]. intros Ht B HB Hw.
    destruct (Hs eq_refl) as (st & Hin & Hst & Hsd). pose proof (i_sva _ _ _ I) as Hall. rewrite Forall_forall in Hall.
    destruct (Hall st Hin) as (_ & Hk). apply Hk; [congruence|done|congruence].
  - apply apost_bind. rewrite Htnm in *. eapply apost_mono; [eapply (add_rr_inv a es c N (re_tp re)); try done| |done].
    + destruct Htp as [->| ->]; done.
    + split; [done|]. split; [done|]. split; [done|]. by exists A', cent.
    + intros [] a1 (es1 & c1 & S1 & Hsv & Har & [(? & _)|(-> & _ & Hkn)]); [done|].
      assert (Hk : re_tp re = T_NS -> forall B, valid_name B -> data ps = wire B -> known es1 (sz a1) B).
      { intros Et B HB Hw. rewrite Et in *. destruct (ns_shape _ Hsh) as (B' & HB' & ->). unfold data in Hw. cbn in Hw. rewrite app_nil_r in Hw.
        apply wire_inj in Hw as ->; [|apply HB'|apply HB]. apply Hkn; [done|by left]. }
      eapply apost_mono; [eapply (sva_add_inv a1 es1 _ N); [apply S1|done|done|done]| |done].
      intros [] a2 (S2 & Har2 & Hz2). eexists es1, _. split; [by eapply step_trans|]. split; [done|]. split; [congruence|].
      rewrite Hz2. done.
Qed.

Definition ns_known (es : list entry) (n : nat) (re : rr_ext_t) : Prop :=
  re_tp re = T_NS -> forall B, valid_name B -> re_tnm re = wire B -> known es n B.

Lemma add_authority_inv udp R l : forall a es c, inv a es c -> last_section S_AUTHORITY c -> Forall (ar_ok es (sz a)) l ->
  apost P (add_authority udp l) a (fun _ a' => exists es' c', step a es c a' es' c' /\ last_section S_AUTHORITY c' /\ a_ar a' = a_ar a /\
    Forall (ns_known es' (sz a')) l) R.
Proof.
  induction l as [|re l IH]; intros a es c I Hlast Hl; cbn [add_authority].
  { apply apost_ret. exists es, c. split_and!; [by apply step_refl|done|done|constructor]. }
  apply Forall_cons in Hl as [Hre Hl]. apply apost_bind.
  apply (apost_mono P _ _ (fun _ a' => exists es' c', step a es c a' es' c' /\ last_section S_AUTHORITY c' /\ a_ar a' = a_ar a /\
    ns_known es' (sz a') re) _ R); [| |done].
  { destruct (one_of (re_tp re) [T_NS; T_SOA]) eqn:Ht.
    - apply add_authority_rr_inv; [done..|]. intros Ez. by rewrite Ez in Ht.
    - apply apost_ret. exists es, c. split_and!; [by apply step_refl|done|done|]. intros Et. by rewrite Et in Ht. }
  intros [] a1 (es1 & c1 & S1 & L1 & Ha1 & K1).
  eapply apost_mono; [apply (IH a1 es1 c1); [apply S1|done|]| |done].
  { eapply Forall_impl; [exact Hl|]. intros re'. apply ar_ok_mono; apply S1. }
  intros [] a2 (es2 & c2 & S2 & L2 & Ha2 & K2). exists es2, c2. split; [by eapply step_trans|]. split; [done|]. split; [congruence|].
  constructor; [|done]. intros Et B HB Hw. eapply known_mono; [by apply K1|apply S2|apply S2].
Qed.

(** Addresses stay within the limit. *)
Definition within (udp : option Z) (a a' : ans) : Prop :=
  forall u, udp = Some u -> (Z.of_nat (sz a) <= u)%Z -> (Z.of_nat (sz a') <= u)%Z.

Lemma address_shape tp ps : tp = T_A \/ tp = T_AAAA -> shaped tp ps -> forall A, Dname A ∉ ps.
Proof.
  intros Htp ((L & HL & HF) & _) A. destruct Htp as [->| ->]; apply list_elem_of_singleton in HL as ->; dissect;
    by intros ?%list_elem_of_singleton.
Qed.

Section Addresses.

Context (udp : option Z) (A : list (list byte)) (cent : dns_cent_t).
Context (HA : valid_name A) (HW : W A cent) (Hse : servable cent).

Lemma add_address_inv a es c tp set d R : inv a es c -> known es (sz a) A -> tp = T_A \/ tp = T_AAAA ->
  getrrset cent tp = Some set -> d ∈ rrs set ->
  apost P (add_additional_rr udp (wire A) tp (ans_ttl set queryts) d S_ADDITIONAL) a
    (fun _ a' => exists es' c', step a es c a' es' c' /\ a_ar a' = a_ar a /\ within udp a a') R.
Proof.
  intros I Hk Htp Hset Hin. destruct (se_data _ Hse tp set d Hset Hin) as [(ps & Hsh & ->) Hlen].
  apply apost_read, apost_bind. destruct (already_spec es (sz a) A tp (data ps) (a_sva a)) as (b & Hb & _); [apply I|done|].
  eapply apost_defined; [exact Hb|]. destruct b.
  { apply apost_ret. exists es, c. split_and!; [by apply step_refl|done|by intros u]. }
  apply apost_bind. eapply apost_mono; [eapply (add_rr_inv a es c A tp _ ps S_ADDITIONAL udp); try done| |done].
  - destruct Htp as [->| ->]; done.
  - right. split; [done|]. split; [done|]. split; [done|]. exists cent. split; [done|]. by exists set.
  - intros _. split; [by eapply address_shape|done].
  - intros [] a1 (es1 & c1 & S1 & Hsv & Har & Hc). eapply apost_mono; [eapply (sva_add_inv a1 es1 c1 A); [apply S1|done|done|]| |done].
    { intros ->. by destruct Htp. }
    intros [] a2 (S2 & Har2 & Hz2). exists es1, c1. split; [by eapply step_trans|]. split; [congruence|].
    intros u -> Hu. rewrite Hz2. destruct Hc as [(_ & _ & ->)|(_ & Hl & _)]; [done|]. cbn in Hl. by apply Z.ltb_ge in Hl.
Qed.

Lemma add_addresses_of_inv tp set R ds : forall a es c, inv a es c -> known es (sz a) A -> tp = T_A \/ tp = T_AAAA ->
  getrrset cent tp = Some set -> (forall d, d ∈ ds -> d ∈ rrs set) ->
  apost P (add_additionals udp (wire A) tp (ans_ttl set queryts) ds) a
    (fun _ a' => exists es' c', step a es c a' es' c' /\ a_ar a' = a_ar a /\ within udp a a') R.
Proof.
  induction ds as [|d ds IH]; intros a es c I Hk Htp Hset Hin; cbn [add_additionals].
  { apply apost_ret. exists es, c. split_and!; [by apply step_refl|done|by intros u]. }
  apply apost_bind. eapply apost_mono; [eapply add_address_inv; [done..|by apply Hin; left]| |done].
  intros [] a1 (es1 & c1 & S1 & Ha1 & W1). eapply apost_mono; [apply (IH a1 es1 c1); [apply S1| |done|done|by intros; apply Hin; right]| |done].
  { eapply known_mono; [done|apply S1|apply S1]. }
  intros [] a2 (es2 & c2 & S2 & Ha2 & W2). exists es2, c2. split; [by eapply step_trans|]. split; [congruence|].
  intros u Eu Hu. apply W2; [done|]. by apply W1.
Qed.

Lemma add_address_set_inv rnd tp R a es c : inv a es c -> known es (sz a) A -> tp = T_A \/ tp = T_AAAA ->
  apost P (add_additional_set rnd queryts udp (wire A) tp cent) a
    (fun _ a' => exists es' c', step a es c a' es' c' /\ a_ar a' = a_ar a /\ within udp a a') R.
Proof.
  intros I Hk Htp. unfold add_additional_set. destruct (getrrset cent tp) as [set|] eqn:Hset.
  2: { apply apost_ret. exists es, c. split_and!; [by apply step_refl|done|by intros u]. }
  apply apost_bind. eapply apost_mono; [by apply (visit_order_post rnd (rrs set) a es c)| |done].
  intros ds a1 (S1 & Ha1 & Hz1 & Hp). eapply apost_mono; [apply (add_addresses_of_inv tp set _ ds a1 es c); [apply S1|by rewrite Hz1|done|done|]| |done].
  { intros d Hd. by rewrite <- Hp. }
  intros [] a2 (es2 & c2 & S2 & Ha2 & W2). exists es2, c2. split; [by eapply step_trans|]. split; [congruence|].
  intros u Eu Hu. apply W2; [done|]. by rewrite Hz1.
Qed.

End Addresses.

(** A call of the resolver or of the cache. *)
Lemma ask_post {X} (f : E -> option (X * E)) a es c (Q : X -> Prop) R : inv a es c ->
  (forall e, P e -> exists x e', f e = Some (x, e') /\ P e' /\ Q x) ->
  apost P (ask f) a (fun x a' => step a es c a' es c /\ a_ar a' = a_ar a /\ sz a' = sz a /\ Q x) R.
Proof.
  intros I Hf. destruct (Hf (a_env a)) as (x & e' & Hx & HP & HQ); [apply I|]. unfold ask, apost. rewrite Hx.
  eexists (inr x), _. split; [done|]. split; [|done]. constructor; cbn; try done.
  by eapply inv_keep; [exact I|..]; try apply I.
Qed.

Lemma add_additional_a_inv rnd udp A a es c R : inv a es c -> valid_name A -> known es (sz a) A ->
  apost P (add_additional_a rnd queryts udp (wire A)) a
    (fun _ a' => exists es' c', step a es c a' es' c' /\ a_ar a' = a_ar a /\ within udp a a') R.
Proof.
  intros I HA Hk. apply apost_bind.
  eapply apost_mono; [apply (ask_post _ a es c (fun o => forall cent, o = Some cent -> W A cent /\ servable cent)); [done|]| |done].
  { intros e He. by apply lookup_ok. }
  intros o a1 (S1 & Ha1 & Hz1 & Ho). destruct o as [cent|].
  2: { apply apost_ret. exists es, c. split_and!; [done|done|intros u _; by rewrite Hz1]. }
  destruct (Ho cent eq_refl) as [HW Hse]. apply apost_bind.
  eapply apost_mono; [apply (add_address_set_inv udp A cent HA HW Hse rnd T_A R a1 es c); [apply S1|by rewrite Hz1|by left]| |done].
  intros [] a2 (es2 & c2 & S2 & Ha2 & W2).
  eapply apost_mono; [apply (add_address_set_inv udp A cent HA HW Hse rnd T_AAAA R a2 es2 c2); [apply S2| |by right]| |done].
  { eapply known_mono; [exact Hk|apply S2|]. rewrite <- Hz1. apply S2. }
  intros [] a3 (es3 & c3 & S3 & Ha3 & W3). exists es3, c3. split; [eapply step_trans; [done|by eapply step_trans]|].
  split; [congruence|]. intros u Eu Hu. apply W3; [done|]. apply W2; [done|]. by rewrite Hz1.
Qed.

Lemma add_addresses_inv rnd udp R l : forall a es c, inv a es c -> Forall (ar_ok es (sz a)) l -> Forall (ns_known es (sz a)) l ->
  apost P (add_addresses rnd queryts udp l) a (fun _ a' => exists es' c', step a es c a' es' c' /\ within udp a a') R.
Proof.
  induction l as [|re l IH]; intros a es c I Hl Hn; cbn [add_addresses].
  { apply apost_ret. exists es, c. split; [by apply step_refl|by intros u]. }
  apply Forall_cons in Hl as [Hre Hl]. apply Forall_cons in Hn as [Hnre Hn]. apply apost_bind.
  apply (apost_mono P _ _ (fun _ a' => exists es' c', step a es c a' es' c' /\ within udp a a') _ R); [| |done].
  { destruct (one_of (re_tp re) [T_NS; RRETP_ADD]) eqn:Ht; [|apply apost_ret; exists es, c; split; [by apply step_refl|by intros u]].
    assert (exists B, valid_name B /\ re_tnm re = wire B /\ known es (sz a) B) as (B & HB & -> & Hk).
    { destruct Hre as [(_ & Hre)|(N & ps & A' & cent & HN & Hnm & Hsh & Htnm & _ & Htp & _)]; [done|].
      destruct Htp as [Et|Et]; [|by rewrite Et in Ht]. rewrite Et in Hsh. destruct (ns_shape _ Hsh) as (B & HB & ->).
      assert (Hw : re_tnm re = wire B) by (rewrite Htnm; unfold data; cbn; by rewrite app_nil_r).
      exists B. split_and!; [apply HB..|done|]. by apply Hnre. }
    eapply apost_mono; [by eapply add_additional_a_inv| |done]. intros [] a1 (es1 & c1 & S1 & _ & W1). by exists es1, c1. }
  intros [] a1 (es1 & c1 & S1 & W1). eapply apost_mono; [apply (IH a1 es1 c1); [apply S1|..]| |done].
  - eapply Forall_impl; [exact Hl|]. intros re'. apply ar_ok_mono; apply S1.
  - eapply Forall_impl; [exact Hn|]. intros re' Hk Et B HB Hw. eapply known_mono; [by apply Hk|apply S1|apply S1].
  - intros [] a2 (es2 & c2 & S2 & W2). exists es2, c2. split; [by eapply step_trans|]. intros u Eu Hu. apply W2; [done|]. by apply W1.
Qed.

(** ** The OPT record *)

Definition opt_ttl (rcode ver zf : Z) : Z :=
  Z.lor (Z.lor (Z.lor (Z.shiftl (b2z (z2b (Z.shiftr rcode 4))) 24) (Z.shiftl (b2z (z2b ver)) 16))
    (Z.shiftl (b2z (z2b (Z.shiftr (u16 zf) 8))) 8)) (b2z (z2b (u16 zf))).

Lemma opt_hdr pre post p us rcode ver zf : p = length pre ->
  get_rr_hdr (pre ++ opt_bytes us rcode ver zf ++ post) (p + 1) = Some (RRHdr T_OPT (u16 us) (opt_ttl rcode ver zf) 0).
Proof.
  intros Hp. set (M := pre ++ _).
  assert (H1 : GETINT16 M (p + 1) = Some (u16 T_OPT)).
  { unfold M, opt_bytes. rewrite <- !app_assoc, app_assoc. apply GETINT16_put. rewrite length_app. by subst p. }
  assert (H2 : GETINT16 M (p + 1 + 2) = Some (u16 us)).
  { unfold M, opt_bytes. rewrite <- !app_assoc, app_assoc, (app_assoc (pre ++ _)). apply GETINT16_put.
    rewrite !length_app, PUTINT16_length. subst p. cbn [length]. lia. }
  assert (H3 : GETINT32 M (p + 1 + 4) = Some (opt_ttl rcode ver zf)).
  { unfold GETINT32. replace (S (S (S (p + 1 + 4)))) with (p + 8) by lia. replace (S (S (p + 1 + 4))) with (p + 7) by lia.
    replace (S (p + 1 + 4)) with (p + 6) by lia. replace (p + 1 + 4) with (p + 5) by lia. unfold M. by rewrite !lookup_behind. }
  assert (H4 : GETINT16 M (p + 1 + 8) = Some 0%Z).
  { unfold GETINT16. replace (S (p + 1 + 8)) with (p + 10) by lia. replace (p + 1 + 8) with (p + 9) by lia. unfold M. by rewrite !lookup_behind. }
  unfold get_rr_hdr. by rewrite H1, H2, H3, H4.
Qed.

Lemma length_opt_bytes us rcode ver zf : length (opt_bytes us rcode ver zf) = sizeof_opt_pseudo_rr.
Proof. done. Qed.

Lemma root_name_at pre post : name_at (pre ++ x00 :: post) (length pre) 1 [].
Proof. exists 0. split_and!; [|lia|unfold DNSNAMEBUFSIZE; cbn; lia]. apply expands_root. by apply list_lookup_middle. Qed.

Lemma add_opt_inv us rcode ver zf a es c R : inv a es c ->
  apost P (add_opt_pseudo_rr us rcode ver zf) a (fun _ a' => exists c', step a es c a' es c' /\ a_ar a' = a_ar a /\
    sz a' = sz a + sizeof_opt_pseudo_rr) R.
Proof.
  intros I. apply apost_read, apost_bind. eapply apost_mono; [apply reserve_post, I| |done].
  intros [] a1 (Q1 & B1 & C1 & Hn & Ha). assert (Hz1 : sz a1 = sz a) by (unfold sz; by rewrite B1).
  assert (Hbase : base a1 (headed (a_body a)) es).
  { destruct (i_base _ _ _ I) as [X1 X2 X3 X4]. constructor; [lia|by rewrite C1|done|]. by rewrite Hz1. }
  apply apost_bind. eapply apost_mono; [apply (put_post P a1 (headed (a_body a)) es); [done|rewrite length_opt_bytes; lia]| |done].
  intros [] a2 (W2 & _). apply apost_update.
  pose proof (w_body _ _ _ _ _ _ _ W2) as B2. pose proof (wrote_sz _ _ _ _ _ _ _ W2) as Hz2. rewrite length_opt_bytes in Hz2.
  pose proof (w_quiet _ _ _ _ _ _ _ W2) as Q2. assert (Q : quiet a a2) by (by transitivity a1).
  set (r := Rec [] T_OPT (u16 us) (opt_ttl rcode ver zf) []). set (a3 := Ans _ _ _ _ _ _ _ _ _).
  assert (Hz3 : sz a3 = sz a + sizeof_opt_pseudo_rr) by (change (sz a3) with (sz a2); lia).
  exists (push S_ADDITIONAL r c). split; [|by split; [apply Q|]]. apply added_inv; [done|done|by left| |cbn; by rewrite (q_hdr _ _ Q)].
  constructor; [|..|done|apply Q|apply Q|apply Q|by intros _ ? ?%elem_of_nil].
  - exists (opt_bytes us rcode ver zf). change (a_body a3) with (a_body a2). rewrite B2, B1. split; [done|]. intros h Hh. exists r.
    split; [by constructor|]. exists 1, 0.
    assert (Hp : sz a = length (h ++ a_body a)) by (rewrite length_app, Hh; done). cbn [r_name r_type r_class r_ttl r_parts r].
    split_and!; [| |constructor|done].
    + rewrite app_assoc, Hp. apply root_name_at.
    + rewrite app_assoc. rewrite <- (app_nil_r (opt_bytes us rcode ver zf)). by apply opt_hdr.
  - change (a_body a3) with (a_body a2). pose proof (w_base _ _ _ _ _ _ _ W2) as [X1 X2 X3 X4].
    constructor; [change (dnsmsghdroffset + sz a2 <= a_alloc a2); done|done|done|].
    intros m (h & Hh & ->). rewrite B2, B1, app_assoc. change (sz a3) with (sz a2). apply X4. exists (h ++ a_body a). split; [by exists h|done].
Qed.

(** ** The question section *)

Record question_ok (qe : dns_queryel_t) (q : question) : Prop := {
  qo_name : valid_name (qn_name q);
  qo_query : q_query qe = wire (qn_name q);
  qo_type : q_type qe = qn_type q;
  qo_class : q_class qe = qn_class q;
  qo_trange : (0 <= qn_type q < 2 ^ 16)%Z;
  qo_crange : (0 <= qn_class q < 2 ^ 16)%Z;
}.

Definition only_questions (qs : list question) : content := Content qs [] [] [].

Lemma add_question_inv qe q a es qs1 R : inv a es (only_questions qs1) -> question_ok qe q -> a_sva a = [] -> a_ar a = [] ->
  apost P (add_question qe) a
    (fun _ a' => exists es', inv a' es' (only_questions (qs1 ++ [q])) /\ a_sva a' = [] /\ a_ar a' = [] /\
       hdr_fixed (a_hdr a) (a_hdr a') /\ h_rcode (a_hdr a') = h_rcode (a_hdr a) /\ h_aa (a_hdr a') = h_aa (a_hdr a)) R.
Proof.
  intros I [Hv Hq Ht Hc Htr Hcr] Hsva Har. unfold add_question. apply apost_read. rewrite Hq, Ht, Hc. rewrite <- (app_nil_r (wire (qn_name q))).
  eapply (step_len P _ (qn_name q) []); [done|done|]. apply apost_bind.
  eapply apost_mono; [apply reserve_post, I| |done]. intros [] a1 (Q1 & B1 & C1 & Hn & Ha).
  assert (Hz1 : sz a1 = sz a) by (unfold sz; by rewrite B1).
  assert (Hbase : base a1 (headed (a_body a)) es).
  { destruct (i_base _ _ _ I) as [X1 X2 X3 X4]. constructor; [lia|by rewrite C1|done|]. by rewrite Hz1. }
  eapply (step_name P _ a1 (headed (a_body a)) es [] a1 es [] (qn_name q)); [by apply wrote_nil|rewrite (q_env _ _ Q1); apply I|done|done|lia|].
  intros a2 es2 bs W2 Hs2 Ha2 Hl2 _ _. cbn [app] in W2. set (tail4 := PUTINT16 (qn_type q) ++ PUTINT16 (qn_class q)).
  eapply (step_put P _ a1 (headed (a_body a)) es _ a2 es2 bs); [exact W2|change (length tail4) with 4; lia|].
  intros a3 W3 Hs3 Ha3. change (length tail4) with 4 in Hs3. apply apost_update.
  pose proof (w_body _ _ _ _ _ _ _ W3) as B3. rewrite B1 in B3. pose proof (w_base _ _ _ _ _ _ _ W3) as X.
  assert (Q : quiet a a3) by (transitivity a1; [done|apply W3]). set (a4 := Ans _ _ _ _ _ _ _ _ _).
  exists es2. split; [|split_and!; [by cbn; rewrite (q_sva _ _ Q)|by cbn; rewrite (q_ar _ _ Q)|by cbn; rewrite (q_hdr _ _ Q)..]].
  constructor; try (by constructor).
  - change (a_body a4) with (a_body a3). destruct X as [X1 X2 X3 X4]. constructor; [done..|].
    intros m (h & Hh & ->). change (sz a4) with (sz a3). apply X4. exists (h ++ a_body a). split; [by exists h|]. by rewrite B3, app_assoc.
  - intros h Hh. change (a_body a4) with (a_body a3). rewrite B3. constructor.
    destruct (i_out _ _ _ I h Hh) as [(p1 & p2 & p3 & H1 & H2 & H3 & H4)].
    cbn [c_qs c_an c_nsec c_ar only_questions] in *.
    apply seq_at_inv_nil in H2 as ->. apply seq_at_inv_nil in H3 as ->. apply seq_at_inv_nil in H4 as ->.
    exists (length (h ++ a_body a ++ bs ++ tail4)), (length (h ++ a_body a ++ bs ++ tail4)), (length (h ++ a_body a ++ bs ++ tail4)).
    split_and!; [|constructor..]. rewrite (app_assoc h), length_app. apply seq_at_snoc.
    + eapply seq_at_mono; [|exact H1]. intros p n x. apply question_like_app.
    + destruct (w_parts _ _ _ _ _ _ _ W2 (h ++ a_body a)) as (ps' & Hps & Hpa); [by exists h|].
      inversion Hps as [|x y xs ys Hxy Hrest]; subst. inversion Hrest; subst. destruct y as [|ls]; [done|]. cbn in Hxy.
      inversion Hpa as [| |? m n' ? ? Hna Hp']; subst. inversion Hp'; subst. rewrite Nat.add_0_r in *. subst.
      assert (Hp : sz a1 = length (h ++ a_body a)) by (rewrite Hz1, length_app, Hh; done). rewrite Hp in *.
      exists (length bs), ls. split_and!; [done| | | |by rewrite length_app].
      * rewrite app_assoc. by apply name_at_app.
      * unfold tail4. rewrite app_assoc. rewrite GETINT16_put by (rewrite !length_app; lia). by rewrite u16_id by lia.
      * unfold tail4. rewrite !app_assoc, <- (app_nil_r (_ ++ PUTINT16 (qn_class q))), <- app_assoc.
        rewrite GETINT16_put by (rewrite !length_app, PUTINT16_length; lia). by rewrite u16_id by lia.
  - destruct (i_count _ _ _ I) as [N1 N2 N3 N4]. constructor; cbn; rewrite (q_hdr _ _ Q), ?N1, ?N2, ?N3, ?N4; try done.
    cbn. rewrite zlen_snoc. apply u16_succ.
  - cbn. by rewrite (q_sva _ _ Q), Hsva.
  - cbn. by rewrite (q_ar _ _ Q), Har.
  - cbn. rewrite (q_env _ _ Q). apply I.
Qed.

Lemma add_questions_inv R ql qs2 : Forall2 question_ok ql qs2 -> forall a es qs1, inv a es (only_questions qs1) -> a_sva a = [] -> a_ar a = [] ->
  apost P (add_questions ql) a
    (fun _ a' => exists es', inv a' es' (only_questions (qs1 ++ qs2)) /\ hdr_fixed (a_hdr a) (a_hdr a') /\
       h_rcode (a_hdr a') = h_rcode (a_hdr a) /\ h_aa (a_hdr a') = h_aa (a_hdr a)) R.
Proof.
  induction 1 as [|qe q ql qs2 Hq _ IH]; intros a es qs1 I Hs Ha; cbn [add_questions].
  { apply apost_ret. exists es. by rewrite app_nil_r. }
  apply apost_bind. eapply apost_mono; [by eapply add_question_inv| |done].
  intros [] a1 (es1 & I1 & Hs1 & Ha1 & F1 & R1 & A1). eapply apost_mono; [by eapply IH| |done].
  intros [] a2 (es2 & I2 & F2 & R2 & A2). exists es2. rewrite <- app_assoc in I2. split_and!; [done|by etrans|congruence..].
Qed.

(** ** Names that do not exist *)

Lemma set_rcode_inv rc a es c : inv a es c ->
  inv (Ans (with_rcode rc (a_hdr a)) (a_body a) (a_alloc a) (a_cb a) (a_sva a) (a_ar a) (a_mallocs a) (a_randoms a) (a_env a)) es c.
Proof. intros I. eapply inv_keep; [exact I|try done; try apply I..]. destruct (i_count _ _ _ I). by constructor. Qed.

Lemma valid_drop k A : valid_name A -> valid_name (drop k A).
Proof.
  intros [HA Hl]. split; [by apply Forall_drop|]. rewrite <- (take_drop k A) in Hl. rewrite !length_wire in *.
  rewrite enc_labels_app, length_app in Hl. lia.
Qed.

Lemma positive_some o r : positive o = Some r -> o = Some r.
Proof. destruct o as [r'|]; [|done]. cbn. by case_match. Qed.

Section Authority.

Context (udp : option Z) (A : list (list byte)) (cent : dns_cent_t) (set : rr_set_t).
Context (HW : W A cent) (Hse : servable cent) (Hset : getrrset cent T_SOA = Some set).

Lemma add_soas_inv R ds : forall a es c, inv a es c -> last_section S_AUTHORITY c -> (forall d, d ∈ ds -> d ∈ rrs set) ->
  apost P (add_soas udp (PdnsdCent.qname cent) (ans_ttl set queryts) ds) a
    (fun _ a' => exists es' c', step a es c a' es' c' /\ last_section S_AUTHORITY c') R.
Proof.
  destruct (se_name _ Hse) as (N & HN & Hnm). rewrite Hnm.
  induction ds as [|d ds IH]; intros a es c I Hlast Hin; cbn [add_soas].
  { apply apost_ret. exists es, c. split; [by apply step_refl|done]. }
  assert (Hd : d ∈ rrs set) by (apply Hin; by left).
  destruct (se_data _ Hse T_SOA set d Hset Hd) as [(ps & Hsh & ->) Hlen]. apply apost_bind.
  eapply apost_mono; [eapply (add_rr_inv a es c N T_SOA _ ps); try done| |done].
  { split; [by right|]. split; [done|]. split; [done|]. exists A, cent. split; [by right|]. split; [done|]. by exists set. }
  intros [] a1 (es1 & c1 & S1 & _ & _ & [(? & _)|(-> & _)]); [done|].
  eapply apost_mono; [apply (IH a1 es1); [apply S1|done|by intros; apply Hin; right]| |done].
  intros [] a2 (es2 & c2 & S2 & L2). exists es2, c2. split; [by eapply step_trans|done].
Qed.

End Authority.

Lemma opt_inv us edns rcode a es c R : inv a es c ->
  apost P (add_opt us edns rcode) a (fun _ a' => exists c', step a es c a' es c' /\ a_ar a' = a_ar a /\ sz a' <= sz a + sizeof_opt_pseudo_rr) R.
Proof.
  intros I. unfold add_opt. destruct edns; [|apply apost_ret; exists c; split_and!; [by apply step_refl|done|lia]].
  eapply apost_mono; [by apply add_opt_inv| |done]. intros [] a' (c' & S' & Ha & Hz). exists c'. split_and!; [done..|lia].
Qed.

Lemma name_error_inv us udp edns A csoa a es c R : inv a es c -> last_section S_ANSWER c -> valid_name A ->
  apost P (name_error us queryts udp edns (wire A) csoa) a (fun _ a' => exists es' c', step a es c a' es' c') R.
Proof.
  intros I [Hlast1 Hlast2] HA. unfold name_error. apply apost_bind.
  apply (apost_mono P _ _ (fun _ a' => exists es' c', step a es c a' es' c') _ R); [| |done].
  2: { intros [] a1 (es1 & c1 & S1). eapply apost_mono; [apply opt_inv, S1| |done].
       intros [] a2 (c2 & S2 & _). exists es1, c2. by eapply step_trans. }
  destruct (csoa =? cundef)%Z; [apply apost_ret; exists es, c; by apply step_refl|].
  apply apost_bind. eapply apost_defined; [apply rhnsegcnt_wire, HA|].
  case_match; [|apply apost_ret; exists es, c; by apply step_refl].
  apply apost_bind. eapply apost_defined; [apply skipsegs_wire, HA|]. set (B := drop _ A). assert (HB : valid_name B) by by apply valid_drop.
  apply apost_bind. eapply apost_mono; [apply (ask_post _ a es c (fun o => forall cent, o = Some cent -> W B cent /\ servable cent)); [done|]| |done].
  { intros e He. by apply lookup_ok. }
  intros o a1 (S1 & _ & _ & Ho). destruct o as [cent|]; [|apply apost_ret; by exists es, c].
  destruct (positive (getrrset cent T_SOA)) as [set|] eqn:Eset; [|apply apost_ret; by exists es, c].
  destruct (Ho cent eq_refl) as [HW Hse]. eapply apost_mono; [eapply (add_soas_inv udp B cent set HW Hse); [by apply positive_some|apply S1|done|done]| |done].
  intros [] a2 (es2 & c2 & S2 & _). exists es2, c2. by eapply step_trans.
Qed.

(** ** Names for the authority section *)

Lemma authority_for_post A cent rretp a es c R : inv a es c -> V A cent -> servable cent ->
  apost P (authority_for cent rretp) a (fun o a' => step a es c a' es c /\ forall c' set, o = Some (c', set) ->
    servable c' /\ getrrset c' rretp = Some set /\ exists B, V B c' \/ W B c') R.
Proof.
  intros I HV Hse. unfold authority_for. destruct (positive (getrrset cent rretp)) as [set|] eqn:Eset.
  { apply apost_ret. split; [by apply step_refl|]. intros c' set' [= <- <-]. split_and!; [done|by apply positive_some|]. exists A. by left. }
  destruct (se_name _ Hse) as (N & HN & ->). apply apost_bind. eapply apost_defined; [apply rhnsegcnt_wire, HN|].
  apply apost_bind. apply (apost_mono P _ _ (fun nm a' => a' = a /\ exists B, valid_name B /\ nm = wire B) _ R); [| |done].
  { case_match; [|apply apost_ret; split; [done|by exists N]]. eapply apost_defined; [apply skipsegs_wire, HN|].
    split; [done|]. eexists. split; [by apply valid_drop|done]. }
  intros nm a' (-> & B & HB & ->). apply apost_bind.
  assert (Hlook : forall B, valid_name B -> forall e, P e -> exists x e', lookup_copy (wire B) e = Some (x, e') /\ P e' /\
    (forall cent, x = Some cent -> W B cent /\ servable cent)) by (intros; by apply lookup_ok).
  eapply apost_mono; [apply (ask_post _ a es c _ R I (Hlook B HB))| |done].
  intros o a1 (S1 & _ & _ & Ho). destruct (o ≫= _) as [[c' set]|] eqn:Eo.
  { apply apost_ret. split; [done|]. intros ? ? [= <- <-]. destruct o as [c1|]; [|done]. destruct (Ho c1 eq_refl) as [HW1 Hs1]. cbn in Eo.
    destruct (positive (getrrset c1 rretp)) eqn:E1; [|done]. cbn in Eo. injection Eo as <- <-.
    split_and!; [done|by apply positive_some|]. exists B. by right. }
  case_match; [|by apply apost_ret]. apply apost_bind.
  eapply apost_mono; [apply (ask_post _ a1 es c (fun o => forall nm, o = Some nm -> exists B, valid_name B /\ nm = wire B)); [apply S1|]| |done].
  { intros e He. by apply owner_ok. }
  intros nm a2 (S2 & _ & _ & Hnm). destruct nm as [nm|]; [|by apply apost_ret; split; [eapply step_trans|]].
  destruct (Hnm nm eq_refl) as (B' & HB' & ->). apply apost_bind.
  eapply apost_mono; [apply (ask_post _ a2 es c _ R (st_inv _ _ _ _ _ _ S2) (Hlook B' HB'))| |done].
  intros o' a3 (S3 & _ & _ & Ho'). apply apost_ret. split; [eapply step_trans; [exact S1|by eapply step_trans]|].
  intros c' set. destruct o' as [c1|]; [|done]. destruct (Ho' c1 eq_refl) as [HW1 Hs1]. cbn.
  destruct (getrrset c1 rretp) eqn:E1; [|done]. intros [= <- <-]. split_and!; [done|done|]. exists B'. by right.
Qed.

Lemma add_ars_inv tp cent set B R ds : forall a es c, inv a es c -> servable cent -> getrrset cent tp = Some set ->
  (V B cent \/ W B cent) -> tp = T_NS \/ tp = T_SOA -> (forall d, d ∈ ds -> d ∈ rrs set) ->
  apost P (add_ars tp ds (PdnsdCent.qname cent) (ans_ttl set queryts)) a (fun _ a' => step a es c a' es c) R.
Proof.
  induction ds as [|d ds IH]; intros a es c I Hse Hset HVW Htp Hin; cbn [add_ars]; [by apply apost_ret, step_refl|].
  assert (Hd : d ∈ rrs set) by (apply Hin; by left).
  destruct (se_data _ Hse tp set d Hset Hd) as [(ps & Hsh & ->) Hlen]. destruct (se_name _ Hse) as (N & HN & Hnm). apply apost_bind.
  eapply apost_mono; [apply (add_ar_inv a es c); [done|done|..]| |done].
  - intros ->. by destruct Htp.
  - intros _. exists N. split_and!; [done|done|]. right. exists N, ps, B, cent. split_and!; [done..|]. by exists set.
  - intros [] a1 (S1 & _). eapply apost_mono; [apply (IH a1 es c); [apply S1|done|done|done|done|by intros; apply Hin; right]| |done].
    intros [] a2 S2. by eapply step_trans.
Qed.

Lemma rretp_ns_soa qtype cent : rretp_for qtype cent = T_NS \/ rretp_for qtype cent = T_SOA.
Proof. unfold rretp_for. case_match; [by right|by left]. Qed.

(** ** The answer section *)

(** The entries that answer a question: the one of the name asked for, and, as long
    as there are only aliases and recursion is desired, those of the names it is an
    alias of. *)
Inductive walk (rd : bool) (qtype : Z) : nat -> list (list byte) -> list (list (list byte) * dns_cent_t) -> Prop :=
  | walk_last hops A c : V A c ->
      (rd = false \/ no_alias_needed qtype c = true \/ getrrset c T_CNAME = None \/
       (exists r, getrrset c T_CNAME = Some r /\ rrs r = []) \/ hops = 0) -> walk rd qtype hops A [(A, c)]
  | walk_alias hops A c r B ds vs : V A c -> rd = true -> no_alias_needed qtype c = false -> getrrset c T_CNAME = Some r ->
      rrs r = wire B :: ds -> walk rd qtype hops B vs -> walk rd qtype (S hops) A ((A, c) :: vs).

Definition is_local (x : list (list byte) * dns_cent_t) : bool := has (PdnsdCent.flags x.2) DF_LOCAL.

(** All records of the entries that answer the question are there. *)
Definition complete (qtype : Z) (vs : list (list (list byte) * dns_cent_t)) (an : list rec) : Prop :=
  forall A c, (A, c) ∈ vs -> complete_for A c qtype an.

Lemma complete_for_mono A c qtype an an' : complete_for A c qtype an -> an `prefix_of` an' -> complete_for A c qtype an'.
Proof. intros Hc Hp tp set Htp Hset. eapply has_records_mono; [by apply Hc|done]. Qed.

(** The answer ends early, with an error code. *)
Definition ended (h : dns_hdr_t) (a' : ans) : Prop := exists es c, inv a' es c /\ c_qs c = qs /\ hdr_fixed h (a_hdr a') /\
  h_aa (a_hdr a') = h_aa h /\ h_rcode (a_hdr a') <> RC.OK.

Lemma cname_shape ps : shaped T_CNAME ps -> exists B, valid_name B /\ data ps = wire B.
Proof.
  intros ((L & HL & HF) & _). apply list_elem_of_singleton in HL as ->.
  inversion HF as [| | | |B ? ? HB HF'|]; subst. inversion HF'; subst. exists B. split; [done|]. unfold data. cbn. by rewrite app_nil_r.
Qed.

Lemma follow_post cent a R : servable cent ->
  apost P (follow_cname_chain cent) a (fun o a' => a' = a /\ match o with
    | None => getrrset cent T_CNAME = None \/ exists r, getrrset cent T_CNAME = Some r /\ rrs r = []
    | Some nm => exists r B ds, getrrset cent T_CNAME = Some r /\ rrs r = nm :: ds /\ valid_name B /\ nm = wire B end) R.
Proof.
  intros Hse. unfold follow_cname_chain. destruct (getrrset cent T_CNAME) as [r|] eqn:Er; [|apply apost_ret; split; [done|by left]].
  destruct (rrs r) as [|d ds] eqn:Ed; [apply apost_ret; split; [done|right; by exists r]|].
  destruct (se_data _ Hse T_CNAME r d Er) as [(ps & Hsh & ->) _]; [rewrite Ed; by left|]. destruct (cname_shape _ Hsh) as (B & HB & Hd).
  rewrite Hd in *. apply step_must; [apply Nat.leb_le, HB|]. apply apost_ret. split; [done|]. by exists r, B, ds.
Qed.

Lemma not_found_inv us udp edns A rc csoa a es c : inv a es c -> last_section S_ANSWER c -> c_qs c = qs -> valid_name A -> rc <> RC.OK ->
  apost P (set_hdr (with_rcode rc);; (if (rc =? RC.NAMEERR)%Z then name_error us queryts udp edns (wire A) csoa else mret tt);;
           leave Early : AM E bool) a (fun _ _ => False) (ended (a_hdr a)).
Proof.
  intros I Hlast Hqs HA Hrc. apply apost_bind, apost_update, apost_bind. set (a1 := Ans _ _ _ _ _ _ _ _ _).
  assert (I1 : inv a1 es c) by by apply set_rcode_inv.
  apply (apost_mono P _ _ (fun _ a' => exists es' c', step a1 es c a' es' c') _ (ended (a_hdr a))); [| |done].
  - case_match; [by apply name_error_inv|]. apply apost_ret. exists es, c. by apply step_refl.
  - intros [] a2 (es2 & c2 & S2). apply apost_early. exists es2, c2. split; [apply S2|].
    split; [by rewrite (st_qs _ _ _ _ _ _ S2)|]. split; [|split].
    + transitivity (a_hdr a1); [done|apply S2].
    + by rewrite (st_aa _ _ _ _ _ _ S2).
    + by rewrite (st_rcode _ _ _ _ _ _ S2).
Qed.

Lemma ended_step h (a a' : ans) : hdr_fixed h (a_hdr a) -> h_aa (a_hdr a) = h_aa h -> ended (a_hdr a) a' -> ended h a'.
Proof. intros Hf Ha (es & c & I & Hq & F & A' & Hr). exists es, c. split_and!; [done|done|by etrans|congruence|done]. Qed.

(** Where the servers of the zone are looked up, at the end of a chain. *)
Lemma servers_inv A cent qtype a es c R (aa : bool) : inv a es c -> V A cent -> servable cent ->
  apost P (auth ← authority_for cent (rretp_for qtype cent);
    (match auth with
     | Some (c, r) => add_ars (rretp_for qtype cent) (rrs r) (PdnsdCent.qname c) (ans_ttl r queryts)
     | None => mret tt
     end);; mret aa) a (fun b a' => b = aa /\ step a es c a' es c) R.
Proof.
  intros I HV Hse. apply apost_bind. eapply apost_mono; [by eapply (authority_for_post A)| |done].
  intros auth a1 (S1 & Hau). apply apost_bind.
  apply (apost_mono P _ _ (fun _ a' => step a es c a' es c) _ R); [|intros [] a2 S2; by apply apost_ret|done].
  destruct auth as [[c' set]|]; [|by apply apost_ret]. destruct (Hau c' set eq_refl) as (Hse' & Hset & B & HB).
  eapply apost_mono; [eapply (add_ars_inv _ c' set B R (rrs set) a1 es c); [apply S1|done|done|done|apply rretp_ns_soa|done]| |done].
  intros [] a2 S2. by eapply step_trans.
Qed.

Section Turn.

Context (rnd : bool) (us : Z) (udp : option Z) (edns rd : bool) (qtype : Z) (next : list byte -> bool -> AM E bool) (hops : nat).

(** What is known after some turns from the name [A] on. *)
Definition turned (hops : nat) (A : list (list byte)) (aa : bool) (a : ans) (es : list entry) (c : content) (aa' : bool) (a' : ans) : Prop :=
  exists es' c' vs, step a es c a' es' c' /\ last_section S_ANSWER c' /\ walk rd qtype hops A vs /\
    aa' = aa && forallb is_local vs /\ complete qtype vs (c_an c').

Context (Hnext : forall B aa a es c, alias B -> valid_name B -> inv a es c -> last_section S_ANSWER c -> c_qs c = qs ->
  match hops with
  | O => next (wire B) aa a = Some (inr aa, a)
  | S hops => apost P (next (wire B) aa) a (turned hops B aa a es c) (ended (a_hdr a))
  end).

Lemma turn_last A cent aa a es c a' es' c' : V A cent ->
  (rd = false \/ no_alias_needed qtype cent = true \/ getrrset cent T_CNAME = None \/
   (exists r, getrrset cent T_CNAME = Some r /\ rrs r = []) \/ hops = 0) ->
  step a es c a' es' c' -> last_section S_ANSWER c' -> complete_for A cent qtype (c_an c') ->
  turned hops A aa a es c (aa && has (PdnsdCent.flags cent) DF_LOCAL) a'.
Proof.
  intros HV Hl S1 L1 C1. exists es', c', [(A, cent)]. split_and!; [done|apply L1..|by constructor| |].
  - cbn. by rewrite andb_true_r.
  - intros B c1 [= -> ->]%list_elem_of_singleton. done.
Qed.

Lemma answer_turn_inv A aa a es c : alias A -> valid_name A -> inv a es c -> last_section S_ANSWER c -> c_qs c = qs ->
  apost P (answer_turn rnd us queryts udp edns next rd qtype (wire A) aa) a (turned hops A aa a es c) (ended (a_hdr a)).
Proof.
  intros Hal HA I Hlast Hqs. apply apost_bind.
  eapply apost_mono; [apply (ask_post _ a es c (fun r => match r with Found c => V A c /\ servable c | NotFound rc _ => rc <> RC.OK end));
    [done|intros e He; by apply resolve_ok]| |done].
  intros [cent|rc csoa] a1 (S1 & _ & _ & Hr).
  2: { eapply apost_mono; [apply (not_found_inv us udp edns A rc csoa a1 es c); [apply S1|done..]|done|].
       intros a'. apply ended_step; apply S1. }
  destruct Hr as [HV Hse]. apply apost_bind.
  eapply apost_mono; [apply (add_to_response_inv udp A cent Hal HA HV Hse rnd qtype _ a1 es c); [apply S1|done]| |done].
  intros [] a2 (es2 & c2 & S2 & L2 & C2). pose proof (step_trans _ _ _ _ _ _ _ _ _ S1 S2) as S12. apply apost_bind.
  apply (apost_mono P _ _ (fun o a' => a' = a2 /\ match o with
     | None => rd = false \/ no_alias_needed qtype cent = true \/ getrrset cent T_CNAME = None \/
         exists r, getrrset cent T_CNAME = Some r /\ rrs r = []
     | Some nm => rd = true /\ no_alias_needed qtype cent = false /\
         exists r B ds, getrrset cent T_CNAME = Some r /\ rrs r = nm :: ds /\ valid_name B /\ nm = wire B end) _ (ended (a_hdr a))).
  { destruct rd; cbn [andb]; [|apply apost_ret; split; [done|by left]].
    destruct (no_alias_needed qtype cent); cbn [negb]; [apply apost_ret; split; [done|by right; left]|].
    eapply apost_mono; [by apply follow_post| |done]. intros [nm|] a3 [-> Ho]; (split; [done|]); [done|by right; right]. }
  2: done.
  intros [nm|] a3 [-> Ho].
  2: { eapply apost_mono; [by apply (servers_inv A cent qtype a2 es2 c2); [apply S2|..]| |done]. intros b a4 (-> & S4).
       eapply turn_last; [done|tauto|by eapply step_trans|done|done]. }
  destruct Ho as (Hrd & Hna & r & B & ds & Hr & Hrs & HB & ->).
  assert (HalB : alias B) by by eapply alias_cname.
  specialize (Hnext B (aa && has (PdnsdCent.flags cent) DF_LOCAL) a2 es2 c2 HalB HB (st_inv _ _ _ _ _ _ S2) L2).
  destruct hops as [|h] eqn:Eh.
  - eexists _, _. split; [apply Hnext; by rewrite (st_qs _ _ _ _ _ _ S12)|]. rewrite <- Eh.
    eapply turn_last; [done|by repeat right|exact S12|done|done].
  - eapply apost_mono; [apply Hnext; by rewrite (st_qs _ _ _ _ _ _ S12)| |intros a'; apply ended_step; apply S12].
    intros aa' a4 (es4 & c4 & vs & S4 & L4 & W4 & -> & C4). exists es4, c4, ((A, cent) :: vs).
    split_and!; [by eapply step_trans|apply L4..|by eapply walk_alias|cbn; by rewrite andb_assoc|].
    intros A' c' [[= -> ->]|Hin]%elem_of_cons; [|by apply C4]. eapply complete_for_mono; [done|apply S4].
Qed.

End Turn.

Lemma answer_loop_inv rnd us udp edns rd qtype hops : forall A aa a es c, alias A -> valid_name A -> inv a es c -> last_section S_ANSWER c -> c_qs c = qs ->
  apost P (answer_loop rnd us queryts udp edns hops rd qtype (wire A) aa) a (turned rd qtype hops A aa a es c) (ended (a_hdr a)).
Proof. induction hops as [|hops IH]; intros; apply answer_turn_inv; auto. Qed.

(** The answers to the questions. *)
Definition answered (rd : bool) (c : content) (q : question) (vs : list (list (list byte) * dns_cent_t)) : Prop :=
  walk rd (qn_type q) MAX_HOPS (qn_name q) vs /\ complete (qn_type q) vs (c_an c).

Lemma add_answers_inv rnd us udp edns rd ql qs2 : Forall2 question_ok ql qs2 -> (forall q, q ∈ qs2 -> q ∈ qs) ->
  forall aa a es c, inv a es c -> last_section S_ANSWER c -> c_qs c = qs ->
  apost P (add_answers rnd us queryts udp edns rd ql aa) a
    (fun aa' a' => exists es' c' vss, step a es c a' es' c' /\ last_section S_ANSWER c' /\ Forall2 (answered rd c') qs2 vss /\
       aa' = aa && forallb is_local (concat vss)) (ended (a_hdr a)).
Proof.
  induction 1 as [|qe q ql qs2 Hq _ IH]; intros Hin aa a es c I Hlast Hqs; cbn [add_answers].
  { apply apost_ret. exists es, c, []. split_and!; [by apply step_refl|apply Hlast..|constructor|cbn; by rewrite andb_true_r]. }
  destruct Hq as [Hv Hqn Ht _ _ _]. rewrite Hqn, <- (app_nil_r (wire (qn_name q))). eapply (step_len P _ (qn_name q) []); [done|done|].
  rewrite app_nil_r, take_ge, Ht by done. apply step_must; [apply Nat.leb_le, Hv|]. apply apost_bind.
  eapply apost_mono; [apply (answer_loop_inv rnd us udp edns rd (qn_type q) MAX_HOPS (qn_name q) aa a es c); [|done..]| |done].
  { constructor. apply Hin. by left. }
  intros aa1 a1 (es1 & c1 & vs & S1 & L1 & W1 & -> & C1).
  eapply apost_mono; [apply (IH ltac:(intros; apply Hin; by right) _ a1 es1 c1); [apply S1|done|by rewrite (st_qs _ _ _ _ _ _ S1)]| |].
  2: { intros a'. apply ended_step; apply S1. }
  intros aa2 a2 (es2 & c2 & vss & S2 & L2 & C2 & ->). exists es2, c2, (vs :: vss). split_and!; [by eapply step_trans|apply L2..| |].
  - constructor; [|done]. split; [done|]. intros B cent HB. eapply complete_for_mono; [by apply C1|apply S2].
  - cbn. by rewrite forallb_app, andb_assoc.
Qed.

(** ** The whole answer *)

(** The answer without errors: all questions are answered, it is authoritative if
    all entries are local, and there are additional records only within the limit. *)
Definition success (rd : bool) (udp : option Z) (h : dns_hdr_t) (n : nat) (c : content) : Prop :=
  h_rcode h = RC.OK /\
  (exists vss, Forall2 (answered rd c) qs vss /\ h_aa h = (if forallb is_local (concat vss) then 1 else 0)%Z) /\
  (forall u, udp = Some u -> c_ar c <> [] -> (Z.of_nat n <= u)%Z).

Definition failure (h : dns_hdr_t) : Prop := h_rcode h <> RC.OK /\ h_aa h = 0%Z.

Record composed (id rd : Z) (udp : option Z) (h : dns_hdr_t) (body : list byte) (c : content) : Prop := {
  co_out : laid_out (hdr_bytes h ++ body) c;
  co_count : counted h c;
  co_qs : c_qs c = qs;
  co_an : Forall answer_rec (c_an c);
  co_ns : Forall authority_rec (c_nsec c);
  co_ar : Forall (fun r => opt_rec r \/ address_rec r) (c_ar c);
  co_hdr : hdr_fixed (blank_hdr id OP_QUERY rd RC.OK) h;
  co_result : success (negb (rd =? 0)%Z) udp h (sizeof_dns_hdr_t + length body) c \/ failure h;
}.

Lemma blank_inv id rd m r e : P e ->
  inv (Ans (blank_hdr id OP_QUERY rd RC.OK) [] ALLOCINITIALSIZE [] [] [] m r e) [] (only_questions []).
Proof.
  intros He. constructor; try (by constructor).
  - constructor; cbn; [unfold ALLOCINITIALSIZE, dnsmsghdroffset, sz; cbn; unfold sizeof_dns_hdr_t; lia|constructor|done|].
    intros m' (h & Hh & ->). rewrite app_nil_r. split; [done|]. by intros k e'.
  - intros h Hh. cbn [a_body]. rewrite app_nil_r. constructor. exists sizeof_dns_hdr_t, sizeof_dns_hdr_t, sizeof_dns_hdr_t.
    rewrite Hh. split_and!; constructor.
  - done.
Qed.

Lemma answered_mono rd a es c a' es' c' q vs : step a es c a' es' c' -> answered rd c q vs -> answered rd c' q vs.
Proof. intros S1 [Hw Hc]. split; [done|]. intros A cent Hin. eapply complete_for_mono; [by apply Hc|apply S1]. Qed.

(** The additional section, which is left out if there is no room for it. *)
Lemma additional_inv rnd us udp edns a es c R : inv a es c -> c_ar c = [] -> Forall (ns_known es (sz a)) (a_ar a) ->
  apost P (if match udp with Some u => (u <? Z.of_nat (sz a + sizeof_opt_pseudo_rr))%Z | None => false end then mret tt else
           add_opt us edns RC.OK;; a ← read_ans; add_addresses rnd queryts udp (a_ar a)) a
    (fun _ a' => exists es' c', step a es c a' es' c' /\ forall u, udp = Some u -> c_ar c' <> [] -> (Z.of_nat (sz a') <= u)%Z) R.
Proof.
  intros I Hc Hns. destruct (match udp with Some u => _ | None => false end) eqn:Elim.
  { apply apost_ret. exists es, c. split; [by apply step_refl|done]. }
  apply apost_bind. eapply apost_mono; [by apply opt_inv| |done]. intros [] a1 (c1 & S1 & Ha1 & Hz1). apply apost_read.
  eapply apost_mono; [apply (add_addresses_inv rnd udp R (a_ar a1) a1 es c1); [apply S1|apply S1|]| |done].
  { rewrite Ha1. eapply Forall_impl; [exact Hns|]. intros re Hk Et B HB Hw. eapply known_mono; [by apply Hk|done|apply S1]. }
  intros [] a2 (es2 & c2 & S2 & W2). exists es2, c2. split; [by eapply step_trans|]. intros u -> _. apply Z.ltb_ge in Elim.
  apply W2; [done|]. lia.
Qed.

(** How the composition ends: with an answer to all questions, or early. *)
Definition fine (rd : bool) (udp : option Z) (h : dns_hdr_t) (a' : ans) : Prop := exists es c, inv a' es c /\ c_qs c = qs /\
  hdr_fixed h (a_hdr a') /\ success rd udp (a_hdr a') (sz a') c.

Lemma set_aa_inv z a es c : inv a es c ->
  inv (Ans (with_aa z (a_hdr a)) (a_body a) (a_alloc a) (a_cb a) (a_sva a) (a_ar a) (a_mallocs a) (a_randoms a) (a_env a)) es c.
Proof. intros I. eapply inv_keep; [exact I|try done; try apply I..]. destruct (i_count _ _ _ I). by constructor. Qed.

Lemma compose_rest_inv rnd us udp edns rd ql a es : Forall2 question_ok ql qs -> inv a es (only_questions qs) ->
  h_rcode (a_hdr a) = RC.OK -> h_aa (a_hdr a) = 0%Z ->
  apost P (aa ← add_answers rnd us queryts udp edns rd ql true;
    a ← read_ans;
    add_authority udp (a_ar a);;
    a ← read_ans;
    (if match udp with Some u => (u <? Z.of_nat (sz a + sizeof_opt_pseudo_rr))%Z | None => false end then mret tt else
     add_opt us edns RC.OK;; a ← read_ans; add_addresses rnd queryts udp (a_ar a));;
    if (aa : bool) then set_hdr (with_aa 1) else mret tt) a (fun _ => fine rd udp (a_hdr a)) (ended (a_hdr a)).
Proof.
  intros Hq I Hrc Haa. apply apost_bind. eapply apost_mono; [by apply (add_answers_inv rnd us udp edns rd ql qs Hq ltac:(done) true a es (only_questions qs))| |done].
  intros aa a1 (es1 & c1 & vss & S1 & [L1 L1'] & C1 & ->). cbn [andb]. apply apost_read, apost_bind.
  eapply apost_mono; [apply (add_authority_inv udp _ (a_ar a1) a1 es1 c1); [apply S1|done|apply S1]| |done].
  intros [] a2 (es2 & c2 & S2 & L2 & Ha2 & K2). apply apost_read, apost_bind. rewrite <- Ha2 in K2.
  eapply apost_mono; [by apply (additional_inv rnd us udp edns a2 es2 c2); [apply S2|..]| |done].
  intros [] a3 (es3 & c3 & S3 & Hlim).
  assert (S13 : step a es (only_questions qs) a3 es3 c3) by (eapply step_trans; [exact S1|by eapply step_trans]).
  assert (C3 : Forall2 (answered rd c3) qs vss).
  { eapply Forall2_impl; [exact C1|]. intros q vs Hqv. eapply answered_mono; [exact S3|]. by eapply answered_mono. }
  destruct (forallb is_local (concat vss)) eqn:El; [apply apost_update|apply apost_ret].
  - exists es3, c3. split; [apply set_aa_inv, S13|]. split; [by rewrite (st_qs _ _ _ _ _ _ S13)|]. split; [transitivity (a_hdr a3); [apply (st_hdr _ _ _ _ _ _ S13)|done]|].
    split_and!; [cbn; rewrite (st_rcode _ _ _ _ _ _ S13); done| |done]. exists vss. split; [done|]. by rewrite El.
  - exists es3, c3. split; [apply S13|]. split; [by rewrite (st_qs _ _ _ _ _ _ S13)|]. split; [apply (st_hdr _ _ _ _ _ _ S13)|].
    split_and!; [rewrite (st_rcode _ _ _ _ _ _ S13); done| |done]. exists vss. split; [done|]. by rewrite El, (st_aa _ _ _ _ _ _ S13).
Qed.

Lemma compose_body_inv rnd us udp edns rd ql a : Forall2 question_ok ql qs -> inv a [] (only_questions []) -> a_sva a = [] -> a_ar a = [] ->
  h_rcode (a_hdr a) = RC.OK -> h_aa (a_hdr a) = 0%Z ->
  apost P (compose_body rnd us queryts udp edns rd ql) a (fun _ => fine rd udp (a_hdr a)) (ended (a_hdr a)).
Proof.
  intros Hq I Hs Ha Hrc Haa. apply apost_bind. eapply apost_mono; [by apply (add_questions_inv _ ql qs Hq a [] [])| |done].
  intros [] a1 (es1 & I1 & F1 & R1 & A1). cbn [app] in I1. rewrite Hrc in R1. rewrite Haa in A1.
  destruct (existsb unsupported ql).
  - apply apost_bind, apost_update, apost_early. exists es1, (only_questions qs).
    split_and!; [by apply set_rcode_inv|done|by transitivity (a_hdr a1)|cbn; congruence|done].
  - eapply apost_mono; [by eapply compose_rest_inv| |].
    + intros [] a' (es & c & I' & Hqs & F & Hsu). exists es, c. split_and!; [done|done|by etrans|done..].
    + intros a'. apply ended_step; [done|congruence].
Qed.

Lemma length_hdr_bytes h : length (hdr_bytes h) = sizeof_dns_hdr_t.
Proof. done. Qed.

Lemma inv_composed id rd udp a es c : inv a es c -> c_qs c = qs -> hdr_fixed (blank_hdr id OP_QUERY rd RC.OK) (a_hdr a) ->
  success (negb (rd =? 0)%Z) udp (a_hdr a) (sz a) c \/ failure (a_hdr a) -> composed id rd udp (a_hdr a) (a_body a) c.
Proof. intros I Hq F Hs. constructor; try done; try apply I. apply length_hdr_bytes. Qed.

Lemma compose_answer_spec rnd us udp edns ql id rd m r e : Forall2 question_ok ql qs -> P e ->
  exists o m' e', compose_answer rnd us queryts udp edns ql id rd m r e = Some (o, m', e') /\ P e' /\
    (m = [] -> exists x, o = Some x) /\
    forall h body, o = Some (h, body) -> exists c, composed id rd udp h body c.
Proof.
  intros Hq He. unfold compose_answer. destruct (match m with false :: _ => true | _ => false end) eqn:Em.
  { destruct m as [|[] m]; try done. exists None, m, e. by split_and!. }
  set (a0 := Ans _ _ _ _ _ _ _ _ _).
  destruct (compose_body_inv rnd us udp edns (negb (rd =? 0)%Z) ql a0 Hq (blank_inv id rd (tail m) r e He)) as (x & a' & Hx & Hpost); [done..|].
  assert (Hc : match x with inl Null => P (a_env a') | _ => P (a_env a') /\ exists c, composed id rd udp (a_hdr a') (a_body a') c end).
  { destruct x as [[]|[]]; [done|..].
    - destruct Hpost as (es & c & I & Hqs & F & Haa & Hrc). split; [apply I|]. exists c. eapply inv_composed; [done..|]. by right.
    - destruct Hpost as (es & c & I & Hqs & F & Hs). split; [apply I|]. exists c. eapply inv_composed; [done..|]. by left. }
  assert (Hrun : exists o, match m with false :: m => Some (None, m, e) | _ =>
      '(x, a) ← compose_body rnd us queryts udp edns (negb (rd =? 0)%Z) ql a0;
      Some (match x with inl Null => None | _ => Some (a_hdr a, a_body a) end, a_mallocs a, a_env a) end = Some (o, a_mallocs a', a_env a') /\
      o = match x with inl Null => None | _ => Some (a_hdr a', a_body a') end).
  { eexists. split; [|done]. destruct m as [|[] m]; [..|done]; by rewrite Hx. }
  destruct Hrun as (o & Hrun & Ho). exists o, (a_mallocs a'), (a_env a'). split; [exact Hrun|].
  assert (Hmem : m = [] -> exists x, o = Some x) by (intros ->; by eapply compose_answer_some).
  destruct x as [[]|[]]; [by subst o|..]; destruct Hc as [HP Hc]; (split; [done|]); (split; [done|]); intros h body Eo; rewrite Ho in Eo; by injection Eo as <- <-.
Qed.


End Run.
