(* ===== verification/PdnsdQuery.v ===== *)
(** * Queries to the DNS daemon

    [pdnsd/src/dns_answer.c]: [decode_query], [decode_query_additional],
    [mk_error_reply], [process_query], and what [udp_answer_thread] and
    [tcp_answer_thread] send. A query is the list of the bytes received; a read
    behind them is undefined. The pointer of [decode_query] is an index, the
    length of the rest goes with it.

    The theorems: any bytes whatsoever are handled without a read outside the
    message, and every message is of exactly one of three kinds: the well-formed
    queries ([asks]) are given to [compose_answer], the messages that must not be
    answered ([discarded]) are ignored, and all others ([malformed]) get an error
    reply. *)

From S2P Require Import Prelude.
From S2P Require Import PdnsdNames.
From S2P Require Import PdnsdCompress.
From S2P Require Import PdnsdNameStr.
From S2P Require Import PdnsdCent.
From S2P Require Import PdnsdCache.
From S2P Require Import PdnsdDisk.
From S2P Require Import PdnsdRecords.
From S2P Require Import PdnsdAnswer.
From S2P Require Import PdnsdAnswerInv.
From S2P Require Import PdnsdAnswerMem.
From S2P Require Import PdnsdAnswerRun.

Open Scope nat_scope.

(** ** Decoding *)

(** The next answer of the allocator. *)
Definition grant (m : list bool) : bool * list bool := match m with [] => (true, []) | b :: m => (b, m) end.

(** The loop of [decode_query]: the code, the position, the length of the rest
    and the questions, which are freed on an error. *)
Fixpoint decode_questions (n : nat) (data : list byte) (ptr sz : nat) (m : list bool) (ql : list dns_queryel_t)
    : option (Z * nat * nat * list dns_queryel_t * list bool) :=
  match n with
  | O => Some (RC.OK, ptr, sz, ql, m)
  | S n =>
      r ← decompress_name data ptr sz (buffer DNSNAMEBUFSIZE);
      match r with
      | NameError RC_TRUNC => Some (RC.TRUNC, ptr, sz, ql, m)
      | NameError c => Some (rcode_of c, ptr, sz, [], m)
      | NameOk ptr sz qbuf qlen =>
          if sz <? 4 then Some (RC.TRUNC, ptr, sz, ql, m) else
          let '(ok, m) := grant m in
          if negb ok then Some (RC.SERVFAIL, ptr, sz, [], m) else
          qtype ← GETINT16 data ptr;
          qclass ← GETINT16 data (ptr + 2);
          decode_questions n data (ptr + 4) (sz - 4) m (ql ++ [Query qtype qclass (take qlen qbuf)])
      end
  end.

Definition decode_query (data : list byte) (m : list bool) : option (Z * nat * nat * list dns_queryel_t * list bool) :=
  qdcount ← GETINT16 data 4;
  decode_questions (Z.to_nat qdcount) data sizeof_dns_hdr_t (length data - sizeof_dns_hdr_t) m [].

(** The number of OPT records and what the first one says. *)
Fixpoint decode_query_additional (numrr : nat) (data : list byte) (ptr sz : nat) (numopt : nat) (ep : edns_info_t)
    : option (Z * nat * edns_info_t) :=
  match numrr with
  | O => Some (RC.OK, numopt, ep)
  | S numrr =>
      r ← decompress_name data ptr sz (buffer DNSNAMEBUFSIZE);
      match r with
      | NameError c => Some (rcode_of c, numopt, ep)
      | NameOk ptr sz _ _ =>
          if sz <? sizeof_rr_hdr_t then Some (RC.TRUNC, numopt, ep) else
          let sz := sz - sizeof_rr_hdr_t in
          type ← GETINT16 data ptr;
          class ← GETINT16 data (ptr + 2);
          rdlen ← Z.to_nat <$> GETINT16 data (ptr + 8);
          if sz <? rdlen then Some (RC.TRUNC, numopt, ep) else
          '(numopt, ep) ←
            (if (type =? T_OPT)%Z then
               if numopt =? 0 then e ← opt_info data (ptr + 4) class; Some (S numopt, e) else Some (S numopt, ep)
             else Some (numopt, ep));
          decode_query_additional numrr data (ptr + sizeof_rr_hdr_t + rdlen) (sz - rdlen) numopt ep
      end
  end.

(** ** Replies *)

Definition mk_error_reply (id opcode rescode : Z) : dns_hdr_t := blank_hdr id opcode 0 rescode.

Definition sizeof_dns_msg_t : nat := dnsmsghdroffset + sizeof_dns_hdr_t.

(** [res&~0xf] *)
Definition extended (res : Z) : bool := negb (Z.ldiff res 0xf =? 0)%Z.

Definition no_edns : edns_info_t := Edns 0 0 0 0.

Section Query.

Context {E : Type} `{Resolver E} (rnd_recs : bool) (udpbufsize queryts : Z).

(** A reply or none, the limit for UDP, the allocator and the cache. *)
Definition outcome : Type := option (dns_hdr_t * list byte) * option Z * list bool * E.

(** The label [error_reply]. The answer is large enough for the OPT record. *)
Definition error_reply (data : list byte) (res : Z) (udp : option Z) (m : list bool) (e : E) : option outcome :=
  id ← GETINT16 data 0;
  opcode ← (if 3 <=? length data then b ← data !! 2; Some (field_of (b2z b) 3 4) else Some OP_QUERY);
  let '(ok, m) := grant m in
  if negb ok then Some (None, udp, m, e) else
  let allocsz := sizeof_dns_msg_t + (if extended res then sizeof_opt_pseudo_rr else 0) in
  let a := Ans (mk_error_reply id opcode res) [] allocsz [] [] [] m [] e in
  '(_, a) ← (if extended res then add_opt_pseudo_rr udpbufsize res 0 0 a else Some (inr tt, a));
  Some (Some (a_hdr a, a_body a), udp, a_mallocs a, a_env a).

(** [*udp] after an OPT record. *)
Definition udp_limit (ep : edns_info_t) (udp : option Z) : option Z :=
  u ← udp; Some (if (UDP_BUFSIZE <? e_udpsize ep)%Z then Z.min udpbufsize (e_udpsize ep) else u).

(** What is known of the additional section of a query, or the code to reply with. *)
Definition scan_additional (data : list byte) (h : dns_hdr_t) (res : Z) (ptr sz : nat) (udp : option Z) : option (Z + bool * option Z) :=
  if (h_arcount h =? 0)%Z then Some (inr (false, udp)) else
  if (res =? RC.TRUNC)%Z then Some (inl RC.FORMAT) else
  '(res, numopt, ep) ← decode_query_additional (Z.to_nat (h_arcount h)) data ptr sz 0 no_edns;
  if negb ((res =? RC.OK)%Z || ((res =? RC.TRUNC)%Z && negb (h_tc h =? 0)%Z)) then Some (inl RC.FORMAT) else
  if numopt =? 0 then Some (inr (false, udp)) else
  if negb (e_version ep =? 0)%Z then Some (inl RC.BADVERS) else
  if negb (e_rcode ep =? 0)%Z then Some (inl RC.FORMAT) else
  Some (inr (true, udp_limit ep udp)).

(** The questions and the additional section. *)
Definition answer_query (data : list byte) (h : dns_hdr_t) (udp : option Z) (m : list bool) (r : list nat) (e : E) : option outcome :=
  '(res, ptr, sz, ql, m) ← decode_query data m;
  if (res =? RC.TRUNC)%Z && ((h_tc h =? 0)%Z || match ql with [] => true | _ => false end) then error_reply data RC.FORMAT udp m e else
  if negb (res =? RC.OK)%Z && negb (res =? RC.TRUNC)%Z then error_reply data res udp m e else
  add ← scan_additional data h res ptr sz udp;
  match add with
  | inl res => error_reply data res udp m e
  | inr (edns, udp) =>
      match ql with
      | [] => error_reply data RC.FORMAT udp m e
      | _ =>
          '(ans, m, e) ← compose_answer rnd_recs udpbufsize queryts udp edns ql (h_id h) (h_rd h) m r e;
          match ans with
          | None => error_reply data RC.SERVFAIL udp m e
          | Some a => Some (Some a, udp, m, e)
          end
      end
  end.

Definition process_query (data : list byte) (udp : option Z) (m : list bool) (r : list nat) (e : E) : option outcome :=
  if length data <? 2 then Some (None, udp, m, e) else
  if length data <? sizeof_dns_hdr_t then error_reply data RC.FORMAT udp m e else
  h ← get_hdr data;
  if negb (h_qr h =? QR_QUERY)%Z then Some (None, udp, m, e) else
  if negb (h_opcode h =? OP_QUERY)%Z then error_reply data RC.NOTSUPP udp m e else
  if negb (h_z h =? 0)%Z then error_reply data RC.FORMAT udp m e else
  if negb (h_rcode h =? RC.OK)%Z then Some (None, udp, m, e) else
  if negb (h_ancount h =? 0)%Z then error_reply data RC.FORMAT udp m e else
  if negb (h_nscount h =? 0)%Z then error_reply data RC.FORMAT udp m e else
  answer_query data h udp m r e.

(** The datagram that [udp_answer_thread] sends. *)
Definition udp_answer (data : list byte) (m : list bool) (r : list nat) (e : E) : option (option (list byte) * E) :=
  '(resp, udp, _, e) ← process_query data (Some UDP_BUFSIZE) m r e;
  match resp, udp with
  | Some (h, body), Some udpmaxrespsize =>
      let msg := hdr_bytes h ++ body in
      Some (Some (if (udpmaxrespsize <? zlen msg)%Z then take (Z.to_nat udpmaxrespsize) (hdr_bytes (with_tc 1 h) ++ body) else msg), e)
  | _, _ => Some (None, e)
  end.

(** What [tcp_answer_thread] writes: the length in 16 bits and the answer. *)
Definition tcp_answer (data : list byte) (m : list bool) (r : list nat) (e : E) : option (option (list byte) * E) :=
  '(resp, _, _, e) ← process_query data None m r e;
  match resp with
  | Some (h, body) => let msg := hdr_bytes h ++ body in Some (Some (PUTINT16 (zlen msg) ++ msg), e)
  | None => Some (None, e)
  end.

End Query.

(** ** Integers and names in a message *)

Lemma GETINT16_some msg p : p + 2 <= length msg -> exists z, GETINT16 msg p = Some z /\ (0 <= z < 2 ^ 16)%Z.
Proof.
  intros Hp. destruct (lookup_lt_is_Some_2 msg p) as [a Ha]; [lia|]. destruct (lookup_lt_is_Some_2 msg (S p)) as [b Hb]; [lia|].
  unfold GETINT16. rewrite Ha, Hb. eexists. split; [done|].
  pose proof (b2z_range a). pose proof (b2z_range b). rewrite lor_shift by lia. lia.
Qed.

Lemma GETINT16_range msg p z : GETINT16 msg p = Some z -> (0 <= z < 2 ^ 16)%Z /\ p + 2 <= length msg.
Proof.
  intros Hz. assert (p + 2 <= length msg).
  { unfold GETINT16 in Hz. destruct (msg !! p) as [a|]; [|done]. destruct (msg !! S p) as [b|] eqn:Eb; [|done].
    apply lookup_lt_Some in Eb. lia. }
  destruct (GETINT16_some msg p) as (z' & Hz' & Hr); [done|]. rewrite Hz in Hz'. injection Hz' as <-. done.
Qed.

Lemma name_at_bound msg p n ls : name_at msg p n ls -> 0 < n /\ p + n <= length msg.
Proof.
  intros (h & He & _). induction He as [pos Hb|pos b l h n ls Hb Hl Hv Ht He IH|pos b b' h n ls Hb Hr Hb' He IH].
  - apply lookup_lt_Some in Hb. lia.
  - lia.
  - apply lookup_lt_Some in Hb'. lia.
Qed.

(** ** What a query says *)

Definition question_at (msg : list byte) (p n : nat) (q : question) : Prop := exists m,
  name_at msg p m (qn_name q) /\ GETINT16 msg (p + m) = Some (qn_type q) /\ GETINT16 msg (p + m + 2) = Some (qn_class q) /\ n = m + 4.

Definition element (q : question) : dns_queryel_t := Query (qn_type q) (qn_class q) (wire (qn_name q)).

Lemma question_at_ok msg p n q : question_at msg p n q -> question_ok (element q) q /\ p + n <= length msg.
Proof.
  intros (m & Hn & Ht & Hc & ->). apply GETINT16_range in Ht as [Ht _], Hc as [Hc Hb].
  split; [constructor; try done; by eapply name_at_valid|lia].
Qed.

Lemma questions_ok msg p p' qs : seq_at (question_at msg) p p' qs -> Forall2 question_ok (map element qs) qs.
Proof. induction 1 as [|p n q x xs Hx _ IH]; constructor; [by eapply question_at_ok|done]. Qed.

Lemma question_at_det msg p n q n' q' : question_at msg p n q -> question_at msg p n' q' -> n = n' /\ q = q'.
Proof.
  destruct q as [l t c], q' as [l' t' c']. intros (m & Hn & Ht & Hc & ->) (m' & Hn' & Ht' & Hc' & ->). cbn in *.
  destruct (name_at_det _ _ _ _ _ _ Hn Hn') as [-> ->]. rewrite Ht in Ht'. rewrite Hc in Hc'.
  injection Ht' as <-. injection Hc' as <-. done.
Qed.

(** There is no readable name at [p]: the message ends before it does
    ([RC_TRUNC]) or it is none ([RC_FORMAT]). *)
Definition name_result (msg : list byte) (p : nat) (code : rc) : Prop :=
  decompress_name msg p (length msg - p) (buffer DNSNAMEBUFSIZE) = Some (NameError code).

(** The message ends before the question at [p] does. *)
Definition question_cut (msg : list byte) (p : nat) : Prop :=
  name_result msg p RC_TRUNC \/ exists m ls, name_at msg p m ls /\ length msg < p + m + 4.

Lemma name_result_none msg p code m ls : name_result msg p code -> name_at msg p m ls -> False.
Proof.
  intros Hr Hn. destruct (decompress_name_spec msg p (length msg - p) (buffer DNSNAMEBUFSIZE)) as (r & Hd & Hs); [by rewrite length_buffer|].
  unfold name_result in Hr. rewrite Hr in Hd. injection Hd as <-. destruct Hs as [_ Hs]. apply Hs in Hn as Hb. apply name_at_bound in Hn. lia.
Qed.

Lemma question_cut_none msg p n q : question_cut msg p -> ~ question_at msg p n q.
Proof.
  intros Hc Hq. pose proof (question_at_ok _ _ _ _ Hq) as [_ Hb]. destruct Hq as (m & Hn & _ & _ & ->).
  destruct Hc as [Hr|(m' & ls & Hn' & Hlt)]; [by eapply name_result_none|]. destruct (name_at_det _ _ _ _ _ _ Hn Hn'). lia.
Qed.

Lemma question_bad_none msg p n q : name_result msg p RC_FORMAT -> ~ question_at msg p n q.
Proof. intros Hr (m & Hn & _). by eapply name_result_none. Qed.

Lemma question_cut_not_bad msg p : question_cut msg p -> ~ name_result msg p RC_FORMAT.
Proof.
  intros [Hr|(m & ls & Hn & _)] Hb; [|by eapply name_result_none]. unfold name_result in *. rewrite Hr in Hb. done.
Qed.

(** The result of [decode_questions] from [ptr] on. *)
Inductive decoded (data : list byte) (n ptr : nat) (ql : list dns_queryel_t) (m : list bool) : Z -> nat -> list dns_queryel_t -> Prop :=
  | decoded_all p qs : seq_at (question_at data) ptr p qs -> length qs = n -> decoded data n ptr ql m RC.OK p (ql ++ map element qs)
  | decoded_some p p' qs : seq_at (question_at data) ptr p' qs -> length qs < n -> question_cut data p' ->
      decoded data n ptr ql m RC.TRUNC p (ql ++ map element qs)
  | decoded_bad p p' qs : seq_at (question_at data) ptr p' qs -> length qs < n -> name_result data p' RC_FORMAT ->
      decoded data n ptr ql m RC.FORMAT p []
  | decoded_memory p : m <> [] -> decoded data n ptr ql m RC.SERVFAIL p [].

Lemma take_wire A (db : list byte) : take (length (wire A)) (wire A ++ drop (length (wire A)) db) = wire A.
Proof. apply take_app_length. Qed.

Lemma decode_questions_spec data n : forall ptr sz m ql, ptr + sz = length data ->
  exists code ptr' sz' ql' m', decode_questions n data ptr sz m ql = Some (code, ptr', sz', ql', m') /\ ptr' + sz' = length data /\ ptr <= ptr' /\
    (m = [] -> m' = []) /\ decoded data n ptr ql m code ptr' ql'.
Proof.
  induction n as [|n IH]; intros ptr sz m ql Hsz; cbn [decode_questions].
  { eexists _, _, _, _, _. split; [done|]. split_and!; [done|done|done|].
    rewrite <- (app_nil_r ql) at 2. apply (decoded_all _ _ _ _ _ _ []); [constructor|done]. }
  destruct (decompress_name_spec data ptr sz (buffer DNSNAMEBUFSIZE)) as (r & Hd & Hr); [by rewrite length_buffer|]. rewrite Hd. cbn [mbind option_bind].
  replace sz with (length data - ptr) in Hd by lia. destruct r as [ptr1 sz1 qbuf qlen|code].
  2: { destruct Hr as [Hc _]. destruct code; [done|..]; (eexists _, _, _, _, _; split; [done|]; split_and!; [done|done|done|]).
       - apply (decoded_bad _ _ _ _ _ _ ptr []); [constructor|cbn; lia|done].
       - rewrite <- (app_nil_r ql) at 2. apply (decoded_some _ _ _ _ _ _ ptr []); [constructor|cbn; lia|by left]. }
  destruct Hr as (k & ls & Hn & -> & Hsz1 & -> & ->). rewrite take_wire.
  destruct (Nat.ltb_spec sz1 4) as [Hlt|Hge].
  { eexists _, _, _, _, _. split; [done|]. split_and!; [lia|lia|done|].
    rewrite <- (app_nil_r ql) at 2. apply (decoded_some _ _ _ _ _ _ ptr []); [constructor|cbn; lia|right; exists k, ls; split; [done|lia]]. }
  destruct (GETINT16_some data (ptr + k)) as (t & Ht & Hrt); [lia|]. destruct (GETINT16_some data (ptr + k + 2)) as (cl & Hc & Hrc); [lia|].
  destruct (grant m) as [ok m1] eqn:Eg. assert (Hm1 : m = [] -> m1 = []) by (intros ->; by injection Eg as <- <-).
  destruct ok; cbn [negb].
  2: { assert (m <> []) by (intros ->; done). eexists _, _, _, _, _. split; [done|]. split_and!; [lia|lia|done|by apply decoded_memory]. }
  rewrite Ht, Hc. cbn [mbind option_bind]. set (q := Quest ls t cl). change (Query t cl (wire ls)) with (element q).
  assert (Hq : question_at data ptr (k + 4) q) by (exists k; done).
  destruct (IH (ptr + k + 4) (sz1 - 4) m1 (ql ++ [element q])) as (code & ptr' & sz' & ql' & m' & -> & Hp & Hle & Hm & Hd'); [lia|].
  eexists _, _, _, _, _. split; [done|]. split_and!; [done|lia|by auto|].
  assert (Hcons : forall p qs, seq_at (question_at data) (ptr + k + 4) p qs -> seq_at (question_at data) ptr p (q :: qs)).
  { intros p qs Hs. eapply seq_cons; [done|]. by rewrite Nat.add_assoc. }
  inversion Hd' as [p qs Hs Hl|p p' qs Hs Hl|p p' qs Hs Hl|p Hne]; subst.
  - rewrite <- app_assoc. apply (decoded_all _ _ _ _ _ _ (q :: qs)); [by apply Hcons|by cbn; lia].
  - rewrite <- app_assoc. apply (decoded_some _ _ _ _ _ _ p' (q :: qs)); [by apply Hcons|by cbn; lia|done].
  - apply (decoded_bad _ _ _ _ _ _ p' (q :: qs)); [by apply Hcons|by cbn; lia|done].
  - apply decoded_memory. intros ->. by apply Hne, Hm1.
Qed.

(** A record of the additional section: its type, and what it says if it is an OPT
    record. *)
Definition extra_at (msg : list byte) (p n : nat) (x : Z * edns_info_t) : Prop := exists m ls class k,
  name_at msg p m ls /\ GETINT16 msg (p + m) = Some (fst x) /\ GETINT16 msg (p + m + 2) = Some class /\
  GETINT16 msg (p + m + 8) = Some k /\ opt_info msg (p + m + 4) class = Some (snd x) /\
  n = m + sizeof_rr_hdr_t + Z.to_nat k /\ p + n <= length msg.

Definition note_opt (s : nat * edns_info_t) (x : Z * edns_info_t) : nat * edns_info_t :=
  if (fst x =? T_OPT)%Z then (S (fst s), if fst s =? 0 then snd x else snd s) else s.

Lemma extra_at_det msg p n x n' x' : extra_at msg p n x -> extra_at msg p n' x' -> n = n' /\ x = x'.
Proof.
  destruct x as [t i], x' as [t' i']. intros (m & ls & c & k & Hn & Ht & Hc & Hk & Hi & -> & _) (m' & ls' & c' & k' & Hn' & Ht' & Hc' & Hk' & Hi' & -> & _).
  cbn in *. destruct (name_at_det _ _ _ _ _ _ Hn Hn') as [-> ->]. split; congruence.
Qed.

Lemma opt_info_some msg p class : 3 < p -> p + 4 <= length msg -> exists i, opt_info msg p class = Some i /\ e_udpsize i = class.
Proof.
  intros H3 Hp. unfold opt_info. destruct (lookup_lt_is_Some_2 msg p) as [t0 ->]; [lia|].
  destruct (lookup_lt_is_Some_2 msg (p + 1)) as [t1 ->]; [lia|]. destruct (lookup_lt_is_Some_2 msg (p + 2)) as [t2 ->]; [lia|].
  destruct (lookup_lt_is_Some_2 msg 3) as [t3 ->]; [lia|]. by eexists.
Qed.

(** The message ends before the record at [p] does. *)
Definition extra_cut (msg : list byte) (p : nat) : Prop :=
  name_result msg p RC_TRUNC \/ exists m ls, name_at msg p m ls /\
    (length msg < p + m + sizeof_rr_hdr_t \/
     exists k, GETINT16 msg (p + m + 8) = Some k /\ length msg < p + m + sizeof_rr_hdr_t + Z.to_nat k).

Lemma extra_cut_none msg p n x : extra_cut msg p -> ~ extra_at msg p n x.
Proof.
  intros Hc (m & ls & class & k & Hn & _ & _ & Hk & _ & -> & Hb).
  destruct Hc as [Hr|(m' & ls' & Hn' & Hlt)]; [by eapply name_result_none|]. destruct (name_at_det _ _ _ _ _ _ Hn Hn') as [<- <-].
  destruct Hlt as [Hlt|(k' & Hk' & Hlt)]; [lia|]. rewrite Hk in Hk'. injection Hk' as <-. lia.
Qed.

Lemma extra_bad_none msg p n x : name_result msg p RC_FORMAT -> ~ extra_at msg p n x.
Proof. intros Hr (m & ls & class & k & Hn & _). by eapply name_result_none. Qed.

Lemma extra_cut_not_bad msg p : extra_cut msg p -> ~ name_result msg p RC_FORMAT.
Proof.
  intros [Hr|(m & ls & Hn & _)] Hb; [|by eapply name_result_none]. unfold name_result in *. rewrite Hr in Hb. done.
Qed.

(** The records that were read and why the loop ended. *)
Definition scanned (data : list byte) (n ptr : nat) (s : nat * edns_info_t) (code : Z) (s' : nat * edns_info_t) : Prop :=
  exists xs p, seq_at (extra_at data) ptr p xs /\ s' = fold_left note_opt xs s /\
    (code = RC.OK /\ length xs = n \/
     length xs < n /\ (code = RC.TRUNC /\ extra_cut data p \/ code = RC.FORMAT /\ name_result data p RC_FORMAT)).

Lemma scanned_stop data n ptr s code :
  code = RC.TRUNC /\ extra_cut data ptr \/ code = RC.FORMAT /\ name_result data ptr RC_FORMAT -> scanned data (S n) ptr s code s.
Proof. intros Hc. exists [], ptr. split_and!; [constructor|done|]. right. split; [cbn; lia|done]. Qed.

Lemma scanned_next data n ptr s code s' k x : extra_at data ptr k x -> scanned data n (ptr + k) (note_opt s x) code s' -> scanned data (S n) ptr s code s'.
Proof.
  intros Hx (xs & p & Hxs & -> & Hc).
  exists (x :: xs), p. split_and!; [by eapply seq_cons|done|]. cbn [length]. destruct Hc as [[-> <-]|[? ?]]; [by left|right]. split; [lia|done].
Qed.

Lemma decode_query_additional_spec data n : forall ptr sz numopt ep, ptr + sz = length data -> 3 <= ptr ->
  exists code numopt' ep', decode_query_additional n data ptr sz numopt ep = Some (code, numopt', ep') /\
    scanned data n ptr (numopt, ep) code (numopt', ep').
Proof.
  induction n as [|n IH]; intros ptr sz numopt ep Hsz H3; cbn [decode_query_additional].
  { eexists _, _, _. split; [done|]. exists [], ptr. split_and!; [constructor|done|by left]. }
  destruct (decompress_name_spec data ptr sz (buffer DNSNAMEBUFSIZE)) as (r & Hd & Hr); [by rewrite length_buffer|]. rewrite Hd. cbn [mbind option_bind].
  replace sz with (length data - ptr) in Hd by lia. destruct r as [ptr1 sz1 qbuf qlen|code].
  2: { destruct Hr as [Hc _]. eexists _, _, _. split; [done|]. apply scanned_stop. destruct code; [done|by right|]. left. split; [done|by left]. }
  destruct Hr as (k & ls & Hn & -> & Hsz1 & -> & ->). pose proof (name_at_bound _ _ _ _ Hn) as [Hk0 _].
  destruct (Nat.ltb_spec sz1 sizeof_rr_hdr_t) as [Hlt|Hge].
  { eexists _, _, _. split; [done|]. apply scanned_stop. left. split; [done|]. right. exists k, ls. split; [done|]. left. lia. }
  unfold sizeof_rr_hdr_t in *. destruct (GETINT16_some data (ptr + k)) as (t & Ht & Hrt); [lia|].
  destruct (GETINT16_some data (ptr + k + 2)) as (cl & Hc & Hrc); [lia|]. destruct (GETINT16_some data (ptr + k + 8)) as (l & Hl & Hrl); [lia|].
  destruct (opt_info_some data (ptr + k + 4) cl) as (i & Hi & _); [lia|lia|].
  rewrite Ht, Hc, Hl. cbn [mbind option_bind fmap option_fmap option_map]. destruct (Nat.ltb_spec (sz1 - 10) (Z.to_nat l)) as [Hlt|Hle].
  { eexists _, _, _. split; [done|]. apply scanned_stop. left. split; [done|]. right. exists k, ls. split; [done|]. right. exists l.
    unfold sizeof_rr_hdr_t. split; [done|lia]. }
  assert (Hx : extra_at data ptr (k + 10 + Z.to_nat l) (t, i)) by (exists k, ls, cl, l; split_and!; [done..|lia]).
  assert (Hnote : (if (t =? T_OPT)%Z then if numopt =? 0 then e ← opt_info data (ptr + k + 4) cl; Some (S numopt, e) else Some (S numopt, ep)
    else Some (numopt, ep)) = Some (note_opt (numopt, ep) (t, i))).
  { unfold note_opt. cbn [fst snd]. rewrite Hi. destruct (t =? T_OPT)%Z; [|done]. by destruct (numopt =? 0). }
  rewrite Hnote. cbn [mbind option_bind]. destruct (note_opt (numopt, ep) (t, i)) as [numopt1 ep1] eqn:En.
  destruct (IH (ptr + k + 10 + Z.to_nat l) (sz1 - 10 - Z.to_nat l) numopt1 ep1) as (code & n' & e' & -> & Hs); [lia|lia|].
  eexists _, _, _. split; [done|]. eapply scanned_next; [exact Hx|]. rewrite En. by replace (ptr + (k + 10 + Z.to_nat l)) with (ptr + k + 10 + Z.to_nat l) by lia.
Qed.

(** [n] items were read, or nothing follows the ones that were read. *)
Definition maximal {X} (one : nat -> nat -> X -> Prop) (n q : nat) (xs : list X) : Prop :=
  length xs = n \/ length xs < n /\ forall k x, ~ one q k x.

(** The items of a message are determined by where they begin. *)
Lemma seq_at_det {X} (one : nat -> nat -> X -> Prop) p q xs : (forall p n x n' x', one p n x -> one p n' x' -> n = n' /\ x = x') ->
  seq_at one p q xs -> forall c q' xs', seq_at one p q' xs' -> maximal one c q xs -> maximal one c q' xs' -> q = q' /\ xs = xs'.
Proof.
  intros Hdet. induction 1 as [p|p n q x xs Hx _ IH]; intros c q' xs' Hs Hm Hm'; inversion Hs as [|? n' ? y ys Hy Hys]; subst; try done.
  - exfalso. destruct Hm as [Hm|[_ Hm]]; [|by eapply Hm]. cbn in Hm. destruct Hm' as [Hm'|[Hm' _]]; cbn in Hm'; lia.
  - exfalso. destruct Hm' as [Hm'|[_ Hm']]; [|by eapply Hm']. cbn in Hm'. destruct Hm as [Hm|[Hm _]]; cbn in Hm; lia.
  - destruct (Hdet _ _ _ _ _ Hx Hy) as [<- <-]. destruct c as [|c]; [destruct Hm as [Hm|[Hm _]]; cbn in Hm; lia|].
    destruct (IH c _ _ Hys) as [-> ->]; [..|done].
    + destruct Hm as [Hm|[Hm ?]]; [left|right; split; [|done]]; cbn in Hm; lia.
    + destruct Hm' as [Hm'|[Hm' ?]]; [left|right; split; [|done]]; cbn in Hm'; lia.
Qed.

(** If all questions are there and memory does not run out, they are decoded. *)
Lemma decoded_whole data n ptr code p ql p' qs : decoded data n ptr [] [] code p ql ->
  seq_at (question_at data) ptr p' qs -> length qs = n -> code = RC.OK /\ p' = p /\ ql = map element qs.
Proof.
  intros Hd Hs Hl. inversion Hd as [p0 qs' Hs' Hl'|p0 p1 qs' Hs' Hl' Hc|p0 p1 qs' Hs' Hl' Hb|]; subst; [|exfalso..|done].
  - destruct (seq_at_det _ _ _ _ (question_at_det data) Hs (length qs) _ _ Hs') as [<- <-]; [by left..|done].
  - destruct (seq_at_det _ _ _ _ (question_at_det data) Hs (length qs) _ _ Hs') as [_ <-]; [by left| |lia].
    right. split; [done|]. intros k x. by apply question_cut_none.
  - destruct (seq_at_det _ _ _ _ (question_at_det data) Hs (length qs) _ _ Hs') as [_ <-]; [by left| |lia].
    right. split; [done|]. intros k x. by apply question_bad_none.
Qed.

(** ** Well-formed queries *)

Section Spec.

Context (us : Z) (data : list byte).

(** What the additional section, from [p] on, asks for: EDNS and a limit. *)
Definition extras (h : dns_hdr_t) (p : nat) (udp : option Z) (edns : bool) (udp' : option Z) : Prop := exists xs p',
  seq_at (extra_at data) p p' xs /\
  (length xs = Z.to_nat (h_arcount h) \/ (h_tc h <> 0%Z /\ length xs < Z.to_nat (h_arcount h) /\ extra_cut data p')) /\
  let s := fold_left note_opt xs (0, no_edns) in
  if fst s =? 0 then edns = false /\ udp' = udp
  else e_version (snd s) = 0%Z /\ e_rcode (snd s) = 0%Z /\ edns = true /\ udp' = udp_limit us (snd s) udp.

(** A query with the questions [qs]. If it is marked as truncated, the message may
    end before the last announced question or additional record, but not both are
    missing something. *)
Record asks (udp : option Z) (h : dns_hdr_t) (qs : list question) (edns : bool) (udp' : option Z) : Prop := {
  as_hdr : get_hdr data = Some h;
  as_query : h_qr h = QR_QUERY /\ h_opcode h = OP_QUERY /\ h_z h = 0%Z /\ h_rcode h = RC.OK;
  as_sections : h_ancount h = 0%Z /\ h_nscount h = 0%Z;
  as_some : qs <> [];
  as_questions : exists p, seq_at (question_at data) sizeof_dns_hdr_t p qs /\
    (length qs = Z.to_nat (h_qdcount h) /\ extras h p udp edns udp' \/
     h_tc h <> 0%Z /\ length qs < Z.to_nat (h_qdcount h) /\ question_cut data p /\ h_arcount h = 0%Z /\ edns = false /\ udp' = udp);
}.

(** What is not answered at all. *)
Definition discarded : Prop := length data < 2 \/ exists h, get_hdr data = Some h /\
  (h_qr h <> QR_QUERY \/ h_opcode h = OP_QUERY /\ h_z h = 0%Z /\ h_rcode h <> RC.OK).

(** A reply with an error code and without records, but for the OPT record that
    has the upper bits of the code. *)
Definition rejected (res : Z) (h : dns_hdr_t) (body : list byte) : Prop := res <> RC.OK /\ exists id opcode,
  GETINT16 data 0 = Some id /\
  h = (if extended res then inc_arcount else fun h => h) (mk_error_reply id opcode res) /\
  body = if extended res then opt_bytes us res 0 0 else [].

(** Every other message: it has a number, it is no response and has no error code,
    and it is no well-formed query. *)
Definition malformed : Prop := ~ discarded /\ forall udp h qs edns udp', ~ asks udp h qs edns udp'.

Lemma asks_not_discarded udp h qs edns udp' : asks udp h qs edns udp' -> 2 <= length data -> ~ discarded.
Proof.
  intros A Hl [Hs|(h' & Hh & Hd)]; [lia|]. rewrite (as_hdr _ _ _ _ _ A) in Hh. injection Hh as <-.
  destruct (as_query _ _ _ _ _ A) as (Hq & _ & _ & Hr). destruct Hd as [Hd|(_ & _ & Hd)]; done.
Qed.

End Spec.

Lemma get_hdr_some data : sizeof_dns_hdr_t <= length data -> exists h, get_hdr data = Some h /\ GETINT16 data 0 = Some (h_id h) /\
  GETINT16 data 4 = Some (h_qdcount h).
Proof.
  unfold sizeof_dns_hdr_t. intros Hl. unfold get_hdr. destruct (GETINT16_some data 0) as (id & -> & _); [lia|].
  destruct (lookup_lt_is_Some_2 data 2) as [f1 ->]; [lia|]. destruct (lookup_lt_is_Some_2 data 3) as [f2 ->]; [lia|].
  destruct (GETINT16_some data 4) as (qd & -> & _); [lia|]. destruct (GETINT16_some data 6) as (an & -> & _); [lia|].
  destruct (GETINT16_some data 8) as (ns & -> & _); [lia|]. destruct (GETINT16_some data 10) as (ar & -> & _); [lia|]. cbn. by eexists.
Qed.

Lemma get_hdr_length d h : get_hdr d = Some h -> sizeof_dns_hdr_t <= length d.
Proof.
  intros Hh. unfold get_hdr in Hh. destruct (GETINT16 d 10) eqn:Ea; [apply GETINT16_range in Ea; unfold sizeof_dns_hdr_t; lia|].
  destruct (GETINT16 d 0); [|done]. destruct (d !! 2); [|done]. destruct (d !! 3); [|done].
  destruct (GETINT16 d 4); [|done]. destruct (GETINT16 d 6); [|done]. by destruct (GETINT16 d 8).
Qed.

Section Process.

Context {E : Type} `{ResolverOk E P V W} (rnd : bool) (us queryts : Z) (data : list byte).

(** A reply has the number of the query and is marked as a response. *)
Definition replied (resp : option (dns_hdr_t * list byte)) : Prop :=
  forall h body, resp = Some (h, body) -> h_qr h = QR_RESP /\ GETINT16 data 0 = Some (h_id h).

Lemma error_reply_spec res udp m (e : E) : 2 <= length data -> res <> RC.OK ->
  exists resp m', error_reply us data res udp m e = Some (resp, udp, m', e) /\ replied resp /\
    (resp = None /\ m <> [] \/ exists h body, resp = Some (h, body) /\ rejected us data res h body).
Proof.
  intros Hl Hres. unfold error_reply. destruct (GETINT16_some data 0) as (id & Hid & _); [lia|]. rewrite Hid. cbn [mbind option_bind].
  assert (exists opcode, (if 3 <=? length data then b ← data !! 2; Some (field_of (b2z b) 3 4) else Some OP_QUERY) = Some opcode) as (opcode & ->).
  { destruct (Nat.leb_spec 3 (length data)); [|by eexists]. destruct (lookup_lt_is_Some_2 data 2) as [b ->]; [lia|]. by eexists. }
  destruct (grant m) as [ok m1] eqn:Eg. destruct ok; cbn [negb mbind option_bind].
  2: { eexists _, _. split; [done|]. split; [done|]. left. split; [done|]. intros ->. done. }
  destruct (extended res) eqn:Ex; cbn; (eexists _, _; split; [done|]; split; [intros h body [= <- <-]; done|];
    right; eexists _, _; split; [done|]; split; [done|]; exists id, opcode; rewrite Ex; done).
Qed.

Lemma scan_additional_spec h res ptr sz udp : ptr + sz = length data -> 3 <= ptr -> (0 <= h_arcount h)%Z ->
  exists x, scan_additional us data h res ptr sz udp = Some x /\
  match x with
  | inr (edns, udp') => if (res =? RC.TRUNC)%Z then h_arcount h = 0%Z /\ edns = false /\ udp' = udp else extras us data h ptr udp edns udp'
  | inl code => code <> RC.OK /\
      if (res =? RC.TRUNC)%Z then h_arcount h <> 0%Z else forall udp edns udp', ~ extras us data h ptr udp edns udp'
  end.
Proof.
  intros Hsz H3 Har. unfold scan_additional. destruct (Z.eqb_spec (h_arcount h) 0) as [Ea|Ea].
  { eexists. split; [done|]. cbn. destruct (res =? RC.TRUNC)%Z; [done|]. exists [], ptr. rewrite Ea. split_and!; [constructor|by left|done..]. }
  destruct (res =? RC.TRUNC)%Z; [by eexists|].
  destruct (decode_query_additional_spec data (Z.to_nat (h_arcount h)) ptr sz 0 no_edns Hsz H3) as (code & numopt & ep & -> & xs & p & Hxs & Hs & Hc).
  cbn [mbind option_bind].
  assert (Hmax : maximal (extra_at data) (Z.to_nat (h_arcount h)) p xs).
  { destruct Hc as [[_ Hl]|[Hl Hc]]; [by left|right]. split; [done|]. intros k x.
    destruct Hc as [[_ Hc]|[_ Hc]]; [by apply extra_cut_none|by apply extra_bad_none]. }
  assert (Hdet : forall ys q, seq_at (extra_at data) ptr q ys ->
    length ys = Z.to_nat (h_arcount h) \/ (h_tc h <> 0%Z /\ length ys < Z.to_nat (h_arcount h) /\ extra_cut data q) -> q = p /\ ys = xs).
  { intros ys q Hys Hl. destruct (seq_at_det _ _ _ _ (extra_at_det data) Hxs _ _ _ Hys Hmax) as [-> ->]; [|done].
    destruct Hl as [Hl|(_ & Hl & Hcut)]; [by left|right]. split; [done|]. intros k x. by apply extra_cut_none. }
  destruct (negb _) eqn:Eok.
  { eexists. split; [done|]. split; [done|]. intros ? ? ? (ys & q & Hys & Hl & _). destruct (Hdet _ _ Hys Hl) as [-> ->].
    apply negb_true_iff, orb_false_iff in Eok as [Eok Et]. apply Z.eqb_neq in Eok.
    destruct Hc as [[? _]|[Hlt Hc]]; [done|]. destruct Hl as [Hl|(Htc & _ & Hcut)]; [lia|].
    destruct Hc as [[-> _]|[_ Hb]]; [|by eapply extra_cut_not_bad]. apply Z.eqb_neq in Htc. by rewrite Htc in Et. }
  apply negb_false_iff in Eok.
  assert (Hlen : length xs = Z.to_nat (h_arcount h) \/ (h_tc h <> 0%Z /\ length xs < Z.to_nat (h_arcount h) /\ extra_cut data p)).
  { destruct Hc as [[_ Hl]|[Hl Hcode]]; [by left|right]. apply orb_true_iff in Eok as [Eok%Z.eqb_eq|Eok].
    - destruct Hcode as [[Hc _]|[Hc _]]; by rewrite Hc in Eok.
    - apply andb_true_iff in Eok as [Ec Et]. apply negb_true_iff, Z.eqb_neq in Et. split_and!; [done..|].
      destruct Hcode as [[_ ?]|[-> _]]; [done|]. done. }
  assert (Hthis : forall edns udp', (if numopt =? 0 then edns = false /\ udp' = udp
      else e_version ep = 0%Z /\ e_rcode ep = 0%Z /\ edns = true /\ udp' = udp_limit us ep udp) -> extras us data h ptr udp edns udp').
  { intros edns udp' Hx. exists xs, p. rewrite <- Hs. split_and!; done. }
  assert (Hrej : forall udp edns udp', extras us data h ptr udp edns udp' -> (numopt =? 0) = false ->
    e_version ep = 0%Z /\ e_rcode ep = 0%Z).
  { intros ? ? ? (ys & q & Hys & Hl & Hrest) Hn. destruct (Hdet ys q Hys Hl) as [-> ->]. rewrite <- Hs in Hrest. cbn in Hrest.
    rewrite Hn in Hrest. by destruct Hrest as (? & ? & _). }
  destruct (numopt =? 0) eqn:En; [eexists; split; [done|]; by apply Hthis|].
  destruct (Z.eqb_spec (e_version ep) 0) as [Ev|Ev]; cbn [negb].
  2: { eexists. split; [done|]. split; [done|]. intros ? ? ? Hx. by destruct (Hrej _ _ _ Hx). }
  destruct (Z.eqb_spec (e_rcode ep) 0) as [Er|Er]; cbn [negb]; [eexists; split; [done|]; by apply Hthis|].
  eexists. split; [done|]. split; [done|]. intros ? ? ? Hx. by destruct (Hrej _ _ _ Hx).
Qed.

(** The three kinds of replies. Exactly one of the conditions [discarded],
    [malformed] and [asks] holds of a message. *)
Inductive verdict (udp : option Z) : option (dns_hdr_t * list byte) -> option Z -> Prop :=
  | v_discard : discarded data -> verdict udp None udp
  | v_reject h body res udp' : malformed us data -> rejected us data res h body -> verdict udp (Some (h, body)) udp'
  | v_answer h qs edns udp' h' body c : asks us data udp h qs edns udp' ->
      composed (V := V) (W := W) queryts qs (h_id h) (h_rd h) udp' h' body c -> verdict udp (Some (h', body)) udp'.

(** The limit is the one of the daemon, or an OPT record raised it. *)
Definition limited (udp udp' : option Z) : Prop := udp' = udp \/ exists ep, udp' = udp_limit us ep udp.

(** What a message gets, other than its verdict, when an allocation failed. *)
Definition starved (resp : option (dns_hdr_t * list byte)) : Prop :=
  ~ discarded data /\ (resp = None \/ exists h body, resp = Some (h, body) /\ rejected us data RC.SERVFAIL h body).

(** How the processing ends. [m] is what the allocator answers. *)
Definition processed (udp : option Z) (m : list bool) (o : option outcome) : Prop := exists resp udp' m' e',
  o = Some (resp, udp', m', e') /\ P e' /\ replied resp /\ limited udp udp' /\ (verdict udp resp udp' \/ m <> [] /\ starved resp).

Lemma extras_limited h p udp edns udp' : extras us data h p udp edns udp' -> limited udp udp'.
Proof.
  intros (xs & q & _ & _ & Hx). cbn zeta in Hx. destruct (_ =? 0); [left; apply Hx|right]. eexists. apply Hx.
Qed.

Lemma asks_limited h qs udp edns udp' : asks us data udp h qs edns udp' -> limited udp udp'.
Proof.
  intros A. destruct (as_questions _ _ _ _ _ _ _ A) as (p & _ & [[_ Hx]|(_ & _ & _ & _ & _ & ->)]); [by eapply extras_limited|by left].
Qed.

Lemma error_processed res udp udp' m m1 (e : E) : 2 <= length data -> res <> RC.OK -> P e -> limited udp udp' -> (m = [] -> m1 = []) ->
  malformed us data \/ m <> [] /\ res = RC.SERVFAIL /\ ~ discarded data -> processed udp m (error_reply us data res udp' m1 e).
Proof.
  intros Hl Hres He Hlim Hm Hwhy. destruct (error_reply_spec res udp' m1 e Hl Hres) as (resp & m' & -> & Hr & Hv).
  eexists _, _, _, _. split; [done|]. split; [done|]. split; [done|]. split; [done|].
  assert (Hnd : ~ discarded data) by (destruct Hwhy as [[? _]|(_ & _ & ?)]; done).
  destruct Hv as [[-> Hne]|(h & body & -> & Hrej)]; [right; split; [by auto|]; split; [done|by left]|].
  destruct Hwhy as [Hmal|(Hne & -> & _)]; [left; by eapply v_reject|right]. split; [done|]. split; [done|]. right. by exists h, body.
Qed.

Lemma compose_processed ql qs h edns udp udp' m m1 r (e : E) : 2 <= length data -> P e -> get_hdr data = Some h -> GETINT16 data 0 = Some (h_id h) ->
  Forall2 question_ok ql qs -> asks us data udp h qs edns udp' -> (m = [] -> m1 = []) ->
  processed udp m ('(ans, m, e) ← compose_answer rnd us queryts udp' edns ql (h_id h) (h_rd h) m1 r e;
    match ans with None => error_reply us data RC.SERVFAIL udp' m e | Some a => Some (Some a, udp', m, e) end).
Proof.
  intros Hl He Hh Hid Hq Hask Hm.
  destruct (compose_answer_spec queryts qs rnd us udp' edns ql (h_id h) (h_rd h) m1 r e Hq He) as (o & m2 & e2 & -> & He2 & Hsome & Ho).
  cbn [mbind option_bind]. destruct o as [[h' body]|].
  - destruct (Ho h' body eq_refl) as (c & Hc). eexists _, _, _, _. split; [done|]. split; [done|]. split.
    + intros ? ? [= <- <-]. pose proof (co_hdr _ _ _ _ _ _ _ _ Hc) as F. split; [by rewrite (f_qr _ _ F)|by rewrite (f_id _ _ F)].
    + split; [by eapply asks_limited|]. left. by eapply v_answer.
  - assert (Hne : m <> []) by (intros Em; by destruct (Hsome (Hm Em))).
    apply error_processed; [done|done|done|by eapply asks_limited|done|]. right. split_and!; [done..|]. by eapply asks_not_discarded.
Qed.

Section Header.

Context (h : dns_hdr_t) (Hlen : sizeof_dns_hdr_t <= length data) (Hh : get_hdr data = Some h).
Context (Hquery : h_qr h = QR_QUERY /\ h_opcode h = OP_QUERY /\ h_z h = 0%Z /\ h_rcode h = RC.OK).
Context (Hsec : h_ancount h = 0%Z /\ h_nscount h = 0%Z).

Lemma not_discarded_here : ~ discarded data.
Proof.
  unfold sizeof_dns_hdr_t in Hlen. intros [Hd|(h' & Hh' & Hd)]; [lia|]. rewrite Hh in Hh'. injection Hh' as <-.
  destruct Hquery as (Hq & _ & _ & Hr). destruct Hd as [Hd|(_ & _ & Hd)]; done.
Qed.

(** The questions of a well-formed query are those that were read. *)
Lemma malformed_here p qs : seq_at (question_at data) sizeof_dns_hdr_t p qs -> maximal (question_at data) (Z.to_nat (h_qdcount h)) p qs ->
  (qs <> [] -> length qs = Z.to_nat (h_qdcount h) -> forall udp edns udp', ~ extras us data h p udp edns udp') ->
  (qs <> [] -> h_tc h <> 0%Z -> length qs < Z.to_nat (h_qdcount h) -> question_cut data p -> h_arcount h <> 0%Z) -> malformed us data.
Proof.
  intros Hs Hmax Hall Hsome. split; [exact not_discarded_here|]. intros udp h' qs' edns udp' A.
  pose proof (as_hdr _ _ _ _ _ _ _ A) as Hh'. rewrite Hh in Hh'. injection Hh' as <-. pose proof (as_some _ _ _ _ _ _ _ A) as Hne.
  destruct (as_questions _ _ _ _ _ _ _ A) as (p' & Hs' & Hq).
  destruct (seq_at_det _ _ _ _ (question_at_det data) Hs _ _ _ Hs' Hmax) as [-> ->].
  { destruct Hq as [[Hl _]|(_ & Hl & Hc & _)]; [by left|right]. split; [done|]. intros k x. by apply question_cut_none. }
  destruct Hq as [[Hl Hx]|(Htc & Hl & Hc & Ha & _)]; [by eapply Hall|by apply Hsome].
Qed.

Lemma arcount_nonneg : (0 <= h_arcount h)%Z.
Proof.
  unfold get_hdr in Hh. destruct (GETINT16 data 0); [|done]. destruct (data !! 2); [|done]. destruct (data !! 3); [|done].
  destruct (GETINT16 data 4); [|done]. destruct (GETINT16 data 6); [|done]. destruct (GETINT16 data 8); [|done].
  destruct (GETINT16 data 10) eqn:Ea; [|done]. apply GETINT16_range in Ea. cbn in Hh. injection Hh as <-. cbn. lia.
Qed.

(** All questions have been read. *)
Lemma answer_all qs ptr sz udp m m1 r (e : E) : P e -> seq_at (question_at data) sizeof_dns_hdr_t ptr qs ->
  length qs = Z.to_nat (h_qdcount h) -> ptr + sz = length data -> 3 <= ptr -> (m = [] -> m1 = []) -> GETINT16 data 0 = Some (h_id h) ->
  processed udp m (add ← scan_additional us data h RC.OK ptr sz udp;
    match add with
    | inl res => error_reply us data res udp m1 e
    | inr (edns, udp) =>
        match map element qs with
        | [] => error_reply us data RC.FORMAT udp m1 e
        | _ => '(ans, m, e) ← compose_answer rnd us queryts udp edns (map element qs) (h_id h) (h_rd h) m1 r e;
          match ans with None => error_reply us data RC.SERVFAIL udp m e | Some a => Some (Some a, udp, m, e) end
        end
    end).
Proof.
  intros He Hqs Hl Hsz H3 Hm Hid. pose proof Hlen as Hlen'. unfold sizeof_dns_hdr_t in Hlen'.
  destruct (scan_additional_spec h RC.OK ptr sz udp Hsz H3 arcount_nonneg) as ([code|[edns udp']] & -> & Hx); cbn [mbind option_bind].
  - destruct Hx as [Hcode Hx]. apply error_processed; [lia|done|done|by left|done|]. left.
    eapply malformed_here; [done|by left|done|]. intros _ _ Hlt. lia.
  - change (RC.OK =? RC.TRUNC)%Z with false in Hx. cbn iota in Hx. destruct (decide (qs = [])) as [Eq|Hne].
    + rewrite Eq. cbn [map]. apply error_processed; [lia|done|done|by eapply extras_limited|done|]. left.
      eapply malformed_here; [done|by left|done|done].
    + destruct (map element qs) as [|q0 ql0] eqn:Eql; [by destruct qs|]. rewrite <- Eql.
      eapply (compose_processed _ qs); [lia|done|done|done|by eapply questions_ok| |done].
      constructor; [done..|]. exists ptr. split; [done|]. left. done.
Qed.

(** Only some questions could be read. *)
Lemma answer_some qs p ptr sz udp m m1 r (e : E) : P e -> seq_at (question_at data) sizeof_dns_hdr_t p qs -> qs <> [] -> h_tc h <> 0%Z ->
  length qs < Z.to_nat (h_qdcount h) -> question_cut data p -> ptr + sz = length data -> 3 <= ptr -> (m = [] -> m1 = []) -> GETINT16 data 0 = Some (h_id h) ->
  processed udp m (add ← scan_additional us data h RC.TRUNC ptr sz udp;
    match add with
    | inl res => error_reply us data res udp m1 e
    | inr (edns, udp) =>
        match map element qs with
        | [] => error_reply us data RC.FORMAT udp m1 e
        | _ => '(ans, m, e) ← compose_answer rnd us queryts udp edns (map element qs) (h_id h) (h_rd h) m1 r e;
          match ans with None => error_reply us data RC.SERVFAIL udp m e | Some a => Some (Some a, udp, m, e) end
        end
    end).
Proof.
  intros He Hqs Hne Htc Hl Hcut Hsz H3 Hm Hid. pose proof Hlen as Hlen'. unfold sizeof_dns_hdr_t in Hlen'.
  destruct (scan_additional_spec h RC.TRUNC ptr sz udp Hsz H3 arcount_nonneg) as ([code|[edns udp']] & -> & Hx); cbn [mbind option_bind].
  - destruct Hx as [Hcode Hx]. cbn in Hx. apply error_processed; [lia|done|done|by left|done|]. left.
    eapply malformed_here; [done|right; split; [done|intros k x; by apply question_cut_none]| |done]. intros _ Heq. lia.
  - cbn in Hx. destruct Hx as (Ha & -> & ->). destruct (map element qs) as [|q0 ql0] eqn:Eql; [by destruct qs|]. rewrite <- Eql.
    eapply (compose_processed _ qs); [lia|done|done|done|by eapply questions_ok| |done].
    constructor; [done..|]. exists p. split; [done|]. right. done.
Qed.

Lemma answer_query_spec udp m r (e : E) : P e -> processed udp m (answer_query rnd us queryts data h udp m r e).
Proof.
  intros He. destruct (get_hdr_some data Hlen) as (h' & Hh' & Hid & Hqd). rewrite Hh in Hh'. injection Hh' as <-.
  unfold answer_query, decode_query. rewrite Hqd. cbn [mbind option_bind].
  destruct (decode_questions_spec data (Z.to_nat (h_qdcount h)) sizeof_dns_hdr_t (length data - sizeof_dns_hdr_t) m [])
    as (code & ptr & sz & ql & m1 & -> & Hsz & Hptr & Hm & Hd); [lia|]. cbn [mbind option_bind].
  assert (2 <= length data /\ 3 <= ptr) as [H2 H3] by (unfold sizeof_dns_hdr_t in *; lia).
  inversion Hd as [p qs Hs Hl|p p' qs Hs Hl Hcut|p p' qs Hs Hl Hbad|p Hne]; subst code ptr ql; cbn [app].
  - change (RC.OK =? RC.TRUNC)%Z with false. change (RC.OK =? RC.OK)%Z with true. cbn [andb negb].
    apply answer_all; eauto.
  - change (RC.TRUNC =? RC.TRUNC)%Z with true. change (RC.TRUNC =? RC.OK)%Z with false. cbn [andb negb].
    assert (Hmax : maximal (question_at data) (Z.to_nat (h_qdcount h)) p' qs).
    { right. split; [done|]. intros k x. by apply question_cut_none. }
    destruct (Z.eqb_spec (h_tc h) 0) as [Htc|Htc]; cbn [orb].
    { apply error_processed; [done|done|done|by left|done|]. left. eapply malformed_here; [done|done|intros _ Heq; lia|done]. }
    destruct qs as [|q qs].
    { cbn [map]. apply error_processed; [done|done|done|by left|done|]. left. by eapply malformed_here. }
    eapply (answer_some (q :: qs)); eauto.
  - change (RC.FORMAT =? RC.TRUNC)%Z with false. change (RC.FORMAT =? RC.OK)%Z with false. cbn [andb negb].
    apply error_processed; [done|done|done|by left|done|]. left.
    eapply malformed_here; [done|right; split; [done|intros k x; by apply question_bad_none]|intros _ Heq; lia|].
    intros _ _ _ Hcut. by destruct (question_cut_not_bad _ _ Hcut).
  - change (RC.SERVFAIL =? RC.TRUNC)%Z with false. change (RC.SERVFAIL =? RC.OK)%Z with false. cbn [andb negb].
    apply error_processed; [done|done|done|by left|done|]. right. split_and!; [done..|]. exact not_discarded_here.
Qed.

End Header.

Lemma process_query_spec udp m r (e : E) : P e -> processed udp m (process_query rnd us queryts data udp m r e).
Proof.
  intros He. unfold process_query. destruct (Nat.ltb_spec (length data) 2) as [Hl2|Hl2].
  { eexists _, _, _, _. split; [done|]. split; [done|]. split; [done|]. split; [by left|]. left. apply v_discard. by left. }
  destruct (Nat.ltb_spec (length data) sizeof_dns_hdr_t) as [Hl|Hl].
  { assert (Hno : forall h, get_hdr data <> Some h) by (intros h Hh; apply get_hdr_length in Hh; lia).
    apply error_processed; [done|done|done|by left|done|]. left. split.
    - intros [Hd|(h & Hh & _)]; [lia|by eapply Hno].
    - intros ? h ? ? ? A. by eapply Hno, (as_hdr _ _ _ _ _ _ _ A). }
  destruct (get_hdr_some data Hl) as (h & Hh & _). rewrite Hh. cbn [mbind option_bind].
  assert (Hrej : forall res, res <> RC.OK -> h_qr h = QR_QUERY -> ~ (h_opcode h = OP_QUERY /\ h_z h = 0%Z /\ h_rcode h <> RC.OK) ->
    (forall udp qs edns udp', ~ asks us data udp h qs edns udp') -> processed udp m (error_reply us data res udp m e)).
  { intros res Hres Hqr Hd Hno. apply error_processed; [done|done|done|by left|done|]. left. split.
    - intros [?|(h' & Hh' & Hd')]; [lia|]. rewrite Hh in Hh'. injection Hh' as <-. destruct Hd'; done.
    - intros ? h' ? ? ? A. pose proof (as_hdr _ _ _ _ _ _ _ A) as Hh'. rewrite Hh in Hh'. injection Hh' as <-. by eapply Hno. }
  assert (Hdisc : h_qr h <> QR_QUERY \/ h_opcode h = OP_QUERY /\ h_z h = 0%Z /\ h_rcode h <> RC.OK -> processed udp m (Some (None, udp, m, e))).
  { intros Hd. eexists _, _, _, _. split; [done|]. split; [done|]. split; [done|]. split; [by left|]. left. apply v_discard. right. by exists h. }
  destruct (Z.eqb_spec (h_qr h) QR_QUERY) as [Eqr|Eqr]; cbn [negb]; [|by apply Hdisc; left].
  destruct (Z.eqb_spec (h_opcode h) OP_QUERY) as [Eop|Eop]; cbn [negb].
  2: { apply Hrej; [done|done|tauto|]. intros ? ? ? ? A. by destruct (as_query _ _ _ _ _ _ _ A) as (_ & ? & _). }
  destruct (Z.eqb_spec (h_z h) 0) as [Ez|Ez]; cbn [negb].
  2: { apply Hrej; [done|done|tauto|]. intros ? ? ? ? A. by destruct (as_query _ _ _ _ _ _ _ A) as (_ & _ & ? & _). }
  destruct (Z.eqb_spec (h_rcode h) RC.OK) as [Erc|Erc]; cbn [negb]; [|by apply Hdisc; right].
  destruct (Z.eqb_spec (h_ancount h) 0) as [Ean|Ean]; cbn [negb].
  2: { apply Hrej; [done|done|tauto|]. intros ? ? ? ? A. by destruct (as_sections _ _ _ _ _ _ _ A). }
  destruct (Z.eqb_spec (h_nscount h) 0) as [Ens|Ens]; cbn [negb].
  2: { apply Hrej; [done|done|tauto|]. intros ? ? ? ? A. by destruct (as_sections _ _ _ _ _ _ _ A). }
  by apply answer_query_spec.
Qed.

Lemma answered_not_discarded udp x udp' (m : list bool) : verdict udp (Some x) udp' \/ m <> [] /\ starved (Some x) -> ~ discarded data.
Proof.
  intros [Hv|(_ & Hs & _)]; [|done]. inversion Hv as [|? ? ? ? [Hm _]|? ? ? ? ? ? ? A]; subst; [done|].
  eapply asks_not_discarded; [done|]. pose proof (get_hdr_length _ _ (as_hdr _ _ _ _ _ _ _ A)) as Hl. unfold sizeof_dns_hdr_t in Hl. lia.
Qed.

(** C12: Whatever bytes arrive, [process_query] is defined and leaves a good cache; a
    reply has the number of the query and is marked as a response. Messages that
    are too short for a number, responses and well-formed headers of a query with
    an error code are ignored, and nothing else is. The well-formed queries, those
    with a header of a query and the announced questions and additional records,
    up to where the message ends if it is marked as truncated, are answered by
    [compose_answer]. Everything else is answered with an error code and no records.
    Only if an allocation fails, a message that should get an answer or an error
    can get the error SERVFAIL without records, or nothing. *)
Theorem process_query_correct udp m r (e : E) : P e -> processed udp m (process_query rnd us queryts data udp m r e).
Proof. apply process_query_spec. Qed.

End Process.

(** ** The header of a reply *)

(** The bit fields have their widths. *)
Definition normal (h : dns_hdr_t) : dns_hdr_t :=
  let b z := Z.land z (Z.ones 1) in
  Hdr (u16 (h_id h)) (b (h_rd h)) (b (h_tc h)) (b (h_aa h)) (Z.land (h_opcode h) (Z.ones 4)) (b (h_qr h))
    (Z.land (h_rcode h) (Z.ones 4)) (b (h_cd h)) (b (h_ad h)) (b (h_z h)) (b (h_ra h))
    (u16 (h_qdcount h)) (u16 (h_ancount h)) (u16 (h_nscount h)) (u16 (h_arcount h)).

Lemma land_bit z : Z.land z (Z.ones 1) = 0%Z \/ Z.land z (Z.ones 1) = 1%Z.
Proof. rewrite Z.land_ones by lia. pose proof (Z.mod_pos_bound z (2 ^ 1)). lia. Qed.

Lemma land_nibble z : exists n, (n < 16)%nat /\ Z.land z (Z.ones 4) = Z.of_nat n.
Proof. rewrite Z.land_ones by lia. exists (Z.to_nat (z mod 2 ^ 4)). pose proof (Z.mod_pos_bound z (2 ^ 4)). lia. Qed.

Lemma fields1 a b c n d : a = 0%Z \/ a = 1%Z -> b = 0%Z \/ b = 1%Z -> c = 0%Z \/ c = 1%Z -> n < 16 -> d = 0%Z \/ d = 1%Z ->
  let f := b2z (z2b (Z.lor (Z.lor (Z.lor (Z.lor (Z.shiftl a 0) (Z.shiftl b 1)) (Z.shiftl c 2)) (Z.shiftl (Z.of_nat n) 3)) (Z.shiftl d 7))) in
  (field_of f 0 1, field_of f 1 1, field_of f 2 1, field_of f 3 4, field_of f 7 1) = (a, b, c, Z.of_nat n, d).
Proof.
  intros Ha Hb Hc Hn Hd. do 16 (destruct n as [|n]; [by destruct Ha as [->| ->], Hb as [->| ->], Hc as [->| ->], Hd as [->| ->]; vm_compute|]). lia.
Qed.

Lemma fields2 n a b c d : n < 16 -> a = 0%Z \/ a = 1%Z -> b = 0%Z \/ b = 1%Z -> c = 0%Z \/ c = 1%Z -> d = 0%Z \/ d = 1%Z ->
  let f := b2z (z2b (Z.lor (Z.lor (Z.lor (Z.lor (Z.shiftl (Z.of_nat n) 0) (Z.shiftl a 4)) (Z.shiftl b 5)) (Z.shiftl c 6)) (Z.shiftl d 7))) in
  (field_of f 0 4, field_of f 4 1, field_of f 5 1, field_of f 6 1, field_of f 7 1) = (Z.of_nat n, a, b, c, d).
Proof.
  intros Hn Ha Hb Hc Hd. do 16 (destruct n as [|n]; [by destruct Ha as [->| ->], Hb as [->| ->], Hc as [->| ->], Hd as [->| ->]; vm_compute|]). lia.
Qed.

Lemma get_hdr_bytes h body : get_hdr (hdr_bytes h ++ body) = Some (normal h).
Proof.
  assert (Hput : forall z, GETINT16 (PUTINT16 z ++ []) 0 = Some (u16 z)) by (intros z; by apply (GETINT16_put [])).
  unfold get_hdr. set (M := hdr_bytes h ++ body).
  change (GETINT16 M 0) with (GETINT16 (PUTINT16 (h_id h) ++ []) 0). change (GETINT16 M 4) with (GETINT16 (PUTINT16 (h_qdcount h) ++ []) 0).
  change (GETINT16 M 6) with (GETINT16 (PUTINT16 (h_ancount h) ++ []) 0). change (GETINT16 M 8) with (GETINT16 (PUTINT16 (h_nscount h) ++ []) 0).
  change (GETINT16 M 10) with (GETINT16 (PUTINT16 (h_arcount h) ++ []) 0). rewrite !Hput.
  change (M !! 2) with (Some (z2b (hdr_flags1 h))). change (M !! 3) with (Some (z2b (hdr_flags2 h))).
  cbn [mbind option_bind fmap option_fmap option_map]. unfold hdr_flags1, hdr_flags2, bits, normal.
  destruct (land_nibble (h_opcode h)) as (n & Hn & En). destruct (land_nibble (h_rcode h)) as (k & Hk & Ek). rewrite En, Ek.
  pose proof (fields1 _ _ _ n _ (land_bit (h_rd h)) (land_bit (h_tc h)) (land_bit (h_aa h)) Hn (land_bit (h_qr h))) as F1.
  pose proof (fields2 k _ _ _ _ Hk (land_bit (h_cd h)) (land_bit (h_ad h)) (land_bit (h_z h)) (land_bit (h_ra h))) as F2.
  cbn zeta in F1, F2. injection F1 as -> -> -> -> ->. injection F2 as -> -> -> -> ->. done.
Qed.

(** ** Datagrams *)

Section Datagram.

Context {E : Type} `{ResolverOk E P V W} (rnd : bool) (us queryts : Z).

(** A response is not answered. *)
Lemma response_ignored d h udp m r (e : E) : get_hdr d = Some h -> h_qr h = QR_RESP ->
  process_query rnd us queryts d udp m r e = Some (None, udp, m, e).
Proof.
  intros Hh Hqr. pose proof (get_hdr_length d h Hh) as Hl.
  unfold process_query, sizeof_dns_hdr_t in *. rewrite (proj2 (Nat.ltb_ge _ 2)), (proj2 (Nat.ltb_ge _ 12)), Hh by lia.
  cbn [mbind option_bind]. by rewrite Hqr.
Qed.

(** What is sent for a reply with the limit [u]. *)
Definition datagram (u : Z) (h : dns_hdr_t) (body d : list byte) : Prop :=
  (d = hdr_bytes h ++ body /\ (zlen d <= u)%Z) \/
  ((u < zlen (hdr_bytes h ++ body))%Z /\ zlen d = u /\ d = take (Z.to_nat u) (hdr_bytes (with_tc 1 h) ++ body)).

Lemma datagram_hdr u h body d : datagram u h body d -> (12 <= u)%Z -> h_qr h = QR_RESP ->
  (12 <= zlen d <= u)%Z /\ exists h', get_hdr d = Some h' /\ h_qr h' = QR_RESP /\ h_id h' = u16 (h_id h) /\ (zlen d < zlen (hdr_bytes h ++ body) -> h_tc h' = 1)%Z.
Proof.
  intros Hd Hu Hqr. assert (Hzl : forall h, zlen (hdr_bytes h) = 12%Z) by done. destruct Hd as [[-> Hle]|(Hlt & Hz & ->)].
  - split; [rewrite zlen_app, Hzl in *; pose proof (zlen_nonneg body); lia|]. eexists. split; [apply get_hdr_bytes|]. cbn. rewrite Hqr. split_and!; [done..|lia].
  - split; [lia|]. rewrite take_app_ge by (change (length (hdr_bytes (with_tc 1 h))) with 12; lia).
    eexists. split; [apply get_hdr_bytes|]. cbn. rewrite Hqr. done.
Qed.

(** C27: The daemon answers each datagram with at most one datagram, which fits
    the limit: 512 bytes, or what the client and the configuration allow. It is the
    reply of [process_query], marked if it had to be cut off; there is none for the
    messages that are ignored, and for others only if memory runs out. It has the
    number of the query, and it is marked as a response, so that a daemon that gets
    it does not answer. *)
Theorem udp_answer_correct data m r (e : E) : (UDP_BUFSIZE <= us)%Z -> P e ->
  exists o e', udp_answer rnd us queryts data m r e = Some (o, e') /\ P e' /\
    (discarded data -> o = None) /\ (m = [] -> o = None -> discarded data) /\
    forall d, o = Some d -> (zlen d <= us)%Z /\
      (exists h body u, datagram u h body d /\
        (verdict (V := V) (W := W) us queryts data (Some UDP_BUFSIZE) (Some (h, body)) (Some u) \/
         m <> [] /\ starved us data (Some (h, body)))) /\
      GETINT16 d 0 = GETINT16 data 0 /\
      forall udp m r e, process_query rnd us queryts d udp m r e = Some (None, udp, m, e).
Proof.
  unfold UDP_BUFSIZE. intros Hus He.
  destruct (process_query_spec rnd us queryts data (Some 512%Z) m r e He) as (resp & udp' & m' & e' & Hp & He' & Hr & Hlim & Hv).
  assert (exists u, udp' = Some u /\ (512 <= u <= us)%Z) as (u & -> & Hu).
  { destruct Hlim as [->|[ep ->]]; [by exists 512%Z|]. unfold udp_limit, UDP_BUFSIZE. cbn [mbind option_bind]. eexists. split; [done|].
    destruct (Z.ltb_spec 512 (e_udpsize ep)); lia. }
  unfold udp_answer, UDP_BUFSIZE. rewrite Hp. cbn [mbind option_bind]. destruct resp as [[h body]|].
  2: { eexists _, _. split; [done|]. split; [done|]. split; [done|]. split; [|done]. intros Em _.
       destruct Hv as [Hv|[? _]]; [by inversion Hv|done]. }
  destruct (Hr h body eq_refl) as [Hqr Hid]. eexists _, _. split; [done|]. split; [done|].
  split; [by intros Hd; destruct (answered_not_discarded _ _ _ _ _ _ _ Hv)|]. split; [done|]. intros d Hd. apply (inj Some) in Hd. symmetry in Hd.
  assert (Hdg : datagram u h body d).
  { destruct (Z.ltb_spec u (zlen (hdr_bytes h ++ body))) as [Hlt|Hge]; rewrite Hd; [right|by left]. split; [done|]. split; [|done].
    unfold zlen in *. rewrite length_take, length_app in *. change (length (hdr_bytes (with_tc 1 h))) with (length (hdr_bytes h)). lia. }
  destruct (datagram_hdr u h body d Hdg) as (Hz & h' & Hh' & Hqr' & Hid' & _); [lia|done|].
  split; [lia|]. split; [exists h, body, u; done|]. split; [|intros; by eapply response_ignored].
  destruct (get_hdr_some d) as (h1 & Hh1 & Hid1 & _); [unfold zlen, sizeof_dns_hdr_t in *; lia|]. rewrite Hh' in Hh1. injection Hh1 as <-.
  rewrite Hid, Hid1, Hid', u16_id; [done|]. by apply GETINT16_range in Hid as [? _].
Qed.

End Datagram.
