(* ===== verification/PdnsdRecordsRun.v ===== *)
(** * A received message as cache entries

    [rrs2cent] of [PdnsdRecords] on the cache of [PdnsdCache]: for any message it
    reads inside the message, uses no freed memory and leaves the cache as it is,
    and every record in the entries it builds is one of the message under
    the same name. If there is memory, and the records announced are there and
    well-formed, they all are in the entries. *)

From S2P Require Import Prelude.
From S2P Require Import PdnsdNames.
From S2P Require Import PdnsdCompress.
From S2P Require Import PdnsdHash.
From S2P Require Import PdnsdSort.
From S2P Require Import PdnsdRecords.
From S2P Require Import PdnsdAnswer.
From S2P Require Import PdnsdAnswerInv.
From S2P Require Import PdnsdAnswerRun.
From S2P Require Import PdnsdQuery.
From S2P Require Import PdnsdCent.
From S2P Require Import PdnsdCache.
From S2P Require Import PdnsdCentInv.
From S2P Require Import PdnsdCacheInv.
From S2P Require Import PdnsdCacheOps.
From S2P Require Import PdnsdCacheAdd.
From S2P Require Import PdnsdCacheOwn.
From S2P Require Import PdnsdDisk.
From S2P Require Import PdnsdDiskInv.
From S2P Require Import PdnsdCacheSure.
From S2P Require Import PdnsdCacheMem.

Open Scope nat_scope.

(** Two facts on the same run. *)
Lemma post_and {A} (m : M A) s (Q R : A -> cache -> Prop) : post m s Q -> post m s R -> post m s (fun r s' => Q r s' /\ R r s').
Proof. intros (r & s' & E & HQ) (r' & s'' & E' & HR). rewrite E in E'. injection E' as <- <-. by exists r, s'. Qed.

Lemma post_granted {A} (m : M A) s Q g : post m s Q -> sure m g -> post m s (fun r s' => Q r s' /\ (mallocs s = [] -> mallocs s' = [] /\ g r)).
Proof. intros (r & s' & E & HQ) Hg. exists r, s'. split; [done|]. split; [done|]. intros Hs. by apply (Hg s). Qed.

Lemma post_lift {A} (o : option A) x s (Q : A -> cache -> Prop) : o = Some x -> Q x s -> post (lift o) s Q.
Proof. intros -> HQ. by exists x, s. Qed.

(** ** Records of an entry *)

Definition slot_data (c : dns_cent_t) (i : nat) : list (list byte) :=
  match RRARR_INDEX c i with Some r => rrs r | None => [] end.

Definition put_once (d : list byte) (l : list (list byte)) : list (list byte) := if bool_decide (d ∈ l) then l else l ++ [d].

Lemma put_once_in d l : d ∈ put_once d l.
Proof. unfold put_once. case_bool_decide; [done|]. apply elem_of_app. right. by left. Qed.

Lemma put_once_sub d l x : x ∈ l -> x ∈ put_once d l.
Proof. intros Hx. unfold put_once. case_bool_decide; [done|]. apply elem_of_app. by left. Qed.

Lemma put_once_inv d l x : x ∈ put_once d l -> x ∈ l \/ x = d.
Proof.
  unfold put_once. case_bool_decide; [by left|]. intros [|?%list_elem_of_singleton]%elem_of_app; [by left|by right].
Qed.

(** ** Memory *)

Lemma sure_lift {A} (o : option A) : sure (lift o) (fun _ => True).
Proof. destruct o as [x|]; [|done]. by intros s r s' Hs [= <- <-]. Qed.

Lemma sure_find_centa l name : sure (find_centa l name) (fun _ => True).
Proof.
  induction l as [|b l IH]; cbn [find_centa]; [sure_step|]. sure_step. eapply sure_bind; [apply sure_lift|intros ? _].
  sure_step; [sure_step|apply IH].
Qed.

Lemma sure_rr_to_cache abi l name type tl d f t : sure (rr_to_cache abi l name type tl d f t) (fun r => fst r = RC.OK).
Proof.
  unfold rr_to_cache. eapply sure_bind; [apply sure_find_centa|intros o _]. destruct o as [b|].
  { eapply sure_bind; [apply sure_cent_rr|]. intros ? ->. sure_step. }
  eapply (sure_bind _ _ (fun o => o <> None)).
  { unfold da_grow1. eapply (sure_bind _ _ (fun ok => ok = true)); [sure_step; [apply sure_malloc|sure_step]|]. intros ? ->. sure_step. }
  intros [l'|] Hl; [|done]. eapply sure_bind; [apply sure_init_cent|]. intros [b|] Hb; [|done].
  eapply sure_bind; [apply sure_cent_rr|]. intros ? ->. sure_step.
Qed.

(** ** The list of record sets *)

(** A program that works on the entry [a], which is not in the list, leaves the list
    as it is. *)
Section Steady.

Context (L : list (nat * rr_lent_t)) (a : nat).

Definition steady (s : cache) : Prop := rrset_l s = L /\ forall c, cents s !! a = Some c -> lent_at c None = None.

Definition steadily {A} (m : M A) : Prop := forall s r s', m s = Some (r, s') -> steady s -> steady s'.

Lemma steadily_bind {A B} (m : M A) (k : A -> M B) : steadily m -> (forall x, steadily (k x)) -> steadily (m ≫= k).
Proof.
  intros Hm Hk s r s'. unfold mbind, M_bind. destruct (m s) as [[x s1]|] eqn:E1; [|done]. intros E2 H. by eapply Hk, Hm.
Qed.

Lemma steadily_ret {A} (x : A) : steadily (mret x).
Proof. by intros s r s' [= <- <-]. Qed.

Lemma steadily_fail {A} : steadily (@fail A).
Proof. done. Qed.

Lemma steadily_malloc : steadily malloc.
Proof. intros s r s'. unfold malloc. destruct (mallocs s); by intros [= <- <-]. Qed.

Lemma steadily_load b : steadily (load b).
Proof. intros s r s'. unfold load. destruct (cents s !! b); [|done]. by intros [= <- <-]. Qed.

Lemma steadily_store c : lent_at c None = None -> steadily (store a c).
Proof.
  intros Hc s r s' [= <- <-] [Hl Hs]. split; [done|]. intros c'. simpl. rewrite lookup_insert_eq. by intros [= <-].
Qed.

Lemma steadily_assert b : steadily (assert_that b).
Proof. destruct b; [apply steadily_ret|apply steadily_fail]. Qed.

#[local] Hint Resolve steadily_ret steadily_fail steadily_malloc steadily_load steadily_assert : core.
#[local] Hint Extern 1 (steadily (store _ _)) => (apply steadily_store; reflexivity) : core.

Ltac steady_step :=
  lazymatch goal with
  | |- steadily (mbind _ _) => apply steadily_bind; [|intros ?]
  | |- steadily (if ?b then _ else _) => destruct b
  | |- steadily (match ?x with _ => _ end) => destruct x
  | |- _ => solve [eauto 2]
  end.

Lemma steadily_unnegate : steadily (unnegate a).
Proof.
  intros s r s'. unfold unnegate, load, mbind, M_bind. cbn. destruct (cents s !! a) as [c|] eqn:Ha; [|done]. cbn.
  destruct (negative c); [|by intros [= <- <-]]. intros E H. pose proof (proj2 H c Ha) as Hn. unfold lent_at in Hn.
  destruct (body c) as [l t0 t1|x]; [|done]. rewrite Hn in E. cbn in E. injection E as <- <-.
  by apply (steadily_store (with_body (RR (repeat None NRRMU)) (with_flags (without (flags c) DF_NEGATIVE) c)) eq_refl s tt).
Qed.

#[local] Hint Resolve steadily_unnegate : core.

Lemma steadily_add_rr abi type tl t f d : steadily (add_cent_rr abi a type tl t f d).
Proof.
  unfold add_cent_rr, add_cent_rr_int, add_cent_rrset_by_index. repeat steady_step.
Qed.

End Steady.

Section Run.

Variable abi : sizes.

Notation Core := (Core abi).
Notation Inv := (Inv abi).

(** The cache is as it was: the hash table, the counters, the list of record sets and
    every entry in the cache. Only entries outside it, which belong to callers, may
    be different. *)
Record undisturbed (s s' : cache) : Prop := {
  u_quiet : PdnsdCacheOwn.quiet abi s s';
  u_hash : hash s' = hash s;
  u_size : cache_size s' = cache_size s;
  u_num : ent_num s' = ent_num s;
  u_sort : insert_sort s' = insert_sort s;
  u_list : rrset_l s' = rrset_l s;
  u_cents : forall k a, hash s !! k = Some a -> cents s' !! a = cents s !! a;
}.

Lemma undisturbed_refl s : Inv s -> undisturbed s s.
Proof. intros I. by constructor; [apply PdnsdCacheOwn.quiet_refl|..]. Qed.

Lemma undisturbed_trans s1 s2 s3 : undisturbed s1 s2 -> undisturbed s2 s3 -> undisturbed s1 s3.
Proof.
  intros [] []. constructor; try congruence; [by eapply PdnsdCacheOwn.quiet_trans|].
  intros k a Hk. rewrite u_cents1 with k a by congruence. by apply u_cents0 with k.
Qed.

Lemma undisturbed_inv s s' : undisturbed s s' -> Inv s'.
Proof. intros Q. apply Q. Qed.

Lemma undisturbed_malloc m s : Inv s -> undisturbed s (set_mallocs m s).
Proof. intros I. constructor; try done. apply fine_quiet, fine_ext; [by apply inv_mallocs|done..]. Qed.

Lemma undisturbed_new c m s : Inv s -> cent_ok abi c -> (forall i, lent_at c i = None) -> undisturbed s (with_new c m s).
Proof.
  intros I Ok Nl. constructor; try done; [by apply fine_quiet, fine_with_new|]. intros k a Hk. simpl.
  rewrite lookup_insert_ne; [done|]. intros <-. apply (fresh_unhashed abi s k) in Hk; [done|apply I].
Qed.

Lemma undisturbed_freed s b c : Inv s -> own s b c -> undisturbed s (free_state b s).
Proof.
  intros I Ow. constructor; try done; [by eapply own_freed|..].
  - simpl. apply filter_all. intros [l [a i]] Hin. simpl. intros ->.
    apply (k_list _ _ (b_core _ _ (i_base _ _ I))) in Hin as (c' & Hc' & Hl). rewrite (proj1 Ow) in Hc'. injection Hc' as <-.
    by rewrite (own_unlisted abi s b c i I Ow) in Hl.
  - intros k a Hk. simpl. rewrite lookup_delete_ne; [done|]. intros <-. by apply (proj2 Ow k).
Qed.

Lemma undisturbed_touched s b c s' : Inv s -> own s b c -> touches b s s' -> steady (rrset_l s) b s' -> PdnsdCacheOwn.quiet abi s s' -> undisturbed s s'.
Proof.
  intros I [_ Nb] [T1 T2 T3 T4 T5 _] [Hl _] Q. constructor; try done. intros k a Hk. apply T5. intros ->. by apply (Nb k).
Qed.

(** [add_cent_rr] adds the data to the set of its type, unless they are there. *)
Lemma add_rr_data s a c type i tl t f d : Core s -> cents s !! a = Some c -> rr_index type = Some i -> i < NRRTOT ->
  has (flags c) DF_LOCAL = false ->
  post (add_cent_rr abi a type tl t f d) s (fun ok s' => exists c', cents s' !! a = Some c' /\
    forall j, slot_data c' j = if decide (j = i /\ ok = true) then put_once d (slot_data c j) else slot_data c j).
Proof.
  intros K Ha Hi Li Hf. pose proof (k_cents _ _ K _ _ Ha) as Ok. unfold add_cent_rr. pstep. eapply post_load; [done|].
  rewrite Hf. cbn [andb]. rewrite Hi. pstep. apply post_assert; [by apply Nat.ltb_lt|]. rewrite (testext abi) by done.
  destruct (RRARR_INDEX c i) as [r|] eqn:Hr.
  - pstep. pstep. set (r1 := RRSet _ _ _ _ _). destruct (set_slot_works abi s a c i r r1) as (K1 & T1 & I1); try done.
    set (c1 := set_slot i (Some r1) c) in *. set (s1 := set_cents _ _) in *.
    assert (Ha1 : cents s1 !! a = Some c1) by (simpl; apply lookup_insert_eq).
    assert (D1 : forall j, slot_data c1 j = slot_data c j).
    { intros j. unfold slot_data. rewrite I1. destruct (decide (j = i)) as [->|]; [by rewrite Hr|done]. }
    assert (Hold : slot_data c i = rrs r) by (unfold slot_data; by rewrite Hr).
    case_bool_decide as Hd.
    { pstep. exists c1. split; [done|]. intros j. rewrite D1. destruct (decide _) as [[-> _]|]; [|done].
      unfold put_once. by rewrite Hold, bool_decide_true. }
    pstep. change (match rrs r with [] => None | _ => Some (length (rrs r) - 1)%nat end) with (tail_of (rrs r)).
    eapply post_mono; [apply (add_rr_int_post abi s1 a c1 i); try done; by rewrite I1, decide_True|].
    intros n s2 (K2 & T2 & c2 & Ha2 & _ & M2). pstep. exists c2. split; [done|]. rewrite I1, decide_True in M2 by done.
    destruct (tail_of_next (rrs r) d) as [E1 _]. destruct n as [n|].
    + destruct M2 as [-> M2]. rewrite E1 in M2. intros j. rewrite bool_decide_true by by eexists.
      unfold slot_data at 1. rewrite M2. cbn [default]. change (length (rrs r)) with (length (rrs r1)). rewrite grow_end.
      destruct (decide (j = i)) as [->|Nj].
      * rewrite decide_True by done. unfold put_once. rewrite Hold, bool_decide_false by done. done.
      * rewrite decide_False by (by intros [? _]). apply D1.
    + intros j. rewrite decide_False by (rewrite bool_decide_false by (by intros [? ?]); by intros [_ ?]).
      rewrite <- D1. unfold slot_data. by rewrite M2.
  - pstep. eapply post_mono; [by apply (add_rr_int_post abi s a c i)|]. intros n s2 (K2 & T2 & c2 & Ha2 & _ & M2). pstep.
    exists c2. split; [done|]. destruct n as [n|].
    + destruct M2 as [-> M2]. intros j. rewrite bool_decide_true by by eexists. unfold slot_data. rewrite M2, Hr. cbn [default].
      destruct (decide (j = i)) as [->|Nj]; [rewrite decide_True by done|rewrite decide_False by (by intros [? _]); done].
      rewrite Hr. unfold put_once. by rewrite bool_decide_false by apply not_elem_of_nil.
    + intros j. rewrite decide_False by (rewrite bool_decide_false by (by intros [? ?]); by intros [_ ?]). unfold slot_data. by rewrite M2.
Qed.

(** The same for an entry that is not in the cache. *)
Lemma own_add_data s b c type i tl t f d : Inv s -> own s b c -> rr_index type = Some i -> i < NRRTOT -> has (flags c) DF_LOCAL = false ->
  post (add_cent_rr abi b type tl t f d) s (fun ok s' => undisturbed s s' /\ touches b s s' /\ exists c', own s' b c' /\ like c c' /\
    forall j, slot_data c' j = if decide (j = i /\ ok = true) then put_once d (slot_data c j) else slot_data c j).
Proof.
  intros I Ow Hi Li Hf. pose proof (b_core _ _ (i_base _ _ I)) as K.
  eapply post_mono; [eapply post_and; [by apply (add_rr_data s b c type i tl t f d K (proj1 Ow))|
    eapply post_and; [apply (add_rr_post abi s b c type tl t f d K (proj1 Ow)); [intros j Ej; congruence|by rewrite Hi]|]]|].
  { destruct (add_rr_data s b c type i tl t f d K (proj1 Ow) Hi Li Hf) as (r & s' & E & _). exists r, s'. split; [done|].
    apply (steadily_add_rr (rrset_l s) b _ _ _ _ _ _ _ _ _ E). split; [done|]. intros c0 Hc0. rewrite (proj1 Ow) in Hc0.
    injection Hc0 as <-. by eapply own_unlisted. }
  intros ok s' ((c' & Hc' & Hd) & (K' & T & c'' & Hc'' & Hl) & St). rewrite Hc' in Hc''. injection Hc'' as <-.
  destruct (own_state abi s b c s' c') as [Q Ow']; try done.
  { intros j. destruct (lent_at c' j) as [l|] eqn:E; [|done]. apply Hl in E. by rewrite (own_unlisted abi s b c) in E. }
  split; [by eapply undisturbed_touched|]. split; [done|]. exists c'. split; [done|]. split; [exact (touch_like _ _ _ _ _ T (proj1 Ow) Hc')|done].
Qed.

(** ** The array of entries *)

Section Message.

Variable msg : list byte.

(** A record of the message that the daemon would store. *)
Record stored_at (p n : nat) (r : rec) : Prop := {
  sa_at : rec_at msg p n r;
  sa_class : r_class r = C_IN;
  sa_type : PDNSD_NOT_CACHED_TYPE (r_type r) = false;
  sa_shape : shaped (r_type r) (r_parts r);
}.

(** The entry has a name, and only records of the message that have this name. *)
Record from_msg (c : dns_cent_t) : Prop := {
  fm_flags : has (flags c) DF_LOCAL = false;
  fm_name : exists A, valid_name A /\ qname c = wire A;
  fm_data : forall i d, d ∈ slot_data c i -> exists p n r, stored_at p n r /\ rr_index (r_type r) = Some i /\
    d = data (r_parts r) /\ forall A, qname c = wire A -> valid_name A -> fold A = fold (r_name r);
}.

Record holds (s : cache) (centa : list nat) : Prop := {
  ho_nodup : NoDup centa;
  ho_own : forall b, b ∈ centa -> exists c, own s b c /\ from_msg c;
}.

(** The record is in one of the entries. *)
Definition recorded (s : cache) (centa : list nat) (r : rec) : Prop := exists b c i A, b ∈ centa /\ own s b c /\
  qname c = wire A /\ valid_name A /\ fold A = fold (r_name r) /\ rr_index (r_type r) = Some i /\ data (r_parts r) ∈ slot_data c i.

(** Entries only get more records. *)
Definition grows (s : cache) (centa : list nat) (s' : cache) (centa' : list nat) : Prop :=
  forall b c, b ∈ centa -> own s b c -> b ∈ centa' /\ exists c', own s' b c' /\ qname c' = qname c /\ forall i d, d ∈ slot_data c i -> d ∈ slot_data c' i.

Lemma grows_refl s centa : grows s centa s centa.
Proof. intros b c Hb Ow. split; [done|]. by exists c. Qed.

Lemma grows_trans s l s1 l1 s2 l2 : grows s l s1 l1 -> grows s1 l1 s2 l2 -> grows s l s2 l2.
Proof.
  intros G1 G2 b c Hb Ow. destruct (G1 b c Hb Ow) as (Hb1 & c1 & Ow1 & N1 & D1). destruct (G2 b c1 Hb1 Ow1) as (Hb2 & c2 & Ow2 & N2 & D2).
  split; [done|]. exists c2. split; [done|]. split; [congruence|auto].
Qed.

Lemma recorded_grows s l s' l' r : grows s l s' l' -> recorded s l r -> recorded s' l' r.
Proof.
  intros G (b & c & i & A & Hb & Ow & Hn & Hrest). destruct (G b c Hb Ow) as (Hb' & c' & Ow' & Hn' & Hd).
  exists b, c', i, A. split_and!; try done; [congruence|by apply Hrest..|]. apply Hd, Hrest.
Qed.

Lemma own_mallocs m s b c : own s b c -> own (set_mallocs m s) b c.
Proof. done. Qed.

Lemma holds_mallocs m s l : holds s l -> holds (set_mallocs m s) l.
Proof. intros [N O]. by constructor. Qed.

Lemma own_other b s s' b' c : touches b s s' -> b' <> b -> own s b' c -> own s' b' c.
Proof. intros T Hne [Hc Hh]. split; [by rewrite (t_other _ _ _ T)|]. by rewrite (t_hash _ _ _ T). Qed.

Lemma own_functional s b c c' : own s b c -> own s b c' -> c = c'.
Proof. intros [H _] [H' _]. congruence. Qed.

(** Freeing the array. *)
Lemma free_centa_post l : forall s, Inv s -> holds s l -> post (free_centa abi l) s (fun _ s' => undisturbed s s').
Proof.
  induction l as [|b l IH]; intros s I Hh; cbn [free_centa]; [pstep; by apply undisturbed_refl|].
  destruct Hh as [[Hnb Hnd]%NoDup_cons Ho]. destruct (Ho b) as (c & Ow & _); [by left|]. pstep.
  eexists _, _. split; [apply (free_cent_run abi s b c); [apply I|apply Ow]|]. pose proof (undisturbed_freed s b c I Ow) as Q.
  eapply post_mono; [apply (IH (free_state b s)); [apply Q|]|].
  - constructor; [done|]. intros b' Hb'. destruct (Ho b') as (c' & [Hc' Hh'] & F); [by right|]. exists c'. split; [|done].
    split; [|done]. simpl. rewrite lookup_delete_ne; [done|]. by intros <-.
  - intros ? s' Q'. by eapply undisturbed_trans.
Qed.

Lemma find_centa_post A l : forall s, Inv s -> holds s l -> valid_name A ->
  post (find_centa l (wire A)) s (fun o s' => s' = s /\ forall b, o = Some b -> b ∈ l /\
    exists c B, own s b c /\ from_msg c /\ qname c = wire B /\ valid_name B /\ fold B = fold A).
Proof.
  induction l as [|b l IH]; intros s I Hh HA; cbn [find_centa]; [by pstep|]. pose proof Hh as [[Hnb Hnd]%NoDup_cons Ho].
  destruct (Ho b) as (c & Ow & F); [by left|]. destruct (fm_name _ F) as (B & HB & Hn). pstep. eapply post_load; [apply Ow|].
  pose proof (rhnicmp_spec B A [] [] (proj1 HB) (proj1 HA)) as Hc. rewrite !app_nil_r in Hc.
  pstep. rewrite Hn. eapply post_lift; [exact Hc|]. case_bool_decide as Hf.
  - pstep. split; [done|]. intros b' [= <-]. split; [by left|]. by exists c, B.
  - eapply post_mono; [apply IH; [done| |done]|].
    + constructor; [done|]. intros b' Hb'. apply Ho. by right.
    + intros o s' [-> Hx]. split; [done|]. intros b' Hb'. destruct (Hx b' Hb') as [? ?]. split; [by right|done].
Qed.

(** A record goes to the entry [b], which is one of the array. *)
Lemma enter_post s l b c B type tl t f i ps A p n : Inv s -> holds s l -> b ∈ l -> own s b c -> from_msg c -> qname c = wire B ->
  fold B = fold A -> valid_name B -> rr_index type = Some i -> i < NRRTOT -> stored_at p n (Rec A type C_IN tl ps) ->
  post (ok ← add_cent_rr abi b type tl t f (data ps); mret (if (ok : bool) then RC.OK else RC.FATALERR, l)) s
    (fun '(rc, l') s' => undisturbed s s' /\ holds s' l' /\ (rc = RC.OK \/ rc = RC.FATALERR) /\ grows s l s' l' /\
       (rc = RC.OK -> recorded s' l' (Rec A type C_IN tl ps))).
Proof.
  intros I Hh Hb Ow F Hn Hf HB Hi Li Hst. pstep. eapply post_mono; [apply (own_add_data s b c type i); [done..|apply F]|].
  intros ok s' (Q & T & c' & Ow' & Lk & Hd). pstep. split; [done|]. pose proof (lk_name _ _ Lk) as Hn'.
  assert (F' : from_msg c').
  { destruct F as [F1 F2 F3]. constructor.
    - rewrite (lk_flags _ _ Lk); done.
    - exists B. split; [done|congruence].
    - intros j d. rewrite Hd, Hn'. destruct (decide _) as [[-> _]|]; [|apply F3]. intros [Hin| ->]%put_once_inv; [by apply F3|].
      eexists p, n, _. split; [done|]. split; [done|]. split; [done|]. intros A' HA' HvA'. rewrite Hn in HA'.
      apply wire_inj in HA' as <-; [done|apply HB|apply HvA']. }
  split; [|split; [by destruct ok; [left|right]|split]].
  - destruct Hh as [Hnd Ho]. constructor; [done|]. intros b' Hb'. destruct (decide (b' = b)) as [->|Hne]; [by exists c'|].
    destruct (Ho b' Hb') as (c1 & Ow1 & F1). exists c1. split; [by eapply own_other|done].
  - intros b' c1 Hb' Ow1. split; [done|]. destruct (decide (b' = b)) as [->|Hne]; [|exists c1; split; [by eapply own_other|done]].
    rewrite (own_functional _ _ _ _ Ow1 Ow). exists c'. split; [done|]. split; [done|]. intros j d Hin. rewrite Hd.
    destruct (decide _); [by apply put_once_sub|done].
  - intros Hok. assert (ok = true) as -> by by destruct ok. exists b, c', i, B. split_and!; try done; [congruence|].
    rewrite Hd, decide_True by done. apply put_once_in.
Qed.

Lemma init_cent_name s A tl t f : post (init_cent abi A tl t f) s (fun res s' => forall b, res = Some b -> exists c, cents s' !! b = Some c /\ qname c = A).
Proof.
  unfold init_cent. pstep. apply post_malloc. intros [] m; simpl; [|by pstep]. pstep. pstep. pstep. pstep. pstep.
  intros b [= <-]. eexists. split; [simpl; apply lookup_insert_eq|done].
Qed.

(** A new entry at the end of the array. *)
Lemma new_holds s l c m A : Inv s -> holds s l -> cent_ok abi c -> flags c = 0%Z -> (forall i, RRARR_INDEX c i = None) -> (forall i, lent_at c i = None) ->
  qname c = wire A -> valid_name A ->
  let s' := with_new c m s in let b := fresh s in
  undisturbed s s' /\ holds s' (l ++ [b]) /\ own s' b c /\ from_msg c /\ grows s l s' (l ++ [b]).
Proof.
  intros I Hh Ok Fl Ni Nl Hn HA s' b. pose proof (b_core _ _ (i_base _ _ I)) as K.
  assert (Hold : forall b' c', own s b' c' -> b' <> b /\ own s' b' c').
  { intros b' c' [Hc' Hh']. assert (b' <> b) by (intros ->; unfold b in Hc'; by rewrite (fresh_free abi) in Hc').
    split; [done|]. split; [|done]. simpl. by rewrite lookup_insert_ne. }
  assert (Ow : own s' b c) by (split; [simpl; apply lookup_insert_eq|intros k; simpl; by apply (fresh_unhashed abi)]).
  assert (F : from_msg c).
  { constructor; [by rewrite Fl|by exists A|]. intros i d. unfold slot_data. rewrite Ni. by intros ?%elem_of_nil. }
  split; [by apply undisturbed_new|]. split; [|split; [done|split; [done|]]].
  - destruct Hh as [Hnd Ho]. constructor.
    + apply NoDup_app. split; [done|]. split; [|apply NoDup_singleton]. intros b' Hb' ->%list_elem_of_singleton.
      destruct (Ho b Hb') as (c' & Ow' & _). by destruct (Hold b c' Ow').
    + intros b' [Hb'| ->%list_elem_of_singleton]%elem_of_app; [|by exists c]. destruct (Ho b' Hb') as (c' & Ow' & F').
      exists c'. split; [by apply Hold|done].
  - intros b' c' Hb' Ow'. split; [apply elem_of_app; by left|]. exists c'. split; [by apply Hold|done].
Qed.

(** What adding a record achieves. *)
Definition entered_rec (s : cache) (l : list nat) (r : rec) (rc : Z) (l' : list nat) (s' : cache) : Prop :=
  undisturbed s s' /\ holds s' l' /\ (rc = RC.OK \/ rc = RC.FATALERR) /\ (rc = RC.OK -> grows s l s' l' /\ recorded s' l' r).

Lemma rr_to_cache_post s l A type tl t f ps p n : Inv s -> holds s l -> valid_name A -> stored_at p n (Rec A type C_IN tl ps) ->
  post (rr_to_cache abi l (wire A) type tl (data ps) f t) s
    (fun '(rc, l') s' => entered_rec s l (Rec A type C_IN tl ps) rc l' s').
Proof.
  intros I Hh HA Hst. destruct (cacheable _ (sa_type _ _ _ Hst)) as (i & Hi & Li). cbn [r_type] in Hi. unfold rr_to_cache. pstep.
  eapply post_mono; [by apply find_centa_post|]. intros o s1 [-> Ho]. destruct o as [b|].
  { destruct (Ho b eq_refl) as (Hb & c & B & Ow & F & Hn & HB & Hf).
    eapply post_mono; [by apply (enter_post s l b c B type tl t f i ps A p n)|].
    intros [rc l'] s' (Q & Hh' & Hrc & G & Hr). split_and!; try done. by auto. }
  clear Ho. pstep. unfold da_grow1. pstep.
  eapply (post_mono _ _ (fun _ s1 => exists m, s1 = set_mallocs m s)).
  { case_match; [apply post_malloc; eauto|]. pstep. exists (mallocs s). by destruct s. }
  intros ok s1 [m ->]. pose proof (undisturbed_malloc m s I) as Q1. pose proof (undisturbed_inv _ _ Q1) as I1. pose proof (holds_mallocs m s l Hh) as Hh1. destruct ok.
  2: { pstep. eapply post_mono; [by apply free_centa_post|]. intros ? s2 Q2. pstep. pstep.
       split; [by eapply undisturbed_trans|]. split; [constructor; [constructor|by intros ? ?%elem_of_nil]|]. split; [by right|done]. }
  pstep. pstep. eapply post_mono; [eapply post_and; [apply (init_cent_post abi (set_mallocs m s) A); [apply I1|done]|apply init_cent_name]|].
  intros ce s2 ((m2 & [[-> ->]|(c & -> & -> & Ok & Fl & Ni & Nl)]) & Hnm).
  { pstep. unfold da_shrink. pstep. eapply (post_mono _ _ (fun _ s1 => exists m', s1 = set_mallocs m' s)).
    { case_match; [apply post_malloc; eauto|]. pstep. by exists m2. }
    intros ok s3 [m3 ->]. pstep. pstep. split; [by apply undisturbed_malloc|].
    split; [destruct ok; [by apply holds_mallocs|constructor; [constructor|by intros ? ?%elem_of_nil]]|]. split; [by right|done]. }
  destruct (Hnm _ eq_refl) as (c' & Hc' & Hn). simpl in Hc'. rewrite lookup_insert_eq in Hc'. injection Hc' as <-.
  destruct (new_holds (set_mallocs m s) l c m2 A) as (Q2 & Hh2 & Ow2 & F2 & G2); try done.
  eapply post_mono; [eapply (enter_post _ (l ++ [fresh (set_mallocs m s)]) _ c A type tl t f i ps A p n); try done; [apply Q2|apply elem_of_app; right; by left]|].
  intros [rc l'] s' (Q & Hh' & Hrc & G & Hr). split; [eapply undisturbed_trans; [exact Q1|by eapply undisturbed_trans]|].
  split; [done|]. split; [done|]. intros Hok. split; [|by apply Hr]. eapply grows_trans; [|exact G]. exact G2.
Qed.

(** ** A section of a message *)

(** The daemon can read the record: it skips it, or its data have the format. *)
Definition readable (r : rec) : Prop :=
  PDNSD_NOT_CACHED_TYPE (r_type r) = true \/ r_class r <> C_IN \/ shaped (r_type r) (r_parts r).

Definition cached_rec (r : rec) : Prop := PDNSD_NOT_CACHED_TYPE (r_type r) = false /\ r_class r = C_IN.

Definition inside (st : scan) : Prop := sc_ptr st + sc_lcnt st = length msg.

(** What a turn does: where it fails there is no record that could be read, or
    memory ran out; otherwise it takes one record. *)
Definition turned (s : cache) (st : scan) (retval : Z) (t : turn) (s' : cache) : Prop :=
  undisturbed s s' /\ (mallocs s = [] -> mallocs s' = [] /\ match t with Return code _ => code <> RC.FATALERR | Next _ _ => True end) /\
  match t with
  | Return code st' => holds s' (sc_centa st') /\ inside st' /\
      (code = RC.FATALERR \/ (code = RC.TRUNC \/ code = RC.FORMAT) /\ forall n r, rec_at msg (sc_ptr st) n r -> ~ readable r)
  | Next rv st' => holds s' (sc_centa st') /\ inside st' /\ rv = retval /\ grows s (sc_centa st) s' (sc_centa st') /\
      forall n r, rec_at msg (sc_ptr st) n r -> readable r -> sc_ptr st' = sc_ptr st + n /\ (cached_rec r -> recorded s' (sc_centa st') r)
  end.

Lemma rec_at_fields p m A n r : name_at msg p m A -> rec_at msg p n r -> exists k,
  r_name r = A /\ get_rr_hdr msg (p + m) = Some (RRHdr (r_type r) (r_class r) (r_ttl r) k) /\
  parts_at msg (p + m + sizeof_rr_hdr_t) k (r_parts r) /\ n = m + sizeof_rr_hdr_t + k /\ p + n <= length msg.
Proof.
  intros Hn (m' & k & Hn' & Hh & Hp & ->). destruct (name_at_det _ _ _ _ _ _ Hn Hn') as [<- ->]. exists k. split_and!; try done.
  apply parts_at_end in Hp; [lia|]. unfold get_rr_hdr in Hh. destruct (GETINT16 msg (p + m)); [|done].
  destruct (GETINT16 msg (p + m + 2)); [|done]. destruct (GETINT32 msg (p + m + 4)); [|done].
  destruct (GETINT16 msg (p + m + 8)) eqn:E; [|done]. apply GETINT16_range in E. unfold sizeof_rr_hdr_t. lia.
Qed.

Lemma get_rr_hdr_some p : p + sizeof_rr_hdr_t <= length msg -> exists h, get_rr_hdr msg p = Some h.
Proof.
  unfold sizeof_rr_hdr_t. intros Hp. unfold get_rr_hdr. destruct (GETINT16_some msg p) as (t & -> & _); [lia|].
  destruct (GETINT16_some msg (p + 2)) as (c & -> & _); [lia|]. destruct (GETINT16_some msg (p + 8)) as (k & -> & _); [lia|].
  unfold GETINT32. destruct (lookup_lt_is_Some_2 msg (p + 4)) as [a ->]; [lia|]. destruct (lookup_lt_is_Some_2 msg (S (p + 4))) as [b ->]; [lia|].
  destruct (lookup_lt_is_Some_2 msg (S (S (p + 4)))) as [d ->]; [lia|]. destruct (lookup_lt_is_Some_2 msg (S (S (S (p + 4))))) as [e ->]; [lia|].
  cbn. by eexists.
Qed.

Section Turn.

Context (flags queryts : Z).

(** The data are decoded and stored. *)
Lemma store_post s st retval m A h : Inv s -> holds s (sc_centa st) -> inside st -> name_at msg (sc_ptr st) m A ->
  get_rr_hdr msg (sc_ptr st + m) = Some h -> let q := sc_ptr st + m + sizeof_rr_hdr_t in
  q + rh_rdlength h <= length msg -> PDNSD_NOT_CACHED_TYPE (rh_type h) = false -> rh_class h = C_IN ->
  let st1 := moved q (length msg - q) st in
  post (match rdata msg q (rh_rdlength h) (rh_type h) with
        | Undef => fail
        | PdnsdRecords.Stop code => mret (Return code st1)
        | Ret (d, heap) =>
            ok ← (if (heap : bool) then malloc else mret true : M bool);
            if negb ok then mret (Return RC.FATALERR st1) else
            '(rc, centa) ← rr_to_cache abi (sc_centa st1) (wire A) (rh_type h) (rh_ttl h) d flags queryts;
            let st := with_centa centa st1 in
            if (rc =? RC.FATALERR)%Z then mret (Return rc st) else
            mret (Next (if (rc =? RC.OK)%Z then retval else rc) (moved (q + rh_rdlength h) (length msg - q - rh_rdlength h) st))
        end) s (turned s st retval).
Proof.
  intros I Hh Hin Hn Hh1 q Hle Hty Hcl st1. set (p := sc_ptr st) in *.
  assert (Hrec : forall n r, rec_at msg p n r -> readable r -> r_name r = A /\ r_type r = rh_type h /\ n = m + sizeof_rr_hdr_t + rh_rdlength h /\
    yields (rdata msg q (rh_rdlength h) (rh_type h)) (data (r_parts r))).
  { intros n r Hat Hrd. destruct (rec_at_fields p m A n r Hn Hat) as (k & H1 & H2 & H3 & H4 & H5). rewrite Hh1 in H2. injection H2 as ->. cbn in *.
    split_and!; try done. apply rdata_complete; [|done|lia]. destruct Hrd as [Hx|[Hx|Hx]]; [congruence|done|done]. }
  assert (Hin1 : inside st1) by (unfold inside, st1; cbn; lia).
  pose proof (rdata_sound msg q (rh_rdlength h) (rh_type h) Hle) as Hs.
  destruct (rdata msg q (rh_rdlength h) (rh_type h)) as [|code|[d heap]] eqn:Ed; [done|..].
  { pstep. cbn in Hs. split; [by apply undisturbed_refl|]. split; [intros Hm; by rewrite Hs|]. split; [done|]. split; [done|]. right. split; [by right|].
    intros n r Hat Hrd. destruct (Hrec n r Hat Hrd) as (_ & _ & _ & [? ?]). done. }
  cbn in Hs. destruct Hs as [(L & ps & HL & HF & HP & ->) HN].
  assert (Hst : stored_at p (m + sizeof_rr_hdr_t + rh_rdlength h) (Rec A (rh_type h) C_IN (rh_ttl h) ps)).
  { constructor; cbn; [|done|done|by split; [exists L|]]. exists m, (rh_rdlength h). cbn. split_and!; [done| |done|done].
    rewrite Hh1. destruct h; cbn in *. congruence. }
  pstep. eapply (post_mono _ _ (fun ok s1 => exists ml, s1 = set_mallocs ml s /\ (mallocs s = [] -> ok = true /\ ml = []))).
  { case_match; [|pstep; exists (mallocs s); by destruct s].
    eapply post_mono; [eapply post_granted; [|apply sure_malloc]|]; [apply (post_malloc s (fun _ s1 => exists ml, s1 = set_mallocs ml s)); eauto|].
    intros ok s1 [[ml ->] Hm]. exists ml. split; [done|]. intros Hs0. by destruct (Hm Hs0). }
  intros ok s1 (ml & -> & Hml). pose proof (undisturbed_malloc ml s I) as Q1.
  destruct ok; cbn [negb]; [|pstep; split; [done|]; split; [intros Hm; by destruct (Hml Hm)|]; split; [by apply holds_mallocs|]; split; [done|by left]].
  pstep. eapply post_mono; [eapply post_granted; [|apply sure_rr_to_cache]; apply (rr_to_cache_post (set_mallocs ml s) (sc_centa st) A (rh_type h) (rh_ttl h) queryts flags ps p (m + sizeof_rr_hdr_t + rh_rdlength h)); [apply Q1|by apply holds_mallocs| |exact Hst]|].
  { by eapply name_at_valid. }
  intros [rc l'] s2 ((Q2 & Hh2 & Hrc & Hok) & Hmem). cbn [fst mallocs set_mallocs] in Hmem. pose proof (undisturbed_trans _ _ _ Q1 Q2) as Q. destruct Hrc as [-> | ->]; cbn [fst snd].
  2: { cbn zeta. change (RC.FATALERR =? RC.FATALERR)%Z with true. cbn iota. pstep. split; [done|].
       split; [intros Hm; destruct (Hml Hm) as [_ ->]; by destruct (Hmem eq_refl)|]. split; [done|]. split; [done|by left]. }
  destruct (Hok eq_refl) as [G R]. cbn zeta. change (RC.OK =? RC.FATALERR)%Z with false. change (RC.OK =? RC.OK)%Z with true. cbn iota. pstep. split; [done|].
  split; [intros Hm; destruct (Hml Hm) as [_ ->]; by destruct (Hmem eq_refl)|]. split; [done|]. split; [unfold inside; cbn; lia|]. split; [done|].
  split; [exact G|]. intros n r Hat Hrd. destruct (Hrec n r Hat Hrd) as (Hrn & Hrt & -> & [heap' Hy]). cbn. split; [lia|]. intros _.
  injection Hy as Hy. destruct R as (b & c & i & B & H1 & H2 & H3 & H4 & H5 & H6 & H7). exists b, c, i, B. cbn in *.
  rewrite Hrn, Hrt, <- Hy. done.
Qed.

Lemma rr2cent_post s st retval : Inv s -> holds s (sc_centa st) -> inside st ->
  post (rr2cent abi msg flags queryts retval st) s (turned s st retval).
Proof.
  intros I Hh Hin. unfold inside in Hin. unfold rr2cent. pstep.
  destruct (decompress_name_spec msg (sc_ptr st) (sc_lcnt st) (buffer DNSNAMEBUFSIZE)) as (r & Hr & Hspec); [by rewrite length_buffer|].
  eapply post_lift; [exact Hr|]. clear Hr. destruct r as [p1 l1 tgt len|code].
  2: { pstep. destruct Hspec as [Hc Hno]. split; [by apply undisturbed_refl|]. split; [intros Hm; split; [done|by destruct code]|]. split; [done|]. split; [done|]. right.
       split; [destruct code; [done|by right|by left]|]. intros n r (m & k & Hn & Hrest) _. destruct (Hno _ _ Hn) as [Hlt _].
       apply name_at_bound in Hn. lia. }
  destruct Hspec as (m & A & Hn & -> & Hl1 & -> & ->). rewrite take_wire. pose proof (name_at_valid _ _ _ _ Hn) as HA.
  pose proof (fun n r => rec_at_fields (sc_ptr st) m A n r Hn) as Hrec. set (p := sc_ptr st) in *.
  destruct (Nat.ltb_spec l1 sizeof_rr_hdr_t) as [Hlt|Hge].
  { pstep. split; [by apply undisturbed_refl|]. split; [done|]. split; [done|]. split; [unfold inside; cbn; lia|]. right. split; [by left|].
    intros n r Hat _. destruct (Hrec n r Hat) as (k & _ & _ & _ & -> & Hb). lia. }
  pstep. destruct (get_rr_hdr_some (p + m)) as (h & Hh1); [lia|]. eapply post_lift; [exact Hh1|].
  assert (Hrec2 : forall n r, rec_at msg p n r -> r_name r = A /\ r_type r = rh_type h /\ r_class r = rh_class h /\
    parts_at msg (p + m + sizeof_rr_hdr_t) (rh_rdlength h) (r_parts r) /\ n = m + sizeof_rr_hdr_t + rh_rdlength h /\ p + n <= length msg).
  { intros n r Hat. destruct (Hrec n r Hat) as (k & H1 & H2 & H3 & H4 & H5). rewrite Hh1 in H2. injection H2 as ->. cbn. split_and!; done. }
  clear Hrec. set (st1 := moved (p + m + sizeof_rr_hdr_t) (l1 - sizeof_rr_hdr_t) st).
  assert (Hin1 : inside st1) by (unfold inside; cbn; lia).
  destruct (Nat.ltb_spec (l1 - sizeof_rr_hdr_t) (rh_rdlength h)) as [Hlt|Hle].
  { pstep. split; [by apply undisturbed_refl|]. split; [done|]. split; [done|]. split; [done|]. right. split; [by left|].
    intros n r Hat _. destruct (Hrec2 n r Hat) as (_ & _ & _ & _ & -> & Hb). lia. }
  assert (Hskip : forall st2, sc_centa st2 = sc_centa st -> PDNSD_NOT_CACHED_TYPE (rh_type h) || negb (rh_class h =? C_IN)%Z = true ->
    turned s st retval (Next retval (moved (p + m + sizeof_rr_hdr_t + rh_rdlength h) (l1 - sizeof_rr_hdr_t - rh_rdlength h) st2)) s).
  { intros st2 Hc Hno. split; [by apply undisturbed_refl|]. split; [done|]. cbn [sc_centa moved]. rewrite Hc. split; [done|]. split; [unfold inside; cbn; lia|]. split; [done|].
    split; [apply grows_refl|]. intros n r Hat _. destruct (Hrec2 n r Hat) as (_ & Ht & Hc' & _ & -> & _). cbn. split; [lia|].
    intros [H1 H2]. rewrite <- Ht, <- Hc', H1, H2 in Hno. done. }
  destruct (Z.eqb_spec (rh_type h) T_OPT) as [Eo|_].
  { pstep. destruct (opt_info_some msg (p + m + 4) (rh_class h)) as (e & He & _); [pose proof (name_at_bound _ _ _ _ Hn); cbn in *|unfold sizeof_rr_hdr_t in *; lia|].
    - destruct (decide (3 < p + m + 4)); [done|lia].
    - eapply post_lift; [exact He|]. pstep. apply Hskip; [done|]. by rewrite Eo. }
  destruct (PDNSD_NOT_CACHED_TYPE (rh_type h) || negb (rh_class h =? C_IN)%Z) eqn:Ec; cbn [negb]; [pstep; by apply Hskip|].
  apply orb_false_iff in Ec as [Ety Ecl]. apply negb_false_iff, Z.eqb_eq in Ecl.
  pose proof (store_post s st retval m A h I Hh Hin Hn Hh1) as Hstore. cbn zeta in Hstore. fold p in Hstore.
  replace (length msg - (p + m + sizeof_rr_hdr_t)) with (l1 - sizeof_rr_hdr_t) in Hstore by lia.
  apply Hstore; [lia|done|done].
Qed.

(** What reading a section achieves. *)
Definition sectioned (s : cache) (st : scan) (n : nat) (code : Z) (st' : scan) (s' : cache) : Prop :=
  undisturbed s s' /\ holds s' (sc_centa st') /\ inside st' /\
  (code = RC.OK \/ code = RC.TRUNC \/ code = RC.FORMAT \/ code = RC.FATALERR) /\
  (mallocs s = [] -> mallocs s' = [] /\ code <> RC.FATALERR /\
     forall rs p, seq_at (rec_at msg) (sc_ptr st) p rs -> length rs = n -> Forall readable rs ->
       code = RC.OK /\ sc_ptr st' = p /\ grows s (sc_centa st) s' (sc_centa st') /\
       forall r, r ∈ rs -> cached_rec r -> recorded s' (sc_centa st') r).

Lemma rrs2cent_loop_post n : forall s st, Inv s -> holds s (sc_centa st) -> inside st ->
  post (rrs2cent_loop abi msg flags queryts n RC.OK st) s (fun '(code, st') s' => sectioned s st n code st' s').
Proof.
  induction n as [|n IH]; intros s st I Hh Hin; cbn [rrs2cent_loop].
  { pstep. split; [by apply undisturbed_refl|]. split; [done|]. split; [done|]. split; [by left|]. intros Hm. split; [done|]. split; [done|].
    intros rs p Hs Hl _. inversion Hs; subst; [|done]. split; [done|]. split; [done|]. split; [apply grows_refl|]. by intros r ?%elem_of_nil. }
  pstep. eapply post_mono; [by apply rr2cent_post|]. intros [code st1|rv st1] s1 (Q1 & Hm1 & Hh1 & Hin1 & Hx).
  - pstep. split; [done|]. split; [done|]. split; [done|]. split; [destruct Hx as [->|[[->| ->] _]]; auto|]. intros Hm.
    destruct (Hm1 Hm) as [Hm' Hc]. split; [done|]. split; [done|]. intros rs p Hs Hl Hrd.
    inversion Hs as [|? k ? r rs' Hr Hrest]; subst; [done|]. apply Forall_cons in Hrd as [Hrd _]. destruct Hx as [|[_ Hno]]; [done|]. by destruct (Hno _ _ Hr).
  - destruct Hx as (-> & G1 & Hrec). eapply post_mono; [apply (IH s1 st1); [apply Q1|done|done]|].
    intros [code st2] s2 (Q2 & Hh2 & Hin2 & Hc2 & Hm2). split; [by eapply undisturbed_trans|]. split; [done|]. split; [done|]. split; [done|].
    intros Hm. destruct (Hm1 Hm) as [Hm' _]. destruct (Hm2 Hm') as (Hm'' & Hc & Hall). split; [done|]. split; [done|].
    intros rs p Hs Hl Hrd. inversion Hs as [|? k ? r rs' Hr Hrest]; subst; [done|]. apply Forall_cons in Hrd as [Hrd Hrds].
    destruct (Hrec _ _ Hr Hrd) as [Hp Hrc]. rewrite <- Hp in Hrest. cbn in Hl. destruct (Hall rs' p Hrest) as (-> & <- & G2 & Hall2); [lia|done|].
    split; [done|]. split; [done|]. split; [by eapply grows_trans|]. intros r' [->|Hin']%elem_of_cons Hca; [|by apply Hall2].
    eapply recorded_grows; [exact G2|]. by apply Hrc.
Qed.

(** C30: Reading a section of any received message into cache entries is safe and
    complete. Whatever the bytes are, [rrs2cent] stays inside the message and its
    buffers and uses no freed memory. It leaves the cache itself as it is: the hash
    table, the counters, the list of record sets and every cached entry are the
    same afterwards. Each record of the entries it builds is a well-formed record
    of the message whose owner has the entry's name. If there is memory and the announced records are in
    the message, with data in the formats of their types, it succeeds, stops
    behind the last one, and all of them that are to be stored are in the entries. *)
Theorem rrs2cent_correct n s st : Inv s -> holds s (sc_centa st) -> inside st ->
  post (rrs2cent abi msg flags queryts n st) s (fun '(code, st') s' => sectioned s st n code st' s').
Proof. apply rrs2cent_loop_post. Qed.

End Turn.

End Message.

End Run.

(** ** Answers that are read again *)

Lemma seq_at_split {X} (one : nat -> nat -> X -> Prop) (like : X -> X -> Prop) p q xs :
  seq_at (fun p n x => exists y, like x y /\ one p n y) p q xs -> exists ys, seq_at one p q ys /\ Forall2 like xs ys.
Proof.
  induction 1 as [p|p n q x xs (y & Hl & Hy) _ (ys & Hys & HF)]; [exists []; split; constructor|].
  exists (y :: ys). split; [by eapply seq_cons|by constructor].
Qed.

Definition same_question (x y : question) : Prop :=
  fold (qn_name x) = fold (qn_name y) /\ qn_type x = qn_type y /\ qn_class x = qn_class y.

Lemma questions_split msg p q qs : seq_at (question_like msg) p q qs ->
  exists qs', seq_at (question_at msg) p q qs' /\ Forall2 same_question qs qs'.
Proof.
  intros Hs. apply (seq_at_split (question_at msg) same_question). eapply seq_at_mono; [|exact Hs].
  intros p' n x (m & ls & Hf & Hn & Ht & Hc & ->). exists (Quest ls (qn_type x) (qn_class x)). split; [done|]. by exists m.
Qed.

Section ReadBack.

Context {E : Type} `{ResolverOk E P V W} (abi : sizes).

(** C28: What the daemon answers is what it reads: the questions of any answer it
    composes are found again in it, and reading the answer section that
    follows them into an empty array of entries succeeds, if there is memory,
    and yields all its records of the types that are cached, under the
    same names and with the same data up to the case of letters. *)
Theorem answer_read_back rnd us ts udp edns ql qs id rd m r (e : E) h body m' e' flags ts' s :
  Forall2 question_ok ql qs -> P e -> compose_answer rnd us ts udp edns ql id rd m r e = Some (Some (h, body), m', e') ->
  Inv abi s -> mallocs s = [] ->
  let msg := hdr_bytes h ++ body in
  exists c p sz qs', composed (V := V) (W := W) ts qs id rd udp h body c /\ Forall2 same_question qs qs' /\
    decode_questions (length qs) msg sizeof_dns_hdr_t (length msg - sizeof_dns_hdr_t) [] [] = Some (RC.OK, p, sz, map element qs', []) /\
    post (rrs2cent abi msg flags ts' (length (c_an c)) (Scan p sz [] 0 no_edns)) s (fun '(code, st) s' =>
      code = RC.OK /\ undisturbed abi s s' /\ forall x, x ∈ c_an c -> PDNSD_NOT_CACHED_TYPE (r_type x) = false ->
        exists y, same_rec x y /\ recorded s' (sc_centa st) y).
Proof.
  intros Hq He Hrun I Hm msg. destruct (compose_answer_spec ts qs rnd us udp edns ql id rd m r e Hq He) as (o & m1 & e1 & Hrun' & _ & _ & Ho).
  rewrite Hrun in Hrun'. injection Hrun' as <- _ _. destruct (Ho h body eq_refl) as (c & Hc).
  destruct (co_out _ _ _ _ _ _ _ _ Hc) as [(p1 & p2 & p3 & S1 & S2 & _)]. rewrite (co_qs _ _ _ _ _ _ _ _ Hc) in S1. fold msg in S1, S2.
  destruct (questions_split _ _ _ _ S1) as (qs' & Sq & Fq). destruct (seq_at_split (rec_at msg) same_rec _ _ _ S2) as (rs & Sr & Fr).
  pose proof (Forall2_length _ _ _ Fq) as Lq. pose proof (Forall2_length _ _ _ Fr) as Lr.
  assert (Hl : sizeof_dns_hdr_t <= length msg) by (unfold msg; rewrite length_app, length_hdr_bytes; lia).
  destruct (decode_questions_spec msg (length qs) sizeof_dns_hdr_t (length msg - sizeof_dns_hdr_t) [] []) as (code & p & sz & ql' & m2 & Hd & Hsz & _ & Hm2 & Hdec); [lia|].
  destruct (decoded_whole msg (length qs) sizeof_dns_hdr_t code p ql' p1 qs' Hdec Sq (eq_sym Lq)) as (Hok & <- & ->).
  exists c, p1, sz, qs'. split; [done|]. split; [done|]. split; [by rewrite Hd, Hok, (Hm2 eq_refl)|].
  eapply post_mono; [apply (rrs2cent_loop_post abi msg flags ts' (length (c_an c)) s (Scan p1 sz [] 0 no_edns)); [done| |done]|].
  { constructor; [constructor|by intros ? ?%elem_of_nil]. }
  intros [code' st] s' (Q & _ & _ & _ & Hmem). destruct (Hmem Hm) as (_ & _ & Hsec).
  destruct (Hsec rs p2 Sr (eq_sym Lr)) as (-> & _ & _ & Hrec).
  { pose proof (co_an _ _ _ _ _ _ _ _ Hc) as Han. clear -Han Fr. induction Fr as [|x y xs ys Hxy _ IH]; [constructor|].
    apply Forall_cons in Han as [(_ & _ & Hsh & _) Han]. constructor; [|by apply IH]. right; right.
    rewrite <- (sr_type _ _ Hxy). eapply shaped_same; [done|apply Hxy]. }
  split; [done|]. split; [done|]. intros x Hx Ht. apply list_elem_of_lookup in Hx as [k Hk].
  destruct (Forall2_lookup_l _ _ _ _ _ Fr Hk) as (y & Hy & Hxy). exists y. split; [done|]. apply Hrec; [by eapply list_elem_of_lookup_2|].
  pose proof (co_an _ _ _ _ _ _ _ _ Hc) as Han. rewrite Forall_lookup in Han. destruct (Han k x Hk) as (_ & Hcl & _).
  split; [by rewrite <- (sr_type _ _ Hxy)|by rewrite <- (sr_class _ _ Hxy)].
Qed.

End ReadBack.
