(* ===== verification/PdnsdResolve.v ===== *)
(** * Resolving a name from the cache or from name servers

    [pdnsd/src/dns_query.c]: the requery decision [lookup_cache_status], and
    [p_dns_cached_resolve] and [r_dns_cached_resolve] on it, with the end of
    [p_dns_resolve], which enters an answer into the cache and reads the merged entry
    back. They run on the cache of [PdnsdCache]. The selection of servers and
    the recursive query over the network are a parameter, [query_servers]; whether the link
    is down, which depends on the state of the servers, is another.

    The theorems: what is resolved is from the cache or from the servers, under the
    name asked for or the wildcard for it, and an entry that is local or still
    fresh is served without asking any server. So the cache with these functions is
    an instance of [Resolver] that keeps the contract [ResolverOk], and the theorems on
    answers hold for it.

    They assume a contract of [query_servers] ([servers_ok]) and that known records
    have less than 2^16 bytes ([known_ok]). The code that [query_servers] stands for
    does not ensure the second in one case: the data of IPSECKEY, RRSIG and NSEC
    records with a compressed name are expanded without a test of the length
    ([dns_query.c], [rr_to_cache]'s callers). *)

From S2P Require Import Prelude.
From S2P Require Import PdnsdNames.
From S2P Require Import PdnsdCompress.
From S2P Require Import PdnsdHash.
From S2P Require Import PdnsdSort.
From S2P Require Import PdnsdRecords.
From S2P Require Import PdnsdAnswer.
From S2P Require Import PdnsdAnswerInv.
From S2P Require Import PdnsdAnswerRun.
From S2P Require Import PdnsdQuery.
From S2P Require Import PdnsdCent.
From S2P Require Import PdnsdCache.
From S2P Require Import PdnsdCentInv.
From S2P Require Import PdnsdCacheCost.
From S2P Require Import PdnsdCacheInv.
From S2P Require Import PdnsdCacheOps.
From S2P Require Import PdnsdCacheAdd.
From S2P Require Import PdnsdCacheOwn.
From S2P Require Import PdnsdDisk.
From S2P Require Import PdnsdCacheRun.
From S2P Require Import PdnsdRecordsRun.

Open Scope Z_scope.

(** ** The requery decision *)

Definition QT_MIN : Z := 251.
Definition QT_MAX : Z := 255.
Definition RC_NOTCACHED : Z := 0xfffa.
Definition RC_CACHED : Z := 0xfffb.
Definition RC_STALE : Z := 0xfffc.

(** A record set is added to the flags and to the time at which the first one is
    timed out. *)
Definition note_set (r : rr_set_t) '(fl, tl) : Z * Z :=
  let t := ts r + CLAT_ADJ (ttl r) in
  (Z.lor fl (rflags r), if (tl =? 0) || (t <? tl) then t else tl).

Definition set_flags_ttl (cached : dns_cent_t) (tp : Z) (x : Z * Z) : bool * (Z * Z) :=
  match getrrset cached tp with
  | Some r => (true, note_set r x)
  | None => (false, x)
  end.

Definition set_all_flags_ttl (cached : dns_cent_t) (x : Z * Z) : Z * Z :=
  foldl (fun x i => match RRARR_INDEX cached i with Some r => note_set r x | None => x end) x (seq 0 (RRARR_LEN cached)).

(** Whether there is an alias, which is then what counts. *)
Definition has_alias (cached : dns_cent_t) : bool :=
  match getrrset cached T_CNAME with Some r => negb (has (rflags r) CF_NEGATIVE) | None => false end.

(** The flags and the time for a query type. *)
Definition flags_ttl (cached : dns_cent_t) (thint : Z) : Z * Z :=
  if thint =? QT_ALL then set_all_flags_ttl cached (0, 0)
  else if has_alias cached then (set_flags_ttl cached T_CNAME (0, 0)).2
  else if is_type thint then (set_flags_ttl cached thint (0, 0)).2
  else if thint =? QT_MAILB then
    (set_flags_ttl cached T_MR (set_flags_ttl cached T_MG (set_flags_ttl cached T_MB (0, 0)).2).2).2
  else if thint =? QT_MAILA then (set_flags_ttl cached T_MF (set_flags_ttl cached T_MD (0, 0)).2).2
  else (0, 0).

(** It is known that there are no records of the type. *)
Definition known_absent (cached : dns_cent_t) (thint tl queryts : Z) : bool :=
  negb (thint =? QT_ALL) && negb (has_alias cached) && is_type thint &&
  match getrrset cached thint with Some r => has (rflags r) CF_NEGATIVE && (queryts <=? tl) | None => false end.

(** An entry that is not local: whether it is stale for a query, and the flags. *)
Definition requery (cached : dns_cent_t) (thint queryts : Z) : option (bool * Z) :=
  if negative cached then
    match body cached with
    | Neg _ tl t => Some (t + CLAT_ADJ tl <? queryts, 0)
    | RR _ => None
    end
  else
    let '(fl, tl) := flags_ttl cached thint in
    let neg := known_absent cached thint tl queryts in
    let need_req :=
      negb (has fl CF_LOCAL) &&
      (if thint =? QT_ALL then negb (has (flags cached) DF_AUTH)
       else (QT_MIN <=? thint) && (thint <=? QT_MAX) && negb (has fl CF_AUTH && negb (has fl CF_ADDITIONAL))) in
    let timed := negb (has fl CF_LOCAL) && (tl <? queryts) in
    Some (negb neg && (need_req || timed), fl).

(** ** Resolving *)

Section Resolve.

Context (abi : sizes) (global : globals) (now : Z).

(** The configuration option and the state of the servers. *)
Context (lndown_kluge linkdown : bool).

(** The servers that are up and allowed for the name are asked, recursively: the code,
    the entry, whether it must not be cached, and the zone of a negative answer. *)
Context (query_servers : list byte -> Z -> Z -> M (Z * option nat * bool * Z)).

Definition free_opt (b : option nat) : M unit := match b with Some b => free_cent abi b | None => mret tt end.

(** The zone that a name error of a local entry refers to. *)
Definition local_soa (c : dns_cent_t) (soa : Z) : M Z :=
  if negb (c_soa c =? cundef) then mret (c_soa c)
  else if have_rr c T_SOA then n ← lift (rhnsegcnt (qname c)); mret (u8 (Z.of_nat n))
  else
    owner ← getlocalowner (qname c) T_SOA;
    match owner with
    | Some o => n ← lift (rhnsegcnt o); mret (u8 (Z.of_nat n))
    | None => mret soa
    end.

(** The code, the entry, the flags and the zone. *)
Definition lookup_cache_status (name : list byte) (thint queryts soa : Z) : M (Z * option nat * Z * Z) :=
  '(found, wild) ← lookup_cache abi now name true;
  match found with
  | None => mret (RC_NOTCACHED, None, 0, soa)
  | Some cached =>
      c ← load cached;
      if has (flags c) DF_LOCAL then
        if has (flags c) DF_NEGATIVE || match wild with WLocnerr => true | _ => false end then
          soa ← local_soa c soa;
          free_cent abi cached;;
          mret (RC.NAMEERR, None, 0, soa)
        else mret (RC.OK, Some cached, 0, soa)
      else
        '(stale, fl) ← lift (requery c thint queryts);
        mret (if (stale : bool) then RC_STALE else RC_CACHED, Some cached, fl, soa)
  end.

Definition resolved_code (rc : Z) : bool := (rc =? RC.OK) || (rc =? RC_CACHED) || (rc =? RC_STALE).

(** The servers are asked and the answer is merged with what the cache has. *)
Definition p_dns_resolve (name : list byte) (thint soa : Z) : M (Z * option nat * Z) :=
  '(rc, cached, nocache, soa) ← query_servers name thint soa;
  if rc =? RC.OK then
    match cached with
    | None => fail
    | Some ent =>
        if (nocache : bool) then mret (rc, Some ent, soa) else
        add_cache abi global now ent;;
        '(tc, _) ← lookup_cache abi now name false;
        match tc with
        | Some tc => free_cent abi ent;; mret (rc, Some tc, soa)
        | None => mret (rc, Some ent, soa)
        end
    end
  else mret (rc, cached, soa).

Definition p_dns_cached_resolve (name : list byte) (thint queryts soa : Z) : M (Z * option nat * Z) :=
  '(rc, cached, fl, soa) ← lookup_cache_status name thint queryts soa;
  if rc =? RC.OK then mret (RC_CACHED, cached, soa) else
  if rc =? RC.NAMEERR then mret (RC.NAMEERR, None, soa) else
  if lndown_kluge && negb (has fl CF_LOCAL) && linkdown then free_opt cached;; mret (RC.SERVFAIL, None, soa) else
  if negb (rc =? RC_CACHED) then
    '(rc, ent, soa) ← p_dns_resolve name thint soa;
    if resolved_code rc then free_opt cached;; mret (rc, ent, soa)
    else if (rc =? RC.SERVFAIL) && match cached with Some _ => true | None => false end && has fl CF_NOPURGE
    then mret (RC_STALE, cached, soa)
    else free_opt cached;; mret (rc, None, soa)
  else mret (rc, cached, soa).

Definition r_dns_cached_resolve (name : list byte) (thint queryts soa : Z) : M (Z * option nat * Z) :=
  '(rc, cached, soa) ← p_dns_cached_resolve name thint queryts soa;
  if resolved_code rc then
    match cached with
    | None => fail
    | Some b =>
        c ← load b;
        if negative c then free_cent abi b;; mret (RC.NAMEERR, None, c_soa c)
        else mret (RC.OK, Some b, soa)
    end
  else mret (rc, None, soa).

(** ** The cache as a resolver *)

(** The caller's copy is read and freed. *)
Definition take_copy (b : nat) : M dns_cent_t :=
  c ← load b;
  free_cent abi b;;
  mret c.

Definition resolve_copy (name : list byte) (thint queryts : Z) : M resolved :=
  '(rc, ent, soa) ← r_dns_cached_resolve name thint queryts cundef;
  match ent with
  | Some b => c ← take_copy b; mret (Found c)
  | None => mret (NotFound rc soa)
  end.

Definition copy_of_name (name : list byte) : M (option dns_cent_t) :=
  '(found, _) ← lookup_cache abi now name false;
  match found with
  | Some b => c ← take_copy b; mret (Some c)
  | None => mret None
  end.

Definition cache_resolver : Resolver cache := {|
  dns_cached_resolve := resolve_copy;
  lookup_copy := copy_of_name;
  find_localowner := getlocalowner;
|}.

End Resolve.

(** ** Good caches *)

Lemma post_sorted {A} n (m : M A) s Q : post m s Q -> costs n m -> insert_sort s = true -> post m s (fun r s' => Q r s' /\ insert_sort s' = true).
Proof. intros (r & s' & E & HQ) Hc So. exists r, s'. split; [done|]. split; [done|]. by apply (Hc s r s' E). Qed.

(** ** When servers are asked *)

(** The record set that counts for a type: the alias, or the set of the type. *)
Definition counting (c : dns_cent_t) (thint : Z) : option rr_set_t :=
  if has_alias c then getrrset c T_CNAME else getrrset c thint.

(** An entry is stale for a type when that set is missing, or neither local nor
    alive. *)
Lemma requery_type c thint queryts : negative c = false -> is_type thint = true ->
  requery c thint queryts = Some match counting c thint with
    | Some r => (negb (has (rflags r) CF_LOCAL) && timedout queryts r, rflags r)
    | None => (0 <? queryts, 0)
    end.
Proof.
  intros Hn Ht. pose proof Ht as [H1%Z.leb_le H2%Z.leb_le]%andb_true_iff. unfold T_MIN, T_MAX in *.
  assert (Ha : (thint =? QT_ALL) = false) by (apply Z.eqb_neq; unfold QT_ALL; lia).
  assert (Hq : (QT_MIN <=? thint) = false) by (apply Z.leb_gt; unfold QT_MIN; lia).
  unfold requery, flags_ttl, counting, known_absent. rewrite Hn, Ha, Hq, Ht. rewrite !andb_false_l, andb_true_r.
  assert (Hs : forall tp r, getrrset c tp = Some r -> (set_flags_ttl c tp (0, 0)).2 = (rflags r, ts r + CLAT_ADJ (ttl r))).
  { intros tp r Hr. unfold set_flags_ttl. by rewrite Hr. }
  destruct (has_alias c) eqn:El; cbn [negb andb orb].
  - unfold has_alias in El. destruct (getrrset c T_CNAME) as [r|] eqn:Er; [|done]. rewrite (Hs _ _ Er). cbn beta iota zeta.
    by destruct (has (rflags r) CF_LOCAL).
  - destruct (getrrset c thint) as [r|] eqn:Er; [|unfold set_flags_ttl; by rewrite Er]. rewrite (Hs _ _ Er). unfold timedout. cbn beta iota zeta.
    rewrite Z.leb_antisym. by destruct (has (rflags r) CF_NEGATIVE), (ts r + CLAT_ADJ (ttl r) <? queryts), (has (rflags r) CF_LOCAL).
Qed.

Lemma run_bind {A B} (m : M A) (k : A -> M B) s x s' : m s = Some (x, s') -> (m ≫= k) s = k x s'.
Proof. intros E. unfold mbind, M_bind. by rewrite E. Qed.

Lemma run_load b c s : cents s !! b = Some c -> load b s = Some (c, s).
Proof. intros E. unfold load. by rewrite E. Qed.

Section Correct.

Context (abi : sizes) (global : globals) (now : Z) (lndown_kluge linkdown : bool).
Context (query_servers : list byte -> Z -> Z -> M (Z * option nat * bool * Z)).

(** The records that are known for a name and a slot: what was configured or
    received. They are well-formed. *)
Context (known : list byte -> nat -> list byte -> Prop).
Hypothesis known_ok : forall k i d tp, known k i d -> rr_index tp = Some i -> rr_ok tp d /\ zlen d < 2 ^ 16.

Definition sound (c : dns_cent_t) : Prop := forall i r d, RRARR_INDEX c i = Some r -> d ∈ rrs r -> known (lower (qname c)) i d.

Record good (s : cache) : Prop := {
  g_inv : Inv abi s;
  g_sort : insert_sort s = true;
  g_view : forall k c, view s k = Some c -> sound c;
}.

Lemma good_core s : good s -> Core abi s.
Proof. intros Gs. apply Gs. Qed.

Lemma view_key s k c : Inv abi s -> view s k = Some c -> lower (qname c) = k.
Proof. intros I (a & Hk & Ha)%view_some. destruct (cached abi s k a (b_core _ _ (i_base _ _ I)) Hk) as (c' & Hc' & <- & _). by simplify_eq. Qed.

Lemma good_shrinks s s' : good s -> Inv abi s' -> shrinks s s' -> insert_sort s' = true -> good s'.
Proof.
  intros [I So Hv] I' Sh So'. constructor; [done..|]. intros k c Hc i r d Hr Hd. destruct (Sh k c i r Hc Hr) as (c0 & r0 & Hc0 & Hr0 & Sd).
  rewrite (sd_rrs _ _ Sd) in Hd. rewrite (view_key s' k c I' Hc), <- (view_key s k c0 I Hc0). by eapply Hv.
Qed.

Lemma good_added n s s' : good s -> added abi global n s s' -> sound n -> insert_sort s' = true -> good s'.
Proof.
  intros [I So Hv] [I' _ Gr _] Hn So'. constructor; [done..|]. intros k c Hc i r d Hr Hd.
  rewrite (view_key s' k c I' Hc). destruct (Gr k c i r Hc Hr) as [(c0 & r0 & Hc0 & Hr0 & Sd)|(-> & new & Hnew & Sd)];
    rewrite (sd_rrs _ _ Sd) in Hd.
  - rewrite <- (view_key s k c0 I Hc0). by eapply Hv.
  - apply (Hn i new); [done|]. unfold adjust_ttl in Hd. by case_match.
Qed.

(** ** Entries of the caller *)

(** An address none of the caller's entries has. *)
Definition apart (s : cache) (b : nat) : Prop := forall b0 c0, own s b0 c0 -> b0 <> b.

(** A good state is left, with the caller's other entries. *)
Definition onward (s s' : cache) : Prop := good s' /\ foreign s s'.

Lemma foreign_own s s' b c : foreign s s' -> own s b c -> own s' b c.
Proof. intros F [Hb Nb]. by apply F. Qed.

Lemma apart_foreign s s' b : foreign s s' -> apart s' b -> apart s b.
Proof. intros F Ap b0 c0 Ow. by eapply Ap, foreign_own. Qed.

Lemma onward_refl s : good s -> onward s s.
Proof. intros Gs. split; [done|apply foreign_refl]. Qed.

Lemma onward_trans s1 s2 s3 : onward s1 s2 -> onward s2 s3 -> onward s1 s3.
Proof. intros [_ F] [Gs F']. split; [done|by etrans]. Qed.

(** An entry is freed; the others stay. *)
Lemma free_post s s1 b c : onward s s1 -> own s1 b c -> apart s b ->
  post (free_cent abi b) s1 (fun _ s2 => onward s s2 /\ forall b' c', b' <> b -> own s1 b' c' -> own s2 b' c').
Proof.
  intros [G1 F1] Ow Ap. pose proof (own_freed abi s1 b c (g_inv _ G1) Ow) as [I2 _ Sh]. pose proof Ow as [Hb Nb].
  eexists _, _. split; [by apply (free_cent_run abi s1 b c); [apply good_core|]|].
  assert (Hk : forall b' c', b' <> b -> own s1 b' c' -> own (free_state b s1) b' c').
  { intros b' c' Ne [Hb' Nb']. split; [|done]. simpl. by rewrite lookup_delete_ne. }
  split; [split|done].
  - apply (good_shrinks s1); [done..|apply G1].
  - intros b0 c0 Hb0 Nb0. assert (own s b0 c0) as Ow0 by done. apply Hk; [by eapply Ap|by apply F1].
Qed.

(** ** Looking up *)

Lemma lookup_cache_post s A wild : good s -> valid_name A ->
  post (lookup_cache abi now (wire A) wild) s (fun '(res, w) s' => onward s s' /\ match res with Some b => served now A wild s s' b w | None => True end).
Proof.
  intros Gs HA. unfold lookup_cache. pstep.
  eapply post_mono; [eapply post_sorted; [by apply (lookup_cache_r_post abi now s A wild (g_inv _ Gs))|apply costs_lookup_r|apply Gs]|].
  intros [[res w]|] s' ((F & _ & Hres) & So).
  - pstep. split; [|by destruct res]. split; [|apply F]. by eapply good_shrinks; [|apply F..|].
  - subst s'. eapply post_mono; [eapply post_sorted; [by apply (lookup_cache_rw_post abi now s A wild (g_inv _ Gs))|apply costs_lookup_rw|apply Gs]|].
    intros [res w] s' ((F' & Hres) & So'). split; [|by destruct res]. split; [|apply F']. by eapply good_shrinks; [|apply F'..|].
Qed.

(** The name of the entry that answers for a name: the name itself, or the wildcard
    of an ancestor. *)
Definition named_for (A : list (list byte)) (c : dns_cent_t) : Prop :=
  lower (qname c) = lower (wire A) \/
  exists pre B, A = pre ++ B /\ pre <> [] /\ lower (qname c) = lower (wire ([x2a] :: B)).

Lemma nearest_spec s ls a w : nearest s ls = (Some a, w) ->
  match w with
  | WNeg => exists c, cents s !! a = Some c /\ negative c = true
  | WLocnerr => exists c, cents s !! a = Some c /\ has (flags c) DF_LOCAL = true
  | _ => exists pre B, ls = pre ++ B /\ hash s !! lower (wire ([x2a] :: B)) = Some a
  end.
Proof.
  induction ls as [|l ls IH]; cbn [nearest]; [done|]. destruct (hash s !! lower (wire (l :: ls))) as [b|] eqn:Hk.
  2: { intros Hn. specialize (IH Hn). destruct w; [|..|done|done]; destruct IH as (pre & B & -> & HB); by exists (l :: pre), B. }
  destruct (cents s !! b) as [c|] eqn:Hc; [|done]. destruct (has (flags c) DF_NEGATIVE) eqn:En; [intros [= <- <-]; by exists c|].
  destruct (has (flags c) DF_WILD).
  - destruct (hash s !! lower (wire ([x2a] :: l :: ls))) as [d|] eqn:Hd; [|done]. intros [= <- <-]. by exists [], (l :: ls).
  - destruct (has (flags c) DF_LOCAL) eqn:El; [|done]. intros [= <- <-]. by exists c.
Qed.

(** What [lookup_cache] gives: a copy of a sound entry. *)
Record copied (A : list (list byte)) (s s' : cache) (b : nat) (w : wild_t) (c : dns_cent_t) : Prop := {
  cp_own : own s' b c;
  cp_apart : apart s b;
  cp_sound : sound c;
  cp_name : match w with WNeg => negative c = true | WLocnerr => has (flags c) DF_LOCAL = true | _ => named_for A c end;
}.

Lemma served_copied s s' A wild b w : good s -> valid_name A -> served now A wild s s' b w ->
  exists c, copied A s s' b w c /\ (wild = false -> lower (qname c) = lower (wire A)).
Proof.
  intros Gs HA [(a & c & c' & Hf & Ha & Hq & Hn & Hl & Hi & Hb & _) Hown Hoth]. exists c'.
  destruct (find_cached _ _ _ _ _ Hf) as [k Hk]. assert (Hv : view s k = Some c) by (apply view_some; eauto).
  assert (Hkey : lower (qname c') = k) by (rewrite Hq; by apply (view_key s k c (g_inv _ Gs))).
  assert (Hs : sound c').
  { intros i r d Hr Hd. rewrite Hi in Hr. destruct (RRARR_INDEX c i) as [r0|] eqn:Er; [|done]. cbn in Hr.
    destruct (expired now r0); [done|]. injection Hr as <-. rewrite Hq. by apply (g_view _ Gs k c Hv i r0). }
  assert (Hap : apart s b) by (by intros b0 c0 [? ?]; eapply Hoth).
  unfold find_spec in Hf. destruct (hash s !! lower (wire A)) as [a'|] eqn:HA'.
  - injection Hf as -> <-. rewrite (hash_inj abi s k _ a (good_core _ Gs) Hk HA') in Hkey. split; [|done]. constructor; [done..|]. by left.
  - destruct wild; [|done]. split; [|done]. constructor; [done..|]. destruct A as [|l A]; [done|]. cbn [tl] in Hf. apply nearest_spec in Hf.
    assert (Hw : forall pre B, A = pre ++ B -> hash s !! lower (wire ([x2a] :: B)) = Some a -> named_for (l :: A) c').
    { intros pre B -> HB. right. exists (l :: pre), B. split; [done|]. split; [done|]. by rewrite Hkey, (hash_inj abi s k _ a (good_core _ Gs) Hk HB). }
    destruct w; [destruct Hf as (pre & B & ? & ?); by eapply Hw..| |]; destruct Hf as (c0 & Hc0 & Hx); congruence.
Qed.

(** ** Resolving *)

Lemma local_owner_wire s tp ls nm : local_owner s tp ls = Some nm -> exists k, nm = wire (drop k ls).
Proof.
  induction ls as [|l ls IH]; cbn [local_owner]; [done|]. intros Hn.
  assert (local_owner s tp ls = Some nm -> exists k, nm = wire (drop k (l :: ls))) as Hup.
  { intros H. destruct (IH H) as [k ->]. by exists (S k). }
  repeat (case_match; try done); try by apply Hup. injection Hn as <-. by exists 0%nat.
Qed.

Lemma own_name s b c : good s -> own s b c -> exists A, valid_name A /\ qname c = wire A.
Proof. intros Gs [Hb _]. apply (co_name _ _ (k_cents _ _ (good_core _ Gs) _ _ Hb)). Qed.

Lemma local_soa_post s b c soa : good s -> own s b c -> post (local_soa c soa) s (fun _ s' => s' = s).
Proof.
  intros Gs Ow. destruct (own_name s b c Gs Ow) as (N & HN & EN). unfold local_soa. rewrite EN.
  pstep; [by pstep|]. pstep; [pstep; eapply post_lift; [apply rhnsegcnt_wire, HN|by pstep]|].
  pstep. eexists _, _. split; [by apply (getlocalowner_run abi s N T_SOA (good_core _ Gs))|].
  destruct (local_owner s T_SOA (tl N)) as [o|] eqn:Eo; [|by pstep]. destruct (local_owner_wire _ _ _ _ Eo) as [k ->].
  pstep. eapply post_lift; [apply rhnsegcnt_wire|by pstep]. apply Forall_drop. destruct HN as [HN _]. by destruct HN.
Qed.

(** An entry for a name, at an address of its own. *)
Definition offered (A : list (list byte)) (s s' : cache) (b : nat) : Prop := exists c,
  own s' b c /\ apart s b /\ sound c /\ (negative c = false -> named_for A c).

Definition delivered (A : list (list byte)) (s s' : cache) (rc : Z) (ent : option nat) : Prop :=
  resolved_code rc = true -> exists b, ent = Some b /\ offered A s s' b.

Lemma requery_some s b c thint queryts : good s -> own s b c -> exists x, requery c thint queryts = Some x.
Proof.
  intros Gs [Hb _]. pose proof (co_tag _ _ (k_cents _ _ (good_core _ Gs) _ _ Hb)) as Ht. unfold requery.
  destruct (negative c); [destruct (body c); [eauto|done]|]. destruct (flags_ttl c thint). eauto.
Qed.

Lemma status_post s A thint queryts soa : good s -> valid_name A ->
  post (lookup_cache_status abi now (wire A) thint queryts soa) s (fun '(rc, ent, _, _) s' => onward s s' /\
    match ent with
    | Some b => (rc = RC.OK \/ rc = RC_CACHED \/ rc = RC_STALE) /\ offered A s s' b
    | None => rc = RC.NAMEERR \/ rc = RC_NOTCACHED
    end).
Proof.
  intros Gs HA. unfold lookup_cache_status. pstep. eapply post_mono; [by apply lookup_cache_post|].
  intros [[b|] w] s1 [On Hs]; [|pstep; by auto]. destruct (served_copied s s1 A true b w Gs HA Hs) as (c & [Ow Ap Sc Hw] & _).
  pstep. eapply post_load; [apply Ow|]. destruct (has (flags c) DF_LOCAL) eqn:El.
  - destruct (has (flags c) DF_NEGATIVE || _) eqn:En.
    + pstep. eapply post_mono; [apply (local_soa_post s1 b c soa (proj1 On) Ow)|]. intros soa' s' ->.
      pstep. eapply post_mono; [by apply (free_post s s1 b c)|]. intros _ s2 [On2 _]. pstep. by auto.
    + apply orb_false_iff in En as [En Ew]. pstep. split; [done|]. split; [by left|]. exists c. split_and!; [done..|].
      intros _. destruct w; [done|done| |done]. unfold negative in Hw. congruence.
  - pstep. destruct (requery_some s1 b c thint queryts (proj1 On) Ow) as [[st fl] Hr]. eapply post_lift; [done|]. cbn beta iota. pstep.
    split; [done|]. split; [destruct st; auto|]. exists c. split_and!; [done..|]. intros Hn. destruct w; [done|done|congruence|congruence].
Qed.

(** What the servers are relied on for: they leave the cache good and the entries of
    others alone, and on success there is an entry for the name. *)
Context (servers_ok : forall A thint soa s, valid_name A -> good s ->
  post (query_servers (wire A) thint soa) s (fun '(rc, ent, _, _) s' => onward s s' /\ delivered A s s' rc ent)).

Lemma p_dns_resolve_post s A thint soa : good s -> valid_name A ->
  post (p_dns_resolve abi global now query_servers (wire A) thint soa) s (fun '(rc, ent, _) s' => onward s s' /\ delivered A s s' rc ent).
Proof.
  intros Gs HA. unfold p_dns_resolve. pstep. eapply post_mono; [by apply servers_ok|]. intros [[[rc ent] nocache] soa'] s1 [On Hd].
  destruct (Z.eqb_spec rc RC.OK) as [->|Ne]; [|by pstep]. destruct (Hd eq_refl) as (b & -> & c & Ow & Ap & Sc & Hn).
  destruct nocache; [by pstep|]. pstep. destruct On as [G1 F1]. pose proof Ow as [Hb Nb].
  eapply post_mono; [eapply post_sorted; [apply (add_cache_post abi global now s1 b c (g_inv _ G1) Hb Nb); left; apply G1|apply costs_add_cache|apply G1]|].
  intros _ s2 [Ad So]. assert (On2 : onward s s2).
  { split; [by eapply good_added|]. etrans; [exact F1|apply Ad]. }
  pose proof (foreign_own s1 s2 b c (ad_foreign _ _ _ _ _ Ad) Ow) as Ow2.
  pstep. eapply post_mono; [by apply (lookup_cache_post s2 A false (proj1 On2))|]. intros [[tc|] w] s3 [On3 Hs].
  2: { pstep. split; [by eapply onward_trans|]. intros _. exists b. split; [done|]. exists c. split_and!; [eapply foreign_own; [apply On3|done]|done..]. }
  destruct (served_copied s2 s3 A false tc w (proj1 On2) HA Hs) as (c3 & [Ow3 Ap3 Sc3 _] & Hq).
  pstep. eapply post_mono; [apply (free_post s s3 b c); [by eapply onward_trans|by eapply foreign_own; [apply On3|]|done]|].
  intros _ s4 [On4 Hk]. pstep. split; [done|]. intros _. exists tc. split; [done|]. exists c3.
  split_and!; [apply Hk; [|done]|by eapply apart_foreign; [apply On2|]|done|intros _; left; by apply Hq].
  intros ->. by eapply Ap3.
Qed.

Lemma free_opt_post s s1 ent A : onward s s1 -> match ent with Some b => offered A s s1 b | None => True end ->
  post (free_opt abi ent) s1 (fun _ s2 => onward s s2 /\ forall b' c', ent <> Some b' -> own s1 b' c' -> own s2 b' c').
Proof.
  intros On Hb. unfold free_opt. destruct ent as [b|]; [|pstep; by split]. destruct Hb as (c & Ow & Ap & _).
  eapply post_mono; [by apply (free_post s s1 b c)|]. intros _ s2 [On2 Hk]. split; [done|]. intros b' c' Ne. apply Hk. congruence.
Qed.

Lemma cached_resolve_post s A thint queryts soa : good s -> valid_name A ->
  post (p_dns_cached_resolve abi global now lndown_kluge linkdown query_servers (wire A) thint queryts soa) s
    (fun '(rc, ent, _) s' => onward s s' /\ delivered A s s' rc ent).
Proof.
  intros Gs HA. unfold p_dns_cached_resolve. pstep. eapply post_mono; [by apply status_post|]. intros [[[rc ent] fl] soa1] s1 [On1 Hent].
  assert (Ho : match ent with Some b => offered A s s1 b | None => True end) by (destruct ent; [apply Hent|done]).
  destruct (Z.eqb_spec rc RC.OK) as [->|N0].
  { pstep. split; [done|]. intros _. destruct ent as [b|]; [by exists b|]. by destruct Hent. }
  destruct (Z.eqb_spec rc RC.NAMEERR) as [->|N1]; [by pstep|].
  destruct (_ && linkdown).
  { pstep. eapply post_mono; [by eapply free_opt_post|]. intros _ s2 [On2 _]. by pstep. }
  destruct (Z.eqb_spec rc RC_CACHED) as [->|N2]; cbn [negb].
  { pstep. split; [done|]. intros _. destruct ent as [b|]; [by exists b|]. by destruct Hent. }
  pstep. eapply post_mono; [by apply (p_dns_resolve_post s1 A thint soa1 (proj1 On1))|]. intros [[rc2 ent2] soa2] s2 [On2 Hd].
  pose proof (onward_trans _ _ _ On1 On2) as On12.
  assert (Ho2 : match ent with Some b => offered A s s2 b | None => True end).
  { destruct ent as [b|]; [|done]. destruct Ho as (c & Ow & Hc). exists c. split; [|done]. by eapply foreign_own; [apply On2|]. }
  destruct (resolved_code rc2) eqn:Er.
  - destruct (Hd Er) as (b2 & -> & c2 & Ow2 & Ap2 & Hc2). pstep. eapply post_mono; [by eapply free_opt_post|]. intros _ s3 [On3 Hk].
    pstep. split; [done|]. intros _. exists b2. split; [done|]. exists c2.
    split_and!; [|by eapply apart_foreign; [apply On1|]|apply Hc2..]. apply Hk; [|done]. intros ->. destruct Ho as (c & Ow & _). by eapply Ap2.
  - destruct (_ && has fl CF_NOPURGE) eqn:Ef.
    + pstep. split; [done|]. intros _. destruct ent as [b|]; [by exists b|]. by rewrite andb_false_r in Ef.
    + pstep. eapply post_mono; [by eapply free_opt_post|]. intros _ s3 [On3 _]. pstep. split; [done|]. unfold delivered. congruence.
Qed.

(** What [r_dns_cached_resolve] gives: an entry with records under the name, or an error. *)
Definition answered_with (A : list (list byte)) (s s' : cache) (rc : Z) (ent : option nat) : Prop :=
  match ent with
  | Some b => rc = RC.OK /\ exists c, own s' b c /\ apart s b /\ sound c /\ negative c = false /\ named_for A c
  | None => rc <> RC.OK
  end.

Lemma resolve_post s A thint queryts soa : good s -> valid_name A ->
  post (r_dns_cached_resolve abi global now lndown_kluge linkdown query_servers (wire A) thint queryts soa) s
    (fun '(rc, ent, _) s' => onward s s' /\ answered_with A s s' rc ent).
Proof.
  intros Gs HA. unfold r_dns_cached_resolve. pstep. eapply post_mono; [by apply cached_resolve_post|]. intros [[rc ent] soa1] s1 [On Hd].
  destruct (resolved_code rc) eqn:Er.
  - destruct (Hd Er) as (b & -> & c & Ow & Ap & Sc & Hn). pstep. eapply post_load; [apply Ow|]. destruct (negative c) eqn:En.
    + pstep. eapply post_mono; [by apply (free_post s s1 b c)|]. intros _ s2 [On2 _]. by pstep.
    + pstep. split; [done|]. split; [done|]. exists c. split_and!; auto.
  - pstep. split; [done|]. intros ->. done.
Qed.

(** ** The cache keeps the contract of a resolver *)

Lemma take_copy_post s s1 b c : onward s s1 -> own s1 b c -> apart s b -> post (take_copy abi b) s1 (fun c' s2 => c' = c /\ onward s s2).
Proof.
  intros On Ow Ap. unfold take_copy. pstep. eapply post_load; [apply Ow|]. pstep. eapply post_mono; [by apply (free_post s s1 b c)|].
  intros _ s2 [On2 _]. by pstep.
Qed.

Lemma sound_servable s b c : good s -> own s b c -> sound c -> servable c.
Proof.
  intros Gs Ow Sc. constructor; [by eapply own_name|]. intros tp r d Hr Hd. unfold getrrset in Hr. destruct (negative c); [done|].
  destruct (rr_index tp) as [i|] eqn:Ei; [|done]. cbn in Hr. eapply known_ok; [by eapply Sc|done].
Qed.

Definition resolved_for (A : list (list byte)) (c : dns_cent_t) : Prop := sound c /\ negative c = false /\ named_for A c.
Definition cached_for (A : list (list byte)) (c : dns_cent_t) : Prop := sound c /\ lower (qname c) = lower (wire A).

Notation resolver := (cache_resolver abi global now lndown_kluge linkdown query_servers).

#[local] Instance cache_resolver_ok : ResolverOk (H := resolver) cache good resolved_for cached_for.
Proof.
  constructor.
  - intros A qtype t s HA Gs. cbn [dns_cached_resolve resolver]. enough (Hp : post (resolve_copy abi global now lndown_kluge linkdown query_servers (wire A) qtype t) s
      (fun r s' => good s' /\ match r with Found c => resolved_for A c /\ servable c | NotFound rc _ => rc <> RC.OK end)) by apply Hp.
    unfold resolve_copy. pstep. eapply post_mono; [by apply resolve_post|]. intros [[rc [b|]] soa] s1 [On Ha]; [|pstep; split; [apply On|done]].
    destruct Ha as (-> & c & Ow & Ap & Sc & Hn & Hnm). pstep. eapply post_mono; [by apply (take_copy_post s s1 b c)|].
    intros c' s2 [-> On2]. pstep. split; [apply On2|]. split; [done|]. by eapply sound_servable; [apply On|..].
  - intros A s HA Gs. cbn [lookup_copy resolver]. enough (Hp : post (copy_of_name abi now (wire A)) s
      (fun o s' => good s' /\ forall c, o = Some c -> cached_for A c /\ servable c)) by apply Hp.
    unfold copy_of_name. pstep. eapply post_mono; [by apply lookup_cache_post|]. intros [[b|] w] s1 [On Hs]; [|pstep; split; [apply On|done]].
    destruct (served_copied s s1 A false b w Gs HA Hs) as (c & [Ow Ap Sc _] & Hq). pstep. eapply post_mono; [by apply (take_copy_post s s1 b c)|].
    intros c' s2 [-> On2]. pstep. split; [apply On2|]. intros c' [= <-]. split; [split; [done|by apply Hq]|]. by eapply sound_servable; [apply On|..].
  - intros A tp s HA Gs. cbn [find_localowner resolver]. eexists _, _. split; [by apply (getlocalowner_run abi s A tp (good_core _ Gs))|].
    split; [done|]. intros nm Hn. destruct (local_owner_wire _ _ _ _ Hn) as [k ->]. exists (drop k (tl A)). split; [|done].
    replace (tl A) with (drop 1 A) by (by destruct A). by apply valid_drop, valid_drop.
Qed.

(** ** Answers from the cache *)

Notation resolve := (r_dns_cached_resolve abi global now lndown_kluge linkdown query_servers).

(** What is done with the copy [c] that the lookup gave in state [s1]. *)
Record handles (A : list (list byte)) (thint queryts soa : Z) (b : nat) (w : wild_t) (s1 : cache) (c : dns_cent_t)
    (out : option (Z * option nat * Z * cache)) : Prop := {
  ha_local : has (flags c) DF_LOCAL = true -> negative c = false -> w <> WLocnerr -> out = Some (RC.OK, Some b, soa, s1);
  ha_local_error : has (flags c) DF_LOCAL = true -> negative c = true \/ w = WLocnerr ->
    exists soa', out = Some (RC.NAMEERR, None, soa', free_state b s1);
  ha_fresh : forall r, has (flags c) DF_LOCAL = false -> negative c = false -> is_type thint = true -> counting c thint = Some r ->
    has (rflags r) CF_LOCAL = true \/ lndown_kluge && linkdown = false /\ timedout queryts r = false -> out = Some (RC.OK, Some b, soa, s1);
  ha_fresh_error : has (flags c) DF_LOCAL = false -> lndown_kluge && linkdown = false -> negative c = true -> timedout_nxdom queryts c = false ->
    out = Some (RC.NAMEERR, None, c_soa c, free_state b s1);
  ha_stale : forall r rc ent soa' s2, has (flags c) DF_LOCAL = false -> lndown_kluge && linkdown = false -> negative c = false -> is_type thint = true ->
    counting c thint = Some r -> has (rflags r) CF_LOCAL = false -> timedout queryts r = true ->
    p_dns_resolve abi global now query_servers (wire A) thint soa s1 = Some (rc, ent, soa', s2) -> resolved_code rc = false ->
    out = Some (if (rc =? RC.SERVFAIL) && has (rflags r) CF_NOPURGE then (RC.OK, Some b, soa', s2) else (rc, None, soa', free_state b s2));
  ha_link_down : has (flags c) DF_LOCAL = false -> lndown_kluge && linkdown = true ->
    negative c = true \/ negative c = false /\ is_type thint = true /\ (forall r, counting c thint = Some r -> has (rflags r) CF_LOCAL = false) ->
    out = Some (RC.SERVFAIL, None, soa, free_state b s1);
}.

Section Found.

Context (A : list (list byte)) (thint queryts soa : Z) (s s1 : cache) (b : nat) (w : wild_t) (c : dns_cent_t).
Context (Gs : good s) (HA : valid_name A).
Context (Hl : lookup_cache abi now (wire A) true s = Some ((Some b, w), s1)) (Hb : cents s1 !! b = Some c).

Notation status := (lookup_cache_status abi now (wire A) thint queryts soa).
Notation cached_resolve := (p_dns_cached_resolve abi global now lndown_kluge linkdown query_servers (wire A) thint queryts soa).

Lemma found_copy : onward s s1 /\ copied A s s1 b w c.
Proof.
  destruct (post_some _ _ _ _ _ (lookup_cache_post s A true Gs HA) Hl) as [On Hs].
  destruct (served_copied s s1 A true b w Gs HA Hs) as (c' & Hc & _). destruct (cp_own _ _ _ _ _ _ Hc) as [Hb' _].
  assert (c' = c) as -> by congruence. done.
Qed.

Lemma status_found : status s = (if has (flags c) DF_LOCAL then
    if has (flags c) DF_NEGATIVE || match w with WLocnerr => true | _ => false end then
      soa ← local_soa c soa; free_cent abi b;; mret (RC.NAMEERR, None, 0, soa)
    else mret (RC.OK, Some b, 0, soa)
  else '(stale, fl) ← lift (requery c thint queryts); mret (if (stale : bool) then RC_STALE else RC_CACHED, Some b, fl, soa)) s1.
Proof. unfold lookup_cache_status. rewrite (run_bind _ _ _ _ _ Hl). by rewrite (run_bind _ _ _ _ _ (run_load b c s1 Hb)). Qed.

Lemma finish rc soa' s' : cached_resolve s = Some (rc, Some b, soa', s') -> resolved_code rc = true -> Core abi s' -> cents s' !! b = Some c ->
  resolve (wire A) thint queryts soa s = Some (if negative c then (RC.NAMEERR, None, c_soa c, free_state b s') else (RC.OK, Some b, soa', s')).
Proof.
  intros E Er K' Hb'. unfold r_dns_cached_resolve. rewrite (run_bind _ _ _ _ _ E). cbn beta iota. rewrite Er.
  rewrite (run_bind _ _ _ _ _ (run_load b c s' Hb')). destruct (negative c); [|done].
  by rewrite (run_bind _ _ _ _ _ (free_cent_run abi s' b c K' Hb')).
Qed.

Lemma found_local : has (flags c) DF_LOCAL = true -> negative c = false -> w <> WLocnerr ->
  resolve (wire A) thint queryts soa s = Some (RC.OK, Some b, soa, s1).
Proof.
  intros El En Hw. destruct found_copy as [[G1 _] _].
  assert (Es : status s = Some (RC.OK, Some b, 0, soa, s1)) by (rewrite status_found, El; unfold negative in En; rewrite En; by destruct w).
  rewrite (finish RC_CACHED soa s1); [by rewrite En| |done|by apply good_core|done]. unfold p_dns_cached_resolve. by rewrite (run_bind _ _ _ _ _ Es).
Qed.

Lemma found_local_error : has (flags c) DF_LOCAL = true -> negative c = true \/ w = WLocnerr ->
  exists soa', resolve (wire A) thint queryts soa s = Some (RC.NAMEERR, None, soa', free_state b s1).
Proof.
  intros El Hw. destruct found_copy as [[G1 _] Hc]. destruct (local_soa_post s1 b c soa G1 (cp_own _ _ _ _ _ _ Hc)) as (soa' & s' & Eo & ->).
  exists soa'. assert (Es : status s = Some (RC.NAMEERR, None, 0, soa', free_state b s1)).
  { rewrite status_found, El. assert ((has (flags c) DF_NEGATIVE || match w with WLocnerr => true | _ => false end) = true) as ->.
    { destruct Hw as [Hn| ->]; [unfold negative in Hn; by rewrite Hn|by apply orb_true_r]. }
    rewrite (run_bind _ _ _ _ _ Eo). by rewrite (run_bind _ _ _ _ _ (free_cent_run abi s1 b c (good_core _ G1) Hb)). }
  unfold r_dns_cached_resolve, p_dns_cached_resolve. by rewrite (run_bind _ _ _ _ _ (run_bind _ _ _ _ _ Es)).
Qed.

Lemma status_remote st fl : has (flags c) DF_LOCAL = false -> requery c thint queryts = Some (st, fl) ->
  status s = Some (if (st : bool) then RC_STALE else RC_CACHED, Some b, fl, soa, s1).
Proof. intros El Er. rewrite status_found, El. unfold lift, mbind, M_bind. by rewrite Er. Qed.

(** A link that is down counts only for answers of servers. *)
Lemma link_up fl : lndown_kluge && linkdown = false -> lndown_kluge && negb (has fl CF_LOCAL) && linkdown = false.
Proof. by destruct lndown_kluge, linkdown, (has fl CF_LOCAL). Qed.

Lemma found_down st fl : has (flags c) DF_LOCAL = false -> lndown_kluge && linkdown = true -> requery c thint queryts = Some (st, fl) ->
  has fl CF_LOCAL = false -> resolve (wire A) thint queryts soa s = Some (RC.SERVFAIL, None, soa, free_state b s1).
Proof.
  intros El Hdown Er Hf. destruct found_copy as [[G1 _] _].
  assert (Ecr : cached_resolve s = Some (RC.SERVFAIL, None, soa, free_state b s1)).
  { unfold p_dns_cached_resolve. rewrite (run_bind _ _ _ _ _ (status_remote _ _ El Er)). cbn beta iota. rewrite Hf, andb_true_r, Hdown.
    assert (((if st then RC_STALE else RC_CACHED) =? RC.OK) = false /\ ((if st then RC_STALE else RC_CACHED) =? RC.NAMEERR) = false) as [-> ->] by (by destruct st).
    cbn [free_opt]. by rewrite (run_bind _ _ _ _ _ (free_cent_run abi s1 b c (good_core _ G1) Hb)). }
  unfold r_dns_cached_resolve. by rewrite (run_bind _ _ _ _ _ Ecr).
Qed.

Lemma requery_negative : negative c = true -> requery c thint queryts = Some (timedout_nxdom queryts c, 0).
Proof.
  intros Hn. destruct found_copy as [[G1 _] [[Hc _] _ _ _]]. pose proof (co_tag _ _ (k_cents _ _ (good_core _ G1) _ _ Hc)) as Hk.
  unfold requery, timedout_nxdom. rewrite Hn in *. by destruct (body c).
Qed.

Lemma found_fresh fl : has (flags c) DF_LOCAL = false -> lndown_kluge && negb (has fl CF_LOCAL) && linkdown = false ->
  requery c thint queryts = Some (false, fl) ->
  resolve (wire A) thint queryts soa s = Some (if negative c then (RC.NAMEERR, None, c_soa c, free_state b s1) else (RC.OK, Some b, soa, s1)).
Proof.
  intros El Hup Er. destruct found_copy as [[G1 _] _]. apply (finish RC_CACHED soa s1); [|done|by apply good_core|done].
  unfold p_dns_cached_resolve. rewrite (run_bind _ _ _ _ _ (status_remote _ _ El Er)). cbn beta iota. by rewrite Hup.
Qed.

Lemma found_stale fl rc ent soa' s2 : has (flags c) DF_LOCAL = false -> lndown_kluge && linkdown = false ->
  requery c thint queryts = Some (true, fl) -> negative c = false ->
  p_dns_resolve abi global now query_servers (wire A) thint soa s1 = Some (rc, ent, soa', s2) -> resolved_code rc = false ->
  resolve (wire A) thint queryts soa s =
    Some (if (rc =? RC.SERVFAIL) && has fl CF_NOPURGE then (RC.OK, Some b, soa', s2) else (rc, None, soa', free_state b s2)).
Proof.
  intros El Hup Er Hn Ep Ec. destruct found_copy as [[G1 _] [Ow _ _ _]].
  destruct (post_some _ _ _ _ _ (p_dns_resolve_post s1 A thint soa G1 HA) Ep) as [[G2 F2] _]. pose proof (foreign_own s1 s2 b c F2 Ow) as [Hb2 _].
  assert (Ecr : cached_resolve s = if (rc =? RC.SERVFAIL) && has fl CF_NOPURGE then Some (RC_STALE, Some b, soa', s2) else Some (rc, None, soa', free_state b s2)).
  { unfold p_dns_cached_resolve. rewrite (run_bind _ _ _ _ _ (status_remote _ _ El Er)). cbn beta iota. rewrite link_up by done.
    change (RC_STALE =? RC.OK) with false. change (RC_STALE =? RC.NAMEERR) with false. change (RC_STALE =? RC_CACHED) with false. cbn iota beta delta [negb].
    rewrite (run_bind _ _ _ _ _ Ep). cbn beta iota. rewrite Ec, andb_true_r.
    destruct ((rc =? RC.SERVFAIL) && has fl CF_NOPURGE); [done|]. cbn [free_opt]. by rewrite (run_bind _ _ _ _ _ (free_cent_run abi s2 b c (good_core _ G2) Hb2)). }
  destruct ((rc =? RC.SERVFAIL) && has fl CF_NOPURGE).
  - rewrite (finish _ _ _ Ecr); [by rewrite Hn|done|by apply good_core|done].
  - unfold r_dns_cached_resolve. rewrite (run_bind _ _ _ _ _ Ecr). cbn beta iota. by rewrite Ec.
Qed.

Lemma found_handled : handles A thint queryts soa b w s1 c (resolve (wire A) thint queryts soa s).
Proof.
  constructor.
  - apply found_local.
  - apply found_local_error.
  - intros r El Hn Ht Hc Hr. pose proof (requery_type c thint queryts Hn Ht) as Er. rewrite Hc in Er.
    assert (negb (has (rflags r) CF_LOCAL) && timedout queryts r = false) as E0 by (destruct Hr as [-> | [_ ->]]; [done|apply andb_false_r]).
    rewrite E0 in Er. rewrite (found_fresh _ El) with (2 := Er); [by rewrite Hn|].
    destruct Hr as [-> |[Hup _]]; [by rewrite andb_false_r|by apply link_up].
  - intros El Hup Hn Ht. pose proof (requery_negative Hn) as Er. rewrite Ht in Er.
    rewrite (found_fresh _ El (link_up _ Hup) Er). by rewrite Hn.
  - intros r rc ent soa' s2 El Hup Hn Ht Hc Hr Hd Ep Ec. pose proof (requery_type c thint queryts Hn Ht) as Er. rewrite Hc, Hr, Hd in Er.
    by apply (found_stale (rflags r) rc ent soa' s2).
  - intros El Hdown [Hn|(Hn & Ht & Hr)].
    + by apply (found_down _ _ El Hdown (requery_negative Hn)).
    + pose proof (requery_type c thint queryts Hn Ht) as Er. destruct (counting c thint) as [r|].
      * apply (found_down _ _ El Hdown Er). by apply Hr.
      * by apply (found_down _ _ El Hdown Er).
Qed.

End Found.

(** ** The theorems *)

(** C29: Resolving a name is safe, its result is sound, and servers are asked only when
    they must be. In a good cache, and with servers that keep their contract, it is
    defined and leaves the cache good and the entries of others alone; a success
    is an entry with known records under the name or its wildcard. If the cache has an
    entry: a local one is the result without asking a server, a local negative one as a
    name error, and so are local records of the type asked for, or a local alias. For
    other entries, and questions for one type, it matters whether the configuration asks for
    the check of the link and no server is up: then the result is the error SERVFAIL, whatever
    the cache has. If not: an entry whose records of the type, or whose alias, are not timed out
    is the result without asking a server, and so is a negative one that is not timed out, as
    a name error; an entry that is timed out is the result if the servers are asked and give
    SERVFAIL and its records are marked to be kept ([CF_NOPURGE]). *)
Theorem resolve_correct s A thint queryts soa : good s -> valid_name A ->
  post (resolve (wire A) thint queryts soa) s (fun '(rc, ent, _) s' => onward s s' /\ answered_with A s s' rc ent) /\
  forall b w s1 c, lookup_cache abi now (wire A) true s = Some ((Some b, w), s1) -> cents s1 !! b = Some c ->
    handles A thint queryts soa b w s1 c (resolve (wire A) thint queryts soa s).
Proof. intros Gs HA. split; [by apply resolve_post|]. intros b w s1 c Hl Hb. by apply found_handled. Qed.

(** C38: The daemon on its cache: the cache with these functions keeps the contract that the
    composition of answers relies on. Assume a cache that is good: its invariant holds
    and its records are known for their names, where known records are well-formed and
    have less than 2^16 bytes; and assume that the queries to the servers, which are
    a parameter, keep the cache good, leave the entries of others alone and yield
    entries of known records for the name asked for. Then whatever bytes arrive, they are
    processed as [processed] says: the cache stays good, well-formed queries and only
    those get an answer, and every record of an answer, also when allocations fail on
    the way, is known for its owner name or for the wildcard of an ancestor that
    stands for it, or it is the OPT record. *)
Theorem daemon_on_cache rnd us queryts data udp m r s : good s ->
  processed (P := good) (V := resolved_for) (W := cached_for) us queryts data udp m
    (process_query (H := resolver) rnd us queryts data udp m r s).
Proof. intros Gs. by apply process_query_spec. Qed.

End Correct.

(** ** Example *)

(** Records of addresses, and a server that knows one address for every name. *)
Definition some_address : list byte := [n2b 10; n2b 0; n2b 0; n2b 1].

Definition addresses (k : list byte) (i : nat) (d : list byte) : Prop := i = 0%nat /\ length d = 4%nat.

Definition address_server (name : list byte) (thint soa : Z) : M (Z * option nat * bool * Z) :=
  ent ← init_cent example_abi name 0 0 0;
  match ent with
  | None => mret (RC.SERVFAIL, None, false, soa)
  | Some b =>
      ok ← add_cent_rr example_abi b T_A 3600 1000 CF_AUTH some_address;
      if (ok : bool) then mret (RC.OK, Some b, false, soa)
      else free_cent example_abi b;; mret (RC.SERVFAIL, None, false, soa)
  end.

Lemma addresses_ok k i d tp : addresses k i d -> rr_index tp = Some i -> rr_ok tp d /\ zlen d < 2 ^ 16.
Proof.
  intros [-> Hd] Ht. assert (tp = T_A) as ->.
  { assert (Hall : forallb (fun t => bool_decide (t = T_A) || negb (bool_decide (rr_index t = Some 0%nat))) (map Z.of_nat (seq 1 51)) = true) by by vm_compute.
    assert (1 <= tp <= 51) as Hr.
    { unfold rr_index in Ht. destruct ((0 <=? tp - T_MIN) && (tp - T_MIN <? T_NUM)) eqn:Er; [|done].
      apply andb_true_iff in Er as [E1%Z.leb_le E2%Z.ltb_lt]. unfold T_MIN, T_NUM in *. lia. }
    rewrite forallb_forall in Hall. specialize (Hall tp). rewrite (bool_decide_true _ Ht), orb_false_r in Hall.
    eapply bool_decide_eq_true_1, Hall, in_map_iff. exists (Z.to_nat tp). split; [lia|apply in_seq; lia]. }
  split; [|unfold zlen; by rewrite Hd]. exists [Bytes d]. split; [|unfold data; cbn; by rewrite app_nil_r]. split; [|done].
  exists [Fixed 4]. split; [by left|]. rewrite <- Hd. apply PdnsdRecords.fits_fixed. constructor.
Qed.

Notation good_ex := (good example_abi addresses).

(** A new entry of the caller. *)
Lemma new_onward s c m : good_ex s -> cent_ok example_abi c -> (forall i, lent_at c i = None) ->
  onward example_abi addresses s (with_new c m s) /\ own (with_new c m s) (fresh s) c /\ apart s (fresh s).
Proof.
  intros Gs Ok Nl. pose proof (fine_with_new example_abi c m s (g_inv _ _ _ Gs) Ok Nl) as F. split; [split; [|apply F]|].
  - eapply good_shrinks; [exact Gs|apply F|apply F|apply Gs].
  - split; [split; [simpl; apply lookup_insert_eq|intros k; simpl; apply (fresh_unhashed example_abi s k), (good_core _ _ _ Gs)]|].
    intros b0 c0 [Hb0 _] ->. apply (k_fresh_c _ _ (good_core _ _ _ Gs)) in Hb0. lia.
Qed.

Lemma touched_onward s s1 s2 b : onward example_abi addresses s s1 -> apart s b -> undisturbed example_abi s1 s2 -> touches b s1 s2 ->
  onward example_abi addresses s s2.
Proof.
  intros [G1 F1] Ap Q T. destruct (u_quiet _ _ _ Q) as [I2 _ Sh]. split.
  - eapply good_shrinks; [exact G1|done|done|]. rewrite (t_sort _ _ _ T). apply G1.
  - intros b0 c0 Hb0 Nb0. destruct (F1 b0 c0 Hb0 Nb0) as [Hb1 Nb1]. rewrite (t_hash _ _ _ T). split; [|done].
    rewrite (t_other _ _ _ T); [done|]. by apply (Ap b0 c0).
Qed.

Lemma address_server_ok A thint soa s : valid_name A -> good_ex s ->
  post (address_server (wire A) thint soa) s (fun '(rc, ent, _, _) s' => onward example_abi addresses s s' /\ delivered addresses A s s' rc ent).
Proof.
  intros HA Gs. unfold address_server. pstep.
  eapply post_mono; [eapply post_and; [by apply (init_cent_post example_abi s A 0 0 0 (good_core _ _ _ Gs))|apply init_cent_name]|].
  intros res s1 ((m & [[-> ->]|(c & -> & -> & Ok & Hf & Hn & Nl)]) & Hq).
  { pstep. split; [|done]. split; [|by apply foreign_ext]. eapply good_shrinks; [exact Gs|by apply inv_mallocs, Gs|by apply shrinks_ext|apply Gs]. }
  destruct (new_onward s c m Gs Ok Nl) as (On & Ow & Ap). destruct (Hq _ eq_refl) as (c1 & Hc1 & Hq1).
  assert (c1 = c) as -> by (destruct Ow; congruence). pstep.
  eapply post_mono; [apply (own_add_data example_abi _ (fresh s) c T_A 0 3600 1000 CF_AUTH some_address (g_inv _ _ _ (proj1 On)) Ow);
    [done|unfold NRRTOT; lia|by rewrite Hf]|].
  intros ok s2 (Q & T & c2 & Ow2 & Lk & Hd). pose proof (touched_onward _ _ _ _ On Ap Q T) as On2. destruct ok.
  - pstep. split; [done|]. intros _. exists (fresh s). split; [done|]. exists c2. split; [done|]. split; [done|]. split.
    + intros i r d Hr Hdr. assert (d ∈ slot_data c2 i) as Hin by (unfold slot_data; by rewrite Hr). rewrite Hd in Hin.
      assert (slot_data c i = []) as E0 by (unfold slot_data; by rewrite Hn). rewrite E0 in Hin.
      destruct (decide _) as [[-> _]|_]; [|by apply elem_of_nil in Hin]. apply put_once_inv in Hin as [Hin| ->]; [by apply elem_of_nil in Hin|done].
    + intros _. left. by rewrite (lk_name _ _ Lk), Hq1.
  - pstep. eapply post_mono; [by apply (free_post example_abi addresses s s2 (fresh s) c2)|]. intros _ s3 [On3 _]. by pstep.
Qed.

Lemma empty_good m : good_ex (empty_cache m).
Proof. constructor; [apply empty_inv|done|]. intros k c Hc. done. Qed.

Lemma name1_valid : valid_name name1.
Proof. split; [repeat constructor; cbn; lia|vm_compute; lia]. Qed.

(** The name is asked for, and asked for again. *)
Definition ask (t : Z) (s : cache) : option (Z * option nat * Z * cache) :=
  r_dns_cached_resolve example_abi example_globals t false false address_server (wire name1) T_A t cundef s.

Definition state_of {X} (x : option (X * cache)) : cache := match x with Some (_, s) => s | None => empty_cache [] end.

Definition asked : cache := state_of (ask 1000 (empty_cache [])).
Definition found_again : cache := state_of (lookup_cache example_abi 1100 (wire name1) true asked).
Definition entry_again : dns_cent_t := default (Cent [] 0 0 0 (RR []) 0 0) (cents found_again !! 4%nat).

Lemma asked_good : good_ex asked.
Proof.
  destruct (resolve_post example_abi example_globals 1000 false false address_server addresses address_server_ok (empty_cache []) name1 T_A 1000 cundef
    (empty_good []) name1_valid) as ([[rc ent] soa] & s' & E & [[Gs _] _]). unfold asked, ask. by rewrite E.
Qed.

(** The second time no server is asked: the copy from the cache is the result. *)
Lemma resolve_correct_witness : ask 1100 asked = Some (RC.OK, Some 4%nat, cundef, found_again).
Proof.
  destruct (resolve_correct example_abi example_globals 1100 false false address_server addresses address_server_ok asked name1 T_A 1100 cundef
    asked_good name1_valid) as [_ H].
  destruct (H 4%nat WNone found_again entry_again) as [_ _ Hf _ _ _]; [by vm_compute..|].
  eapply Hf; [by vm_compute..|]. right. by vm_compute.
Defined.

(** The query for the address over UDP, answered from the server and then from the cache. *)
Definition ex_resolver (t : Z) : Resolver cache := cache_resolver example_abi example_globals t false false address_server.

Definition name1_query : list byte :=
  [n2b 18; n2b 52; x01; x00; x00; x01; x00; x00; x00; x00; x00; x00] ++ wire name1 ++ [x00; x01; x00; x01].

Definition name1_answer : list byte :=
  [n2b 18; n2b 52; n2b 129; n2b 128; x00; x01; x00; x01; x00; x00; x00; x00] ++ wire name1 ++
  [x00; x01; x00; x01; n2b 192; n2b 12; x00; x01; x00; x01; x00; x00; n2b 14; n2b 16; x00; x04] ++ some_address.

Example name1_answered : option_map fst (udp_answer (H := ex_resolver 1000) false 1024 1000 name1_query [] [] (empty_cache [])) = Some (Some name1_answer).
Proof. vm_compute. reflexivity. Qed.

Lemma daemon_on_cache_witness :
  processed (P := good_ex) (V := resolved_for addresses) (W := cached_for addresses) 1024 1100 name1_query (Some 512) []
    (process_query (H := ex_resolver 1100) false 1024 1100 name1_query (Some 512) [] [] asked).
Proof.
  exact (daemon_on_cache example_abi example_globals 1100 false false address_server addresses addresses_ok address_server_ok false 1024 1100 name1_query (Some 512) [] []
    asked asked_good).
Defined.
