(* ===== verification/PdnsdAnswerEx.v ===== *)
(** * A zone and answers from it

    A resolver that knows a small zone, which the theorems on answers apply to: a
    host with an address and a name server, and the address of this server. *)

From S2P Require Import Prelude.
From S2P Require Import PdnsdNames.
From S2P Require Import PdnsdCompress.
From S2P Require Import PdnsdHash.
From S2P Require Import PdnsdSort.
From S2P Require Import PdnsdRecords.
From S2P Require Import PdnsdAnswer.
From S2P Require Import PdnsdAnswerInv.
From S2P Require Import PdnsdAnswerMem.
From S2P Require Import PdnsdAnswerRun.
From S2P Require Import PdnsdQuery.
From S2P Require Import PdnsdCent.
From S2P Require Import PdnsdCache.
From S2P Require Import PdnsdCentInv.
From S2P Require Import PdnsdCacheInv.
From S2P Require Import PdnsdCacheOwn.
From S2P Require Import PdnsdDisk.
From S2P Require Import PdnsdCacheRun.
From S2P Require Import PdnsdRecordsRun.

Open Scope nat_scope.

(** ** The zone *)

Definition host : list (list byte) := [[n2b 97]; [n2b 120]].
Definition server : list (list byte) := [[n2b 98]; [n2b 120]].

Definition host_address : list byte := [n2b 1; n2b 2; n2b 3; n2b 4].
Definition server_address : list byte := [n2b 5; n2b 6; n2b 7; n2b 8].

(** An entry with the given sets. *)
Definition entry_of (A : list (list byte)) (fl : Z) (sets : list (Z * list (list byte))) : dns_cent_t :=
  Cent (wire A) 0 (zlen sets) fl
    (RR (map (fun i => list_find (fun x => rr_index (fst x) = Some i) sets ≫= fun x => Some (RRSet None 3600 1000 fl (snd (snd x)))) (seq 0 NRRTOT)))
    cundef cundef.

Definition host_entry : dns_cent_t := entry_of host 0 [(T_A, [host_address]); (T_NS, [wire server])].
Definition server_entry : dns_cent_t := entry_of server 0 [(T_A, [server_address])].

Definition zone (name : list byte) : option dns_cent_t :=
  if bool_decide (name = wire host) then Some host_entry
  else if bool_decide (name = wire server) then Some server_entry
  else None.

#[global] Instance zone_resolver : Resolver unit := {
  dns_cached_resolve name qtype t e := Some (match zone name with Some c => Found c | None => NotFound RC.NAMEERR cundef end, e);
  lookup_copy name e := Some (zone name, e);
  find_localowner name tp e := Some (None, e);
}.

Definition in_zone (A : list (list byte)) (c : dns_cent_t) : Prop := zone (wire A) = Some c.

(** The sets of an entry, by the types from 1 to 51. *)
Lemma entry_sets c l : forallb (fun tp => bool_decide (getrrset c tp = None) || existsb (fun x => bool_decide (fst x = tp) && bool_decide (rrs <$> getrrset c tp = Some (snd x))) l)
    (map Z.of_nat (seq 1 51)) = true ->
  forall tp r, getrrset c tp = Some r -> (tp, rrs r) ∈ l.
Proof.
  intros Hall tp r Hr. pose proof (getrrset_type _ _ _ Hr) as Ht. rewrite forallb_forall in Hall. specialize (Hall tp).
  rewrite Hr in Hall. destruct (orb_true_elim _ _ (Hall ltac:(apply in_map_iff; exists (Z.to_nat tp); split; [lia|apply in_seq; lia]))) as [Hn|Hx].
  - by apply bool_decide_eq_true in Hn.
  - apply existsb_exists in Hx as ([tp' ds] & Hin & [H1 H2]%andb_true_iff). apply bool_decide_eq_true in H1, H2. cbn in *.
    injection H2 as ->. subst tp'. by apply list_elem_of_In.
Qed.

Lemma rr_ok_address (d : list byte) : length d = 4 -> rr_ok T_A d.
Proof.
  intros Hl. exists [Bytes d]. split; [|unfold data; cbn; by rewrite app_nil_r]. split; [|done]. exists [Fixed 4]. split; [by left|].
  rewrite <- Hl. apply PdnsdRecords.fits_fixed. constructor.
Qed.

Lemma rr_ok_server A : valid_name A -> rr_ok T_NS (wire A).
Proof.
  intros HA. exists [Dname A]. split; [|unfold data; cbn; by rewrite app_nil_r]. split; [|done]. exists [Dom]. split; [by left|].
  apply fits_dom; [done|constructor].
Qed.

Lemma valid_host : valid_name host.
Proof. split; [repeat constructor; cbn; lia|vm_compute; lia]. Qed.

Lemma valid_server : valid_name server.
Proof. split; [repeat constructor; cbn; lia|vm_compute; lia]. Qed.

Lemma host_servable : servable host_entry.
Proof.
  constructor; [exists host; split; [apply valid_host|done]|]. intros tp r d Hr Hd.
  apply (entry_sets _ [(T_A, [host_address]); (T_NS, [wire server])]) in Hr; [|by vm_compute].
  apply elem_of_cons in Hr as [Hr|Hr%list_elem_of_singleton]; injection Hr as -> Hr; rewrite Hr in Hd; apply list_elem_of_singleton in Hd as ->.
  - split; [by apply rr_ok_address|done].
  - split; [apply rr_ok_server, valid_server|done].
Qed.

Lemma server_servable : servable server_entry.
Proof.
  constructor; [exists server; split; [apply valid_server|done]|]. intros tp r d Hr Hd.
  apply (entry_sets _ [(T_A, [server_address])]) in Hr; [|by vm_compute].
  apply list_elem_of_singleton in Hr; injection Hr as -> Hr; rewrite Hr in Hd; apply list_elem_of_singleton in Hd as ->.
  split; [by apply rr_ok_address|done].
Qed.

Lemma zone_servable name c : zone name = Some c -> servable c.
Proof.
  unfold zone. case_bool_decide; [intros [= <-]; apply host_servable|]. case_bool_decide; [intros [= <-]; apply server_servable|done].
Qed.

#[global] Instance zone_ok : ResolverOk unit (fun _ => True) in_zone in_zone.
Proof.
  constructor.
  - intros A qtype t e HA _. cbn. destruct (zone (wire A)) as [c|] eqn:Ez; eexists _, _; (split; [done|]); (split; [done|]); [|done].
    split; [done|by eapply zone_servable].
  - intros A e HA _. eexists _, _. split; [done|]. split; [done|]. intros c Hc. split; [done|by eapply zone_servable].
  - intros A tp e HA _. by eexists _, _.
Qed.

(** ** Answers *)

Definition host_question : question := Quest host T_A C_IN.

Lemma host_question_ok : Forall2 question_ok [element host_question] [host_question].
Proof. constructor; [|constructor]. constructor; [apply valid_host|done|done|done|cbn; unfold T_A; lia|cbn; unfold C_IN; lia]. Qed.

(** The query for the address of the host. *)
Definition host_query : list byte :=
  [n2b 171; n2b 205; x01; x00; x00; x01; x00; x00; x00; x00; x00; x00; x01; n2b 97; x01; n2b 120; x00; x00; x01; x00; x01].

(** The answer: the address, the name server as authority, and its address. *)
Definition host_answer : list byte :=
  [n2b 171; n2b 205; n2b 129; n2b 128; x00; x01; x00; x01; x00; x01; x00; x01;
   x01; n2b 97; x01; n2b 120; x00; x00; x01; x00; x01;
   n2b 192; n2b 12; x00; x01; x00; x01; x00; x00; n2b 14; n2b 16; x00; x04; n2b 1; n2b 2; n2b 3; n2b 4;
   n2b 192; n2b 12; x00; n2b 2; x00; x01; x00; x00; n2b 14; n2b 16; x00; x04; x01; n2b 98; n2b 192; n2b 14;
   n2b 192; n2b 49; x00; x01; x00; x01; x00; x00; n2b 14; n2b 16; x00; x04; n2b 5; n2b 6; n2b 7; n2b 8].

Example host_answered : udp_answer false 1024 1000 host_query [] [] tt = Some (Some host_answer, tt).
Proof. vm_compute. reflexivity. Qed.


Lemma process_query_correct_witness :
  processed (P := fun _ : unit => True) (V := in_zone) (W := in_zone) 1024 1000 host_query (Some 512%Z) []
    (process_query false 1024 1000 host_query (Some 512%Z) [] [] tt) /\
  process_query false 1024 1000 (take 20 host_query) (Some 512%Z) [] [] tt = Some (Some (mk_error_reply 43981 0 RC.FORMAT, []), Some 512%Z, [], tt).
Proof. split; [exact (process_query_correct false 1024 1000 host_query (Some 512%Z) [] [] tt I)|by vm_compute]. Defined.

Lemma udp_answer_correct_witness : (zlen host_answer <= 1024)%Z /\ GETINT16 host_answer 0 = GETINT16 host_query 0 /\
  process_query false 1024 1000 host_answer None [] [] tt = Some (None, None, [], tt).
Proof.
  destruct (udp_answer_correct (P := fun _ : unit => True) (V := in_zone) (W := in_zone) false 1024 1000 host_query [] [] tt) as (o & e & Hrun & _ & _ & _ & Ho);
    [by vm_compute|done|].
  destruct (Ho host_answer) as (H1 & _ & H2 & H3); [vm_compute in Hrun; vm_compute; congruence|]. split; [done|]. split; [done|]. apply H3.
Defined.

Lemma nothing_held msg s : holds msg s [].
Proof. constructor; [constructor|by intros ? ?%elem_of_nil]. Qed.

Lemma rrs2cent_correct_witness :
  post (rrs2cent example_abi host_answer 0 1000 1 (Scan 21 48 [] 0 no_edns)) (empty_cache [])
    (fun '(code, st') s' => sectioned example_abi host_answer (empty_cache []) (Scan 21 48 [] 0 no_edns) 1 code st' s').
Proof.
  apply (rrs2cent_correct example_abi host_answer 0 1000 1 (empty_cache []) (Scan 21 48 [] 0 no_edns)); [apply empty_inv|apply nothing_held|by vm_compute].
Defined.

Lemma answer_read_back_witness : exists h body c p sz qs',
  composed (V := in_zone) (W := in_zone) 1000 [host_question] 43981 1 (Some 512%Z) h body c /\ Forall2 same_question [host_question] qs' /\
  post (rrs2cent example_abi (hdr_bytes h ++ body) 0 1000 (length (c_an c)) (Scan p sz [] 0 no_edns)) (empty_cache []) (fun '(code, st) s' =>
    code = RC.OK /\ undisturbed example_abi (empty_cache []) s' /\ forall x, x ∈ c_an c -> PDNSD_NOT_CACHED_TYPE (r_type x) = false ->
      exists y, same_rec x y /\ recorded s' (sc_centa st) y).
Proof.
  destruct (compose_answer (E := unit) false 1024 1000 (Some 512%Z) false [element host_question] 43981 1 [] [] tt) as [[[[[h body]|] m] e]|] eqn:Hrun;
    [|vm_compute in Hrun; discriminate Hrun..].
  destruct (answer_read_back (P := fun _ : unit => True) (V := in_zone) (W := in_zone) example_abi false 1024 1000 (Some 512%Z) false
    [element host_question] [host_question] 43981 1 [] [] tt h body m e 0 1000 (empty_cache []) host_question_ok I Hrun (empty_inv _ _) eq_refl)
    as (c & p & sz & qs' & H1 & H2 & _ & H3).
  exists h, body, c, p, sz, qs'. split; [exact H1|]. split; [exact H2|exact H3].
Defined.
